(* ===== verification/_CoqProject ===== *)
-Q . S2P
Prelude.v
Hash.v
Frames.v
Messages.v
Wal.v
WalRead.v
WalInv.v
WalClaims.v
Cast.v
CastInv.v
CastLive.v
CastClaims.v
CastSend.v
CastExamples.v
Types.v
Slab.v
Occupancy.v
Compression.v
Users.v
Order.v
Book.v
Links.v
BookInv.v
Matching.v
MatchInv.v
FillQueue.v
SlotMatch.v
Engine.v
Feasible.v
Process.v
Migration.v
Recenter.v
Snapshot.v
SnapInv.v
SnapRestore.v
Guarantees.v
Ranking.v
Market.v
Priority.v
MarketRef.v
MarketClaims.v
Dedup.v
Tile.v
Stall.v
TileLog.v
Session.v
TileInv.v
TileClaims.v
Replay.v
ReplayClaims.v
TileRun.v
TileCkpt.v
Shadow.v
Tape.v
ShadowInv.v
ShadowRun.v
ShadowView.v
Feed.v
FeedView.v
FeedInv.v
FeedClaims.v
Examples.v
TileExamples.v
FeedExamples.v
Position.v
Margin.v
Admission.v
Gateway.v
GatewayInv.v
GatewayClaims.v
Funding.v
Liquidation.v
ShardState.v
Shard.v
ShardInv.v
ShardFill.v
ShardTick.v
ShardClaims.v
ShardMoney.v
RiskExamples.v
