(* ===== verification/Prelude.v ===== *)
(** * RSX: a verification library for the exchange's core

    RSX is a perpetual-futures exchange of separate processes.  The gateway
    takes orders from clients and passes them to the risk shard that owns the
    user; the shard checks margin, reserves it and passes the order to the
    matching engine of its symbol; the engine matches it on the order book and
    publishes the outcome; fills come back to the shards, which move
    positions, pay funding and liquidate.  Processes talk over casts: numbered
    records, appended to a write-ahead log and sent as datagrams, with lost
    ones asked for again and answered from memory or from the log.

    ** The order book and its engine: [src/rsx-book]

    - [Types]: domain types, order validation, fees, client order ids
      ([rsx-types/src/lib.rs], [fee_utils.rs], [client_order.rs]).
    - [Slab], [Occupancy], [Compression], [Users], [Order], [Book]: the data
      structures of the book, one file of the crate each, every operation
      translated.  The slab is an arena with an intrusive freelist, the
      occupancy a hierarchical bitmap proved to be a set with searches, the
      compression a sawtooth from prices to slots whose zone halves are walked
      in price order.
    - [Links], [BookInv]: the intrusive queues as lists, and the book's
      representation invariant, which every operation keeps.
    - [Matching], with [FillQueue], [MatchInv], [SlotMatch], [Engine],
      [Feasible], [Process]: [matching.rs] whole, refined to a reference pass
      over queues.  [Guarantees] states what a new order is promised: it
      returns; price-time priority; limits; conservation of quantity and
      positions; fill-or-kill, post-only and reduce-only; the events; the book
      top.  [Session] runs the operations of a book in any order from
      [Orderbook::new].
    - [Migration], [Recenter]: [migration.rs]; moving the book to a new mid
      loses, duplicates and reorders no order.
    - [Snapshot], [SnapInv], [SnapRestore]: [snapshot.rs]; a checkpoint
      restores the book it was taken from, and one that does not add up is
      refused with the message for the first thing wrong with it.

    ** The risk shard: [src/rsx-risk]

    - [Position], [Margin], [Funding], [Liquidation]: positions, accounts and
      index prices, portfolio margin and the pre-trade check, funding
      payments, the liquidation engine; each with exact arithmetic as its
      reference.
    - [ShardState], [Shard]: the shard's state and every method on it.
      [ShardInv], [ShardFill], [ShardTick]: its
      invariant along all of them.  [ShardClaims] and [ShardMoney] state what
      follows: no sequence of operations panics, fills count exactly once,
      positions and money are conserved, reserved margin is the sum of the
      open orders and is given back, funding is settled once per interval, a
      cold start rebuilds the shard.

    ** Casts and the log: [src/rsx-cast], [src/rsx-messages]

    - [Frames], [Messages]: headers, framing and the record types, byte by
      byte, with [CastRecord] as the interface between transport and records.
    - [Wal], with [WalRead], [WalInv], [WalClaims]: [wal.rs].  A log in which
      any system call of any flush may fail, which rotates and which crashes,
      refines a list of records.  Rotations delete segments whose last write
      is four hours old: [wal_life] is a log of any age with that pruning, in
      which what was acknowledged is found until it is that old ([wal_durable],
      [nak_answered]).
    - [Cast], with [CastInv], [CastLive], [CastClaims], [CastSend]: [cast.rs].
      The receiver hands on the stream in order and catches up once the
      network has delivered; the sender answers requests with the records of
      the log.

    ** The matching tile: [src/rsx-matching]

    - [Market]: what an exchange promises of a market, without slots or
      handles: two queues in priority and a position per user, [submit] for an
      order and [withdraw] for a cancel.  [Ranking], [Priority], [MarketRef]
      and [MarketClaims] prove that the engine refines it and that recentring
      and restoring a checkpoint change no market.
    - [Dedup]: [dedup.rs], and that an id executes once an hour.
    - [Tile]: [wire.rs], [wal.rs], [order.rs], [cancel.rs]; [EventSink] is the
      interface between the events of a match and where their records go.
      [Stall], [TileLog]: the producer stall and the fan-out of one frame to
      the log and two peers.  [TileInv], [TileClaims]: each request does to
      the market what the specification says, and to the log and the peers
      what it returns.
    - [Replay]: [recovery.rs], [checkpoint.rs] and the replay of [wal.rs].
      [ReplayClaims]: what a crash leaves of the log is the market that
      recovery serves.
    - [TileRun], [TileCkpt]: the loop of [cast_loop.rs] as a relation; its log
      is the record of its market, and a flushed market survives a crash, with
      a checkpoint, and without one while the log is whole.

    ** Market data: [src/rsx-marketdata]

    - [Shadow]: the book that a symbol's public records fold into, and the
      top, snapshots and deltas derived from it ([shadow.rs], [types.rs], the
      book's part of [apply.rs]).
    - [Feed]: the process's state, subscriptions and bounded queues, a live
      record with its gap check and a client's frame ([state.rs],
      [subscription.rs], [egress.rs], [apply.rs], [main.rs], [handler.rs]).
    - [Tape]: the specification - the market that a stream of records tells -
      and that a tile's records tell the tile's market.  [ShadowInv],
      [ShadowRun]: a shadow book mirrors the tape.  [ShadowView]: what it
      derives is the market's ladder of levels.
    - [FeedView], [FeedInv], [FeedClaims]: the table of levels that a
      subscriber makes of its frames, through overflowing queues, gaps,
      evictions and other clients, shows only levels of the market, exactly,
      and all that the snapshot depth has always reached: below that depth a
      snapshot tells nothing.  The client is subscribed to one symbol alone
      (a second subscription clears its queue), and each record finds room in
      the symbol's book ([feedable]).  From an order at the engine to a
      subscriber's table: [subscriber_sees_tile].

    ** The gateway: [src/rsx-gateway]

    - [Admission]: order ids, alignment, rate limits, the circuit breaker,
      client order ids and pending orders, one file of the crate each.  An id
      reads back from its halves and its digits, a limiter is a bucket in exact
      arithmetic, the breaker refines a two-state view, the counters of the
      pending orders count.
    - [Gateway]: the gateway's state, a client's frame, the routing of risk's
      records, wakes, the sweep and the shutdown ([state.rs], [egress.rs],
      [handler.rs], [route.rs], the events and the sweep of [cast_recv.rs] and
      [main.rs]).
    - [GatewayInv]: a gateway in order, and what each step keeps and tells.
      [GatewayClaims]: no session goes wrong, a retried order is not sent
      twice, an order can be cancelled while it lives, and every update for a
      user reaches each of his connections in order.  The reactor is one
      thread: a session is a list of its steps, between two points where a
      handler waits.

    ** Conventions

    Integers are [Z] at their width ([wrap_i64], [sat_u64], ...).  Code that
    may panic or loop returns [Res]: [Ok], [Panic] or [Diverged], the last when
    a fuel runs out.  A loop without structural recursion gets as fuel a number
    its data bounds - the slots of a slab, the bytes of a file, the slots of a
    ring - and the theorems say the result is [Ok], so the fuel is enough.
    Hash tables are [gmap]; code that walks one takes its order from
    [HashIter] ([Hash]), and its theorems hold for every order.  Theorems
    whose arithmetic could leave its width say within which bounds they hold.
    Clocks, random identifiers and process entropy are arguments; where a
    theorem needs clocks that do not go backwards, it says so.

    A well-formed book has, in every zone of its price map, a slot for each
    side ([spread_ok]); a mid of at least 5000 ticks gives that
    ([spread_wide]).  Around a smaller mid an outer zone can have one slot, the
    search for the best bid skips it, and the published top can be wrong:
    [Examples.small_mid_best_bid], and [Examples.btc_start_trades_through] for
    the start of [deploy/env/me-btc.env].  The theorems on books hold for the
    books with [spread_ok].

    The sessions of a tile and of the log under it ([tile_session],
    [wal_session]) read the clock within one stretch of four hours
    ([WalInv.Window], which may start anywhere), the log's retention, so that
    no segment is deleted under them; [wal_life] has no such bound.

    A directory of the log is a map from the first and last number in a
    segment's name to its bytes, and an active file; a flush reads the clock
    once; the outcome of each system call of a writer is given by a script, a
    failed write having written any prefix; reads succeed and the directory
    does not change while one reader lists and reads it.  A socket is the list
    of datagrams that wait.  The checksum function is the interface [Crc32c]:
    the log's theorems hold for every such function, since what a torn write
    leaves is a prefix of what was written; the receiver's say that what is
    handed on carried a valid checksum.

    ** Not modelled

    Sockets, threads, TLS replication, SQL persistence, leases and promotion,
    process configuration and metrics, the checkpoint's worker thread, the
    sockets, text frames and tokens of the gateway, the sockets and encodings
    of market data, mark prices, websockets, the recorder and the command line.  The manifest lists each with its reason. *)

From Stdlib Require Export ZArith Lia.
From stdpp Require Export base option list gmap.

#[global] Set Default Goal Selector "!".
Open Scope Z_scope.

(** ** Machine integers

    Integers are [Z] with their width written out.  The exchange ships the
    release profile of [Cargo.toml], which leaves overflow checks off: a plain
    [+], [-] or [*] wraps, a [saturating_*] clamps, a [checked_*] returns an
    option and [as] truncates. *)

Definition U8_MAX : Z := 255.
Definition U16_MAX : Z := 65535.
Definition U32_MAX : Z := 4294967295.
Definition U64_MAX : Z := 18446744073709551615.
Definition I64_MAX : Z := 9223372036854775807.
Definition I64_MIN : Z := -9223372036854775808.

Definition wrap_u8 (x : Z) : Z := x mod 2 ^ 8.
Definition wrap_u16 (x : Z) : Z := x mod 2 ^ 16.
Definition wrap_u32 (x : Z) : Z := x mod 2 ^ 32.
Definition wrap_u64 (x : Z) : Z := x mod 2 ^ 64.
Definition wrap_i64 (x : Z) : Z := (x + 2 ^ 63) mod 2 ^ 64 - 2 ^ 63.
Definition wrap_i128 (x : Z) : Z := (x + 2 ^ 127) mod 2 ^ 128 - 2 ^ 127.

(** [clamp lo hi] is Rust's [Ord::clamp]; [sat_i64] is the clamp into [i64]. *)
Definition clamp (lo hi x : Z) : Z := Z.max lo (Z.min hi x).
Definition sat_i64 (x : Z) : Z := clamp I64_MIN I64_MAX x.
Definition sat_u32 (x : Z) : Z := clamp 0 U32_MAX x.
Definition sat_u64 (x : Z) : Z := clamp 0 U64_MAX x.

Definition in_i64 (x : Z) : Prop := I64_MIN <= x <= I64_MAX.
Definition in_u32 (x : Z) : Prop := 0 <= x <= U32_MAX.
Definition in_u64 (x : Z) : Prop := 0 <= x <= U64_MAX.

Definition in_i64b (x : Z) : bool := (I64_MIN <=? x) && (x <=? I64_MAX).

(** [i64::try_from] of a wider value, and the [checked_*] operations. *)
Definition try_i64 (x : Z) : option Z := if in_i64b x then Some x else None.
Definition checked_mul_i64 (a b : Z) : option Z := try_i64 (a * b).
Definition checked_add_i64 (a b : Z) : option Z := try_i64 (a + b).

(** ** Results

    [Ok] is a normal return, [Panic] an abort of the process ([assert!],
    index out of bounds, division by zero, [expect]), and [Diverged] a loop
    whose fuel ran out: a theorem that code returns proves [Ok], so it also
    proves the fuel is enough. *)

Inductive Res (A : Type) : Type :=
| Ok (a : A)
| Panic
| Diverged.
Arguments Ok {A} a.
Arguments Panic {A}.
Arguments Diverged {A}.

#[global] Instance Res_ret : MRet Res := fun A a => Ok a.
#[global] Instance Res_bind : MBind Res := fun A B f m =>
  match m with Ok a => f a | Panic => Panic | Diverged => Diverged end.

(** [assert!(c)] *)
Definition assert_ok (c : bool) : Res unit := if c then Ok tt else Panic.

Definition expect {A} (o : option A) : Res A :=
  match o with Some a => Ok a | None => Panic end.

(** A fold whose step may fail: [for x in xs { .. }] over an accumulator. *)
Fixpoint rfold {A B} (f : B -> A -> Res B) (b : B) (xs : list A) : Res B :=
  match xs with
  | [] => Ok b
  | x :: tl => b' ← f b x; rfold f b' tl
  end.

(** [a / b] and [a % b] on [i64]: truncated, and they abort on a zero divisor
    and on [i64::MIN / -1]. *)
Definition div_i64 (a b : Z) : Res Z :=
  if (b =? 0) || ((a =? I64_MIN) && (b =? -1)) then Panic else Ok (Z.quot a b).
Definition rem_i64 (a b : Z) : Res Z :=
  if (b =? 0) || ((a =? I64_MIN) && (b =? -1)) then Panic else Ok (Z.rem a b).

(** ** Vectors

    A [Vec] is a list indexed by a machine integer.  [vget] is [Vec::get],
    [vindex] is the indexing operator, which aborts out of range, and [vset]
    is the assignment through it. *)

Definition zlen {A} (l : list A) : Z := Z.of_nat (length l).
Definition vget {A} (l : list A) (i : Z) : option A :=
  if 0 <=? i then l !! Z.to_nat i else None.
Definition vindex {A} (l : list A) (i : Z) : Res A := expect (vget l i).
Definition vput {A} (l : list A) (i : Z) (x : A) : list A :=
  if 0 <=? i then <[Z.to_nat i := x]> l else l.
Definition vset {A} (l : list A) (i : Z) (x : A) : Res (list A) :=
  if (0 <=? i) && (i <? zlen l) then Ok (vput l i x) else Panic.
Definition vmodify {A} (l : list A) (i : Z) (f : A -> A) : Res (list A) :=
  x ← vindex l i; Ok (vput l i (f x)).
(** [lo..hi] as a list. *)
Definition zrange (lo hi : Z) : list Z := seqZ lo (hi - lo).

(** ** Automation *)

Create HintDb rsx.
Create Rewrite HintDb rsx.
Create Rewrite HintDb rsxw.

(** Case analysis on the boolean comparisons of the code. *)
Ltac bool_to_prop :=
  repeat match goal with
  | H : (_ && _)%bool = true |- _ => apply andb_true_iff in H as [? ?]
  | H : (_ || _)%bool = false |- _ => apply orb_false_iff in H as [? ?]
  | H : (_ && _)%bool = false |- _ => apply andb_false_iff in H
  | H : (_ || _)%bool = true |- _ => apply orb_true_iff in H
  | H : negb _ = true |- _ => apply negb_true_iff in H
  | H : negb _ = false |- _ => apply negb_false_iff in H
  | H : (_ =? _)%Z = true |- _ => apply Z.eqb_eq in H
  | H : (_ =? _)%Z = false |- _ => apply Z.eqb_neq in H
  | H : (_ <? _)%Z = true |- _ => apply Z.ltb_lt in H
  | H : (_ <? _)%Z = false |- _ => apply Z.ltb_ge in H
  | H : (_ <=? _)%Z = true |- _ => apply Z.leb_le in H
  | H : (_ <=? _)%Z = false |- _ => apply Z.leb_gt in H
  end.

(** Split every [if] on a comparison in the goal. *)
Ltac case_if :=
  match goal with
  | |- context [if ?c then _ else _] =>
      match type of c with bool => destruct c eqn:? end
  end.
Ltac case_if_in H :=
  match type of H with
  | context [if ?c then _ else _] =>
      match type of c with bool => destruct c eqn:? end
  end.
(** The outermost [if] of an equation. *)
Ltac head_if H := match type of H with (if ?c then _ else _) = _ => destruct c eqn:? end.
Ltac split_ifs := repeat (case_if; bool_to_prop).

(** Linear arithmetic with division, remainder and the width bounds unfolded. *)
Ltac width_unfold :=
  unfold in_i64, in_u32, in_u64, U8_MAX, U16_MAX, U32_MAX, U64_MAX, I64_MAX, I64_MIN in *.
Ltac width_lia := width_unfold; lia.
Ltac dlia := width_unfold; Z.to_euclidean_division_equations; lia.
Ltac dnia := width_unfold; Z.to_euclidean_division_equations; nia.

(** ** Lemmas shared by the components *)

Lemma bind_ok {A B} (f : A -> Res B) (m : Res A) b :
  (m ≫= f) = Ok b -> exists a, m = Ok a /\ f a = Ok b.
Proof. destruct m; try discriminate. intros H. exists a. split; [reflexivity | exact H]. Qed.

Lemma assert_ok_inv c u : assert_ok c = Ok u -> c = true.
Proof. destruct c; [reflexivity | discriminate]. Qed.

Lemma expect_ok {A} (o : option A) a : expect o = Ok a <-> o = Some a.
Proof. destruct o; simpl; split; congruence. Qed.

Lemma rfold_app {A B} (f : B -> A -> Res B) xs ys b :
  rfold f b (xs ++ ys) = (b' ← rfold f b xs; rfold f b' ys).
Proof.
  revert b. induction xs as [|x xs IH]; intros b; simpl; [reflexivity|].
  destruct (f b x); simpl; auto.
Qed.

(** An invariant of a loop body is an invariant of the loop. *)
Lemma rfold_invariant {A B} (P : B -> Prop) (f : B -> A -> Res B) xs b :
  P b ->
  (forall b x, P b -> In x xs -> exists b', f b x = Ok b' /\ P b') ->
  exists b', rfold f b xs = Ok b' /\ P b'.
Proof.
  revert b. induction xs as [|x xs IH]; intros b Hb Hf; simpl; [eauto|].
  destruct (Hf b x Hb) as (b' & E & Hb'); [left; reflexivity|].
  rewrite E. simpl. apply IH; [exact Hb'|]. intros b2 y Hb2 Hy. apply Hf; [done | right; done].
Qed.

(** Invert a successful run of monadic code. *)
Ltac res_inv :=
  repeat match goal with
  | H : Ok _ = Ok _ |- _ => injection H as H; subst
  | H : Panic = Ok _ |- _ => discriminate H
  | H : Diverged = Ok _ |- _ => discriminate H
  | H : (_ ≫= _) = Ok _ |- _ =>
      let x := fresh "x" in let E := fresh "E" in
      apply bind_ok in H as (x & E & H)
  | H : mret _ = Ok _ |- _ => injection H as H; subst
  | H : assert_ok ?c = Ok _ |- _ => apply assert_ok_inv in H
  end.

(** *** Widths *)

Lemma wrap_i64_id x : in_i64 x -> wrap_i64 x = x.
Proof. unfold wrap_i64. width_unfold. intros. rewrite Z.mod_small; lia. Qed.

Lemma wrap_i64_range x : in_i64 (wrap_i64 x).
Proof.
  unfold wrap_i64. width_unfold.
  pose proof (Z.mod_pos_bound (x + 2 ^ 63) (2 ^ 64) ltac:(lia)). lia.
Qed.

Lemma wrap_i128_id x : - 2 ^ 127 <= x < 2 ^ 127 -> wrap_i128 x = x.
Proof. unfold wrap_i128. intros. rewrite Z.mod_small; lia. Qed.

Lemma wrap_u32_id x : in_u32 x -> wrap_u32 x = x.
Proof. unfold wrap_u32. width_unfold. intros. rewrite Z.mod_small; lia. Qed.

Lemma wrap_u32_range x : in_u32 (wrap_u32 x).
Proof.
  unfold wrap_u32. width_unfold.
  pose proof (Z.mod_pos_bound x (2 ^ 32) ltac:(lia)). lia.
Qed.

Lemma wrap_u64_id x : in_u64 x -> wrap_u64 x = x.
Proof. unfold wrap_u64. width_unfold. intros. rewrite Z.mod_small; lia. Qed.

Lemma sat_i64_id x : in_i64 x -> sat_i64 x = x.
Proof. unfold sat_i64, clamp. width_unfold. lia. Qed.

Lemma sat_i64_range x : in_i64 (sat_i64 x).
Proof. unfold sat_i64, clamp. width_unfold. lia. Qed.

Lemma sat_i64_mono x y : x <= y -> sat_i64 x <= sat_i64 y.
Proof. unfold sat_i64, clamp. lia. Qed.

Lemma sat_u32_id x : in_u32 x -> sat_u32 x = x.
Proof. unfold sat_u32, clamp. width_unfold. lia. Qed.

Lemma sat_u64_id x : in_u64 x -> sat_u64 x = x.
Proof. unfold sat_u64, clamp. width_unfold. lia. Qed.

Lemma clamp_range lo hi x : lo <= hi -> lo <= clamp lo hi x <= hi.
Proof. unfold clamp. lia. Qed.

Lemma clamp_id lo hi x : lo <= x <= hi -> clamp lo hi x = x.
Proof. unfold clamp. lia. Qed.

Lemma in_i64b_spec x : in_i64b x = true <-> in_i64 x.
Proof. unfold in_i64b, in_i64. rewrite andb_true_iff, !Z.leb_le. tauto. Qed.

Lemma try_i64_some x : in_i64 x -> try_i64 x = Some x.
Proof. intros H%in_i64b_spec. unfold try_i64. by rewrite H. Qed.

Lemma try_i64_none x : ~ in_i64 x -> try_i64 x = None.
Proof.
  intros H. unfold try_i64. destruct (in_i64b x) eqn:E; [|reflexivity].
  apply in_i64b_spec in E. contradiction.
Qed.

#[export] Hint Rewrite wrap_i64_id wrap_u32_id wrap_u64_id sat_i64_id sat_u32_id
  sat_u64_id using width_lia : rsxw.

(** *** Vectors *)

Lemma zlen_nonneg {A} (l : list A) : 0 <= zlen l.
Proof. unfold zlen. lia. Qed.

Lemma vget_some_range {A} (l : list A) i x : vget l i = Some x -> 0 <= i < zlen l.
Proof.
  unfold vget, zlen. destruct (0 <=? i) eqn:E; [|discriminate].
  intros H%lookup_lt_Some. bool_to_prop. lia.
Qed.

Lemma vget_lookup {A} (l : list A) i : 0 <= i -> vget l i = l !! Z.to_nat i.
Proof. unfold vget. intros. replace (0 <=? i) with true by lia. reflexivity. Qed.

Lemma vget_is_some {A} (l : list A) i : 0 <= i < zlen l -> exists x, vget l i = Some x.
Proof.
  intros H. rewrite vget_lookup by lia. apply lookup_lt_is_Some. unfold zlen in H. lia.
Qed.

Lemma vget_none {A} (l : list A) i : zlen l <= i -> vget l i = None.
Proof.
  intros H. pose proof (zlen_nonneg l). rewrite vget_lookup by lia.
  apply lookup_ge_None_2. unfold zlen in H. lia.
Qed.

Lemma vget_neg {A} (l : list A) i : i < 0 -> vget l i = None.
Proof. unfold vget. intros. replace (0 <=? i) with false by lia. reflexivity. Qed.

Lemma vindex_ok {A} (l : list A) i x : vindex l i = Ok x <-> vget l i = Some x.
Proof. apply expect_ok. Qed.

Lemma vindex_some {A} (l : list A) i x : vget l i = Some x -> vindex l i = Ok x.
Proof. apply expect_ok. Qed.

Lemma zlen_vput {A} (l : list A) i x : zlen (vput l i x) = zlen l.
Proof. unfold zlen, vput. case_if; [by rewrite length_insert | reflexivity]. Qed.

Lemma vget_vput_eq {A} (l : list A) i x : 0 <= i < zlen l -> vget (vput l i x) i = Some x.
Proof.
  intros H. unfold vget, vput. replace (0 <=? i) with true by lia.
  apply list_lookup_insert_eq. unfold zlen in H. lia.
Qed.

Lemma vget_vput_ne {A} (l : list A) i j x : i <> j -> vget (vput l i x) j = vget l j.
Proof.
  intros H. unfold vget, vput. destruct (0 <=? j) eqn:Ej; [|reflexivity].
  destruct (0 <=? i) eqn:Ei; [|reflexivity]. bool_to_prop.
  apply list_lookup_insert_ne. lia.
Qed.

Lemma vget_vput {A} (l : list A) i j x :
  vget (vput l i x) j =
  if (i =? j) && (0 <=? i) && (i <? zlen l) then Some x else vget l j.
Proof.
  destruct (i =? j) eqn:E; bool_to_prop; simpl.
  - subst j. destruct (0 <=? i) eqn:E1; simpl; bool_to_prop.
    + destruct (i <? zlen l) eqn:E2; bool_to_prop; [by apply vget_vput_eq|].
      unfold vput. replace (0 <=? i) with true by lia. rewrite list_insert_ge; [done|].
      unfold zlen in E2. lia.
    + unfold vput. replace (0 <=? i) with false by lia. done.
  - by apply vget_vput_ne.
Qed.

Lemma vset_ok {A} (l : list A) i x : 0 <= i < zlen l -> vset l i x = Ok (vput l i x).
Proof.
  intros H. unfold vset.
  replace ((0 <=? i) && (i <? zlen l))%bool with true by lia. reflexivity.
Qed.

Lemma vmodify_ok {A} (l : list A) i f x :
  vget l i = Some x -> vmodify l i f = Ok (vput l i (f x)).
Proof. intros H. unfold vmodify. by rewrite (vindex_some _ _ _ H). Qed.

Lemma vput_id {A} (l : list A) i x : vget l i = Some x -> vput l i x = l.
Proof.
  unfold vget, vput. case_if; [|discriminate]. apply list_insert_id.
Qed.

Lemma vput_vput {A} (l : list A) i x y : vput (vput l i x) i y = vput l i y.
Proof. unfold vput. case_if; [apply list_insert_insert_eq | reflexivity]. Qed.

Lemma vget_replicate {A} (n : Z) (x : A) i :
  0 <= i < n -> vget (replicate (Z.to_nat n) x) i = Some x.
Proof. intros H. rewrite vget_lookup by lia. apply lookup_replicate_2. lia. Qed.

Lemma zlen_replicate {A} (n : Z) (x : A) : 0 <= n -> zlen (replicate (Z.to_nat n) x) = n.
Proof. intros. unfold zlen. rewrite length_replicate. lia. Qed.

Lemma list_eq_vget {A} (l1 l2 : list A) :
  zlen l1 = zlen l2 -> (forall i, 0 <= i < zlen l1 -> vget l1 i = vget l2 i) -> l1 = l2.
Proof.
  unfold zlen. intros Hl H. apply list_eq. intros i.
  destruct (decide (i < length l1)%nat) as [Hi|Hi].
  - specialize (H (Z.of_nat i) ltac:(lia)). unfold vget in H.
    replace (0 <=? Z.of_nat i) with true in H by lia. by rewrite Nat2Z.id in H.
  - rewrite !lookup_ge_None_2; [done | lia | lia].
Qed.

Lemma in_zrange lo hi i : In i (zrange lo hi) <-> lo <= i < hi.
Proof. unfold zrange. rewrite <- list_elem_of_In, elem_of_seqZ. lia. Qed.

Lemma zrange_nodup lo hi : NoDup (zrange lo hi).
Proof. apply NoDup_seqZ. Qed.

Lemma zrange_length lo hi : lo <= hi -> zlen (zrange lo hi) = hi - lo.
Proof. intros. unfold zlen, zrange. rewrite length_seqZ. lia. Qed.

#[export] Hint Resolve zlen_nonneg wrap_i64_range wrap_u32_range sat_i64_range : rsx.
#[export] Hint Rewrite @zlen_vput : rsx.

(** Sum of a [Z]-valued measure over a list. *)
Definition zsum {A} (f : A -> Z) (l : list A) : Z := fold_right (fun x acc => f x + acc) 0 l.

Lemma zsum_cons {A} (f : A -> Z) x l : zsum f (x :: l) = f x + zsum f l.
Proof. reflexivity. Qed.

Lemma zsum_app {A} (f : A -> Z) l1 l2 : zsum f (l1 ++ l2) = zsum f l1 + zsum f l2.
Proof. induction l1; simpl; lia. Qed.

Lemma zsum_perm {A} (f : A -> Z) l1 l2 : l1 ≡ₚ l2 -> zsum f l1 = zsum f l2.
Proof. induction 1; simpl; lia. Qed.

Lemma zsum_ext {A} (f g : A -> Z) l : (forall x, In x l -> f x = g x) -> zsum f l = zsum g l.
Proof.
  induction l as [|x l IH]; simpl; intros H; [reflexivity|].
  rewrite (H x (or_introl eq_refl)), IH; [reflexivity|]. auto.
Qed.

Lemma zsum_nonneg {A} (f : A -> Z) l : (forall x, In x l -> 0 <= f x) -> 0 <= zsum f l.
Proof.
  induction l as [|x l IH]; simpl; intros H; [lia|].
  pose proof (H x (or_introl eq_refl)). assert (0 <= zsum f l) by auto. lia.
Qed.

Lemma zsum_le {A} (f g : A -> Z) l : (forall x, In x l -> f x <= g x) -> zsum f l <= zsum g l.
Proof.
  induction l as [|x l IH]; intros H; [done|]. simpl. pose proof (H x (or_introl eq_refl)).
  pose proof (IH (fun y Hy => H y (or_intror Hy))). lia.
Qed.

Lemma zsum_pos_in {A} (f : A -> Z) l : 0 < zsum f l -> exists x, In x l /\ 0 < f x.
Proof.
  induction l as [|x l IH]; [by unfold zsum|]. simpl. intros H. destruct (Z_lt_ge_dec 0 (f x)); [by eauto using in_eq|].
  destruct IH as (y & ? & ?); [lia|]. eauto.
Qed.

Lemma zrange_empty lo hi : hi <= lo -> zrange lo hi = [].
Proof. intros H. unfold zrange. apply seqZ_nil. lia. Qed.

Lemma vget_in {A} (l : list A) i x : vget l i = Some x -> In x l.
Proof.
  intros H. pose proof (vget_some_range _ _ _ H). rewrite vget_lookup in H by lia.
  by apply list_elem_of_In, (list_elem_of_lookup_2 _ _ _ H).
Qed.

Lemma zsum_vput {A} (f : A -> Z) l i x y :
  vget l i = Some x -> zsum f (vput l i y) = zsum f l - f x + f y.
Proof.
  intros H. pose proof (vget_some_range _ _ _ H) as Hr. rewrite vget_lookup in H by lia.
  unfold vput. replace (0 <=? i) with true by lia. apply list_elem_of_split_length in H as (l1 & l2 & -> & Hl).
  rewrite Hl, insert_app_r_alt by lia. rewrite Nat.sub_diag. simpl. rewrite !zsum_app. simpl. lia.
Qed.

Lemma vget_map {A B} (f : A -> B) l i : vget (List.map f l) i = f <$> vget l i.
Proof. unfold vget. case_if; [|done]. apply list_lookup_fmap. Qed.

Lemma zlen_app {A} (l1 l2 : list A) : zlen (l1 ++ l2) = zlen l1 + zlen l2.
Proof. unfold zlen. rewrite length_app. lia. Qed.

Lemma zlen_cons {A} (x : A) l : zlen (x :: l) = zlen l + 1.
Proof. unfold zlen. simpl. lia. Qed.

Lemma zlen_snoc {A} (l : list A) x : zlen (l ++ [x]) = zlen l + 1.
Proof. unfold zlen. rewrite length_app. simpl. lia. Qed.

Lemma zlen_map {A B} (f : A -> B) l : zlen (List.map f l) = zlen l.
Proof. unfold zlen. by rewrite length_map. Qed.

Lemma zsum_map {A B} (g : B -> Z) (f : A -> B) l : zsum g (List.map f l) = zsum (fun x => g (f x)) l.
Proof. induction l; [done|]. cbn [List.map]. by rewrite !zsum_cons, IHl. Qed.

Lemma existsb_false {A} (f : A -> bool) l : existsb f l = false <-> forall x, In x l -> f x = false.
Proof.
  induction l as [|a l IH]; cbn; [done|]. rewrite orb_false_iff, IH. split; [by intros [H1 H2] x [->|]; auto | auto].
Qed.

Lemma Forall_listfilter {A} (P : A -> Prop) f l : Forall P l -> Forall P (List.filter f l).
Proof. rewrite !List.Forall_forall. intros H x [Hx _]%filter_In. auto. Qed.

(** Sum of a measure over a finite map. *)
Definition msum {K A} `{Countable K} (f : K -> A -> Z) (m : gmap K A) : Z := zsum (fun kx => f kx.1 kx.2) (map_to_list m).

Lemma msum_insert_new {K A} `{Countable K} (f : K -> A -> Z) (m : gmap K A) k x :
  m !! k = None -> msum f (<[k := x]> m) = msum f m + f k x.
Proof. intros Hk. unfold msum. rewrite (zsum_perm _ _ _ (map_to_list_insert m k x Hk)), zsum_cons. cbn. lia. Qed.

Lemma msum_insert {K A} `{Countable K} (f : K -> A -> Z) (m : gmap K A) k x :
  msum f (<[k := x]> m) = msum f m - from_option (f k) 0 (m !! k) + f k x.
Proof.
  destruct (m !! k) as [y|] eqn:E; cbn; [|rewrite msum_insert_new by done; lia].
  rewrite <- (insert_delete_id m k y E) at 2. rewrite <- insert_delete_eq.
  rewrite !msum_insert_new by apply lookup_delete_eq. lia.
Qed.

(** A result known by computation to be a value. *)
Definition is_ok {A} (r : Res A) : bool := match r with Ok _ => true | _ => false end.

Lemma is_ok_value {A} (r : Res A) : is_ok r = true -> exists x, r = Ok x.
Proof. destruct r; [eauto|done|done]. Qed.

Definition ok_and {A} (P : A -> bool) (r : Res A) : bool := match r with Ok x => P x | _ => false end.

Lemma ok_and_value {A} (P : A -> bool) (r : Res A) x : ok_and P r = true -> r = Ok x -> P x = true.
Proof. by intros H ->. Qed.
