(* ===== verification/Hash.v ===== *)
(** * Hash: iteration of hash tables

    A hash map or set yields every entry once, in an order the program does
    not control.  Code that walks one takes the order from [HashIter]; what is
    proved about it holds for every order. *)

From S2P Require Import Prelude.

Class HashIter : Type := {
  iter_set : gset Z -> list Z;
  iter_map : forall {K A : Type} {dec : EqDecision K} {cnt : Countable K}, gmap K A -> list (K * A);
  iter_set_perm : forall s, iter_set s ≡ₚ elements s;
  iter_map_perm : forall {K A} {dec : EqDecision K} {cnt : Countable K} (m : gmap K A), iter_map m ≡ₚ map_to_list m;
}.

(** One such order, for evaluation. *)
#[export] Instance sorted_iter : HashIter := {
  iter_set := elements;
  iter_map := fun K A dec cnt m => map_to_list m;
  iter_set_perm := fun s => Permutation_refl _;
  iter_map_perm := fun K A dec cnt m => Permutation_refl _;
}.
