(* ===== verification/Frames.v ===== *)
(** * Frames: the wire format of the log and of the casts [rsx-cast/src]

    One format for disk, stream and datagram: a sixteen byte header and a
    payload, which is the memory image of a [repr(C)] record on a
    little-endian machine.  The checksum is the [crc32c] crate's, a parameter
    of everything here ([Crc32c]).  [CastRecord] is what the transport asks of
    a record type; the record types are in [Messages]. *)

From S2P Require Import Prelude.

(** ** Bytes *)

Definition is_byte (b : Z) : Prop := 0 <= b < 256.

(** [to_le_bytes] and [from_le_bytes] at [n] bytes. *)
Fixpoint le_bytes (n : nat) (x : Z) : list Z :=
  match n with
  | O => []
  | S n => x mod 256 :: le_bytes n (x / 256)
  end.

Fixpoint of_le (bs : list Z) : Z :=
  match bs with
  | [] => 0
  | b :: tl => b + 256 * of_le tl
  end.

Lemma le_bytes_length n x : length (le_bytes n x) = n.
Proof. revert x. induction n; intros x; cbn; auto. Qed.

Lemma le_bytes_bytes n x : Forall is_byte (le_bytes n x).
Proof.
  revert x. induction n; intros x; cbn; constructor; [|done]. unfold is_byte. apply Z.mod_pos_bound. lia.
Qed.

Lemma of_le_bytes n x : of_le (le_bytes n x) = x mod 2 ^ (8 * Z.of_nat n).
Proof.
  revert x. induction n as [|n IH]; intros x; cbn [le_bytes of_le]; [by rewrite Z.mod_1_r|].
  rewrite IH. replace (8 * Z.of_nat (S n)) with (8 + 8 * Z.of_nat n) by lia.
  rewrite Z.pow_add_r by lia. change (2 ^ 8) with 256. rewrite Z.rem_mul_r by lia. lia.
Qed.

Lemma of_le_range bs : Forall is_byte bs -> 0 <= of_le bs < 2 ^ (8 * zlen bs).
Proof.
  induction 1 as [|b bs Hb H IH]; [by cbn|]. unfold is_byte, zlen in *. cbn [of_le length].
  replace (8 * Z.of_nat (S (length bs))) with (8 + 8 * Z.of_nat (length bs)) by lia.
  rewrite Z.pow_add_r by lia. change (2 ^ 8) with 256. lia.
Qed.

Lemma le_of_le bs : Forall is_byte bs -> le_bytes (length bs) (of_le bs) = bs.
Proof.
  induction 1 as [|b bs Hb H IH]; [done|]. unfold is_byte in Hb. cbn [length le_bytes of_le].
  replace (b + 256 * of_le bs) with (b + of_le bs * 256) by lia.
  rewrite Z.mod_add, Z.mod_small, Z.div_add, Z.div_small, Z.add_0_l, IH by lia. done.
Qed.

(** ** Memory images of [repr(C)] structs

    A field is an unsigned or signed integer of some bytes, or padding, which
    the code writes as zeros. *)

Inductive Field : Type :=
| FU (bytes : nat)
| FI (bytes : nat)
| FPad (bytes : nat).

Definition field_size (f : Field) : nat := match f with FU n | FI n | FPad n => n end.
Definition layout_size (l : list Field) : nat := sum_list_with field_size l.

(** Values of the fields other than padding. *)
Fixpoint encode_fields (l : list Field) (vs : list Z) : list Z :=
  match l with
  | [] => []
  | FPad n :: l => replicate n 0 ++ encode_fields l vs
  | FU n :: l | FI n :: l => le_bytes n (hd 0 vs) ++ encode_fields l (tl vs)
  end.

(** Two's complement at [n] bytes. *)
Definition signed (n : nat) (x : Z) : Z := (x + 2 ^ (8 * Z.of_nat n - 1)) mod 2 ^ (8 * Z.of_nat n) - 2 ^ (8 * Z.of_nat n - 1).

Fixpoint decode_fields (l : list Field) (bs : list Z) : list Z :=
  match l with
  | [] => []
  | FPad n :: l => decode_fields l (drop n bs)
  | FU n :: l => of_le (take n bs) :: decode_fields l (drop n bs)
  | FI n :: l => signed n (of_le (take n bs)) :: decode_fields l (drop n bs)
  end.

Definition fits (f : Field) (x : Z) : Prop :=
  match f with
  | FU n => 0 <= x < 2 ^ (8 * Z.of_nat n)
  | FI n => (0 < n)%nat /\ - 2 ^ (8 * Z.of_nat n - 1) <= x < 2 ^ (8 * Z.of_nat n - 1)
  | FPad _ => False
  end.

Fixpoint fits_all (l : list Field) (vs : list Z) : Prop :=
  match l, vs with
  | [], [] => True
  | FPad _ :: l, _ => fits_all l vs
  | f :: l, v :: vs => fits f v /\ fits_all l vs
  | _, _ => False
  end.

Lemma encode_length l vs : length (encode_fields l vs) = layout_size l.
Proof.
  unfold layout_size. revert vs. induction l as [|f l IH]; intros vs; [done|].
  destruct f; cbn; rewrite length_app, ?le_bytes_length, ?length_replicate, IH; done.
Qed.

Lemma encode_bytes l vs : Forall is_byte (encode_fields l vs).
Proof.
  revert vs. induction l as [|f l IH]; intros vs; [constructor|].
  destruct f; cbn; apply Forall_app; split; auto using le_bytes_bytes. by apply Forall_replicate.
Qed.

Lemma signed_fits n x : fits (FI n) x -> signed n (x mod 2 ^ (8 * Z.of_nat n)) = x.
Proof.
  intros [Hn Hx]. unfold signed. set (h := 2 ^ (8 * Z.of_nat n - 1)) in *.
  assert (2 ^ (8 * Z.of_nat n) = 2 * h) as ->
    by (unfold h; rewrite <- Z.pow_succ_r by lia; f_equal; lia).
  rewrite Z.add_mod_idemp_l, Z.mod_small by lia. lia.
Qed.

(** Reading back what was written. *)
Lemma decode_encode l vs rest : fits_all l vs -> decode_fields l (encode_fields l vs ++ rest) = vs.
Proof.
  revert vs. induction l as [|f l IH]; intros vs; [by destruct vs|].
  destruct f as [n|n|n]; cbn [fits_all encode_fields decode_fields].
  - destruct vs as [|v vs]; [done|]. cbn [hd tl]. intros [Hv Hl]. rewrite <- app_assoc, take_app_length', drop_app_length'
      by (by rewrite le_bytes_length). rewrite of_le_bytes, Z.mod_small, IH by done. done.
  - destruct vs as [|v vs]; [done|]. cbn [hd tl]. intros [Hv Hl]. rewrite <- app_assoc, take_app_length', drop_app_length'
      by (by rewrite le_bytes_length). rewrite of_le_bytes, signed_fits, IH by done. done.
  - intros Hl. rewrite <- app_assoc, drop_app_length' by (by rewrite length_replicate). by apply IH.
Qed.

(** ** The header [header.rs] *)

(** The four reserved bytes are one number here. *)
Record WalHeader : Type := mkHeader {
  wh_version : Z;
  wh_pad0 : Z;
  wh_record_type : Z;
  wh_len : Z;
  wh_pad1 : Z;
  wh_crc32 : Z;
  wh_reserved : Z;
}.

(** [WalVersion::V1 as u8] *)
Definition WalVersion_V1 : Z := 1.
Definition HEADER_SIZE : nat := 16.

Definition WalHeader_new (record_type len crc32 : Z) : WalHeader :=
  mkHeader WalVersion_V1 0 record_type len 0 crc32 0.

Definition header_layout : list Field := [FU 1; FU 1; FU 2; FU 2; FU 2; FU 4; FU 4].

Definition to_bytes (h : WalHeader) : list Z :=
  encode_fields header_layout
    [wh_version h; wh_pad0 h; wh_record_type h; wh_len h; wh_pad1 h; wh_crc32 h; wh_reserved h].

Definition from_bytes (buf : list Z) : option WalHeader :=
  if (length buf <? HEADER_SIZE)%nat then None
  else
    match decode_fields header_layout buf with
    | [version; pad0; record_type; len; pad1; crc32; reserved] =>
        if version =? WalVersion_V1 then Some (mkHeader version pad0 record_type len pad1 crc32 reserved) else None
    | _ => None
    end.

(** ** Checksums and framing [encode_utils.rs] *)

Class Crc32c : Type := {
  compute_crc32 : list Z -> Z;
  crc32_u32 : forall p, in_u32 (compute_crc32 p);
}.

Section Framing.
Context `{Crc32c}.

Definition encode_record (record_type : Z) (payload : list Z) : list Z :=
  to_bytes (WalHeader_new record_type (wrap_u16 (zlen payload)) (compute_crc32 payload)) ++ payload.

End Framing.

(** [extract_seq] of [wal.rs]: the first eight bytes of the payload. *)
Definition extract_seq (payload : list Z) : option Z :=
  if (length payload <? 8)%nat then None else Some (of_le (take 8 payload)).

(** ** Records

    The [CastRecord] trait with [as_bytes] and [decode_payload] at the type,
    and what the transport relies on: the sequence number is the first eight
    bytes of the image, the image has the type's size and, for a record whose
    fields fit their widths, reads back as the record. *)
Class CastRecord (T : Type) : Type := {
  record_type : Z;
  rec_seq : T -> Z;
  set_seq : Z -> T -> T;
  size_of : nat;
  as_bytes : T -> list Z;
  decode_payload : list Z -> option T;
  record_fits : T -> Prop;
  record_type_u16 : 0 <= record_type <= U16_MAX;
  as_bytes_length : forall r, length (as_bytes r) = size_of;
  as_bytes_bytes : forall r, Forall is_byte (as_bytes r);
  as_bytes_seq : forall r, in_u64 (rec_seq r) -> extract_seq (as_bytes r) = Some (rec_seq r);
  set_seq_seq : forall s r, rec_seq (set_seq s r) = s;
  set_seq_fits : forall s r, in_u64 s -> record_fits r -> record_fits (set_seq s r);
  decode_as_bytes : forall r, record_fits r -> decode_payload (as_bytes r) = Some r;
  decode_short : forall p, (length p < size_of)%nat -> decode_payload p = None;
}.
Arguments record_type T {_}.
Arguments size_of T {_}.
Arguments record_fits {T _} r.

(** ** Headers and frames read back *)

Lemma header_length h : length (to_bytes h) = HEADER_SIZE.
Proof. unfold to_bytes. by rewrite encode_length. Qed.

Lemma from_to_bytes rt len crc rest :
  0 <= rt <= U16_MAX -> 0 <= len <= U16_MAX -> in_u32 crc ->
  from_bytes (to_bytes (WalHeader_new rt len crc) ++ rest) = Some (WalHeader_new rt len crc).
Proof.
  intros. unfold from_bytes. rewrite length_app, header_length. replace (_ <? _)%nat with false by (symmetry; apply Nat.ltb_ge; lia).
  unfold to_bytes at 1. rewrite decode_encode; [done|]. width_unfold.
  unfold WalHeader_new, WalVersion_V1. repeat split; cbn; lia.
Qed.

Lemma from_bytes_short buf : (length buf < HEADER_SIZE)%nat -> from_bytes buf = None.
Proof. intros. unfold from_bytes. by replace (_ <? _)%nat with true by (symmetry; by apply Nat.ltb_lt). Qed.

(** Only the first sixteen bytes matter. *)
Lemma from_bytes_app a b : length a = HEADER_SIZE -> from_bytes (a ++ b) = from_bytes a.
Proof.
  intros Ha. unfold from_bytes. rewrite length_app, Ha. replace (_ + _ <? _)%nat with false by (symmetry; apply Nat.ltb_ge; lia).
  rewrite Nat.ltb_irrefl. do 16 (destruct a as [|? a]; [done|]). destruct a; [|done]. done.
Qed.

Lemma extract_seq_some p s : extract_seq p = Some s -> (8 <= length p)%nat /\ s = of_le (take 8 p).
Proof. unfold extract_seq. case_if; [done|]. intros [= <-]. apply Nat.ltb_ge in Heqb. done. Qed.

(** *** Records given by a layout

    Every record type starts with its sequence number; the rest of its layout
    and the reading of its fields are the type's own. *)
Record RecordLayout (T : Type) : Type := mkLayout {
  ly_type : Z;
  ly_fields : list Field;
  ly_seq : T -> Z;
  ly_rest : T -> list Z;
  ly_make : list Z -> option T;
  ly_type_u16 : 0 <= ly_type <= U16_MAX;
  ly_make_ok : forall r, ly_make (ly_seq r :: ly_rest r) = Some r;
}.
Arguments mkLayout {T}.
Arguments ly_type {T}.
Arguments ly_fields {T}.
Arguments ly_seq {T}.
Arguments ly_rest {T}.
Arguments ly_make {T}.
Arguments ly_type_u16 {T}.
Arguments ly_make_ok {T}.

Section Layout.
Context {T : Type} (L : RecordLayout T).

Definition layout_values (r : T) : list Z := ly_seq L r :: ly_rest L r.
Definition layout_set_seq (s : Z) (r : T) : T := default r (ly_make L (s :: ly_rest L r)).
Definition layout_as_bytes (r : T) : list Z := encode_fields (FU 8 :: ly_fields L) (layout_values r).
Definition layout_decode (p : list Z) : option T :=
  if (length p <? layout_size (FU 8 :: ly_fields L))%nat then None
  else ly_make L (decode_fields (FU 8 :: ly_fields L) p).

(** [ly_make] reads a record off its values and nothing else. *)
Definition make_inverts : Prop := forall vs r, ly_make L vs = Some r -> ly_seq L r :: ly_rest L r = vs.
Definition make_total : Prop := forall r s, is_Some (ly_make L (s :: ly_rest L r)).

Lemma layout_set r s : make_inverts -> make_total ->
  ly_seq L (layout_set_seq s r) = s /\ ly_rest L (layout_set_seq s r) = ly_rest L r.
Proof.
  intros Hi Ht. unfold layout_set_seq. destruct (Ht r s) as [r' E]. rewrite E. cbn. apply Hi in E. by injection E.
Qed.

Lemma layout_length r : length (layout_as_bytes r) = layout_size (FU 8 :: ly_fields L).
Proof. apply encode_length. Qed.

Lemma layout_roundtrip r : fits_all (FU 8 :: ly_fields L) (layout_values r) -> layout_decode (layout_as_bytes r) = Some r.
Proof.
  intros Hf. unfold layout_decode. rewrite layout_length, Nat.ltb_irrefl. unfold layout_as_bytes.
  rewrite <- (app_nil_r (encode_fields _ _)), decode_encode by done. apply (ly_make_ok L).
Qed.

Lemma layout_extract r : in_u64 (ly_seq L r) -> extract_seq (layout_as_bytes r) = Some (ly_seq L r).
Proof.
  intros Hs. unfold extract_seq. rewrite layout_length. unfold layout_size. cbn [sum_list_with field_size].
  replace (_ <? _)%nat with false by (symmetry; apply Nat.ltb_ge; lia).
  unfold layout_as_bytes, layout_values. cbn [encode_fields hd tl]. rewrite take_app_length' by (by rewrite le_bytes_length).
  rewrite of_le_bytes, Z.mod_small; [done|]. width_unfold. cbn. lia.
Qed.

Definition layout_record (Hi : make_inverts) (Ht : make_total) : CastRecord T.
Proof.
  refine {|
    record_type := ly_type L; rec_seq := ly_seq L; set_seq := layout_set_seq;
    size_of := layout_size (FU 8 :: ly_fields L);
    as_bytes := layout_as_bytes; decode_payload := layout_decode;
    record_fits := fun r => fits_all (FU 8 :: ly_fields L) (layout_values r)
  |}.
  - apply (ly_type_u16 L).
  - apply layout_length.
  - intros r. apply encode_bytes.
  - apply layout_extract.
  - intros s r. by apply layout_set.
  - intros s r Hs. unfold layout_values. destruct (layout_set r s Hi Ht) as [-> ->]. cbn. intros [_ Hf]. split; [|done].
    width_unfold. lia.
  - apply layout_roundtrip.
  - intros p Hp. unfold layout_decode. by replace (_ <? _)%nat with true by (symmetry; by apply Nat.ltb_lt).
Defined.

End Layout.
