(* ===== verification/Messages.v ===== *)
(** * Messages: the exchange's wire records [rsx-messages/src/lib.rs]

    The records that flow between the tiles and into the log.  Each type is
    its fields without the padding, the layout of its memory image, and a
    [CastRecord] instance, whose laws hold by the layout.  Quantities and prices
    are the [i64] they wrap. *)

From S2P Require Import Prelude Frames.

(** An instance from a layout: the reader pattern matches on all the values. *)
Ltac by_layout L :=
  apply (layout_record L);
  [ intros vs r E; cbn in E; repeat (destruct vs as [|? vs]; try discriminate E); injection E as <-; reflexivity
  | intros r s; cbn; eauto ].

Definition RECORD_FILL : Z := 0.
Definition RECORD_BBO : Z := 1.
Definition RECORD_ORDER_INSERTED : Z := 2.
Definition RECORD_ORDER_CANCELLED : Z := 3.
Definition RECORD_ORDER_DONE : Z := 4.
Definition RECORD_CONFIG_APPLIED : Z := 5.
Definition RECORD_ORDER_ACCEPTED : Z := 7.
Definition RECORD_MARK_PRICE : Z := 8.
Definition RECORD_ORDER_REQUEST : Z := 9.
Definition RECORD_ORDER_RESPONSE : Z := 10.
Definition RECORD_CANCEL_REQUEST : Z := 11.
Definition RECORD_ORDER_FAILED : Z := 12.
Definition RECORD_LIQUIDATION : Z := 13.
Definition GW_STREAM_ID : Z := 200.
Definition CANCEL_REASON_USER_CANCEL : Z := 0.
Definition CANCEL_REASON_REDUCE_ONLY : Z := 1.
Definition CANCEL_REASON_EXPIRY : Z := 2.
Definition CANCEL_REASON_SYSTEM : Z := 3.
Definition CANCEL_REASON_POST_ONLY_REJECT : Z := 4.
Definition CANCEL_REASON_OTHER : Z := 5.

Record FillRecord : Type := mkWireFill {
  wf_seq : Z;
  wf_ts_ns : Z;
  wf_symbol_id : Z;
  wf_taker_user_id : Z;
  wf_maker_user_id : Z;
  wf_taker_fee_bps : Z;
  wf_taker_order_id_hi : Z;
  wf_taker_order_id_lo : Z;
  wf_maker_order_id_hi : Z;
  wf_maker_order_id_lo : Z;
  wf_price : Z;
  wf_qty : Z;
  wf_taker_side : Z;
  wf_reduce_only : Z;
  wf_tif : Z;
  wf_post_only : Z;
  wf_maker_fee_bps : Z;
  wf_gw_in_ns : Z;
  wf_risk_in_ns : Z;
  wf_me_in_ns : Z;
  wf_match_done_ns : Z;
  wf_gw_out_ns : Z;
}.

Definition FillRecord_layout : RecordLayout FillRecord.
Proof.
  refine (mkLayout RECORD_FILL
    [FU 8; FU 4; FU 4; FU 4; FI 4; FU 8; FU 8; FU 8; FU 8; FI 8; FI 8; FU 1; FU 1; FU 1; FU 1; FI 4; FU 8; FU 8;
     FU 8; FU 8; FU 8]
    wf_seq
    (fun r => [wf_ts_ns r; wf_symbol_id r; wf_taker_user_id r; wf_maker_user_id r; wf_taker_fee_bps r;
      wf_taker_order_id_hi r; wf_taker_order_id_lo r; wf_maker_order_id_hi r; wf_maker_order_id_lo r; wf_price r;
      wf_qty r; wf_taker_side r; wf_reduce_only r; wf_tif r; wf_post_only r; wf_maker_fee_bps r; wf_gw_in_ns r;
      wf_risk_in_ns r; wf_me_in_ns r; wf_match_done_ns r; wf_gw_out_ns r])
    (fun vs => match vs with
      | [seq; ts_ns; symbol_id; taker_user_id; maker_user_id; taker_fee_bps; taker_order_id_hi; taker_order_id_lo;
         maker_order_id_hi; maker_order_id_lo; price; qty; taker_side; reduce_only; tif; post_only; maker_fee_bps;
         gw_in_ns; risk_in_ns; me_in_ns; match_done_ns; gw_out_ns] =>
          Some (mkWireFill seq ts_ns symbol_id taker_user_id maker_user_id taker_fee_bps taker_order_id_hi taker_order_id_lo
            maker_order_id_hi maker_order_id_lo price qty taker_side reduce_only tif post_only maker_fee_bps gw_in_ns
            risk_in_ns me_in_ns match_done_ns gw_out_ns)
      | _ => None end) _ _).
  - done.
  - by intros [].
Defined.

#[export] Instance FillRecord_record : CastRecord FillRecord.
Proof. by_layout FillRecord_layout. Defined.

Record BboRecord : Type := mkBboRecord {
  wb_seq : Z;
  wb_ts_ns : Z;
  wb_symbol_id : Z;
  wb_bid_px : Z;
  wb_bid_qty : Z;
  wb_bid_count : Z;
  wb_ask_px : Z;
  wb_ask_qty : Z;
  wb_ask_count : Z;
}.

Definition BboRecord_layout : RecordLayout BboRecord.
Proof.
  refine (mkLayout RECORD_BBO
    [FU 8; FU 4; FPad 4; FI 8; FI 8; FU 4; FPad 4; FI 8; FI 8; FU 4; FPad 4; FPad 56]
    wb_seq
    (fun r => [wb_ts_ns r; wb_symbol_id r; wb_bid_px r; wb_bid_qty r; wb_bid_count r; wb_ask_px r; wb_ask_qty r;
      wb_ask_count r])
    (fun vs => match vs with
      | [seq; ts_ns; symbol_id; bid_px; bid_qty; bid_count; ask_px; ask_qty; ask_count] =>
          Some (mkBboRecord seq ts_ns symbol_id bid_px bid_qty bid_count ask_px ask_qty ask_count)
      | _ => None end) _ _).
  - done.
  - by intros [].
Defined.

#[export] Instance BboRecord_record : CastRecord BboRecord.
Proof. by_layout BboRecord_layout. Defined.

Record OrderInsertedRecord : Type := mkOrderInsertedRecord {
  wn_seq : Z;
  wn_ts_ns : Z;
  wn_symbol_id : Z;
  wn_user_id : Z;
  wn_order_id_hi : Z;
  wn_order_id_lo : Z;
  wn_price : Z;
  wn_qty : Z;
  wn_side : Z;
  wn_reduce_only : Z;
  wn_tif : Z;
  wn_post_only : Z;
}.

Definition OrderInsertedRecord_layout : RecordLayout OrderInsertedRecord.
Proof.
  refine (mkLayout RECORD_ORDER_INSERTED
    [FU 8; FU 4; FU 4; FU 8; FU 8; FI 8; FI 8; FU 1; FU 1; FU 1; FU 1; FPad 4]
    wn_seq
    (fun r => [wn_ts_ns r; wn_symbol_id r; wn_user_id r; wn_order_id_hi r; wn_order_id_lo r; wn_price r; wn_qty r; wn_side r;
      wn_reduce_only r; wn_tif r; wn_post_only r])
    (fun vs => match vs with
      | [seq; ts_ns; symbol_id; user_id; order_id_hi; order_id_lo; price; qty; side; reduce_only; tif; post_only] =>
          Some (mkOrderInsertedRecord seq ts_ns symbol_id user_id order_id_hi order_id_lo price qty side reduce_only tif post_only)
      | _ => None end) _ _).
  - done.
  - by intros [].
Defined.

#[export] Instance OrderInsertedRecord_record : CastRecord OrderInsertedRecord.
Proof. by_layout OrderInsertedRecord_layout. Defined.

Record OrderCancelledRecord : Type := mkOrderCancelledRecord {
  wc_seq : Z;
  wc_ts_ns : Z;
  wc_symbol_id : Z;
  wc_user_id : Z;
  wc_order_id_hi : Z;
  wc_order_id_lo : Z;
  wc_remaining_qty : Z;
  wc_reason : Z;
  wc_reduce_only : Z;
  wc_tif : Z;
  wc_post_only : Z;
}.

Definition OrderCancelledRecord_layout : RecordLayout OrderCancelledRecord.
Proof.
  refine (mkLayout RECORD_ORDER_CANCELLED
    [FU 8; FU 4; FU 4; FU 8; FU 8; FI 8; FU 1; FU 1; FU 1; FU 1; FPad 4; FPad 8]
    wc_seq
    (fun r => [wc_ts_ns r; wc_symbol_id r; wc_user_id r; wc_order_id_hi r; wc_order_id_lo r; wc_remaining_qty r; wc_reason r;
      wc_reduce_only r; wc_tif r; wc_post_only r])
    (fun vs => match vs with
      | [seq; ts_ns; symbol_id; user_id; order_id_hi; order_id_lo; remaining_qty; reason; reduce_only; tif; post_only] =>
          Some (mkOrderCancelledRecord seq ts_ns symbol_id user_id order_id_hi order_id_lo remaining_qty reason reduce_only tif post_only)
      | _ => None end) _ _).
  - done.
  - by intros [].
Defined.

#[export] Instance OrderCancelledRecord_record : CastRecord OrderCancelledRecord.
Proof. by_layout OrderCancelledRecord_layout. Defined.

Record OrderDoneRecord : Type := mkOrderDoneRecord {
  wd_seq : Z;
  wd_ts_ns : Z;
  wd_symbol_id : Z;
  wd_user_id : Z;
  wd_order_id_hi : Z;
  wd_order_id_lo : Z;
  wd_filled_qty : Z;
  wd_remaining_qty : Z;
  wd_final_status : Z;
  wd_reduce_only : Z;
  wd_tif : Z;
  wd_post_only : Z;
  wd_cancel_reason : Z;
  wd_gw_in_ns : Z;
  wd_risk_in_ns : Z;
  wd_me_in_ns : Z;
  wd_match_done_ns : Z;
  wd_gw_out_ns : Z;
}.

Definition OrderDoneRecord_layout : RecordLayout OrderDoneRecord.
Proof.
  refine (mkLayout RECORD_ORDER_DONE
    [FU 8; FU 4; FU 4; FU 8; FU 8; FI 8; FI 8; FU 1; FU 1; FU 1; FU 1; FU 1; FPad 3; FU 8; FU 8; FU 8; FU 8; FU 8;
     FPad 24]
    wd_seq
    (fun r => [wd_ts_ns r; wd_symbol_id r; wd_user_id r; wd_order_id_hi r; wd_order_id_lo r; wd_filled_qty r;
      wd_remaining_qty r; wd_final_status r; wd_reduce_only r; wd_tif r; wd_post_only r; wd_cancel_reason r;
      wd_gw_in_ns r; wd_risk_in_ns r; wd_me_in_ns r; wd_match_done_ns r; wd_gw_out_ns r])
    (fun vs => match vs with
      | [seq; ts_ns; symbol_id; user_id; order_id_hi; order_id_lo; filled_qty; remaining_qty; final_status;
         reduce_only; tif; post_only; cancel_reason; gw_in_ns; risk_in_ns; me_in_ns; match_done_ns; gw_out_ns] =>
          Some (mkOrderDoneRecord seq ts_ns symbol_id user_id order_id_hi order_id_lo filled_qty remaining_qty final_status reduce_only tif
            post_only cancel_reason gw_in_ns risk_in_ns me_in_ns match_done_ns gw_out_ns)
      | _ => None end) _ _).
  - done.
  - by intros [].
Defined.

#[export] Instance OrderDoneRecord_record : CastRecord OrderDoneRecord.
Proof. by_layout OrderDoneRecord_layout. Defined.

Record ConfigAppliedRecord : Type := mkConfigAppliedRecord {
  wg_seq : Z;
  wg_ts_ns : Z;
  wg_symbol_id : Z;
  wg_config_version : Z;
  wg_effective_at_ms : Z;
  wg_applied_at_ns : Z;
}.

Definition ConfigAppliedRecord_layout : RecordLayout ConfigAppliedRecord.
Proof.
  refine (mkLayout RECORD_CONFIG_APPLIED
    [FU 8; FU 4; FPad 4; FU 8; FU 8; FU 8; FPad 16]
    wg_seq
    (fun r => [wg_ts_ns r; wg_symbol_id r; wg_config_version r; wg_effective_at_ms r; wg_applied_at_ns r])
    (fun vs => match vs with
      | [seq; ts_ns; symbol_id; config_version; effective_at_ms; applied_at_ns] =>
          Some (mkConfigAppliedRecord seq ts_ns symbol_id config_version effective_at_ms applied_at_ns)
      | _ => None end) _ _).
  - done.
  - by intros [].
Defined.

#[export] Instance ConfigAppliedRecord_record : CastRecord ConfigAppliedRecord.
Proof. by_layout ConfigAppliedRecord_layout. Defined.

Record OrderAcceptedRecord : Type := mkOrderAcceptedRecord {
  wa_seq : Z;
  wa_ts_ns : Z;
  wa_user_id : Z;
  wa_symbol_id : Z;
  wa_order_id_hi : Z;
  wa_order_id_lo : Z;
  wa_price : Z;
  wa_qty : Z;
  wa_side : Z;
  wa_tif : Z;
  wa_reduce_only : Z;
  wa_post_only : Z;
  wa_cid : Z;
}.

Definition OrderAcceptedRecord_layout : RecordLayout OrderAcceptedRecord.
Proof.
  refine (mkLayout RECORD_ORDER_ACCEPTED
    [FU 8; FU 4; FU 4; FU 8; FU 8; FI 8; FI 8; FU 1; FU 1; FU 1; FU 1; FU 20; FPad 48]
    wa_seq
    (fun r => [wa_ts_ns r; wa_user_id r; wa_symbol_id r; wa_order_id_hi r; wa_order_id_lo r; wa_price r; wa_qty r; wa_side r;
      wa_tif r; wa_reduce_only r; wa_post_only r; wa_cid r])
    (fun vs => match vs with
      | [seq; ts_ns; user_id; symbol_id; order_id_hi; order_id_lo; price; qty; side; tif; reduce_only; post_only; cid] =>
          Some (mkOrderAcceptedRecord seq ts_ns user_id symbol_id order_id_hi order_id_lo price qty side tif reduce_only post_only cid)
      | _ => None end) _ _).
  - done.
  - by intros [].
Defined.

#[export] Instance OrderAcceptedRecord_record : CastRecord OrderAcceptedRecord.
Proof. by_layout OrderAcceptedRecord_layout. Defined.

Record MarkPriceRecord : Type := mkMarkPriceRecord {
  wm_seq : Z;
  wm_ts_ns : Z;
  wm_symbol_id : Z;
  wm_mark_price : Z;
  wm_source_mask : Z;
  wm_source_count : Z;
}.

Definition MarkPriceRecord_layout : RecordLayout MarkPriceRecord.
Proof.
  refine (mkLayout RECORD_MARK_PRICE
    [FU 8; FU 4; FPad 4; FI 8; FU 4; FU 4; FPad 24]
    wm_seq
    (fun r => [wm_ts_ns r; wm_symbol_id r; wm_mark_price r; wm_source_mask r; wm_source_count r])
    (fun vs => match vs with
      | [seq; ts_ns; symbol_id; mark_price; source_mask; source_count] =>
          Some (mkMarkPriceRecord seq ts_ns symbol_id mark_price source_mask source_count)
      | _ => None end) _ _).
  - done.
  - by intros [].
Defined.

#[export] Instance MarkPriceRecord_record : CastRecord MarkPriceRecord.
Proof. by_layout MarkPriceRecord_layout. Defined.

Record OrderFailedRecord : Type := mkOrderFailedRecord {
  wx_seq : Z;
  wx_ts_ns : Z;
  wx_user_id : Z;
  wx_order_id_hi : Z;
  wx_order_id_lo : Z;
  wx_reason : Z;
}.

Definition OrderFailedRecord_layout : RecordLayout OrderFailedRecord.
Proof.
  refine (mkLayout RECORD_ORDER_FAILED
    [FU 8; FU 4; FPad 4; FU 8; FU 8; FU 1; FPad 23]
    wx_seq
    (fun r => [wx_ts_ns r; wx_user_id r; wx_order_id_hi r; wx_order_id_lo r; wx_reason r])
    (fun vs => match vs with
      | [seq; ts_ns; user_id; order_id_hi; order_id_lo; reason] =>
          Some (mkOrderFailedRecord seq ts_ns user_id order_id_hi order_id_lo reason)
      | _ => None end) _ _).
  - done.
  - by intros [].
Defined.

#[export] Instance OrderFailedRecord_record : CastRecord OrderFailedRecord.
Proof. by_layout OrderFailedRecord_layout. Defined.

Record CancelRequest : Type := mkCancelRequest {
  cr_seq : Z;
  cr_ts_ns : Z;
  cr_user_id : Z;
  cr_symbol_id : Z;
  cr_order_id_hi : Z;
  cr_order_id_lo : Z;
}.

Definition CancelRequest_layout : RecordLayout CancelRequest.
Proof.
  refine (mkLayout RECORD_CANCEL_REQUEST
    [FU 8; FU 4; FU 4; FU 8; FU 8; FPad 24]
    cr_seq
    (fun r => [cr_ts_ns r; cr_user_id r; cr_symbol_id r; cr_order_id_hi r; cr_order_id_lo r])
    (fun vs => match vs with
      | [seq; ts_ns; user_id; symbol_id; order_id_hi; order_id_lo] =>
          Some (mkCancelRequest seq ts_ns user_id symbol_id order_id_hi order_id_lo)
      | _ => None end) _ _).
  - done.
  - by intros [].
Defined.

#[export] Instance CancelRequest_record : CastRecord CancelRequest.
Proof. by_layout CancelRequest_layout. Defined.

Record OrderMessage : Type := mkOrderMessage {
  om_seq : Z;
  om_price : Z;
  om_qty : Z;
  om_side : Z;
  om_tif : Z;
  om_reduce_only : Z;
  om_post_only : Z;
  om_user_id : Z;
  om_timestamp_ns : Z;
  om_order_id_hi : Z;
  om_order_id_lo : Z;
  om_risk_in_ns : Z;
}.

Definition OrderMessage_layout : RecordLayout OrderMessage.
Proof.
  refine (mkLayout RECORD_ORDER_REQUEST
    [FI 8; FI 8; FU 1; FU 1; FU 1; FU 1; FPad 4; FU 4; FPad 4; FU 8; FU 8; FU 8; FU 8; FPad 56]
    om_seq
    (fun r => [om_price r; om_qty r; om_side r; om_tif r; om_reduce_only r; om_post_only r; om_user_id r; om_timestamp_ns r;
      om_order_id_hi r; om_order_id_lo r; om_risk_in_ns r])
    (fun vs => match vs with
      | [seq; price; qty; side; tif; reduce_only; post_only; user_id; timestamp_ns; order_id_hi; order_id_lo;
         risk_in_ns] =>
          Some (mkOrderMessage seq price qty side tif reduce_only post_only user_id timestamp_ns order_id_hi order_id_lo risk_in_ns)
      | _ => None end) _ _).
  - done.
  - by intros [].
Defined.

#[export] Instance OrderMessage_record : CastRecord OrderMessage.
Proof. by_layout OrderMessage_layout. Defined.

Record LiquidationRecord : Type := mkWireLiquidation {
  wl_seq : Z;
  wl_ts_ns : Z;
  wl_user_id : Z;
  wl_symbol_id : Z;
  wl_status : Z;
  wl_side : Z;
  wl_round : Z;
  wl_qty : Z;
  wl_price : Z;
  wl_slip_bps : Z;
}.

Definition LiquidationRecord_layout : RecordLayout LiquidationRecord.
Proof.
  refine (mkLayout RECORD_LIQUIDATION
    [FU 8; FU 4; FU 4; FU 1; FU 1; FPad 2; FU 4; FI 8; FI 8; FI 8; FPad 8]
    wl_seq
    (fun r => [wl_ts_ns r; wl_user_id r; wl_symbol_id r; wl_status r; wl_side r; wl_round r; wl_qty r; wl_price r;
      wl_slip_bps r])
    (fun vs => match vs with
      | [seq; ts_ns; user_id; symbol_id; status; side; round; qty; price; slip_bps] =>
          Some (mkWireLiquidation seq ts_ns user_id symbol_id status side round qty price slip_bps)
      | _ => None end) _ _).
  - done.
  - by intros [].
Defined.

#[export] Instance LiquidationRecord_record : CastRecord LiquidationRecord.
Proof. by_layout LiquidationRecord_layout. Defined.

