(* ===== verification/Wal.v ===== *)
(** * Wal: the write-ahead log [rsx-cast/src/wal.rs]

    The writer buffers framed records and flushes them to an active file that
    is renamed to a segment [first..last] when it is full; the reader walks the
    segments in order.  The directory of a stream is a [Disk]: its segments by
    the sequence range in their name, and the active file.  A write to the
    disk consults a script of [Fault]s, so that every call may fail, a write
    also after any number of bytes.  Reads of the disk do not fail, and
    positions in a file are [nat]. *)

From stdpp Require Import sorting.
From S2P Require Import Prelude Hash Frames.

(** ** Framing *)

Definition FRAMED_WIRE_BYTES : nat := 256.

(** [fr_wire] is the used part [wire[..total]] of the buffer. *)
Record Framed : Type := mkFramed { fr_wire : list Z; fr_seq : Z }.

Section Pack.
Context `{Crc32c}.

Definition Framed_pack {T} `{CastRecord T} (record : T) (s : Z) : Res Framed :=
  let payload_len := size_of T in
  let total := (HEADER_SIZE + payload_len)%nat in
  _ ← assert_ok (total <=? FRAMED_WIRE_BYTES)%nat;
  let record := set_seq s record in
  let payload := as_bytes record in
  let crc := compute_crc32 payload in
  let header := WalHeader_new (record_type T) (wrap_u16 (Z.of_nat payload_len)) crc in
  Ok (mkFramed (to_bytes header ++ payload) s).

End Pack.

(** ** The disk *)

Record WalFile : Type := mkFile { fl_data : list Z; fl_mtime : Z }.

Record Disk : Type := mkDisk { dk_segments : gmap (Z * Z) WalFile; dk_active : option WalFile }.

(** What the writer's handle refers to. *)
Inductive FileRef : Type := ActiveFile | DevNull.

Inductive IoError : Type := WouldBlock | IoFailed | InvalidData.

(** The outcome of one call: it succeeds, or fails; a failed write has written
    the first [written] bytes. *)
Inductive Fault : Type := Good | Bad (written : nat).

Definition FLUSH_RECORD_THRESHOLD : Z := 1000.
Definition RETENTION_NS : Z := 4 * 60 * 60 * 1000000000.

Record WalWriter : Type := mkWriter {
  ww_next_seq : Z;
  ww_buf : list Z;
  ww_file : FileRef;
  ww_file_size : Z;
  ww_first_seq : option Z;
  ww_flushed_seq : Z;
  ww_buf_first_seq : option Z;
  ww_last_seq : Z;
  ww_max_file_size : Z;
  ww_records_since_flush : Z;
}.

Definition ww_with_file (f : FileRef) (w : WalWriter) : WalWriter :=
  mkWriter (ww_next_seq w) (ww_buf w) f (ww_file_size w) (ww_first_seq w) (ww_flushed_seq w) (ww_buf_first_seq w)
    (ww_last_seq w) (ww_max_file_size w) (ww_records_since_flush w).

(** ** Effects

    The writer, the disk and the script, with errors that keep what was done. *)

Record World : Type := mkWorld { wd_writer : WalWriter; wd_disk : Disk; wd_faults : list Fault }.

Definition IO (A : Type) : Type := World -> (A + IoError) * World.

Definition io_ret {A} (a : A) : IO A := fun s => (inl a, s).
Definition io_fail {A} (e : IoError) : IO A := fun s => (inr e, s).
Definition io_bind {A B} (m : IO A) (k : A -> IO B) : IO B := fun s =>
  match m s with
  | (inl a, s1) => k a s1
  | (inr e, s1) => (inr e, s1)
  end.
Definition writer_get : IO WalWriter := fun s => (inl (wd_writer s), s).
Definition writer_set (f : WalWriter -> WalWriter) : IO unit := fun s => (inl tt, mkWorld (f (wd_writer s)) (wd_disk s) (wd_faults s)).

Declare Scope io_scope.
Delimit Scope io_scope with io.
Notation "x <~ m ; k" := (io_bind m (fun x => k)) (at level 20, m at level 100, k at level 200, right associativity, only parsing) : io_scope.
Notation "m ;; k" := (io_bind m (fun _ => k)) (at level 100, k at level 200, right associativity, only parsing) : io_scope.
Open Scope io_scope.

(** One call to the system: [done] on success, [torn] with the bytes that got
    through on failure. *)
Definition syscall {A} (done : World -> (A + IoError) * World) (torn : nat -> World -> World) : IO A := fun s =>
  match wd_faults s with
  | Bad k :: fs => (inr IoFailed, torn k (mkWorld (wd_writer s) (wd_disk s) fs))
  | Good :: fs => done (mkWorld (wd_writer s) (wd_disk s) fs)
  | [] => done s
  end.

Definition with_disk (d : Disk) (s : World) : World := mkWorld (wd_writer s) d (wd_faults s).

(** The bytes behind a handle; [/dev/null] has none. *)
Definition file_data (f : FileRef) (d : Disk) : list Z :=
  match f with
  | ActiveFile => match dk_active d with Some fl => fl_data fl | None => [] end
  | DevNull => []
  end.

Definition file_put (f : FileRef) (data : list Z) (mtime : Z) (d : Disk) : Disk :=
  match f with
  | ActiveFile => mkDisk (dk_segments d) (Some (mkFile data mtime))
  | DevNull => d
  end.

Definition file_mtime (d : Disk) : Z := match dk_active d with Some fl => fl_mtime fl | None => 0 end.

Definition metadata_len : IO Z :=
  syscall (fun s => (inl (zlen (file_data (ww_file (wd_writer s)) (wd_disk s))), s)) (fun _ s => s).

Definition set_len (now size : Z) : IO unit :=
  syscall (fun s => (inl tt, with_disk (file_put (ww_file (wd_writer s))
    (take (Z.to_nat size) (file_data (ww_file (wd_writer s)) (wd_disk s))) now (wd_disk s)) s)) (fun _ s => s).

(** Appends: the file is opened in append mode. *)
Definition append_bytes (now : Z) (bs : list Z) (s : World) : World :=
  with_disk (file_put (ww_file (wd_writer s)) (file_data (ww_file (wd_writer s)) (wd_disk s) ++ bs) now (wd_disk s)) s.
Definition write_all (now : Z) (bs : list Z) : IO unit :=
  syscall (fun s => (inl tt, append_bytes now bs s)) (fun k s => append_bytes now (take k bs) s).

Definition sync_all : IO unit := syscall (fun s => (inl tt, s)) (fun _ s => s).

(** [File::create("/dev/null")] and the replacement of the handle. *)
Definition replace_with_null : IO unit :=
  syscall (fun s => (inl tt, s)) (fun _ s => s);; writer_set (ww_with_file DevNull).

(** [fs::rename] of the active file; it fails when there is none. *)
Definition rename_active (name : Z * Z) : IO unit :=
  syscall (fun s =>
    match dk_active (wd_disk s) with
    | Some fl => (inl tt, with_disk (mkDisk (<[name := fl]> (dk_segments (wd_disk s))) None) s)
    | None => (inr IoFailed, s)
    end) (fun _ s => s).

(** [OpenOptions::new().create(true).append(true).open]; a new file is empty. *)
Definition open_active (now : Z) : IO unit :=
  syscall (fun s => (inl tt, with_disk (mkDisk (dk_segments (wd_disk s))
    (Some (default (mkFile [] now) (dk_active (wd_disk s))))) s)) (fun _ s => s);;
  writer_set (ww_with_file ActiveFile).

(** ** Writer *)

Definition set_next_seq (s : Z) (w : WalWriter) : WalWriter :=
  mkWriter s (ww_buf w) (ww_file w) (ww_file_size w) (ww_first_seq w) (ww_flushed_seq w) (ww_buf_first_seq w)
    (if ww_last_seq w <? sat_u64 (s - 1) then sat_u64 (s - 1) else ww_last_seq w) (ww_max_file_size w) (ww_records_since_flush w).

Definition prepare `{Crc32c} {T} `{CastRecord T} (record : T) (w : WalWriter) : Res (Framed * WalWriter) :=
  framed ← Framed_pack record (ww_next_seq w);
  Ok (framed, mkWriter (wrap_u64 (ww_next_seq w + 1)) (ww_buf w) (ww_file w) (ww_file_size w) (ww_first_seq w)
        (ww_flushed_seq w) (ww_buf_first_seq w) (ww_last_seq w) (ww_max_file_size w) (ww_records_since_flush w)).

(** The buffer is full beyond twice the file size, 256 KiB at least. *)
Definition buf_limit (w : WalWriter) : Z := Z.max (sat_u64 (ww_max_file_size w * 2)) (256 * 1024).

Definition append_framed (framed : Framed) (w : WalWriter) : (unit + IoError) * WalWriter :=
  if zlen (ww_buf w) >? buf_limit w then (inr WouldBlock, w)
  else (inl tt, mkWriter (ww_next_seq w) (ww_buf w ++ fr_wire framed) (ww_file w) (ww_file_size w) (ww_first_seq w)
    (ww_flushed_seq w) (Some (default (fr_seq framed) (ww_buf_first_seq w))) (fr_seq framed) (ww_max_file_size w)
    (wrap_u32 (ww_records_since_flush w + 1))).

Definition reset_write_buf (w : WalWriter) : WalWriter :=
  mkWriter (ww_next_seq w) [] (ww_file w) (ww_file_size w) (ww_first_seq w) (ww_flushed_seq w) None (ww_last_seq w)
    (ww_max_file_size w) 0.

Definition should_flush (w : WalWriter) : bool := ww_records_since_flush w >=? FLUSH_RECORD_THRESHOLD.

Section Rotation.
Context `{HashIter}.

(** One entry of [prune_old_segments]: its metadata may be unreadable and its
    removal may fail, both are skipped. *)
Definition prune_entry (now : Z) (entry : (Z * Z) * WalFile) : IO unit := fun s =>
  match syscall (fun s => (inl tt, s)) (fun _ s => s) s with
  | (inr _, s1) => (inl tt, s1)
  | (inl _, s1) =>
      let '(name, file) := entry in
      let age_ns := if fl_mtime file <=? now then wrap_u64 (now - fl_mtime file) else 0 in
      if age_ns >=? RETENTION_NS then
        (inl tt, (syscall (fun s => (inl tt, with_disk (mkDisk (delete name (dk_segments (wd_disk s))) (dk_active (wd_disk s))) s))
                    (fun _ s => s) s1).2)
      else (inl tt, s1)
  end.

Fixpoint prune_entries (now : Z) (entries : list ((Z * Z) * WalFile)) : IO unit :=
  match entries with
  | [] => io_ret tt
  | e :: tl => prune_entry now e;; prune_entries now tl
  end.

Definition prune_old_segments (now : Z) : IO unit := fun s =>
  match syscall (fun s => (inl (iter_map (dk_segments (wd_disk s))), s)) (fun _ s => s) s with
  | (inr _, s1) => (inl tt, s1)
  | (inl entries, s1) => prune_entries now entries s1
  end.

Definition rotate (now : Z) : IO unit :=
  w <~ writer_get;
  sync_all;;
  replace_with_null;;
  rename_active (default (ww_flushed_seq w) (ww_first_seq w), ww_flushed_seq w);;
  open_active now;;
  writer_set (fun w => mkWriter (ww_next_seq w) (ww_buf w) (ww_file w) 0 None (ww_flushed_seq w) (ww_buf_first_seq w)
    (ww_last_seq w) (ww_max_file_size w) (ww_records_since_flush w));;
  prune_old_segments now.

(** The writer once its buffer is on disk. *)
Definition flushed (w : WalWriter) : WalWriter :=
  mkWriter (ww_next_seq w) [] (ww_file w) (wrap_u64 (ww_file_size w + zlen (ww_buf w)))
    (match ww_first_seq w with Some f => Some f | None => ww_buf_first_seq w end) (ww_last_seq w) None (ww_last_seq w)
    (ww_max_file_size w) 0.

Definition flush (now : Z) : IO unit :=
  w <~ writer_get;
  if (zlen (ww_buf w) =? 0) then io_ret tt
  else
    len <~ metadata_len;
    (if len >? ww_file_size w then set_len now (ww_file_size w) else io_ret tt);;
    (if (ww_file_size w >? 0) && (wrap_u64 (ww_file_size w + zlen (ww_buf w)) >=? ww_max_file_size w) then rotate now
     else io_ret tt);;
    write_all now (ww_buf w);;
    sync_all;;
    writer_set flushed;;
    w <~ writer_get;
    if ww_file_size w >=? ww_max_file_size w then rotate now else io_ret tt.

End Rotation.

(** ** Reading frames *)

Record RawWalRecord : Type := mkRaw { raw_header : WalHeader; raw_payload : list Z }.

(** [FrameBad] carries the file length at which the record would end. *)
Inductive Frame : Type :=
| FrameRecord (r : RawWalRecord)
| FrameEnd
| FrameBad (end_ : Z).

Section Reading.
Context `{Crc32c}.

(** Read at the handle's position [pos]; the position after it is returned. *)
Definition read_frame (data : list Z) (pos offset : nat) : (Frame + IoError) * nat :=
  let rest := drop pos data in
  if (length rest <? HEADER_SIZE)%nat then
    (inl (if (length data =? offset)%nat then FrameEnd else FrameBad U64_MAX), length data)
  else
    match from_bytes (take HEADER_SIZE rest) with
    | None => (inr InvalidData, (pos + HEADER_SIZE)%nat)
    | Some header =>
        let body := drop HEADER_SIZE rest in
        let len := Z.to_nat (wh_len header) in
        if (length body <? len)%nat then (inl (FrameBad U64_MAX), length data)
        else
          let payload := take len body in
          let pos' := (pos + HEADER_SIZE + len)%nat in
          if compute_crc32 payload =? wh_crc32 header then (inl (FrameRecord (mkRaw header payload)), pos')
          else (inl (FrameBad (Z.of_nat (offset + (HEADER_SIZE + len)))), pos')
    end.

Definition is_torn_tail (data : list Z) (end_ : Z) : bool := zlen data <=? end_.

(** The length the active file is cut to: every round consumes a header. *)
Fixpoint cut_torn_tail (fuel : nat) (data : list Z) (offset : nat) : Res ((list Z) + IoError) :=
  match fuel with
  | O => Diverged
  | S fuel =>
      match (read_frame data offset offset).1 with
      | inl (FrameRecord r) => cut_torn_tail fuel data (offset + (HEADER_SIZE + length (raw_payload r)))
      | inl FrameEnd => Ok (inl data)
      | inl (FrameBad end_) => Ok (inl (if is_torn_tail data end_ then take offset data else data))
      | inr e => Ok (inr e)
      end
  end.

(** [scan_file_seq_range]: the least and the greatest sequence number up to
    the first bad record. *)
Fixpoint scan_file_seq_range (fuel : nat) (data : list Z) (lo hi : option Z) : Res (option (Z * Z)) :=
  let stop := Ok (match lo, hi with Some l, Some h => Some (l, h) | _, _ => None end) in
  match fuel with
  | O => Diverged
  | S fuel =>
      if (length data <? HEADER_SIZE)%nat then stop
      else
        match from_bytes (take HEADER_SIZE data) with
        | None => stop
        | Some header =>
            let body := drop HEADER_SIZE data in
            let len := Z.to_nat (wh_len header) in
            if (length body <? len)%nat then stop
            else
              let payload := take len body in
              if negb (compute_crc32 payload =? wh_crc32 header) then stop
              else
                match extract_seq payload with
                | Some s => scan_file_seq_range fuel (drop len body)
                    (Some (match lo with Some l => Z.min l s | None => s end)) (Some (match hi with Some h => Z.max h s | None => s end))
                | None => scan_file_seq_range fuel (drop len body) lo hi
                end
        end
  end.

(** [WalWriter::new]: open or create the active file, cut a torn tail and
    find the range of what is left. *)
Definition WalWriter_new (now max_file_size : Z) (d : Disk) : Res ((WalWriter + IoError) * Disk) :=
  let fl := default (mkFile [] now) (dk_active d) in
  cut ← cut_torn_tail (S (length (fl_data fl))) (fl_data fl) 0;
  match cut with
  | inr e => Ok (inr e, mkDisk (dk_segments d) (Some fl))
  | inl data =>
      range ← scan_file_seq_range (S (length data)) data None None;
      Ok (inl (mkWriter 1 [] ActiveFile (zlen data) (fst <$> range) (default 0 (snd <$> range)) None 0 max_file_size 0),
          mkDisk (dk_segments d) (Some (mkFile data (if (length data =? length (fl_data fl))%nat then fl_mtime fl else now))))
  end.

(** ** Reader *)

Record WalFileInfo : Type := mkInfo { wi_first_seq : Z; wi_last_seq : Z; wi_is_active : bool; wi_data : list Z }.

Record WalReader : Type := mkReader {
  rd_file : option (list Z);
  rd_pos : nat;
  rd_files : list WalFileInfo;
  rd_file_idx : nat;
  rd_offset : nat;
  rd_target_seq : Z;
}.

Definition by_first_seq (a b : WalFileInfo) : Prop := wi_first_seq a <= wi_first_seq b.
#[export] Instance by_first_seq_dec : RelDecision by_first_seq := fun a b => decide (wi_first_seq a <= wi_first_seq b).

Section Listing.
Context `{HashIter}.

(** A [WalFileInfo] carries the bytes behind its path: the disk does not
    change while it is read. *)
Definition list_wal_files (d : Disk) : list WalFileInfo :=
  map (fun e => mkInfo e.1.1 e.1.2 false (fl_data e.2)) (iter_map (dk_segments d)) ++
  match dk_active d with Some fl => [mkInfo U64_MAX U64_MAX true (fl_data fl)] | None => [] end.

Definition list_wal_files_across (d : Disk) : list WalFileInfo := merge_sort by_first_seq (list_wal_files d).

Definition covers (target : Z) (f : WalFileInfo) : bool :=
  negb (wi_is_active f) && (target >=? wi_first_seq f) && (target <=? wi_last_seq f).

Fixpoint pick_loop (files : list WalFileInfo) (target : Z) (i : nat) (idx : nat) : nat :=
  match files with
  | [] => idx
  | f :: tl => if covers target f then i else pick_loop tl target (S i) i
  end.

Definition pick_start_idx (files : list WalFileInfo) (target : Z) : nat :=
  if (length files =? 0)%nat || (target =? 0) then 0%nat else pick_loop files target 0 0.

Definition open_from_seq (target : Z) (d : Disk) : WalReader :=
  let files := list_wal_files_across d in
  let idx := pick_start_idx files target in
  mkReader (wi_data <$> files !! idx) 0 files idx 0 target.

(** [None] where the [io::Result] of the source is [Ok(false)]. *)
Definition advance_file (r : WalReader) : WalReader * bool :=
  let idx := S (rd_file_idx r) in
  match rd_files r !! idx with
  | Some f => (mkReader (Some (wi_data f)) 0 (rd_files r) idx 0 0, true)
  | None => (mkReader None 0 (rd_files r) idx 0 0, false)
  end.

(** [WalReader::next]: a round reads a record or moves to the next file. *)
Fixpoint next (fuel : nat) (r : WalReader) : Res ((option RawWalRecord + IoError) * WalReader) :=
  match fuel with
  | O => Diverged
  | S fuel =>
      match rd_file r with
      | None => Ok (inl None, r)
      | Some data =>
          match read_frame data (rd_pos r) (rd_offset r) with
          | (inl (FrameRecord record), pos) =>
              let r := mkReader (rd_file r) pos (rd_files r) (rd_file_idx r) (rd_offset r + (HEADER_SIZE + length (raw_payload record)))
                         (rd_target_seq r) in
              if match extract_seq (raw_payload record) with Some s => s <? rd_target_seq r | None => false end then next fuel r
              else Ok (inl (Some record), r)
          | (inl FrameEnd, _) =>
              let '(r, more) := advance_file r in
              if more then next fuel r else Ok (inl None, r)
          | (inl (FrameBad end_), _) =>
              let r := mkReader (rd_file r) (rd_offset r) (rd_files r) (rd_file_idx r) (rd_offset r) (rd_target_seq r) in
              if (S (rd_file_idx r) =? length (rd_files r))%nat && is_torn_tail data end_ then Ok (inl None, r)
              else Ok (inr InvalidData, r)
          | (inr e, pos) =>
              Ok (inr e, mkReader (rd_file r) pos (rd_files r) (rd_file_idx r) (rd_offset r) (rd_target_seq r))
          end
      end
  end.

(** What a consumer sees that calls [next] until it yields nothing or fails. *)
Fixpoint read_all (fuel : nat) (r : WalReader) : Res (list RawWalRecord * option IoError) :=
  match fuel with
  | O => Diverged
  | S fuel' =>
      '(x, r) ← next fuel r;
      match x with
      | inl (Some record) => '(tl, e) ← read_all fuel' r; Ok (record :: tl, e)
      | inl None => Ok ([], None)
      | inr e => Ok ([], Some e)
      end
  end.

(** Rounds for a whole directory: one per byte and file at most. *)
Definition read_fuel (r : WalReader) : nat := S (S (sum_list_with (fun f => S (length (wi_data f))) (rd_files r))).

Definition read_from (target : Z) (d : Disk) : Res (list RawWalRecord * option IoError) :=
  let r := open_from_seq target d in read_all (read_fuel r) r.

(** ** Random access *)

Definition pick_file_for_seq (files : list WalFileInfo) (target : Z) : option WalFileInfo :=
  match List.find (covers target) files with
  | Some f => Some f
  | None => List.find wi_is_active files
  end.

Fixpoint scan_file_for_seq (fuel : nat) (data : list Z) (target : Z) : Res (option RawWalRecord) :=
  match fuel with
  | O => Diverged
  | S fuel =>
      if (length data <? HEADER_SIZE)%nat then Ok None
      else
        match from_bytes (take HEADER_SIZE data) with
        | None => Ok None
        | Some header =>
            let body := drop HEADER_SIZE data in
            let len := Z.to_nat (wh_len header) in
            if (length body <? len)%nat then Ok None
            else
              let payload := take len body in
              if negb (compute_crc32 payload =? wh_crc32 header) then scan_file_for_seq fuel (drop len body) target
              else
                match extract_seq payload with
                | Some s =>
                    if s =? target then Ok (Some (mkRaw header payload))
                    else if s >? target then Ok None
                    else scan_file_for_seq fuel (drop len body) target
                | None => scan_file_for_seq fuel (drop len body) target
                end
        end
  end.

Definition read_record_at_seq (target : Z) (d : Disk) : Res (option RawWalRecord) :=
  match pick_file_for_seq (list_wal_files_across d) target with
  | Some f => scan_file_for_seq (S (length (wi_data f))) (wi_data f) target
  | None => Ok None
  end.

Definition seq_range_step (acc : option Z * option Z) (f : WalFileInfo) : Res (option Z * option Z) :=
  let '(oldest, highest) := acc in
  let widen lo hi := (Some (match oldest with Some o => Z.min o lo | None => lo end), Some (match highest with Some h => Z.max h hi | None => hi end)) in
  if wi_is_active f then
    range ← scan_file_seq_range (S (length (wi_data f))) (wi_data f) None None;
    Ok (match range with Some (lo, hi) => widen lo hi | None => acc end)
  else Ok (widen (wi_first_seq f) (wi_last_seq f)).

Definition oldest_and_highest_seq (d : Disk) : Res (option (Z * Z)) :=
  '(oldest, highest) ← rfold seq_range_step (None, None) (list_wal_files_across d);
  Ok (match oldest, highest with Some o, Some h => Some (o, h) | _, _ => None end).

End Listing.
End Reading.
