(* ===== verification/WalRead.v ===== *)
(** * WalRead: what the log's readers see

    A file of well-formed frames, possibly with a torn frame at its end, reads
    back as its records: sequentially over the files of a directory
    ([read_all_spec]), when the tail is cut ([cut_spec]), when the range is
    scanned ([scan_range_spec]) and at random ([scan_seq_spec]). *)

From S2P Require Import Prelude Hash Frames Wal.

(** A logged record: its type and payload. *)
Definition LogRec : Type := Z * list Z.

Definition rec_ok (r : LogRec) : Prop :=
  0 <= r.1 <= U16_MAX /\ 8 <= zlen r.2 <= U16_MAX /\ Forall is_byte r.2.

Definition lseq (r : LogRec) : Z := of_le (take 8 r.2).

(** [first], [first + 1], .. *)
Fixpoint consecutive (first : Z) (rs : list LogRec) : Prop :=
  match rs with
  | [] => True
  | r :: tl => lseq r = first /\ consecutive (first + 1) tl
  end.

Lemma consecutive_app first rs1 rs2 :
  consecutive first (rs1 ++ rs2) <-> consecutive first rs1 /\ consecutive (first + zlen rs1) rs2.
Proof.
  revert first. induction rs1 as [|r rs1 IH]; intros first; cbn; [rewrite Z.add_0_r; tauto|].
  rewrite IH. unfold zlen. cbn [length]. replace (first + 1 + Z.of_nat (length rs1)) with (first + Z.of_nat (S (length rs1))) by lia.
  tauto.
Qed.

Lemma consecutive_range first rs r : consecutive first rs -> In r rs -> first <= lseq r < first + zlen rs.
Proof.
  revert first. induction rs as [|x rs IH]; intros first; [done|]. unfold zlen. cbn. intros [Hx Hc] [->|Hi]; [lia|].
  specialize (IH _ Hc Hi). unfold zlen in IH. lia.
Qed.

Section Reads.
Context `{Crc32c} `{HashIter}.

Definition wire (r : LogRec) : list Z := encode_record r.1 r.2.
Definition wires (rs : list LogRec) : list Z := concat (map wire rs).
Definition raw (r : LogRec) : RawWalRecord := mkRaw (WalHeader_new r.1 (zlen r.2) (compute_crc32 r.2)) r.2.

Lemma wires_cons r rs : wires (r :: rs) = wire r ++ wires rs.
Proof. done. Qed.

Lemma wires_one r : wires [r] = wire r.
Proof. apply app_nil_r. Qed.

Lemma wires_app rs1 rs2 : wires (rs1 ++ rs2) = wires rs1 ++ wires rs2.
Proof. unfold wires. by rewrite map_app, concat_app. Qed.

Lemma wire_length r : length (wire r) = (HEADER_SIZE + length r.2)%nat.
Proof. unfold wire, encode_record. by rewrite length_app, header_length. Qed.

Lemma wires_length_ge rs : (length rs <= length (wires rs))%nat.
Proof. induction rs as [|r rs IH]; [done|]. rewrite wires_cons, length_app, wire_length. unfold HEADER_SIZE. cbn. lia. Qed.

Lemma wires_nil_inv rs : length (wires rs) = 0%nat -> rs = [].
Proof. pose proof (wires_length_ge rs). destruct rs; cbn in *; [done|lia]. Qed.

Lemma rec_ok_seq r : rec_ok r -> extract_seq r.2 = Some (lseq r).
Proof. intros (_ & Hl & _). unfold extract_seq, zlen in *. replace (_ <? _)%nat with false by (symmetry; apply Nat.ltb_ge; lia). done. Qed.

Lemma rec_ok_nonneg r : rec_ok r -> 0 <= lseq r.
Proof. intros (_ & _ & Hb). unfold lseq. apply of_le_range. by apply Forall_take. Qed.

(** The header of a frame, followed by anything. *)
Lemma wire_header r rest : rec_ok r ->
  from_bytes (take HEADER_SIZE (wire r ++ rest)) = Some (raw_header (raw r)) /\ drop HEADER_SIZE (wire r ++ rest) = r.2 ++ rest.
Proof.
  intros (Ht & Hl & _). unfold wire, encode_record. rewrite <- app_assoc, take_app_length', drop_app_length' by (by rewrite header_length).
  rewrite <- (app_nil_r (to_bytes _)). unfold wrap_u16. rewrite Z.mod_small by width_lia.
  rewrite from_to_bytes; [done|done|width_lia|apply crc32_u32].
Qed.

Lemma read_frame_wire pre r post : rec_ok r ->
  read_frame (pre ++ wire r ++ post) (length pre) (length pre) = (inl (FrameRecord (raw r)), (length pre + length (wire r))%nat).
Proof.
  intros Hr. unfold read_frame. rewrite drop_app_length. destruct (wire_header r post Hr) as [-> ->].
  rewrite length_app, wire_length. replace (_ <? _)%nat with false by (symmetry; apply Nat.ltb_ge; lia).
  cbn [raw raw_header wh_len wh_crc32 WalHeader_new]. rewrite length_app. unfold zlen. rewrite Nat2Z.id.
  replace (_ <? _)%nat with false by (symmetry; apply Nat.ltb_ge; lia). rewrite take_app_length, Z.eqb_refl.
  f_equal. lia.
Qed.

(** The beginning of a frame that was not written to its end. *)
Definition torn (frag : list Z) : Prop := exists r, rec_ok r /\ frag `prefix_of` wire r /\ (length frag < length (wire r))%nat.

Definition tail_ok (frag : list Z) : Prop := frag = [] \/ torn frag.

Lemma read_frame_end data : read_frame data (length data) (length data) = (inl FrameEnd, length data).
Proof. unfold read_frame. by rewrite drop_all, Nat.eqb_refl. Qed.

Lemma torn_header frag : torn frag -> (HEADER_SIZE <= length frag)%nat ->
  exists h, from_bytes (take HEADER_SIZE frag) = Some h /\ (length (drop HEADER_SIZE frag) < Z.to_nat (wh_len h))%nat.
Proof.
  intros (r & Hr & [k Hk] & Hl) Hf. destruct (wire_header r [] Hr) as [Hh _]. rewrite app_nil_r, Hk, take_app_le in Hh by done.
  eexists. split; [exact Hh|]. rewrite length_drop. cbn. rewrite wire_length in Hl. unfold zlen. lia.
Qed.

Lemma read_frame_torn pre frag : torn frag -> frag <> [] ->
  (read_frame (pre ++ frag) (length pre) (length pre)).1 = inl (FrameBad U64_MAX).
Proof.
  intros Ht Hn. unfold read_frame. rewrite drop_app_length. destruct (length frag <? HEADER_SIZE)%nat eqn:El.
  - replace (_ =? _)%nat with false; [done|]. symmetry. apply Nat.eqb_neq. rewrite length_app. destruct frag; [done|]. cbn. lia.
  - apply Nat.ltb_ge in El. destruct (torn_header frag Ht El) as (h & -> & Hl). apply Nat.ltb_lt in Hl. by rewrite Hl.
Qed.

Lemma torn_short data frag : zlen (data ++ frag) <= U64_MAX -> is_torn_tail (data ++ frag) U64_MAX = true.
Proof. intros. unfold is_torn_tail. by apply Z.leb_le. Qed.

(** Any prefix of a run of frames is some whole frames and a torn one. *)
Lemma prefix_wires bs rs : Forall rec_ok rs -> bs `prefix_of` wires rs ->
  exists rs1 rs2 frag, rs = rs1 ++ rs2 /\ bs = wires rs1 ++ frag /\ tail_ok frag.
Proof.
  intros Hr. revert bs. induction Hr as [|r rs Hr Hrs IH]; intros bs Hp.
  - exists [], [], []. destruct Hp as [k Hk]. destruct bs; [|done]. by repeat split; try left.
  - destruct (Nat.le_gt_cases (length (wire r)) (length bs)) as [Hl|Hl].
    + rewrite wires_cons in Hp. destruct Hp as [k Hk].
      assert (bs = wire r ++ drop (length (wire r)) bs) as Eb.
      { rewrite <- (take_drop (length (wire r)) bs) at 1. f_equal.
        pose proof (f_equal (take (length (wire r))) Hk) as E. by rewrite take_app_length, take_app_le in E by done. }
      destruct (IH (drop (length (wire r)) bs)) as (rs1 & rs2 & frag & -> & E & Hf).
      { exists k. rewrite Eb in Hk. rewrite <- app_assoc in Hk. by apply app_inv_head in Hk. }
      exists (r :: rs1), rs2, frag. rewrite Eb, E, wires_cons, app_assoc. done.
    + exists [], (r :: rs), bs. repeat split. right. exists r. split; [done|]. split; [|done].
      rewrite wires_cons in Hp. destruct Hp as [k Hk]. exists (drop (length bs) (wire r)).
      pose proof (f_equal (take (length bs)) Hk) as E. rewrite take_app_le, take_app_length in E by lia.
      rewrite <- (take_drop (length bs) (wire r)) at 1. by rewrite E.
Qed.

(** *** Cutting a torn tail *)

Lemma cut_spec pre rs frag fuel : Forall rec_ok rs -> tail_ok frag -> (length rs < fuel)%nat ->
  zlen (pre ++ wires rs ++ frag) <= U64_MAX ->
  cut_torn_tail fuel (pre ++ wires rs ++ frag) (length pre) = Ok (inl (pre ++ wires rs)).
Proof.
  intros Hr Ht. revert pre fuel. induction Hr as [|r rs Hr Hrs IH]; intros pre fuel Hf Hl; (destruct fuel as [|fuel]; [lia|]); cbn [cut_torn_tail].
  - cbn [wires map concat]. cbn in Hl. rewrite !app_nil_r. destruct Ht as [->|Ht].
    + cbn. rewrite app_nil_r, read_frame_end. done.
    + cbn. destruct frag as [|b frag]; [by rewrite app_nil_r, read_frame_end|].
      rewrite read_frame_torn, torn_short by done. by rewrite take_app_length.
  - rewrite wires_cons in *. rewrite <- (app_assoc (wire r)) in *. rewrite read_frame_wire by done. cbn [fst raw raw_payload].
    replace (length pre + (HEADER_SIZE + length r.2))%nat with (length (pre ++ wire r)) by (rewrite length_app, wire_length; lia).
    rewrite (app_assoc pre). rewrite IH; [by rewrite <- app_assoc|cbn in Hf; lia|by rewrite <- app_assoc].
Qed.

(** *** Scanning *)

Lemma scan_head r post : rec_ok r ->
  (length (wire r ++ post) <? HEADER_SIZE)%nat = false /\
  from_bytes (take HEADER_SIZE (wire r ++ post)) = Some (raw_header (raw r)) /\
  drop HEADER_SIZE (wire r ++ post) = r.2 ++ post /\ Z.to_nat (wh_len (raw_header (raw r))) = length r.2.
Proof.
  intros Hr. destruct (wire_header r post Hr) as [-> ->]. rewrite length_app, wire_length.
  split; [apply Nat.ltb_ge; lia|]. do 2 (split; [done|]). cbn. unfold zlen. lia.
Qed.

Lemma scan_tail frag : tail_ok frag ->
  (length frag <? HEADER_SIZE)%nat = true \/
  (length frag <? HEADER_SIZE)%nat = false /\ exists h, from_bytes (take HEADER_SIZE frag) = Some h /\
    (length (drop HEADER_SIZE frag) <? Z.to_nat (wh_len h))%nat = true.
Proof.
  intros [->|Ht]; [by left|]. destruct (length frag <? HEADER_SIZE)%nat eqn:E; [by left|right]. split; [done|].
  apply Nat.ltb_ge in E. destruct (torn_header frag Ht E) as (h & ? & Hl). exists h. split; [done|]. by apply Nat.ltb_lt.
Qed.

Lemma scan_range_spec rs frag fuel first lo : Forall rec_ok rs -> consecutive first rs -> tail_ok frag -> (length rs < fuel)%nat ->
  (forall l, lo = Some l -> l < first) ->
  scan_file_seq_range fuel (wires rs ++ frag) lo ((fun _ => first - 1) <$> lo) =
    Ok (match lo, rs with
        | Some l, _ => Some (l, first + zlen rs - 1)
        | None, [] => None
        | None, _ => Some (first, first + zlen rs - 1)
        end).
Proof.
  intros Hr Hc Ht. revert first fuel lo Hc. induction Hr as [|r rs Hr Hrs IH]; intros first fuel lo Hc Hf Hb;
    (destruct fuel as [|fuel]; [lia|]); cbn [scan_file_seq_range].
  - cbn [wires map concat app]. assert (first + zlen (@nil LogRec) - 1 = first - 1) as -> by (unfold zlen; cbn; lia).
    destruct (scan_tail frag Ht) as [->|[-> (h & -> & ->)]]; by destruct lo.
  - rewrite wires_cons, <- app_assoc. destruct (scan_head r (wires rs ++ frag) Hr) as (-> & -> & -> & ->).
    rewrite length_app, (proj2 (Nat.ltb_ge _ _)), take_app_length, drop_app_length by lia. cbn [raw raw_header WalHeader_new wh_crc32].
    rewrite Z.eqb_refl. cbn [negb]. rewrite rec_ok_seq by done. destruct Hc as [-> Hc]. cbn in Hf.
    assert (zlen (r :: rs) = zlen rs + 1) as -> by (unfold zlen; cbn; lia).
    pose proof (IH (first + 1) fuel (Some (match lo with Some l => Z.min l first | None => first end)) Hc ltac:(lia)) as E.
    replace (Some (match (fun _ => first - 1) <$> lo with Some h => Z.max h first | None => first end)) with
      ((fun _ : Z => first + 1 - 1) <$> Some (match lo with Some l => Z.min l first | None => first end))
      by (destruct lo; cbn; f_equal; lia).
    rewrite E.
    + destruct lo as [l|]; [specialize (Hb l eq_refl)|]; do 3 f_equal; lia.
    + intros l [= <-]. destruct lo; lia.
Qed.

Lemma scan_seq_spec rs frag fuel first t : Forall rec_ok rs -> consecutive first rs -> tail_ok frag -> (length rs < fuel)%nat ->
  scan_file_for_seq fuel (wires rs ++ frag) t = Ok (raw <$> List.find (fun r => lseq r =? t) rs).
Proof.
  intros Hr Hc Ht. revert first fuel Hc. induction Hr as [|r rs Hr Hrs IH]; intros first fuel Hc Hf;
    (destruct fuel as [|fuel]; [lia|]); cbn [scan_file_for_seq].
  - cbn [wires map concat app]. by destruct (scan_tail frag Ht) as [->|[-> (h & -> & ->)]].
  - rewrite wires_cons, <- app_assoc. destruct (scan_head r (wires rs ++ frag) Hr) as (-> & -> & -> & ->).
    rewrite length_app, (proj2 (Nat.ltb_ge _ _)), take_app_length, drop_app_length by lia. cbn [raw raw_header WalHeader_new wh_crc32].
    rewrite Z.eqb_refl. cbn [negb]. rewrite rec_ok_seq by done. cbn [List.find]. destruct Hc as [Hs Hc]. cbn in Hf.
    destruct (lseq r =? t) eqn:Et; [done|]. rewrite <- (IH (first + 1) fuel) by (done || lia).
    destruct (lseq r >? t) eqn:Eg; [|done]. rewrite (IH (first + 1) fuel) by (done || lia).
    destruct (List.find _ rs) as [x|] eqn:Ex; [|done]. apply find_some in Ex as [Hi Hx].
    pose proof (consecutive_range _ _ _ Hc Hi). lia.
Qed.

(** *** Reading a directory *)

(** The files hold whole records, the last one perhaps a torn tail. *)
Fixpoint reads (files : list WalFileInfo) (ps : list (list LogRec * list Z)) : Prop :=
  match files, ps with
  | [], [] => True
  | f :: fs, p :: ps => wi_data f = wires p.1 ++ p.2 /\ Forall rec_ok p.1 /\ tail_ok p.2 /\ (ps = [] \/ p.2 = []) /\
      zlen (wi_data f) <= U64_MAX /\ reads fs ps
  | _, _ => False
  end.

Lemma reads_length files ps : reads files ps -> length files = length ps.
Proof. revert ps. induction files; intros [|p ps]; cbn; [done|done|done|]. intros (_ & _ & _ & _ & _ & ?). by rewrite IHfiles with ps. Qed.

(** The reader stands in a file with the records [todo] ahead of it. *)
Record standing (r : WalReader) (todo : list LogRec) (later : list (list LogRec * list Z)) : Prop := {
  st_file : exists done frag, rd_file r = Some (done ++ wires todo ++ frag) /\ rd_pos r = length done /\ rd_offset r = length done /\
    tail_ok frag /\ (later = [] \/ frag = []) /\ zlen (done ++ wires todo ++ frag) <= U64_MAX;
  st_todo : Forall rec_ok todo;
  st_later : reads (drop (S (rd_file_idx r)) (rd_files r)) later;
  st_idx : (rd_file_idx r < length (rd_files r))%nat;
}.

Definition wanted (t : Z) (rs : list LogRec) : list LogRec := List.filter (fun r => t <=? lseq r) rs.

Definition yields (t : Z) (todo : list LogRec) (later : list (list LogRec * list Z)) : list LogRec :=
  wanted t todo ++ concat (map fst later).

Definition rounds (todo : list LogRec) (later : list (list LogRec * list Z)) : nat :=
  (length todo + sum_list_with (fun p => S (length p.1)) later)%nat.

Lemma wanted_all t rs : Forall (fun r => t <= lseq r) rs -> wanted t rs = rs.
Proof. induction 1 as [|r rs Hr Hrs IH]; [done|]. cbn. rewrite (proj2 (Z.leb_le _ _) Hr). unfold wanted in IH. by rewrite IH. Qed.

Lemma wanted_none t rs : Forall (fun r => lseq r < t) rs -> wanted t rs = [].
Proof. induction 1 as [|r rs Hr Hrs IH]; [done|]. cbn. rewrite (proj2 (Z.leb_gt _ _) Hr). exact IH. Qed.

(** One step over a record. *)
Lemma standing_step r x todo later : standing r (x :: todo) later ->
  let r' := mkReader (rd_file r) (rd_offset r + length (wire x)) (rd_files r) (rd_file_idx r)
              (rd_offset r + (HEADER_SIZE + length x.2)) (rd_target_seq r) in
  standing r' todo later /\
  exists data, rd_file r = Some data /\ read_frame data (rd_pos r) (rd_offset r) = (inl (FrameRecord (raw x)), rd_pos r').
Proof.
  intros [(dn & frag & Hd & Hp & Ho & Ht & Hl & Hs) Hok Hla Hi]. apply Forall_cons in Hok as [Hx Hok]. cbn. split.
  - constructor; cbn; try done. exists (dn ++ wire x), frag. rewrite wires_cons, <- app_assoc in Hd, Hs. rewrite <- app_assoc.
    rewrite Ho, length_app, wire_length. split_and!; try done.
  - eexists. split; [exact Hd|]. rewrite Hp, Ho, wires_cons, <- app_assoc. by apply read_frame_wire.
Qed.

(** At the end of a file the reader moves to the next one. *)
Lemma standing_advance r p later : standing r [] (p :: later) ->
  exists data r', rd_file r = Some data /\ (read_frame data (rd_pos r) (rd_offset r)).1 = inl FrameEnd /\
    advance_file r = (r', true) /\ standing r' p.1 later /\ rd_target_seq r' = 0.
Proof.
  intros [(dn & frag & Hd & Hp & Ho & Ht & [? | ->] & Hs) _ Hla Hi]; [done|]. destruct (drop (S (rd_file_idx r)) (rd_files r)) as [|f fs] eqn:Ef; [done|].
  cbn in Hla. destruct Hla as (Hf & Hok & Htl & Hone & Hsz & Hrest).
  assert (rd_files r !! S (rd_file_idx r) = Some f) as Hlk.
  { rewrite <- (Nat.add_0_r (S (rd_file_idx r))), <- lookup_drop, Ef. done. }
  unfold advance_file. rewrite Hlk. eexists _, _. split; [exact Hd|]. cbn. rewrite !app_nil_r. split_and!; [by rewrite Hp, Ho, read_frame_end|done| |done].
  constructor; cbn; [|done| |by eapply lookup_lt_Some].
  - exists [], p.2. by rewrite Hf in *.
  - replace (S (S (rd_file_idx r))) with (S (rd_file_idx r) + 1)%nat by lia. rewrite <- drop_drop, Ef. done.
Qed.

(** At the end of the last file the reader stops, also before a torn tail. *)
Lemma standing_last fuel r : standing r [] [] -> exists r', next (S fuel) r = Ok (inl None, r').
Proof.
  intros [(dn & frag & Hd & Hp & Ho & Ht & _ & Hs) _ Hla Hi]. cbn [next]. rewrite Hd. cbn [wires map concat app] in *.
  apply reads_length in Hla. rewrite length_drop in Hla. cbn in Hla.
  destruct frag as [|b frag].
  - rewrite app_nil_r, Hp, Ho, read_frame_end. unfold advance_file. rewrite lookup_ge_None_2 by lia. eauto.
  - destruct Ht as [?|Ht]; [done|]. pose proof (read_frame_torn dn (b :: frag) Ht ltac:(done)) as E. rewrite Hp, Ho.
    destruct (read_frame _ _ _) as [fr pos]. cbn in E. subst fr. cbn [rd_file_idx rd_files].
    rewrite torn_short by done. rewrite (proj2 (Nat.eqb_eq _ _)) by lia. cbn. eauto.
Qed.

Lemma next_spec fuel : forall r todo later, standing r todo later -> (rounds todo later < fuel)%nat ->
  match yields (rd_target_seq r) todo later with
  | [] => exists r', next fuel r = Ok (inl None, r')
  | x :: xs => exists r' todo' later', next fuel r = Ok (inl (Some (raw x)), r') /\ standing r' todo' later' /\
      yields (rd_target_seq r') todo' later' = xs /\ (rounds todo' later' < rounds todo later)%nat
  end.
Proof.
  induction fuel as [|fuel IH]; intros r todo later Hst Hf; [lia|]. destruct todo as [|x todo].
  - destruct later as [|p later]; [by apply standing_last|].
    destruct (standing_advance r p later Hst) as (data & r' & Hd & Hrf & Ha & Hst' & Ht').
    cbn [next]. rewrite Hd. destruct (read_frame _ _ _) as [fr pos]. cbn in Hrf. subst fr. rewrite Ha.
    unfold rounds in Hf. cbn in Hf. specialize (IH r' p.1 later Hst' ltac:(unfold rounds; lia)). rewrite Ht' in IH.
    assert (wanted 0 p.1 = p.1) as E.
    { apply wanted_all. destruct Hst' as [_ Hok _ _]. eapply Forall_impl; [exact Hok|]. apply rec_ok_nonneg. }
    unfold yields in IH |- *. cbn [wanted List.filter app map concat]. rewrite E in IH.
    destruct (p.1 ++ concat (map fst later)); [done|]. destruct IH as (r2 & todo' & later' & ? & ? & ? & ?).
    exists r2, todo', later'. unfold rounds in *. cbn. split_and!; try done. lia.
  - destruct (standing_step r x todo later Hst) as (Hst' & data & Hd & Hrf).
    cbn [next]. rewrite Hd, Hrf. cbn [rd_target_seq raw raw_payload].
    rewrite rec_ok_seq by (by destruct Hst as [_ [? ?]%Forall_cons _ _]). rewrite Hd in Hst'.
    unfold yields. cbn [wanted List.filter]. rewrite Z.leb_antisym. destruct (lseq x <? rd_target_seq r) eqn:El; cbn [negb app].
    + unfold rounds in Hf |- *. cbn in Hf |- *. specialize (IH _ _ _ Hst' ltac:(unfold rounds; lia)). cbn [rd_target_seq] in IH.
      unfold yields, wanted in IH. destruct (_ ++ _) as [|y ys]; [done|]. destruct IH as (r2 & todo' & later' & ? & ? & ? & ?).
      exists r2, todo', later'. unfold rounds in *. split_and!; try done. lia.
    + eexists _, todo, later. split; [done|]. split; [exact Hst'|]. split; [done|]. unfold rounds. cbn. lia.
Qed.

Lemma read_all_spec fuel : forall r todo later, standing r todo later -> (rounds todo later < fuel)%nat ->
  read_all fuel r = Ok (map raw (yields (rd_target_seq r) todo later), None).
Proof.
  induction fuel as [|fuel IH]; intros r todo later Hst Hf; [lia|]. pose proof (next_spec (S fuel) r todo later Hst Hf) as Hn.
  cbn [read_all]. destruct (yields (rd_target_seq r) todo later) as [|x xs].
  - destruct Hn as [r' ->]. done.
  - destruct Hn as (r' & todo' & later' & -> & Hst' & <- & Hm). cbn [mbind Res_bind]. rewrite (IH r' todo' later') by (done || lia). done.
Qed.

(** *** From an opened directory *)

Lemma rounds_fuel files ps idx : reads files ps -> (sum_list_with (fun p => S (length p.1)) (drop idx ps) <= sum_list_with (fun f => S (length (wi_data f))) files)%nat.
Proof.
  revert ps idx. induction files as [|f files IH]; intros [|p ps] idx; cbn [reads]; try done.
  - intros _. rewrite drop_nil. cbn. lia.
  - intros (Hf & _ & _ & _ & _ & Hr). pose proof (IH ps 0%nat Hr) as Hz. rewrite drop_0 in Hz.
    pose proof (wires_length_ge p.1). cbn [sum_list_with]. rewrite Hf, length_app. destruct idx as [|idx]; cbn [drop sum_list_with]; [lia|].
    specialize (IH ps idx Hr). lia.
Qed.

Lemma reads_drop files ps n : reads files ps -> reads (drop n files) (drop n ps).
Proof.
  revert ps n. induction files as [|f files IH]; intros [|p ps] [|n]; cbn; try done. intros (_ & _ & _ & _ & _ & Hr). by apply IH.
Qed.

Lemma reads_lookup files ps i p : reads files ps -> ps !! i = Some p ->
  exists f, files !! i = Some f /\ wi_data f = wires p.1 ++ p.2 /\ Forall rec_ok p.1 /\ tail_ok p.2 /\ (drop (S i) ps = [] \/ p.2 = []) /\
    zlen (wi_data f) <= U64_MAX.
Proof.
  revert ps i. induction files as [|f files IH]; intros [|q ps] [|i]; cbn [reads]; try done.
  - intros (Hf & Hok & Ht & Hl & Hs & _) [= ->]. exists f. cbn. rewrite drop_0. done.
  - intros (_ & _ & _ & _ & _ & Hr) Hi. apply (IH ps i Hr Hi).
Qed.

(** Reading from file [idx] on, records below the target left out there. *)
Lemma read_files_spec files ps idx p t :
  reads files ps -> ps !! idx = Some p ->
  let r := mkReader (wi_data <$> files !! idx) 0 files idx 0 t in
  read_all (read_fuel r) r = Ok (map raw (yields t p.1 (drop (S idx) ps)), None).
Proof.
  intros Hr Hi r. destruct (reads_lookup _ _ _ _ Hr Hi) as (f & Hf & Hd & Hok & Ht & Hl & Hs).
  unfold r. rewrite Hf. cbn [fmap option_fmap option_map]. apply read_all_spec.
  - constructor; cbn; [|done|by apply reads_drop|by eapply lookup_lt_Some]. exists [], p.2. rewrite Hd in Hs |- *. done.
  - unfold read_fuel, rounds. cbn [rd_files]. pose proof (rounds_fuel files ps idx Hr) as Hb.
    rewrite (drop_S ps p idx Hi) in Hb. cbn in Hb. lia.
Qed.

End Reads.
