(* ===== verification/WalInv.v ===== *)
(** * WalInv: the log's invariant

    [logged first durable pending w d]: the disk [d] holds the records
    [durable] in its segments and its active file, perhaps with a torn part of
    [pending] behind them, and the writer [w] has exactly [pending] in its
    buffer.  Every call of [flush] keeps it, whatever fails ([flush_spec]), and
    every reader of such a disk sees [durable] and perhaps more of the log.
    Rotations prune old segments: what may be missing is told by a
    [Retention], either of a clock within one stretch of four hours, where
    nothing is ([Window], [one_window]), or of a clock of any age
    ([lived]). *)

From stdpp Require Import sorting.
From S2P Require Import Prelude Hash Frames Wal WalRead.

(** ** Rules for effects *)

Definition triple {A} (P : World -> Prop) (m : IO A) (Q : A -> World -> Prop) (E : World -> Prop) : Prop :=
  forall s, P s -> match m s with (inl a, s') => Q a s' | (inr _, s') => E s' end.

Lemma triple_ret {A} (a : A) P E : triple P (io_ret a) (fun x s => x = a /\ P s) E.
Proof. by intros s Hs. Qed.

Lemma triple_bind {A B} (m : IO A) (k : A -> IO B) P Q R E :
  triple P m Q E -> (forall a, triple (Q a) (k a) R E) -> triple P (io_bind m k) R E.
Proof.
  intros Hm Hk s Hs. specialize (Hm s Hs). unfold io_bind. destruct (m s) as [[a|e] s']; [by apply Hk|done].
Qed.

Lemma triple_conseq {A} (m : IO A) P P' (Q Q' : A -> World -> Prop) (E E' : World -> Prop) :
  triple P m Q E -> (forall s, P' s -> P s) -> (forall a s, Q a s -> Q' a s) -> (forall s, E s -> E' s) -> triple P' m Q' E'.
Proof. intros Hm HP HQ HE s Hs. specialize (Hm s (HP s Hs)). destruct (m s) as [[a|e] s']; auto. Qed.

Lemma triple_get P E : triple P writer_get (fun w s => w = wd_writer s /\ P s) E.
Proof. by intros s Hs. Qed.

(** A predicate on the writer and the disk, whatever the script. *)
Definition on (P : WalWriter -> Disk -> Prop) (s : World) : Prop := P (wd_writer s) (wd_disk s).

Lemma triple_set f (P : WalWriter -> Disk -> Prop) E : triple (on (fun w d => P (f w) d)) (writer_set f) (fun _ => on P) E.
Proof. by intros s Hs. Qed.

Lemma triple_syscall {A} (done : World -> (A + IoError) * World) torn (P : WalWriter -> Disk -> Prop) Q E :
  triple (on P) done Q E -> (forall k s, on P s -> E (torn k s)) -> triple (on P) (syscall done torn) Q E.
Proof.
  intros Hd Ht s Hs. unfold syscall. destruct (wd_faults s) as [|[|k] fs].
  - by apply Hd.
  - by apply Hd.
  - by apply Ht.
Qed.

(** ** Retention

    Every rotation prunes segments by the age of their last write.  The
    invariant is stated for any account of the clock: the readings a flush may
    take ([present]) and a file may carry ([reading]), the last writes that
    pruning may have reached ([gone]), and a time before which a record was not
    written ([since]). *)

Class Retention : Type := {
  present : Z -> Prop;
  reading : Z -> Prop;
  gone : Z -> Prop;
  since : LogRec -> Z;
  present_reading now : present now -> reading now;
  present_since now r : present now -> since r <= now;
  prune_gone now m : present now -> reading m -> RETENTION_NS <= (if m <=? now then wrap_u64 (now - m) else 0) -> gone m;
}.

(** A stretch of four hours, wherever it starts. *)
Class Window : Type := { window_start : Z }.

(** Readings within one such window: nothing is pruned. *)
Definition recent `{Window} (mtime : Z) : Prop := window_start <= mtime < window_start + RETENTION_NS.

#[export] Instance one_window `{Window} : Retention.
Proof.
  refine (Build_Retention recent recent (fun _ => False) (fun _ => window_start) _ _ _).
  - done.
  - intros now r [? _]. done.
  - unfold recent, RETENTION_NS. intros now m Hn Hm. case_if; [|lia]. rewrite wrap_u64_id by width_lia. lia.
Defined.

(** The clock has reached [now], and a record was not written before [st]. *)
Definition lived (now : Z) (st : LogRec -> Z) : Retention.
Proof.
  refine (Build_Retention (fun t => t = now /\ in_u64 now /\ forall r, st r <= now) (fun m => 0 <= m)
    (fun m => m + RETENTION_NS <= now) st _ _ _).
  - intros t (-> & [? _] & _). done.
  - intros t r (-> & _ & ?). done.
  - intros t m (-> & Hn & _) Hm. unfold RETENTION_NS. case_if; [|lia]. bool_to_prop. rewrite wrap_u64_id by width_lia. lia.
Defined.

Section Inv.
Context `{Crc32c} `{HashIter} `{Ret : Retention}.

(** ** The disk *)

(** A segment: its records and the time of its last write. *)
Abbreviation Group := (list LogRec * Z)%type.

Definition group_name (g : Group) : Z * Z :=
  (default 0 (lseq <$> head g.1), default 0 (lseq <$> last g.1)).
Definition group_file (g : Group) : WalFile := mkFile (wires g.1) g.2.
Definition segments_of (gs : list Group) : gmap (Z * Z) WalFile := list_to_map (map (fun g => (group_name g, group_file g)) gs).

Definition recs (gs : list Group) : list LogRec := concat (map fst gs).

Lemma recs_app gs1 gs2 : recs (gs1 ++ gs2) = recs gs1 ++ recs gs2.
Proof. unfold recs. by rewrite map_app, concat_app. Qed.

(** The records of the groups are in the order of the log, with gaps between
    the groups where segments are missing. *)
Fixpoint spaced (lo : Z) (gs : list Group) (hi : Z) : Prop :=
  match gs with
  | [] => lo <= hi
  | g :: gs => exists f, lo <= f /\ g.1 <> [] /\ consecutive f g.1 /\ spaced (f + zlen g.1) gs hi
  end.

Lemma spaced_le lo gs hi : spaced lo gs hi -> lo <= hi.
Proof.
  revert lo. induction gs as [|g gs IH]; intros lo; [done|]. cbn. intros (f & Hf & _ & _ & Hs%IH). pose proof (zlen_nonneg g.1). lia.
Qed.

Lemma spaced_weaken lo lo' gs hi : spaced lo gs hi -> lo' <= lo -> spaced lo' gs hi.
Proof. destruct gs as [|g gs]; cbn; [lia|]. intros (f & ? & ?) Hl. exists f. split; [lia|done]. Qed.

Lemma spaced_filter p lo gs hi : spaced lo gs hi -> spaced lo (List.filter p gs) hi.
Proof.
  revert lo. induction gs as [|g gs IH]; intros lo; [done|]. cbn. intros (f & Hf & Hn & Hc & Hs%IH). destruct (p g); cbn; [by exists f|].
  eapply spaced_weaken; [exact Hs|]. pose proof (zlen_nonneg g.1). lia.
Qed.

Lemma consecutive_spaced first gs : consecutive first (recs gs) -> Forall (fun g => g.1 <> []) gs -> spaced first gs (first + zlen (recs gs)).
Proof.
  revert first. induction gs as [|g gs IH]; intros first; [cbn; unfold zlen; cbn; lia|]. unfold recs. cbn [map concat]. rewrite consecutive_app.
  intros [Hg Hc] [Hn Hok]%Forall_cons. cbn. exists first. split_and!; [lia|done|done|].
  replace (first + zlen (g.1 ++ concat (map fst gs))) with (first + zlen g.1 + zlen (recs gs)) by (unfold zlen, recs; rewrite length_app; lia).
  by apply IH.
Qed.

Lemma spaced_range lo gs hi r : spaced lo gs hi -> In r (recs gs) -> lo <= lseq r < hi.
Proof.
  revert lo. induction gs as [|g gs IH]; intros lo; [done|]. cbn. intros (f & Hf & _ & Hc & Hs) [Hr|Hr]%in_app_iff.
  - pose proof (consecutive_range _ _ _ Hc Hr). apply spaced_le in Hs. lia.
  - specialize (IH _ Hs Hr). pose proof (zlen_nonneg g.1). lia.
Qed.

Lemma spaced_app lo gs1 g gs2 hi : spaced lo (gs1 ++ g :: gs2) hi ->
  exists f, lo <= f /\ spaced lo gs1 f /\ g.1 <> [] /\ consecutive f g.1 /\ spaced (f + zlen g.1) gs2 hi.
Proof.
  revert lo. induction gs1 as [|x gs1 IH]; intros lo; cbn.
  - intros (f & Hf & ?). exists f. cbn. tauto.
  - intros (f & Hf & Hn & Hc & Hs). destruct (IH _ Hs) as (f' & Hf' & H1 & H2). exists f'. pose proof (zlen_nonneg x.1).
    split; [lia|]. split; [|done]. by exists f.
Qed.

Lemma consecutive_ends first rs : consecutive first rs -> rs <> [] ->
  lseq <$> head rs = Some first /\ lseq <$> last rs = Some (first + zlen rs - 1).
Proof.
  intros Hc Hn. split; [destruct rs; [done|]; destruct Hc as [<- _]; done|].
  destruct rs as [|x rs] using rev_ind; [done|]. rewrite last_snoc. apply consecutive_app in Hc as [_ [Hc _]].
  cbn. rewrite Hc. unfold zlen. rewrite length_app. cbn. f_equal. lia.
Qed.

Lemma group_name_first first g : consecutive first g.1 -> g.1 <> [] -> group_name g = (first, first + zlen g.1 - 1).
Proof. intros Hc Hn. unfold group_name. by destruct (consecutive_ends _ _ Hc Hn) as [-> ->]. Qed.

Lemma zlen_pos {A} (l : list A) : l <> [] -> 0 < zlen l.
Proof. destruct l; [done|]. unfold zlen. cbn. lia. Qed.

(** Names grow along the log. *)
Lemma group_names lo gs hi g : spaced lo gs hi -> In g gs ->
  exists f, group_name g = (f, f + zlen g.1 - 1) /\ lo <= f /\ f + zlen g.1 <= hi /\ consecutive f g.1 /\ 0 < zlen g.1.
Proof.
  intros Hs (gs1 & gs2 & ->)%in_split. destruct (spaced_app _ _ _ _ _ Hs) as (f & Hf & _ & Hn & Hc & H2). exists f.
  split_and!; [by apply group_name_first|done|by eapply spaced_le|done|by apply zlen_pos].
Qed.

Lemma group_names_nodup lo gs hi : spaced lo gs hi -> NoDup (map group_name gs).
Proof.
  revert lo. induction gs as [|x gs IH]; intros lo; cbn; [by constructor|]. intros (f & Hf & Hn & Hc & Hs). constructor; [|by eapply IH].
  intros (g & Eg & Hi)%list_elem_of_In%in_map_iff. destruct (group_names _ _ _ g Hs Hi) as (f' & Ef & ? & _).
  rewrite Eg, (group_name_first f x Hc Hn) in Ef. injection Ef as Ef. pose proof (zlen_pos _ Hn). lia.
Qed.

Definition active_infos (a : option WalFile) : list WalFileInfo :=
  match a with Some fl => [mkInfo U64_MAX U64_MAX true (fl_data fl)] | None => [] end.

Definition group_info (g : Group) : WalFileInfo := mkInfo (group_name g).1 (group_name g).2 false (wires g.1).

Definition before (a b : WalFileInfo) : Prop := wi_first_seq a < wi_first_seq b.

Lemma before_unique l x y : StronglySorted before l -> x ∈ l -> y ∈ l -> wi_first_seq x = wi_first_seq y -> x = y.
Proof.
  induction 1 as [|z l Hs IH Hz]; [by intros ?%not_elem_of_nil|]. rewrite Forall_forall in Hz. unfold before in Hz.
  intros [->|Hx]%elem_of_cons [->|Hy]%elem_of_cons E; auto.
  - specialize (Hz _ Hy). lia.
  - specialize (Hz _ Hx). lia.
Qed.

#[local] Instance by_first_seq_total : Total by_first_seq.
Proof. intros x y. unfold by_first_seq. lia. Qed.
#[local] Instance by_first_seq_trans : Transitive by_first_seq.
Proof. intros x y z. unfold by_first_seq. lia. Qed.

Lemma merge_sort_before l l' : StronglySorted before l' -> l ≡ₚ l' -> merge_sort by_first_seq l = l'.
Proof.
  intros Hs Hp. assert (merge_sort by_first_seq l ≡ₚ l') as Hq by (by rewrite merge_sort_Permutation).
  apply (StronglySorted_unique_strong by_first_seq); [|apply (StronglySorted_merge_sort _)| |done].
  - intros x y Hx Hy H1 H2. rewrite Hq in Hx. eapply before_unique; [exact Hs|done|done|]. unfold by_first_seq in *. lia.
  - clear -Hs. induction Hs as [|x l ? IH Hx]; constructor; [done|]. eapply Forall_impl; [exact Hx|].
    unfold before, by_first_seq. lia.
Qed.

Lemma infos_sorted lo gs hi a : spaced lo gs hi -> hi <= U64_MAX -> StronglySorted before (map group_info gs ++ active_infos a).
Proof.
  revert lo. induction gs as [|x gs IH]; intros lo.
  - intros _ _. cbn. destruct a; cbn; repeat constructor.
  - cbn [spaced map app]. intros (f & Hf & Hn & Hc & Hs) Hm. constructor; [by eapply IH|].
    apply Forall_app. pose proof (group_name_first _ _ Hc Hn) as En. pose proof (zlen_pos _ Hn). pose proof (spaced_le _ _ _ Hs). split.
    + apply Forall_forall. intros i (g & <- & Hi)%list_elem_of_In%in_map_iff.
      destruct (group_names _ _ _ g Hs Hi) as (f' & Ef & ? & _). unfold before, group_info. rewrite En, Ef. cbn. lia.
    + destruct a; constructor; [|done]. unfold before, group_info. rewrite En. cbn. lia.
Qed.

(** The listing is in the order of the log. *)
Lemma list_sorted lo gs hi a : spaced lo gs hi -> hi <= U64_MAX ->
  list_wal_files_across (mkDisk (segments_of gs) a) = map group_info gs ++ active_infos a.
Proof.
  intros Hs Hm. apply merge_sort_before; [by eapply infos_sorted|].
  unfold list_wal_files, active_infos. cbn [dk_segments dk_active]. apply Permutation_app; [|done].
  rewrite iter_map_perm. unfold segments_of. rewrite map_to_list_to_map.
  - rewrite map_map. done.
  - rewrite <- list_fmap_compose. exact (group_names_nodup _ _ _ Hs).
Qed.

(** ** Reading the disk *)

(** The active file holds [act] and a torn tail. *)
Definition active_holds (act : list LogRec) (frag : list Z) (a : option WalFile) : Prop :=
  match a with
  | Some fl => fl_data fl = wires act ++ frag
  | None => act = [] /\ frag = []
  end.

Definition contents (gs : list Group) (act : list LogRec) (frag : list Z) (a : option WalFile) : list (list LogRec * list Z) :=
  map (fun g => (g.1, [])) gs ++ match a with Some _ => [(act, frag)] | None => [] end.

Lemma contents_reads gs act frag a : Forall rec_ok (recs gs ++ act) -> tail_ok frag -> active_holds act frag a ->
  zlen (wires (recs gs ++ act) ++ frag) <= U64_MAX -> reads (map group_info gs ++ active_infos a) (contents gs act frag a).
Proof.
  intros Hr Ht Ha Hs. induction gs as [|g gs IH]; cbn.
  - destruct a as [fl|]; cbn in *; [|done]. rewrite Ha. split_and!; try done; by left.
  - unfold recs in Hr, Hs. cbn [map concat] in Hr, Hs. rewrite <- app_assoc in Hr, Hs. apply Forall_app in Hr as [Hg Hr].
    rewrite wires_app, <- app_assoc in Hs. unfold zlen in Hs |- *. rewrite length_app in Hs. rewrite app_nil_r.
    split_and!; [done|done|by left|by right|lia|]. apply IH; [done|]. unfold zlen, recs. lia.
Qed.

Lemma contents_recs gs act frag a : active_holds act frag a -> concat (map fst (contents gs act frag a)) = recs gs ++ act.
Proof.
  intros Ha. unfold contents. rewrite map_app, concat_app, map_map. cbn. unfold recs. f_equal. destruct a; cbn; [by rewrite app_nil_r|].
  by destruct Ha as [-> _].
Qed.

Lemma pick_loop_none t l : forall i idx, (forall f, In f l -> covers t f = false) ->
  pick_loop l t i idx = match l with [] => idx | _ => (i + length l - 1)%nat end.
Proof.
  induction l as [|f l IH]; intros i idx Hn; [done|]. cbn [pick_loop]. rewrite Hn by (by left). rewrite IH by (intros; apply Hn; by right).
  destruct l; cbn; lia.
Qed.

Lemma pick_loop_hit t l1 f l2 : forall i idx, (forall g, In g l1 -> covers t g = false) -> covers t f = true ->
  pick_loop (l1 ++ f :: l2) t i idx = (i + length l1)%nat.
Proof.
  induction l1 as [|g l1 IH]; intros i idx Hn Hf; cbn [app pick_loop]; [rewrite Hf; cbn; lia|].
  rewrite Hn by (by left). rewrite IH; [cbn; lia|intros; apply Hn; by right|done].
Qed.

Lemma find_none_all {A} (f : A -> bool) l : (forall x, In x l -> f x = false) -> List.find f l = None.
Proof. induction l as [|x l IH]; cbn; intros Hf; [done|]. rewrite Hf by (by left). apply IH. auto. Qed.

Definition holding (t : Z) (rs : list LogRec) : option LogRec := List.find (fun r => lseq r =? t) rs.

(** Which segment covers a sequence number. *)
Lemma covers_range f g t : consecutive f g.1 -> g.1 <> [] -> covers t (group_info g) = true <-> f <= t < f + zlen g.1.
Proof.
  intros Hc Hn. unfold covers, group_info. rewrite (group_name_first _ _ Hc Hn). cbn. rewrite andb_true_iff, Z.geb_leb, !Z.leb_le. lia.
Qed.

Lemma covering lo gs hi t : spaced lo gs hi ->
  (exists gs1 g gs2 f, gs = gs1 ++ g :: gs2 /\ (forall x, In x gs1 -> covers t (group_info x) = false) /\ covers t (group_info g) = true /\
     spaced lo gs1 f /\ consecutive f g.1 /\ f <= t < f + zlen g.1 /\ spaced (f + zlen g.1) gs2 hi) \/
  ((forall x, In x gs -> covers t (group_info x) = false) /\ holding t (recs gs) = None).
Proof.
  intros Hs. destruct (existsb (fun g => covers t (group_info g)) gs) eqn:E.
  - left. apply existsb_exists in E as (g & Hi & Hg). apply in_split in Hi as (gs1 & gs2 & ->). exists gs1, g, gs2.
    destruct (spaced_app _ _ _ _ _ Hs) as (f & Hf & H1 & Hn & Hc & H2). pose proof (proj1 (covers_range f g t Hc Hn) Hg) as Ht.
    exists f. split_and!; try done; try lia. intros x Hx. destruct (covers t (group_info x)) eqn:Ex; [|done]. exfalso.
    destruct (group_names _ _ _ x H1 Hx) as (f' & _ & _ & Hle & Hcx & Hp). apply (covers_range f' x t Hcx) in Ex; [lia|]. intros En. by rewrite En in Hp.
  - right. rewrite existsb_false in E. split; [exact E|]. apply find_none_all. intros r (l & (g & <- & Hg)%in_map_iff & Hl)%in_concat.
    destruct (group_names _ _ _ g Hs Hg) as (f & _ & _ & _ & Hc & Hp). specialize (E g Hg). apply Z.eqb_neq. intros <-.
    rewrite (proj2 (covers_range f g (lseq r) Hc ltac:(intros En; by rewrite En in Hp))) in E; [done|]. by apply consecutive_range.
Qed.

Lemma wanted_app t rs1 rs2 : wanted t (rs1 ++ rs2) = wanted t rs1 ++ wanted t rs2.
Proof. apply List.filter_app. Qed.

Lemma wanted_below t rs : (forall r, In r rs -> lseq r < t) -> wanted t rs = [].
Proof. intros Hr. apply wanted_none, Forall_forall. intros r Hi%list_elem_of_In. auto. Qed.

Lemma wanted_above t rs : (forall r, In r rs -> t <= lseq r) -> wanted t rs = rs.
Proof. intros Hr. apply wanted_all, Forall_forall. intros r Hi%list_elem_of_In. auto. Qed.

Lemma run_below first rs t : consecutive first rs -> first + zlen rs <= t -> wanted t rs = [].
Proof. intros Hc Ht. apply wanted_below. intros r Hr. pose proof (consecutive_range _ _ _ Hc Hr). lia. Qed.

Lemma run_above first rs t : consecutive first rs -> t <= first -> wanted t rs = rs.
Proof. intros Hc Ht. apply wanted_above. intros r Hr. pose proof (consecutive_range _ _ _ Hc Hr). lia. Qed.

(** A reader opened at [t] yields what the disk holds from [t] on, when a
    segment covers [t] or none is behind it. *)
Lemma read_from_spec lo gs hi act frag a t :
  spaced lo gs hi -> consecutive hi act -> Forall rec_ok (recs gs ++ act) -> tail_ok frag -> active_holds act frag a ->
  zlen (wires (recs gs ++ act) ++ frag) <= U64_MAX -> hi <= U64_MAX ->
  (t = 0 \/ holding t (recs gs) <> None \/ forall r, In r (recs gs) -> lseq r < t) ->
  read_from t (mkDisk (segments_of gs) a) = Ok (map raw (wanted t (recs gs ++ act)), None).
Proof.
  intros Hsp Hca Hr Htl Ha Hs Hm Ht. pose proof (contents_reads gs act frag a Hr Htl Ha Hs) as Hreads.
  unfold read_from, open_from_seq. rewrite (list_sorted lo gs hi) by done.
  set (files := map group_info gs ++ active_infos a) in *. set (ps := contents gs act frag a) in *.
  assert (forall idx p, ps !! idx = Some p -> pick_start_idx files t = idx -> yields t p.1 (drop (S idx) ps) = wanted t (recs gs ++ act) ->
    read_all (read_fuel (mkReader (wi_data <$> files !! pick_start_idx files t) 0 files (pick_start_idx files t) 0 t))
      (mkReader (wi_data <$> files !! pick_start_idx files t) 0 files (pick_start_idx files t) 0 t) = Ok (map raw (wanted t (recs gs ++ act)), None)) as Hgo.
  { intros idx p Hp Hi Hy. rewrite Hi, <- Hy. by apply read_files_spec. }
  destruct (decide (ps = [])) as [En|En].
  { pose proof (contents_recs gs act frag a Ha) as Ec. fold ps in Ec. rewrite En in *. cbn in Ec. rewrite <- Ec.
    destruct files; [|done]. done. }
  assert (length files = length ps) as Elen by (by apply reads_length).
  assert (forall f, In f (active_infos a) -> covers t f = false) as Hna by (destruct a; cbn; [intros f [<-|[]]; done|done]).
  destruct (decide (t = 0)) as [->|Hnz].
  - destruct ps as [|p ps'] eqn:Ep; [done|]. apply (Hgo 0%nat p); [done|unfold pick_start_idx; by rewrite orb_true_r|].
    pose proof (contents_recs gs act frag a Ha) as Ec. fold ps in Ec. rewrite Ep in Ec. cbn in Ec. unfold yields. rewrite skipn_cons, drop_0.
    rewrite Forall_forall in Hr. assert (forall r, In r (recs gs ++ act) -> 0 <= lseq r) as Hpos by (intros r Hi; by apply rec_ok_nonneg, Hr, list_elem_of_In).
    rewrite (wanted_above 0 (recs gs ++ act)) by done. rewrite <- Ec in *. f_equal. apply wanted_above. intros r Hi. apply Hpos, in_app_iff. by left.
  - assert (pick_start_idx files t = pick_loop files t 0 0) as Epick.
    { unfold pick_start_idx. rewrite (proj2 (Z.eqb_neq t 0)), orb_false_r by done. destruct ps; [done|]. by destruct files. }
    destruct (covering lo gs hi t Hsp) as [(gs1 & g & gs2 & f & -> & H1 & H2 & Hs1 & Hcg & Hf & Hs2)|[H1 H2]].
    + apply (Hgo (length gs1) (g.1, [])).
      * unfold ps, contents. rewrite map_app, <- app_assoc. cbn [map app]. apply list_lookup_middle. by rewrite length_map.
      * rewrite Epick. unfold files. rewrite map_app, <- app_assoc. cbn [map app]. rewrite pick_loop_hit; [by rewrite length_map| |done].
        intros x (y & <- & Hy)%in_map_iff. by apply H1.
      * unfold yields. unfold ps, contents. rewrite map_app, <- app_assoc. cbn [map app].
        rewrite drop_app, (drop_ge (map _ gs1)), length_map by (rewrite length_map; lia).
        replace (S (length gs1) - length gs1)%nat with 1%nat by lia. cbn [app]. rewrite skipn_cons, drop_0.
        cbn [fst]. match goal with |- _ ++ ?c = _ => assert (c = recs gs2 ++ act) as -> by exact (contents_recs gs2 act frag a Ha) end.
        rewrite recs_app. change (recs (g :: gs2)) with (g.1 ++ recs gs2). rewrite <- !app_assoc, !wanted_app.
        pose proof (spaced_le _ _ _ Hs2).
        rewrite (wanted_below t (recs gs1)) by (intros r Hi; pose proof (spaced_range _ _ _ r Hs1 Hi); lia).
        rewrite (wanted_above t (recs gs2)) by (intros r Hi; pose proof (spaced_range _ _ _ r Hs2 Hi); lia).
        rewrite (run_above hi act) by (done || lia). done.
    + assert (forall r, In r (recs gs) -> lseq r < t) as Hbelow by (destruct Ht as [?|[?|?]]; done).
      assert (pick_start_idx files t = (length files - 1)%nat) as Ei.
      { rewrite Epick, pick_loop_none; [destruct files; [|lia]; done|]. intros x [Hx|Hx]%in_app_iff; [|by apply Hna].
        apply in_map_iff in Hx as (y & <- & Hy). by apply H1. }
      rewrite wanted_app, (wanted_below t (recs gs)) in * by done. cbn [app] in *.
      unfold active_holds in Ha. unfold ps, contents in Hgo, Elen, En. destruct a as [fl|].
      * apply (Hgo (length gs) (act, frag)); [|rewrite Ei, Elen, length_app, length_map; cbn; lia|].
        -- rewrite lookup_app_r; rewrite length_map; [by rewrite Nat.sub_diag|lia].
        -- unfold yields. cbn [fst]. rewrite drop_ge by (rewrite length_app, length_map; cbn; lia). by rewrite app_nil_r.
      * destruct Ha as [-> ->]. rewrite app_nil_r in *. destruct gs as [|g gs' _] using rev_ind; [done|].
        apply (Hgo (length gs') (g.1, [])); [|rewrite Ei, Elen, length_map, length_app; cbn; lia|].
        -- rewrite map_app, lookup_app_r; rewrite length_map; [by rewrite Nat.sub_diag|lia].
        -- unfold yields. cbn [fst]. rewrite drop_ge by (rewrite length_map, length_app; cbn; lia). cbn. rewrite app_nil_r.
           apply wanted_below. intros r Hi. apply Hbelow. rewrite recs_app. unfold recs. cbn. rewrite app_nil_r. apply in_app_iff. by right.
Qed.

(** *** Random access *)

Lemma find_app {A} (f : A -> bool) l1 l2 : List.find f (l1 ++ l2) = match List.find f l1 with Some x => Some x | None => List.find f l2 end.
Proof. induction l1 as [|x l1 IH]; cbn; [done|]. by destruct (f x). Qed.

Lemma holding_none t rs : (forall r, In r rs -> lseq r <> t) -> holding t rs = None.
Proof. intros Hr. apply find_none_all. intros r Hi. apply Z.eqb_neq. auto. Qed.

Lemma holding_app t rs1 rs2 : holding t (rs1 ++ rs2) = match holding t rs1 with Some r => Some r | None => holding t rs2 end.
Proof. apply find_app. Qed.

Lemma read_record_spec lo gs hi act frag a t :
  spaced lo gs hi -> consecutive hi act -> Forall rec_ok (recs gs ++ act) -> tail_ok frag -> active_holds act frag a -> hi <= U64_MAX ->
  read_record_at_seq t (mkDisk (segments_of gs) a) = Ok (raw <$> holding t (recs gs ++ act)).
Proof.
  intros Hsp Hca Hr Htl Ha Hm. apply Forall_app in Hr as [Hrg Hra]. unfold read_record_at_seq. rewrite (list_sorted lo gs hi) by done.
  unfold pick_file_for_seq. rewrite find_app.
  destruct (covering lo gs hi t Hsp) as [(gs1 & g & gs2 & f & -> & H1 & H2 & Hs1 & Hcg & Hf & Hs2)|[H1 H2]].
  - rewrite map_app, find_app, (find_none_all _ (map group_info gs1)) by (intros x (y & <- & Hy)%in_map_iff; by apply H1).
    cbn [map List.find]. rewrite H2. rewrite recs_app in *. change (recs (g :: gs2)) with (g.1 ++ recs gs2) in *.
    apply Forall_app in Hrg as [_ [Hrx _]%Forall_app].
    pose proof (scan_seq_spec g.1 [] (S (length (wires g.1))) _ t Hrx Hcg) as Hs. rewrite app_nil_r in Hs.
    etransitivity; [apply Hs; [by left|pose proof (wires_length_ge g.1); lia]|]. do 2 f_equal. pose proof (spaced_le _ _ _ Hs2).
    rewrite !holding_app, (holding_none t (recs gs1)) by (intros r Hi; pose proof (spaced_range _ _ _ r Hs1 Hi); lia).
    unfold holding at 1. destruct (List.find _ g.1); [done|].
    rewrite (holding_none t (recs gs2)), (holding_none t act); [done| |].
    + intros r Hi. pose proof (consecutive_range _ _ r Hca Hi). lia.
    + intros r Hi. pose proof (spaced_range _ _ _ r Hs2 Hi). lia.
  - rewrite find_none_all by (intros x (y & <- & Hy)%in_map_iff; by apply H1).
    rewrite find_none_all by (destruct a; cbn; [by intros ? [<-|[]]|done]).
    rewrite find_app, find_none_all by (by intros x (y & <- & Hy)%in_map_iff). rewrite holding_app, H2.
    destruct a as [fl|]; cbn [active_holds active_infos List.find wi_is_active wi_data] in Ha |- *; [|by destruct Ha as [-> _]]. rewrite Ha.
    eapply scan_seq_spec; [done|exact Hca|done|]. rewrite length_app. pose proof (wires_length_ge act). lia.
Qed.

(** ** The writer *)

Definition log_ok (first : Z) (rs : list LogRec) : Prop :=
  Forall rec_ok rs /\ consecutive first rs /\ 0 <= first /\ first + zlen rs <= U64_MAX /\ zlen (wires rs) <= I64_MAX.

(** A file last written at [m] may hold these records. *)
Definition dated (rs : list LogRec) (m : Z) : Prop := reading m /\ Forall (fun r => since r <= m) rs.

Definition group_ok (g : Group) : Prop := g.1 <> [] /\ dated g.1 g.2.

Lemma present_dated now rs : present now -> dated rs now.
Proof. intros Hn. split; [by apply present_reading|]. apply Forall_forall. intros r _. by apply present_since. Qed.

Lemma dated_app rs1 rs2 m : dated (rs1 ++ rs2) m <-> dated rs1 m /\ dated rs2 m.
Proof. unfold dated. rewrite Forall_app. tauto. Qed.

(** Segments, active records and buffered records make up the log; a segment
    that is missing was last written before the retention. *)
Record base (first : Z) (gs : list Group) (act pend : list LogRec) (w : WalWriter) (d : Disk) : Prop := {
  ba_log : log_ok first (recs gs ++ act ++ pend);
  ba_groups : Forall group_ok gs;
  ba_segments : dk_segments d ⊆ segments_of gs;
  ba_gone : forall g, In g gs -> dk_segments d !! group_name g = None -> gone g.2;
  ba_buf : ww_buf w = wires pend;
  ba_buf_first : ww_buf_first_seq w = lseq <$> head pend;
  ba_last : pend <> [] -> lseq <$> last pend = Some (ww_last_seq w);
}.

Lemma groups_spaced first gs rest : log_ok first (recs gs ++ rest) -> Forall group_ok gs ->
  spaced first gs (first + zlen (recs gs)) /\ consecutive (first + zlen (recs gs)) rest.
Proof.
  intros (_ & [Hc Hr]%consecutive_app & _) Hok. split; [|done]. apply consecutive_spaced; [done|].
  eapply Forall_impl; [exact Hok|]. by intros g [? _].
Qed.

Lemma segments_lookup lo gs hi g : spaced lo gs hi -> In g gs -> segments_of gs !! group_name g = Some (group_file g).
Proof.
  intros Hs Hi. apply elem_of_list_to_map_1.
  - rewrite <- list_fmap_compose. exact (group_names_nodup _ _ _ Hs).
  - apply list_elem_of_In, in_map_iff. by exists g.
Qed.

Lemma segments_inv gs nm fl : segments_of gs !! nm = Some fl -> exists g, In g gs /\ nm = group_name g /\ fl = group_file g.
Proof. intros Hm. apply elem_of_list_to_map_2, list_elem_of_In, in_map_iff in Hm as (g & [= <- <-] & Hg). by exists g. Qed.

(** The groups that are left. *)
Definition left_on (segs : gmap (Z * Z) WalFile) (g : Group) : bool := bool_decide (is_Some (segs !! group_name g)).

Lemma segments_left lo gs hi segs : spaced lo gs hi -> segs ⊆ segments_of gs -> segs = segments_of (List.filter (left_on segs) gs).
Proof.
  intros Hs Hsub. pose proof (spaced_filter (left_on segs) _ _ _ Hs) as Hf. apply map_eq. intros nm. destruct (segs !! nm) as [fl|] eqn:E.
  - pose proof (lookup_weaken _ _ _ _ E Hsub) as (g & Hi & -> & ->)%segments_inv. symmetry. apply (segments_lookup _ _ _ _ Hf).
    apply filter_In. split; [done|]. apply bool_decide_eq_true. by rewrite E.
  - destruct (segments_of (List.filter (left_on segs) gs) !! nm) as [fl|] eqn:E'; [|done]. apply segments_inv in E' as (g & [_ Hl]%filter_In & -> & ->).
    apply bool_decide_eq_true in Hl as [? Hl]. congruence.
Qed.

(** What the writer knows of the active file. *)
Record knows (act : list LogRec) (w : WalWriter) : Prop := {
  kn_size : ww_file_size w = zlen (wires act);
  kn_first : ww_first_seq w = lseq <$> head act;
  kn_flushed : act <> [] -> lseq <$> last act = Some (ww_flushed_seq w);
}.

(** The active file is to be renamed. *)
Definition due (w : WalWriter) : Prop := 0 < ww_file_size w /\ ww_max_file_size w <= wrap_u64 (ww_file_size w + zlen (ww_buf w)).

(** The handle is on the active file, which ends in a part of the buffer; or
    a rotation was cut short before or after the rename. *)
Inductive handle (gs : list Group) (act pend : list LogRec) (w : WalWriter) (a : option WalFile) : list Z -> Prop :=
| on_active fl frag q :
    ww_file w = ActiveFile -> a = Some fl -> fl_data fl = wires act ++ frag ->
    q `prefix_of` pend -> frag `prefix_of` wires q -> dated (act ++ q) (fl_mtime fl) -> knows act w -> handle gs act pend w a frag
| before_rename fl :
    ww_file w = DevNull -> a = Some fl -> fl_data fl = wires act -> dated act (fl_mtime fl) -> knows act w -> due w ->
    handle gs act pend w a []
| after_rename :
    ww_file w = DevNull -> a = None -> act = [] -> ww_file_size w <= zlen (wires (recs gs)) -> due w ->
    handle gs act pend w a [].

Definition logged (first : Z) (durable pend : list LogRec) (w : WalWriter) (d : Disk) : Prop :=
  exists gs act frag, durable = recs gs ++ act /\ base first gs act pend w d /\ handle gs act pend w (dk_active d) frag.

(** A rotation may start. *)
Definition rotating (first : Z) (gs : list Group) (act pend : list LogRec) (w : WalWriter) (d : Disk) : Prop :=
  base first gs act pend w d /\ due w /\ handle gs act pend w (dk_active d) [].

Lemma base_writer first gs act pend w w' d : base first gs act pend w d ->
  ww_buf w' = ww_buf w -> ww_buf_first_seq w' = ww_buf_first_seq w -> ww_last_seq w' = ww_last_seq w -> base first gs act pend w' d.
Proof. intros [] Hb Hf Hl. by constructor; rewrite ?Hb, ?Hf, ?Hl. Qed.

Lemma due_file f w : due (ww_with_file f w) <-> due w.
Proof. done. Qed.

Lemma knows_file f act w : knows act (ww_with_file f w) <-> knows act w.
Proof. split; intros []; by constructor. Qed.

Lemma rotating_logged first gs act pend w d : rotating first gs act pend w d -> logged first (recs gs ++ act) pend w d.
Proof. intros (Hb & _ & Hh). by exists gs, act, []. Qed.

Lemma wires_pos act : 0 < zlen (wires act) -> act <> [].
Proof. by intros Hp ->. Qed.

(** The name given to the segment is the range of its records. *)
Lemma rotating_name first gs act pend w d : rotating first gs act pend w d -> dk_active d <> None -> 
  act <> [] /\ forall m, (default (ww_flushed_seq w) (ww_first_seq w), ww_flushed_seq w) = group_name (act, m).
Proof.
  intros (_ & [Hd _] & Hh) Ha. assert (knows act w) as [Hs Hf Hl] by (inversion Hh; subst; done || congruence).
  rewrite Hs in Hd. apply wires_pos in Hd as Hn. split; [done|]. intros m. unfold group_name. cbn. rewrite Hf, (Hl Hn).
  by destruct act.
Qed.

Lemma segments_snoc lo gs hi g : spaced lo (gs ++ [g]) hi -> <[group_name g := group_file g]> (segments_of gs) = segments_of (gs ++ [g]).
Proof.
  intros Hs. unfold segments_of. rewrite map_app. cbn [map]. symmetry. apply list_to_map_snoc.
  rewrite <- list_fmap_compose. intros Hi. pose proof (group_names_nodup _ _ _ Hs) as Hn. rewrite map_app in Hn.
  apply NoDup_app in Hn as (_ & Hn & _). apply (Hn (group_name g)); [exact Hi|]. cbn. by left.
Qed.

(** After the rename the segment is on disk and the active file is gone. *)
Lemma renamed first gs act pend w d fl : rotating first gs act pend w d -> dk_active d = Some fl -> ww_file w = DevNull ->
  rotating first (gs ++ [(act, fl_mtime fl)]) [] pend w
    (mkDisk (<[(default (ww_flushed_seq w) (ww_first_seq w), ww_flushed_seq w) := fl]> (dk_segments d)) None).
Proof.
  intros Hr Ha Hf. destruct (rotating_name _ _ _ _ _ _ Hr ltac:(by rewrite Ha)) as [Hn Hname]. destruct Hr as (Hb & Hd & Hh).
  inversion Hh as [fl' frag q Hfile| fl' _ Ha' Hdat Hrec Hkn _|]; [congruence| |congruence]. assert (fl' = fl) as -> by congruence.
  destruct Hb. assert (recs (gs ++ [(act, fl_mtime fl)]) = recs gs ++ act) as Er by (rewrite recs_app; unfold recs; cbn; by rewrite app_nil_r).
  assert (Forall group_ok (gs ++ [(act, fl_mtime fl)])) as Hok by (apply Forall_app; split; [done|]; by constructor).
  set (nm := (default (ww_flushed_seq w) (ww_first_seq w), ww_flushed_seq w)) in *.
  assert (fl = group_file (act, fl_mtime fl)) as Efl by (unfold group_file; destruct fl; cbn in Hdat |- *; by rewrite Hdat).
  destruct (groups_spaced first (gs ++ [(act, fl_mtime fl)]) pend) as [Hsp _]; [by rewrite Er, <- app_assoc|done|].
  split; [|split; [done|]].
  - constructor; cbn; try done.
    + by rewrite Er, <- app_assoc.
    + rewrite <- (segments_snoc _ _ _ _ Hsp), <- Efl, <- (Hname (fl_mtime fl)). by apply insert_mono.
    + intros g [Hg|[<-|[]]]%in_app_iff; rewrite (Hname (fl_mtime fl)).
      * destruct (decide (group_name (act, fl_mtime fl) = group_name g)) as [->|Hne]; [by rewrite lookup_insert_eq|].
        rewrite lookup_insert_ne by done. by apply ba_gone0.
      * by rewrite lookup_insert_eq.
  - apply after_rename; try done. destruct Hkn as [-> _ _]. rewrite Er, wires_app. unfold zlen. rewrite length_app. lia.
Qed.

(** ** Pruning

    What is removed was last written before the retention, also when reading
    an entry or its removal fails. *)

Lemma prune_entry_spec now (P : WalWriter -> Disk -> Prop) E nm fl : present now -> reading (fl_mtime fl) ->
  (forall w d, P w d -> gone (fl_mtime fl) -> P w (mkDisk (delete nm (dk_segments d)) (dk_active d))) ->
  triple (on P) (prune_entry now (nm, fl)) (fun _ => on P) E.
Proof.
  intros Hn Hm HP [w d fs] Hs. unfold prune_entry, syscall.
  pose proof (prune_gone now (fl_mtime fl) Hn Hm) as Hg. rewrite Z.geb_leb.
  destruct fs as [|[|k] fs]; cbn; [| |exact Hs]; (destruct (RETENTION_NS <=? _) eqn:El; [apply Z.leb_le in El|exact Hs]); cbn; [by apply HP; auto|].
  destruct fs as [|[|k] fs]; cbn; [by apply HP; auto|by apply HP; auto|exact Hs].
Qed.

Lemma triple_prune now (P : WalWriter -> Disk -> Prop) E gs : present now -> Forall group_ok gs ->
  (forall w d, P w d -> dk_segments d ⊆ segments_of gs) ->
  (forall w d nm fl, P w d -> segments_of gs !! nm = Some fl -> gone (fl_mtime fl) -> P w (mkDisk (delete nm (dk_segments d)) (dk_active d))) ->
  triple (on P) (prune_old_segments now) (fun _ => on P) E.
Proof.
  intros Hn Hok Hsub HP.
  assert (forall es, Forall (fun e => segments_of gs !! e.1 = Some e.2) es -> triple (on P) (prune_entries now es) (fun _ => on P) E) as Hes.
  { induction 1 as [|[nm fl] es He Hes IH]; cbn [prune_entries]; [by intros s Hs|]. cbn in He.
    eapply triple_bind; [apply (prune_entry_spec now P)|intros []; exact IH]; [done| |intros w d Hw Hg; by eapply HP].
    apply segments_inv in He as (g & Hg & _ & ->). rewrite Forall_forall in Hok. apply list_elem_of_In in Hg. by destruct (Hok _ Hg) as [_ [? _]]. }
  intros [w d fs] Hs. unfold prune_old_segments, syscall.
  assert (Forall (fun e => segments_of gs !! e.1 = Some e.2) (iter_map (dk_segments d))) as Hall.
  { apply Forall_forall. intros [nm fl] He. rewrite iter_map_perm in He. apply elem_of_map_to_list in He. by eapply lookup_weaken, (Hsub w d). }
  destruct fs as [|[|k] fs]; cbn; [by apply Hes|by apply Hes|exact Hs].
Qed.

Lemma base_prune first gs act pend w d nm fl : base first gs act pend w d -> segments_of gs !! nm = Some fl -> gone (fl_mtime fl) ->
  base first gs act pend w (mkDisk (delete nm (dk_segments d)) (dk_active d)).
Proof.
  intros [] Hl Hg. constructor; cbn; try done.
  - etransitivity; [apply delete_subseteq|done].
  - intros g Hi. destruct (decide (nm = group_name g)) as [->|Hne].
    + intros _. destruct (groups_spaced _ _ _ ba_log0 ba_groups0) as [Hs _]. rewrite (segments_lookup _ _ _ _ Hs Hi) in Hl. by injection Hl as <-.
    + rewrite lookup_delete_ne by done. by apply ba_gone0.
Qed.

(** ** Rotating *)

Lemma triple_rename first gs act pend nm E :
  (forall w d, rotating first gs act pend w d -> E (mkWorld w d [])) ->
  (forall w d fs fs', E (mkWorld w d fs) -> E (mkWorld w d fs')) ->
  triple (on (fun w d => rotating first gs act pend w d /\ ww_file w = DevNull /\
            (dk_active d <> None -> nm = (default (ww_flushed_seq w) (ww_first_seq w), ww_flushed_seq w))))
    (rename_active nm)
    (fun _ => on (fun w d => exists m, rotating first (gs ++ [(act, m)]) [] pend w d /\ ww_file w = DevNull /\ dk_active d = None)) E.
Proof.
  intros HE Hfs. apply triple_syscall.
  - intros [w d fs] (Hr & Hf & Hn). cbn in *. destruct (dk_active d) as [fl|] eqn:Ea; [|by eapply Hfs, HE].
    unfold on. cbn. exists (fl_mtime fl). split_and!; [|done|done]. rewrite Hn by done. by apply renamed.
  - intros k [w d fs] (Hr & _). by eapply Hfs, HE.
Qed.

Definition reset_active (w : WalWriter) : WalWriter :=
  mkWriter (ww_next_seq w) (ww_buf w) (ww_file w) 0 None (ww_flushed_seq w) (ww_buf_first_seq w) (ww_last_seq w) (ww_max_file_size w)
    (ww_records_since_flush w).

(** A fresh active file, and the writer reset to it. *)
Definition fresh (first : Z) (gs : list Group) (pend : list LogRec) (w : WalWriter) (d : Disk) : Prop :=
  base first gs [] pend w d /\ ww_file w = ActiveFile /\ handle gs [] pend w (dk_active d) [].

Lemma open_fresh now first gs pend w d : present now -> rotating first gs [] pend w d -> dk_active d = None ->
  fresh first gs pend (reset_active (ww_with_file ActiveFile w)) (mkDisk (dk_segments d) (Some (mkFile [] now))).
Proof.
  intros Hn (Hb & _ & _) Ha. split.
  - destruct Hb. by constructor.
  - split; [done|]. eapply (on_active _ _ _ _ _ (mkFile [] now) [] []); try done; try apply prefix_nil. by apply present_dated.
Qed.

Lemma fresh_prune now first gs pend E : present now -> Forall group_ok gs ->
  triple (on (fresh first gs pend)) (prune_old_segments now) (fun _ => on (fresh first gs pend)) E.
Proof.
  intros Hn Hok. apply (triple_prune now _ _ gs); [done|done| |].
  - intros w d (Hb & _). apply Hb.
  - intros w d nm fl (Hb & Hf & Hh) Hl Hg. split; [by eapply base_prune|done].
Qed.

Lemma triple_reopen {A} now first gs pend (k : IO A) E R : present now ->
  (forall w d fs, rotating first gs [] pend w d -> E (mkWorld w d fs)) ->
  triple (on (fresh first gs pend)) k R E ->
  triple (on (fun w d => rotating first gs [] pend w d /\ dk_active d = None)) (io_bind (open_active now) (fun _ => io_bind (writer_set reset_active) (fun _ => k))) R E.
Proof.
  intros Hn HE Hk [w d fs] [Hr Ha]. cbn in Hr, Ha.
  assert (forall fs, match k (mkWorld (reset_active (ww_with_file ActiveFile w)) (mkDisk (dk_segments d) (Some (mkFile [] now))) fs) with
    | (inl a, s') => R a s' | (inr _, s') => E s' end) as Hgo by (intros; apply Hk; unfold on; cbn; by apply open_fresh).
  unfold open_active, io_bind, syscall. destruct fs as [|[|j] fs]; cbn; rewrite ?Ha; [apply Hgo|apply Hgo|by apply HE].
Qed.

(** The only step of a rotation that changes the disk moves the active records
    into a segment. *)
Definition rotated (first : Z) (D pend : list LogRec) (s : World) : Prop :=
  exists gs, recs gs = D /\ on (fresh first gs pend) s.

Definition safe (first : Z) (D pend : list LogRec) : World -> Prop := on (logged first D pend).

Lemma safe_faults first D pend w d fs fs' : safe first D pend (mkWorld w d fs) -> safe first D pend (mkWorld w d fs').
Proof. done. Qed.

Definition named (nm : Z * Z) (w : WalWriter) : Prop := nm = (default (ww_flushed_seq w) (ww_first_seq w), ww_flushed_seq w).

Lemma triple_null first gs act pend nm :
  triple (on (fun w d => rotating first gs act pend w d /\ named nm w)) replace_with_null
    (fun _ => on (fun w d => rotating first gs act pend w d /\ ww_file w = DevNull /\ (dk_active d <> None -> named nm w)))
    (safe first (recs gs ++ act) pend).
Proof.
  intros [w d fs] [Hr Hnm]. cbn in Hr, Hnm. assert (rotating first gs act pend (ww_with_file DevNull w) d) as Hr'.
  { destruct Hr as (Hb & Hd & Hh). split; [by eapply base_writer|split; [done|]].
    inversion Hh as [fl frag q Hf Ha Hdat _ _ Hrec Hkn|fl Hf Ha Hdat Hrec Hkn Hdue|Hf Ha Hact Hsz Hdue]; subst.
    - apply dated_app in Hrec as [Hrec _].
      apply (before_rename _ _ _ _ _ fl); [done|done|by rewrite app_nil_r in Hdat|done|by apply knows_file|done].
    - apply (before_rename _ _ _ _ _ fl); [done|done|done|done|by apply knows_file|done].
    - by apply after_rename. }
  unfold replace_with_null, io_bind, syscall. destruct fs as [|[|j] fs]; cbn; [done|done|]. by apply rotating_logged.
Qed.

Lemma rotate_spec now first gs act pend : present now ->
  triple (on (rotating first gs act pend)) (rotate now) (fun _ => rotated first (recs gs ++ act) pend) (safe first (recs gs ++ act) pend).
Proof.
  intros Hn s Hs. set (nm := (default (ww_flushed_seq (wd_writer s)) (ww_first_seq (wd_writer s)), ww_flushed_seq (wd_writer s))).
  cut (triple (on (fun w d => rotating first gs act pend w d /\ named nm w))
    (sync_all;; replace_with_null;; rename_active nm;; open_active now;; writer_set reset_active;; prune_old_segments now)
    (fun _ => rotated first (recs gs ++ act) pend) (safe first (recs gs ++ act) pend)); [intros Ht; exact (Ht s (conj Hs eq_refl))|].
  eapply triple_bind; [apply (triple_syscall _ _ _ (fun _ => on (fun w d => rotating first gs act pend w d /\ named nm w)))|intros []].
  - by intros [w d fs].
  - intros k [w d fs] [Hr _]. by apply rotating_logged.
  - eapply triple_bind; [apply triple_null|intros []].
    eapply triple_bind; [eapply triple_conseq; [apply (triple_rename first gs act pend nm (safe first (recs gs ++ act) pend))| |done|done]|intros []].
    + intros w d Hr. by apply rotating_logged.
    + done.
    + intros [w d fs] (Hr & Hf & Hnm). done.
    + intros [w d fs] (m & Hr & Hf & Ha). cbn in Hr, Ha.
      assert (recs (gs ++ [(act, m)]) = recs gs ++ act) as Er by (rewrite recs_app; unfold recs; cbn; by rewrite app_nil_r).
      refine (triple_reopen now first (gs ++ [(act, m)]) pend (prune_old_segments now) _ _ Hn _ _ (mkWorld w d fs) (conj Hr Ha)).
      * intros w' d' fs' Hr'. rewrite <- Er. apply rotating_logged in Hr'. rewrite app_nil_r in Hr'. exact Hr'.
      * eapply triple_conseq; [apply (fresh_prune now first (gs ++ [(act, m)]) pend (safe first (recs gs ++ act) pend) Hn)|done| |done].
        -- apply Hr.
        -- intros [] s' Hfr. by exists (gs ++ [(act, m)]).
Qed.

(** ** Flushing *)

(** The handle is on the active file, at its durable length. *)
Definition clean (first : Z) (gs : list Group) (act pend : list LogRec) (w : WalWriter) (d : Disk) : Prop :=
  base first gs act pend w d /\ handle gs act pend w (dk_active d) [].

(** The buffer is behind the active records, and the writer does not know yet. *)
Definition written (first : Z) (gs : list Group) (act pend : list LogRec) (w : WalWriter) (d : Disk) : Prop :=
  base first gs act pend w d /\ ww_file w = ActiveFile /\ knows act w /\
  exists fl, dk_active d = Some fl /\ fl_data fl = wires act ++ wires pend /\ dated (act ++ pend) (fl_mtime fl).

Lemma triple_metadata (P : WalWriter -> Disk -> Prop) (E : World -> Prop) : (forall s, on P s -> E s) ->
  triple (on P) metadata_len (fun len => on (fun w d => P w d /\ len = zlen (file_data (ww_file w) d))) E.
Proof.
  intros HE. apply triple_syscall; [by intros s Hs|]. intros k s Hs. by apply HE.
Qed.

Lemma triple_truncate now first gs act pend frag len w : present now ->
  triple (on (fun w' d => (w' = w /\ base first gs act pend w' d /\ handle gs act pend w' (dk_active d) frag) /\ len = zlen (file_data (ww_file w') d)))
    (if len >? ww_file_size w then set_len now (ww_file_size w) else io_ret tt)
    (fun _ => on (fun w' d => w' = w /\ clean first gs act pend w' d)) (safe first (recs gs ++ act) pend).
Proof.
  intros Hn [w' d fs] [(E & Hb & Hh) ->]. cbn in E, Hb, Hh. subst w'. cbn [wd_writer wd_disk].
  inversion Hh as [fl frag' q Hf Ha Hdat Hq Hpre Hrec Hkn|fl Hf Ha Hdat Hrec Hkn Hdue|Hf Ha Hact Hsz Hdue]; subst frag; rewrite Hf; cbn [file_data].
  - rewrite Ha, Hdat. destruct Hkn as [Hks Hkf Hkl] eqn:Ek. unfold zlen at 1. rewrite length_app, Hks. unfold zlen at 1. case_if.
    + unfold set_len, syscall. assert (on (fun w' d => w' = w /\ clean first gs act pend w' d) (with_disk (file_put ActiveFile (wires act) now d) (mkWorld w d fs))) as Hc.
      { split; [done|]. split; [by destruct Hb|]. eapply (on_active _ _ _ _ _ (mkFile (wires act) now) [] []); try done; try apply prefix_nil; [by rewrite app_nil_r|by apply present_dated]. }
      assert (take (Z.to_nat (zlen (wires act))) (wires act ++ frag') = wires act) as Et by (unfold zlen; rewrite Nat2Z.id; apply take_app_length).
      destruct fs as [|[|k] fs]; cbn; rewrite ?Hf; cbn [file_data]; rewrite ?Ha, ?Hdat, ?Hks, ?Et; [exact Hc|exact Hc|].
      exists gs, act, frag'. split_and!; [done|done|]. by eapply (on_active _ _ _ _ _ _ _ q).
    + assert (frag' = []) as -> by (rewrite Z.gtb_ltb in Heqb; apply Z.ltb_ge in Heqb; unfold zlen in Heqb; destruct frag'; [done|cbn in Heqb; lia]). split; [done|]. split; [done|]. by eapply (on_active _ _ _ _ _ _ _ q).
  - replace (_ >? _) with false; [done|]. destruct Hdue as [Hp _]. symmetry. rewrite Z.gtb_ltb. apply Z.ltb_ge. unfold zlen; cbn; lia.
  - replace (_ >? _) with false; [done|]. destruct Hdue as [Hp _]. symmetry. rewrite Z.gtb_ltb. apply Z.ltb_ge. unfold zlen; cbn; lia.
Qed.

(** Where the buffer is about to be written. *)
Definition ready (first : Z) (D pend : list LogRec) (w : WalWriter) (d : Disk) : Prop :=
  exists gs act, D = recs gs ++ act /\ ww_file w = ActiveFile /\ clean first gs act pend w d.

Lemma ready_logged first D pend w d : ready first D pend w d -> logged first D pend w d.
Proof. intros (gs & act & -> & _ & Hb & Hh). by exists gs, act, []. Qed.

Lemma clean_size first gs act pend w d : clean first gs act pend w d -> 0 <= ww_file_size w.
Proof.
  intros [_ Hh]. inversion Hh as [? ? ? ? ? ? ? ? ? []| ? ? ? ? ? [] |? ? ? ? []]; subst; try lia; rewrite kn_size0; apply zlen_nonneg.
Qed.

Lemma triple_rotate_before now first gs act pend w : present now ->
  triple (on (fun w' d => w' = w /\ clean first gs act pend w' d))
    (if (ww_file_size w >? 0) && (wrap_u64 (ww_file_size w + zlen (ww_buf w)) >=? ww_max_file_size w) then rotate now else io_ret tt)
    (fun _ => on (ready first (recs gs ++ act) pend)) (safe first (recs gs ++ act) pend).
Proof.
  intros Hn. case_if.
  - eapply triple_conseq; [by apply rotate_spec| | |done].
    + intros [w' d fs] [E [Hb Hh]]. cbn in E. subst w'. split; [done|]. split; [|done]. rewrite Z.gtb_ltb, Z.geb_leb in Heqb. bool_to_prop. done.
    + intros [] s (gs' & Er & Hb & Hf & Hh). exists gs', []. rewrite app_nil_r. done.
  - intros [w' d fs] [E [Hb Hh]]. cbn in E, Hb, Hh. subst w'. exists gs, act. split; [done|]. split; [|done].
    rewrite Z.gtb_ltb, Z.geb_leb in Heqb. cbn [wd_writer wd_disk]. inversion Hh as [|? ? ? ? ? ? [Hd1 Hd2]|? ? ? ? [Hd1 Hd2]]; [done| |];
      apply Z.ltb_lt in Hd1; apply Z.leb_le in Hd2; by rewrite Hd1, Hd2 in Heqb.
Qed.

Lemma ready_active first gs act pend w d : ww_file w = ActiveFile -> clean first gs act pend w d ->
  knows act w /\ exists fl, dk_active d = Some fl /\ fl_data fl = wires act.
Proof.
  intros Hf [_ Hh]. inversion Hh as [fl frag q ? Ha Hd|? Hf'|Hf']; subst; try congruence. split; [done|]. exists fl. by rewrite app_nil_r in Hd.
Qed.

Lemma triple_write now first D pend : present now ->
  triple (on (ready first D pend)) (write_all now (wires pend))
    (fun _ => on (fun w d => exists gs act, D = recs gs ++ act /\ written first gs act pend w d)) (safe first D pend).
Proof.
  intros Hn. apply triple_syscall.
  - intros [w d fs] (gs & act & -> & Hf & Hc). cbn in Hf, Hc. destruct (ready_active _ _ _ _ _ _ Hf Hc) as (Hk & fl & Ha & Hd).
    unfold append_bytes, with_disk, on. cbn. rewrite Hf. cbn. rewrite Ha, Hd. exists gs, act. split; [done|].
    destruct Hc as [Hb _]. split; [by destruct Hb|]. split; [done|]. split; [done|]. eexists. split; [done|]. split; [done|]. by apply present_dated.
  - intros k [w d fs] (gs & act & -> & Hf & Hc). cbn in Hf, Hc. destruct (ready_active _ _ _ _ _ _ Hf Hc) as (Hk & fl & Ha & Hd).
    unfold append_bytes, with_disk, safe, on. cbn. rewrite Hf. cbn. rewrite Ha, Hd. exists gs, act, (take k (wires pend)). split; [done|].
    destruct Hc as [Hb _]. split; [by destruct Hb|]. eapply (on_active _ _ _ _ _ _ _ pend); try done; [|by apply present_dated].
    exists (drop k (wires pend)). by rewrite take_drop.
Qed.

Lemma written_logged first gs act pend w d : written first gs act pend w d -> logged first (recs gs ++ act) pend w d.
Proof.
  intros (Hb & Hf & Hk & fl & Ha & Hd & Hr). exists gs, act, (wires pend). split; [done|]. split; [done|]. by eapply (on_active _ _ _ _ _ _ _ pend).
Qed.

(** The bytes of the log fit, so sizes do not wrap. *)
Lemma base_sizes first gs act pend w d : base first gs act pend w d -> 0 <= zlen (wires act) + zlen (wires pend) <= I64_MAX.
Proof.
  intros [(_ & _ & _ & _ & Hs) _ _ _ _ _]. rewrite !wires_app in Hs. unfold zlen in *. rewrite !length_app in Hs. lia.
Qed.

Lemma flushed_clean first gs act pend w d : pend <> [] -> written first gs act pend w d ->
  clean first gs (act ++ pend) [] (flushed w) d /\ 0 < ww_file_size (flushed w).
Proof.
  intros Hp (Hb & Hf & [Hs Hfi Hl] & fl & Ha & Hd & Hr). pose proof (base_sizes _ _ _ _ _ _ Hb) as Hsz.
  pose proof (wires_length_ge pend) as Hge. assert (0 < zlen (wires pend)) as Hpos by (unfold zlen; destruct pend; [done|cbn in *; lia]).
  assert (ww_file_size (flushed w) = zlen (wires (act ++ pend))) as Esz.
  { destruct Hb. cbn. rewrite Hs, ba_buf0, wires_app. unfold zlen at 3. rewrite length_app. rewrite wrap_u64_id by width_lia. unfold zlen. lia. }
  split.
  - split.
    + destruct Hb. constructor; try done. by rewrite app_nil_r.
    + eapply (on_active _ _ _ _ _ _ _ []); [done|exact Ha|by rewrite app_nil_r, wires_app|apply prefix_nil|apply prefix_nil|by rewrite app_nil_r|]. constructor; [exact Esz| |].
      * destruct Hb. cbn. rewrite Hfi, ba_buf_first0. by destruct act.
      * intros _. destruct Hb. cbn. rewrite last_app. specialize (ba_last0 Hp). by destruct (last pend).
  - rewrite Esz, wires_app. unfold zlen in *. rewrite length_app. lia.
Qed.

(** Rotation after the write. *)
Lemma triple_rotate_after now first D : present now ->
  triple (on (fun w d => exists gs act, D = recs gs ++ act /\ clean first gs act [] w d /\ 0 < ww_file_size w))
    (w <~ writer_get; if ww_file_size w >=? ww_max_file_size w then rotate now else io_ret tt)
    (fun _ => on (logged first D [])) (safe first D []).
Proof.
  intros Hn s (gs & act & -> & Hc & Hp). unfold io_bind, writer_get. case_if.
  - rewrite Z.geb_leb in Heqb. bool_to_prop. assert (on (rotating first gs act []) s) as Hr.
    { destruct Hc as [Hb Hh]. split; [done|]. split; [|done]. pose proof (ba_buf _ _ _ _ _ _ Hb) as E. cbn in E.
      split; [done|]. rewrite E. unfold zlen. cbn. rewrite Z.add_0_r.
      assert (ww_file_size (wd_writer s) <= I64_MAX).
      { pose proof (ba_log _ _ _ _ _ _ Hb) as (_ & _ & _ & _ & Hs). rewrite app_nil_r, wires_app in Hs. unfold zlen in Hs. rewrite length_app in Hs.
        inversion Hh as [? ? ? _ _ _ _ _ _ [Hk _ _]|? _ _ _ _ [Hk _ _]|_ _ _ Hk]; subst; unfold zlen in Hk; lia. }
      rewrite wrap_u64_id; [done|width_lia]. }
    pose proof (rotate_spec now first gs act [] Hn s Hr) as Hrot. destruct (rotate now s) as [[[]|e] s']; [|done].
    destruct Hrot as (gs' & <- & Hb & _ & Hh). exists gs', [], []. by rewrite app_nil_r.
  - cbn. exists gs, act, []. by destruct Hc.
Qed.

(** A flush writes the buffer once, and when it fails everything is as durable
    as before, or as after a success. *)
Lemma flush_spec now first D pend : present now ->
  triple (on (logged first D pend)) (flush now) (fun _ => on (logged first (D ++ pend) []))
    (fun s => on (logged first D pend) s \/ on (logged first (D ++ pend) []) s).
Proof.
  intros Hn s Hs. pose proof Hs as (gs & act & frag & -> & Hb & Hh). unfold flush, io_bind at 1, writer_get at 1.
  assert (ww_buf (wd_writer s) = wires pend) as Ebuf by apply Hb. destruct (zlen (ww_buf (wd_writer s)) =? 0) eqn:E0; rewrite Ebuf in E0.
  { cbn. apply Z.eqb_eq in E0. assert (pend = []) as -> by (apply wires_nil_inv; unfold zlen in E0; lia). by rewrite app_nil_r. }
  assert (pend <> []) as Hp by (by intros ->). set (D := recs gs ++ act) in *.
  set (E := fun s => on (logged first D pend) s \/ on (logged first (D ++ pend) []) s).
  assert (forall s, safe first D pend s -> E s) as HE by (by left).
  remember (wd_writer s) as w eqn:Ew. rewrite Ebuf.
  assert (on (fun w' d => w' = w /\ base first gs act pend w' d /\ handle gs act pend w' (dk_active d) frag) s) as Hon by (by rewrite Ew in *).
  revert s Hon Hs Ew Hb Hh. intros s Hon _ _ _ _. revert s Hon.
  eapply triple_bind; [apply (triple_metadata _ E)|intros len].
  { intros s (_ & Hb & Hh). apply HE. exists gs, act, frag. split; [done|]. by split. }
  eapply triple_bind; [eapply triple_conseq; [by apply (triple_truncate now first gs act pend frag len w)|done|done|done]|intros []].
  eapply triple_bind; [rewrite <- Ebuf; eapply triple_conseq; [by apply (triple_rotate_before now first gs act pend w)|done|done|done]|intros []].
  eapply triple_bind; [eapply triple_conseq; [by apply (triple_write now first D pend)|done|done|done]|intros []].
  eapply triple_bind; [apply (triple_syscall _ _ _ (fun _ => on (fun w d => exists gs act, D = recs gs ++ act /\ written first gs act pend w d)) E)|intros []].
  { by intros s Hw. }
  { intros _ s (gs' & act' & Ed & Hw). apply HE. unfold safe, on. rewrite Ed. by apply written_logged. }
  eapply triple_bind; [eapply triple_conseq; [apply (triple_set flushed (fun w d => exists gs act, D ++ pend = recs gs ++ act /\ clean first gs act [] w d /\ 0 < ww_file_size w) E)| |done|done]|intros []].
  { intros s (gs' & act' & Ed & Hw). exists gs', (act' ++ pend). rewrite Ed, app_assoc. split; [done|]. by apply flushed_clean. }
  eapply triple_conseq; [by apply (triple_rotate_after now first (D ++ pend))|done|done|by right].
Qed.

End Inv.
