(* ===== verification/WalClaims.v ===== *)
(** * WalClaims: what the log promises

    [wal_session] is the life of a log: opened on an empty directory, records
    framed and appended, flushes that may fail at any call, and crashes that
    lose the writer and any part of the unsynced tail, followed by a reopening,
    all within the log's retention of four hours.  [wal_life] is the same for
    a clock that goes on without end, with segments pruned by their age.
    Whatever happens, readers see the log's records in order, and among them
    every record that a successful flush has acknowledged and that has not
    come of age. *)

From S2P Require Import Prelude Hash Frames Wal WalRead WalInv.

Section Session.
Context `{Crc32c} `{HashIter} `{Win : Window}.

(** A crash keeps the directory and at least [n] bytes of the active file. *)
Definition crashed (n : Z) (d : Disk) : Disk :=
  mkDisk (dk_segments d) ((fun fl => mkFile (take (Z.to_nat n) (fl_data fl)) (fl_mtime fl)) <$> dk_active d).

Definition log_rec {T} `{CastRecord T} (record : T) (s : Z) : LogRec := (record_type T, as_bytes (set_seq s record)).

(** The log, and the part of it that flushes have acknowledged. *)
Inductive wal_session (first : Z) : list LogRec -> list LogRec -> WalWriter -> Disk -> Prop :=
| ws_open now max w d :
    recent now -> in_u64 first -> WalWriter_new now max (mkDisk ∅ None) = Ok (inl w, d) ->
    wal_session first [] [] (set_next_seq first w) d
| ws_prepare {T} `{CastRecord T} (record : T) framed log D w w' d :
    wal_session first log D w d -> prepare record w = Ok (framed, w') -> wal_session first log D w' d
| ws_append {T} `{CastRecord T} (record : T) framed log D w w' d :
    wal_session first log D w d -> Framed_pack record (first + zlen log) = Ok framed -> append_framed framed w = (inl tt, w') ->
    first + zlen log < U64_MAX -> zlen (wires (log ++ [log_rec record (first + zlen log)])) <= I64_MAX ->
    wal_session first (log ++ [log_rec record (first + zlen log)]) D w' d
| ws_flush_ok now faults log D w d w' d' faults' :
    wal_session first log D w d -> recent now -> flush now (mkWorld w d faults) = (inl tt, mkWorld w' d' faults') ->
    wal_session first log log w' d'
| ws_flush_failed now faults e log D w d w' d' faults' :
    wal_session first log D w d -> recent now -> flush now (mkWorld w d faults) = (inr e, mkWorld w' d' faults') ->
    wal_session first log D w' d'
| ws_crash n now max log D w d log' w' d' :
    wal_session first log D w d -> recent now -> ww_file_size w <= n -> WalWriter_new now max (crashed n d) = Ok (inl w', d') ->
    read_from 0 d' = Ok (map raw log', None) ->
    wal_session first log' log' (set_next_seq (first + zlen log') w') d'.

(** ** The invariant along a session *)

#[local] Instance raw_inj : Inj (=) (=) raw.
Proof. intros [] []. unfold raw, WalHeader_new. cbn. intros [=]. by subst. Qed.

Lemma wanted_zero P : Forall rec_ok P -> wanted 0 P = P.
Proof. intros HP. apply wanted_all. eapply Forall_impl; [exact HP|]. apply rec_ok_nonneg. Qed.

Section Kept.
Context `{Ret : Retention}.

Lemma pack_rec {T} `{CastRecord T} (record : T) s framed : in_u64 s -> Framed_pack record s = Ok framed ->
  framed = mkFramed (wire (log_rec record s)) s /\ rec_ok (log_rec record s) /\ lseq (log_rec record s) = s.
Proof.
  intros Hs. unfold Framed_pack. intros Hp. res_inv. apply Nat.leb_le in E. unfold HEADER_SIZE, FRAMED_WIRE_BYTES in E.
  pose proof (as_bytes_seq (set_seq s record)) as Hq. rewrite set_seq_seq in Hq. specialize (Hq Hs).
  apply extract_seq_some in Hq as [H8 Hle]. rewrite as_bytes_length in H8.
  assert (zlen (as_bytes (set_seq s record)) = Z.of_nat (size_of T)) as El by (unfold zlen; by rewrite as_bytes_length).
  split; [|split].
  - unfold wire, encode_record, log_rec. cbn [fst snd]. by rewrite El.
  - unfold rec_ok, log_rec. cbn [fst snd]. rewrite El. split; [apply record_type_u16|]. split; [width_lia|apply as_bytes_bytes].
  - unfold lseq, log_rec. cbn [snd]. by rewrite <- Hle.
Qed.

Lemma logged_log first D pend w d : logged first D pend w d -> log_ok first (D ++ pend).
Proof. intros (gs & act & frag & -> & [Hl _ _ _ _ _] & _). by rewrite <- app_assoc. Qed.

Lemma handle_writer gs act pend w w' a frag : handle gs act pend w a frag ->
  ww_file w' = ww_file w -> ww_file_size w' = ww_file_size w -> ww_first_seq w' = ww_first_seq w -> ww_flushed_seq w' = ww_flushed_seq w ->
  ww_max_file_size w' = ww_max_file_size w -> ww_buf w' = ww_buf w -> handle gs act pend w' a frag.
Proof.
  intros Hh Hf Hs Hfi Hfl Hm Hb. assert (forall act, knows act w -> knows act w') as Hk by (intros ? []; by constructor; rewrite ?Hs, ?Hfi, ?Hfl).
  assert (due w -> due w') as Hd by (unfold due; by rewrite Hs, Hm, Hb).
  inversion Hh; subst; [eapply on_active|eapply before_rename|eapply after_rename]; eauto; congruence.
Qed.

Lemma logged_next_seq first D pend w w' d : logged first D pend w d ->
  (exists s, w' = mkWriter s (ww_buf w) (ww_file w) (ww_file_size w) (ww_first_seq w) (ww_flushed_seq w) (ww_buf_first_seq w)
     (ww_last_seq w) (ww_max_file_size w) (ww_records_since_flush w)) -> logged first D pend w' d.
Proof.
  intros (gs & act & frag & -> & Hb & Hh) [s ->]. exists gs, act, frag. split; [done|]. split; [by eapply base_writer|]. by eapply handle_writer.
Qed.

(** A pending rotation stays due while the buffer grows. *)
Lemma due_append first gs act pend w w' d r : base first gs act pend w d -> due w -> handle gs act pend w (dk_active d) [] ->
  zlen (wires (((recs gs ++ act) ++ pend) ++ [r])) <= I64_MAX ->
  ww_file_size w' = ww_file_size w -> ww_max_file_size w' = ww_max_file_size w -> ww_buf w' = ww_buf w ++ wire r -> due w'.
Proof.
  intros Hb [Hp Hd] Hh Hz Hs Hm Hbuf. assert (ww_file_size w <= zlen (wires (recs gs ++ act))) as Hle.
  { rewrite wires_app. inversion Hh as [? ? ? _ _ _ _ _ _ [Hk _ _]|? _ _ _ _ [Hk _ _]|_ _ _ Hk]; subst; unfold zlen in *; rewrite length_app; lia. }
  unfold due. rewrite Hs, Hm, Hbuf. split; [done|]. pose proof (ba_buf _ _ _ _ _ _ Hb) as Eb. rewrite Eb in *.
  rewrite !wires_app, wires_one in Hz. unfold zlen in *. rewrite !length_app in *. rewrite wires_app, length_app in Hle.
  rewrite wrap_u64_id in Hd by width_lia. rewrite wrap_u64_id by width_lia. lia.
Qed.

Lemma logged_append first D pend w w' d r framed :
  logged first D pend w d -> rec_ok r -> lseq r = first + zlen (D ++ pend) -> first + zlen (D ++ pend) < U64_MAX ->
  zlen (wires ((D ++ pend) ++ [r])) <= I64_MAX -> framed = mkFramed (wire r) (lseq r) -> append_framed framed w = (inl tt, w') ->
  logged first D (pend ++ [r]) w' d.
Proof.
  intros (gs & act & frag & -> & Hb & Hh) Hr Hs Hm Hz -> Ha. unfold append_framed in Ha. case_if_in Ha; [done|]. injection Ha as <-.
  exists gs, act, frag. split; [done|]. split.
  - destruct Hb as [(Hall & Hc & Hf0 & Hm' & Hz') Hg Hsg Hgn Hbuf Hbf Hl]. constructor; cbn; try done.
    + rewrite !app_assoc in *. unfold log_ok. split_and!.
      * apply Forall_app. split; [done|]. by constructor.
      * apply consecutive_app. split; [done|]. by split.
      * done.
      * unfold zlen in *. rewrite !length_app in *. cbn. lia.
      * done.
    + by rewrite Hbuf, wires_app, wires_one.
    + rewrite Hbf. by destruct pend.
    + intros _. by rewrite last_snoc.
  - assert (wires (pend ++ [r]) = wires pend ++ wire r) as Ew by (by rewrite wires_app, wires_one).
    inversion Hh as [fl fg q Hf Ha Hd Hq Hp Hrec Hkn|fl Hf Ha Hd Hrec Hkn Hdue|Hf Ha Hact Hsz Hdue]; subst.
    + eapply (on_active _ _ _ _ _ _ _ q); try done; [|by destruct Hkn]. by apply prefix_app_r.
    + apply (before_rename _ _ _ _ _ fl); try done; [by destruct Hkn|]. by eapply (due_append first gs _ pend w).
    + apply after_rename; try done. by eapply (due_append first gs _ pend w).
Qed.

(** The disk of a logged state, cut anywhere behind its durable part, holds
    the durable records and some of the pending ones. *)
Lemma crashed_holds first gs act pend frag w d n :
  base first gs act pend w d -> handle gs act pend w (dk_active d) frag -> ww_file_size w <= n ->
  exists p1 p2 frag', pend = p1 ++ p2 /\ tail_ok frag' /\ active_holds (act ++ p1) frag' (dk_active (crashed n d)) /\
    wires (act ++ p1) ++ frag' `prefix_of` wires act ++ wires pend /\ forall fl, dk_active d = Some fl -> dated (act ++ p1) (fl_mtime fl).
Proof.
  intros Hb Hh Hn. pose proof (ba_log _ _ _ _ _ _ Hb) as (Hall & _). rewrite !Forall_app in Hall. destruct Hall as (_ & _ & Hpend).
  inversion Hh as [fl fg q Hf Ha Hd Hq Hp Hrec [Hs _ _]|fl Hf Ha Hd Hrec [Hs _ _] Hdue|Hf Ha Hact Hsz Hdue]; subst; unfold crashed; cbn [dk_active]; rewrite Ha; cbn [fmap option_fmap option_map].
  - assert (take (Z.to_nat n) (fl_data fl) = wires act ++ take (Z.to_nat n - length (wires act)) frag) as Et.
    { rewrite Hd, take_app. f_equal. apply take_ge. unfold zlen in Hs. lia. }
    assert (take (Z.to_nat n - length (wires act)) frag `prefix_of` wires q) as Hpre.
    { destruct Hp as [k ->]. rewrite <- (take_drop (Z.to_nat n - length (wires act)) frag) at 2. rewrite <- app_assoc. by eexists. }
    destruct Hq as [q2 ->]. apply Forall_app in Hpend as [Hq _].
    destruct (prefix_wires _ _ Hq Hpre) as (p1 & p2 & fg & -> & Efg & Ht). exists p1, (p2 ++ q2), fg. split; [by rewrite app_assoc|]. split; [done|].
    rewrite wires_app, <- app_assoc, <- Efg. split; [cbn; by rewrite Et, wires_app, <- app_assoc, <- Efg|].
    split; [apply prefix_app; rewrite wires_app; by apply prefix_app_r|]. intros ? [= <-]. rewrite app_assoc in Hrec. by apply dated_app in Hrec as [? _].
  - exists [], pend, []. rewrite !app_nil_r. split; [done|]. split; [by left|]. split; [|split; [by eexists|by intros ? [= <-]]]. cbn. rewrite app_nil_r, Hd, take_ge; [done|].
    unfold zlen in Hs. lia.
  - exists [], pend, []. split; [done|]. split; [by left|]. split; [done|]. cbn. split; [apply prefix_nil|done].
Qed.

(** Without a crash the file is as it is. *)
Lemma disk_holds first gs act pend frag w d :
  base first gs act pend w d -> handle gs act pend w (dk_active d) frag ->
  exists p1 p2 frag', pend = p1 ++ p2 /\ tail_ok frag' /\ active_holds (act ++ p1) frag' (dk_active d) /\
    wires (act ++ p1) ++ frag' `prefix_of` wires act ++ wires pend.
Proof.
  intros Hb Hh. set (n := Z.max (ww_file_size w) (match dk_active d with Some fl => zlen (fl_data fl) | None => 0 end)).
  destruct (crashed_holds _ _ _ _ _ _ _ n Hb Hh ltac:(unfold n; lia)) as (p1 & p2 & fg & E & Ht & Ha & Hp & _).
  exists p1, p2, fg. split_and!; try done. unfold crashed in Ha. cbn in Ha. destruct (dk_active d) as [fl|] eqn:Ed; [|done]. cbn in *.
  rewrite take_ge in Ha; [done|]. unfold n, zlen. lia.
Qed.

(** The sizes the readers need, from those of the log. *)
Lemma holds_sizes first gs act pend frag p1 p2 w d : base first gs act pend w d -> pend = p1 ++ p2 ->
  wires (act ++ p1) ++ frag `prefix_of` wires act ++ wires pend ->
  log_ok first (recs gs ++ act ++ p1) /\ zlen (wires (recs gs ++ act ++ p1) ++ frag) <= I64_MAX.
Proof.
  intros Hb -> Hp. destruct (ba_log _ _ _ _ _ _ Hb) as (Hall & Hc & Hf & Hm & Hz).
  assert (recs gs ++ act ++ p1 ++ p2 = (recs gs ++ act ++ p1) ++ p2) as E by (by rewrite <- !app_assoc). rewrite E in *.
  assert (zlen (wires (recs gs ++ act ++ p1) ++ frag) <= I64_MAX) as Hsz.
  { apply prefix_length in Hp. unfold zlen in *. rewrite !wires_app, !length_app in *. lia. }
  split; [|done]. apply Forall_app in Hall as [Hall _]. apply consecutive_app in Hc as [Hc _]. split_and!; try done.
  - unfold zlen in *. rewrite !length_app in *. lia.
  - unfold zlen in *. rewrite length_app in Hsz. lia.
Qed.

Lemma recs_filter p gs : recs (List.filter p gs) `sublist_of` recs gs.
Proof.
  induction gs as [|g gs IH]; [done|]. cbn [List.filter]. change (recs (g :: gs)) with (g.1 ++ recs gs). destruct (p g).
  - by apply sublist_app.
  - by apply sublist_inserts_l.
Qed.

Lemma wires_sublist rs rs' : rs `sublist_of` rs' -> (length (wires rs) <= length (wires rs'))%nat.
Proof. induction 1; rewrite ?wires_cons, ?length_app; lia. Qed.

(** A number from [first] on is held, or behind them all. *)
Lemma consecutive_from first rs t : consecutive first rs -> first <= t -> holding t rs <> None \/ forall r, In r rs -> lseq r < t.
Proof.
  revert first. induction rs as [|x rs IH]; intros first; [by right|]. intros [Hx Hc] Ht. unfold holding. cbn.
  destruct (lseq x =? t) eqn:E; [by left|]. bool_to_prop. destruct (IH (first + 1) Hc ltac:(lia)) as [?|Hr]; [by left|]. right. intros r [->|Hi]; [lia|auto].
Qed.

(** The segments that are left and what is in the active file. *)
Lemma kept_groups first gs act pend frag w d : base first gs act pend w d -> handle gs act pend w (dk_active d) frag ->
  exists p1 p2, pend = p1 ++ p2 /\ let P := recs (List.filter (left_on (dk_segments d)) gs) ++ act ++ p1 in
    P `sublist_of` (recs gs ++ act) ++ p1 /\ Forall rec_ok P /\
    (forall t, t = 0 \/ holding t P <> None \/ (forall r, In r P -> lseq r < t) -> read_from t d = Ok (map raw (wanted t P), None)) /\
    (forall t, read_record_at_seq t d = Ok (raw <$> holding t P)).
Proof.
  intros Hb Hh. destruct (disk_holds _ _ _ _ _ _ _ Hb Hh) as (p1 & p2 & fg & E & Ht & Ha & Hp). exists p1, p2. split; [done|].
  destruct (holds_sizes _ _ _ _ _ _ _ _ _ Hb E Hp) as [Hlog Hz]. pose proof Hlog as (Hall & _ & Hf & Hm & _).
  destruct (groups_spaced first gs (act ++ p1) Hlog) as [Hs Hc]; [apply Hb|]. set (kept := List.filter (left_on (dk_segments d)) gs).
  pose proof (spaced_filter (left_on (dk_segments d)) _ _ _ Hs : spaced first kept _) as Hk.
  assert (recs kept ++ act ++ p1 `sublist_of` (recs gs ++ act) ++ p1) as Hsub by (rewrite <- app_assoc; apply sublist_app; [apply recs_filter|done]).
  assert (Forall rec_ok (recs kept ++ act ++ p1)) as Hkok.
  { apply Forall_forall. intros r Hr. rewrite Forall_forall in Hall. apply Hall. rewrite app_assoc. by eapply elem_of_sublist. }
  assert (first + zlen (recs gs) <= U64_MAX) as Hm' by (unfold zlen in *; rewrite length_app in Hm; lia).
  destruct d as [sg a]. pose proof (segments_left _ _ _ _ Hs (ba_segments _ _ _ _ _ _ Hb)) as Es. cbn [dk_segments dk_active] in *.
  split_and!; [done|done| |].
  - intros t Ht0. rewrite Es. fold kept. eapply read_from_spec; try done.
    + pose proof (wires_sublist _ _ Hsub) as Hl. rewrite <- app_assoc in Hl. unfold zlen in *. rewrite length_app in *. width_lia.
    + destruct Ht0 as [?|[Hh0|Hh0]]; [by left| |right; right; intros r Hr; apply Hh0, in_app_iff; by left]. right. rewrite holding_app in Hh0.
      destruct (holding t (recs kept)) eqn:E1; [by left|]. right. intros r Hr. apply (spaced_range _ _ _ _ Hk) in Hr.
      unfold holding in Hh0. destruct (List.find _ (act ++ p1)) as [x|] eqn:E2; [|done]. apply find_some in E2 as [Hx Et].
      pose proof (consecutive_range _ _ _ Hc Hx). lia.
  - intros t. rewrite Es. by eapply read_record_spec.
Qed.

(** What readers see of a directory: all that was written but for segments
    that pruning has reached. *)
Lemma kept_reads first D pend w d : logged first D pend w d ->
  exists W P, D `prefix_of` W /\ W `prefix_of` D ++ pend /\ P `sublist_of` W /\ (forall r, In r W -> In r P \/ exists m, gone m /\ since r <= m) /\
    ((forall m, ~ gone m) -> P = W) /\ Forall rec_ok P /\
    (forall t, t = 0 \/ holding t P <> None \/ (forall r, In r P -> lseq r < t) -> read_from t d = Ok (map raw (wanted t P), None)) /\
    (forall t, read_record_at_seq t d = Ok (raw <$> holding t P)).
Proof.
  intros (gs & act & frag & -> & Hb & Hh). destruct (kept_groups _ _ _ _ _ _ _ Hb Hh) as (p1 & p2 & E & Hsub & Hok & Hr & Hs).
  eexists ((recs gs ++ act) ++ p1), _. split; [by eexists|]. split; [rewrite E; exists p2; by rewrite <- !app_assoc|]. split; [exact Hsub|]. split_and!; [| |done|done|done].
  - intros r. rewrite <- app_assoc, in_app_iff. intros [(l & (g & <- & Hg)%in_map_iff & Hi)%in_concat|Hi]; [|left; apply in_app_iff; by right].
    destruct (left_on (dk_segments d) g) eqn:El.
    + left. apply in_app_iff. left. apply in_concat. exists g.1. split; [apply in_map, filter_In; done|done].
    + right. exists g.2. split.
      * apply (ba_gone _ _ _ _ _ _ Hb g Hg). apply bool_decide_eq_false in El. by apply eq_None_not_Some.
      * pose proof (ba_groups _ _ _ _ _ _ Hb) as Hg'. rewrite Forall_forall in Hg'. apply list_elem_of_In in Hg. destruct (Hg' _ Hg) as [_ [_ Hd]].
        rewrite Forall_forall in Hd. by apply Hd, list_elem_of_In.
  - intros Hng. rewrite <- app_assoc. f_equal. f_equal. apply forallb_filter_id, forallb_forall. intros g Hg. apply bool_decide_eq_true.
    destruct (dk_segments d !! group_name g) eqn:El; [by eexists|]. destruct (Hng g.2). by apply (ba_gone _ _ _ _ _ _ Hb).
Qed.

(** The range a reopened writer finds. *)
Lemma scan_active gs first act frag : log_ok first (recs gs ++ act) -> tail_ok frag ->
  scan_file_seq_range (S (length (wires act))) (wires act) None None =
    Ok (match act with [] => None | _ => Some (first + zlen (recs gs), first + zlen (recs gs) + zlen act - 1) end).
Proof.
  intros (Hall & Hc & _) Ht. apply Forall_app in Hall as [_ Hall]. apply consecutive_app in Hc as [_ Hc].
  pose proof (scan_range_spec act [] (S (length (wires act))) (first + zlen (recs gs)) None Hall Hc) as Hs.
  rewrite app_nil_r in Hs. etransitivity; [apply Hs|by destruct act]; [by left|pose proof (wires_length_ge act); lia|done].
Qed.

Lemma reopened first gs segs act a frag now max : log_ok first (recs gs ++ act) -> Forall group_ok gs -> segs ⊆ segments_of gs ->
  (forall g, In g gs -> segs !! group_name g = None -> gone g.2) -> tail_ok frag -> present now ->
  active_holds act frag a -> (forall fl, a = Some fl -> dated act (fl_mtime fl)) -> zlen (wires act ++ frag) <= U64_MAX ->
  exists w' d', WalWriter_new now max (mkDisk segs a) = Ok (inl w', d') /\ logged first (recs gs ++ act) [] w' d'.
Proof.
  intros Hlog Hg Hsub Hgone Ht Hn Ha Hrec Hz. unfold WalWriter_new. cbn [dk_active dk_segments].
  assert (fl_data (default (mkFile [] now) a) = wires act ++ frag) as Ed by (destruct a; cbn in *; [done|by destruct Ha as [-> ->]]).
  assert (dated act (fl_mtime (default (mkFile [] now) a))) as Hr0 by (destruct a; cbn; [by apply Hrec|by apply present_dated]).
  rewrite Ed. pose proof (cut_spec [] act frag (S (length (wires act ++ frag)))) as Hcut. cbn [app length] in Hcut.
  destruct Hlog as (Hall & Hlog). pose proof Hall as [_ Hact]%Forall_app.
  rewrite Hcut; [|done|done|pose proof (wires_length_ge act); rewrite length_app; lia|done]. cbn [mbind Res_bind].
  rewrite (scan_active gs first act frag) by done. cbn [mbind Res_bind].
  eexists _, _. split; [done|]. exists gs, act, []. split; [done|]. split.
  - constructor; cbn; try done. by rewrite app_nil_r.
  - eapply (on_active _ _ _ _ _ _ _ []); [done|done|by rewrite app_nil_r|apply prefix_nil|apply prefix_nil| |].
    + rewrite app_nil_r. cbn. case_if; [done|by apply present_dated].
    + destruct Hlog as (Hc & _). apply consecutive_app in Hc as [_ Hc]. constructor; cbn.
      * done.
      * destruct act as [|x act]; [done|]. destruct Hc as [Hx _]. cbn. by rewrite Hx.
      * intros Hne. destruct (consecutive_ends _ _ Hc Hne) as [_ ->]. by destruct act.
Qed.

(** Reopening after a crash never fails, and keeps what was durable. *)
Lemma crash_reopen first D pend w d now max n : logged first D pend w d -> present now -> ww_file_size w <= n ->
  exists w' d' P, WalWriter_new now max (crashed n d) = Ok (inl w', d') /\ D `prefix_of` P /\ P `prefix_of` D ++ pend /\ logged first P [] w' d'.
Proof.
  intros (gs & act & frag & -> & Hb & Hh) Hn Hsz.
  destruct (crashed_holds _ _ _ _ _ _ _ n Hb Hh Hsz) as (p1 & p2 & fg & E & Ht & Ha & Hp & Hda).
  destruct (holds_sizes _ _ _ _ _ _ _ _ _ Hb E Hp) as [Hlog Hz].
  edestruct (reopened first gs (dk_segments d) (act ++ p1) (dk_active (crashed n d)) fg now max) as (w' & d' & Hnew & Hl); try done; try apply Hb.
  - unfold crashed. cbn. destruct (dk_active d) as [fl|] eqn:Ea; [|done]. cbn. intros fl' [= <-]. exact (Hda fl eq_refl).
  - rewrite wires_app in Hz. unfold zlen in *. rewrite !length_app in *. width_lia.
  - exists w', d', (recs gs ++ act ++ p1). split; [exact Hnew|]. split; [rewrite app_assoc; by eexists|]. split; [rewrite E; exists p2; by rewrite <- !app_assoc|done].
Qed.

Lemma wal_open first now max w d : present now -> in_u64 first -> WalWriter_new now max (mkDisk ∅ None) = Ok (inl w, d) -> logged first [] [] w d.
Proof.
  intros Hn Hf Hnew. assert (log_ok first []) as Hlog.
  { split_and!; [constructor|done|width_lia|unfold zlen; cbn; width_lia|unfold wires, zlen; cbn; width_lia]. }
  edestruct (reopened first [] ∅ [] None [] now max) as (w' & d' & E & Hl); [done|constructor|apply map_empty_subseteq|done|by left|done|done|done|by cbn|].
  rewrite E in Hnew. injection Hnew as <- <-. exact Hl.
Qed.

Lemma logged_set_next first D s w d : logged first D [] w d -> logged first D [] (set_next_seq s w) d.
Proof.
  intros (gs & act & frag & -> & Hb & Hh). exists gs, act, frag. split; [done|]. split; [destruct Hb; by constructor|]. by eapply handle_writer.
Qed.

End Kept.

(** Within one retention window nothing is missing. *)
Lemma logged_reads first D pend w d : logged first D pend w d ->
  exists P, D `prefix_of` P /\ P `prefix_of` D ++ pend /\
    (forall t, t = 0 \/ first <= t -> read_from t d = Ok (map raw (wanted t P), None)) /\
    (forall t, read_record_at_seq t d = Ok (raw <$> holding t P)).
Proof.
  intros Hl. destruct (kept_reads _ _ _ _ _ Hl) as (P & P' & H1 & H2 & _ & _ & HP & _ & Hr & Hs). specialize (HP (fun m Hm => Hm)). subst P'.
  exists P. split_and!; [done|done| |done]. intros t [->|Ht]; apply Hr; [by left|]. right.
  destruct (logged_log _ _ _ _ _ Hl) as (_ & Hc & _). destruct H2 as [k E]. rewrite E in Hc. apply consecutive_app in Hc as [Hc _].
  by eapply consecutive_from.
Qed.

Lemma read_whole first P w d log : logged first P [] w d -> read_from 0 d = Ok (map raw log, None) -> log = P.
Proof.
  intros Hl Hr. pose proof (logged_log _ _ _ _ _ Hl) as (Hall & _). destruct (logged_reads _ _ _ _ _ Hl) as (P' & H1 & H2 & Hrd & _).
  rewrite app_nil_r in *. assert (P' = P) as -> by (apply (anti_symm prefix); done). rewrite Hrd in Hr by (by left).
  injection Hr as Hr. rewrite wanted_zero in Hr by done. symmetry. by apply (inj (fmap raw)).
Qed.

Lemma session_logged first log D w d : wal_session first log D w d ->
  exists D' pend, log = D' ++ pend /\ D `prefix_of` D' /\ logged first D' pend w d.
Proof.
  induction 1 as [now max w d Hn Hf Hnew|T HT record framed log D w w' d Hs IH Hp|T HT record framed log D w w' d Hs IH Hp Ha Hm Hz
    |now faults log D w d w' d' faults' Hs IH Hn Hfl|now faults e log D w d w' d' faults' Hs IH Hn Hfl|n now max log D w d log' w' d' Hs IH Hn Hsz Hnew Hr].
  - exists [], []. do 2 (split; [done|]). apply logged_set_next. by eapply wal_open.
  - destruct IH as (D' & pend & -> & HD & Hl). exists D', pend. do 2 (split; [done|]). unfold prepare in Hp. res_inv. eapply logged_next_seq; [exact Hl|by eexists].
  - destruct IH as (D' & pend & -> & HD & Hl). pose proof (logged_log _ _ _ _ _ Hl) as (_ & _ & Hf0 & _).
    pose proof (zlen_nonneg (D' ++ pend)). destruct (pack_rec record (first + zlen (D' ++ pend)) framed ltac:(width_lia) Hp) as (Ef & Hok & Hseq).
    eexists D', (pend ++ [_]). split; [by rewrite app_assoc|]. split; [done|].
    eapply logged_append; [exact Hl|exact Hok|done|done|done|by rewrite Hseq|exact Ha].
  - destruct IH as (D' & pend & -> & HD & Hl). exists (D' ++ pend), []. split; [by rewrite app_nil_r|]. split; [done|].
    pose proof (flush_spec now first D' pend Hn (mkWorld w d faults) Hl) as Hsp. by rewrite Hfl in Hsp.
  - destruct IH as (D' & pend & -> & HD & Hl).
    pose proof (flush_spec now first D' pend Hn (mkWorld w d faults) Hl) as Hsp. rewrite Hfl in Hsp. destruct Hsp as [Hsp|Hsp].
    + by exists D', pend.
    + exists (D' ++ pend), []. split; [by rewrite app_nil_r|]. split; [|done]. destruct HD as [k ->]. rewrite <- app_assoc. by eexists.
  - destruct IH as (D' & pend & -> & HD & Hl). destruct (crash_reopen _ _ _ _ _ now max n Hl Hn Hsz) as (w1 & d1 & P & E1 & H1 & H2 & H3).
    rewrite E1 in Hnew. injection Hnew as <- <-. pose proof (read_whole _ _ _ _ _ H3 Hr) as ->. exists P, []. split; [by rewrite app_nil_r|].
    split; [done|]. by apply logged_set_next.
Qed.

(** ** The claims *)

(** Recovery from a crash.  Whatever part of the active file's unsynced
    tail a crash leaves, also in the middle of a record or of a rotation,
    reopening the log succeeds, cuts at most a torn record, and a full read
    then yields every acknowledged record and a prefix of the appended ones. *)
Theorem wal_crash_recovers first log D w d now max n :
  wal_session first log D w d -> recent now -> ww_file_size w <= n ->
  exists w' d' P, WalWriter_new now max (crashed n d) = Ok (inl w', d') /\ read_from 0 d' = Ok (map raw P, None) /\
    D `prefix_of` P /\ P `prefix_of` log.
Proof.
  intros Hs Hn Hsz. destruct (session_logged _ _ _ _ _ Hs) as (D' & pend & -> & HD & Hl).
  destruct (crash_reopen _ _ _ _ _ now max n Hl Hn Hsz) as (w1 & d1 & P & E1 & H1 & H2 & H3). exists w1, d1, P. split; [done|].
  destruct (logged_reads _ _ _ _ _ H3) as (P' & H4 & H5 & Hr & _). rewrite app_nil_r in H5. assert (P' = P) as -> by (apply (anti_symm prefix); done).
  pose proof (logged_log _ _ _ _ _ H3) as [HP _]. rewrite app_nil_r in HP. rewrite Hr, wanted_zero by (done || by left). split; [done|]. split; [by trans D'|done].
Qed.

(** A retransmission finds the record.  In every session of a log, the
    random access that serves retransmission requests returns, for each
    sequence number from the log's first on, exactly the record appended under
    it when that record is on disk, and nothing otherwise; every acknowledged
    record is found. *)
Theorem wal_random_access first log D w d t :
  wal_session first log D w d -> first <= t ->
  exists P, D `prefix_of` P /\ P `prefix_of` log /\ read_record_at_seq t d = Ok (raw <$> holding t P).
Proof.
  intros Hs Ht. destruct (session_logged _ _ _ _ _ Hs) as (D' & pend & -> & HD & Hl).
  destruct (logged_reads _ _ _ _ _ Hl) as (P & H1 & H2 & _ & Hr). exists P. split; [by trans D'|]. split; [done|]. by apply Hr.
Qed.

(** ** A log of any age

    [wal_life] is the life of a log under a clock that only goes forward, and
    that rotations prune by.  Each record carries the reading at which it was
    appended; [acked] are the records that a flush acknowledged or that a
    restart found. *)

Inductive wal_life (first : Z) : Z -> list (LogRec * Z) -> list (LogRec * Z) -> WalWriter -> Disk -> Prop :=
| wl_open now max w d :
    in_u64 now -> in_u64 first -> WalWriter_new now max (mkDisk ∅ None) = Ok (inl w, d) ->
    wal_life first now [] [] (set_next_seq first w) d
| wl_wait now later log acked w d :
    wal_life first now log acked w d -> now <= later -> in_u64 later -> wal_life first later log acked w d
| wl_prepare {T} `{CastRecord T} (record : T) framed now log acked w w' d :
    wal_life first now log acked w d -> prepare record w = Ok (framed, w') -> wal_life first now log acked w' d
| wl_append {T} `{CastRecord T} (record : T) framed now log acked w w' d :
    wal_life first now log acked w d -> Framed_pack record (first + zlen log) = Ok framed -> append_framed framed w = (inl tt, w') ->
    first + zlen log < U64_MAX -> zlen (wires (map fst log ++ [log_rec record (first + zlen log)])) <= I64_MAX ->
    wal_life first now (log ++ [(log_rec record (first + zlen log), now)]) acked w' d
| wl_flush_ok faults now log acked w d w' d' faults' :
    wal_life first now log acked w d -> flush now (mkWorld w d faults) = (inl tt, mkWorld w' d' faults') ->
    wal_life first now log (log ++ acked) w' d'
| wl_flush_failed faults e now log acked w d w' d' faults' :
    wal_life first now log acked w d -> flush now (mkWorld w d faults) = (inr e, mkWorld w' d' faults') ->
    wal_life first now log acked w' d'
| wl_crash n max now log acked w d log' found w' d' :
    wal_life first now log acked w d -> ww_file_size w <= n -> WalWriter_new now max (crashed n d) = Ok (inl w', d') ->
    read_from 0 d' = Ok (map raw found, None) -> log' `prefix_of` log -> last found = last (map fst log') -> found <> [] ->
    wal_life first now log' (log' ++ acked) (set_next_seq (first + zlen log') w') d'.

(** A record appended less than the retention time ago. *)
Definition young (now : Z) (e : LogRec * Z) : Prop := now < e.2 + RETENTION_NS.

Definition stamp (log : list (LogRec * Z)) (r : LogRec) : Z :=
  match List.find (fun e => lseq e.1 =? lseq r) log with Some e => e.2 | None => 0 end.

Lemma stamp_of first log e : consecutive first (map fst log) -> In e log -> stamp log e.1 = e.2.
Proof.
  unfold stamp. revert first. induction log as [|x log IH]; intros first; [done|]. cbn. intros [Hx Hc] [->|Hi]; [by rewrite Z.eqb_refl|].
  pose proof (consecutive_range _ _ _ Hc (in_map fst _ _ Hi)). rewrite (proj2 (Z.eqb_neq _ _)) by lia. by eapply IH.
Qed.

Lemma stamp_bound log now r : 0 <= now -> Forall (fun e : LogRec * Z => e.2 <= now) log -> stamp log r <= now.
Proof.
  intros Hn Hall. unfold stamp. destruct (List.find _ log) as [e|] eqn:E; [|done]. apply find_some in E as [Hi _].
  rewrite Forall_forall in Hall. by apply Hall, list_elem_of_In.
Qed.

Lemma in_fst {A B} (x : A) (l : list (A * B)) : In x (map fst l) -> exists y, In (x, y) l.
Proof. intros ([x' y] & <- & Hi)%in_map_iff. by exists y. Qed.

Lemma stamp_prefix first log log' r : consecutive first (map fst log) -> log' `prefix_of` log -> In r (map fst log') -> stamp log' r = stamp log r.
Proof.
  intros Hc [k ->] (u & Hi)%in_fst. rewrite map_app in Hc. pose proof Hc as [Hc' _]%consecutive_app.
  pose proof (stamp_of first log' (r, u) Hc' Hi) as E1. cbn in E1. rewrite E1. symmetry.
  apply (stamp_of first (log' ++ k) (r, u)); [by rewrite map_app|]. apply in_app_iff. by left.
Qed.

(** The invariant under another account of the clock. *)
Lemma logged_account (R R' : Retention) first D pend w d :
  (forall m, reading (Retention := R) m -> reading (Retention := R') m) -> (forall m, gone (Retention := R) m -> gone (Retention := R') m) ->
  (forall r, In r (D ++ pend) -> since (Retention := R') r <= since (Retention := R) r) ->
  logged (Ret := R) first D pend w d -> logged (Ret := R') first D pend w d.
Proof.
  intros Hr Hg Hs (gs & act & frag & -> & Hb & Hh).
  assert (forall rs m, (forall r, In r rs -> In r ((recs gs ++ act) ++ pend)) -> dated (Ret := R) rs m -> dated (Ret := R') rs m) as Hdt.
  { intros rs m Hi [H1 H2]. split; [auto|]. rewrite Forall_forall in *. intros r Hx. specialize (H2 r Hx).
    specialize (Hs r (Hi r (proj1 (list_elem_of_In _ _) Hx))). lia. }
  exists gs, act, frag. split; [done|]. split.
  - destruct Hb. constructor; try done; [|by intros g Hi Hl; apply Hg, ba_gone]. apply Forall_forall. intros g Hi. rewrite Forall_forall in ba_groups.
    destruct (ba_groups g Hi) as [Hn Hd]. split; [done|]. apply Hdt; [|done]. intros r Hx. rewrite !in_app_iff. do 2 left.
    apply in_concat. exists g.1. split; [by apply in_map, list_elem_of_In|done].
  - inversion Hh as [fl fg q Hf Ha Hd Hq Hp Hrec Hkn|fl Hf Ha Hd Hrec Hkn Hdue|Hf Ha Hact Hsz Hdue]; subst.
    + eapply (on_active _ _ _ _ _ _ _ q); try done. apply Hdt; [|done]. intros r. destruct Hq as [k ->]. rewrite !in_app_iff. tauto.
    + eapply before_rename; try done. apply Hdt; [|done]. intros r. rewrite !in_app_iff. tauto.
    + by apply after_rename.
Qed.

(** *** A restart *)

Lemma consecutive_last first rs x : consecutive first rs -> last rs = Some x -> lseq x = first + zlen rs - 1.
Proof. intros Hc Hl. destruct rs as [|y rs]; [done|]. destruct (consecutive_ends _ _ Hc ltac:(done)) as [_ E]. rewrite Hl in E. by injection E. Qed.

Lemma comparable_take {A} (l l' : list A) : l `prefix_of` l' \/ l' `prefix_of` l -> (length l <= length l')%nat -> l = take (length l) l'.
Proof.
  intros [[k ->]|Hp] Hl; [by rewrite take_app_length|]. rewrite take_ge; [|pose proof (prefix_length _ _ Hp); lia].
  symmetry. apply prefix_length_eq; [done|lia].
Qed.

Lemma filter_last {A} (f : A -> bool) l : List.filter f l <> [] -> exists l1 x l2, l = l1 ++ x :: l2 /\ f x = true /\ List.filter f l2 = [].
Proof.
  induction l as [|x l IH]; [done|]. cbn. destruct (decide (List.filter f l = [])) as [E|Hn].
  - destruct (f x) eqn:Ef; [|by rewrite E]. intros _. by exists [], x, l.
  - intros _. destruct (IH Hn) as (l1 & y & l2 & -> & ? & ?). by exists (x :: l1), y, l2.
Qed.

Section Restart.
Context `{Ret : Retention}.

Lemma logged_cut first gs1 gs2 w d act frag : base first (gs1 ++ gs2) act [] w d -> act = [] -> handle (gs1 ++ gs2) act [] w (dk_active d) frag ->
  ww_file w = ActiveFile -> List.filter (left_on (dk_segments d)) gs2 = [] -> logged first (recs gs1) [] w d.
Proof.
  intros Hb -> Hh Hf H2. exists gs1, [], frag. split; [by rewrite app_nil_r|]. destruct Hb. pose proof ba_groups as [Hg1 _]%Forall_app.
  destruct (groups_spaced _ _ _ ba_log ba_groups) as [Hs _]. split.
  - rewrite recs_app in ba_log. destruct ba_log as (Hall & Hc & Hf0 & Hm & Hz). rewrite !app_nil_r in *.
    assert (log_ok first (recs gs1)) as Hlog.
    { split_and!; [by apply Forall_app in Hall as [? _]|by apply consecutive_app in Hc as [? _]|done| |].
      - unfold zlen in *. rewrite length_app in Hm. lia.
      - rewrite wires_app in Hz. unfold zlen in *. rewrite length_app in Hz. lia. }
    constructor; try done; [by rewrite app_nil_r| |].
    + destruct (groups_spaced first gs1 []) as [Hs1 _]; [by rewrite app_nil_r|done|].
      rewrite (segments_left _ _ _ _ Hs ba_segments), List.filter_app, H2, app_nil_r. apply map_subseteq_spec. intros nm fl (g & [Hg _]%filter_In & -> & ->)%segments_inv.
      by apply (segments_lookup _ _ _ _ Hs1).
    + intros g Hg. apply ba_gone, in_app_iff. by left.
  - inversion Hh as [fl fg q ? Ha Hd Hq Hp Hrec Hkn| |]; subst; [|congruence|congruence]. by eapply (on_active _ _ _ _ _ _ _ q).
Qed.

(** A directory whose last record is the last of a shorter log is one of that
    log: what is not in it any more is behind. *)
Lemma logged_shorter first W L w d found :
  logged first W [] w d -> ww_file w = ActiveFile -> read_from 0 d = Ok (map raw found, None) -> L `prefix_of` W \/ W `prefix_of` L ->
  consecutive first L -> last found = last L -> found <> [] -> logged first L [] w d /\ forall r, In r found -> In r L.
Proof.
  intros (gs & act & frag & -> & Hb & Hh) Hf Hrd HL Hc Hlast Hne. destruct (kept_groups _ _ _ _ _ _ _ Hb Hh) as (p1 & p2 & E & Hsub & Hok & Hr & _).
  symmetry in E. apply app_eq_nil in E as [-> ->]. rewrite !app_nil_r in *. rewrite Hr in Hrd by (by left). injection Hrd as Hrd.
  rewrite wanted_zero in Hrd by done. apply (inj (fmap raw)) in Hrd. cbn in Hrd. subst found.
  pose proof (ba_log _ _ _ _ _ _ Hb) as (_ & HcW & _ & _ & _). rewrite app_nil_r in HcW.
  assert (forall V x, V `prefix_of` recs gs ++ act -> last L = Some x -> last V = Some x -> L = V) as Huniq.
  { intros V x [k HV] HlL HlV. rewrite HV in HcW, HL. pose proof HcW as [HcV _]%consecutive_app.
    pose proof (consecutive_last _ _ _ Hc HlL). pose proof (consecutive_last _ _ _ HcV HlV).
    assert (length L = length V) as El by (unfold zlen in *; lia). rewrite (comparable_take _ _ HL) by (rewrite length_app; lia).
    by rewrite El, take_app_length. }
  destruct act as [|a act'] eqn:Ea.
  - rewrite !app_nil_r in *. assert (List.filter (left_on (dk_segments d)) gs <> []) as Hk by (intros Ek; by rewrite Ek in Hne).
    destruct (filter_last _ _ Hk) as (gs1 & g & gs2 & -> & Hg & H2).
    assert (gs1 ++ g :: gs2 = (gs1 ++ [g]) ++ gs2) as Eg by (by rewrite <- app_assoc). rewrite Eg in *.
    rewrite List.filter_app, H2, app_nil_r, List.filter_app in *. cbn [List.filter] in *. rewrite Hg in *.
    assert (g.1 <> []) as Hgn by (pose proof (ba_groups _ _ _ _ _ _ Hb) as [[_ [[? _] _]%Forall_cons]%Forall_app _]%Forall_app; done).
    destruct (last g.1) as [x|] eqn:Ex; [|by apply last_None in Ex].
    assert (L = recs (gs1 ++ [g])) as ->.
    { apply (Huniq _ x); [exists (recs gs2); by rewrite <- recs_app| |]; [rewrite <- Hlast|]; rewrite recs_app, last_app; unfold recs; cbn; by rewrite app_nil_r, Ex. }
    split; [by eapply logged_cut|]. intros r. rewrite !recs_app, !in_app_iff. intros [Hi|Hi]; [left|by right].
    apply list_elem_of_In. eapply elem_of_sublist; [by apply list_elem_of_In|apply recs_filter].
  - destruct (last (a :: act')) as [x|] eqn:Ex; [|by apply last_None in Ex].
    assert (L = recs gs ++ a :: act') as ->.
    { apply (Huniq _ x); [done| |]; [rewrite <- Hlast|]; by rewrite last_app, Ex. }
    split; [by exists gs, (a :: act'), frag|]. intros r Hi. apply list_elem_of_In. eapply elem_of_sublist; [by apply list_elem_of_In|done].
Qed.

End Restart.

(** *** The invariant *)

Record alive (first now : Z) (log acked : list (LogRec * Z)) (W pend : list LogRec) (w : WalWriter) (d : Disk) : Prop := {
  al_log : map fst log = W ++ pend;
  al_logged : logged (Ret := lived now (stamp log)) first W pend w d;
  al_now : in_u64 now;
  al_stamps : Forall (fun e => e.2 <= now) log;
  al_acked : forall e, In e acked -> young now e -> In e log /\ In e.1 W;
}.

Lemma alive_present first now log acked W pend w d : alive first now log acked W pend w d -> present (Retention := lived now (stamp log)) now.
Proof. intros []. split; [done|]. split; [done|]. intros r. apply stamp_bound; [width_lia|done]. Qed.

Lemma alive_consecutive first now log acked W pend w d : alive first now log acked W pend w d -> consecutive first (map fst log).
Proof. intros []. rewrite al_log0. by destruct (logged_log _ _ _ _ _ al_logged0) as (_ & ? & _). Qed.

(** Young records are on disk once they are written. *)
Lemma alive_young first now log acked W pend w d P e : alive first now log acked W pend w d ->
  (forall r, In r W -> In r P \/ exists m, gone (Retention := lived now (stamp log)) m /\ since (Retention := lived now (stamp log)) r <= m) ->
  In e log -> In e.1 W -> young now e -> In e.1 P.
Proof.
  intros Ha HP Hi HW Hy. destruct (HP _ HW) as [?|(m & Hm & Hs)]; [done|]. exfalso. cbn in Hm, Hs.
  rewrite (stamp_of first log e (alive_consecutive _ _ _ _ _ _ _ _ Ha) Hi) in Hs. unfold young in Hy. lia.
Qed.

Lemma alive_wait first now later log acked W pend w d : alive first now log acked W pend w d -> now <= later -> in_u64 later ->
  alive first later log acked W pend w d.
Proof.
  intros [] Hle Hl. constructor; try done.
  - apply (logged_account (lived now (stamp log))); cbn; [done|intros; lia|done|done].
  - eapply Forall_impl; [exact al_stamps0|]. cbn. intros. lia.
  - intros e He Hy. apply al_acked0; [done|]. unfold young in *. lia.
Qed.

(** A flush moves what was pending to the disk, or fails. *)
Lemma alive_flushed first now log acked W pend w d : alive first now log acked W [] w d -> map fst log = W -> pend = [] ->
  alive first now log (log ++ acked) W pend w d.
Proof.
  intros [] E ->. constructor; try done. intros e [Hi|Hi]%in_app_iff Hy; [|by apply al_acked0]. split; [done|]. rewrite <- E. by apply in_map.
Qed.

Lemma alive_append first now log acked W pend w w' d r framed : alive first now log acked W pend w d ->
  rec_ok r -> lseq r = first + zlen log -> first + zlen log < U64_MAX -> zlen (wires (map fst log ++ [r])) <= I64_MAX ->
  framed = mkFramed (wire r) (lseq r) -> append_framed framed w = (inl tt, w') -> alive first now (log ++ [(r, now)]) acked W (pend ++ [r]) w' d.
Proof.
  intros Ha Hr Hs Hm Hz Ef Hap. pose proof (alive_consecutive _ _ _ _ _ _ _ _ Ha) as Hc. destruct Ha.
  assert (zlen log = zlen (W ++ pend)) as El by (rewrite <- al_log0; unfold zlen; by rewrite length_map).
  assert (consecutive first (map fst (log ++ [(r, now)]))) as Hc'.
  { rewrite map_app. apply consecutive_app. split; [done|]. cbn. split; [|done]. by rewrite Hs, El, al_log0. }
  constructor; try done.
  - by rewrite map_app, al_log0, <- app_assoc.
  - eapply (logged_append (Ret := lived now (stamp (log ++ [(r, now)])))); [|exact Hr|by rewrite Hs, El|by rewrite <- El|by rewrite <- al_log0|exact Ef|exact Hap].
    apply (logged_account (lived now (stamp log))); cbn; [done|done| |done]. intros x. rewrite <- al_log0. intros Hx.
    rewrite (stamp_prefix first (log ++ [(r, now)]) log x Hc'); [done|by eexists|done].
  - apply Forall_app. split; [done|]. by repeat constructor.
  - intros e He Hy. destruct (al_acked0 e He Hy). split; [apply in_app_iff; by left|done].
Qed.

Lemma alive_crash first now log acked W pend w d n max log' found w' d' : alive first now log acked W pend w d -> ww_file_size w <= n ->
  WalWriter_new now max (crashed n d) = Ok (inl w', d') -> read_from 0 d' = Ok (map raw found, None) -> log' `prefix_of` log ->
  last found = last (map fst log') -> found <> [] -> alive first now log' (log' ++ acked) (map fst log') [] w' d'.
Proof.
  intros Ha Hn Hnew Hrd Hp Hlast Hne. pose proof (alive_present _ _ _ _ _ _ _ _ Ha) as Hpr. pose proof (alive_consecutive _ _ _ _ _ _ _ _ Ha) as Hc. pose proof Ha as [].
  destruct (crash_reopen _ _ _ _ _ now max n al_logged0 Hpr Hn) as (w1 & d1 & V & E1 & H1 & H2 & H3). rewrite E1 in Hnew. injection Hnew as -> ->.
  assert (map fst log' `prefix_of` map fst log) as Hp' by (destruct Hp as [k ->]; rewrite map_app; by eexists).
  assert (ww_file w' = ActiveFile) as Hf by (unfold WalWriter_new in E1; res_inv; destruct x; res_inv; done).
  assert (consecutive first (map fst log')) as Hc' by (destruct Hp' as [k Ek]; rewrite Ek in Hc; by apply consecutive_app in Hc as [? _]).
  destruct (logged_shorter _ _ (map fst log') _ _ _ H3 Hf Hrd) as [Hl Hin]; [|done|done|done|].
  { rewrite <- al_log0 in H2. eapply prefix_weak_total; [exact Hp'|exact H2]. }
  assert (forall e, In e acked -> young now e -> In e log' /\ In e.1 (map fst log')) as Hack.
  { intros e He Hy. destruct (al_acked0 e He Hy) as [Hi HW]. assert (In e.1 found) as Hfd.
    { destruct (kept_reads _ _ _ _ _ H3) as (V' & P & K1 & K2 & _ & HP & _ & Hok & Hr & _). rewrite app_nil_r in K2.
      rewrite Hr in Hrd by (by left). injection Hrd as Hrd. rewrite wanted_zero in Hrd by done. apply (inj (fmap raw)) in Hrd. cbn in Hrd. subst found.
      eapply alive_young; [exact Ha| |exact Hi|exact HW|exact Hy]. intros r Hr0. apply HP. destruct H1 as [k1 E2]. destruct K1 as [k2 E3].
      rewrite E3, E2, !in_app_iff. tauto. }
    apply Hin in Hfd. split; [|done]. apply in_fst in Hfd as [u Hu]. replace e with (e.1, u); [done|]. destruct e as [r t]. cbn in *. f_equal.
    destruct Hp as [k ->]. pose proof (stamp_of first (log' ++ k) (r, t) Hc Hi) as S1.
    pose proof (stamp_of first (log' ++ k) (r, u) Hc ltac:(apply in_app_iff; by left)) as S2. cbn in *. congruence. }
  constructor; try done.
  - by rewrite app_nil_r.
  - apply (logged_account (lived now (stamp log))); cbn; [done|done| |done]. intros r. rewrite app_nil_r. intros Hr. by rewrite (stamp_prefix first log log' r).
  - destruct Hp as [k ->]. by apply Forall_app in al_stamps0 as [? _].
  - intros e [Hi|Hi]%in_app_iff Hy; [|by apply Hack]. split; [done|by apply in_map].
Qed.

Lemma alive_next first now log acked W pend w w' d : alive first now log acked W pend w d ->
  (exists s, w' = mkWriter s (ww_buf w) (ww_file w) (ww_file_size w) (ww_first_seq w) (ww_flushed_seq w) (ww_buf_first_seq w)
     (ww_last_seq w) (ww_max_file_size w) (ww_records_since_flush w)) -> alive first now log acked W pend w' d.
Proof. intros [] Hw. constructor; try done. by eapply logged_next_seq. Qed.

Lemma alive_set_next first now s log acked W w d : alive first now log acked W [] w d -> alive first now log acked W [] (set_next_seq s w) d.
Proof. intros []. constructor; try done. by apply logged_set_next. Qed.

Lemma life_alive first now log acked w d : wal_life first now log acked w d -> exists W pend, alive first now log acked W pend w d.
Proof.
  induction 1 as [now max w d Hn Hf Hnew|now later log acked w d Hs IH Hle Hl|T HT record framed now log acked w w' d Hs IH Hp
    |T HT record framed now log acked w w' d Hs IH Hp Ha Hm Hz|faults now log acked w d w' d' faults' Hs IH Hfl
    |faults e now log acked w d w' d' faults' Hs IH Hfl|n max now log acked w d log' found w' d' Hs IH Hsz Hnew Hr Hp Hlast Hne].
  - exists [], []. apply alive_set_next. constructor; [done| |done|constructor|done].
    eapply (wal_open (Ret := lived now (stamp []))); [|exact Hf|exact Hnew]. split; [done|]. split; [done|]. intros r. cbn. width_lia.
  - destruct IH as (W & pend & Ha). exists W, pend. by eapply alive_wait.
  - destruct IH as (W & pend & Ha). exists W, pend. unfold prepare in Hp. res_inv. eapply alive_next; [exact Ha|by eexists].
  - destruct IH as (W & pend & Hal). exists W, (pend ++ [log_rec record (first + zlen log)]). pose proof Hal as [El Hlg _ _ _].
    destruct (logged_log _ _ _ _ _ Hlg) as (_ & _ & Hf0 & _). pose proof (zlen_nonneg log).
    destruct (pack_rec record (first + zlen log) framed ltac:(width_lia) Hp) as (Ef & Hok & Hseq).
    eapply alive_append; [exact Hal|exact Hok|done|done|done|by rewrite Hseq|exact Ha].
  - destruct IH as (W & pend & Ha). pose proof (alive_present _ _ _ _ _ _ _ _ Ha) as Hpr. pose proof Ha as [].
    pose proof (flush_spec now first W pend Hpr (mkWorld w d faults) al_logged0) as Hsp. rewrite Hfl in Hsp.
    exists (W ++ pend), []. apply alive_flushed; [|done|done]. constructor; try done; [by rewrite app_nil_r|].
    intros e He Hy. destruct (al_acked0 e He Hy). split; [done|apply in_app_iff; by left].
  - destruct IH as (W & pend & Ha). pose proof (alive_present _ _ _ _ _ _ _ _ Ha) as Hpr. pose proof Ha as [].
    pose proof (flush_spec now first W pend Hpr (mkWorld w d faults) al_logged0) as Hsp. rewrite Hfl in Hsp. destruct Hsp as [Hsp|Hsp].
    + by exists W, pend.
    + exists (W ++ pend), []. constructor; try done; [by rewrite app_nil_r|].
      intros x He Hy. destruct (al_acked0 x He Hy). split; [done|apply in_app_iff; by left].
  - destruct IH as (W & pend & Ha). exists (map fst log'), []. apply alive_set_next. by eapply alive_crash.
Qed.

(** What is on disk, and that nothing young is missing there. *)
Lemma life_reads first now log acked w d : wal_life first now log acked w d ->
  exists W P, W `prefix_of` map fst log /\ P `sublist_of` W /\
    (forall e, In e log -> In e.1 W -> young now e -> In e.1 P) /\ (forall e, In e acked -> young now e -> In e log /\ In e.1 W) /\
    (forall t, t = 0 \/ first <= t /\ (forall e, In e log -> t <= lseq e.1 -> young now e) -> read_from t d = Ok (map raw (wanted t P), None)) /\
    (forall t, read_record_at_seq t d = Ok (raw <$> holding t P)).
Proof.
  intros Hl. destruct (life_alive _ _ _ _ _ _ Hl) as (W & pend & Ha). pose proof (alive_consecutive _ _ _ _ _ _ _ _ Ha) as Hc. pose proof Ha as [].
  destruct (kept_reads _ _ _ _ _ al_logged0) as (V & P & [k1 H1] & H2 & Hsub & HP & _ & Hok & Hr & Hs).
  rewrite <- al_log0 in H2. exists V, P. split; [done|]. split; [done|].
  assert (forall e, In e log -> In e.1 V -> young now e -> In e.1 P) as Hyoung.
  { intros e Hi HV Hy. destruct (HP _ HV) as [?|(m & Hm & Hsm)]; [done|]. exfalso. cbn in Hm, Hsm. rewrite (stamp_of first log e Hc Hi) in Hsm. unfold young in Hy. lia. }
  split; [done|]. split; [|split; [|exact Hs]].
  - intros e He Hy. destruct (al_acked0 e He Hy) as [Hi HW]. split; [done|]. rewrite H1. apply in_app_iff. by left.
  - intros t [->|[Hf Ht]]; apply Hr; [by left|right]. destruct H2 as [k2 E2]. pose proof Hc as HcV. rewrite E2 in HcV. apply consecutive_app in HcV as [HcV _].
    destruct (consecutive_from first V t HcV Hf) as [Hh|Hb].
    + left. unfold holding in Hh. destruct (List.find _ V) as [r|] eqn:E; [|done]. apply find_some in E as [HiV Et]. apply Z.eqb_eq in Et.
      assert (In r (map fst log)) as (u & Hu)%in_fst by (rewrite E2; apply in_app_iff; by left).
      specialize (Hyoung (r, u) Hu HiV (Ht (r, u) Hu ltac:(cbn; lia))). cbn in Hyoung. unfold holding. destruct (List.find _ P) eqn:E'; [done|].
      eapply find_none in E'; [|exact Hyoung]. cbn in E'. lia.
    + right. intros r Hi. apply Hb. apply list_elem_of_In. eapply elem_of_sublist; [by apply list_elem_of_In|done].
Qed.

Lemma life_log first now log acked w d : wal_life first now log acked w d -> log_ok first (map fst log).
Proof. intros Hl. destruct (life_alive _ _ _ _ _ _ Hl) as (W & pend & []). rewrite al_log0. exact (logged_log _ _ _ _ _ al_logged0). Qed.

(** A restart after a crash. *)
Lemma life_reopens first now log acked w d n max : wal_life first now log acked w d -> ww_file_size w <= n ->
  exists w' d' found, WalWriter_new now max (crashed n d) = Ok (inl w', d') /\ read_from 0 d' = Ok (map raw found, None) /\
    found `sublist_of` map fst log /\ forall e, In e acked -> young now e -> In e.1 found.
Proof.
  intros Hl Hn. destruct (life_alive _ _ _ _ _ _ Hl) as (W & pend & Ha). pose proof (alive_present _ _ _ _ _ _ _ _ Ha) as Hpr. pose proof Ha as [].
  destruct (crash_reopen _ _ _ _ _ now max n al_logged0 Hpr Hn) as (w1 & d1 & V & E1 & [k1 H1] & [k2 H2] & H3). rewrite <- al_log0 in H2.
  destruct (kept_reads _ _ _ _ _ H3) as (V' & P & [k3 K1] & [k4 K2] & Hsub & HP & _ & Hok & Hr & _). exists w1, d1, P. rewrite app_nil_r in K2.
  split; [done|]. rewrite Hr, wanted_zero by (done || by left). split; [done|]. split.
  - rewrite H2, K2. by do 2 apply sublist_inserts_r.
  - intros e He Hy. destruct (al_acked0 e He Hy) as [Hi HW]. eapply alive_young; [exact Ha| |exact Hi|exact HW|exact Hy].
    intros r Hr0. apply HP. rewrite K1, H1, !in_app_iff. tauto.
Qed.

(** C37: The log keeps what it acknowledged, in order and exactly once, for the
    retention of four hours.  In every life of a log - records appended,
    flushes of which any call may fail, rotations at every size that prune
    segments by their age, any of those removals failing too, crashes and
    restarts, under a clock that only goes forward - readers see a part [P] of
    what was appended, unaltered, in its order and without repetition: from the
    oldest record, or from a number on behind which nothing has come of age, a
    reader yields it without an error, and the random access finds it number by
    number.  Up to some point of the log only records appended four hours ago
    or more are missing from [P]; every record that a successful flush has
    acknowledged, or that a restart has found, is in it until then; and after a
    crash the log can be reopened with all of those. *)
Theorem wal_durable first now log acked w d :
  wal_life first now log acked w d ->
  exists W P, W `prefix_of` map fst log /\ P `sublist_of` W /\
    (forall e, In e log -> In e.1 W -> young now e -> In e.1 P) /\ (forall e, In e acked -> young now e -> In e log /\ In e.1 P) /\
    (forall t, t = 0 \/ first <= t /\ (forall e, In e log -> t <= lseq e.1 -> young now e) -> read_from t d = Ok (map raw (wanted t P), None)) /\
    (forall t, read_record_at_seq t d = Ok (raw <$> holding t P)) /\
    (forall n max, ww_file_size w <= n -> exists w' d' found, WalWriter_new now max (crashed n d) = Ok (inl w', d') /\
       read_from 0 d' = Ok (map raw found, None) /\ found `sublist_of` map fst log /\ forall e, In e acked -> young now e -> In e.1 found).
Proof.
  intros Hl. destruct (life_reads _ _ _ _ _ _ Hl) as (W & P & H1 & H2 & H3 & H4 & H5 & H6). exists W, P. split_and!; try done.
  - intros e He Hy. destruct (H4 e He Hy). auto.
  - intros n max Hn. by apply (life_reopens first now log acked w).
Qed.

End Session.
