(* ===== verification/Cast.v ===== *)
(** * Cast: the live datagram transport [rsx-cast/src/cast.rs]

    The sender numbers nothing itself: it publishes frames of the log, keeps
    the last ones in a ring and answers requests for missing ones from the
    ring or from the log.  The receiver delivers frames in sequence, buffers
    those ahead in a ring of its own, asks for the gap in front of it and gives
    up after a number of requests.

    A socket is the list of datagrams it will yield, each with the clock's
    reading when it is handled, and the list of datagrams sent.  A ring is a
    list of slots; the byte array of a ring and its length array are one list
    of frames. *)

From S2P Require Import Prelude Hash Frames Wal.

(** ** Transport records [records.rs] *)

Definition RECORD_CAUGHT_UP : Z := 6.
Definition RECORD_NAK : Z := 17.
Definition RECORD_HEARTBEAT : Z := 18.

Record CastHeartbeat : Type := mkHeartbeat { hb_highest_seq : Z }.
Record Nak : Type := mkNak { nk_from_seq : Z; nk_count : Z }.

Definition heartbeat_fields : list Field := [FU 8; FPad 56].
Definition nak_fields : list Field := [FU 8; FU 8; FPad 48].

Definition heartbeat_bytes (hb : CastHeartbeat) : list Z := encode_fields heartbeat_fields [hb_highest_seq hb].
Definition decode_heartbeat (p : list Z) : option CastHeartbeat :=
  if (length p <? 64)%nat then None
  else match decode_fields heartbeat_fields p with [h] => Some (mkHeartbeat h) | _ => None end.

Definition nak_bytes (n : Nak) : list Z := encode_fields nak_fields [nk_from_seq n; nk_count n].
Definition decode_nak (p : list Z) : option Nak :=
  if (length p <? 64)%nat then None
  else match decode_fields nak_fields p with [f; c] => Some (mkNak f c) | _ => None end.

Definition MAX_PAYLOAD : Z := 65535.
Definition SEND_RING_FRAME_BYTES : Z := 128.
Definition SEND_RING_CAPACITY : Z := 4096.
Definition SEND_RING_MASK : Z := SEND_RING_CAPACITY - 1.
Definition REORDER_CAPACITY : Z := 2048.
Definition REORDER_MASK : Z := REORDER_CAPACITY - 1.
Definition REORDER_FRAME_BYTES : Z := 256.

(** ** Sender *)

Record CastSender : Type := mkSender {
  sd_next_seq : Z;
  sd_last_heartbeat : Z;
  sd_heartbeat_interval : Z;
  sd_ring_seqs : list Z;
  sd_ring_frames : list (list Z);
  sd_ring_last_retx_ns : list Z;
  sd_retx_dedup_window_ns : Z;
}.

Definition CastSender_new (now heartbeat_interval retx_dedup_window_us : Z) : CastSender :=
  mkSender 1 now heartbeat_interval (replicate (Z.to_nat SEND_RING_CAPACITY) 0) (replicate (Z.to_nat SEND_RING_CAPACITY) [])
    (replicate (Z.to_nat SEND_RING_CAPACITY) 0) (sat_u64 (retx_dedup_window_us * 1000)).

Definition sd_with_ring (seqs : list Z) (frames : list (list Z)) (s : CastSender) : CastSender :=
  mkSender (sd_next_seq s) (sd_last_heartbeat s) (sd_heartbeat_interval s) seqs frames (sd_ring_last_retx_ns s)
    (sd_retx_dedup_window_ns s).
Definition sd_with_retx (retx : list Z) (s : CastSender) : CastSender :=
  mkSender (sd_next_seq s) (sd_last_heartbeat s) (sd_heartbeat_interval s) (sd_ring_seqs s) (sd_ring_frames s) retx
    (sd_retx_dedup_window_ns s).
Definition sd_sent (next last : Z) (s : CastSender) : CastSender :=
  mkSender next last (sd_heartbeat_interval s) (sd_ring_seqs s) (sd_ring_frames s) (sd_ring_last_retx_ns s)
    (sd_retx_dedup_window_ns s).

(** [sent] tells whether the socket takes the datagram; the ring is written
    before.  The result carries the datagrams that went out. *)
Definition send_framed (sent : bool) (now : Z) (framed : Framed) (s : CastSender) : Res (bool * list (list Z) * CastSender) :=
  let slot := Z.land (fr_seq framed) SEND_RING_MASK in
  let total := zlen (fr_wire framed) in
  s ← (if total <=? SEND_RING_FRAME_BYTES then
         frames ← vset (sd_ring_frames s) slot (fr_wire framed);
         seqs ← vset (sd_ring_seqs s) slot (fr_seq framed);
         Ok (sd_with_ring seqs frames s)
       else
         seqs ← vset (sd_ring_seqs s) slot 0;
         frames ← vset (sd_ring_frames s) slot [];
         Ok (sd_with_ring seqs frames s));
  if sent then Ok (true, [fr_wire framed], sd_sent (wrap_u64 (fr_seq framed + 1)) now s) else Ok (false, [], s).

Section Cast.
Context `{Crc32c} `{HashIter}.

Definition CastSender_tick (sent : bool) (now : Z) (s : CastSender) : bool * list (list Z) * CastSender :=
  if now - sd_last_heartbeat s >=? sd_heartbeat_interval s then
    let hb := mkHeartbeat (sat_u64 (sd_next_seq s - 1)) in
    if sent then (true, [encode_record RECORD_HEARTBEAT (heartbeat_bytes hb)], sd_sent (sd_next_seq s) now s) else (false, [], s)
  else (true, [], s).

(** One sequence number of a request. *)
Definition retransmit (d : Disk) (now_ns : Z) (st : list (list Z) * list bool * CastSender) (seq : Z)
    : Res (list (list Z) * list bool * CastSender) :=
  let '(out, sends, s) := st in
  let slot := Z.land seq SEND_RING_MASK in
  last ← vindex (sd_ring_last_retx_ns s) slot;
  if negb (last =? 0) && (sat_u64 (now_ns - last) <? sd_retx_dedup_window_ns s) then Ok st
  else
    ring_seq ← vindex (sd_ring_seqs s) slot;
    frame ← vindex (sd_ring_frames s) slot;
    let send bytes :=
      match sends with
      | false :: sends => Ok (out, sends, s)
      | _ => retx ← vset (sd_ring_last_retx_ns s) slot now_ns; Ok (out ++ [bytes], tl sends, sd_with_retx retx s)
      end in
    if negb (seq =? 0) && (ring_seq =? seq) && (zlen frame >? 0) then send frame
    else
      rec ← read_record_at_seq seq d;
      match rec with
      | Some rec => send (to_bytes (raw_header rec) ++ raw_payload rec)
      | None => Ok st
      end.

(** [sends] are the outcomes of the sends, success when it runs out. *)
Definition handle_nak (d : Disk) (now_ns : Z) (sends : list bool) (nak : Nak) (s : CastSender) : Res (list (list Z) * CastSender) :=
  let count := Z.min (nk_count nak) SEND_RING_CAPACITY in
  '(out, _, s) ← rfold (fun st i => retransmit d now_ns st (sat_u64 (nk_from_seq nak + i))) ([], sends, s) (zrange 0 count);
  Ok (out, s).

(** The requests waiting on the socket; the datagram is cut to 256 bytes. *)
Fixpoint recv_control (d : Disk) (now_ns : Z) (inbox : list (list Z)) (s : CastSender) : Res (list (list Z) * CastSender) :=
  match inbox with
  | [] => Ok ([], s)
  | bytes :: inbox =>
      let bytes := take 256 bytes in
      '(out, s) ← (
        match from_bytes bytes with
        | Some hdr =>
            if wh_record_type hdr =? RECORD_NAK then
              match decode_nak (drop HEADER_SIZE bytes) with Some nak => handle_nak d now_ns [] nak s | None => Ok ([], s) end
            else Ok ([], s)
        | None => Ok ([], s)
        end);
      '(out', s) ← recv_control d now_ns inbox s;
      Ok (out ++ out', s)
  end.

Definition send_raw (sent : bool) (now record_type : Z) (payload : list Z) (s : CastSender) : bool * list (list Z) * CastSender :=
  if sent then (true, [encode_record record_type payload], sd_sent (sd_next_seq s) now s) else (false, [], s).

Definition advance_seq (s : CastSender) : CastSender := sd_sent (wrap_u64 (sd_next_seq s + 1)) (sd_last_heartbeat s) s.

(** ** Receiver *)

Record CastReceiver : Type := mkReceiver {
  rv_expected_seq : Z;
  rv_highest_seen : Z;
  rv_fault : option (Z * Z * Z);
  rv_reconnect : option Z;
  rv_nak_sent_at : list Z;
  rv_nak_retries_on_oldest : Z;
  rv_nak_debounce_ns : Z;
  rv_max_nak_retries : Z;
  rv_reorder_seqs : list Z;
  rv_reorder_frames : list (list Z);
}.

Definition CastReceiver_new (nak_debounce_us max_nak_retries : Z) : CastReceiver :=
  mkReceiver 0 0 None None (replicate (Z.to_nat REORDER_CAPACITY) 0) 0 (sat_u64 (nak_debounce_us * 1000)) max_nak_retries
    (replicate (Z.to_nat REORDER_CAPACITY) 0) (replicate (Z.to_nat REORDER_CAPACITY) []).

(** What [try_recv_with] returns, with what it passed to the callback. *)
Inductive CastRecv : Type :=
| Empty
| Data (header : WalHeader) (payload : list Z)
| Faulted (last_delivered_seq gap_start gap_end_inclusive : Z)
| Reconnect (last_delivered_seq : Z).

Definition rv_set (e h : Z) (fault : option (Z * Z * Z)) (rc : option Z) (nak : list Z) (retries : Z) (seqs : list Z) (frames : list (list Z))
    (r : CastReceiver) : CastReceiver :=
  mkReceiver e h fault rc nak retries (rv_nak_debounce_ns r) (rv_max_nak_retries r) seqs frames.

Definition reset_after_replay (new_tip : Z) (r : CastReceiver) : CastReceiver :=
  rv_set (wrap_u64 (new_tip + 1)) (Z.max (rv_highest_seen r) new_tip) None None (map (fun _ => 0) (rv_nak_sent_at r)) 0
    (map (fun _ => 0) (rv_reorder_seqs r)) (rv_reorder_frames r) r.

(** [fault]: the first fault sticks. *)
Definition fault (gap_start gap_end : Z) (r : CastReceiver) : CastReceiver :=
  match rv_fault r with
  | Some _ => r
  | None => rv_set (rv_expected_seq r) (rv_highest_seen r) (Some (sat_u64 (rv_expected_seq r - 1), gap_start, gap_end)) (rv_reconnect r)
      (rv_nak_sent_at r) (rv_nak_retries_on_oldest r) (rv_reorder_seqs r) (rv_reorder_frames r) r
  end.

(** The walk of [oldest_missing_run]: at most one ring's length of slots. *)
Fixpoint missing_end (fuel : nat) (seqs : list Z) (seq upper : Z) : Res Z :=
  match fuel with
  | O => Diverged
  | S fuel =>
      if seq <=? upper then
        s ← vindex seqs (Z.land seq REORDER_MASK);
        if s =? seq then Ok seq else missing_end fuel seqs (wrap_u64 (seq + 1)) upper
      else Ok seq
  end.

Definition oldest_missing_run (r : CastReceiver) : Res (option (Z * Z)) :=
  if (rv_expected_seq r =? 0) || (rv_expected_seq r >? rv_highest_seen r) then Ok None
  else
    let from := rv_expected_seq r in
    let upper := Z.min (rv_highest_seen r) (sat_u64 (from + REORDER_CAPACITY)) in
    seq ← missing_end (Z.to_nat (REORDER_CAPACITY + 2)) (rv_reorder_seqs r) from upper;
    Ok (if seq =? from then None else Some (from, wrap_u64 (seq - from))).

(** The request sent, if any. *)
Definition maybe_nak (now_ns : Z) (r : CastReceiver) : Res (list Nak * CastReceiver) :=
  if bool_decide (rv_fault r <> None) || bool_decide (rv_reconnect r <> None) then Ok ([], r)
  else
    run ← oldest_missing_run r;
    match run with
    | None => Ok ([], r)
    | Some (from, count) =>
        let slot := Z.land from REORDER_MASK in
        last ← vindex (rv_nak_sent_at r) slot;
        if negb (last =? 0) && (sat_u64 (now_ns - last) <? rv_nak_debounce_ns r) then Ok ([], r)
        else
          nak ← vset (rv_nak_sent_at r) slot now_ns;
          let retries := Z.min (rv_nak_retries_on_oldest r + 1) U16_MAX in
          let r := rv_set (rv_expected_seq r) (rv_highest_seen r) (rv_fault r) (rv_reconnect r) nak retries (rv_reorder_seqs r)
                     (rv_reorder_frames r) r in
          Ok ([mkNak from count], if retries >? rv_max_nak_retries r then fault from (wrap_u64 (from + count - 1)) r else r)
    end.

(** A datagram that holds a record: its header, payload and frame. *)
Definition parse_datagram (bytes : list Z) : option (WalHeader * list Z) :=
  match from_bytes bytes with
  | None => None
  | Some hdr =>
      let len := Z.to_nat (wh_len hdr) in
      if wh_len hdr >? MAX_PAYLOAD then None
      else if (length bytes <? HEADER_SIZE + len)%nat then None
      else
        let payload := take len (drop HEADER_SIZE bytes) in
        if compute_crc32 payload =? wh_crc32 hdr then Some (hdr, payload) else None
  end.

(** One record with a sequence number: it is delivered, buffered or dropped.
    [None] continues the loop. *)
Definition on_record (now_ns : Z) (bytes : list Z) (hdr : WalHeader) (payload : list Z) (seq : Z) (r : CastReceiver)
    : Res (option CastRecv * list Nak * CastReceiver) :=
  let expected := if rv_expected_seq r =? 0 then seq else rv_expected_seq r in
  let resync := (seq <? expected) && (expected - seq >? 100) in
  let seqs := if resync then map (fun _ => 0) (rv_reorder_seqs r) else rv_reorder_seqs r in
  let expected := if resync then seq else expected in
  let r := rv_set expected (rv_highest_seen r) (rv_fault r) (rv_reconnect r) (rv_nak_sent_at r) (rv_nak_retries_on_oldest r) seqs
             (rv_reorder_frames r) r in
  if seq <? expected then Ok (None, [], r)
  else
    let highest := if seq >? rv_highest_seen r then seq else rv_highest_seen r in
    let slot := Z.land seq REORDER_MASK in
    if seq =? expected then
      nak ← vset (rv_nak_sent_at r) slot 0;
      Ok (Some (Data hdr payload), [],
          rv_set (wrap_u64 (expected + 1)) highest (rv_fault r) (rv_reconnect r) nak 0 seqs (rv_reorder_frames r) r)
    else
      let total := Z.of_nat HEADER_SIZE + zlen payload in
      existing ← vindex seqs slot;
      if (total <=? REORDER_FRAME_BYTES) && negb ((existing =? 0) || (existing =? seq)) then
        let last := match rv_reconnect r with Some l => l | None => sat_u64 (expected - 1) end in
        Ok (Some (Reconnect last), [],
            rv_set expected highest (rv_fault r) (Some last) (rv_nak_sent_at r) (rv_nak_retries_on_oldest r) seqs (rv_reorder_frames r) r)
      else
        '(seqs, frames) ← (
          if total <=? REORDER_FRAME_BYTES then
            seqs ← vset seqs slot seq;
            frames ← vset (rv_reorder_frames r) slot (take (Z.to_nat total) bytes);
            Ok (seqs, frames)
          else Ok (seqs, rv_reorder_frames r));
        let r := rv_set expected highest (rv_fault r) (rv_reconnect r) (rv_nak_sent_at r) (rv_nak_retries_on_oldest r) seqs frames r in
        '(naks, r) ← maybe_nak now_ns r;
        Ok (match rv_fault r with Some (l, s, e) => Some (Faulted l s e) | None => None end, naks, r).

(** The frame buffered for the next sequence number, once the socket is dry. *)
Definition drain_ring (r : CastReceiver) : Res (CastRecv * CastReceiver) :=
  if rv_expected_seq r =? 0 then Ok (Empty, r)
  else
    let slot := Z.land (rv_expected_seq r) REORDER_MASK in
    s ← vindex (rv_reorder_seqs r) slot;
    if s =? rv_expected_seq r then
      frame ← vindex (rv_reorder_frames r) slot;
      match from_bytes frame with
      | Some hdr =>
          seqs ← vset (rv_reorder_seqs r) slot 0;
          nak ← vset (rv_nak_sent_at r) slot 0;
          Ok (Data hdr (drop HEADER_SIZE frame),
              rv_set (wrap_u64 (rv_expected_seq r + 1)) (rv_highest_seen r) (rv_fault r) (rv_reconnect r) nak 0 seqs (rv_reorder_frames r) r)
      | None => Ok (Empty, r)
      end
    else Ok (Empty, r).

(** The loop over the socket: the outcome, the requests sent, what is left on
    the socket, and the receiver. *)
Fixpoint recv_loop (inbox : list (list Z * Z)) (r : CastReceiver) : Res (CastRecv * list Nak * list (list Z * Z) * CastReceiver) :=
  match inbox with
  | [] => '(out, r) ← drain_ring r; Ok (out, [], [], r)
  | (bytes, now_ns) :: inbox =>
      let continue (naks : list Nak) (r : CastReceiver) :=
        '(out, more, rest, r) ← recv_loop inbox r; Ok (out, naks ++ more, rest, r) in
      match parse_datagram bytes with
      | None => continue [] r
      | Some (hdr, payload) =>
          if wh_record_type hdr =? RECORD_HEARTBEAT then
            match decode_heartbeat payload with
            | Some hb =>
                let r := rv_set (rv_expected_seq r) (if hb_highest_seq hb >? rv_highest_seen r then hb_highest_seq hb else rv_highest_seen r)
                           (rv_fault r) (rv_reconnect r) (rv_nak_sent_at r) (rv_nak_retries_on_oldest r) (rv_reorder_seqs r)
                           (rv_reorder_frames r) r in
                '(naks, r) ← maybe_nak now_ns r;
                continue naks r
            | None => continue [] r
            end
          else if wh_record_type hdr =? RECORD_NAK then continue [] r
          else
            match extract_seq payload with
            | None => continue [] r
            | Some seq =>
                if seq =? 0 then continue [] r
                else
                  '(out, naks, r) ← on_record now_ns bytes hdr payload seq r;
                  match out with
                  | Some out => Ok (out, naks, inbox, r)
                  | None => continue naks r
                  end
            end
      end
  end.

Definition try_recv_with (inbox : list (list Z * Z)) (r : CastReceiver) : Res (CastRecv * list Nak * list (list Z * Z) * CastReceiver) :=
  match rv_reconnect r, rv_fault r with
  | Some last, _ => Ok (Reconnect last, [], inbox, r)
  | None, Some (last, s, e) => Ok (Faulted last s e, [], inbox, r)
  | None, None => recv_loop inbox r
  end.

End Cast.
