(* ===== verification/CastInv.v ===== *)
(** * CastInv: the receiver's invariant

    What the receiver has taken from the socket is a list of datagrams.  Its
    ring holds frames of those ([ring_ok]), it never panics, a request names
    the missing run in front of it, and one call either delivers the record it
    expects next or leaves its position ([recv_spec]). *)

From S2P Require Import Prelude Hash Frames Wal Cast.

Section Inv.
Context `{Crc32c}.

(** The record a datagram carries, and its sequence number. *)
Definition record_of (bytes : list Z) : option (Z * WalHeader * list Z) :=
  match parse_datagram bytes with
  | Some (hdr, payload) =>
      if (wh_record_type hdr =? RECORD_HEARTBEAT) || (wh_record_type hdr =? RECORD_NAK) then None
      else match extract_seq payload with
           | Some s => if s =? 0 then None else Some (s, hdr, payload)
           | None => None
           end
  | None => None
  end.

Definition seq_of (d : list Z * Z) : option Z := (fun x => x.1.1) <$> record_of d.1.

(** Sequence numbers within 63 bits. *)
Definition numbered (ds : list (list Z * Z)) : Prop := Forall (fun d => forall s, seq_of d = Some s -> 0 < s <= I64_MAX) ds.

(** Nothing on the socket is more than [100] behind the record expected: a
    number further back is taken for a restart of the sender. *)
Definition timely (expected : Z) (inbox : list (list Z * Z)) : Prop :=
  numbered inbox /\ Forall (fun d => forall s, seq_of d = Some s -> expected <= s + 100) inbox.

Lemma timely_app e ds1 ds2 : timely e (ds1 ++ ds2) <-> timely e ds1 /\ timely e ds2.
Proof. unfold timely, numbered. rewrite !Forall_app. tauto. Qed.

Lemma timely_one e d s : timely e [d] -> seq_of d = Some s -> 0 < s <= I64_MAX /\ e <= s + 100.
Proof. intros [Hn Ht] Hs. inversion Hn; inversion Ht; subst. auto. Qed.

Lemma numbered_in ds d s : numbered ds -> In d ds -> seq_of d = Some s -> 0 < s <= I64_MAX.
Proof. unfold numbered. rewrite Forall_forall. intros Hn Hi. apply Hn. by apply list_elem_of_In. Qed.

Lemma numbered_app ds1 ds2 : numbered (ds1 ++ ds2) <-> numbered ds1 /\ numbered ds2.
Proof. apply Forall_app. Qed.

(** ** Rings *)

Definition slot_of (s : Z) : Z := Z.land s REORDER_MASK.

Lemma slot_mod s : slot_of s = s mod REORDER_CAPACITY.
Proof. unfold slot_of, REORDER_MASK, REORDER_CAPACITY. change (2048 - 1) with (Z.ones 11). by rewrite Z.land_ones by lia. Qed.

Lemma slot_range s : 0 <= slot_of s < REORDER_CAPACITY.
Proof. rewrite slot_mod. apply Z.mod_pos_bound. done. Qed.

(** A buffered frame is the datagram that carried the slot's number. *)
Definition slot_ok (ds : list (list Z * Z)) (i s : Z) (frame : list Z) : Prop :=
  s <> 0 -> slot_of s = i /\ exists d hdr payload, In d ds /\ record_of d.1 = Some (s, hdr, payload) /\
    from_bytes frame = Some hdr /\ drop HEADER_SIZE frame = payload.

Record rings_ok (ds : list (list Z * Z)) (r : CastReceiver) : Prop := {
  ri_seqs : zlen (rv_reorder_seqs r) = REORDER_CAPACITY;
  ri_frames : zlen (rv_reorder_frames r) = REORDER_CAPACITY;
  ri_naks : zlen (rv_nak_sent_at r) = REORDER_CAPACITY;
  ri_slots : forall i s f, vget (rv_reorder_seqs r) i = Some s -> vget (rv_reorder_frames r) i = Some f -> slot_ok ds i s f;
}.

Record receiver_ok (ds : list (list Z * Z)) (r : CastReceiver) : Prop := {
  ro_rings : rings_ok ds r;
  ro_numbered : numbered ds;
  ro_expected : 0 <= rv_expected_seq r <= I64_MAX + 1;
}.

(** What requests leave alone. *)
Record same_stream (r r' : CastReceiver) : Prop := {
  ss_expected : rv_expected_seq r' = rv_expected_seq r;
  ss_highest : rv_highest_seen r' = rv_highest_seen r;
  ss_seqs : rv_reorder_seqs r' = rv_reorder_seqs r;
  ss_frames : rv_reorder_frames r' = rv_reorder_frames r;
  ss_naks : zlen (rv_nak_sent_at r') = zlen (rv_nak_sent_at r);
  ss_reconnect : rv_reconnect r' = rv_reconnect r;
}.

Lemma same_stream_refl r : same_stream r r.
Proof. done. Qed.

Lemma same_rings ds r r' : same_stream r r' -> rings_ok ds r -> rings_ok ds r'.
Proof. intros [_ _ Es Ef En _] []. by constructor; rewrite ?Es, ?Ef, ?En. Qed.

Lemma rings_eq ds r r' : rings_ok ds r -> rv_reorder_seqs r' = rv_reorder_seqs r -> rv_reorder_frames r' = rv_reorder_frames r ->
  zlen (rv_nak_sent_at r') = zlen (rv_nak_sent_at r) -> rings_ok ds r'.
Proof. intros [] Es Ef En. by constructor; rewrite ?Es, ?Ef, ?En. Qed.

Lemma same_ok ds r r' : same_stream r r' -> receiver_ok ds r -> receiver_ok ds r'.
Proof. intros Hs [Hr Hn He]. constructor; [by eapply same_rings|done|]. by rewrite (ss_expected _ _ Hs). Qed.

Lemma rings_more ds ds' r : rings_ok ds r -> rings_ok (ds ++ ds') r.
Proof.
  intros [H1 H2 H3 H4]. constructor; [done|done|done|]. intros i s f Hs Hf Hn.
  destruct (H4 i s f Hs Hf Hn) as (? & d & hdr & p & Hi & ?). split; [done|]. exists d, hdr, p. split; [|done]. apply in_app_iff. by left.
Qed.

(** ** Requests *)

Lemma missing_end_spec fuel seqs seq upper : zlen seqs = REORDER_CAPACITY -> 0 <= seq -> upper < U64_MAX -> upper - seq + 1 < Z.of_nat fuel -> 0 < Z.of_nat fuel ->
  exists e, missing_end fuel seqs seq upper = Ok e /\ seq <= e /\ (e <= upper + 1 \/ e = seq) /\
    (forall s, seq <= s < e -> vget seqs (slot_of s) <> Some s) /\ (e <= upper -> vget seqs (slot_of e) = Some e).
Proof.
  intros Hl. revert seq. induction fuel as [|fuel IH]; intros seq Hs Hu Hf Hf0; [lia|]. cbn [missing_end]. case_if; bool_to_prop.
  - destruct (vget_is_some seqs (slot_of seq)) as [s Es]; [rewrite Hl; apply slot_range|].
    fold (slot_of seq). rewrite (vindex_some _ _ _ Es). cbn [mbind Res_bind]. destruct (s =? seq) eqn:E; bool_to_prop.
    + subst s. exists seq. split_and!; [done|lia|by right|lia|done].
    + rewrite wrap_u64_id by width_lia. destruct (IH (seq + 1)) as (e & He & H1 & H2 & H3 & H4); [lia|done|lia|lia|].
      exists e. split_and!; [done|lia|lia| |done]. intros x Hx. destruct (decide (x = seq)) as [->|]; [congruence|apply H3; lia].
  - exists seq. split_and!; [done|lia|by right|lia|lia].
Qed.

Lemma oldest_missing_spec ds r : rings_ok ds r -> 0 <= rv_expected_seq r <= I64_MAX + 1 ->
  exists run, oldest_missing_run r = Ok run /\
    match run with
    | None => rv_expected_seq r = 0 \/ rv_highest_seen r < rv_expected_seq r \/
        vget (rv_reorder_seqs r) (slot_of (rv_expected_seq r)) = Some (rv_expected_seq r)
    | Some (from, count) => from = rv_expected_seq r /\ 0 < count <= REORDER_CAPACITY + 1 /\ from + count <= rv_highest_seen r + 1 /\
        (forall s, from <= s < from + count -> vget (rv_reorder_seqs r) (slot_of s) <> Some s) /\
        (from + count <= rv_highest_seen r -> count <= REORDER_CAPACITY ->
         vget (rv_reorder_seqs r) (slot_of (from + count)) = Some (from + count))
    end.
Proof.
  intros [Hl _ _ _] He. unfold oldest_missing_run. destruct (_ || _) eqn:E0.
  { eexists. split; [done|]. bool_to_prop. rewrite Z.gtb_ltb in E0. destruct E0; bool_to_prop; [by left|by right; left]. }
  bool_to_prop. rewrite Z.gtb_ltb in *. bool_to_prop. rewrite sat_u64_id by (unfold REORDER_CAPACITY; width_lia).
  set (from := rv_expected_seq r) in *. set (upper := Z.min (rv_highest_seen r) (from + REORDER_CAPACITY)).
  assert (upper <= from + REORDER_CAPACITY) by lia. assert (from <= upper) by (unfold upper, REORDER_CAPACITY; lia).
  destruct (missing_end_spec (Z.to_nat (REORDER_CAPACITY + 2)) (rv_reorder_seqs r) from upper Hl) as (e & -> & G1 & G2 & G3 & G4);
    [lia|unfold REORDER_CAPACITY in *; width_lia|unfold REORDER_CAPACITY in *; lia|unfold REORDER_CAPACITY; lia|].
  cbn [mbind Res_bind]. eexists. split; [done|]. destruct (e =? from) eqn:Ee; bool_to_prop.
  - subst e. right. right. apply G4. lia.
  - rewrite wrap_u64_id by (unfold REORDER_CAPACITY in *; width_lia). split_and!; try lia.
    + intros s Hs. apply G3. lia.
    + intros Hh Hc. replace (from + (e - from)) with e in * by lia. apply G4. lia.
Qed.

Lemma maybe_nak_spec ds now r : rings_ok ds r -> 0 <= rv_expected_seq r <= I64_MAX + 1 ->
  exists naks r', maybe_nak now r = Ok (naks, r') /\ same_stream r r'.
Proof.
  intros Hr He. unfold maybe_nak. case_if; [by eexists _, _|].
  destruct (oldest_missing_spec ds r Hr He) as (run & -> & Hrun). cbn [mbind Res_bind]. destruct run as [[from count]|]; [|by eexists _, _].
  assert (0 <= slot_of from < zlen (rv_nak_sent_at r)) as Hslot by (rewrite (ri_naks _ _ Hr); apply slot_range).
  destruct (vget_is_some _ _ Hslot) as [last El]. fold (slot_of from). rewrite (vindex_some _ _ _ El). cbn [mbind Res_bind]. case_if; [by eexists _, _|].
  rewrite vset_ok by done. cbn [mbind Res_bind]. eexists _, _. split; [done|]. unfold fault. cbn. destruct (rv_fault r); case_if; constructor; cbn; try done;
    by rewrite zlen_vput.
Qed.

(** ** Records *)

Lemma record_of_parse bytes s hdr payload : record_of bytes = Some (s, hdr, payload) ->
  parse_datagram bytes = Some (hdr, payload) /\ wh_record_type hdr <> RECORD_HEARTBEAT /\ wh_record_type hdr <> RECORD_NAK /\
  extract_seq payload = Some s /\ s <> 0.
Proof.
  unfold record_of. destruct (parse_datagram bytes) as [[h p]|]; [|done]. case_if; [done|]. bool_to_prop.
  destruct (extract_seq p) as [x|] eqn:Ex; [|done]. case_if; [done|]. bool_to_prop. intros [= -> -> ->]. done.
Qed.

(** The bytes copied into the ring are the header and the payload. *)
Lemma buffered_frame bytes hdr payload : parse_datagram bytes = Some (hdr, payload) ->
  let frame := take (HEADER_SIZE + length payload) bytes in from_bytes frame = Some hdr /\ drop HEADER_SIZE frame = payload.
Proof.
  unfold parse_datagram. destruct (from_bytes bytes) as [h|] eqn:Eh; [|done]. case_if; [done|]. case_if; [done|]. case_if; [|done].
  intros [= -> <-]. apply Nat.ltb_ge in Heqb0. set (len := Z.to_nat (wh_len hdr)) in *.
  assert (length (take len (drop HEADER_SIZE bytes)) = len) as El by (rewrite length_take, length_drop; lia). rewrite El.
  assert (take (HEADER_SIZE + len) bytes = take HEADER_SIZE bytes ++ take len (drop HEADER_SIZE bytes)) as ->.
  { rewrite <- (take_drop HEADER_SIZE bytes) at 1. rewrite take_app, length_take. replace (HEADER_SIZE `min` length bytes)%nat with HEADER_SIZE by lia.
    rewrite take_take. f_equal; f_equal; lia. }
  assert (length (take HEADER_SIZE bytes) = HEADER_SIZE) as Eh16 by (rewrite length_take; lia). split.
  - rewrite from_bytes_app by done. rewrite <- (from_bytes_app _ (drop HEADER_SIZE bytes)) by done. by rewrite take_drop.
  - by rewrite drop_app_length'.
Qed.

Lemma seq_of_record d s hdr payload : record_of d.1 = Some (s, hdr, payload) -> seq_of d = Some s.
Proof. unfold seq_of. by intros ->. Qed.

Lemma ok_more e ds ds' r : timely e ds' -> receiver_ok ds r -> receiver_ok (ds ++ ds') r.
Proof. intros [Ht _] [Hr Hn He]. constructor; [by apply rings_more| |done]. by apply numbered_app. Qed.

(** Buffering a record ahead. *)
Lemma rings_buffer ds r r' d s hdr payload : rings_ok ds r -> record_of d.1 = Some (s, hdr, payload) ->
  rv_reorder_seqs r' = vput (rv_reorder_seqs r) (slot_of s) s ->
  rv_reorder_frames r' = vput (rv_reorder_frames r) (slot_of s) (take (HEADER_SIZE + length payload) d.1) ->
  rv_nak_sent_at r' = rv_nak_sent_at r -> rings_ok (ds ++ [d]) r'.
Proof.
  intros Hr Hd Es Ef En. pose proof (rings_more ds [d] r Hr) as Hm. destruct Hr as [Hl1 Hl2 Hl3 _].
  pose proof (slot_range s) as Hs. constructor; rewrite ?Es, ?Ef, ?En, ?zlen_vput; try done.
  intros i x f. rewrite !vget_vput, Hl1, Hl2. destruct (_ && _) eqn:Ei.
  - intros [= <-] [= <-] Hx. bool_to_prop. split; [done|]. exists d, hdr, payload. split; [apply in_app_iff; right; by left|]. split; [done|].
    apply buffered_frame. by apply record_of_parse in Hd as [? _].
  - intros Hx Hf. by eapply (ri_slots _ _ Hm).
Qed.

(** Emptying a slot. *)
Lemma rings_clear ds r r' i : rings_ok ds r -> rv_reorder_seqs r' = vput (rv_reorder_seqs r) i 0 -> rv_reorder_frames r' = rv_reorder_frames r ->
  zlen (rv_nak_sent_at r') = zlen (rv_nak_sent_at r) -> rings_ok ds r'.
Proof.
  intros [Hl1 Hl2 Hl3 Hsl] Es Ef En. constructor; rewrite ?Es, ?Ef, ?En, ?zlen_vput; try done.
  intros j x f. rewrite vget_vput. destruct (_ && _); [intros [= <-]; done|]. apply Hsl.
Qed.

Definition stays_put (r r' : CastReceiver) (out : CastRecv) : Prop :=
  rv_expected_seq r' = rv_expected_seq r /\ match out with Data _ _ => False | _ => True end.

(** One datagram with a record. *)
Lemma on_record_spec ds r now bytes s hdr payload :
  timely (rv_expected_seq r) [(bytes, now)] -> receiver_ok ds r -> record_of bytes = Some (s, hdr, payload) ->
  exists out naks r', on_record now bytes hdr payload s r = Ok (out, naks, r') /\ receiver_ok (ds ++ [(bytes, now)]) r' /\
    match out with
    | Some (Data h p) => h = hdr /\ p = payload /\ rv_expected_seq r' = s + 1 /\ (rv_expected_seq r = 0 \/ rv_expected_seq r = s)
    | Some o => stays_put r r' o /\ o <> Empty
    | None => rv_expected_seq r' = rv_expected_seq r
    end.
Proof.
  intros Htl Hok Hrec. destruct (timely_one _ _ s Htl (seq_of_record (bytes, now) _ _ _ Hrec)) as [Hpos Hnew].
  pose proof (ro_expected _ _ Hok) as He. pose proof (ro_rings _ _ Hok) as Hri.
  pose proof (slot_range s) as Hslot. pose proof Hri as [Hl1 Hl2 Hl3 Hsl].
  pose proof (ro_numbered _ _ (ok_more _ _ _ _ Htl Hok)) as Hnum.
  unfold on_record. fold (slot_of s). set (e := if rv_expected_seq r =? 0 then s else rv_expected_seq r).
  assert (e = rv_expected_seq r /\ rv_expected_seq r <> 0 \/ e = s /\ rv_expected_seq r = 0) as Hee by (unfold e; case_if; bool_to_prop; auto).
  replace ((s <? e) && (e - s >? 100)) with false.
  2:{ symmetry. rewrite Z.gtb_ltb. apply andb_false_iff. right. apply Z.ltb_ge. lia. }
  destruct (s <? e) eqn:Elt; bool_to_prop.
  { assert (e = rv_expected_seq r) as -> by lia. eexists None, [], _. split; [done|]. split; [|done].
    destruct (ok_more _ ds [(bytes, now)] r Htl Hok) as [Hr' Hn' He']. constructor; [|done|done]. by apply (rings_eq _ r). }
  destruct (s =? e) eqn:Eeq; bool_to_prop.
  { cbn [rv_set rv_nak_sent_at]. rewrite vset_ok by lia. cbn [mbind Res_bind]. eexists (Some (Data hdr payload)), [], _. split; [done|].
    rewrite wrap_u64_id by width_lia. split; [|cbn; split_and!; [done|done|lia|lia]]. constructor; [|done|cbn; lia].
    eapply rings_more. constructor; cbn; rewrite ?zlen_vput; done. }
  assert (e = rv_expected_seq r) as Ee by lia. rewrite Ee in *. clear Hee.
  destruct (vget_is_some (rv_reorder_seqs r) (slot_of s)) as [x Ex]; [lia|]. rewrite (vindex_some _ _ _ Ex). cbn [mbind Res_bind].
  set (total := Z.of_nat HEADER_SIZE + zlen payload).
  destruct ((total <=? REORDER_FRAME_BYTES) && negb ((x =? 0) || (x =? s))) eqn:Econf.
  { eexists (Some (Reconnect _)), [], _. split; [done|]. split; [|done].
    destruct (ok_more _ ds [(bytes, now)] r Htl Hok) as [Hr' Hn' He']. constructor; [|done|done]. by apply (rings_eq _ r). }
  assert (Z.to_nat total = (HEADER_SIZE + length payload)%nat) as -> by (unfold total, zlen; lia).
  set (buffered := if total <=? REORDER_FRAME_BYTES then _ else _).
  assert (exists seqs frames, buffered = Ok (seqs, frames) /\
    receiver_ok (ds ++ [(bytes, now)]) (rv_set (rv_expected_seq r) (if s >? rv_highest_seen r then s else rv_highest_seen r) (rv_fault r) (rv_reconnect r)
      (rv_nak_sent_at r) (rv_nak_retries_on_oldest r) seqs frames r)) as (seqs & frames & -> & Hok').
  { unfold buffered. case_if.
    - rewrite !vset_ok by (cbn; lia). cbn [mbind Res_bind]. eexists _, _. split; [done|]. constructor; [by eapply (rings_buffer ds r _ (bytes, now))|done|done].
    - eexists _, _. split; [done|]. destruct (ok_more _ ds [(bytes, now)] r Htl Hok) as [Hr' Hn' He']. constructor; [|done|done]. by apply (rings_eq _ r). }
  cbn [mbind Res_bind]. destruct (maybe_nak_spec _ now _ (ro_rings _ _ Hok') ltac:(cbn; lia)) as (naks & r' & En & Hsame).
  match goal with |- context [maybe_nak now ?x] => assert (maybe_nak now x = Ok (naks, r')) as -> by exact En end.
  cbn [mbind Res_bind]. eexists _, naks, r'. split; [done|]. split; [by eapply same_ok|]. pose proof (ss_expected _ _ Hsame) as Hx. cbn in Hx.
  destruct (rv_fault r') as [[[] ?]|]; [|done]. by split.
Qed.

(** What a call delivers, if anything, and where the receiver stands after. *)
Definition delivers (ds : list (list Z * Z)) (r r' : CastReceiver) (out : CastRecv) : Prop :=
  match out with
  | Data h p => exists s d, In d ds /\ record_of d.1 = Some (s, h, p) /\ (rv_expected_seq r = 0 \/ rv_expected_seq r = s) /\ rv_expected_seq r' = s + 1
  | _ => rv_expected_seq r' = rv_expected_seq r
  end.

Lemma drain_ring_spec ds r : receiver_ok ds r ->
  exists out r', drain_ring r = Ok (out, r') /\ receiver_ok ds r' /\ delivers ds r r' out /\
    match out with
    | Data _ _ => True
    | Empty => r' = r /\ (rv_expected_seq r <> 0 -> vget (rv_reorder_seqs r) (slot_of (rv_expected_seq r)) <> Some (rv_expected_seq r))
    | _ => False
    end.
Proof.
  intros Hok. pose proof (ro_rings _ _ Hok) as Hri. pose proof Hri as [Hl1 Hl2 Hl3 Hsl].
  unfold drain_ring. destruct (rv_expected_seq r =? 0) eqn:E0; bool_to_prop; [by eexists Empty, r|].
  set (e := rv_expected_seq r) in *. pose proof (slot_range e) as Hslot. fold (slot_of e).
  destruct (vget_is_some (rv_reorder_seqs r) (slot_of e)) as [x Ex]; [lia|]. rewrite (vindex_some _ _ _ Ex). cbn [mbind Res_bind].
  destruct (x =? e) eqn:Exe; bool_to_prop; [|eexists Empty, r; split_and!; try done; by intros _ ?; congruence]. subst x.
  destruct (vget_is_some (rv_reorder_frames r) (slot_of e)) as [f Ef]; [lia|]. rewrite (vindex_some _ _ _ Ef). cbn [mbind Res_bind].
  destruct (Hsl _ _ _ Ex Ef E0) as (_ & d & hdr & payload & Hi & Hrec & Hf & Hp). rewrite Hf, !vset_ok by lia. cbn [mbind Res_bind].
  eexists (Data hdr (drop HEADER_SIZE f)), _. split; [done|].
  assert (0 < e <= I64_MAX) as Hle by (eapply numbered_in; [apply (ro_numbered _ _ Hok)|done|by eapply seq_of_record]). rewrite wrap_u64_id by width_lia. split; [|split; [|done]].
  - constructor; [|apply Hok|cbn; lia]. apply (rings_clear ds r _ (slot_of e)); try done. cbn. apply zlen_vput.
  - exists e, d. rewrite Hp. split_and!; try done. by right.
Qed.

Lemma delivers_more ds ds' r r' out : delivers ds r r' out -> delivers (ds ++ ds') r r' out.
Proof.
  destruct out; cbn; try done. intros (s & d & Hi & ?). exists s, d. split; [apply in_app_iff; by left|done].
Qed.

Lemma delivers_from ds r1 r2 r' out : rv_expected_seq r2 = rv_expected_seq r1 -> delivers ds r2 r' out -> delivers ds r1 r' out.
Proof. intros E. destruct out; cbn; by rewrite E. Qed.

(** Unfolding the loop by what the datagram carries. *)
Lemma recv_loop_skip bytes now inbox r : record_of bytes = None ->
  (exists hb, parse_datagram bytes = Some hb /\ wh_record_type hb.1 = RECORD_HEARTBEAT /\ exists h, decode_heartbeat hb.2 = Some h /\
     recv_loop ((bytes, now) :: inbox) r =
       (let r := rv_set (rv_expected_seq r) (if hb_highest_seq h >? rv_highest_seen r then hb_highest_seq h else rv_highest_seen r)
                   (rv_fault r) (rv_reconnect r) (rv_nak_sent_at r) (rv_nak_retries_on_oldest r) (rv_reorder_seqs r) (rv_reorder_frames r) r in
        '(naks, r) ← maybe_nak now r; '(out, more, rest, r) ← recv_loop inbox r; Ok (out, naks ++ more, rest, r))) \/
  recv_loop ((bytes, now) :: inbox) r = ('(out, more, rest, r) ← recv_loop inbox r; Ok (out, more, rest, r)).
Proof.
  intros Hrec. unfold record_of in Hrec. cbn [recv_loop]. destruct (parse_datagram bytes) as [[hdr payload]|]; [|by right].
  destruct (wh_record_type hdr =? RECORD_HEARTBEAT) eqn:Eh; cbn [orb] in Hrec.
  - destruct (decode_heartbeat payload) as [h|] eqn:Ed; [|by right]. left. exists (hdr, payload). bool_to_prop. split; [done|]. split; [done|]. by exists h.
  - right. destruct (wh_record_type hdr =? RECORD_NAK); [done|]. destruct (extract_seq payload) as [s|]; [|done]. destruct (s =? 0); [done|done].
Qed.

Lemma recv_loop_record bytes now inbox r s hdr payload : record_of bytes = Some (s, hdr, payload) ->
  recv_loop ((bytes, now) :: inbox) r =
    ('(out, naks, r) ← on_record now bytes hdr payload s r;
     match out with
     | Some out => Ok (out, naks, inbox, r)
     | None => '(out, more, rest, r) ← recv_loop inbox r; Ok (out, naks ++ more, rest, r)
     end).
Proof.
  intros Hrec%record_of_parse. destruct Hrec as (Hp & H1 & H2 & Hs & Hz). cbn [recv_loop]. rewrite Hp.
  apply Z.eqb_neq in H1, H2, Hz. by rewrite H1, H2, Hs, Hz.
Qed.

Lemma recv_loop_spec inbox : forall ds r, timely (rv_expected_seq r) inbox -> receiver_ok ds r ->
  exists out naks rest r' used, recv_loop inbox r = Ok (out, naks, rest, r') /\ inbox = used ++ rest /\ receiver_ok (ds ++ used) r' /\
    delivers (ds ++ used) r r' out.
Proof.
  induction inbox as [|[bytes now] inbox IH]; intros ds r Htl Hok.
  - destruct (drain_ring_spec ds r Hok) as (out & r' & Ed & Hok' & Hdel & _). cbn [recv_loop]. rewrite Ed.
    exists out, [], [], r', []. by rewrite !app_nil_r; split_and!.
  - apply (timely_app _ [(bytes, now)]) in Htl as [Htl Htl'].
    assert (forall r0, rv_expected_seq r0 = rv_expected_seq r -> receiver_ok (ds ++ [(bytes, now)]) r0 ->
      exists out more rest r' used, recv_loop inbox r0 = Ok (out, more, rest, r') /\ (bytes, now) :: inbox = used ++ rest /\
        receiver_ok (ds ++ used) r' /\ delivers (ds ++ used) r r' out) as Hgo.
    { intros r0 E0 H0. rewrite <- E0 in Htl'. destruct (IH _ r0 Htl' H0) as (out & more & rest & r' & used & El & Eu & Hok' & Hdel).
      exists out, more, rest, r', ((bytes, now) :: used). rewrite <- app_assoc in Hok', Hdel. split_and!; [done|by rewrite Eu|done|by eapply delivers_from]. }
    destruct (record_of bytes) as [[[s hdr] payload]|] eqn:Hrec.
    + rewrite (recv_loop_record _ _ _ _ _ _ _ Hrec).
      destruct (on_record_spec ds r now bytes s hdr payload Htl Hok Hrec) as (out & naks & r1 & -> & Hok1 & Hout). cbn [mbind Res_bind].
      destruct out as [o|].
      * exists o, naks, inbox, r1, [(bytes, now)]. split_and!; try done. destruct o as [|h p| |]; cbn in Hout |- *; try apply Hout.
        destruct Hout as (-> & -> & He & H0). exists s, (bytes, now). split; [apply in_app_iff; right; by left|]. done.
      * destruct (Hgo r1 Hout Hok1) as (out & more & rest & r' & used & -> & ?). cbn [mbind Res_bind]. by exists out, (naks ++ more), rest, r', used.
    + destruct (recv_loop_skip bytes now inbox r Hrec) as [(hb & _ & _ & h & _ & ->)| ->].
      * cbn beta zeta. set (r0 := rv_set _ _ _ _ _ _ _ _ r).
        assert (receiver_ok ds r0) as Hok0 by (destruct Hok as [Hr Hn He]; constructor; [by apply (rings_eq _ r)|done|done]).
        destruct (maybe_nak_spec ds now r0 (ro_rings _ _ Hok0) (ro_expected _ _ Hok0)) as (naks & r1 & -> & Hsame).
        cbn [mbind Res_bind]. destruct (Hgo r1) as (out & more & rest & r' & used & -> & ?); [by rewrite (ss_expected _ _ Hsame)|eapply ok_more; [done|by eapply same_ok]|].
        cbn [mbind Res_bind]. by exists out, (naks ++ more), rest, r', used.
      * destruct (Hgo r) as (out & more & rest & r' & used & -> & ?); [done|by eapply ok_more|]. cbn [mbind Res_bind]. by exists out, more, rest, r', used.
Qed.

Lemma recv_spec inbox ds r : timely (rv_expected_seq r) inbox -> receiver_ok ds r ->
  exists out naks rest r' used, try_recv_with inbox r = Ok (out, naks, rest, r') /\ inbox = used ++ rest /\ receiver_ok (ds ++ used) r' /\
    delivers (ds ++ used) r r' out.
Proof.
  intros Htl Hok. unfold try_recv_with. destruct (rv_reconnect r); [|destruct (rv_fault r) as [[[] ?]|]].
  1, 2: eexists _, [], inbox, r, []; rewrite app_nil_r; done.
  by apply recv_loop_spec.
Qed.

End Inv.
