(* ===== verification/CastLive.v ===== *)
(** * CastLive: the receiver catches up

    A window of records that has arrived in any order is handed on completely:
    the records are either still on the socket or in the ring ([live]), each
    call hands on the next one, and requests sent meanwhile never exhaust the
    receiver's patience within one debounce interval. *)

From S2P Require Import Prelude Hash Frames Wal Cast CastInv.

Section Live.
Context `{Crc32c}.

(** The window is [first .. first + n], no longer than the ring. *)
Context (first n debounce : Z).
Hypothesis Hfirst : 0 < first.
Hypothesis Hn : 0 <= n <= REORDER_CAPACITY.
Hypothesis Hlast : first + n <= I64_MAX.
Hypothesis Hdeb : 0 <= debounce <= I64_MAX.

Definition in_window (s : Z) : Prop := first <= s < first + n.

(** A datagram of the window that fits a slot, handled within the interval. *)
Definition arrives (d : list Z * Z) (s : Z) : Prop :=
  exists hdr payload, record_of d.1 = Some (s, hdr, payload) /\ in_window s /\
    Z.of_nat HEADER_SIZE + zlen payload <= REORDER_FRAME_BYTES /\ 0 < d.2 <= debounce.

(** Every record from [c] on is in the ring or on the socket. *)
Record live_from (c : Z) (ds inbox : list (list Z * Z)) (ahead : list Z) (r : CastReceiver) : Prop := {
  lv_rings : rings_ok ds r;
  lv_expected : first <= rv_expected_seq r <= first + n;
  lv_fault : rv_fault r = None;
  lv_reconnect : rv_reconnect r = None;
  lv_seqs : forall i x, vget (rv_reorder_seqs r) i = Some x -> x = 0 \/ in_window x;
  lv_cover : forall s, c <= s < first + n -> vget (rv_reorder_seqs r) (slot_of s) = Some s \/ In s ahead;
  lv_inbox : Forall2 arrives inbox ahead;
  lv_ahead : NoDup ahead;
  lv_new : forall s, In s ahead -> rv_expected_seq r <= s /\ vget (rv_reorder_seqs r) (slot_of s) <> Some s;
  lv_naks : forall i x, vget (rv_nak_sent_at r) i = Some x -> 0 <= x <= debounce;
  lv_retries : rv_nak_retries_on_oldest r = 0 \/
    rv_nak_retries_on_oldest r = 1 /\ exists x, vget (rv_nak_sent_at r) (slot_of (rv_expected_seq r)) = Some x /\ 0 < x;
  lv_debounce : rv_nak_debounce_ns r = debounce;
  lv_max : 1 <= rv_max_nak_retries r;
}.

Definition live (ds inbox : list (list Z * Z)) (ahead : list Z) (r : CastReceiver) : Prop :=
  live_from (rv_expected_seq r) ds inbox ahead r.

(** Two numbers of the window never share a slot. *)
Lemma window_slots s x : in_window s -> in_window x -> slot_of s = slot_of x -> s = x.
Proof. rewrite !slot_mod. unfold in_window, REORDER_CAPACITY in *. intros ? ? E. dlia. Qed.

Lemma nak_live c ds inbox ahead r now : live_from c ds inbox ahead r -> 0 < now <= debounce ->
  exists naks r', maybe_nak now r = Ok (naks, r') /\ live_from c ds inbox ahead r' /\ rv_expected_seq r' = rv_expected_seq r.
Proof.
  intros Hlv Hnow. pose proof Hlv as []. unfold maybe_nak. rewrite lv_fault0, lv_reconnect0. cbn [orb bool_decide decide].
  destruct (oldest_missing_spec ds r lv_rings0 ltac:(lia)) as (run & -> & Hrun). cbn [mbind Res_bind].
  destruct run as [[from count]|]; [|eexists _, r; split; [done|]; split; [exact Hlv|done]]. destruct Hrun as [-> _].
  pose proof (slot_range (rv_expected_seq r)) as Hslot. destruct (vget_is_some (rv_nak_sent_at r) (slot_of (rv_expected_seq r))) as [last El];
    [by rewrite (ri_naks _ _ lv_rings0)|]. fold (slot_of (rv_expected_seq r)). rewrite (vindex_some _ _ _ El). cbn [mbind Res_bind].
  pose proof (lv_naks0 _ _ El) as Hlast0. rewrite lv_debounce0. destruct (_ && _) eqn:Edeb; [eexists _, r; split; [done|]; split; [exact Hlv|done]|].
  assert (last = 0) as ->.
  { destruct (decide (last = 0)) as [|Hnz]; [done|]. exfalso. rewrite (proj2 (Z.eqb_neq last 0) Hnz) in Edeb. cbn in Edeb. bool_to_prop.
    unfold sat_u64, clamp in Edeb. width_lia. }
  assert (rv_nak_retries_on_oldest r = 0) as Eret by (destruct lv_retries0 as [|(_ & x & Ex & Hx)]; [done|]; rewrite El in Ex; injection Ex as <-; lia).
  rewrite vset_ok by (by rewrite (ri_naks _ _ lv_rings0)). cbn [mbind Res_bind]. rewrite Eret. change (Z.min (0 + 1) U16_MAX) with 1.
  match goal with |- context [if ?c then fault _ _ _ else _] => replace c with false by (symmetry; cbn; rewrite Z.gtb_ltb; apply Z.ltb_ge; lia) end.
  eexists _, _. split; [done|]. split; [|done]. constructor; cbn; try done.
  - apply (rings_eq _ r); try done. cbn. apply zlen_vput.
  - intros i x. rewrite vget_vput. case_if; [intros [= <-]; lia|apply lv_naks0].
  - right. split; [done|]. exists now. split; [|lia]. apply vget_vput_eq. by rewrite (ri_naks _ _ lv_rings0).
Qed.

Definition handed (ds : list (list Z * Z)) (s : Z) (out : CastRecv) : Prop :=
  match out with Data h p => exists d, In d ds /\ record_of d.1 = Some (s, h, p) | _ => False end.

Lemma ahead_window inbox ahead s : Forall2 arrives inbox ahead -> In s ahead -> in_window s.
Proof.
  induction 1 as [|d x inbox ahead Hd Hl IH]; [done|]. intros [->|Hi]; [|by apply IH]. by destruct Hd as (? & ? & _ & ? & _).
Qed.

(** Moving to the next record. *)
Lemma live_next ds inbox ahead r r' : live_from (rv_expected_seq r + 1) ds inbox ahead r -> in_window (rv_expected_seq r) -> ~ In (rv_expected_seq r) ahead ->
  rings_ok ds r' -> rv_expected_seq r' = rv_expected_seq r + 1 -> rv_fault r' = None -> rv_reconnect r' = None ->
  (forall s, s <> rv_expected_seq r -> in_window s -> vget (rv_reorder_seqs r') (slot_of s) = vget (rv_reorder_seqs r) (slot_of s)) ->
  (forall i x, vget (rv_reorder_seqs r') i = Some x -> x = 0 \/ vget (rv_reorder_seqs r) i = Some x) ->
  rv_nak_sent_at r' = vput (rv_nak_sent_at r) (slot_of (rv_expected_seq r)) 0 -> rv_nak_retries_on_oldest r' = 0 ->
  rv_nak_debounce_ns r' = rv_nak_debounce_ns r -> rv_max_nak_retries r' = rv_max_nak_retries r -> live ds inbox ahead r'.
Proof.
  intros [] Hw Hni Hri He Hf Hrc Hseq Hsub Hnak Hret Hdb Hmx. unfold live. constructor; rewrite ?He, ?Hdb, ?Hmx; try done.
  - unfold in_window in Hw. lia.
  - intros i x Hx. destruct (Hsub _ _ Hx) as [|Hx']; [by left|by eapply lv_seqs0].
  - intros s Hs. rewrite Hseq by (unfold in_window; lia). apply lv_cover0. lia.
  - intros s Hs. destruct (lv_new0 s Hs) as [H1 H2]. assert (s <> rv_expected_seq r) by (by intros ->). split; [lia|].
    rewrite Hseq; [done|done|]. apply (ahead_window inbox ahead s); done.
  - intros i x. rewrite Hnak, vget_vput. case_if; [intros [= <-]; lia|apply lv_naks0].
  - by left.
Qed.

(** A record from the socket: handed on, or buffered without a conflict. *)
Lemma record_live ds d inbox s ahead r : live ds (d :: inbox) (s :: ahead) r ->
  exists hdr payload out naks r', record_of d.1 = Some (s, hdr, payload) /\ on_record d.2 d.1 hdr payload s r = Ok (out, naks, r') /\
    live (ds ++ [d]) inbox ahead r' /\
    (out = None /\ rv_expected_seq r' = rv_expected_seq r \/
     exists o, out = Some o /\ handed (ds ++ [d]) (rv_expected_seq r) o /\ rv_expected_seq r' = rv_expected_seq r + 1).
Proof.
  intros Hlv. pose proof Hlv as []. inversion lv_inbox0 as [|? ? ? ? Hd Hin]; subst. destruct Hd as (hdr & payload & Hrec & Hw & Hsz & Hnow).
  apply NoDup_cons in lv_ahead0 as [Hni Hnd]. destruct (lv_new0 s ltac:(by left)) as [Hge Hnr]. pose proof (slot_range s) as Hslot.
  pose proof lv_rings0 as [Hl1 Hl2 Hl3 _]. pose proof (rings_more ds [d] r lv_rings0) as Hmore.
  assert (Z.to_nat (Z.of_nat HEADER_SIZE + zlen payload) = (HEADER_SIZE + length payload)%nat) as Etot by (unfold zlen; lia).
  rewrite list_elem_of_In in Hni. exists hdr, payload. unfold on_record. fold (slot_of s).
  replace (rv_expected_seq r =? 0) with false by (symmetry; apply Z.eqb_neq; lia).
  replace ((s <? rv_expected_seq r) && (rv_expected_seq r - s >? 100)) with false by (symmetry; apply andb_false_iff; left; apply Z.ltb_ge; lia).
  replace (s <? rv_expected_seq r) with false by (symmetry; apply Z.ltb_ge; lia).
  destruct (s =? rv_expected_seq r) eqn:Es; bool_to_prop.
  - subst s. cbn [rv_set rv_nak_sent_at]. rewrite vset_ok by lia. cbn [mbind Res_bind]. eexists (Some (Data hdr payload)), [], _.
    split; [done|]. split; [done|]. rewrite wrap_u64_id by (unfold in_window in Hw; width_lia). split.
    + apply (live_next _ _ _ r); try done; cbn; [|by apply (rings_eq _ r); cbn; rewrite ?zlen_vput|by right].
      constructor; try done; [|intros x Hx; apply lv_new0; by right]. intros x Hx. destruct (lv_cover0 x ltac:(lia)) as [?|[<-|?]]; [by left|lia|by right].
    + right. eexists. split; [done|]. split; [|done]. exists d. split; [apply in_app_iff; right; by left|done].
  - destruct (vget_is_some (rv_reorder_seqs r) (slot_of s)) as [x Ex]; [lia|]. cbn [rv_set rv_reorder_seqs]. rewrite (vindex_some _ _ _ Ex). cbn [mbind Res_bind].
    assert (x = 0) as ->.
    { destruct (lv_seqs0 _ _ Ex) as [|Hxw]; [done|]. assert (slot_of x = slot_of s) as Esl.
      { destruct (decide (x = 0)) as [->|Hx0]; [unfold in_window in Hxw; lia|]. destruct (vget_is_some (rv_reorder_frames r) (slot_of s)) as [f Ef]; [lia|].
        by destruct (ri_slots _ _ lv_rings0 _ _ _ Ex Ef Hx0) as [-> _]. }
      apply (window_slots x s Hxw Hw) in Esl as ->. done. }
    change (negb ((0 =? 0) || (0 =? s))) with false. rewrite andb_false_r, Etot. rewrite (proj2 (Z.leb_le _ _) Hsz). rewrite !vset_ok by (cbn; lia). cbn [mbind Res_bind].
    match goal with |- context [maybe_nak d.2 ?x] => set (r1 := x) end.
    assert (live (ds ++ [d]) inbox ahead r1) as Hlv1.
    { constructor; cbn; try done.
      - eapply (rings_buffer ds r); done.
      - intros i x. rewrite vget_vput. case_if; [intros [= <-]; by right|apply lv_seqs0].
      - intros x Hx. rewrite vget_vput. destruct (decide (x = s)) as [->|Hne].
        + left. by rewrite Z.eqb_refl, (proj2 (Z.leb_le _ _)), (proj2 (Z.ltb_lt _ _)) by lia.
        + destruct (lv_cover0 x Hx) as [Hx'|[?|?]]; [left|done|by right]. replace (slot_of s =? slot_of x) with false; [done|].
          symmetry. apply Z.eqb_neq. intros E. apply Hne. symmetry. apply window_slots; [done|unfold in_window; lia|done].
      - intros x Hx. destruct (lv_new0 x ltac:(by right)) as [H1 H2]. split; [done|]. rewrite vget_vput. case_if; [|done]. intros [= ->]. done. }
    destruct (nak_live _ _ _ _ _ d.2 Hlv1 Hnow) as (naks & r' & -> & Hlv' & He'). cbn [mbind Res_bind].
    eexists _, naks, r'. split; [done|]. split; [done|]. rewrite (lv_fault _ _ _ _ _ Hlv'). split; [|by left].
    unfold live. rewrite He'. done.
Qed.

(** With the socket dry, the ring holds the next record or the window is done. *)
Lemma drain_live ds r : live ds [] [] r ->
  exists out r', drain_ring r = Ok (out, r') /\ live ds [] [] r' /\
    (handed ds (rv_expected_seq r) out /\ rv_expected_seq r' = rv_expected_seq r + 1 \/
     out = Empty /\ rv_expected_seq r = first + n /\ rv_expected_seq r' = first + n).
Proof.
  intros Hlv. pose proof Hlv as []. unfold drain_ring. set (e := rv_expected_seq r) in *. pose proof (slot_range e) as Hslot.
  pose proof lv_rings0 as [Hl1 Hl2 Hl3 Hsl]. replace (e =? 0) with false by (symmetry; apply Z.eqb_neq; lia).
  destruct (vget_is_some (rv_reorder_seqs r) (slot_of e)) as [x Ex]; [lia|]. fold (slot_of e). rewrite (vindex_some _ _ _ Ex). cbn [mbind Res_bind].
  destruct (decide (e = first + n)) as [Ee|Hne].
  - replace (x =? e) with false; [eexists Empty, r; split; [done|]; split; [done|by right]|].
    symmetry. apply Z.eqb_neq. intros ->. destruct (lv_seqs0 _ _ Ex) as [|Hw]; [lia|unfold in_window in Hw; lia].
  - assert (in_window e) as Hw by (unfold in_window; lia). destruct (lv_cover0 e ltac:(lia)) as [Hx|[]]. rewrite Ex in Hx. injection Hx as ->.
    rewrite Z.eqb_refl. destruct (vget_is_some (rv_reorder_frames r) (slot_of e)) as [f Ef]; [lia|]. rewrite (vindex_some _ _ _ Ef). cbn [mbind Res_bind].
    destruct (Hsl _ _ _ Ex Ef ltac:(lia)) as (_ & d & hdr & payload & Hi & Hrec & Hf & Hp). rewrite Hf, !vset_ok by lia. cbn [mbind Res_bind].
    eexists _, _. split; [done|]. rewrite wrap_u64_id by (unfold in_window in Hw; width_lia). split.
    + apply (live_next _ _ _ r); try done.
      * constructor; try done. intros s Hs. apply lv_cover0. lia.
      * by intros [].
      * eapply (rings_clear ds r); [done|done|done|]. cbn. apply zlen_vput.
      * intros s Hse Hsw. cbn. rewrite vget_vput. replace (slot_of e =? slot_of s) with false; [done|]. symmetry. apply Z.eqb_neq. intros E.
        apply Hse. symmetry. by apply window_slots.
      * intros i y. cbn. rewrite vget_vput. case_if; [intros [= <-]; by left|by right].
    + left. split; [|done]. exists d. by rewrite Hp.
Qed.

Lemma recv_live inbox : forall ds ahead r, live ds inbox ahead r ->
  exists out naks rest r' used ahead', recv_loop inbox r = Ok (out, naks, rest, r') /\ inbox = used ++ rest /\ live (ds ++ used) rest ahead' r' /\
    (handed (ds ++ used) (rv_expected_seq r) out /\ rv_expected_seq r' = rv_expected_seq r + 1 \/
     out = Empty /\ rv_expected_seq r = first + n /\ rv_expected_seq r' = first + n).
Proof.
  induction inbox as [|[bytes now] inbox IH]; intros ds ahead r Hlv.
  - pose proof (lv_inbox _ _ _ _ _ Hlv) as Hin. inversion Hin; subst. destruct (drain_live ds r Hlv) as (out & r' & Ed & Hlv' & Hout).
    exists out, [], [], r', [], []. cbn [recv_loop]. rewrite Ed. rewrite !app_nil_r. by split_and!.
  - pose proof (lv_inbox _ _ _ _ _ Hlv) as Hin. inversion Hin as [|? s ? ahead1]; subst.
    destruct (record_live _ _ _ _ _ _ Hlv) as (hdr & payload & out & naks & r1 & Hrec & Hon & Hlv1 & Hout). cbn [fst snd] in Hrec, Hon.
    rewrite (recv_loop_record _ _ _ _ _ _ _ Hrec), Hon. cbn [mbind Res_bind]. destruct Hout as [[-> He]|(o & -> & Hh & He)].
    + destruct (IH _ _ _ Hlv1) as (out & more & rest & r' & used & ahead' & -> & Eu & Hlv' & Hout). cbn [mbind Res_bind].
      exists out, (naks ++ more), rest, r', ((bytes, now) :: used), ahead'. rewrite <- app_assoc in Hlv', Hout. rewrite He in Hout.
      split; [done|]. split; [by rewrite Eu|]. by split.
    + exists o, naks, inbox, r1, [(bytes, now)], ahead1. split; [done|]. split; [done|]. split; [done|by left].
Qed.

(** Calling until nothing comes. *)
Fixpoint poll_all (fuel : nat) (inbox : list (list Z * Z)) (r : CastReceiver) : Res (list (WalHeader * list Z) * CastRecv * CastReceiver) :=
  match fuel with
  | O => Diverged
  | S fuel =>
      '(out, _, rest, r) ← try_recv_with inbox r;
      match out with
      | Data h p => '(dl, last, r) ← poll_all fuel rest r; Ok ((h, p) :: dl, last, r)
      | _ => Ok ([], out, r)
      end
  end.

Lemma poll_live fuel : forall ds inbox ahead r, live ds inbox ahead r -> first + n - rv_expected_seq r < Z.of_nat fuel ->
  exists dl r', poll_all fuel inbox r = Ok (dl, Empty, r') /\ rv_expected_seq r' = first + n /\ zlen dl = first + n - rv_expected_seq r /\
    forall i h p, dl !! i = Some (h, p) -> exists d, In d (ds ++ inbox) /\ record_of d.1 = Some (rv_expected_seq r + Z.of_nat i, h, p).
Proof.
  induction fuel as [|fuel IH]; intros ds inbox ahead r Hlv Hf; [pose proof (lv_expected _ _ _ _ _ Hlv); lia|].
  destruct (recv_live inbox ds ahead r Hlv) as (out & naks & rest & r1 & used & ahead' & Hrun & -> & Hlv1 & Hout).
  cbn [poll_all]. unfold try_recv_with. rewrite (lv_fault _ _ _ _ _ Hlv), (lv_reconnect _ _ _ _ _ Hlv), Hrun. cbn [mbind Res_bind].
  destruct Hout as [[Hh He]|[-> He]].
  - destruct out as [|h p| |]; try done. destruct Hh as (d & Hi & Hrec). destruct (IH _ _ _ _ Hlv1 ltac:(lia)) as (dl & r' & -> & He' & Hlen & Hdl).
    cbn [mbind Res_bind]. exists ((h, p) :: dl), r'. split; [done|]. split; [done|]. split; [unfold zlen in *; cbn; lia|].
    intros [|i] h' p' E.
    + injection E as <- <-. exists d. rewrite Z.add_0_r. split; [|done]. rewrite app_assoc. apply in_app_iff. by left.
    + destruct (Hdl i h' p' E) as (d' & Hi' & Hrec'). exists d'. rewrite <- app_assoc in Hi'. split; [done|]. rewrite Hrec', He. do 3 f_equal. lia.
  - destruct He as [He He']. exists [], r1. split; [done|]. split; [done|]. split; [unfold zlen; cbn; lia|by intros []].
Qed.

End Live.
