(* ===== verification/CastClaims.v ===== *)
(** * CastClaims: what the cast promises

    [receiver_in_order]: whatever the network does, what the receiver hands on
    is the sender's stream without gap, repetition or alteration.
    [receiver_catches_up]: when the network has brought every record of a
    window in any order, all of them are handed on.  [missing_run_exact]: a
    request names the gap in front of the receiver. *)

From S2P Require Import Prelude Hash Frames Wal WalRead WalInv WalClaims Cast CastInv CastLive.

Section Receiver.
Context `{Crc32c}.

Definition delivered (out : CastRecv) : list (WalHeader * list Z) := match out with Data h p => [(h, p)] | _ => [] end.

(** Calls of [try_recv_with]: each sees the datagrams that wait, none more than
    a hundred records behind the one expected, and takes some of them.  The
    relation keeps the datagrams taken and the records handed on. *)
Inductive receiving (r0 : CastReceiver) : list (list Z * Z) -> list (WalHeader * list Z) -> CastReceiver -> Prop :=
| rx_start : receiving r0 [] [] r0
| rx_call ds dl r inbox out naks used rest r' :
    receiving r0 ds dl r -> timely (rv_expected_seq r) inbox -> try_recv_with inbox r = Ok (out, naks, rest, r') -> inbox = used ++ rest ->
    receiving r0 (ds ++ used) (dl ++ delivered out) r'.

(** A new receiver takes the first record it sees as the start; one that was
    reset resumes behind the tip of the replay. *)
Inductive starting : CastReceiver -> Prop :=
| start_new debounce retries : starting (CastReceiver_new debounce retries)
| start_reset tip r0 ds dl r :
    starting r0 -> receiving r0 ds dl r -> 0 <= tip <= I64_MAX -> starting (reset_after_replay tip r).

Lemma call_ok ds r inbox out naks used rest r' :
  receiver_ok ds r -> timely (rv_expected_seq r) inbox -> try_recv_with inbox r = Ok (out, naks, rest, r') -> inbox = used ++ rest ->
  receiver_ok (ds ++ used) r' /\ delivers (ds ++ used) r r' out.
Proof.
  intros Hok Ht Hcall ->. destruct (recv_spec _ ds r Ht Hok) as (out' & naks' & rest' & r2 & used' & E & Eu & H1 & H2).
  rewrite E in Hcall. injection Hcall as -> -> -> ->. apply app_inv_tail in Eu as ->. done.
Qed.

Lemma receiving_ok r0 ds dl r : receiver_ok [] r0 -> receiving r0 ds dl r -> receiver_ok ds r.
Proof.
  intros H0. induction 1 as [|ds dl r inbox out naks used rest r' Hrx IH Ht Hcall Eu]; [done|].
  by eapply call_ok.
Qed.

Lemma new_ok debounce retries : receiver_ok [] (CastReceiver_new debounce retries).
Proof.
  constructor; [|by constructor|cbn; width_lia]. constructor; try (by apply zlen_replicate). intros i s f Hs _ Hn. exfalso. apply Hn.
  cbn [CastReceiver_new rv_reorder_seqs] in Hs. apply vget_in, list_elem_of_In, elem_of_replicate in Hs. by destruct Hs.
Qed.

Lemma reset_ok tip ds r : 0 <= tip <= I64_MAX -> rings_ok ds r -> receiver_ok [] (reset_after_replay tip r).
Proof.
  intros Htip [Hl1 Hl2 Hl3 _]. constructor; [constructor|by constructor|]; cbn; rewrite ?zlen_map; try done.
  - intros i s f Hs _ Hn. exfalso. apply Hn. apply vget_in, in_map_iff in Hs as (? & <- & _). done.
  - rewrite wrap_u64_id by width_lia. lia.
Qed.

Lemma starting_ok r0 : starting r0 -> receiver_ok [] r0.
Proof.
  induction 1 as [|tip r0 ds dl r Hst IH Hrx Htip]; [apply new_ok|].
  eapply reset_ok; [done|]. apply (receiving_ok r0 ds dl r) in Hrx; [apply Hrx|done].
Qed.

(** The records handed on so far follow each other. *)
Definition in_order (r0 : CastReceiver) (ds : list (list Z * Z)) (dl : list (WalHeader * list Z)) (first : Z) : Prop :=
  (rv_expected_seq r0 <> 0 -> first = rv_expected_seq r0) /\
  forall i h p, dl !! i = Some (h, p) -> exists d, In d ds /\ record_of d.1 = Some (first + Z.of_nat i, h, p).

Lemma in_order_more r0 ds ds' dl first : in_order r0 ds dl first -> in_order r0 (ds ++ ds') dl first.
Proof.
  intros [Hf Hd]. split; [done|]. intros i h p Hi. destruct (Hd i h p Hi) as (d & ? & ?). exists d. split; [apply in_app_iff; by left|done].
Qed.

Record progress (r0 : CastReceiver) (ds : list (list Z * Z)) (dl : list (WalHeader * list Z)) (r : CastReceiver) (first : Z) : Prop := {
  pg_order : in_order r0 ds dl first;
  pg_none : dl = [] -> rv_expected_seq r = rv_expected_seq r0;
  pg_some : dl <> [] -> rv_expected_seq r = first + zlen dl /\ rv_expected_seq r <> 0;
}.

Lemma progress_none r0 ds ds' dl r r' first : progress r0 ds dl r first -> rv_expected_seq r' = rv_expected_seq r -> progress r0 (ds ++ ds') dl r' first.
Proof. intros [Ho Hn Hs] E. constructor; rewrite ?E; [by apply in_order_more|done|done]. Qed.

Lemma progress_data r0 ds ds' dl r r' first s d h p : progress r0 ds dl r first -> 0 < s -> In d (ds ++ ds') -> record_of d.1 = Some (s, h, p) ->
  rv_expected_seq r = 0 \/ rv_expected_seq r = s -> rv_expected_seq r' = s + 1 -> exists first, progress r0 (ds ++ ds') (dl ++ [(h, p)]) r' first.
Proof.
  intros [Ho Hn Hs] Hp Hi Hrec He He'. pose proof (in_order_more _ _ ds' _ _ Ho) as [Hf Hd]. destruct dl as [|x dl].
  - exists s. specialize (Hn eq_refl). constructor; cbn; [split|done|].
    + intros Hne. destruct He as [He|He]; congruence.
    + intros [|i] h' p' E; [|done]. injection E as <- <-. exists d. by rewrite Z.add_0_r.
    + intros _. rewrite He'. unfold zlen. cbn. lia.
  - exists first. destruct (Hs ltac:(done)) as [Hs1 Hs2]. assert (s = first + zlen (x :: dl)) as -> by lia. constructor; [split; [done|]|by destruct dl|].
    + intros i h' p' E. destruct (decide (i < length (x :: dl))%nat) as [Hlt|Hge].
      * rewrite lookup_app_l in E by done. by apply Hd.
      * rewrite lookup_app_r in E by lia. destruct (i - length (x :: dl))%nat eqn:Ei; [|done]. injection E as <- <-. exists d. split; [done|].
        rewrite Hrec. unfold zlen. do 3 f_equal. lia.
    + intros _. rewrite He'. unfold zlen. rewrite length_app. cbn [length]. unfold zlen in Hp. cbn [length] in Hp. lia.
Qed.

Lemma receiving_progress r0 ds dl r : receiver_ok [] r0 -> receiving r0 ds dl r -> exists first, progress r0 ds dl r first.
Proof.
  intros H0. induction 1 as [|ds dl r inbox out naks used rest r' Hrx [first IH] Ht Hcall Eu].
  - exists (rv_expected_seq r0). constructor; [split; [done|by intros []]|done|done].
  - pose proof (receiving_ok _ _ _ _ H0 Hrx) as Hok. destruct (call_ok _ _ _ _ _ _ _ _ Hok Ht Hcall Eu) as [Hok' Hdel].
    destruct out as [|h p| |]; cbn in Hdel |- *; rewrite ?app_nil_r; try (exists first; by eapply progress_none).
    destruct Hdel as (s & d & Hi & Hrec & He & He'). eapply progress_data; try done.
    pose proof (numbered_in _ d s (ro_numbered _ _ Hok') Hi (seq_of_record _ _ _ _ Hrec)). lia.
Qed.

(** C39: The receiver hands on the stream in order.  Whatever datagrams reach
    it - lost, repeated, reordered, corrupted or forged without a valid
    checksum, with heartbeats between them - as long as none is more than a
    hundred records behind the one expected, the records handed on carry
    consecutive sequence numbers, from the one behind the tip when the receiver
    was reset, and each is, header and payload, the record of a datagram that
    arrived with a valid checksum; and no call panics or fails to return. *)
Theorem receiver_in_order r0 ds dl r inbox :
  starting r0 -> receiving r0 ds dl r -> timely (rv_expected_seq r) inbox ->
  (exists first, in_order r0 ds dl first /\ (dl <> [] -> rv_expected_seq r = first + zlen dl)) /\
  exists out naks used rest r', try_recv_with inbox r = Ok (out, naks, rest, r') /\ inbox = used ++ rest.
Proof.
  intros H0%starting_ok Hrx Htl. split.
  - destruct (receiving_progress _ _ _ _ H0 Hrx) as [first [Ho _ Hs]]. exists first. split; [done|]. intros Hn. by apply Hs.
  - destruct (recv_spec inbox ds r Htl (receiving_ok _ _ _ _ H0 Hrx)) as (out & naks & rest & r' & used & -> & Eu & _).
    by exists out, naks, used, rest, r'.
Qed.

(** C40: The receiver catches up.  After a reset behind [tip], when the socket
    holds each of the next [n] records once, in any order whatever, no more
    than the ring has slots and all handled within one debounce interval, then
    calling until nothing comes hands on all [n] of them, in sequence, and ends
    without having given up or asked for a reconnect. *)
Theorem receiver_catches_up tip r0 ds dl r n inbox seqs :
  starting r0 -> receiving r0 ds dl r -> 0 <= tip -> 0 <= n <= REORDER_CAPACITY -> tip + 1 + n <= I64_MAX ->
  0 <= rv_nak_debounce_ns r <= I64_MAX -> 1 <= rv_max_nak_retries r ->
  Forall2 (arrives (tip + 1) n (rv_nak_debounce_ns r)) inbox seqs -> seqs ≡ₚ zrange (tip + 1) (tip + 1 + n) ->
  exists dl r', poll_all (S (Z.to_nat n)) inbox (reset_after_replay tip r) = Ok (dl, Empty, r') /\ zlen dl = n /\
    rv_expected_seq r' = tip + 1 + n /\
    forall i h p, dl !! i = Some (h, p) -> exists d, In d inbox /\ record_of d.1 = Some (tip + 1 + Z.of_nat i, h, p).
Proof.
  intros H0%starting_ok Hrx Htip Hn Hlast Hdeb Hmax Hin Hperm.
  pose proof (receiving_ok _ _ _ _ H0 Hrx) as [Hri _ _].
  pose proof (reset_ok tip ds r ltac:(lia) Hri) as [Hri' _ _].
  assert (rv_expected_seq (reset_after_replay tip r) = tip + 1) as He by (cbn; apply wrap_u64_id; width_lia).
  assert (live (tip + 1) n (rv_nak_debounce_ns r) [] inbox seqs (reset_after_replay tip r)) as Hlv.
  { unfold live. rewrite He. constructor; rewrite ?He; try done; cbn.
    - lia.
    - intros i x Hx. left. apply vget_in, in_map_iff in Hx as (? & <- & _). done.
    - intros s Hs. right. apply list_elem_of_In. rewrite Hperm. apply list_elem_of_In, in_zrange. lia.
    - rewrite Hperm. apply zrange_nodup.
    - intros s Hs. apply list_elem_of_In in Hs. rewrite Hperm in Hs. apply list_elem_of_In, in_zrange in Hs. split; [lia|].
      intros Hx. apply vget_in, in_map_iff in Hx as (? & <- & _). lia.
    - intros i x Hx. apply vget_in, in_map_iff in Hx as (? & <- & _). lia.
    - by left. }
  destruct (poll_live (tip + 1) n (rv_nak_debounce_ns r) ltac:(lia) Hn Hlast Hdeb (S (Z.to_nat n)) [] inbox seqs _ Hlv) as (dl' & r' & E & He' & Hl & Hd); [lia|].
  rewrite He in *. exists dl', r'. split; [done|]. split; [lia|]. split; [done|]. exact Hd.
Qed.

(** A request names the gap.  The run a receiver asks for starts at the
    record it waits for, every number in it is missing from the ring, it ends
    at a buffered record, at the newest known one or after a ring's length, and
    it is found in a bounded number of steps whatever number a heartbeat
    claims; nothing is asked for only when nothing known is missing. *)
Theorem missing_run_exact r0 ds dl r :
  starting r0 -> receiving r0 ds dl r -> 
  exists run, oldest_missing_run r = Ok run /\
    match run with
    | None => rv_expected_seq r = 0 \/ rv_highest_seen r < rv_expected_seq r \/
        vget (rv_reorder_seqs r) (slot_of (rv_expected_seq r)) = Some (rv_expected_seq r)
    | Some (from, count) => from = rv_expected_seq r /\ 0 < count <= REORDER_CAPACITY + 1 /\ from + count <= rv_highest_seen r + 1 /\
        (forall s, from <= s < from + count -> vget (rv_reorder_seqs r) (slot_of s) <> Some s) /\
        (from + count <= rv_highest_seen r -> count <= REORDER_CAPACITY ->
         vget (rv_reorder_seqs r) (slot_of (from + count)) = Some (from + count))
    end.
Proof.
  intros H0%starting_ok Hrx. destruct (receiving_ok _ _ _ _ H0 Hrx) as [Hri _ He]. by eapply oldest_missing_spec.
Qed.

End Receiver.
