(* ===== verification/CastSend.v ===== *)
(** * CastSend: answering requests

    A sender publishes frames of a log and keeps some of them in its ring
    ([sending]); a request is answered from the ring or from what the log has
    kept on disk, byte for byte the frame that was sent ([nak_answered]). *)

From stdpp Require Import sorting.
From S2P Require Import Prelude Hash Frames Wal WalRead WalInv WalClaims Cast.

Section Sender.
Context `{Crc32c} `{HashIter}.

Definition framed_of (r : LogRec) : Framed := mkFramed (wire r) (lseq r).

(** A sender of the log [log]: it publishes records of the log, sends
    heartbeats and answers requests. *)
Inductive sending (log : list LogRec) : CastSender -> Prop :=
| snd_new now interval window : sending log (CastSender_new now interval window)
| snd_frame sent now r s b out s' : sending log s -> In r log -> send_framed sent now (framed_of r) s = Ok (b, out, s') -> sending log s'
| snd_tick sent now s b out s' : sending log s -> CastSender_tick sent now s = (b, out, s') -> sending log s'
| snd_nak d now sends nak s out s' : sending log s -> handle_nak d now sends nak s = Ok (out, s') -> sending log s'.

Definition send_slot (q : Z) : Z := Z.land q SEND_RING_MASK.

Lemma send_slot_mod q : send_slot q = q mod SEND_RING_CAPACITY.
Proof. unfold send_slot, SEND_RING_MASK, SEND_RING_CAPACITY. change (4096 - 1) with (Z.ones 12). by rewrite Z.land_ones by lia. Qed.

Lemma send_slot_range q : 0 <= send_slot q < SEND_RING_CAPACITY.
Proof. rewrite send_slot_mod. by apply Z.mod_pos_bound. Qed.

Record ring_sizes (s : CastSender) : Prop := {
  rs_seqs : zlen (sd_ring_seqs s) = SEND_RING_CAPACITY;
  rs_frames : zlen (sd_ring_frames s) = SEND_RING_CAPACITY;
  rs_retx : zlen (sd_ring_last_retx_ns s) = SEND_RING_CAPACITY;
}.

(** A slot with a number holds that record's frame. *)
Definition ring_holds (log : list LogRec) (s : CastSender) : Prop :=
  forall i q f, vget (sd_ring_seqs s) i = Some q -> vget (sd_ring_frames s) i = Some f -> q <> 0 -> f <> [] ->
    exists r, In r log /\ lseq r = q /\ f = wire r.

Definition sender_ok (log : list LogRec) (s : CastSender) : Prop := ring_sizes s /\ ring_holds log s.

Lemma sender_ok_ring log s s' : sender_ok log s -> sd_ring_seqs s' = sd_ring_seqs s -> sd_ring_frames s' = sd_ring_frames s ->
  zlen (sd_ring_last_retx_ns s') = zlen (sd_ring_last_retx_ns s) -> sender_ok log s'.
Proof. intros [[] Hh] Es Ef Er. split; [by constructor; rewrite ?Es, ?Ef, ?Er|]. unfold ring_holds. by rewrite Es, Ef. Qed.

Lemma send_framed_ok log sent now r s : sender_ok log s -> In r log ->
  exists b out s', send_framed sent now (framed_of r) s = Ok (b, out, s') /\ sender_ok log s'.
Proof.
  intros [[H1 H2 H3] Hh] Hi. unfold send_framed. cbn [framed_of fr_seq fr_wire]. fold (send_slot (lseq r)).
  pose proof (send_slot_range (lseq r)) as Hslot.
  assert (forall q f, (q = lseq r /\ f = wire r \/ q = 0) -> sender_ok log (sd_with_ring (vput (sd_ring_seqs s) (send_slot (lseq r)) q)
    (vput (sd_ring_frames s) (send_slot (lseq r)) f) s)) as Hput.
  { intros q f Hq. split; [constructor; cbn; rewrite ?zlen_vput; done|]. intros i x g. cbn. rewrite !vget_vput, H1, H2.
    case_if; [|apply Hh]. intros [= <-] [= <-] Hx _. destruct Hq as [[-> ->]|?]; [|done]. by exists r. }
  destruct (_ <=? SEND_RING_FRAME_BYTES); rewrite !vset_ok by lia; cbn [mbind Res_bind]; destruct sent; eexists _, _, _; (split; [done|]).
  - eapply sender_ok_ring; [apply (Hput (lseq r) (wire r)); by left|done|done|done].
  - apply (Hput (lseq r) (wire r)). by left.
  - eapply sender_ok_ring; [apply (Hput 0 []); by right|done|done|done].
  - apply (Hput 0 []). by right.
Qed.

(** Answering one number changes only the times of retransmission. *)
Definition same_ring (s s' : CastSender) : Prop :=
  sd_ring_seqs s' = sd_ring_seqs s /\ sd_ring_frames s' = sd_ring_frames s /\ zlen (sd_ring_last_retx_ns s') = zlen (sd_ring_last_retx_ns s) /\
  sd_retx_dedup_window_ns s' = sd_retx_dedup_window_ns s.

Lemma retransmit_ring d now out sends s q st : retransmit d now (out, sends, s) q = Ok st -> same_ring s st.2.
Proof.
  unfold retransmit. intros Hr. res_inv. case_if_in Hr; [by res_inv|]. res_inv.
  assert (forall bytes st', match sends with
      | false :: sends => Ok (out, sends, s)
      | _ => retx ← vset (sd_ring_last_retx_ns s) (Z.land q SEND_RING_MASK) now; Ok (out ++ [bytes], tl sends, sd_with_retx retx s)
      end = Ok st' -> same_ring s st'.2) as Hsend.
  { intros bytes st' Hs. assert (forall retx, vset (sd_ring_last_retx_ns s) (Z.land q SEND_RING_MASK) now = Ok retx ->
      same_ring s (sd_with_retx retx s)) as Hv.
    { unfold vset. intros retx Hv. case_if_in Hv; [|done]. injection Hv as <-. unfold same_ring. cbn. by rewrite zlen_vput. }
    destruct sends as [|[] sends]; res_inv; [by apply Hv|by apply Hv|done]. }
  case_if_in Hr; [by eapply Hsend|]. res_inv. destruct x2; [by eapply Hsend|by res_inv].
Qed.

Lemma handle_nak_ok log d now sends nak s out s' : sender_ok log s -> handle_nak d now sends nak s = Ok (out, s') -> sender_ok log s'.
Proof.
  intros Hok Hn. unfold handle_nak in Hn. res_inv. destruct x as [[o sd] s1]. injection Hn as <- <-.
  revert E. generalize (@nil (list Z)) as o0. revert sends s Hok. induction (zrange 0 _) as [|i l IH]; intros sd0 s Hok o0 E; cbn [rfold] in E; res_inv; [done|].
  destruct x as [[o1 sd1] s2]. apply retransmit_ring in E0 as (E1 & E2 & E3 & _). cbn in E1, E2, E3. eapply (IH sd1 s2); [by eapply sender_ok_ring|exact E].
Qed.

(** ** A request within the acknowledged log *)

(** The slot of a number was not used for a retransmission just now. *)
Definition quiet (now : Z) (s : CastSender) (q : Z) : Prop :=
  forall last, vget (sd_ring_last_retx_ns s) (send_slot q) = Some last ->
    last = 0 \/ sd_retx_dedup_window_ns s <= sat_u64 (now - last).

Lemma sending_ok log s : sending log s -> sender_ok log s.
Proof.
  induction 1 as [now interval window|sent now r s b out s' Hs IH Hi Hsend|sent now s b out s' Hs IH Ht|d now sends nak s out s' Hs IH Hn].
  - split; [by constructor; apply zlen_replicate|]. intros i q f Hq _ Hn. exfalso. apply Hn.
    apply vget_in, list_elem_of_In, elem_of_replicate in Hq. by destruct Hq.
  - destruct (send_framed_ok log sent now r s IH Hi) as (b' & out' & s1 & E & Hok). rewrite E in Hsend. by injection Hsend as _ _ <-.
  - unfold CastSender_tick in Ht. destruct (_ >=? _) in Ht; [destruct sent|]; injection Ht as ? ? ?; subst s'; by eapply sender_ok_ring.
  - by eapply handle_nak_ok.
Qed.

Lemma consecutive_inj first rs r r' : consecutive first rs -> In r rs -> In r' rs -> lseq r = lseq r' -> r = r'.
Proof.
  revert first. induction rs as [|x rs IH]; intros first; [done|]. cbn. intros [Hx Hc] [->|Hi] [->|Hi'] E; [done| | |by eapply IH].
  - pose proof (consecutive_range _ _ _ Hc Hi'). lia.
  - pose proof (consecutive_range _ _ _ Hc Hi). lia.
Qed.

Lemma holding_some q rs r : holding q rs = Some r -> In r rs /\ lseq r = q.
Proof. intros [Hi E]%find_some. split; [done|]. by apply Z.eqb_eq. Qed.

Lemma holding_hit q rs r : In r rs -> lseq r = q -> exists r', holding q rs = Some r'.
Proof. intros Hi Hq. unfold holding. destruct (List.find _ rs) as [r'|] eqn:E; [by exists r'|]. eapply find_none in E; [|exact Hi]. cbn in E. lia. Qed.

(** The retransmissions of other slots. *)
Definition other_slots (q : Z) (s s' : CastSender) : Prop :=
  sd_retx_dedup_window_ns s' = sd_retx_dedup_window_ns s /\
  forall i, i <> send_slot q -> vget (sd_ring_last_retx_ns s') i = vget (sd_ring_last_retx_ns s) i.

Lemma quiet_other now q q' s s' : other_slots q s s' -> send_slot q' <> send_slot q -> quiet now s' q' <-> quiet now s q'.
Proof. intros [Hw Hv] Hq. unfold quiet. by rewrite Hw, Hv. Qed.

Lemma near_slots q q' : 0 < q' - q < SEND_RING_CAPACITY -> send_slot q' <> send_slot q.
Proof.
  rewrite !send_slot_mod. unfold SEND_RING_CAPACITY. intros Hq E.
  assert ((q' - q) mod 4096 = 0) as Hz by (rewrite Zminus_mod, E; by rewrite Z.sub_diag). rewrite Z.mod_small in Hz by lia. lia.
Qed.

Section Answers.
Context (first : Z) (log P : list LogRec) (d : Disk) (now : Z).
Context (Hc : consecutive first log) (Hall : Forall rec_ok log) (HP : P `sublist_of` log).
Context (Hrd : forall q, read_record_at_seq q d = Ok (raw <$> holding q P)).

Lemma in_kept r : In r P -> In r log.
Proof. intros Hi. apply list_elem_of_In. eapply elem_of_sublist; [by apply list_elem_of_In|done]. Qed.

(** The answer to one number [q]: its record, or nothing. *)
Definition answers (out : list (list Z)) (s : CastSender) (q : Z) (res : Res (list (list Z) * list bool * CastSender)) : Prop :=
  exists rs s', res = Ok (out ++ map wire rs, [], s') /\ sender_ok log s' /\ other_slots q s s' /\
    (rs = [] \/ exists r, rs = [r] /\ In r log /\ lseq r = q /\ quiet now s q) /\
    (forall r, In r P -> lseq r = q -> quiet now s q -> In r rs).

Lemma answers_record out s q r : sender_ok log s -> In r log -> lseq r = q -> quiet now s q ->
  answers out s q (retx ← vset (sd_ring_last_retx_ns s) (send_slot q) now; Ok (out ++ [wire r], [], sd_with_retx retx s)).
Proof.
  intros Hok Hi Er Hq. pose proof Hok as [[H1 H2 H3] Hh]. pose proof (send_slot_range q). rewrite vset_ok by lia.
  exists [r], (sd_with_retx (vput (sd_ring_last_retx_ns s) (send_slot q) now) s). split; [done|].
  split; [eapply sender_ok_ring; [exact Hok|done|done|by cbn; rewrite zlen_vput]|]. split; [split; [done|]|split].
  - intros i Hi'. cbn. by rewrite vget_vput_ne.
  - right. by exists r.
  - intros r' Hi' Er' _. left. eapply consecutive_inj; [exact Hc|done|by apply in_kept|congruence].
Qed.

Lemma answers_nothing out s q : sender_ok log s -> (forall r, In r P -> lseq r = q -> ~ quiet now s q) -> answers out s q (Ok (out, [], s)).
Proof. intros Hok Hn. exists [], s. rewrite app_nil_r. do 3 (split; [done|]). split; [by left|]. intros r Hi Hr Hq. by destruct (Hn r Hi Hr). Qed.

(** The frame comes from the ring or from the disk. *)
Lemma retransmit_one out s q : sender_ok log s -> answers out s q (retransmit d now (out, [], s) q).
Proof.
  intros Hok. pose proof Hok as [[H1 H2 H3] Hh]. unfold retransmit. fold (send_slot q). pose proof (send_slot_range q) as Hs.
  destruct (vget_is_some (sd_ring_last_retx_ns s) (send_slot q) ltac:(lia)) as [last E1].
  destruct (vget_is_some (sd_ring_seqs s) (send_slot q) ltac:(lia)) as [rseq E2].
  destruct (vget_is_some (sd_ring_frames s) (send_slot q) ltac:(lia)) as [frame E3].
  rewrite (vindex_some _ _ _ E1). cbn [mbind Res_bind].
  destruct (negb (last =? 0) && (sat_u64 (now - last) <? sd_retx_dedup_window_ns s)) eqn:Eb.
  { apply answers_nothing; [done|]. intros r _ _ Hq. apply andb_true_iff in Eb as [Eb1 Eb2]. bool_to_prop. destruct (Hq _ E1); lia. }
  assert (quiet now s q) as Hq.
  { intros l El. rewrite E1 in El. injection El as <-. apply andb_false_iff in Eb as [Eb|Eb]; bool_to_prop; [left|right]; lia. }
  rewrite (vindex_some _ _ _ E2), (vindex_some _ _ _ E3). cbn [mbind Res_bind].
  destruct (negb (q =? 0) && (rseq =? q) && (zlen frame >? 0)) eqn:Ehit.
  - apply andb_prop in Ehit as [[Ez Eq]%andb_prop Ef]. assert (frame <> []) by (by intros ->). destruct (Hh _ _ _ E2 E3 ltac:(lia) ltac:(done)) as (r & Hi & Hr & ->).
    apply answers_record; [done|done|lia|done].
  - rewrite Hrd. cbn [mbind Res_bind]. destruct (holding q P) as [r|] eqn:Er; cbn [fmap option_fmap option_map].
    + apply holding_some in Er as [Hi Er]. apply in_kept in Hi. pose proof (answers_record out s q r Hok Hi Er Hq) as Ha.
      rewrite Forall_forall in Hall. destruct (Hall r) as (_ & Hz & _); [by apply list_elem_of_In|].
      unfold wire, encode_record in Ha. unfold wrap_u16 in Ha. by rewrite Z.mod_small in Ha by width_lia.
    + apply answers_nothing; [done|]. intros r Hi Hr _. destruct (holding_hit q P r Hi Hr) as [r' E]. congruence.
Qed.

Definition by_number (a b : LogRec) : Prop := lseq a < lseq b.

(** A run of numbers no longer than the ring, each slot used once. *)
Lemma retransmit_run n : forall k out s, sender_ok log s -> Z.of_nat n <= SEND_RING_CAPACITY ->
  exists rs s', rfold (fun st q => retransmit d now st q) (out, [], s) (seqZ k (Z.of_nat n)) = Ok (out ++ map wire rs, [], s') /\
    StronglySorted by_number rs /\
    (forall r, In r rs -> In r log /\ k <= lseq r < k + Z.of_nat n /\ quiet now s (lseq r)) /\
    (forall r, In r P -> k <= lseq r < k + Z.of_nat n -> quiet now s (lseq r) -> In r rs).
Proof.
  induction n as [|n IH]; intros k out s Hok Hn.
  { exists [], s. cbn. rewrite app_nil_r. split_and!; [done|constructor|done|]. intros. lia. }
  rewrite seqZ_cons by lia. cbn [rfold]. destruct (retransmit_one out s k Hok) as (rs1 & s1 & E1 & Hok1 & Hot & Hrs1 & Hin1).
  rewrite E1. cbn [mbind Res_bind]. replace (Z.pred (Z.of_nat (S n))) with (Z.of_nat n) by lia. replace (Z.succ k) with (k + 1) by lia.
  destruct (IH (k + 1) (out ++ map wire rs1) s1 Hok1 ltac:(lia)) as (rs2 & s2 & E2 & Hsort & Hrs2 & Hin2).
  assert (forall q, k + 1 <= q < k + 1 + Z.of_nat n -> quiet now s1 q <-> quiet now s q) as Hqt
    by (intros q Hq; apply (quiet_other now k); [done|apply near_slots; lia]).
  exists (rs1 ++ rs2), s2. rewrite E2, map_app, <- app_assoc. split; [done|]. split; [|split].
  - destruct Hrs1 as [->|(r & -> & _ & Hr & _)]; [done|]. cbn. constructor; [done|]. apply Forall_forall. intros x Hx%list_elem_of_In. destruct (Hrs2 x Hx) as (_ & ? & _). unfold by_number. lia.
  - intros r [Hr|Hr]%in_app_iff.
    + destruct Hrs1 as [->|(r1 & -> & Hi & Hr1 & Hq)]; [done|]. destruct Hr as [<-|[]]. rewrite Hr1. split_and!; [done|lia|lia|done].
    + destruct (Hrs2 r Hr) as (Hi & Hk & Hq). split_and!; [done|lia|lia|]. by apply Hqt.
  - intros r Hi Hk Hq. apply in_app_iff. destruct (decide (lseq r = k)) as [E|Hne]; [left; apply Hin1; by rewrite ?E in *|right].
    apply Hin2; [done|lia|]. apply Hqt; [lia|done].
Qed.

End Answers.

Lemma run_numbers from n : 0 <= from -> from + n <= U64_MAX -> map (fun i => sat_u64 (from + i)) (zrange 0 n) = seqZ from n.
Proof.
  intros Hf Hm. unfold zrange. rewrite Z.sub_0_r. trans (map (Z.add from) (seqZ 0 n)); [|etransitivity; [apply fmap_add_seqZ|by rewrite Z.add_0_r]].
  apply map_ext_in. intros i Hi. apply list_elem_of_In, elem_of_seqZ in Hi. apply sat_u64_id. width_lia.
Qed.

Lemma rfold_map {A B C} (g : A -> C) (f : B -> C -> Res B) xs b : rfold (fun b x => f b (g x)) b xs = rfold f b (map g xs).
Proof. revert b. induction xs as [|x xs IH]; intros b; [done|]. cbn. destruct (f b (g x)); cbn; [apply IH|done|done]. Qed.

(** C38: A request is answered with the records themselves.  Asked for any run
    of sequence numbers, a sender that published records of a log, sent
    heartbeats and answered requests answers at most the first ring of them,
    in order and each number once, with frames of its log byte for byte as
    they were appended, and never with another record that shares a slot.  Of
    the numbers in reach it leaves out those whose slot was used for a
    retransmission within the dedup window and those that are neither in its
    ring nor on disk any more: every acknowledged record that was appended
    less than the retention of the log ago, and whose slot is quiet, is among
    the answers. *)
Theorem nak_answered first clock log acked w d s now from count :
  wal_life first clock log acked w d -> sending (map fst log) s ->
  0 <= from -> 0 <= count -> from + Z.min count SEND_RING_CAPACITY <= U64_MAX ->
  exists rs s', handle_nak d now [] (mkNak from count) s = Ok (map wire rs, s') /\ StronglySorted by_number rs /\
    (forall r, In r rs -> In r (map fst log) /\ from <= lseq r < from + Z.min count SEND_RING_CAPACITY /\ quiet now s (lseq r)) /\
    (forall e, In e acked -> young clock e -> from <= lseq e.1 < from + Z.min count SEND_RING_CAPACITY -> quiet now s (lseq e.1) -> In e.1 rs).
Proof.
  intros Hw Hs Hf Hn Hm. destruct (life_reads _ _ _ _ _ _ Hw) as (W & P & HW & HP & Hyoung & Hack & _ & Hrd).
  destruct (life_log _ _ _ _ _ _ Hw) as (Hall & Hc & _). unfold handle_nak. cbn [nk_count nk_from_seq].
  rewrite (rfold_map (fun i => sat_u64 (from + i)) (fun st q => retransmit d now st q)), run_numbers by lia.
  assert (P `sublist_of` map fst log) as HP' by (destruct HW as [k ->]; by apply sublist_inserts_r).
  destruct (retransmit_run first (map fst log) P d now Hc Hall HP' Hrd (Z.to_nat (Z.min count SEND_RING_CAPACITY)) from [] s) as (rs & s' & E & Hsort & H1 & H2);
    [by apply sending_ok|unfold SEND_RING_CAPACITY in *; lia|]. rewrite Z2Nat.id in * by (unfold SEND_RING_CAPACITY in *; lia).
  exists rs, s'. rewrite E. split; [done|]. split; [done|]. split; [exact H1|]. intros e He Hy Hr Hq. destruct (Hack e He Hy) as [Hi HiW]. apply H2; auto.
Qed.

End Sender.
