(* ===== verification/CastExamples.v ===== *)
(** * CastExamples: a log and a stream at work

    A concrete CRC32C, a log that rotates, fails, crashes and is reopened, and
    a receiver behind a network that reorders; the theorems of the cast applied
    to them. *)

From stdpp Require Import sorting.
From S2P Require Import Prelude Hash Frames Messages Wal WalRead WalInv WalClaims Cast CastInv CastLive CastClaims CastSend.

(** The clock of the examples starts at zero. *)
#[export] Instance demo_window : Window := { window_start := 0 }.

Module CastDemo.

(** CRC32C, bit by bit, with the reflected Castagnoli polynomial. *)
Definition crc_bit (c : Z) : Z := if Z.odd c then Z.lxor (Z.shiftr c 1) 2197175160 else Z.shiftr c 1.
Definition crc_byte (c b : Z) : Z := Nat.iter 8 crc_bit (Z.lxor c b).
Definition crc32c (bs : list Z) : Z := Z.land (Z.lxor (fold_left crc_byte bs U32_MAX) U32_MAX) U32_MAX.

Lemma crc32c_u32 bs : in_u32 (crc32c bs).
Proof.
  unfold crc32c. generalize (Z.lxor (fold_left crc_byte bs U32_MAX) U32_MAX) as x. intros x. change U32_MAX with (Z.ones 32).
  rewrite Z.land_ones by lia. pose proof (Z.mod_pos_bound x (2 ^ 32) eq_refl). width_lia.
Qed.

#[local] Instance castagnoli : Crc32c := { compute_crc32 := crc32c; crc32_u32 := crc32c_u32 }.

(** The check value of the algorithm, over the digits 1 to 9. *)
Example crc_check : crc32c [49; 50; 51; 52; 53; 54; 55; 56; 57] = 3808858755.
Proof. vm_compute. reflexivity. Qed.

Definition cancel (ts : Z) : CancelRequest := mkCancelRequest 0 ts 42 1 0 99.
Definition pack (s : Z) : Framed := match Framed_pack (cancel s) s with Ok f => f | _ => mkFramed [] 0 end.

(** A log that starts at 7; four records fill a file. *)
Definition State : Type := WalWriter * Disk.
Definition idle : WalWriter := mkWriter 1 [] DevNull 0 None 0 None 0 0 0.
Definition opened (next : Z) (d : Disk) : State :=
  match WalWriter_new 100 300 d with Ok (inl w, d) => (set_next_seq next w, d) | _ => (idle, d) end.
Definition append (s : Z) (st : State) : State := ((append_framed (pack s) st.1).2, st.2).
Definition flush_at (now : Z) (faults : list Fault) (st : State) : State :=
  let '(_, s) := flush now (mkWorld st.1 st.2 faults) in (wd_writer s, wd_disk s).
Definition flush_with : list Fault -> State -> State := flush_at 100.

Definition st0 : State := opened 7 (mkDisk ∅ None).
(** Records 7 to 10 are flushed; the file rotates. *)
Definition st1 : State := flush_with [] (append 10 (append 9 (append 8 (append 7 st0)))).
Definition st2 : State := flush_with [] (append 11 st1).
(** Record 12 gets thirty bytes far. *)
Definition st3 : State := flush_with [Good; Bad 30] (append 12 st2).
(** A crash leaves half a header of it. *)
Definition st4 : State := opened 12 (crashed 88 st3.2).
Definition st5 : State := flush_with [] (append 12 st4).

Definition rec_of (s : Z) : LogRec := log_rec (cancel s) s.
Definition log (n : nat) : list LogRec := map rec_of (seqZ 7 (Z.of_nat n)).

(** Frames and records, as the model computes them. *)
Example demo_frames : length (fr_wire (pack 7)) = 80%nat /\ dk_segments st1.2 !! (7, 10) <> None /\
  (length ∘ fl_data <$> dk_active st3.2) = Some 110%nat /\ (length ∘ fl_data <$> dk_active st4.2) = Some 80%nat.
Proof. vm_compute. repeat split; discriminate. Qed.

Ltac by_eval := repeat match goal with |- _ /\ _ => split end; vm_compute; first [reflexivity | discriminate].

(** ** The log's life *)

Lemma append_session n D st s : wal_session 7 (log n) D st.1 st.2 ->
  s = 7 + zlen (log n) /\ log (S n) = log n ++ [log_rec (cancel s) s] /\ Framed_pack (cancel s) s = Ok (pack s) /\
  append_framed (pack s) st.1 = (inl tt, (append s st).1) /\ s < U64_MAX /\ zlen (wires (log (S n))) <= I64_MAX ->
  wal_session 7 (log (S n)) D (append s st).1 (append s st).2.
Proof.
  intros Hw (Es & -> & Hp & Ha & Hm & Hz). change (append s st).2 with st.2. subst s. by eapply ws_append.
Qed.

Lemma flush_session n D st faults : wal_session 7 (log n) D st.1 st.2 ->
  (flush 100 (mkWorld st.1 st.2 faults)).1 = inl tt -> wal_session 7 (log n) (log n) (flush_with faults st).1 (flush_with faults st).2.
Proof.
  intros Hw Hf. unfold flush_with, flush_at. destruct (flush _ _) as [r [w' d' fs]] eqn:E. cbn in Hf. subst r. eapply (ws_flush_ok _ 100); [exact Hw|done|exact E].
Qed.

Lemma crash_session n m k D st : wal_session 7 (log n) D st.1 st.2 -> ww_file_size st.1 <= k ->
  match WalWriter_new 100 300 (crashed k st.2) with Ok (inl _, _) => True | _ => False end ->
  read_from 0 (opened (7 + zlen (log m)) (crashed k st.2)).2 = Ok (map raw (log m), None) ->
  wal_session 7 (log m) (log m) (opened (7 + zlen (log m)) (crashed k st.2)).1 (opened (7 + zlen (log m)) (crashed k st.2)).2.
Proof.
  intros Hw Hk Ho Hr. unfold opened in *. destruct (WalWriter_new 100 300 (crashed k st.2)) as [[[w'|e] d']| |] eqn:E; try done.
  by eapply (ws_crash 7 k 100 300 (log n) D st.1 st.2).
Qed.

Lemma session0 : wal_session 7 (log 0) [] st0.1 st0.2.
Proof.
  eapply (ws_open 7 100 300); [done|done|]. vm_compute. reflexivity.
Qed.

Lemma session1 : wal_session 7 (log 4) (log 4) st1.1 st1.2.
Proof.
  apply (flush_session 4 []); [|by_eval].
  apply (append_session 3); [|by_eval]. apply (append_session 2); [|by_eval]. apply (append_session 1); [|by_eval]. apply (append_session 0); [|by_eval].
  exact session0.
Qed.

Lemma session2 : wal_session 7 (log 5) (log 5) st2.1 st2.2.
Proof. apply (flush_session 5 (log 4)); [|by_eval]. apply (append_session 4); [|by_eval]. exact session1. Qed.

Lemma session3 : wal_session 7 (log 6) (log 5) st3.1 st3.2.
Proof.
  eapply (ws_flush_failed 7 100 [Good; Bad 30] IoFailed); [apply (append_session 5 (log 5) st2 12); [exact session2|by_eval]|done|].
  vm_compute. reflexivity.
Qed.

Lemma session4 : wal_session 7 (log 5) (log 5) st4.1 st4.2.
Proof.
  apply (crash_session 6 5 88 (log 5) st3); [exact session3|by_eval|vm_compute; exact I|vm_compute; reflexivity].
Qed.

Lemma session5 : wal_session 7 (log 6) (log 6) st5.1 st5.2.
Proof. apply (flush_session 6 (log 5)); [|by_eval]. apply (append_session 5); [exact session4|by_eval]. Qed.

(** The same log under a clock: 13 and 14 come three hours later and close the
    second file, 15 to 18 two hours after that; the rotation before them prunes
    the first two files, not the third. *)
Definition hours (n : Z) : Z := n * 3600000000000.
Definition st7 : State := flush_at (hours 3) [] (append 14 (append 13 st5)).
Definition st8 : State := flush_at (hours 5) [] (append 18 (append 17 (append 16 (append 15 st7)))).

Example demo_pruned : dk_segments st7.2 !! (7, 10) <> None /\ dk_segments st8.2 !! (7, 10) = None /\
  dk_segments st7.2 !! (11, 12) <> None /\ dk_segments st8.2 !! (11, 12) = None /\
  dk_segments st8.2 !! (13, 14) <> None /\ dk_segments st8.2 !! (15, 18) <> None.
Proof. by_eval. Qed.

Definition aged (ps : list (Z * Z)) : list (LogRec * Z) := map (fun p => (rec_of p.1, p.2)) ps.
Definition until (t : Z) (s n : Z) : list (Z * Z) := map (fun s => (s, t)) (seqZ s n).

Lemma append_life ps acked st now s : wal_life 7 now (aged ps) acked st.1 st.2 ->
  s = 7 + zlen (aged ps) /\ Framed_pack (cancel s) s = Ok (pack s) /\ append_framed (pack s) st.1 = (inl tt, (append s st).1) /\
  s < U64_MAX /\ zlen (wires (map fst (aged ps) ++ [rec_of s])) <= I64_MAX ->
  wal_life 7 now (aged (ps ++ [(s, now)])) acked (append s st).1 (append s st).2.
Proof.
  intros Hw (Es & Hp & Ha & Hm & Hz). change (append s st).2 with st.2. unfold aged. rewrite map_app. cbn [map fst snd]. unfold rec_of at 2. subst s.
  by eapply wl_append.
Qed.

Lemma flush_life ps acked st now faults : wal_life 7 now (aged ps) acked st.1 st.2 ->
  (flush now (mkWorld st.1 st.2 faults)).1 = inl tt ->
  wal_life 7 now (aged ps) (aged ps ++ acked) (flush_at now faults st).1 (flush_at now faults st).2.
Proof.
  intros Hw Hf. unfold flush_at. destruct (flush _ _) as [r [w' d' fs]] eqn:E. cbn in Hf. subst r. by eapply (wl_flush_ok 7 faults now).
Qed.

Lemma crash_life ps qs acked found k st : wal_life 7 100 (aged ps) acked st.1 st.2 -> ww_file_size st.1 <= k ->
  match WalWriter_new 100 300 (crashed k st.2) with Ok (inl _, _) => True | _ => False end ->
  read_from 0 (opened (7 + zlen (aged qs)) (crashed k st.2)).2 = Ok (map raw found, None) -> aged qs `prefix_of` aged ps ->
  last found = last (map fst (aged qs)) -> found <> [] ->
  wal_life 7 100 (aged qs) (aged qs ++ acked) (opened (7 + zlen (aged qs)) (crashed k st.2)).1 (opened (7 + zlen (aged qs)) (crashed k st.2)).2.
Proof.
  intros Hw Hk Ho Hr Hp Hl Hn. unfold opened in *. destruct (WalWriter_new 100 300 (crashed k st.2)) as [[[w'|e] d']| |] eqn:E; try done.
  by eapply (wl_crash 7 k 300 100 (aged ps) acked st.1 st.2 (aged qs) found).
Qed.

Definition p4 : list (Z * Z) := until 100 7 4.
Definition p5 : list (Z * Z) := until 100 7 5.
Definition p6 : list (Z * Z) := until 100 7 6.
Definition p8 : list (Z * Z) := p6 ++ until (hours 3) 13 2.
Definition p12 : list (Z * Z) := p8 ++ until (hours 5) 15 4.
Definition acked5 : list (LogRec * Z) := aged p5 ++ aged p5 ++ aged p4 ++ [].
Definition acked12 : list (LogRec * Z) := aged p12 ++ aged p8 ++ aged p6 ++ acked5.

Lemma life4 : wal_life 7 100 (aged p5) acked5 st4.1 st4.2.
Proof.
  assert (wal_life 7 100 (aged []) [] st0.1 st0.2) as H0 by (eapply (wl_open 7 100 300); [by vm_compute|by vm_compute|]; vm_compute; reflexivity).
  pose proof (append_life _ _ _ _ 7 H0 ltac:(by_eval)) as H1. pose proof (append_life _ _ _ _ 8 H1 ltac:(by_eval)) as H2.
  pose proof (append_life _ _ _ _ 9 H2 ltac:(by_eval)) as H3. pose proof (append_life _ _ _ _ 10 H3 ltac:(by_eval)) as H4.
  pose proof (flush_life p4 _ _ _ [] H4 ltac:(by_eval)) as H5. pose proof (append_life _ _ _ _ 11 H5 ltac:(by_eval)) as H6.
  pose proof (flush_life p5 _ _ _ [] H6 ltac:(by_eval)) as H7. pose proof (append_life _ _ _ _ 12 H7 ltac:(by_eval)) as H8.
  assert (wal_life 7 100 (aged p6) (aged p5 ++ aged p4 ++ []) st3.1 st3.2) as H9.
  { eapply (wl_flush_failed 7 [Good; Bad 30] IoFailed); [exact H8|]. vm_compute. reflexivity. }
  apply (crash_life p6 p5 _ (map fst (aged p5)) 88 st3); [exact H9|by_eval|vm_compute; exact I|vm_compute; reflexivity| |done|by vm_compute].
  exists (aged (until 100 12 1)). vm_compute. reflexivity.
Qed.

Lemma life8 : wal_life 7 (hours 5) (aged p12) acked12 st8.1 st8.2.
Proof.
  pose proof (append_life _ _ _ _ 12 life4 ltac:(by_eval)) as H1. pose proof (flush_life p6 _ _ _ [] H1 ltac:(by_eval)) as H2.
  apply (wl_wait 7 100 (hours 3)) in H2; [|by vm_compute|by vm_compute].
  pose proof (append_life p6 _ _ _ 13 H2 ltac:(by_eval)) as H3. pose proof (append_life _ _ _ _ 14 H3 ltac:(by_eval)) as H4.
  pose proof (flush_life p8 _ _ _ [] H4 ltac:(by_eval)) as H5. apply (wl_wait 7 (hours 3) (hours 5)) in H5; [|by vm_compute|by vm_compute].
  pose proof (append_life p8 _ _ _ 15 H5 ltac:(by_eval)) as H6. pose proof (append_life _ _ _ _ 16 H6 ltac:(by_eval)) as H7.
  pose proof (append_life _ _ _ _ 17 H7 ltac:(by_eval)) as H8. pose proof (append_life _ _ _ _ 18 H8 ltac:(by_eval)) as H9.
  exact (flush_life p12 _ _ _ [] H9 ltac:(by_eval)).
Qed.

(** A sender that published 8 and 12. *)
Definition send (now s : Z) (x : CastSender) : CastSender :=
  match send_framed true now (pack s) x with Ok (_, _, x) => x | _ => x end.
Definition sender : CastSender := send 3 12 (send 2 8 (CastSender_new 1 1000 50)).

Lemma sender_sends : sending (map fst (aged p12)) sender.
Proof.
  assert (forall x s now, sending (map fst (aged p12)) x -> In (rec_of s) (map fst (aged p12)) -> pack s = framed_of (rec_of s) ->
    sending (map fst (aged p12)) (send now s x)) as Hsend.
  { intros x s now Hx Hi Hp. unfold send. destruct (send_framed _ _ _ _) as [[[b o] y]| |] eqn:E; [|done|done]. rewrite Hp in E. by eapply snd_frame. }
  unfold sender. apply Hsend; [apply Hsend; [constructor| |]| |]; try (vm_compute; reflexivity).
  - right. left. vm_compute. reflexivity.
  - do 5 right. left. vm_compute. reflexivity.
Qed.

(** Its ring still has the records 8 and 12, the disk the last two files. *)
Example demo_answers : match handle_nak st8.2 90 [] (mkNak 7 12) sender with Ok (out, _) => out | _ => [] end = map (wire ∘ rec_of) (8 :: 12 :: seqZ 13 6).
Proof. vm_compute. reflexivity. Qed.

(** ** The receiver's network *)

Definition dgram (now s : Z) : list Z * Z := (fr_wire (pack s), now).
(** Record 12 with a byte of its payload changed. *)
Definition corrupt : list Z * Z := (vput (fr_wire (pack 12)) 40 1, 6).
Definition arrivals : list (list Z * Z) := [dgram 5 8; dgram 5 7; corrupt; dgram 7 7; dgram 9 9].

Definition fresh : CastReceiver := reset_after_replay 6 (CastReceiver_new 50 3).

Lemma fresh_starts : starting fresh.
Proof. apply (start_reset 6 (CastReceiver_new 50 3) [] []); [constructor|constructor|done]. Qed.

Definition first_call : CastReceiver :=
  match try_recv_with arrivals fresh with Ok (_, _, _, r) => r | _ => fresh end.

(** Decide [timely] by evaluation. *)
Definition timely_b (e : Z) (inbox : list (list Z * Z)) : bool :=
  forallb (fun d => match seq_of d with Some s => (0 <? s) && (s <=? I64_MAX) && (e <=? s + 100) | None => true end) inbox.
Lemma timely_by e inbox : timely_b e inbox = true -> timely e inbox.
Proof.
  unfold timely_b. rewrite forallb_forall. intros Hb. split; apply Forall_forall; intros d Hd%list_elem_of_In s Hs; specialize (Hb d Hd); rewrite Hs in Hb; lia.
Qed.

Definition handed_on (s : Z) : WalHeader * list Z := (raw_header (raw (rec_of s)), raw_payload (raw (rec_of s))).

Lemma first_receiving : receiving fresh (take 2 arrivals) [handed_on 7] first_call.
Proof.
  eapply (rx_call fresh [] [] fresh arrivals (Data (handed_on 7).1 (handed_on 7).2) [mkNak 7 1] (take 2 arrivals) (drop 2 arrivals)); [constructor|apply timely_by; vm_compute; reflexivity| |].
  - vm_compute. reflexivity.
  - reflexivity.
Qed.

(** Twelve records, the later half first. *)
Definition window : list Z := seqZ 13 6 ++ seqZ 7 6.
Definition burst : list (list Z * Z) := map (dgram 5) window.

Lemma burst_arrives : Forall2 (arrives 7 12 50000) burst window.
Proof.
  unfold burst. assert (Forall (fun s => arrives 7 12 50000 (dgram 5 s) s) window) as Hall.
  { repeat (constructor; [eexists _, _; split; [vm_compute; reflexivity|]; repeat split; vm_compute; first [reflexivity | discriminate]|]). constructor. }
  clear -Hall. induction Hall; cbn; by constructor.
Qed.

(** ** Corners

    Three files, 7 to 10, 11 to 14 and 15. *)
Definition st6 : State := flush_with [] (append 15 (flush_with [] (append 14 (append 13 (append 12 (append 11 st1)))))).

Definition yielded (t : Z) (st : State) : option (list (option Z)) :=
  match read_from t st.2 with Ok (rs, None) => Some (map (fun r => extract_seq (raw_payload r)) rs) | _ => None end.

(** A start before the oldest record, other than 0, yields the newest file. *)
Example read_below_oldest : yielded 0 st6 = Some (map Some (seqZ 7 9)) /\ yielded 7 st6 = Some (map Some (seqZ 7 9)) /\
  yielded 3 st6 = Some [Some 15].
Proof. vm_compute. repeat split. Qed.

Definition outcomes (inboxes : list (list (list Z * Z))) (r : CastReceiver) : list CastRecv :=
  (fold_left (fun acc inbox => match try_recv_with inbox acc.2 with Ok (o, _, _, r) => (acc.1 ++ [o], r) | _ => acc end) inboxes ([], r)).1.

(** Record 9 is buffered and then taken from the socket: its slot keeps the
    number, and record 2057, within the window of 10, meets it. *)
Example stale_slot_reconnects :
  last (outcomes [[dgram 5 9; dgram 5 7]; [dgram 5 8]; [dgram 5 9]; [dgram 5 2057]] fresh) = Some (Reconnect 9) /\
  last (outcomes [[dgram 5 7]; [dgram 5 8]; [dgram 5 9]; [dgram 5 2057]] fresh) = Some Empty.
Proof. vm_compute. split; reflexivity. Qed.

End CastDemo.

(** ** The theorems at work *)

#[local] Existing Instance CastDemo.castagnoli.

Lemma wal_durable_witness :
  exists W P, W `prefix_of` map fst (CastDemo.aged CastDemo.p12) /\ P `sublist_of` W /\
    (forall e, In e (CastDemo.aged CastDemo.p12) -> In e.1 W -> young (CastDemo.hours 5) e -> In e.1 P) /\
    (forall e, In e CastDemo.acked12 -> young (CastDemo.hours 5) e -> In e (CastDemo.aged CastDemo.p12) /\ In e.1 P) /\
    (forall t, t = 0 \/ 7 <= t /\ (forall e, In e (CastDemo.aged CastDemo.p12) -> t <= lseq e.1 -> young (CastDemo.hours 5) e) ->
       read_from t CastDemo.st8.2 = Ok (map raw (wanted t P), None)) /\
    (forall t, read_record_at_seq t CastDemo.st8.2 = Ok (raw <$> holding t P)) /\
    (forall n max, ww_file_size CastDemo.st8.1 <= n -> exists w' d' found,
       WalWriter_new (CastDemo.hours 5) max (crashed n CastDemo.st8.2) = Ok (inl w', d') /\ read_from 0 d' = Ok (map raw found, None) /\
       found `sublist_of` map fst (CastDemo.aged CastDemo.p12) /\ forall e, In e CastDemo.acked12 -> young (CastDemo.hours 5) e -> In e.1 found).
Proof. exact (wal_durable 7 (CastDemo.hours 5) (CastDemo.aged CastDemo.p12) CastDemo.acked12 CastDemo.st8.1 CastDemo.st8.2 CastDemo.life8). Defined.

Lemma wal_crash_recovers_witness : exists w' d' P, WalWriter_new 100 300 (crashed 90 CastDemo.st3.2) = Ok (inl w', d') /\
  read_from 0 d' = Ok (map raw P, None) /\ CastDemo.log 5 `prefix_of` P /\ P `prefix_of` CastDemo.log 6.
Proof.
  apply (wal_crash_recovers 7 (CastDemo.log 6) (CastDemo.log 5) CastDemo.st3.1 CastDemo.st3.2 100 300 90 CastDemo.session3); [done|].
  by vm_compute.
Defined.

Lemma wal_random_access_witness : exists P, CastDemo.log 6 `prefix_of` P /\ P `prefix_of` CastDemo.log 6 /\
  read_record_at_seq 8 CastDemo.st5.2 = Ok (raw <$> holding 8 P).
Proof. apply (wal_random_access 7 (CastDemo.log 6) (CastDemo.log 6) CastDemo.st5.1 CastDemo.st5.2 8 CastDemo.session5). by vm_compute. Defined.

Lemma receiver_in_order_witness :
  (exists first, in_order CastDemo.fresh (take 2 CastDemo.arrivals) [CastDemo.handed_on 7] first /\
    ([CastDemo.handed_on 7] <> [] -> rv_expected_seq CastDemo.first_call = first + zlen [CastDemo.handed_on 7])) /\
  exists out naks used rest r', try_recv_with (drop 2 CastDemo.arrivals) CastDemo.first_call = Ok (out, naks, rest, r') /\
    drop 2 CastDemo.arrivals = used ++ rest.
Proof.
  apply (receiver_in_order CastDemo.fresh (take 2 CastDemo.arrivals) [CastDemo.handed_on 7] CastDemo.first_call (drop 2 CastDemo.arrivals)
    CastDemo.fresh_starts CastDemo.first_receiving).
  apply CastDemo.timely_by. vm_compute. reflexivity.
Defined.

Lemma receiver_catches_up_witness :
  exists dl r', poll_all 13 CastDemo.burst (reset_after_replay 6 CastDemo.fresh) = Ok (dl, Empty, r') /\ zlen dl = 12 /\
    rv_expected_seq r' = 19 /\
    forall i h p, dl !! i = Some (h, p) -> exists d, In d CastDemo.burst /\ record_of d.1 = Some (7 + Z.of_nat i, h, p).
Proof.
  apply (receiver_catches_up 6 CastDemo.fresh [] [] CastDemo.fresh 12 CastDemo.burst CastDemo.window CastDemo.fresh_starts);
    [constructor|lia|by vm_compute|by vm_compute|by vm_compute|by vm_compute|exact CastDemo.burst_arrives|].
  vm_compute. apply (Permutation_app_comm [13; 14; 15; 16; 17; 18] [7; 8; 9; 10; 11; 12]).
Defined.

Lemma missing_run_exact_witness :
  exists run, oldest_missing_run CastDemo.first_call = Ok run /\
    match run with
    | None => rv_expected_seq CastDemo.first_call = 0 \/ rv_highest_seen CastDemo.first_call < rv_expected_seq CastDemo.first_call \/
        vget (rv_reorder_seqs CastDemo.first_call) (slot_of (rv_expected_seq CastDemo.first_call)) = Some (rv_expected_seq CastDemo.first_call)
    | Some (from, count) => from = rv_expected_seq CastDemo.first_call /\ 0 < count <= REORDER_CAPACITY + 1 /\
        from + count <= rv_highest_seen CastDemo.first_call + 1 /\
        (forall s, from <= s < from + count -> vget (rv_reorder_seqs CastDemo.first_call) (slot_of s) <> Some s) /\
        (from + count <= rv_highest_seen CastDemo.first_call -> count <= REORDER_CAPACITY ->
         vget (rv_reorder_seqs CastDemo.first_call) (slot_of (from + count)) = Some (from + count))
    end.
Proof.
  apply (missing_run_exact CastDemo.fresh (take 2 CastDemo.arrivals) [CastDemo.handed_on 7] CastDemo.first_call
    CastDemo.fresh_starts CastDemo.first_receiving).
Defined.

Lemma nak_answered_witness :
  exists rs s', handle_nak CastDemo.st8.2 90 [] (mkNak 7 6000) CastDemo.sender = Ok (map wire rs, s') /\ StronglySorted by_number rs /\
    (forall r, In r rs -> In r (map fst (CastDemo.aged CastDemo.p12)) /\ 7 <= lseq r < 7 + Z.min 6000 SEND_RING_CAPACITY /\ quiet 90 CastDemo.sender (lseq r)) /\
    (forall e, In e CastDemo.acked12 -> young (CastDemo.hours 5) e -> 7 <= lseq e.1 < 7 + Z.min 6000 SEND_RING_CAPACITY ->
       quiet 90 CastDemo.sender (lseq e.1) -> In e.1 rs).
Proof.
  apply (nak_answered 7 (CastDemo.hours 5) (CastDemo.aged CastDemo.p12) CastDemo.acked12 CastDemo.st8.1 CastDemo.st8.2 CastDemo.sender 90 7 6000 CastDemo.life8
    CastDemo.sender_sends); by vm_compute.
Defined.
