(* ===== verification/Types.v ===== *)
(** * Types: the shared leaf crate [rsx-types]

    The fixed-point values, order enumerations and order-entry helpers every
    other crate uses ([rsx-types/src/lib.rs], [fee_utils.rs],
    [client_order.rs]).  [Price] and [Qty] are transparent [i64] newtypes and
    are plain [Z] here. *)

From S2P Require Import Prelude.

(** ** Enumerations *)

Inductive Side : Type := Buy | Sell.

Inductive TimeInForce : Type := GTC | IOC | FOK.

Inductive FailureReason : Type :=
| InvalidTickSize | InvalidLotSize | SymbolNotFound | DuplicateOrderId
| InsufficientMarginF | Overloaded | InternalError | ReduceOnlyViolation
| NetworkError | RateLimit | Timeout | UserInLiquidationF | WrongShard
| FillOrKillF | OrderTooSmallF.

#[global] Instance Side_eq_dec : EqDecision Side.
Proof. solve_decision. Defined.
#[global] Instance TimeInForce_eq_dec : EqDecision TimeInForce.
Proof. solve_decision. Defined.
#[global] Instance FailureReason_eq_dec : EqDecision FailureReason.
Proof. solve_decision. Defined.

(** [side as u8] and [tif as u8]: the wire-stable discriminants. *)
Definition side_u8 (s : Side) : Z := match s with Buy => 0 | Sell => 1 end.
Definition tif_u8 (t : TimeInForce) : Z := match t with GTC => 0 | IOC => 1 | FOK => 2 end.
Definition failure_u8 (r : FailureReason) : Z :=
  match r with
  | InvalidTickSize => 0 | InvalidLotSize => 1 | SymbolNotFound => 2
  | DuplicateOrderId => 3 | InsufficientMarginF => 4 | Overloaded => 5
  | InternalError => 6 | ReduceOnlyViolation => 7 | NetworkError => 8
  | RateLimit => 9 | Timeout => 10 | UserInLiquidationF => 11
  | WrongShard => 12 | FillOrKillF => 13 | OrderTooSmallF => 14
  end.

Definition opposite (s : Side) : Side := match s with Buy => Sell | Sell => Buy end.

(** The sentinel for "no index" in slab and level lists: [u32::MAX]. *)
Definition NONE : Z := U32_MAX.

Record SymbolConfig : Type := {
  sc_symbol_id : Z;
  sc_price_decimals : Z;
  sc_qty_decimals : Z;
  sc_tick_size : Z;
  sc_lot_size : Z;
}.

(** [&&] evaluates left to right: a zero tick aborts only on a positive price
    and quantity. *)
Definition validate_order (config : SymbolConfig) (price qty : Z) : Res bool :=
  if (price >? 0) && (qty >? 0) then
    rp ← rem_i64 price (sc_tick_size config);
    if rp =? 0 then
      rq ← rem_i64 qty (sc_lot_size config);
      Ok (rq =? 0)
    else Ok false
  else Ok false.

(** ** Fees

    [div_euclid] by a positive divisor is [Z.div]. *)
Definition calculate_fee (qty price fee_bps : Z) : Z :=
  let notional := wrap_i128 (qty * price) in
  let fee_128 := wrap_i128 (notional * fee_bps) in
  let result := fee_128 / 10000 in
  match try_i64 result with
  | Some v => v
  | None => if result <? 0 then I64_MIN else I64_MAX
  end.

(** ** Client order ids *)

Definition SESSION_CHARS : Z := 8.

(** ["0123456789abcdefghijklmnopqrstuvwxyz"] as bytes. *)
Definition DIGITS : list Z :=
  map (fun d => if d <? 10 then 48 + d else 87 + d) (zrange 0 36).

(** The digits pushed by the loop, least significant first; a [u64] has at
    most 13 of them, so 64 rounds are enough. *)
Fixpoint base36_reversed (fuel : nat) (number : Z) : Res (list Z) :=
  match fuel with
  | O => Diverged
  | S fuel' =>
      d ← vindex DIGITS (number mod 36);
      let number := number / 36 in
      if number =? 0 then Ok [d]
      else tl ← base36_reversed fuel' number; Ok (d :: tl)
  end.
Definition base36 (number : Z) : Res (list Z) :=
  reversed ← base36_reversed 64 number; Ok (reverse reversed).

Record CidMint : Type := { session : list Z; counter : Z }.

(** [format!("{digits:0>8}")]: pad on the left with ['0'] to the width. *)
Definition pad_left (width : Z) (digits : list Z) : list Z :=
  replicate (Z.to_nat (width - zlen digits)) 48 ++ digits.

Definition CidMint_with_seed (seed : Z) : Res CidMint :=
  let span := 36 ^ SESSION_CHARS in
  digits ← base36 (seed mod span);
  Ok {| session := pad_left SESSION_CHARS digits; counter := 0 |}.

Definition CidMint_next (m : CidMint) : Res (list Z * CidMint) :=
  let counter := wrap_u64 (counter m + 1) in
  digits ← base36 counter;
  Ok (session m ++ digits, {| session := session m; counter := counter |}).

(** ** Order sizes *)

Definition one_usd_notional (price_decimals qty_decimals : Z) : Z :=
  match try_i64 (10 ^ (wrap_u32 (price_decimals + qty_decimals))) with
  | Some v => v
  | None => I64_MAX
  end.

Definition min_order_qty (min_notional price lot : Z) : Z :=
  let lot := Z.max lot 1 in
  let per_lot := Z.max price 1 * lot in
  let lots := Z.quot (Z.max min_notional 0 + per_lot - 1) per_lot in
  let lots := clamp 1 (Z.quot I64_MAX lot) lots in
  wrap_i64 (lots * lot).

(** ** Properties *)

Lemma side_u8_inj s1 s2 : side_u8 s1 = side_u8 s2 -> s1 = s2.
Proof. by destruct s1, s2. Qed.

(** The value of a base-36 numeral, least significant digit first. *)
Definition digit_value (d : Z) : Z := if d <? 58 then d - 48 else d - 87.
Fixpoint value36 (ds : list Z) : Z :=
  match ds with [] => 0 | d :: tl => digit_value d + 36 * value36 tl end.

Lemma vget_digits i : 0 <= i < 36 -> exists d, vget DIGITS i = Some d /\ digit_value d = i /\ 48 <= d < 123.
Proof.
  intros H.
  assert (forallb (fun i => match vget DIGITS i with
    | Some d => (digit_value d =? i) && (48 <=? d) && (d <? 123) | None => false end)
    (zrange 0 36) = true) as HF by (vm_compute; reflexivity).
  rewrite forallb_forall in HF. specialize (HF i (proj2 (in_zrange 0 36 i) H)).
  destruct (vget DIGITS i) as [d|]; [|discriminate]. exists d. bool_to_prop. auto.
Qed.

Lemma base36_reversed_value fuel n :
  0 <= n < 36 ^ Z.of_nat fuel -> (0 < fuel)%nat ->
  exists ds, base36_reversed fuel n = Ok ds /\ value36 ds = n /\
    1 <= zlen ds <= Z.of_nat fuel /\ Forall (fun d => 48 <= d < 123) ds /\
    (forall k, 1 <= k -> n < 36 ^ k -> zlen ds <= k).
Proof.
  revert n. induction fuel as [|fuel IH]; intros n Hn Hf; [lia|]. cbn [base36_reversed].
  destruct (vget_digits (n mod 36)) as (d & Hd & Hv & Hr).
  { apply Z.mod_pos_bound. lia. }
  rewrite (vindex_some _ _ _ Hd). cbn.
  destruct (n / 36 =? 0) eqn:E; bool_to_prop.
  - exists [d]. cbn. rewrite Hv. repeat split; try (unfold zlen; simpl; lia).
    + dlia.
    + by constructor.
  - rewrite Nat2Z.inj_succ, Z.pow_succ_r in Hn by lia.
    destruct fuel as [|fuel].
    { simpl in Hn. exfalso. apply E. apply Z.div_small. lia. }
    destruct (IH (n / 36)) as (ds & E1 & E2 & E3 & E4 & E5); [dlia | lia |].
    rewrite E1. exists (d :: ds). cbn [value36]. rewrite Hv, E2.
    change (zlen (d :: ds)) with (Z.of_nat (S (length ds))). unfold zlen in *.
    repeat split; try lia; [dlia | by constructor |].
    intros k Hk Hlt. destruct (Z.eq_dec k 1) as [->|].
    { exfalso. apply E. apply Z.div_small. lia. }
    specialize (E5 (k - 1) ltac:(lia)).
    replace k with (Z.succ (k - 1)) in Hlt by lia. rewrite Z.pow_succ_r in Hlt by lia.
    assert (n / 36 < 36 ^ (k - 1)) by (apply Z.div_lt_upper_bound; lia). lia.
Qed.

Lemma u64_fits_36_64 n : in_u64 n -> 0 <= n < 36 ^ Z.of_nat 64.
Proof. width_unfold. intros. split; [lia|]. eapply Z.le_lt_trans; [apply H|]. vm_compute. reflexivity. Qed.

(** Every [u64] has a base-36 numeral, it is at most 13 characters long, and
    reading it back gives the number. *)
Lemma base36_total n :
  in_u64 n ->
  exists ds, base36 n = Ok ds /\ value36 (reverse ds) = n /\ 1 <= zlen ds <= 13.
Proof.
  intros Hn. unfold base36.
  destruct (base36_reversed_value 64 n) as (ds & E1 & E2 & E3 & E4 & E5);
    [by apply u64_fits_36_64 | lia |].
  rewrite E1. exists (reverse ds). cbn. rewrite reverse_involutive. repeat split; [done | |].
  - unfold zlen in *. rewrite length_reverse. lia.
  - unfold zlen in *. rewrite length_reverse. apply E5; [lia|].
    width_unfold. eapply Z.le_lt_trans; [apply Hn|]. vm_compute. reflexivity.
Qed.

Lemma base36_inj n1 n2 ds :
  in_u64 n1 -> in_u64 n2 -> base36 n1 = Ok ds -> base36 n2 = Ok ds -> n1 = n2.
Proof.
  intros H1 H2 E1 E2. destruct (base36_total n1 H1) as (d1 & F1 & V1 & _).
  destruct (base36_total n2 H2) as (d2 & F2 & V2 & _). congruence.
Qed.

(** Two numbers minted by one generator give different ids: the session part
    is shared and the counters differ. *)
Lemma cid_next_distinct m1 m2 c1 c2 m1' m2' :
  session m1 = session m2 -> in_u64 (counter m1 + 1) -> in_u64 (counter m2 + 1) ->
  counter m1 <> counter m2 ->
  CidMint_next m1 = Ok (c1, m1') -> CidMint_next m2 = Ok (c2, m2') -> c1 <> c2.
Proof.
  unfold CidMint_next. intros Hs H1 H2 Hne E1 E2. rewrite !wrap_u64_id in * by done.
  res_inv. simplify_eq. rewrite Hs. intros Heq%app_inv_head. subst.
  apply Hne. enough (counter m1 + 1 = counter m2 + 1) by lia. by eapply base36_inj.
Qed.

(** The mint run [n] times. *)
Fixpoint CidMint_take (n : nat) (m : CidMint) : Res (list (list Z)) :=
  match n with
  | O => Ok []
  | S n' => '(c, m') ← CidMint_next m; tl ← CidMint_take n' m'; Ok (c :: tl)
  end.

Lemma cid_take_spec n m :
  0 <= counter m -> counter m + Z.of_nat n <= U64_MAX ->
  exists cs, CidMint_take n m = Ok cs /\ length cs = n /\
    (forall c, In c cs -> exists k ds, counter m < k <= counter m + Z.of_nat n /\
       base36 k = Ok ds /\ c = session m ++ ds) /\ NoDup cs.
Proof.
  revert m. induction n as [|n IH]; intros m Hc Hn; cbn [CidMint_take].
  { exists []. repeat split; [done | constructor]. }
  assert (in_u64 (counter m + 1)) as Hw by width_lia.
  destruct (base36_total _ Hw) as (ds & E & _ & _).
  unfold CidMint_next at 1. rewrite wrap_u64_id, E by done. cbn.
  destruct (IH {| session := session m; counter := counter m + 1 |}) as (cs & E1 & E2 & E3 & E4);
    [simpl; lia | simpl; lia |].
  rewrite E1. cbn.
  exists ((session m ++ ds) :: cs). split; [done|]. split; [simpl; lia|]. split.
  - intros c [<-|Hin].
    + exists (counter m + 1), ds. split; [lia | done].
    + destruct (E3 c Hin) as (k & ds' & Hk & Hb & ->). simpl in Hk. exists k, ds'. split; [lia|done].
  - constructor; [|done]. intros Hin%list_elem_of_In.
    destruct (E3 _ Hin) as (k & ds' & Hk & Hb & Heq). simpl in *. apply app_inv_head in Heq. subst ds'.
    assert (counter m + 1 = k) by (eapply base36_inj; [done | width_lia | done | done]). lia.
Qed.

(** The length bound the gateway relies on: an id is 9 to 21 characters. *)
Lemma session_length seed m : CidMint_with_seed seed = Ok m -> zlen (session m) = 8.
Proof.
  unfold CidMint_with_seed. intros H. res_inv. simpl.
  assert (0 <= seed mod 36 ^ SESSION_CHARS < 36 ^ 8) as Hr by (apply Z.mod_pos_bound; vm_compute; reflexivity).
  unfold base36 in E. res_inv.
  destruct (base36_reversed_value 64 (seed mod 36 ^ SESSION_CHARS)) as (ds & E1 & _ & E3 & _ & E5);
    [|lia|].
  { split; [lia|]. eapply Z.lt_le_trans; [apply Hr|]. vm_compute. discriminate. }
  rewrite E1 in E0. res_inv. specialize (E5 8 ltac:(lia) (proj2 Hr)).
  unfold pad_left, zlen, SESSION_CHARS in *. rewrite length_app, length_replicate, length_reverse. lia.
Qed.

(** *** Fees *)

Definition fee_fits (qty price fee_bps : Z) : Prop :=
  in_i64 qty /\ in_i64 price /\ - 2 ^ 63 <= fee_bps <= 2 ^ 63 - 1 /\
  - 2 ^ 127 <= qty * price * fee_bps < 2 ^ 127.

Lemma calculate_fee_spec qty price fee_bps :
  fee_fits qty price fee_bps ->
  calculate_fee qty price fee_bps = sat_i64 (qty * price * fee_bps / 10000).
Proof.
  intros (Hq & Hp & Hf & Hb). unfold calculate_fee.
  assert (- 2 ^ 127 <= qty * price < 2 ^ 127) as Hn.
  { width_unfold. split; nia. }
  rewrite (wrap_i128_id (qty * price)), wrap_i128_id by done.
  unfold try_i64, in_i64b, sat_i64, clamp. width_unfold. split_ifs; lia.
Qed.

Lemma calculate_fee_range qty price fee_bps : in_i64 (calculate_fee qty price fee_bps).
Proof.
  unfold calculate_fee, try_i64. case_if; [by apply in_i64b_spec|]. case_if; width_lia.
Qed.

(** *** Minimum order quantity *)

Lemma min_order_qty_spec min_notional price lot :
  1 <= lot <= I64_MAX -> 1 <= price -> 0 <= min_notional ->
  min_notional <= price * (I64_MAX / lot * lot) ->
  let q := min_order_qty min_notional price lot in
  1 <= q <= I64_MAX /\ q mod lot = 0 /\ min_notional <= price * q /\
  (forall q', 0 < q' -> q' mod lot = 0 -> min_notional <= price * q' -> q <= q').
Proof.
  intros Hl Hp Hm Hfit. unfold min_order_qty.
  rewrite (Z.max_l lot 1), (Z.max_l price 1), (Z.max_l min_notional 0) by lia.
  rewrite !Z.quot_div_nonneg by (width_unfold; nia).
  assert (1 <= I64_MAX / lot) as Hk by (apply Z.div_le_lower_bound; width_lia).
  assert (I64_MAX / lot * lot <= I64_MAX) as Hkl by (pose proof (Z.mul_div_le I64_MAX lot); lia).
  set (c := (min_notional + price * lot - 1) / (price * lot)).
  assert (0 < price * lot) as Hpl by nia.
  assert (min_notional <= price * lot * c) as Hc.
  { pose proof (Z.div_mod (min_notional + price * lot - 1) (price * lot) ltac:(lia)).
    pose proof (Z.mod_pos_bound (min_notional + price * lot - 1) (price * lot) Hpl). subst c. lia. }
  assert (c <= I64_MAX / lot) as Hcub.
  { subst c. apply Z.lt_succ_r. apply Z.div_lt_upper_bound; [done|]. nia. }
  set (n := clamp 1 (I64_MAX / lot) c).
  assert (1 <= n <= I64_MAX / lot) as Hn by (apply clamp_range; done).
  assert (n = Z.max 1 c) as Hn' by (subst n; unfold clamp; lia).
  assert (1 <= n * lot <= I64_MAX) as Hq by nia.
  rewrite wrap_i64_id by width_lia. split; [done|]. split; [by rewrite Z.mod_mul by lia|].
  split; [nia|].
  intros q' Hq' Hmod Hmn.
  assert (q' = q' / lot * lot) as Hdiv by (pose proof (Z.div_mod q' lot ltac:(lia)); lia).
  set (k := q' / lot) in *. assert (1 <= k) by nia.
  enough (n <= k) by nia. rewrite Hn'. apply Z.max_lub; [done|].
  subst c. apply Z.lt_succ_r. apply Z.div_lt_upper_bound; [done|]. nia.
Qed.
