(* ===== verification/Slab.v ===== *)
(** * Slab: the fixed-capacity arena [rsx-book/src/slab.rs]

    [slots] is allocated once; [free_head] heads a freelist threaded through
    the items' own [next] field, and [bump_next] counts the slots ever handed
    out.  The component's contract is a set of live handles: [alloc] returns a
    handle that is not live, [free] returns it, and the freelist keeps the
    exact allocation order that snapshots record. *)

From S2P Require Import Prelude Types.

(** The trait [SlabItem], and what the arena relies on: writing [next] and
    reading it back. *)
Class SlabItem (T : Type) : Type := {
  si_next : T -> Z;
  si_set_next : T -> Z -> T;
  si_default : T;
}.
Class SlabItemLaws (T : Type) `{SlabItem T} : Prop := {
  si_next_set_next : forall (t : T) n, si_next (si_set_next t n) = n;
}.

Record Slab (T : Type) : Type := mkSlab {
  slots : list T;
  free_head : Z;
  bump_next : Z;
}.
Arguments mkSlab {T} slots free_head bump_next.
Arguments slots {T} s.
Arguments free_head {T} s.
Arguments bump_next {T} s.

Section Operations.
Context {T : Type} `{SlabItem T}.

Definition Slab_new (capacity : Z) : Slab T :=
  mkSlab (replicate (Z.to_nat capacity) si_default) NONE 0.

Definition alloc (s : Slab T) : Res (Z * Slab T) :=
  if negb (free_head s =? NONE) then
    let idx := free_head s in
    t ← vindex (slots s) idx;
    Ok (idx, mkSlab (slots s) (si_next t) (bump_next s))
  else
    _ ← assert_ok (bump_next s <? zlen (slots s));
    let idx := bump_next s in
    Ok (idx, mkSlab (slots s) (free_head s) (wrap_u32 (bump_next s + 1))).

(** The two [debug_assert!]s (never-allocated and double free) are not in the
    release build; the bounds [assert!] is. *)
Definition free (s : Slab T) (idx : Z) : Res (Slab T) :=
  _ ← assert_ok (idx <? zlen (slots s));
  slots' ← vmodify (slots s) idx (fun t => si_set_next t (free_head s));
  Ok (mkSlab slots' idx (bump_next s)).

Definition get (s : Slab T) (idx : Z) : Res T := vindex (slots s) idx.

(** [*s.get_mut(idx) = f(..)] *)
Definition update (s : Slab T) (idx : Z) (f : T -> T) : Res (Slab T) :=
  slots' ← vmodify (slots s) idx f;
  Ok (mkSlab slots' (free_head s) (bump_next s)).

Definition len (s : Slab T) : Z := bump_next s.
Definition capacity (s : Slab T) : Z := wrap_u32 (zlen (slots s)).

(** The freelist walks; [fuel] bounds the number of nodes visited. *)
Fixpoint is_free_loop (fuel : nat) (s : Slab T) (cur idx : Z) : Res bool :=
  match fuel with
  | O => Diverged
  | S fuel' =>
      if cur =? NONE then Ok false
      else if cur =? idx then Ok true
      else t ← vindex (slots s) cur; is_free_loop fuel' s (si_next t) idx
  end.
Definition is_free (s : Slab T) (idx : Z) : Res bool :=
  is_free_loop (S (length (slots s))) s (free_head s) idx.

Fixpoint free_count_loop (fuel : nat) (s : Slab T) (cur n : Z) : Res Z :=
  match fuel with
  | O => Diverged
  | S fuel' =>
      if cur =? NONE then Ok n
      else t ← vindex (slots s) cur; free_count_loop fuel' s (si_next t) (wrap_u32 (n + 1))
  end.
Definition free_count (s : Slab T) : Res Z :=
  free_count_loop (S (length (slots s))) s (free_head s) 0.

Fixpoint free_handles_loop (fuel : nat) (s : Slab T) (cur : Z) : Res (list Z) :=
  match fuel with
  | O => Diverged
  | S fuel' =>
      if cur =? NONE then Ok []
      else t ← vindex (slots s) cur;
           tl ← free_handles_loop fuel' s (si_next t); Ok (cur :: tl)
  end.
Definition free_handles (s : Slab T) : Res (list Z) :=
  free_handles_loop (S (length (slots s))) s (free_head s).

Definition restore_step (s : Slab T) (idx : Z) : Res (Slab T) :=
  slots' ← vmodify (slots s) idx (fun t => si_set_next t (free_head s));
  Ok (mkSlab slots' idx (bump_next s)).
Definition restore_free_handles (s : Slab T) (handles : list Z) : Res (Slab T) :=
  rfold restore_step (mkSlab (slots s) NONE (bump_next s)) (reverse handles).

Definition set_bump_next (s : Slab T) (val : Z) : Slab T :=
  mkSlab (slots s) (free_head s) val.

(** ** The representation invariant

    [chain nx h fl]: following [nx] from [h] visits exactly [fl] and ends at
    [NONE]. *)
Definition snext (s : Slab T) (i : Z) : Z :=
  match vget (slots s) i with Some t => si_next t | None => NONE end.

Fixpoint chain (nx : Z -> Z) (h : Z) (fl : list Z) : Prop :=
  match fl with
  | [] => h = NONE
  | x :: tl => h = x /\ chain nx (nx x) tl
  end.

Record slab_inv (s : Slab T) (fl : list Z) : Prop := {
  si_chain : chain (snext s) (free_head s) fl;
  si_nodup : NoDup fl;
  si_range : forall x, In x fl -> 0 <= x < bump_next s;
  si_bump : 0 <= bump_next s <= zlen (slots s);
  si_cap : zlen (slots s) <= NONE;
}.

(** A handle is live when it has been handed out and is not on the freelist. *)
Definition live (s : Slab T) (fl : list Z) (h : Z) : Prop :=
  0 <= h < bump_next s /\ ~ In h fl.

(** *** Operation sequences

    A client that frees only handles it holds. *)
Inductive slab_op : Type := OpAlloc | OpFree (h : Z).

Inductive slab_step : Slab T * list Z -> slab_op -> Slab T * list Z -> Prop :=
| step_alloc s s' held h :
    alloc s = Ok (h, s') -> slab_step (s, held) OpAlloc (s', h :: held)
| step_free s s' held1 held2 h :
    free s h = Ok s' ->
    slab_step (s, held1 ++ h :: held2) (OpFree h) (s', held1 ++ held2).

Inductive slab_reach (cap : Z) : Slab T * list Z -> Prop :=
| reach_new : slab_reach cap (Slab_new cap, [])
| reach_step st op st' : slab_reach cap st -> slab_step st op st' -> slab_reach cap st'.

End Operations.

(** ** Properties *)

Section Properties.
Context {T : Type} `{SlabItemLaws T}.
Implicit Types (s : Slab T) (fl : list Z).

Lemma chain_ext (nx nx' : Z -> Z) h fl :
  (forall x, In x fl -> nx x = nx' x) -> chain nx h fl -> chain nx' h fl.
Proof.
  revert h. induction fl as [|x fl IH]; intros h He; [done|].
  intros [-> Hc]. split; [done|]. rewrite <- (He x) by by left.
  apply IH; [|done]. intros y Hy. apply He. by right.
Qed.

Lemma slab_inv_ext s s' fl :
  slab_inv s fl -> zlen (slots s') = zlen (slots s) ->
  free_head s' = free_head s -> bump_next s' = bump_next s ->
  (forall x, In x fl -> snext s' x = snext s x) -> slab_inv s' fl.
Proof.
  intros [] Hl Hf Hb Hn. split; rewrite ?Hl, ?Hf, ?Hb; try done.
  eapply chain_ext; [|done]. intros x Hx. symmetry. by apply Hn.
Qed.

Lemma new_inv cap : 0 <= cap <= NONE -> slab_inv (Slab_new cap : Slab T) [].
Proof.
  intros Hc. unfold Slab_new. split; simpl; try done; [constructor | |].
  - rewrite zlen_replicate by lia. lia.
  - rewrite zlen_replicate by lia. lia.
Qed.

Lemma head_in_range s x fl : slab_inv s (x :: fl) -> 0 <= x < zlen (slots s).
Proof. intros Hi. pose proof (si_range _ _ Hi x (or_introl eq_refl)). pose proof (si_bump _ _ Hi). lia. Qed.

(** Allocation reuses the freelist head first... *)
Lemma alloc_reuse s x fl :
  slab_inv s (x :: fl) ->
  exists s', alloc s = Ok (x, s') /\ slab_inv s' fl /\ slots s' = slots s /\
    bump_next s' = bump_next s.
Proof.
  intros Hi. pose proof (head_in_range _ _ _ Hi) as Hx. pose proof (si_cap _ _ Hi) as Hcap.
  destruct Hi as [[Hh Hc] Hn Hr Hb Hcap']. unfold alloc. rewrite Hh.
  replace (x =? NONE) with false by lia. simpl.
  destruct (vget_is_some (slots s) x Hx) as [t Ht].
  rewrite (vindex_some _ _ _ Ht). simpl. eexists. split; [reflexivity|].
  unfold snext at 2 in Hc. rewrite Ht in Hc.
  split; [|done]. apply NoDup_cons in Hn as [_ Hn].
  split; simpl; try done. intros y Hy. apply Hr. by right.
Qed.

(** ...then bumps... *)
Lemma alloc_bump s :
  slab_inv s [] -> bump_next s < zlen (slots s) ->
  exists s', alloc s = Ok (bump_next s, s') /\ slab_inv s' [] /\ slots s' = slots s /\
    bump_next s' = bump_next s + 1.
Proof.
  intros [Hc Hn Hr Hb Hcap] Hlt. unfold alloc. simpl in Hc. rewrite Hc.
  rewrite Z.eqb_refl. simpl. replace (bump_next s <? zlen (slots s)) with true by lia.
  simpl. rewrite wrap_u32_id by (unfold NONE in Hcap; width_lia).
  eexists. split; [reflexivity|]. split; [|done].
  split; simpl; try done. lia.
Qed.

(** ...and aborts when every slot is live. *)
Lemma alloc_exhausted s :
  slab_inv s [] -> bump_next s = zlen (slots s) -> alloc s = Panic.
Proof.
  intros [Hc _ _ _ _] Hb. unfold alloc. simpl in Hc. rewrite Hc, Z.eqb_refl. simpl.
  by replace (bump_next s <? zlen (slots s)) with false by lia.
Qed.

Definition has_room (s : Slab T) (fl : list Z) : Prop :=
  fl <> [] \/ bump_next s < zlen (slots s).

(** The client view of [alloc]: a fresh handle becomes live, nothing else
    changes. *)
Lemma alloc_spec s fl :
  slab_inv s fl -> has_room s fl ->
  exists h s' fl', alloc s = Ok (h, s') /\ slab_inv s' fl' /\ slots s' = slots s /\
    0 <= h < zlen (slots s) /\ ~ live s fl h /\
    (forall x, live s' fl' x <-> live s fl x \/ x = h) /\ (forall x, In x fl' -> In x fl).
Proof.
  intros Hi Hroom. destruct fl as [|x fl].
  - destruct Hroom as [|Hlt]; [done|].
    destruct (alloc_bump s Hi Hlt) as (s' & E & Hi' & Hs & Hb).
    pose proof (si_bump _ _ Hi). exists (bump_next s), s', [].
    split; [done|]. split; [done|]. split; [done|]. split; [lia|].
    unfold live. rewrite Hb. split; [lia|]. split; [|done]. intros y. simpl. lia.
  - destruct (alloc_reuse s x fl Hi) as (s' & E & Hi' & Hs & Hb).
    pose proof (head_in_range _ _ _ Hi). pose proof (si_range _ _ Hi x (or_introl eq_refl)).
    pose proof (si_nodup _ _ Hi) as Hnd. apply NoDup_cons in Hnd as [Hnin _].
    rewrite list_elem_of_In in Hnin.
    exists x, s', fl. split; [done|]. split; [done|]. split; [done|]. split; [lia|].
    unfold live. rewrite Hb. split; [simpl; tauto|]. split; [|intros; by right].
    intros y. simpl. destruct (Z.eq_dec x y) as [->|]; tauto || intuition congruence.
Qed.

(** Freeing a live handle pushes it on the freelist. *)
Lemma free_spec s fl h :
  slab_inv s fl -> live s fl h ->
  exists s', free s h = Ok s' /\ slab_inv s' (h :: fl) /\ bump_next s' = bump_next s /\
    zlen (slots s') = zlen (slots s) /\
    (forall t, vget (slots s) h = Some t ->
       slots s' = vput (slots s) h (si_set_next t (free_head s))).
Proof.
  intros Hi [Hr Hnin]. pose proof (si_bump _ _ Hi) as Hb.
  destruct (vget_is_some (slots s) h ltac:(lia)) as [t Ht].
  unfold free. replace (h <? zlen (slots s)) with true by lia. simpl.
  rewrite (vmodify_ok _ _ _ _ Ht). simpl. eexists. split; [reflexivity|]. simpl.
  split; [|split; [done|split; [apply zlen_vput|congruence]]].
  destruct Hi as [Hc Hn Hrg Hbb Hcap]. split; simpl.
  - split; [done|]. unfold snext at 2. simpl. rewrite vget_vput_eq by lia.
    rewrite si_next_set_next. eapply chain_ext; [|exact Hc].
    intros x Hx. unfold snext. simpl. rewrite vget_vput_ne; [done|]. congruence.
  - constructor; [by rewrite list_elem_of_In|done].
  - intros x [<-|Hx]; [lia|auto].
  - by rewrite zlen_vput.
  - by rewrite zlen_vput.
Qed.

(** An update that keeps [next] keeps the freelist. *)
Lemma update_spec s fl h (f : T -> T) t :
  slab_inv s fl -> vget (slots s) h = Some t ->
  (In h fl -> si_next (f t) = si_next t) ->
  exists s', update s h f = Ok s' /\ slots s' = vput (slots s) h (f t) /\
    slab_inv s' fl /\ free_head s' = free_head s /\ bump_next s' = bump_next s.
Proof.
  intros Hi Ht Hk. unfold update. rewrite (vmodify_ok _ _ _ _ Ht). simpl.
  eexists. split; [reflexivity|]. simpl. split; [done|]. split; [|done].
  apply (slab_inv_ext s); simpl; rewrite ?zlen_vput; try done.
  intros x Hx. unfold snext. simpl. pose proof (vget_some_range _ _ _ Ht).
  destruct (Z.eq_dec h x) as [<-|]; [|by rewrite vget_vput_ne].
  rewrite vget_vput_eq, Ht by done. by apply Hk.
Qed.

(** *** Freelist walks terminate and agree with the abstract freelist *)

Lemma nodup_range_length (fl : list Z) (b : Z) :
  NoDup fl -> (forall x, In x fl -> 0 <= x < b) -> Z.of_nat (length fl) <= Z.max 0 b.
Proof.
  intros Hn Hr. assert (fl ⊆+ zrange 0 b) as Hs.
  { apply NoDup_submseteq; [done|]. intros x. rewrite !list_elem_of_In, in_zrange. apply Hr. }
  apply submseteq_length in Hs. unfold zrange in Hs. rewrite length_seqZ in Hs. lia.
Qed.

Lemma fl_fits s fl : slab_inv s fl -> (length fl <= length (slots s))%nat.
Proof.
  intros Hi. pose proof (nodup_range_length fl (bump_next s) (si_nodup _ _ Hi) (si_range _ _ Hi)).
  pose proof (si_bump _ _ Hi). unfold zlen in *. lia.
Qed.

Lemma fl_get s fl x : slab_inv s fl -> In x fl -> exists t, vget (slots s) x = Some t /\ snext s x = si_next t /\ x <> NONE.
Proof.
  intros Hi Hx. pose proof (si_range _ _ Hi x Hx). pose proof (si_bump _ _ Hi). pose proof (si_cap _ _ Hi).
  destruct (vget_is_some (slots s) x ltac:(lia)) as [t Ht]. exists t. unfold snext. rewrite Ht.
  repeat split; lia.
Qed.

Lemma free_handles_loop_spec s fl0 fl fuel cur :
  slab_inv s fl0 -> (forall x, In x fl -> In x fl0) -> chain (snext s) cur fl ->
  (length fl < fuel)%nat -> free_handles_loop fuel s cur = Ok fl.
Proof.
  intros Hi. revert fuel cur. induction fl as [|x fl IH]; intros fuel cur Hs Hc Hf;
    (destruct fuel as [|fuel]; [simpl in Hf; lia|]); cbn [free_handles_loop].
  - simpl in Hc. subst. by rewrite Z.eqb_refl.
  - destruct Hc as [-> Hc]. destruct (fl_get s fl0 x Hi) as (t & Ht & Hsn & Hne); [apply Hs; by left|].
    replace (x =? NONE) with false by lia. rewrite (vindex_some _ _ _ Ht). cbn.
    rewrite Hsn in Hc. rewrite (IH fuel (si_next t)); [done| |done|simpl in Hf; lia].
    intros y Hy. apply Hs. by right.
Qed.

Lemma free_handles_spec s fl : slab_inv s fl -> free_handles s = Ok fl.
Proof.
  intros Hi. unfold free_handles. eapply free_handles_loop_spec; [done|done|apply Hi|].
  pose proof (fl_fits s fl Hi). lia.
Qed.

Lemma free_count_loop_spec s fl0 fl fuel cur n :
  slab_inv s fl0 -> (forall x, In x fl -> In x fl0) -> chain (snext s) cur fl ->
  (length fl < fuel)%nat -> 0 <= n -> n + zlen fl <= U32_MAX ->
  free_count_loop fuel s cur n = Ok (n + zlen fl).
Proof.
  intros Hi. revert fuel cur n. induction fl as [|x fl IH]; intros fuel cur n Hs Hc Hf Hn Hb;
    (destruct fuel as [|fuel]; [simpl in Hf; lia|]); cbn [free_count_loop].
  - simpl in Hc. subst. rewrite Z.eqb_refl. f_equal. unfold zlen. simpl. lia.
  - destruct Hc as [-> Hc]. destruct (fl_get s fl0 x Hi) as (t & Ht & Hsn & Hne); [apply Hs; by left|].
    replace (x =? NONE) with false by lia. rewrite (vindex_some _ _ _ Ht). cbn.
    rewrite Hsn in Hc. unfold zlen in *. simpl length in *.
    rewrite wrap_u32_id by width_lia.
    rewrite (IH fuel (si_next t)); [f_equal; lia| |done|lia|lia|lia].
    intros y Hy. apply Hs. by right.
Qed.

Lemma free_count_spec s fl : slab_inv s fl -> free_count s = Ok (zlen fl).
Proof.
  intros Hi. unfold free_count. pose proof (fl_fits s fl Hi). pose proof (si_cap _ _ Hi).
  rewrite (free_count_loop_spec s fl fl); [f_equal; lia|done|done|apply Hi|lia|lia|].
  unfold zlen, NONE in *. lia.
Qed.

Lemma is_free_loop_spec s fl0 fl fuel cur idx :
  slab_inv s fl0 -> (forall x, In x fl -> In x fl0) -> chain (snext s) cur fl ->
  (length fl < fuel)%nat -> idx <> NONE ->
  exists b, is_free_loop fuel s cur idx = Ok b /\ (b = true <-> In idx fl).
Proof.
  intros Hi. revert fuel cur. induction fl as [|x fl IH]; intros fuel cur Hs Hc Hf Hne;
    (destruct fuel as [|fuel]; [simpl in Hf; lia|]); cbn [is_free_loop].
  - simpl in Hc. subst. rewrite Z.eqb_refl. exists false. done.
  - destruct Hc as [-> Hc]. destruct (fl_get s fl0 x Hi) as (t & Ht & Hsn & Hnx); [apply Hs; by left|].
    replace (x =? NONE) with false by lia.
    destruct (x =? idx) eqn:E; bool_to_prop.
    { exists true. subst. simpl. tauto. }
    rewrite (vindex_some _ _ _ Ht). cbn. rewrite Hsn in Hc.
    destruct (IH fuel (si_next t)) as (b & Eb & Hb); [|done|simpl in Hf; lia|done|].
    { intros y Hy. apply Hs. by right. }
    exists b. split; [done|]. rewrite Hb. simpl. intuition congruence.
Qed.

Lemma is_free_spec s fl idx :
  slab_inv s fl -> idx <> NONE -> exists b, is_free s idx = Ok b /\ (b = true <-> In idx fl).
Proof.
  intros Hi Hne. eapply is_free_loop_spec; [done|done|apply Hi| |done].
  pose proof (fl_fits s fl Hi). lia.
Qed.

(** Restoring a recorded freelist reproduces the recorded allocation order. *)
Lemma restore_fold s hs acc :
  NoDup (hs ++ acc) -> slab_inv s acc ->
  (forall x, In x hs -> 0 <= x < bump_next s) ->
  exists s', rfold restore_step s (reverse hs) = Ok s' /\ slab_inv s' (hs ++ acc) /\
    bump_next s' = bump_next s /\ zlen (slots s') = zlen (slots s).
Proof.
  revert s acc. induction hs as [|x hs IH] using rev_ind; intros s acc Hn Hi Hr.
  { simpl. eauto. }
  rewrite reverse_snoc. cbn [rfold].
  rewrite <- app_assoc in Hn |- *. simpl in *.
  assert (In x (hs ++ [x])) as Hx by (apply in_app_iff; right; by left).
  pose proof (Hr x Hx) as Hxr. pose proof (si_bump _ _ Hi).
  destruct (vget_is_some (slots s) x ltac:(lia)) as [t Ht].
  assert (slab_inv s acc /\ live s acc x) as [_ Hl].
  { split; [done|]. split; [done|]. apply NoDup_app in Hn as (_ & _ & Hn).
    apply NoDup_cons in Hn as [Hn _]. by rewrite list_elem_of_In in Hn. }
  destruct (free_spec s acc x Hi Hl) as (s' & E & Hi' & Hb & Hlen & _).
  assert (restore_step s x = Ok s') as Er.
  { unfold free in E. replace (x <? zlen (slots s)) with true in E by lia. exact E. }
  rewrite Er. cbn.
  destruct (IH s' (x :: acc)) as (s2 & E2 & Hi2 & Hb2 & Hl2); [done|done| |].
  { intros y Hy. rewrite Hb. apply Hr. apply in_app_iff. by left. }
  exists s2. rewrite E2. split; [done|]. split; [done|]. split; congruence.
Qed.

Lemma restore_free_handles_spec s hs :
  NoDup hs -> (forall x, In x hs -> 0 <= x < bump_next s) ->
  0 <= bump_next s <= zlen (slots s) -> zlen (slots s) <= NONE ->
  exists s', restore_free_handles s hs = Ok s' /\ slab_inv s' hs /\
    bump_next s' = bump_next s /\ zlen (slots s') = zlen (slots s) /\ free_handles s' = Ok hs.
Proof.
  intros Hn Hr Hb Hc. unfold restore_free_handles.
  destruct (restore_fold (mkSlab (slots s) NONE (bump_next s)) hs []) as (s' & E & Hi & Hb' & Hl).
  - by rewrite app_nil_r.
  - split; simpl; try done. constructor.
  - done.
  - rewrite app_nil_r in Hi. exists s'. pose proof (free_handles_spec _ _ Hi). done.
Qed.

(** *** Reachable arenas *)

Definition held_inv (st : Slab T * list Z) : Prop :=
  exists fl, slab_inv st.1 fl /\ NoDup (st.2 ++ fl) /\
    (forall x, In x (st.2 ++ fl) <-> 0 <= x < bump_next st.1).

Lemma held_inv_step st op st' : held_inv st -> slab_step st op st' -> held_inv st'.
Proof.
  intros (fl & Hi & Hn & Hall) Hs. destruct Hs as [s s' held h E | s s' l1 l2 h E]; simpl in *.
  - destruct fl as [|x fl].
    + destruct (decide (bump_next s < zlen (slots s))) as [Hlt|Hge].
      * destruct (alloc_bump s Hi Hlt) as (s2 & E2 & Hi2 & _ & Hb). rewrite E in E2. simplify_eq.
        exists []. rewrite app_nil_r in *. simpl. split; [done|]. split.
        -- constructor; [|done]. rewrite list_elem_of_In, Hall. lia.
        -- intros x. simpl. rewrite Hall, Hb. pose proof (si_bump _ _ Hi). lia.
      * rewrite alloc_exhausted in E; [done|done|]. pose proof (si_bump _ _ Hi). lia.
    + destruct (alloc_reuse s x fl Hi) as (s2 & E2 & Hi2 & _ & Hb). rewrite E in E2. injection E2 as -> ->.
      exists fl. simpl. split; [done|]. rewrite Hb.
      assert (x :: held ++ fl ≡ₚ held ++ x :: fl) as Hp by apply Permutation_middle.
      split; [by rewrite Hp|]. intros y. rewrite <- Hall.
    split; [apply (Permutation_in y Hp) | apply (Permutation_in y (Permutation_sym Hp))].
  - assert (l1 ++ h :: l2 ++ fl ≡ₚ (l1 ++ l2) ++ h :: fl) as Hp.
    { rewrite <- app_assoc, <- !Permutation_middle. done. }
    rewrite <- app_assoc in Hn, Hall. simpl in Hn, Hall.
    assert (live s fl h) as Hlv.
    { split; [apply Hall, in_app_iff; right; by left|].
      rewrite Hp in Hn. apply NoDup_app in Hn as (_ & _ & Hn). apply NoDup_cons in Hn as [Hn _].
      by rewrite list_elem_of_In in Hn. }
    destruct (free_spec s fl h Hi Hlv) as (s2 & E2 & Hi2 & Hb & _). rewrite E in E2. simplify_eq.
    exists (h :: fl). simpl. split; [done|]. rewrite Hb. split; [by rewrite <- Hp|].
    intros y. rewrite <- Hall.
    split; [apply (Permutation_in y (Permutation_sym Hp)) | apply (Permutation_in y Hp)].
Qed.

Lemma reach_held_inv cap st : 0 <= cap <= NONE -> slab_reach cap st -> held_inv st.
Proof.
  intros Hc. induction 1 as [|st op st' _ IH Hs].
  - exists []. simpl. split; [by apply new_inv|]. split; [constructor|]. intros. simpl. lia.
  - by eapply held_inv_step.
Qed.

End Properties.
