(* ===== verification/Occupancy.v ===== *)
(** * Occupancy: the hierarchical bitmap [rsx-book/src/occupancy.rs]

    [levels[0]] holds one bit per compression slot; [levels[k+1]] holds one
    bit per word of [levels[k]], set iff that word is non-zero.  The contract
    is a set of slots: [set] adds, [clear] removes, and the four searches
    return the extremal element of the set in a range. *)

From S2P Require Import Prelude Types.

Record Occupancy : Type := mkOcc { levels : list (list Z); occ_n : Z }.

(** ** Word operations of the standard library *)

Definition trailing_zeros (w : Z) : Z :=
  match list_find (fun i => Z.testbit w i = true) (zrange 0 64) with
  | Some (_, i) => i
  | None => 64
  end.
Definition leading_zeros (w : Z) : Z :=
  match list_find (fun i => Z.testbit w i = true) (reverse (zrange 0 64)) with
  | Some (_, i) => 63 - i
  | None => 64
  end.

(** ** Operations *)

(** Each round divides the count by 64, so 12 rounds cover a [usize]. *)
Fixpoint new_loop (fuel : nat) (count : Z) : Res (list (list Z)) :=
  match fuel with
  | O => Diverged
  | S fuel' =>
      let words := Z.max ((count + 63) / 64) 1 in
      let level := replicate (Z.to_nat words) 0 in
      if words =? 1 then Ok [level]
      else rest ← new_loop fuel' words; Ok (level :: rest)
  end.
Definition Occupancy_new (n : Z) : Res Occupancy :=
  lv ← new_loop 12 n; Ok (mkOcc lv n).

Fixpoint set_levels (lv : list (list Z)) (i : Z) : Res (list (list Z)) :=
  match lv with
  | [] => Ok []
  | level :: rest =>
      let word := Z.shiftr i 6 in
      let bit := Z.land i 63 in
      prev ← vindex level word;
      level' ← vset level word (Z.lor prev (Z.shiftl 1 bit));
      if negb (prev =? 0) then Ok (level' :: rest)
      else rest' ← set_levels rest word; Ok (level' :: rest')
  end.
Definition set (o : Occupancy) (i : Z) : Res Occupancy :=
  lv ← set_levels (levels o) i; Ok (mkOcc lv (occ_n o)).

Fixpoint clear_levels (lv : list (list Z)) (i : Z) : Res (list (list Z)) :=
  match lv with
  | [] => Ok []
  | level :: rest =>
      let word := Z.shiftr i 6 in
      let bit := Z.land i 63 in
      prev ← vindex level word;
      let w := Z.land prev (Z.lxor U64_MAX (Z.shiftl 1 bit)) in
      level' ← vset level word w;
      if negb (w =? 0) then Ok (level' :: rest)
      else rest' ← clear_levels rest word; Ok (level' :: rest')
  end.
Definition clear (o : Occupancy) (i : Z) : Res Occupancy :=
  lv ← clear_levels (levels o) i; Ok (mkOcc lv (occ_n o)).

(** The climb passes a level at a time; the levels already passed are kept
    nearest first, and the descent walks back down through them. *)
Fixpoint descend_next (below : list (list Z)) (pos : Z) : Res Z :=
  match below with
  | [] => Ok pos
  | level :: below' =>
      w ← vindex level pos;
      descend_next below' (pos * 64 + trailing_zeros w)
  end.

Fixpoint climb_next (below rest : list (list Z)) (idx : Z) : Res (option Z) :=
  match rest with
  | [] => Ok None
  | level :: rest' =>
      let word := Z.shiftr idx 6 in
      if word >=? zlen level then Ok None
      else
        w ← vindex level word;
        let masked := Z.land w (wrap_u64 (Z.shiftl U64_MAX (Z.land idx 63))) in
        if negb (masked =? 0) then
          pos ← descend_next below (word * 64 + trailing_zeros masked);
          Ok (Some (wrap_u32 pos))
        else climb_next (level :: below) rest' (word + 1)
  end.

Definition find_next (o : Occupancy) (from : Z) : Res (option Z) :=
  if from >=? occ_n o then Ok None else climb_next [] (levels o) from.

Fixpoint descend_prev (below : list (list Z)) (pos : Z) : Res Z :=
  match below with
  | [] => Ok pos
  | level :: below' =>
      w ← vindex level pos;
      descend_prev below' (pos * 64 + (63 - leading_zeros w))
  end.

Fixpoint climb_prev (below rest : list (list Z)) (idx : Z) : Res (option Z) :=
  match rest with
  | [] => Ok None
  | level :: rest' =>
      let word := Z.shiftr idx 6 in
      let off := Z.land idx 63 in
      let mask := if off =? 63 then U64_MAX else Z.shiftl 1 (off + 1) - 1 in
      w ← vindex level word;
      let masked := Z.land w mask in
      if negb (masked =? 0) then
        pos ← descend_prev below (word * 64 + (63 - leading_zeros masked));
        Ok (Some (wrap_u32 pos))
      else if word =? 0 then Ok None
      else climb_prev (level :: below) rest' (word - 1)
  end.

Definition find_prev (o : Occupancy) (from : Z) : Res (option Z) :=
  if occ_n o =? 0 then Ok None
  else climb_prev [] (levels o) (Z.min from (occ_n o - 1)).

Definition find_first_in (o : Occupancy) (lo hi : Z) : Res (option Z) :=
  if lo >=? hi then Ok None
  else r ← find_next o lo;
       Ok (match r with Some b => if b <? hi then Some b else None | None => None end).

Definition find_last_in (o : Occupancy) (lo hi : Z) : Res (option Z) :=
  if lo >=? hi then Ok None
  else r ← find_prev o (hi - 1);
       Ok (match r with Some b => if b >=? lo then Some b else None | None => None end).

(** ** The abstraction and the invariant *)

(** Bit [i] of a level. *)
Definition bit (l : list Z) (i : Z) : bool :=
  match vget l (i / 64) with Some w => Z.testbit w (i mod 64) | None => false end.

(** The set a bitmap stands for. *)
Definition mem (o : Occupancy) (i : Z) : bool :=
  match levels o with l :: _ => bit l i | [] => false end.

Definition word_ok (w : Z) : Prop := 0 <= w < 2 ^ 64.

Record level_ok (cnt : Z) (l : list Z) : Prop := {
  lk_len : zlen l = Z.max ((cnt + 63) / 64) 1;
  lk_words : forall i w, vget l i = Some w -> word_ok w;
  lk_bits : forall i, bit l i = true -> 0 <= i < cnt;
}.

Definition summarizes (l up : list Z) : Prop :=
  forall w, bit up w = true <-> exists i, i / 64 = w /\ bit l i = true.

Fixpoint levels_ok (cnt : Z) (lv : list (list Z)) : Prop :=
  match lv with
  | [] => False
  | l :: rest =>
      level_ok cnt l /\
      match rest with
      | [] => zlen l = 1
      | up :: _ => 1 < zlen l /\ summarizes l up /\ levels_ok (zlen l) rest
      end
  end.

Definition occ_inv (o : Occupancy) : Prop :=
  0 <= occ_n o <= U32_MAX /\ levels_ok (occ_n o) (levels o).

(** ** Words *)

Lemma testbit_high w k : word_ok w -> 64 <= k -> Z.testbit w k = false.
Proof.
  intros Hw Hk. destruct (Z.eq_dec w 0) as [->|]; [apply Z.bits_0|].
  apply Z.bits_above_log2; [apply Hw|].
  assert (Z.log2 w < 64) by (apply Z.log2_lt_pow2; unfold word_ok in Hw; lia). lia.
Qed.

Lemma word_nonzero w : word_ok w -> (w <> 0 <-> exists k, 0 <= k < 64 /\ Z.testbit w k = true).
Proof.
  intros Hw. split.
  - intros Hne. exists (Z.log2 w). pose proof (Z.log2_nonneg w).
    assert (Z.log2 w < 64) by (apply Z.log2_lt_pow2; unfold word_ok in Hw; lia).
    split; [lia|]. apply Z.bit_log2. unfold word_ok in Hw. lia.
  - intros (k & _ & Hk) ->. by rewrite Z.bits_0 in Hk.
Qed.

Lemma trailing_zeros_spec w :
  word_ok w -> w <> 0 ->
  0 <= trailing_zeros w < 64 /\ Z.testbit w (trailing_zeros w) = true /\
  (forall k, 0 <= k < 64 -> Z.testbit w k = true -> trailing_zeros w <= k).
Proof.
  intros Hw Hne. unfold trailing_zeros.
  destruct (list_find _ _) as [[j x]|] eqn:E.
  - apply list_find_Some in E as (E1 & E2 & E3).
    apply lookup_seqZ in E1 as [-> Hj]. split; [lia|]. split; [done|].
    intros k Hk Htk. destruct (Z.lt_ge_cases k (0 + Z.of_nat j)) as [Hlt|]; [|done].
    exfalso. eapply (E3 (Z.to_nat k) k); [apply lookup_seqZ; lia|lia|done].
  - exfalso. apply list_find_None in E. rewrite Forall_forall in E.
    apply (word_nonzero w Hw) in Hne as (k & Hk & Ht).
    eapply E; [|exact Ht]. apply list_elem_of_In, in_zrange. lia.
Qed.

Lemma leading_zeros_spec w :
  word_ok w -> w <> 0 ->
  0 <= 63 - leading_zeros w < 64 /\ Z.testbit w (63 - leading_zeros w) = true /\
  (forall k, 0 <= k < 64 -> Z.testbit w k = true -> k <= 63 - leading_zeros w).
Proof.
  intros Hw Hne. unfold leading_zeros.
  destruct (list_find _ _) as [[j x]|] eqn:E.
  - apply list_find_Some in E as (E1 & E2 & E3).
    assert (forall m, (m < 64)%nat -> reverse (zrange 0 64) !! m = Some (63 - Z.of_nat m)) as Hrev.
    { intros m Hm. rewrite reverse_lookup by (unfold zrange; rewrite length_seqZ; lia).
      apply lookup_seqZ. unfold zrange. rewrite length_seqZ. lia. }
    assert (j < 64)%nat as Hj.
    { apply lookup_lt_Some in E1. rewrite length_reverse in E1. unfold zrange in E1. rewrite length_seqZ in E1. lia. }
    rewrite Hrev in E1 by done. injection E1 as <-.
    replace (63 - (63 - (63 - Z.of_nat j))) with (63 - Z.of_nat j) by lia.
    split; [lia|]. split; [done|].
    intros k Hk Htk. destruct (Z.lt_ge_cases (63 - Z.of_nat j) k) as [Hlt|]; [|done].
    exfalso. eapply (E3 (Z.to_nat (63 - k)) k); [rewrite Hrev by lia; f_equal; lia|lia|done].
  - exfalso. apply list_find_None in E. rewrite Forall_forall in E.
    apply (word_nonzero w Hw) in Hne as (k & Hk & Ht).
    eapply E; [|exact Ht]. rewrite elem_of_reverse. apply list_elem_of_In, in_zrange. lia.
Qed.

Lemma lor_word_ok w b : word_ok w -> 0 <= b < 64 -> word_ok (Z.lor w (Z.shiftl 1 b)).
Proof.
  intros Hw Hb. rewrite Z.shiftl_1_l.
  assert (0 <= Z.lor w (2 ^ b)) by (apply Z.lor_nonneg; unfold word_ok in Hw; lia).
  split; [done|]. apply Z.log2_lt_cancel. rewrite (Z.log2_pow2 64) by lia.
  rewrite Z.log2_lor by (unfold word_ok in Hw; lia). rewrite Z.log2_pow2 by lia.
  apply Z.max_lub_lt; [|lia]. destruct (Z.eq_dec w 0) as [->|]; [simpl; lia|].
  apply Z.log2_lt_pow2; unfold word_ok in Hw; lia.
Qed.

Lemma testbit_set w b k :
  0 <= b -> 0 <= k -> Z.testbit (Z.lor w (Z.shiftl 1 b)) k = Z.testbit w k || (k =? b).
Proof.
  intros Hb Hk. rewrite Z.shiftl_1_l, Z.lor_spec, Z.pow2_bits_eqb by lia. by rewrite (Z.eqb_sym b k).
Qed.

Lemma testbit_max k : 0 <= k -> Z.testbit U64_MAX k = (k <? 64).
Proof.
  intros Hk. change U64_MAX with (Z.ones 64).
  destruct (k <? 64) eqn:E; bool_to_prop; [apply Z.ones_spec_low | apply Z.ones_spec_high]; lia.
Qed.

Lemma testbit_clear w b k :
  word_ok w -> 0 <= b < 64 -> 0 <= k ->
  Z.testbit (Z.land w (Z.lxor U64_MAX (Z.shiftl 1 b))) k = Z.testbit w k && negb (k =? b).
Proof.
  intros Hw Hb Hk. rewrite Z.land_spec, Z.lxor_spec, Z.shiftl_1_l, Z.pow2_bits_eqb, testbit_max by lia.
  rewrite (Z.eqb_sym b k). destruct (k <? 64) eqn:E; bool_to_prop; simpl.
  - by destruct (k =? b).
  - by rewrite testbit_high.
Qed.

Lemma land_word_ok w m : word_ok w -> 0 <= m -> word_ok (Z.land w m).
Proof.
  unfold word_ok. intros Hw Hm. pose proof (Z.land_nonneg w m).
  assert (0 <= Z.land w m) by (apply Z.land_nonneg; lia). split; [done|].
  destruct (Z.eq_dec (Z.land w m) 0) as [->|]; [lia|].
  apply Z.log2_lt_cancel. rewrite (Z.log2_pow2 64) by lia.
  eapply Z.le_lt_trans; [apply Z.log2_land; lia|].
  eapply Z.le_lt_trans; [apply Z.le_min_l|]. destruct (Z.eq_dec w 0) as [->|]; [simpl; lia|].
  apply Z.log2_lt_pow2; lia.
Qed.

Lemma index_word i : Z.shiftr i 6 = i / 64.
Proof. by rewrite Z.shiftr_div_pow2 by lia. Qed.

Lemma index_bit i : Z.land i 63 = i mod 64.
Proof. change 63 with (Z.ones 6). by rewrite Z.land_ones by lia. Qed.

Lemma masked_next_bits w i k :
  word_ok w -> 0 <= i -> 0 <= k < 64 ->
  Z.testbit (Z.land w (wrap_u64 (Z.shiftl U64_MAX (i mod 64)))) k =
  Z.testbit w k && (i mod 64 <=? k).
Proof.
  intros Hw Hi Hk. pose proof (Z.mod_pos_bound i 64 ltac:(lia)).
  rewrite Z.land_spec. f_equal. unfold wrap_u64. rewrite Z.mod_pow2_bits_low by lia.
  rewrite Z.shiftl_spec by lia. destruct (i mod 64 <=? k) eqn:E; bool_to_prop.
  - rewrite testbit_max by lia. apply Z.ltb_lt. lia.
  - apply Z.testbit_neg_r. lia.
Qed.

Definition prev_mask (off : Z) : Z := if off =? 63 then U64_MAX else Z.shiftl 1 (off + 1) - 1.

Lemma masked_prev_bits w off k :
  0 <= off < 64 -> 0 <= k < 64 ->
  Z.testbit (Z.land w (prev_mask off)) k = Z.testbit w k && (k <=? off).
Proof.
  intros Ho Hk. rewrite Z.land_spec. f_equal. unfold prev_mask.
  destruct (off =? 63) eqn:E; bool_to_prop.
  - rewrite testbit_max by lia. destruct (k <=? off) eqn:E2; bool_to_prop; [apply Z.ltb_lt|apply Z.ltb_ge]; lia.
  - replace (Z.shiftl 1 (off + 1) - 1) with (Z.ones (off + 1)).
    2: { rewrite Z.ones_equiv, Z.shiftl_1_l. lia. }
    destruct (k <=? off) eqn:E2; bool_to_prop; [apply Z.ones_spec_low|apply Z.ones_spec_high]; lia.
Qed.

Lemma prev_mask_nonneg off : 0 <= off -> 0 <= prev_mask off.
Proof.
  intros. unfold prev_mask. case_if; [width_lia|]. rewrite Z.shiftl_1_l.
  pose proof (Z.pow_pos_nonneg 2 (off + 1)). lia.
Qed.

(** ** Levels *)

Lemma bit_in_word l i : bit l i = true -> exists w, vget l (i / 64) = Some w /\ Z.testbit w (i mod 64) = true.
Proof. unfold bit. destruct (vget l (i / 64)) as [w|]; [eauto|discriminate]. Qed.

Lemma bit_of_word l p w k :
  vget l p = Some w -> 0 <= k < 64 -> bit l (p * 64 + k) = Z.testbit w k.
Proof.
  intros Hp Hk. unfold bit.
  replace ((p * 64 + k) / 64) with p by dlia. replace ((p * 64 + k) mod 64) with k by dlia.
  by rewrite Hp.
Qed.

Lemma bit_vput l p w j :
  0 <= p < zlen l ->
  bit (vput l p w) j = if j / 64 =? p then Z.testbit w (j mod 64) else bit l j.
Proof.
  intros Hp. unfold bit. destruct (j / 64 =? p) eqn:E; bool_to_prop.
  - rewrite E, vget_vput_eq by done. done.
  - rewrite vget_vput_ne by lia. done.
Qed.

Lemma level_word_get cnt l i :
  level_ok cnt l -> 0 <= i < cnt -> exists w, vget l (i / 64) = Some w /\ word_ok w /\ 0 <= i / 64 < zlen l.
Proof.
  intros [Hl Hw _] Hi. assert (0 <= i / 64 < zlen l) as Hr by (rewrite Hl; dlia).
  destruct (vget_is_some l (i / 64) Hr) as [w Ew]. eauto.
Qed.

Lemma word_zero_iff cnt l p w :
  level_ok cnt l -> vget l p = Some w -> (w <> 0 <-> exists i, i / 64 = p /\ bit l i = true).
Proof.
  intros Hl Hp. rewrite (word_nonzero w (lk_words _ _ Hl _ _ Hp)). split.
  - intros (k & Hk & Ht). exists (p * 64 + k). split; [dlia|]. by rewrite (bit_of_word _ _ _ _ Hp Hk).
  - intros (i & <- & Hb). apply bit_in_word in Hb as (w' & Hw' & Ht).
    rewrite Hp in Hw'. injection Hw' as <-. exists (i mod 64). split; [|done].
    apply Z.mod_pos_bound. lia.
Qed.

Lemma level_ok_vput cnt l i w :
  level_ok cnt l -> 0 <= i < cnt -> word_ok w ->
  (forall k, 0 <= k < 64 -> k <> i mod 64 -> Z.testbit w k = true -> bit l (i / 64 * 64 + k) = true) ->
  level_ok cnt (vput l (i / 64) w).
Proof.
  intros Hl Hi Hw Hb. destruct (level_word_get cnt l i Hl Hi) as (w0 & Hw0 & _ & Hr).
  split.
  - rewrite zlen_vput. apply Hl.
  - intros p v. rewrite vget_vput. case_if; [intros [= <-]; done|]. apply Hl.
  - intros j. rewrite bit_vput by done. case_if; [|apply Hl]. bool_to_prop. intros Ht.
    destruct (Z.eq_dec (j mod 64) (i mod 64)) as [E|E].
    { replace j with i; [lia|]. dlia. }
    apply (lk_bits _ _ Hl). replace j with (i / 64 * 64 + j mod 64) by dlia.
    apply Hb; [apply Z.mod_pos_bound; lia|done|done].
Qed.

Lemma eq_index i j : (j / 64 =? i / 64) && (j mod 64 =? i mod 64) = (j =? i).
Proof.
  destruct (j =? i) eqn:E; bool_to_prop.
  - subst. by rewrite !Z.eqb_refl.
  - apply andb_false_iff. rewrite !Z.eqb_neq.
    destruct (Z.eq_dec (j / 64) (i / 64)); [right|by left]. intros ?. apply E. dlia.
Qed.

Lemma bit_after_set l i w j :
  vget l (i / 64) = Some w -> word_ok w ->
  bit (vput l (i / 64) (Z.lor w (Z.shiftl 1 (i mod 64)))) j = bit l j || (j =? i).
Proof.
  intros Hw Hok. rewrite bit_vput by by eapply vget_some_range.
  rewrite <- (eq_index i j). unfold bit. pose proof (Z.mod_pos_bound i 64 ltac:(lia)).
  pose proof (Z.mod_pos_bound j 64 ltac:(lia)).
  destruct (j / 64 =? i / 64) eqn:E; bool_to_prop; simpl.
  - rewrite E, Hw. by rewrite testbit_set by lia.
  - by rewrite orb_false_r.
Qed.

Lemma bit_after_clear l i w j :
  vget l (i / 64) = Some w -> word_ok w ->
  bit (vput l (i / 64) (Z.land w (Z.lxor U64_MAX (Z.shiftl 1 (i mod 64))))) j = bit l j && negb (j =? i).
Proof.
  intros Hw Hok. rewrite bit_vput by by eapply vget_some_range.
  rewrite <- (eq_index i j). unfold bit. pose proof (Z.mod_pos_bound i 64 ltac:(lia)).
  pose proof (Z.mod_pos_bound j 64 ltac:(lia)).
  destruct (j / 64 =? i / 64) eqn:E; bool_to_prop; simpl.
  - rewrite E, Hw. by rewrite testbit_clear by (done || lia).
  - by rewrite andb_true_r.
Qed.

(** ** Updates *)

Lemma set_levels_spec cnt lv i :
  levels_ok cnt lv -> 0 <= i < cnt ->
  exists l lv' rest' rest, lv = l :: rest /\ set_levels lv i = Ok (lv' :: rest') /\
    levels_ok cnt (lv' :: rest') /\ zlen lv' = zlen l /\
    (forall j, bit lv' j = bit l j || (j =? i)).
Proof.
  revert cnt i. induction lv as [|l rest IH]; intros cnt i Hok Hi; [done|].
  destruct Hok as [Hl Hrest]. destruct (level_word_get cnt l i Hl Hi) as (w & Hw & Hwok & Hr).
  pose proof (Z.mod_pos_bound i 64 ltac:(lia)) as Hmod.
  cbn [set_levels]. rewrite index_word, index_bit, (vindex_some _ _ _ Hw). cbn [mbind Res_bind].
  rewrite vset_ok by done. cbn [mbind Res_bind].
  set (w' := Z.lor w (Z.shiftl 1 (i mod 64))).
  assert (level_ok cnt (vput l (i / 64) w')) as Hl'.
  { apply level_ok_vput; [done|done|by apply lor_word_ok|].
    intros k Hk Hne Ht. rewrite (bit_of_word _ _ _ _ Hw Hk). unfold w' in Ht.
    rewrite testbit_set in Ht by lia. apply orb_true_iff in Ht as [|?]; [done|]. bool_to_prop. lia. }
  assert (forall j, bit (vput l (i / 64) w') j = bit l j || (j =? i)) as Hbits
    by (intros j; by apply bit_after_set).
  destruct (w =? 0) eqn:E0; bool_to_prop; cbn [negb].
  - destruct rest as [|up rest2].
    + cbn. exists l, (vput l (i / 64) w'), [], []. rewrite zlen_vput. done.
    + destruct Hrest as (Hlen & Hsum & Hrec).
      destruct (IH (zlen l) (i / 64) Hrec Hr) as (u & lv' & rest' & rr & Eu & Es & Hok' & Hlz & Hb).
      injection Eu as <- <-. rewrite Es. cbn [mbind Res_bind].
      exists l, (vput l (i / 64) w'), (lv' :: rest'), (up :: rest2).
      split; [done|]. split; [done|]. rewrite ?zlen_vput. split; [|done].
      split; [done|]. rewrite ?zlen_vput. split; [done|]. split; [|done].
      intros v. rewrite Hb, orb_true_iff. rewrite (Hsum v). split.
      * intros [(j & <- & Hj)|?]; [exists j|exists i]; rewrite Hbits; bool_to_prop; subst.
        -- by rewrite Hj.
        -- by rewrite Z.eqb_refl, orb_true_r.
      * intros (j & <- & Hj). rewrite Hbits in Hj. apply orb_true_iff in Hj as [Hj|Hj].
        -- left. eauto.
        -- right. bool_to_prop. subst. apply Z.eqb_refl.
  - exists l, (vput l (i / 64) w'), rest, rest. split; [done|]. split; [done|].
    rewrite ?zlen_vput. split; [|done]. split; [done|]. rewrite ?zlen_vput.
    destruct rest as [|up rest2]; [done|]. destruct Hrest as (Hlen & Hsum & Hrec).
    split; [done|]. split; [|done]. intros v. rewrite (Hsum v). split.
    + intros (j & <- & Hj). exists j. by rewrite Hbits, Hj.
    + intros (j & <- & Hj). rewrite Hbits in Hj. apply orb_true_iff in Hj as [Hj|Hj]; [eauto|].
      bool_to_prop. subst j. by apply (word_zero_iff cnt l (i / 64) w Hl Hw).
Qed.

Lemma clear_levels_spec cnt lv i :
  levels_ok cnt lv -> 0 <= i < cnt ->
  exists l lv' rest' rest, lv = l :: rest /\ clear_levels lv i = Ok (lv' :: rest') /\
    levels_ok cnt (lv' :: rest') /\ zlen lv' = zlen l /\
    (forall j, bit lv' j = bit l j && negb (j =? i)).
Proof.
  revert cnt i. induction lv as [|l rest IH]; intros cnt i Hok Hi; [done|].
  destruct Hok as [Hl Hrest]. destruct (level_word_get cnt l i Hl Hi) as (w & Hw & Hwok & Hr).
  pose proof (Z.mod_pos_bound i 64 ltac:(lia)) as Hmod.
  cbn [clear_levels]. rewrite index_word, index_bit, (vindex_some _ _ _ Hw). cbn [mbind Res_bind].
  rewrite vset_ok by done. cbn [mbind Res_bind].
  set (w' := Z.land w (Z.lxor U64_MAX (Z.shiftl 1 (i mod 64)))).
  assert (word_ok w') as Hw'ok.
  { apply land_word_ok; [done|]. apply Z.lxor_nonneg. rewrite Z.shiftl_1_l.
    pose proof (Z.pow_pos_nonneg 2 (i mod 64)). width_lia. }
  assert (level_ok cnt (vput l (i / 64) w')) as Hl'.
  { apply level_ok_vput; [done|done|done|].
    intros k Hk Hne Ht. rewrite (bit_of_word _ _ _ _ Hw Hk). unfold w' in Ht.
    rewrite testbit_clear in Ht by (done || lia). by apply andb_true_iff in Ht as [? _]. }
  assert (forall j, bit (vput l (i / 64) w') j = bit l j && negb (j =? i)) as Hbits
    by (intros j; by apply bit_after_clear).
  assert (vget (vput l (i / 64) w') (i / 64) = Some w') as Hget by by apply vget_vput_eq.
  destruct (w' =? 0) eqn:E0; bool_to_prop; cbn [negb].
  - destruct rest as [|up rest2].
    + cbn. exists l, (vput l (i / 64) w'), [], []. rewrite zlen_vput. done.
    + destruct Hrest as (Hlen & Hsum & Hrec).
      destruct (IH (zlen l) (i / 64) Hrec Hr) as (u & lv' & rest' & rr & Eu & Es & Hok' & Hlz & Hb).
      injection Eu as <- <-. rewrite Es. cbn [mbind Res_bind].
      exists l, (vput l (i / 64) w'), (lv' :: rest'), (up :: rest2).
      split; [done|]. split; [done|]. rewrite ?zlen_vput. split; [|done].
      split; [done|]. rewrite ?zlen_vput. split; [done|]. split; [|done].
      intros v. rewrite Hb, andb_true_iff. rewrite (Hsum v). split.
      * intros [(j & <- & Hj) Hne]. bool_to_prop. exists j. split; [done|]. rewrite Hbits, Hj. simpl.
        apply negb_true_iff, Z.eqb_neq. congruence.
      * intros (j & <- & Hj). split.
        -- rewrite Hbits in Hj. apply andb_true_iff in Hj as [Hj _]. eauto.
        -- apply negb_true_iff, Z.eqb_neq. intros Heq.
           apply (word_zero_iff cnt _ _ _ Hl' Hget); [|done]. eauto.
  - exists l, (vput l (i / 64) w'), rest, rest. split; [done|]. split; [done|].
    rewrite ?zlen_vput. split; [|done]. split; [done|]. rewrite ?zlen_vput.
    destruct rest as [|up rest2]; [done|]. destruct Hrest as (Hlen & Hsum & Hrec).
    split; [done|]. split; [|done]. intros v. rewrite (Hsum v). split.
    + intros (j & <- & Hj). destruct (Z.eq_dec (j / 64) (i / 64)) as [Heq|Hne].
      * rewrite Heq. by apply (word_zero_iff cnt _ _ _ Hl' Hget).
      * exists j. split; [done|]. rewrite Hbits, Hj. simpl. apply negb_true_iff, Z.eqb_neq. congruence.
    + intros (j & <- & Hj). rewrite Hbits in Hj. apply andb_true_iff in Hj as [Hj _]. eauto.
Qed.

(** ** Searches *)

(** [below] are the levels under [l], nearest first. *)
Fixpoint stacked (below : list (list Z)) (l : list Z) : Prop :=
  match below with
  | [] => True
  | d :: below' => summarizes d l /\ (exists cnt, level_ok cnt d) /\ stacked below' d
  end.

Definition bottom (below : list (list Z)) (l : list Z) : list Z := List.last below l.

Lemma bottom_cons d below l : bottom (d :: below) l = bottom below d.
Proof.
  unfold bottom. revert d l. induction below as [|e below IH]; intros d l; [done|].
  change (List.last (d :: e :: below) l) with (List.last (e :: below) l). by rewrite !IH.
Qed.

Definition pow64 (below : list (list Z)) : Z := 64 ^ Z.of_nat (length below).

Lemma pow64_pos below : 0 < pow64 below.
Proof. unfold pow64. apply Z.pow_pos_nonneg; lia. Qed.

Lemma pow64_cons d below : pow64 (d :: below) = 64 * pow64 below.
Proof. unfold pow64. simpl length. rewrite Nat2Z.inj_succ, Z.pow_succ_r by lia. done. Qed.

(** A bit of an upper level is set iff some bottom bit lies in its block. *)
Lemma stacked_lift below l p :
  stacked below l -> (bit l p = true <-> exists j, j / pow64 below = p /\ bit (bottom below l) j = true).
Proof.
  revert l p. induction below as [|d below IH]; intros l p Hs.
  - unfold pow64, bottom. simpl. split.
    + intros Hb. exists p. split; [apply Z.div_1_r|done].
    + intros (j & <- & Hb). by rewrite Z.div_1_r.
  - destruct Hs as (Hsum & _ & Hs). rewrite bottom_cons, (Hsum p). pose proof (pow64_pos below).
    rewrite pow64_cons. split.
    + intros (i & <- & Hi). apply (IH d i Hs) in Hi as (j & <- & Hj). exists j. split; [|done].
      rewrite Z.div_div by lia. f_equal. lia.
    + intros (j & <- & Hj). exists (j / pow64 below). split.
      * rewrite Z.div_div by lia. f_equal. lia.
      * apply (IH d _ Hs). eauto.
Qed.

Lemma descend_next_spec below l pos :
  stacked below l -> bit l pos = true ->
  exists i, descend_next below pos = Ok i /\ bit (bottom below l) i = true /\
    i / pow64 below = pos /\
    (forall j, bit (bottom below l) j = true -> j / pow64 below = pos -> i <= j).
Proof.
  revert l pos. induction below as [|d below IH]; intros l pos Hs Hb.
  - exists pos. unfold bottom, pow64. simpl. rewrite Z.div_1_r.
    repeat split; try done. intros j _. rewrite Z.div_1_r. lia.
  - destruct Hs as (Hsum & (cnt & Hd) & Hs). rewrite bottom_cons, pow64_cons.
    apply Hsum in Hb as Hb'. destruct Hb' as (i0 & Hi0 & Hbi0).
    destruct (bit_in_word _ _ Hbi0) as (w & Hw & Ht). rewrite Hi0 in Hw.
    assert (word_ok w) as Hwok by (eapply lk_words; [exact Hd|exact Hw]).
    assert (w <> 0) as Hne by (apply (word_zero_iff cnt d pos w Hd Hw); eauto).
    destruct (trailing_zeros_spec w Hwok Hne) as (Hr & Htz & Hmin).
    cbn [descend_next]. rewrite (vindex_some _ _ _ Hw). cbn [mbind Res_bind].
    destruct (IH d (pos * 64 + trailing_zeros w) Hs) as (i & Ei & Hbi & Hdiv & Hleast).
    { by rewrite (bit_of_word _ _ _ _ Hw Hr). }
    pose proof (pow64_pos below).
    exists i. split; [done|]. split; [done|]. split.
    { rewrite Z.mul_comm, <- Z.div_div, Hdiv by lia. dlia. }
    intros j Hj Hjdiv. assert (bit d (j / pow64 below) = true) as Hjb by (apply (stacked_lift below d _ Hs); eauto).
    rewrite Z.mul_comm, <- Z.div_div in Hjdiv by lia.
    assert (pos * 64 + trailing_zeros w <= j / pow64 below) as Hle.
    { set (q := j / pow64 below) in *. replace q with (pos * 64 + q mod 64) by dlia.
      apply Z.add_le_mono_l. apply Hmin; [apply Z.mod_pos_bound; lia|].
      destruct (bit_in_word _ _ Hjb) as (w2 & Hw2 & Ht2). rewrite Hjdiv, Hw in Hw2. by injection Hw2 as <-. }
    destruct (Z.eq_dec (j / pow64 below) (pos * 64 + trailing_zeros w)) as [Heq|Hneq]; [by apply Hleast|].
    dnia.
Qed.

Definition least_from (P : Z -> Prop) (from : Z) (r : option Z) : Prop :=
  match r with
  | Some i => from <= i /\ P i /\ (forall j, from <= j -> P j -> i <= j)
  | None => forall j, from <= j -> ~ P j
  end.

Definition greatest_upto (P : Z -> Prop) (from : Z) (r : option Z) : Prop :=
  match r with
  | Some i => i <= from /\ P i /\ (forall j, j <= from -> P j -> j <= i)
  | None => forall j, j <= from -> ~ P j
  end.

(** One step of the climb, at a level with bottom blocks of [pow64 below]
    slots: no bottom bit lies in [from, idx * pow64 below). *)
Section ClimbNext.
Context (below : list (list Z)) (l : list Z) (cnt idx from : Z).
Hypothesis Hs : stacked below l.
Hypothesis Hl : level_ok cnt l.
Hypothesis Hidx : 0 <= idx.
Hypothesis Hskip : forall j, from <= j -> bit (bottom below l) j = true -> idx * pow64 below <= j.

Lemma next_block j :
  from <= j -> bit (bottom below l) j = true ->
  idx <= j / pow64 below /\ bit l (j / pow64 below) = true.
Proof.
  intros Hj Hb. pose proof (pow64_pos below). pose proof (Hskip j Hj Hb). split.
  - apply Z.div_le_lower_bound; lia.
  - apply (stacked_lift below l _ Hs). eauto.
Qed.

Lemma next_past_end j :
  zlen l <= idx / 64 -> from <= j -> ~ bit (bottom below l) j = true.
Proof.
  intros Hge Hj Hb. destruct (next_block j Hj Hb) as [Hle Hbl].
  destruct (bit_in_word _ _ Hbl) as (w & Hw & _). apply vget_some_range in Hw. dlia.
Qed.

Context (w : Z).
Hypothesis Hw : vget l (idx / 64) = Some w.
Let masked := Z.land w (wrap_u64 (Z.shiftl U64_MAX (idx mod 64))).

Lemma next_masked_ok : word_ok w /\ word_ok masked.
Proof.
  assert (word_ok w) by (eapply lk_words; [exact Hl | exact Hw]).
  split; [done|]. apply land_word_ok; [done|]. unfold wrap_u64. apply Z.mod_pos_bound. lia.
Qed.

(** A bottom bit in this word's block survives the mask. *)
Lemma next_in_mask j :
  from <= j -> bit (bottom below l) j = true -> (j / pow64 below) / 64 = idx / 64 ->
  Z.testbit masked ((j / pow64 below) mod 64) = true.
Proof.
  intros Hj Hb Hq. destruct (next_block j Hj Hb) as [Hle Hbl].
  destruct (bit_in_word _ _ Hbl) as (w2 & Hw2 & Ht2). rewrite Hq, Hw in Hw2. injection Hw2 as <-.
  pose proof (Z.mod_pos_bound (j / pow64 below) 64 ltac:(lia)).
  unfold masked. rewrite masked_next_bits, Ht2 by (done || lia || apply next_masked_ok).
  simpl. apply Z.leb_le. dlia.
Qed.

Lemma next_skip_word j :
  masked = 0 -> from <= j -> bit (bottom below l) j = true ->
  (idx / 64 + 1) * (64 * pow64 below) <= j.
Proof.
  intros Hm Hj Hb. destruct (next_block j Hj Hb) as [Hle _]. pose proof (pow64_pos below).
  destruct (Z.eq_dec ((j / pow64 below) / 64) (idx / 64)) as [Hq|Hq].
  - pose proof (next_in_mask j Hj Hb Hq) as Ht. by rewrite Hm, Z.bits_0 in Ht.
  - assert (idx / 64 + 1 <= j / pow64 below / 64) as Hge by dlia.
    rewrite Z.div_div in Hge by lia. pose proof (Z.mul_div_le j (pow64 below * 64) ltac:(lia)). nia.
Qed.

Lemma next_found :
  masked <> 0 ->
  exists i, descend_next below (idx / 64 * 64 + trailing_zeros masked) = Ok i /\
    bit (bottom below l) i = true /\ idx * pow64 below <= i /\
    (forall j, from <= j -> bit (bottom below l) j = true -> i <= j).
Proof.
  intros Hm. destruct next_masked_ok as [Hwok Hmok]. pose proof (pow64_pos below) as Hp.
  destruct (trailing_zeros_spec masked Hmok Hm) as (Hr & Htz & Hmin).
  unfold masked in Htz at 1. rewrite masked_next_bits in Htz by (done || lia).
  apply andb_true_iff in Htz as [Htz Hge]. apply Z.leb_le in Hge.
  destruct (descend_next_spec below l (idx / 64 * 64 + trailing_zeros masked) Hs)
    as (i & Ei & Hbi & Hdiv & Hleast); [by rewrite (bit_of_word _ _ _ _ Hw Hr)|].
  exists i. split; [done|]. split; [done|].
  assert (idx <= i / pow64 below) as Hile by (rewrite Hdiv; dlia).
  split; [pose proof (Z.mul_div_le i (pow64 below) Hp); nia|].
  intros j Hj Hb. destruct (next_block j Hj Hb) as [Hle _].
  assert (i / pow64 below <= j / pow64 below) as Hq.
  { rewrite Hdiv. destruct (Z.eq_dec ((j / pow64 below) / 64) (idx / 64)) as [Hq|Hq]; [|dlia].
    specialize (Hmin _ (Z.mod_pos_bound (j / pow64 below) 64 ltac:(lia)) (next_in_mask j Hj Hb Hq)). dlia. }
  destruct (Z.eq_dec (j / pow64 below) (i / pow64 below)) as [Heq|Hne].
  - apply Hleast; [done | congruence].
  - apply Z.lt_le_incl. destruct (Z.lt_ge_cases i j) as [|Hji]; [done|].
    pose proof (Z.div_le_mono j i (pow64 below) Hp Hji). lia.
Qed.
End ClimbNext.

Lemma climb_next_spec below l rest cnt idx from n :
  stacked below l -> levels_ok cnt (l :: rest) -> 0 <= idx -> n <= U32_MAX ->
  (forall j, bit (bottom below l) j = true -> 0 <= j < n) ->
  from <= idx * pow64 below ->
  (forall j, from <= j -> bit (bottom below l) j = true -> idx * pow64 below <= j) ->
  exists r, climb_next below (l :: rest) idx = Ok r /\
    least_from (fun j => bit (bottom below l) j = true) from r.
Proof.
  revert below l cnt idx. induction rest as [|up rest IH];
    intros below l cnt idx Hs [Hl Hrest] Hidx Hn Hbot Hfrom Hskip;
    cbn [climb_next]; rewrite index_word, index_bit, Z.geb_leb;
    (destruct (zlen l <=? idx / 64) eqn:Ege; bool_to_prop;
      [exists None; split; [done|]; intros j Hj; by eapply next_past_end|]);
    (assert (0 <= idx / 64) by (apply Z.div_pos; lia));
    (destruct (vget_is_some l (idx / 64) ltac:(lia)) as [w Hw]);
    rewrite (vindex_some _ _ _ Hw); cbn [mbind Res_bind];
    (destruct (Z.land w _ =? 0) eqn:Em; bool_to_prop; cbn [negb];
      [|destruct (next_found below l cnt idx from Hs Hl Hidx Hskip w Hw Em) as (i & Ei & Hbi & Hge & Hlst);
        rewrite Ei; cbn [mbind Res_bind]; pose proof (Hbot i Hbi);
        rewrite wrap_u32_id by width_lia; exists (Some i); split; [done|]; split; [lia|]; done]).
  - exists None. split; [done|]. intros j Hj Hb.
    pose proof (next_skip_word below l cnt idx from Hs Hl Hidx Hskip w Hw j Em Hj Hb).
    pose proof (pow64_pos below). destruct (next_block below l idx from Hs Hskip j Hj Hb) as [_ Hbl].
    destruct (bit_in_word _ _ Hbl) as (w2 & Hw2 & _). apply vget_some_range in Hw2.
    assert (64 * (idx / 64 + 1) <= j / pow64 below) by (apply Z.div_le_lower_bound; lia). dlia.
  - destruct Hrest as (Hlen & Hsum & Hrec).
    destruct (IH (l :: below) up (zlen l) (idx / 64 + 1)) as (r & Er & Hr).
    + simpl. split; [done|]. split; [by exists cnt|done].
    + done.
    + lia.
    + done.
    + by rewrite bottom_cons.
    + rewrite pow64_cons. pose proof (pow64_pos below). dnia.
    + rewrite bottom_cons, pow64_cons. intros j Hj Hb.
      by apply (next_skip_word below l cnt idx from Hs Hl Hidx Hskip w Hw).
    + exists r. rewrite bottom_cons in Hr. done.
Qed.

(** The mirror image, for the highest bit at or below [idx]. *)
Lemma descend_prev_spec below l pos :
  stacked below l -> bit l pos = true ->
  exists i, descend_prev below pos = Ok i /\ bit (bottom below l) i = true /\
    i / pow64 below = pos /\
    (forall j, bit (bottom below l) j = true -> j / pow64 below = pos -> j <= i).
Proof.
  revert l pos. induction below as [|d below IH]; intros l pos Hs Hb.
  - exists pos. unfold bottom, pow64. simpl. rewrite Z.div_1_r.
    repeat split; try done. intros j _. rewrite Z.div_1_r. lia.
  - destruct Hs as (Hsum & (cnt & Hd) & Hs). rewrite bottom_cons, pow64_cons.
    apply Hsum in Hb as Hb'. destruct Hb' as (i0 & Hi0 & Hbi0).
    destruct (bit_in_word _ _ Hbi0) as (w & Hw & Ht). rewrite Hi0 in Hw.
    assert (word_ok w) as Hwok by (eapply lk_words; [exact Hd|exact Hw]).
    assert (w <> 0) as Hne by (apply (word_zero_iff cnt d pos w Hd Hw); eauto).
    destruct (leading_zeros_spec w Hwok Hne) as (Hr & Htz & Hmax).
    cbn [descend_prev]. rewrite (vindex_some _ _ _ Hw). cbn [mbind Res_bind].
    destruct (IH d (pos * 64 + (63 - leading_zeros w)) Hs) as (i & Ei & Hbi & Hdiv & Hgr).
    { by rewrite (bit_of_word _ _ _ _ Hw Hr). }
    pose proof (pow64_pos below) as Hp.
    exists i. split; [done|]. split; [done|]. split.
    { rewrite Z.mul_comm, <- Z.div_div, Hdiv by lia. dlia. }
    intros j Hj Hjdiv. assert (bit d (j / pow64 below) = true) as Hjb by (apply (stacked_lift below d _ Hs); eauto).
    rewrite Z.mul_comm, <- Z.div_div in Hjdiv by lia.
    assert (j / pow64 below <= pos * 64 + (63 - leading_zeros w)) as Hle.
    { set (q := j / pow64 below) in *. replace q with (pos * 64 + q mod 64) by dlia.
      apply Z.add_le_mono_l. apply Hmax; [apply Z.mod_pos_bound; lia|].
      destruct (bit_in_word _ _ Hjb) as (w2 & Hw2 & Ht2). rewrite Hjdiv, Hw in Hw2. by injection Hw2 as <-. }
    destruct (Z.eq_dec (j / pow64 below) (pos * 64 + (63 - leading_zeros w))) as [Heq|Hneq]; [by apply Hgr|].
    destruct (Z.lt_ge_cases i j) as [Hji|]; [|done].
    pose proof (Z.div_le_mono i j (pow64 below) Hp ltac:(lia)). lia.
Qed.

Section ClimbPrev.
Context (below : list (list Z)) (l : list Z) (cnt idx from : Z).
Hypothesis Hs : stacked below l.
Hypothesis Hl : level_ok cnt l.
Hypothesis Hidx : 0 <= idx.
Hypothesis Hskip : forall j, j <= from -> bit (bottom below l) j = true -> j < (idx + 1) * pow64 below.

Lemma prev_block j :
  j <= from -> bit (bottom below l) j = true ->
  j / pow64 below <= idx /\ bit l (j / pow64 below) = true.
Proof.
  intros Hj Hb. pose proof (pow64_pos below). pose proof (Hskip j Hj Hb). split.
  - apply Z.lt_succ_r. apply Z.div_lt_upper_bound; lia.
  - apply (stacked_lift below l _ Hs). eauto.
Qed.

Context (w : Z).
Hypothesis Hw : vget l (idx / 64) = Some w.
Let masked := Z.land w (prev_mask (idx mod 64)).

Lemma prev_masked_ok : word_ok w /\ word_ok masked.
Proof.
  assert (word_ok w) by (eapply lk_words; [exact Hl | exact Hw]).
  split; [done|]. apply land_word_ok; [done|]. apply prev_mask_nonneg. apply Z.mod_pos_bound. lia.
Qed.

Lemma prev_in_mask j :
  j <= from -> bit (bottom below l) j = true -> (j / pow64 below) / 64 = idx / 64 ->
  Z.testbit masked ((j / pow64 below) mod 64) = true.
Proof.
  intros Hj Hb Hq. destruct (prev_block j Hj Hb) as [Hle Hbl].
  destruct (bit_in_word _ _ Hbl) as (w2 & Hw2 & Ht2). rewrite Hq, Hw in Hw2. injection Hw2 as <-.
  pose proof (Z.mod_pos_bound (j / pow64 below) 64 ltac:(lia)).
  pose proof (Z.mod_pos_bound idx 64 ltac:(lia)).
  unfold masked. rewrite masked_prev_bits, Ht2 by lia. simpl. apply Z.leb_le. dlia.
Qed.

Lemma prev_skip_word j :
  masked = 0 -> j <= from -> bit (bottom below l) j = true ->
  j < idx / 64 * (64 * pow64 below).
Proof.
  intros Hm Hj Hb. destruct (prev_block j Hj Hb) as [Hle _]. pose proof (pow64_pos below).
  destruct (Z.eq_dec ((j / pow64 below) / 64) (idx / 64)) as [Hq|Hq].
  - pose proof (prev_in_mask j Hj Hb Hq) as Ht. by rewrite Hm, Z.bits_0 in Ht.
  - assert (j / pow64 below / 64 + 1 <= idx / 64) as Hge by dlia.
    rewrite Z.div_div in Hge by lia. pose proof (Z.mul_succ_div_gt j (pow64 below * 64) ltac:(lia)). nia.
Qed.

Lemma prev_found :
  masked <> 0 ->
  exists i, descend_prev below (idx / 64 * 64 + (63 - leading_zeros masked)) = Ok i /\
    bit (bottom below l) i = true /\ i < (idx + 1) * pow64 below /\
    (forall j, j <= from -> bit (bottom below l) j = true -> j <= i).
Proof.
  intros Hm. destruct prev_masked_ok as [Hwok Hmok]. pose proof (pow64_pos below) as Hp.
  pose proof (Z.mod_pos_bound idx 64 ltac:(lia)) as Hmod.
  destruct (leading_zeros_spec masked Hmok Hm) as (Hr & Htz & Hmax).
  unfold masked in Htz at 1. rewrite masked_prev_bits in Htz by lia.
  apply andb_true_iff in Htz as [Htz Hge]. apply Z.leb_le in Hge.
  destruct (descend_prev_spec below l (idx / 64 * 64 + (63 - leading_zeros masked)) Hs)
    as (i & Ei & Hbi & Hdiv & Hgr); [by rewrite (bit_of_word _ _ _ _ Hw Hr)|].
  exists i. split; [done|]. split; [done|].
  assert (i / pow64 below <= idx) as Hile by (rewrite Hdiv; dlia).
  split; [pose proof (Z.mul_succ_div_gt i (pow64 below) Hp); nia|].
  intros j Hj Hb. destruct (prev_block j Hj Hb) as [Hle _].
  assert (j / pow64 below <= i / pow64 below) as Hq.
  { rewrite Hdiv. destruct (Z.eq_dec ((j / pow64 below) / 64) (idx / 64)) as [Hq|Hq]; [|dlia].
    specialize (Hmax _ (Z.mod_pos_bound (j / pow64 below) 64 ltac:(lia)) (prev_in_mask j Hj Hb Hq)). dlia. }
  destruct (Z.eq_dec (j / pow64 below) (i / pow64 below)) as [Heq|Hne].
  - apply Hgr; [done | congruence].
  - destruct (Z.lt_ge_cases i j) as [Hij|]; [|done].
    pose proof (Z.div_le_mono i j (pow64 below) Hp ltac:(lia)). lia.
Qed.
End ClimbPrev.

Lemma climb_prev_spec below l rest cnt idx from n :
  stacked below l -> levels_ok cnt (l :: rest) -> 0 <= idx < cnt -> n <= U32_MAX ->
  (forall j, bit (bottom below l) j = true -> 0 <= j < n) ->
  (forall j, j <= from -> bit (bottom below l) j = true -> j < (idx + 1) * pow64 below) ->
  (idx + 1) * pow64 below <= from + 1 ->
  exists r, climb_prev below (l :: rest) idx = Ok r /\
    greatest_upto (fun j => bit (bottom below l) j = true) from r.
Proof.
  revert below l cnt idx. induction rest as [|up rest IH];
    intros below l cnt idx Hs [Hl Hrest] Hidx Hn Hbot Hskip Hfrom;
    cbn [climb_prev]; rewrite index_word, index_bit; fold (prev_mask (idx mod 64));
    (destruct (level_word_get cnt l idx Hl Hidx) as (w & Hw & _ & Hr));
    rewrite (vindex_some _ _ _ Hw); cbn [mbind Res_bind];
    (destruct (Z.land w _ =? 0) eqn:Em; bool_to_prop; cbn [negb];
      [|destruct (prev_found below l cnt idx from Hs Hl ltac:(lia) Hskip w Hw Em) as (i & Ei & Hbi & Hge & Hgst);
        rewrite Ei; cbn [mbind Res_bind]; pose proof (Hbot i Hbi);
        rewrite wrap_u32_id by width_lia; exists (Some i); split; [done|]; split; [lia|]; done]);
    (assert (forall j, j <= from -> bit (bottom below l) j = true -> j < idx / 64 * (64 * pow64 below)) as Hsk
      by (intros j Hj Hb; apply (prev_skip_word below l idx from Hs ltac:(lia) Hskip w Hw j Em Hj Hb)));
    pose proof (pow64_pos below);
    (destruct (idx / 64 =? 0) eqn:E0; bool_to_prop;
      [exists None; split; [done|]; intros j Hj Hb; pose proof (Hsk j Hj Hb); pose proof (Hbot j Hb); nia|]).
  - lia.
  - destruct Hrest as (Hlen & Hsum & Hrec).
    destruct (IH (l :: below) up (zlen l) (idx / 64 - 1)) as (r & Er & Hr').
    + simpl. split; [done|]. split; [by exists cnt|done].
    + done.
    + lia.
    + done.
    + by rewrite bottom_cons.
    + rewrite bottom_cons, pow64_cons. intros j Hj Hb.
      replace (idx / 64 - 1 + 1) with (idx / 64) by lia. by apply Hsk.
    + rewrite pow64_cons. dnia.
    + exists r. rewrite bottom_cons in Hr'. done.
Qed.

(** ** The contract *)

Lemma new_loop_spec fuel count :
  0 <= count <= 64 ^ Z.of_nat fuel -> (0 < fuel)%nat ->
  exists l rest, new_loop fuel count = Ok (l :: rest) /\ levels_ok count (l :: rest) /\
    (forall i, bit l i = false).
Proof.
  revert count. induction fuel as [|fuel IH]; intros count Hc Hf; [lia|]. cbn [new_loop].
  set (words := Z.max ((count + 63) / 64) 1).
  assert (zlen (replicate (Z.to_nat words) 0) = words) as Hlen by (apply zlen_replicate; lia).
  assert (forall i w, vget (replicate (Z.to_nat words) 0) i = Some w -> w = 0) as Hz.
  { intros i w H. apply vget_some_range in H as Hr. rewrite Hlen in Hr.
    rewrite vget_replicate in H by done. by injection H as <-. }
  assert (forall i, bit (replicate (Z.to_nat words) 0) i = false) as Hb.
  { intros i. unfold bit. destruct (vget _ _) as [w|] eqn:E; [|done].
    rewrite (Hz _ _ E). apply Z.bits_0. }
  assert (level_ok count (replicate (Z.to_nat words) 0)) as Hl.
  { split; [done| |].
    - intros i w H. rewrite (Hz _ _ H). unfold word_ok. lia.
    - intros i H. by rewrite Hb in H. }
  destruct (words =? 1) eqn:E; bool_to_prop.
  { exists (replicate (Z.to_nat words) 0), []. rewrite E in *. done. }
  rewrite Nat2Z.inj_succ, Z.pow_succ_r in Hc by lia.
  destruct (IH words) as (l & rest & El & Hok & Hbl).
  { assert (0 < 64 ^ Z.of_nat fuel) by (apply Z.pow_pos_nonneg; lia).
    split; [lia|]. unfold words. apply Z.max_lub; [|lia]. apply Z.lt_succ_r, Z.div_lt_upper_bound; lia. }
  { destruct fuel; [simpl in Hc; unfold words in E; exfalso; apply E|lia].
    apply Z.max_r. apply Z.lt_succ_r, Z.div_lt_upper_bound; lia. }
  rewrite El. cbn. exists (replicate (Z.to_nat words) 0), (l :: rest).
  split; [done|]. split; [|done]. split; [done|]. rewrite Hlen. split; [lia|]. split; [|done].
  intros w. rewrite Hbl. split; [done|]. intros (i & _ & Hi). by rewrite Hb in Hi.
Qed.

Lemma Occupancy_new_spec n :
  0 <= n <= U32_MAX ->
  exists o, Occupancy_new n = Ok o /\ occ_inv o /\ occ_n o = n /\ forall i, mem o i = false.
Proof.
  intros Hn. unfold Occupancy_new.
  destruct (new_loop_spec 12 n) as (l & rest & E & Hok & Hb); [|lia|].
  { split; [lia|]. etransitivity; [apply Hn|]. vm_compute. discriminate. }
  rewrite E. cbn. eexists. split; [reflexivity|]. done.
Qed.

Lemma set_spec o i :
  occ_inv o -> 0 <= i < occ_n o ->
  exists o', set o i = Ok o' /\ occ_inv o' /\ occ_n o' = occ_n o /\
    forall j, mem o' j = mem o j || (j =? i).
Proof.
  intros [Hn Hok] Hi. unfold set.
  destruct (set_levels_spec _ _ _ Hok Hi) as (l & l' & rest' & rest & El & E & Hok' & _ & Hb).
  rewrite E. cbn. eexists. split; [reflexivity|]. split; [done|]. split; [done|].
  intros j. unfold mem. simpl. rewrite El. apply Hb.
Qed.

Lemma clear_spec o i :
  occ_inv o -> 0 <= i < occ_n o ->
  exists o', clear o i = Ok o' /\ occ_inv o' /\ occ_n o' = occ_n o /\
    forall j, mem o' j = mem o j && negb (j =? i).
Proof.
  intros [Hn Hok] Hi. unfold clear.
  destruct (clear_levels_spec _ _ _ Hok Hi) as (l & l' & rest' & rest & El & E & Hok' & _ & Hb).
  rewrite E. cbn. eexists. split; [reflexivity|]. split; [done|]. split; [done|].
  intros j. unfold mem. simpl. rewrite El. apply Hb.
Qed.

Lemma mem_range o i : occ_inv o -> mem o i = true -> 0 <= i < occ_n o.
Proof.
  intros [_ Hok]. unfold mem. destruct (levels o) as [|l rest]; [done|].
  destruct Hok as [Hl _]. apply Hl.
Qed.

Lemma find_next_spec o from :
  occ_inv o -> 0 <= from ->
  exists r, find_next o from = Ok r /\ least_from (fun j => mem o j = true) from r.
Proof.
  intros Hi Hf. unfold find_next. rewrite Z.geb_leb.
  destruct (occ_n o <=? from) eqn:E; bool_to_prop.
  { exists None. split; [done|]. intros j Hj Hm. apply (mem_range o j Hi) in Hm. lia. }
  destruct Hi as [Hn Hok]. unfold mem. destruct (levels o) as [|l rest]; [done|].
  apply (climb_next_spec [] l rest (occ_n o) from from (occ_n o)); try done.
  - lia.
  - apply Hok.
  - unfold pow64. simpl. lia.
  - unfold pow64. simpl. intros. lia.
Qed.

Lemma find_prev_spec o from :
  occ_inv o -> 0 <= from ->
  exists r, find_prev o from = Ok r /\ greatest_upto (fun j => mem o j = true) from r.
Proof.
  intros Hi Hf. unfold find_prev. destruct (occ_n o =? 0) eqn:E; bool_to_prop.
  { exists None. split; [done|]. intros j Hj Hm. apply (mem_range o j Hi) in Hm. lia. }
  pose proof (mem_range o) as Hrange. destruct Hi as [Hn Hok].
  assert (exists r, climb_prev [] (levels o) (Z.min from (occ_n o - 1)) = Ok r /\
    greatest_upto (fun j => mem o j = true) (Z.min from (occ_n o - 1)) r) as (r & Er & Hr).
  { unfold mem. destruct (levels o) as [|l rest] eqn:El; [done|].
    apply (climb_prev_spec [] l rest (occ_n o) _ _ (occ_n o)); try done.
    - lia.
    - lia.
    - apply Hok.
    - unfold pow64. simpl. intros. lia.
    - unfold pow64. simpl. lia. }
  exists r. split; [done|]. destruct r as [i|]; simpl in *.
  - destruct Hr as (H1 & H2 & H3). split; [lia|]. split; [done|]. intros j Hj Hm.
    apply H3; [|done]. apply (Hrange j) in Hm; [lia|done].
  - intros j Hj Hm. apply (Hr j); [|done]. apply (Hrange j) in Hm; [lia|done].
Qed.

(** The two searches the book uses: extremal set slot in [lo, hi). *)
Definition first_in (P : Z -> Prop) (lo hi : Z) (r : option Z) : Prop :=
  match r with
  | Some i => lo <= i < hi /\ P i /\ (forall j, lo <= j < hi -> P j -> i <= j)
  | None => forall j, lo <= j < hi -> ~ P j
  end.
Definition last_in (P : Z -> Prop) (lo hi : Z) (r : option Z) : Prop :=
  match r with
  | Some i => lo <= i < hi /\ P i /\ (forall j, lo <= j < hi -> P j -> j <= i)
  | None => forall j, lo <= j < hi -> ~ P j
  end.

Lemma find_first_in_spec o lo hi :
  occ_inv o -> 0 <= lo ->
  exists r, find_first_in o lo hi = Ok r /\ first_in (fun j => mem o j = true) lo hi r.
Proof.
  intros Hi Hlo. unfold find_first_in. rewrite Z.geb_leb. destruct (hi <=? lo) eqn:E; bool_to_prop.
  { exists None. split; [done|]. intros j Hj. lia. }
  destruct (find_next_spec o lo Hi Hlo) as (r & Er & Hr). rewrite Er. cbn.
  destruct r as [b|]; cbn in *.
  - destruct Hr as (H1 & H2 & H3). destruct (b <? hi) eqn:Eb; bool_to_prop; eexists; (split; [done|]); cbn.
    + split; [lia|]. split; [done|]. intros j Hj. apply H3. lia.
    + intros j Hj Hm. pose proof (H3 j ltac:(lia) Hm). lia.
  - eexists. split; [done|]. cbn. intros j Hj. apply Hr. lia.
Qed.

Lemma find_last_in_spec o lo hi :
  occ_inv o -> 0 <= lo ->
  exists r, find_last_in o lo hi = Ok r /\ last_in (fun j => mem o j = true) lo hi r.
Proof.
  intros Hi Hlo. unfold find_last_in. rewrite Z.geb_leb. destruct (hi <=? lo) eqn:E; bool_to_prop.
  { exists None. split; [done|]. intros j Hj. lia. }
  destruct (find_prev_spec o (hi - 1) Hi ltac:(lia)) as (r & Er & Hr). rewrite Er. cbn.
  destruct r as [b|]; cbn in *.
  - destruct Hr as (H1 & H2 & H3). rewrite Z.geb_leb.
    destruct (lo <=? b) eqn:Eb; bool_to_prop; eexists; (split; [done|]); cbn.
    + split; [lia|]. split; [done|]. intros j Hj. apply H3. lia.
    + intros j Hj Hm. pose proof (H3 j ltac:(lia) Hm). lia.
  - eexists. split; [done|]. cbn. intros j Hj. apply Hr. lia.
Qed.
