(* ===== verification/Compression.v ===== *)
(** * Compression: price to slot [rsx-book/src/compression.rs]

    Prices near the mid get one slot per tick; farther zones pack 10, 100 and
    1000 ticks per slot and a catch-all holds the rest.  Bids count down from
    the middle of a zone and asks count up, so the slot index is a sawtooth in
    the price.  [build_price_asc] ([rsx-book/src/book.rs]) lists the zone
    halves by price; the contract proved here is that walking that list visits
    the slots in price order. *)

From S2P Require Import Prelude Types.

Record CompressionMap : Type := mkComp {
  mid_price : Z;
  thresholds : list Z;
  compressions : list Z;
  base_indices : list Z;
  zone_slots : list Z;
  cm_tick_size : Z;
}.

(** Indexing one of the fixed-size arrays above; every index is in range. *)
Definition arr (l : list Z) (i : Z) : Z := match vget l i with Some x => x | None => 0 end.

Definition pct (mid k : Z) : Z :=
  match checked_mul_i64 mid k with
  | Some v => Z.quot v 100
  | None => Z.quot I64_MAX 100
  end.

(** Slots of a zone of raw width [width] at [raw] price units per slot. *)
Definition zone_count (width raw : Z) : Res Z :=
  q ← div_i64 (wrap_i64 (wrap_i64 width * 2)) (wrap_i64 raw);
  Ok (wrap_u32 (Z.max q 0)).

Definition CompressionMap_new (mid tick_size : Z) : Res CompressionMap :=
  let pct_5 := pct mid 5 in
  let pct_15 := pct mid 15 in
  let pct_30 := pct mid 30 in
  let pct_50 := pct mid 50 in
  let t := Z.max tick_size 1 in
  half0 ← div_i64 (wrap_i64 (wrap_i64 (Z.max pct_5 0 + t) - 1)) t;
  let z0 := wrap_u32 (Z.max (wrap_i64 (half0 * 2)) 0) in
  z1 ← zone_count (pct_15 - pct_5) (10 * t);
  z2 ← zone_count (pct_30 - pct_15) (100 * t);
  z3 ← zone_count (pct_50 - pct_30) (1000 * t);
  let z4 := 2 in
  Ok {| mid_price := mid;
        thresholds := [pct_5; pct_15; pct_30; pct_50];
        compressions := [1; 10; 100; 1000; 1];
        base_indices := [0; z0; wrap_u32 (z0 + z1); wrap_u32 (wrap_u32 (z0 + z1) + z2);
                         wrap_u32 (wrap_u32 (wrap_u32 (z0 + z1) + z2) + z3)];
        zone_slots := [z0; z1; z2; z3; z4];
        cm_tick_size := t |}.

Definition zone_of (m : CompressionMap) (distance : Z) : Z :=
  if distance <? arr (thresholds m) 1 then
    if distance <? arr (thresholds m) 0 then 0 else 1
  else if distance <? arr (thresholds m) 2 then 2
  else if distance <? arr (thresholds m) 3 then 3
  else 4.

Definition price_to_index (m : CompressionMap) (price : Z) : Res Z :=
  let signed := wrap_i64 (price - mid_price m) in
  let distance := Z.min (Z.abs signed) I64_MAX in
  let side := if signed >=? 0 then 0 else 1 in
  let zone := zone_of m distance in
  if zone =? 4 then Ok (wrap_u32 (arr (base_indices m) 4 + side))
  else
    let zone_start := if zone =? 0 then 0 else arr (thresholds m) (zone - 1) in
    let half := arr (zone_slots m) zone / 2 in
    if half =? 0 then Ok (arr (base_indices m) zone)
    else
      let raw_per_slot := wrap_i64 (arr (compressions m) zone * cm_tick_size m) in
      q ← div_i64 (wrap_i64 (distance - zone_start)) raw_per_slot;
      let local_offset := Z.min (wrap_u32 q) (half - 1) in
      if side =? 0 then Ok (wrap_u32 (wrap_u32 (arr (base_indices m) zone + half) + local_offset))
      else Ok (wrap_u32 (wrap_u32 (arr (base_indices m) zone + half) - 1 - local_offset)).

(** [iter().sum()] over [u32] wraps like a chain of additions. *)
Definition total_slots (m : CompressionMap) : Z :=
  wrap_u32 (zsum (fun z => z) (zone_slots m)).
Definition min_price (m : CompressionMap) : Z := wrap_i64 (mid_price m - arr (thresholds m) 3).
Definition max_price (m : CompressionMap) : Z := wrap_i64 (mid_price m + arr (thresholds m) 3).

(** ** Price-ordered ranges ([book.rs]) *)

Definition bid_region (comp : CompressionMap) (z : Z) : Z * Z :=
  let base := arr (base_indices comp) z in
  let slots := arr (zone_slots comp) z in
  if z =? 4 then (wrap_u32 (base + 1), wrap_u32 (base + slots))
  else
    let half := slots / 2 in
    if half =? 0 then (base, wrap_u32 (base + slots)) else (base, wrap_u32 (base + half)).

Definition ask_region (comp : CompressionMap) (z : Z) : Z * Z :=
  let base := arr (base_indices comp) z in
  let slots := arr (zone_slots comp) z in
  if z =? 4 then (base, wrap_u32 (base + 1))
  else
    let half := slots / 2 in
    if half =? 0 then (base, wrap_u32 (base + slots))
    else (wrap_u32 (base + half), wrap_u32 (base + slots)).

Definition nonempty_range (r : Z * Z) : bool := r.1 <? r.2.

Definition build_price_asc (comp : CompressionMap) : list (Z * Z) :=
  List.filter nonempty_range
    (map (bid_region comp) [4; 3; 2; 1; 0] ++ map (ask_region comp) [0; 1; 2; 3; 4]).

(** ** The map as mathematics

    Within the limits the engine is configured for, no step above wraps. *)

Definition pc (mid k : Z) : Z := mid * k / 100.
Definition cdiv (a b : Z) : Z := (a + b - 1) / b.

Definition zs (mid t z : Z) : Z :=
  match z with
  | 0 => 2 * cdiv (pc mid 5) t
  | 1 => (pc mid 15 - pc mid 5) * 2 / (10 * t)
  | 2 => (pc mid 30 - pc mid 15) * 2 / (100 * t)
  | 3 => (pc mid 50 - pc mid 30) * 2 / (1000 * t)
  | _ => 2
  end.
Definition base (mid t z : Z) : Z :=
  match z with
  | 0 => 0
  | 1 => zs mid t 0
  | 2 => zs mid t 0 + zs mid t 1
  | 3 => zs mid t 0 + zs mid t 1 + zs mid t 2
  | _ => zs mid t 0 + zs mid t 1 + zs mid t 2 + zs mid t 3
  end.
Definition total (mid t : Z) : Z := base mid t 4 + 2.

(** The configuration limits: the thresholds do not overflow, and the slot
    count fits a [u32] below the [NONE] sentinel. *)
Record cfg_ok (mid t : Z) : Prop := {
  co_mid : 0 <= mid <= I64_MAX / 50;
  co_tick : 1 <= t <= I64_MAX / 1000;
  co_total : total mid t < NONE;
}.

(** Each compressed zone has at least one slot per side; a mid of at least
    5000 ticks is enough. *)
Definition spread_ok (mid t : Z) : Prop := 2 <= zs mid t 1 /\ 2 <= zs mid t 2 /\ 2 <= zs mid t 3.

Lemma spread_wide mid t : 1 <= t -> 5000 * t <= mid -> spread_ok mid t.
Proof.
  intros Ht Hm. assert (mid = 5000 * t + (mid - 5000 * t)) as E by lia. set (r := mid - 5000 * t) in *. assert (0 <= r) by lia.
  assert (forall n, pc mid n = 50 * t * n + pc r n) as Hp by (intros n; unfold pc; rewrite E; replace ((5000 * t + r) * n) with (r * n + 50 * t * n * 100) by lia; rewrite Z.div_add; lia).
  assert (forall n m, n <= m -> pc r n <= pc r m) as Hmono by (intros n m Hnm; unfold pc; apply Z.div_le_mono; nia).
  unfold spread_ok, zs. rewrite !Hp. pose proof (Hmono 5 15 ltac:(lia)). pose proof (Hmono 15 30 ltac:(lia)). pose proof (Hmono 30 50 ltac:(lia)).
  split; [|split]; apply Z.div_le_lower_bound; lia.
Qed.

Definition the_map (mid t : Z) : CompressionMap :=
  {| mid_price := mid;
     thresholds := [pc mid 5; pc mid 15; pc mid 30; pc mid 50];
     compressions := [1; 10; 100; 1000; 1];
     base_indices := [base mid t 0; base mid t 1; base mid t 2; base mid t 3; base mid t 4];
     zone_slots := [zs mid t 0; zs mid t 1; zs mid t 2; zs mid t 3; 2];
     cm_tick_size := t |}.

Definition dist (mid price : Z) : Z := Z.abs (price - mid).
Definition zone (mid price : Z) : Z :=
  if dist mid price <? pc mid 5 then 0
  else if dist mid price <? pc mid 15 then 1
  else if dist mid price <? pc mid 30 then 2
  else if dist mid price <? pc mid 50 then 3 else 4.
Definition zstart (mid z : Z) : Z :=
  match z with 0 => 0 | 1 => pc mid 5 | 2 => pc mid 15 | _ => pc mid 30 end.
Definition raw (t z : Z) : Z :=
  match z with 0 => t | 1 => 10 * t | 2 => 100 * t | _ => 1000 * t end.
Definition offset (mid t price : Z) : Z :=
  let z := zone mid price in
  Z.min ((dist mid price - zstart mid z) / raw t z) (zs mid t z / 2 - 1).
Definition idx (mid t price : Z) : Z :=
  let z := zone mid price in
  if z =? 4 then base mid t 4 + (if mid <=? price then 0 else 1)
  else if zs mid t z / 2 =? 0 then base mid t z
  else if mid <=? price then base mid t z + zs mid t z / 2 + offset mid t price
  else base mid t z + zs mid t z / 2 - 1 - offset mid t price.

(** The ten price bands, lowest first: bids from the catch-all inwards, then
    asks outwards. *)
Definition band (mid price : Z) : Z :=
  if mid <=? price then 5 + zone mid price else 4 - zone mid price.
Definition band_range (mid t r : Z) : Z * Z :=
  match r with
  | 0 => (base mid t 4 + 1, base mid t 4 + 2)
  | 1 => (base mid t 3, base mid t 3 + zs mid t 3 / 2)
  | 2 => (base mid t 2, base mid t 2 + zs mid t 2 / 2)
  | 3 => (base mid t 1, base mid t 1 + zs mid t 1 / 2)
  | 4 => (base mid t 0, base mid t 0 + zs mid t 0 / 2)
  | 5 => (base mid t 0 + zs mid t 0 / 2, base mid t 0 + zs mid t 0)
  | 6 => (base mid t 1 + zs mid t 1 / 2, base mid t 1 + zs mid t 1)
  | 7 => (base mid t 2 + zs mid t 2 / 2, base mid t 2 + zs mid t 2)
  | 8 => (base mid t 3 + zs mid t 3 / 2, base mid t 3 + zs mid t 3)
  | _ => (base mid t 4, base mid t 4 + 1)
  end.
Definition bands (mid t : Z) : list (Z * Z) := map (band_range mid t) (zrange 0 10).

(** ** Proofs *)

Section Facts.
Context (mid t : Z).
Hypothesis Hcfg : cfg_ok mid t.

Lemma pc_mono k1 k2 : 0 <= k1 <= k2 -> pc mid k1 <= pc mid k2.
Proof. intros. unfold pc. destruct Hcfg. apply Z.div_le_mono; nia. Qed.

Lemma pc_bounds k : 0 <= k <= 50 -> 0 <= pc mid k <= mid.
Proof.
  intros. destruct Hcfg. split; [apply Z.div_pos; nia|].
  transitivity (pc mid 50); [by apply pc_mono|]. unfold pc.
  apply Z.div_le_upper_bound; lia.
Qed.

Lemma pc_order : 0 <= pc mid 5 <= pc mid 15 /\ pc mid 15 <= pc mid 30 /\ pc mid 30 <= pc mid 50 /\ pc mid 50 <= mid.
Proof.
  pose proof (pc_mono 5 15 ltac:(lia)). pose proof (pc_mono 15 30 ltac:(lia)).
  pose proof (pc_mono 30 50 ltac:(lia)). pose proof (pc_bounds 5 ltac:(lia)).
  pose proof (pc_bounds 50 ltac:(lia)). destruct Hcfg. dlia.
Qed.

Lemma zs_nonneg z : 0 <= zs mid t z.
Proof.
  pose proof pc_order. destruct Hcfg. destruct z as [|[[|[]|]|[[]|[]|]|]|]; simpl; try lia;
    try (apply Z.div_pos; nia). unfold cdiv. enough (0 <= (pc mid 5 + t - 1) / t) by lia.
  apply Z.div_pos; nia.
Qed.

Lemma base_bounds z : 0 <= z <= 3 -> 0 <= base mid t z /\ base mid t z + zs mid t z = base mid t (z + 1) /\ base mid t (z + 1) + 2 <= total mid t.
Proof.
  intros Hz. pose proof (zs_nonneg 0). pose proof (zs_nonneg 1). pose proof (zs_nonneg 2). pose proof (zs_nonneg 3).
  assert (z = 0 \/ z = 1 \/ z = 2 \/ z = 3) as [->|[->|[->| ->]]] by lia;
    change (0 + 1) with 1; change (1 + 1) with 2; change (2 + 1) with 3; change (3 + 1) with 4;
    unfold total; cbn [base]; lia.
Qed.

Lemma total_bounds : 2 <= total mid t < NONE.
Proof.
  destruct Hcfg. pose proof (base_bounds 3 ltac:(lia)) as (? & ? & ?).
  pose proof (zs_nonneg 3). change (3 + 1) with 4 in *. lia.
Qed.

Lemma pct_eq k : 1 <= k <= 50 -> pct mid k = pc mid k.
Proof.
  intros. destruct Hcfg. unfold pct, checked_mul_i64. rewrite try_i64_some by (width_unfold; dnia).
  unfold pc. apply Z.quot_div_nonneg; nia.
Qed.

Lemma zone_count_eq w r :
  0 <= w <= mid -> 1 <= r <= I64_MAX -> w * 2 / r < NONE -> zone_count w r = Ok (w * 2 / r).
Proof.
  intros Hw Hr Hlt. destruct Hcfg. unfold zone_count.
  rewrite (wrap_i64_id w), (wrap_i64_id (w * 2)), (wrap_i64_id r) by dlia.
  unfold div_i64. replace (_ || _)%bool with false by (symmetry; width_unfold; lia).
  cbn. rewrite Z.quot_div_nonneg by lia.
  assert (0 <= w * 2 / r) by (apply Z.div_pos; lia).
  rewrite Z.max_l, wrap_u32_id by (unfold NONE in Hlt; width_lia). done.
Qed.

Lemma new_spec : CompressionMap_new mid t = Ok (the_map mid t).
Proof.
  pose proof pc_order as (H5 & H15 & H30 & H50). pose proof total_bounds as Htot.
  pose proof (zs_nonneg 0). pose proof (zs_nonneg 1). pose proof (zs_nonneg 2). pose proof (zs_nonneg 3).
  destruct Hcfg as [Hmid Htick _].
  unfold total, NONE in Htot. cbn [base] in Htot.
  unfold CompressionMap_new. rewrite !pct_eq by lia. rewrite (Z.max_l t 1), (Z.max_l (pc mid 5) 0) by lia.
  rewrite (wrap_i64_id (pc mid 5 + t)), wrap_i64_id by dlia.
  unfold div_i64. replace (_ || _)%bool with false by (symmetry; width_unfold; lia).
  cbn [mbind Res_bind]. rewrite Z.quot_div_nonneg by lia.
  change ((pc mid 5 + t - 1) / t) with (cdiv (pc mid 5) t).
  assert (zs mid t 0 = 2 * cdiv (pc mid 5) t) as Hz0 by done.
  rewrite (wrap_i64_id (cdiv (pc mid 5) t * 2)) by width_lia.
  rewrite Z.max_l, wrap_u32_id by width_lia.
  rewrite !zone_count_eq; cbn [mbind Res_bind]; try dlia.
  4: { change ((pc mid 50 - pc mid 30) * 2 / (1000 * t)) with (zs mid t 3). unfold NONE. lia. }
  3: { change ((pc mid 30 - pc mid 15) * 2 / (100 * t)) with (zs mid t 2). unfold NONE. lia. }
  2: { change ((pc mid 15 - pc mid 5) * 2 / (10 * t)) with (zs mid t 1). unfold NONE. lia. }
  change ((pc mid 50 - pc mid 30) * 2 / (1000 * t)) with (zs mid t 3).
  change ((pc mid 30 - pc mid 15) * 2 / (100 * t)) with (zs mid t 2).
  change ((pc mid 15 - pc mid 5) * 2 / (10 * t)) with (zs mid t 1).
  replace (cdiv (pc mid 5) t * 2) with (zs mid t 0) by lia.
  rewrite !wrap_u32_id by (rewrite ?wrap_u32_id; width_lia).
  unfold the_map. cbn [base]. done.
Qed.

Lemma total_slots_eq : total_slots (the_map mid t) = total mid t.
Proof.
  unfold total_slots. pose proof total_bounds. unfold NONE in *.
  replace (zsum _ _) with (total mid t).
  - apply wrap_u32_id. width_lia.
  - unfold total. cbn [base]. cbn -[zs]. lia.
Qed.

(** *** Zones *)

Lemma zone_range price : 0 <= zone mid price <= 4.
Proof. unfold zone. split_ifs; lia. Qed.

Lemma zone_dist price :
  0 <= price ->
  match zone mid price with
  | 0 => dist mid price < pc mid 5
  | 1 => pc mid 5 <= dist mid price < pc mid 15
  | 2 => pc mid 15 <= dist mid price < pc mid 30
  | 3 => pc mid 30 <= dist mid price < pc mid 50
  | _ => pc mid 50 <= dist mid price
  end.
Proof. unfold zone. pose proof pc_order. split_ifs; lia. Qed.

Lemma zone_of_eq price :
  zone_of (the_map mid t) (dist mid price) = zone mid price.
Proof.
  unfold zone_of, zone, arr. simpl. pose proof pc_order.
  split_ifs; lia.
Qed.

Lemma offset_range price :
  zone mid price <> 4 -> 1 <= zs mid t (zone mid price) / 2 ->
  0 <= offset mid t price <= zs mid t (zone mid price) / 2 - 1.
Proof.
  intros Hz Hh. unfold offset. split; [|apply Z.le_min_r]. apply Z.min_glb; [|lia].
  destruct Hcfg as [_ Htick _]. unfold zone, dist in *. pose proof pc_order.
  revert Hz Hh. split_ifs; intros; simpl in *; try (apply Z.div_pos; lia); lia.
Qed.

(** A distance inside a zone never spans more slots than the zone has. *)
Lemma quotient_small price :
  0 <= price -> zone mid price <> 4 ->
  0 <= (dist mid price - zstart mid (zone mid price)) / raw t (zone mid price) <= zs mid t (zone mid price).
Proof.
  intros Hp Hz. pose proof (zone_dist price Hp) as Hzd. pose proof (zone_range price). pose proof pc_order.
  destruct Hcfg as [_ Htick _].
  assert (zone mid price = 0 \/ zone mid price = 1 \/ zone mid price = 2 \/ zone mid price = 3)
    as [E|[E|[E|E]]] by lia; rewrite E in *; simpl in *; unfold cdiv, dist in *;
    (split; [apply Z.div_pos; lia|]).
  - assert (0 <= (pc mid 5 + t - 1) / t) by (apply Z.div_pos; lia).
    transitivity ((pc mid 5 + t - 1) / t); [apply Z.div_le_mono; lia | lia].
  - apply Z.div_le_mono; lia.
  - apply Z.div_le_mono; lia.
  - apply Z.div_le_mono; lia.
Qed.

Lemma price_to_index_eq price :
  0 <= price <= I64_MAX -> price_to_index (the_map mid t) price = Ok (idx mid t price).
Proof.
  intros Hp. pose proof (zone_range price) as Hzr. pose proof (offset_range price) as Hoff.
  pose proof total_bounds as Htot. pose proof (base_bounds (zone mid price)) as Hbb.
  pose proof (base_bounds 3 ltac:(lia)) as Hb3. change (3 + 1) with 4 in Hb3.
  pose proof pc_order as Hpo. pose proof (zone_dist price ltac:(lia)) as Hzd.
  destruct Hcfg as [Hmid Htick _]. unfold price_to_index.
  change (mid_price (the_map mid t)) with mid.
  rewrite (wrap_i64_id (price - mid)) by dlia.
  rewrite Z.min_l by dlia. change (Z.abs (price - mid)) with (dist mid price).
  rewrite zone_of_eq. rewrite Z.geb_leb. replace (0 <=? price - mid) with (mid <=? price) by lia.
  unfold idx. destruct (zone mid price =? 4) eqn:E4; bool_to_prop.
  { change (arr (base_indices (the_map mid t)) 4) with (base mid t 4). pose proof (zs_nonneg 3).
    unfold NONE in *. rewrite wrap_u32_id; [done|]. case_if; width_lia. }
  assert (arr (zone_slots (the_map mid t)) (zone mid price) = zs mid t (zone mid price) /\
          arr (base_indices (the_map mid t)) (zone mid price) = base mid t (zone mid price) /\
          arr (compressions (the_map mid t)) (zone mid price) * cm_tick_size (the_map mid t) = raw t (zone mid price) /\
          (if zone mid price =? 0 then 0 else arr (thresholds (the_map mid t)) (zone mid price - 1)) = zstart mid (zone mid price) /\
          1 <= raw t (zone mid price) <= I64_MAX /\ 0 <= dist mid price - zstart mid (zone mid price) <= I64_MAX)
    as (E1 & E2 & E3 & E5 & Hraw & Hd).
  { assert (zone mid price = 0 \/ zone mid price = 1 \/ zone mid price = 2 \/ zone mid price = 3)
      as [Hz|[Hz|[Hz|Hz]]] by lia; rewrite Hz in *; unfold arr; simpl; repeat split; unfold dist in *; dlia. }
  rewrite E1, E2, E3, E5. clear E1 E2 E3 E5.
  specialize (Hbb ltac:(lia)). destruct Hbb as (Hb0 & Hb1 & Hb2).
  assert (0 <= zs mid t (zone mid price)) by apply zs_nonneg.
  destruct (zs mid t (zone mid price) / 2 =? 0) eqn:Eh; bool_to_prop; [done|].
  assert (1 <= zs mid t (zone mid price) / 2) as Hh by dlia.
  specialize (Hoff E4 Hh).
  rewrite (wrap_i64_id (raw t _)), (wrap_i64_id (dist mid price - _)) by width_lia.
  unfold div_i64. replace (_ || _)%bool with false by (symmetry; width_unfold; lia).
  cbn [mbind Res_bind]. rewrite Z.quot_div_nonneg by lia.
  set (q := (dist mid price - zstart mid (zone mid price)) / raw t (zone mid price)) in *.
  assert (zs mid t (zone mid price) / 2 * 2 <= zs mid t (zone mid price)) by dlia.
  assert (Z.min (wrap_u32 q) (zs mid t (zone mid price) / 2 - 1) = offset mid t price) as ->.
  { unfold offset. fold q. f_equal. apply wrap_u32_id.
    pose proof (quotient_small price ltac:(lia) E4). fold q in H1. unfold NONE in *. width_lia. }
  unfold NONE in *.
  rewrite (wrap_u32_id (base mid t (zone mid price) + zs mid t (zone mid price) / 2)) by width_lia.
  destruct (mid <=? price) eqn:Es; cbn; rewrite wrap_u32_id by width_lia; done.
Qed.

(** *** Bands *)

Lemma idx_range price : 0 <= price -> 0 <= idx mid t price < total mid t.
Proof.
  intros Hp. pose proof (zone_range price). pose proof (offset_range price) as Hoff.
  pose proof (base_bounds 3 ltac:(lia)) as Hb3. change (3 + 1) with 4 in Hb3. pose proof (zs_nonneg 3).
  unfold idx. destruct (zone mid price =? 4) eqn:E4; bool_to_prop.
  { unfold total. case_if; lia. }
  pose proof (base_bounds (zone mid price) ltac:(lia)). pose proof (zs_nonneg (zone mid price)).
  destruct (zs mid t (zone mid price) / 2 =? 0) eqn:Eh; bool_to_prop; [lia|].
  assert (1 <= zs mid t (zone mid price) / 2) by dlia. specialize (Hoff E4 ltac:(lia)).
  assert (zs mid t (zone mid price) / 2 * 2 <= zs mid t (zone mid price)) by dlia. case_if; lia.
Qed.

(** Bands follow the price. *)
Lemma band_mono p q : 0 <= p <= q -> band mid p <= band mid q.
Proof.
  intros Hpq. unfold band, zone, dist. pose proof pc_order. split_ifs; lia.
Qed.

Hypothesis Hspread : spread_ok mid t.

Lemma zs0_pos : 2 <= zs mid t 0.
Proof.
  destruct Hspread as (H1 & _ & _). destruct Hcfg as [Hmid Htick _]. pose proof pc_order. simpl in *.
  assert (10 * t * 2 <= (pc mid 15 - pc mid 5) * 2) as Hw.
  { pose proof (Z.mul_div_le ((pc mid 15 - pc mid 5) * 2) (10 * t) ltac:(lia)). nia. }
  assert (1 <= pc mid 5).
  { unfold pc in *. apply Z.div_le_lower_bound; [lia|]. dlia. }
  unfold cdiv. enough (1 <= (pc mid 5 + t - 1) / t) by lia. apply Z.div_le_lower_bound; lia.
Qed.

Lemma half_pos z : 0 <= z <= 3 -> 1 <= zs mid t z / 2.
Proof.
  intros Hz. pose proof zs0_pos. destruct Hspread as (H1 & H2 & H3).
  assert (z = 0 \/ z = 1 \/ z = 2 \/ z = 3) as [->|[->|[->| ->]]] by lia; dlia.
Qed.

Ltac norm_band :=
  change (5 + 0) with 5; change (5 + 1) with 6; change (5 + 2) with 7; change (5 + 3) with 8;
  change (5 + 4) with 9; change (4 - 0) with 4; change (4 - 1) with 3; change (4 - 2) with 2;
  change (4 - 3) with 1; change (4 - 4) with 0; cbn [band_range fst snd].

Lemma idx_in_band price :
  0 <= price -> (band_range mid t (band mid price)).1 <= idx mid t price < (band_range mid t (band mid price)).2.
Proof.
  intros Hp. pose proof (zone_range price). pose proof (offset_range price) as Hoff.
  unfold idx, band.
  assert (zone mid price = 0 \/ zone mid price = 1 \/ zone mid price = 2 \/ zone mid price = 3 \/ zone mid price = 4)
    as [E|[E|[E|[E|E]]]] by lia; rewrite E in *;
    [pose proof (half_pos 0 ltac:(lia))|pose proof (half_pos 1 ltac:(lia))
    |pose proof (half_pos 2 ltac:(lia))|pose proof (half_pos 3 ltac:(lia))|idtac].
  5: { rewrite Z.eqb_refl. case_if; norm_band; lia. }
  all: specialize (Hoff ltac:(lia) ltac:(lia)).
  all: match goal with |- context [zs ?m ?t ?z / 2 =? 0] =>
         replace (zs m t z / 2 =? 0) with false by lia;
         assert (zs m t z / 2 * 2 <= zs m t z) by dlia end.
  all: match goal with |- context [?z =? 4] => change (z =? 4) with false end.
  all: cbn beta iota; case_if; norm_band; lia.
Qed.

(** Within a band the slot index follows the price. *)
Lemma offset_mono p q :
  0 <= p -> 0 <= q -> zone mid p = zone mid q -> dist mid p <= dist mid q -> zone mid p <> 4 ->
  offset mid t p <= offset mid t q.
Proof.
  intros Hp Hq Hz Hd Hz4. unfold offset. rewrite <- Hz. apply Z.min_le_compat_r.
  destruct Hcfg as [_ Htick _]. apply Z.div_le_mono; [|lia].
  unfold raw. pose proof (zone_range p).
  assert (zone mid p = 0 \/ zone mid p = 1 \/ zone mid p = 2 \/ zone mid p = 3) as [E|[E|[E|E]]] by lia;
    rewrite E; lia.
Qed.

Lemma idx_mono p q :
  0 <= p <= q -> band mid p = band mid q -> idx mid t p <= idx mid t q.
Proof.
  intros Hpq Hb. pose proof (zone_range p). pose proof (zone_range q).
  assert (zone mid p = zone mid q /\ (mid <=? p) = (mid <=? q)) as [Hz Hs].
  { unfold band in Hb. destruct (mid <=? p) eqn:E1, (mid <=? q) eqn:E2; bool_to_prop; split; lia || reflexivity. }
  unfold idx. rewrite Hz, Hs. destruct (zone mid q =? 4) eqn:E4; [lia|]. bool_to_prop.
  case_if; [lia|]. destruct (mid <=? q) eqn:E; bool_to_prop.
  - enough (offset mid t p <= offset mid t q) by lia. apply offset_mono; try lia. unfold dist. lia.
  - enough (offset mid t q <= offset mid t p) by lia. apply offset_mono; try lia. unfold dist. lia.
Qed.

(** Bands do not overlap. *)
Lemma bands_disjoint r1 r2 i :
  0 <= r1 <= 9 -> 0 <= r2 <= 9 ->
  (band_range mid t r1).1 <= i < (band_range mid t r1).2 ->
  (band_range mid t r2).1 <= i < (band_range mid t r2).2 -> r1 = r2.
Proof.
  intros Hr1 Hr2. pose proof (zs_nonneg 0). pose proof (zs_nonneg 1). pose proof (zs_nonneg 2).
  pose proof (zs_nonneg 3).
  assert (forall x, 0 <= x -> 0 <= x / 2 <= x) as Hd by (intros; dlia).
  pose proof (Hd _ H). pose proof (Hd _ H0). pose proof (Hd _ H1). pose proof (Hd _ H2). clear Hd.
  assert (forall r, 0 <= r <= 9 -> r = 0 \/ r = 1 \/ r = 2 \/ r = 3 \/ r = 4 \/ r = 5 \/ r = 6 \/ r = 7 \/ r = 8 \/ r = 9)
    as Hcase by lia.
  destruct (Hcase r1 Hr1) as [->|[->|[->|[->|[->|[->|[->|[->|[->| ->]]]]]]]]];
  destruct (Hcase r2 Hr2) as [->|[->|[->|[->|[->|[->|[->|[->|[->| ->]]]]]]]]];
    cbn [band_range fst snd base]; lia.
Qed.

Lemma band_bounds price : 0 <= band mid price <= 9.
Proof. unfold band. pose proof (zone_range price). case_if; lia. Qed.

(** A slot determines the band of every price stored in it. *)
Lemma slot_band p r :
  0 <= p -> 0 <= r <= 9 ->
  (band_range mid t r).1 <= idx mid t p < (band_range mid t r).2 -> r = band mid p.
Proof.
  intros Hp Hr Hi. eapply bands_disjoint; [done|apply band_bounds|exact Hi|by apply idx_in_band].
Qed.

Lemma bands_nonempty r : 0 <= r <= 9 -> nonempty_range (band_range mid t r) = true.
Proof.
  intros Hr. unfold nonempty_range.
  pose proof (half_pos 0 ltac:(lia)). pose proof (half_pos 1 ltac:(lia)).
  pose proof (half_pos 2 ltac:(lia)). pose proof (half_pos 3 ltac:(lia)).
  assert (forall x, 1 <= x / 2 -> x / 2 < x) as Hd by (intros; dlia).
  pose proof (Hd _ H). pose proof (Hd _ H0). pose proof (Hd _ H1). pose proof (Hd _ H2). clear Hd.
  assert (r = 0 \/ r = 1 \/ r = 2 \/ r = 3 \/ r = 4 \/ r = 5 \/ r = 6 \/ r = 7 \/ r = 8 \/ r = 9)
    as [->|[->|[->|[->|[->|[->|[->|[->|[->| ->]]]]]]]]] by lia;
    cbn [band_range fst snd]; apply Z.ltb_lt; lia.
Qed.

Lemma region_eq z :
  0 <= z <= 4 ->
  bid_region (the_map mid t) z = band_range mid t (4 - z) /\
  ask_region (the_map mid t) z = band_range mid t (5 + z).
Proof.
  intros Hz. pose proof total_bounds as Htot. unfold total, NONE in Htot.
  pose proof (half_pos 0 ltac:(lia)). pose proof (half_pos 1 ltac:(lia)).
  pose proof (half_pos 2 ltac:(lia)). pose proof (half_pos 3 ltac:(lia)).
  pose proof (base_bounds 0 ltac:(lia)) as Hb0. pose proof (base_bounds 1 ltac:(lia)) as Hb1.
  pose proof (base_bounds 2 ltac:(lia)) as Hb2. pose proof (base_bounds 3 ltac:(lia)) as Hb3.
  change (0 + 1) with 1 in *. change (1 + 1) with 2 in *. change (2 + 1) with 3 in *. change (3 + 1) with 4 in *.
  unfold total in *.
  assert (forall x, x / 2 * 2 <= x) as Hd by (intros; dlia).
  pose proof (Hd (zs mid t 0)). pose proof (Hd (zs mid t 1)). pose proof (Hd (zs mid t 2)). pose proof (Hd (zs mid t 3)).
  clear Hd.
  assert (z = 0 \/ z = 1 \/ z = 2 \/ z = 3 \/ z = 4) as [->|[->|[->|[->| ->]]]] by lia;
    unfold bid_region, ask_region;
    [change (arr (base_indices (the_map mid t)) 0) with (base mid t 0); change (arr (zone_slots (the_map mid t)) 0) with (zs mid t 0)
    |change (arr (base_indices (the_map mid t)) 1) with (base mid t 1); change (arr (zone_slots (the_map mid t)) 1) with (zs mid t 1)
    |change (arr (base_indices (the_map mid t)) 2) with (base mid t 2); change (arr (zone_slots (the_map mid t)) 2) with (zs mid t 2)
    |change (arr (base_indices (the_map mid t)) 3) with (base mid t 3); change (arr (zone_slots (the_map mid t)) 3) with (zs mid t 3)
    |change (arr (base_indices (the_map mid t)) 4) with (base mid t 4); change (arr (zone_slots (the_map mid t)) 4) with 2 ];
    norm_band.
  1-4: match goal with |- context [?z =? 4] => change (z =? 4) with false end; cbn beta iota.
  1-4: match goal with |- context [zs ?m ?t ?z / 2 =? 0] => replace (zs m t z / 2 =? 0) with false by lia end.
  5: rewrite Z.eqb_refl.
  all: rewrite !wrap_u32_id by width_lia; done.
Qed.

(** The range list the book walks is the ten bands in price order. *)
Lemma price_asc_bands : build_price_asc (the_map mid t) = bands mid t.
Proof.
  unfold build_price_asc. cbn [map].
  pose proof (region_eq 0 ltac:(lia)) as [-> ->]. pose proof (region_eq 1 ltac:(lia)) as [-> ->].
  pose proof (region_eq 2 ltac:(lia)) as [-> ->]. pose proof (region_eq 3 ltac:(lia)) as [-> ->].
  pose proof (region_eq 4 ltac:(lia)) as [-> ->].
  change (4 - 4) with 0; change (4 - 3) with 1; change (4 - 2) with 2; change (4 - 1) with 3;
  change (4 - 0) with 4; change (5 + 0) with 5; change (5 + 1) with 6; change (5 + 2) with 7;
  change (5 + 3) with 8; change (5 + 4) with 9.
  cbn [app List.filter]. rewrite !bands_nonempty by lia. reflexivity.
Qed.

(** A price below another lies in an earlier slot of the walk, or in the same
    slot. *)
Lemma walk_order p q :
  0 <= p <= q ->
  band mid p < band mid q \/ band mid p = band mid q /\ idx mid t p <= idx mid t q.
Proof.
  intros H. pose proof (band_mono p q H). destruct (Z.eq_dec (band mid p) (band mid q)); [right|lia].
  split; [done|]. by apply idx_mono.
Qed.

End Facts.

Section ZoneZero.
Context (mid t : Z).
Hypothesis Hcfg : cfg_ok mid t.

Lemma base_after_zone0 z : 1 <= z <= 4 -> zs mid t 0 <= base mid t z.
Proof.
  intros Hz. pose proof (zs_nonneg mid t Hcfg 1). pose proof (zs_nonneg mid t Hcfg 2).
  pose proof (zs_nonneg mid t Hcfg 3).
  assert (z = 1 \/ z = 2 \/ z = 3 \/ z = 4) as [->|[->|[->| ->]]] by lia; cbn [base]; lia.
Qed.

(** A slot below [zone_slots[0]] holds zone 0 prices only. *)
Lemma zone0_of_idx x : 0 <= x -> idx mid t x < zs mid t 0 -> zone mid x = 0.
Proof.
  intros Hx Hix. pose proof (zone_range mid x).
  destruct (Z.eq_dec (zone mid x) 0) as [|Hne]; [done|]. exfalso.
  pose proof (base_after_zone0 (zone mid x) ltac:(lia)) as Hbase.
  pose proof (offset_range mid t Hcfg x) as Ho. pose proof (zs_nonneg mid t Hcfg (zone mid x)).
  unfold idx in Hix. destruct (zone mid x =? 4) eqn:E4; bool_to_prop.
  { rewrite E4 in Hbase. destruct (mid <=? x); lia. }
  destruct (zs mid t (zone mid x) / 2 =? 0) eqn:Eh; bool_to_prop; [lia|].
  specialize (Ho E4 ltac:(dlia)). destruct (mid <=? x); lia.
Qed.

(** The cap on the offset never bites in zone 0. *)
Lemma zone0_idx x :
  0 <= x -> zone mid x = 0 ->
  idx mid t x = if mid <=? x then zs mid t 0 / 2 + dist mid x / t else zs mid t 0 / 2 - 1 - dist mid x / t.
Proof.
  intros Hx Ez. destruct (co_tick _ _ Hcfg) as [Ht _].
  pose proof (zone_dist mid t Hcfg x Hx) as Hd. rewrite Ez in Hd.
  assert (0 <= dist mid x / t) by (apply Z.div_pos; unfold dist; lia).
  assert (zs mid t 0 / 2 = (pc mid 5 - 1) / t + 1) as Ec.
  { cbn [zs]. rewrite Z.mul_comm, Z.div_mul by lia. unfold cdiv.
    replace (pc mid 5 + t - 1) with (pc mid 5 - 1 + 1 * t) by lia. rewrite Z.div_add by lia. lia. }
  assert (dist mid x / t <= (pc mid 5 - 1) / t) by (apply Z.div_le_mono; lia).
  unfold idx, offset. rewrite Ez. cbn [raw zstart]. rewrite Z.sub_0_r, Z.min_l by lia.
  change (0 =? 4) with false. replace (zs mid t 0 / 2 =? 0) with false by lia.
  cbn [base]. destruct (mid <=? x); lia.
Qed.

Lemma aligned_div a m : 0 < t -> a mod t = 0 -> (a - m) / t = a / t + (- m) / t.
Proof.
  intros Ht Ha. rewrite (Z.div_mod a t) at 1 by lia. rewrite Ha, Z.add_0_r.
  replace (t * (a / t) - m) with (a / t * t + - m) by lia. by rewrite Z.div_add_l by lia.
Qed.

(** Zone 0 is exact: tick-aligned prices never share one of its slots. *)
Lemma zone0_exact p q :
  0 <= p -> 0 <= q -> p mod t = 0 -> q mod t = 0 ->
  idx mid t p = idx mid t q -> idx mid t p < zs mid t 0 -> p = q.
Proof.
  intros Hp Hq Hpt Hqt Heq Hlt. destruct (co_tick _ _ Hcfg) as [Ht _].
  pose proof (zone0_idx p Hp (zone0_of_idx p Hp Hlt)) as Ep.
  pose proof (zone0_idx q Hq (zone0_of_idx q Hq ltac:(lia))) as Eq.
  assert (0 <= dist mid p / t /\ 0 <= dist mid q / t) as [Hop Hoq]
    by (split; apply Z.div_pos; unfold dist; lia).
  rewrite Ep, Eq in Heq. enough (p / t = q / t) by (rewrite (Z.div_mod p t), (Z.div_mod q t) by lia; lia).
  unfold dist in *. destruct (mid <=? p) eqn:E1, (mid <=? q) eqn:E2; bool_to_prop; try lia.
  - rewrite !Z.abs_eq in Heq by lia. rewrite !aligned_div in Heq by (done || lia). lia.
  - rewrite !Z.abs_neq in Heq by lia.
    assert (forall x, x mod t = 0 -> - (x - mid) / t = mid / t - x / t) as Hneg.
    { intros x Hxt. rewrite (Z.div_mod x t) at 1 by lia. rewrite Hxt, Z.add_0_r.
      replace (- (t * (x / t) - mid)) with (mid + (- (x / t)) * t) by lia. rewrite Z.div_add by lia. lia. }
    rewrite !Hneg in Heq by done. lia.
Qed.
End ZoneZero.
