(* ===== verification/Users.v ===== *)
(** * Users: the per-book user registry [rsx-book/src/user.rs]

    A slab of user states with a hash map from user id to slot, a free list
    and a bump counter.  The contract is a total map from user id to net
    position and resting-order count, both zero for an unknown user: fills
    move equal and opposite amounts, and reclaiming an idle slot is invisible. *)

From S2P Require Import Prelude Types.

Definition RECLAIM_GRACE_NS : Z := 60000000000.

Record UserState : Type := mkUser {
  us_user_id : Z;
  us_net_qty : Z;
  us_order_count : Z;
  us_zero_since_ns : Z;
}.

Definition UserState_new (user_id : Z) : UserState := mkUser user_id 0 0 0.
Definition UserState_default : UserState := mkUser 0 0 0 0.

Definition is_idle (u : UserState) : bool := (us_net_qty u =? 0) && (us_order_count u =? 0).
Definition clear_zero_mark (u : UserState) : UserState :=
  mkUser (us_user_id u) (us_net_qty u) (us_order_count u) 0.
Definition mark_zero_if_idle (now_ns : Z) (u : UserState) : UserState :=
  if is_idle u && (us_zero_since_ns u =? 0)
  then mkUser (us_user_id u) (us_net_qty u) (us_order_count u) now_ns else u.
Definition with_net (net : Z) (u : UserState) : UserState :=
  mkUser (us_user_id u) net (us_order_count u) (us_zero_since_ns u).
Definition with_count (n : Z) (u : UserState) : UserState :=
  mkUser (us_user_id u) (us_net_qty u) n (us_zero_since_ns u).

Record UserRegistry : Type := mkReg {
  user_states : list UserState;
  user_map : gmap Z Z;
  user_free_list : list Z;
  user_bump : Z;
  maintenance_cursor : Z;
}.

Definition UserRegistry_new : UserRegistry := mkReg [] ∅ [] 0 0.

Definition with_states (r : UserRegistry) (st : list UserState) : UserRegistry :=
  mkReg st (user_map r) (user_free_list r) (user_bump r) (maintenance_cursor r).

(** [Vec::pop]. *)
Definition pop {A} (l : list A) : option (A * list A) :=
  match reverse l with [] => None | x :: tl => Some (x, reverse tl) end.

Definition get_or_assign (r : UserRegistry) (user_id : Z) : Res (Z * UserRegistry) :=
  match user_map r !! user_id with
  | Some idx =>
      st ← vmodify (user_states r) idx clear_zero_mark;
      Ok (idx, with_states r st)
  | None =>
      '(idx, r1) ← match pop (user_free_list r) with
        | Some (free, fl) =>
            st ← vset (user_states r) free (UserState_new user_id);
            Ok (free, mkReg st (user_map r) fl (user_bump r) (maintenance_cursor r))
        | None =>
            let idx := user_bump r in
            _ ← assert_ok (user_bump r + 1 <=? U32_MAX);
            st ← (if idx >=? zlen (user_states r)
                  then Ok (user_states r ++ [UserState_new user_id])
                  else vset (user_states r) idx (UserState_new user_id));
            Ok (idx, mkReg st (user_map r) (user_free_list r) (user_bump r + 1) (maintenance_cursor r))
        end;
      Ok (idx, mkReg (user_states r1) (<[user_id := idx]> (user_map r1)) (user_free_list r1)
                 (user_bump r1) (maintenance_cursor r1))
  end.

Definition maintain_one (r : UserRegistry) (now_ns : Z) (replay_mode : bool) : Res (option Z * UserRegistry) :=
  if replay_mode || (user_bump r =? 0) then Ok (None, r)
  else
    let i := maintenance_cursor r mod user_bump r in
    let r := mkReg (user_states r) (user_map r) (user_free_list r) (user_bump r)
               (wrap_u32 (maintenance_cursor r + 1) mod user_bump r) in
    state ← vindex (user_states r) i;
    if us_user_id state =? 0 then Ok (None, r)
    else if negb (is_idle state) then
      st ← vset (user_states r) i (clear_zero_mark state); Ok (None, with_states r st)
    else if us_zero_since_ns state =? 0 then
      st ← vset (user_states r) i (mark_zero_if_idle now_ns state); Ok (None, with_states r st)
    else if sat_u64 (now_ns - us_zero_since_ns state) <? RECLAIM_GRACE_NS then Ok (None, r)
    else
      let uid := us_user_id state in
      st ← vset (user_states r) i UserState_default;
      Ok (Some uid, mkReg st (delete uid (user_map r)) (user_free_list r ++ [i])
                      (user_bump r) (maintenance_cursor r)).

Definition contains (r : UserRegistry) (user_id : Z) : bool := bool_decide (is_Some (user_map r !! user_id)).

(** [net_qty] and [order_count] index [user_states] inside the closure. *)
Definition net_qty (r : UserRegistry) (user_id : Z) : Res (option Z) :=
  match user_map r !! user_id with
  | None => Ok None
  | Some idx => u ← vindex (user_states r) idx; Ok (Some (us_net_qty u))
  end.
Definition order_count (r : UserRegistry) (user_id : Z) : Res (option Z) :=
  match user_map r !! user_id with
  | None => Ok None
  | Some idx => u ← vindex (user_states r) idx; Ok (Some (us_order_count u))
  end.

Definition add_order (r : UserRegistry) (user_id : Z) : Res UserRegistry :=
  '(idx, r1) ← get_or_assign r user_id;
  st ← vmodify (user_states r1) idx (fun u => with_count (wrap_u32 (us_order_count u + 1)) u);
  Ok (with_states r1 st).

Definition remove_order (r : UserRegistry) (user_id : Z) : Res UserRegistry :=
  match user_map r !! user_id with
  | None => Ok r
  | Some idx =>
      st ← vmodify (user_states r) idx (fun u => with_count (sat_u32 (us_order_count u - 1)) u);
      Ok (with_states r st)
  end.

Definition sign_of (s : Side) : Z := match s with Buy => 1 | Sell => -1 end.

Definition apply_fill (r : UserRegistry) (taker maker : Z) (taker_side : Side) (qty : Z) : Res UserRegistry :=
  let delta := wrap_i64 (sign_of taker_side * qty) in
  '(taker_idx, r1) ← get_or_assign r taker;
  st1 ← vmodify (user_states r1) taker_idx (fun u => with_net (sat_i64 (us_net_qty u + delta)) u);
  '(maker_idx, r2) ← get_or_assign (with_states r1 st1) maker;
  st2 ← vmodify (user_states r2) maker_idx (fun u => with_net (sat_i64 (us_net_qty u + wrap_i64 (- delta))) u);
  Ok (with_states r2 st2).

(** ** The contract *)

(** The state of a user, all zero when unknown. *)
Definition user_of (r : UserRegistry) (uid : Z) : UserState :=
  match user_map r !! uid with
  | None => UserState_new uid
  | Some i => match vget (user_states r) i with Some u => u | None => UserState_new uid end
  end.
Definition net_of (r : UserRegistry) (uid : Z) : Z := us_net_qty (user_of r uid).
Definition orders_of (r : UserRegistry) (uid : Z) : Z := us_order_count (user_of r uid).

(** Σ net position over the registry. *)
Definition total_net (r : UserRegistry) : Z := zsum us_net_qty (user_states r).

Record reg_inv (r : UserRegistry) : Prop := {
  ri_len : zlen (user_states r) = user_bump r;
  ri_map : forall uid i, user_map r !! uid = Some i ->
    exists u, vget (user_states r) i = Some u /\ us_user_id u = uid;
  ri_nodup : NoDup (user_free_list r);
  ri_free : forall i, In i (user_free_list r) -> vget (user_states r) i = Some UserState_default;
  ri_sep : forall uid i, user_map r !! uid = Some i -> ~ In i (user_free_list r);
  ri_cover : forall i, 0 <= i < user_bump r -> In i (user_free_list r) \/ exists uid, user_map r !! uid = Some i;
}.

Definition room_for (r : UserRegistry) (uid : Z) : Prop :=
  is_Some (user_map r !! uid) \/ user_free_list r <> [] \/ user_bump r < U32_MAX.

(** ** Proofs *)

Lemma pop_none {A} (l : list A) : pop l = None -> l = [].
Proof.
  unfold pop. destruct (reverse l) as [|x tl] eqn:E; [|discriminate].
  intros _. rewrite <- (reverse_involutive l), E. reflexivity.
Qed.

Lemma pop_some {A} (l : list A) x l' : pop l = Some (x, l') -> l = l' ++ [x].
Proof.
  unfold pop. destruct (reverse l) as [|y tl] eqn:E; [discriminate|].
  intros [= <- <-]. rewrite <- (reverse_involutive l), E. by rewrite reverse_cons.
Qed.

Lemma vget_app_l {A} (l l2 : list A) i : 0 <= i < zlen l -> vget (l ++ l2) i = vget l i.
Proof. intros. rewrite !vget_lookup by lia. apply lookup_app_l. unfold zlen in *. lia. Qed.

Lemma vget_snoc {A} (l : list A) x : vget (l ++ [x]) (zlen l) = Some x.
Proof.
  pose proof (zlen_nonneg l). rewrite vget_lookup by lia. unfold zlen. rewrite Nat2Z.id.
  rewrite lookup_app_r by lia. by rewrite Nat.sub_diag.
Qed.

Lemma new_reg_inv : reg_inv UserRegistry_new.
Proof.
  split; simpl; try done; try constructor; try lia.
Qed.

Lemma map_inj r u1 u2 i : reg_inv r -> user_map r !! u1 = Some i -> user_map r !! u2 = Some i -> u1 = u2.
Proof.
  intros Hi H1 H2. destruct (ri_map _ Hi _ _ H1) as (a & E1 & <-).
  destruct (ri_map _ Hi _ _ H2) as (b & E2 & <-). congruence.
Qed.

(** Changing a mapped user's state, keeping its id. *)
Lemma modify_user r uid i u f :
  reg_inv r -> user_map r !! uid = Some i -> vget (user_states r) i = Some u -> us_user_id (f u) = us_user_id u ->
  vmodify (user_states r) i f = Ok (vput (user_states r) i (f u)) /\
  reg_inv (with_states r (vput (user_states r) i (f u))) /\
  user_of (with_states r (vput (user_states r) i (f u))) uid = f u /\
  (forall v, v <> uid -> user_of (with_states r (vput (user_states r) i (f u))) v = user_of r v) /\
  total_net (with_states r (vput (user_states r) i (f u))) = total_net r - us_net_qty u + us_net_qty (f u).
Proof.
  intros Hi Hm Hu Hid. pose proof (vget_some_range _ _ _ Hu) as Hr.
  split; [by apply vmodify_ok|]. split; [|split; [|split]].
  - destruct Hi as [Hl Hmap Hn Hf Hs Hc]. split; simpl; try done.
    + by rewrite zlen_vput.
    + intros v j Hj. destruct (Hmap v j Hj) as (w & Hw & Hwid). destruct (Z.eq_dec i j) as [<-|Hne].
      * exists (f u). rewrite vget_vput_eq by done. split; [done|]. congruence.
      * exists w. by rewrite vget_vput_ne.
    + intros j Hj. rewrite vget_vput_ne; [by apply Hf|]. intros <-. by apply (Hs uid i).
  - unfold user_of. simpl. rewrite Hm, vget_vput_eq by done. done.
  - intros v Hv. unfold user_of. simpl. destruct (user_map r !! v) as [j|] eqn:Ej; [|done].
    rewrite vget_vput_ne; [done|]. intros <-. apply Hv. by eapply map_inj.
  - unfold total_net. simpl. rewrite (zsum_vput _ _ _ _ _ Hu). lia.
Qed.

(** What [get_or_assign] leaves: the user is mapped with the position and count
    it had, and nobody else changes. *)
Record assigned (r : UserRegistry) (uid : Z) (i : Z) (r' : UserRegistry) (u : UserState) : Prop := {
  as_inv : reg_inv r';
  as_map : user_map r' !! uid = Some i;
  as_get : vget (user_states r') i = Some u;
  as_id : us_user_id u = uid;
  as_net : us_net_qty u = net_of r uid;
  as_count : us_order_count u = orders_of r uid;
  as_other : forall v, v <> uid -> user_of r' v = user_of r v;
  as_total : total_net r' = total_net r;
  as_known : forall v, is_Some (user_map r !! v) -> is_Some (user_map r' !! v);
  as_bump : user_bump r' <= user_bump r + 1;
}.

Lemma assign_known r uid i :
  reg_inv r -> user_map r !! uid = Some i ->
  exists r' u, get_or_assign r uid = Ok (i, r') /\ assigned r uid i r' u.
Proof.
  intros Hi Em. destruct (ri_map _ Hi _ _ Em) as (u & Hu & Hid).
  destruct (modify_user r uid i u clear_zero_mark Hi Em Hu eq_refl) as (E1 & E2 & E3 & E4 & E5).
  unfold get_or_assign. rewrite Em, E1. cbn [mbind Res_bind].
  exists (with_states r (vput (user_states r) i (clear_zero_mark u))), (clear_zero_mark u).
  split; [done|]. split; simpl; try done; try lia.
  - apply vget_vput_eq. by eapply vget_some_range.
  - unfold net_of, user_of. by rewrite Em, Hu.
  - unfold orders_of, user_of. by rewrite Em, Hu.
  - rewrite E5. simpl. lia.
Qed.

Lemma assign_reuse r uid fr fl :
  reg_inv r -> user_map r !! uid = None -> user_free_list r = fl ++ [fr] ->
  exists r' u, get_or_assign r uid = Ok (fr, r') /\ assigned r uid fr r' u.
Proof.
  intros Hi Em Ep. assert (In fr (fl ++ [fr])) as Hin by (apply in_app_iff; right; by left).
  pose proof (ri_free _ Hi fr) as Hfr. pose proof (ri_nodup _ Hi) as Hnd. rewrite Ep in Hfr, Hnd.
  specialize (Hfr Hin). pose proof (vget_some_range _ _ _ Hfr) as Hr.
  apply NoDup_app in Hnd as (Hnd1 & Hnd2 & _).
  assert (~ In fr fl) as Hnin by (intros H; apply (Hnd2 fr); [by apply list_elem_of_In|left]).
  assert (forall v j, user_map r !! v = Some j -> fr <> j) as Hsep.
  { intros v j Hj <-. apply (ri_sep _ Hi v fr Hj). by rewrite Ep. }
  unfold get_or_assign. rewrite Em. unfold pop. rewrite Ep, reverse_snoc, reverse_involutive.
  rewrite vset_ok by done. cbn. eexists _, (UserState_new uid). split; [reflexivity|].
  split; simpl; try done; try lia.
  - destruct Hi as [Hl Hmap Hn Hf Hs Hc]. rewrite Ep in Hf, Hs, Hc. split; simpl; try done.
    + by rewrite zlen_vput.
    + intros v j. rewrite lookup_insert. case_decide as Hd.
      * intros [= <-]. subst. exists (UserState_new v). by rewrite vget_vput_eq.
      * intros Hj. destruct (Hmap v j Hj) as (w & Hw & Hwid). exists w. rewrite vget_vput_ne; eauto.
    + intros j Hj. rewrite vget_vput_ne; [apply Hf, in_app_iff; by left|congruence].
    + intros v j. rewrite lookup_insert. case_decide as Hd; [by intros [= <-]|].
      intros Hj Hj'. apply (Hs v j Hj). apply in_app_iff. by left.
    + intros j Hj. destruct (Hc j Hj) as [Hj'|[v Hv]].
      * apply in_app_iff in Hj' as [Hj'|[<-|[]]]; [by left|]. right. exists uid. apply lookup_insert_eq.
      * right. exists v. rewrite lookup_insert_ne; [done|congruence].
  - apply lookup_insert_eq.
  - by apply vget_vput_eq.
  - unfold net_of, user_of. by rewrite Em.
  - unfold orders_of, user_of. by rewrite Em.
  - intros v Hv. unfold user_of. simpl. rewrite lookup_insert_ne by done.
    destruct (user_map r !! v) as [j|] eqn:Ej; [|done]. rewrite vget_vput_ne; eauto.
  - unfold total_net. simpl. rewrite (zsum_vput _ _ _ _ _ Hfr). simpl. lia.
  - intros v Hv. rewrite lookup_insert. case_decide; [eauto|done].
Qed.

Lemma assign_bump r uid :
  reg_inv r -> user_map r !! uid = None -> user_free_list r = [] -> user_bump r < U32_MAX ->
  exists r' u, get_or_assign r uid = Ok (user_bump r, r') /\ assigned r uid (user_bump r) r' u.
Proof.
  intros Hi Em Ep Hlt. pose proof (ri_len _ Hi) as Hl. unfold get_or_assign. rewrite Em, Ep.
  cbn [pop reverse]. replace (user_bump r + 1 <=? U32_MAX) with true by lia. cbn [assert_ok mbind Res_bind].
  rewrite Z.geb_leb. replace (zlen (user_states r) <=? user_bump r) with true by lia.
  cbn [mbind Res_bind]. eexists _, (UserState_new uid). split; [reflexivity|]. rewrite <- Hl.
  assert (forall j w, vget (user_states r) j = Some w -> vget (user_states r ++ [UserState_new uid]) j = Some w) as Hkeep.
  { intros j w Hw. rewrite vget_app_l; [done|]. by eapply vget_some_range. }
  split; simpl; try done; try lia.
  - destruct Hi as [Hl' Hmap Hn Hf Hs Hc]. split; simpl; rewrite ?Ep; try done.
    + rewrite zlen_snoc. lia.
    + intros v j. rewrite lookup_insert. case_decide as Hd.
      * intros [= <-]. subst. exists (UserState_new v). by rewrite vget_snoc.
      * intros Hj. destruct (Hmap v j Hj) as (w & Hw & Hwid). eauto.
    + constructor.
    + intros v j _ [].
    + intros j Hj. destruct (Z.eq_dec j (zlen (user_states r))) as [->|].
      * right. exists uid. apply lookup_insert_eq.
      * destruct (Hc j ltac:(lia)) as [Hin|[v Hv]]; [by rewrite Ep in Hin|]. right. exists v.
        rewrite lookup_insert_ne; [done|congruence].
  - apply lookup_insert_eq.
  - apply vget_snoc.
  - unfold net_of, user_of. by rewrite Em.
  - unfold orders_of, user_of. by rewrite Em.
  - intros v Hv. unfold user_of. simpl. rewrite lookup_insert_ne by done.
    destruct (user_map r !! v) as [j|] eqn:Ej; [|done].
    destruct (ri_map _ Hi _ _ Ej) as (w & Hw & _). by rewrite Hw, (Hkeep j w).
  - unfold total_net. simpl. rewrite zsum_app. simpl. lia.
  - intros v Hv. rewrite lookup_insert. case_decide; [eauto|done].
Qed.

Lemma get_or_assign_spec r uid :
  reg_inv r -> room_for r uid ->
  exists i r' u, get_or_assign r uid = Ok (i, r') /\ assigned r uid i r' u.
Proof.
  intros Hi Hroom. destruct (user_map r !! uid) as [i|] eqn:Em.
  { destruct (assign_known r uid i Hi Em) as (r' & u & E). eauto. }
  destruct (pop (user_free_list r)) as [[fr fl]|] eqn:Ep.
  - apply pop_some in Ep. destruct (assign_reuse r uid fr fl Hi Em Ep) as (r' & u & E). eauto.
  - apply pop_none in Ep. destruct Hroom as [[? ?]|[|Hlt]]; [congruence|done|].
    destruct (assign_bump r uid Hi Em Ep Hlt) as (r' & u & E). eauto.
Qed.

(** *** Order counts *)

Lemma user_of_get r uid i u : user_map r !! uid = Some i -> vget (user_states r) i = Some u -> user_of r uid = u.
Proof. intros Hm Hg. unfold user_of. by rewrite Hm, Hg. Qed.

Lemma add_order_spec r uid :
  reg_inv r -> room_for r uid -> 0 <= orders_of r uid < U32_MAX ->
  exists r', add_order r uid = Ok r' /\ reg_inv r' /\
    orders_of r' uid = orders_of r uid + 1 /\ net_of r' uid = net_of r uid /\
    (forall v, v <> uid -> user_of r' v = user_of r v) /\ total_net r' = total_net r.
Proof.
  intros Hi Hroom Hc. unfold add_order.
  destruct (get_or_assign_spec r uid Hi Hroom) as (i & r1 & u & E & Ha). rewrite E. cbn [mbind Res_bind].
  destruct (modify_user r1 uid i u (fun u => with_count (wrap_u32 (us_order_count u + 1)) u)
    (as_inv _ _ _ _ _ Ha) (as_map _ _ _ _ _ Ha) (as_get _ _ _ _ _ Ha) eq_refl) as (E1 & E2 & E3 & E4 & E5).
  rewrite E1. cbn [mbind Res_bind]. eexists. split; [reflexivity|]. split; [done|].
  split; [|split; [|split]].
  - unfold orders_of at 1. rewrite E3. simpl. rewrite (as_count _ _ _ _ _ Ha). apply wrap_u32_id. width_lia.
  - unfold net_of at 1. rewrite E3. apply Ha.
  - intros v Hv. etransitivity; [by apply E4|]. by apply Ha.
  - rewrite E5. simpl. rewrite (as_total _ _ _ _ _ Ha). lia.
Qed.

Lemma remove_order_spec r uid :
  reg_inv r -> 0 <= orders_of r uid <= U32_MAX ->
  exists r', remove_order r uid = Ok r' /\ reg_inv r' /\
    orders_of r' uid = Z.max 0 (orders_of r uid - 1) /\ net_of r' uid = net_of r uid /\
    (forall v, v <> uid -> user_of r' v = user_of r v) /\ total_net r' = total_net r.
Proof.
  intros Hi Hc. unfold remove_order. destruct (user_map r !! uid) as [i|] eqn:Em.
  - destruct (ri_map _ Hi _ _ Em) as (u & Hu & Hid).
    destruct (modify_user r uid i u (fun u => with_count (sat_u32 (us_order_count u - 1)) u) Hi Em Hu eq_refl)
      as (E1 & E2 & E3 & E4 & E5).
    rewrite E1. cbn [mbind Res_bind]. eexists. split; [reflexivity|]. split; [done|].
    pose proof (user_of_get r uid i u Em Hu) as Huo.
    split; [|split; [|split; [done|rewrite E5; simpl; lia]]].
    + unfold orders_of in *. rewrite E3, Huo in *. simpl. unfold sat_u32, clamp. width_lia.
    + unfold net_of. by rewrite E3, Huo.
  - exists r. split; [done|]. split; [done|].
    assert (orders_of r uid = 0) as E0 by (unfold orders_of, user_of; by rewrite Em).
    rewrite E0. done.
Qed.

(** Removing an order assigns and frees no slot. *)
Lemma remove_order_map r uid r' :
  remove_order r uid = Ok r' ->
  user_map r' = user_map r /\ user_free_list r' = user_free_list r /\ user_bump r' = user_bump r.
Proof.
  unfold remove_order. destruct (user_map r !! uid) as [i|]; intros H; [|by injection H as <-].
  apply bind_ok in H as (st & _ & H). by injection H as <-.
Qed.

Lemma remove_order_room r uid r' v : remove_order r uid = Ok r' -> room_for r v -> room_for r' v.
Proof. intros H Hr. unfold room_for. destruct (remove_order_map _ _ _ H) as (-> & -> & ->). done. Qed.

(** A user with orders has a slot. *)
Lemma orders_known r v : orders_of r v <> 0 -> is_Some (user_map r !! v).
Proof. unfold orders_of, user_of. destruct (user_map r !! v); [eauto|]. done. Qed.

(** *** Fills *)

Lemma apply_fill_one r uid d :
  reg_inv r -> room_for r uid ->
  exists i r' st, get_or_assign r uid = Ok (i, r') /\
    vmodify (user_states r') i (fun u => with_net (sat_i64 (us_net_qty u + d)) u) = Ok st /\
    reg_inv (with_states r' st) /\ net_of (with_states r' st) uid = sat_i64 (net_of r uid + d) /\
    orders_of (with_states r' st) uid = orders_of r uid /\
    (forall v, v <> uid -> user_of (with_states r' st) v = user_of r v) /\
    total_net (with_states r' st) = total_net r + (sat_i64 (net_of r uid + d) - net_of r uid) /\
    (forall v, is_Some (user_map r !! v) -> is_Some (user_map (with_states r' st) !! v)) /\
    user_bump r' <= user_bump r + 1.
Proof.
  intros Hi Hroom. destruct (get_or_assign_spec r uid Hi Hroom) as (i & r1 & u & E & Ha).
  destruct (modify_user r1 uid i u (fun u => with_net (sat_i64 (us_net_qty u + d)) u)
    (as_inv _ _ _ _ _ Ha) (as_map _ _ _ _ _ Ha) (as_get _ _ _ _ _ Ha) eq_refl) as (E1 & E2 & E3 & E4 & E5).
  exists i, r1. eexists. split; [done|]. split; [exact E1|]. split; [done|].
  split; [unfold net_of at 1; rewrite E3; simpl; by rewrite (as_net _ _ _ _ _ Ha)|].
  split; [unfold orders_of at 1; rewrite E3; apply Ha|].
  split; [|split; [rewrite E5; simpl; rewrite (as_net _ _ _ _ _ Ha), (as_total _ _ _ _ _ Ha); lia|split; apply Ha]].
  intros v Hv. etransitivity; [by apply E4|]. by apply Ha.
Qed.

(** The position change of a fill that does not saturate. *)
Lemma apply_fill_spec r taker maker side qty :
  reg_inv r -> user_bump r + 2 <= U32_MAX -> 0 <= qty <= I64_MAX ->
  (forall v d, Z.abs d <= qty -> in_i64 (net_of r v + d)) ->
  exists r', apply_fill r taker maker side qty = Ok r' /\ reg_inv r' /\
    (forall v, orders_of r' v = orders_of r v) /\
    (forall v, net_of r' v = net_of r v + (if v =? taker then sign_of side * qty else 0)
                                        - (if v =? maker then sign_of side * qty else 0)) /\
    total_net r' = total_net r /\ user_bump r' <= user_bump r + 2.
Proof.
  intros Hi Hb Hq Hfit. unfold apply_fill.
  assert (Z.abs (sign_of side * qty) = qty) as Habs by (destruct side; simpl; lia).
  rewrite (wrap_i64_id (sign_of side * qty)), (wrap_i64_id (- (sign_of side * qty))) by width_lia.
  remember (sign_of side * qty) as d eqn:Hd. clear Hd.
  destruct (apply_fill_one r taker d Hi) as (i & r1 & st1 & E1 & F1 & I1 & N1 & O1 & U1 & T1 & K1 & B1);
    [right; right; lia|].
  rewrite E1. cbn [mbind Res_bind]. rewrite F1. cbn [mbind Res_bind].
  rewrite (sat_i64_id (net_of r taker + d)) in * by (apply Hfit; lia).
  destruct (apply_fill_one (with_states r1 st1) maker (- d) I1) as (j & r2 & st2 & E2 & F2 & I2 & N2 & O2 & U2 & T2 & K2 & B2);
    [right; right; simpl; lia|].
  rewrite E2. cbn [mbind Res_bind]. rewrite F2. cbn [mbind Res_bind].
  assert (net_of (with_states r1 st1) maker = net_of r maker + (if maker =? taker then d else 0)) as Hm.
  { destruct (maker =? taker) eqn:Em; bool_to_prop; [by subst|].
    unfold net_of in *. rewrite U1 by done. lia. }
  assert (sat_i64 (net_of (with_states r1 st1) maker + - d) = net_of (with_states r1 st1) maker + - d) as Hsat.
  { apply sat_i64_id. rewrite Hm.
    destruct (maker =? taker); [replace (net_of r maker + d + - d) with (net_of r maker + 0) by lia|
      rewrite Z.add_0_r]; apply Hfit; lia. }
  rewrite Hsat in N2, T2.
  eexists. split; [reflexivity|]. split; [done|]. split; [|split; [|split; [|simpl in *; lia]]].
  - intros v. destruct (Z.eq_dec v maker) as [->|Hvm].
    + rewrite O2. destruct (Z.eq_dec maker taker) as [->|]; [done|]. unfold orders_of. by rewrite U1.
    + unfold orders_of in *. rewrite U2 by done. destruct (Z.eq_dec v taker) as [->|]; [done|]. by rewrite U1.
  - intros v. destruct (v =? maker) eqn:Evm; bool_to_prop.
    + subst v. rewrite N2, Hm. lia.
    + unfold net_of in *. rewrite U2 by done. destruct (v =? taker) eqn:Evt; bool_to_prop; [subst; lia|].
      rewrite U1 by done. lia.
  - rewrite T2, T1. lia.
Qed.

Definition known (r : UserRegistry) (uid : Z) : Prop := is_Some (user_map r !! uid).

(** A fill against a maker the registry knows: it returns, keeps the order
    counts, and assigns at most the taker; positions move as long as they do
    not saturate. *)
Lemma apply_fill_known r taker maker side qty :
  reg_inv r -> room_for r taker -> known r maker -> 0 <= qty <= I64_MAX ->
  exists r', apply_fill r taker maker side qty = Ok r' /\ reg_inv r' /\
    (forall v, orders_of r' v = orders_of r v) /\ (forall v, known r v -> known r' v) /\ known r' taker /\
    ((forall v, Z.abs (net_of r v) + qty <= I64_MAX) ->
       (forall v, net_of r' v = net_of r v + (if v =? taker then sign_of side * qty else 0)
                                           - (if v =? maker then sign_of side * qty else 0)) /\
       total_net r' = total_net r).
Proof.
  intros Hi Hroom Hmk Hq. unfold apply_fill.
  assert (Z.abs (sign_of side * qty) = qty) as Habs by (destruct side; simpl; lia).
  rewrite (wrap_i64_id (sign_of side * qty)), (wrap_i64_id (- (sign_of side * qty))) by width_lia.
  remember (sign_of side * qty) as d eqn:Hd. clear Hd.
  destruct (apply_fill_one r taker d Hi Hroom) as (i & r1 & st1 & E1 & F1 & I1 & N1 & O1 & U1 & T1 & K1 & B1).
  rewrite E1. cbn [mbind Res_bind]. rewrite F1. cbn [mbind Res_bind].
  destruct (apply_fill_one (with_states r1 st1) maker (- d) I1) as (j & r2 & st2 & E2 & F2 & I2 & N2 & O2 & U2 & T2 & K2 & B2);
    [left; by apply K1|].
  rewrite E2. cbn [mbind Res_bind]. rewrite F2. cbn [mbind Res_bind].
  eexists. split; [reflexivity|]. split; [done|].
  assert (known (with_states r1 st1) taker) as Ht.
  { unfold get_or_assign in E1. unfold known. cbn. destruct (user_map r !! taker) as [k|] eqn:Em.
    - apply bind_ok in E1 as (st & _ & E1). injection E1 as <- <-. cbn. by rewrite Em.
    - apply bind_ok in E1 as ([k r0] & _ & E1). injection E1 as <- <-. cbn. rewrite lookup_insert_eq. eauto. }
  split; [|split; [|split; [by apply K2|]]].
  - intros v. destruct (Z.eq_dec v maker) as [->|Hvm].
    + rewrite O2. destruct (Z.eq_dec maker taker) as [->|]; [done|]. unfold orders_of. by rewrite U1.
    + unfold orders_of in *. rewrite U2 by done. destruct (Z.eq_dec v taker) as [->|]; [done|]. by rewrite U1.
  - intros v Hv. by apply K2, K1.
  - intros Hfit. pose proof (Hfit taker) as Hft. pose proof (Hfit maker) as Hfm.
    rewrite (sat_i64_id (net_of r taker + d)) in * by width_lia.
    assert (net_of (with_states r1 st1) maker = net_of r maker + (if maker =? taker then d else 0)) as Hm.
    { destruct (maker =? taker) eqn:Em; bool_to_prop; [by subst|]. unfold net_of in *. rewrite U1 by done. lia. }
    rewrite sat_i64_id in N2, T2 by (rewrite Hm; destruct (maker =? taker); width_lia).
    split; [|lia]. intros v. destruct (v =? maker) eqn:Evm; bool_to_prop.
    + subst v. rewrite N2, Hm. lia.
    + unfold net_of in *. rewrite U2 by done. destruct (v =? taker) eqn:Evt; bool_to_prop; [subst; lia|].
      rewrite U1 by done. lia.
Qed.

(** *** Reclamation *)

Lemma with_cursor_inv r c :
  reg_inv r -> reg_inv (mkReg (user_states r) (user_map r) (user_free_list r) (user_bump r) c).
Proof. intros []. by split. Qed.

Lemma reclaim_inv r i u uid c :
  reg_inv r -> vget (user_states r) i = Some u -> us_user_id u = uid -> uid <> 0 -> is_idle u = true ->
  let r' := mkReg (vput (user_states r) i UserState_default) (delete uid (user_map r))
              (user_free_list r ++ [i]) (user_bump r) c in
  reg_inv r' /\ (forall v, net_of r' v = net_of r v /\ orders_of r' v = orders_of r v) /\ total_net r' = total_net r.
Proof.
  intros Hi Hu Hid Hne Hidle r'. pose proof (vget_some_range _ _ _ Hu) as Hr.
  unfold is_idle in Hidle. bool_to_prop. pose proof (ri_len _ Hi) as Hlen.
  assert (~ In i (user_free_list r)) as Hnf.
  { intros Hin. apply (ri_free _ Hi) in Hin. rewrite Hu in Hin. injection Hin as ->. simpl in Hid. congruence. }
  destruct (ri_cover _ Hi i ltac:(lia)) as [|[v0 Hv0]]; [done|].
  assert (v0 = uid) as -> by (destruct (ri_map _ Hi _ _ Hv0) as (w & Hw & <-); congruence).
  split; [|split].
  - destruct Hi as [Hl Hmap Hn Hf Hs Hc]. split; simpl; try done.
    + by rewrite zlen_vput.
    + intros v j Hj. apply lookup_delete_Some in Hj as [Hvne Hj]. destruct (Hmap v j Hj) as (w & Hw & Hwid).
      exists w. rewrite vget_vput_ne; [done|]. intros <-. congruence.
    + apply NoDup_app. split; [done|]. split; [|apply NoDup_singleton].
      intros x Hx ->%list_elem_of_singleton. apply Hnf. by apply list_elem_of_In.
    + intros j [Hj|[<-|[]]]%in_app_iff; [|by apply vget_vput_eq].
      rewrite vget_vput_ne; [by apply Hf|]. by intros <-.
    + intros v j Hj [Hin|[<-|[]]]%in_app_iff; apply lookup_delete_Some in Hj as [Hvne Hj].
      * by apply (Hs v j).
      * apply Hvne. destruct (Hmap v i Hj) as (w & Hw & <-). congruence.
    + intros j Hj. destruct (Hc j Hj) as [Hin|[v Hv]]; [left; apply in_app_iff; by left|].
      destruct (Z.eq_dec i j) as [<-|Hij]; [left; apply in_app_iff; right; by left|].
      right. exists v. apply lookup_delete_Some. split; [|done]. intros <-. congruence.
  - intros v. unfold net_of, orders_of, user_of. simpl. destruct (Z.eq_dec uid v) as [<-|Hvne].
    + rewrite lookup_delete_eq, Hv0, Hu. simpl. split; congruence.
    + rewrite lookup_delete_ne by done. destruct (user_map r !! v) as [j|] eqn:Ej; [|done].
      rewrite vget_vput_ne; [done|]. intros <-. apply Hvne. by eapply map_inj.
  - unfold total_net. simpl. rewrite (zsum_vput _ _ _ _ _ Hu). simpl. lia.
Qed.

Lemma touch_spec r v0 i u f :
  reg_inv r -> user_map r !! v0 = Some i -> vget (user_states r) i = Some u ->
  us_user_id (f u) = us_user_id u -> us_net_qty (f u) = us_net_qty u ->
  us_order_count (f u) = us_order_count u ->
  exists st, vset (user_states r) i (f u) = Ok st /\ reg_inv (with_states r st) /\
    (forall v, net_of (with_states r st) v = net_of r v /\ orders_of (with_states r st) v = orders_of r v) /\
    total_net (with_states r st) = total_net r.
Proof.
  intros Hi Hm Hu Hid Hn Ho. rewrite vset_ok by (by eapply vget_some_range).
  destruct (modify_user r v0 i u f Hi Hm Hu Hid) as (_ & E2 & E3 & E4 & E5).
  eexists. split; [reflexivity|]. split; [done|]. split; [|lia].
  intros v. unfold net_of, orders_of. destruct (Z.eq_dec v v0) as [->|Hv].
  - rewrite E3, (user_of_get r v0 i u Hm Hu). done.
  - by rewrite E4.
Qed.

(** A maintenance step keeps every position and order count, and reclaims only
    a user that has been idle for the grace period. *)
Lemma maintain_one_spec r now replay :
  reg_inv r -> 0 <= maintenance_cursor r ->
  exists o r', maintain_one r now replay = Ok (o, r') /\ reg_inv r' /\
    (forall v, net_of r' v = net_of r v /\ orders_of r' v = orders_of r v) /\
    total_net r' = total_net r /\
    (forall uid, o = Some uid ->
       replay = false /\ net_of r uid = 0 /\ orders_of r uid = 0 /\ contains r' uid = false /\
       RECLAIM_GRACE_NS <= now - us_zero_since_ns (user_of r uid)).
Proof.
  intros Hi Hcur. unfold maintain_one. destruct (replay || (user_bump r =? 0)) eqn:E0.
  { exists None, r. done. }
  apply orb_false_iff in E0 as [-> E0]. bool_to_prop. pose proof (ri_len _ Hi) as Hl. pose proof (zlen_nonneg (user_states r)).
  set (i := maintenance_cursor r mod user_bump r).
  assert (0 <= i < user_bump r) as Hir by (apply Z.mod_pos_bound; lia).
  set (c := wrap_u32 (maintenance_cursor r + 1) mod user_bump r).
  destruct (vget_is_some (user_states r) i ltac:(lia)) as [u Hu]. cbn [user_states].
  rewrite (vindex_some _ _ _ Hu). cbn [mbind Res_bind].
  set (rc := mkReg (user_states r) (user_map r) (user_free_list r) (user_bump r) c).
  assert (reg_inv rc) as Hc by by apply with_cursor_inv.
  destruct (us_user_id u =? 0) eqn:Eu; bool_to_prop.
  { exists None, rc. done. }
  assert (~ In i (user_free_list r)) as Hnf.
  { intros Hin. apply (ri_free _ Hi) in Hin. rewrite Hu in Hin. injection Hin as ->. by simpl in Eu. }
  destruct (ri_cover _ Hi i Hir) as [|[v0 Hv0]]; [done|].
  assert (user_of r (us_user_id u) = u) as Huo.
  { destruct (ri_map _ Hi _ _ Hv0) as (w & Hw & <-). rewrite Hu in Hw. injection Hw as <-. by eapply user_of_get. }
  pose proof (touch_spec rc v0 i u) as Hkeep. simpl in Hkeep.
  destruct (is_idle u) eqn:Eid; cbn [negb].
  2: { destruct (Hkeep clear_zero_mark) as (st & E & H1 & H2 & H3); try done.
       rewrite E. exists None, (with_states rc st). done. }
  destruct (us_zero_since_ns u =? 0) eqn:Ez.
  { destruct (Hkeep (mark_zero_if_idle now)) as (st & E & H1 & H2 & H3);
      try done; try (unfold mark_zero_if_idle; by destruct (_ && _)%bool).
    rewrite E. exists None, (with_states rc st). done. }
  destruct (sat_u64 _ <? RECLAIM_GRACE_NS) eqn:Eg; bool_to_prop.
  { exists None, rc. done. }
  rewrite vset_ok by (simpl; lia). cbn [mbind Res_bind].
  destruct (reclaim_inv rc i u (us_user_id u) c Hc Hu eq_refl Eu Eid) as (R1 & R2 & R3).
  eexists _, _. split; [reflexivity|]. split; [exact R1|]. split; [exact R2|]. split; [exact R3|].
  intros uid [= <-]. unfold net_of, orders_of. rewrite Huo. unfold is_idle in Eid. bool_to_prop.
  split; [done|]. split; [done|]. split; [done|]. split.
  - unfold contains. simpl. rewrite lookup_delete_eq. by apply bool_decide_eq_false_2; intros [? ?].
  - unfold sat_u64, clamp, RECLAIM_GRACE_NS in *. lia.
Qed.
