(* ===== verification/Order.v ===== *)
(** * Order: slots, price levels and events of the book

    [rsx-book/src/order.rs], [level.rs] and [event.rs].  Padding bytes are
    never read and are left out. *)

From S2P Require Import Prelude Types Slab.

Definition ORDER_ACTIVE : Z := 1.
Definition ORDER_REDUCE_ONLY : Z := 2.

Record OrderSlot : Type := mkSlot {
  os_price : Z;
  os_remaining : Z;
  os_side : Z;
  os_flags : Z;
  os_tif : Z;
  os_next : Z;
  os_prev : Z;
  os_tick : Z;
  os_user : Z;
  os_sequence : Z;
  os_original : Z;
  os_timestamp : Z;
  os_oid_hi : Z;
  os_oid_lo : Z;
}.

Definition OrderSlot_default : OrderSlot := mkSlot 0 0 0 0 0 NONE NONE 0 0 0 0 0 0 0.

(** [flags & ORDER_ACTIVE != 0] *)
Definition is_active (s : OrderSlot) : bool := negb (Z.land (os_flags s) ORDER_ACTIVE =? 0).
Definition is_reduce_only (s : OrderSlot) : bool := negb (Z.land (os_flags s) ORDER_REDUCE_ONLY =? 0).

Definition os_with_flags (f : Z) (s : OrderSlot) : OrderSlot :=
  mkSlot (os_price s) (os_remaining s) (os_side s) f (os_tif s) (os_next s) (os_prev s) (os_tick s)
    (os_user s) (os_sequence s) (os_original s) (os_timestamp s) (os_oid_hi s) (os_oid_lo s).
(** [flags |= ORDER_ACTIVE] or [flags &= !ORDER_ACTIVE] on a [u8]. *)
Definition set_active (active : bool) (s : OrderSlot) : OrderSlot :=
  os_with_flags (if active then Z.lor (os_flags s) ORDER_ACTIVE
                 else Z.land (os_flags s) (Z.lxor U8_MAX ORDER_ACTIVE)) s.

Definition os_with_next (n : Z) (s : OrderSlot) : OrderSlot :=
  mkSlot (os_price s) (os_remaining s) (os_side s) (os_flags s) (os_tif s) n (os_prev s) (os_tick s)
    (os_user s) (os_sequence s) (os_original s) (os_timestamp s) (os_oid_hi s) (os_oid_lo s).
Definition os_with_prev (p : Z) (s : OrderSlot) : OrderSlot :=
  mkSlot (os_price s) (os_remaining s) (os_side s) (os_flags s) (os_tif s) (os_next s) p (os_tick s)
    (os_user s) (os_sequence s) (os_original s) (os_timestamp s) (os_oid_hi s) (os_oid_lo s).
Definition os_with_remaining (q : Z) (s : OrderSlot) : OrderSlot :=
  mkSlot (os_price s) q (os_side s) (os_flags s) (os_tif s) (os_next s) (os_prev s) (os_tick s)
    (os_user s) (os_sequence s) (os_original s) (os_timestamp s) (os_oid_hi s) (os_oid_lo s).
Definition os_with_tick (t : Z) (s : OrderSlot) : OrderSlot :=
  mkSlot (os_price s) (os_remaining s) (os_side s) (os_flags s) (os_tif s) (os_next s) (os_prev s) t
    (os_user s) (os_sequence s) (os_original s) (os_timestamp s) (os_oid_hi s) (os_oid_lo s).

#[global] Instance OrderSlot_SlabItem : SlabItem OrderSlot := {
  si_next := os_next;
  si_set_next := fun s n => os_with_next n s;
  si_default := OrderSlot_default;
}.
#[global] Instance OrderSlot_SlabItemLaws : SlabItemLaws OrderSlot.
Proof. split. reflexivity. Qed.

Record PriceLevel : Type := mkLevel {
  lv_head : Z;
  lv_tail : Z;
  lv_total_qty : Z;
  lv_order_count : Z;
  lv_bid_count : Z;
  lv_ask_count : Z;
}.
Definition PriceLevel_default : PriceLevel := mkLevel NONE NONE 0 0 0 0.

Definition lv_with_head (h : Z) (l : PriceLevel) : PriceLevel :=
  mkLevel h (lv_tail l) (lv_total_qty l) (lv_order_count l) (lv_bid_count l) (lv_ask_count l).
Definition lv_with_tail (t : Z) (l : PriceLevel) : PriceLevel :=
  mkLevel (lv_head l) t (lv_total_qty l) (lv_order_count l) (lv_bid_count l) (lv_ask_count l).
Definition lv_with_total (q : Z) (l : PriceLevel) : PriceLevel :=
  mkLevel (lv_head l) (lv_tail l) q (lv_order_count l) (lv_bid_count l) (lv_ask_count l).
Definition lv_with_count (n : Z) (l : PriceLevel) : PriceLevel :=
  mkLevel (lv_head l) (lv_tail l) (lv_total_qty l) n (lv_bid_count l) (lv_ask_count l).
Definition lv_with_bids (n : Z) (l : PriceLevel) : PriceLevel :=
  mkLevel (lv_head l) (lv_tail l) (lv_total_qty l) (lv_order_count l) n (lv_ask_count l).
Definition lv_with_asks (n : Z) (l : PriceLevel) : PriceLevel :=
  mkLevel (lv_head l) (lv_tail l) (lv_total_qty l) (lv_order_count l) (lv_bid_count l) n.

Definition MAX_EVENTS : Z := 65536.
Definition MAX_MAKERS_PER_ORDER : Z := (MAX_EVENTS - 4) / 2.

Inductive OrderDoneReason : Type := Filled | UserCancel | Expired | PostOnly | MatchLimit.
Inductive OrderFailureReason : Type := InvalidTick | ReduceOnly | FillOrKill | Duplicate | InvalidLot.
#[global] Instance OrderFailureReason_eq_dec : EqDecision OrderFailureReason.
Proof. solve_decision. Defined.

Inductive Event : Type :=
| Fill (maker_handle maker_tif : Z) (maker_reduce_only : bool) (maker_user_id taker_user_id : Z)
    (price qty side maker_order_id_hi maker_order_id_lo taker_order_id_hi taker_order_id_lo gw_in_ns : Z)
| OrderInserted (handle user_id side price qty order_id_hi order_id_lo : Z)
| OrderCancelled (handle user_id remaining_qty order_id_hi order_id_lo : Z)
| OrderDone (handle tif : Z) (reduce_only : bool) (user_id : Z) (reason : OrderDoneReason)
    (filled_qty remaining_qty order_id_hi order_id_lo : Z)
| OrderFailed (user_id : Z) (reason : OrderFailureReason) (order_id_hi order_id_lo : Z)
| BBO (bid_px bid_qty ask_px ask_qty : Z).
