(* ===== verification/Book.v ===== *)
(** * Book: the order book's state and resting-order operations

    [Orderbook] of [rsx-book/src/book.rs]: price levels that head intrusive
    doubly linked lists of slab slots, two occupancy bitmaps, and the cached
    best bid and ask.  Every operation is translated whole; the book is passed
    and returned explicitly. *)

From S2P Require Import Prelude Types Slab Occupancy Compression Users Order.

Inductive BookState : Type := Normal | Migrating.
#[global] Instance BookState_eq_dec : EqDecision BookState.
Proof. solve_decision. Defined.

Record BookConfig : Type := mkConfig { bc_symbol_id : Z; bc_tick_size : Z; bc_lot_size : Z }.

Definition BookConfig_from (c : SymbolConfig) : BookConfig :=
  mkConfig (sc_symbol_id c) (sc_tick_size c) (sc_lot_size c).

Record Bbo : Type := mkBbo { bbo_bid_px : Z; bbo_bid_qty : Z; bbo_ask_px : Z; bbo_ask_qty : Z }.

Record Orderbook : Type := mkBook {
  active_levels : list PriceLevel;
  staging_levels : list PriceLevel;
  orders : Slab OrderSlot;
  best_bid_tick : Z;
  best_ask_tick : Z;
  best_bid_px : Z;
  best_ask_px : Z;
  compression : CompressionMap;
  bid_occ : Occupancy;
  ask_occ : Occupancy;
  price_asc : list (Z * Z);
  state : BookState;
  config : BookConfig;
  sequence : Z;
  event_buf : list Event;
  users : UserRegistry;
  old_levels : option (list PriceLevel);
  old_compression : option CompressionMap;
  bid_frontier : Z;
  ask_frontier : Z;
  old_min_price : Z;
  old_max_price : Z;
}.

(** ** Field updates *)

Definition set_levels_orders (b : Orderbook) (lv : list PriceLevel) (os : Slab OrderSlot) : Orderbook :=
  mkBook lv (staging_levels b) os (best_bid_tick b) (best_ask_tick b) (best_bid_px b) (best_ask_px b)
    (compression b) (bid_occ b) (ask_occ b) (price_asc b) (state b) (config b) (sequence b) (event_buf b)
    (users b) (old_levels b) (old_compression b) (bid_frontier b) (ask_frontier b) (old_min_price b) (old_max_price b).
Definition set_occ (b : Orderbook) (bo ao : Occupancy) : Orderbook :=
  mkBook (active_levels b) (staging_levels b) (orders b) (best_bid_tick b) (best_ask_tick b) (best_bid_px b) (best_ask_px b)
    (compression b) bo ao (price_asc b) (state b) (config b) (sequence b) (event_buf b)
    (users b) (old_levels b) (old_compression b) (bid_frontier b) (ask_frontier b) (old_min_price b) (old_max_price b).
Definition set_best (b : Orderbook) (bt bp at_ ap : Z) : Orderbook :=
  mkBook (active_levels b) (staging_levels b) (orders b) bt at_ bp ap
    (compression b) (bid_occ b) (ask_occ b) (price_asc b) (state b) (config b) (sequence b) (event_buf b)
    (users b) (old_levels b) (old_compression b) (bid_frontier b) (ask_frontier b) (old_min_price b) (old_max_price b).
Definition set_sequence (b : Orderbook) (s : Z) : Orderbook :=
  mkBook (active_levels b) (staging_levels b) (orders b) (best_bid_tick b) (best_ask_tick b) (best_bid_px b) (best_ask_px b)
    (compression b) (bid_occ b) (ask_occ b) (price_asc b) (state b) (config b) s (event_buf b)
    (users b) (old_levels b) (old_compression b) (bid_frontier b) (ask_frontier b) (old_min_price b) (old_max_price b).
Definition set_events (b : Orderbook) (ev : list Event) : Orderbook :=
  mkBook (active_levels b) (staging_levels b) (orders b) (best_bid_tick b) (best_ask_tick b) (best_bid_px b) (best_ask_px b)
    (compression b) (bid_occ b) (ask_occ b) (price_asc b) (state b) (config b) (sequence b) ev
    (users b) (old_levels b) (old_compression b) (bid_frontier b) (ask_frontier b) (old_min_price b) (old_max_price b).
Definition set_users (b : Orderbook) (u : UserRegistry) : Orderbook :=
  mkBook (active_levels b) (staging_levels b) (orders b) (best_bid_tick b) (best_ask_tick b) (best_bid_px b) (best_ask_px b)
    (compression b) (bid_occ b) (ask_occ b) (price_asc b) (state b) (config b) (sequence b) (event_buf b)
    u (old_levels b) (old_compression b) (bid_frontier b) (ask_frontier b) (old_min_price b) (old_max_price b).
Definition set_config (b : Orderbook) (c : BookConfig) : Orderbook :=
  mkBook (active_levels b) (staging_levels b) (orders b) (best_bid_tick b) (best_ask_tick b) (best_bid_px b) (best_ask_px b)
    (compression b) (bid_occ b) (ask_occ b) (price_asc b) (state b) c (sequence b) (event_buf b)
    (users b) (old_levels b) (old_compression b) (bid_frontier b) (ask_frontier b) (old_min_price b) (old_max_price b).

Definition set_orders (b : Orderbook) (os : Slab OrderSlot) : Orderbook := set_levels_orders b (active_levels b) os.
Definition set_levels (b : Orderbook) (lv : list PriceLevel) : Orderbook := set_levels_orders b lv (orders b).
Definition set_best_bid (b : Orderbook) (tick px : Z) : Orderbook := set_best b tick px (best_ask_tick b) (best_ask_px b).
Definition set_best_ask (b : Orderbook) (tick px : Z) : Orderbook := set_best b (best_bid_tick b) (best_bid_px b) tick px.

(** ** Construction and events *)

Definition Orderbook_new (config : BookConfig) (capacity mid_price : Z) : Res Orderbook :=
  compression ← CompressionMap_new mid_price (bc_tick_size config);
  let total := total_slots compression in
  let lv := replicate (Z.to_nat total) PriceLevel_default in
  bo ← Occupancy_new total;
  ao ← Occupancy_new total;
  Ok (mkBook lv lv (Slab_new capacity) NONE NONE 0 0 compression bo ao (build_price_asc compression)
        Normal config 0 [] UserRegistry_new None None mid_price mid_price 0 0).

Definition emit (b : Orderbook) (e : Event) : Res Orderbook :=
  _ ← assert_ok (zlen (event_buf b) <? MAX_EVENTS);
  Ok (set_events b (event_buf b ++ [e])).

Definition maintain_users (b : Orderbook) (now_ns : Z) (replay_mode : bool) : Res (option Z * Orderbook) :=
  '(o, u) ← maintain_one (users b) now_ns replay_mode; Ok (o, set_users b u).

Definition update_config (b : Orderbook) (c : BookConfig) : Orderbook := set_config b c.

(** ** Level walks

    [while cursor != NONE { order = get(cursor); ..; cursor = order.next }]
    over an accumulator.  A queue visits each slot at most once, so the slab
    length bounds the rounds. *)
Fixpoint walk {A} (fuel : nat) (os : Slab OrderSlot) (f : A -> OrderSlot -> A) (cursor : Z) (acc : A) : Res A :=
  match fuel with
  | O => Diverged
  | S fuel' =>
      if cursor =? NONE then Ok acc
      else order ← get os cursor; walk fuel' os f (os_next order) (f acc order)
  end.
Definition walk_level {A} (os : Slab OrderSlot) (f : A -> OrderSlot -> A) (head : Z) (acc : A) : Res A :=
  walk (S (length (slots os))) os f head acc.

Definition bid_top_step (acc : Z * Z) (order : OrderSlot) : Z * Z :=
  let '(px, qty) := acc in
  if os_side order =? side_u8 Buy then
    if os_price order >? px then (os_price order, os_remaining order)
    else if os_price order =? px then (px, wrap_i64 (qty + os_remaining order))
    else (px, qty)
  else (px, qty).

Definition bid_top_at (b : Orderbook) (tick : Z) : Res (Z * Z) :=
  if tick =? NONE then Ok (0, 0)
  else
    lvl ← vindex (active_levels b) tick;
    if lv_bid_count lvl =? 0 then Ok (0, 0)
    else if tick <? arr (zone_slots (compression b)) 0 then
      head ← get (orders b) (lv_head lvl);
      Ok (os_price head, lv_total_qty lvl)
    else walk_level (orders b) bid_top_step (lv_head lvl) (I64_MIN, 0).

Definition ask_top_step (acc : Z * Z) (order : OrderSlot) : Z * Z :=
  let '(px, qty) := acc in
  if os_side order =? side_u8 Sell then
    if os_price order <? px then (os_price order, os_remaining order)
    else if os_price order =? px then (px, wrap_i64 (qty + os_remaining order))
    else (px, qty)
  else (px, qty).

Definition ask_top_at (b : Orderbook) (tick : Z) : Res (Z * Z) :=
  if tick =? NONE then Ok (0, 0)
  else
    lvl ← vindex (active_levels b) tick;
    if lv_ask_count lvl =? 0 then Ok (0, 0)
    else if tick <? arr (zone_slots (compression b)) 0 then
      head ← get (orders b) (lv_head lvl);
      Ok (os_price head, lv_total_qty lvl)
    else walk_level (orders b) ask_top_step (lv_head lvl) (I64_MAX, 0).

(** ** Best bid and ask *)

Fixpoint scan_bid_ranges (o : Occupancy) (ranges : list (Z * Z)) : Res Z :=
  match ranges with
  | [] => Ok NONE
  | (lo, hi) :: rest =>
      r ← find_last_in o lo hi;
      match r with Some t => Ok t | None => scan_bid_ranges o rest end
  end.
Definition scan_next_bid (b : Orderbook) : Res Z := scan_bid_ranges (bid_occ b) (reverse (price_asc b)).

Fixpoint scan_ask_ranges (o : Occupancy) (ranges : list (Z * Z)) : Res Z :=
  match ranges with
  | [] => Ok NONE
  | (lo, hi) :: rest =>
      r ← find_first_in o lo hi;
      match r with Some t => Ok t | None => scan_ask_ranges o rest end
  end.
Definition scan_next_ask (b : Orderbook) : Res Z := scan_ask_ranges (ask_occ b) (price_asc b).

Definition refresh_best_bid (b : Orderbook) : Res Orderbook :=
  tick ← scan_next_bid b;
  '(px, _) ← bid_top_at b tick;
  Ok (set_best_bid b tick px).
Definition refresh_best_ask (b : Orderbook) : Res Orderbook :=
  tick ← scan_next_ask b;
  '(px, _) ← ask_top_at b tick;
  Ok (set_best_ask b tick px).

Definition current_bbo (b : Orderbook) : Res Bbo :=
  '(bid_px, bid_qty) ← bid_top_at b (best_bid_tick b);
  '(ask_px, ask_qty) ← ask_top_at b (best_ask_tick b);
  Ok (mkBbo bid_px bid_qty ask_px ask_qty).

(** ** Resting orders *)

(** Link [handle] at the tail of [level]. *)
Definition link_tail (os : Slab OrderSlot) (level : PriceLevel) (handle : Z) : Res (Slab OrderSlot * PriceLevel) :=
  if lv_order_count level =? 0 then Ok (os, lv_with_tail handle (lv_with_head handle level))
  else
    let old_tail := lv_tail level in
    os ← update os old_tail (os_with_next handle);
    os ← update os handle (os_with_prev old_tail);
    Ok (os, lv_with_tail handle level).

(** The per-side count of a level and whether it was empty. *)
Definition add_side (side : Side) (level : PriceLevel) : PriceLevel * bool :=
  match side with
  | Buy => (lv_with_bids (wrap_u32 (lv_bid_count level + 1)) level, lv_bid_count level =? 0)
  | Sell => (lv_with_asks (wrap_u32 (lv_ask_count level + 1)) level, lv_ask_count level =? 0)
  end.

Definition set_side_occ (b : Orderbook) (side : Side) (tick : Z) : Res Orderbook :=
  match side with
  | Buy => o ← Occupancy.set (bid_occ b) tick; Ok (set_occ b o (ask_occ b))
  | Sell => o ← Occupancy.set (ask_occ b) tick; Ok (set_occ b (bid_occ b) o)
  end.

(** Take the new order as best when its side is empty or its price is better. *)
Definition improve_best (b : Orderbook) (side : Side) (tick price : Z) : Orderbook :=
  match side with
  | Buy => if (best_bid_tick b =? NONE) || (price >? best_bid_px b) then set_best_bid b tick price else b
  | Sell => if (best_ask_tick b =? NONE) || (price <? best_ask_px b) then set_best_ask b tick price else b
  end.

Definition insert_resting (b : Orderbook) (price qty : Z) (side : Side) (tif user_id : Z)
    (reduce_only : bool) (timestamp_ns order_id_hi order_id_lo : Z) : Res (Z * Orderbook) :=
  tick ← price_to_index (compression b) price;
  '(handle, os) ← alloc (orders b);
  let seq := wrap_u64 (sequence b + 1) in
  os ← update os handle (fun _ =>
    mkSlot price qty (side_u8 side)
      (if reduce_only then Z.lor ORDER_ACTIVE ORDER_REDUCE_ONLY else ORDER_ACTIVE)
      tif NONE NONE tick user_id (wrap_u32 seq) qty timestamp_ns order_id_hi order_id_lo);
  level ← vindex (active_levels b) tick;
  '(os, level) ← link_tail os level handle;
  let level := lv_with_total (wrap_i64 (lv_total_qty level + qty)) level in
  let level := lv_with_count (wrap_u32 (lv_order_count level + 1)) level in
  let '(level, side_was_empty) := add_side side level in
  lv ← vset (active_levels b) tick level;
  let b := set_levels_orders (set_sequence b seq) lv os in
  b ← (if side_was_empty then set_side_occ b side tick else Ok b);
  let b := improve_best b side tick price in
  u ← add_order (users b) user_id;
  Ok (handle, set_users b u).

(** The neighbours and level after taking [handle] out of its list. *)
Definition unlink_list (os : Slab OrderSlot) (level : PriceLevel) (prev next : Z) : Res (Slab OrderSlot * PriceLevel) :=
  '(os, level) ← (if negb (prev =? NONE)
                  then os ← update os prev (os_with_next next); Ok (os, level)
                  else Ok (os, lv_with_head next level));
  if negb (next =? NONE)
  then os ← update os next (os_with_prev prev); Ok (os, level)
  else Ok (os, lv_with_tail prev level).

Definition remove_side (side : Z) (level : PriceLevel) : PriceLevel * bool :=
  if side =? side_u8 Buy then
    let n := sat_u32 (lv_bid_count level - 1) in (lv_with_bids n level, n =? 0)
  else
    let n := sat_u32 (lv_ask_count level - 1) in (lv_with_asks n level, n =? 0).

Definition clear_side_occ (b : Orderbook) (side tick : Z) : Res Orderbook :=
  if side =? side_u8 Buy
  then o ← Occupancy.clear (bid_occ b) tick; Ok (set_occ b o (ask_occ b))
  else o ← Occupancy.clear (ask_occ b) tick; Ok (set_occ b (bid_occ b) o).

Definition unlink_order (b : Orderbook) (handle : Z) : Res Orderbook :=
  slot ← get (orders b) handle;
  let tick := os_tick slot in
  let side := os_side slot in
  let qty := os_remaining slot in
  level ← vindex (active_levels b) tick;
  '(os, level) ← unlink_list (orders b) level (os_prev slot) (os_next slot);
  let level := lv_with_total (sat_i64 (lv_total_qty level - qty)) level in
  let level := lv_with_count (sat_u32 (lv_order_count level - 1)) level in
  let '(level, side_now_empty) := remove_side side level in
  lv ← vset (active_levels b) tick level;
  let b := set_levels_orders b lv os in
  if side_now_empty then clear_side_occ b side tick else Ok b.

Definition cancel_order (b : Orderbook) (handle : Z) : Res (bool * Orderbook) :=
  slot ← get (orders b) handle;
  if negb (is_active slot) then Ok (false, b)
  else
    let tick := os_tick slot in
    let side := os_side slot in
    let user_id := os_user slot in
    b ← unlink_order b handle;
    b ← (if side =? side_u8 Buy then
           if tick =? best_bid_tick b then refresh_best_bid b else Ok b
         else if tick =? best_ask_tick b then refresh_best_ask b else Ok b);
    os ← update (orders b) handle (set_active false);
    os ← free os handle;
    u ← remove_order (users b) user_id;
    Ok (true, set_users (set_orders b os) u).

Definition order_matches (b : Orderbook) (handle user_id order_id_hi order_id_lo : Z) : Res bool :=
  if handle >=? capacity (orders b) then Ok false
  else
    slot ← get (orders b) handle;
    Ok (is_active slot && (os_user slot =? user_id) && (os_oid_hi slot =? order_id_hi)
        && (os_oid_lo slot =? order_id_lo)).

Definition cancel_order_checked (b : Orderbook) (handle user_id order_id_hi order_id_lo : Z) : Res (bool * Orderbook) :=
  m ← order_matches b handle user_id order_id_hi order_id_lo;
  if negb m then Ok (false, b) else cancel_order b handle.

Definition modify_order_price (b : Orderbook) (handle new_price : Z) (side : Side) (tif user_id : Z)
    (reduce_only : bool) (timestamp_ns order_id_hi order_id_lo : Z) : Res (option Z * Orderbook) :=
  m ← order_matches b handle user_id order_id_hi order_id_lo;
  if negb m then Ok (None, b)
  else
    slot ← get (orders b) handle;
    let qty := os_remaining slot in
    '(_, b) ← cancel_order b handle;
    '(h, b) ← insert_resting b new_price qty side tif user_id reduce_only timestamp_ns order_id_hi order_id_lo;
    Ok (Some h, b).

Definition modify_order_qty_down (b : Orderbook) (handle new_qty user_id order_id_hi order_id_lo : Z) : Res (bool * Orderbook) :=
  m ← order_matches b handle user_id order_id_hi order_id_lo;
  if negb m then Ok (false, b)
  else
    slot ← get (orders b) handle;
    if new_qty =? 0 then cancel_order b handle
    else
      let old_qty := os_remaining slot in
      if new_qty >=? old_qty then Ok (false, b)
      else
        let tick := os_tick slot in
        let diff := wrap_i64 (old_qty - new_qty) in
        os ← update (orders b) handle (os_with_remaining new_qty);
        lv ← vmodify (active_levels b) tick (fun l => lv_with_total (sat_i64 (lv_total_qty l - diff)) l);
        Ok (true, set_levels_orders b lv os).

(** ** Rebuilding occupancy from the linked orders *)

Definition count_step (acc : Z * Z) (order : OrderSlot) : Z * Z :=
  if os_side order =? side_u8 Buy then (wrap_u32 (acc.1 + 1), acc.2) else (acc.1, wrap_u32 (acc.2 + 1)).

Definition rebuild_level (b : Orderbook) (i : Z) : Res Orderbook :=
  level ← vindex (active_levels b) i;
  '(bids, asks) ← walk_level (orders b) count_step (lv_head level) (0, 0);
  lv ← vset (active_levels b) i (lv_with_asks asks (lv_with_bids bids level));
  let b := set_levels b lv in
  b ← (if bids >? 0 then o ← Occupancy.set (bid_occ b) (wrap_u32 i); Ok (set_occ b o (ask_occ b)) else Ok b);
  if asks >? 0 then o ← Occupancy.set (ask_occ b) (wrap_u32 i); Ok (set_occ b (bid_occ b) o) else Ok b.

Definition rebuild_occupancy (b : Orderbook) : Res Orderbook :=
  let n := wrap_u32 (zlen (active_levels b)) in
  bo ← Occupancy_new n;
  ao ← Occupancy_new n;
  rfold rebuild_level (set_occ b bo ao) (zrange 0 (zlen (active_levels b))).
