(* ===== verification/Links.v ===== *)
(** * Links: the intrusive queues of the book as lists

    [book.rs] threads every price level through the slab with [next], [prev],
    [head] and [tail], and keeps five running totals per level.  Here a level
    is a list of entries (handle and order); [seg] says that the slots hold
    that list, [level_of] what the level must then record, and the lemmas give
    [link_tail], [unlink_list] and the level walks as list operations. *)

From S2P Require Import Prelude Types Slab Occupancy Compression Users Order Book.

Abbreviation Entry := (Z * OrderSlot)%type.

(** A queue per price slot. *)
Definition ABook : Type := Z -> list Entry.
Definition upd (A : ABook) (t : Z) (q : list Entry) : ABook := fun x => if x =? t then q else A x.

Definition qhead (q : list Entry) (d : Z) : Z := match q with [] => d | e :: _ => e.1 end.
Fixpoint qlast (d : Z) (q : list Entry) : Z := match q with [] => d | e :: q' => qlast e.1 q' end.

Definition relink (nx pv : Z) (s : OrderSlot) : OrderSlot := os_with_prev pv (os_with_next nx s).

(** [q] is threaded through [sl], entered from [pv] and left to [nx]. *)
Fixpoint seg (sl : list OrderSlot) (pv : Z) (q : list Entry) (nx : Z) : Prop :=
  match q with
  | [] => True
  | e :: q' => vget sl e.1 = Some (relink (qhead q' nx) pv e.2) /\ seg sl e.1 q' nx
  end.

Definition erem (e : Entry) : Z := os_remaining e.2.
Definition is_side (sd : Side) (s : OrderSlot) : bool := os_side s =? side_u8 sd.
Definition on_side (sd : Side) (e : Entry) : Z := if is_side sd e.2 then 1 else 0.

Definition level_of (q : list Entry) : PriceLevel :=
  mkLevel (qhead q NONE) (qlast NONE q) (zsum erem q) (zlen q) (zsum (on_side Buy) q) (zsum (on_side Sell) q).

Definition handles (q : list Entry) : list Z := map fst q.

Record links (os : Slab OrderSlot) (lv : list PriceLevel) (A : ABook) : Prop := {
  lk_level : forall t, 0 <= t < zlen lv -> vget lv t = Some (level_of (A t));
  lk_out : forall t, ~ (0 <= t < zlen lv) -> A t = [];
  lk_seg : forall t, seg (slots os) NONE (A t) NONE;
  lk_tick : forall t e, In e (A t) -> os_tick e.2 = t;
  lk_nodup : forall t, NoDup (handles (A t));
  lk_qty : forall t e, In e (A t) -> 0 <= erem e;
  lk_sum : forall t, zsum erem (A t) <= I64_MAX;
  lk_side : forall t e, In e (A t) -> os_side e.2 = side_u8 Buy \/ os_side e.2 = side_u8 Sell;
}.

(** ** Segments *)

Lemma qhead_app q1 q2 d : qhead (q1 ++ q2) d = qhead q1 (qhead q2 d).
Proof. by destruct q1. Qed.

Lemma qlast_app d q1 q2 : qlast d (q1 ++ q2) = qlast (qlast d q1) q2.
Proof. revert d. induction q1 as [|e q1 IH]; intros d; simpl; auto. Qed.

Lemma qlast_in d q : q <> [] -> In (qlast d q) (handles q).
Proof.
  revert d. induction q as [|e q IH]; intros d Hq; [done|]. simpl.
  destruct q as [|e' q]; [by left|]. right. by apply IH.
Qed.

Lemma seg_app sl pv q1 q2 nx :
  seg sl pv (q1 ++ q2) nx <-> seg sl pv q1 (qhead q2 nx) /\ seg sl (qlast pv q1) q2 nx.
Proof.
  revert pv. induction q1 as [|e q1 IH]; intros pv; simpl; [tauto|].
  rewrite IH, qhead_app. tauto.
Qed.

Lemma seg_ext sl sl' pv q nx :
  (forall h, In h (handles q) -> vget sl' h = vget sl h) -> seg sl pv q nx -> seg sl' pv q nx.
Proof.
  revert pv. induction q as [|e q IH]; intros pv He; [done|]. intros [H1 H2]. split.
  - rewrite He; [done|by left].
  - apply IH; [|done]. intros h Hh. apply He. by right.
Qed.

(** The slot of an entry, up to its links. *)
Lemma seg_get sl pv q nx e :
  seg sl pv q nx -> In e q -> exists n p, vget sl e.1 = Some (relink n p e.2).
Proof.
  revert pv. induction q as [|e' q IH]; intros pv; [done|]. intros [H1 H2] [->|Hin]; eauto.
Qed.

Lemma in_handles (e : Entry) q : In e q -> In e.1 (handles q).
Proof. apply in_map. Qed.

Lemma relink_relink n p n' p' s : relink n p (relink n' p' s) = relink n p s.
Proof. by destruct s. Qed.

(** ** Frames: a change of the arena confined to some handles *)

Record frame (os os' : Slab OrderSlot) (P : Z -> Prop) : Prop := {
  fr_len : zlen (slots os') = zlen (slots os);
  fr_head : free_head os' = free_head os;
  fr_bump : bump_next os' = bump_next os;
  fr_same : forall x, ~ P x -> vget (slots os') x = vget (slots os) x;
}.

Lemma frame_refl os P : frame os os P.
Proof. by split. Qed.

Lemma frame_trans os1 os2 os3 P : frame os1 os2 P -> frame os2 os3 P -> frame os1 os3 P.
Proof.
  intros [a b c d] [a' b' c' d']. split; try congruence.
  intros x Hx. rewrite d', d; done.
Qed.

Lemma frame_weaken os1 os2 (P P' : Z -> Prop) : frame os1 os2 P -> (forall x, P x -> P' x) -> frame os1 os2 P'.
Proof. intros [] H. split; auto. Qed.

Lemma frame_slab os os' (P : Z -> Prop) fl :
  frame os os' P -> (forall x, In x fl -> ~ P x) -> slab_inv os fl -> slab_inv os' fl.
Proof.
  intros [Hl Hh Hb Hs] Hfl Hi. apply (slab_inv_ext os); try done.
  intros x Hx. unfold snext. by rewrite Hs by auto.
Qed.

Lemma update_frame os h f s :
  vget (slots os) h = Some s ->
  exists os', update os h f = Ok os' /\ vget (slots os') h = Some (f s) /\ frame os os' (fun x => x = h).
Proof.
  intros Hs. unfold update. rewrite (vmodify_ok _ _ _ _ Hs). cbn [mbind Res_bind].
  eexists. split; [reflexivity|]. pose proof (vget_some_range _ _ _ Hs) as Hr. cbn [slots].
  split; [by apply vget_vput_eq|]. split; cbn; try done.
  - apply zlen_vput.
  - intros x Hx. rewrite vget_vput_ne; [done|congruence].
Qed.

(** ** Linking at the tail *)

Lemma level_of_empty q : (lv_order_count (level_of q) =? 0) = true <-> q = [].
Proof.
  simpl. unfold zlen. rewrite Z.eqb_eq. split; [destruct q; simpl; [done|lia]|by intros ->].
Qed.

Lemma seg_snoc sl sl' q e s0 :
  seg sl NONE q NONE -> NoDup (handles q) -> q <> [] -> ~ In e.1 (handles q) ->
  vget sl (qlast NONE q) = Some s0 ->
  vget sl' (qlast NONE q) = Some (os_with_next e.1 s0) ->
  vget sl' e.1 = Some (relink NONE (qlast NONE q) e.2) ->
  (forall x, x <> qlast NONE q -> x <> e.1 -> vget sl' x = vget sl x) ->
  seg sl' NONE (q ++ [e]) NONE.
Proof.
  intros Hseg Hnd Hne Hnin Hs0 Hl He Hsame.
  destruct (exists_last Hne) as (q' & l & ->).
  rewrite !qlast_app in *. cbn [qlast] in *. unfold handles in *. rewrite map_app in *. simpl in *.
  apply seg_app in Hseg as [Hs1 [Hs2 _]]. cbn in Hs1, Hs2. rewrite Hs0 in Hs2. injection Hs2 as ->.
  rewrite <- app_assoc. apply seg_app. cbn. split.
  - apply (seg_ext sl); [|done]. intros h Hh. apply Hsame.
    + intros ->. apply NoDup_app in Hnd as (_ & Hd & _).
      apply (Hd l.1); [by apply list_elem_of_In|left].
    + intros ->. apply Hnin, in_app_iff. by left.
  - split; [exact Hl|]. split; [exact He|done].
Qed.

Lemma link_tail_spec os q e :
  seg (slots os) NONE q NONE -> NoDup (handles q) -> ~ In e.1 (handles q) ->
  vget (slots os) e.1 = Some (relink NONE NONE e.2) ->
  exists os', link_tail os (level_of q) e.1 =
      Ok (os', lv_with_tail e.1 (lv_with_head (qhead (q ++ [e]) NONE) (level_of q))) /\
    seg (slots os') NONE (q ++ [e]) NONE /\ frame os os' (fun x => In x (handles (q ++ [e]))).
Proof.
  intros Hseg Hnd Hnin He. unfold link_tail.
  destruct (lv_order_count (level_of q) =? 0) eqn:E0.
  { apply level_of_empty in E0 as ->. exists os. split; [reflexivity|].
    split; [by split|apply frame_refl]. }
  assert (q <> []) as Hne by (intros ->; by destruct (Z.eqb_neq 0 0)).
  pose proof (qlast_in NONE q Hne) as Hlin. set (l := qlast NONE q) in *.
  assert (exists s0, vget (slots os) l = Some s0) as [s0 Hs0].
  { apply in_map_iff in Hlin as (le & <- & Hle). destruct (seg_get _ _ _ _ _ Hseg Hle) as (n & p & ->). eauto. }
  assert (l <> e.1) as Hle by congruence. cbn [lv_tail level_of]. fold l.
  destruct (update_frame os l (os_with_next e.1) s0 Hs0) as (os1 & E1 & G1 & F1).
  rewrite E1. cbn [mbind Res_bind].
  destruct (update_frame os1 e.1 (os_with_prev l) (relink NONE NONE e.2)) as (os2 & E2 & G2 & F2).
  { rewrite (fr_same _ _ _ F1); [done|congruence]. }
  rewrite E2. cbn [mbind Res_bind]. exists os2. split; [by destruct q|]. split.
  - apply (seg_snoc (slots os) _ _ _ s0); try done.
    + rewrite (fr_same _ _ _ F2) by done. exact G1.
    + intros x H1 H2. rewrite (fr_same _ _ _ F2), (fr_same _ _ _ F1) by done. done.
  - unfold handles. rewrite map_app. simpl.
    eapply frame_trans; eapply frame_weaken; try eassumption; cbn; intros x ->; apply in_app_iff;
      [by left|right; by left].
Qed.

(** ** Unlinking *)

(** Only the neighbours' links change. *)
Lemma seg_drop sl sl' q1 e q2 :
  seg sl NONE (q1 ++ e :: q2) NONE -> NoDup (handles (q1 ++ e :: q2)) ->
  (forall e', In e' q1 -> forall n p, vget sl e'.1 = Some (relink n p e'.2) ->
     vget sl' e'.1 = Some (relink (if e'.1 =? qlast NONE q1 then qhead q2 NONE else n) p e'.2)) ->
  (forall e', In e' q2 -> forall n p, vget sl e'.1 = Some (relink n p e'.2) ->
     vget sl' e'.1 = Some (relink n (if e'.1 =? qhead q2 NONE then qlast NONE q1 else p) e'.2)) ->
  seg sl' NONE (q1 ++ q2) NONE.
Proof.
  intros Hseg Hnd H1 H2. apply seg_app in Hseg as [S1 S2]. apply seg_app. split.
  - unfold handles in Hnd. rewrite map_app in Hnd. apply NoDup_app in Hnd as (Hnd & _ & _).
    clear S2 H2. set (b := qhead q2 NONE) in *. clearbody b. cbn in S1.
    revert S1 H1 Hnd. generalize NONE as pv. induction q1 as [|x q1 IH]; intros pv; [done|].
    intros [Hx Hr] Hch Hnd. simpl in Hnd. apply NoDup_cons in Hnd as [Hx1 Hnd]. split.
    + rewrite (Hch x (or_introl eq_refl) _ _ Hx). cbn [qlast]. destruct q1 as [|y q1]; cbn [qlast qhead].
      * by rewrite Z.eqb_refl.
      * destruct (x.1 =? _) eqn:E; [|done]. bool_to_prop. exfalso. apply Hx1. rewrite E.
        apply list_elem_of_In, (qlast_in x.1 (y :: q1)). done.
    + apply IH; [done|intros e' He'; apply Hch; by right|done].
  - destruct S2 as [_ S2]. unfold handles in Hnd. rewrite map_app in Hnd.
    apply NoDup_app in Hnd as (_ & _ & Hnd). simpl in Hnd. apply NoDup_cons in Hnd as [_ Hnd].
    destruct q2 as [|y q2]; [done|]. destruct S2 as [Hy Hr]. simpl in Hnd. apply NoDup_cons in Hnd as [Hy1 _].
    split.
    + rewrite (H2 y (or_introl eq_refl) _ _ Hy). cbn [qhead]. by rewrite Z.eqb_refl.
    + cbn [qhead] in H2. assert (forall e', In e' q2 -> forall n p, vget sl e'.1 = Some (relink n p e'.2) ->
        vget sl' e'.1 = Some (relink n p e'.2)) as H2'.
      { intros e' He' n p Hg. rewrite (H2 e' (or_intror He') n p Hg).
        replace (e'.1 =? y.1) with false; [done|]. symmetry. apply Z.eqb_neq. intros E. apply Hy1.
        rewrite <- E. apply list_elem_of_In. by apply in_map. }
      clear H1 S1 H2 Hy Hy1. revert Hr H2'. generalize (y.1) as pv. induction q2 as [|z q2 IH]; intros pv; [done|].
      intros [Hz Hr] H2. split; [apply (H2 z (or_introl eq_refl) _ _ Hz)|].
      apply IH; [done|]. intros e' He'. apply H2. by right.
Qed.

Lemma relink_next n p m s : os_with_next m (relink n p s) = relink m p s.
Proof. by destruct s. Qed.

Lemma relink_prev n p m s : os_with_prev m (relink n p s) = relink n m s.
Proof. by destruct s. Qed.

Lemma qhead_in q d : q <> [] -> In (qhead q d) (handles q).
Proof. destruct q; [done|]. by left. Qed.

(** A neighbour update: [NONE] means there is no neighbour. *)
Lemma nodup_mid (q1 : list Entry) e q2 :
  NoDup (handles (q1 ++ e :: q2)) ->
  ~ In e.1 (handles (q1 ++ q2)) /\ NoDup (handles (q1 ++ q2)) /\
  (forall x, In x (handles q1) -> ~ In x (handles q2)).
Proof.
  unfold handles. rewrite !map_app. simpl. intros H.
  apply NoDup_app in H as (H1 & H2 & H3). apply NoDup_cons in H3 as [H3 H4].
  rewrite list_elem_of_In in H3. split; [|split].
  - intros [Hx|Hx]%in_app_iff; [|done]. apply (H2 e.1); [by apply list_elem_of_In|left].
  - apply NoDup_app. split; [done|]. split; [|done]. intros x Hx Hx2. apply (H2 x Hx). by right.
  - intros x Hx Hx2. apply (H2 x); [by apply list_elem_of_In|right; by apply list_elem_of_In].
Qed.

Lemma relink_inj n p s n' p' s' :
  relink n p s = relink n' p' s' -> n = n' /\ p = p' /\ forall m k, relink m k s = relink m k s'.
Proof. destruct s, s'. unfold relink. simpl. intros [=]. subst. done. Qed.

(** Every handle of the segment is a real slot. *)
Definition readable (sl : list OrderSlot) (q : list Entry) : Prop :=
  forall x, In x (handles q) -> x <> NONE /\ exists n p s, vget sl x = Some (relink n p s).

Lemma fix_prev os lvl q1 nx :
  readable (slots os) q1 -> (q1 <> [] -> lv_head lvl = qhead q1 NONE) ->
  exists os1, (if negb (qlast NONE q1 =? NONE)
      then os0 ← update os (qlast NONE q1) (os_with_next nx); Ok (os0, lvl)
      else Ok (os, lv_with_head nx lvl)) = Ok (os1, lv_with_head (qhead q1 nx) lvl) /\
    frame os os1 (fun x => In x (handles q1)) /\
    (forall x n p s, In x (handles q1) -> vget (slots os) x = Some (relink n p s) ->
       vget (slots os1) x = Some (relink (if x =? qlast NONE q1 then nx else n) p s)).
Proof.
  intros Hget Hh. destruct (decide (q1 = [])) as [->|Hne].
  { exists os. split; [done|]. split; [apply frame_refl|done]. }
  pose proof (qlast_in NONE q1 Hne) as Hl. destruct (Hget _ Hl) as (Hn & n & p & s & Hg).
  replace (qlast NONE q1 =? NONE) with false by lia. cbn [negb].
  destruct (update_frame os _ (os_with_next nx) _ Hg) as (os1 & E1 & G1 & F1).
  rewrite E1. cbn [mbind Res_bind]. exists os1. split.
  { specialize (Hh Hne). destruct q1; [done|]. destruct lvl; simpl in *. by rewrite Hh. }
  split; [eapply frame_weaken; [exact F1|]; by intros x ->|].
  intros x n' p' s' Hx Hgx. destruct (x =? _) eqn:E; bool_to_prop.
  - subst x. rewrite G1, relink_next. assert (relink n p s = relink n' p' s') as (_ & -> & Hr)%relink_inj by congruence.
    by rewrite Hr.
  - by rewrite (fr_same _ _ _ F1).
Qed.

Lemma fix_next os lvl q2 pv :
  readable (slots os) q2 -> (q2 <> [] -> lv_tail lvl = qlast NONE q2) ->
  exists os1, (if negb (qhead q2 NONE =? NONE)
      then os0 ← update os (qhead q2 NONE) (os_with_prev pv); Ok (os0, lvl)
      else Ok (os, lv_with_tail pv lvl)) = Ok (os1, lv_with_tail (qlast pv q2) lvl) /\
    frame os os1 (fun x => In x (handles q2)) /\
    (forall x n p s, In x (handles q2) -> vget (slots os) x = Some (relink n p s) ->
       vget (slots os1) x = Some (relink n (if x =? qhead q2 NONE then pv else p) s)).
Proof.
  intros Hget Ht. destruct (decide (q2 = [])) as [->|Hne].
  { exists os. split; [done|]. split; [apply frame_refl|done]. }
  pose proof (qhead_in q2 NONE Hne) as Hl. destruct (Hget _ Hl) as (Hn & n & p & s & Hg).
  replace (qhead q2 NONE =? NONE) with false by lia. cbn [negb].
  destruct (update_frame os _ (os_with_prev pv) _ Hg) as (os1 & E1 & G1 & F1).
  rewrite E1. cbn [mbind Res_bind]. exists os1. split.
  { specialize (Ht Hne). destruct q2; [done|]. destruct lvl; simpl in *. by rewrite Ht. }
  split; [eapply frame_weaken; [exact F1|]; by intros x ->|].
  intros x n' p' s' Hx Hgx. destruct (x =? _) eqn:E; bool_to_prop.
  - subst x. rewrite G1, relink_prev. assert (relink n p s = relink n' p' s') as (-> & _ & Hr)%relink_inj by congruence.
    by rewrite Hr.
  - by rewrite (fr_same _ _ _ F1).
Qed.

Lemma seg_readable sl pv q nx :
  seg sl pv q nx -> (forall h, In h (handles q) -> h <> NONE) -> readable sl q.
Proof.
  intros Hseg Hn x Hx. split; [by apply Hn|]. apply in_map_iff in Hx as (e & <- & He).
  destruct (seg_get _ _ _ _ _ Hseg He) as (n & p & ->). eauto.
Qed.

Lemma readable_app sl q1 q2 : readable sl (q1 ++ q2) <-> readable sl q1 /\ readable sl q2.
Proof.
  unfold readable, handles. rewrite map_app. split.
  - intros H. split; intros x Hx; apply H, in_app_iff; tauto.
  - intros [H1 H2] x [Hx|Hx]%in_app_iff; auto.
Qed.

Lemma unlink_list_spec os lvl q1 e q2 :
  seg (slots os) NONE (q1 ++ e :: q2) NONE -> NoDup (handles (q1 ++ e :: q2)) ->
  (forall h, In h (handles (q1 ++ e :: q2)) -> h <> NONE) ->
  lv_head lvl = qhead (q1 ++ e :: q2) NONE -> lv_tail lvl = qlast NONE (q1 ++ e :: q2) ->
  exists os', unlink_list os lvl (qlast NONE q1) (qhead q2 NONE) =
      Ok (os', lv_with_tail (qlast NONE (q1 ++ q2)) (lv_with_head (qhead (q1 ++ q2) NONE) lvl)) /\
    seg (slots os') NONE (q1 ++ q2) NONE /\ frame os os' (fun x => In x (handles (q1 ++ q2))).
Proof.
  intros Hseg Hnd Hnone Hh Ht. pose proof (nodup_mid _ _ _ Hnd) as (Hnin & _ & Hdisj).
  pose proof (seg_readable _ _ _ _ Hseg Hnone) as Hrd. apply readable_app in Hrd as [R1 R2].
  apply (readable_app _ [e]) in R2 as [_ R2].
  destruct (fix_prev os lvl q1 (qhead q2 NONE) R1) as (os1 & E1 & F1 & G1).
  { intros Hne. rewrite Hh. by destruct q1. }
  assert (forall x, In x (handles q2) -> ~ In x (handles q1)) as Hd2 by (intros x Hx Hx1; by apply (Hdisj x)).
  destruct (fix_next os1 (lv_with_head (qhead q1 (qhead q2 NONE)) lvl) q2 (qlast NONE q1)) as (os2 & E2 & F2 & G2).
  { intros x Hx. rewrite (fr_same _ _ _ F1) by auto. by apply R2. }
  { intros Hne. simpl. rewrite Ht, qlast_app. by destruct q2. }
  unfold unlink_list. rewrite E1. cbn [mbind Res_bind]. rewrite E2. exists os2. rewrite qhead_app, qlast_app.
  split; [done|]. split.
  - apply (seg_drop (slots os) _ _ e); [done|done| |].
    + intros e' He' n p Hg. apply in_handles in He'. rewrite (fr_same _ _ _ F2) by auto. by apply G1.
    + intros e' He' n p Hg. apply in_handles in He'. apply G2; [done|]. rewrite (fr_same _ _ _ F1); auto.
  - unfold handles. rewrite map_app. eapply frame_trans; (eapply frame_weaken; [eassumption|]);
      cbn; intros x; rewrite in_app_iff; tauto.
Qed.

(** ** Walking a level *)

(** A step that does not look at the links. *)
Definition linkless {A} (f : A -> OrderSlot -> A) : Prop :=
  forall acc n p s, f acc (relink n p s) = f acc s.

Definition qfold {A} (f : A -> OrderSlot -> A) (q : list Entry) (acc : A) : A :=
  fold_left (fun a e => f a e.2) q acc.

Lemma walk_spec {A} os (f : A -> OrderSlot -> A) q pv fuel acc :
  linkless f -> seg (slots os) pv q NONE -> (forall h, In h (handles q) -> h <> NONE) ->
  (length q < fuel)%nat -> walk fuel os f (qhead q NONE) acc = Ok (qfold f q acc).
Proof.
  intros Hf. revert pv fuel acc. induction q as [|e q IH]; intros pv fuel acc Hseg Hn Hl;
    (destruct fuel as [|fuel]; [simpl in Hl; lia|]); cbn [walk qhead].
  - by rewrite Z.eqb_refl.
  - destruct Hseg as [Hg Hr]. assert (e.1 <> NONE) as Hne by (apply Hn; by left).
    replace (e.1 =? NONE) with false by lia. unfold get. rewrite (vindex_some _ _ _ Hg). cbn [mbind Res_bind].
    rewrite Hf. replace (os_next (relink (qhead q NONE) pv e.2)) with (qhead q NONE) by by destruct (e.2).
    apply (IH e.1); [done|intros h Hh; apply Hn; by right|simpl in Hl; lia].
Qed.

Lemma seg_range sl pv q nx h : seg sl pv q nx -> In h (handles q) -> 0 <= h < zlen sl.
Proof.
  intros Hseg (e & <- & He)%in_map_iff. destruct (seg_get _ _ _ _ _ Hseg He) as (n & p & Hg).
  by apply vget_some_range in Hg.
Qed.

Lemma seg_length sl pv q nx : seg sl pv q nx -> NoDup (handles q) -> (length q <= length sl)%nat.
Proof.
  intros Hseg Hnd. pose proof (nodup_range_length (handles q) (zlen sl) Hnd) as H.
  specialize (H (fun x Hx => seg_range _ _ _ _ _ Hseg Hx)).
  assert (length (handles q) = length q) as E by apply length_map. unfold zlen in H. lia.
Qed.

Lemma links_walk {A} os lv Ab (f : A -> OrderSlot -> A) t acc fl :
  linkless f -> links os lv Ab -> slab_inv os fl ->
  walk_level os f (qhead (Ab t) NONE) acc = Ok (qfold f (Ab t) acc).
Proof.
  intros Hf Hlk Hi. unfold walk_level. apply (walk_spec os f (Ab t) NONE); [done|apply Hlk| |].
  - intros h Hh. pose proof (seg_range _ _ _ _ _ (lk_seg _ _ _ Hlk t) Hh). pose proof (si_cap _ _ Hi). lia.
  - pose proof (seg_length _ _ _ _ (lk_seg _ _ _ Hlk t) (lk_nodup _ _ _ Hlk t)). lia.
Qed.

(** ** The relation between levels and queues under updates *)

Lemma upd_same A t q : upd A t q t = q.
Proof. unfold upd. by rewrite Z.eqb_refl. Qed.

Lemma upd_other A t q x : x <> t -> upd A t q x = A x.
Proof. intros H. unfold upd. by replace (x =? t) with false by lia. Qed.

Lemma links_get os lv A t e :
  links os lv A -> In e (A t) -> exists n p, vget (slots os) e.1 = Some (relink n p e.2).
Proof. intros H He. by eapply seg_get; [apply (lk_seg _ _ _ H t)|]. Qed.

Lemma handle_inj (q : list Entry) x y : NoDup (handles q) -> In x q -> In y q -> x.1 = y.1 -> x = y.
Proof.
  induction q as [|z q IH]; intros Hnd; [done|]. simpl in Hnd. apply NoDup_cons in Hnd as [Hz Hnd].
  rewrite list_elem_of_In in Hz. intros [<-|Hx] [<-|Hy] E; [done| | |by apply IH].
  - apply in_handles in Hy. rewrite <- E in Hy. done.
  - apply in_handles in Hx. rewrite E in Hx. done.
Qed.

(** A handle is queued once. *)
Lemma links_inj os lv A t1 t2 h s1 s2 :
  links os lv A -> In (h, s1) (A t1) -> In (h, s2) (A t2) -> t1 = t2 /\ s1 = s2.
Proof.
  intros Hl H1 H2. pose proof (lk_tick _ _ _ Hl _ _ H1) as T1. pose proof (lk_tick _ _ _ Hl _ _ H2) as T2.
  destruct (links_get _ _ _ _ _ Hl H1) as (n1 & p1 & G1). destruct (links_get _ _ _ _ _ Hl H2) as (n2 & p2 & G2).
  simpl in *. assert (relink n1 p1 s1 = relink n2 p2 s2) as Heq by congruence.
  assert (t1 = t2) as ->.
  { rewrite <- T1, <- T2. apply (f_equal os_tick) in Heq. by destruct s1, s2. }
  split; [done|]. pose proof (handle_inj _ _ _ (lk_nodup _ _ _ Hl t2) H1 H2 eq_refl). congruence.
Qed.

(** Replace one queue: the slots of the other queues are untouched. *)
Lemma links_upd os lv A t q os' (P : Z -> Prop) :
  links os lv A -> 0 <= t < zlen lv ->
  frame os os' P ->
  (forall x, P x -> In x (handles q) \/ In x (handles (A t))) ->
  (forall x t', In x (handles q) -> t' <> t -> ~ In x (handles (A t'))) ->
  seg (slots os') NONE q NONE -> NoDup (handles q) ->
  (forall e, In e q -> os_tick e.2 = t /\ 0 <= erem e /\ (os_side e.2 = side_u8 Buy \/ os_side e.2 = side_u8 Sell)) ->
  zsum erem q <= I64_MAX ->
  links os' (vput lv t (level_of q)) (upd A t q).
Proof.
  intros Hl Ht Hfr HP Hsep Hseg Hnd Hok Hsum.
  assert (forall t' x, t' <> t -> In x (handles (A t')) -> ~ P x) as Hother.
  { intros t' x Hne Hx Hp. destruct (HP x Hp) as [Hq|Hq]; [by apply (Hsep x t')|].
    apply in_map_iff in Hx as ([h s1] & <- & H1). apply in_map_iff in Hq as ([h2 s2] & Heq & H2). simpl in *. subst h2.
    destruct (links_inj _ _ _ _ _ _ _ _ Hl H1 H2) as [-> _]. done. }
  split.
  - intros t' Ht'. rewrite zlen_vput in Ht'. unfold upd. destruct (t' =? t) eqn:E; bool_to_prop.
    + subst. by apply vget_vput_eq.
    + rewrite vget_vput_ne by done. by apply Hl.
  - intros t' Ht'. rewrite zlen_vput in Ht'. rewrite upd_other; [by apply Hl|]. intros ->. done.
  - intros t'. unfold upd. destruct (t' =? t) eqn:E; bool_to_prop; [done|].
    apply (seg_ext (slots os)); [|apply Hl]. intros h Hh. apply Hfr. by apply (Hother t').
  - intros t' e. unfold upd. destruct (t' =? t) eqn:E; bool_to_prop; [subst; by intros []%Hok|by apply Hl].
  - intros t'. unfold upd. destruct (t' =? t) eqn:E; [done|by apply Hl].
  - intros t' e. unfold upd. destruct (t' =? t) eqn:E; [intros (_ & H & _)%Hok; done|by apply Hl].
  - intros t'. unfold upd. destruct (t' =? t) eqn:E; [done|by apply Hl].
  - intros t' e. unfold upd. destruct (t' =? t) eqn:E; [intros (_ & _ & H)%Hok; done|by apply Hl].
Qed.

(** Slots outside the queues may change freely. *)
Lemma links_frame os lv A os' (P : Z -> Prop) :
  links os lv A -> frame os os' P -> (forall t e, In e (A t) -> ~ P e.1) -> links os' lv A.
Proof.
  intros Hl Hfr Hd. destruct Hl as [l1 l2 l3 l4 l5 l6 l7 l8]. split; try done. intros t.
  apply (seg_ext (slots os)); [|done]. intros h (e & <- & He)%in_map_iff. apply Hfr. by eapply Hd.
Qed.

(** ** Sums over a queue *)

Lemma on_side_range sd e : 0 <= on_side sd e <= 1.
Proof. unfold on_side. case_if; lia. Qed.

Lemma zsum_on_side_nonneg sd q : 0 <= zsum (on_side sd) q.
Proof. apply zsum_nonneg. intros. apply on_side_range. Qed.

Lemma zsum_on_side_le sd q : zsum (on_side sd) q <= zlen q.
Proof.
  induction q as [|e q IH]; [done|]. unfold zlen in *. simpl. pose proof (on_side_range sd e). lia.
Qed.

Lemma zsum_on_side_zero sd q :
  zsum (on_side sd) q = 0 <-> forall e, In e q -> is_side sd e.2 = false.
Proof.
  induction q as [|e q IH]; [done|]. simpl. pose proof (on_side_range sd e). pose proof (zsum_on_side_nonneg sd q).
  split.
  - intros Hz x [<-|Hx]; [|apply IH; [lia|done]]. unfold on_side in *. destruct (is_side sd e.2); [lia|done].
  - intros Hall. rewrite (proj2 IH) by auto. unfold on_side. rewrite Hall; auto.
Qed.

Lemma zsum_on_side_pos sd q :
  0 < zsum (on_side sd) q <-> exists e, In e q /\ is_side sd e.2 = true.
Proof.
  induction q as [|e q IH]; simpl.
  - split; [lia|]. by intros (e & [] & _).
  - pose proof (zsum_on_side_nonneg sd q). unfold on_side at 1. destruct (is_side sd e.2) eqn:E.
    + split; [|lia]. intros _. exists e. auto.
    + rewrite Z.add_0_l, IH. split; intros (x & Hx & Hs); exists x; [auto|]. destruct Hx as [<-|Hx]; [congruence|auto].
Qed.
