(* ===== verification/BookInv.v ===== *)
(** * BookInv: the order book's representation invariant

    [core] ties the slab, the levels and the two bitmaps of
    [rsx-book/src/book.rs] to a queue of orders per price slot; [book_inv]
    adds the lifecycle of the slots, the cached best prices and the order
    counts of the registry.  Every operation of the book is shown to return
    and to preserve it, with its effect on the queues. *)

From stdpp Require Import sorting.
From S2P Require Import Prelude Types Slab Occupancy Compression Users Order Book Links.

Section Inv.
Variables (mid tk : Z).
Hypothesis Hcfg : cfg_ok mid tk.
Hypothesis Hspread : spread_ok mid tk.

Definition occ_ok (sd : Side) (o : Occupancy) (A : ABook) : Prop :=
  occ_inv o /\ occ_n o = total mid tk /\ forall t, mem o t = true <-> 0 < zsum (on_side sd) (A t).

(** A price the book can store at slot [t]. *)
Definition price_at (t p : Z) : Prop := 0 < p <= I64_MAX /\ p mod tk = 0 /\ idx mid tk p = t.

Record core (A : ABook) (fl : list Z) (b : Orderbook) : Prop := {
  c_map : compression b = the_map mid tk;
  c_asc : price_asc b = bands mid tk;
  c_len : zlen (active_levels b) = total mid tk;
  c_slab : slab_inv (orders b) fl;
  c_links : links (orders b) (active_levels b) A;
  c_live : forall t e, In e (A t) -> live (orders b) fl e.1;
  c_px : forall t e, In e (A t) -> price_at t (os_price e.2);
  c_bid : occ_ok Buy (bid_occ b) A;
  c_ask : occ_ok Sell (ask_occ b) A;
}.

(** ** Levels *)

Lemma price_slot p : 0 < p <= I64_MAX -> 0 <= idx mid tk p < total mid tk.
Proof. intros. apply idx_range; [done|lia]. Qed.

Lemma core_slot_range A fl b t e : core A fl b -> In e (A t) -> 0 <= t < total mid tk.
Proof. intros Hc He. destruct (c_px _ _ _ Hc _ _ He) as (Hp & _ & <-). by apply price_slot. Qed.

Lemma core_level A fl b t :
  core A fl b -> 0 <= t < total mid tk -> vget (active_levels b) t = Some (level_of (A t)).
Proof. intros Hc Ht. apply (lk_level _ _ _ (c_links _ _ _ Hc)). by rewrite (c_len _ _ _ Hc). Qed.

Lemma core_handle A fl b t h : core A fl b -> In h (handles (A t)) -> 0 <= h < NONE.
Proof.
  intros Hc (e & <- & He)%in_map_iff. destruct (c_live _ _ _ Hc _ _ He) as [Hr _].
  pose proof (si_bump _ _ (c_slab _ _ _ Hc)). pose proof (si_cap _ _ (c_slab _ _ _ Hc)). lia.
Qed.

Lemma core_count A fl b t : core A fl b -> zlen (A t) <= NONE.
Proof.
  intros Hc. pose proof (seg_length _ _ _ _ (lk_seg _ _ _ (c_links _ _ _ Hc) t) (lk_nodup _ _ _ (c_links _ _ _ Hc) t)).
  pose proof (si_cap _ _ (c_slab _ _ _ Hc)). unfold zlen in *. lia.
Qed.

Lemma core_get A fl b t e :
  core A fl b -> In e (A t) -> exists n p, get (orders b) e.1 = Ok (relink n p e.2).
Proof.
  intros Hc He. destruct (links_get _ _ _ _ _ (c_links _ _ _ Hc) He) as (n & p & Hg).
  exists n, p. unfold get. by apply vindex_some.
Qed.

Lemma zsum_erem_nonneg q : (forall e, In e q -> 0 <= erem e) -> 0 <= zsum erem q.
Proof. apply zsum_nonneg. Qed.

(** The level after taking one order out. *)
Definition level_less (s : OrderSlot) (level : PriceLevel) : PriceLevel * bool :=
  let level := lv_with_total (sat_i64 (lv_total_qty level - os_remaining s)) level in
  let level := lv_with_count (sat_u32 (lv_order_count level - 1)) level in
  remove_side (os_side s) level.

Lemma side_cases s : os_side s = side_u8 Buy \/ os_side s = side_u8 Sell ->
  (os_side s =? side_u8 Buy) = true /\ is_side Buy s = true /\ is_side Sell s = false \/
  (os_side s =? side_u8 Buy) = false /\ is_side Buy s = false /\ is_side Sell s = true.
Proof. unfold is_side. intros [->| ->]; simpl; auto. Qed.

Lemma level_less_spec q1 (e : Entry) q2 :
  let q := q1 ++ e :: q2 in
  (os_side e.2 = side_u8 Buy \/ os_side e.2 = side_u8 Sell) ->
  zlen q <= NONE -> (forall e, In e q -> 0 <= erem e) -> zsum erem q <= I64_MAX ->
  level_less e.2 (lv_with_tail (qlast NONE (q1 ++ q2)) (lv_with_head (qhead (q1 ++ q2) NONE) (level_of q))) =
    (level_of (q1 ++ q2),
     if os_side e.2 =? side_u8 Buy then zsum (on_side Buy) (q1 ++ q2) =? 0 else zsum (on_side Sell) (q1 ++ q2) =? 0).
Proof.
  intros q Hside Hcnt Hnn Hsum.
  assert (zsum erem q = zsum erem (q1 ++ q2) + erem e) as Eq by (unfold q; rewrite !zsum_app; simpl; lia).
  assert (zlen q = zlen (q1 ++ q2) + 1) as El by (unfold q; rewrite !zlen_app, zlen_cons; lia).
  assert (forall sd, zsum (on_side sd) q = zsum (on_side sd) (q1 ++ q2) + on_side sd e) as Es
    by (intros; unfold q; rewrite !zsum_app; simpl; lia).
  assert (0 <= zsum erem (q1 ++ q2)) as Hnn'.
  { apply zsum_nonneg. intros x Hx. apply Hnn. unfold q. apply in_app_iff in Hx as [?|?]; apply in_app_iff; simpl; auto. }
  pose proof (zlen_nonneg (q1 ++ q2)). pose proof (Hnn e ltac:(unfold q; apply in_app_iff; simpl; auto)) as He.
  pose proof (zsum_on_side_nonneg Buy (q1 ++ q2)). pose proof (zsum_on_side_nonneg Sell (q1 ++ q2)).
  pose proof (zsum_on_side_le Buy (q1 ++ q2)). pose proof (zsum_on_side_le Sell (q1 ++ q2)).
  unfold level_less, remove_side, level_of. fold (erem e). unfold NONE in *.
  destruct (side_cases _ Hside) as [(-> & Eb & Ea)|(-> & Eb & Ea)];
    pose proof (Es Buy) as Esb; pose proof (Es Sell) as Ess; unfold on_side at 3 in Esb; unfold on_side at 3 in Ess;
    rewrite Eb in Esb; rewrite Ea in Ess; cbn; unfold lv_with_bids, lv_with_asks; cbn;
    rewrite Eq, El, Esb, Ess, (sat_i64_id (_ + erem e - erem e)) by width_lia;
    rewrite !sat_u32_id by width_lia; rewrite ?Z.add_0_r, !Z.add_simpl_r; done.
Qed.

(** ** Bitmaps follow the per-side counts *)

Lemma occ_keep sd o A t q :
  occ_ok sd o A -> (0 < zsum (on_side sd) (A t) <-> 0 < zsum (on_side sd) q) -> occ_ok sd o (upd A t q).
Proof.
  intros (Hi & Hn & Hm) Hq. split; [done|]. split; [done|]. intros x. rewrite Hm. unfold upd.
  destruct (x =? t) eqn:E; bool_to_prop; [by subst|done].
Qed.

Lemma occ_set sd o A t q :
  occ_ok sd o A -> 0 <= t < total mid tk -> 0 < zsum (on_side sd) q ->
  exists o', Occupancy.set o t = Ok o' /\ occ_ok sd o' (upd A t q).
Proof.
  intros (Hi & Hn & Hm) Ht Hq. destruct (set_spec o t Hi ltac:(lia)) as (o' & E & Hi' & Hn' & Hm').
  exists o'. split; [done|]. split; [done|]. split; [congruence|]. intros x. rewrite Hm'. unfold upd.
  destruct (x =? t) eqn:Ex; bool_to_prop; [by rewrite orb_true_r|]. by rewrite orb_false_r.
Qed.

Lemma occ_clear sd o A t q :
  occ_ok sd o A -> 0 <= t < total mid tk -> zsum (on_side sd) q = 0 ->
  exists o', Occupancy.clear o t = Ok o' /\ occ_ok sd o' (upd A t q).
Proof.
  intros (Hi & Hn & Hm) Ht Hq. destruct (clear_spec o t Hi ltac:(lia)) as (o' & E & Hi' & Hn' & Hm').
  exists o'. split; [done|]. split; [done|]. split; [congruence|]. intros x. rewrite Hm'. unfold upd.
  destruct (x =? t) eqn:Ex; bool_to_prop; [rewrite andb_false_r; lia|]. by rewrite andb_true_r.
Qed.

(** ** Taking an order out of its queue *)

(** The book [b] with new levels, slots and bitmaps. *)
Definition reshape (b b' : Orderbook) : Prop :=
  b' = set_occ (set_levels_orders b (active_levels b') (orders b')) (bid_occ b') (ask_occ b').

Lemma in_mid {X} (x e : X) q1 q2 : In x (q1 ++ q2) -> In x (q1 ++ e :: q2).
Proof. rewrite !in_app_iff. simpl. tauto. Qed.

Lemma clear_side_spec b A fl t q1 (e : Entry) q2 lv os :
  core A fl b -> A t = q1 ++ e :: q2 -> 0 <= t < total mid tk ->
  (os_side e.2 = side_u8 Buy \/ os_side e.2 = side_u8 Sell) ->
  exists b', (if (if os_side e.2 =? side_u8 Buy then zsum (on_side Buy) (q1 ++ q2) =? 0
                  else zsum (on_side Sell) (q1 ++ q2) =? 0)
              then clear_side_occ (set_levels_orders b lv os) (os_side e.2) t
              else Ok (set_levels_orders b lv os)) = Ok b' /\
    b' = set_occ (set_levels_orders b lv os) (bid_occ b') (ask_occ b') /\
    occ_ok Buy (bid_occ b') (upd A t (q1 ++ q2)) /\ occ_ok Sell (ask_occ b') (upd A t (q1 ++ q2)).
Proof.
  intros Hc Et Ht Hside. pose proof (c_bid _ _ _ Hc) as Hb. pose proof (c_ask _ _ _ Hc) as Ha.
  assert (forall sd, zsum (on_side sd) (A t) = zsum (on_side sd) (q1 ++ q2) + on_side sd e) as Es
    by (intros; rewrite Et, !zsum_app; simpl; lia).
  pose proof (zsum_on_side_nonneg Buy (q1 ++ q2)). pose proof (zsum_on_side_nonneg Sell (q1 ++ q2)).
  unfold clear_side_occ. destruct (side_cases _ Hside) as [(-> & Eb & Ea)|(-> & Eb & Ea)];
    pose proof (Es Buy) as Esb; pose proof (Es Sell) as Ess; unfold on_side at 3 in Esb; unfold on_side at 3 in Ess;
    rewrite Eb in Esb; rewrite Ea in Ess.
  - assert (occ_ok Sell (ask_occ b) (upd A t (q1 ++ q2))) by (apply occ_keep; [done|lia]).
    destruct (zsum (on_side Buy) (q1 ++ q2) =? 0) eqn:Ez; bool_to_prop.
    + destruct (occ_clear Buy _ A t (q1 ++ q2) Hb Ht Ez) as (o' & Eo & Ho). cbn. rewrite Eo. cbn.
      eexists. split; [reflexivity|]. done.
    + eexists. split; [reflexivity|]. split; [by destruct b|]. split; [|done]. apply occ_keep; [done|]. cbn. lia.
  - assert (occ_ok Buy (bid_occ b) (upd A t (q1 ++ q2))) by (apply occ_keep; [done|lia]).
    destruct (zsum (on_side Sell) (q1 ++ q2) =? 0) eqn:Ez; bool_to_prop.
    + destruct (occ_clear Sell _ A t (q1 ++ q2) Ha Ht Ez) as (o' & Eo & Ho). cbn. rewrite Eo. cbn.
      eexists. split; [reflexivity|]. done.
    + eexists. split; [reflexivity|]. split; [by destruct b|]. split; [done|]. apply occ_keep; [done|]. cbn. lia.
Qed.

Lemma seg_at sl pv q1 e q2 nx :
  seg sl pv (q1 ++ e :: q2) nx -> vget sl e.1 = Some (relink (qhead q2 nx) (qlast pv q1) e.2).
Proof. intros [_ [H _]]%seg_app. exact H. Qed.

Lemma unlink_order_spec A fl b t q1 (e : Entry) q2 :
  core A fl b -> A t = q1 ++ e :: q2 ->
  exists b', unlink_order b e.1 = Ok b' /\ core (upd A t (q1 ++ q2)) fl b' /\ reshape b b' /\
    frame (orders b) (orders b') (fun x => In x (handles (q1 ++ q2))) /\
    ~ In e.1 (handles (q1 ++ q2)).
Proof.
  intros Hc Et. assert (In e (A t)) as He by (rewrite Et; apply in_app_iff; simpl; auto).
  pose proof (c_links _ _ _ Hc) as Hl. pose proof (core_slot_range _ _ _ _ _ Hc He) as Ht.
  pose proof (lk_nodup _ _ _ Hl t) as Hnd. pose proof (lk_seg _ _ _ Hl t) as Hseg. rewrite Et in Hnd, Hseg.
  pose proof (nodup_mid _ _ _ Hnd) as (Hnin & Hnd' & _). pose proof (lk_side _ _ _ Hl _ _ He) as Hside.
  pose proof (seg_at _ _ _ _ _ _ Hseg) as Hg.
  destruct (unlink_list_spec (orders b) (level_of (A t)) q1 e q2 Hseg Hnd) as (os & Eu & Hseg' & Hfr);
    [intros h Hh; pose proof (core_handle A fl b t h Hc); rewrite Et in *; unfold NONE in *; intuition lia|by rewrite Et|by rewrite Et|].
  pose proof (level_less_spec q1 e q2 Hside) as Hless. rewrite <- Et in Hless.
  specialize (Hless (core_count _ _ _ t Hc) (lk_qty _ _ _ Hl t) (lk_sum _ _ _ Hl t)).
  destruct (clear_side_spec b A fl t q1 e q2 (vput (active_levels b) t (level_of (q1 ++ q2))) os Hc Et Ht Hside)
    as (b' & Eb & Hb' & Hbo & Hao).
  exists b'. split.
  { unfold unlink_order, get. rewrite (vindex_some _ _ _ Hg). cbn [mbind Res_bind].
    replace (os_tick (relink _ _ _)) with t by (rewrite <- (lk_tick _ _ _ Hl _ _ He); by destruct (e.2)).
    rewrite (vindex_some _ _ _ (core_level _ _ _ t Hc Ht)). cbn [mbind Res_bind].
    change (os_prev (relink (qhead q2 NONE) (qlast NONE q1) e.2)) with (qlast NONE q1).
    change (os_next (relink (qhead q2 NONE) (qlast NONE q1) e.2)) with (qhead q2 NONE).
    rewrite Eu. cbn [mbind Res_bind]. unfold level_less in Hless. cbn zeta in Hless.
    change (os_remaining (relink (qhead q2 NONE) (qlast NONE q1) e.2)) with (os_remaining e.2).
    change (os_side (relink (qhead q2 NONE) (qlast NONE q1) e.2)) with (os_side e.2).
    rewrite Hless, vset_ok by (rewrite (c_len _ _ _ Hc); lia). cbn [mbind Res_bind]. exact Eb. }
  assert (links os (vput (active_levels b) t (level_of (q1 ++ q2))) (upd A t (q1 ++ q2))) as Hl'.
  { apply (links_upd (orders b) _ A t _ os (fun x => In x (handles (q1 ++ q2)))); try done.
    - rewrite (c_len _ _ _ Hc). lia.
    - auto.
    - intros x t' (x1 & <- & Hx1)%in_map_iff Hne (x2 & Hxe & Hx2)%in_map_iff.
      assert (In x1 (A t)) as Hx1' by (rewrite Et; by apply in_mid). destruct x1 as [h1 s1], x2 as [h2 s2].
      simpl in Hxe. subst h2. by destruct (links_inj _ _ _ _ _ _ _ _ Hl Hx1' Hx2) as [-> _].
    - intros x Hx. assert (In x (A t)) as Hxt by (rewrite Et; by apply in_mid).
      split; [by apply Hl|]. split; [by apply (lk_qty _ _ _ Hl t)|by apply (lk_side _ _ _ Hl t)].
    - pose proof (lk_sum _ _ _ Hl t) as Hs. pose proof (lk_qty _ _ _ Hl _ _ He).
      rewrite Et, zsum_app in Hs. simpl in Hs. rewrite zsum_app. lia. }
  assert (forall t' x, In x (upd A t (q1 ++ q2) t') -> In x (A t')) as Hsub.
  { intros t' x. unfold upd. destruct (t' =? t) eqn:E; bool_to_prop; [|done]. subst. rewrite Et. apply in_mid. }
  split; [|split; [by rewrite Hb'|split; [by rewrite Hb'|done]]].
  rewrite Hb' in *. cbn in Hbo, Hao. split; cbn; try done; try apply Hc.
  - rewrite zlen_vput. apply Hc.
  - eapply frame_slab; [exact Hfr| |apply Hc]. intros x Hx (y & <- & Hy)%in_map_iff.
    destruct (c_live _ _ _ Hc t y) as [_ Hnf]; [|done]. rewrite Et. by apply in_mid.
  - intros t' x Hx. destruct (c_live _ _ _ Hc t' x (Hsub _ _ Hx)) as [Hr Hnf]. split; [|done].
    by rewrite (fr_bump _ _ _ Hfr).
  - intros t' x Hx. apply Hc. by apply Hsub.
Qed.

(** ** Appending an order to its queue *)

(** The level after linking one order of side [sd]. *)
Definition level_more (sd : Side) (qty : Z) (level : PriceLevel) : PriceLevel * bool :=
  let level := lv_with_total (wrap_i64 (lv_total_qty level + qty)) level in
  let level := lv_with_count (wrap_u32 (lv_order_count level + 1)) level in
  add_side sd level.

Lemma level_more_spec q (e : Entry) sd :
  os_side e.2 = side_u8 sd -> zlen q < NONE -> (forall e, In e q -> 0 <= erem e) -> 0 <= erem e ->
  zsum erem q + erem e <= I64_MAX ->
  level_more sd (os_remaining e.2) (lv_with_tail e.1 (lv_with_head (qhead (q ++ [e]) NONE) (level_of q))) =
    (level_of (q ++ [e]), zsum (on_side sd) q =? 0).
Proof.
  intros Hside Hcnt Hnn He Hsum. pose proof (zlen_nonneg q).
  assert (0 <= zsum erem q) by by apply zsum_nonneg. fold (erem e).
  assert (zlen (q ++ [e]) = zlen q + 1) as El by apply zlen_snoc.
  assert (forall sd, zsum (on_side sd) (q ++ [e]) = zsum (on_side sd) q + on_side sd e) as Es
    by (intros; rewrite !zsum_app; simpl; lia).
  assert (zsum erem (q ++ [e]) = zsum erem q + erem e) as Er by (rewrite !zsum_app; simpl; lia).
  pose proof (zsum_on_side_nonneg Buy q). pose proof (zsum_on_side_nonneg Sell q).
  pose proof (zsum_on_side_le Buy q). pose proof (zsum_on_side_le Sell q).
  unfold level_more, level_of. rewrite El, !Es, Er, qlast_app. unfold NONE in *.
  replace (on_side Buy e) with (if side_u8 sd =? side_u8 Buy then 1 else 0) by (unfold on_side, is_side; by rewrite Hside).
  replace (on_side Sell e) with (if side_u8 sd =? side_u8 Sell then 1 else 0) by (unfold on_side, is_side; by rewrite Hside).
  cbn. rewrite wrap_i64_id by width_lia. rewrite (wrap_u32_id (zlen q + 1)) by width_lia.
  destruct sd; cbn; unfold lv_with_bids, lv_with_asks; cbn; rewrite wrap_u32_id by width_lia;
    by rewrite Z.add_0_r.
Qed.

Lemma set_side_spec b A fl t q sd (e : Entry) lv os seq :
  core A fl b -> A t = q -> 0 <= t < total mid tk -> os_side e.2 = side_u8 sd ->
  let b0 := set_levels_orders (set_sequence b seq) lv os in
  exists b', (if zsum (on_side sd) q =? 0 then set_side_occ b0 sd t else Ok b0) = Ok b' /\
    b' = set_occ b0 (bid_occ b') (ask_occ b') /\
    occ_ok Buy (bid_occ b') (upd A t (q ++ [e])) /\ occ_ok Sell (ask_occ b') (upd A t (q ++ [e])).
Proof.
  intros Hc Et Ht Hside b0. pose proof (c_bid _ _ _ Hc) as Hb. pose proof (c_ask _ _ _ Hc) as Ha.
  assert (forall sd, zsum (on_side sd) (q ++ [e]) = zsum (on_side sd) q + on_side sd e) as Es
    by (intros; rewrite !zsum_app; simpl; lia).
  pose proof (zsum_on_side_nonneg Buy q). pose proof (zsum_on_side_nonneg Sell q).
  pose proof (Es Buy) as Esb. pose proof (Es Sell) as Ess.
  unfold on_side at 3, is_side in Esb. unfold on_side at 3, is_side in Ess. rewrite Hside in Esb, Ess.
  destruct sd; cbn in Esb, Ess; destruct (zsum (on_side _) q =? 0) eqn:Ez; bool_to_prop; unfold set_side_occ.
  - destruct (occ_set Buy _ A t (q ++ [e]) Hb Ht ltac:(lia)) as (o' & Eo & Ho). cbn. rewrite Eo. cbn.
    eexists. split; [reflexivity|]. split; [done|]. split; [done|]. apply occ_keep; [done|]. cbn. rewrite Et. lia.
  - eexists. split; [reflexivity|]. split; [by destruct b|]. split; apply occ_keep; try done; cbn; rewrite Et; lia.
  - destruct (occ_set Sell _ A t (q ++ [e]) Ha Ht ltac:(lia)) as (o' & Eo & Ho). cbn. rewrite Eo. cbn.
    eexists. split; [reflexivity|]. split; [done|]. split; [|done]. apply occ_keep; [done|]. cbn. rewrite Et. lia.
  - eexists. split; [reflexivity|]. split; [by destruct b|]. split; apply occ_keep; try done; cbn; rewrite Et; lia.
Qed.

(** The slot [insert_resting] writes, links aside. *)
Definition resting_slot (b : Orderbook) (price qty : Z) (side : Side) (tif user_id : Z)
    (reduce_only : bool) (timestamp_ns order_id_hi order_id_lo : Z) : OrderSlot :=
  mkSlot price qty (side_u8 side)
    (if reduce_only then Z.lor ORDER_ACTIVE ORDER_REDUCE_ONLY else ORDER_ACTIVE)
    tif NONE NONE (idx mid tk price) user_id (wrap_u32 (wrap_u64 (sequence b + 1))) qty
    timestamp_ns order_id_hi order_id_lo.

(** A fresh slot becomes a live entry at the tail of its queue. *)
Lemma link_fresh A fl b s t :
  core A fl b -> has_room (orders b) fl -> relink NONE NONE s = s ->
  exists h os1 os2 os3 fl', let e : Entry := (h, s) in
    alloc (orders b) = Ok (h, os1) /\ update os1 h (fun _ => s) = Ok os2 /\
    link_tail os2 (level_of (A t)) h =
      Ok (os3, lv_with_tail h (lv_with_head (qhead (A t ++ [e]) NONE) (level_of (A t)))) /\
    slab_inv os3 fl' /\ seg (slots os3) NONE (A t ++ [e]) NONE /\ (forall t', ~ In h (handles (A t'))) /\
    ~ live (orders b) fl h /\ (forall x, live os3 fl' x <-> live (orders b) fl x \/ x = h) /\
    zlen (slots os3) = zlen (slots (orders b)) /\
    (forall x, ~ In x (handles (A t ++ [e])) -> vget (slots os3) x = vget (slots (orders b)) x).
Proof.
  intros Hc Hroom Hrl. pose proof (c_links _ _ _ Hc) as Hl.
  destruct (alloc_spec (orders b) fl (c_slab _ _ _ Hc) Hroom) as (h & os1 & fl' & Ea & Hi1 & Hs1 & Hr & Hnl & Hlive & Hfl).
  destruct (vget_is_some (slots os1) h ltac:(by rewrite Hs1)) as [s0 Hs0].
  destruct (update_frame os1 h (fun _ => s) s0 Hs0) as (os2 & Eu & Hg2 & Hf2).
  assert (forall t', ~ In h (handles (A t'))) as Hnin.
  { intros t' (x & Hx & Hx')%in_map_iff. apply Hnl. rewrite <- Hx. by apply (c_live _ _ _ Hc t'). }
  assert (live os1 fl' h) as Hle by (apply Hlive; by right).
  destruct (link_tail_spec os2 (A t) (h, s)) as (os3 & El & Hseg & Hf3).
  - apply (seg_ext (slots (orders b))); [|apply Hl]. intros h0 Hh. rewrite (fr_same _ _ _ Hf2).
    + by rewrite Hs1.
    + intros ->. by apply (Hnin t).
  - apply Hl.
  - apply Hnin.
  - cbn. by rewrite Hrl.
  - exists h, os1, os2, os3, fl'. split; [done|]. split; [done|]. split; [done|].
    assert (slab_inv os2 fl') as Hi2.
    { eapply frame_slab; [exact Hf2| |done]. intros x Hx ->. by destruct Hle. }
    split; [|split; [done|split; [done|split; [done|split; [|split]]]]].
    + eapply frame_slab; [exact Hf3| |done]. intros x Hx. unfold handles. rewrite map_app. simpl.
      intros [(y & <- & Hy)%in_map_iff|[<-|[]]]%in_app_iff; [|by destruct Hle].
      destruct (c_live _ _ _ Hc t y Hy) as [_ Hn]. apply Hn. by apply Hfl.
    + intros x. rewrite <- Hlive. unfold live. by rewrite (fr_bump _ _ _ Hf3), (fr_bump _ _ _ Hf2).
    + rewrite (fr_len _ _ _ Hf3), (fr_len _ _ _ Hf2). by rewrite Hs1.
    + intros x Hx. rewrite (fr_same _ _ _ Hf3), (fr_same _ _ _ Hf2) by (try done; intros ->; apply Hx;
        unfold handles; rewrite map_app; apply in_app_iff; right; by left). by rewrite Hs1.
Qed.

Lemma nodup_snoc (q : list Entry) (e : Entry) : NoDup (handles q) -> ~ In e.1 (handles q) -> NoDup (handles (q ++ [e])).
Proof.
  intros Hnd Hnin. unfold handles. rewrite map_app. apply NoDup_app. split; [done|]. split; [|apply NoDup_singleton].
  intros x Hx ->%list_elem_of_singleton. apply Hnin. by apply list_elem_of_In.
Qed.

Lemma in_upd_snoc A t (e x : Entry) t' : In x (upd A t (A t ++ [e]) t') <-> In x (A t') \/ (x = e /\ t' = t).
Proof.
  unfold upd. destruct (t' =? t) eqn:E; bool_to_prop; [subst|intuition]. rewrite in_app_iff. simpl. intuition.
Qed.

Lemma links_push A fl b os3 h s t :
  core A fl b -> 0 <= t < total mid tk -> os_tick s = t -> 0 <= os_remaining s ->
  (os_side s = side_u8 Buy \/ os_side s = side_u8 Sell) -> zsum erem (A t) + os_remaining s <= I64_MAX ->
  seg (slots os3) NONE (A t ++ [(h, s)]) NONE -> (forall t', ~ In h (handles (A t'))) ->
  (forall x, ~ In x (handles (A t ++ [(h, s)])) -> vget (slots os3) x = vget (slots (orders b)) x) ->
  links os3 (vput (active_levels b) t (level_of (A t ++ [(h, s)]))) (upd A t (A t ++ [(h, s)])).
Proof.
  intros Hc Ht Htick Hq Hside Hsum Hseg Hnin Hsame. pose proof (c_links _ _ _ Hc) as Hl.
  pose proof (c_len _ _ _ Hc) as Hlen. pose proof (lk_sum _ _ _ Hl) as Hsums.
  assert (forall x t', t' <> t -> In x (handles (A t')) -> ~ In x (handles (A t ++ [(h, s)]))) as Hsep.
  { intros x t' Hne Hx. unfold handles at 1. rewrite map_app. intros [Hx2|[<-|[]]]%in_app_iff; [|by apply (Hnin t')].
    apply in_map_iff in Hx as ([h1 s1] & <- & H1). apply in_map_iff in Hx2 as ([h2 s2] & Heq & H2). simpl in Heq. subst h2.
    by destruct (links_inj _ _ _ _ _ _ _ _ Hl H1 H2). }
  split.
  - intros t' Ht'. rewrite zlen_vput in Ht'. unfold upd. destruct (t' =? t) eqn:E; bool_to_prop.
    + subst t'. by apply vget_vput_eq.
    + rewrite vget_vput_ne by done. by apply Hl.
  - intros t' Ht'. rewrite zlen_vput in Ht'. rewrite upd_other; [by apply Hl|]. intros ->. lia.
  - intros t'. unfold upd. destruct (t' =? t) eqn:E; bool_to_prop; [done|].
    apply (seg_ext (slots (orders b))); [|apply Hl]. intros x Hx. apply Hsame. by apply (Hsep x t').
  - intros t' e [He|[-> ->]]%in_upd_snoc; [by apply Hl|done].
  - intros t'. unfold upd. destruct (t' =? t) eqn:E; [|by apply Hl]. apply nodup_snoc; [apply Hl|apply Hnin].
  - intros t' e [He|[-> ->]]%in_upd_snoc; [by apply (lk_qty _ _ _ Hl t')|done].
  - intros t'. unfold upd. destruct (t' =? t); [|done]. rewrite zsum_app. simpl. unfold erem at 2. simpl. lia.
  - intros t' e [He|[-> ->]]%in_upd_snoc; [by apply (lk_side _ _ _ Hl t')|done].
Qed.

Lemma insert_core A fl b price qty side tif user ro ts oh ol :
  core A fl b -> has_room (orders b) fl -> 0 < price <= I64_MAX -> price mod tk = 0 -> 0 <= qty ->
  zsum erem (A (idx mid tk price)) + qty <= I64_MAX ->
  let t := idx mid tk price in
  let s := resting_slot b price qty side tif user ro ts oh ol in
  exists h fl' b1,
    insert_resting b price qty side tif user ro ts oh ol =
      (u ← add_order (users b) user; Ok (h, set_users (improve_best b1 side t price) u)) /\
    core (upd A t (A t ++ [(h, s)])) fl' b1 /\
    b1 = set_occ (set_levels_orders (set_sequence b (wrap_u64 (sequence b + 1))) (active_levels b1) (orders b1))
           (bid_occ b1) (ask_occ b1) /\
    ~ live (orders b) fl h /\ (forall x, live (orders b1) fl' x <-> live (orders b) fl x \/ x = h) /\
    zlen (slots (orders b1)) = zlen (slots (orders b)) /\
    (forall x, ~ In x (handles (A t ++ [(h, s)])) -> vget (slots (orders b1)) x = vget (slots (orders b)) x).
Proof.
  intros Hc Hroom Hp Hal Hq Hsum t s. pose proof (price_slot price Hp) as Ht. fold t in Ht.
  destruct (link_fresh A fl b s t Hc Hroom eq_refl)
    as (h & os1 & os2 & os3 & fl' & Ea & Eu & El & Hi & Hseg & Hnin & Hnl & Hlive & Hlen & Hsame).
  assert (os_side s = side_u8 Buy \/ os_side s = side_u8 Sell) as Hside by (destruct side; simpl; auto).
  assert (zlen (A t) < NONE) as Hcnt.
  { pose proof (seg_length _ _ _ _ Hseg) as Hsl. rewrite length_app in Hsl. simpl in Hsl.
    pose proof (si_cap _ _ (c_slab _ _ _ Hc)). unfold zlen in *.
    assert (length (A t) + 1 <= length (slots os3))%nat; [|lia]. apply Hsl.
    apply nodup_snoc; [apply Hc|apply Hnin]. }
  pose proof (level_more_spec (A t) (h, s) side eq_refl Hcnt (lk_qty _ _ _ (c_links _ _ _ Hc) t) Hq Hsum) as Hmore.
  change (os_remaining (h, s).2) with qty in Hmore. change ((h, s).1) with h in Hmore.
  destruct (set_side_spec b A fl t (A t) side (h, s) (vput (active_levels b) t (level_of (A t ++ [(h, s)]))) os3
    (wrap_u64 (sequence b + 1)) Hc eq_refl Ht eq_refl) as (b1 & Eb & Hb1 & Hbo & Hao).
  exists h, fl', b1. split.
  { unfold insert_resting. rewrite (c_map _ _ _ Hc), price_to_index_eq by (done || lia). cbn [mbind Res_bind]. fold t.
    rewrite Ea. cbn [mbind Res_bind]. fold (resting_slot b price qty side tif user ro ts oh ol).
    change (mkSlot _ _ _ _ _ _ _ _ _ _ _ _ _ _) with s. rewrite Eu. cbn [mbind Res_bind].
    rewrite (vindex_some _ _ _ (core_level _ _ _ t Hc Ht)). cbn [mbind Res_bind]. rewrite El. cbn [mbind Res_bind].
    match goal with |- context [add_side ?a ?b] => change (add_side a b) with (level_more side qty
      (lv_with_tail h (lv_with_head (qhead (A t ++ [(h, s)]) NONE) (level_of (A t))))) end.
    setoid_rewrite Hmore. rewrite vset_ok by (rewrite (c_len _ _ _ Hc); lia). cbn [mbind Res_bind]. rewrite Eb. cbn [mbind Res_bind].
    replace (users (improve_best b1 side t price)) with (users b); [done|].
    rewrite Hb1. unfold improve_best. destruct side; case_if; done. }
  pose proof (links_push A fl b os3 h s t Hc Ht eq_refl Hq Hside Hsum Hseg Hnin Hsame) as Hl'.
  rewrite Hb1 in *. cbn in Hbo, Hao |- *. split; [|done]. split; cbn; try done; try apply Hc.
  - rewrite zlen_vput. apply Hc.
  - intros t' e [He|[-> ->]]%in_upd_snoc; apply Hlive; [left; by apply (c_live _ _ _ Hc t')|by right].
  - intros t' e [He|[-> ->]]%in_upd_snoc; [by apply Hc|]. split; [done|]. done.
Qed.

(** ** The best price of a slot

    [bid_top_at] and [ask_top_at] are one computation read in two directions;
    [sd] is the resting side. *)

Definition better (sd : Side) (p q : Z) : bool := match sd with Buy => p >? q | Sell => p <? q end.
Definition no_worse (sd : Side) (p q : Z) : Prop := match sd with Buy => q <= p | Sell => p <= q end.
Definition worst (sd : Side) : Z := match sd with Buy => I64_MIN | Sell => I64_MAX end.

Definition top_step (sd : Side) (acc : Z * Z) (order : OrderSlot) : Z * Z :=
  let '(px, qty) := acc in
  if is_side sd order then
    if better sd (os_price order) px then (os_price order, os_remaining order)
    else if os_price order =? px then (px, wrap_i64 (qty + os_remaining order))
    else (px, qty)
  else (px, qty).

Definition top_at (sd : Side) (b : Orderbook) (tick : Z) : Res (Z * Z) :=
  match sd with Buy => bid_top_at b tick | Sell => ask_top_at b tick end.

Lemma better_spec sd p q : better sd p q = true <-> no_worse sd p q /\ p <> q.
Proof. destruct sd; simpl; rewrite ?Z.gtb_ltb, Z.ltb_lt; lia. Qed.

Lemma not_better sd p q : better sd p q = false <-> no_worse sd q p.
Proof. destruct sd; simpl; rewrite ?Z.gtb_ltb, Z.ltb_ge; lia. Qed.

Lemma no_worse_trans sd p q r : no_worse sd p q -> no_worse sd q r -> no_worse sd p r.
Proof. destruct sd; simpl; lia. Qed.

Lemma no_worse_refl sd p : no_worse sd p p.
Proof. destruct sd; simpl; lia. Qed.

Lemma no_worse_antisym sd p q : no_worse sd p q -> no_worse sd q p -> p = q.
Proof. destruct sd; simpl; lia. Qed.

(** Quantity resting on side [sd] at price [px]. *)
Definition qty_at (sd : Side) (px : Z) (e : Entry) : Z :=
  if is_side sd e.2 && (os_price e.2 =? px) then erem e else 0.

Lemma qty_at_le sd px q :
  (forall e, In e q -> 0 <= erem e) -> 0 <= zsum (qty_at sd px) q <= zsum erem q.
Proof.
  induction q as [|e q IH]; intros Hnn; [done|]. simpl. specialize (IH (fun x Hx => Hnn x (or_intror Hx))).
  pose proof (Hnn e (or_introl eq_refl)). unfold qty_at at 1 3. case_if; lia.
Qed.

Lemma qty_at_none sd px q :
  (forall e, In e q -> is_side sd e.2 = true -> os_price e.2 <> px) -> zsum (qty_at sd px) q = 0.
Proof.
  intros H. induction q as [|e q IH]; [done|]. simpl. rewrite IH by (intros x Hx; apply H; by right).
  unfold qty_at. destruct (is_side sd e.2 && (os_price e.2 =? px)) eqn:E; [|done]. bool_to_prop.
  by destruct (H e (or_introl eq_refl)).
Qed.

(** The best entry of side [sd] in [q] and what rests at its price. *)
Definition is_top (sd : Side) (q : list Entry) (px qty : Z) : Prop :=
  (exists e, In e q /\ is_side sd e.2 = true /\ os_price e.2 = px) /\
  (forall e, In e q -> is_side sd e.2 = true -> no_worse sd px (os_price e.2)) /\
  qty = zsum (qty_at sd px) q.

Lemma top_first sd q e :
  (forall x, In x q -> is_side sd x.2 = false) -> is_side sd e.2 = true -> 0 <= erem e <= I64_MAX ->
  0 < os_price e.2 <= I64_MAX ->
  exists px qty, top_step sd (worst sd, 0) e.2 = (px, qty) /\ is_top sd (q ++ [e]) px qty.
Proof.
  intros Hno Es He Hpe. assert (is_top sd (q ++ [e]) (os_price e.2) (erem e)) as Ht.
  { split; [exists e; split; [apply in_app_iff; simpl; auto|done]|]. split.
    - intros x [Hx|[<-|[]]]%in_app_iff Hxs; [by rewrite Hno in Hxs|apply no_worse_refl].
    - rewrite zsum_app, qty_at_none by (intros x Hx; by rewrite Hno). simpl. unfold qty_at. rewrite Es, Z.eqb_refl. simpl. lia. }
  unfold top_step. rewrite Es. destruct (better sd (os_price e.2) (worst sd)) eqn:Eb; [eauto|].
  apply not_better in Eb. assert (os_price e.2 = worst sd) as Ew by (destruct sd; simpl in *; width_lia).
  rewrite <- Ew, Z.eqb_refl, wrap_i64_id; [eauto|]. unfold erem in *. width_lia.
Qed.

Lemma top_next sd q e px qty :
  is_top sd q px qty -> 0 <= erem e -> (forall x, In x q -> 0 <= erem x) -> zsum erem q + erem e <= I64_MAX ->
  exists px' qty', top_step sd (px, qty) e.2 = (px', qty') /\ is_top sd (q ++ [e]) px' qty'.
Proof.
  intros ((m & Hm & Hms & Hmp) & Hbest & ->) He Hnn Hsum. pose proof (qty_at_le sd px q Hnn).
  assert (forall p, (is_side sd e.2 = true -> no_worse sd p (os_price e.2)) -> p = px ->
    is_top sd (q ++ [e]) p (zsum (qty_at sd px) q + qty_at sd px e)) as Hold.
  { intros p Hp ->. split; [exists m; split; [apply in_app_iff; auto|done]|]. split.
    - intros x [Hx|[<-|[]]]%in_app_iff Hxs; auto.
    - rewrite zsum_app. simpl. lia. }
  unfold top_step. destruct (is_side sd e.2) eqn:Es.
  2: { eexists _, _. split; [reflexivity|]. specialize (Hold px ltac:(done) eq_refl).
       unfold qty_at at 2 in Hold. rewrite Es in Hold. by rewrite Z.add_0_r in Hold. }
  destruct (better sd (os_price e.2) px) eqn:Eb.
  - apply better_spec in Eb as [Eb Ene]. eexists _, _. split; [reflexivity|].
    split; [exists e; split; [apply in_app_iff; simpl; auto|done]|]. split.
    + intros x [Hx|[<-|[]]]%in_app_iff Hxs; [|apply no_worse_refl]. by eapply no_worse_trans; [|apply Hbest].
    + rewrite zsum_app, qty_at_none.
      * simpl. unfold qty_at. rewrite Es, Z.eqb_refl. simpl. fold (erem e). lia.
      * intros x Hx Hxs Hxp. apply Ene, (no_worse_antisym sd); [done|]. rewrite <- Hxp. by apply Hbest.
  - apply not_better in Eb. specialize (Hold px (fun _ => Eb) eq_refl). unfold qty_at at 2 in Hold. rewrite Es in Hold. cbn [andb] in Hold.
    destruct (os_price e.2 =? px); eexists _, _; (split; [reflexivity|]); [|by rewrite Z.add_0_r in Hold].
    fold (erem e). rewrite wrap_i64_id by width_lia. exact Hold.
Qed.

Lemma top_fold sd q :
  (forall e, In e q -> 0 <= erem e) -> zsum erem q <= I64_MAX ->
  (forall e, In e q -> 0 < os_price e.2 <= I64_MAX) ->
  (forall e, In e q -> is_side sd e.2 = false) /\ qfold (top_step sd) q (worst sd, 0) = (worst sd, 0) \/
  exists px qty, qfold (top_step sd) q (worst sd, 0) = (px, qty) /\ is_top sd q px qty.
Proof.
  induction q as [|e q IH] using rev_ind; intros Hnn Hsum Hpx; [by left|].
  rewrite zsum_app in Hsum. simpl in Hsum.
  assert (In e (q ++ [e])) as Hee by (apply in_app_iff; simpl; auto).
  assert (forall x, In x q -> In x (q ++ [e])) as Hin by (intros; apply in_app_iff; auto).
  pose proof (Hnn e Hee). pose proof (zsum_nonneg erem q (fun x Hx => Hnn x (Hin x Hx))).
  unfold qfold in *. rewrite fold_left_app. simpl.
  destruct (IH (fun x Hx => Hnn x (Hin x Hx)) ltac:(lia) (fun x Hx => Hpx x (Hin x Hx))) as [[Hno ->]|(px & qty & -> & Ht)].
  - destruct (is_side sd e.2) eqn:Es.
    + right. apply top_first; auto. lia.
    + left. split; [intros x [Hx|[<-|[]]]%in_app_iff; auto|]. unfold top_step. by rewrite Es.
  - right. apply top_next; auto. lia.
Qed.

Lemma bid_step_eq acc s : bid_top_step acc s = top_step Buy acc s.
Proof. done. Qed.
Lemma ask_step_eq acc s : ask_top_step acc s = top_step Sell acc s.
Proof. done. Qed.

Lemma linkless_top sd : linkless (top_step sd).
Proof. by intros [px qty] n p []. Qed.

(** Both directions of the slot scan, once. *)
Lemma top_at_unfold sd b tick :
  top_at sd b tick =
  if tick =? NONE then Ok (0, 0)
  else
    lvl ← vindex (active_levels b) tick;
    if (match sd with Buy => lv_bid_count lvl | Sell => lv_ask_count lvl end) =? 0 then Ok (0, 0)
    else if tick <? arr (zone_slots (compression b)) 0 then
      head ← get (orders b) (lv_head lvl);
      Ok (os_price head, lv_total_qty lvl)
    else walk_level (orders b) (top_step sd) (lv_head lvl) (worst sd, 0).
Proof. by destruct sd. Qed.

(** A slot of zone 0 holds one price. *)
Lemma zone0_one_price A fl b t e1 e2 :
  core A fl b -> t < zs mid tk 0 -> In e1 (A t) -> In e2 (A t) -> os_price e1.2 = os_price e2.2.
Proof.
  intros Hc Ht H1 H2. destruct (c_px _ _ _ Hc _ _ H1) as (P1 & M1 & I1).
  destruct (c_px _ _ _ Hc _ _ H2) as (P2 & M2 & I2).
  apply (zone0_exact mid tk Hcfg); try lia.
Qed.

(** The slot's top price is right always, its quantity when the slot is
    compressed or holds a single side. *)
Lemma top_at_spec sd A fl b t :
  core A fl b -> 0 < zsum (on_side sd) (A t) ->
  exists px qty, top_at sd b t = Ok (px, qty) /\ is_top sd (A t) px (zsum (qty_at sd px) (A t)) /\
    (zs mid tk 0 <= t \/ (forall e, In e (A t) -> is_side sd e.2 = true) -> qty = zsum (qty_at sd px) (A t)).
Proof.
  intros Hc Hpos. pose proof (proj1 (zsum_on_side_pos sd (A t)) Hpos) as (e0 & He0 & Hs0).
  pose proof (core_slot_range _ _ _ _ _ Hc He0) as Ht. pose proof (total_bounds mid tk Hcfg) as Htot.
  pose proof (c_links _ _ _ Hc) as Hl. rewrite top_at_unfold. replace (t =? NONE) with false by lia.
  rewrite (vindex_some _ _ _ (core_level _ _ _ t Hc Ht)). cbn [mbind Res_bind].
  replace (_ =? 0) with false by (destruct sd; simpl; lia). rewrite (c_map _ _ _ Hc).
  change (arr (zone_slots (the_map mid tk)) 0) with (zs mid tk 0).
  destruct (t <? zs mid tk 0) eqn:E0; bool_to_prop.
  - destruct (A t) as [|eh q] eqn:EA; [done|]. assert (In eh (A t)) as Hh by (rewrite EA; by left).
    destruct (core_get _ _ _ _ _ Hc Hh) as (n & p & Hg). cbn [lv_head level_of qhead]. rewrite Hg. cbn [mbind Res_bind].
    change (os_price (relink n p eh.2)) with (os_price eh.2). eexists _, _. split; [reflexivity|].
    assert (forall e, In e (eh :: q) -> os_price e.2 = os_price eh.2) as Hone.
    { intros e He. rewrite <- EA in He. by eapply zone0_one_price. }
    split.
    + split; [exists e0; split; [done|split; [done|by apply Hone]]|]. split; [|done].
      intros e He _. rewrite (Hone e He). apply no_worse_refl.
    + intros [Hz|Hall]; [lia|]. cbn [lv_total_qty level_of]. apply zsum_ext. intros e He.
      unfold qty_at. by rewrite (Hall e He), (Hone e He), Z.eqb_refl.
  - cbn [lv_head level_of]. rewrite (links_walk _ _ _ _ _ _ fl (linkless_top sd) Hl (c_slab _ _ _ Hc)).
    destruct (top_fold sd (A t) (lk_qty _ _ _ Hl t) (lk_sum _ _ _ Hl t)) as [[Hno _]|(px & qty & -> & Htop)].
    + intros e He. by destruct (c_px _ _ _ Hc _ _ He).
    + by rewrite (Hno e0 He0) in Hs0.
    + exists px, qty. split; [done|]. destruct Htop as (T1 & T2 & ->). done.
Qed.

(** ** Scanning for the best slot *)

(** [r] is the best occupied slot: everything else occupied is no better. *)
Definition best_slot (sd : Side) (A : ABook) (r : Z) : Prop :=
  r = NONE /\ (forall t, zsum (on_side sd) (A t) = 0) \/
  r <> NONE /\ 0 < zsum (on_side sd) (A r) /\
  forall t p e, In e (A t) -> is_side sd e.2 = true -> t <> r -> price_at r p -> no_worse sd p (os_price e.2).

Lemma band_lo_nonneg k : 0 <= k <= 9 -> 0 <= (band_range mid tk k).1.
Proof.
  intros Hk. pose proof (base_bounds mid tk Hcfg 0 ltac:(lia)) as (? & _ & _). pose proof (base_bounds mid tk Hcfg 1 ltac:(lia)) as (? & _ & _).
  pose proof (base_bounds mid tk Hcfg 2 ltac:(lia)) as (? & _ & _). pose proof (base_bounds mid tk Hcfg 3 ltac:(lia)) as (? & E3 & _).
  change (3 + 1) with 4 in E3. pose proof (zs_nonneg mid tk Hcfg 0). pose proof (zs_nonneg mid tk Hcfg 1). pose proof (zs_nonneg mid tk Hcfg 2). pose proof (zs_nonneg mid tk Hcfg 3).
  pose proof (Z.div_pos (zs mid tk 0) 2 ltac:(lia) ltac:(lia)). pose proof (Z.div_pos (zs mid tk 1) 2 ltac:(lia) ltac:(lia)).
  pose proof (Z.div_pos (zs mid tk 2) 2 ltac:(lia) ltac:(lia)). pose proof (Z.div_pos (zs mid tk 3) 2 ltac:(lia) ltac:(lia)).
  assert (k = 0 \/ k = 1 \/ k = 2 \/ k = 3 \/ k = 4 \/ k = 5 \/ k = 6 \/ k = 7 \/ k = 8 \/ k = 9) as Hkk by lia.
  intuition subst; cbn [band_range fst]; lia.
Qed.

Lemma scan_bid_spec o ks :
  occ_inv o -> (forall k, In k ks -> 0 <= k <= 9) -> StronglySorted Z.gt ks ->
  exists r, scan_bid_ranges o (map (band_range mid tk) ks) = Ok r /\
   ((r = NONE /\ forall k j, In k ks -> (band_range mid tk k).1 <= j < (band_range mid tk k).2 -> mem o j = false) \/
    (mem o r = true /\ exists k, In k ks /\ (band_range mid tk k).1 <= r < (band_range mid tk k).2 /\
      (forall j, r < j < (band_range mid tk k).2 -> mem o j = false) /\
      forall k' j, In k' ks -> k < k' -> (band_range mid tk k').1 <= j < (band_range mid tk k').2 -> mem o j = false)).
Proof.
  intros Hi. induction ks as [|k ks IH]; intros Hk Hs; [exists NONE; split; [done|]; left; split; [done|]; by intros ? ? []|].
  apply StronglySorted_inv in Hs as [Hs Hall]. rewrite Forall_forall in Hall.
  cbn [map scan_bid_ranges]. destruct (band_range mid tk k) as [lo hi] eqn:Ek.
  pose proof (band_lo_nonneg k (Hk k (or_introl eq_refl))) as Hlo. rewrite Ek in Hlo.
  destruct (find_last_in_spec o lo hi Hi Hlo) as ([r|] & Er & Hr); rewrite Er; cbn [mbind Res_bind]; cbn in Hr.
  - destruct Hr as (H1 & H2 & H3). exists r. split; [done|]. right. split; [done|]. exists k. rewrite Ek.
    split; [by left|]. split; [cbn; lia|]. split.
    + intros j Hj. destruct (mem o j) eqn:Em; [|done]. cbn in Hj. pose proof (H3 j ltac:(lia) Em). lia.
    + intros k' j [<-|Hk'] Hlt; [lia|]. specialize (Hall k' ltac:(by apply list_elem_of_In)). lia.
  - destruct IH as (r & E & Hcase); [intros; apply Hk; by right|done|]. exists r. split; [done|].
    assert (forall j, lo <= j < hi -> mem o j = false) as Hnone.
    { intros j Hj. destruct (mem o j) eqn:Em; [|done]. by destruct (Hr j Hj Em). }
    destruct Hcase as [[-> Hn]|(Hm & k2 & Hin & Hr2 & Hj2 & Hk2)]; [left|right].
    + split; [done|]. intros k' j [<-|Hk'] Hj; [rewrite Ek in Hj; by apply Hnone|by apply (Hn k')].
    + split; [done|]. exists k2. split; [by right|]. split; [done|]. split; [done|].
      intros k' j [<-|Hk'] Hlt Hj; [rewrite Ek in Hj; by apply Hnone|by apply (Hk2 k')].
Qed.

Lemma scan_ask_spec o ks :
  occ_inv o -> (forall k, In k ks -> 0 <= k <= 9) -> StronglySorted Z.lt ks ->
  exists r, scan_ask_ranges o (map (band_range mid tk) ks) = Ok r /\
   ((r = NONE /\ forall k j, In k ks -> (band_range mid tk k).1 <= j < (band_range mid tk k).2 -> mem o j = false) \/
    (mem o r = true /\ exists k, In k ks /\ (band_range mid tk k).1 <= r < (band_range mid tk k).2 /\
      (forall j, (band_range mid tk k).1 <= j < r -> mem o j = false) /\
      forall k' j, In k' ks -> k' < k -> (band_range mid tk k').1 <= j < (band_range mid tk k').2 -> mem o j = false)).
Proof.
  intros Hi. induction ks as [|k ks IH]; intros Hk Hs; [exists NONE; split; [done|]; left; split; [done|]; by intros ? ? []|].
  apply StronglySorted_inv in Hs as [Hs Hall]. rewrite Forall_forall in Hall.
  cbn [map scan_ask_ranges]. destruct (band_range mid tk k) as [lo hi] eqn:Ek.
  pose proof (band_lo_nonneg k (Hk k (or_introl eq_refl))) as Hlo. rewrite Ek in Hlo.
  destruct (find_first_in_spec o lo hi Hi Hlo) as ([r|] & Er & Hr); rewrite Er; cbn [mbind Res_bind]; cbn in Hr.
  - destruct Hr as (H1 & H2 & H3). exists r. split; [done|]. right. split; [done|]. exists k. rewrite Ek.
    split; [by left|]. split; [cbn; lia|]. split.
    + intros j Hj. destruct (mem o j) eqn:Em; [|done]. cbn in Hj. pose proof (H3 j ltac:(lia) Em). lia.
    + intros k' j [<-|Hk'] Hlt; [lia|]. specialize (Hall k' ltac:(by apply list_elem_of_In)). lia.
  - destruct IH as (r & E & Hcase); [intros; apply Hk; by right|done|]. exists r. split; [done|].
    assert (forall j, lo <= j < hi -> mem o j = false) as Hnone.
    { intros j Hj. destruct (mem o j) eqn:Em; [|done]. by destruct (Hr j Hj Em). }
    destruct Hcase as [[-> Hn]|(Hm & k2 & Hin & Hr2 & Hj2 & Hk2)]; [left|right].
    + split; [done|]. intros k' j [<-|Hk'] Hj; [rewrite Ek in Hj; by apply Hnone|by apply (Hn k')].
    + split; [done|]. exists k2. split; [by right|]. split; [done|]. split; [done|].
      intros k' j [<-|Hk'] Hlt Hj; [rewrite Ek in Hj; by apply Hnone|by apply (Hk2 k')].
Qed.

Lemma in_bands k : In k (zrange 0 10) <-> 0 <= k <= 9.
Proof. rewrite in_zrange. lia. Qed.

Lemma sorted_up : StronglySorted Z.lt (zrange 0 10).
Proof. vm_compute. repeat first [apply SSorted_nil | apply SSorted_cons; [|repeat first [apply Forall_nil_2 | apply Forall_cons_2; [done|]]]]. Qed.

Lemma sorted_down : StronglySorted Z.gt (reverse (zrange 0 10)).
Proof. vm_compute. repeat first [apply SSorted_nil | apply SSorted_cons; [|repeat first [apply Forall_nil_2 | apply Forall_cons_2; [done|]]]]. Qed.

Definition scan_next (sd : Side) (b : Orderbook) : Res Z :=
  match sd with Buy => scan_next_bid b | Sell => scan_next_ask b end.

(** An entry's slot is marked and lies in its band. *)
Lemma entry_marked sd o A fl b t e :
  core A fl b -> occ_ok sd o A -> In e (A t) -> is_side sd e.2 = true ->
  mem o t = true /\ 0 <= band mid (os_price e.2) <= 9 /\
  (band_range mid tk (band mid (os_price e.2))).1 <= t < (band_range mid tk (band mid (os_price e.2))).2.
Proof.
  intros Hc (_ & _ & Hm) He Hs. destruct (c_px _ _ _ Hc _ _ He) as (Hp & _ & <-).
  split; [apply Hm, zsum_on_side_pos; eauto|]. split; [apply band_bounds|]. apply idx_in_band; [done|done|lia].
Qed.

Lemma marked_found sd o A r : occ_ok sd o A -> mem o r = true -> r <> NONE /\ 0 < zsum (on_side sd) (A r).
Proof.
  intros Ho Hm. pose proof (total_bounds mid tk Hcfg). split; [|by apply Ho].
  destruct Ho as (Hi & Hn & _). pose proof (mem_range o r Hi Hm). lia.
Qed.

Lemma unmarked_empty sd o A fl b :
  core A fl b -> occ_ok sd o A ->
  (forall k j, 0 <= k <= 9 -> (band_range mid tk k).1 <= j < (band_range mid tk k).2 -> mem o j = false) ->
  forall t, zsum (on_side sd) (A t) = 0.
Proof.
  intros Hc Ho Hn t. apply zsum_on_side_zero. intros e He. destruct (is_side sd e.2) eqn:Es; [|done].
  destruct (entry_marked sd o A fl b t e Hc Ho He Es) as (Hm & Hb & Hr). by rewrite (Hn _ t Hb Hr) in Hm.
Qed.

Lemma scan_next_bid_spec A fl b : core A fl b -> exists r, scan_next_bid b = Ok r /\ best_slot Buy A r.
Proof.
  intros Hc. unfold scan_next_bid. rewrite (c_asc _ _ _ Hc). unfold bands.
  replace (reverse (map (band_range mid tk) (zrange 0 10))) with (map (band_range mid tk) (reverse (zrange 0 10))) by reflexivity.
  pose proof (c_bid _ _ _ Hc) as Ho. pose proof Ho as (Hi & _ & _).
  assert (forall k, In k (reverse (zrange 0 10)) <-> 0 <= k <= 9) as Hin.
  { intros k. rewrite <- in_bands, <- !list_elem_of_In, elem_of_reverse. done. }
  destruct (scan_bid_spec (bid_occ b) _ Hi (fun k => proj1 (Hin k)) sorted_down) as (r & E & Hcase).
  exists r. split; [done|]. destruct Hcase as [[-> Hn]|(Hm & k & Hk & Hr & Hj & Hkk)].
  { left. split; [done|]. apply (unmarked_empty _ _ _ _ _ Hc Ho). intros k j Hk. by apply Hn, Hin. }
  right. destruct (marked_found _ _ _ _ Ho Hm) as [Hr1 Hr2]. split; [done|]. split; [done|].
  intros t p e He Hs Hne (Hp & _ & Hpi). destruct (entry_marked Buy _ A fl b t e Hc Ho He Hs) as (Hmt & Hbt & Hrt).
  destruct (c_px _ _ _ Hc _ _ He) as (Hpe & _ & Hie). simpl. apply Z.nlt_ge. intros Hlt.
  assert (k = band mid p) as -> by (apply (slot_band mid tk Hcfg Hspread); [lia|by apply Hin|by rewrite Hpi]).
  destruct (walk_order mid tk Hcfg p (os_price e.2) ltac:(lia)) as [Hw|[Hw Hidx]].
  - rewrite (Hkk (band mid (os_price e.2)) t) in Hmt; try done. by apply Hin.
  - rewrite Hpi, Hie in Hidx. rewrite <- Hw in Hrt. rewrite Hj in Hmt; [done|lia].
Qed.

Lemma scan_next_ask_spec A fl b : core A fl b -> exists r, scan_next_ask b = Ok r /\ best_slot Sell A r.
Proof.
  intros Hc. unfold scan_next_ask. rewrite (c_asc _ _ _ Hc). unfold bands.
  pose proof (c_ask _ _ _ Hc) as Ho. pose proof Ho as (Hi & _ & _).
  destruct (scan_ask_spec (ask_occ b) _ Hi (fun k => proj1 (in_bands k)) sorted_up) as (r & E & Hcase).
  exists r. split; [done|]. destruct Hcase as [[-> Hn]|(Hm & k & Hk & Hr & Hj & Hkk)].
  { left. split; [done|]. apply (unmarked_empty _ _ _ _ _ Hc Ho). intros k j Hk. by apply Hn, in_bands. }
  right. destruct (marked_found _ _ _ _ Ho Hm) as [Hr1 Hr2]. split; [done|]. split; [done|].
  intros t p e He Hs Hne (Hp & _ & Hpi). destruct (entry_marked Sell _ A fl b t e Hc Ho He Hs) as (Hmt & Hbt & Hrt).
  destruct (c_px _ _ _ Hc _ _ He) as (Hpe & _ & Hie). simpl. apply Z.nlt_ge. intros Hlt.
  assert (k = band mid p) as -> by (apply (slot_band mid tk Hcfg Hspread); [lia|by apply in_bands|by rewrite Hpi]).
  destruct (walk_order mid tk Hcfg (os_price e.2) p ltac:(lia)) as [Hw|[Hw Hidx]].
  - rewrite (Hkk (band mid (os_price e.2)) t) in Hmt; try done. by apply in_bands.
  - rewrite Hpi, Hie in Hidx. rewrite Hw in Hrt. rewrite Hj in Hmt; [done|lia].
Qed.

(** ** The cached best *)

(** [tick] and [px] are the best slot and price of side [sd]. *)
Definition best_ok (sd : Side) (A : ABook) (tick px : Z) : Prop :=
  tick = NONE /\ px = 0 /\ (forall t e, In e (A t) -> is_side sd e.2 = false) \/
  tick <> NONE /\ (exists e, In e (A tick) /\ is_side sd e.2 = true /\ os_price e.2 = px) /\
  (forall t e, In e (A t) -> is_side sd e.2 = true -> no_worse sd px (os_price e.2)).

Definition refresh (sd : Side) (b : Orderbook) : Res Orderbook :=
  match sd with Buy => refresh_best_bid b | Sell => refresh_best_ask b end.
Definition set_best_of (sd : Side) (b : Orderbook) (tick px : Z) : Orderbook :=
  match sd with Buy => set_best_bid b tick px | Sell => set_best_ask b tick px end.
Definition best_tick (sd : Side) (b : Orderbook) : Z :=
  match sd with Buy => best_bid_tick b | Sell => best_ask_tick b end.
Definition best_px (sd : Side) (b : Orderbook) : Z :=
  match sd with Buy => best_bid_px b | Sell => best_ask_px b end.

(** A refresh finds the true best from the bitmaps alone. *)
Lemma refresh_spec sd A fl b :
  core A fl b -> exists tick px, refresh sd b = Ok (set_best_of sd b tick px) /\ best_ok sd A tick px.
Proof.
  intros Hc. assert (exists r, scan_next sd b = Ok r /\ best_slot sd A r) as (r & Es & Hr)
    by (destruct sd; [by eapply scan_next_bid_spec|by eapply scan_next_ask_spec]).
  assert (forall px qty, top_at sd b r = Ok (px, qty) -> refresh sd b = Ok (set_best_of sd b r px)) as Hrun.
  { intros px qty E. destruct sd; simpl in *; [unfold refresh_best_bid|unfold refresh_best_ask];
      rewrite Es; cbn [mbind Res_bind]; rewrite E; done. }
  destruct Hr as [[-> Hn]|(Hne & Hpos & Hbest)].
  - exists NONE, 0. split; [apply (Hrun 0 0); destruct sd; done|]. left. split; [done|]. split; [done|].
    intros t e He. by apply (proj1 (zsum_on_side_zero sd (A t))).
  - destruct (top_at_spec sd A fl b r Hc Hpos) as (px & qty & E & ((m & Hm & Hms & Hmp) & Htop & _) & _).
    exists r, px. split; [by eapply Hrun|]. right. split; [done|]. split; [eauto|]. intros t e He Hs.
    destruct (Z.eq_dec t r) as [->|Htr]; [by apply Htop|]. eapply Hbest; try done.
    rewrite <- Hmp. by apply Hc.
Qed.

(** ** Sums over the whole book *)

Definition book_sum (f : Entry -> Z) (A : ABook) : Z := zsum (fun t => zsum f (A t)) (zrange 0 (total mid tk)).

Lemma zsum_point (g : Z -> Z) t v l :
  NoDup l -> In t l -> zsum (fun x => if x =? t then v else g x) l = zsum g l - g t + v.
Proof.
  induction l as [|x l IH]; intros Hnd; [done|]. apply NoDup_cons in Hnd as [Hx Hnd]. rewrite list_elem_of_In in Hx.
  simpl. intros [->|Hin].
  - rewrite Z.eqb_refl. rewrite (zsum_ext _ g); [lia|]. intros y Hy. by replace (y =? t) with false by (symmetry; apply Z.eqb_neq; congruence).
  - rewrite IH by done. replace (x =? t) with false by (symmetry; apply Z.eqb_neq; congruence). lia.
Qed.

Lemma book_sum_upd f A t q :
  0 <= t < total mid tk -> book_sum f (upd A t q) = book_sum f A - zsum f (A t) + zsum f q.
Proof.
  intros Ht. unfold book_sum. rewrite <- (zsum_point (fun x => zsum f (A x)) t (zsum f q));
    [|apply zrange_nodup|by apply in_zrange].
  apply zsum_ext. intros x _. unfold upd. by destruct (x =? t).
Qed.

Lemma all_handles_nodup os lv A ts :
  links os lv A -> NoDup ts -> NoDup (flat_map (fun t => handles (A t)) ts).
Proof.
  intros Hl. induction ts as [|t ts IH]; intros Hnd; [constructor|]. apply NoDup_cons in Hnd as [Ht Hnd]. simpl.
  apply NoDup_app. split; [apply Hl|]. split; [|by apply IH]. intros h Hh Hh2. apply Ht.
  apply list_elem_of_In in Hh, Hh2. apply in_flat_map in Hh2 as (t' & Ht' & Hh2).
  apply in_map_iff in Hh as ([h1 s1] & <- & H1). apply in_map_iff in Hh2 as ([h2 s2] & E & H2). simpl in E. subst h2.
  destruct (links_inj _ _ _ _ _ _ _ _ Hl H1 H2) as [-> _]. by apply list_elem_of_In.
Qed.

Lemma zsum_count_le f (q : list Entry) : (forall e, f e <= 1) -> zsum f q <= zlen q.
Proof. intros Hf. induction q as [|e q IH]; [done|]. unfold zlen in *. simpl. pose proof (Hf e). lia. Qed.

(** No more orders than slots. *)
Lemma book_sum_count f A fl b : core A fl b -> (forall e, f e <= 1) -> book_sum f A <= zlen (slots (orders b)).
Proof.
  intros Hc Hf. pose proof (c_links _ _ _ Hc) as Hl.
  pose proof (all_handles_nodup _ _ _ (zrange 0 (total mid tk)) Hl (zrange_nodup _ _)) as Hnd.
  apply (nodup_range_length _ (zlen (slots (orders b)))) in Hnd.
  - transitivity (zlen (flat_map (fun t => handles (A t)) (zrange 0 (total mid tk)))).
    + unfold book_sum. clear Hnd. induction (zrange 0 (total mid tk)) as [|t ts IH]; [done|].
      cbn [flat_map]. rewrite zlen_app. change (zsum ?g (t :: ts)) with (g t + zsum g ts). cbn beta.
      pose proof (zsum_count_le f (A t) Hf). assert (zlen (handles (A t)) = zlen (A t)) by (unfold zlen, handles; by rewrite length_map). lia.
    + unfold zlen in *. lia.
  - intros h (t & _ & Hh)%in_flat_map. by apply (seg_range _ _ _ _ _ (lk_seg _ _ _ Hl t)).
Qed.

Definition by_user (u : Z) (e : Entry) : Z := if os_user e.2 =? u then 1 else 0.

Lemma by_user_le u e : by_user u e <= 1.
Proof. unfold by_user. case_if; lia. Qed.

Lemma by_user_nonneg u e : 0 <= by_user u e.
Proof. unfold by_user. case_if; lia. Qed.

Lemma book_sum_nonneg f A : (forall e, 0 <= f e) -> 0 <= book_sum f A.
Proof. intros Hf. apply zsum_nonneg. intros t _. by apply zsum_nonneg. Qed.

(** ** The invariant *)

Record book_inv (A : ABook) (fl : list Z) (b : Orderbook) : Prop := {
  bk_core : core A fl b;
  bk_queued : forall h, live (orders b) fl h -> exists t s, In (h, s) (A t);
  bk_dead : forall h s, vget (slots (orders b)) h = Some s -> ~ live (orders b) fl h -> is_active s = false;
  bk_order : forall t e, In e (A t) -> is_active e.2 = true /\ 0 < erem e;
  bk_best : forall sd, best_ok sd A (best_tick sd b) (best_px sd b);
  bk_reg : reg_inv (users b);
  bk_users : forall u, orders_of (users b) u = book_sum (by_user u) A;
}.

Lemma orders_of_range A fl b u : core A fl b -> orders_of (users b) u = book_sum (by_user u) A ->
  0 <= orders_of (users b) u <= zlen (slots (orders b)).
Proof.
  intros Hc ->. split; [apply book_sum_nonneg, by_user_nonneg|]. eapply book_sum_count; [done|apply by_user_le].
Qed.

(** The fields no resting-order operation touches. *)
Definition keeps (b b' : Orderbook) : Prop :=
  staging_levels b' = staging_levels b /\ compression b' = compression b /\ price_asc b' = price_asc b /\
  state b' = state b /\ config b' = config b /\ event_buf b' = event_buf b /\ old_levels b' = old_levels b /\
  old_compression b' = old_compression b.

Lemma keeps_refl b : keeps b b.
Proof. by repeat split. Qed.

Lemma keeps_trans b1 b2 b3 : keeps b1 b2 -> keeps b2 b3 -> keeps b1 b3.
Proof. unfold keeps. intuition congruence. Qed.

(** ** Inserting *)

Lemma best_ok_other sd A t e tick px :
  best_ok sd A tick px -> is_side sd e.2 = false -> best_ok sd (upd A t (A t ++ [e])) tick px.
Proof.
  intros [(-> & -> & Hn)|(Hne & (m & Hm & Hms & Hmp) & Hb)] He; [left|right].
  - split; [done|]. split; [done|]. intros t' x [Hx|[-> ->]]%in_upd_snoc; eauto.
  - split; [done|]. split; [exists m; split; [apply in_upd_snoc; by left|done]|].
    intros t' x [Hx|[-> ->]]%in_upd_snoc Hs; [eauto|congruence].
Qed.

Lemma best_ok_push sd A t (e : Entry) tick px :
  best_ok sd A tick px -> is_side sd e.2 = true -> t <> NONE ->
  let A' := upd A t (A t ++ [e]) in
  if (tick =? NONE) || better sd (os_price e.2) px then best_ok sd A' t (os_price e.2) else best_ok sd A' tick px.
Proof.
  intros Hb He Ht A'. assert (In e (A' t)) as Hin by (apply in_upd_snoc; auto).
  destruct (tick =? NONE) eqn:En; bool_to_prop; simpl.
  - right. split; [done|]. split; [eauto|]. destruct Hb as [(_ & _ & Hn)|(? & _)]; [|done].
    intros t' x [Hx|[-> ->]]%in_upd_snoc Hs; [by rewrite (Hn t' x Hx) in Hs|apply no_worse_refl].
  - destruct Hb as [(? & _)|(_ & (m & Hm & Hms & Hmp) & Hbest)]; [done|].
    destruct (better sd (os_price e.2) px) eqn:Eb; right; (split; [done|]).
    + apply better_spec in Eb as [Eb _]. split; [eauto|].
      intros t' x [Hx|[-> ->]]%in_upd_snoc Hs; [|apply no_worse_refl]. by eapply no_worse_trans; [|eapply Hbest].
    + apply not_better in Eb. split; [exists m; split; [apply in_upd_snoc; by left|done]|].
      intros t' x [Hx|[-> ->]]%in_upd_snoc Hs; eauto.
Qed.

Lemma improve_best_eq b sd tick price :
  improve_best b sd tick price =
    if (best_tick sd b =? NONE) || better sd price (best_px sd b) then set_best_of sd b tick price else b.
Proof. by destruct sd. Qed.

Lemma improve_best_spec b0 b A sd t e :
  (forall sd, best_ok sd A (best_tick sd b0) (best_px sd b0)) -> is_side sd e.2 = true ->
  (forall sd', sd' <> sd -> is_side sd' e.2 = false) -> t <> NONE ->
  (forall sd', best_tick sd' b = best_tick sd' b0) -> (forall sd', best_px sd' b = best_px sd' b0) ->
  let b' := improve_best b sd t (os_price e.2) in
  forall sd', best_ok sd' (upd A t (A t ++ [e])) (best_tick sd' b') (best_px sd' b').
Proof.
  intros Hb He Hother Ht Etick Epx b' sd'. unfold b'. rewrite improve_best_eq, Etick, Epx.
  pose proof (best_ok_push sd A t e _ _ (Hb sd) He Ht) as Hpush. simpl in Hpush.
  destruct (decide (sd' = sd)) as [->|Hne].
  - destruct ((best_tick sd b0 =? NONE) || better sd (os_price e.2) (best_px sd b0)).
    + destruct sd; exact Hpush.
    + by rewrite Etick, Epx.
  - assert (best_ok sd' (upd A t (A t ++ [e])) (best_tick sd' b) (best_px sd' b)) as Hk
      by (rewrite Etick, Epx; apply best_ok_other; auto).
    case_if; [|done]. destruct sd, sd'; done.
Qed.

Lemma resting_active b price qty side tif user ro ts oh ol :
  is_active (resting_slot b price qty side tif user ro ts oh ol) = true.
Proof. by destruct ro. Qed.

Lemma side_neq sd sd' : sd <> sd' -> (side_u8 sd' =? side_u8 sd) = false.
Proof. by destruct sd, sd'. Qed.

Lemma improve_best_fields b sd t p :
  let b' := improve_best b sd t p in
  orders b' = orders b /\ active_levels b' = active_levels b /\ bid_occ b' = bid_occ b /\ ask_occ b' = ask_occ b /\
  users b' = users b /\ keeps b b'.
Proof. simpl. rewrite improve_best_eq. case_if; destruct sd; by repeat split. Qed.

Lemma core_ext A fl b b' :
  core A fl b -> orders b' = orders b -> active_levels b' = active_levels b -> bid_occ b' = bid_occ b ->
  ask_occ b' = ask_occ b -> compression b' = compression b -> price_asc b' = price_asc b -> core A fl b'.
Proof. intros [] E1 E2 E3 E4 E5 E6. split; rewrite ?E1, ?E2, ?E3, ?E4, ?E5, ?E6; done. Qed.

Lemma insert_resting_spec A fl b price qty side tif user ro ts oh ol :
  book_inv A fl b -> has_room (orders b) fl -> room_for (users b) user ->
  0 < price <= I64_MAX -> price mod tk = 0 -> 0 < qty ->
  zsum erem (A (idx mid tk price)) + qty <= I64_MAX ->
  let t := idx mid tk price in
  let s := resting_slot b price qty side tif user ro ts oh ol in
  exists h fl' b', insert_resting b price qty side tif user ro ts oh ol = Ok (h, b') /\
    book_inv (upd A t (A t ++ [(h, s)])) fl' b' /\ keeps b b' /\ ~ live (orders b) fl h /\
    (forall x, live (orders b') fl' x <-> live (orders b) fl x \/ x = h) /\
    (forall u, net_of (users b') u = net_of (users b) u) /\ total_net (users b') = total_net (users b).
Proof.
  intros Hi Hroom Hur Hp Hal Hq Hsum t s. pose proof (bk_core _ _ _ Hi) as Hc.
  destruct (insert_core A fl b price qty side tif user ro ts oh ol Hc Hroom Hp Hal ltac:(lia) Hsum)
    as (h & fl' & b1 & E & Hc1 & Eb1 & Hnl & Hlive & Hlen & Hsame). fold t s in E, Hc1, Hsame.
  pose proof (price_slot price Hp) as Ht. fold t in Ht. pose proof (total_bounds mid tk Hcfg) as Htot.
  assert (forall u, book_sum (by_user u) (upd A t (A t ++ [(h, s)])) = book_sum (by_user u) A + by_user u (h, s)) as Hcount.
  { intros u. rewrite book_sum_upd, zsum_app by done. simpl. lia. }
  assert (0 <= orders_of (users b) user < U32_MAX) as Hou.
  { rewrite (bk_users _ _ _ Hi). split; [apply book_sum_nonneg, by_user_nonneg|].
    pose proof (book_sum_count (by_user user) _ _ _ Hc1 (by_user_le user)) as Hle. rewrite Hcount in Hle.
    unfold by_user at 2 in Hle. simpl in Hle. rewrite Z.eqb_refl in Hle. pose proof (si_cap _ _ (c_slab _ _ _ Hc1)) as Hcap.
    unfold NONE in Hcap. width_lia. }
  destruct (add_order_spec (users b) user (bk_reg _ _ _ Hi) Hur Hou) as (u & Eu & Hreg & Ho & Hn & Hoth & Htn).
  rewrite E, Eu. cbn [mbind Res_bind]. pose proof (improve_best_fields b1 side t price) as (F1 & F2 & F3 & F4 & F5 & F6). cbn zeta in *.
  exists h, fl', (set_users (improve_best b1 side t price) u). split; [done|].
  assert (forall v, net_of u v = net_of (users b) v) as Hnet.
  { intros v. destruct (Z.eq_dec v user) as [->|Hv]; [done|]. unfold net_of. by rewrite Hoth. }
  split; [|split; [|split; [done|split; [by cbn; rewrite F1|done]]]].
  2: { eapply keeps_trans; [|exact F6]. rewrite Eb1. by repeat split. }
  split.
  - apply (core_ext _ _ b1); cbn; try done; apply F6.
  - intros x. cbn. rewrite F1. intros [Hx| ->]%Hlive.
    + destruct (bk_queued _ _ _ Hi x Hx) as (t' & s' & Hin). exists t', s'. apply in_upd_snoc. by left.
    + exists t, s. apply in_upd_snoc. by right.
  - intros x sx. cbn. rewrite F1. intros Hx Hnx. apply (bk_dead _ _ _ Hi x); [|intros Hl; apply Hnx, Hlive; by left].
    rewrite <- Hx. symmetry. apply Hsame. unfold handles. rewrite map_app.
    intros [(e & <- & He)%in_map_iff|[<-|[]]]%in_app_iff; apply Hnx, Hlive; [left; by apply (c_live _ _ _ Hc t)|by right].
  - intros t' e [He|[-> ->]]%in_upd_snoc; [by apply (bk_order _ _ _ Hi t')|]. split; [apply resting_active|done].
  - intros sd'. apply (improve_best_spec b b1 A side t (h, s)); try done.
    + apply (bk_best _ _ _ Hi).
    + apply Z.eqb_refl.
    + intros sd2 Hne. by apply side_neq.
    + lia.
    + intros []; by rewrite Eb1.
    + intros []; by rewrite Eb1.
  - done.
  - intros v. cbn. rewrite Hcount, <- (bk_users _ _ _ Hi). unfold by_user. simpl. destruct (Z.eq_dec v user) as [->|Hv].
    + by rewrite Ho, Z.eqb_refl.
    + replace (user =? v) with false by lia. unfold orders_of. rewrite Hoth by done. lia.
Qed.

(** ** Retiring a slot *)

Lemma links_same os lv A os' :
  links os lv A -> (forall t e, In e (A t) -> vget (slots os') e.1 = vget (slots os) e.1) -> links os' lv A.
Proof.
  intros [l1 l2 l3 l4 l5 l6 l7 l8] Hsame. split; try done. intros t.
  apply (seg_ext (slots os)); [|done]. intros h (e & <- & He)%in_map_iff. by eapply Hsame.
Qed.

Lemma inactive_after s n : is_active (os_with_next n (set_active false s)) = false.
Proof.
  unfold is_active, set_active. cbn -[Z.land Z.lxor]. rewrite <- Z.land_assoc.
  change (Z.land (Z.lxor U8_MAX ORDER_ACTIVE) ORDER_ACTIVE) with 0. by rewrite Z.land_0_r.
Qed.

Lemma retire_spec A fl b h :
  core A fl b -> live (orders b) fl h -> (forall t, ~ In h (handles (A t))) ->
  exists os1 os2, update (orders b) h (set_active false) = Ok os1 /\ free os1 h = Ok os2 /\
    core A (h :: fl) (set_orders b os2) /\
    (forall x, live os2 (h :: fl) x <-> live (orders b) fl x /\ x <> h) /\
    (forall x, x <> h -> vget (slots os2) x = vget (slots (orders b)) x) /\
    (forall s, vget (slots os2) h = Some s -> is_active s = false) /\
    zlen (slots os2) = zlen (slots (orders b)).
Proof.
  intros Hc Hlive Hnin. pose proof (c_slab _ _ _ Hc) as Hi. pose proof (si_bump _ _ Hi) as Hb.
  destruct (vget_is_some (slots (orders b)) h ltac:(destruct Hlive; lia)) as [s Hs].
  destruct (update_frame (orders b) h (set_active false) s Hs) as (os1 & E1 & G1 & F1).
  assert (slab_inv os1 fl) as Hi1 by (eapply frame_slab; [exact F1| |done]; intros x Hx ->; by destruct Hlive).
  destruct (free_spec os1 fl h Hi1) as (os2 & E2 & Hi2 & Hb2 & Hl2 & Hs2).
  { destruct Hlive. split; [|done]. by rewrite (fr_bump _ _ _ F1). }
  specialize (Hs2 _ G1). pose proof (vget_some_range _ _ _ G1) as Hr1.
  assert (forall x, x <> h -> vget (slots os2) x = vget (slots (orders b)) x) as Hsame.
  { intros x Hx. rewrite Hs2, vget_vput_ne by congruence. by apply F1. }
  exists os1, os2. split; [done|]. split; [done|].
  assert (forall x, live os2 (h :: fl) x <-> live (orders b) fl x /\ x <> h) as Hlv.
  { intros x. unfold live. rewrite Hb2, (fr_bump _ _ _ F1). simpl. intuition congruence. }
  split; [|split; [done|split; [done|split]]].
  - assert (forall t e, In e (A t) -> e.1 <> h) as Hne.
    { intros t e He <-. apply (Hnin t). by apply in_map. }
    destruct Hc as [c1 c2 c3 c4 c5 c6 c7 c8 c9]. split; cbn; try done.
    + eapply links_same; [exact c5|]. intros t e He. apply Hsame. by eapply Hne.
    + intros t e He. apply Hlv. split; [by eapply c6|by eapply Hne].
  - intros s2. rewrite Hs2, vget_vput_eq by done. intros [= <-]. apply inactive_after.
  - by rewrite Hl2, (fr_len _ _ _ F1).
Qed.

(** ** Cancelling *)

Lemma in_upd_drop A t q1 (e x : Entry) q2 t' :
  A t = q1 ++ e :: q2 -> In x (upd A t (q1 ++ q2) t') -> In x (A t').
Proof.
  intros Et. unfold upd. destruct (t' =? t) eqn:E; bool_to_prop; [|done]. subst. rewrite Et. apply in_mid.
Qed.

Lemma in_upd_keep A t q1 (e x : Entry) q2 t' :
  A t = q1 ++ e :: q2 -> In x (A t') -> x <> e \/ t' <> t -> In x (upd A t (q1 ++ q2) t').
Proof.
  intros Et Hx Hne. unfold upd. destruct (t' =? t) eqn:E; bool_to_prop; [|done]. subst.
  rewrite Et in Hx. apply in_app_iff in Hx. simpl in Hx. apply in_app_iff. intuition congruence.
Qed.

(** Removing an order keeps a best that it does not carry. *)
Lemma best_ok_drop sd A t q1 (e : Entry) q2 tick px :
  best_ok sd A tick px -> A t = q1 ++ e :: q2 -> is_side sd e.2 = false \/ t <> tick ->
  best_ok sd (upd A t (q1 ++ q2)) tick px.
Proof.
  intros [(-> & -> & Hn)|(Hne & (m & Hm & Hms & Hmp) & Hb)] Et Hcase; [left|right].
  - split; [done|]. split; [done|]. intros t' x Hx. eapply (Hn t'), in_upd_drop; eauto.
  - split; [done|]. split.
    + exists m. split; [|done]. eapply in_upd_keep; [done|done|]. destruct Hcase; [left; congruence|right; congruence].
    + intros t' x Hx. apply (Hb t'). by eapply in_upd_drop.
Qed.

Lemma set_best_fields sd b tick px :
  let b' := set_best_of sd b tick px in
  orders b' = orders b /\ active_levels b' = active_levels b /\ bid_occ b' = bid_occ b /\ ask_occ b' = ask_occ b /\
  users b' = users b /\ keeps b b' /\ best_tick sd b' = tick /\ best_px sd b' = px /\
  (forall sd', sd' <> sd -> best_tick sd' b' = best_tick sd' b /\ best_px sd' b' = best_px sd' b).
Proof. destruct sd; repeat split; by destruct sd'. Qed.

(** The refresh step of a cancel: the book's best is right again. *)
Lemma refresh_if_spec sd A A' fl b t q1 (e : Entry) q2 :
  core A' fl b -> A t = q1 ++ e :: q2 -> A' = upd A t (q1 ++ q2) ->
  os_side e.2 = side_u8 sd ->
  (forall sd, best_ok sd A (best_tick sd b) (best_px sd b)) ->
  exists b', (if t =? best_tick sd b then refresh sd b else Ok b) = Ok b' /\ core A' fl b' /\
    orders b' = orders b /\ users b' = users b /\ keeps b b' /\
    (forall sd, best_ok sd A' (best_tick sd b') (best_px sd b')).
Proof.
  intros Hc Et -> Hside Hbest.
  assert (forall sd', sd' <> sd -> is_side sd' e.2 = false) as Hoth.
  { intros sd' Hne. unfold is_side. rewrite Hside. by apply side_neq. }
  destruct (t =? best_tick sd b) eqn:Eb; bool_to_prop.
  - destruct (refresh_spec sd _ fl b Hc) as (tick & px & E & Hb).
    pose proof (set_best_fields sd b tick px) as (F1 & F2 & F3 & F4 & F5 & F6 & F7 & F8 & F9). cbn zeta in *.
    exists (set_best_of sd b tick px). split; [done|].
    split; [apply (core_ext _ _ b); try done; apply F6|]. split; [done|]. split; [done|]. split; [done|].
    intros sd'. destruct (decide (sd' = sd)) as [->|Hne]; [by rewrite F7, F8|].
    destruct (F9 sd' Hne) as [-> ->]. eapply best_ok_drop; eauto.
  - exists b. split; [done|]. split; [done|]. split; [done|]. split; [done|]. split; [apply keeps_refl|].
    intros sd'. eapply best_ok_drop; [done|done|]. destruct (decide (sd' = sd)) as [->|Hne]; auto.
Qed.

Lemma cancel_refresh_eq (side t : Z) b :
  (if side =? side_u8 Buy then if t =? best_bid_tick b then refresh_best_bid b else Ok b
   else if t =? best_ask_tick b then refresh_best_ask b else Ok b) =
  (let sd := if side =? side_u8 Buy then Buy else Sell in if t =? best_tick sd b then refresh sd b else Ok b).
Proof. by destruct (side =? side_u8 Buy). Qed.

Lemma remove_user_spec A fl b t q1 (e : Entry) q2 :
  core A fl b -> reg_inv (users b) -> (forall u, orders_of (users b) u = book_sum (by_user u) A) ->
  A t = q1 ++ e :: q2 ->
  exists u, remove_order (users b) (os_user e.2) = Ok u /\ reg_inv u /\
    (forall v, orders_of u v = book_sum (by_user v) (upd A t (q1 ++ q2))) /\
    (forall v, net_of u v = net_of (users b) v) /\ total_net u = total_net (users b).
Proof.
  intros Hc Hreg Hus Et. assert (In e (A t)) as He by (rewrite Et; apply in_app_iff; simpl; auto).
  pose proof (core_slot_range _ _ _ _ _ Hc He) as Ht.
  assert (forall v, book_sum (by_user v) A = book_sum (by_user v) (upd A t (q1 ++ q2)) + by_user v e) as Hcount.
  { intros v. rewrite book_sum_upd by done. rewrite Et, !zsum_app. simpl. lia. }
  pose proof (orders_of_range A fl b (os_user e.2) Hc (Hus _)) as Hr. pose proof (si_cap _ _ (c_slab _ _ _ Hc)) as Hcap.
  destruct (remove_order_spec (users b) (os_user e.2) Hreg ltac:(unfold NONE in Hcap; width_lia)) as (u & Eu & Hreg' & Ho & Hn & Hoth & Htn).
  exists u. split; [done|]. split; [done|]. split; [|split; [|done]].
  - intros v. destruct (Z.eq_dec v (os_user e.2)) as [->|Hv].
    + rewrite Ho, Hus, Hcount. unfold by_user at 2. rewrite Z.eqb_refl.
      pose proof (book_sum_nonneg (by_user (os_user e.2)) (upd A t (q1 ++ q2)) (by_user_nonneg _)). lia.
    + unfold orders_of at 1. rewrite Hoth by done. fold (orders_of (users b) v). rewrite Hus, Hcount.
      unfold by_user at 2. replace (os_user e.2 =? v) with false by lia. lia.
  - intros v. destruct (Z.eq_dec v (os_user e.2)) as [->|Hv]; [done|]. unfold net_of. by rewrite Hoth.
Qed.

Lemma reshape_fields b b' : reshape b b' ->
  users b' = users b /\ keeps b b' /\ (forall sd, best_tick sd b' = best_tick sd b) /\ (forall sd, best_px sd b' = best_px sd b).
Proof. intros ->. repeat split; by intros []. Qed.

Lemma cancel_order_spec A fl b t q1 (e : Entry) q2 :
  book_inv A fl b -> A t = q1 ++ e :: q2 ->
  exists b', cancel_order b e.1 = Ok (true, b') /\ book_inv (upd A t (q1 ++ q2)) (e.1 :: fl) b' /\ keeps b b' /\
    (forall x, live (orders b') (e.1 :: fl) x <-> live (orders b) fl x /\ x <> e.1) /\
    remove_order (users b) (os_user e.2) = Ok (users b') /\
    (forall u, net_of (users b') u = net_of (users b) u) /\ total_net (users b') = total_net (users b).
Proof.
  intros Hi Et. pose proof (bk_core _ _ _ Hi) as Hc. pose proof (c_links _ _ _ Hc) as Hl.
  assert (In e (A t)) as He by (rewrite Et; apply in_app_iff; simpl; auto).
  destruct (core_get _ _ _ _ _ Hc He) as (n & p & Hg). destruct (bk_order _ _ _ Hi _ _ He) as [Hact _].
  destruct (unlink_order_spec A fl b t q1 e q2 Hc Et) as (b1 & E1 & Hc1 & Hsh & Hfr & Hnin).
  destruct (reshape_fields _ _ Hsh) as (U1 & K1 & T1 & P1).
  pose proof (lk_side _ _ _ Hl _ _ He) as Hside. set (sd := if os_side e.2 =? side_u8 Buy then Buy else Sell).
  assert (os_side e.2 = side_u8 sd) as Hsd by (unfold sd; destruct Hside as [-> | ->]; done).
  destruct (refresh_if_spec sd A _ fl b1 t q1 e q2 Hc1 Et eq_refl Hsd) as (b2 & E2 & Hc2 & O2 & U2 & K2 & Hb2).
  { intros sd'. rewrite T1, P1. apply Hi. }
  destruct (c_live _ _ _ Hc _ _ He) as [Hlr Hlf].
  assert (live (orders b2) fl e.1) as Hlv by (rewrite O2; split; [by rewrite (fr_bump _ _ _ Hfr)|done]).
  destruct (retire_spec _ fl b2 e.1 Hc2 Hlv) as (os1 & os2 & E3 & E4 & Hc3 & Hlive3 & Hsame3 & Hdead3 & _).
  { intros t' (x & Hx & Hin)%in_map_iff. unfold upd in Hin. destruct (t' =? t) eqn:Ett; bool_to_prop.
    - apply Hnin. rewrite <- Hx. by apply in_map.
    - destruct x as [hx sx], e as [he se]. simpl in Hx. subst hx. by destruct (links_inj _ _ _ _ _ _ _ _ Hl Hin He). }
  destruct (remove_user_spec A fl b t q1 e q2 Hc (bk_reg _ _ _ Hi) (bk_users _ _ _ Hi) Et) as (u & E5 & Hreg & Hus & Hnet & Htn).
  exists (set_users (set_orders b2 os2) u). split.
  { unfold cancel_order. rewrite Hg. cbn [mbind Res_bind]. change (is_active (relink n p e.2)) with (is_active e.2). rewrite Hact. cbn [negb].
    rewrite E1. cbn [mbind Res_bind]. change (os_side (relink n p e.2)) with (os_side e.2).
    replace (os_tick (relink n p e.2)) with t by (rewrite <- (lk_tick _ _ _ Hl _ _ He); done).
    rewrite cancel_refresh_eq. fold sd. cbn zeta. rewrite E2. cbn [mbind Res_bind]. rewrite E3. cbn [mbind Res_bind].
    rewrite E4. cbn [mbind Res_bind]. rewrite U2, U1. change (os_user (relink n p e.2)) with (os_user e.2). by rewrite E5. }
  assert (forall x, live os2 (e.1 :: fl) x <-> live (orders b) fl x /\ x <> e.1) as Hlive.
  { intros x. rewrite Hlive3, O2. unfold live. by rewrite (fr_bump _ _ _ Hfr). }
  split; [|split; [|done]].
  2: { eapply keeps_trans; [exact K1|]. eapply keeps_trans; [exact K2|]. by repeat split. }
  split; cbn.
  - apply (core_ext _ _ _ _ Hc3); done.
  - intros h [Hh Hne]%Hlive. destruct (bk_queued _ _ _ Hi h Hh) as (t' & s' & Hin). exists t', s'.
    eapply in_upd_keep; [done|done|]. left. intros E. apply Hne. by rewrite <- E.
  - intros h s Hs Hnl. destruct (Z.eq_dec h e.1) as [->|Hne]; [by apply Hdead3|].
    apply (bk_dead _ _ _ Hi h); [|intros Hh; apply Hnl, Hlive; done]. rewrite <- Hs, Hsame3, O2 by done. symmetry. apply Hfr.
    intros (x & <- & Hx)%in_map_iff. apply Hnl, Hlive. split; [|done]. apply (c_live _ _ _ Hc t). rewrite Et. by apply in_mid.
  - intros t' x Hx. apply (bk_order _ _ _ Hi t'). by eapply in_upd_drop.
  - exact Hb2.
  - done.
  - done.
Qed.

(** ** Reducing an order in place *)

Lemma seg_replace sl sl' pv q1 (e : Entry) s' q2 nx :
  seg sl pv (q1 ++ e :: q2) nx -> NoDup (handles (q1 ++ e :: q2)) ->
  (forall n p, vget sl e.1 = Some (relink n p e.2) -> vget sl' e.1 = Some (relink n p s')) ->
  (forall x, x <> e.1 -> vget sl' x = vget sl x) ->
  seg sl' pv (q1 ++ (e.1, s') :: q2) nx.
Proof.
  intros Hseg Hnd He Hsame. apply nodup_mid in Hnd as (Hnin & _ & _). unfold handles in Hnin. rewrite map_app in Hnin.
  apply seg_app in Hseg as [S1 [S2 S3]]. apply seg_app. split; [|split].
  - apply (seg_ext sl); [|done]. intros h Hh. apply Hsame. intros ->. apply Hnin, in_app_iff. by left.
  - by apply He.
  - apply (seg_ext sl); [|done]. intros h Hh. apply Hsame. intros ->. apply Hnin, in_app_iff. by right.
Qed.

Lemma requant_spec A fl b t q1 (e : Entry) q2 r :
  core A fl b -> A t = q1 ++ e :: q2 -> 0 <= r <= erem e ->
  let e' := (e.1, os_with_remaining r e.2) in
  exists os lv, update (orders b) e.1 (os_with_remaining r) = Ok os /\
    vmodify (active_levels b) t (fun l => lv_with_total (sat_i64 (lv_total_qty l - (erem e - r))) l) = Ok lv /\
    core (upd A t (q1 ++ e' :: q2)) fl (set_levels_orders b lv os) /\
    (exists n p, vget (slots os) e.1 = Some (relink n p e'.2)) /\
    frame (orders b) os (fun x => x = e.1).
Proof.
  intros Hc Et Hr e'. assert (In e (A t)) as He by (rewrite Et; apply in_app_iff; simpl; auto).
  pose proof (c_links _ _ _ Hc) as Hl. pose proof (core_slot_range _ _ _ _ _ Hc He) as Ht.
  destruct (links_get _ _ _ _ _ Hl He) as (n & p & Hg).
  destruct (update_frame (orders b) e.1 (os_with_remaining r) _ Hg) as (os & Eu & Gu & Fu).
  exists os. pose proof (core_level _ _ _ t Hc Ht) as Hlv.
  assert (handles (q1 ++ e' :: q2) = handles (A t)) as Hh by (rewrite Et; unfold handles; rewrite !map_app; done).
  assert (zsum erem (A t) = zsum erem (q1 ++ e' :: q2) + (erem e - r)) as Hs.
  { rewrite Et, !zsum_app. simpl. change (erem e') with r. lia. }
  assert (forall f, f e' = f e -> zsum f (q1 ++ e' :: q2) = zsum f (A t)) as Hf.
  { intros f Hfe. rewrite Et, !zsum_app. simpl. by rewrite Hfe. }
  assert (forall x, In x (q1 ++ e' :: q2) -> exists y, In y (A t) /\ os_tick y.2 = os_tick x.2 /\ os_side y.2 = os_side x.2 /\
    os_price y.2 = os_price x.2 /\ y.1 = x.1 /\ 0 <= erem x) as Hin.
  { intros x. rewrite in_app_iff. simpl. intros [Hx|[<-|Hx]]; [exists x|exists e|exists x]; rewrite ?Et.
    1,3: split; [apply in_app_iff; simpl; auto|]; repeat split; try done; apply (lk_qty _ _ _ Hl t); rewrite Et; apply in_app_iff; simpl; auto.
    split; [by rewrite <- Et|]. repeat split; simpl; try done. unfold erem, e'. simpl. lia. }
  assert (0 <= zsum erem (q1 ++ e' :: q2)) as Hnn by (apply zsum_nonneg; intros x (y & _ & _ & _ & _ & _ & ?)%Hin; done).
  pose proof (lk_sum _ _ _ Hl t) as Hsum.
  assert (lv_with_total (sat_i64 (lv_total_qty (level_of (A t)) - (erem e - r))) (level_of (A t)) = level_of (q1 ++ e' :: q2)) as Elv.
  { unfold level_of, lv_with_total. cbn. rewrite sat_i64_id by (rewrite Hs; width_lia). rewrite (Hf (on_side Buy)), (Hf (on_side Sell)) by done. f_equal.
    - rewrite Et, !qhead_app. done.
    - rewrite Et, !qlast_app. done.
    - lia.
    - rewrite Et, !zlen_app, !zlen_cons. done. }
  exists (vput (active_levels b) t (level_of (q1 ++ e' :: q2))). split; [done|].
  split; [rewrite (vmodify_ok _ _ _ _ Hlv); by rewrite Elv|].
  split; [|split; [exists n, p; exact Gu|done]]. split; cbn; try apply Hc.
  - rewrite zlen_vput. apply Hc.
  - eapply frame_slab; [exact Fu| |apply Hc]. intros x Hx ->. by destruct (c_live _ _ _ Hc t e He).
  - apply (links_upd (orders b) _ A t _ os (fun x => x = e.1)); try done.
    + rewrite (c_len _ _ _ Hc). lia.
    + intros x ->. right. by apply in_map.
    + intros x t' Hx Hne (y & <- & Hy)%in_map_iff. rewrite Hh in Hx. apply in_map_iff in Hx as ([h1 s1] & E & H1).
      destruct y as [h2 s2]. simpl in E. subst h2. by destruct (links_inj _ _ _ _ _ _ _ _ Hl Hy H1).
    + pose proof (lk_seg _ _ _ Hl t) as Hseg. pose proof (lk_nodup _ _ _ Hl t) as Hnd. rewrite Et in Hseg, Hnd.
      eapply seg_replace; [exact Hseg|exact Hnd| |apply Fu]. intros n' p' Hg'. rewrite Hg in Hg'.
      assert (relink n p e.2 = relink n' p' e.2) as (-> & -> & _)%relink_inj by congruence. exact Gu.
    + rewrite Hh. apply Hl.
    + intros x (y & Hy & E1 & E2 & E3 & E4 & Hx)%Hin. rewrite <- E1, <- E2. split; [by apply Hl|]. split; [done|]. by apply (lk_side _ _ _ Hl t).
    + lia.
  - intros t' x. unfold upd. destruct (t' =? t) eqn:E; bool_to_prop.
    + intros (y & Hy & _ & _ & _ & <- & _)%Hin. destruct (c_live _ _ _ Hc t y Hy). split; [|done]. by rewrite (fr_bump _ _ _ Fu).
    + intros Hx. destruct (c_live _ _ _ Hc t' x Hx). split; [|done]. by rewrite (fr_bump _ _ _ Fu).
  - intros t' x. unfold upd. destruct (t' =? t) eqn:E; bool_to_prop; [subst|by apply Hc].
    intros (y & Hy & _ & _ & <- & _)%Hin. by apply Hc.
  - apply occ_keep; [apply Hc|]. by rewrite (Hf (on_side Buy)).
  - apply occ_keep; [apply Hc|]. by rewrite (Hf (on_side Sell)).
Qed.

(** Swapping an entry for one with the same side and price. *)
Lemma in_upd_swap A t q1 (e e' x : Entry) q2 t' :
  A t = q1 ++ e :: q2 -> In x (upd A t (q1 ++ e' :: q2) t') -> In x (A t') \/ (x = e' /\ t' = t).
Proof.
  intros Et. unfold upd. destruct (t' =? t) eqn:E; bool_to_prop; [|auto]. subst. rewrite Et, !in_app_iff. simpl. intuition.
Qed.

Lemma in_upd_swap_back A t q1 (e e' x : Entry) q2 t' :
  A t = q1 ++ e :: q2 -> In x (A t') -> In x (upd A t (q1 ++ e' :: q2) t') \/ (x = e /\ t' = t).
Proof.
  intros Et Hx. unfold upd. destruct (t' =? t) eqn:E; bool_to_prop; [|auto]. subst. rewrite Et in Hx.
  rewrite !in_app_iff in *. simpl in *. intuition.
Qed.

Lemma best_ok_swap sd A t q1 (e e' : Entry) q2 tick px :
  best_ok sd A tick px -> A t = q1 ++ e :: q2 -> os_side e'.2 = os_side e.2 -> os_price e'.2 = os_price e.2 ->
  best_ok sd (upd A t (q1 ++ e' :: q2)) tick px.
Proof.
  intros Hb Et Es Ep. assert (In e (A t)) as He by (rewrite Et; apply in_app_iff; simpl; auto).
  assert (is_side sd e'.2 = is_side sd e.2) as Ei by (unfold is_side; by rewrite Es).
  destruct Hb as [(-> & -> & Hn)|(Hne & (m & Hm & Hms & Hmp) & Hb)]; [left|right].
  - split; [done|]. split; [done|]. intros t' x Hx. destruct (in_upd_swap _ _ _ _ _ _ _ _ Et Hx) as [Hx'|[-> ->]]; [eauto|].
    rewrite Ei. eauto.
  - split; [done|]. split.
    + destruct (in_upd_swap_back _ _ _ e e' _ _ _ Et Hm) as [Hm'|[-> ->]]; [eauto|].
      exists e'. rewrite upd_same, Ei, Ep. split; [apply in_app_iff; simpl; auto|done].
    + intros t' x Hx. destruct (in_upd_swap _ _ _ _ _ _ _ _ Et Hx) as [Hx'|[-> ->]]; [eauto|].
      rewrite Ei, Ep. eauto.
Qed.

Lemma requant_inv A fl b t q1 (e : Entry) q2 r :
  book_inv A fl b -> A t = q1 ++ e :: q2 -> 0 < r <= erem e ->
  exists os lv, update (orders b) e.1 (os_with_remaining r) = Ok os /\
    vmodify (active_levels b) t (fun l => lv_with_total (sat_i64 (lv_total_qty l - (erem e - r))) l) = Ok lv /\
    book_inv (upd A t (q1 ++ (e.1, os_with_remaining r e.2) :: q2)) fl (set_levels_orders b lv os).
Proof.
  intros Hi Et Hr. pose proof (bk_core _ _ _ Hi) as Hc.
  destruct (requant_spec A fl b t q1 e q2 r Hc Et ltac:(lia)) as (os & lv & E1 & E2 & Hc' & _ & Hfr). cbn zeta in *.
  assert (In e (A t)) as He by (rewrite Et; apply in_app_iff; simpl; auto).
  assert (forall x, live os fl x <-> live (orders b) fl x) as Hlv by (intros x; unfold live; by rewrite (fr_bump _ _ _ Hfr)).
  exists os, lv. split; [done|]. split; [done|]. split; cbn; try apply Hi.
  - done.
  - intros h Hh%Hlv. destruct (bk_queued _ _ _ Hi h Hh) as (t' & s' & Hin).
    destruct (in_upd_swap_back A t q1 e (e.1, os_with_remaining r e.2) _ q2 t' Et Hin) as [Hx|[Hx ->]]; [eauto|].
    exists t, (os_with_remaining r e.2). rewrite upd_same. rewrite <- Hx. apply in_app_iff. simpl. auto.
  - intros h s Hs Hn. apply (bk_dead _ _ _ Hi h); [|by rewrite <- Hlv]. rewrite <- Hs. symmetry. apply Hfr.
    intros ->. apply Hn, Hlv. by apply (c_live _ _ _ Hc t).
  - intros t' x Hx. destruct (in_upd_swap _ _ _ _ _ _ _ _ Et Hx) as [Hx'|[-> ->]]; [by apply (bk_order _ _ _ Hi t')|].
    destruct (bk_order _ _ _ Hi t e He). split; [done|]. unfold erem in *. simpl. lia.
  - intros sd. eapply best_ok_swap; [apply (bk_best _ _ _ Hi)|done|done|done].
  - intros u. rewrite book_sum_upd by apply (core_slot_range _ _ _ _ _ Hc He). rewrite (bk_users _ _ _ Hi), Et, !zsum_app. simpl.
    change (by_user u (e.1, os_with_remaining r e.2)) with (by_user u e). lia.
Qed.

(** ** Identity-checked operations *)

#[global] Instance live_dec (os : Slab OrderSlot) fl h : Decision (live os fl h).
Proof.
  unfold live. destruct (decide (0 <= h < bump_next os)) as [H|H]; [|right; tauto].
  destruct (in_dec Z.eq_dec h fl); [right|left]; tauto.
Defined.

Definition matches (s : OrderSlot) (user oh ol : Z) : Prop := os_user s = user /\ os_oid_hi s = oh /\ os_oid_lo s = ol.

Lemma order_matches_spec A fl b h user oh ol :
  book_inv A fl b -> 0 <= h ->
  exists m, order_matches b h user oh ol = Ok m /\
    (m = true <-> exists t s, In (h, s) (A t) /\ matches s user oh ol).
Proof.
  intros Hi Hh. pose proof (bk_core _ _ _ Hi) as Hc. pose proof (si_cap _ _ (c_slab _ _ _ Hc)) as Hcap.
  pose proof (zlen_nonneg (slots (orders b))).
  assert (capacity (orders b) = zlen (slots (orders b))) as Ecap by (unfold capacity; apply wrap_u32_id; unfold NONE in *; width_lia).
  unfold order_matches. rewrite Ecap, Z.geb_leb. destruct (zlen (slots (orders b)) <=? h) eqn:E; bool_to_prop.
  { exists false. split; [done|]. split; [done|]. intros (t & s & Hin & _).
    apply (in_map fst) in Hin. pose proof (seg_range _ _ _ _ _ (lk_seg _ _ _ (c_links _ _ _ Hc) t) Hin). simpl in *. lia. }
  destruct (vget_is_some (slots (orders b)) h ltac:(lia)) as [s Hs]. unfold get. rewrite (vindex_some _ _ _ Hs). cbn [mbind Res_bind].
  eexists. split; [reflexivity|]. rewrite !andb_true_iff, !Z.eqb_eq. split.
  - intros (((Hact & Hu) & Ho) & Hl). destruct (decide (live (orders b) fl h)) as [Hlv|Hn].
    + destruct (bk_queued _ _ _ Hi h Hlv) as (t & s' & Hin). exists t, s'. split; [done|].
      destruct (links_get _ _ _ _ _ (c_links _ _ _ Hc) Hin) as (n & p & Hg). simpl in Hg. rewrite Hs in Hg. injection Hg as ->. done.
    + by rewrite (bk_dead _ _ _ Hi h s Hs Hn) in Hact.
  - intros (t & s' & Hin & Hu & Ho & Hl). destruct (bk_order _ _ _ Hi _ _ Hin) as [Hact _].
    destruct (links_get _ _ _ _ _ (c_links _ _ _ Hc) Hin) as (n & p & Hg). simpl in Hg. rewrite Hs in Hg. injection Hg as ->. done.
Qed.

Lemma in_split_entry {X} (x : X) q : In x q -> exists q1 q2, q = q1 ++ x :: q2.
Proof. apply in_split. Qed.

(** What the identity check decides: the one queue position that matches. *)
Lemma matches_cases A fl b h user oh ol :
  book_inv A fl b -> 0 <= h ->
  order_matches b h user oh ol = Ok false /\ (forall t s, In (h, s) (A t) -> ~ matches s user oh ol) \/
  order_matches b h user oh ol = Ok true /\
    exists t q1 s q2, A t = q1 ++ (h, s) :: q2 /\ matches s user oh ol.
Proof.
  intros Hi Hh. destruct (order_matches_spec A fl b h user oh ol Hi Hh) as ([|] & E & Hm); [right|left].
  - split; [done|]. destruct (proj1 Hm eq_refl) as (t & s & Hin & Hms).
    destruct (in_split _ _ Hin) as (q1 & q2 & Eq). eauto 10.
  - split; [done|]. intros t s Hin Hms. enough (false = true) by done. apply Hm. eauto.
Qed.

Lemma cancel_checked_hit A fl b t q1 h s q2 user oh ol :
  book_inv A fl b -> A t = q1 ++ (h, s) :: q2 -> matches s user oh ol ->
  exists b', cancel_order_checked b h user oh ol = Ok (true, b') /\
    book_inv (upd A t (q1 ++ q2)) (h :: fl) b' /\ keeps b b' /\
    (forall x, live (orders b') (h :: fl) x <-> live (orders b) fl x /\ x <> h) /\
    remove_order (users b) (os_user s) = Ok (users b') /\
    (forall u, net_of (users b') u = net_of (users b) u) /\ total_net (users b') = total_net (users b).
Proof.
  intros Hi Et Hm. assert (In (h, s) (A t)) as He by (rewrite Et; apply in_app_iff; simpl; auto).
  assert (0 <= h) as Hh by (apply (in_map fst) in He; pose proof (core_handle _ _ _ _ _ (bk_core _ _ _ Hi) He); simpl in *; lia).
  unfold cancel_order_checked. destruct (matches_cases A fl b h user oh ol Hi Hh) as [[_ Hn]|[E _]]; [by destruct (Hn t s He)|].
  rewrite E. cbn [mbind Res_bind negb]. apply (cancel_order_spec A fl b t q1 (h, s) q2 Hi Et).
Qed.

Lemma cancel_checked_miss A fl b h user oh ol :
  book_inv A fl b -> 0 <= h -> (forall t s, In (h, s) (A t) -> ~ matches s user oh ol) ->
  cancel_order_checked b h user oh ol = Ok (false, b).
Proof.
  intros Hi Hh Hn. unfold cancel_order_checked.
  destruct (matches_cases A fl b h user oh ol Hi Hh) as [[-> _]|(_ & t & q1 & s & q2 & Et & Hm)]; [done|].
  destruct (Hn t s); [|done]. rewrite Et. apply in_app_iff. simpl. auto.
Qed.

(** A reduction keeps the order's place in its queue. *)
Lemma modify_down_spec A fl b t q1 h s q2 new_qty user oh ol :
  book_inv A fl b -> A t = q1 ++ (h, s) :: q2 -> matches s user oh ol -> 0 < new_qty < os_remaining s ->
  exists b', modify_order_qty_down b h new_qty user oh ol = Ok (true, b') /\
    book_inv (upd A t (q1 ++ (h, os_with_remaining new_qty s) :: q2)) fl b' /\ keeps b b' /\ users b' = users b.
Proof.
  intros Hi Et Hm Hq. assert (In (h, s) (A t)) as He by (rewrite Et; apply in_app_iff; simpl; auto).
  pose proof (bk_core _ _ _ Hi) as Hc.
  assert (0 <= h) as Hh by (apply (in_map fst) in He; pose proof (core_handle _ _ _ _ _ Hc He); simpl in *; lia).
  unfold modify_order_qty_down. destruct (matches_cases A fl b h user oh ol Hi Hh) as [[_ Hn]|[E _]]; [by destruct (Hn t s He)|].
  rewrite E. cbn [mbind Res_bind negb]. destruct (core_get _ _ _ _ _ Hc He) as (n & p & Hg). cbn [fst snd] in Hg. rewrite Hg. cbn [mbind Res_bind].
  replace (new_qty =? 0) with false by lia. change (os_remaining (relink n p s)) with (os_remaining s).
  rewrite Z.geb_leb. replace (os_remaining s <=? new_qty) with false by lia.
  pose proof (lk_sum _ _ _ (c_links _ _ _ Hc) t) as Hs. pose proof (lk_qty _ _ _ (c_links _ _ _ Hc) t) as Hnn.
  assert (os_remaining s <= I64_MAX) as Hmax.
  { rewrite Et, zsum_app in Hs. simpl in Hs. change (erem (h, s)) with (os_remaining s) in Hs.
    pose proof (zsum_nonneg erem q1 (fun x Hx => Hnn x ltac:(rewrite Et; apply in_app_iff; auto))).
    pose proof (zsum_nonneg erem q2 (fun x Hx => Hnn x ltac:(rewrite Et; apply in_app_iff; simpl; auto))). lia. }
  rewrite wrap_i64_id by width_lia.
  destruct (requant_inv A fl b t q1 (h, s) q2 new_qty Hi Et) as (os & lv & E1 & E2 & Hi'); [unfold erem; simpl; lia|].
  cbn [fst snd] in *. rewrite E1. cbn [mbind Res_bind].
  replace (os_tick (relink n p s)) with t by (rewrite <- (lk_tick _ _ _ (c_links _ _ _ Hc) _ _ He); done).
  unfold erem in E2. cbn [snd] in E2. rewrite E2. cbn [mbind Res_bind]. eexists. split; [reflexivity|]. split; [exact Hi'|]. by repeat split.
Qed.

(** A repriced order leaves its queue and joins the tail of the new one. *)
Lemma entry_user_known A fl b t h s : book_inv A fl b -> In (h, s) (A t) -> is_Some (user_map (users b) !! os_user s).
Proof.
  intros Hi He. apply orders_known. rewrite (bk_users _ _ _ Hi).
  destruct (in_split _ _ He) as (q1 & q2 & Et). pose proof (core_slot_range _ _ _ _ _ (bk_core _ _ _ Hi) He) as Ht.
  pose proof (book_sum_upd (by_user (os_user s)) A t (q1 ++ q2) Ht) as Hs. rewrite Et, !zsum_app in Hs. simpl in Hs.
  assert (by_user (os_user s) (h, s) = 1) by (unfold by_user; simpl; by rewrite Z.eqb_refl).
  pose proof (book_sum_nonneg (by_user (os_user s)) (upd A t (q1 ++ q2)) (by_user_nonneg _)). lia.
Qed.

Lemma modify_price_spec A fl b t q1 h s q2 price side tif user ro ts oh ol :
  book_inv A fl b -> A t = q1 ++ (h, s) :: q2 -> matches s user oh ol ->
  0 < price <= I64_MAX -> price mod tk = 0 ->
  let A1 := upd A t (q1 ++ q2) in
  let t' := idx mid tk price in
  zsum erem (A1 t') + os_remaining s <= I64_MAX ->
  exists h' s' fl' b', modify_order_price b h price side tif user ro ts oh ol = Ok (Some h', b') /\
    book_inv (upd A1 t' (A1 t' ++ [(h', s')])) fl' b' /\ keeps b b' /\
    os_price s' = price /\ os_remaining s' = os_remaining s /\ os_user s' = user /\ os_side s' = side_u8 side /\
    (forall u, net_of (users b') u = net_of (users b) u).
Proof.
  intros Hi Et Hm Hp Hal A1 t' Hsum. pose proof (bk_core _ _ _ Hi) as Hc.
  assert (In (h, s) (A t)) as He by (rewrite Et; apply in_app_iff; simpl; auto).
  assert (0 <= h) as Hh by (apply (in_map fst) in He; pose proof (core_handle _ _ _ _ _ Hc He); simpl in *; lia).
  unfold modify_order_price. destruct (matches_cases A fl b h user oh ol Hi Hh) as [[_ Hn]|[E _]]; [by destruct (Hn t s He)|].
  rewrite E. cbn [mbind Res_bind negb]. destruct (core_get _ _ _ _ _ Hc He) as (n & p & Hg). cbn [fst snd] in Hg. rewrite Hg. cbn [mbind Res_bind].
  change (os_remaining (relink n p s)) with (os_remaining s).
  destruct (cancel_order_spec A fl b t q1 (h, s) q2 Hi Et) as (b1 & E1 & Hi1 & K1 & _ & Hu & Hnet & _). cbn [fst snd] in *.
  rewrite E1. cbn [mbind Res_bind]. fold A1 in Hi1.
  destruct (insert_resting_spec A1 (h :: fl) b1 price (os_remaining s) side tif user ro ts oh ol Hi1) as (h' & fl' & b' & E2 & Hi2 & K2 & _ & _ & Hnet2 & _); try done.
  - by left.
  - destruct Hm as (<- & _ & _). apply (remove_order_room _ _ _ _ Hu). left. by eapply entry_user_known.
  - by destruct (bk_order _ _ _ Hi _ _ He).
  - rewrite E2. cbn [mbind Res_bind]. eexists h', _, fl', b'. split; [done|]. split; [exact Hi2|].
    split; [by eapply keeps_trans|]. repeat split. intros u. by rewrite Hnet2, Hnet.
Qed.

Lemma slot_sum_le A fl b t : core A fl b -> zsum erem (A t) <= book_sum erem A.
Proof.
  intros Hc. pose proof (lk_qty _ _ _ (c_links _ _ _ Hc)) as Hq.
  assert (0 <= book_sum erem (upd A t [])) as Hn.
  { apply zsum_nonneg. intros x _. apply zsum_nonneg. intros e. unfold upd. destruct (x =? t); [by intros []|apply Hq]. }
  destruct (decide (0 <= t < total mid tk)) as [Ht|Ht].
  - pose proof (book_sum_upd erem A t [] Ht) as E. simpl in E. lia.
  - rewrite (lk_out _ _ _ (c_links _ _ _ Hc)) by (by rewrite (c_len _ _ _ Hc)). simpl.
    apply zsum_nonneg. intros x _. apply zsum_nonneg. apply Hq.
Qed.

(** ** A new book *)

Definition empty_book : ABook := fun _ => [].

Lemma level_default : PriceLevel_default = level_of [].
Proof. done. Qed.

Lemma new_spec_book config capacity :
  bc_tick_size config = tk -> 0 <= capacity <= NONE ->
  exists b, Orderbook_new config capacity mid = Ok b /\ book_inv empty_book [] b /\
    slots (orders b) = replicate (Z.to_nat capacity) OrderSlot_default /\ bump_next (orders b) = 0 /\
    users b = UserRegistry_new /\ Book.config b = config /\ event_buf b = [].
Proof.
  intros Etk Hcap. unfold Orderbook_new. rewrite Etk, (new_spec mid tk Hcfg). cbn [mbind Res_bind].
  rewrite (total_slots_eq mid tk Hcfg). pose proof (total_bounds mid tk Hcfg) as Htot. unfold NONE in Htot.
  destruct (Occupancy_new_spec (total mid tk) ltac:(width_lia)) as (o & Eo & Ho & Hn & Hm). rewrite Eo. cbn [mbind Res_bind].
  eexists. split; [reflexivity|]. split; [|repeat split; reflexivity].
  assert (forall sd, occ_ok sd o empty_book) as Hocc by (intros sd; split; [done|]; split; [done|]; intros t; rewrite Hm; done).
  assert (forall h, ~ live (Slab_new capacity : Slab OrderSlot) [] h) as Hnl by (intros h [Hr _]; simpl in Hr; lia).
  assert (zlen (replicate (Z.to_nat (total mid tk)) PriceLevel_default) = total mid tk) as Hlen by (apply zlen_replicate; lia).
  split.
  - split; cbn [compression price_asc active_levels orders bid_occ ask_occ].
    + reflexivity.
    + apply price_asc_bands; done.
    + exact Hlen.
    + by apply new_inv.
    + split; unfold empty_book; try (intros ? ? []); try (intros; reflexivity); try (intros; exact I).
      * intros t Ht. rewrite Hlen in Ht. by rewrite vget_replicate by lia.
      * intros t. constructor.
      * intros t. vm_compute. discriminate.
    + intros t e [].
    + intros t e [].
    + apply Hocc.
    + apply Hocc.
  - intros h Hl. by destruct (Hnl h).
  - cbn [orders Slab_new slots]. intros h s Hs _. pose proof (vget_some_range _ _ _ Hs) as Hr. rewrite zlen_replicate in Hr by lia.
    rewrite vget_replicate in Hs by lia. by injection Hs as <-.
  - intros t e [].
  - intros []; left; (split; [reflexivity|split; [reflexivity|intros t e []]]).
  - apply new_reg_inv.
  - intros u. unfold book_sum, empty_book. generalize (zrange 0 (total mid tk)). intros l. induction l as [|x l IH]; [reflexivity|].
    change (zsum ?g (x :: l)) with (g x + zsum g l). cbn beta. rewrite <- IH. reflexivity.
Qed.

End Inv.
