(* ===== verification/Matching.v ===== *)
(** * Matching: [rsx-book/src/matching.rs]

    The matching engine's order entry point, translated whole: validation,
    reduce-only clamp, post-only and fill-or-kill checks, the match loop over
    the best slots, and the residual. *)

From S2P Require Import Prelude Types Slab Occupancy Compression Users Order Book.

Record IncomingOrder : Type := mkIncoming {
  in_price : Z;
  in_qty : Z;
  in_remaining : Z;
  in_side : Side;
  in_tif : TimeInForce;
  in_user : Z;
  in_reduce_only : bool;
  in_post_only : bool;
  in_timestamp : Z;
  in_oid_hi : Z;
  in_oid_lo : Z;
}.

Definition in_with_remaining (r : Z) (o : IncomingOrder) : IncomingOrder :=
  mkIncoming (in_price o) (in_qty o) r (in_side o) (in_tif o) (in_user o) (in_reduce_only o)
    (in_post_only o) (in_timestamp o) (in_oid_hi o) (in_oid_lo o).

(** ** The maker budget *)

Definition is_budget_spent (b : Orderbook) : bool := zlen (event_buf b) >=? 2 * MAX_MAKERS_PER_ORDER.

Definition is_match_limited (b : Orderbook) (o : IncomingOrder) : bool :=
  is_budget_spent b &&
  match in_side o with
  | Buy => negb (best_ask_tick b =? NONE) && (best_ask_px b <=? in_price o)
  | Sell => negb (best_bid_tick b =? NONE) && (best_bid_px b >=? in_price o)
  end.

Definition emit_bbo (b : Orderbook) : Res Orderbook :=
  bbo ← current_bbo b;
  emit b (BBO (bbo_bid_px bbo) (bbo_bid_qty bbo) (bbo_ask_px bbo) (bbo_ask_qty bbo)).

(** ** Crossing makers *)

Definition is_crossing (maker_side maker_price : Z) (taker_side : Side) (limit : Z) : bool :=
  negb (maker_side =? side_u8 taker_side) &&
  match taker_side with Buy => maker_price <=? limit | Sell => maker_price >=? limit end.

Record Crossing : Type := mkCrossing { cr_best_price : Z; cr_qty : Z; cr_makers : Z }.

Definition crossing_step (taker_side : Side) (limit : Z) (c : Crossing) (maker : OrderSlot) : Crossing :=
  let price := os_price maker in
  if is_crossing (os_side maker) price taker_side limit then
    mkCrossing (match taker_side with Buy => Z.min (cr_best_price c) price | Sell => Z.max (cr_best_price c) price end)
      (wrap_i64 (cr_qty c + os_remaining maker)) (cr_makers c + 1)
  else c.

Definition scan_crossing (b : Orderbook) (tick : Z) (taker : IncomingOrder) : Res Crossing :=
  lvl ← vindex (active_levels b) tick;
  walk_level (orders b) (crossing_step (in_side taker) (in_price taker)) (lv_head lvl)
    (mkCrossing (in_price taker) 0 0).

(** ** Filling a slot *)

(** A maker with nothing left: unlink, report, free. *)
Definition complete_maker (b : Orderbook) (cursor : Z) (maker : OrderSlot) : Res Orderbook :=
  b ← unlink_order b cursor;
  slot ← get (orders b) cursor;
  b ← emit b (OrderDone cursor (os_tif maker) (is_reduce_only maker) (os_user maker) Filled
                (os_original slot) 0 (os_oid_hi maker) (os_oid_lo maker));
  os ← update (orders b) cursor (set_active false);
  os ← free os cursor;
  u ← remove_order (users b) (os_user maker);
  Ok (set_users (set_orders b os) u).

(** One maker: the fill, and the maker's completion when nothing is left. *)
Definition fill_maker (b : Orderbook) (tick cursor : Z) (maker : OrderSlot) (o : IncomingOrder)
    : Res (IncomingOrder * Orderbook) :=
  let fill_qty := Z.min (in_remaining o) (os_remaining maker) in
  let o := in_with_remaining (wrap_i64 (in_remaining o - fill_qty)) o in
  let maker_remaining := wrap_i64 (os_remaining maker - fill_qty) in
  os ← update (orders b) cursor (os_with_remaining maker_remaining);
  lv ← vmodify (active_levels b) tick (fun l => lv_with_total (sat_i64 (lv_total_qty l - fill_qty)) l);
  let b := set_levels_orders b lv os in
  b ← emit b (Fill cursor (os_tif maker) (is_reduce_only maker) (os_user maker) (in_user o)
                (os_price maker) fill_qty (side_u8 (in_side o)) (os_oid_hi maker) (os_oid_lo maker)
                (in_oid_hi o) (in_oid_lo o) (in_timestamp o));
  u ← apply_fill (users b) (in_user o) (os_user maker) (in_side o) fill_qty;
  let b := set_users b u in
  if maker_remaining =? 0 then b ← complete_maker b cursor maker; Ok (o, b)
  else Ok (o, b).

Fixpoint fill_loop (fuel : nat) (b : Orderbook) (tick : Z) (o : IncomingOrder) (limit cursor : Z)
    : Res (IncomingOrder * Orderbook) :=
  match fuel with
  | O => Diverged
  | S fuel' =>
      if negb (cursor =? NONE) && (in_remaining o >? 0) && negb (is_budget_spent b) then
        maker ← get (orders b) cursor;
        let next_cursor := os_next maker in
        if negb (is_crossing (os_side maker) (os_price maker) (in_side o) limit)
        then fill_loop fuel' b tick o limit next_cursor
        else
          '(o, b) ← fill_maker b tick cursor maker o;
          fill_loop fuel' b tick o limit next_cursor
      else Ok (o, b)
  end.

(** A slot's queue visits each slab slot at most once. *)
Definition fill_level (b : Orderbook) (tick : Z) (o : IncomingOrder) (limit : Z) : Res (IncomingOrder * Orderbook) :=
  lvl ← vindex (active_levels b) tick;
  fill_loop (S (length (slots (orders b)))) b tick o limit (lv_head lvl).

Fixpoint compressed_loop (fuel : nat) (b : Orderbook) (tick : Z) (o : IncomingOrder) (c : Crossing)
    : Res (IncomingOrder * Orderbook) :=
  match fuel with
  | O => Diverged
  | S fuel' =>
      if cr_makers c >? 0 then
        '(o, b) ← fill_level b tick o (cr_best_price c);
        if (in_remaining o =? 0) || is_budget_spent b then Ok (o, b)
        else c ← scan_crossing b tick o; compressed_loop fuel' b tick o c
      else Ok (o, b)
  end.

(** Every round completes a maker, so the slab length bounds the rounds. *)
Definition match_compressed_slot (b : Orderbook) (tick : Z) (o : IncomingOrder) : Res (IncomingOrder * Orderbook) :=
  crossing ← scan_crossing b tick o;
  let room := Z.max 0 (MAX_MAKERS_PER_ORDER - zlen (event_buf b) / 2) in
  if (cr_qty crossing <=? in_remaining o) && (cr_makers crossing <=? room)
  then fill_level b tick o (in_price o)
  else compressed_loop (S (length (slots (orders b)))) b tick o crossing.

Definition match_at_level (b : Orderbook) (tick : Z) (o : IncomingOrder) : Res (IncomingOrder * Orderbook) :=
  if tick <? arr (zone_slots (compression b)) 0 then fill_level b tick o (in_price o)
  else match_compressed_slot b tick o.

(** ** Fill-or-kill feasibility *)

(** The body of a loop either goes on with its accumulator or returns. *)
Inductive Flow (A : Type) : Type :=
| Next (a : A)
| Return (r : bool).
Arguments Next {A} a.
Arguments Return {A} r.

Fixpoint sum_qty_loop (count : nat) (os : Slab OrderSlot) (cursor total : Z) : Res Z :=
  match count with
  | O => Ok total
  | S count' =>
      resting_order ← get os cursor;
      sum_qty_loop count' os (os_next resting_order) (wrap_i64 (total + os_remaining resting_order))
  end.
Definition sum_qty (b : Orderbook) (head count : Z) : Res Z := sum_qty_loop (Z.to_nat count) (orders b) head 0.

Fixpoint walk_flow {A} (fuel : nat) (os : Slab OrderSlot) (f : A -> OrderSlot -> Flow A) (cursor : Z) (acc : A)
    : Res (Flow A) :=
  match fuel with
  | O => Diverged
  | S fuel' =>
      if cursor =? NONE then Ok (Next acc)
      else
        order ← get os cursor;
        match f acc order with
        | Return r => Ok (Return r)
        | Next acc' => walk_flow fuel' os f (os_next order) acc'
        end
  end.

(** Accumulator of a compressed slot: best opposite price seen, makers, total. *)
Definition feasible_step (maker_side : Side) (limit needed : Z) (acc : Z * Z * Z) (order : OrderSlot)
    : Flow (Z * Z * Z) :=
  let '(best, makers, total) := acc in
  if os_side order =? side_u8 maker_side then
    let px := os_price order in
    let best := match maker_side with
                | Sell => if px <? best then px else best
                | Buy => if px >? best then px else best
                end in
    let crosses := match maker_side with Sell => px <=? limit | Buy => px >=? limit end in
    if crosses then
      let makers := makers + 1 in
      if makers >? MAX_MAKERS_PER_ORDER then Return false
      else
        let total := wrap_i64 (total + os_remaining order) in
        if total >=? needed then Return true else Next (best, makers, total)
    else Next (best, makers, total)
  else Next (best, makers, total).

(** One occupied slot [t]: accumulator is (makers, total). *)
Definition feasible_slot (b : Orderbook) (maker_side : Side) (limit needed t : Z) (acc : Z * Z) : Res (Flow (Z * Z)) :=
  let '(makers, total) := acc in
  lvl ← vindex (active_levels b) t;
  if t <? arr (zone_slots (compression b)) 0 then
    head ← get (orders b) (lv_head lvl);
    let beyond := match maker_side with Sell => os_price head >? limit | Buy => os_price head <? limit end in
    if beyond then Ok (Return false)
    else
      let count := match maker_side with Sell => lv_ask_count lvl | Buy => lv_bid_count lvl end in
      if makers + count >? MAX_MAKERS_PER_ORDER then
        s ← sum_qty b (lv_head lvl) (MAX_MAKERS_PER_ORDER - makers);
        Ok (Return (wrap_i64 (total + s) >=? needed))
      else
        let total := wrap_i64 (total + lv_total_qty lvl) in
        if total >=? needed then Ok (Return true) else Ok (Next (makers + count, total))
  else
    let worst := match maker_side with Sell => I64_MAX | Buy => I64_MIN end in
    r ← walk_flow (S (length (slots (orders b)))) (orders b) (feasible_step maker_side limit needed)
          (lv_head lvl) (worst, makers, total);
    match r with
    | Return r => Ok (Return r)
    | Next (best, makers, total) =>
        let beyond := match maker_side with Sell => best >? limit | Buy => best <? limit end in
        if beyond then Ok (Return false) else Ok (Next (makers, total))
    end.

Fixpoint feasible_asks (fuel : nat) (b : Orderbook) (limit needed cur hi : Z) (acc : Z * Z) : Res (Flow (Z * Z)) :=
  match fuel with
  | O => Diverged
  | S fuel' =>
      o ← find_first_in (ask_occ b) cur hi;
      match o with
      | None => Ok (Next acc)
      | Some t =>
          r ← feasible_slot b Sell limit needed t acc;
          match r with
          | Return r => Ok (Return r)
          | Next acc => feasible_asks fuel' b limit needed (wrap_u32 (t + 1)) hi acc
          end
      end
  end.

Fixpoint feasible_bids (fuel : nat) (b : Orderbook) (limit needed lo top : Z) (acc : Z * Z) : Res (Flow (Z * Z)) :=
  match fuel with
  | O => Diverged
  | S fuel' =>
      o ← find_last_in (bid_occ b) lo top;
      match o with
      | None => Ok (Next acc)
      | Some t =>
          r ← feasible_slot b Buy limit needed t acc;
          match r with
          | Return r => Ok (Return r)
          | Next acc => feasible_bids fuel' b limit needed lo t acc
          end
      end
  end.

(** The price-ordered ranges, one after the other. *)
Fixpoint feasible_ranges (step : Z * Z -> Z * Z -> Res (Flow (Z * Z))) (ranges : list (Z * Z)) (acc : Z * Z) : Res bool :=
  match ranges with
  | [] => Ok false
  | r :: rest =>
      f ← step r acc;
      match f with Return r => Ok r | Next acc => feasible_ranges step rest acc end
  end.

Definition can_fill_fully (b : Orderbook) (side : Side) (limit_price needed : Z) : Res bool :=
  let fuel := S (length (active_levels b)) in
  match side with
  | Buy => feasible_ranges (fun r => feasible_asks fuel b limit_price needed r.1 r.2) (price_asc b) (0, 0)
  | Sell => feasible_ranges (fun r => feasible_bids fuel b limit_price needed r.1 r.2) (reverse (price_asc b)) (0, 0)
  end.

(** ** A new order *)

Definition reject (b : Orderbook) (o : IncomingOrder) (reason : OrderFailureReason) : Res (IncomingOrder * Orderbook) :=
  b ← emit b (OrderFailed (in_user o) reason (in_oid_hi o) (in_oid_lo o));
  Ok (o, b).

Definition done_event (o : IncomingOrder) (reason : OrderDoneReason) (filled remaining : Z) : Event :=
  OrderDone NONE (tif_u8 (in_tif o)) (in_reduce_only o) (in_user o) reason filled remaining (in_oid_hi o) (in_oid_lo o).

(** [price <= 0 || price % tick != 0], and the same for the lot. *)
Definition misaligned (x step : Z) : Res bool :=
  if x <=? 0 then Ok true else r ← rem_i64 x step; Ok (negb (r =? 0)).

(** The reduce-only guard: [None] rejects, otherwise the clamped order. *)
Definition clamp_reduce_only (b : Orderbook) (o : IncomingOrder) : Res (option IncomingOrder) :=
  if negb (in_reduce_only o) then Ok (Some o)
  else
    net ← net_qty (users b) (in_user o);
    match net with
    | None => Ok None
    | Some nq =>
        if (match in_side o with Buy => nq >=? 0 | Sell => nq <=? 0 end) then Ok None
        else
          let abs_pos := Z.min (Z.abs nq) I64_MAX in
          Ok (Some (if in_remaining o >? abs_pos then in_with_remaining abs_pos o else o))
    end.

Definition would_cross (b : Orderbook) (o : IncomingOrder) : bool :=
  match in_side o with
  | Buy => negb (best_ask_tick b =? NONE) && (in_price o >=? best_ask_px b)
  | Sell => negb (best_bid_tick b =? NONE) && (in_price o <=? best_bid_px b)
  end.

(** The match loop: every round but the last completes a maker. *)
Fixpoint match_loop (fuel : nat) (b : Orderbook) (o : IncomingOrder) : Res (IncomingOrder * Orderbook) :=
  match fuel with
  | O => Diverged
  | S fuel' =>
      let best := match in_side o with Buy => best_ask_tick b | Sell => best_bid_tick b end in
      if (in_remaining o >? 0) && negb (best =? NONE) then
        let before := in_remaining o in
        '(o, b) ← match_at_level b best o;
        b ← (match in_side o with Buy => refresh_best_ask b | Sell => refresh_best_bid b end);
        if in_remaining o =? before then Ok (o, b) else match_loop fuel' b o
      else Ok (o, b)
  end.

(** The residual and the taker's terminal event. *)
Definition finish (b : Orderbook) (o : IncomingOrder) (fillable : Z) : Res Orderbook :=
  if in_remaining o >? 0 then
    if is_match_limited b o then
      emit b (done_event o MatchLimit (wrap_i64 (fillable - in_remaining o)) (in_remaining o))
    else match in_tif o with
    | IOC => emit b (done_event o Expired (wrap_i64 (fillable - in_remaining o)) (in_remaining o))
    | FOK => emit b (OrderFailed (in_user o) FillOrKill (in_oid_hi o) (in_oid_lo o))
    | GTC =>
        '(handle, b) ← insert_resting b (in_price o) (in_remaining o) (in_side o) (tif_u8 (in_tif o)) (in_user o)
                         (in_reduce_only o) (in_timestamp o) (in_oid_hi o) (in_oid_lo o);
        emit b (OrderInserted handle (in_user o) (side_u8 (in_side o)) (in_price o) (in_remaining o)
                  (in_oid_hi o) (in_oid_lo o))
    end
  else emit b (done_event o Filled fillable 0).

Definition same_best (b0 b : Orderbook) : bool :=
  (best_bid_tick b =? best_bid_tick b0) && (best_ask_tick b =? best_ask_tick b0) &&
  (best_bid_px b =? best_bid_px b0) && (best_ask_px b =? best_ask_px b0).

(** The part after the checks: match, finish, publish. *)
Definition execute (b : Orderbook) (o : IncomingOrder) : Res (IncomingOrder * Orderbook) :=
  let fillable := in_remaining o in
  '(o, b1) ← match_loop (S (S (length (slots (orders b))))) b o;
  b2 ← finish b1 o fillable;
  b3 ← (if same_best b b2 then Ok b2 else emit_bbo b2);
  Ok (o, b3).

Definition process_new_order (b : Orderbook) (o : IncomingOrder) : Res (IncomingOrder * Orderbook) :=
  let b := set_events b [] in
  invalid_tick ← misaligned (in_price o) (bc_tick_size (config b));
  invalid ← (if (invalid_tick : bool) then Ok true else misaligned (in_qty o) (bc_lot_size (config b)));
  if (invalid : bool) then reject b o (if (invalid_tick : bool) then InvalidTick else InvalidLot)
  else
    clamped ← clamp_reduce_only b o;
    match clamped with
    | None => reject b o ReduceOnly
    | Some o =>
        if in_post_only o && would_cross b o then
          b ← emit b (done_event o PostOnly 0 (in_remaining o)); Ok (o, b)
        else
          feasible ← (match in_tif o with
                      | FOK => can_fill_fully b (in_side o) (in_price o) (in_remaining o)
                      | _ => Ok true
                      end);
          if negb feasible then reject b o FillOrKill else execute b o
    end.
