(* ===== verification/MatchInv.v ===== *)
(** * MatchInv: what matching does to the book

    The makers a taker consumes are a list of (entry, quantity); [consumes]
    applies them to the queues one by one, and [fill_queue] is the reference
    definition of a pass over one queue.  The loops of
    [rsx-book/src/matching.rs] are shown to return and to refine them, with
    the events, positions and order counts that go with each fill. *)

From S2P Require Import Prelude Types Slab Occupancy Compression Users Order Book Links BookInv Matching.

Abbreviation MFill := (Entry * Z)%type.

Definition mf_events (o : IncomingOrder) (m : MFill) : list Event :=
  let s := m.1.2 in
  Fill m.1.1 (os_tif s) (is_reduce_only s) (os_user s) (in_user o) (os_price s) m.2 (side_u8 (in_side o))
    (os_oid_hi s) (os_oid_lo s) (in_oid_hi o) (in_oid_lo o) (in_timestamp o) ::
  (if m.2 =? os_remaining s then
     [OrderDone m.1.1 (os_tif s) (is_reduce_only s) (os_user s) Filled (os_original s) 0 (os_oid_hi s) (os_oid_lo s)]
   else []).

Definition fill_events (o : IncomingOrder) (fs : list MFill) : list Event := flat_map (mf_events o) fs.

Definition filled (fs : list MFill) : Z := zsum snd fs.

(** What is left of an entry after [f] of it is taken. *)
Definition leftover (e : Entry) (f : Z) : list Entry :=
  if f =? erem e then [] else [(e.1, os_with_remaining (erem e - f) e.2)].

Inductive consumes : ABook -> list MFill -> ABook -> Prop :=
| co_nil A : consumes A [] A
| co_cons A t q1 e q2 f fs A1 A' :
    A t = q1 ++ e :: q2 -> 0 < f <= erem e ->
    A1 t = q1 ++ leftover e f ++ q2 -> (forall t', t' <> t -> A1 t' = A t') ->
    consumes A1 fs A' -> consumes A ((e, f) :: fs) A'.

(** The change of [v]'s position by the fills of taker [o]. *)
Definition net_delta (o : IncomingOrder) (v : Z) (fs : list MFill) : Z :=
  zsum (fun m => (if v =? in_user o then sign_of (in_side o) * m.2 else 0)
               - (if v =? os_user m.1.2 then sign_of (in_side o) * m.2 else 0)) fs.

(** One pass over a queue in arrival order: the reference for [fill_level].
    [room] is the number of makers the budget still allows. *)
Fixpoint fill_queue (sd : Side) (limit room rem : Z) (q : list Entry) : list Entry * list MFill :=
  match q with
  | [] => ([], [])
  | e :: q' =>
      if (rem >? 0) && (room >? 0) then
        if is_crossing (os_side e.2) (os_price e.2) sd limit then
          let f := Z.min rem (erem e) in
          let '(k, fs) := fill_queue sd limit (room - 1) (rem - f) q' in (leftover e f ++ k, (e, f) :: fs)
        else let '(k, fs) := fill_queue sd limit room rem q' in (e :: k, fs)
      else (e :: q', [])
  end.

Lemma consumes_app A fs1 A1 fs2 A2 : consumes A fs1 A1 -> consumes A1 fs2 A2 -> consumes A (fs1 ++ fs2) A2.
Proof.
  intros Hc. induction Hc as [|A t q1 e q2 f fs A1' A' Et Hf E1 Eo _ IH]; intros Hc2; [done|].
  simpl. eapply co_cons; eauto.
Qed.

Lemma filled_app fs1 fs2 : filled (fs1 ++ fs2) = filled fs1 + filled fs2.
Proof. apply zsum_app. Qed.

Lemma net_delta_app o v fs1 fs2 : net_delta o v (fs1 ++ fs2) = net_delta o v fs1 + net_delta o v fs2.
Proof. apply zsum_app. Qed.

Lemma fill_events_app o fs1 fs2 : fill_events o (fs1 ++ fs2) = fill_events o fs1 ++ fill_events o fs2.
Proof. apply flat_map_app. Qed.

Lemma consumes_pos A fs A' : consumes A fs A' -> forall m, In m fs -> 0 < m.2 <= erem m.1.
Proof. induction 1 as [|A t q1 e q2 f fs A1 A' Et Hf _ _ _ IH]; [done|]. intros m [<-|Hm]; [done|auto]. Qed.

Lemma consumes_filled A fs A' : consumes A fs A' -> 0 <= filled fs.
Proof. intros H. apply zsum_nonneg. intros m Hm. pose proof (consumes_pos _ _ _ H m Hm). lia. Qed.

Section Matching.
Variables (mid tk : Z).
Hypothesis Hcfg : cfg_ok mid tk.
Hypothesis Hspread : spread_ok mid tk.

Abbreviation core := (core mid tk).
Abbreviation book_inv := (book_inv mid tk).
Abbreviation book_sum := (book_sum mid tk).

(** The invariant while the cached best prices are stale. *)
Record open_inv (A : ABook) (fl : list Z) (b : Orderbook) : Prop := {
  op_core : core A fl b;
  op_queued : forall h, live (orders b) fl h -> exists t s, In (h, s) (A t);
  op_dead : forall h s, vget (slots (orders b)) h = Some s -> ~ live (orders b) fl h -> is_active s = false;
  op_order : forall t e, In e (A t) -> is_active e.2 = true /\ 0 < erem e;
  op_reg : reg_inv (users b);
  op_users : forall u, orders_of (users b) u = book_sum (by_user u) A;
}.

Lemma book_open A fl b : book_inv A fl b -> open_inv A fl b.
Proof. intros []. by split. Qed.

Lemma open_book A fl b :
  open_inv A fl b -> (forall sd, best_ok sd A (best_tick sd b) (best_px sd b)) -> book_inv A fl b.
Proof. intros [] H. by split. Qed.

(** How a book moves while makers are consumed. *)
Record moved (o : IncomingOrder) (A : ABook) (b : Orderbook) (fs : list MFill) (A' : ABook) (b' : Orderbook) : Prop := {
  ra_consumes : consumes A fs A';
  ra_events : event_buf b' = event_buf b ++ fill_events o fs;
  ra_keeps : keeps (set_events b []) (set_events b' []);
  ra_len : zlen (slots (orders b')) = zlen (slots (orders b));
  ra_known : forall v, known (users b) v -> known (users b') v;
  ra_taker : fs <> [] -> known (users b') (in_user o);
  ra_users : fs = [] -> users b' = users b;
  ra_net : (forall v, Z.abs (net_of (users b) v) + filled fs <= I64_MAX) ->
    (forall v, net_of (users b') v = net_of (users b) v + net_delta o v fs) /\ total_net (users b') = total_net (users b);
}.

Record ran (o : IncomingOrder) (A : ABook) (b : Orderbook) (fs : list MFill) (A' : ABook) (fl' : list Z) (b' : Orderbook) : Prop := {
  ra_inv : open_inv A' fl' b';
  ra_moved : moved o A b fs A' b';
  ra_best : forall sd, best_tick sd b' = best_tick sd b /\ best_px sd b' = best_px sd b;
}.

Lemma moved_refl o A b : moved o A b [] A b.
Proof.
  split; try done; try (by repeat split).
  - constructor.
  - by rewrite app_nil_r.
  - intros _. split; [|done]. intros v. unfold net_delta. simpl. lia.
Qed.

Lemma ran_refl o A fl b : open_inv A fl b -> ran o A b [] A fl b.
Proof. intros Hi. split; [done|apply moved_refl|done]. Qed.

Lemma net_delta_abs o v fs : (forall m, In m fs -> 0 <= m.2) -> Z.abs (net_delta o v fs) <= filled fs.
Proof.
  induction fs as [|m fs IH]; intros H; [done|]. unfold net_delta, filled. simpl.
  pose proof (H m (or_introl eq_refl)). specialize (IH (fun x Hx => H x (or_intror Hx))). unfold net_delta, filled in IH.
  destruct (v =? in_user o), (v =? os_user m.1.2), (in_side o); simpl in *; lia.
Qed.

Lemma keeps_ev_trans b1 b2 b3 : keeps (set_events b1 []) (set_events b2 []) -> keeps (set_events b2 []) (set_events b3 []) ->
  keeps (set_events b1 []) (set_events b3 []).
Proof. apply keeps_trans. Qed.

Lemma moved_trans o A b fs1 A1 b1 fs2 A2 b2 :
  moved o A b fs1 A1 b1 -> moved o A1 b1 fs2 A2 b2 -> moved o A b (fs1 ++ fs2) A2 b2.
Proof.
  intros R1 R2. destruct R1 as [c1 e1 k1 l1 n1 a1 u1 d1], R2 as [c2 e2 k2 l2 n2 a2 u2 d2]. split.
  - by eapply consumes_app.
  - by rewrite e2, e1, fill_events_app, app_assoc.
  - by eapply keeps_ev_trans.
  - congruence.
  - auto.
  - intros Hne. destruct fs2 as [|m fs2]; [rewrite app_nil_r in Hne; by apply n2, a1|by apply a2].
  - intros [-> ->]%app_nil. rewrite u2, u1; done.
  - intros Hb. rewrite filled_app in Hb. pose proof (consumes_filled _ _ _ c1) as Hf1. pose proof (consumes_filled _ _ _ c2) as Hf2.
    destruct d1 as [D1 T1]; [intros v; specialize (Hb v); lia|].
    destruct d2 as [D2 T2].
    { intros v. specialize (Hb v). rewrite D1.
      pose proof (net_delta_abs o v fs1 (fun m Hm => ltac:(pose proof (consumes_pos _ _ _ c1 m Hm); lia))). lia. }
    split; [|congruence]. intros v. rewrite D2, D1, net_delta_app. lia.
Qed.

Lemma ran_trans o A b fs1 A1 fl1 b1 fs2 A2 fl2 b2 :
  ran o A b fs1 A1 fl1 b1 -> ran o A1 b1 fs2 A2 fl2 b2 -> ran o A b (fs1 ++ fs2) A2 fl2 b2.
Proof.
  intros [i1 m1 t1] [i2 m2 t2]. split; [done|by eapply moved_trans|].
  intros sd. destruct (t1 sd), (t2 sd). split; congruence.
Qed.

Lemma emit_ok b e : zlen (event_buf b) < MAX_EVENTS -> emit b e = Ok (set_events b (event_buf b ++ [e])).
Proof. intros H. unfold emit. by replace (zlen (event_buf b) <? MAX_EVENTS) with true by lia. Qed.

(** The fill and the position change, before the maker is completed. *)
Lemma fill_head A fl b t q1 h s q2 o f :
  open_inv A fl b -> A t = q1 ++ (h, s) :: q2 -> f = Z.min (in_remaining o) (os_remaining s) ->
  0 < in_remaining o -> zlen (event_buf b) < MAX_EVENTS -> room_for (users b) (in_user o) ->
  let A1 := upd A t (q1 ++ (h, os_with_remaining (os_remaining s - f) s) :: q2) in
  let ev := Fill h (os_tif s) (is_reduce_only s) (os_user s) (in_user o) (os_price s) f (side_u8 (in_side o))
              (os_oid_hi s) (os_oid_lo s) (in_oid_hi o) (in_oid_lo o) (in_timestamp o) in
  exists os lv r n p, let b1 := set_users (set_events (set_levels_orders b lv os) (event_buf b ++ [ev])) r in
    update (orders b) h (os_with_remaining (os_remaining s - f)) = Ok os /\
    vmodify (active_levels b) t (fun l => lv_with_total (sat_i64 (lv_total_qty l - f)) l) = Ok lv /\
    emit (set_levels_orders b lv os) ev = Ok (set_events (set_levels_orders b lv os) (event_buf b ++ [ev])) /\
    apply_fill (users b) (in_user o) (os_user s) (in_side o) f = Ok r /\
    core A1 fl b1 /\ vget (slots os) h = Some (relink n p (os_with_remaining (os_remaining s - f) s)) /\
    frame (orders b) os (fun x => x = h) /\
    reg_inv r /\ (forall u, orders_of r u = book_sum (by_user u) A1) /\
    (forall v, known (users b) v -> known r v) /\ known r (in_user o) /\
    ((forall v, Z.abs (net_of (users b) v) + f <= I64_MAX) ->
       (forall v, net_of r v = net_of (users b) v + net_delta o v [((h, s), f)]) /\ total_net r = total_net (users b)).
Proof.
  intros Hi Et Hf Hrem Hev Hroom A1 ev. pose proof (op_core _ _ _ Hi) as Hc.
  assert (In (h, s) (A t)) as He by (rewrite Et; apply in_app_iff; simpl; auto).
  destruct (op_order _ _ _ Hi _ _ He) as [_ Hpos]. change (erem (h, s)) with (os_remaining s) in Hpos.
  destruct (requant_spec mid tk Hcfg A fl b t q1 (h, s) q2 (os_remaining s - f) Hc Et) as (os & lv & E1 & E2 & Hc1 & (n & p & Hg) & Hfr);
    [unfold erem; simpl; lia|]. cbn [fst snd] in *.
  assert (known (users b) (os_user s)) as Hmk.
  { apply orders_known. rewrite (op_users _ _ _ Hi). pose proof (core_slot_range mid tk Hcfg _ _ _ _ _ Hc He) as Ht.
    pose proof (book_sum_upd mid tk (by_user (os_user s)) A t (q1 ++ q2) Ht) as Hs. rewrite Et, !zsum_app in Hs. simpl in Hs.
    assert (by_user (os_user s) (h, s) = 1) by (unfold by_user; simpl; by rewrite Z.eqb_refl).
    pose proof (book_sum_nonneg mid tk (by_user (os_user s)) (upd A t (q1 ++ q2)) (by_user_nonneg _)). lia. }
  assert (os_remaining s <= I64_MAX) as Hmax.
  { pose proof (lk_sum _ _ _ (c_links _ _ _ _ _ Hc) t) as Hs. rewrite Et, zsum_app in Hs. simpl in Hs.
    pose proof (lk_qty _ _ _ (c_links _ _ _ _ _ Hc) t) as Hq. rewrite Et in Hq. change (erem (h, s)) with (os_remaining s) in Hs.
    pose proof (zsum_nonneg erem q1 (fun x Hx => Hq x ltac:(apply in_app_iff; auto))).
    pose proof (zsum_nonneg erem q2 (fun x Hx => Hq x ltac:(apply in_app_iff; simpl; auto))). lia. }
  destruct (apply_fill_known (users b) (in_user o) (os_user s) (in_side o) f (op_reg _ _ _ Hi) Hroom Hmk ltac:(lia))
    as (r & Er & Hreg & Hord & Hkn & Htk & Hnet).
  exists os, lv, r, n, p. split; [done|]. split.
  { assert (erem (h, s) - (os_remaining s - f) = f) as Ef by (unfold erem; simpl; lia). by rewrite Ef in E2. }
  split; [exact (emit_ok (set_levels_orders b lv os) ev Hev)|]. split; [done|]. split.
  { apply (core_ext mid tk _ _ (set_levels_orders b lv os)); done. }
  split; [done|]. split; [done|]. split; [done|]. split; [|split; [done|split; [done|]]].
  - intros u. rewrite Hord, (op_users _ _ _ Hi). unfold A1. rewrite book_sum_upd by apply (core_slot_range mid tk Hcfg _ _ _ _ _ Hc He).
    rewrite Et, !zsum_app. simpl. change (by_user u (h, os_with_remaining (os_remaining s - f) s)) with (by_user u (h, s)). lia.
  - intros Hb. destruct (Hnet Hb) as [N1 N2]. split; [|done]. intros v. rewrite N1. unfold net_delta. simpl. lia.
Qed.

(** A partial fill leaves the maker at its place. *)
Lemma fill_maker_partial A fl b t q1 h s q2 o n p :
  open_inv A fl b -> A t = q1 ++ (h, s) :: q2 -> 0 < in_remaining o < os_remaining s ->
  zlen (event_buf b) < MAX_EVENTS -> room_for (users b) (in_user o) ->
  let m : MFill := ((h, s), in_remaining o) in
  exists A' b', fill_maker b t h (relink n p s) o = Ok (in_with_remaining 0 o, b') /\
    ran o A b [m] A' fl b' /\
    A' t = q1 ++ (h, os_with_remaining (os_remaining s - in_remaining o) s) :: q2 /\ (forall t', t' <> t -> A' t' = A t').
Proof.
  intros Hi Et Hrem Hev Hroom m. pose proof (op_core _ _ _ Hi) as Hc.
  assert (In (h, s) (A t)) as He by (rewrite Et; apply in_app_iff; simpl; auto).
  destruct (fill_head A fl b t q1 h s q2 o (in_remaining o) Hi Et ltac:(lia) ltac:(lia) Hev Hroom)
    as (os & lv & r & n1 & p1 & E1 & E2 & E3 & E4 & Hc1 & Hg & Hfr & Hreg & Hus & Hkn & Htk & Hnet). cbn zeta in *.
  pose proof (lk_sum _ _ _ (c_links _ _ _ _ _ Hc1) t) as Hs. rewrite upd_same, zsum_app in Hs. simpl in Hs.
  pose proof (lk_qty _ _ _ (c_links _ _ _ _ _ Hc1) t) as Hq. rewrite upd_same in Hq.
  assert (os_remaining s - in_remaining o <= I64_MAX) as Hmax.
  { change (erem (h, os_with_remaining (os_remaining s - in_remaining o) s)) with (os_remaining s - in_remaining o) in Hs.
    pose proof (zsum_nonneg erem q1 (fun x Hx => Hq x ltac:(apply in_app_iff; auto))).
    pose proof (zsum_nonneg erem q2 (fun x Hx => Hq x ltac:(apply in_app_iff; simpl; auto))). lia. }
  eexists (upd A t (q1 ++ (h, os_with_remaining (os_remaining s - in_remaining o) s) :: q2)), _.
  split; [|split; [|split; [apply upd_same|intros; by apply upd_other]]].
  { unfold fill_maker. change (os_remaining (relink n p s)) with (os_remaining s).
    rewrite Z.min_l by lia. rewrite Z.sub_diag. change (wrap_i64 0) with 0. rewrite wrap_i64_id by width_lia.
    rewrite E1. cbn [mbind Res_bind]. rewrite E2. cbn [mbind Res_bind].
    change (Fill h (os_tif (relink n p s)) _ _ _ _ _ _ _ _ _ _ _) with
      (Fill h (os_tif s) (is_reduce_only s) (os_user s) (in_user o) (os_price s) (in_remaining o) (side_u8 (in_side o))
         (os_oid_hi s) (os_oid_lo s) (in_oid_hi o) (in_oid_lo o) (in_timestamp o)).
    rewrite E3. cbn [mbind Res_bind]. change (os_user (relink n p s)) with (os_user s).
    change (users (set_events _ _)) with (users b). cbn [in_user in_side in_with_remaining]. rewrite E4. cbn [mbind Res_bind].
    replace (os_remaining s - in_remaining o =? 0) with false by lia. reflexivity. }
  assert (forall x, live os fl x <-> live (orders b) fl x) as Hlv by (intros x; unfold live; by rewrite (fr_bump _ _ _ Hfr)).
  split; [split; cbn; try done| |by intros []].
  - intros x Hx%Hlv. destruct (op_queued _ _ _ Hi x Hx) as (t' & s' & Hin).
    destruct (in_upd_swap_back A t q1 (h, s) (h, os_with_remaining (os_remaining s - in_remaining o) s) _ q2 t' Et Hin) as [Hin'|[[= -> ->] ->]]; [eauto|].
    eexists t, _. rewrite upd_same. apply in_app_iff. right. by left.
  - intros x sx Hx Hn. apply (op_dead _ _ _ Hi x); [|by rewrite <- Hlv]. rewrite <- Hx. symmetry. apply Hfr.
    intros ->. apply Hn, Hlv. by apply (c_live _ _ _ _ _ Hc t (h, s)).
  - intros t' x Hx. destruct (in_upd_swap _ _ _ _ _ _ _ _ Et Hx) as [Hx'|[-> ->]]; [by apply (op_order _ _ _ Hi t')|].
    destruct (op_order _ _ _ Hi t _ He). split; [done|]. unfold erem. simpl. lia.
  - split; cbn; try done; try (by repeat split).
    + eapply (co_cons _ t q1 (h, s) q2); [done|unfold erem; simpl; lia| | |constructor].
      * rewrite upd_same. unfold leftover, erem. simpl. replace (in_remaining o =? os_remaining s) with false by lia. done.
      * intros. by apply upd_other.
    + unfold fill_events, mf_events. simpl. by replace (in_remaining o =? os_remaining s) with false by lia.
    + apply Hfr.
    + intros Hb. apply Hnet. intros v. specialize (Hb v). unfold filled in Hb. simpl in Hb. lia.
Qed.

Lemma complete_maker_spec A fl b t q1 h s q2 :
  core A fl b -> A t = q1 ++ (h, s) :: q2 -> zlen (event_buf b) < MAX_EVENTS ->
  reg_inv (users b) -> (forall u, orders_of (users b) u = book_sum (by_user u) A) ->
  let A' := upd A t (q1 ++ q2) in
  exists b' , complete_maker b h s = Ok b' /\ core A' (h :: fl) b' /\
    event_buf b' = event_buf b ++
      [OrderDone h (os_tif s) (is_reduce_only s) (os_user s) Filled (os_original s) 0 (os_oid_hi s) (os_oid_lo s)] /\
    keeps (set_events b []) (set_events b' []) /\ (forall sd, best_tick sd b' = best_tick sd b /\ best_px sd b' = best_px sd b) /\
    (forall x, live (orders b') (h :: fl) x <-> live (orders b) fl x /\ x <> h) /\
    (forall x, x <> h -> ~ In x (handles (q1 ++ q2)) -> vget (slots (orders b')) x = vget (slots (orders b)) x) /\
    (forall sx, vget (slots (orders b')) h = Some sx -> is_active sx = false) /\
    zlen (slots (orders b')) = zlen (slots (orders b)) /\
    reg_inv (users b') /\ (forall u, orders_of (users b') u = book_sum (by_user u) A') /\
    (forall v, known (users b) v -> known (users b') v) /\
    (forall v, net_of (users b') v = net_of (users b) v) /\ total_net (users b') = total_net (users b).
Proof.
  intros Hc Et Hev Hreg Hus A'. assert (In (h, s) (A t)) as He by (rewrite Et; apply in_app_iff; simpl; auto).
  destruct (unlink_order_spec mid tk Hcfg A fl b t q1 (h, s) q2 Hc Et) as (b1 & E1 & Hc1 & Hsh & Hfr & Hnin). cbn [fst snd] in *.
  destruct (reshape_fields _ _ Hsh) as (U1 & K1 & T1 & P1).
  destruct (links_get _ _ _ _ _ (c_links _ _ _ _ _ Hc) He) as (n & p & Hg). cbn [fst snd] in Hg.
  assert (vget (slots (orders b1)) h = Some (relink n p s)) as Hg1 by (rewrite (fr_same _ _ _ Hfr) by done; done).
  set (ev := OrderDone h (os_tif s) (is_reduce_only s) (os_user s) Filled (os_original s) 0 (os_oid_hi s) (os_oid_lo s)).
  assert (event_buf b1 = event_buf b) as Hevb by apply K1.
  set (b2 := set_events b1 (event_buf b1 ++ [ev])).
  assert (core A' fl b2) as Hc2 by (apply (core_ext mid tk _ _ b1); done).
  destruct (c_live _ _ _ _ _ Hc _ _ He) as [Hlr Hlf]. cbn [fst snd] in *.
  assert (live (orders b2) fl h) as Hlv by (split; [change (orders b2) with (orders b1); by rewrite (fr_bump _ _ _ Hfr)|done]).
  destruct (retire_spec mid tk A' fl b2 h Hc2 Hlv) as (os1 & os2 & E3 & E4 & Hc3 & Hlive3 & Hsame3 & Hdead3 & Hlen3).
  { intros t' (x & Hx & Hin)%in_map_iff. unfold A', upd in Hin. destruct (t' =? t) eqn:Ett; bool_to_prop.
    - apply Hnin. rewrite <- Hx. by apply in_map.
    - destruct x as [hx sx]. simpl in Hx. subst hx. by destruct (links_inj _ _ _ _ _ _ _ _ (c_links _ _ _ _ _ Hc) Hin He). }
  destruct (remove_user_spec mid tk Hcfg A fl b t q1 (h, s) q2 Hc Hreg Hus Et) as (u & E5 & Hreg' & Hus' & Hnet & Htn). cbn [fst snd] in *.
  exists (set_users (set_orders b2 os2) u). split.
  { unfold complete_maker. rewrite E1. cbn [mbind Res_bind]. unfold get. rewrite (vindex_some _ _ _ Hg1). cbn [mbind Res_bind].
    change (os_original (relink n p s)) with (os_original s). fold ev. rewrite emit_ok by (by rewrite Hevb). cbn [mbind Res_bind]. fold b2.
    rewrite E3. cbn [mbind Res_bind]. rewrite E4. cbn [mbind Res_bind]. change (users b2) with (users b1). rewrite U1, E5. reflexivity. }
  split; [by apply (core_ext mid tk _ _ _ _ Hc3)|]. split; [cbn; by rewrite Hevb|].
  split; [by destruct K1 as (?&?&?&?&?&?&?&?); repeat split|].
  split; [intros sd; rewrite <- T1, <- P1; by destruct sd|].
  split; [intros x; cbn; rewrite Hlive3; change (orders b2) with (orders b1); unfold live; by rewrite (fr_bump _ _ _ Hfr)|].
  split; [intros x Hx Hxn; cbn; rewrite Hsame3 by done; by apply Hfr|].
  split; [done|]. split; [cbn; rewrite Hlen3; apply (fr_len _ _ _ Hfr)|].
  split; [done|]. split; [done|]. split; [|split; [done|done]].
  intros v Hv. unfold known. cbn. by destruct (remove_order_map _ _ _ E5) as (-> & _ & _).
Qed.

Lemma fill_maker_full A fl b t q1 h s q2 o n p :
  open_inv A fl b -> A t = q1 ++ (h, s) :: q2 -> os_remaining s <= in_remaining o <= I64_MAX ->
  zlen (event_buf b) + 1 < MAX_EVENTS -> room_for (users b) (in_user o) ->
  let m : MFill := ((h, s), os_remaining s) in
  exists A' fl' b', fill_maker b t h (relink n p s) o = Ok (in_with_remaining (in_remaining o - os_remaining s) o, b') /\
    ran o A b [m] A' fl' b' /\ A' t = q1 ++ q2 /\ (forall t', t' <> t -> A' t' = A t').
Proof.
  intros Hi Et Hrem Hev Hroom m. pose proof (op_core _ _ _ Hi) as Hc.
  assert (In (h, s) (A t)) as He by (rewrite Et; apply in_app_iff; simpl; auto).
  destruct (op_order _ _ _ Hi _ _ He) as [_ Hpos]. change (erem (h, s)) with (os_remaining s) in Hpos.
  destruct (fill_head A fl b t q1 h s q2 o (os_remaining s) Hi Et ltac:(lia) ltac:(lia) ltac:(lia) Hroom)
    as (os & lv & r & n1 & p1 & E1 & E2 & E3 & E4 & Hc1 & Hg & Hfr & Hreg & Hus & Hkn & Htk & Hnet). cbn zeta in *.
  rewrite Z.sub_diag in *.
  set (A1 := upd A t (q1 ++ (h, os_with_remaining 0 s) :: q2)) in *.
  match type of Hc1 with BookInv.core _ _ _ _ ?b1 => set (b1' := b1) in * end.
  assert (zlen (event_buf b1') < MAX_EVENTS) as Hev1.
  { cbn. rewrite zlen_snoc. lia. }
  destruct (complete_maker_spec A1 fl b1' t q1 h (os_with_remaining 0 s) q2 Hc1 (upd_same _ _ _) Hev1 Hreg Hus)
    as (b' & E5 & Hc' & Hevs & Hk & Hb & Hlive & Hsame & Hdead & Hlen & Hreg' & Hus' & Hkn' & Hnet' & Htn'). cbn zeta in *.
  exists (upd A1 t (q1 ++ q2)), (h :: fl), b'.
  split; [|split; [|split; [apply upd_same|intros t' Ht'; unfold A1; by rewrite !upd_other]]].
  { unfold fill_maker. change (os_remaining (relink n p s)) with (os_remaining s).
    rewrite Z.min_r by lia. rewrite Z.sub_diag. change (wrap_i64 0) with 0. rewrite wrap_i64_id by width_lia.
    rewrite E1. cbn [mbind Res_bind]. rewrite E2. cbn [mbind Res_bind].
    change (Fill h (os_tif (relink n p s)) _ _ _ _ _ _ _ _ _ _ _) with
      (Fill h (os_tif s) (is_reduce_only s) (os_user s) (in_user o) (os_price s) (os_remaining s) (side_u8 (in_side o))
         (os_oid_hi s) (os_oid_lo s) (in_oid_hi o) (in_oid_lo o) (in_timestamp o)).
    rewrite E3. cbn [mbind Res_bind]. change (os_user (relink n p s)) with (os_user s).
    change (users (set_events _ _)) with (users b). cbn [in_user in_side in_with_remaining]. rewrite E4. cbn [mbind Res_bind].
    change (0 =? 0) with true. cbn iota. fold b1'.
    change (complete_maker b1' h (relink n p s)) with (complete_maker b1' h (os_with_remaining 0 s)). by rewrite E5. }
  assert (forall x, live os fl x <-> live (orders b) fl x) as Hlv by (intros x; unfold live; by rewrite (fr_bump _ _ _ Hfr)).
  assert (forall x, live (orders b') (h :: fl) x <-> live (orders b) fl x /\ x <> h) as Hlive'.
  { intros x. rewrite Hlive. change (orders b1') with os. by rewrite Hlv. }
  split; [split; try done| |].
  - intros x [Hx Hne]%Hlive'. destruct (op_queued _ _ _ Hi x Hx) as (t' & s' & Hin). exists t', s'.
    unfold upd. destruct (t' =? t) eqn:Ett; bool_to_prop.
    + subst t'. rewrite Et in Hin. apply in_app_iff in Hin as [Hin|[Hin|Hin]]; [apply in_app_iff; by left|congruence|apply in_app_iff; by right].
    + unfold A1. by rewrite upd_other.
  - intros x sx Hx Hn. destruct (Z.eq_dec x h) as [->|Hne]; [by apply Hdead|].
    assert (~ live (orders b) fl x) as Hnl by (intros Hl; apply Hn, Hlive'; done).
    apply (op_dead _ _ _ Hi x); [|done]. rewrite <- Hx, Hsame; [symmetry; by apply Hfr|done|].
    intros (e & <- & Hin)%in_map_iff. apply Hnl, (c_live _ _ _ _ _ Hc t). rewrite Et. by apply in_mid.
  - intros t' x Hx. apply (op_order _ _ _ Hi t'). unfold upd in Hx. destruct (t' =? t) eqn:Ett; bool_to_prop.
    + subst t'. rewrite Et. by apply in_mid.
    + unfold A1 in Hx. by rewrite upd_other in Hx.
  - split.
    + eapply (co_cons _ t q1 (h, s) q2); [done|unfold erem; simpl; lia| | |constructor].
      * rewrite upd_same. unfold leftover, erem. simpl. by rewrite Z.eqb_refl.
      * intros t' Ht'. unfold A1. by rewrite !upd_other.
    + rewrite Hevs. cbn. rewrite Z.eqb_refl, <- app_assoc. done.
    + eapply keeps_trans; [|exact Hk]. by repeat split.
    + rewrite Hlen. apply Hfr.
    + intros v Hv. by apply Hkn', Hkn.
    + intros _. by apply Hkn'.
    + done.
    + intros Hb0. destruct Hnet as [N1 N2]; [intros v; specialize (Hb0 v); unfold filled in Hb0; simpl in Hb0; lia|].
      split; [intros v; rewrite Hnet'; apply N1|]. rewrite Htn'. exact N2.
  - intros sd. destruct (Hb sd) as [-> ->]. by destruct sd.
Qed.

Lemma in_with_remaining_id o : in_with_remaining (in_remaining o) o = o.
Proof. by destruct o. Qed.

Lemma in_with_remaining_twice a c o : in_with_remaining a (in_with_remaining c o) = in_with_remaining a o.
Proof. done. Qed.

(** The budget at a loop head: events come in pairs until the taker is done. *)
Definition budget (b : Orderbook) (rem room : Z) : Prop :=
  0 <= room <= MAX_MAKERS_PER_ORDER /\ (rem = 0 \/ zlen (event_buf b) = 2 * (MAX_MAKERS_PER_ORDER - room)).

Lemma max_makers : MAX_MAKERS_PER_ORDER = 32766.
Proof. reflexivity. Qed.

Lemma budget_spent b rem room : budget b rem room -> 0 < rem -> is_budget_spent b = negb (room >? 0).
Proof. intros [Hr [?|He]] Hp; [lia|]. unfold is_budget_spent. lia. Qed.

Lemma fill_queue_stop sd limit room rem q : rem <= 0 \/ room <= 0 -> fill_queue sd limit room rem q = (q, []).
Proof. destruct q as [|e q]; [done|]. cbn. intros H. by replace ((rem >? 0) && (room >? 0))%bool with false by lia. Qed.

Lemma moved_room o A b fs A' b' : moved o A b fs A' b' -> room_for (users b) (in_user o) -> room_for (users b') (in_user o).
Proof. intros R H. destruct fs; [by rewrite (ra_users _ _ _ _ _ _ R eq_refl)|]. left. by apply (ra_taker _ _ _ _ _ _ R). Qed.

Lemma moved_taker o o' A b fs A' b' :
  (exists r, o' = in_with_remaining r o) -> moved o' A b fs A' b' -> moved o A b fs A' b'.
Proof. intros [r ->] []. by split. Qed.

Lemma ran_taker o o' A b fs A' fl' b' :
  (exists r, o' = in_with_remaining r o) -> ran o' A b fs A' fl' b' -> ran o A b fs A' fl' b'.
Proof. intros Hr []. split; try done. by eapply moved_taker. Qed.

(** A completed maker reports twice. *)
Lemma full_events_len o fs : (forall m, In m fs -> m.2 = erem m.1) -> zlen (fill_events o fs) = 2 * zlen fs.
Proof.
  induction fs as [|m fs IH]; intros H; [done|]. change (fill_events o (m :: fs)) with (mf_events o m ++ fill_events o fs).
  rewrite zlen_app, IH, zlen_cons by (intros; apply H; by right). unfold mf_events.
  pose proof (H m (or_introl eq_refl)) as Hm. unfold erem in Hm. rewrite Hm, Z.eqb_refl.
  change (zlen [_; _]) with 2. lia.
Qed.

(** The fill loop is the reference pass over the queue. *)
Lemma fill_loop_spec t limit q fuel A fl b o q1 room :
  open_inv A fl b -> A t = q1 ++ q -> (length q < fuel)%nat -> 0 <= in_remaining o <= I64_MAX ->
  budget b (in_remaining o) room -> room_for (users b) (in_user o) ->
  let '(k, fs) := fill_queue (in_side o) limit room (in_remaining o) q in
  exists A' fl' b', fill_loop fuel b t o limit (qhead q NONE) = Ok (in_with_remaining (in_remaining o - filled fs) o, b') /\
    ran o A b fs A' fl' b' /\ A' t = q1 ++ k /\ (forall t', t' <> t -> A' t' = A t').
Proof.
  revert fuel A fl b o q1 room. induction q as [|e q IH]; intros fuel A fl b o q1 room Hi Et Hf Hrem Hbud Hroom;
    (destruct fuel as [|fuel]; [simpl in Hf; lia|]); cbn [fill_loop].
  { cbn [fill_queue qhead]. rewrite Z.eqb_refl. cbn [negb andb]. exists A, fl, b.
    rewrite Z.sub_0_r, in_with_remaining_id. split; [done|]. split; [by apply ran_refl|done]. }
  pose proof (op_core _ _ _ Hi) as Hc. assert (In e (A t)) as He by (rewrite Et; apply in_app_iff; simpl; auto).
  assert (e.1 <> NONE) as Hne.
  { pose proof (core_handle mid tk _ _ _ t e.1 Hc (in_handles _ _ He)). lia. }
  cbn [qhead]. replace (e.1 =? NONE) with false by lia. cbn [negb andb].
  destruct ((in_remaining o >? 0) && negb (is_budget_spent b)) eqn:Ego.
  2: { assert (in_remaining o <= 0 \/ room <= 0) as Hstop.
       { destruct (Z_le_gt_dec (in_remaining o) 0) as [|Hp]; [by left|]. right.
         rewrite (budget_spent _ _ _ Hbud) in Ego by lia. lia. }
       rewrite fill_queue_stop by done. exists A, fl, b. unfold filled. simpl. rewrite Z.sub_0_r, in_with_remaining_id.
       split; [done|]. split; [by apply ran_refl|done]. }
  apply andb_true_iff in Ego as [Hp Hns]. apply Z.gtb_lt in Hp. rewrite (budget_spent _ _ _ Hbud) in Hns by lia.
  pose proof (lk_seg _ _ _ (c_links _ _ _ _ _ Hc) t) as Hseg. rewrite Et in Hseg. apply seg_at in Hseg.
  unfold get. rewrite (vindex_some _ _ _ Hseg). cbn [mbind Res_bind].
  set (n := qhead q NONE) in *. set (p := qlast NONE q1) in *. change (os_next (relink n p e.2)) with n.
  change (os_side (relink n p e.2)) with (os_side e.2). change (os_price (relink n p e.2)) with (os_price e.2).
  cbn [fill_queue]. replace ((in_remaining o >? 0) && (room >? 0))%bool with true by lia.
  destruct (is_crossing (os_side e.2) (os_price e.2) (in_side o) limit) eqn:Ecr; cbn [negb].
  2: { specialize (IH fuel A fl b o (q1 ++ [e]) room Hi). rewrite <- app_assoc in IH.
       specialize (IH Et ltac:(simpl in Hf; lia) Hrem Hbud Hroom).
       destruct (fill_queue (in_side o) limit room (in_remaining o) q) as [k fs].
       destruct IH as (A' & fl' & b' & E & R & EA & Eo). exists A', fl', b'. rewrite EA, <- app_assoc. done. }
  destruct Hbud as [Hrr [?|Hev]]; [lia|]. rewrite max_makers in *.
  destruct (Z_le_gt_dec (erem e) (in_remaining o)) as [Hfull|Hpart].
  - rewrite Z.min_r by lia. destruct e as [h s]. cbn [fst snd] in *. change (erem (h, s)) with (os_remaining s) in *.
    destruct (fill_maker_full A fl b t q1 h s q o n p Hi Et ltac:(lia) ltac:(unfold MAX_EVENTS; lia) Hroom)
      as (A1 & fl1 & b1 & E1 & R1 & EA1 & Eo1). rewrite E1. cbn [mbind Res_bind].
    destruct (op_order _ _ _ Hi _ _ He) as [_ Hpos]. change (erem (h, s)) with (os_remaining s) in Hpos.
    set (o1 := in_with_remaining (in_remaining o - os_remaining s) o).
    specialize (IH fuel A1 fl1 b1 o1 q1 (room - 1) (ra_inv _ _ _ _ _ _ _ R1) EA1 ltac:(simpl in Hf; lia)).
    cbn [in_remaining o1 in_with_remaining in_side in_user] in IH. specialize (IH ltac:(lia)).
    destruct (fill_queue (in_side o) limit (room - 1) (in_remaining o - os_remaining s) q) as [k fs] eqn:EQ.
    destruct IH as (A' & fl' & b' & E & R & EA & Eo).
    { split; [rewrite max_makers; lia|]. right. rewrite (ra_events _ _ _ _ _ _ (ra_moved _ _ _ _ _ _ _ R1)), zlen_app, full_events_len, max_makers.
      - change (zlen [_]) with 1. lia.
      - by intros m [<-|[]]. }
    { apply (moved_room _ _ _ _ _ _ (ra_moved _ _ _ _ _ _ _ R1) Hroom). }
    exists A', fl', b'. cbn in E. rewrite E. split; [|split; [|split]].
    + f_equal. f_equal. unfold o1. rewrite in_with_remaining_twice. f_equal. unfold filled. simpl. lia.
    + apply (ran_trans o A b [_] A1 fl1 b1 fs A' fl' b' R1). apply (ran_taker o o1); [by eexists|done].
    + rewrite EA. unfold leftover. change (erem (h, s)) with (os_remaining s). by rewrite Z.eqb_refl.
    + intros t' Ht'. by rewrite Eo, Eo1.
  - rewrite Z.min_l by lia. rewrite Z.sub_diag, fill_queue_stop by lia.
    destruct e as [h s]. cbn [fst snd] in *. change (erem (h, s)) with (os_remaining s) in *.
    destruct (fill_maker_partial A fl b t q1 h s q o n p Hi Et ltac:(lia) ltac:(unfold MAX_EVENTS; lia) Hroom)
      as (A1 & b1 & E1 & R1 & EA1 & Eo1). rewrite E1. cbn [mbind Res_bind].
    destruct fuel as [|fuel]; [simpl in Hf; lia|]. cbn [fill_loop in_remaining in_with_remaining].
    rewrite andb_false_r. cbn [andb]. exists A1, fl, b1. split; [|split; [exact R1|split; [|exact Eo1]]].
    + f_equal. f_equal. f_equal. unfold filled. simpl. lia.
    + rewrite EA1. unfold leftover. change (erem (h, s)) with (os_remaining s).
      by replace (in_remaining o =? os_remaining s) with false by lia.
Qed.

Lemma fill_level_spec t limit A fl b o room :
  open_inv A fl b -> 0 <= t < total mid tk -> 0 <= in_remaining o <= I64_MAX ->
  budget b (in_remaining o) room -> room_for (users b) (in_user o) ->
  let '(k, fs) := fill_queue (in_side o) limit room (in_remaining o) (A t) in
  exists A' fl' b', fill_level b t o limit = Ok (in_with_remaining (in_remaining o - filled fs) o, b') /\
    ran o A b fs A' fl' b' /\ A' t = k /\ (forall t', t' <> t -> A' t' = A t').
Proof.
  intros Hi Ht Hrem Hbud Hroom. pose proof (op_core _ _ _ Hi) as Hc. pose proof (c_links _ _ _ _ _ Hc) as Hl.
  unfold fill_level. rewrite (vindex_some _ _ _ (core_level mid tk _ _ _ t Hc Ht)). cbn [mbind Res_bind].
  apply (fill_loop_spec t limit (A t) (S (length (slots (orders b)))) A fl b o [] room); try done.
  pose proof (seg_length _ _ _ _ (lk_seg _ _ _ Hl t) (lk_nodup _ _ _ Hl t)). lia.
Qed.

End Matching.
