(* ===== verification/FillQueue.v ===== *)
(** * FillQueue: the reference pass over one queue

    Facts about [fill_queue] alone: it takes the crossing makers in arrival
    order, completes each before the next, never exceeds the taker or the
    budget, and stops early only for one of those two reasons. *)

From S2P Require Import Prelude Types Slab Order Book Links BookInv Matching MatchInv.

Definition cross (sd : Side) (limit : Z) (e : Entry) : bool := is_crossing (os_side e.2) (os_price e.2) sd limit.

(** Crossing makers and their quantity. *)
Definition cross_count (sd : Side) (limit : Z) (q : list Entry) : Z := zsum (fun e => if cross sd limit e then 1 else 0) q.
Definition cross_qty (sd : Side) (limit : Z) (q : list Entry) : Z := zsum (fun e => if cross sd limit e then erem e else 0) q.

Section Pass.
Variables (sd : Side) (limit : Z).

Lemma fill_queue_unfold room rem e q :
  fill_queue sd limit room rem (e :: q) =
  if (rem >? 0) && (room >? 0) then
    if cross sd limit e then
      let f := Z.min rem (erem e) in
      let '(k, fs) := fill_queue sd limit (room - 1) (rem - f) q in (leftover e f ++ k, (e, f) :: fs)
    else let '(k, fs) := fill_queue sd limit room rem q in (e :: k, fs)
  else (e :: q, []).
Proof. reflexivity. Qed.

(** What a pass takes. *)
Lemma pass_takes q room rem k fs :
  fill_queue sd limit room rem q = (k, fs) -> (forall e, In e q -> 0 < erem e) ->
  (forall m, In m fs -> In m.1 q /\ cross sd limit m.1 = true /\ 0 < m.2 <= erem m.1) /\
  0 <= filled fs <= Z.max 0 rem /\ zlen fs <= Z.max 0 room.
Proof.
  revert room rem k fs. induction q as [|e q IH]; intros room rem k fs.
  { cbn. intros [= <- <-] _. split; [by intros m []|]. split; [unfold filled; simpl; lia|unfold zlen; simpl; lia]. }
  rewrite fill_queue_unfold. intros E Hpos.
  assert (forall x, In x q -> 0 < erem x) as Hposq by (intros; apply Hpos; by right). pose proof (Hpos e (or_introl eq_refl)) as He.
  destruct ((rem >? 0) && (room >? 0)) eqn:Ego.
  2: { injection E as <- <-. split; [by intros m []|]. split; [unfold filled; simpl; lia|unfold zlen; simpl; lia]. }
  destruct (cross sd limit e) eqn:Ec; cbn zeta in E.
  - destruct (fill_queue sd limit (room - 1) (rem - Z.min rem (erem e)) q) as [k1 fs1] eqn:E1. injection E as <- <-.
    destruct (IH _ _ _ _ E1 Hposq) as (H1 & H2 & H3). split; [|split].
    + intros m [<-|Hm]; [cbn; split; [by left|]; split; [done|lia]|]. destruct (H1 m Hm) as (? & ? & ?). split; [by right|done].
    + unfold filled in *. simpl. lia.
    + rewrite zlen_cons. lia.
  - destruct (fill_queue sd limit room rem q) as [k1 fs1] eqn:E1. injection E as <- <-.
    destruct (IH _ _ _ _ E1 Hposq) as (H1 & H2 & H3). split; [|done].
    intros m Hm. destruct (H1 m Hm) as (? & ? & ?). split; [by right|done].
Qed.

(** A taker with quantity left has completed every maker it touched. *)
Lemma pass_full q room rem k fs :
  fill_queue sd limit room rem q = (k, fs) -> (forall e, In e q -> 0 < erem e) -> 0 < rem - filled fs ->
  forall m, In m fs -> m.2 = erem m.1.
Proof.
  revert room rem k fs. induction q as [|e q IH]; intros room rem k fs.
  { cbn. intros [= <- <-] _ _. by intros m []. }
  rewrite fill_queue_unfold. intros E Hpos Hleft.
  assert (forall x, In x q -> 0 < erem x) as Hposq by (intros; apply Hpos; by right).
  destruct ((rem >? 0) && (room >? 0)); [|injection E as <- <-; by intros m []].
  destruct (cross sd limit e); cbn zeta in E.
  - destruct (fill_queue sd limit (room - 1) (rem - Z.min rem (erem e)) q) as [k1 fs1] eqn:E1. injection E as <- <-.
    unfold filled in Hleft. simpl in Hleft. fold (filled fs1) in Hleft.
    destruct (pass_takes _ _ _ _ _ E1 Hposq) as (_ & Hf & _).
    intros m [<-|Hm]; [cbn; lia|]. apply (IH _ _ _ _ E1 Hposq); [lia|done].
  - destruct (fill_queue sd limit room rem q) as [k1 fs1] eqn:E1. injection E as <- <-. by apply (IH _ _ _ _ E1).
Qed.

(** What a pass keeps: the same orders, in the same order, at their price. *)
Definition same_order (x y : Entry) : Prop :=
  x.1 = y.1 /\ os_price x.2 = os_price y.2 /\ os_side x.2 = os_side y.2 /\ erem x <= erem y.

Lemma same_order_refl x : same_order x x.
Proof. done. Qed.

Lemma same_order_trans x y z : same_order x y -> same_order y z -> same_order x z.
Proof. unfold same_order. intros (-> & -> & -> & ?) (-> & -> & -> & ?). repeat split; lia. Qed.

Lemma same_order_cross x y l : same_order x y -> cross sd l x = cross sd l y.
Proof. unfold cross. by intros (_ & -> & -> & _). Qed.

Lemma leftover_same e f x : 0 <= f -> In x (leftover e f) -> same_order x e /\ f <> erem e.
Proof.
  unfold leftover. destruct (f =? erem e) eqn:E; bool_to_prop; [done|]. intros Hf [<-|[]].
  split; [|done]. repeat split. unfold erem in *. simpl. lia.
Qed.

Lemma pass_kept q room rem k fs :
  fill_queue sd limit room rem q = (k, fs) -> (forall e, In e q -> 0 < erem e) ->
  forall x, In x k -> exists y, In y q /\ same_order x y.
Proof.
  revert room rem k fs. induction q as [|e q IH]; intros room rem k fs.
  { cbn. intros [= <- <-] _. by intros x []. }
  rewrite fill_queue_unfold. intros E Hpos.
  assert (forall x, In x q -> 0 < erem x) as Hposq by (intros; apply Hpos; by right). pose proof (Hpos e (or_introl eq_refl)) as He.
  destruct ((rem >? 0) && (room >? 0)) eqn:Ego; [|injection E as <- <-; intros x Hx; exists x; split; [done|apply same_order_refl]].
  assert (forall room rem k1 fs1, fill_queue sd limit room rem q = (k1, fs1) -> forall x, In x k1 -> exists y, In y (e :: q) /\ same_order x y) as IH'.
  { intros ? ? ? ? E1 x Hx. destruct (IH _ _ _ _ E1 Hposq x Hx) as (y & Hy & Hs). exists y. split; [by right|done]. }
  destruct (cross sd limit e); cbn zeta in E.
  - destruct (fill_queue sd limit (room - 1) (rem - Z.min rem (erem e)) q) as [k1 fs1] eqn:E1. injection E as <- <-.
    intros x [Hx|Hx]%in_app_iff; [|by eapply IH']. exists e. split; [by left|]. by destruct (leftover_same e (Z.min rem (erem e)) x ltac:(lia) Hx).
  - destruct (fill_queue sd limit room rem q) as [k1 fs1] eqn:E1. injection E as <- <-.
    intros x [<-|Hx]; [|by eapply IH']. exists e. split; [by left|apply same_order_refl].
Qed.

(** If neither the taker nor the budget ran out, nothing crossing is left. *)
Lemma pass_exhausts q room rem k fs :
  fill_queue sd limit room rem q = (k, fs) -> (forall e, In e q -> 0 < erem e) ->
  0 < rem - filled fs -> zlen fs < room -> forall x, In x k -> cross sd limit x = false.
Proof.
  revert room rem k fs. induction q as [|e q IH]; intros room rem k fs.
  { cbn. intros [= <- <-] _ _ _. by intros x []. }
  rewrite fill_queue_unfold. intros E Hpos Hleft Hroom.
  assert (forall x, In x q -> 0 < erem x) as Hposq by (intros; apply Hpos; by right). pose proof (Hpos e (or_introl eq_refl)) as He.
  destruct ((rem >? 0) && (room >? 0)) eqn:Ego.
  2: { injection E as <- <-. unfold filled in Hleft. unfold zlen in Hroom. simpl in *. lia. }
  destruct (cross sd limit e) eqn:Ec; cbn zeta in E.
  - destruct (fill_queue sd limit (room - 1) (rem - Z.min rem (erem e)) q) as [k1 fs1] eqn:E1. injection E as <- <-.
    unfold filled in Hleft. simpl in Hleft. fold (filled fs1) in Hleft. rewrite zlen_cons in Hroom.
    destruct (pass_takes _ _ _ _ _ E1 Hposq) as (_ & Hf & _).
    intros x [Hx|Hx]%in_app_iff; [|apply (IH _ _ _ _ E1 Hposq); [lia|lia|done]].
    exfalso. destruct (leftover_same e (Z.min rem (erem e)) x ltac:(lia) Hx) as [_ Hne]. lia.
  - destruct (fill_queue sd limit room rem q) as [k1 fs1] eqn:E1. injection E as <- <-.
    intros x [<-|Hx]; [done|]. by apply (IH _ _ _ _ E1).
Qed.

(** Arrival order: a crossing maker ahead of a filled one is completed. *)
Lemma pass_fifo q room rem k fs q1 e q2 f :
  fill_queue sd limit room rem q = (k, fs) -> (forall e, In e q -> 0 < erem e) -> NoDup (handles q) ->
  q = q1 ++ e :: q2 -> In (e, f) fs ->
  forall x, In x q1 -> cross sd limit x = true -> In (x, erem x) fs /\ ~ In x.1 (handles k).
Proof.
  revert room rem k fs q1. induction q as [|a q IH]; intros room rem k fs q1; [by destruct q1|].
  rewrite fill_queue_unfold. intros E Hpos Hnd Eq Hin.
  assert (forall x, In x q -> 0 < erem x) as Hposq by (intros; apply Hpos; by right). pose proof (Hpos a (or_introl eq_refl)) as Ha.
  destruct ((rem >? 0) && (room >? 0)) eqn:Ego; [|injection E as <- <-; done].
  simpl in Hnd. apply NoDup_cons in Hnd as [Hna Hnd]. rewrite list_elem_of_In in Hna.
  assert (forall room rem k1 fs1, fill_queue sd limit room rem q = (k1, fs1) -> ~ In a.1 (handles k1)) as Hak.
  { intros ? ? ? ? E1 (y & Hy & Hyk)%in_map_iff. destruct (pass_kept _ _ _ _ _ E1 Hposq y Hyk) as (z & Hz & Hs & _).
    apply Hna. apply in_map_iff. exists z. split; [congruence|done]. }
  destruct q1 as [|a' q1]; [by intros x []|]. injection Eq as <- Eq.
  assert (e <> a) as Hea. { intros ->. apply Hna. rewrite Eq. apply in_map, in_app_iff. right. by left. }
  destruct (cross sd limit a) eqn:Ec; cbn zeta in E.
  - destruct (fill_queue sd limit (room - 1) (rem - Z.min rem (erem a)) q) as [k1 fs1] eqn:E1. injection E as <- <-.
    destruct Hin as [Hin|Hin]; [congruence|].
    destruct (pass_takes _ _ _ _ _ E1 Hposq) as (Ht & Hf & Hzl).
    assert (Z.min rem (erem a) = erem a) as Hfull.
    { destruct (Z_le_gt_dec rem (erem a)) as [Hle|]; [|lia]. rewrite Z.min_l in E1 by done. rewrite Z.sub_diag in E1.
      rewrite fill_queue_stop in E1 by lia. injection E1 as <- <-. done. }
    intros x [<-|Hx] Hc.
    + rewrite Hfull. split; [by left|]. unfold leftover. rewrite Z.eqb_refl. simpl. by eapply Hak.
    + destruct (IH _ _ _ _ q1 E1 Hposq Hnd Eq Hin x Hx Hc) as [H1 H2]. split; [by right|].
      unfold leftover. rewrite Hfull, Z.eqb_refl. done.
  - destruct (fill_queue sd limit room rem q) as [k1 fs1] eqn:E1. injection E as <- <-.
    intros x [<-|Hx] Hc; [congruence|]. destruct (IH _ _ _ _ q1 E1 Hposq Hnd Eq Hin x Hx Hc) as [H1 H2].
    split; [done|]. simpl. intros [Heq|H3]; [|done]. apply Hna. rewrite Eq. unfold handles. rewrite map_app. apply in_app_iff. left.
    rewrite Heq. by apply in_map.
Qed.

Lemma cross_sums_nonneg q :
  (forall e, In e q -> 0 < erem e) -> 0 <= cross_qty sd limit q /\ 0 <= cross_count sd limit q.
Proof. intros Hpos. split; apply zsum_nonneg; intros x Hx; [pose proof (Hpos x Hx)|]; case_if; lia. Qed.

Lemma cross_sums_in q x :
  (forall e, In e q -> 0 < erem e) -> In x q -> cross sd limit x = true ->
  erem x <= cross_qty sd limit q /\ 1 <= cross_count sd limit q.
Proof.
  unfold cross_qty, cross_count. induction q as [|e q IH]; intros Hpos; [done|].
  assert (forall y, In y q -> 0 < erem y) as Hposq by (intros; apply Hpos; by right).
  pose proof (Hpos e (or_introl eq_refl)). pose proof (cross_sums_nonneg q Hposq) as Hnn. unfold cross_qty, cross_count in Hnn.
  simpl. intros [->|Hx] Hc; [rewrite Hc; lia|]. specialize (IH Hposq Hx Hc). destruct (cross sd limit e); lia.
Qed.

(** A taker that covers every crossing maker takes all of them. *)
Lemma pass_covers q room rem k fs :
  fill_queue sd limit room rem q = (k, fs) -> (forall e, In e q -> 0 < erem e) ->
  cross_qty sd limit q <= rem -> cross_count sd limit q <= room -> forall x, In x k -> cross sd limit x = false.
Proof.
  revert room rem k fs. induction q as [|e q IH]; intros room rem k fs.
  { cbn. intros [= <- <-] _ _ _. by intros x []. }
  rewrite fill_queue_unfold. intros E Hpos Hq Hn.
  destruct ((rem >? 0) && (room >? 0)) eqn:Ego.
  2: { injection E as <- <-. intros x Hx. destruct (cross sd limit x) eqn:Ex; [|done].
       pose proof (Hpos x Hx). pose proof (cross_sums_in _ x Hpos Hx Ex). lia. }
  assert (forall x, In x q -> 0 < erem x) as Hposq by (intros; apply Hpos; by right).
  pose proof (cross_sums_nonneg q Hposq) as Hnn. unfold cross_qty, cross_count in *. simpl in Hq, Hn.
  destruct (cross sd limit e) eqn:Ec; cbn zeta in E.
  - destruct (fill_queue sd limit (room - 1) (rem - Z.min rem (erem e)) q) as [k1 fs1] eqn:E1. injection E as <- <-.
    rewrite Z.min_r in * by lia. unfold leftover. rewrite Z.eqb_refl. simpl. apply (IH _ _ _ _ E1 Hposq); lia.
  - destruct (fill_queue sd limit room rem q) as [k1 fs1] eqn:E1. injection E as <- <-.
    intros x [<-|Hx]; [done|]. by apply (IH _ _ _ _ E1 Hposq); [lia|lia|].
Qed.

(** Completing makers keeps the others, in order. *)
Lemma pass_sublist q room rem k fs :
  fill_queue sd limit room rem q = (k, fs) -> (forall m, In m fs -> m.2 = erem m.1) -> k `sublist_of` q.
Proof.
  revert room rem k fs. induction q as [|e q IH]; intros room rem k fs; [cbn; by intros [= <- <-]|].
  rewrite fill_queue_unfold. intros E Hfull.
  destruct ((rem >? 0) && (room >? 0)); [|by injection E as <- <-].
  destruct (cross sd limit e); cbn zeta in E.
  - destruct (fill_queue sd limit (room - 1) (rem - Z.min rem (erem e)) q) as [k1 fs1] eqn:E1. injection E as <- <-.
    pose proof (Hfull _ (or_introl eq_refl)) as He. cbn in He. unfold leftover. rewrite He, Z.eqb_refl. simpl.
    apply sublist_cons. apply (IH _ _ _ _ E1). intros m Hm. apply Hfull. by right.
  - destruct (fill_queue sd limit room rem q) as [k1 fs1] eqn:E1. injection E as <- <-.
    apply sublist_skip. by apply (IH _ _ _ _ E1).
Qed.

Lemma pass_length q room rem k fs :
  fill_queue sd limit room rem q = (k, fs) -> (forall m, In m fs -> m.2 = erem m.1) -> zlen k + zlen fs = zlen q.
Proof.
  revert room rem k fs. induction q as [|e q IH]; intros room rem k fs; [cbn; by intros [= <- <-]|].
  rewrite fill_queue_unfold. intros E Hfull.
  destruct ((rem >? 0) && (room >? 0)); [|injection E as <- <-; unfold zlen; simpl; lia].
  destruct (cross sd limit e); cbn zeta in E.
  - destruct (fill_queue sd limit (room - 1) (rem - Z.min rem (erem e)) q) as [k1 fs1] eqn:E1. injection E as <- <-.
    pose proof (Hfull _ (or_introl eq_refl)) as He. cbn in He. unfold leftover. rewrite He, Z.eqb_refl. simpl.
    rewrite !zlen_cons. specialize (IH _ _ _ _ E1 (fun m Hm => Hfull m (or_intror Hm))). lia.
  - destruct (fill_queue sd limit room rem q) as [k1 fs1] eqn:E1. injection E as <- <-.
    rewrite !zlen_cons. specialize (IH _ _ _ _ E1 Hfull). lia.
Qed.

(** A pass that can fill does. *)
Lemma pass_progress q room rem k fs x :
  fill_queue sd limit room rem q = (k, fs) -> 0 < rem -> 0 < room -> In x q -> cross sd limit x = true -> fs <> [].
Proof.
  revert room rem k fs. induction q as [|e q IH]; intros room rem k fs; [done|].
  rewrite fill_queue_unfold. intros E Hr Hroom Hx Hc. replace ((rem >? 0) && (room >? 0))%bool with true in E by lia.
  destruct (cross sd limit e) eqn:Ec; cbn zeta in E.
  - destruct (fill_queue sd limit (room - 1) (rem - Z.min rem (erem e)) q). by injection E as <- <-.
  - destruct (fill_queue sd limit room rem q) as [k1 fs1] eqn:E1. injection E as <- <-.
    destruct Hx as [->|Hx]; [congruence|]. by eapply IH.
Qed.

End Pass.
