(* ===== verification/SlotMatch.v ===== *)
(** * SlotMatch: matching against one price slot

    [match_at_level] of [rsx-book/src/matching.rs]: a zone-0 slot is one pass
    in arrival order; a compressed slot is one pass when the taker covers every
    crossing maker and repeated passes at the best crossing price otherwise.
    Both give price-time priority within the slot. *)

From S2P Require Import Prelude Types Slab Occupancy Compression Users Order Book Links BookInv Matching MatchInv.
From S2P Require Import FillQueue.

Lemma cross_spec sd limit e :
  (os_side e.2 = side_u8 Buy \/ os_side e.2 = side_u8 Sell) ->
  cross sd limit e = true <-> is_side (opposite sd) e.2 = true /\ no_worse (opposite sd) (os_price e.2) limit.
Proof.
  unfold cross, is_crossing, is_side. intros [-> | ->]; destruct sd; simpl; rewrite ?Z.geb_leb, ?Z.leb_le; intuition lia.
Qed.

(** ** The crossing scan *)

Definition scan_of (sd : Side) (limit : Z) (q : list Entry) : Crossing :=
  qfold (crossing_step sd limit) q (mkCrossing limit 0 0).

Lemma linkless_crossing sd limit : linkless (crossing_step sd limit).
Proof. by intros c n p []. Qed.

Lemma scan_of_snoc sd limit q e : scan_of sd limit (q ++ [e]) = crossing_step sd limit (scan_of sd limit q) e.2.
Proof. unfold scan_of, qfold. by rewrite fold_left_app. Qed.

Lemma cross_qty_le sd limit q : (forall e, In e q -> 0 <= erem e) -> cross_qty sd limit q <= zsum erem q.
Proof.
  unfold cross_qty. induction q as [|e q IH]; intros H; [done|]. simpl.
  pose proof (H e (or_introl eq_refl)). specialize (IH (fun x Hx => H x (or_intror Hx))). case_if; lia.
Qed.

(** Count, quantity and best price of the crossing makers. *)
Lemma scan_of_spec sd limit q :
  (forall e, In e q -> 0 < erem e) -> zsum erem q <= I64_MAX ->
  (forall e, In e q -> os_side e.2 = side_u8 Buy \/ os_side e.2 = side_u8 Sell) ->
  cr_makers (scan_of sd limit q) = cross_count sd limit q /\ cr_qty (scan_of sd limit q) = cross_qty sd limit q /\
  no_worse (opposite sd) (cr_best_price (scan_of sd limit q)) limit /\
  (forall e, In e q -> cross sd limit e = true -> no_worse (opposite sd) (cr_best_price (scan_of sd limit q)) (os_price e.2)) /\
  (0 < cross_count sd limit q -> exists e, In e q /\ cross sd limit e = true /\ os_price e.2 = cr_best_price (scan_of sd limit q)).
Proof.
  induction q as [|e q IH] using rev_ind; intros Hpos Hsum Hside.
  { split; [done|]. split; [done|]. split; [apply no_worse_refl|]. split; [by intros e []|]. unfold cross_count. simpl. lia. }
  rewrite zsum_app in Hsum. simpl in Hsum.
  assert (forall x, In x q -> In x (q ++ [e])) as Hin by (intros; apply in_app_iff; auto).
  assert (In e (q ++ [e])) as Hee by (apply in_app_iff; simpl; auto). pose proof (Hpos e Hee) as He.
  assert (forall x, In x q -> 0 < erem x) as Hposq by auto.
  pose proof (cross_sums_nonneg sd limit q Hposq) as Hnn.
  pose proof (cross_qty_le sd limit q (fun x Hx => ltac:(pose proof (Hposq x Hx); lia))) as Hle.
  destruct IH as (I1 & I2 & I3 & I4 & I5); [auto|lia|auto|].
  rewrite scan_of_snoc. unfold cross_count, cross_qty in *. rewrite !zsum_app. simpl. unfold crossing_step.
  fold (cross sd limit e). destruct (cross sd limit e) eqn:Ec; cbn [cr_makers cr_qty cr_best_price].
  - assert (no_worse (opposite sd) (os_price e.2) limit) as Hlim by (apply (cross_spec sd limit e); auto).
    fold (erem e). rewrite I1, I2, wrap_i64_id by width_lia. split; [lia|]. split; [lia|].
    split; [destruct sd; simpl in *; lia|]. split.
    + intros x [Hx|[<-|[]]]%in_app_iff Hc; [|destruct sd; simpl; lia]. specialize (I4 x Hx Hc). destruct sd; simpl in *; lia.
    + intros _. set (p := match sd with Buy => _ | Sell => _ end).
      destruct (Z.eq_dec p (os_price e.2)) as [Heq|Hne]; [exists e; auto|].
      assert (p = cr_best_price (scan_of sd limit q)) as Hp by (unfold p in *; destruct sd; lia). rewrite Hp.
      destruct (Z.eq_dec (zsum (fun e => if cross sd limit e then 1 else 0) q) 0) as [Hz|Hnz].
      * exfalso. assert (cr_best_price (scan_of sd limit q) = limit) as Hl.
        { clear -Hz. induction q as [|x q IH] using rev_ind; [done|]. rewrite scan_of_snoc. rewrite zsum_app in Hz. simpl in Hz.
          pose proof (zsum_nonneg (fun e => if cross sd limit e then 1 else 0) q ltac:(intros; cbn beta; case_if; lia)).
          unfold crossing_step. fold (cross sd limit x). destruct (cross sd limit x); [lia|]. apply IH. lia. }
        rewrite Hl in Hp. unfold p in *. rewrite Hl in *. destruct sd; simpl in *; lia.
      * destruct I5 as (x & Hx & Hxc & Hxp); [lia|]. exists x. auto.
  - rewrite I1, I2. split; [lia|]. split; [lia|]. split; [done|]. split.
    + intros x [Hx|[<-|[]]]%in_app_iff Hc; [auto|congruence].
    + intros H0. destruct I5 as (x & Hx & Hxc & Hxp); [lia|]. exists x. auto.
Qed.

(** ** What matching one slot leaves *)

Record queue_ok (q : list Entry) : Prop := {
  qo_pos : forall e, In e q -> 0 < erem e;
  qo_side : forall e, In e q -> os_side e.2 = side_u8 Buy \/ os_side e.2 = side_u8 Sell;
  qo_nodup : NoDup (handles q);
  qo_sum : zsum erem q <= I64_MAX;
}.

(** [fs] is a fair consumption of [q] by taker [o]: crossing makers only,
    within the taker and the budget, completed one by one, best price first
    and first come first served within a price. *)
Record fair (o : IncomingOrder) (room : Z) (q k : list Entry) (fs : list MFill) : Prop := {
  fa_takes : forall m, In m fs -> In m.1 q /\ cross (in_side o) (in_price o) m.1 = true /\ 0 < m.2 <= erem m.1;
  fa_rem : 0 <= filled fs <= in_remaining o;
  fa_room : zlen fs <= room;
  fa_full : 0 < in_remaining o - filled fs -> forall m, In m fs -> m.2 = erem m.1;
  fa_kept : forall x, In x k -> exists y, In y q /\ same_order x y;
  fa_best : forall m x, In m fs -> In x k -> is_side (opposite (in_side o)) x.2 = true ->
    no_worse (opposite (in_side o)) (os_price m.1.2) (os_price x.2);
  fa_fifo : forall q1 e q2 f x, q = q1 ++ e :: q2 -> In (e, f) fs -> In x q1 ->
    is_side (opposite (in_side o)) x.2 = true -> os_price x.2 = os_price e.2 -> ~ In x.1 (handles k);
  fa_progress : 0 < in_remaining o -> 0 < room -> (exists x, In x q /\ cross (in_side o) (in_price o) x = true) -> fs <> [];
}.

(** The taker ran out, the budget did, or nothing crossing is left. *)
Definition exhausted (o : IncomingOrder) (room : Z) (k : list Entry) (fs : list MFill) : Prop :=
  0 < in_remaining o - filled fs -> zlen fs < room -> forall x, In x k -> cross (in_side o) (in_price o) x = false.

Lemma kept_handle k q h :
  (forall x, In x k -> exists y, In y q /\ same_order x y) -> In h (handles k) -> In h (handles q).
Proof.
  intros Hk (x & <- & Hx)%in_map_iff. destruct (Hk x Hx) as (y & Hy & Hs & _). rewrite Hs. by apply in_map.
Qed.

Lemma sublist_split (k q1 q2 : list Entry) e :
  k `sublist_of` q1 ++ e :: q2 -> In e k -> NoDup (handles (q1 ++ e :: q2)) ->
  exists k1 k2, k = k1 ++ e :: k2 /\ (forall x, In x q1 -> In x k -> In x k1).
Proof.
  intros Hs He Hnd. pose proof (nodup_mid _ _ _ Hnd) as (Hnin & _ & Hdis).
  assert (~ In e q1 /\ ~ In e q2) as [Hn1 Hn2].
  { split; intros H; apply Hnin; unfold handles; rewrite map_app; apply in_app_iff; [left|right]; by apply in_map. }
  apply sublist_app_r in Hs as (k1 & k2 & -> & Hk1 & Hk2).
  assert (forall x (l l' : list Entry), l `sublist_of` l' -> In x l -> In x l') as Hsub.
  { intros x l l' Hl Hx. rewrite <- list_elem_of_In in *. by eapply elem_of_sublist. }
  apply sublist_cons_r in Hk2 as [Hk2|(k2' & -> & Hk2)].
  { exfalso. apply in_app_iff in He as [He|He]; [apply Hn1|apply Hn2]; by eapply Hsub. }
  exists k1, k2'. split; [done|]. intros x Hx Hxk. apply in_app_iff in Hxk as [?|[<-|Hxk]]; [done|done|].
  exfalso. apply (Hdis x.1); [by apply in_map|]. apply in_map. by eapply Hsub.
Qed.

(** Two fair consumptions in a row. *)
Lemma fair_trans o o1 room q k1 fs1 k2 fs2 :
  NoDup (handles q) -> o1 = in_with_remaining (in_remaining o - filled fs1) o ->
  fair o room q k1 fs1 -> fs1 <> [] -> 0 < in_remaining o1 -> k1 `sublist_of` q ->
  fair o1 (room - zlen fs1) k1 k2 fs2 -> fair o room q k2 (fs1 ++ fs2).
Proof.
  intros Hnd Eo [a1 a2 a3 a4 a5 a6 a7 a8] Hne Hleft Hsub F2. rewrite Eo in F2, Hleft. destruct F2 as [b1 b2 b3 b4 b5 b6 b7 b8]. cbn in *.
  assert (forall x, In x k1 -> In x q) as Hin by (intros x; rewrite <- !list_elem_of_In; intros; by eapply elem_of_sublist).
  split.
  - intros m [Hm|Hm]%in_app_iff; [auto|]. destruct (b1 m Hm) as (? & ? & ?). auto.
  - rewrite filled_app. lia.
  - rewrite zlen_app. lia.
  - rewrite filled_app. intros Hl m [Hm|Hm]%in_app_iff; [apply a4; [lia|done]|apply b4; [lia|done]].
  - intros x Hx. destruct (b5 x Hx) as (y & Hy & Hs). eauto.
  - intros m x [Hm|Hm]%in_app_iff Hx Hsd; [|by apply b6]. destruct (b5 x Hx) as (y & Hy & Hs).
    destruct Hs as (_ & -> & Hss & _). apply a6; [done|done|]. unfold is_side in *. by rewrite <- Hss.
  - intros q1 e q2 f x Eq [Hm|Hm]%in_app_iff Hx Hsd Hp Hh.
    + apply (a7 q1 e q2 f x Eq Hm Hx Hsd Hp). by eapply kept_handle.
    + destruct (b1 _ Hm) as (Hek & _ & _). cbn in Hek. rewrite Eq in Hsub, Hnd.
      destruct (sublist_split k1 q1 q2 e Hsub Hek Hnd) as (l1 & l2 & El & Hl).
      assert (In x k1) as Hxk.
      { apply kept_handle with (q := k1) in Hh; [|done]. apply in_map_iff in Hh as (y & Hy & Hyk).
        rewrite <- (handle_inj _ y x Hnd); [done| | |done].
        - rewrite <- Eq. by apply Hin.
        - apply in_app_iff. by left. }
      by apply (b7 l1 e l2 f x El Hm (Hl x Hx Hxk) Hsd Hp).
  - intros _ _ _ [H _]%app_nil. done.
Qed.

(** One pass is fair when its limit separates takers from survivors. *)
Lemma pass_fair o room q limit k fs :
  queue_ok q -> fill_queue (in_side o) limit room (in_remaining o) q = (k, fs) -> 0 <= in_remaining o -> 0 <= room ->
  (forall x, In x q -> cross (in_side o) limit x = true -> cross (in_side o) (in_price o) x = true) ->
  (forall m x, In m fs -> In x k -> is_side (opposite (in_side o)) x.2 = true ->
     no_worse (opposite (in_side o)) (os_price m.1.2) (os_price x.2)) ->
  ((exists x, In x q /\ cross (in_side o) (in_price o) x = true) -> exists x, In x q /\ cross (in_side o) limit x = true) ->
  fair o room q k fs.
Proof.
  intros Hq E Hrem Hroom Hlim Hbest Hprog. destruct (pass_takes _ _ _ _ _ _ _ E (qo_pos _ Hq)) as (T1 & T2 & T3). split.
  - intros m Hm. destruct (T1 m Hm) as (? & ? & ?). auto.
  - lia.
  - lia.
  - apply (pass_full _ _ _ _ _ _ _ E (qo_pos _ Hq)).
  - apply (pass_kept _ _ _ _ _ _ _ E (qo_pos _ Hq)).
  - done.
  - intros q1 e q2 f x Eq He Hx Hs Hp.
    apply (pass_fifo _ _ _ _ _ _ _ q1 e q2 f E (qo_pos _ Hq) (qo_nodup _ Hq) Eq He x Hx).
    assert (forall y, In y (q1 ++ e :: q2) -> In y q) as Hin by (by rewrite Eq).
    destruct (T1 _ He) as (_ & Hc & _). cbn in Hc.
    apply cross_spec in Hc as [_ Hc]; [|apply (qo_side _ Hq), Hin, in_app_iff; simpl; auto].
    apply cross_spec; [apply (qo_side _ Hq), Hin, in_app_iff; auto|]. by rewrite Hp.
  - intros Hr Hro (x & Hx & Hc)%Hprog. by apply (pass_progress _ _ _ _ _ _ _ x E).
Qed.

(** A survivor on the maker side that does not cross is worse than the limit. *)
Lemma not_cross_worse sd limit x :
  (os_side x.2 = side_u8 Buy \/ os_side x.2 = side_u8 Sell) -> is_side (opposite sd) x.2 = true ->
  cross sd limit x = false -> no_worse (opposite sd) limit (os_price x.2).
Proof.
  intros Hs Hx Hc. apply not_true_iff_false in Hc. rewrite cross_spec in Hc by done.
  assert (~ no_worse (opposite sd) (os_price x.2) limit) as Hn by tauto. destruct sd; simpl in Hn |- *; lia.
Qed.

(** A slot with one price. *)
Lemma single_price_fair o room q k fs :
  queue_ok q -> (forall x y, In x q -> In y q -> os_price x.2 = os_price y.2) ->
  fill_queue (in_side o) (in_price o) room (in_remaining o) q = (k, fs) -> 0 <= in_remaining o -> 0 <= room ->
  fair o room q k fs /\ exhausted o room k fs.
Proof.
  intros Hq Hone E Hrem Hroom. split; [|intros Hl Hr; by apply (pass_exhausts _ _ _ _ _ _ _ E (qo_pos _ Hq))].
  apply (pass_fair o room q (in_price o)); try done. intros m x Hm Hx _.
  destruct (pass_takes _ _ _ _ _ _ _ E (qo_pos _ Hq)) as (T1 & _). destruct (T1 m Hm) as (Hmq & _).
  destruct (pass_kept _ _ _ _ _ _ _ E (qo_pos _ Hq) x Hx) as (y & Hy & _ & -> & _). rewrite (Hone m.1 y Hmq Hy). apply no_worse_refl.
Qed.

(** A taker that covers the slot. *)
Lemma covering_fair o room q k fs :
  queue_ok q -> fill_queue (in_side o) (in_price o) room (in_remaining o) q = (k, fs) -> 0 <= in_remaining o -> 0 <= room ->
  cross_qty (in_side o) (in_price o) q <= in_remaining o -> cross_count (in_side o) (in_price o) q <= room ->
  fair o room q k fs /\ exhausted o room k fs.
Proof.
  intros Hq E Hrem Hroom Hqty Hcnt. pose proof (pass_covers _ _ _ _ _ _ _ E (qo_pos _ Hq) Hqty Hcnt) as Hcov.
  split; [|intros _ _; exact Hcov].
  apply (pass_fair o room q (in_price o)); try done. intros m x Hm Hx Hs.
  destruct (pass_takes _ _ _ _ _ _ _ E (qo_pos _ Hq)) as (T1 & _). destruct (T1 m Hm) as (Hmq & Hmc & _).
  apply cross_spec in Hmc as [_ Hmc]; [|by apply (qo_side _ Hq)].
  eapply no_worse_trans; [exact Hmc|]. apply not_cross_worse; [|done|by apply Hcov].
  destruct (pass_kept _ _ _ _ _ _ _ E (qo_pos _ Hq) x Hx) as (y & Hy & _ & _ & Hss & _). rewrite Hss. by apply (qo_side _ Hq).
Qed.

(** A pass at the best crossing price. *)
Lemma best_pass_fair o room q k fs :
  queue_ok q -> 0 < cross_count (in_side o) (in_price o) q ->
  let p := cr_best_price (scan_of (in_side o) (in_price o) q) in
  fill_queue (in_side o) p room (in_remaining o) q = (k, fs) -> 0 <= in_remaining o -> 0 <= room ->
  fair o room q k fs.
Proof.
  intros Hq Hcnt p E Hrem Hroom.
  destruct (scan_of_spec (in_side o) (in_price o) q (qo_pos _ Hq) (qo_sum _ Hq) (qo_side _ Hq)) as (_ & _ & S3 & S4 & S5). fold p in S3, S4, S5.
  assert (forall x, In x q -> is_side (opposite (in_side o)) x.2 = true -> no_worse (opposite (in_side o)) p (os_price x.2)) as Hp.
  { intros x Hx Hs. destruct (cross (in_side o) (in_price o) x) eqn:Ec; [by apply S4|].
    eapply no_worse_trans; [exact S3|]. apply not_cross_worse; [by apply (qo_side _ Hq)|done|done]. }
  apply (pass_fair o room q p); try done.
  - intros x Hx [Hs Hw]%cross_spec; [|by apply (qo_side _ Hq)]. apply cross_spec; [by apply (qo_side _ Hq)|].
    split; [done|]. by eapply no_worse_trans.
  - intros m x Hm Hx Hs. destruct (pass_takes _ _ _ _ _ _ _ E (qo_pos _ Hq)) as (T1 & _). destruct (T1 m Hm) as (Hmq & Hmc & _).
    apply cross_spec in Hmc as [_ Hmc]; [|by apply (qo_side _ Hq)].
    destruct (pass_kept _ _ _ _ _ _ _ E (qo_pos _ Hq) x Hx) as (y & Hy & _ & -> & Hss & _).
    eapply no_worse_trans; [exact Hmc|]. apply Hp; [done|]. unfold is_side in *. by rewrite <- Hss.
  - intros _. destruct S5 as (x & Hx & Hc & Hxp); [done|]. exists x. split; [done|].
    apply cross_spec; [by apply (qo_side _ Hq)|]. rewrite Hxp. apply cross_spec in Hc as [Hc _]; [|by apply (qo_side _ Hq)].
    split; [done|apply no_worse_refl].
Qed.

(** ** The book's slot match *)

Section Slot.
Variables (mid tk : Z).
Hypothesis Hcfg : cfg_ok mid tk.

Abbreviation open_inv := (open_inv mid tk).
Abbreviation ran := (ran mid tk).

Lemma open_queue_ok A fl b t : open_inv A fl b -> queue_ok (A t).
Proof.
  intros Hi. pose proof (c_links _ _ _ _ _ (op_core _ _ _ _ _ Hi)) as Hl. split.
  - intros e He. by destruct (op_order _ _ _ _ _ Hi _ _ He).
  - apply Hl.
  - apply Hl.
  - apply Hl.
Qed.

Lemma scan_crossing_spec A fl b t o :
  open_inv A fl b -> 0 <= t < total mid tk ->
  scan_crossing b t o = Ok (scan_of (in_side o) (in_price o) (A t)).
Proof.
  intros Hi Ht. pose proof (op_core _ _ _ _ _ Hi) as Hc. unfold scan_crossing.
  rewrite (vindex_some _ _ _ (core_level mid tk _ _ _ t Hc Ht)). cbn [mbind Res_bind].
  apply (links_walk _ _ _ _ _ _ fl (linkless_crossing _ _) (c_links _ _ _ _ _ Hc) (c_slab _ _ _ _ _ Hc)).
Qed.

Lemma budget_moved o A b fs A' b' room :
  moved o A b fs A' b' -> budget b (in_remaining o) room -> 0 <= filled fs <= in_remaining o -> zlen fs <= room ->
  (0 < in_remaining o - filled fs -> forall m, In m fs -> m.2 = erem m.1) ->
  budget b' (in_remaining o - filled fs) (room - zlen fs).
Proof.
  intros R [Hr Hcase] Hf Hz Hfull. pose proof (zlen_nonneg fs). split; [lia|].
  destruct (Z.eq_dec (in_remaining o - filled fs) 0) as [|Hne]; [by left|]. right.
  destruct Hcase as [|He]; [lia|]. rewrite (ra_events _ _ _ _ _ _ R), zlen_app, full_events_len by (apply Hfull; lia). lia.
Qed.

(** The outcome of matching taker [o] against slot [t]. *)
Definition slot_matched (run : Res (IncomingOrder * Orderbook)) (t : Z) (A : ABook) (b : Orderbook) (o : IncomingOrder) (room : Z) : Prop :=
  exists fs A' fl' b', run = Ok (in_with_remaining (in_remaining o - filled fs) o, b') /\ ran o A b fs A' fl' b' /\
    (forall t', t' <> t -> A' t' = A t') /\ fair o room (A t) (A' t) fs /\ exhausted o room (A' t) fs.

Lemma compressed_loop_spec t fuel A fl b o room :
  open_inv A fl b -> 0 <= t < total mid tk -> (length (A t) < fuel)%nat -> 0 < in_remaining o <= I64_MAX ->
  budget b (in_remaining o) room -> room_for (users b) (in_user o) ->
  slot_matched (compressed_loop fuel b t o (scan_of (in_side o) (in_price o) (A t))) t A b o room.
Proof.
  revert A fl b o room. induction fuel as [|fuel IH]; intros A fl b o room Hi Ht Hfuel Hrem Hbud Hroom; [lia|].
  pose proof (open_queue_ok A fl b t Hi) as Hq. cbn [compressed_loop].
  destruct (scan_of_spec (in_side o) (in_price o) (A t) (qo_pos _ Hq) (qo_sum _ Hq) (qo_side _ Hq)) as (S1 & _ & _ & _ & _).
  rewrite S1. destruct (cross_sums_nonneg (in_side o) (in_price o) (A t) (qo_pos _ Hq)) as [_ Hcn].
  destruct (cross_count (in_side o) (in_price o) (A t) >? 0) eqn:Ecnt.
  2: { exists [], A, fl, b. unfold filled. simpl. rewrite Z.sub_0_r, in_with_remaining_id.
       assert (forall x, In x (A t) -> cross (in_side o) (in_price o) x = false) as Hno.
       { intros x Hx. destruct (cross (in_side o) (in_price o) x) eqn:Ex; [|done].
         pose proof (cross_sums_in _ _ _ x (qo_pos _ Hq) Hx Ex). lia. }
       split; [done|]. split; [by apply ran_refl|]. split; [done|]. split; [|by intros _ _].
       split; try (by intros ? []); try (by intros ? ? []); try (by intros ? ? ? ? ? _ []).
       - unfold filled. simpl. lia.
       - destruct Hbud. unfold zlen. simpl. lia.
       - intros x Hx. exists x. split; [done|apply same_order_refl].
       - intros _ _ (x & Hx & Hxc). by rewrite (Hno x Hx) in Hxc. }
  assert (0 < cross_count (in_side o) (in_price o) (A t)) as Hcnt by lia.
  set (p := cr_best_price (scan_of (in_side o) (in_price o) (A t))).
  pose proof (fill_level_spec mid tk Hcfg t p A fl b o room Hi Ht ltac:(lia) Hbud Hroom) as Hfl.
  destruct (fill_queue (in_side o) p room (in_remaining o) (A t)) as [k fs] eqn:EQ.
  destruct Hfl as (A1 & fl1 & b1 & E1 & R1 & EA1 & Eo1). rewrite E1. cbn [mbind Res_bind].
  pose proof (best_pass_fair o room (A t) k fs Hq Hcnt EQ ltac:(lia) ltac:(destruct Hbud; lia)) as Hfair.
  pose proof (budget_moved o A b fs A1 b1 room (ra_moved _ _ _ _ _ _ _ _ _ R1) Hbud (fa_rem _ _ _ _ _ Hfair) (fa_room _ _ _ _ _ Hfair) (fa_full _ _ _ _ _ Hfair)) as Hbud1.
  set (o1 := in_with_remaining (in_remaining o - filled fs) o). pose proof (fa_rem _ _ _ _ _ Hfair) as Hfr.
  change (in_remaining o1) with (in_remaining o - filled fs).
  destruct ((in_remaining o - filled fs =? 0) || is_budget_spent b1) eqn:Estop.
  { exists fs, A1, fl1, b1. split; [done|]. split; [done|]. split; [done|]. rewrite EA1. split; [done|].
    intros Hl Hr. exfalso. rewrite (budget_spent _ _ _ Hbud1) in Estop by lia. lia. }
  apply orb_false_iff in Estop as [Hne Hns]. apply Z.eqb_neq in Hne. rewrite (budget_spent _ _ _ Hbud1) in Hns by lia.
  pose proof (ra_inv _ _ _ _ _ _ _ _ _ R1) as Hi1.
  change (in_side o) with (in_side o1). change (in_price o) with (in_price o1).
  rewrite (scan_crossing_spec A1 fl1 b1 t o1 Hi1 Ht). cbn [mbind Res_bind].
  pose proof (fa_full _ _ _ _ _ Hfair ltac:(lia)) as Hfull. pose proof (pass_length _ _ _ _ _ _ _ EQ Hfull) as Hlen.
  pose proof (pass_sublist _ _ _ _ _ _ _ EQ Hfull) as Hsub.
  assert (fs <> []) as Hfs.
  { apply (fa_progress _ _ _ _ _ Hfair); [lia|pose proof (zlen_nonneg fs); lia|].
    destruct (scan_of_spec (in_side o) (in_price o) (A t) (qo_pos _ Hq) (qo_sum _ Hq) (qo_side _ Hq)) as (_ & _ & _ & _ & S5).
    destruct S5 as (x & Hx & Hxc & _); [lia|]. eauto. }
  destruct (IH A1 fl1 b1 o1 (room - zlen fs) Hi1 Ht) as (fs2 & A2 & fl2 & b2 & E2 & R2 & Eo2 & Hfair2 & Hex2).
  { rewrite EA1. unfold zlen in Hlen. destruct fs; [done|]. simpl in Hlen. lia. }
  { change (in_remaining o1) with (in_remaining o - filled fs). lia. }
  { exact Hbud1. }
  { apply (moved_room _ _ _ _ _ _ (ra_moved _ _ _ _ _ _ _ _ _ R1) Hroom). }
  exists (fs ++ fs2), A2, fl2, b2. rewrite E2. split; [|split; [|split; [|split]]].
  - unfold o1. rewrite in_with_remaining_twice, filled_app. cbn. do 3 f_equal. lia.
  - eapply ran_trans; [exact R1|]. apply (ran_taker mid tk o o1); [by eexists|done].
  - intros t' Ht'. by rewrite Eo2, Eo1.
  - rewrite EA1 in Hfair2. apply (fair_trans o o1 room (A t) k fs (A2 t) fs2); try done; [apply Hq|cbn; lia].
  - intros Hl Hr. rewrite filled_app, zlen_app in *. apply Hex2; cbn; lia.
Qed.

Lemma match_at_level_spec A fl b t o room :
  open_inv A fl b -> 0 <= t < total mid tk -> 0 < in_remaining o <= I64_MAX ->
  budget b (in_remaining o) room -> room_for (users b) (in_user o) ->
  slot_matched (match_at_level b t o) t A b o room.
Proof.
  intros Hi Ht Hrem Hbud Hroom. pose proof (open_queue_ok A fl b t Hi) as Hq. pose proof (op_core _ _ _ _ _ Hi) as Hc.
  pose proof (proj1 Hbud) as Hrr.
  assert (forall limit, let '(k, fs) := fill_queue (in_side o) limit room (in_remaining o) (A t) in
    fair o room (A t) k fs /\ exhausted o room k fs -> slot_matched (fill_level b t o limit) t A b o room) as Hpass.
  { intros limit. pose proof (fill_level_spec mid tk Hcfg t limit A fl b o room Hi Ht ltac:(lia) Hbud Hroom) as Hfl.
    destruct (fill_queue (in_side o) limit room (in_remaining o) (A t)) as [k fs].
    destruct Hfl as (A1 & fl1 & b1 & E1 & R1 & EA1 & Eo1). intros [Hf He]. exists fs, A1, fl1, b1. by rewrite EA1. }
  specialize (Hpass (in_price o)). destruct (fill_queue (in_side o) (in_price o) room (in_remaining o) (A t)) as [k fs] eqn:EQ.
  unfold match_at_level. rewrite (c_map _ _ _ _ _ Hc). change (arr (zone_slots (the_map mid tk)) 0) with (zs mid tk 0).
  destruct (t <? zs mid tk 0) eqn:Ez; bool_to_prop.
  - apply Hpass. apply (single_price_fair o room (A t)); try done; [|lia|lia].
    intros x y Hx Hy. by apply (zone0_one_price mid tk Hcfg A fl b t x y).
  - unfold match_compressed_slot. rewrite (scan_crossing_spec A fl b t o Hi Ht). cbn [mbind Res_bind].
    destruct (scan_of_spec (in_side o) (in_price o) (A t) (qo_pos _ Hq) (qo_sum _ Hq) (qo_side _ Hq)) as (S1 & S2 & _ & _ & _).
    rewrite S1, S2. destruct Hbud as [_ [?|Hev]]; [lia|]. rewrite Hev.
    replace (Z.max 0 (MAX_MAKERS_PER_ORDER - 2 * (MAX_MAKERS_PER_ORDER - room) / 2)) with room
      by (rewrite Z.mul_comm, Z.div_mul by lia; lia).
    destruct ((cross_qty (in_side o) (in_price o) (A t) <=? in_remaining o) && (cross_count (in_side o) (in_price o) (A t) <=? room)) eqn:Ecov.
    + apply Hpass. bool_to_prop. apply (covering_fair o room (A t)); try done; lia.
    + apply (compressed_loop_spec t _ A fl b o room); try done.
      * pose proof (c_links _ _ _ _ _ Hc) as Hl. pose proof (seg_length _ _ _ _ (lk_seg _ _ _ Hl t) (lk_nodup _ _ _ Hl t)). lia.
      * split; [done|]. by right.
Qed.

End Slot.
