(* ===== verification/Engine.v ===== *)
(** * Engine: the match loop and the order entry point

    [match_loop] takes the best slots one after the other and refreshes the
    cached best from the bitmaps in between.  The theorems below are about
    whole runs of [process_new_order] of [rsx-book/src/matching.rs]: they
    return, preserve the book's invariant, fill in price-time priority,
    conserve quantity and positions, and leave the book uncrossed. *)

From S2P Require Import Prelude Types Slab Occupancy Compression Users Order Book Links BookInv Matching MatchInv.
From S2P Require Import FillQueue SlotMatch.

(** ** Facts about a consumption *)

Lemma consumes_kept A fs A' : consumes A fs A' -> forall t x, In x (A' t) -> exists y, In y (A t) /\ same_order x y.
Proof.
  induction 1 as [A|A t q1 e q2 f fs A1 A' Et Hf E1 Eo _ IH]; intros t' x Hx; [exists x; split; [done|apply same_order_refl]|].
  destruct (IH t' x Hx) as (y & Hy & Hs). destruct (Z.eq_dec t' t) as [->|Hne]; [|rewrite Eo in Hy by done; eauto].
  rewrite E1, !in_app_iff in Hy. rewrite Et. destruct Hy as [Hy|[Hy|Hy]].
  - exists y. split; [apply in_app_iff; by left|done].
  - destruct (leftover_same e f y ltac:(lia) Hy) as [He _]. exists e.
    split; [apply in_app_iff; right; by left|by eapply same_order_trans].
  - exists y. split; [apply in_app_iff; right; by right|done].
Qed.

Lemma best_ok_ext sd A A' tick px : (forall t, A' t = A t) -> best_ok sd A tick px -> best_ok sd A' tick px.
Proof.
  intros He [(H1 & H2 & H3)|(H1 & (e & H2) & H3)]; [left|right].
  - split; [done|]. split; [done|]. intros t x. rewrite He. apply H3.
  - split; [done|]. split; [exists e; by rewrite He|]. intros t x. rewrite He. apply H3.
Qed.

(** Consuming makers of one side keeps the other side's best. *)
Lemma consumes_best sd A fs A' tick px :
  consumes A fs A' -> (forall m, In m fs -> is_side sd m.1.2 = false) -> best_ok sd A tick px -> best_ok sd A' tick px.
Proof.
  induction 1 as [A|A t q1 e q2 f fs A1 A' Et Hf E1 Eo _ IH]; intros Hs Hb; [done|].
  apply IH; [intros; apply Hs; by right|]. pose proof (Hs _ (or_introl eq_refl)) as He. cbn in He.
  apply (best_ok_ext sd (upd A t (q1 ++ leftover e f ++ q2))).
  { intros x. unfold upd. destruct (x =? t) eqn:Ex; bool_to_prop; [by subst|by apply Eo]. }
  unfold leftover. destruct (f =? erem e); simpl; [eapply best_ok_drop; eauto|].
  eapply best_ok_swap; [done|exact Et|done|done].
Qed.

Section Sums.
Variables (mid tk : Z).
Abbreviation book_sum := (book_sum mid tk).

Lemma book_sum_ext f A A' : (forall t, A' t = A t) -> book_sum f A' = book_sum f A.
Proof. intros He. apply zsum_ext. intros t _. by rewrite He. Qed.

Lemma consumes_sum f A fs A' :
  consumes A fs A' -> (forall t, ~ (0 <= t < total mid tk) -> A t = []) ->
  book_sum f A' = book_sum f A - zsum (fun m => f m.1 - zsum f (leftover m.1 m.2)) fs.
Proof.
  induction 1 as [A|A t q1 e q2 g fs A1 A' Et Hf E1 Eo _ IH]; intros Hout; [simpl; lia|].
  assert (0 <= t < total mid tk) as Ht.
  { destruct (decide (0 <= t < total mid tk)); [done|]. rewrite Hout in Et by done. by destruct q1. }
  rewrite IH.
  - rewrite (book_sum_ext f (upd A t (q1 ++ leftover e g ++ q2)) A1).
    + rewrite book_sum_upd by done. rewrite Et, !zsum_app. simpl. lia.
    + intros x. unfold upd. destruct (x =? t) eqn:Ex; bool_to_prop; [by subst|by apply Eo].
  - intros t' Ht'. rewrite Eo; [by apply Hout|]. intros ->. done.
Qed.

(** Resting quantity falls by exactly what was filled. *)
Lemma consumes_qty A fs A' :
  consumes A fs A' -> (forall t, ~ (0 <= t < total mid tk) -> A t = []) -> book_sum erem A' = book_sum erem A - filled fs.
Proof.
  intros Hc Hout. rewrite (consumes_sum erem A fs A' Hc Hout). f_equal. apply zsum_ext. intros m Hm.
  pose proof (consumes_pos _ _ _ Hc m Hm). unfold leftover. destruct (m.2 =? erem m.1) eqn:E; bool_to_prop; simpl; [lia|].
  unfold erem at 2. simpl. lia.
Qed.

Lemma consumes_size A fs A' :
  consumes A fs A' -> (forall t, ~ (0 <= t < total mid tk) -> A t = []) -> (forall m, In m fs -> m.2 = erem m.1) ->
  book_sum (fun _ => 1) A' = book_sum (fun _ => 1) A - zlen fs.
Proof.
  intros Hc Hout Hfull. rewrite (consumes_sum _ A fs A' Hc Hout). f_equal. clear Hc. induction fs as [|m fs IH]; [done|].
  rewrite zlen_cons. simpl. rewrite IH by (intros; apply Hfull; by right). unfold leftover.
  rewrite (Hfull m (or_introl eq_refl)), Z.eqb_refl. simpl. lia.
Qed.

End Sums.

(** ** Slots are intervals of prices *)

Lemma idx_convex mid tk p q r :
  cfg_ok mid tk -> spread_ok mid tk -> 0 <= p <= q -> q <= r -> idx mid tk p = idx mid tk r -> idx mid tk q = idx mid tk p.
Proof.
  intros Hcfg Hspread Hpq Hqr Heq.
  pose proof (band_mono mid tk Hcfg p q ltac:(lia)). pose proof (band_mono mid tk Hcfg q r ltac:(lia)).
  assert (band mid p = band mid r) as Hb.
  { apply (slot_band mid tk Hcfg Hspread); [lia|apply band_bounds|]. rewrite <- Heq. apply idx_in_band; [done|done|lia]. }
  pose proof (idx_mono mid tk Hcfg p q ltac:(lia) ltac:(lia)). pose proof (idx_mono mid tk Hcfg q r ltac:(lia) ltac:(lia)). lia.
Qed.

Lemma consumes_kept_full A fs A' :
  consumes A fs A' -> (forall m, In m fs -> m.2 = erem m.1) -> forall t x, In x (A' t) -> In x (A t).
Proof.
  induction 1 as [A|A t q1 e q2 f fs A1 A' Et Hf E1 Eo _ IH]; intros Hfull t' x Hx; [done|].
  specialize (IH (fun m Hm => Hfull m (or_intror Hm)) t' x Hx). pose proof (Hfull _ (or_introl eq_refl)) as He. cbn in He.
  destruct (Z.eq_dec t' t) as [->|Hne]; [|by rewrite Eo in IH]. rewrite E1 in IH. unfold leftover in IH.
  rewrite He, Z.eqb_refl in IH. rewrite Et. by apply in_mid.
Qed.

Section Engine.
Variables (mid tk : Z).
Hypothesis Hcfg : cfg_ok mid tk.
Hypothesis Hspread : spread_ok mid tk.

Abbreviation book_inv := (book_inv mid tk).
Abbreviation open_inv := (open_inv mid tk).
Abbreviation core := (core mid tk).

Lemma open_out A fl b t : open_inv A fl b -> ~ (0 <= t < total mid tk) -> A t = [].
Proof.
  intros Hi Ht. pose proof (op_core _ _ _ _ _ Hi) as Hc. apply (lk_out _ _ _ (c_links _ _ _ _ _ Hc)).
  by rewrite (c_len _ _ _ _ _ Hc).
Qed.

(** Every price of the best slot is at least as good as any other slot's. *)
Lemma best_slot_prices sd A fl b m t' x :
  book_inv A fl b -> In m (A (best_tick sd b)) -> In x (A t') -> t' <> best_tick sd b -> is_side sd x.2 = true ->
  no_worse sd (os_price m.2) (os_price x.2).
Proof.
  intros Hi Hm Hx Hne Hs. pose proof (bk_core _ _ _ _ _ Hi) as Hc.
  destruct (bk_best _ _ _ _ _ Hi sd) as [(_ & _ & Hn)|(Ht & (e0 & He0 & Hs0 & Hp0) & Hbest)].
  { by rewrite (Hn t' x Hx) in Hs. }
  pose proof (Hbest t' x Hx Hs) as Hbx. destruct (c_px _ _ _ _ _ Hc _ _ Hm) as (Pm & _ & Im).
  destruct (c_px _ _ _ _ _ Hc _ _ Hx) as (Px & _ & Ix). destruct (c_px _ _ _ _ _ Hc _ _ He0) as (P0 & _ & I0).
  rewrite <- Hp0 in Hbx. destruct sd; simpl in *; apply Z.nlt_ge; intros Hlt; apply Hne.
  - rewrite <- Ix, <- Im. apply (idx_convex mid tk _ _ (os_price e0.2)); try done; lia.
  - rewrite <- Ix, <- I0. apply (idx_convex mid tk _ _ (os_price m.2)); try done; lia.
Qed.

(** What a whole match leaves. *)
Record matched (o : IncomingOrder) (room : Z) (A : ABook) (b : Orderbook) (fs : list MFill)
    (A' : ABook) (fl' : list Z) (b' : Orderbook) : Prop := {
  ma_inv : book_inv A' fl' b';
  ma_moved : moved o A b fs A' b';
  ma_takes : forall m, In m fs -> cross (in_side o) (in_price o) m.1 = true /\ exists t, In m.1 (A t);
  ma_rem : 0 <= filled fs <= in_remaining o;
  ma_room : zlen fs <= room;
  ma_full : 0 < in_remaining o - filled fs -> forall m, In m fs -> m.2 = erem m.1;
  ma_best : forall m t x, In m fs -> In x (A' t) -> is_side (opposite (in_side o)) x.2 = true ->
    no_worse (opposite (in_side o)) (os_price m.1.2) (os_price x.2);
  ma_fifo : forall t q1 e q2 f x, A t = q1 ++ e :: q2 -> In (e, f) fs -> In x q1 ->
    is_side (opposite (in_side o)) x.2 = true -> os_price x.2 = os_price e.2 -> ~ In x.1 (handles (A' t));
  ma_stuck : 0 < in_remaining o - filled fs -> zlen fs < room ->
    forall t x, In x (A' t) -> cross (in_side o) (in_price o) x = false;
}.

Lemma matched_nil o room A fl b :
  book_inv A fl b -> 0 <= in_remaining o -> 0 <= room ->
  (0 < in_remaining o -> 0 < room -> forall t x, In x (A t) -> cross (in_side o) (in_price o) x = false) ->
  matched o room A b [] A fl b.
Proof.
  intros Hi Hr Hroom Hn. split; try (by intros ? []); try (by intros ? ? ? []); try (by intros ? ? ? ? ? ? _ []); try done.
  - apply moved_refl.
  - unfold filled. simpl in *. rewrite Z.sub_0_r. intros H1 H2. apply Hn; [done|]. unfold zlen in H2. simpl in H2. lia.
Qed.

Definition maker_side (o : IncomingOrder) : Side := opposite (in_side o).

(** One round: the best slot, then the refreshed best. *)
Lemma round_spec A fl b o room :
  book_inv A fl b -> 0 < in_remaining o <= I64_MAX -> budget b (in_remaining o) room ->
  room_for (users b) (in_user o) -> best_tick (maker_side o) b <> NONE ->
  exists fs A1 fl1 b1 b2, match_at_level b (best_tick (maker_side o) b) o =
      Ok (in_with_remaining (in_remaining o - filled fs) o, b1) /\
    refresh (maker_side o) b1 = Ok b2 /\ book_inv A1 fl1 b2 /\ moved o A b fs A1 b2 /\
    (forall t', t' <> best_tick (maker_side o) b -> A1 t' = A t') /\
    fair o room (A (best_tick (maker_side o) b)) (A1 (best_tick (maker_side o) b)) fs /\
    exhausted o room (A1 (best_tick (maker_side o) b)) fs.
Proof.
  intros Hi Hrem Hbud Hroom Hne. pose proof (book_open mid tk _ _ _ Hi) as Hop. set (msd := maker_side o) in *. set (t := best_tick msd b) in *.
  assert (0 <= t < total mid tk) as Ht.
  { destruct (bk_best _ _ _ _ _ Hi msd) as [(? & _)|(_ & (e & He & _) & _)]; [done|].
    by apply (core_slot_range mid tk Hcfg _ _ _ _ _ (bk_core _ _ _ _ _ Hi) He). }
  destruct (match_at_level_spec mid tk Hcfg A fl b t o room Hop Ht Hrem Hbud Hroom) as (fs & A1 & fl1 & b1 & E1 & R1 & Eo & Hf & He).
  pose proof (ra_inv _ _ _ _ _ _ _ _ _ R1) as Hi1. pose proof (op_core _ _ _ _ _ Hi1) as Hc1.
  destruct (refresh_spec mid tk Hcfg Hspread msd A1 fl1 b1 Hc1) as (tick & px & E2 & Hb2).
  exists fs, A1, fl1, b1, (set_best_of msd b1 tick px). split; [done|]. split; [done|].
  pose proof (set_best_fields msd b1 tick px) as (F1 & F2 & F3 & F4 & F5 & F6 & F7 & F8 & F9). cbn zeta in *.
  pose proof (ra_moved _ _ _ _ _ _ _ _ _ R1) as M1.
  split; [|split; [|done]].
  - apply open_book.
    + destruct Hi1 as [o1 o2 o3 o4 o5 o6]. split; rewrite ?F1, ?F5; try done.
      apply (core_ext mid tk _ _ b1); try done; apply F6.
    + intros sd'. destruct (decide (sd' = msd)) as [->|Hsd]; [by rewrite F7, F8|].
      destruct (F9 sd' Hsd) as [-> ->]. destruct (ra_best _ _ _ _ _ _ _ _ _ R1 sd') as [-> ->].
      apply (consumes_best sd' A fs A1); [apply M1| |apply (bk_best _ _ _ _ _ Hi)].
      intros m Hm. destruct (fa_takes _ _ _ _ _ Hf m Hm) as (Hmt & Hmc & _).
      apply cross_spec in Hmc as [Hmc _]; [|by apply (qo_side _ (open_queue_ok mid tk A fl b t Hop))].
      unfold is_side in *. apply Z.eqb_eq in Hmc. rewrite Hmc. by apply side_neq.
  - destruct M1 as [m1 m2 m3 m4 m5 m6 m7 m8]. split; rewrite ?F1, ?F5; try done.
    + destruct F6 as (_ & _ & _ & _ & _ & -> & _). done.
    + eapply keeps_ev_trans; [exact m3|]. destruct F6 as (?&?&?&?&?&?&?&?). by repeat split.
Qed.

Lemma fill_le_filled A fs A' m : consumes A fs A' -> In m fs -> m.2 <= filled fs.
Proof.
  intros Hc Hm. pose proof (consumes_pos _ _ _ Hc) as Hpos. clear Hc. unfold filled. induction fs as [|x fs IH]; [done|].
  simpl. pose proof (Hpos x (or_introl eq_refl)).
  assert (0 <= zsum snd fs) by (apply zsum_nonneg; intros y Hy; pose proof (Hpos y (or_intror Hy)); lia).
  destruct Hm as [->|Hm]; [lia|]. specialize (IH Hm (fun y Hy => Hpos y (or_intror Hy))). lia.
Qed.

(** A round followed by the rest of the match. *)
Lemma matched_round A fl b o room fs1 A1 fl1 b1 fs2 A' fl' b' :
  let t := best_tick (maker_side o) b in
  let o1 := in_with_remaining (in_remaining o - filled fs1) o in
  book_inv A fl b -> book_inv A1 fl1 b1 -> moved o A b fs1 A1 b1 -> (forall t', t' <> t -> A1 t' = A t') ->
  fair o room (A t) (A1 t) fs1 -> exhausted o room (A1 t) fs1 ->
  matched o1 (room - zlen fs1) A1 b1 fs2 A' fl' b' -> matched o room A b (fs1 ++ fs2) A' fl' b'.
Proof.
  intros t o1 Hi Hi1 M1 Eo Hf Hex M2. pose proof (c_links _ _ _ _ _ (bk_core _ _ _ _ _ Hi)) as Hl.
  pose proof (c_links _ _ _ _ _ (bk_core _ _ _ _ _ Hi1)) as Hl1.
  destruct M2 as [g1 g2 g3 g4 g5 g6 g7 g8 g9]. destruct Hf as [f1 f2 f3 f4 f5 f6 f7 f8]. cbn in g3, g4, g6, g7, g8, g9.
  pose proof (ra_consumes _ _ _ _ _ _ g2) as C2. pose proof (ra_consumes _ _ _ _ _ _ M1) as C1.
  assert (forall m, In m fs2 -> 0 < in_remaining o - filled fs1 /\ zlen fs1 < room) as Hlive.
  { intros m Hm. pose proof (consumes_pos _ _ _ C2 m Hm). pose proof (fill_le_filled _ _ _ m C2 Hm).
    split; [lia|]. destruct fs2; [done|]. rewrite zlen_cons in g5. pose proof (zlen_nonneg fs2). lia. }
  assert (forall m, In m fs2 -> exists t', In m.1 (A1 t') /\ In m.1 (A t')) as Hback.
  { intros m Hm. destruct (g3 m Hm) as [_ [t' Ht']]. exists t'. split; [done|].
    apply (consumes_kept_full A fs1 A1 C1); [|done]. apply f4. by destruct (Hlive m Hm). }
  split.
  - done.
  - eapply moved_trans; [exact M1|]. by apply (moved_taker o o1); [eexists|].
  - intros m [Hm|Hm]%in_app_iff; [destruct (f1 m Hm) as (? & ? & _); eauto|].
    destruct (g3 m Hm) as [? _]. destruct (Hback m Hm) as (t' & _ & ?). eauto.
  - rewrite filled_app. lia.
  - rewrite zlen_app. lia.
  - rewrite filled_app. intros Hleft m [Hm|Hm]%in_app_iff; [apply f4; [lia|done]|apply g6; [lia|done]].
  - intros m t' x [Hm|Hm]%in_app_iff Hx Hs; [|by apply (g7 m t')].
    destruct (consumes_kept _ _ _ C2 t' x Hx) as (y & Hy & _ & -> & Hsy & _).
    assert (is_side (opposite (in_side o)) y.2 = true) as Hys by (unfold is_side in *; by rewrite <- Hsy).
    destruct (Z.eq_dec t' t) as [->|Hne]; [by apply f6|]. rewrite Eo in Hy by done.
    destruct (f1 m Hm) as (Hmt & _ & _). by apply (best_slot_prices (maker_side o) A fl b _ t').
  - intros t' q1 e q2 f x Et [Hm|Hm]%in_app_iff Hx Hs Hp.
    + destruct (f1 _ Hm) as (Hmt & _ & _). cbn in Hmt.
      assert (t' = t) as ->.
      { rewrite <- (lk_tick _ _ _ Hl t e Hmt). symmetry. apply (lk_tick _ _ _ Hl). rewrite Et. apply in_app_iff. right. by left. }
      intros Hh. apply (f7 q1 e q2 f x Et Hm Hx Hs Hp). eapply kept_handle; [|exact Hh]. apply (consumes_kept _ _ _ C2).
    + destruct (Hback _ Hm) as (t2 & Ht2 & Ht2'). cbn in Ht2, Ht2'.
      assert (t' = t2) as ->.
      { rewrite <- (lk_tick _ _ _ Hl t2 e Ht2'). symmetry. apply (lk_tick _ _ _ Hl). rewrite Et. apply in_app_iff. right. by left. }
      destruct (Hlive _ Hm) as [L1 L2]. destruct (g3 _ Hm) as [Hec _]. cbn in Hec.
      destruct (Z.eq_dec t2 t) as [->|Hne]; [by rewrite (Hex L1 L2 e Ht2) in Hec|].
      apply (g8 t2 q1 e q2 f x); try done. by rewrite Eo.
  - rewrite filled_app, zlen_app. intros H1 H2. apply g9; lia.
Qed.

Definition size (A : ABook) : Z := book_sum mid tk (fun _ => 1) A.

(** The match loop returns, and what it leaves is a fair match. *)
Lemma match_loop_spec fuel A fl b o room :
  book_inv A fl b -> 0 <= in_remaining o <= I64_MAX -> budget b (in_remaining o) room ->
  room_for (users b) (in_user o) -> size A + 2 <= Z.of_nat fuel \/ in_remaining o = 0 /\ (0 < fuel)%nat ->
  exists fs A' fl' b', match_loop fuel b o = Ok (in_with_remaining (in_remaining o - filled fs) o, b') /\
    matched o room A b fs A' fl' b'.
Proof.
  revert A fl b o room. induction fuel as [|fuel IH]; intros A fl b o room Hi Hrem Hbud Hroom Hfuel.
  { assert (0 <= size A) by (apply book_sum_nonneg; lia). lia. }
  cbn [match_loop]. replace (match in_side o with Buy => best_ask_tick b | Sell => best_bid_tick b end)
    with (best_tick (maker_side o) b) by (unfold maker_side; by destruct (in_side o)).
  pose proof (proj1 Hbud) as Hrr.
  assert (forall P : Prop, (0 < in_remaining o -> 0 < room -> forall t x, In x (A t) -> cross (in_side o) (in_price o) x = false) ->
    exists fs A' fl' b', Ok (o, b) = Ok (in_with_remaining (in_remaining o - filled fs) o, b') /\ matched o room A b fs A' fl' b') as Hstop.
  { intros _ Hn. exists [], A, fl, b. unfold filled. simpl. rewrite Z.sub_0_r, in_with_remaining_id. split; [done|].
    apply matched_nil; try done; lia. }
  destruct ((in_remaining o >? 0) && negb (best_tick (maker_side o) b =? NONE)) eqn:Ego.
  2: { apply (Hstop True). intros Hp _ t x Hx. destruct (cross (in_side o) (in_price o) x) eqn:Ec; [|done].
       apply cross_spec in Ec as [Es _]; [|apply (lk_side _ _ _ (c_links _ _ _ _ _ (bk_core _ _ _ _ _ Hi)) t x Hx)].
       destruct (bk_best _ _ _ _ _ Hi (maker_side o)) as [(_ & _ & Hn)|(Hne & _)]; [unfold maker_side in Hn; by rewrite (Hn t x Hx) in Es|lia]. }
  apply andb_true_iff in Ego as [Hp Hne]. apply Z.gtb_lt in Hp. apply negb_true_iff, Z.eqb_neq in Hne.
  destruct (round_spec A fl b o room Hi ltac:(lia) Hbud Hroom Hne) as (fs & A1 & fl1 & b1 & b2 & E1 & E2 & Hi2 & M2 & Eo & Hf & Hex).
  rewrite E1. cbn [mbind Res_bind].
  replace (match in_side _ with Buy => refresh_best_ask b1 | Sell => refresh_best_bid b1 end) with (refresh (maker_side o) b1)
    by (unfold maker_side; cbn; by destruct (in_side o)).
  rewrite E2. cbn [mbind Res_bind]. set (o1 := in_with_remaining (in_remaining o - filled fs) o).
  change (in_remaining o1) with (in_remaining o - filled fs). pose proof (fa_rem _ _ _ _ _ Hf) as Hfr.
  destruct (in_remaining o - filled fs =? in_remaining o) eqn:Esame; bool_to_prop.
  - assert (fs = []) as ->.
    { destruct fs as [|m fs]; [done|]. pose proof (consumes_pos _ _ _ (ra_consumes _ _ _ _ _ _ M2) m (or_introl eq_refl)).
      pose proof (fill_le_filled _ _ _ m (ra_consumes _ _ _ _ _ _ M2) (or_introl eq_refl)). lia. }
    exists [], A1, fl1, b2. split; [done|].
    rewrite <- (app_nil_r ([] : list MFill)). apply (matched_round A fl b o room [] A1 fl1 b2 [] A1 fl1 b2); try done.
    apply matched_nil; [done|cbn; lia|change (zlen []) with 0; lia|]. cbn. intros _ Hr t x Hx. unfold zlen in Hr. simpl in Hr.
    destruct (cross (in_side o) (in_price o) x) eqn:Ec; [|done]. exfalso.
    pose proof (consumes_kept_full _ _ _ (ra_consumes _ _ _ _ _ _ M2) ltac:(by intros ? []) t x Hx) as HxA.
    pose proof (lk_side _ _ _ (c_links _ _ _ _ _ (bk_core _ _ _ _ _ Hi))) as Hsd.
    apply cross_spec in Ec as [Es Ew]; [|by apply (Hsd t)].
    destruct (bk_best _ _ _ _ _ Hi (maker_side o)) as [(? & _)|(_ & (e0 & He0 & Hs0 & Hp0) & Hbest)]; [done|].
    apply (fa_progress _ _ _ _ _ Hf); [lia|lia| |done]. exists e0. split; [done|]. apply cross_spec; [by apply (Hsd (best_tick (maker_side o) b))|].
    split; [done|]. rewrite Hp0. eapply no_worse_trans; [|exact Ew]. by apply (Hbest t).
  - destruct (IH A1 fl1 b2 o1 (room - zlen fs) Hi2) as (fs2 & A' & fl' & b' & E3 & M3).
    + cbn. lia.
    + cbn. apply (budget_moved o A b fs A1 b2 room M2 Hbud Hfr (fa_room _ _ _ _ _ Hf) (fa_full _ _ _ _ _ Hf)).
    + cbn. by apply (moved_room _ _ _ _ _ _ M2).
    + assert (0 <= size A) by (apply book_sum_nonneg; lia).
      cbn. destruct (Z.eq_dec (in_remaining o - filled fs) 0) as [Hz|Hnz]; [right; lia|left].
      assert (size A1 = size A - zlen fs) as Hsz.
      { apply (consumes_size mid tk _ _ _ (ra_consumes _ _ _ _ _ _ M2)); [|apply (fa_full _ _ _ _ _ Hf); lia].
        intros t Ht. by apply (open_out A fl b t (book_open mid tk _ _ _ Hi)). }
      assert (1 <= zlen fs). { destruct fs; [unfold filled in Esame; simpl in Esame; lia|]. rewrite zlen_cons. pose proof (zlen_nonneg fs). lia. }
      lia.
    + exists (fs ++ fs2), A', fl', b'. rewrite E3. split; [unfold o1; rewrite in_with_remaining_twice, filled_app; cbn; do 3 f_equal; lia|].
      by apply (matched_round A fl b o room fs A1 fl1 b2 fs2 A' fl' b').
Qed.

Lemma events_len o fs : zlen (fill_events o fs) <= 2 * zlen fs.
Proof.
  induction fs as [|m fs IH]; [done|]. change (fill_events o (m :: fs)) with (mf_events o m ++ fill_events o fs).
  rewrite zlen_app, zlen_cons. unfold mf_events. destruct (m.2 =? os_remaining m.1.2); unfold zlen in *; simpl; lia.
Qed.

(** ** The published best bid and offer *)

Definition uncrossed (A : ABook) : Prop :=
  forall t t' x y, In x (A t) -> In y (A t') -> is_side Buy x.2 = true -> is_side Sell y.2 = true ->
  os_price x.2 < os_price y.2.

(** The best price of a side and everything resting at it, or zeros. *)
Definition top_of_book (sd : Side) (A : ABook) (px qty : Z) : Prop :=
  (forall t e, In e (A t) -> is_side sd e.2 = false) /\ px = 0 /\ qty = 0 \/
  (exists t e, In e (A t) /\ is_side sd e.2 = true /\ os_price e.2 = px) /\
  (forall t e, In e (A t) -> is_side sd e.2 = true -> no_worse sd px (os_price e.2)) /\
  qty = book_sum mid tk (qty_at sd px) A.

Lemma qty_one_slot sd A fl b px t :
  core A fl b -> price_at mid tk t px -> book_sum mid tk (qty_at sd px) A = zsum (qty_at sd px) (A t).
Proof.
  intros Hc (Hp & _ & Hi). pose proof (price_slot mid tk Hcfg px Hp) as Ht. rewrite Hi in Ht.
  pose proof (book_sum_upd mid tk (qty_at sd px) A t [] Ht) as Hs. simpl in Hs.
  assert (book_sum mid tk (qty_at sd px) (upd A t []) = 0) as Hz; [|lia].
  unfold book_sum. induction (zrange 0 (total mid tk)) as [|x l IH]; [done|]. cbn [zsum fold_right].
  fold (zsum (fun t0 => zsum (qty_at sd px) (upd A t [] t0)) l). rewrite IH, Z.add_0_r. unfold upd.
  destruct (x =? t) eqn:E; bool_to_prop; [done|]. apply qty_at_none. intros e He _ Hep.
  destruct (c_px _ _ _ _ _ Hc x e He) as (_ & _ & Hx). rewrite Hep, Hi in Hx. congruence.
Qed.

Lemma top_at_best sd A fl b :
  book_inv A fl b -> uncrossed A ->
  exists qty, top_at sd b (best_tick sd b) = Ok (best_px sd b, qty) /\ top_of_book sd A (best_px sd b) qty.
Proof.
  intros Hi Hu. pose proof (bk_core _ _ _ _ _ Hi) as Hc.
  destruct (bk_best _ _ _ _ _ Hi sd) as [(-> & -> & Hn)|(Hne & (e0 & He0 & Hs0 & Hp0) & Hbest)].
  { exists 0. split; [by destruct sd|]. left. done. }
  assert (0 < zsum (on_side sd) (A (best_tick sd b))) as Hpos by (apply zsum_on_side_pos; eauto).
  destruct (top_at_spec mid tk Hcfg sd A fl b _ Hc Hpos) as (px & qty & E & ((m & Hm & Hms & Hmp) & Htop & _) & Hq).
  assert (px = best_px sd b) as ->.
  { apply (no_worse_antisym sd); [rewrite <- Hp0; by apply Htop|rewrite <- Hmp; by apply (Hbest _ m Hm)]. }
  assert (qty = zsum (qty_at sd (best_px sd b)) (A (best_tick sd b))) as Hqty.
  { apply Hq. destruct (Z_lt_ge_dec (best_tick sd b) (zs mid tk 0)) as [Hz|Hz]; [right|left; lia].
    intros e He. destruct (lk_side _ _ _ (c_links _ _ _ _ _ Hc) _ _ He) as [Hes|Hes];
      pose proof (zone0_one_price mid tk Hcfg A fl b _ e e0 Hc Hz He He0) as Hpe;
      unfold is_side in *; rewrite Hes; destruct sd; try done; exfalso.
    - pose proof (Hu _ _ e e0 He He0 ltac:(unfold is_side; by rewrite Hes) Hs0). lia.
    - pose proof (Hu _ _ e0 e He0 He Hs0 ltac:(unfold is_side; by rewrite Hes)). lia. }
  exists qty. split; [done|]. right. split; [eauto|]. split; [done|]. rewrite Hqty.
  symmetry. apply (qty_one_slot sd A fl b); [done|]. rewrite <- Hp0. by apply Hc.
Qed.

Lemma current_bbo_spec A fl b :
  book_inv A fl b -> uncrossed A ->
  exists bq aq, current_bbo b = Ok (mkBbo (best_bid_px b) bq (best_ask_px b) aq) /\
    top_of_book Buy A (best_bid_px b) bq /\ top_of_book Sell A (best_ask_px b) aq.
Proof.
  intros Hi Hu. destruct (top_at_best Buy A fl b Hi Hu) as (bq & E1 & T1). destruct (top_at_best Sell A fl b Hi Hu) as (aq & E2 & T2).
  exists bq, aq. simpl in *. unfold current_bbo. rewrite E1. cbn [mbind Res_bind]. rewrite E2. done.
Qed.

(** ** Capacity *)

(** Live slots are the queued orders, so room is a matter of counting. *)
Lemma size_live A fl b : book_inv A fl b -> size A + zlen fl = bump_next (orders b).
Proof.
  intros Hi. pose proof (bk_core _ _ _ _ _ Hi) as Hc. pose proof (c_links _ _ _ _ _ Hc) as Hl. pose proof (c_slab _ _ _ _ _ Hc) as Hs.
  set (hs := flat_map (fun t => handles (A t)) (zrange 0 (total mid tk))).
  assert (zlen hs = size A) as Hsz.
  { unfold hs, size, book_sum. induction (zrange 0 (total mid tk)) as [|t ts IH]; [done|]. cbn [flat_map]. rewrite zlen_app, IH.
    change (zsum ?g (t :: ts)) with (g t + zsum g ts). cbn beta. f_equal. clear. unfold zlen, handles. rewrite length_map.
    induction (A t) as [|e q IH]; [done|]. simpl. rewrite <- IH. lia. }
  assert (hs ++ fl ≡ₚ zrange 0 (bump_next (orders b))) as Hp.
  { apply NoDup_Permutation.
    - apply NoDup_app. split; [eapply all_handles_nodup; [exact Hl|apply zrange_nodup]|]. split; [|apply Hs].
      intros h Hh Hf. rewrite list_elem_of_In in *. apply in_flat_map in Hh as (t & _ & (e & <- & He)%in_map_iff).
      by destruct (c_live _ _ _ _ _ Hc t e He).
    - apply zrange_nodup.
    - intros h. rewrite !list_elem_of_In, in_zrange, in_app_iff. split.
      + intros [(t & _ & (e & <- & He)%in_map_iff)%in_flat_map|Hf]; [by destruct (c_live _ _ _ _ _ Hc t e He)|by apply Hs].
      + intros Hr. destruct (in_dec Z.eq_dec h fl) as [|Hn]; [by right|left].
        destruct (bk_queued _ _ _ _ _ Hi h) as (t & s & Hin); [done|]. apply in_flat_map. exists t.
        split; [apply in_zrange; by apply (core_slot_range mid tk Hcfg _ _ _ _ _ Hc Hin)|]. by apply (in_handles (h, s)). }
  apply Permutation_length in Hp. rewrite length_app in Hp. pose proof (si_bump _ _ Hs).
  pose proof (zrange_length 0 (bump_next (orders b)) ltac:(lia)) as Hz. unfold zlen in *. lia.
Qed.

Lemma has_room_size A fl b : book_inv A fl b -> has_room (orders b) fl <-> size A < zlen (slots (orders b)).
Proof.
  intros Hi. pose proof (size_live A fl b Hi) as Hs. pose proof (si_bump _ _ (c_slab _ _ _ _ _ (bk_core _ _ _ _ _ Hi))) as Hb.
  unfold has_room. pose proof (zlen_nonneg fl). destruct fl as [|x fl]; [change (zlen []) with 0 in *; split; [intros [|]; [done|lia]|right; lia]|].
  rewrite zlen_cons in Hs. pose proof (zlen_nonneg fl). split; [lia|]. intros _. by left.
Qed.

Lemma consumes_slot_sum A fs A' t : consumes A fs A' -> zsum erem (A' t) <= zsum erem (A t).
Proof.
  induction 1 as [A|A t0 q1 e q2 f fs A1 A' Et Hf E1 Eo _ IH]; [lia|]. etransitivity; [exact IH|].
  destruct (Z.eq_dec t t0) as [->|Hne]; [|by rewrite Eo]. rewrite E1, Et, !zsum_app. simpl. unfold leftover.
  destruct (f =? erem e); simpl; [lia|]. unfold erem at 2. simpl. lia.
Qed.

Lemma consumes_size_le A fs A' :
  consumes A fs A' -> (forall t, ~ (0 <= t < total mid tk) -> A t = []) -> size A' <= size A.
Proof.
  intros Hc Hout. unfold size. rewrite (consumes_sum mid tk _ A fs A' Hc Hout).
  assert (0 <= zsum (fun m : MFill => 1 - zsum (fun _ => 1) (leftover m.1 m.2)) fs); [|lia].
  apply zsum_nonneg. intros m _. unfold leftover. destruct (m.2 =? erem m.1); simpl; lia.
Qed.

Lemma moved_has_room o A fl b fs A' fl' b' :
  book_inv A fl b -> book_inv A' fl' b' -> moved o A b fs A' b' -> has_room (orders b) fl -> has_room (orders b') fl'.
Proof.
  intros Hi Hi' M Hr. rewrite (has_room_size A' fl' b' Hi'), (ra_len _ _ _ _ _ _ M). apply (has_room_size A fl b Hi) in Hr.
  pose proof (consumes_size_le A fs A' (ra_consumes _ _ _ _ _ _ M) (fun t => open_out A fl b t (book_open mid tk _ _ _ Hi))). lia.
Qed.

(** ** The residual *)

Lemma uncrossed_consumes A fs A' : consumes A fs A' -> uncrossed A -> uncrossed A'.
Proof.
  intros Hc Hu t t' x y Hx Hy Hxs Hys.
  destruct (consumes_kept _ _ _ Hc t x Hx) as (x' & Hx' & _ & Epx & Esx & _).
  destruct (consumes_kept _ _ _ Hc t' y Hy) as (y' & Hy' & _ & Epy & Esy & _).
  rewrite Epx, Epy. unfold is_side in *. apply (Hu t t'); [done|done|unfold is_side; by rewrite <- Esx|unfold is_side; by rewrite <- Esy].
Qed.

(** An order that crosses nobody can rest. *)
Lemma uncrossed_push A t sd (e : Entry) :
  uncrossed A -> os_side e.2 = side_u8 sd -> (forall t x, In x (A t) -> os_side x.2 = side_u8 Buy \/ os_side x.2 = side_u8 Sell) ->
  (forall t x, In x (A t) -> cross sd (os_price e.2) x = false) -> uncrossed (upd A t (A t ++ [e])).
Proof.
  intros Hu He Hsd Hn t1 t2 x y Hx Hy Hxs Hys.
  assert (forall t x, In x (A t) -> is_side (opposite sd) x.2 = true -> ~ no_worse (opposite sd) (os_price x.2) (os_price e.2)) as Hfar.
  { intros t0 z Hz Hzs Hw. assert (cross sd (os_price e.2) z = true) as Hc by (apply cross_spec; [by apply (Hsd t0)|done]).
    by rewrite (Hn t0 z Hz) in Hc. }
  apply in_upd_snoc in Hx as [Hx|[-> ->]], Hy as [Hy|[-> ->]].
  - by apply (Hu t1 t2).
  - unfold is_side in Hys. rewrite He in Hys. destruct sd; [done|]. pose proof (Hfar t1 x Hx Hxs) as Hf. simpl in Hf. lia.
  - unfold is_side in Hxs. rewrite He in Hxs. destruct sd; [|done]. pose proof (Hfar t2 y Hy Hys) as Hf. simpl in Hf. lia.
  - unfold is_side in *. rewrite He in *. by destruct sd.
Qed.

Lemma limited_eq b o :
  is_match_limited b o = is_budget_spent b && (negb (best_tick (maker_side o) b =? NONE) &&
    negb (better (maker_side o) (in_price o) (best_px (maker_side o) b))).
Proof.
  unfold is_match_limited, maker_side. destruct (in_side o); simpl; f_equal; f_equal.
  - lia.
  - lia.
Qed.

(** A residual that is not cut off by the budget crosses nothing. *)
Lemma residual_clear o A b fs A' fl' b' :
  matched o MAX_MAKERS_PER_ORDER A b fs A' fl' b' -> budget b' (in_remaining o - filled fs) (MAX_MAKERS_PER_ORDER - zlen fs) ->
  0 < in_remaining o - filled fs -> is_match_limited b' (in_with_remaining (in_remaining o - filled fs) o) = false ->
  forall t x, In x (A' t) -> cross (in_side o) (in_price o) x = false.
Proof.
  intros M Hbud Hleft Hlim t x Hx. rewrite limited_eq, (budget_spent _ _ _ Hbud) in Hlim by done. cbn [in_price in_with_remaining] in Hlim.
  change (maker_side (in_with_remaining (in_remaining o - filled fs) o)) with (maker_side o) in Hlim.
  destruct (MAX_MAKERS_PER_ORDER - zlen fs >? 0) eqn:Er; cbn [negb andb] in Hlim.
  { apply (ma_stuck _ _ _ _ _ _ _ _ M Hleft ltac:(lia) t x Hx). }
  destruct (cross (in_side o) (in_price o) x) eqn:Ec; [|done]. exfalso. pose proof (ma_inv _ _ _ _ _ _ _ _ M) as Hi.
  apply cross_spec in Ec as [Es Ew]; [|apply (lk_side _ _ _ (c_links _ _ _ _ _ (bk_core _ _ _ _ _ Hi)) t x Hx)].
  fold (maker_side o) in Es, Ew.
  destruct (bk_best _ _ _ _ _ Hi (maker_side o)) as [(_ & _ & Hn)|(Hne & _ & Hbest)]; [by rewrite (Hn t x Hx) in Es|].
  assert (no_worse (maker_side o) (best_px (maker_side o) b') (in_price o)) as Hb by (eapply no_worse_trans; [by apply (Hbest t x)|done]).
  apply not_better in Hb. rewrite Hb in Hlim. apply andb_false_iff in Hlim as [H|H]; [|done]. lia.
Qed.

(** One that is cut off by it crosses the best opposite order. *)
Lemma limited_crosses A fl b o : book_inv A fl b -> is_match_limited b o = true ->
  exists t x, In x (A t) /\ cross (in_side o) (in_price o) x = true.
Proof.
  intros Hi Hlim. rewrite limited_eq in Hlim. apply andb_true_iff in Hlim as [_ [Hne Hb]%andb_true_iff].
  apply negb_true_iff, Z.eqb_neq in Hne. apply negb_true_iff, not_better in Hb.
  destruct (bk_best _ _ _ _ _ Hi (maker_side o)) as [(? & _)|(_ & (e & He & Hs & Hp) & _)]; [done|].
  exists (best_tick (maker_side o) b), e. split; [done|].
  apply cross_spec; [by apply (lk_side _ _ _ (c_links _ _ _ _ _ (bk_core _ _ _ _ _ Hi)) _ _ He)|]. by rewrite Hp.
Qed.

(** Whether the maker cap cuts an order off. *)
Definition capped (o : IncomingOrder) (fs : list MFill) (A1 : ABook) : Prop :=
  0 < in_remaining o - filled fs /\ exists t x, In x (A1 t) /\ cross (in_side o) (in_price o) x = true.

(** The taker's terminal event. *)
Definition terminal (o : IncomingOrder) (fs : list MFill) (limited : bool) (h : Z) : Event :=
  let left := in_remaining o - filled fs in
  if left >? 0 then
    if limited then done_event o MatchLimit (filled fs) left
    else match in_tif o with
    | IOC => done_event o Expired (filled fs) left
    | FOK => OrderFailed (in_user o) FillOrKill (in_oid_hi o) (in_oid_lo o)
    | GTC => OrderInserted h (in_user o) (side_u8 (in_side o)) (in_price o) left (in_oid_hi o) (in_oid_lo o)
    end
  else done_event o Filled (in_remaining o) 0.

Definition rests (o : IncomingOrder) (fs : list MFill) (limited : bool) : Prop :=
  0 < in_remaining o - filled fs /\ limited = false /\ in_tif o = GTC.

#[global] Instance rests_dec o fs limited : Decision (rests o fs limited).
Proof. apply _. Defined.

(** The resting order the residual becomes. *)
Definition residual_slot (o : IncomingOrder) (left : Z) (s : OrderSlot) : Prop :=
  os_price s = in_price o /\ os_remaining s = left /\ os_side s = side_u8 (in_side o) /\ os_user s = in_user o /\
  os_oid_hi s = in_oid_hi o /\ os_oid_lo s = in_oid_lo o /\ os_timestamp s = in_timestamp o /\ is_reduce_only s = in_reduce_only o /\
  os_tif s = tif_u8 (in_tif o) /\ os_original s = left.

Record finished (o : IncomingOrder) (fs : list MFill) (A1 : ABook) (b1 : Orderbook) (A' : ABook) (fl' : list Z) (b' : Orderbook)
    (limited : bool) (h : Z) : Prop := {
  fi_inv : book_inv A' fl' b';
  fi_uncrossed : uncrossed A';
  fi_events : event_buf b' = event_buf b1 ++ [terminal o fs limited h];
  fi_keeps : keeps (set_events b1 []) (set_events b' []);
  fi_rests : rests o fs limited -> exists s, residual_slot o (in_remaining o - filled fs) s /\
    (forall x, In (h, x) (A1 (idx mid tk (in_price o))) -> False) /\
    A' = upd A1 (idx mid tk (in_price o)) (A1 (idx mid tk (in_price o)) ++ [(h, s)]);
  fi_same : ~ rests o fs limited -> A' = A1;
  fi_limited : limited = true -> zlen fs = MAX_MAKERS_PER_ORDER;
  fi_capped : limited = true <-> capped o fs A1;
  fi_net : forall v, net_of (users b') v = net_of (users b1) v;
  fi_total : total_net (users b') = total_net (users b1);
}.

Lemma book_inv_events A fl b ev : book_inv A fl b -> book_inv A fl (set_events b ev).
Proof.
  intros [i1 i2 i3 i4 i5 i6 i7]. split; try done.
  by apply (core_ext mid tk _ _ b).
Qed.

Lemma finish_spec A fl b o fs A1 fl1 b1 :
  book_inv A fl b -> matched o MAX_MAKERS_PER_ORDER A b fs A1 fl1 b1 -> event_buf b = [] ->
  0 < in_remaining o <= I64_MAX -> uncrossed A ->
  0 < in_price o <= I64_MAX -> in_price o mod tk = 0 -> has_room (orders b) fl -> room_for (users b) (in_user o) ->
  zsum erem (A (idx mid tk (in_price o))) + in_remaining o <= I64_MAX ->
  exists A' fl' b' limited h,
    finish b1 (in_with_remaining (in_remaining o - filled fs) o) (in_remaining o) = Ok b' /\
    finished o fs A1 b1 A' fl' b' limited h.
Proof.
  intros Hi M Hev Hrem Hu Hp Hal Hroom Hur Hsum. pose proof (ma_inv _ _ _ _ _ _ _ _ M) as Hi1. pose proof (ma_moved _ _ _ _ _ _ _ _ M) as Mv.
  pose proof (ma_rem _ _ _ _ _ _ _ _ M) as Hf. pose proof (ma_room _ _ _ _ _ _ _ _ M) as Hz. pose proof (zlen_nonneg fs).
  assert (budget b (in_remaining o) MAX_MAKERS_PER_ORDER) as Hbud.
  { split; [rewrite max_makers; lia|]. right. rewrite Hev. change (zlen []) with 0. lia. }
  pose proof (budget_moved o A b fs A1 b1 _ Mv Hbud Hf Hz (ma_full _ _ _ _ _ _ _ _ M)) as Hbud1.
  assert (zlen (event_buf b1) < MAX_EVENTS) as Hlen.
  { rewrite (ra_events _ _ _ _ _ _ Mv), Hev. simpl. pose proof (events_len o fs). rewrite max_makers in Hz. unfold MAX_EVENTS. lia. }
  set (left := in_remaining o - filled fs) in *. set (o1 := in_with_remaining left o).
  pose proof (uncrossed_consumes A fs A1 (ra_consumes _ _ _ _ _ _ Mv) Hu) as Hu1.
  assert (forall limited h ev, ev = terminal o fs limited h -> ~ rests o fs limited -> (limited = true -> zlen fs = MAX_MAKERS_PER_ORDER) ->
    (limited = true <-> capped o fs A1) -> exists A' fl' b' limited h, emit b1 ev = Ok b' /\ finished o fs A1 b1 A' fl' b' limited h) as Hstay.
  { intros limited h ev -> Hr Hl Hcap. exists A1, fl1, (set_events b1 (event_buf b1 ++ [terminal o fs limited h])), limited, h.
    split; [by apply emit_ok|]. split; try done. by apply book_inv_events. }
  unfold finish. change (in_remaining o1) with left. fold left.
  destruct (left >? 0) eqn:El.
  2: { apply (Hstay false NONE); [unfold terminal; fold left; by rewrite El|intros [? _]; unfold left in *; lia|done|].
       split; [done|]. intros [? _]. unfold left in *. lia. }
  assert (wrap_i64 (in_remaining o - left) = filled fs) as Ew by (rewrite wrap_i64_id; unfold left; [lia|width_lia]).
  destruct (is_match_limited b1 o1) eqn:Elim.
  { apply (Hstay true NONE); [unfold terminal; fold left; by rewrite El, Ew|by intros (_ & ? & _)| |].
    - intros _. rewrite limited_eq, (budget_spent _ _ _ Hbud1) in Elim by lia. lia.
    - split; [|done]. intros _. split; [unfold left in *; lia|]. exact (limited_crosses A1 fl1 b1 o1 Hi1 Elim). }
  pose proof (residual_clear o A b fs A1 fl1 b1 M Hbud1 ltac:(fold left; lia) Elim) as Hclear.
  assert (false = true <-> capped o fs A1) as Hcap.
  { split; [done|]. intros (_ & t & x & Hx & Hc). by rewrite (Hclear t x Hx) in Hc. }
  change (in_tif o1) with (in_tif o). destruct (in_tif o) eqn:Etif.
  2: { apply (Hstay false NONE); [unfold terminal; fold left; by rewrite El, Etif, Ew|intros (_ & _ & ?); congruence|done|done]. }
  2: { apply (Hstay false NONE); [unfold terminal; fold left; by rewrite El, Etif|intros (_ & _ & ?); congruence|done|done]. }
  clear Hstay.
  pose proof (consumes_slot_sum A fs A1 (idx mid tk (in_price o)) (ra_consumes _ _ _ _ _ _ Mv)) as Hss.
  destruct (insert_resting_spec mid tk Hcfg A1 fl1 b1 (in_price o) left (in_side o) (tif_u8 GTC) (in_user o) (in_reduce_only o)
    (in_timestamp o) (in_oid_hi o) (in_oid_lo o) Hi1 (moved_has_room o A fl b fs A1 fl1 b1 Hi Hi1 Mv Hroom)
    (moved_room _ _ _ _ _ _ Mv Hur) Hp Hal ltac:(lia) ltac:(unfold left; lia)) as (h & fl' & b' & E & Hi' & K & Hnl & Hlive & Hnet & Htot).
  cbn zeta in *. set (s := resting_slot mid tk b1 _ _ _ _ _ _ _ _ _) in *.
  assert (event_buf b' = event_buf b1) as Hevb by apply K.
  exists (upd A1 (idx mid tk (in_price o)) (A1 (idx mid tk (in_price o)) ++ [(h, s)])), fl',
    (set_events b' (event_buf b' ++ [terminal o fs false h])), false, h.
  cbn [in_price in_side in_user in_reduce_only in_timestamp in_oid_hi in_oid_lo in_with_remaining o1]. rewrite E. cbn [mbind Res_bind]. split.
  { rewrite emit_ok by (by rewrite Hevb). unfold terminal. fold left. by rewrite El, Etif. }
  split; try done.
  - by apply book_inv_events.
  - apply (uncrossed_push A1 _ (in_side o)); try done.
    apply (lk_side _ _ _ (c_links _ _ _ _ _ (bk_core _ _ _ _ _ Hi1))).
  - by rewrite <- Hevb.
  - destruct K as (?&?&?&?&?&?&?&?). by repeat split.
  - intros _. exists s. split; [repeat split; unfold s; [by destruct (in_reduce_only o)|by rewrite Etif]|]. split; [|done].
    intros x Hx. apply Hnl. exact (c_live _ _ _ _ _ (bk_core _ _ _ _ _ Hi1) _ _ Hx).
  - intros Hn. destruct Hn. split; [lia|done].
Qed.

(** ** A whole execution *)

(** The book-top event, present iff a best price or slot moved. *)
Definition bbo_events (A' : ABook) (b b' : Orderbook) (evs : list Event) : Prop :=
  same_best b b' = true /\ evs = [] \/
  same_best b b' = false /\ exists bp bq ap aq, evs = [BBO bp bq ap aq] /\ top_of_book Buy A' bp bq /\ top_of_book Sell A' ap aq.

Record executed (o : IncomingOrder) (A : ABook) (b : Orderbook) (fs : list MFill) (A1 : ABook) (A' : ABook) (fl' : list Z)
    (b' : Orderbook) (limited : bool) (h : Z) (bbo : list Event) : Prop := {
  ex_inv : book_inv A' fl' b';
  ex_uncrossed : uncrossed A';
  ex_match : exists fl1 b1, matched o MAX_MAKERS_PER_ORDER A b fs A1 fl1 b1;
  ex_events : event_buf b' = fill_events o fs ++ terminal o fs limited h :: bbo;
  ex_bbo : bbo_events A' b b' bbo;
  ex_rests : rests o fs limited -> exists s, residual_slot o (in_remaining o - filled fs) s /\
    (forall x, In (h, x) (A1 (idx mid tk (in_price o))) -> False) /\
    A' = upd A1 (idx mid tk (in_price o)) (A1 (idx mid tk (in_price o)) ++ [(h, s)]);
  ex_same : ~ rests o fs limited -> A' = A1;
  ex_limited : limited = true -> zlen fs = MAX_MAKERS_PER_ORDER;
  ex_capped : limited = true <-> capped o fs A1;
  ex_keeps : keeps (set_events b []) (set_events b' []);
  ex_net : (forall v, Z.abs (net_of (users b) v) + filled fs <= I64_MAX) ->
    (forall v, net_of (users b') v = net_of (users b) v + net_delta o v fs) /\ total_net (users b') = total_net (users b);
}.

Lemma length_slots_size A fl b : book_inv A fl b -> size A <= Z.of_nat (length (slots (orders b))).
Proof. intros Hi. apply (book_sum_count mid tk (fun _ => 1) A fl b (bk_core _ _ _ _ _ Hi)). lia. Qed.

Lemma execute_spec A fl b o :
  book_inv A fl b -> event_buf b = [] -> 0 < in_remaining o <= I64_MAX -> uncrossed A ->
  0 < in_price o <= I64_MAX -> in_price o mod tk = 0 -> has_room (orders b) fl -> room_for (users b) (in_user o) ->
  zsum erem (A (idx mid tk (in_price o))) + in_remaining o <= I64_MAX ->
  exists fs A1 A' fl' b' limited h bbo,
    execute b o = Ok (in_with_remaining (in_remaining o - filled fs) o, b') /\
    executed o A b fs A1 A' fl' b' limited h bbo.
Proof.
  intros Hi Hev Hrem Hu Hp Hal Hroom Hur Hsum.
  assert (budget b (in_remaining o) MAX_MAKERS_PER_ORDER) as Hbud.
  { split; [rewrite max_makers; lia|]. right. rewrite Hev. change (zlen []) with 0. lia. }
  destruct (match_loop_spec (S (S (length (slots (orders b))))) A fl b o _ Hi ltac:(lia) Hbud Hur) as (fs & A1 & fl1 & b1 & E1 & M).
  { left. pose proof (length_slots_size A fl b Hi). lia. }
  destruct (finish_spec A fl b o fs A1 fl1 b1 Hi M Hev Hrem Hu Hp Hal Hroom Hur Hsum) as (A' & fl' & b2 & limited & h & E2 & F).
  destruct F as [g1 g2 g3 g4 g5 g6 g7 g10 g8 g9]. pose proof (ma_moved _ _ _ _ _ _ _ _ M) as Mv.
  assert (event_buf b2 = fill_events o fs ++ [terminal o fs limited h]) as Hevs.
  { rewrite g3, (ra_events _ _ _ _ _ _ Mv), Hev. done. }
  assert (zlen (event_buf b2) < MAX_EVENTS) as Hlen.
  { rewrite Hevs, zlen_snoc. pose proof (events_len o fs). pose proof (ma_room _ _ _ _ _ _ _ _ M). rewrite max_makers in *. unfold MAX_EVENTS. lia. }
  unfold execute. rewrite E1. cbn [mbind Res_bind]. rewrite E2. cbn [mbind Res_bind].
  assert (forall bbo, bbo_events A' b b2 bbo ->
    executed o A b fs A1 A' fl' (set_events b2 (event_buf b2 ++ bbo)) limited h bbo) as Hdone.
  { intros bbo Hb. split; try done.
    - by apply book_inv_events.
    - eauto.
    - cbn. by rewrite Hevs, <- app_assoc.
    - exact (keeps_ev_trans b b1 b2 (ra_keeps _ _ _ _ _ _ Mv) g4).
    - intros Hn. destruct (ra_net _ _ _ _ _ _ Mv Hn) as [N1 N2]. cbn. split; [intros v; by rewrite g8|by rewrite g9]. }
  destruct (same_best b b2) eqn:Es; cbn [mbind Res_bind].
  - exists fs, A1, A', fl', b2, limited, h, []. split; [done|].
    replace b2 with (set_events b2 (event_buf b2 ++ [])) by (rewrite app_nil_r; by destruct b2). apply Hdone. by left.
  - destruct (current_bbo_spec A' fl' b2 g1 g2) as (bq & aq & E3 & T1 & T2). unfold emit_bbo. rewrite E3. cbn [mbind Res_bind].
    rewrite emit_ok by done. cbn [mbind Res_bind]. eexists fs, A1, A', fl', _, limited, h, _. split; [reflexivity|].
    apply Hdone. right. split; [done|]. by eexists _, _, _, _.
Qed.

End Engine.
