(* ===== verification/Feasible.v ===== *)
(** * Feasible: the fill-or-kill pre-check

    [can_fill_fully] of [rsx-book/src/matching.rs] walks the occupied slots of
    the maker side in price order with early exits.  While the maker cap does
    not bind, it decides exactly whether the crossing quantity covers the
    order. *)

From stdpp Require Import sorting.
From S2P Require Import Prelude Types Slab Occupancy Compression Users Order Book Links BookInv Matching MatchInv.
From S2P Require Import FillQueue SlotMatch Engine.

(** ** Occupied slots in visiting order *)

Definition marked (o : Occupancy) (lo hi : Z) : list Z := List.filter (mem o) (zrange lo hi).

Lemma in_marked o lo hi t : In t (marked o lo hi) <-> lo <= t < hi /\ mem o t = true.
Proof. unfold marked. by rewrite filter_In, in_zrange. Qed.

Lemma zrange_split lo t hi : lo <= t < hi -> zrange lo hi = zrange lo t ++ t :: zrange (t + 1) hi.
Proof.
  intros H. unfold zrange. replace (hi - lo) with ((t - lo) + (hi - t)) by lia. rewrite seqZ_app by lia. f_equal.
  replace (lo + (t - lo)) with t by lia. rewrite seqZ_cons by lia. f_equal. f_equal; lia.
Qed.

Lemma filter_none {A} (f : A -> bool) l : (forall x, In x l -> f x = false) -> List.filter f l = [].
Proof.
  induction l as [|x l IH]; [done|]. intros H. simpl. rewrite (H x (or_introl eq_refl)). apply IH. intros y Hy. apply H. by right.
Qed.

Lemma marked_none o lo hi : (forall j, lo <= j < hi -> ~ mem o j = true) -> marked o lo hi = [].
Proof. intros H. apply filter_none. intros x Hx%in_zrange. by apply not_true_iff_false, H. Qed.

Lemma marked_first o lo hi t :
  lo <= t < hi -> mem o t = true -> (forall j, lo <= j < hi -> mem o j = true -> t <= j) ->
  marked o lo hi = t :: marked o (t + 1) hi.
Proof.
  intros Ht Hm Hl. unfold marked at 1. rewrite (zrange_split lo t hi) by done. rewrite List.filter_app. simpl. rewrite Hm.
  rewrite filter_none; [done|]. intros x Hx%in_zrange. destruct (mem o x) eqn:E; [|done]. pose proof (Hl x ltac:(lia) E). lia.
Qed.

Lemma marked_last o lo hi t :
  lo <= t < hi -> mem o t = true -> (forall j, lo <= j < hi -> mem o j = true -> j <= t) ->
  marked o lo hi = marked o lo t ++ [t].
Proof.
  intros Ht Hm Hl. unfold marked at 1. rewrite (zrange_split lo t hi) by done. rewrite List.filter_app. simpl. rewrite Hm.
  rewrite (filter_none _ (zrange (t + 1) hi)); [done|]. intros x Hx%in_zrange. destruct (mem o x) eqn:E; [|done].
  pose proof (Hl x ltac:(lia) E). lia.
Qed.

(** A loop with early return over a list. *)
Fixpoint flow_fold {A} (step : Z -> A -> Res (Flow A)) (ts : list Z) (acc : A) : Res (Flow A) :=
  match ts with
  | [] => Ok (Next acc)
  | t :: ts' =>
      r ← step t acc;
      match r with Return r => Ok (Return r) | Next acc => flow_fold step ts' acc end
  end.

Lemma flow_fold_app {A} (step : Z -> A -> Res (Flow A)) ts1 ts2 acc :
  flow_fold step (ts1 ++ ts2) acc =
  (r ← flow_fold step ts1 acc; match r with Return r => Ok (Return r) | Next acc => flow_fold step ts2 acc end).
Proof.
  revert acc. induction ts1 as [|t ts1 IH]; intros acc; cbn [flow_fold app mbind Res_bind]; [done|].
  destruct (step t acc) as [[a|r]| |]; cbn [mbind Res_bind]; auto.
Qed.

Lemma feasible_asks_fold fuel b limit needed cur hi acc :
  occ_inv (ask_occ b) -> 0 <= cur -> hi <= U32_MAX -> hi - cur < Z.of_nat fuel -> (0 < fuel)%nat ->
  feasible_asks fuel b limit needed cur hi acc = flow_fold (feasible_slot b Sell limit needed) (marked (ask_occ b) cur hi) acc.
Proof.
  intros Ho. revert cur acc. induction fuel as [|fuel IH]; intros cur acc Hc Hh Hf Hp; [lia|]. cbn [feasible_asks].
  destruct (find_first_in_spec (ask_occ b) cur hi Ho Hc) as ([t|] & E & Hs); rewrite E; cbn [mbind Res_bind]; cbn in Hs.
  - destruct Hs as (Ht & Hm & Hl). rewrite (marked_first _ cur hi t Ht Hm Hl). cbn [flow_fold].
    destruct (feasible_slot b Sell limit needed t acc) as [[a|r]| |]; cbn [mbind Res_bind]; try done.
    rewrite wrap_u32_id by width_lia. apply IH; lia.
  - by rewrite marked_none.
Qed.

Lemma feasible_bids_fold fuel b limit needed lo top acc :
  occ_inv (bid_occ b) -> 0 <= lo -> top - lo < Z.of_nat fuel -> (0 < fuel)%nat ->
  feasible_bids fuel b limit needed lo top acc =
    flow_fold (feasible_slot b Buy limit needed) (reverse (marked (bid_occ b) lo top)) acc.
Proof.
  intros Ho Hlo. revert top acc. induction fuel as [|fuel IH]; intros top acc Hf Hp; [lia|]. cbn [feasible_bids].
  destruct (find_last_in_spec (bid_occ b) lo top Ho Hlo) as ([t|] & E & Hs); rewrite E; cbn [mbind Res_bind]; cbn in Hs.
  - destruct Hs as (Ht & Hm & Hl). rewrite (marked_last _ lo top t Ht Hm Hl), reverse_snoc. cbn [flow_fold].
    destruct (feasible_slot b Buy limit needed t acc) as [[a|r]| |]; cbn [mbind Res_bind]; try done.
    apply IH; lia.
  - by rewrite marked_none.
Qed.

(** The ranges one after the other are one loop over their slots. *)
Lemma feasible_ranges_fold (step : Z -> Z * Z -> Res (Flow (Z * Z))) inner visit ranges acc :
  (forall r a, In r ranges -> inner r a = flow_fold step (visit r) a) ->
  feasible_ranges inner ranges acc =
    (f ← flow_fold step (flat_map visit ranges) acc; Ok (match f with Return r => r | Next _ => false end)).
Proof.
  revert acc. induction ranges as [|r ranges IH]; intros acc Hi; cbn [feasible_ranges flat_map]; [done|].
  rewrite Hi by (by left). rewrite flow_fold_app. destruct (flow_fold step (visit r) acc) as [[a|x]| |]; cbn [mbind Res_bind]; try done.
  apply IH. intros. apply Hi. by right.
Qed.

(** ** One slot *)

Fixpoint qflow {A} (f : A -> OrderSlot -> Flow A) (q : list Entry) (acc : A) : Flow A :=
  match q with
  | [] => Next acc
  | e :: q' => match f acc e.2 with Return r => Return r | Next acc' => qflow f q' acc' end
  end.

Lemma walk_flow_spec {A} os (f : A -> OrderSlot -> Flow A) q pv fuel acc :
  (forall acc n p s, f acc (relink n p s) = f acc s) -> seg (slots os) pv q NONE -> (forall h, In h (handles q) -> h <> NONE) ->
  (length q < fuel)%nat -> walk_flow fuel os f (qhead q NONE) acc = Ok (qflow f q acc).
Proof.
  intros Hf. revert pv fuel acc. induction q as [|e q IH]; intros pv fuel acc Hseg Hn Hl;
    (destruct fuel as [|fuel]; [simpl in Hl; lia|]); cbn [walk_flow qhead qflow].
  - by rewrite Z.eqb_refl.
  - destruct Hseg as [Hg Hr]. assert (e.1 <> NONE) as Hne by (apply Hn; by left).
    replace (e.1 =? NONE) with false by lia. unfold get. rewrite (vindex_some _ _ _ Hg). cbn [mbind Res_bind].
    rewrite Hf. change (os_next (relink (qhead q NONE) pv e.2)) with (qhead q NONE). destruct (f acc e.2); [|done].
    apply (IH e.1); [done|intros h Hh; apply Hn; by right|simpl in Hl; lia].
Qed.

(** The best maker price seen by the walk. *)
Definition best_step (msd : Side) (best : Z) (e : Entry) : Z :=
  if is_side msd e.2 && better msd (os_price e.2) best then os_price e.2 else best.

Definition valid_side (e : Entry) : Prop := os_side e.2 = side_u8 Buy \/ os_side e.2 = side_u8 Sell.

Lemma feasible_step_eq sd limit needed best m tot e :
  valid_side e ->
  feasible_step (opposite sd) limit needed (best, m, tot) e.2 =
  let best := best_step (opposite sd) best e in
  if cross sd limit e then
    if m + 1 >? MAX_MAKERS_PER_ORDER then Return false
    else if wrap_i64 (tot + erem e) >=? needed then Return true else Next (best, m + 1, wrap_i64 (tot + erem e))
  else Next (best, m, tot).
Proof.
  intros Hv. unfold feasible_step, best_step, cross, is_crossing, is_side, erem. destruct Hv as [-> | ->]; destruct sd; cbn;
    rewrite ?Z.geb_leb, ?Z.gtb_ltb; repeat (case_if; bool_to_prop); try done; try (exfalso; lia); f_equal; f_equal; f_equal; lia.
Qed.

Lemma feasible_walk_spec sd limit needed q best m tot :
  queue_ok q -> m + cross_count sd limit q <= MAX_MAKERS_PER_ORDER -> 0 <= tot < needed -> tot + cross_qty sd limit q <= I64_MAX ->
  qflow (feasible_step (opposite sd) limit needed) q (best, m, tot) =
  if needed <=? tot + cross_qty sd limit q then Return true
  else Next (fold_left (best_step (opposite sd)) q best, m + cross_count sd limit q, tot + cross_qty sd limit q).
Proof.
  intros [Hpos Hside _ _]. revert best m tot. unfold cross_qty, cross_count.
  induction q as [|e q IH]; intros best m tot Hm Ht Hq; cbn [qflow zsum fold_right fold_left].
  { rewrite Z.add_0_r. replace (needed <=? tot) with false by lia. by rewrite Z.add_0_r. }
  fold (zsum (fun e => if cross sd limit e then erem e else 0) q) in *. fold (zsum (fun e => if cross sd limit e then 1 else 0) q) in *.
  cbn [zsum fold_right] in Hm, Hq. fold (zsum (fun e => if cross sd limit e then erem e else 0) q) in Hq.
  fold (zsum (fun e => if cross sd limit e then 1 else 0) q) in Hm.
  assert (forall x, In x q -> 0 < erem x) as Hposq by (intros; apply Hpos; by right). pose proof (Hpos e (or_introl eq_refl)) as He.
  assert (forall x, In x q -> os_side x.2 = side_u8 Buy \/ os_side x.2 = side_u8 Sell) as Hsideq by (intros; apply Hside; by right).
  pose proof (cross_sums_nonneg sd limit q Hposq) as [Hn1 Hn2]. unfold cross_qty, cross_count in Hn1, Hn2.
  rewrite feasible_step_eq by (apply Hside; by left). cbn zeta.
  destruct (cross sd limit e) eqn:Ec.
  - replace (m + 1 >? MAX_MAKERS_PER_ORDER) with false by lia. rewrite wrap_i64_id by width_lia. rewrite Z.geb_leb.
    destruct (needed <=? tot + erem e) eqn:En.
    + by replace (needed <=? tot + (erem e + _)) with true by lia.
    + rewrite IH by (done || lia). rewrite !Z.add_assoc. done.
  - rewrite IH by (done || lia). done.
Qed.

(** The walk's best price decides whether anything in the slot crosses. *)
Lemma best_fold_spec msd q best :
  no_worse msd (fold_left (best_step msd) q best) best /\
  (forall e, In e q -> is_side msd e.2 = true -> no_worse msd (fold_left (best_step msd) q best) (os_price e.2)) /\
  (fold_left (best_step msd) q best = best \/
   exists e, In e q /\ is_side msd e.2 = true /\ os_price e.2 = fold_left (best_step msd) q best).
Proof.
  revert best. induction q as [|e q IH]; intros best; simpl.
  { split; [apply no_worse_refl|]. split; [by intros e []|by left]. }
  destruct (IH (best_step msd best e)) as (I1 & I2 & I3).
  assert (no_worse msd (best_step msd best e) best /\ (is_side msd e.2 = true -> no_worse msd (best_step msd best e) (os_price e.2))) as [B1 B2].
  { unfold best_step. destruct (is_side msd e.2); simpl; [|split; [apply no_worse_refl|done]].
    destruct (better msd (os_price e.2) best) eqn:Eb.
    - apply better_spec in Eb as [Eb _]. split; [done|intros _; apply no_worse_refl].
    - apply not_better in Eb. split; [apply no_worse_refl|done]. }
  split; [by eapply no_worse_trans|]. split.
  - intros x [<-|Hx] Hs; [eapply no_worse_trans; [exact I1|by apply B2]|by apply I2].
  - destruct I3 as [->|(x & Hx & Hxs & Hxp)]; [|right; eauto].
    unfold best_step. destruct (is_side msd e.2) eqn:Es; simpl; [|by left]. destruct (better msd (os_price e.2) best); [right; eauto|by left].
Qed.

Lemma beyond_spec sd limit q :
  queue_ok q -> (forall e, In e q -> 0 < os_price e.2 <= I64_MAX) -> 0 < zsum (on_side (opposite sd)) q -> 0 < limit <= I64_MAX ->
  let best := fold_left (best_step (opposite sd)) q (worst (opposite sd)) in
  better (opposite sd) limit best = (cross_count sd limit q =? 0).
Proof.
  intros Hq Hpx Hocc Hlim best. destruct (best_fold_spec (opposite sd) q (worst (opposite sd))) as (B1 & B2 & B3). fold best in B1, B2, B3.
  apply zsum_on_side_pos in Hocc as (e0 & He0 & Hs0).
  assert (exists e, In e q /\ is_side (opposite sd) e.2 = true /\ os_price e.2 = best) as (e1 & He1 & Hs1 & Hp1).
  { destruct B3 as [Hw|]; [|done]. exists e0. split; [done|]. split; [done|]. pose proof (B2 e0 He0 Hs0) as Hb.
    pose proof (Hpx e0 He0). rewrite Hw in *. destruct sd; simpl in *; width_lia. }
  destruct (cross_count sd limit q =? 0) eqn:Ec; bool_to_prop.
  - destruct (cross sd limit e1) eqn:E1.
    { pose proof (cross_sums_in sd limit q e1 (qo_pos _ Hq) He1 E1). lia. }
    rewrite <- Hp1. apply better_spec. assert (~ no_worse (opposite sd) (os_price e1.2) limit) as Hn.
    { intros Hw. apply not_true_iff_false in E1. apply E1, cross_spec; [by apply (qo_side _ Hq)|done]. }
    destruct sd; simpl in Hn |- *; lia.
  - apply not_better. destruct (existsb (cross sd limit) q) eqn:Ex.
    + apply existsb_exists in Ex as (e & He & Hc). apply cross_spec in Hc as [Hs Hw]; [|by apply (qo_side _ Hq)].
      eapply no_worse_trans; [by apply (B2 e)|done].
    + exfalso. apply Ec. unfold cross_count. clear -Ex. induction q as [|x q IH]; [done|]. simpl in *.
      apply orb_false_iff in Ex as [-> Ex]. rewrite IH; [done|done].
Qed.

Lemma cross_all sd limit q :
  (forall e, In e q -> cross sd limit e = true) -> cross_count sd limit q = zlen q /\ cross_qty sd limit q = zsum erem q.
Proof.
  unfold cross_count, cross_qty. induction q as [|e q IH]; intros H; [done|]. simpl. rewrite (H e (or_introl eq_refl)).
  destruct IH as [-> ->]; [intros; apply H; by right|]. rewrite zlen_cons. split; [lia|done].
Qed.

Lemma cross_nothing sd limit q :
  (forall e, In e q -> cross sd limit e = false) -> cross_count sd limit q = 0 /\ cross_qty sd limit q = 0.
Proof.
  unfold cross_count, cross_qty. induction q as [|e q IH]; intros H; [done|]. simpl. rewrite (H e (or_introl eq_refl)).
  destruct IH as [-> ->]; [intros; apply H; by right|done].
Qed.

Lemma on_side_all sd q : (forall e, In e q -> is_side sd e.2 = true) -> zsum (on_side sd) q = zlen q.
Proof.
  induction q as [|e q IH]; intros H; [done|]. simpl. unfold on_side at 1. rewrite (H e (or_introl eq_refl)), IH by (intros; apply H; by right).
  rewrite zlen_cons. lia.
Qed.

(** ** Sorted visits *)

Lemma sorted_app {A} (R : A -> A -> Prop) l1 l2 :
  StronglySorted R l1 -> StronglySorted R l2 -> (forall x y, In x l1 -> In y l2 -> R x y) -> StronglySorted R (l1 ++ l2).
Proof.
  induction l1 as [|x l1 IH]; intros H1 H2 H; [done|]. apply StronglySorted_inv in H1 as [H1 Hf]. simpl. constructor.
  - apply IH; [done|done|]. intros a c Ha Hc. apply H; [by right|done].
  - apply Forall_app. split; [done|]. apply Forall_forall. intros y Hy. apply H; [by left|by apply list_elem_of_In].
Qed.

Lemma sorted_flat_map {A B} (R : A -> A -> Prop) (f : B -> list A) ks :
  (forall k, In k ks -> StronglySorted R (f k)) -> StronglySorted (fun k k' => forall x y, In x (f k) -> In y (f k') -> R x y) ks ->
  StronglySorted R (flat_map f ks).
Proof.
  induction ks as [|k ks IH]; intros H1 H2; [constructor|]. apply StronglySorted_inv in H2 as [H2 Hf]. simpl. apply sorted_app.
  - apply H1. by left.
  - apply IH; [intros; apply H1; by right|done].
  - intros x y Hx (k' & Hk' & Hy)%in_flat_map. rewrite Forall_forall in Hf. apply (Hf k'); [by apply list_elem_of_In|done|done].
Qed.

Lemma sorted_weaken {A} (P R : A -> A -> Prop) l :
  StronglySorted P l -> (forall x y, In x l -> In y l -> P x y -> R x y) -> StronglySorted R l.
Proof.
  induction 1 as [|x l Hs IH Hf]; intros H; [constructor|]. constructor.
  - apply IH. intros a c Ha Hc. apply H; by right.
  - rewrite Forall_forall in *. intros y Hy. apply H; [by left|right; by apply list_elem_of_In|by apply Hf].
Qed.

Lemma sorted_reverse {A} (R : A -> A -> Prop) l : StronglySorted R l -> StronglySorted (fun x y => R y x) (reverse l).
Proof.
  induction 1 as [|x l Hs IH Hf]; [constructor|]. rewrite reverse_cons. apply sorted_app; [done|repeat constructor|].
  intros a c Ha [<-|[]]. rewrite Forall_forall in Hf. apply Hf. by apply elem_of_reverse, list_elem_of_In.
Qed.

Lemma sorted_filter {A} (R : A -> A -> Prop) f l : StronglySorted R l -> StronglySorted R (List.filter f l).
Proof.
  induction 1 as [|x l Hs IH Hf]; [constructor|]. simpl. destruct (f x); [|done]. constructor; [done|].
  rewrite Forall_forall in *. intros y. rewrite list_elem_of_In, filter_In, <- list_elem_of_In. intros [Hy _]. by apply Hf.
Qed.

Lemma sorted_zrange lo hi : StronglySorted Z.lt (zrange lo hi).
Proof.
  unfold zrange. remember (Z.to_nat (hi - lo)) as n eqn:En. revert lo En. induction n as [|n IH]; intros lo En.
  - rewrite seqZ_nil by lia. constructor.
  - rewrite seqZ_cons by lia. constructor.
    + replace (Z.pred (hi - lo)) with (hi - Z.succ lo) by lia. apply IH. lia.
    + apply Forall_forall. intros x. rewrite elem_of_seqZ. lia.
Qed.

Lemma flat_map_reverse {A B} (f : A -> list B) l : flat_map (fun x => reverse (f x)) (reverse l) = reverse (flat_map f l).
Proof.
  induction l as [|x l IH]; [done|]. rewrite reverse_cons, flat_map_app, IH. simpl. by rewrite app_nil_r, reverse_app.
Qed.

Lemma sorted_nodup {A} (R : A -> A -> Prop) l : (forall x, ~ R x x) -> StronglySorted R l -> NoDup l.
Proof.
  intros Hirr. induction 1 as [|x l Hs IH Hf]; constructor; [|done]. intros Hx. rewrite Forall_forall in Hf. by apply (Hirr x), Hf.
Qed.

Section Check.
Variables (mid tk : Z).
Hypothesis Hcfg : cfg_ok mid tk.
Hypothesis Hspread : spread_ok mid tk.

Abbreviation book_inv := (book_inv mid tk).

(** A zone-0 slot of an uncrossed book holds one side at one price. *)
Lemma zone0_one_side A fl b sd t e0 :
  book_inv A fl b -> uncrossed A -> t < zs mid tk 0 -> In e0 (A t) -> is_side sd e0.2 = true ->
  forall e, In e (A t) -> is_side sd e.2 = true /\ os_price e.2 = os_price e0.2.
Proof.
  intros Hi Hu Hz He0 Hs0 e He. pose proof (bk_core _ _ _ _ _ Hi) as Hc.
  pose proof (zone0_one_price mid tk Hcfg A fl b t e e0 Hc Hz He He0) as Hpe. split; [|done].
  destruct (lk_side _ _ _ (c_links _ _ _ _ _ Hc) _ _ He) as [Hes|Hes]; unfold is_side in *; rewrite Hes; destruct sd; try done; exfalso.
  - pose proof (Hu _ _ e e0 He He0 ltac:(unfold is_side; by rewrite Hes) Hs0). lia.
  - pose proof (Hu _ _ e0 e He0 He Hs0 ltac:(unfold is_side; by rewrite Hes)). lia.
Qed.

Lemma feasible_slot_spec A fl b sd limit needed t m tot :
  book_inv A fl b -> uncrossed A -> 0 < limit <= I64_MAX -> 0 < zsum (on_side (opposite sd)) (A t) ->
  0 <= m -> m + cross_count sd limit (A t) <= MAX_MAKERS_PER_ORDER -> 0 <= tot < needed ->
  tot + cross_qty sd limit (A t) <= I64_MAX ->
  feasible_slot b (opposite sd) limit needed t (m, tot) =
  Ok (if cross_count sd limit (A t) =? 0 then Return false
      else if needed <=? tot + cross_qty sd limit (A t) then Return true
      else Next (m + cross_count sd limit (A t), tot + cross_qty sd limit (A t))).
Proof.
  intros Hi Hu Hlim Hocc Hm Hcap Htot Hmax. pose proof (bk_core _ _ _ _ _ Hi) as Hc. pose proof (c_links _ _ _ _ _ Hc) as Hl.
  pose proof (proj1 (zsum_on_side_pos _ _) Hocc) as (e0 & He0 & Hs0).
  pose proof (core_slot_range mid tk Hcfg _ _ _ _ _ Hc He0) as Ht.
  pose proof (open_queue_ok mid tk A fl b t (book_open mid tk _ _ _ Hi)) as Hq.
  unfold feasible_slot. rewrite (vindex_some _ _ _ (core_level mid tk _ _ _ t Hc Ht)). cbn [mbind Res_bind].
  rewrite (c_map _ _ _ _ _ Hc). change (arr (zone_slots (the_map mid tk)) 0) with (zs mid tk 0).
  destruct (t <? zs mid tk 0) eqn:Ez; bool_to_prop.
  - pose proof (zone0_one_side A fl b (opposite sd) t e0 Hi Hu Ez He0 Hs0) as Hone.
    destruct (A t) as [|eh q] eqn:EA; [done|]. assert (In eh (A t)) as Hh by (rewrite EA; by left). rewrite <- EA in *.
    destruct (core_get mid tk _ _ _ _ _ Hc Hh) as (n & p & Hg). replace (lv_head (level_of (A t))) with eh.1 by (by rewrite EA).
    rewrite Hg. cbn [mbind Res_bind]. change (os_price (relink n p eh.2)) with (os_price eh.2).
    replace (match opposite sd with Buy => os_price eh.2 <? limit | Sell => os_price eh.2 >? limit end)
      with (better (opposite sd) limit (os_price eh.2)) by (destruct sd; simpl; lia).
    assert (forall e, In e (A t) -> cross sd limit e = negb (better (opposite sd) limit (os_price eh.2))) as Hcr.
    { intros e He. destruct (Hone e He) as [Hs Hp]. destruct (Hone eh Hh) as [_ Hph]. apply eq_true_iff_eq.
      rewrite cross_spec by (by apply (qo_side _ Hq)). rewrite negb_true_iff, not_better, Hp, <- Hph. tauto. }
    destruct (better (opposite sd) limit (os_price eh.2)); cbn [negb] in Hcr.
    { destruct (cross_nothing sd limit (A t) Hcr) as [-> _]. done. }
    destruct (cross_all sd limit (A t) Hcr) as [Ecnt Eqty]. rewrite Ecnt, Eqty in *.
    replace (match opposite sd with Buy => lv_bid_count (level_of (A t)) | Sell => lv_ask_count (level_of (A t)) end) with (zlen (A t))
      by (rewrite <- (on_side_all (opposite sd) (A t)) by (intros e He; by destruct (Hone e He)); by destruct sd).
    assert (0 < zlen (A t)) as Hpos by (rewrite EA, zlen_cons; pose proof (zlen_nonneg q); lia).
    replace (m + zlen (A t) >? MAX_MAKERS_PER_ORDER) with false by lia. replace (zlen (A t) =? 0) with false by lia.
    cbn [lv_total_qty level_of]. pose proof (zsum_nonneg erem (A t) (lk_qty _ _ _ Hl t)).
    rewrite wrap_i64_id by width_lia. rewrite Z.geb_leb. by destruct (needed <=? tot + zsum erem (A t)).
  - cbn [lv_head level_of].
    assert ((forall acc n p s, feasible_step (opposite sd) limit needed acc (relink n p s) = feasible_step (opposite sd) limit needed acc s)) as Hlk
      by (by intros [[]]).
    rewrite (walk_flow_spec _ _ (A t) NONE _ _ Hlk (lk_seg _ _ _ Hl t)); [|intros h Hh; pose proof (core_handle mid tk _ _ _ t h Hc Hh); lia|
      pose proof (seg_length _ _ _ _ (lk_seg _ _ _ Hl t) (lk_nodup _ _ _ Hl t)); lia].
    cbn [mbind Res_bind]. change (match opposite sd with Buy => I64_MIN | Sell => I64_MAX end) with (worst (opposite sd)).
    rewrite feasible_walk_spec by done.
    pose proof (beyond_spec sd limit (A t) Hq (fun e He => proj1 (c_px _ _ _ _ _ Hc t e He)) Hocc Hlim) as Hbey. cbn zeta in Hbey.
    destruct (needed <=? tot + cross_qty sd limit (A t)) eqn:En.
    + destruct (cross_count sd limit (A t) =? 0) eqn:E0; [|done]. bool_to_prop.
      assert (cross_qty sd limit (A t) = 0); [|lia]. apply cross_nothing. intros e He. destruct (cross sd limit e) eqn:Ee; [|done].
      pose proof (cross_sums_in sd limit _ e (qo_pos _ Hq) He Ee). lia.
    + rewrite <- Hbey. set (best := fold_left _ _ _).
      replace (match opposite sd with Buy => best <? limit | Sell => best >? limit end) with (better (opposite sd) limit best) by (destruct sd; simpl; lia).
      by destruct (better (opposite sd) limit best).
Qed.

(** Visiting order of slots: by band, then by index. *)
Definition before (t t' : Z) : Prop :=
  exists k k', 0 <= k <= 9 /\ 0 <= k' <= 9 /\ (band_range mid tk k).1 <= t < (band_range mid tk k).2 /\
    (band_range mid tk k').1 <= t' < (band_range mid tk k').2 /\ (k < k' \/ k = k' /\ t < t').

Definition visit (o : Occupancy) : list Z := flat_map (fun r => marked o r.1 r.2) (bands mid tk).

Lemma visit_sorted o : StronglySorted before (visit o).
Proof.
  unfold visit, bands. rewrite flat_map_map || rewrite flat_map_concat_map, map_map, <- flat_map_concat_map.
  apply sorted_flat_map.
  - intros k Hk%in_bands. apply (sorted_weaken Z.lt).
    + apply sorted_filter, sorted_zrange.
    + intros x y [Hx _]%in_marked [Hy _]%in_marked Hlt. exists k, k. tauto.
  - apply (sorted_weaken Z.lt); [apply sorted_up|]. intros k k' Hk%in_bands Hk'%in_bands Hlt x y [Hx _]%in_marked [Hy _]%in_marked.
    exists k, k'. tauto.
Qed.

Lemma before_irrefl t : ~ before t t.
Proof.
  intros (k & k' & Hk & Hk' & Ht & Ht' & Hlt).
  assert (k = k') as -> by (by eapply (bands_disjoint mid tk Hcfg)). lia.
Qed.

Lemma in_visit o t : In t (visit o) <-> mem o t = true /\ exists k, 0 <= k <= 9 /\ (band_range mid tk k).1 <= t < (band_range mid tk k).2.
Proof.
  unfold visit, bands. rewrite in_flat_map. split.
  - intros (r & (k & <- & Hk%in_bands)%in_map_iff & [Ht Hm]%in_marked). eauto.
  - intros (Hm & k & Hk & Ht). exists (band_range mid tk k). split; [apply in_map; by apply in_bands|by apply in_marked].
Qed.

(** The sum over the visited slots is the sum over the book. *)
Lemma visit_sum A fl b sd o (f : Entry -> Z) :
  core mid tk A fl b -> occ_ok mid tk sd o A -> (forall t e, In e (A t) -> is_side sd e.2 = false -> f e = 0) ->
  zsum (fun t => zsum f (A t)) (visit o) = book_sum mid tk f A.
Proof.
  intros Hc Ho Hf. unfold book_sum. transitivity (zsum (fun t => zsum f (A t)) (List.filter (mem o) (zrange 0 (total mid tk)))).
  - apply zsum_perm. apply NoDup_Permutation.
    + apply (sorted_nodup before); [apply before_irrefl|apply visit_sorted].
    + apply (sorted_nodup Z.lt); [lia|]. apply sorted_filter, sorted_zrange.
    + intros t. rewrite !list_elem_of_In, in_visit, filter_In, in_zrange. split.
      * intros [Hm _]. split; [|done]. destruct Ho as (Hi & Hn & _). rewrite <- Hn. by apply mem_range.
      * intros [Ht Hm]. split; [done|]. apply Ho, zsum_on_side_pos in Hm as (e & He & Hs).
        destruct (entry_marked mid tk Hcfg Hspread sd o A fl b t e Hc Ho He Hs) as (_ & Hb & Hr). eauto.
  - induction (zrange 0 (total mid tk)) as [|t ts IH]; [done|]. cbn [List.filter]. destruct (mem o t) eqn:Em.
    + change (zsum ?g (t :: ?l)) with (g t + zsum g l). cbn beta. by rewrite IH.
    + rewrite IH. change (zsum ?g (t :: ?l)) with (g t + zsum g l). cbn beta.
      assert (zsum f (A t) = 0) as ->; [|lia]. assert (zsum (on_side sd) (A t) = 0) as Hz.
      { pose proof (zsum_on_side_nonneg sd (A t)). destruct (Z.eq_dec (zsum (on_side sd) (A t)) 0); [done|].
        assert (mem o t = true) as Hx by (apply Ho; lia). congruence. }
      pose proof (proj1 (zsum_on_side_zero sd (A t)) Hz) as Hn.
      rewrite (zsum_ext f (fun _ => 0)); [clear; induction (A t) as [|x q IH]; [done|exact IH]|]. intros e He. apply (Hf t); auto.
Qed.

(** Farther slots cross only if nearer ones do. *)
Lemma nearer_crosses A fl b sd limit t t' :
  book_inv A fl b -> 0 < zsum (on_side (opposite sd)) (A t) ->
  match sd with Buy => before t t' | Sell => before t' t end ->
  cross_count sd limit (A t) = 0 -> cross_count sd limit (A t') = 0.
Proof.
  intros Hi Hocc Hbef H0. pose proof (bk_core _ _ _ _ _ Hi) as Hc. pose proof (c_links _ _ _ _ _ Hc) as Hl.
  apply cross_nothing. intros x' Hx'. destruct (cross sd limit x') eqn:Ex; [|done]. exfalso.
  apply zsum_on_side_pos in Hocc as (x & Hx & Hs).
  pose proof (open_queue_ok mid tk A fl b t (book_open mid tk _ _ _ Hi)) as Hq.
  destruct (cross sd limit x) eqn:Exx; [pose proof (cross_sums_in sd limit _ x (qo_pos _ Hq) Hx Exx); lia|].
  pose proof (not_cross_worse sd limit x (lk_side _ _ _ Hl _ _ Hx) Hs Exx) as Hw.
  apply not_true_iff_false in Exx. rewrite cross_spec in Exx by apply (lk_side _ _ _ Hl _ _ Hx).
  apply cross_spec in Ex as [Hs' Hw']; [|apply (lk_side _ _ _ Hl _ _ Hx')].
  assert (~ no_worse (opposite sd) (os_price x.2) limit) as Hn by tauto.
  destruct (c_px _ _ _ _ _ Hc _ _ Hx) as (Px & _ & Ix). destruct (c_px _ _ _ _ _ Hc _ _ Hx') as (Px' & _ & Ix').
  assert (forall k, 0 <= k <= 9 -> (band_range mid tk k).1 <= t < (band_range mid tk k).2 -> k = band mid (os_price x.2)) as Bk
    by (intros k Hk Hr; apply (slot_band mid tk Hcfg Hspread); [lia|done|by rewrite Ix]).
  assert (forall k, 0 <= k <= 9 -> (band_range mid tk k).1 <= t' < (band_range mid tk k).2 -> k = band mid (os_price x'.2)) as Bk'
    by (intros k Hk Hr; apply (slot_band mid tk Hcfg Hspread); [lia|done|by rewrite Ix']).
  destruct sd; simpl in Hn, Hw'; destruct Hbef as (k & k' & Hk & Hk' & Ht & Ht' & Hlt).
  - rewrite (Bk k Hk Ht), (Bk' k' Hk' Ht') in Hlt.
    destruct (walk_order mid tk Hcfg (os_price x'.2) (os_price x.2) ltac:(lia)) as [?|[? ?]]; lia.
  - rewrite (Bk' k Hk Ht), (Bk k' Hk' Ht') in Hlt.
    destruct (walk_order mid tk Hcfg (os_price x.2) (os_price x'.2) ltac:(lia)) as [?|[? ?]]; lia.
Qed.

Lemma feasible_fold_spec A fl b sd limit needed ts m tot :
  book_inv A fl b -> uncrossed A -> 0 < limit <= I64_MAX ->
  (forall t, In t ts -> 0 < zsum (on_side (opposite sd)) (A t)) ->
  StronglySorted (fun t t' => cross_count sd limit (A t) = 0 -> cross_count sd limit (A t') = 0) ts ->
  0 <= m -> m + zsum (fun t => cross_count sd limit (A t)) ts <= MAX_MAKERS_PER_ORDER -> 0 <= tot < needed ->
  tot + zsum (fun t => cross_qty sd limit (A t)) ts <= I64_MAX ->
  (f ← flow_fold (feasible_slot b (opposite sd) limit needed) ts (m, tot); Ok (match f with Return r => r | Next _ => false end)) =
  Ok (needed <=? tot + zsum (fun t => cross_qty sd limit (A t)) ts).
Proof.
  intros Hi Hu Hlim. revert m tot. induction ts as [|t ts IH]; intros m tot Hocc Hs Hm Hcap Htot Hmax.
  { simpl. f_equal. lia. }
  apply StronglySorted_inv in Hs as [Hs Hf].
  assert (forall q, (forall e, In e q -> 0 < erem e) -> 0 <= cross_count sd limit q /\ 0 <= cross_qty sd limit q) as Hnn
    by (intros q Hq; destruct (cross_sums_nonneg sd limit q Hq); done).
  assert (forall t e, In e (A t) -> 0 < erem e) as Hpos by (intros t0 e He; by destruct (bk_order _ _ _ _ _ Hi _ _ He)).
  change (zsum ?g (t :: ts)) with (g t + zsum g ts) in *. cbn beta in *.
  assert (0 <= zsum (fun t => cross_count sd limit (A t)) ts) as Hn1 by (apply zsum_nonneg; intros x _; by apply Hnn, Hpos).
  assert (0 <= zsum (fun t => cross_qty sd limit (A t)) ts) as Hn2 by (apply zsum_nonneg; intros x _; by apply Hnn, Hpos).
  destruct (Hnn (A t) (Hpos t)) as [Hc1 Hc2].
  cbn [flow_fold]. rewrite (feasible_slot_spec A fl b sd limit needed t m tot) by (try done; try lia; apply Hocc; by left). cbn [mbind Res_bind].
  destruct (cross_count sd limit (A t) =? 0) eqn:E0; bool_to_prop.
  - cbn [mbind Res_bind]. f_equal. symmetry. apply Z.leb_gt.
    assert (forall x, cross_count sd limit (A x) = 0 -> cross_qty sd limit (A x) = 0) as Hz.
    { intros x Hx. apply cross_nothing. intros e He. destruct (cross sd limit e) eqn:Ee; [|done].
      pose proof (cross_sums_in sd limit _ e (Hpos x) He Ee). lia. }
    rewrite (Hz t E0). rewrite (zsum_ext _ (fun _ => 0)).
    + assert (zsum (fun _ : Z => 0) ts = 0) as -> by (clear; induction ts as [|x l IH]; [done|exact IH]). lia.
    + intros x Hx. apply Hz. rewrite Forall_forall in Hf. apply (Hf x); [by apply list_elem_of_In|done].
  - destruct (needed <=? tot + cross_qty sd limit (A t)) eqn:En; cbn [mbind Res_bind]; bool_to_prop.
    + f_equal. symmetry. apply Z.leb_le. lia.
    + rewrite IH; [f_equal; lia|intros; apply Hocc; by right|done|lia|lia|lia|lia].
Qed.

Lemma band_hi k : 0 <= k <= 9 -> (band_range mid tk k).2 <= total mid tk.
Proof.
  intros Hk. pose proof (base_bounds mid tk Hcfg 0 ltac:(lia)) as (? & E0 & ?). pose proof (base_bounds mid tk Hcfg 1 ltac:(lia)) as (? & E1 & ?).
  pose proof (base_bounds mid tk Hcfg 2 ltac:(lia)) as (? & E2 & ?). pose proof (base_bounds mid tk Hcfg 3 ltac:(lia)) as (? & E3 & ?).
  change (0 + 1) with 1 in *. change (1 + 1) with 2 in *. change (2 + 1) with 3 in *. change (3 + 1) with 4 in *.
  pose proof (zs_nonneg mid tk Hcfg 0). pose proof (zs_nonneg mid tk Hcfg 1). pose proof (zs_nonneg mid tk Hcfg 2). pose proof (zs_nonneg mid tk Hcfg 3).
  assert (forall z, 0 <= z -> z / 2 <= z) as Hh by (intros; apply Z.div_le_upper_bound; lia).
  pose proof (Hh (zs mid tk 0) ltac:(lia)). pose proof (Hh (zs mid tk 1) ltac:(lia)). pose proof (Hh (zs mid tk 2) ltac:(lia)). pose proof (Hh (zs mid tk 3) ltac:(lia)).
  assert (k = 0 \/ k = 1 \/ k = 2 \/ k = 3 \/ k = 4 \/ k = 5 \/ k = 6 \/ k = 7 \/ k = 8 \/ k = 9) as Hkk by lia.
  unfold total in *. intuition subst; cbn [band_range snd]; lia.
Qed.

Definition cross_one (sd : Side) (limit : Z) (e : Entry) : Z := if cross sd limit e then 1 else 0.
Definition cross_rem (sd : Side) (limit : Z) (e : Entry) : Z := if cross sd limit e then erem e else 0.

(** The crossing quantity of the book. *)
Definition liquidity (A : ABook) (sd : Side) (limit : Z) : Z := book_sum mid tk (cross_rem sd limit) A.
Definition makers (A : ABook) (sd : Side) (limit : Z) : Z := book_sum mid tk (cross_one sd limit) A.

Lemma not_maker_cross A fl b sd limit t e :
  book_inv A fl b -> In e (A t) -> is_side (opposite sd) e.2 = false -> cross sd limit e = false.
Proof.
  intros Hi He Hs. destruct (cross sd limit e) eqn:E; [|done].
  apply cross_spec in E as [E _]; [congruence|apply (lk_side _ _ _ (c_links _ _ _ _ _ (bk_core _ _ _ _ _ Hi)) _ _ He)].
Qed.

Theorem can_fill_fully_spec A fl b sd limit needed :
  book_inv A fl b -> uncrossed A -> 0 < limit <= I64_MAX -> 0 < needed ->
  makers A sd limit <= MAX_MAKERS_PER_ORDER -> liquidity A sd limit <= I64_MAX ->
  can_fill_fully b sd limit needed = Ok (needed <=? liquidity A sd limit).
Proof.
  intros Hi Hu Hlim Hneed Hcap Hmax. pose proof (bk_core _ _ _ _ _ Hi) as Hc. pose proof (total_bounds mid tk Hcfg) as Htot.
  assert (length (active_levels b) = Z.to_nat (total mid tk)) as Hlen by (pose proof (c_len _ _ _ _ _ Hc) as E; unfold zlen in E; lia).
  assert (forall r, In r (bands mid tk) -> 0 <= r.1 /\ r.2 <= total mid tk) as Hband.
  { intros r (k & <- & Hk%in_bands)%in_map_iff. split; [by apply band_lo_nonneg|by apply band_hi]. }
  assert (forall o ts, occ_ok mid tk (opposite sd) o A -> ts ≡ₚ visit o ->
    StronglySorted (fun t t' => match sd with Buy => before t t' | Sell => before t' t end) ts ->
    (f ← flow_fold (feasible_slot b (opposite sd) limit needed) ts (0, 0); Ok (match f with Return r => r | Next _ => false end)) =
    Ok (needed <=? liquidity A sd limit)) as Hrun.
  { intros o ts Ho Hp Hs.
    assert (zsum (fun t => cross_qty sd limit (A t)) ts = liquidity A sd limit) as Eq.
    { rewrite (zsum_perm _ _ _ Hp). apply (visit_sum A fl b (opposite sd) o (cross_rem sd limit) Hc Ho).
      intros t e He Hns. unfold cross_rem. by rewrite (not_maker_cross A fl b sd limit t e Hi He Hns). }
    assert (zsum (fun t => cross_count sd limit (A t)) ts = makers A sd limit) as En.
    { rewrite (zsum_perm _ _ _ Hp). apply (visit_sum A fl b (opposite sd) o (cross_one sd limit) Hc Ho).
      intros t e He Hns. unfold cross_one. by rewrite (not_maker_cross A fl b sd limit t e Hi He Hns). }
    assert (forall t, In t ts -> 0 < zsum (on_side (opposite sd)) (A t)) as Hocc.
    { intros t Ht. apply Ho. assert (In t (visit o)) as [? _]%in_visit by (by apply (Permutation_in t Hp)). done. }
    assert (StronglySorted (fun t t' => cross_count sd limit (A t) = 0 -> cross_count sd limit (A t') = 0) ts) as Hs'.
    { apply (sorted_weaken _ _ _ Hs). intros t t' Ht Ht' Hb. apply (nearer_crosses A fl b sd limit t t' Hi); [by apply Hocc|done]. }
    rewrite (feasible_fold_spec A fl b sd limit needed ts 0 0) by (done || lia).
    by rewrite Eq. }
  unfold can_fill_fully. rewrite (c_asc _ _ _ _ _ Hc). destruct sd.
  - rewrite (feasible_ranges_fold (feasible_slot b Sell limit needed) _ (fun r => marked (ask_occ b) r.1 r.2)).
    + apply (Hrun (ask_occ b)); [apply Hc|done|apply visit_sorted].
    + intros r a Hr. destruct (Hband r Hr). apply feasible_asks_fold; [apply Hc|done|unfold NONE in *; width_lia|lia|lia].
  - rewrite (feasible_ranges_fold (feasible_slot b Buy limit needed) _ (fun r => reverse (marked (bid_occ b) r.1 r.2))).
    + rewrite flat_map_reverse. apply (Hrun (bid_occ b)); [apply Hc|apply reverse_Permutation|apply (sorted_reverse before), visit_sorted].
    + intros r a Hr. rewrite <- list_elem_of_In, elem_of_reverse, list_elem_of_In in Hr. destruct (Hband r Hr).
      apply feasible_bids_fold; [apply Hc|done|lia|lia].
Qed.

End Check.
