(* ===== verification/Process.v ===== *)
(** * Process: a new order, end to end

    [process_new_order] of [rsx-book/src/matching.rs] with its early exits.
    [process_spec] says it always returns and which of the outcomes it has;
    the theorems of the matching engine are read off it. *)

From S2P Require Import Prelude Types Slab Occupancy Compression Users Order Book Links BookInv Matching MatchInv.
From S2P Require Import FillQueue SlotMatch Engine Feasible.

Inductive Verdict : Type :=
  | Refuse (reason : OrderFailureReason)
  | PostOnlyDone
  | Execute.
#[global] Instance Verdict_eq_dec : EqDecision Verdict.
Proof. solve_decision. Defined.

Section Process.
Variables (mid tk : Z).
Hypothesis Hcfg : cfg_ok mid tk.
Hypothesis Hspread : spread_ok mid tk.

Abbreviation book_inv := (book_inv mid tk).
Abbreviation executed := (executed mid tk).
Abbreviation liquidity := (liquidity mid tk).
Abbreviation makers := (makers mid tk).

(** ** A match takes what it can *)

Lemma fills_liquidity sd limit A fs A' :
  consumes A fs A' -> (forall t, ~ (0 <= t < total mid tk) -> A t = []) ->
  (forall m, In m fs -> cross sd limit m.1 = true) ->
  liquidity A' sd limit = liquidity A sd limit - filled fs.
Proof.
  intros Hc Hout Hcr. unfold Feasible.liquidity. rewrite (consumes_sum mid tk _ A fs A' Hc Hout). f_equal. apply zsum_ext. intros m Hm.
  pose proof (consumes_pos _ _ _ Hc m Hm). unfold cross_rem at 1. rewrite (Hcr m Hm). unfold leftover.
  destruct (m.2 =? erem m.1) eqn:E; bool_to_prop; simpl; [lia|]. unfold cross_rem.
  change (cross sd limit (m.1.1, os_with_remaining (erem m.1 - m.2) m.1.2)) with (cross sd limit m.1). rewrite (Hcr m Hm).
  unfold erem at 2. simpl. lia.
Qed.

Lemma makers_full sd limit A fs A' :
  consumes A fs A' -> (forall t, ~ (0 <= t < total mid tk) -> A t = []) ->
  (forall m, In m fs -> cross sd limit m.1 = true /\ m.2 = erem m.1) ->
  makers A' sd limit = makers A sd limit - zlen fs.
Proof.
  intros Hc Hout Hcr. unfold Feasible.makers. rewrite (consumes_sum mid tk _ A fs A' Hc Hout). f_equal.
  clear Hc. induction fs as [|m fs IH]; [done|]. rewrite zlen_cons. simpl. rewrite IH by (intros; apply Hcr; by right).
  destruct (Hcr m (or_introl eq_refl)) as [Hm Hf]. unfold cross_one at 1, leftover. rewrite Hm, Hf, Z.eqb_refl. simpl. lia.
Qed.

Lemma book_sum_zero f A : (forall t e, In e (A t) -> f e = 0) -> book_sum mid tk f A = 0.
Proof.
  intros Hf. unfold book_sum. induction (zrange 0 (total mid tk)) as [|t ts IH]; [done|].
  change (zsum ?g (t :: ?l)) with (g t + zsum g l). cbn beta. rewrite IH, Z.add_0_r.
  rewrite (zsum_ext f (fun _ => 0)); [clear; induction (A t) as [|x q IH]; [done|exact IH]|]. intros e He. by apply (Hf t).
Qed.

(** While the maker cap does not bind, a match takes the whole crossing
    liquidity or the whole order. *)
Lemma matched_takes o A fl b fs A1 fl1 b1 :
  book_inv A fl b -> matched mid tk o MAX_MAKERS_PER_ORDER A b fs A1 fl1 b1 ->
  makers A (in_side o) (in_price o) <= MAX_MAKERS_PER_ORDER ->
  filled fs = Z.min (in_remaining o) (liquidity A (in_side o) (in_price o)).
Proof.
  intros Hi M Hcap. pose proof (ra_consumes _ _ _ _ _ _ (ma_moved _ _ _ _ _ _ _ _ _ _ M)) as Hc.
  pose proof (ma_rem _ _ _ _ _ _ _ _ _ _ M) as Hr. pose proof (ma_inv _ _ _ _ _ _ _ _ _ _ M) as Hi1.
  assert (forall t, ~ (0 <= t < total mid tk) -> A t = []) as Hout by (intros t; apply (open_out mid tk A fl b t (book_open mid tk _ _ _ Hi))).
  assert (forall m, In m fs -> cross (in_side o) (in_price o) m.1 = true) as Hcr by (intros m Hm; by destruct (ma_takes _ _ _ _ _ _ _ _ _ _ M m Hm)).
  pose proof (fills_liquidity _ _ _ _ _ Hc Hout Hcr) as Hl.
  assert (0 <= liquidity A1 (in_side o) (in_price o)) as Hnn.
  { apply zsum_nonneg. intros t _. apply zsum_nonneg. intros e He. unfold cross_rem.
    destruct (bk_order _ _ _ _ _ Hi1 _ _ He). case_if; lia. }
  destruct (Z.eq_dec (in_remaining o - filled fs) 0) as [|Hne]; [lia|].
  pose proof (ma_full _ _ _ _ _ _ _ _ _ _ M ltac:(lia)) as Hfull.
  assert (forall t x, In x (A1 t) -> cross (in_side o) (in_price o) x = false) as Hno.
  { destruct (Z_lt_ge_dec (zlen fs) MAX_MAKERS_PER_ORDER) as [Hlt|Hge]; [by apply (ma_stuck _ _ _ _ _ _ _ _ _ _ M); lia|].
    intros t x Hx. destruct (cross (in_side o) (in_price o) x) eqn:Ex; [|done]. exfalso.
    pose proof (makers_full _ _ _ _ _ Hc Hout (fun m Hm => conj (Hcr m Hm) (Hfull m Hm))) as Hm.
    assert (1 <= makers A1 (in_side o) (in_price o)); [|lia].
    pose proof (core_slot_range mid tk Hcfg _ _ _ _ _ (bk_core _ _ _ _ _ Hi1) Hx) as Ht.
    pose proof (book_sum_upd mid tk (cross_one (in_side o) (in_price o)) A1 t [] Ht) as Hs. simpl in Hs.
    assert (0 <= book_sum mid tk (cross_one (in_side o) (in_price o)) (upd A1 t [])) by (apply book_sum_nonneg; intros e; unfold cross_one; case_if; lia).
    destruct (cross_sums_in (in_side o) (in_price o) (A1 t) x) as [_ H1]; [intros e He; by destruct (bk_order _ _ _ _ _ Hi1 _ _ He)|done|done|].
    unfold Feasible.makers. unfold cross_count in H1. fold (cross_one (in_side o) (in_price o)) in H1. lia. }
  assert (liquidity A1 (in_side o) (in_price o) = 0); [|lia].
  apply book_sum_zero. intros t e He. unfold cross_rem. by rewrite (Hno t e He).
Qed.

(** ** The guards *)

Lemma misaligned_spec x step : in_i64 x -> 0 < step <= I64_MAX -> misaligned x step = Ok ((x <=? 0) || negb (x mod step =? 0)).
Proof.
  intros Hx Hs. unfold misaligned. destruct (x <=? 0) eqn:E; bool_to_prop; [done|]. unfold rem_i64.
  replace (step =? 0) with false by lia. replace (step =? -1) with false by lia. rewrite andb_false_r. cbn.
  rewrite Z.rem_mod_nonneg by lia. done.
Qed.

Lemma net_qty_spec r u : reg_inv r -> net_qty r u = Ok (if contains r u then Some (net_of r u) else None).
Proof.
  intros Hi. unfold net_qty, contains, net_of, user_of. destruct (user_map r !! u) as [i|] eqn:E.
  - destruct (ri_map _ Hi _ _ E) as (st & Hst & _). rewrite bool_decide_eq_true_2 by eauto. by rewrite (vindex_some _ _ _ Hst), Hst.
  - by rewrite bool_decide_eq_false_2 by (by intros []).
Qed.

(** A reduce-only order may trade at most the position it reduces. *)
Definition reducible (b : Orderbook) (o : IncomingOrder) : Z :=
  match in_side o with Buy => - net_of (users b) (in_user o) | Sell => net_of (users b) (in_user o) end.

Lemma clamp_spec b o :
  reg_inv (users b) -> (forall v, in_i64 (net_of (users b) v)) -> 0 < in_remaining o <= I64_MAX ->
  clamp_reduce_only b o =
    Ok (if in_reduce_only o then
          if contains (users b) (in_user o) && (0 <? reducible b o)
          then Some (in_with_remaining (Z.min (in_remaining o) (reducible b o)) o) else None
        else Some o).
Proof.
  intros Hi Hn Hr. unfold clamp_reduce_only, reducible. destruct (in_reduce_only o); cbn [negb]; [|done].
  rewrite (net_qty_spec _ _ Hi). cbn [mbind Res_bind]. destruct (contains (users b) (in_user o)); cbn [andb]; [|done].
  pose proof (Hn (in_user o)) as Hnu.
  destruct (in_side o); cbn -[Z.min Z.abs].
  - rewrite Z.geb_leb. destruct (0 <=? net_of (users b) (in_user o)) eqn:E; bool_to_prop.
    + by replace (0 <? - net_of (users b) (in_user o)) with false by lia.
    + replace (0 <? - net_of (users b) (in_user o)) with true by lia. rewrite Z.abs_neq by lia.
      destruct (in_remaining o >? Z.min (- net_of (users b) (in_user o)) I64_MAX) eqn:Eg.
      * do 3 f_equal. width_lia.
      * rewrite Z.min_l by lia. by rewrite in_with_remaining_id.
  - destruct (net_of (users b) (in_user o) <=? 0) eqn:E; bool_to_prop.
    + by replace (0 <? net_of (users b) (in_user o)) with false by lia.
    + replace (0 <? net_of (users b) (in_user o)) with true by lia. rewrite Z.abs_eq by lia.
      destruct (in_remaining o >? Z.min (net_of (users b) (in_user o)) I64_MAX) eqn:Eg.
      * do 3 f_equal. width_lia.
      * rewrite Z.min_l by (width_lia || lia). by rewrite in_with_remaining_id.
Qed.

Lemma book_sum_pos_in f A : 0 < book_sum mid tk f A -> exists t e, In e (A t) /\ 0 < f e.
Proof. intros (t & _ & (e & ? & ?)%zsum_pos_in)%zsum_pos_in. eauto. Qed.

Lemma makers_pos A fl b sd limit : book_inv A fl b ->
  0 < makers A sd limit <-> exists t x, In x (A t) /\ cross sd limit x = true.
Proof.
  intros Hi. assert (forall e, 0 <= cross_one sd limit e) as Hnn by (intros e; unfold cross_one; case_if; lia). split.
  - intros Hp. destruct (book_sum_pos_in _ A Hp) as (t & x & Hx & Hc). exists t, x. split; [done|].
    unfold cross_one in Hc. by destruct (cross sd limit x).
  - intros (t & x & Hx & Hc). pose proof (core_slot_range mid tk Hcfg _ _ _ _ _ (bk_core _ _ _ _ _ Hi) Hx) as Ht.
    pose proof (book_sum_upd mid tk (cross_one sd limit) A t [] Ht) as Hs. simpl in Hs.
    pose proof (book_sum_nonneg mid tk (cross_one sd limit) (upd A t []) Hnn).
    destruct (cross_sums_in sd limit (A t) x) as [_ H1]; [intros e He; by destruct (bk_order _ _ _ _ _ Hi _ _ He)|done|done|].
    unfold Feasible.makers. unfold cross_count in H1. fold (cross_one sd limit) in H1. lia.
Qed.

(** The cached best decides whether an order would take. *)
Lemma would_cross_spec A fl b o :
  book_inv A fl b -> would_cross b o = (0 <? makers A (in_side o) (in_price o)).
Proof.
  intros Hi. apply eq_true_iff_eq. rewrite Z.ltb_lt, (makers_pos A fl b _ _ Hi).
  pose proof (lk_side _ _ _ (c_links _ _ _ _ _ (bk_core _ _ _ _ _ Hi))) as Hsd.
  replace (would_cross b o) with (negb (best_tick (maker_side o) b =? NONE) && negb (better (maker_side o) (in_price o) (best_px (maker_side o) b)))
    by (unfold would_cross, maker_side; destruct (in_side o); simpl; f_equal; lia).
  rewrite andb_true_iff, !negb_true_iff, Z.eqb_neq, not_better.
  destruct (bk_best _ _ _ _ _ Hi (maker_side o)) as [(Hn & _ & Hnone)|(Hne & (e & He & Hs & Hp) & Hbest)]; split.
  - by intros [? _].
  - intros (t & x & Hx & [Hxs _]%cross_spec); [|by apply (Hsd t)]. unfold maker_side in *. by rewrite (Hnone t x Hx) in Hxs.
  - intros [_ Hw]. exists (best_tick (maker_side o) b), e. split; [done|]. apply cross_spec; [by apply (Hsd _ e He)|]. by rewrite Hp.
  - intros (t & x & Hx & [Hxs Hxw]%cross_spec); [|by apply (Hsd t)]. split; [done|].
    eapply no_worse_trans; [by apply (Hbest t x)|done].
Qed.

(** ** The outcome of a new order *)

(** What may be matched of an order: all of it, or the position it reduces. *)
Definition fillable (b : Orderbook) (o : IncomingOrder) : Z :=
  if in_reduce_only o then Z.min (in_remaining o) (reducible b o) else in_remaining o.

Definition taken (b : Orderbook) (o : IncomingOrder) : IncomingOrder := in_with_remaining (fillable b o) o.

(** The contract of the entry point, over the abstract book only: the first
    check that fails decides. *)
Definition verdict (A : ABook) (b : Orderbook) (o : IncomingOrder) : Verdict :=
  if (in_price o <=? 0) || negb (in_price o mod tk =? 0) then Refuse InvalidTick
  else if (in_qty o <=? 0) || negb (in_qty o mod bc_lot_size (config b) =? 0) then Refuse InvalidLot
  else if in_reduce_only o && negb (contains (users b) (in_user o) && (0 <? reducible b o)) then Refuse ReduceOnly
  else if in_post_only o && (0 <? makers A (in_side o) (in_price o)) then PostOnlyDone
  else if bool_decide (in_tif o = FOK) && (liquidity A (in_side o) (in_price o) <? fillable b o) then Refuse FillOrKill
  else Execute.

(** The state between two operations. *)
Record engine_ok (A : ABook) (fl : list Z) (b : Orderbook) : Prop := {
  en_book : book_inv A fl b;
  en_uncrossed : uncrossed A;
  en_tick : bc_tick_size (config b) = tk;
  en_lot : 0 < bc_lot_size (config b) <= I64_MAX;
}.

(** The inputs the engine is sized for: machine-width fields, a free order
    and user slot, and totals that stay in 64 bits. *)
Record admissible (A : ABook) (fl : list Z) (b : Orderbook) (o : IncomingOrder) : Prop := {
  ad_fresh : in_remaining o = in_qty o;
  ad_qty : in_i64 (in_qty o);
  ad_price : in_i64 (in_price o);
  ad_room : has_room (orders b) fl;
  ad_user : room_for (users b) (in_user o);
  ad_sum : zsum erem (A (idx mid tk (in_price o))) + in_qty o <= I64_MAX;
  ad_net : forall v, Z.abs (net_of (users b) v) + Z.max 0 (in_qty o) <= I64_MAX;
  ad_fok : in_tif o = FOK ->
    makers A (in_side o) (in_price o) <= MAX_MAKERS_PER_ORDER /\ liquidity A (in_side o) (in_price o) <= I64_MAX;
}.

Definition refusal (o : IncomingOrder) (r : OrderFailureReason) : Event := OrderFailed (in_user o) r (in_oid_hi o) (in_oid_lo o).

Definition outcome (A : ABook) (b : Orderbook) (o o' : IncomingOrder) (b' : Orderbook) : Prop :=
  match verdict A b o with
  | Refuse r => b' = set_events b [refusal o r]
  | PostOnlyDone => b' = set_events b [done_event o PostOnly 0 (fillable b o)]
  | Execute => exists fs A1 A' fl' limited h bbo,
      o' = in_with_remaining (fillable b o - filled fs) o /\
      executed (taken b o) A (set_events b []) fs A1 A' fl' b' limited h bbo
  end.

Lemma emit_first b ev : emit (set_events b []) ev = Ok (set_events b [ev]).
Proof. by rewrite emit_ok. Qed.

Lemma fillable_bounds A fl b o :
  admissible A fl b o -> 0 < in_qty o -> in_reduce_only o && negb (contains (users b) (in_user o) && (0 <? reducible b o)) = false ->
  0 < fillable b o <= in_qty o.
Proof. intros Had Hq Hr. unfold fillable. rewrite (ad_fresh _ _ _ _ Had). destruct (in_reduce_only o); cbn in Hr; [|lia]. lia. Qed.

(** The part after the guards. *)
Lemma run_spec A fl b o :
  engine_ok A fl b -> admissible A fl b o -> 0 < in_price o -> in_price o mod tk = 0 -> 0 < fillable b o <= in_qty o ->
  exists o' b',
    (feasible ← (match in_tif o with
                 | FOK => can_fill_fully (set_events b []) (in_side o) (in_price o) (fillable b o)
                 | _ => Ok true
                 end);
     if negb feasible then reject (set_events b []) (taken b o) FillOrKill else execute (set_events b []) (taken b o)) = Ok (o', b') /\
    match (if bool_decide (in_tif o = FOK) && (liquidity A (in_side o) (in_price o) <? fillable b o) then Refuse FillOrKill else Execute) with
    | Refuse r => b' = set_events b [refusal o r]
    | PostOnlyDone => b' = set_events b [done_event o PostOnly 0 (fillable b o)]
    | Execute => exists fs A1 A' fl' limited h bbo,
        o' = in_with_remaining (fillable b o - filled fs) o /\
        executed (taken b o) A (set_events b []) fs A1 A' fl' b' limited h bbo
    end.
Proof.
  intros He Had Hp Hal Hf. pose proof (book_inv_events mid tk _ _ _ [] (en_book _ _ _ He)) as Hi. pose proof (ad_price _ _ _ _ Had) as Hpw.
  pose proof (ad_qty _ _ _ _ Had) as Hqw. pose proof (ad_sum _ _ _ _ Had) as Hsum.
  assert ((match in_tif o with FOK => can_fill_fully (set_events b []) (in_side o) (in_price o) (fillable b o) | _ => Ok true end) =
    Ok (negb (bool_decide (in_tif o = FOK) && (liquidity A (in_side o) (in_price o) <? fillable b o)))) as ->.
  { destruct (in_tif o) eqn:Et; [done|done|]. destruct (ad_fok _ _ _ _ Had Et) as [Hm Hl].
    rewrite (can_fill_fully_spec mid tk Hcfg Hspread A fl _ _ _ _ Hi (en_uncrossed _ _ _ He)) by (done || lia || width_lia).
    by rewrite Z.leb_antisym. }
  cbn [mbind Res_bind]. rewrite negb_involutive.
  destruct (bool_decide (in_tif o = FOK) && (liquidity A (in_side o) (in_price o) <? fillable b o)).
  { unfold reject. rewrite emit_first. by eexists _, _. }
  destruct (execute_spec mid tk Hcfg Hspread A fl (set_events b []) (taken b o) Hi eq_refl) as (fs & A1 & A' & fl' & b' & limited & h & bbo & E & X);
    cbn [taken in_with_remaining in_price in_remaining in_user]; try done; try apply Had; try apply He; try width_lia.
  exists (in_with_remaining (fillable b o - filled fs) o), b'. split; [rewrite E; unfold taken; by rewrite in_with_remaining_twice|].
  by exists fs, A1, A', fl', limited, h, bbo.
Qed.

Lemma process_spec A fl b o :
  engine_ok A fl b -> admissible A fl b o ->
  exists o' b', process_new_order b o = Ok (o', b') /\ outcome A b o o' b'.
Proof.
  intros He Had. pose proof (en_book _ _ _ He) as Hi. pose proof (en_tick _ _ _ He) as Htk. pose proof (en_lot _ _ _ He) as Hlot.
  assert (0 < tk <= I64_MAX) as Htk2 by (pose proof (co_tick _ _ Hcfg); change (I64_MAX / 1000) with 9223372036854775 in *; width_lia). unfold process_new_order, outcome, verdict. cbn zeta. cbn [config set_events]. rewrite Htk.
  rewrite (misaligned_spec (in_price o) tk) by (apply Had || lia). cbn [mbind Res_bind].
  destruct ((in_price o <=? 0) || negb (in_price o mod tk =? 0)) eqn:Etick; cbn [mbind Res_bind].
  { unfold reject. rewrite emit_first. by eexists _, _. }
  rewrite (misaligned_spec (in_qty o)) by (apply Had || lia). cbn [mbind Res_bind].
  destruct ((in_qty o <=? 0) || negb (in_qty o mod bc_lot_size (config b) =? 0)) eqn:Elot.
  { unfold reject. rewrite emit_first. by eexists _, _. }
  apply orb_false_iff in Etick as [Hp0 Hal], Elot as [Hq0 _]. pose proof (ad_fresh _ _ _ _ Had) as Hf. pose proof (ad_qty _ _ _ _ Had) as Hqw.
  rewrite clamp_spec; [|apply Hi|intros v; pose proof (ad_net _ _ _ _ Had v); cbn; width_lia|width_lia].
  cbn [users set_events]. change (reducible (set_events b []) o) with (reducible b o). cbn [mbind Res_bind].
  assert (admissible A fl b o) as Had' by done.
  destruct (in_reduce_only o && negb (contains (users b) (in_user o) && (0 <? reducible b o))) eqn:Ero.
  { apply andb_true_iff in Ero as [-> Hn%negb_true_iff]. rewrite Hn. cbn [mbind Res_bind]. unfold reject. rewrite emit_first. by eexists _, _. }
  pose proof (fillable_bounds A fl b o Had ltac:(lia) Ero) as Hfb.
  match goal with |- context [match ?c with Some _ => _ | None => _ end] => assert (c = Some (taken b o)) as -> end.
  { unfold taken, fillable. destruct (in_reduce_only o); [|by rewrite in_with_remaining_id]. cbn in Ero. apply negb_false_iff in Ero. by rewrite Ero. }
  cbn [in_post_only in_tif in_side in_price in_remaining in_with_remaining taken].
  assert (book_inv A fl (set_events b [])) as Hi0 by (by apply book_inv_events).
  rewrite (would_cross_spec A fl _ _ Hi0). change (in_side (taken b o)) with (in_side o). change (in_price (taken b o)) with (in_price o).
  destruct (in_post_only o && (0 <? makers A (in_side o) (in_price o))) eqn:Epo.
  { rewrite emit_first. by eexists _, _. }
  apply (run_spec A fl); try done; lia.
Qed.

End Process.
