(* ===== verification/Migration.v ===== *)
(** * Migration: recentring the book [rsx-book/src/migration.rs]

    When the mid drifts, the book gets a new compression map and every resting
    order moves to its slot under it.  The old levels stay in [old_levels]
    until they are emptied one slot at a time, in batches, on demand or, as
    the matching tile does, all at once ([recenter_now]). *)

From S2P Require Import Prelude Types Slab Occupancy Compression Users Order Book Links BookInv Matching MatchInv.
From S2P Require Import FillQueue SlotMatch Engine Feasible Process.

(** ** Field updates *)

Definition set_old_levels (b : Orderbook) (old : option (list PriceLevel)) : Orderbook :=
  mkBook (active_levels b) (staging_levels b) (orders b) (best_bid_tick b) (best_ask_tick b) (best_bid_px b) (best_ask_px b)
    (compression b) (bid_occ b) (ask_occ b) (price_asc b) (state b) (config b) (sequence b) (event_buf b)
    (users b) old (old_compression b) (bid_frontier b) (ask_frontier b) (old_min_price b) (old_max_price b).
Definition set_frontiers (b : Orderbook) (bid ask : Z) : Orderbook :=
  mkBook (active_levels b) (staging_levels b) (orders b) (best_bid_tick b) (best_ask_tick b) (best_bid_px b) (best_ask_px b)
    (compression b) (bid_occ b) (ask_occ b) (price_asc b) (state b) (config b) (sequence b) (event_buf b)
    (users b) (old_levels b) (old_compression b) bid ask (old_min_price b) (old_max_price b).

(** ** Moving orders *)

Definition should_recenter (b : Orderbook) (current_mid : Z) : bool :=
  let zone0_half := arr (thresholds (compression b)) 0 in
  let drift := wrap_i64 (Z.abs (wrap_i64 (current_mid - mid_price (compression b)))) in
  drift >? Z.quot zone0_half 2.

(** Link [cursor] at the tail of its new level. *)
Definition relink_tail (os : Slab OrderSlot) (level : PriceLevel) (cursor : Z) : Res (Slab OrderSlot * PriceLevel) :=
  if lv_order_count level =? 0 then
    os ← update os cursor (os_with_prev NONE);
    os ← update os cursor (os_with_next NONE);
    Ok (os, lv_with_tail cursor (lv_with_head cursor level))
  else
    let old_tail := lv_tail level in
    os ← update os old_tail (os_with_next cursor);
    os ← update os cursor (os_with_prev old_tail);
    os ← update os cursor (os_with_next NONE);
    Ok (os, lv_with_tail cursor level).

(** [if side == Buy as u8 { .. } else { .. }]. *)
Definition side_of (side : Z) : Side := if side =? side_u8 Buy then Buy else Sell.

(** One turn of the loop of [migrate_single_level]: the order at [cursor]
    goes to its new slot; the old successor is returned. *)
Definition migrate_order (b : Orderbook) (cursor : Z) : Res (Z * Orderbook) :=
  slot ← get (orders b) cursor;
  let next := os_next slot in
  let price := os_price slot in
  let qty := os_remaining slot in
  let side := os_side slot in
  new_idx ← price_to_index (compression b) price;
  level ← vindex (active_levels b) new_idx;
  '(os, level) ← relink_tail (orders b) level cursor;
  let level := lv_with_total (wrap_i64 (lv_total_qty level + qty)) level in
  let level := lv_with_count (wrap_u32 (lv_order_count level + 1)) level in
  let '(level, side_was_empty) := add_side (side_of side) level in
  os ← update os cursor (os_with_tick new_idx);
  lv ← vset (active_levels b) new_idx level;
  let b := set_levels_orders b lv os in
  b ← (if side_was_empty then set_side_occ b (side_of side) new_idx else Ok b);
  let b := (if side =? side_u8 Buy then improve_best b Buy new_idx price
            else if side =? side_u8 Sell then improve_best b Sell new_idx price
            else b) in
  Ok (next, b).

(** A level holds each slot at most once, so the slab length bounds it. *)
Fixpoint migrate_loop (fuel : nat) (b : Orderbook) (cursor : Z) : Res Orderbook :=
  match fuel with
  | O => Diverged
  | S fuel' =>
      if cursor =? NONE then Ok b
      else '(next, b) ← migrate_order b cursor; migrate_loop fuel' b next
  end.

Definition migrate_single_level (b : Orderbook) (old_idx : Z) : Res Orderbook :=
  match old_levels b with
  | None => Ok b
  | Some levels =>
      if old_idx >=? zlen levels then Ok b
      else
        old_level ← vindex levels old_idx;
        if lv_order_count old_level =? 0 then Ok b
        else
          b ← migrate_loop (S (length (slots (orders b)))) b (lv_head old_level);
          match old_levels b with
          | None => Ok b
          | Some levels => levels ← vset levels old_idx PriceLevel_default; Ok (set_old_levels b (Some levels))
          end
  end.

Definition migrate_price (b : Orderbook) (price : Z) : Res Orderbook :=
  match old_compression b with
  | None => Ok b
  | Some old_comp => old_idx ← price_to_index old_comp price; migrate_single_level b old_idx
  end.

Definition trigger_recenter (b : Orderbook) (new_mid : Z) : Res Orderbook :=
  new_compression ← CompressionMap_new new_mid (bc_tick_size (config b));
  let new_total := Z.to_nat (total_slots new_compression) in
  let new_levels := replicate new_total PriceLevel_default in
  let n := wrap_u32 (zlen new_levels) in
  bo ← Occupancy_new n;
  ao ← Occupancy_new n;
  let b := mkBook new_levels (replicate new_total PriceLevel_default) (orders b) NONE NONE 0 0
    new_compression bo ao (build_price_asc new_compression) Migrating (config b) (sequence b) (event_buf b) (users b)
    (Some (active_levels b)) (Some (compression b)) new_mid new_mid (min_price (compression b)) (max_price (compression b)) in
  migrate_price b new_mid.

(** ** Incremental migration *)

Definition is_within_frontier (b : Orderbook) (price : Z) : bool := (price >=? bid_frontier b) && (price <=? ask_frontier b).

(** The frontier moves by a positive tick, so the distance bounds the
    rounds. *)
Fixpoint advance_bids (fuel : nat) (b : Orderbook) (price : Z) : Res Orderbook :=
  match fuel with
  | O => Diverged
  | S fuel' =>
      if bid_frontier b >? price then
        let b := set_frontiers b (sat_i64 (bid_frontier b - bc_tick_size (config b))) (ask_frontier b) in
        b ← migrate_price b (bid_frontier b); advance_bids fuel' b price
      else Ok b
  end.
Fixpoint advance_asks (fuel : nat) (b : Orderbook) (price : Z) : Res Orderbook :=
  match fuel with
  | O => Diverged
  | S fuel' =>
      if ask_frontier b <? price then
        let b := set_frontiers b (bid_frontier b) (wrap_i64 (ask_frontier b + bc_tick_size (config b))) in
        b ← migrate_price b (ask_frontier b); advance_asks fuel' b price
      else Ok b
  end.

Definition advance_frontier_to (b : Orderbook) (price : Z) : Res Orderbook :=
  if price <? bid_frontier b then advance_bids (S (Z.to_nat (bid_frontier b - price))) b price
  else if price >? ask_frontier b then advance_asks (S (Z.to_nat (price - ask_frontier b))) b price
  else Ok b.

Definition resolve_level (b : Orderbook) (price : Z) : Res Orderbook :=
  if bool_decide (state b = Migrating) && negb (is_within_frontier b price) then advance_frontier_to b price else Ok b.

Definition complete_migration (b : Orderbook) : Orderbook :=
  let staging := match old_levels b with Some l => l | None => [] end in
  mkBook (active_levels b) (map (fun _ => PriceLevel_default) staging) (orders b) (best_bid_tick b) (best_ask_tick b)
    (best_bid_px b) (best_ask_px b) (compression b) (bid_occ b) (ask_occ b) (price_asc b) Normal (config b) (sequence b)
    (event_buf b) (users b) None None (bid_frontier b) (ask_frontier b) (old_min_price b) (old_max_price b).

(** [migrated] grows every round, so [batch_size] bounds them. *)
Fixpoint migrate_batch_loop (fuel : nat) (b : Orderbook) (batch_size migrated : Z) : Res Orderbook :=
  match fuel with
  | O => Diverged
  | S fuel' =>
      if migrated <? batch_size then
        let tick := bc_tick_size (config b) in
        '(b, migrated) ← (if bid_frontier b >? 0 then
            let b := set_frontiers b (sat_i64 (bid_frontier b - tick)) (ask_frontier b) in
            b ← migrate_price b (bid_frontier b); Ok (b, wrap_u32 (migrated + 1))
          else Ok (b, migrated));
        let b := set_frontiers b (bid_frontier b) (wrap_i64 (ask_frontier b + tick)) in
        b ← migrate_price b (ask_frontier b);
        let migrated := wrap_u32 (migrated + 1) in
        if (bid_frontier b <=? old_min_price b) && (ask_frontier b >=? old_max_price b) then Ok (complete_migration b)
        else migrate_batch_loop fuel' b batch_size migrated
      else Ok b
  end.
Definition migrate_batch (b : Orderbook) (batch_size : Z) : Res Orderbook :=
  if negb (bool_decide (state b = Migrating)) then Ok b
  else migrate_batch_loop (S (Z.to_nat batch_size)) b batch_size 0.

(** ** Eager migration *)

Definition complete_migration_eager (b : Orderbook) : Res Orderbook :=
  if negb (bool_decide (state b = Migrating)) then Ok b
  else
    let old_len := match old_levels b with Some l => zlen l | None => 0 end in
    b ← rfold migrate_single_level b (zrange 0 (wrap_u32 old_len));
    Ok (complete_migration b).

Definition recenter_now (b : Orderbook) (new_mid : Z) : Res Orderbook :=
  b ← trigger_recenter b new_mid; complete_migration_eager b.
