(* ===== verification/Recenter.v ===== *)
(** * Recenter: moving every order to a new map

    [recenter_now] of [rsx-book/src/migration.rs] rebuilds the levels under a
    new compression map while both share the order slab.  It is shown to
    return, to lose and duplicate no order, to keep the arrival order of
    every price, and to re-establish the book's invariant and best prices
    around the new mid. *)

From S2P Require Import Prelude Types Slab Occupancy Compression Users Order Book Links BookInv Matching MatchInv.
From S2P Require Import FillQueue SlotMatch Engine Feasible Process Migration.

(** An order under its new slot. *)
Definition retick (t : Z) (e : Entry) : Entry := (e.1, os_with_tick t e.2).

Lemma relink_tick n p t s : os_with_tick t (relink n p s) = relink n p (os_with_tick t s).
Proof. by destruct s. Qed.

Lemma retick_handles q e t : handles (q ++ [retick t e]) = handles (q ++ [e]).
Proof. unfold handles. by rewrite !map_app. Qed.

Lemma relink_tail_spec os q (e : Entry) t n p :
  seg (slots os) NONE q NONE -> NoDup (handles q) -> ~ In e.1 (handles q) ->
  vget (slots os) e.1 = Some (relink n p e.2) ->
  exists os1 os2,
    relink_tail os (level_of q) e.1 =
      Ok (os1, lv_with_tail e.1 (lv_with_head (qhead (q ++ [retick t e]) NONE) (level_of q))) /\
    update os1 e.1 (os_with_tick t) = Ok os2 /\
    seg (slots os2) NONE (q ++ [retick t e]) NONE /\ frame os os2 (fun x => In x (handles (q ++ [retick t e]))).
Proof.
  intros Hseg Hnd Hnin He. rewrite retick_handles. unfold relink_tail, handles. rewrite map_app.
  destruct (lv_order_count (level_of q) =? 0) eqn:E0.
  - apply level_of_empty in E0 as ->.
    destruct (update_frame os e.1 (os_with_prev NONE) _ He) as (os1 & E1 & G1 & F1). rewrite E1. cbn [mbind Res_bind].
    destruct (update_frame os1 e.1 (os_with_next NONE) _ G1) as (os2 & E2 & G2 & F2). rewrite E2. cbn [mbind Res_bind].
    destruct (update_frame os2 e.1 (os_with_tick t) _ G2) as (os3 & E3 & G3 & F3).
    rewrite relink_prev, relink_next, relink_tick in G3. exists os2, os3. split; [done|]. split; [done|]. split; [by split|].
    eapply frame_weaken; [eapply frame_trans; [exact F1|eapply frame_trans; [exact F2|exact F3]]|]. cbn. intros x ->. by left.
  - assert (q <> []) as Hne by (intros ->; by destruct (Z.eqb_neq 0 0)).
    pose proof (qlast_in NONE q Hne) as Hlin. set (l := qlast NONE q) in *. cbn [lv_tail level_of]. fold l.
    assert (exists s0, vget (slots os) l = Some s0) as [s0 Hs0].
    { apply in_map_iff in Hlin as (le & <- & Hle). destruct (seg_get _ _ _ _ _ Hseg Hle) as (n' & p' & ->). eauto. }
    assert (l <> e.1) as Hle by congruence.
    destruct (update_frame os l (os_with_next e.1) s0 Hs0) as (os1 & E1 & G1 & F1). rewrite E1. cbn [mbind Res_bind].
    destruct (update_frame os1 e.1 (os_with_prev l) (relink n p e.2)) as (os2 & E2 & G2 & F2).
    { rewrite (fr_same _ _ _ F1); [done|congruence]. }
    rewrite E2. cbn [mbind Res_bind].
    destruct (update_frame os2 e.1 (os_with_next NONE) _ G2) as (os3 & E3 & G3 & F3). rewrite E3. cbn [mbind Res_bind].
    destruct (update_frame os3 e.1 (os_with_tick t) _ G3) as (os4 & E4 & G4 & F4).
    rewrite relink_prev, relink_next, relink_tick in G4. exists os3, os4. split; [by destruct q|]. split; [done|].
    assert (frame os2 os4 (fun x => x = e.1)) as F24 by (eapply frame_trans; eassumption). split.
    + apply (seg_snoc (slots os) _ _ _ s0); try done.
      * rewrite (fr_same _ _ _ F24), (fr_same _ _ _ F2) by done. exact G1.
      * intros x H1 H2. rewrite (fr_same _ _ _ F24), (fr_same _ _ _ F2), (fr_same _ _ _ F1) by done. done.
    + eapply frame_trans; [eapply frame_weaken; [exact F1|]|eapply frame_trans; [eapply frame_weaken; [exact F2|]|eapply frame_weaken; [exact F24|]]];
        cbn; intros x ->; apply in_app_iff; [by left|right; by left|right; by left].
Qed.

(** What a migration step leaves alone. *)
Definition mig_keeps (b b' : Orderbook) : Prop :=
  staging_levels b' = staging_levels b /\ compression b' = compression b /\ price_asc b' = price_asc b /\ state b' = state b /\
  config b' = config b /\ sequence b' = sequence b /\ event_buf b' = event_buf b /\ users b' = users b /\
  old_levels b' = old_levels b /\ old_compression b' = old_compression b.

Lemma mig_keeps_refl b : mig_keeps b b.
Proof. by repeat split. Qed.
Lemma mig_keeps_trans b1 b2 b3 : mig_keeps b1 b2 -> mig_keeps b2 b3 -> mig_keeps b1 b3.
Proof. unfold mig_keeps. intuition congruence. Qed.

Section Recenter.
Variables (mid tk : Z).
Hypothesis Hcfg : cfg_ok mid tk.

Abbreviation core := (core mid tk).

Definition bests_ok (A : ABook) (b : Orderbook) : Prop := forall sd, best_ok sd A (best_tick sd b) (best_px sd b).

(** An order that can be stored under the new map. *)
Definition storable (s : OrderSlot) : Prop :=
  0 < os_price s <= I64_MAX /\ os_price s mod tk = 0 /\ 0 <= os_remaining s /\
  (os_side s = side_u8 Buy \/ os_side s = side_u8 Sell).

Lemma side_of_spec s : os_side s = side_u8 Buy \/ os_side s = side_u8 Sell -> os_side s = side_u8 (side_of (os_side s)).
Proof. unfold side_of. by intros [-> | ->]. Qed.

Lemma slot_count A fl b t (e : Entry) os :
  core A fl b -> ~ In e.1 (handles (A t)) -> seg (slots os) NONE (A t ++ [e]) NONE -> zlen (slots os) = zlen (slots (orders b)) ->
  zlen (A t) < NONE.
Proof.
  intros Hc Hn Hseg Hlen. pose proof (seg_length _ _ _ _ Hseg) as Hsl. rewrite length_app in Hsl. simpl in Hsl.
  pose proof (si_cap _ _ (c_slab _ _ _ _ _ Hc)). unfold zlen in *.
  assert (length (A t) + 1 <= length (slots os))%nat; [|lia]. apply Hsl. apply nodup_snoc; [apply Hc|done].
Qed.

(** One order moves to the tail of its new slot. *)
Lemma migrate_order_spec A fl b (e : Entry) n p :
  core A fl b -> bests_ok A b -> (forall t', ~ In e.1 (handles (A t'))) -> live (orders b) fl e.1 ->
  vget (slots (orders b)) e.1 = Some (relink n p e.2) -> storable e.2 ->
  let t := idx mid tk (os_price e.2) in
  zsum erem (A t) + erem e <= I64_MAX ->
  exists b', migrate_order b e.1 = Ok (n, b') /\ core (upd A t (A t ++ [retick t e])) fl b' /\
    bests_ok (upd A t (A t ++ [retick t e])) b' /\ mig_keeps b b' /\
    frame (orders b) (orders b') (fun x => In x (handles (A t ++ [retick t e]))).
Proof.
  intros Hc Hbest Hnin Hlive Hg (Hp & Hal & Hq & Hside) t Hsum. pose proof (c_links _ _ _ _ _ Hc) as Hl.
  pose proof (price_slot mid tk Hcfg _ Hp) as Ht. fold t in Ht. set (e' := retick t e). set (sd := side_of (os_side e.2)).
  pose proof (side_of_spec e.2 Hside) as Hsd. fold sd in Hsd.
  destruct (relink_tail_spec (orders b) (A t) e t n p (lk_seg _ _ _ Hl t) (lk_nodup _ _ _ Hl t) (Hnin t) Hg)
    as (os1 & os2 & E1 & E2 & Hseg & Hfr). fold e' in E1, Hseg, Hfr.
  pose proof (slot_count A fl b t e' os2 Hc (Hnin t) Hseg (fr_len _ _ _ Hfr)) as Hcnt.
  pose proof (level_more_spec (A t) e' sd Hsd Hcnt (lk_qty _ _ _ Hl t) Hq Hsum) as Hmore.
  change (os_remaining e'.2) with (os_remaining e.2) in Hmore. change (e'.1) with e.1 in Hmore.
  destruct (set_side_spec mid tk b A fl t (A t) sd e' (vput (active_levels b) t (level_of (A t ++ [e']))) os2 (sequence b) Hc eq_refl Ht Hsd)
    as (b1 & Eb & Hb1 & Hbo & Hao). replace (set_sequence b (sequence b)) with b in Eb, Hb1 by (by destruct b).
  assert (core (upd A t (A t ++ [e'])) fl b1) as Hc1.
  { rewrite Hb1 in *. cbn in Hbo, Hao. split; cbn; try done; try apply Hc.
    - rewrite zlen_vput. apply Hc.
    - eapply frame_slab; [exact Hfr| |apply Hc]. intros x Hx. unfold e'. rewrite retick_handles. unfold handles. rewrite map_app.
      intros [(y & <- & Hy)%in_map_iff|[<-|[]]]%in_app_iff; [by destruct (c_live _ _ _ _ _ Hc t y Hy)|by destruct Hlive].
    - destruct e as [h s]. apply (links_push mid tk A fl b os2 h (os_with_tick t s) t Hc Ht); try done. apply Hfr.
    - intros t' x [Hx|[-> ->]]%in_upd_snoc; unfold live; rewrite (fr_bump _ _ _ Hfr); [by apply (c_live _ _ _ _ _ Hc t')|done].
    - intros t' x [Hx|[-> ->]]%in_upd_snoc; [by apply Hc|]. by split. }
  exists (improve_best b1 sd t (os_price e.2)). pose proof (improve_best_fields b1 sd t (os_price e.2)) as (F1 & F2 & F3 & F4 & F5 & F6). cbn zeta in *.
  split; [|split; [|split; [|split]]].
  - unfold migrate_order, get. rewrite (vindex_some _ _ _ Hg). cbn [mbind Res_bind].
    change (os_price (relink n p e.2)) with (os_price e.2). change (os_remaining (relink n p e.2)) with (os_remaining e.2).
    change (os_side (relink n p e.2)) with (os_side e.2). change (os_next (relink n p e.2)) with n. fold sd.
    rewrite (c_map _ _ _ _ _ Hc), price_to_index_eq by (done || lia). cbn [mbind Res_bind]. fold t.
    rewrite (vindex_some _ _ _ (core_level mid tk _ _ _ t Hc Ht)). cbn [mbind Res_bind]. rewrite E1. cbn [mbind Res_bind].
    match goal with |- context [add_side ?a ?c] => change (add_side a c) with (level_more sd (os_remaining e.2)
      (lv_with_tail e.1 (lv_with_head (qhead (A t ++ [e']) NONE) (level_of (A t))))) end.
    setoid_rewrite Hmore. rewrite E2. cbn [mbind Res_bind]. rewrite vset_ok by (rewrite (c_len _ _ _ _ _ Hc); lia).
    cbn [mbind Res_bind]. rewrite Eb. cbn [mbind Res_bind]. unfold sd, side_of. by destruct Hside as [-> | ->].
  - apply (core_ext mid tk _ _ b1); try done; apply F6.
  - pose proof (total_bounds mid tk Hcfg). intros sd'. apply (improve_best_spec b b1 A sd t e'); try done.
    + unfold is_side. change (os_side e'.2) with (os_side e.2). rewrite Hsd. apply Z.eqb_refl.
    + intros sd2 Hne. unfold is_side. change (os_side e'.2) with (os_side e.2). rewrite Hsd. by apply side_neq.
    + lia.
    + intros []; by rewrite Hb1.
    + intros []; by rewrite Hb1.
  - destruct F6 as (K1 & K2 & K3 & K4 & K5 & K6 & K7 & K8). rewrite Hb1 in *. unfold mig_keeps. cbn in *.
    assert (sequence (improve_best b1 sd t (os_price e.2)) = sequence b1) as Es by (rewrite improve_best_eq; case_if; by destruct sd).
    rewrite Hb1 in Es. cbn in Es. by repeat split.
  - rewrite F1, Hb1. exact Hfr.
Qed.

(** The abstract effect: every order of a queue joins its new slot. *)
Fixpoint rehome (q : list Entry) (A : ABook) : ABook :=
  match q with
  | [] => A
  | e :: q => let t := idx mid tk (os_price e.2) in rehome q (upd A t (A t ++ [retick t e]))
  end.

Lemma in_rehome q A t x :
  In x (rehome q A t) <-> In x (A t) \/ exists e, In e q /\ idx mid tk (os_price e.2) = t /\ x = retick t e.
Proof.
  revert A. induction q as [|e q IH]; intros A; cbn [rehome].
  - split; [by left|]. by intros [|(? & [] & _)].
  - rewrite IH, in_upd_snoc. split.
    + intros [[Hx|[-> ->]]|(y & Hy & Ey & ->)]; [by left|right; exists e; by repeat split; [left|..]|right; exists y; by repeat split; [right|..]].
    + intros [Hx|(y & [<-|Hy] & Ey & ->)]; [by left; left|left; right; by subst|right; by exists y].
Qed.

Lemma rehome_sum f q A :
  (forall t e, f (retick t e) = f e) -> (forall e, In e q -> 0 < os_price e.2 <= I64_MAX) ->
  book_sum mid tk f (rehome q A) = book_sum mid tk f A + zsum f q.
Proof.
  intros Hf. revert A. induction q as [|e q IH]; intros A Hq; cbn [rehome]; [unfold zsum at 1; simpl; lia|].
  rewrite IH by (intros; apply Hq; by right). rewrite book_sum_upd by (apply price_slot; [done|apply Hq; by left]).
  rewrite zsum_app. simpl. rewrite Hf. lia.
Qed.

(** A queue of the old book, emptied into the new one. *)
Lemma migrate_loop_spec q A fl b pv fuel :
  core A fl b -> bests_ok A b -> seg (slots (orders b)) pv q NONE -> NoDup (handles q) ->
  (forall x t, In x (handles q) -> ~ In x (handles (A t))) -> (forall e, In e q -> live (orders b) fl e.1 /\ storable e.2) ->
  book_sum mid tk erem A + zsum erem q <= I64_MAX -> (length q < fuel)%nat ->
  exists b', migrate_loop fuel b (qhead q NONE) = Ok b' /\ core (rehome q A) fl b' /\ bests_ok (rehome q A) b' /\ mig_keeps b b' /\
    frame (orders b) (orders b') (fun x => In x (handles q) \/ exists t, In x (handles (A t))).
Proof.
  revert A b pv fuel. induction q as [|e q IH]; intros A b pv fuel Hc Hbest Hseg Hnd Hsep Hok Hsum Hfuel;
    (destruct fuel as [|fuel]; [simpl in Hfuel; lia|]); cbn [migrate_loop qhead rehome].
  { exists b. split; [done|]. split; [done|]. split; [done|]. split; [apply mig_keeps_refl|apply frame_refl]. }
  destruct Hseg as [Hg Hseg]. destruct (Hok e (or_introl eq_refl)) as [Hlive Hst].
  simpl in Hnd. apply NoDup_cons in Hnd as [Hne Hnd]. rewrite list_elem_of_In in Hne.
  assert (0 <= zsum erem q) as Hq0 by (apply zsum_nonneg; intros y Hy; destruct (Hok y (or_intror Hy)) as [_ (_ & _ & Hr & _)]; exact Hr).
  pose proof (slot_sum_le mid tk A fl b (idx mid tk (os_price e.2)) Hc) as Hle. simpl in Hsum.
  destruct (migrate_order_spec A fl b e (qhead q NONE) pv Hc Hbest (fun t' => Hsep e.1 t' (or_introl eq_refl)) Hlive Hg Hst ltac:(lia))
    as (b1 & E1 & Hc1 & Hb1 & K1 & F1).
  replace (e.1 =? NONE) with false.
  2: { symmetry. apply Z.eqb_neq. destruct Hlive as [Hr _]. pose proof (si_bump _ _ (c_slab _ _ _ _ _ Hc)).
       pose proof (si_cap _ _ (c_slab _ _ _ _ _ Hc)). lia. }
  rewrite E1. cbn [mbind Res_bind]. set (t := idx mid tk (os_price e.2)) in *. set (A1 := upd A t (A t ++ [retick t e])) in *.
  assert (forall x, In x (handles (A t ++ [retick t e])) <-> In x (handles (A t)) \/ x = e.1) as Hh.
  { intros x. unfold handles. rewrite map_app, in_app_iff. simpl. intuition. }
  destruct (IH A1 b1 e.1 fuel Hc1 Hb1) as (b2 & E2 & Hc2 & Hb2 & K2 & F2).
  - apply (seg_ext (slots (orders b))); [|done]. intros x Hx. apply (fr_same _ _ _ F1). rewrite Hh.
    intros [Hy| ->]; [|done]. by apply (Hsep x t); [right|].
  - done.
  - intros x t' Hx Hx'. apply in_map_iff in Hx' as (y & <- & [Hy|[-> _]]%in_upd_snoc); [|done].
    apply (Hsep y.1 t'); [by right|by apply in_handles].
  - intros y Hy. destruct (Hok y (or_intror Hy)) as [[H1 H2] H3]. split; [|done]. split; [|done]. by rewrite (fr_bump _ _ _ F1).
  - unfold A1. rewrite book_sum_upd by (apply price_slot; [done|apply Hst]). rewrite zsum_app. simpl.
    change (erem (retick t e)) with (erem e). lia.
  - simpl in Hfuel. lia.
  - exists b2. split; [done|]. split; [done|]. split; [done|]. split; [by eapply mig_keeps_trans|].
    eapply frame_trans; eapply frame_weaken; [exact F1| |exact F2|]; cbn.
    + intros x [Hx| ->]%Hh; [right; by exists t|by left; left].
    + intros x [Hx|(t' & (y & <- & [Hy|[-> _]]%in_upd_snoc)%in_map_iff)]; [by left; right|right; exists t'; by apply in_handles|by left; left].
Qed.

End Recenter.

(** ** Old and new levels side by side *)

Lemma links_ext os lv A A' : (forall t, A' t = A t) -> links os lv A -> links os lv A'.
Proof. intros He [l1 l2 l3 l4 l5 l6 l7 l8]. split; intros t; rewrite ?(He t); eauto. Qed.

(** Visit the old slots [ts] in order. *)
Fixpoint drain (mid tk : Z) (ts : list Z) (Q A : ABook) : ABook :=
  match ts with
  | [] => A
  | t :: ts => drain mid tk ts (upd Q t []) (rehome mid tk (Q t) A)
  end.
Fixpoint drained (ts : list Z) (Q : ABook) : ABook :=
  match ts with [] => Q | t :: ts => drained ts (upd Q t []) end.

Lemma drained_spec ts Q x : drained ts Q x = if bool_decide (x ∈ ts) then [] else Q x.
Proof.
  revert Q. induction ts as [|t ts IH]; intros Q; simpl; [done|]. rewrite IH. unfold upd.
  destruct (Z.eq_dec x t) as [->|Hne].
  - rewrite (bool_decide_eq_true_2 (t ∈ t :: ts)) by left. case_bool_decide; [done|]. by rewrite Z.eqb_refl.
  - replace (x =? t) with false by lia. assert (x ∈ t :: ts <-> x ∈ ts) as Hi by (rewrite !list_elem_of_In; simpl; intuition congruence).
    by rewrite (bool_decide_ext _ _ Hi).
Qed.

Lemma in_drain mid tk ts Q A t' x :
  In x (drain mid tk ts Q A t') <->
  In x (A t') \/ exists t e, In t ts /\ In e (Q t) /\ idx mid tk (os_price e.2) = t' /\ x = retick t' e.
Proof.
  revert Q A. induction ts as [|t ts IH]; intros Q A; simpl.
  - split; [by left|]. by intros [|(? & ? & [] & _)].
  - rewrite IH, in_rehome. split.
    + intros [[Hx|(e & He & Ei & ->)]|(t2 & e & Ht & He & Ei & ->)]; [by left|right; exists t, e; auto|].
      unfold upd in He. destruct (t2 =? t); [done|]. right. exists t2, e. auto.
    + intros [Hx|(t2 & e & Ht & He & Ei & ->)]; [by left; left|]. destruct (Z.eq_dec t2 t) as [->|Hne].
      * left. right. by exists e.
      * right. exists t2, e. rewrite upd_other by done. destruct Ht; [congruence|]. auto.
Qed.

Section Migrate.
Variables (old mid tk : Z).
Hypothesis Hcfg : cfg_ok mid tk.

Record migrating (Q A : ABook) (fl : list Z) (b : Orderbook) : Prop := {
  mg_core : core mid tk A fl b;
  mg_best : bests_ok A b;
  mg_old : exists lvs, old_levels b = Some lvs /\ zlen lvs = total old tk /\ links (orders b) lvs Q;
  mg_sep : forall x t t', In x (handles (Q t)) -> ~ In x (handles (A t'));
  mg_ok : forall t e, In e (Q t) -> live (orders b) fl e.1 /\ storable tk e.2;
  mg_sum : book_sum mid tk erem A + book_sum old tk erem Q <= I64_MAX;
}.

(** What the whole migration leaves alone. *)
Record carried (fl : list Z) (b b' : Orderbook) : Prop := {
  ca_users : users b' = users b;
  ca_config : config b' = config b;
  ca_state : state b' = state b;
  ca_events : event_buf b' = event_buf b;
  ca_old : old_compression b' = old_compression b;
  ca_len : zlen (slots (orders b')) = zlen (slots (orders b));
  ca_bump : bump_next (orders b') = bump_next (orders b);
  ca_dead : forall x, ~ live (orders b) fl x -> vget (slots (orders b')) x = vget (slots (orders b)) x;
}.

Lemma carried_refl fl b : carried fl b b.
Proof. by split. Qed.

Lemma carried_trans fl b1 b2 b3 : carried fl b1 b2 -> carried fl b2 b3 -> carried fl b1 b3.
Proof.
  intros [a1 a2 a3 a4 a5 a6 a7 a8] [c1 c2 c3 c4 c5 c6 c7 c8]. split; try congruence.
  intros x Hx. rewrite c8, a8; [done|done|]. unfold live in *. by rewrite a7.
Qed.

Lemma migrating_ext Q Q' A fl b : (forall t, Q' t = Q t) -> migrating Q A fl b -> migrating Q' A fl b.
Proof.
  intros He [m1 m2 (lvs & m3 & m4 & m5) m6 m7 m8]. split; try done.
  - exists lvs. split; [done|]. split; [done|]. by apply (links_ext _ _ Q).
  - intros x t t'. rewrite He. apply m6.
  - intros t e. rewrite He. apply m7.
  - by rewrite (book_sum_ext old tk erem Q Q').
Qed.

Lemma single_level_spec Q A fl b t :
  migrating Q A fl b -> 0 <= t -> exists b', migrate_single_level b t = Ok b' /\
    migrating (upd Q t []) (rehome mid tk (Q t) A) fl b' /\ carried fl b b'.
Proof.
  intros M Ht. destruct (mg_old _ _ _ _ M) as (lvs & Eo & Hlen & Hl). unfold migrate_single_level. rewrite Eo.
  assert (Q t = [] -> exists b', Ok b = Ok b' /\ migrating (upd Q t []) (rehome mid tk (Q t) A) fl b' /\ carried fl b b') as Hnone.
  { intros Eq. exists b. split; [done|]. split; [|apply carried_refl]. rewrite Eq.
    apply (migrating_ext Q); [|done]. intros x. unfold upd. destruct (x =? t) eqn:Ex; bool_to_prop; by subst. }
  rewrite Z.geb_leb. destruct (zlen lvs <=? t) eqn:Er; bool_to_prop; [apply Hnone, (lk_out _ _ _ Hl); lia|].
  rewrite (vindex_some _ _ _ (lk_level _ _ _ Hl t ltac:(lia))). cbn [mbind Res_bind].
  destruct (lv_order_count (level_of (Q t)) =? 0) eqn:Ec; [by apply Hnone, level_of_empty|]. clear Hnone.
  assert (forall x, In x (handles (Q t)) -> live (orders b) fl x) as Hlive.
  { intros x (e & <- & He)%in_map_iff. by apply (mg_ok _ _ _ _ M t). }
  pose proof (book_sum_upd old tk erem Q t [] ltac:(lia)) as Hsum. pose proof (mg_sum _ _ _ _ M) as Hmax. simpl in Hsum.
  assert (0 <= book_sum old tk erem (upd Q t [])) as Hnn.
  { apply zsum_nonneg. intros y _. apply zsum_nonneg. intros e. unfold upd. destruct (y =? t); [by intros []|apply (lk_qty _ _ _ Hl)]. }
  destruct (migrate_loop_spec mid tk Hcfg (Q t) A fl b NONE (S (length (slots (orders b)))) (mg_core _ _ _ _ M) (mg_best _ _ _ _ M)
    (lk_seg _ _ _ Hl t) (lk_nodup _ _ _ Hl t) (fun x t' => mg_sep _ _ _ _ M x t t') (mg_ok _ _ _ _ M t) ltac:(lia))
    as (b1 & E1 & Hc1 & Hb1 & K1 & F1).
  { pose proof (seg_length _ _ _ _ (lk_seg _ _ _ Hl t) (lk_nodup _ _ _ Hl t)). lia. }
  change (lv_head (level_of (Q t))) with (qhead (Q t) NONE). rewrite E1. cbn [mbind Res_bind].
  destruct K1 as (_ & K2 & K3 & K4 & K5 & K6 & K7 & K8 & K9 & K10). rewrite K9, Eo. rewrite vset_ok by lia. cbn [mbind Res_bind].
  eexists. split; [reflexivity|]. split.
  - split; cbn.
    + by apply (core_ext mid tk _ _ b1).
    + exact Hb1.
    + exists (vput lvs t PriceLevel_default). split; [done|]. split; [by rewrite zlen_vput|]. change PriceLevel_default with (level_of []).
      eapply links_frame; [|exact F1|].
      * apply (links_upd (orders b) lvs Q t [] (orders b) (fun _ => False)); try done. constructor.
      * intros t' e He. unfold upd in He. destruct (t' =? t) eqn:Et; [done|]. bool_to_prop. intros [Hx|(t2 & Hx)].
        -- apply in_map_iff in Hx as ([h2 s2] & Eh & H2). destruct e as [h s]. simpl in Eh. subst h2.
           by destruct (links_inj _ _ _ _ _ _ _ _ Hl He H2).
        -- apply (mg_sep _ _ _ _ M e.1 t' t2); [by apply in_handles|done].
    + intros x t1 t2 Hx Hy. unfold upd in Hx. destruct (t1 =? t) eqn:Et; [done|]. bool_to_prop.
      apply in_map_iff in Hy as (y & <- & [Hy|(e & He & _ & ->)]%in_rehome).
      * apply (mg_sep _ _ _ _ M y.1 t1 t2); [done|by apply in_handles].
      * apply in_map_iff in Hx as ([h2 s2] & Eh & H2). destruct e as [h s]. simpl in Eh. subst h2.
        by destruct (links_inj _ _ _ _ _ _ _ _ Hl H2 He).
    + intros t1 e He. unfold upd in He. destruct (t1 =? t); [done|]. destruct (mg_ok _ _ _ _ M t1 e He) as [[H1 H2] H3].
      split; [|done]. split; [|done]. by rewrite (fr_bump _ _ _ F1).
    + rewrite rehome_sum; [lia|done|done|]. intros e He. by destruct (mg_ok _ _ _ _ M t e He) as [_ [? _]].
  - split; cbn; try done; try apply F1. intros x Hx. apply (fr_same _ _ _ F1). intros [Hq|(t' & (y & <- & Hy)%in_map_iff)]; apply Hx; [by apply Hlive|].
    by apply (c_live _ _ _ _ _ (mg_core _ _ _ _ M) t').
Qed.


Lemma drain_spec ts Q A fl b :
  migrating Q A fl b -> (forall t, In t ts -> 0 <= t) -> exists b', rfold migrate_single_level b ts = Ok b' /\
    migrating (drained ts Q) (drain mid tk ts Q A) fl b' /\ carried fl b b'.
Proof.
  revert Q A b. induction ts as [|t ts IH]; intros Q A b M Hts; simpl; [exists b; split; [done|split; [done|apply carried_refl]]|].
  destruct (single_level_spec Q A fl b t M (Hts t (or_introl eq_refl))) as (b1 & E1 & M1 & C1). rewrite E1. cbn [mbind Res_bind].
  destruct (IH _ _ _ M1 (fun x Hx => Hts x (or_intror Hx))) as (b2 & E2 & M2 & C2). exists b2. split; [done|]. split; [done|].
  by eapply carried_trans.
Qed.

Lemma empty_core b fl o :
  compression b = the_map mid tk -> price_asc b = bands mid tk ->
  active_levels b = replicate (Z.to_nat (total mid tk)) PriceLevel_default -> bid_occ b = o -> ask_occ b = o ->
  occ_inv o -> occ_n o = total mid tk -> (forall t, mem o t = false) -> slab_inv (orders b) fl -> core mid tk empty_book fl b.
Proof.
  intros E1 E2 E3 E4 E5 Ho Hn Hm Hs. pose proof (total_bounds mid tk Hcfg) as Htot.
  assert (zlen (active_levels b) = total mid tk) as Hlen by (rewrite E3; apply zlen_replicate; lia).
  assert (forall sd, occ_ok mid tk sd o empty_book) as Hocc by (intros sd; split; [done|]; split; [done|]; intros t; by rewrite Hm).
  split; try done.
  - split; unfold empty_book; try (by intros ? ? []); try (by intros); try (intros; constructor).
    intros t Ht. rewrite E3. rewrite Hlen in Ht. rewrite vget_replicate by lia. done.
  - by rewrite E4.
  - by rewrite E5.
Qed.

(** The swap: an empty book under the new map, every order still in the old
    levels. *)
Lemma swap_migrating A fl b o b0 :
  book_inv old tk A fl b -> book_sum old tk erem A <= I64_MAX ->
  compression b0 = the_map mid tk -> price_asc b0 = bands mid tk ->
  active_levels b0 = replicate (Z.to_nat (total mid tk)) PriceLevel_default -> bid_occ b0 = o -> ask_occ b0 = o ->
  occ_inv o -> occ_n o = total mid tk -> (forall t, mem o t = false) ->
  orders b0 = orders b -> old_levels b0 = Some (active_levels b) ->
  best_bid_tick b0 = NONE -> best_ask_tick b0 = NONE -> best_bid_px b0 = 0 -> best_ask_px b0 = 0 ->
  migrating A empty_book fl b0.
Proof.
  intros Hi Hsum E1 E2 E3 E4 E5 Ho Hn Hm Eo El Eb1 Eb2 Eb3 Eb4. pose proof (bk_core _ _ _ _ _ Hi) as Hc.
  pose proof (c_links _ _ _ _ _ Hc) as Hl. split.
  - apply (empty_core b0 fl o); try done. rewrite Eo. apply Hc.
  - intros []; left; simpl; (split; [done|split; [done|by intros ? ? []]]).
  - exists (active_levels b). rewrite Eo. split; [done|]. split; [apply Hc|done].
  - by intros x t t' _ [].
  - intros t e He. rewrite Eo. split; [by apply (c_live _ _ _ _ _ Hc t)|].
    destruct (c_px _ _ _ _ _ Hc t e He) as (Hp & Hal & _). split; [done|]. split; [done|].
    split; [by apply (lk_qty _ _ _ Hl t)|by apply (lk_side _ _ _ Hl t)].
  - rewrite (book_sum_zero mid tk erem empty_book); [lia|]. by intros t e [].
Qed.

End Migrate.

(** ** The whole recentring *)

(** The orders at one price, in queue order. *)
Definition at_price (p : Z) (q : list Entry) : list Entry := List.filter (fun e => os_price e.2 =? p) q.

Section Now.
Variables (old mid tk : Z).
Hypothesis Hold : cfg_ok old tk.
Hypothesis Hcfg : cfg_ok mid tk.
Hypothesis Hspread : spread_ok mid tk.

(** The order in which the old slots are emptied: the new mid's first, then
    by index. *)
Definition visits : list Z := idx old tk mid :: zrange 0 (total old tk).

Definition recentred (A : ABook) : ABook := drain mid tk visits A empty_book.

Lemma in_recentred A fl b t x : core old tk A fl b ->
  In x (recentred A t) <-> exists t0 e, In e (A t0) /\ idx mid tk (os_price e.2) = t /\ x = retick t e.
Proof.
  intros Hc. unfold recentred. rewrite in_drain. split.
  - intros [[]|(t0 & e & _ & He & Ei & Ex)]. eauto.
  - intros (t0 & e & He & Ei & Ex). right. exists t0, e. split; [|done]. right. apply in_zrange.
    by apply (core_slot_range old tk Hold _ _ _ _ _ Hc He).
Qed.

Lemma drained_visits A fl b t : core old tk A fl b -> drained visits A t = [].
Proof.
  intros Hc. rewrite drained_spec. case_bool_decide as Ht; [done|]. apply (lk_out _ _ _ (c_links _ _ _ _ _ Hc)).
  rewrite (c_len _ _ _ _ _ Hc). intros Hr. apply Ht, list_elem_of_In. right. by apply in_zrange.
Qed.

Lemma drain_sum f ts Q A :
  (forall t e, f (retick t e) = f e) -> (forall t e, In e (Q t) -> 0 < os_price e.2 <= I64_MAX) ->
  (forall t, In t ts -> 0 <= t < total old tk) ->
  book_sum mid tk f (drain mid tk ts Q A) + book_sum old tk f (drained ts Q) = book_sum mid tk f A + book_sum old tk f Q.
Proof.
  intros Hf. revert Q A. induction ts as [|t ts IH]; intros Q A Hp Hts; simpl; [done|].
  rewrite IH; [|intros t' e; unfold upd; destruct (t' =? t); [done|apply Hp]|intros; apply Hts; by right].
  rewrite rehome_sum by (done || (intros; by eapply Hp)).
  rewrite book_sum_upd by (apply Hts; by left). simpl. lia.
Qed.

Lemma recentred_sum f A fl b : core old tk A fl b -> 0 <= mid -> (forall t e, f (retick t e) = f e) ->
  book_sum mid tk f (recentred A) = book_sum old tk f A.
Proof.
  intros Hc Hm Hf. pose proof (drain_sum f visits A empty_book Hf) as Hs.
  rewrite (book_sum_zero mid tk f empty_book) in Hs by (by intros ? ? []).
  rewrite (book_sum_zero old tk f (drained visits A)) in Hs by (intros t e; by rewrite (drained_visits A fl b t Hc)).
  unfold recentred. rewrite Z.add_0_r in Hs. rewrite Hs; [lia|intros t e He; by destruct (c_px _ _ _ _ _ Hc t e He)|].
  intros t [<-|Ht%in_zrange]; [by apply idx_range|done].
Qed.

Lemma recenter_now_spec A fl b :
  book_inv old tk A fl b -> bc_tick_size (config b) = tk -> 0 <= mid <= I64_MAX -> book_sum old tk erem A <= I64_MAX ->
  exists b', recenter_now b mid = Ok b' /\ book_inv mid tk (recentred A) fl b' /\
    users b' = users b /\ config b' = config b /\ event_buf b' = event_buf b /\ state b' = Normal /\ old_levels b' = None.
Proof.
  intros Hi Htk Hm Hsum. pose proof (bk_core _ _ _ _ _ Hi) as Hc. pose proof (total_bounds mid tk Hcfg) as Htot. unfold NONE in Htot.
  pose proof (total_bounds old tk Hold) as Htot0. unfold NONE in Htot0.
  unfold recenter_now, trigger_recenter. rewrite Htk, (new_spec mid tk Hcfg). cbn [mbind Res_bind]. rewrite (total_slots_eq mid tk Hcfg).
  rewrite (zlen_replicate (total mid tk)), wrap_u32_id by width_lia.
  destruct (Occupancy_new_spec (total mid tk) ltac:(width_lia)) as (o & Eo & Ho & Hn & Hmem). rewrite Eo. cbn [mbind Res_bind].
  match goal with |- context [migrate_price ?x mid] => set (b0 := x) end.
  assert (migrating old mid tk A empty_book fl b0) as M0.
  { apply (swap_migrating old mid tk Hcfg A fl b o); try done. by apply price_asc_bands. }
  unfold migrate_price. cbn [old_compression b0]. rewrite (c_map _ _ _ _ _ Hc), price_to_index_eq by done. cbn [mbind Res_bind].
  pose proof (idx_range old tk Hold mid ltac:(lia)) as Ht0.
  destruct (single_level_spec old mid tk Hcfg A empty_book fl b0 (idx old tk mid) M0 ltac:(lia)) as (b1 & E1 & M1 & C1).
  fold b0. rewrite E1. cbn [mbind Res_bind]. unfold complete_migration_eager. rewrite (ca_state _ _ _ C1). cbn [state b0 negb].
  rewrite bool_decide_eq_true_2 by done. cbn [negb]. destruct (mg_old _ _ _ _ _ _ _ M1) as (lvs & El & Hlen & _).
  rewrite El, Hlen, wrap_u32_id by width_lia.
  destruct (drain_spec old mid tk Hcfg (zrange 0 (total old tk)) _ _ fl b1 M1) as (b2 & E2 & M2 & C2).
  { intros t Ht%in_zrange. lia. }
  rewrite E2. cbn [mbind Res_bind]. exists (complete_migration b2). split; [done|].
  pose proof (carried_trans fl b0 b1 b2 C1 C2) as C. fold (recentred A) in M2.
  split; [|repeat split; try done; cbn; apply C].
  split.
  - by apply (core_ext mid tk _ _ b2); [apply M2|..].
  - cbn. intros h. unfold live. rewrite (ca_bump _ _ _ C). intros Hlv. destruct (bk_queued _ _ _ _ _ Hi h Hlv) as (t & s & Hs).
    exists (idx mid tk (os_price s)), (os_with_tick (idx mid tk (os_price s)) s). apply (in_recentred A fl b _ _ Hc).
    by exists t, (h, s).
  - cbn. intros h s. unfold live. rewrite (ca_bump _ _ _ C). intros Hs Hn'. rewrite (ca_dead _ _ _ C h Hn') in Hs.
    by apply (bk_dead _ _ _ _ _ Hi h s).
  - intros t x (t0 & e & He & _ & ->)%(in_recentred A fl b _ _ Hc). by destruct (bk_order _ _ _ _ _ Hi t0 e He).
  - cbn. intros sd. apply (mg_best _ _ _ _ _ _ _ M2 sd).
  - cbn. rewrite (ca_users _ _ _ C). apply Hi.
  - intros u. change (users (complete_migration b2)) with (users b2). rewrite (ca_users _ _ _ C), (recentred_sum (by_user u) A fl b Hc) by (done || lia). apply Hi.
Qed.

(** *** Arrival order *)

Lemma rehome_fifo p q A :
  at_price p (rehome mid tk q A (idx mid tk p)) = at_price p (A (idx mid tk p)) ++ map (retick (idx mid tk p)) (at_price p q).
Proof.
  revert A. induction q as [|e q IH]; intros A; simpl; [by rewrite app_nil_r|]. rewrite IH. unfold upd.
  destruct (os_price e.2 =? p) eqn:Ep; bool_to_prop.
  - rewrite Ep, Z.eqb_refl. unfold at_price at 1. rewrite List.filter_app. simpl.
    replace (os_price e.2 =? p) with true by lia. by rewrite <- app_assoc.
  - destruct (idx mid tk p =? idx mid tk (os_price e.2)) eqn:Ei; bool_to_prop; [|done]. rewrite <- Ei.
    unfold at_price at 1. rewrite List.filter_app. simpl. replace (os_price e.2 =? p) with false by lia. by rewrite app_nil_r.
Qed.

Lemma at_price_none p q : (forall e, In e q -> os_price e.2 <> p) -> at_price p q = [].
Proof.
  induction q as [|e q IH]; intros H; [done|]. unfold at_price. simpl. replace (os_price e.2 =? p) with false by
    (symmetry; apply Z.eqb_neq, H; by left). apply IH. intros x Hx. apply H. by right.
Qed.

Lemma drain_fifo p t0 ts Q A :
  (forall t e, In e (Q t) -> os_price e.2 = p -> t = t0) -> In t0 ts \/ Q t0 = [] ->
  at_price p (drain mid tk ts Q A (idx mid tk p)) =
    at_price p (A (idx mid tk p)) ++ map (retick (idx mid tk p)) (at_price p (Q t0)).
Proof.
  revert Q A. induction ts as [|t ts IH]; intros Q A Hone Hin; simpl.
  - destruct Hin as [[]| ->]. by rewrite app_nil_r.
  - rewrite IH.
    + rewrite rehome_fifo, <- app_assoc. f_equal. destruct (Z.eq_dec t t0) as [->|Hne].
      * rewrite upd_same. simpl. by rewrite app_nil_r.
      * rewrite (at_price_none p (Q t)) by (intros e He Hp; by apply Hne, (Hone t e)). by rewrite upd_other.
    + intros t' e. unfold upd. destruct (t' =? t); [done|apply Hone].
    + destruct (Z.eq_dec t t0) as [->|Hne]; [right; apply upd_same|]. rewrite upd_other by done.
      destruct Hin as [[|]|]; [done|by left|by right].
Qed.

Lemma recentred_fifo A fl b p : core old tk A fl b ->
  at_price p (recentred A (idx mid tk p)) = map (retick (idx mid tk p)) (at_price p (A (idx old tk p))).
Proof.
  intros Hc. unfold recentred. rewrite (drain_fifo p (idx old tk p)); [done| |].
  - intros t e He Hp. destruct (c_px _ _ _ _ _ Hc t e He) as (_ & _ & <-). by rewrite Hp.
  - destruct (decide (0 <= idx old tk p < total old tk)) as [Hr|Hr]; [left; right; by apply in_zrange|right].
    apply (lk_out _ _ _ (c_links _ _ _ _ _ Hc)). by rewrite (c_len _ _ _ _ _ Hc).
Qed.

Lemma recentred_uncrossed A fl b : core old tk A fl b -> uncrossed A -> uncrossed (recentred A).
Proof.
  intros Hc Hu t t' x y (t1 & e1 & H1 & _ & ->)%(in_recentred A fl b _ _ Hc) (t2 & e2 & H2 & _ & ->)%(in_recentred A fl b _ _ Hc).
  intros Hs1 Hs2. exact (Hu t1 t2 e1 e2 H1 H2 Hs1 Hs2).
Qed.

Lemma recenter_preserves_aux A fl b :
  engine_ok old tk A fl b -> 0 <= mid <= I64_MAX -> book_sum old tk erem A <= I64_MAX ->
  exists b' A', recenter_now b mid = Ok b' /\ engine_ok mid tk A' fl b' /\ users b' = users b /\ config b' = config b /\
    state b' = Normal /\
    (forall t x, In x (A' t) <-> exists t0 e, In e (A t0) /\ idx mid tk (os_price e.2) = t /\ x = retick t e) /\
    (forall p, at_price p (A' (idx mid tk p)) = map (retick (idx mid tk p)) (at_price p (A (idx old tk p)))) /\
    book_sum mid tk erem A' = book_sum old tk erem A.
Proof.
  intros He Hm Hs. pose proof (en_book _ _ _ _ _ He) as Hi. pose proof (bk_core _ _ _ _ _ Hi) as Hc.
  destruct (recenter_now_spec A fl b Hi (en_tick _ _ _ _ _ He) Hm Hs) as (b' & E & Hi' & Hu & Hcf & _ & Hst & _).
  exists b', (recentred A). split; [done|]. split; [|split; [done|split; [done|split; [done|split; [|split]]]]].
  - split; [done| |rewrite Hcf; apply He|rewrite Hcf; apply He]. apply (recentred_uncrossed A fl b Hc), He.
  - intros t x. apply (in_recentred A fl b _ _ Hc).
  - intros p. apply (recentred_fifo A fl b p Hc).
  - apply (recentred_sum erem A fl b Hc); [lia|done].
Qed.

(** C25: recentring loses nothing.  [recenter_now] returns a book that is well
    formed around the new mid and not crossed; it holds exactly the orders of
    the old book, each under its new slot, with the arrival order of every
    price and the total resting quantity unchanged, and it leaves positions
    and configuration alone. *)
Theorem recenter_preserves A fl b :
  engine_ok old tk A fl b -> 0 <= mid <= I64_MAX -> book_sum old tk erem A <= I64_MAX ->
  exists b' A', recenter_now b mid = Ok b' /\ engine_ok mid tk A' fl b' /\ users b' = users b /\ config b' = config b /\
    state b' = Normal /\
    (forall t x, In x (A' t) <-> exists t0 e, In e (A t0) /\ idx mid tk (os_price e.2) = t /\ x = retick t e) /\
    (forall p, at_price p (A' (idx mid tk p)) = map (retick (idx mid tk p)) (at_price p (A (idx old tk p)))) /\
    book_sum mid tk erem A' = book_sum old tk erem A.
Proof. apply recenter_preserves_aux. Qed.

End Now.
