(* ===== verification/Snapshot.v ===== *)
(** * Snapshot: checkpoints of the book [rsx-book/src/snapshot.rs]

    [capture] turns a live book into an owned logical checkpoint and checks
    the book's structures against each other on the way; [restore] rebuilds a
    book from a checkpoint and refuses one whose tables do not add up.  A
    [io::Result] is [Checked]: the refusals carry the source's message. *)

From stdpp Require Import sorting.
From S2P Require Import Prelude Hash Types Slab Occupancy Compression Users Order Book.

(** ** Results with refusals *)

Inductive SnapError : Type :=
| SnapshotDuringMigration
| InvalidOrderQueue
| QueueDisagreesWithSlab
| LevelDisagreesWithQueue
| SlabDisagreesWithQueues
| InvalidUserIndex
| DuplicateUserId
| InvalidUserFreeList
| UntrackedUserSlots
| BumpExceedsCapacity
| InvalidAlignment
| InvalidOrderHandle
| InvalidOrderSide
| InvalidFreeList
| UntrackedSlots.

Inductive Checked (A : Type) : Type :=
| Valid (a : A)
| Invalid (e : SnapError).
Arguments Valid {A} a.
Arguments Invalid {A} e.

(** The [?] operator. *)
Definition checked_bind {A B} (m : Res (Checked A)) (k : A -> Res (Checked B)) : Res (Checked B) :=
  match m with
  | Ok (Valid a) => k a
  | Ok (Invalid e) => Ok (Invalid e)
  | Panic => Panic
  | Diverged => Diverged
  end.

Declare Scope snap_scope.
Notation "x <-? m ; k" := (checked_bind m (fun x => k)) (at level 20, m at level 100, k at level 200, right associativity, only parsing) : snap_scope.
Notation "' p <-? m ; k" := (checked_bind m (fun x => match x with p => k end))
  (at level 20, p pattern, m at level 100, k at level 200, right associativity, only parsing) : snap_scope.
Open Scope snap_scope.

(** A loop over a list whose body may refuse. *)
Fixpoint cfold {A B} (f : B -> A -> Res (Checked B)) (b : B) (xs : list A) : Res (Checked B) :=
  match xs with
  | [] => Ok (Valid b)
  | x :: tl => b' <-? f b x; cfold f b' tl
  end.

(** ** The checkpoint *)

(** [SnapshotU64]: eight little-endian bytes. *)
Definition SnapshotU64 : Type := list Z.
Definition SnapshotU64_new (value : Z) : SnapshotU64 := map (fun i => Z.land (Z.shiftr value (8 * i)) 255) (zrange 0 8).
Definition SnapshotU64_get (s : SnapshotU64) : Z := fold_right (fun byte acc => byte + 256 * acc) 0 s.

Record BookConfigSnapshotV1 : Type := mkConfigSnap { kc_symbol_id : Z; kc_tick_size : Z; kc_lot_size : Z }.

Record OrderSnapshotV1 : Type := mkOrderSnap {
  ko_handle : Z;
  ko_price : Z;
  ko_remaining_qty : Z;
  ko_side : Z;
  ko_tif : Z;
  ko_reduce_only : bool;
  ko_user_id : Z;
  ko_sequence : Z;
  ko_original_qty : Z;
  ko_timestamp_ns : SnapshotU64;
  ko_order_id_hi : SnapshotU64;
  ko_order_id_lo : SnapshotU64;
}.

Record UserSnapshotV1 : Type := mkUserSnap {
  ku_index : Z;
  ku_user_id : Z;
  ku_net_qty : Z;
  ku_order_count : Z;
  ku_zero_since_ns : SnapshotU64;
}.

Record UserRegistrySnapshotV1 : Type := mkRegSnap {
  kr_bump : Z;
  kr_maintenance_cursor : Z;
  kr_users : list UserSnapshotV1;
  kr_free_indices : list Z;
}.

Record BookSnapshotV1 : Type := mkSnap {
  kb_sequence : SnapshotU64;
  kb_config : BookConfigSnapshotV1;
  kb_compression_mid_price : Z;
  kb_slab_capacity : Z;
  kb_slab_bump : Z;
  kb_orders : list OrderSnapshotV1;
  kb_free_handles : list Z;
  kb_users : UserRegistrySnapshotV1;
}.

(** ** Capture *)

Definition order_snap (handle : Z) (slot : OrderSlot) : OrderSnapshotV1 :=
  mkOrderSnap handle (os_price slot) (os_remaining slot) (os_side slot) (os_tif slot) (is_reduce_only slot) (os_user slot)
    (os_sequence slot) (os_original slot) (SnapshotU64_new (os_timestamp slot)) (SnapshotU64_new (os_oid_hi slot))
    (SnapshotU64_new (os_oid_lo slot)).

(** The walk over one queue: orders so far, visited slots, count and tail.
    Every round visits a new slot, so the slab length bounds the rounds. *)
Fixpoint capture_queue (fuel : nat) (os : Slab OrderSlot) (bump tick handle : Z)
    (st : list OrderSnapshotV1 * list bool * Z * Z) : Res (Checked (list OrderSnapshotV1 * list bool * Z * Z)) :=
  match fuel with
  | O => Diverged
  | S fuel' =>
      if handle =? NONE then Ok (Valid st)
      else
        let '(out, visited, count, tail) := st in
        refused ← (if handle >=? bump then Ok true else vindex visited handle);
        if (refused : bool) then Ok (Invalid InvalidOrderQueue)
        else
          slot ← get os handle;
          if negb (is_active slot) || negb (os_tick slot =? wrap_u32 tick) then Ok (Invalid QueueDisagreesWithSlab)
          else
            visited ← vset visited handle true;
            capture_queue fuel' os bump tick (os_next slot) (out ++ [order_snap handle slot], visited, wrap_u32 (count + 1), handle)
  end.

Definition capture_level (os : Slab OrderSlot) (bump : Z) (st : list OrderSnapshotV1 * list bool) (entry : Z * PriceLevel)
    : Res (Checked (list OrderSnapshotV1 * list bool)) :=
  let '(out, visited) := st in
  let '(tick, level) := entry in
  '(out, visited, count, tail) <-? capture_queue (S (length (slots os))) os bump tick (lv_head level) (out, visited, 0, NONE);
  if negb (count =? lv_order_count level) || negb (tail =? lv_tail level) then Ok (Invalid LevelDisagreesWithQueue)
  else Ok (Valid (out, visited)).

Definition check_slot (os : Slab OrderSlot) (visited : list bool) (_ : unit) (handle : Z) : Res (Checked unit) :=
  slot ← get os handle;
  seen ← vindex visited handle;
  if negb (eqb (is_active slot) seen) then Ok (Invalid SlabDisagreesWithQueues) else Ok (Valid tt).

(** The order of the users in a checkpoint. *)
Definition by_index (a b : UserSnapshotV1) : Prop := ku_index a <= ku_index b.
#[export] Instance by_index_dec : RelDecision by_index := fun a b => decide (ku_index a <= ku_index b).

Section Capture.
Context `{HashIter}.

Definition user_snap (states : list UserState) (entry : Z * Z) : Res UserSnapshotV1 :=
  let '(user_id, index) := entry in
  u ← vindex states index;
  Ok (mkUserSnap index user_id (us_net_qty u) (us_order_count u) (SnapshotU64_new (us_zero_since_ns u))).

(** The users of the registry, sorted by slot. *)
Definition capture_users (r : UserRegistry) : Res (list UserSnapshotV1) :=
  users ← rfold (fun out e => u ← user_snap (user_states r) e; Ok (out ++ [u])) [] (iter_map (user_map r));
  Ok (merge_sort by_index users).

Definition capture (b : Orderbook) : Res (Checked BookSnapshotV1) :=
  if decide (state b = Migrating) then Ok (Invalid SnapshotDuringMigration)
  else
    let bump := len (orders b) in
    free ← free_handles (orders b);
    let visited := replicate (Z.to_nat bump) false in
    '(out, visited) <-? cfold (capture_level (orders b) bump) ([], visited) (combine (zrange 0 (zlen (active_levels b))) (active_levels b));
    _ <-? cfold (check_slot (orders b) visited) tt (zrange 0 bump);
    us ← capture_users (users b);
    Ok (Valid (mkSnap (SnapshotU64_new (sequence b))
      (mkConfigSnap (bc_symbol_id (config b)) (bc_tick_size (config b)) (bc_lot_size (config b)))
      (mid_price (compression b)) (capacity (orders b)) bump out free
      (mkRegSnap (user_bump (users b)) (maintenance_cursor (users b)) us (user_free_list (users b))))).

End Capture.

(** ** Restore *)

(** One user: its slot must exist and be unused, its id unknown. *)
Definition restore_user (bump : Z) (st : UserRegistry * list bool) (user : UserSnapshotV1) : Res (Checked (UserRegistry * list bool)) :=
  let '(r, occupied) := st in
  refused ← (if ku_index user >=? bump then Ok true else vindex occupied (ku_index user));
  if (refused : bool) then Ok (Invalid InvalidUserIndex)
  else if contains r (ku_user_id user) then Ok (Invalid DuplicateUserId)
  else
    occupied ← vset occupied (ku_index user) true;
    states ← vset (user_states r) (ku_index user)
      (mkUser (ku_user_id user) (ku_net_qty user) (ku_order_count user) (SnapshotU64_get (ku_zero_since_ns user)));
    Ok (Valid (mkReg states (<[ku_user_id user := ku_index user]> (user_map r)) (user_free_list r) (user_bump r) (maintenance_cursor r), occupied)).

(** One entry of a free list: in range, not in use, not listed before. *)
Definition restore_free (err : SnapError) (bump : Z) (used : list bool) (free : list bool) (i : Z) : Res (Checked (list bool)) :=
  refused ← (if i >=? bump then Ok true
             else u ← vindex used i; if (u : bool) then Ok true else vindex free i);
  if (refused : bool) then Ok (Invalid err) else free ← vset free i true; Ok (Valid free).

(** [iter().zip().any(|(used, free)| !used && !free)] *)
Definition untracked (used free : list bool) : bool := existsb (fun '(u, f) => negb u && negb f) (combine used free).

Definition restore_users (snap : UserRegistrySnapshotV1) : Res (Checked UserRegistry) :=
  let bump := kr_bump snap in
  let none := replicate (Z.to_nat bump) false in
  let registry := mkReg (replicate (Z.to_nat bump) UserState_default) ∅ [] 0 0 in
  '(registry, occupied) <-? cfold (restore_user bump) (registry, none) (kr_users snap);
  free <-? cfold (restore_free InvalidUserFreeList bump occupied) none (kr_free_indices snap);
  if untracked occupied free then Ok (Invalid UntrackedUserSlots)
  else Ok (Valid (mkReg (user_states registry) (user_map registry) (kr_free_indices snap) bump (kr_maintenance_cursor snap))).

(** The slot an order is restored to, unlinked. *)
Definition restored_slot (order : OrderSnapshotV1) : OrderSlot :=
  mkSlot (ko_price order) (ko_remaining_qty order) (ko_side order)
    (Z.lor ORDER_ACTIVE (if ko_reduce_only order then ORDER_REDUCE_ONLY else 0))
    (ko_tif order) NONE NONE 0 (ko_user_id order) (ko_sequence order) (ko_original_qty order)
    (SnapshotU64_get (ko_timestamp_ns order)) (SnapshotU64_get (ko_order_id_hi order)) (SnapshotU64_get (ko_order_id_lo order)).

Definition restore_order (bump : Z) (st : Slab OrderSlot * list bool) (order : OrderSnapshotV1) : Res (Checked (Slab OrderSlot * list bool)) :=
  let '(os, active) := st in
  refused ← (if ko_handle order >=? bump then Ok true else vindex active (ko_handle order));
  if (refused : bool) then Ok (Invalid InvalidOrderHandle)
  else if negb (ko_side order =? side_u8 Buy) && negb (ko_side order =? side_u8 Sell) then Ok (Invalid InvalidOrderSide)
  else
    active ← vset active (ko_handle order) true;
    os ← update os (ko_handle order) (fun _ => restored_slot order);
    Ok (Valid (os, active)).

(** Queue a restored order at its price. *)
Definition relink_order (b : Orderbook) (order : OrderSnapshotV1) : Res Orderbook :=
  tick ← price_to_index (compression b) (ko_price order);
  os ← update (orders b) (ko_handle order) (os_with_tick tick);
  level ← vindex (active_levels b) tick;
  '(os, level) ← link_tail os level (ko_handle order);
  let level := lv_with_total (sat_i64 (lv_total_qty level + ko_remaining_qty order)) level in
  let level := lv_with_count (wrap_u32 (lv_order_count level + 1)) level in
  lv ← vset (active_levels b) tick level;
  Ok (set_levels_orders b lv os).

Definition restore (snap : BookSnapshotV1) (cap : Z) : Res (Checked Orderbook) :=
  if kb_slab_bump snap >? kb_slab_capacity snap then Ok (Invalid BumpExceedsCapacity)
  else if (kc_tick_size (kb_config snap) <=? 0) || (kc_lot_size (kb_config snap) <=? 0) then Ok (Invalid InvalidAlignment)
  else
    let cfg := mkConfig (kc_symbol_id (kb_config snap)) (kc_tick_size (kb_config snap)) (kc_lot_size (kb_config snap)) in
    b ← Orderbook_new cfg (Z.max cap (kb_slab_capacity snap)) (kb_compression_mid_price snap);
    let bump := kb_slab_bump snap in
    let none := replicate (Z.to_nat bump) false in
    '(os, active) <-? cfold (restore_order bump) (set_bump_next (orders b) bump, none) (kb_orders snap);
    free <-? cfold (restore_free InvalidFreeList bump active) none (kb_free_handles snap);
    if untracked active free then Ok (Invalid UntrackedSlots)
    else
      os ← restore_free_handles os (kb_free_handles snap);
      us <-? restore_users (kb_users snap);
      b ← rfold relink_order (set_users (set_orders b os) us) (kb_orders snap);
      b ← rebuild_occupancy (set_sequence b (SnapshotU64_get (kb_sequence snap)));
      b ← refresh_best_bid b;
      b ← refresh_best_ask b;
      Ok (Valid b).
