(* ===== verification/SnapInv.v ===== *)
(** * SnapInv: capturing a book and restoring it

    [capture] of a well-formed book succeeds and records its queues, free
    lists and users; [restore] of what it recorded succeeds and yields a
    well-formed book with the same queues, from which the same checkpoint is
    captured again. *)

From stdpp Require Import sorting.
From S2P Require Import Prelude Hash Types Slab Occupancy Compression Users Order Book Links BookInv Matching MatchInv.
From S2P Require Import FillQueue SlotMatch Engine Feasible Process Recenter Snapshot.

(** ** Tables of marks *)

(** The table of [n] flags in which exactly [hs] are set. *)
Definition marks (n : Z) (hs : list Z) : list bool := map (fun h => bool_decide (h ∈ hs)) (zrange 0 n).

Lemma vget_zrange n i : 0 <= i < n -> vget (zrange 0 n) i = Some i.
Proof.
  intros Hi. rewrite vget_lookup by lia. unfold zrange. rewrite lookup_seqZ. lia.
Qed.

Lemma marks_get n hs h : 0 <= h < n -> vget (marks n hs) h = Some (bool_decide (h ∈ hs)).
Proof. intros Hh. unfold marks. rewrite vget_map, vget_zrange by done. done. Qed.

Lemma marks_len n hs : 0 <= n -> zlen (marks n hs) = n.
Proof. intros. unfold marks. rewrite zlen_map, zrange_length; lia. Qed.

Lemma marks_nil n : replicate (Z.to_nat n) false = marks n [].
Proof.
  destruct (Z_le_gt_dec 0 n); [|unfold marks; rewrite zrange_empty by lia; by replace (Z.to_nat n) with O by lia].
  apply list_eq_vget; [by rewrite zlen_replicate, marks_len|]. intros i Hi. rewrite zlen_replicate in Hi by lia.
  rewrite vget_replicate, marks_get by lia. done.
Qed.

Lemma marks_set n hs h : 0 <= h < n -> vset (marks n hs) h true = Ok (marks n (hs ++ [h])).
Proof.
  intros Hh. rewrite vset_ok by (rewrite marks_len; lia). f_equal. apply list_eq_vget; [by rewrite zlen_vput, !marks_len by lia|].
  intros i Hi. rewrite zlen_vput, marks_len in Hi by lia. rewrite vget_vput, !marks_get, marks_len by lia.
  destruct (h =? i) eqn:E; bool_to_prop; cbn [andb].
  - subst i. replace (0 <=? h) with true by lia. replace (h <? n) with true by lia. cbn. rewrite bool_decide_true; [done|]. set_solver.
  - f_equal. apply bool_decide_ext. set_solver.
Qed.

Lemma marks_free n hs h : 0 <= h < n -> ~ In h hs -> vindex (marks n hs) h = Ok false.
Proof.
  intros Hh Hn. rewrite (vindex_some _ _ _ (marks_get n hs h Hh)), bool_decide_false; [done|]. by rewrite list_elem_of_In.
Qed.

Lemma marks_untracked n hs fl : (forall h, 0 <= h < n -> In h hs \/ In h fl) -> untracked (marks n hs) (marks n fl) = false.
Proof.
  intros Hc. unfold untracked, marks. assert (Hz : forall h, In h (zrange 0 n) -> In h hs \/ In h fl) by (intros h Hh%in_zrange; by apply Hc).
  induction (zrange 0 n) as [|h l IH]; [done|]. cbn [map combine existsb]. rewrite IH by (intros; apply Hz; by right).
  destruct (Hz h (or_introl eq_refl)) as [Hx|Hx]; apply list_elem_of_In in Hx; rewrite (bool_decide_true _ Hx); by rewrite ?andb_false_r.
Qed.

(** ** Loops that refuse nothing *)

Lemma cfold_app {A B} (f : B -> A -> Res (Checked B)) xs ys b :
  cfold f b (xs ++ ys) = checked_bind (cfold f b xs) (fun b' => cfold f b' ys).
Proof.
  revert b. induction xs as [|x xs IH]; intros b; [done|]. cbn [cfold app]. destruct (f b x) as [[b'|e]| |]; cbn; auto.
Qed.

Lemma cfold_unit {A} (f : unit -> A -> Res (Checked unit)) xs :
  (forall x, In x xs -> f tt x = Ok (Valid tt)) -> cfold f tt xs = Ok (Valid tt).
Proof. induction xs as [|x xs IH]; intros Hf; [done|]. cbn [cfold]. rewrite Hf by (by left). cbn. apply IH. intros y Hy. apply Hf. by right. Qed.

Lemma cfold_free err n used fl : forall fs,
  (forall i, In i fl -> 0 <= i < n /\ ~ In i used) -> NoDup (fs ++ fl) ->
  cfold (restore_free err n (marks n used)) (marks n fs) fl = Ok (Valid (marks n (fs ++ fl))).
Proof.
  induction fl as [|i fl IH]; intros fs Hr Hnd; [by rewrite app_nil_r|]. cbn [cfold]. destruct (Hr i (or_introl eq_refl)) as [Hi Hu].
  assert (Hn : ~ In i fs) by (apply NoDup_app in Hnd as (_ & Hd & _); intros Hx; apply (Hd i); [by apply list_elem_of_In | left]).
  unfold restore_free. replace (i >=? n) with false by lia. rewrite marks_free by done. cbn [mbind Res_bind]. rewrite marks_free by done.
  cbn [mbind Res_bind]. rewrite marks_set by done. cbn. rewrite IH; [by rewrite <- app_assoc | intros; apply Hr; by right | by rewrite <- app_assoc].
Qed.

(** ** Capture *)

Definition order_of (e : Entry) : OrderSnapshotV1 := order_snap e.1 e.2.

Lemma order_snap_relink h n p s : order_snap h (relink n p s) = order_snap h s.
Proof. by destruct s. Qed.

Lemma capture_queue_spec os bump t q : forall fuel pv out hs count tail,
  seg (slots os) pv q NONE -> (forall e, In e q -> is_active e.2 = true /\ os_tick e.2 = t /\ 0 <= e.1 < bump) -> bump <= NONE ->
  NoDup (hs ++ handles q) -> in_u32 t -> 0 <= count -> count + zlen q <= U32_MAX -> (length q < fuel)%nat ->
  capture_queue fuel os bump t (qhead q NONE) (out, marks bump hs, count, tail) =
    Ok (Valid (out ++ map order_of q, marks bump (hs ++ handles q), count + zlen q, qlast tail q)).
Proof.
  induction q as [|e q IH]; intros fuel pv out hs count tail Hseg He Hb Hnd Ht Hc Hl Hf; (destruct fuel as [|fuel]; [cbn in Hf; lia|]); cbn [capture_queue qhead].
  - rewrite Z.eqb_refl. cbn. by rewrite !app_nil_r, Z.add_0_r.
  - destruct (He e (or_introl eq_refl)) as (Ha & Htk & Hr). destruct Hseg as [Hg Hseg]. replace (e.1 =? NONE) with false by lia.
    assert (Hlen : zlen (e :: q) = zlen q + 1) by (unfold zlen; cbn [length]; lia). pose proof (zlen_nonneg q).
    replace (e.1 >=? bump) with false by lia. rewrite marks_free; [|done|].
    2:{ apply NoDup_app in Hnd as (_ & Hd & _). intros Hx. apply (Hd e.1); [by apply list_elem_of_In | cbn; left]. }
    cbn [mbind Res_bind]. unfold get. rewrite (vindex_some _ _ _ Hg). cbn [mbind Res_bind].
    assert (is_active (relink (qhead q NONE) pv e.2) = true) as -> by (by destruct (e.2)).
    assert (os_tick (relink (qhead q NONE) pv e.2) = t) as -> by (by destruct (e.2)).
    rewrite wrap_u32_id, Z.eqb_refl by done. cbn [negb orb]. rewrite marks_set by done. cbn [mbind Res_bind].
    assert (os_next (relink (qhead q NONE) pv e.2) = qhead q NONE) as -> by (by destruct (e.2)). rewrite order_snap_relink, wrap_u32_id by width_lia.
    change (handles (e :: q)) with (e.1 :: handles q) in *. rewrite (IH fuel e.1); [|done|intros; apply He; by right|done| |done|lia|lia|cbn in Hf; lia].
    + change (order_snap e.1 e.2) with (order_of e). cbn [map qlast]. rewrite <- !app_assoc. cbn [app]. do 4 f_equal. lia.
    + by rewrite <- app_assoc.
Qed.

Lemma capture_levels_spec os bump (A : ABook) ts : forall out hs,
  (forall t, In t ts -> seg (slots os) NONE (A t) NONE /\ in_u32 t /\
    forall e, In e (A t) -> is_active e.2 = true /\ os_tick e.2 = t /\ 0 <= e.1 < bump) ->
  bump <= zlen (slots os) -> zlen (slots os) <= NONE -> NoDup (hs ++ flat_map (fun t => handles (A t)) ts) ->
  cfold (capture_level os bump) (out, marks bump hs) (combine ts (map (fun t => level_of (A t)) ts)) =
    Ok (Valid (out ++ flat_map (fun t => map order_of (A t)) ts, marks bump (hs ++ flat_map (fun t => handles (A t)) ts))).
Proof.
  induction ts as [|t ts IH]; intros out hs Ht Hb Hc Hnd; [cbn; by rewrite !app_nil_r|]. cbn [map combine cfold flat_map] in *.
  destruct (Ht t (or_introl eq_refl)) as (Hseg & Hu & He). rewrite app_assoc in Hnd. pose proof Hnd as (Hnd1 & _ & _)%NoDup_app.
  pose proof Hnd1 as (_ & _ & Hndt)%NoDup_app. pose proof (seg_length _ _ _ _ Hseg Hndt) as Hfit. pose proof Hfit as Hfit'. unfold NONE in Hc.
  unfold capture_level. change (lv_head (level_of (A t))) with (qhead (A t) NONE).
  rewrite (capture_queue_spec os bump t (A t) _ NONE); try done; [|unfold NONE; lia|unfold zlen in *; width_lia|lia].
  cbn [checked_bind]. change (lv_order_count (level_of (A t))) with (zlen (A t)). change (lv_tail (level_of (A t))) with (qlast NONE (A t)).
  rewrite Z.add_0_l, !Z.eqb_refl. cbn [negb orb checked_bind]. rewrite IH; try done; [by rewrite <- !app_assoc|]. intros t' Ht'. apply Ht. by right.
Qed.

Section Users.
Context `{HashIter}.

Definition snap_user (r : UserRegistry) (entry : Z * Z) : UserSnapshotV1 :=
  let u := user_of r entry.1 in
  mkUserSnap entry.2 entry.1 (us_net_qty u) (us_order_count u) (SnapshotU64_new (us_zero_since_ns u)).

Lemma capture_users_spec r : reg_inv r -> capture_users r = Ok (merge_sort by_index (map (snap_user r) (iter_map (user_map r)))).
Proof.
  intros Hr. unfold capture_users.
  assert (Hl : forall l out, (forall e, In e l -> user_map r !! e.1 = Some e.2) ->
    rfold (fun out e => u ← user_snap (user_states r) e; Ok (out ++ [u])) out l = Ok (out ++ map (snap_user r) l)).
  { induction l as [|[uid i] l IH]; intros out Hin; [cbn; by rewrite app_nil_r|]. cbn [rfold map]. pose proof (Hin (uid, i) (or_introl eq_refl)) as Hm. cbn in Hm.
    destruct (ri_map _ Hr _ _ Hm) as (u & Hu & _). change (user_snap (user_states r) (uid, i)) with (u ← vindex (user_states r) i;
      Ok (mkUserSnap i uid (us_net_qty u) (us_order_count u) (SnapshotU64_new (us_zero_since_ns u)))).
    rewrite (vindex_some _ _ _ Hu). cbn [mbind Res_bind]. rewrite IH by (intros; apply Hin; by right). rewrite <- app_assoc. cbn [app]. do 3 f_equal. unfold snap_user. cbn [fst snd]. by rewrite (user_of_get r uid i u Hm Hu). }
  rewrite (Hl _ []); [done|]. intros e He%list_elem_of_In. rewrite iter_map_perm in He. destruct e. by apply elem_of_map_to_list.
Qed.

End Users.

Section Round.
Context `{HashIter}.
Variables (mid tk : Z).
Hypothesis Hcfg : cfg_ok mid tk.
Hypothesis Hspread : spread_ok mid tk.

(** The slots of the price map, and the orders queued in them. *)
Definition ticks : list Z := zrange 0 (total mid tk).
Definition queued (A : ABook) : list Z := flat_map (fun t => handles (A t)) ticks.

(** What a checkpoint of the book records. *)
Definition snap_of (A : ABook) (fl : list Z) (b : Orderbook) : BookSnapshotV1 :=
  mkSnap (SnapshotU64_new (sequence b))
    (mkConfigSnap (bc_symbol_id (config b)) (bc_tick_size (config b)) (bc_lot_size (config b)))
    mid (capacity (orders b)) (bump_next (orders b)) (flat_map (fun t => map order_of (A t)) ticks) fl
    (mkRegSnap (user_bump (users b)) (maintenance_cursor (users b))
      (merge_sort by_index (map (snap_user (users b)) (iter_map (user_map (users b))))) (user_free_list (users b))).

Lemma core_levels A fl b : core mid tk A fl b -> active_levels b = map (fun t => level_of (A t)) ticks.
Proof.
  intros Hc. pose proof (total_bounds mid tk Hcfg) as Htot. apply list_eq_vget; [unfold ticks; rewrite (c_len _ _ _ _ _ Hc), zlen_map, zrange_length; lia|].
  intros i Hi. rewrite (c_len _ _ _ _ _ Hc) in Hi. rewrite (core_level mid tk A fl b i Hc Hi), vget_map. unfold ticks. by rewrite vget_zrange.
Qed.

Lemma queued_in A fl b h : core mid tk A fl b -> In h (queued A) <-> exists t e, In e (A t) /\ e.1 = h.
Proof.
  intros Hc. unfold queued. rewrite in_flat_map. split.
  - intros (t & _ & (e & <- & He)%in_map_iff). eauto.
  - intros (t & e & He & <-). exists t. split; [apply in_zrange, (core_slot_range mid tk Hcfg A fl b t e Hc He) | by apply in_map].
Qed.

Lemma queued_live A fl b h : book_inv mid tk A fl b -> In h (queued A) <-> live (orders b) fl h.
Proof.
  intros Hi. rewrite (queued_in A fl b h (bk_core _ _ _ _ _ Hi)). split.
  - intros (t & e & He & <-). by apply (c_live _ _ _ _ _ (bk_core _ _ _ _ _ Hi) t).
  - intros (t & s & Hs)%(bk_queued _ _ _ _ _ Hi). by exists t, (h, s).
Qed.

Lemma queued_active A fl b h slot : book_inv mid tk A fl b -> vget (slots (orders b)) h = Some slot ->
  is_active slot = bool_decide (h ∈ queued A).
Proof.
  intros Hi Hg. pose proof (bk_core _ _ _ _ _ Hi) as Hc. destruct (decide (h ∈ queued A)) as [Hq|Hq].
  - rewrite bool_decide_true by done. apply list_elem_of_In, (queued_in A fl b h Hc) in Hq as (t & e & He & <-).
    destruct (links_get _ _ _ _ _ (c_links _ _ _ _ _ Hc) He) as (n & p & Hg'). rewrite Hg in Hg'. injection Hg' as ->.
    destruct (bk_order _ _ _ _ _ Hi t e He) as [Ha _]. by destruct (e.2).
  - rewrite bool_decide_false by done. apply (bk_dead _ _ _ _ _ Hi h slot Hg). intros Hl. apply Hq, list_elem_of_In. by apply (queued_live A fl b h Hi).
Qed.

Lemma capture_spec A fl b : book_inv mid tk A fl b -> state b = Normal -> capture b = Ok (Valid (snap_of A fl b)).
Proof.
  intros Hi Hst. pose proof (bk_core _ _ _ _ _ Hi) as Hc. pose proof (total_bounds mid tk Hcfg) as Htot. unfold NONE in Htot.
  pose proof (c_slab _ _ _ _ _ Hc) as Hsl. pose proof (c_links _ _ _ _ _ Hc) as Hlk. unfold capture.
  rewrite decide_False by (by rewrite Hst). rewrite (free_handles_spec _ _ Hsl). cbn [mbind Res_bind].
  rewrite marks_nil, (c_len _ _ _ _ _ Hc), (core_levels A fl b Hc). fold ticks. unfold len.
  rewrite (capture_levels_spec (orders b) _ A ticks [] []); [..|apply (all_handles_nodup _ _ _ _ Hlk), zrange_nodup]; [|intros t Ht|apply Hsl|apply Hsl].
  2:{ split; [apply Hlk|]. split; [apply in_zrange in Ht; width_lia|]. intros e He. destruct (bk_order _ _ _ _ _ Hi t e He).
      split; [done|]. split; [by apply (lk_tick _ _ _ Hlk)|]. by apply (c_live _ _ _ _ _ Hc t). }
  cbn [checked_bind app]. fold (queued A). rewrite cfold_unit.
  - cbn [checked_bind]. rewrite capture_users_spec by apply Hi. cbn [mbind Res_bind]. rewrite (c_map _ _ _ _ _ Hc). reflexivity.
  - intros h Hh%in_zrange. pose proof (si_bump _ _ Hsl) as Hb. destruct (vget_is_some (slots (orders b)) h ltac:(lia)) as [slot Hg].
    unfold check_slot, get. rewrite (vindex_some _ _ _ Hg). cbn [mbind Res_bind]. rewrite (vindex_some _ _ _ (marks_get _ _ h Hh)). cbn [mbind Res_bind].
    rewrite (queued_active A fl b h slot Hi Hg), eqb_reflx. done.
Qed.

End Round.
