(* ===== verification/SnapRestore.v ===== *)
(** * SnapRestore: a restored book, and what a checkpoint guarantees

    A book survives capture and restore ([snapshot_roundtrip]); a checkpoint
    that does not add up is refused with the message for the first thing wrong
    with it ([restore_refuses], [snap_refusal]). *)

From stdpp Require Import sorting.
From S2P Require Import Prelude Hash Types Slab Occupancy Compression Users Order Book Links BookInv Matching MatchInv.
From S2P Require Import FillQueue SlotMatch Engine Feasible Process Recenter Snapshot SnapInv.

(** ** What survives a checkpoint *)

Lemma SnapshotU64_value x : SnapshotU64_get (SnapshotU64_new x) = x mod 2 ^ 64.
Proof.
  unfold SnapshotU64_get, SnapshotU64_new. change (zrange 0 8) with [0; 1; 2; 3; 4; 5; 6; 7]. cbn [map fold_right].
  change 255 with (Z.ones 8). rewrite !Z.land_ones, !Z.shiftr_div_pow2 by lia. cbn [Z.mul Pos.mul].
  change (2 ^ 0) with 1. change (2 ^ 8) with 256. change (2 ^ 16) with 65536. change (2 ^ 24) with 16777216. change (2 ^ 64) with 18446744073709551616.
  change (2 ^ 32) with 4294967296. change (2 ^ 40) with 1099511627776. change (2 ^ 48) with 281474976710656. change (2 ^ 56) with 72057594037927936.
  Z.to_euclidean_division_equations. lia.
Qed.

Lemma SnapshotU64_stable x : SnapshotU64_new (SnapshotU64_get (SnapshotU64_new x)) = SnapshotU64_new x.
Proof.
  rewrite SnapshotU64_value. unfold SnapshotU64_new. apply map_ext_in. intros i Hi%in_zrange. change 255 with (Z.ones 8).
  apply Z.bits_inj'. intros k Hk. rewrite !Z.land_spec, !Z.shiftr_spec by lia. destruct (Z.testbit (Z.ones 8) k) eqn:E; [|by rewrite !andb_false_r].
  rewrite !andb_true_r. apply Z.testbit_true in E; [|done]. assert (k < 8).
  { destruct (Z_lt_ge_dec k 8); [done|]. rewrite Z.ones_equiv in E. rewrite Z.div_small in E; [done|]. split; [done|]. apply Z.lt_le_trans with (2 ^ 8); [done|]. apply Z.pow_le_mono_r; lia. }
  by rewrite Z.mod_pow2_bits_low by lia.
Qed.

(** The entry a recorded order is restored to. *)
Definition thaw (t : Z) (e : Entry) : Entry := (e.1, os_with_tick t (restored_slot (order_of e))).

Lemma thaw_order t e : order_of (thaw t e) = order_of e.
Proof.
  unfold order_of, thaw, order_snap, restored_slot. cbn. rewrite !SnapshotU64_stable. f_equal.
  unfold is_reduce_only at 1. cbn. by destruct (is_reduce_only e.2).
Qed.

Lemma thaw_active t e : is_active (thaw t e).2 = true.
Proof. unfold is_active, thaw, restored_slot. cbn. by destruct (is_reduce_only e.2). Qed.

Lemma thaw_handles t q : handles (map (thaw t) q) = handles q.
Proof. unfold handles. by rewrite map_map. Qed.

(** A recorded order, restored but not queued yet. *)
Definition pending (os : Slab OrderSlot) (e : Entry) : Prop := vget (slots os) e.1 = Some (restored_slot (order_of e)).

Lemma restore_orders_spec bump es : forall os hs,
  (forall e, In e es -> 0 <= e.1 < bump /\ (os_side e.2 = side_u8 Buy \/ os_side e.2 = side_u8 Sell)) ->
  bump <= zlen (slots os) -> NoDup (hs ++ handles es) ->
  exists os', cfold (restore_order bump) (os, marks bump hs) (map order_of es) = Ok (Valid (os', marks bump (hs ++ handles es))) /\
    frame os os' (fun x => In x (handles es)) /\ forall e, In e es -> pending os' e.
Proof.
  induction es as [|e es IH]; intros os hs He Hb Hnd; [exists os; cbn; rewrite app_nil_r; split_and!; [done | apply frame_refl | done]|].
  destruct (He e (or_introl eq_refl)) as [Hr Hs]. change (handles (e :: es)) with (e.1 :: handles es) in *. pose proof Hnd as (_ & Hd & Hnde)%NoDup_app.
  cbn [map cfold]. unfold restore_order at 1. change (ko_handle (order_of e)) with e.1. change (ko_side (order_of e)) with (os_side e.2).
  replace (e.1 >=? bump) with false by lia. rewrite marks_free; [|done|intros Hx; apply (Hd e.1); [by apply list_elem_of_In | left]]. cbn [mbind Res_bind].
  replace (negb (os_side e.2 =? side_u8 Buy) && negb (os_side e.2 =? side_u8 Sell)) with false by (destruct Hs as [-> | ->]; done).
  rewrite marks_set by done. cbn [mbind Res_bind]. destruct (vget_is_some (slots os) e.1 ltac:(lia)) as [s0 Hs0].
  destruct (update_frame os e.1 (fun _ => restored_slot (order_of e)) s0 Hs0) as (os1 & E1 & G1 & F1). rewrite E1. cbn [mbind Res_bind checked_bind].
  destruct (IH os1 (hs ++ [e.1])) as (os2 & E2 & F2 & P2); [intros; apply He; by right | by rewrite (fr_len _ _ _ F1) | by rewrite <- app_assoc|].
  rewrite E2. exists os2. rewrite <- app_assoc. split; [done|]. split.
  - eapply frame_trans; eapply frame_weaken; try eassumption; cbn; intros x; [by left | by right].
  - intros x [<-|Hx]; [|by apply P2]. unfold pending. rewrite (fr_same _ _ _ F2); [done|]. intros Hin. apply NoDup_cons in Hnde as [Hn _]. by apply Hn, list_elem_of_In.
Qed.

(** Threading the free list changes nothing but the links of free slots. *)
Lemma restore_fold_keeps {T} `{SlabItem T} (P : T -> Prop) hs : (forall t n, P t -> P (si_set_next t n)) -> forall s s' : Slab T,
  rfold restore_step s hs = Ok s' -> forall x, (~ In x hs -> vget (slots s') x = vget (slots s) x) /\
    (forall t, vget (slots s) x = Some t -> P t -> exists t', vget (slots s') x = Some t' /\ P t').
Proof.
  intros HP. induction hs as [|h hs IH]; intros s s' E x; [injection E as <-; split; eauto|]. cbn [rfold] in E. apply bind_ok in E as (s1 & E1 & E).
  unfold restore_step, vmodify in E1. apply bind_ok in E1 as (l' & E1 & Es). apply bind_ok in E1 as (t0 & E0 & El). injection El as <-. injection Es as <-.
  apply vindex_ok in E0. pose proof (vget_some_range _ _ _ E0) as Hr. destruct (IH _ _ E x) as [I1 I2]. cbn [slots] in I1, I2.
  split; [intros Hx; cbn [In] in Hx; rewrite I1, vget_vput_ne by tauto; done|]. intros t Ht Pt. destruct (decide (x = h)) as [->|Hx].
  - rewrite E0 in Ht. injection Ht as ->. eapply I2; [by apply vget_vput_eq | by apply HP].
  - apply (I2 t); [by rewrite vget_vput_ne by congruence | done].
Qed.

(** ** Restoring the users *)

Definition thaw_user (u : UserSnapshotV1) : UserState :=
  mkUser (ku_user_id u) (ku_net_qty u) (ku_order_count u) (SnapshotU64_get (ku_zero_since_ns u)).

Lemma restore_users_fold bump us : forall r hs,
  (forall u, In u us -> 0 <= ku_index u < bump /\ user_map r !! ku_user_id u = None) -> zlen (user_states r) = bump ->
  NoDup (hs ++ map ku_index us) -> NoDup (map ku_user_id us) ->
  exists r', cfold (restore_user bump) (r, marks bump hs) us = Ok (Valid (r', marks bump (hs ++ map ku_index us))) /\ zlen (user_states r') = bump /\
    (forall u, In u us -> user_map r' !! ku_user_id u = Some (ku_index u) /\ vget (user_states r') (ku_index u) = Some (thaw_user u)) /\
    (forall uid, ~ In uid (map ku_user_id us) -> user_map r' !! uid = user_map r !! uid) /\
    (forall i, ~ In i (map ku_index us) -> vget (user_states r') i = vget (user_states r) i).
Proof.
  induction us as [|u us IH]; intros r hs Hu Hl Hnd Hid; [exists r; cbn; rewrite app_nil_r; split_and!; done|].
  destruct (Hu u (or_introl eq_refl)) as [Hr Hn]. cbn [map cfold] in *. pose proof Hnd as (_ & Hd & Hndu)%NoDup_app. apply NoDup_cons in Hndu as [Hiu Hndu].
  apply NoDup_cons in Hid as [Hidu Hid]. rewrite list_elem_of_In in Hiu, Hidu.
  unfold restore_user at 1. replace (ku_index u >=? bump) with false by lia.
  rewrite marks_free; [|done|intros Hx; apply (Hd (ku_index u)); [by apply list_elem_of_In | left]]. cbn [mbind Res_bind].
  assert (contains r (ku_user_id u) = false) as -> by (unfold contains; apply bool_decide_false; rewrite Hn; by intros [? ?]).
  rewrite marks_set by done. cbn [mbind Res_bind]. rewrite vset_ok by lia. cbn [mbind Res_bind checked_bind]. fold (thaw_user u).
  match goal with |- context [cfold _ (?x, _) us] => set (r1 := x) end.
  destruct (IH r1 (hs ++ [ku_index u])) as (r' & E & Hl' & H1 & H2 & H3); [|by cbn; rewrite zlen_vput | by rewrite <- app_assoc | done|].
  - intros v Hv. destruct (Hu v (or_intror Hv)) as [Hrv Hnv]. split; [done|]. cbn. rewrite lookup_insert_ne; [done|]. intros Ev. apply Hidu. rewrite Ev. by apply in_map.
  - exists r'. rewrite E, <- app_assoc. split; [done|]. split; [done|]. split; [|split].
    + intros v [<-|Hv]; [|by apply H1]. rewrite H2, H3 by done. cbn. rewrite lookup_insert_eq, vget_vput_eq by lia. done.
    + intros uid Hx. cbn [In] in Hx. rewrite H2 by tauto. cbn. rewrite lookup_insert_ne; [done|]. tauto.
    + intros j Hx. cbn [In] in Hx. rewrite H3 by tauto. cbn. rewrite vget_vput_ne; [done|]. tauto.
Qed.

Section RestoreUsers.
Context `{HashIter}.
Variable r : UserRegistry.
Hypothesis Hreg : reg_inv r.

Definition user_list : list UserSnapshotV1 := merge_sort by_index (map (snap_user r) (iter_map (user_map r))).

Lemma user_list_perm : user_list ≡ₚ map (snap_user r) (map_to_list (user_map r)).
Proof. unfold user_list. rewrite merge_sort_Permutation. apply Permutation_map, iter_map_perm. Qed.

Lemma user_list_in u : In u user_list <-> exists uid i, user_map r !! uid = Some i /\ u = snap_user r (uid, i).
Proof.
  rewrite <- list_elem_of_In, user_list_perm, list_elem_of_In, in_map_iff. split.
  - intros ([uid i] & <- & Hin%list_elem_of_In). exists uid, i. split; [by apply elem_of_map_to_list | done].
  - intros (uid & i & Hm & ->). exists (uid, i). split; [done|]. by apply list_elem_of_In, elem_of_map_to_list.
Qed.

Lemma user_list_ids : NoDup (map ku_user_id user_list).
Proof. rewrite user_list_perm, map_map. apply (NoDup_fst_map_to_list (user_map r)). Qed.

Lemma user_list_indexes : NoDup (map ku_index user_list).
Proof.
  rewrite user_list_perm, map_map. cbn. assert (Hin : forall e, In e (map_to_list (user_map r)) -> user_map r !! e.1 = Some e.2)
    by (intros [k x] Hx%list_elem_of_In; by apply elem_of_map_to_list).
  pose proof (NoDup_fst_map_to_list (user_map r)) as Hnd. induction (map_to_list (user_map r)) as [|[uid i] l IH]; [constructor|]. cbn in *.
  apply NoDup_cons in Hnd as [Hn Hnd]. apply NoDup_cons. split; [|apply IH; [intros; apply Hin; by right | done]].
  rewrite list_elem_of_In. intros ([uid' i'] & E & Hx)%in_map_iff. cbn in E. subst i'. apply Hn.
  rewrite (map_inj r uid uid' i Hreg (Hin _ (or_introl eq_refl)) (Hin _ (or_intror Hx))). apply list_elem_of_In. exact (in_map fst _ _ Hx).
Qed.

Lemma restore_users_spec :
  exists r', restore_users (mkRegSnap (user_bump r) (maintenance_cursor r) user_list (user_free_list r)) = Ok (Valid r') /\ reg_inv r' /\
    user_map r' = user_map r /\ user_bump r' = user_bump r /\ maintenance_cursor r' = maintenance_cursor r /\ user_free_list r' = user_free_list r /\
    (forall uid, net_of r' uid = net_of r uid /\ orders_of r' uid = orders_of r uid /\
      us_zero_since_ns (user_of r' uid) = us_zero_since_ns (user_of r uid) mod 2 ^ 64).
Proof.
  assert (Hbump : 0 <= user_bump r) by (rewrite <- (ri_len _ Hreg); apply zlen_nonneg).
  assert (Hrange : forall uid i, user_map r !! uid = Some i -> 0 <= i < user_bump r).
  { intros uid i Hm. destruct (ri_map _ Hreg _ _ Hm) as (u & Hu & _). rewrite <- (ri_len _ Hreg). by apply vget_some_range in Hu. }
  unfold restore_users. cbn [kr_bump kr_users kr_free_indices kr_maintenance_cursor]. rewrite marks_nil. set (r0 := mkReg _ ∅ [] 0 0).
  destruct (restore_users_fold (user_bump r) user_list r0 []) as (r1 & E1 & Hl1 & H1 & H2 & H3).
  - intros u (uid & i & Hm & ->)%user_list_in. split; [by apply (Hrange uid) | done].
  - cbn. by apply zlen_replicate.
  - apply user_list_indexes.
  - apply user_list_ids.
  - rewrite E1. cbn [checked_bind app]. set (hs := map ku_index user_list) in *.
    assert (Hhs : forall i, In i hs <-> exists uid, user_map r !! uid = Some i).
    { intros i. unfold hs. rewrite in_map_iff. split; [intros (u & <- & (uid & j & Hm & ->)%user_list_in); by exists uid|].
      intros [uid Hm]. exists (snap_user r (uid, i)). split; [done|]. apply user_list_in. eauto. }
    assert (Hfree : forall i, In i (user_free_list r) -> 0 <= i < user_bump r /\ ~ In i hs).
    { intros i Hi. split; [rewrite <- (ri_len _ Hreg); exact (vget_some_range _ _ _ (ri_free _ Hreg i Hi))|].
      intros [uid Hm]%Hhs. by apply (ri_sep _ Hreg uid i Hm). }
    rewrite (cfold_free InvalidUserFreeList (user_bump r) hs (user_free_list r) [] Hfree (ri_nodup _ Hreg)). cbn [checked_bind app].
    rewrite marks_untracked by (intros i Hi; destruct (ri_cover _ Hreg i Hi) as [|[uid Hm]]; [by right | left; apply Hhs; eauto]).
    assert (Hmap : user_map r1 = user_map r).
    { apply map_eq. intros uid. destruct (user_map r !! uid) as [i|] eqn:Hm.
      - destruct (H1 (snap_user r (uid, i))) as [Hx _]; [apply user_list_in; eauto | done].
      - rewrite H2; [done|]. intros (u & Eu & (uid' & i & Hm' & ->)%user_list_in)%in_map_iff. cbn in Eu. congruence. }
    assert (Hst : forall uid i, user_map r !! uid = Some i -> vget (user_states r1) i = Some (thaw_user (snap_user r (uid, i)))).
    { intros uid i Hm. destruct (H1 (snap_user r (uid, i))) as [_ Hx]; [apply user_list_in; eauto | done]. }
    eexists. split; [reflexivity|]. split; [|split_and!; try done].
    + split; cbn; [done| |apply Hreg| | |]; rewrite ?Hmap.
      * intros uid i Hm. eexists. split; [by apply Hst|]. done.
      * intros i Hi. destruct (Hfree i Hi) as [Hri Hni]. rewrite H3 by done. cbn. by apply vget_replicate.
      * intros uid i Hm. by apply (ri_sep _ Hreg uid).
      * intros i Hi. by apply Hreg.
    + intros uid. unfold net_of, orders_of, user_of. cbn. rewrite Hmap. destruct (user_map r !! uid) as [i|] eqn:Hm; [|done].
      rewrite (Hst uid i Hm). destruct (ri_map _ Hreg _ _ Hm) as (u & Hu & _). rewrite Hu. cbn. unfold user_of. rewrite Hm, Hu. by rewrite SnapshotU64_value.
Qed.

End RestoreUsers.

(** ** Queueing the restored orders *)

(** A level before [rebuild_occupancy] counts its sides. *)
Definition bare_level (q : list Entry) : PriceLevel := lv_with_asks 0 (lv_with_bids 0 (level_of q)).

Lemma link_tail_bare os q h os' l :
  link_tail os (level_of q) h = Ok (os', l) -> link_tail os (bare_level q) h = Ok (os', lv_with_asks 0 (lv_with_bids 0 l)).
Proof.
  unfold link_tail. change (lv_order_count (bare_level q)) with (lv_order_count (level_of q)). change (lv_tail (bare_level q)) with (lv_tail (level_of q)).
  destruct (_ =? 0); intros E; [by injection E as <- <-|]. apply bind_ok in E as (os1 & -> & E). cbn [mbind Res_bind].
  apply bind_ok in E as (os2 & -> & E). cbn [mbind Res_bind]. by injection E as <- <-.
Qed.

Record bare (os : Slab OrderSlot) (lv : list PriceLevel) (B : ABook) : Prop := {
  br_level : forall t, 0 <= t < zlen lv -> vget lv t = Some (bare_level (B t));
  br_seg : forall t, seg (slots os) NONE (B t) NONE;
  br_nodup : forall t, NoDup (handles (B t));
  br_inj : forall t t' h, In h (handles (B t)) -> In h (handles (B t')) -> t = t';
}.

Lemma bare_ext os lv B B' : (forall t, B' t = B t) -> bare os lv B -> bare os lv B'.
Proof. intros E [H1 H2 H3 H4]. split; [intros t; rewrite E; auto .. | intros t t' h; rewrite !E; apply H4]. Qed.

Lemma zsum_erem_thaw t q : zsum erem (map (thaw t) q) = zsum erem q.
Proof. rewrite zsum_map. by apply zsum_ext. Qed.

Section Restore.
Context `{HashIter}.
Variables (mid tk : Z).
Hypothesis Hcfg : cfg_ok mid tk.
Hypothesis Hspread : spread_ok mid tk.

Lemma relink_order_spec b B t e :
  compression b = the_map mid tk -> zlen (active_levels b) = total mid tk -> bare (orders b) (active_levels b) B -> pending (orders b) e ->
  (forall t', ~ In e.1 (handles (B t'))) -> 0 < os_price e.2 <= I64_MAX -> idx mid tk (os_price e.2) = t ->
  (forall x, In x (B t) -> 0 <= erem x) -> 0 <= erem e -> zsum erem (B t) + erem e <= I64_MAX -> zlen (B t) < U32_MAX ->
  exists os lv, relink_order b (order_of e) = Ok (set_levels_orders b lv os) /\ bare os lv (upd B t (B t ++ [thaw t e])) /\
    zlen lv = zlen (active_levels b) /\ frame (orders b) os (fun x => In x (handles (B t ++ [e]))).
Proof.
  intros Hm Hlen Hb Hp Hn Hpx Ht Hq0 He0 Hsum Hcnt. pose proof (idx_range mid tk Hcfg (os_price e.2) ltac:(lia)) as Hrt. rewrite Ht in Hrt.
  unfold relink_order. rewrite Hm. change (ko_price (order_of e)) with (os_price e.2). rewrite (price_to_index_eq mid tk Hcfg) by lia. rewrite Ht.
  cbn [mbind Res_bind]. change (ko_handle (order_of e)) with e.1. change (ko_remaining_qty (order_of e)) with (erem e).
  destruct (update_frame (orders b) e.1 (os_with_tick t) _ Hp) as (os1 & E1 & G1 & F1). rewrite E1. cbn [mbind Res_bind].
  rewrite (vindex_some _ _ _ (br_level _ _ _ Hb t ltac:(lia))). cbn [mbind Res_bind].
  assert (S1 : forall t', seg (slots os1) NONE (B t') NONE).
  { intros t'. apply (seg_ext (slots (orders b))); [|apply Hb]. intros h Hh. apply (fr_same _ _ _ F1). intros ->. by apply (Hn t'). }
  destruct (link_tail_spec os1 (B t) (thaw t e)) as (os2 & E2 & S2 & F2); [apply S1 | apply Hb | apply Hn | exact G1 |].
  change ((thaw t e).1) with e.1 in E2. rewrite (link_tail_bare _ _ _ _ _ E2). cbn [mbind Res_bind].
  assert (Hh : handles (B t ++ [thaw t e]) = handles (B t ++ [e])) by (unfold handles; by rewrite !map_app). rewrite Hh in F2.
  rewrite vset_ok by lia. cbn [mbind Res_bind]. eexists _, _. split; [reflexivity|].
  assert (F : frame (orders b) os2 (fun x => In x (handles (B t ++ [e])))).
  { eapply frame_trans; [|exact F2]. eapply frame_weaken; [exact F1|]. cbn. intros x ->. unfold handles. rewrite map_app, in_app_iff. right. by left. }
  split; [|split; [by rewrite zlen_vput | exact F]]. pose proof (zsum_erem_nonneg (B t) Hq0) as Hz. pose proof (zlen_nonneg (B t)). split.
  - intros t' Hr. rewrite zlen_vput in Hr. destruct (decide (t' = t)) as [->|Hne]; [|rewrite vget_vput_ne, upd_other by done; by apply Hb].
    rewrite vget_vput_eq, upd_same by lia. f_equal. unfold bare_level, level_of. cbn. rewrite zsum_app. cbn. change (erem (thaw t e)) with (erem e).
    rewrite sat_i64_id by width_lia. rewrite wrap_u32_id by width_lia. rewrite qlast_app. unfold zlen. rewrite length_app. unfold lv_with_total, lv_with_count, lv_with_asks, lv_with_bids, lv_with_tail, lv_with_head, erem. cbn. f_equal; lia.
  - intros t'. destruct (decide (t' = t)) as [->|Hne]; [by rewrite upd_same|]. rewrite upd_other by done. apply (seg_ext (slots os1)); [|apply S1].
    intros h Hh'. apply (fr_same _ _ _ F2). unfold handles at 1. rewrite map_app, in_app_iff. intros [Hx|[<-|[]]]; [by apply Hne, (br_inj _ _ _ Hb t' t h) | by apply (Hn t')].
  - intros t'. destruct (decide (t' = t)) as [->|Hne]; [rewrite upd_same; apply nodup_snoc; [apply Hb | apply Hn] | rewrite upd_other by done; apply Hb].
  - assert (Hin : forall x h, In h (handles (upd B t (B t ++ [thaw t e]) x)) -> In h (handles (B x)) \/ h = e.1 /\ x = t).
    { intros x h. destruct (decide (x = t)) as [->|Hne]; [|rewrite upd_other by done; by left]. rewrite upd_same. unfold handles. rewrite map_app, in_app_iff.
      intros [|[<-|[]]]; [by left | by right]. }
    intros x y h [Hx|[-> ->]]%Hin [Hy|[? ->]]%Hin; [by apply (br_inj _ _ _ Hb x y h) | subst; by destruct (Hn x) | by destruct (Hn y) | done].
Qed.

Section Source.
Variables (A : ABook) (fl : list Z) (b0 : Orderbook).
Hypothesis Hc0 : core mid tk A fl b0.

Lemma source_handles t t' h : In h (handles (A t)) -> In h (handles (A t')) -> t = t'.
Proof.
  intros ([h1 s1] & <- & H1)%in_map_iff ([h2 s2] & E & H2)%in_map_iff. cbn in E. subst h2.
  by destruct (links_inj _ _ _ _ _ _ _ _ (c_links _ _ _ _ _ Hc0) H1 H2).
Qed.

Lemma relink_queue_spec t q : forall pre b B,
  A t = pre ++ q -> B t = map (thaw t) pre -> compression b = the_map mid tk -> zlen (active_levels b) = total mid tk ->
  bare (orders b) (active_levels b) B -> (forall e, In e q -> pending (orders b) e /\ forall t', ~ In e.1 (handles (B t'))) ->
  exists os lv, rfold relink_order b (map order_of q) = Ok (set_levels_orders b lv os) /\ bare os lv (upd B t (map (thaw t) (A t))) /\
    zlen lv = total mid tk /\ frame (orders b) os (fun x => In x (handles (A t))).
Proof.
  pose proof (c_links _ _ _ _ _ Hc0) as Hlk. induction q as [|e q IH]; intros pre b B Eq EB Hm Hl Hb Hq.
  - exists (orders b), (active_levels b). cbn [map rfold]. split; [by destruct b|]. split; [|split; [done | apply frame_refl]].
    apply (bare_ext _ _ B); [|done]. intros x. destruct (decide (x = t)) as [->|Hx]; [by rewrite upd_same, EB, Eq, app_nil_r | by rewrite upd_other].
  - assert (Hin : In e (A t)) by (rewrite Eq, in_app_iff; right; by left). destruct (c_px _ _ _ _ _ Hc0 t e Hin) as (Hpx & _ & Hidx).
    destruct (Hq e (or_introl eq_refl)) as [Hp Hn]. cbn [map rfold]. pose proof (core_count mid tk A fl b0 t Hc0) as Hcnt. unfold NONE in Hcnt.
    pose proof (lk_sum _ _ _ Hlk t) as Hsum. pose proof (lk_qty _ _ _ Hlk t) as Hqty. rewrite Eq in Hcnt, Hsum, Hqty. rewrite zsum_app, zsum_cons in Hsum.
    assert (Hq0 : 0 <= zsum erem q) by (apply zsum_erem_nonneg; intros x Hx; apply Hqty; rewrite in_app_iff; right; by right).
    assert (Hlen : zlen (pre ++ e :: q) = zlen pre + 1 + zlen q) by (unfold zlen; rewrite length_app; cbn [length]; lia). pose proof (zlen_nonneg q).
    destruct (relink_order_spec b B t e Hm Hl Hb Hp Hn Hpx Hidx) as (os & lv & E & Hb' & Hl' & F); rewrite ?EB, ?zsum_erem_thaw, ?zlen_map.
    + intros x (y & <- & Hy)%in_map_iff. change (0 <= erem y). apply Hqty. rewrite in_app_iff. by left.
    + apply Hqty. rewrite in_app_iff. right. by left.
    + lia.
    + width_lia.
    + rewrite E. cbn [mbind Res_bind]. rewrite EB in Hb', F.
      pose proof (lk_nodup _ _ _ Hlk t) as Hnd. rewrite Eq in Hnd.
      destruct (IH (pre ++ [e]) (set_levels_orders b lv os) (upd B t (map (thaw t) pre ++ [thaw t e]))) as (os2 & lv2 & E2 & Hb2 & Hl2 & F2); try done.
      * by rewrite <- app_assoc.
      * by rewrite upd_same, map_app.
      * cbn. lia.
      * intros x Hx. destruct (Hq x (or_intror Hx)) as [Hpx' Hn']. unfold handles in Hnd. rewrite map_app in Hnd. cbn in Hnd. apply NoDup_app in Hnd as (Hnd1 & Hnd2 & Hnd3).
        apply NoDup_cons in Hnd3 as [Hne Hnd3]. assert (Hxe : x.1 <> e.1) by (intros Ex; apply Hne; rewrite <- Ex; by apply list_elem_of_In, in_map).
        split; [unfold pending in *; cbn; rewrite (fr_same _ _ _ F); [done|]|].
        -- unfold handles. rewrite map_app, map_map, in_app_iff. cbn. intros [Hy|[Hy|[]]]; [|by apply Hxe].
           apply (Hnd2 x.1); [by apply list_elem_of_In | right; by apply list_elem_of_In, in_map].
        -- intros t'. destruct (decide (t' = t)) as [->|Ht']; [|rewrite upd_other by done; apply Hn']. rewrite upd_same. unfold handles. rewrite map_app, in_app_iff.
           intros [Hy|[Hy|[]]]; [|by apply Hxe]. apply (Hn' t). by rewrite EB.
      * exists os2, lv2. split; [exact E2|]. split; [|split; [done|]].
        -- eapply bare_ext; [|exact Hb2]. intros x. destruct (decide (x = t)) as [->|Hx]; [by rewrite !upd_same | by rewrite !upd_other].
        -- eapply frame_trans; [|exact F2]. eapply frame_weaken; [exact F|]. cbn. intros x. rewrite Eq. unfold handles. rewrite !map_app, map_map, !in_app_iff. cbn. tauto.
Qed.

Lemma relink_all_spec ts : forall b B,
  NoDup ts -> compression b = the_map mid tk -> zlen (active_levels b) = total mid tk -> bare (orders b) (active_levels b) B ->
  (forall t, In t ts -> B t = [] /\ forall e, In e (A t) -> pending (orders b) e /\ forall t', ~ In e.1 (handles (B t'))) ->
  exists os lv, rfold relink_order b (flat_map (fun t => map order_of (A t)) ts) = Ok (set_levels_orders b lv os) /\
    bare os lv (fun x => if bool_decide (x ∈ ts) then map (thaw x) (A x) else B x) /\ zlen lv = total mid tk /\
    frame (orders b) os (fun x => In x (flat_map (fun t => handles (A t)) ts)).
Proof.
  induction ts as [|t ts IH]; intros b B Hnd Hm Hl Hb Ht.
  - exists (orders b), (active_levels b). split; [by destruct b|]. split; [|split; [done | apply frame_refl]]. by apply (bare_ext _ _ B).
  - apply NoDup_cons in Hnd as [Hnt Hnd]. destruct (Ht t (or_introl eq_refl)) as [Bt Het]. cbn [flat_map]. rewrite rfold_app.
    destruct (relink_queue_spec t (A t) [] b B eq_refl Bt Hm Hl Hb Het) as (os & lv & E & Hb' & Hl' & F). rewrite E. cbn [mbind Res_bind].
    destruct (IH (set_levels_orders b lv os) (upd B t (map (thaw t) (A t)))) as (os2 & lv2 & E2 & Hb2 & Hl2 & F2); try done.
    + intros t' Ht'. assert (t' <> t) by (intros ->; by apply Hnt, list_elem_of_In). destruct (Ht t' (or_intror Ht')) as [Bt' He'].
      split; [by rewrite upd_other|]. intros e He. destruct (He' e He) as [Hp Hn]. split.
      * unfold pending in *. cbn. rewrite (fr_same _ _ _ F); [done|]. intros Hin. apply H0. apply (source_handles t' t e.1); [by apply in_map | done].
      * intros x. destruct (decide (x = t)) as [->|Hx]; [|rewrite upd_other by done; apply Hn]. rewrite upd_same, thaw_handles. intros Hin.
        apply H0. apply (source_handles t' t e.1); [by apply in_map | done].
    + exists os2, lv2. split; [exact E2|]. split; [|split; [done|]].
      * eapply bare_ext; [|exact Hb2]. intros x. cbn. destruct (decide (x = t)) as [->|Hx].
        -- rewrite bool_decide_true by (by left). rewrite bool_decide_false by done. by rewrite upd_same.
        -- rewrite upd_other by done. by rewrite (bool_decide_ext (x ∈ t :: ts) (x ∈ ts)) by set_solver.
      * eapply frame_trans; (eapply frame_weaken; [eassumption|]); cbn; intros x; rewrite in_app_iff; tauto.
Qed.

End Source.

(** ** Counting the sides *)

Lemma count_fold q : forall a c,
  (forall e, In e q -> os_side e.2 = side_u8 Buy \/ os_side e.2 = side_u8 Sell) -> 0 <= a -> 0 <= c -> a + c + zlen q <= U32_MAX ->
  qfold count_step q (a, c) = (a + zsum (on_side Buy) q, c + zsum (on_side Sell) q).
Proof.
  induction q as [|e q IH]; intros a c Hs Ha Hc Hl; [cbn; f_equal; lia|]. pose proof (zlen_nonneg q).
  assert (Hlen : zlen (e :: q) = zlen q + 1) by (unfold zlen; cbn [length]; lia). unfold qfold in *. cbn [fold_left]. rewrite !zsum_cons.
  assert (Hsq : forall x, In x q -> os_side x.2 = side_u8 Buy \/ os_side x.2 = side_u8 Sell) by (intros; apply Hs; by right).
  unfold count_step at 2. destruct (side_cases e.2 (Hs e (or_introl eq_refl))) as [(E & E1 & E2)|(E & E1 & E2)]; rewrite E; cbn [fst snd];
    rewrite wrap_u32_id by width_lia; rewrite IH by (done || lia); unfold on_side at 3 5; rewrite E1, E2; f_equal; lia.
Qed.

Lemma linkless_count : linkless count_step.
Proof. intros acc n p s. by destruct s. Qed.

Definition occ_of (sd : Side) (b : Orderbook) : Occupancy := match sd with Buy => bid_occ b | Sell => ask_occ b end.

(** The book while [rebuild_occupancy] runs: the first [k] levels are done. *)
Record half (k : Z) (B : ABook) (b : Orderbook) : Prop := {
  hf_level : forall t, 0 <= t < total mid tk -> vget (active_levels b) t = Some (if t <? k then level_of (B t) else bare_level (B t));
  hf_len : zlen (active_levels b) = total mid tk;
  hf_occ : forall sd, occ_inv (occ_of sd b) /\ occ_n (occ_of sd b) = total mid tk /\
    forall t, mem (occ_of sd b) t = true <-> t < k /\ 0 < zsum (on_side sd) (B t);
}.

(** What [rebuild_occupancy] writes. *)
Definition reoccupied (b b' : Orderbook) : Prop :=
  exists lv bo ao, b' = set_levels (set_occ b bo ao) lv.

Lemma reoccupied_trans b1 b2 b3 : reoccupied b1 b2 -> reoccupied b2 b3 -> reoccupied b1 b3.
Proof. intros (lv & bo & ao & ->) (lv' & bo' & ao' & ->). exists lv', bo', ao'. done. Qed.

Lemma set_if_spec (o : Occupancy) (q : list Entry) sd k :
  occ_inv o -> 0 <= k < occ_n o -> occ_n o <= U32_MAX ->
  exists o', (if zsum (on_side sd) q >? 0 then Occupancy.set o (wrap_u32 k) else Ok o) = Ok o' /\ occ_inv o' /\ occ_n o' = occ_n o /\
    forall t, mem o' t = true <-> mem o t = true \/ t = k /\ 0 < zsum (on_side sd) q.
Proof.
  intros Ho Hk Hn. destruct (zsum (on_side sd) q >? 0) eqn:E.
  - rewrite wrap_u32_id by width_lia. destruct (set_spec o k Ho Hk) as (o' & E' & Ho' & Hn' & Hm). exists o'. split_and!; try done.
    intros t. rewrite Hm, orb_true_iff, Z.eqb_eq. split; intros [|]; auto; [right; split; [done | lia] | right; tauto].
  - exists o. split_and!; try done. intros t. split; [by left|]. intros [|[_ ?]]; [done | lia].
Qed.

Lemma rebuild_level_spec k B b :
  half k B b -> 0 <= k < total mid tk -> seg (slots (orders b)) NONE (B k) NONE -> NoDup (handles (B k)) ->
  zlen (slots (orders b)) <= NONE -> (forall e, In e (B k) -> os_side e.2 = side_u8 Buy \/ os_side e.2 = side_u8 Sell) ->
  exists b', rebuild_level b k = Ok b' /\ half (k + 1) B b' /\ reoccupied b b'.
Proof.
  intros Hh Hk Hseg Hnd Hcap Hsd. pose proof (total_bounds mid tk Hcfg) as Htot. unfold NONE in Htot, Hcap. pose proof (seg_length _ _ _ _ Hseg Hnd) as Hfit.
  unfold rebuild_level. rewrite (vindex_some _ _ _ (hf_level _ _ _ Hh k Hk)). replace (k <? k) with false by lia. cbn [mbind Res_bind].
  change (lv_head (bare_level (B k))) with (qhead (B k) NONE). unfold walk_level.
  rewrite (walk_spec (orders b) count_step (B k) NONE _ _ linkless_count Hseg); [|intros h Hx; pose proof (seg_range _ _ _ _ _ Hseg Hx); unfold NONE; lia | lia].
  rewrite count_fold by (done || unfold zlen in *; width_lia). cbn [mbind Res_bind]. rewrite !Z.add_0_l. rewrite vset_ok by (rewrite (hf_len _ _ _ Hh); lia). cbn [mbind Res_bind].
  destruct (hf_occ _ _ _ Hh Buy) as (Hb1 & Hb2 & Hb3). destruct (hf_occ _ _ _ Hh Sell) as (Ha1 & Ha2 & Ha3). cbn [occ_of] in *.
  destruct (set_if_spec (bid_occ b) (B k) Buy k) as (bo & Eb & Hb1' & Hb2' & Hb3'); [done | by rewrite Hb2 | rewrite Hb2; width_lia|].
  destruct (set_if_spec (ask_occ b) (B k) Sell k) as (ao & Ea & Ha1' & Ha2' & Ha3'); [done | by rewrite Ha2 | rewrite Ha2; width_lia|].
  set (lv := vput (active_levels b) k _). exists (set_levels (set_occ b bo ao) lv).
  assert (E1 : (if zsum (on_side Buy) (B k) >? 0 then o ← Occupancy.set (bid_occ (set_levels b lv)) (wrap_u32 k); Ok (set_occ (set_levels b lv) o (ask_occ (set_levels b lv)))
    else Ok (set_levels b lv)) = Ok (set_occ (set_levels b lv) bo (ask_occ b))).
  { cbn. destruct (_ >? 0); [by rewrite Eb|]. injection Eb as <-. by destruct b. }
  rewrite E1. cbn [mbind Res_bind]. split; [|split].
  - cbn. destruct (zsum (on_side Sell) (B k) >? 0); [by rewrite Ea|]. by injection Ea as <-.
  - split; cbn.
    + intros t Ht. unfold lv. rewrite vget_vput, (hf_len _ _ _ Hh). destruct (k =? t) eqn:E; bool_to_prop.
      * subst t. replace (0 <=? k) with true by lia. replace (k <? total mid tk) with true by lia. replace (k <? k + 1) with true by lia. done.
      * cbn. rewrite (hf_level _ _ _ Hh t Ht). replace (t <? k + 1) with (t <? k) by lia. done.
    + unfold lv. rewrite zlen_vput. apply Hh.
    + intros [|]; cbn; (split; [done|]; split; [congruence|]); intros t; [rewrite Hb3' | rewrite Ha3']; cbn in Hb3, Ha3; rewrite ?Hb3, ?Ha3;
        (split; [intros [[? ?]|[-> ?]]; split; lia | intros [? ?]; destruct (decide (t = k)) as [->|]; [right; split; [done | lia] | left; split; lia]]).
  - by exists lv, bo, ao.
Qed.

Lemma rebuild_spec B b :
  bare (orders b) (active_levels b) B -> zlen (active_levels b) = total mid tk -> zlen (slots (orders b)) <= NONE ->
  (forall t e, In e (B t) -> os_side e.2 = side_u8 Buy \/ os_side e.2 = side_u8 Sell) ->
  (forall t, ~ 0 <= t < total mid tk -> B t = []) ->
  exists b', rebuild_occupancy b = Ok b' /\ half (total mid tk) B b' /\ reoccupied b b'.
Proof.
  intros Hb Hl Hcap Hsd Hout. pose proof (total_bounds mid tk Hcfg) as Htot. unfold NONE in Htot. unfold rebuild_occupancy. rewrite Hl, wrap_u32_id by width_lia.
  destruct (Occupancy_new_spec (total mid tk) ltac:(width_lia)) as (o & Eo & Ho & Hn & Hm). rewrite Eo. cbn [mbind Res_bind].
  assert (H0 : half 0 B (set_occ b o o)).
  { split; cbn; [|done|].
    - intros t Ht. replace (t <? 0) with false by lia. apply Hb. lia.
    - intros sd. assert (occ_of sd (set_occ b o o) = o) as -> by (by destruct sd). split; [done|]. split; [done|]. intros t. rewrite Hm. split; [done|].
      intros [Ht Hz]. rewrite Hout in Hz by lia. cbn in Hz. lia. }
  assert (Hloop : forall n k b1, half k B b1 -> reoccupied b b1 -> 0 <= k -> k + Z.of_nat n = total mid tk ->
    exists b', rfold rebuild_level b1 (zrange k (total mid tk)) = Ok b' /\ half (total mid tk) B b' /\ reoccupied b b').
  { induction n as [|n IH]; intros k b1 Hk Hr1 Hk0 Hn'.
    - rewrite zrange_empty by lia. exists b1. replace (total mid tk) with k by lia. done.
    - assert (zrange k (total mid tk) = k :: zrange (k + 1) (total mid tk)) as ->.
      { unfold zrange. replace (total mid tk - k) with (Z.succ (Z.of_nat n)) by lia. rewrite (seqZ_cons k) by lia. do 2 f_equal; lia. }
      cbn [rfold]. assert (Eo1 : orders b1 = orders b) by (destruct Hr1 as (? & ? & ? & ->); done).
      destruct (rebuild_level_spec k B b1) as (b2 & E2 & Hk2 & Hr2); try (rewrite ?Eo1; done || apply Hb || apply Hsd); [lia|].
      rewrite E2. cbn [mbind Res_bind]. apply (IH (k + 1)); [done | by eapply reoccupied_trans | lia | lia]. }
  apply (Hloop (Z.to_nat (total mid tk)) 0); [done | by exists (active_levels b), o, o | lia | lia].
Qed.

(** ** A restored book *)

Lemma flat_map_orders (A : ABook) ts : flat_map (fun t => map order_of (A t)) ts = map order_of (flat_map A ts).
Proof. induction ts as [|t ts IH]; [done|]. cbn. by rewrite IH, map_app. Qed.

Lemma flat_map_handles (A : ABook) ts : flat_map (fun t => handles (A t)) ts = handles (flat_map A ts).
Proof. induction ts as [|t ts IH]; [done|]. cbn. unfold handles in *. by rewrite IH, map_app. Qed.

Lemma new_state c n m b : Orderbook_new c n m = Ok b -> state b = Normal.
Proof. unfold Orderbook_new. intros E. by res_inv. Qed.

Section Book.
Variables (A : ABook) (fl : list Z) (b : Orderbook).
Hypothesis Hi : book_inv mid tk A fl b.

(** The queues of the restored book. *)
Definition thawed : ABook := fun t => map (thaw t) (A t).

Lemma in_thawed t x : In x (thawed t) <-> exists e, In e (A t) /\ x = thaw t e.
Proof. unfold thawed. rewrite in_map_iff. split; intros (e & ? & ?); eauto. Qed.

(** The slab with the orders and the free list of the checkpoint. *)
Lemma restore_slab_spec os0 :
  slots os0 = replicate (length (slots os0)) OrderSlot_default -> bump_next os0 = bump_next (orders b) -> bump_next os0 <= zlen (slots os0) -> zlen (slots os0) <= NONE ->
  let bump := bump_next (orders b) in
  exists os1 os2, cfold (restore_order bump) (os0, marks bump []) (flat_map (fun t => map order_of (A t)) (ticks mid tk)) = Ok (Valid (os1, marks bump (queued mid tk A))) /\
    cfold (restore_free InvalidFreeList bump (marks bump (queued mid tk A))) (marks bump []) fl = Ok (Valid (marks bump fl)) /\
    untracked (marks bump (queued mid tk A)) (marks bump fl) = false /\ restore_free_handles os1 fl = Ok os2 /\
    slab_inv os2 fl /\ bump_next os2 = bump /\ zlen (slots os2) = zlen (slots os0) /\ (forall t e, In e (A t) -> pending os2 e) /\
    (forall h s, vget (slots os2) h = Some s -> ~ In h (queued mid tk A) -> is_active s = false).
Proof.
  intros Hdef Hb Hcap Hnone bump. pose proof (bk_core _ _ _ _ _ Hi) as Hc. pose proof (c_links _ _ _ _ _ Hc) as Hlk. pose proof (c_slab _ _ _ _ _ Hc) as Hsl.
  assert (Hq : forall h, In h (queued mid tk A) <-> live (orders b) fl h) by (intros; by apply queued_live).
  assert (Hqn : NoDup (queued mid tk A)) by (apply (all_handles_nodup _ _ _ _ Hlk), zrange_nodup).
  unfold queued in *. rewrite flat_map_orders, flat_map_handles in *. set (es := flat_map A (ticks mid tk)) in *.
  assert (Hes : forall e, In e es <-> exists t, In e (A t)).
  { intros e. unfold es. rewrite in_flat_map. split; [intros (t & _ & He); eauto|]. intros [t He]. exists t. split; [|done].
    apply in_zrange, (core_slot_range mid tk Hcfg A fl b t e Hc He). }
  destruct (restore_orders_spec bump es os0 []) as (os1 & E1 & F1 & P1); [|lia|done|].
  { intros e [t He]%Hes. split; [by apply (c_live _ _ _ _ _ Hc t) | by apply (lk_side _ _ _ Hlk t)]. }
  destruct (restore_free_handles_spec os1 fl) as (os2 & E2 & Hs2 & Hb2 & Hl2 & _).
  { apply Hsl. } { rewrite (fr_bump _ _ _ F1), Hb. apply Hsl. } { rewrite (fr_bump _ _ _ F1), (fr_len _ _ _ F1), Hb. pose proof (si_bump _ _ Hsl). unfold bump in *. lia. } { by rewrite (fr_len _ _ _ F1). }
  pose proof (fun P HP => restore_fold_keeps P _ HP _ _ E2) as K. cbn [slots] in K.
  exists os1, os2. split; [exact E1|]. split; [apply (cfold_free _ _ _ fl []); [|apply Hsl]|].
  { intros i Hin. split; [by apply (si_range _ _ Hsl)|]. intros [_ Hx]%Hq. done. }
  split; [apply marks_untracked; intros h Hh; destruct (in_dec Z.eq_dec h fl); [by right | left; by apply Hq]|].
  split; [exact E2|]. split; [done|]. split; [rewrite Hb2, (fr_bump _ _ _ F1); done|]. split; [rewrite Hl2; apply F1|].
  assert (Hrev : forall h, In h (reverse fl) <-> In h fl) by (intros h; by rewrite <- !list_elem_of_In, elem_of_reverse). split.
  - intros t e He. unfold pending. rewrite (proj1 (K (fun _ => True) ltac:(done) e.1)); [apply P1, Hes; eauto|]. rewrite Hrev.
    apply (c_live _ _ _ _ _ Hc t e He).
  - intros h s Hs Hn. assert (Hs1 : exists s1, vget (slots os1) h = Some s1) by (apply vget_is_some; apply vget_some_range in Hs; lia). destruct Hs1 as [s1 Hs1].
    destruct (proj2 (K (fun s => is_active s = false) ltac:(intros [] n; done) h) s1 Hs1) as (s' & Hs' & Ha); [|congruence].
    rewrite (fr_same _ _ _ F1 h Hn), Hdef in Hs1. apply vget_in, list_elem_of_In, elem_of_replicate in Hs1 as [-> _]. done.
Qed.

Lemma thawed_core b4 :
  compression b4 = the_map mid tk -> price_asc b4 = bands mid tk -> slab_inv (orders b4) fl -> bump_next (orders b4) = bump_next (orders b) ->
  (forall t, seg (slots (orders b4)) NONE (thawed t) NONE) -> half (total mid tk) thawed b4 -> core mid tk thawed fl b4.
Proof.
  intros Hm Ha Hsl Hb Hseg Hh. pose proof (bk_core _ _ _ _ _ Hi) as Hc. pose proof (c_links _ _ _ _ _ Hc) as Hlk.
  assert (Hout : forall t, ~ 0 <= t < total mid tk -> thawed t = []) by (intros t Ht; unfold thawed; by rewrite (lk_out _ _ _ Hlk) by (by rewrite (c_len _ _ _ _ _ Hc))).
  assert (Hocc : forall sd, occ_ok mid tk sd (occ_of sd b4) thawed).
  { intros sd. destruct (hf_occ _ _ _ Hh sd) as (H1 & H2 & H3). split; [done|]. split; [done|]. intros t. rewrite H3. split; [by intros [_ ?]|]. intros Hz. split; [|done].
    destruct (Z_lt_ge_dec t (total mid tk)); [done|]. rewrite Hout in Hz by lia. cbn in Hz. lia. }
  split; [done | done | apply Hh | done | | | | apply (Hocc Buy) | apply (Hocc Sell)].
  - split.
    + intros t Ht. rewrite (hf_len _ _ _ Hh) in Ht. rewrite (hf_level _ _ _ Hh t Ht). by replace (t <? total mid tk) with true by lia.
    + intros t Ht. apply Hout. by rewrite <- (hf_len _ _ _ Hh).
    + done.
    + intros t e (x & _ & ->)%in_thawed. done.
    + intros t. unfold thawed. rewrite thaw_handles. apply Hlk.
    + intros t e (x & Hx & ->)%in_thawed. exact (lk_qty _ _ _ Hlk t x Hx).
    + intros t. unfold thawed. rewrite zsum_erem_thaw. apply Hlk.
    + intros t e (x & Hx & ->)%in_thawed. exact (lk_side _ _ _ Hlk t x Hx).
  - intros t e (x & Hx & ->)%in_thawed. destruct (c_live _ _ _ _ _ Hc t x Hx) as [Hr Hf]. split; [by rewrite Hb | done].
  - intros t e (x & Hx & ->)%in_thawed. exact (c_px _ _ _ _ _ Hc t x Hx).
Qed.

Lemma thawed_sum f : (forall t e, f (thaw t e) = f e) -> book_sum mid tk f thawed = book_sum mid tk f A.
Proof. intros Hf. unfold book_sum. apply zsum_ext. intros t _. unfold thawed. rewrite zsum_map. by apply zsum_ext. Qed.

Lemma thawed_inv b4 :
  core mid tk thawed fl b4 -> bump_next (orders b4) = bump_next (orders b) -> reg_inv (users b4) -> (forall u, orders_of (users b4) u = orders_of (users b) u) ->
  (forall h s, vget (slots (orders b4)) h = Some s -> ~ In h (queued mid tk A) -> is_active s = false) ->
  (forall sd, best_ok sd thawed (best_tick sd b4) (best_px sd b4)) -> book_inv mid tk thawed fl b4.
Proof.
  intros Hc4 Hb Hr Hu Hd Hbest. split; [done | | | | done | done |].
  - intros h Hl. assert (Hl' : live (orders b) fl h) by (destruct Hl; split; [by rewrite <- Hb | done]). destruct (bk_queued _ _ _ _ _ Hi h Hl') as (t & s & Hs).
    exists t, (thaw t (h, s)).2. apply in_thawed. by exists (h, s).
  - intros h s Hs Hl. apply (Hd h s Hs). intros Hq%(queued_live mid tk Hcfg A fl b h Hi). apply Hl. destruct Hq. split; [by rewrite Hb | done].
  - intros t e (x & Hx & ->)%in_thawed. split; [apply thaw_active | exact (proj2 (bk_order _ _ _ _ _ Hi t x Hx))].
  - intros u. rewrite Hu, (bk_users _ _ _ _ _ Hi). symmetry. by apply thawed_sum.
Qed.

Lemma restore_spec cap :
  bc_tick_size (config b) = tk -> 0 < bc_lot_size (config b) -> 0 <= cap <= NONE ->
  exists b', restore (snap_of mid tk A fl b) cap = Ok (Valid b') /\ book_inv mid tk thawed fl b' /\ state b' = Normal /\ config b' = config b /\
    sequence b' = sequence b mod 2 ^ 64 /\ bump_next (orders b') = bump_next (orders b) /\ zlen (slots (orders b')) = Z.max cap (zlen (slots (orders b))) /\
    user_map (users b') = user_map (users b) /\ user_bump (users b') = user_bump (users b) /\ maintenance_cursor (users b') = maintenance_cursor (users b) /\
    user_free_list (users b') = user_free_list (users b) /\
    (forall u, net_of (users b') u = net_of (users b) u /\ orders_of (users b') u = orders_of (users b) u /\
      us_zero_since_ns (user_of (users b') u) = us_zero_since_ns (user_of (users b) u) mod 2 ^ 64).
Proof.
  intros Htk Hlot Hcap. pose proof (bk_core _ _ _ _ _ Hi) as Hc. pose proof (c_slab _ _ _ _ _ Hc) as Hsl. pose proof (c_links _ _ _ _ _ Hc) as Hlk.
  pose proof (si_bump _ _ Hsl) as Hbr. pose proof (si_cap _ _ Hsl) as Hcr. pose proof (co_tick _ _ Hcfg) as Hct.
  assert (Ecap : capacity (orders b) = zlen (slots (orders b))) by (unfold capacity; unfold NONE in Hcr; apply wrap_u32_id; width_lia).
  unfold restore, snap_of. cbn [kb_sequence kb_config kb_compression_mid_price kb_slab_capacity kb_slab_bump kb_orders kb_free_handles kb_users kc_symbol_id kc_tick_size kc_lot_size].
  rewrite Ecap, Htk. replace (bump_next (orders b) >? zlen (slots (orders b))) with false by lia.
  replace ((tk <=? 0) || (bc_lot_size (config b) <=? 0)) with false by lia. set (cfg := mkConfig _ _ _).
  assert (Ecfg : cfg = config b) by (unfold cfg; rewrite <- Htk; by destruct (config b)).
  destruct (new_spec_book mid tk Hcfg Hspread cfg (Z.max cap (zlen (slots (orders b)))) eq_refl ltac:(lia)) as (b1 & E1 & Hi1 & Hs1 & Hb1 & Hu1 & Hc1 & _).
  rewrite E1. cbn [mbind Res_bind]. rewrite marks_nil. pose proof (bk_core _ _ _ _ _ Hi1) as Hk1. pose proof (new_state _ _ _ _ E1) as Hst1.
  assert (Hlen1 : zlen (slots (orders b1)) = Z.max cap (zlen (slots (orders b)))) by (rewrite Hs1; apply zlen_replicate; lia).
  destruct (restore_slab_spec (set_bump_next (orders b1) (bump_next (orders b)))) as (os1 & os2 & R1 & R2 & R3 & R4 & Hsl2 & Hbn2 & Hl2 & Hp2 & Hd2);
    [cbn; rewrite Hs1, length_replicate; done | done | cbn; lia | cbn; lia|]. cbn zeta in R1, R2.
  rewrite R1. cbn [checked_bind]. rewrite R2. cbn [checked_bind]. rewrite R3, R4. cbn [mbind Res_bind].
  destruct (restore_users_spec (users b) (bk_reg _ _ _ _ _ Hi)) as (us & Eus & Hru & Hum & Hub & Hmc & Huf & Hus). unfold user_list in Eus. rewrite Eus. cbn [checked_bind].
  destruct (relink_all_spec A fl b Hc (ticks mid tk) (set_users (set_orders b1 os2) us) empty_book) as (os3 & lv & E3 & Hb3 & Hl3 & F3).
  { apply zrange_nodup. } { apply Hk1. } { cbn. rewrite (core_levels mid tk Hcfg _ _ _ Hk1), zlen_map. unfold ticks. rewrite zrange_length; [lia|]. pose proof (total_bounds mid tk Hcfg). lia. }
  { split; cbn; [|done|intros; constructor|done]. intros t Ht. rewrite (c_len _ _ _ _ _ Hk1) in Ht. by rewrite (core_level mid tk _ _ _ t Hk1 Ht). }
  { intros t Ht. split; [done|]. intros e He. split; [exact (Hp2 t e He) | intros t' []]. }
  rewrite E3. cbn [mbind Res_bind orders set_users set_orders] in *. rewrite SnapshotU64_value. set (b3 := set_sequence _ _). cbn [orders set_users set_orders set_levels_orders] in F3.
  assert (HB : forall t, thawed t = (if bool_decide (t ∈ ticks mid tk) then map (thaw t) (A t) else empty_book t)).
  { intros t. case_bool_decide as Hin; [done|]. unfold thawed. rewrite (lk_out _ _ _ Hlk); [done|]. rewrite (c_len _ _ _ _ _ Hc). intros Hr. apply Hin, list_elem_of_In, in_zrange, Hr. }
  pose proof (bare_ext _ _ _ _ HB Hb3) as Hb3'.
  destruct (rebuild_spec thawed b3 Hb3') as (b4 & E4 & Hh4 & lv4 & bo & ao & Eb4); [done | cbn; rewrite (fr_len _ _ _ F3), Hl2; cbn; lia | | |].
  { intros t e (x & Hx & ->)%in_thawed. exact (lk_side _ _ _ Hlk t x Hx). }
  { intros t Ht. unfold thawed. by rewrite (lk_out _ _ _ Hlk) by (by rewrite (c_len _ _ _ _ _ Hc)). }
  rewrite E4. cbn [mbind Res_bind].
  assert (Eo4 : orders b4 = os3) by (by rewrite Eb4).
  assert (Hc4 : core mid tk thawed fl b4).
  { apply thawed_core; try (rewrite Eb4; cbn; apply Hk1); try (rewrite Eo4); try done.
    - apply (frame_slab _ _ _ _ F3); [|done]. intros x Hx Hq. apply (queued_live mid tk Hcfg A fl b x Hi) in Hq as [_ Hq]. done.
    - by rewrite (fr_bump _ _ _ F3).
    - apply Hb3'. }
  destruct (refresh_spec mid tk Hcfg Hspread Buy thawed fl b4 Hc4) as (bt & bp & E5 & Hbid). cbn [refresh] in E5. rewrite E5. cbn [mbind Res_bind set_best_of].
  assert (Hc5 : core mid tk thawed fl (set_best_bid b4 bt bp)) by (by apply (core_ext mid tk _ _ b4)).
  destruct (refresh_spec mid tk Hcfg Hspread Sell thawed fl _ Hc5) as (at_ & ap & E6 & Hask). cbn [refresh] in E6. rewrite E6. cbn [mbind Res_bind set_best_of].
  eexists. split; [reflexivity|]. split; [|rewrite Eb4; cbn; rewrite (fr_bump _ _ _ F3), (fr_len _ _ _ F3), Hl2; cbn; rewrite Hc1, Ecfg; split_and!; done].
  apply thawed_inv.
  - by apply (core_ext mid tk _ _ b4).
  - cbn. rewrite Eo4, (fr_bump _ _ _ F3). done.
  - rewrite Eb4. exact Hru.
  - intros u. rewrite Eb4. apply (Hus u).
  - cbn. rewrite Eo4. intros h s Hs Hq. apply (Hd2 h s); [|done]. by rewrite <- (fr_same _ _ _ F3).
  - intros []; [exact Hbid | exact Hask].
Qed.

End Book.

End Restore.

Section Claims.
Context `{HashIter}.
Variables (mid tk : Z).
Hypothesis Hcfg : cfg_ok mid tk.
Hypothesis Hspread : spread_ok mid tk.

Lemma snap_user_same r r' e :
  net_of r' e.1 = net_of r e.1 -> orders_of r' e.1 = orders_of r e.1 ->
  us_zero_since_ns (user_of r' e.1) = us_zero_since_ns (user_of r e.1) mod 2 ^ 64 -> snap_user r' e = snap_user r e.
Proof.
  unfold net_of, orders_of, snap_user. intros -> -> ->. rewrite <- SnapshotU64_value, SnapshotU64_stable. done.
Qed.

(** C35: A book survives a checkpoint.  Capturing a well-formed book that is not
    migrating succeeds, and restoring the checkpoint succeeds, also with a
    larger slab: the restored book is well formed and uncrossed, has the same
    orders with the same contents in the same queue positions under the same
    handles, the same free list, users' positions and configuration, and
    capturing it again yields the same checkpoint. *)
Theorem snapshot_roundtrip A fl b cap :
  engine_ok mid tk A fl b -> state b = Normal -> 0 <= cap <= NONE ->
  exists snap b' A', capture b = Ok (Valid snap) /\ restore snap cap = Ok (Valid b') /\ engine_ok mid tk A' fl b' /\
    (forall t, map order_of (A' t) = map order_of (A t)) /\ (forall u, net_of (users b') u = net_of (users b) u) /\ config b' = config b /\
    (cap <= capacity (orders b) -> capture b' = Ok (Valid snap)).
Proof.
  intros [Hi Hun Htk Hlot] Hst Hcap. pose proof (c_slab _ _ _ _ _ (bk_core _ _ _ _ _ Hi)) as Hsl. pose proof (si_cap _ _ Hsl) as Hcr. unfold NONE in Hcr.
  destruct (restore_spec mid tk Hcfg Hspread A fl b Hi cap Htk ltac:(lia) Hcap) as (b' & E & Hi' & Hst' & Hcf & Hsq & Hbn & Hln & Hum & Hub & Hmc & Huf & Hus).
  exists (snap_of mid tk A fl b), b', (thawed A). split; [by apply capture_spec|]. split; [done|].
  assert (Ho : forall t, map order_of (thawed A t) = map order_of (A t)).
  { intros t. unfold thawed. rewrite map_map. apply map_ext. intros e. apply thaw_order. }
  split; [split; [done | | by rewrite Hcf | by rewrite Hcf]|].
  { intros t t' x y (e & He & ->)%in_thawed (e' & He' & ->)%in_thawed. exact (Hun t t' e e' He He'). }
  split; [done|]. split; [intros u; apply (Hus u)|]. split; [done|]. intros Hle. unfold capacity in Hle. rewrite wrap_u32_id in Hle by (pose proof (zlen_nonneg (slots (orders b))); width_lia).
  rewrite (capture_spec mid tk Hcfg _ _ _ Hi' Hst'). do 2 f_equal. unfold snap_of. rewrite Hsq, <- SnapshotU64_value, SnapshotU64_stable, Hcf, Hbn, Hub, Hmc, Huf, Hum.
  unfold capacity. rewrite Hln, Z.max_r by done. f_equal; [by apply flat_map_ext|]. do 2 f_equal.
  apply map_ext. intros e. destruct (Hus e.1) as (? & ? & ?). by apply snap_user_same.
Qed.

End Claims.

(** ** Refusals

    What is wrong with a checkpoint, told from its lists alone, in the order
    [restore] looks: the first finding is the refusal. *)

Fixpoint orders_refusal (bump : Z) (seen : list Z) (orders : list OrderSnapshotV1) : option SnapError :=
  match orders with
  | [] => None
  | o :: tl =>
      if bool_decide (bump <= ko_handle o \/ ko_handle o ∈ seen) then Some InvalidOrderHandle
      else if bool_decide (ko_side o <> side_u8 Buy /\ ko_side o <> side_u8 Sell) then Some InvalidOrderSide
      else orders_refusal bump (seen ++ [ko_handle o]) tl
  end.

Fixpoint free_refusal (err : SnapError) (bump : Z) (used seen l : list Z) : option SnapError :=
  match l with
  | [] => None
  | i :: tl => if bool_decide (bump <= i \/ i ∈ used \/ i ∈ seen) then Some err else free_refusal err bump used (seen ++ [i]) tl
  end.

Fixpoint registry_refusal (bump : Z) (seen ids : list Z) (us : list UserSnapshotV1) : option SnapError :=
  match us with
  | [] => None
  | u :: tl =>
      if bool_decide (bump <= ku_index u \/ ku_index u ∈ seen) then Some InvalidUserIndex
      else if bool_decide (ku_user_id u ∈ ids) then Some DuplicateUserId
      else registry_refusal bump (seen ++ [ku_index u]) (ids ++ [ku_user_id u]) tl
  end.

Definition uncovered (err : SnapError) (bump : Z) (l : list Z) : option SnapError :=
  if forallb (fun i => bool_decide (i ∈ l)) (zrange 0 bump) then None else Some err.

(** The first of two refusals. *)
Definition or_else (a b : option SnapError) : option SnapError := match a with Some e => Some e | None => b end.

Definition users_refusal (u : UserRegistrySnapshotV1) : option SnapError :=
  or_else (registry_refusal (kr_bump u) [] [] (kr_users u))
    (or_else (free_refusal InvalidUserFreeList (kr_bump u) (map ku_index (kr_users u)) [] (kr_free_indices u))
       (uncovered UntrackedUserSlots (kr_bump u) (map ku_index (kr_users u) ++ kr_free_indices u))).

Definition snap_refusal (snap : BookSnapshotV1) : option SnapError :=
  if kb_slab_bump snap >? kb_slab_capacity snap then Some BumpExceedsCapacity
  else if (kc_tick_size (kb_config snap) <=? 0) || (kc_lot_size (kb_config snap) <=? 0) then Some InvalidAlignment
  else
    or_else (orders_refusal (kb_slab_bump snap) [] (kb_orders snap))
      (or_else (free_refusal InvalidFreeList (kb_slab_bump snap) (map ko_handle (kb_orders snap)) [] (kb_free_handles snap))
         (or_else (uncovered UntrackedSlots (kb_slab_bump snap) (map ko_handle (kb_orders snap) ++ kb_free_handles snap))
            (users_refusal (kb_users snap)))).

(** The numbers are of their unsigned types. *)
Record snap_types (snap : BookSnapshotV1) : Prop := {
  sy_orders : forall o, In o (kb_orders snap) -> 0 <= ko_handle o;
  sy_free : forall h, In h (kb_free_handles snap) -> 0 <= h;
  sy_bump : 0 <= kb_slab_bump snap;
  sy_users : forall u, In u (kr_users (kb_users snap)) -> 0 <= ku_index u;
  sy_user_free : forall i, In i (kr_free_indices (kb_users snap)) -> 0 <= i;
  sy_user_bump : 0 <= kr_bump (kb_users snap);
}.

(** Every slot below [bump] is listed once, and no other is. *)
Definition slots_once (bump : Z) (l : list Z) : Prop := NoDup l /\ forall i, In i l <-> 0 <= i < bump.

Record consistent (snap : BookSnapshotV1) : Prop := {
  co_bump : kb_slab_bump snap <= kb_slab_capacity snap;
  co_tick : 0 < kc_tick_size (kb_config snap);
  co_lot : 0 < kc_lot_size (kb_config snap);
  co_sides : forall o, In o (kb_orders snap) -> ko_side o = side_u8 Buy \/ ko_side o = side_u8 Sell;
  co_slots : slots_once (kb_slab_bump snap) (map ko_handle (kb_orders snap) ++ kb_free_handles snap);
  co_ids : NoDup (map ku_user_id (kr_users (kb_users snap)));
  co_indexes : slots_once (kr_bump (kb_users snap)) (map ku_index (kr_users (kb_users snap)) ++ kr_free_indices (kb_users snap));
}.

(** *** No refusal, no fault *)

Lemma or_else_none a b : or_else a b = None <-> a = None /\ b = None.
Proof. destruct a; cbn; [split; [done|by intros [? _]]|tauto]. Qed.

Lemma NoDup_snoc {A} (l : list A) x : NoDup (l ++ [x]) <-> NoDup l /\ x ∉ l.
Proof.
  rewrite (Permutation_app_comm l [x]). cbn. rewrite NoDup_cons. tauto.
Qed.

(** The next number of a list goes on from those seen. *)
Lemma seen_next bump (seen tl : list Z) i : NoDup seen -> (NoDup (seen ++ i :: tl) /\ (forall x, x ∈ i :: tl -> x < bump)) <->
  i < bump /\ (i ∉ seen) /\ NoDup ((seen ++ [i]) ++ tl) /\ (forall x, x ∈ tl -> x < bump).
Proof.
  intros Hs. rewrite <- app_assoc. cbn [app]. split.
  - intros [Hn Hl]. split; [apply Hl; left|]. split; [|split; [done|intros x Hx; apply Hl; by right]].
    apply NoDup_app in Hn as (_ & Hd & _). intros Hi. apply (Hd i Hi). left.
  - intros (Hi & _ & Hn & Hl). split; [done|]. intros x [->|Hx]%elem_of_cons; auto.
Qed.

Lemma orders_refusal_none bump orders : forall seen, NoDup seen -> orders_refusal bump seen orders = None <->
  (NoDup (seen ++ map ko_handle orders) /\ (forall x, x ∈ map ko_handle orders -> x < bump)) /\
  forall o, In o orders -> ko_side o = side_u8 Buy \/ ko_side o = side_u8 Sell.
Proof.
  induction orders as [|o orders IH]; intros seen Hs; cbn [orders_refusal map].
  { rewrite app_nil_r. split; [intros _; split; [|done]; split; [done|]; by intros x ?%not_elem_of_nil|done]. }
  rewrite (seen_next bump seen _ _ Hs). case_bool_decide as Hb; [split; [done|]; intros [(H1 & H2 & _) _]; exfalso; destruct Hb; [lia|done]|].
  case_bool_decide as Hsd; [split; [done|]; intros [_ H1]; exfalso; destruct (H1 o (or_introl eq_refl)); by destruct Hsd|].
  rewrite IH by (apply NoDup_snoc; tauto). split.
  - intros [[H1 H2] H3]. split; [split_and!; [lia|tauto|done|done]|]. intros x [<-|Hx]; [|auto].
    destruct (Z.eq_dec (ko_side o) (side_u8 Buy)); [by left|]. destruct (Z.eq_dec (ko_side o) (side_u8 Sell)); [by right|tauto].
  - intros [(H1 & H2 & H3 & H4) H5]. split; [done|]. intros x Hx. apply H5. by right.
Qed.

Lemma free_refusal_none err bump used l : forall seen, NoDup seen -> free_refusal err bump used seen l = None <->
  (NoDup (seen ++ l) /\ (forall x, x ∈ l -> x < bump)) /\ (forall x, x ∈ l -> x ∉ used).
Proof.
  induction l as [|i l IH]; intros seen Hs; cbn [free_refusal].
  { rewrite app_nil_r. split; [intros _; split; [split; [done|]|]; by intros x ?%not_elem_of_nil|done]. }
  rewrite (seen_next bump seen _ _ Hs). case_bool_decide as Hb.
  { split; [done|]. intros [(H1 & H2 & _) H3]. exfalso. destruct Hb as [?|[?|?]]; [lia| |done]. apply (H3 i); [left|done]. }
  rewrite IH by (apply NoDup_snoc; tauto). split.
  - intros [[H1 H2] H3]. split; [split_and!; [lia|tauto|done|done]|]. intros x [->|Hx]%elem_of_cons; [tauto|auto].
  - intros [(H1 & H2 & H3 & H4) H5]. split; [done|]. intros x Hx. apply H5. by right.
Qed.

Lemma registry_refusal_none bump us : forall seen ids, NoDup seen -> NoDup ids -> registry_refusal bump seen ids us = None <->
  (NoDup (seen ++ map ku_index us) /\ (forall x, x ∈ map ku_index us -> x < bump)) /\ NoDup (ids ++ map ku_user_id us).
Proof.
  induction us as [|u us IH]; intros seen ids Hs Hi; cbn [registry_refusal map].
  { rewrite !app_nil_r. split; [intros _; split; [split; [done|]|done]; by intros x ?%not_elem_of_nil|done]. }
  rewrite (seen_next bump seen _ _ Hs). case_bool_decide as Hb; [split; [done|]; intros [(H1 & H2 & _) _]; exfalso; destruct Hb; [lia|done]|].
  case_bool_decide as Hd.
  { split; [done|]. intros [_ Hn]. exfalso. apply NoDup_app in Hn as (_ & Hn & _). apply (Hn _ Hd). left. }
  rewrite IH by (apply NoDup_snoc; tauto). rewrite <- (app_assoc ids). cbn [app]. split.
  - intros [[H1 H2] H3]. split; [split_and!; [lia|tauto|done|done]|done].
  - intros [(H1 & H2 & H3 & H4) H5]. done.
Qed.

Lemma uncovered_none err bump l : uncovered err bump l = None <-> forall i, 0 <= i < bump -> i ∈ l.
Proof.
  unfold uncovered. case_if.
  - rewrite forallb_forall in Heqb. split; [intros _ i Hi|done]. specialize (Heqb i (proj2 (in_zrange 0 bump i) Hi)). by apply bool_decide_eq_true in Heqb.
  - split; [done|]. intros Hc. exfalso. assert (forallb (fun i => bool_decide (i ∈ l)) (zrange 0 bump) = true) as E; [|congruence].
    apply forallb_forall. intros i Hi%in_zrange. by apply bool_decide_eq_true, Hc.
Qed.

(** A table and its free list without refusals list every slot once. *)
Lemma tables_once err err' bump used l : (forall i, i ∈ used -> 0 <= i) -> (forall i, i ∈ l -> 0 <= i) -> NoDup used -> (forall x, x ∈ used -> x < bump) ->
  free_refusal err bump used [] l = None /\ uncovered err' bump (used ++ l) = None <-> slots_once bump (used ++ l).
Proof.
  intros Hu Hl Hnu Hub. rewrite (free_refusal_none err bump used l [] (NoDup_nil_2)), uncovered_none. cbn [app]. unfold slots_once. rewrite NoDup_app. split.
  - intros [[[H1 H2] H3] H4]. split; [split_and!; [done| |done]; intros x Hx Hy; by apply (H3 x Hy)|]. intros i. rewrite <- list_elem_of_In. split; [|auto].
    intros [Hi|Hi]%elem_of_app; split; auto.
  - intros [(H1 & H2 & H3) H4]. split; [split; [split; [done|]|]|].
    + intros x Hx. apply H4, list_elem_of_In, elem_of_app. by right.
    + intros x Hx Hy. by apply (H2 x Hy).
    + intros i Hi. by apply list_elem_of_In, H4.
Qed.

(** *** The loops refuse exactly what is wrong *)

Lemma restore_free_exact err n used l : forall seen, (forall i, i ∈ l -> 0 <= i) ->
  cfold (restore_free err n (marks n used)) (marks n seen) l =
    Ok (match free_refusal err n used seen l with Some e => Invalid e | None => Valid (marks n (seen ++ l)) end).
Proof.
  induction l as [|i l IH]; intros seen Hp; cbn [cfold free_refusal]; [by rewrite app_nil_r|].
  assert (Hi : 0 <= i) by (apply Hp; left). unfold restore_free at 1. destruct (i >=? n) eqn:En; bool_to_prop.
  { rewrite bool_decide_true by lia. done. }
  rewrite (vindex_some _ _ _ (marks_get n used i ltac:(lia))). cbn [mbind Res_bind].
  destruct (decide (i ∈ used)) as [Hu|Hu]; [rewrite !bool_decide_true by tauto; done|]. rewrite (bool_decide_false (i ∈ used)) by done.
  rewrite (vindex_some _ _ _ (marks_get n seen i ltac:(lia))). cbn [mbind Res_bind].
  destruct (decide (i ∈ seen)) as [Hs|Hs]; [rewrite !bool_decide_true by tauto; done|]. rewrite !bool_decide_false by (intros [?|[?|?]] || done; lia || done).
  rewrite marks_set by lia. cbn [mbind Res_bind checked_bind]. rewrite IH, <- app_assoc by (intros j Hj; apply Hp; by right). done.
Qed.

Lemma restore_orders_exact bump orders : forall os seen, (forall o, In o orders -> 0 <= ko_handle o) -> bump <= zlen (slots os) ->
  exists os', cfold (restore_order bump) (os, marks bump seen) orders =
    Ok (match orders_refusal bump seen orders with Some e => Invalid e | None => Valid (os', marks bump (seen ++ map ko_handle orders)) end) /\
    zlen (slots os') = zlen (slots os) /\ bump_next os' = bump_next os.
Proof.
  induction orders as [|o orders IH]; intros os seen Hp Hb; cbn [cfold orders_refusal map]; [exists os; by rewrite app_nil_r|].
  pose proof (Hp o (or_introl eq_refl)) as Ho. unfold restore_order at 1. destruct (ko_handle o >=? bump) eqn:En; bool_to_prop.
  { rewrite bool_decide_true by lia. by exists os. }
  rewrite (vindex_some _ _ _ (marks_get bump seen (ko_handle o) ltac:(lia))). cbn [mbind Res_bind].
  destruct (decide (ko_handle o ∈ seen)) as [Hs|Hs]; [rewrite !bool_decide_true by tauto; by exists os|]. rewrite !(bool_decide_false (_ \/ _ ∈ seen)), (bool_decide_false (_ ∈ seen)) by (done || (intros [?|?]; lia || done)).
  case_bool_decide as Hd.
  { replace (negb (ko_side o =? side_u8 Buy) && negb (ko_side o =? side_u8 Sell)) with true by lia. by exists os. }
  replace (negb (ko_side o =? side_u8 Buy) && negb (ko_side o =? side_u8 Sell)) with false by lia.
  rewrite marks_set by lia. cbn [mbind Res_bind]. destruct (vget_is_some (slots os) (ko_handle o) ltac:(lia)) as [s0 Hs0].
  destruct (update_frame os (ko_handle o) (fun _ => restored_slot o) s0 Hs0) as (os1 & E1 & _ & F1). rewrite E1. cbn [mbind Res_bind checked_bind].
  destruct (IH os1 (seen ++ [ko_handle o])) as (os2 & E2 & Hl2 & Hb2); [intros; apply Hp; by right | by rewrite (fr_len _ _ _ F1)|].
  exists os2. rewrite E2, <- app_assoc. split; [done|]. split; [by rewrite Hl2, (fr_len _ _ _ F1) | by rewrite Hb2, (fr_bump _ _ _ F1)].
Qed.

Lemma restore_registry_exact bump us : forall r seen ids, (forall u, In u us -> 0 <= ku_index u) -> zlen (user_states r) = bump ->
  (forall uid, contains r uid = bool_decide (uid ∈ ids)) ->
  exists r', cfold (restore_user bump) (r, marks bump seen) us =
    Ok (match registry_refusal bump seen ids us with Some e => Invalid e | None => Valid (r', marks bump (seen ++ map ku_index us)) end).
Proof.
  induction us as [|u us IH]; intros r seen ids Hp Hl Hc; cbn [cfold registry_refusal map]; [exists r; by rewrite app_nil_r|].
  pose proof (Hp u (or_introl eq_refl)) as Hu. unfold restore_user at 1. destruct (ku_index u >=? bump) eqn:En; bool_to_prop.
  { rewrite bool_decide_true by lia. by exists r. }
  rewrite (vindex_some _ _ _ (marks_get bump seen (ku_index u) ltac:(lia))). cbn [mbind Res_bind].
  destruct (decide (ku_index u ∈ seen)) as [Hs|Hs]; [rewrite !bool_decide_true by tauto; by exists r|]. rewrite !(bool_decide_false (_ \/ _ ∈ seen)), (bool_decide_false (_ ∈ seen)) by (done || (intros [?|?]; lia || done)).
  rewrite Hc. case_bool_decide as Hd; [by exists r|]. rewrite marks_set by lia. cbn [mbind Res_bind]. rewrite vset_ok by lia. cbn [mbind Res_bind checked_bind].
  match goal with |- context [cfold _ (?x, _) us] => set (r1 := x) end.
  destruct (IH r1 (seen ++ [ku_index u]) (ids ++ [ku_user_id u])) as (r' & E); [intros; apply Hp; by right | cbn; by rewrite zlen_vput | |].
  - intros uid. unfold contains, r1. cbn [user_map]. apply bool_decide_ext. rewrite lookup_insert_is_Some, elem_of_app, list_elem_of_singleton.
    specialize (Hc uid). unfold contains in Hc.
    destruct (decide (is_Some (user_map r !! uid))) as [Hm|Hm]; [rewrite (bool_decide_true _ Hm) in Hc | rewrite (bool_decide_false _ Hm) in Hc];
      symmetry in Hc; [apply bool_decide_eq_true in Hc | apply bool_decide_eq_false in Hc]; naive_solver.
  - exists r'. rewrite E, <- app_assoc. done.
Qed.

Lemma untracked_exact {A} err n hs fl (k : Res (Checked A)) :
  (if untracked (marks n hs) (marks n fl) then Ok (Invalid err) else k) = match uncovered err n (hs ++ fl) with Some e => Ok (Invalid e) | None => k end.
Proof.
  unfold untracked, uncovered, marks. induction (zrange 0 n) as [|x l IH]; [done|]. cbn [map combine existsb forallb].
  rewrite (bool_decide_ext (x ∈ hs ++ fl) (x ∈ hs \/ x ∈ fl) (elem_of_app _ _ _)), bool_decide_or.
  destruct (bool_decide (x ∈ hs)), (bool_decide (x ∈ fl)); cbn; done || apply IH.
Qed.

Lemma restore_users_exact u : (forall x, In x (kr_users u) -> 0 <= ku_index x) -> (forall i, In i (kr_free_indices u) -> 0 <= i) -> 0 <= kr_bump u ->
  exists r, restore_users u = Ok (match users_refusal u with Some e => Invalid e | None => Valid r end).
Proof.
  intros Hu Hf Hb. unfold restore_users, users_refusal. rewrite marks_nil. set (r0 := mkReg _ ∅ [] 0 0).
  destruct (restore_registry_exact (kr_bump u) (kr_users u) r0 [] []) as [r' E]; [done | cbn; by rewrite zlen_replicate | |].
  { intros uid. unfold contains. apply bool_decide_ext. cbn. rewrite lookup_empty. split; [by intros [? ?] | by intros ?%not_elem_of_nil]. }
  rewrite E. cbn [app]. destruct (registry_refusal _ _ _ _) as [e|]; cbn [checked_bind or_else]; [by exists r'|].
  rewrite restore_free_exact by (intros i Hi%list_elem_of_In; auto). cbn [app]. destruct (free_refusal _ _ _ _ _) as [e|]; cbn [checked_bind or_else]; [by exists r'|].
  rewrite untracked_exact. destruct (uncovered _ _ _) as [e|]; [by exists r' | by eexists].
Qed.

(** Nothing is wrong exactly with a consistent checkpoint. *)
Lemma snap_refusal_none snap : snap_types snap -> snap_refusal snap = None <-> consistent snap.
Proof.
  intros [H1 H2 H3 H5 H6 H7].
  assert (P1 : forall i, i ∈ map ko_handle (kb_orders snap) -> 0 <= i) by (intros i (o & -> & Ho)%list_elem_of_fmap; by apply H1, list_elem_of_In).
  assert (P2 : forall i, i ∈ kb_free_handles snap -> 0 <= i) by (intros i Hi%list_elem_of_In; auto).
  assert (P3 : forall i, i ∈ map ku_index (kr_users (kb_users snap)) -> 0 <= i) by (intros i (o & -> & Ho)%list_elem_of_fmap; by apply H5, list_elem_of_In).
  assert (P4 : forall i, i ∈ kr_free_indices (kb_users snap) -> 0 <= i) by (intros i Hi%list_elem_of_In; auto).
  assert (Hin : forall bump l l', slots_once bump (l ++ l') -> NoDup l /\ forall x, x ∈ l -> x < bump).
  { intros bump l l' [(Hn & _)%NoDup_app Hl]. split; [done|]. intros x Hx. apply Hl, list_elem_of_In, elem_of_app. by left. }
  unfold snap_refusal. split.
  - destruct (_ >? _) eqn:E1; [done|]. destruct (_ || _) eqn:E2; [done|]. unfold users_refusal. rewrite !or_else_none.
    intros (Ho & Hf & Hu & Hr & Hfu & Hun). apply orders_refusal_none in Ho as [[Ho1 Ho2] Ho3]; [|constructor]. apply registry_refusal_none in Hr as [[Hr1 Hr2] Hr3]; [|constructor..].
    cbn [app] in *. split; try done; try lia; eapply tables_once; eauto.
  - intros [C1 C2 C3 C4 C5 C6 C7]. replace (_ >? _) with false by lia. replace (_ || _) with false by lia. unfold users_refusal. rewrite !or_else_none.
    destruct (Hin _ _ _ C5), (Hin _ _ _ C7). rewrite orders_refusal_none, registry_refusal_none by constructor.
    pose proof (proj2 (tables_once InvalidFreeList UntrackedSlots _ _ _ P1 P2 ltac:(done) ltac:(done)) C5) as [? ?].
    pose proof (proj2 (tables_once InvalidUserFreeList UntrackedUserSlots _ _ _ P3 P4 ltac:(done) ltac:(done)) C7) as [? ?]. done.
Qed.

(** A book of the recorded configuration, empty. *)
Lemma new_book cfg cap mid : cfg_ok mid (bc_tick_size cfg) -> 0 <= cap ->
  exists b, Orderbook_new cfg cap mid = Ok b /\ zlen (slots (orders b)) = cap.
Proof.
  intros Hc Hcap. pose proof (total_bounds mid _ Hc) as Htot. unfold NONE in Htot. unfold Orderbook_new. rewrite (new_spec mid _ Hc). cbn [mbind Res_bind]. rewrite (total_slots_eq mid _ Hc).
  destruct (Occupancy_new_spec (total mid (bc_tick_size cfg)) ltac:(width_lia)) as (o & Eo & _). rewrite Eo. cbn [mbind Res_bind]. eexists. split; [reflexivity|].
  cbn. by apply zlen_replicate.
Qed.

Lemma checked_ok {A B} (r : Checked A) (k : A -> Res (Checked B)) :
  checked_bind (Ok r) k = match r with Valid a => k a | Invalid e => Ok (Invalid e) end.
Proof. by destruct r. Qed.

(** Once the tables are accepted, nothing is refused any more. *)
Lemma relink_never_refuses b orders seq e :
  (b ← rfold relink_order b orders; b ← rebuild_occupancy (set_sequence b seq); b ← refresh_best_bid b; b ← refresh_best_ask b; Ok (Valid b)) <> Ok (Invalid e).
Proof. intros E. repeat apply bind_ok in E as (? & _ & E). discriminate E. Qed.

(** C36: A bad checkpoint is refused, with the right message.  [snap_refusal] tells
    from the lists of a checkpoint alone what is wrong with it first: the slab
    bump above the capacity, a tick or lot that is not positive, an order whose
    handle is out of range or taken, or of neither side, a free list with a
    handle out of range, used or listed before, a slot that is in neither
    list; and the same of the user registry, with a user recorded twice.  If
    it finds something, [restore] returns that error (it does not panic), and
    the checkpoint is indeed inconsistent; if it finds nothing, the checkpoint
    is consistent (each slot below its bump is in exactly one place of exactly
    one table, positive tick and lot, known sides, distinct users) and
    [restore] refuses it on no ground.  The recorded mid price and tick are in
    the range of the price map, when the tick and lot are positive; numbers
    are of their unsigned types. *)
Theorem restore_refuses snap cap :
  snap_types snap -> 0 <= cap ->
  (0 < kc_tick_size (kb_config snap) -> 0 < kc_lot_size (kb_config snap) -> cfg_ok (kb_compression_mid_price snap) (kc_tick_size (kb_config snap))) ->
  Z.max cap (kb_slab_capacity snap) <= NONE ->
  match snap_refusal snap with
  | Some e => restore snap cap = Ok (Invalid e) /\ ~ consistent snap
  | None => consistent snap /\ forall e, restore snap cap <> Ok (Invalid e)
  end.
Proof.
  intros Hty Hcap Hcfg Hmax. pose proof (snap_refusal_none snap Hty) as Hnone. pose proof Hty as [H1 H2 H3 H5 H6 H7].
  assert (match snap_refusal snap with Some e => restore snap cap = Ok (Invalid e) | None => forall e, restore snap cap <> Ok (Invalid e) end) as Hmain.
  2:{ destruct (snap_refusal snap) as [e|]; split; [done | by intros Hx%Hnone | by apply Hnone | done]. }
  clear Hnone. unfold restore, snap_refusal. destruct (_ >? _) eqn:E1; [done|]. destruct (_ || _) eqn:E2; [done|]. bool_to_prop.
  destruct (new_book (mkConfig (kc_symbol_id (kb_config snap)) (kc_tick_size (kb_config snap)) (kc_lot_size (kb_config snap))) (Z.max cap (kb_slab_capacity snap))
    (kb_compression_mid_price snap)) as (b & -> & Hl); [cbn; apply Hcfg; lia | lia|]. cbn [mbind Res_bind]. rewrite marks_nil.
  destruct (restore_orders_exact (kb_slab_bump snap) (kb_orders snap) (set_bump_next (orders b) (kb_slab_bump snap)) []) as (os & -> & Hlo & Hbo);
    [done | cbn; lia|]. rewrite checked_ok. cbn [app]. destruct (orders_refusal _ _ _) as [e|]; cbn [or_else]; [done|].
  rewrite restore_free_exact by (intros i Hi%list_elem_of_In; auto). rewrite checked_ok. cbn [app].
  pose proof (free_refusal_none InvalidFreeList (kb_slab_bump snap) (map ko_handle (kb_orders snap)) (kb_free_handles snap) [] (NoDup_nil_2)) as Hfn.
  destruct (free_refusal _ _ _ _ _) as [e|]; cbn [or_else]; [done|]. destruct (proj1 Hfn eq_refl) as [[Hn Hlt] _]. cbn [app] in Hn. rewrite untracked_exact.
  destruct (uncovered _ _ _) as [e|]; cbn [or_else]; [done|].
  destruct (restore_free_handles_spec os (kb_free_handles snap) Hn) as (os' & -> & _).
  { intros x Hx. rewrite Hbo. cbn. split; [by apply H2 | by apply Hlt, list_elem_of_In]. }
  { rewrite Hbo, Hlo. cbn. lia. }
  { rewrite Hlo. cbn. lia. }
  cbn [mbind Res_bind]. destruct (restore_users_exact (kb_users snap) H5 H6 H7) as (us & ->). rewrite checked_ok. destruct (users_refusal _) as [e|]; [done|].
  intros e. apply relink_never_refuses.
Qed.
