(* ===== verification/Guarantees.v ===== *)
(** * Guarantees: what a new order is promised

    The theorems of the matching engine as a user of [process_new_order]
    ([rsx-book/src/matching.rs]) reads them: it returns, the book stays well
    formed and uncrossed, fills follow price-time priority within the limit,
    quantity and positions are conserved, each time-in-force keeps its
    promise and the events tell the story.  All are read off
    [process_spec]. *)

From S2P Require Import Prelude Types Slab Occupancy Compression Users Order Book Links BookInv Matching MatchInv.
From S2P Require Import FillQueue SlotMatch Engine Feasible Process.

Definition is_fill (e : Event) : bool := match e with Fill _ _ _ _ _ _ _ _ _ _ _ _ _ => true | _ => false end.

Section Guarantees.
Variables (mid tk : Z).
Hypothesis Hcfg : cfg_ok mid tk.
Hypothesis Hspread : spread_ok mid tk.

Abbreviation engine_ok := (engine_ok mid tk).
Abbreviation admissible := (admissible mid tk).
Abbreviation book_sum := (book_sum mid tk).
Abbreviation liquidity := (liquidity mid tk).
Abbreviation makers := (makers mid tk).
Abbreviation verdict := (verdict mid tk).
Abbreviation executed := (executed mid tk).

(** A run of the entry point: its result, the abstract book it leaves and
    the makers it consumed, which are the fills of its event buffer.  The
    makers are entries of the book as it was; taking the fills from it in
    order leaves the new book, apart from at most one new order of the
    taker's side at the tail of a queue. *)
Record processed (A : ABook) (b : Orderbook) (o : IncomingOrder) (fs : list MFill) (A' : ABook) (fl' : list Z)
    (o' : IncomingOrder) (b' : Orderbook) : Prop := {
  pr_run : process_new_order b o = Ok (o', b');
  pr_ok : engine_ok A' fl' b';
  pr_fills : exists tl, event_buf b' = fill_events (taken b o) fs ++ tl /\ forall e, In e tl -> is_fill e = false;
  pr_makers : forall m, In m fs -> exists t, In m.1 (A t);
  pr_takes : exists A1, consumes A fs A1 /\
    (A' = A1 \/ exists t e, A' = upd A1 t (A1 t ++ [e]) /\ ~ In e.1 (handles (A1 t)) /\ is_side (in_side o) e.2 = true);
}.

(** The two ways a run ends. *)
Definition stays (A : ABook) (b : Orderbook) (o : IncomingOrder) (fs : list MFill) (A' : ABook) (b' : Orderbook) : Prop :=
  fs = [] /\ A' = A /\
  ((exists r, verdict A b o = Refuse r /\ b' = set_events b [refusal o r]) \/
   verdict A b o = PostOnlyDone /\ b' = set_events b [done_event o PostOnly 0 (fillable b o)]).

Lemma terminal_not_fill o fs limited h : is_fill (terminal o fs limited h) = false.
Proof. unfold terminal, done_event. split_ifs; [done|by destruct (in_tif o)|done]. Qed.

Lemma executed_view A b o fs A1 A' fl' b' limited h bbo o' :
  bc_tick_size (config b) = tk /\ 0 < bc_lot_size (config b) <= I64_MAX ->
  process_new_order b o = Ok (o', b') -> executed (taken b o) A (set_events b []) fs A1 A' fl' b' limited h bbo ->
  processed A b o fs A' fl' o' b'.
Proof.
  intros Hen Hrun X. destruct (ex_keeps _ _ _ _ _ _ _ _ _ _ _ _ _ X) as (_ & _ & _ & _ & Hc & _). cbn in Hc.
  split; [done| | | |].
  - split; [apply X|apply X| |]; rewrite Hc; by destruct Hen.
  - eexists. split; [exact (ex_events _ _ _ _ _ _ _ _ _ _ _ _ _ X)|]. intros e [<-|He]; [apply terminal_not_fill|].
    destruct (ex_bbo _ _ _ _ _ _ _ _ _ _ _ _ _ X) as [(_ & ->)|(_ & ? & ? & ? & ? & -> & _)]; [done|]. by destruct He as [<-|[]].
  - destruct (ex_match _ _ _ _ _ _ _ _ _ _ _ _ _ X) as (fl1 & b1 & M). intros m Hm. apply (ma_takes _ _ _ _ _ _ _ _ _ _ M m Hm).
  - destruct (ex_match _ _ _ _ _ _ _ _ _ _ _ _ _ X) as (fl1 & b1 & M). exists A1. split; [apply M|].
    destruct (decide (rests (taken b o) fs limited)) as [Hr|Hr]; [right|left; exact (ex_same _ _ _ _ _ _ _ _ _ _ _ _ _ X Hr)].
    destruct (ex_rests _ _ _ _ _ _ _ _ _ _ _ _ _ X Hr) as (s & Hs & Hf & E). eexists _, (h, s). split; [exact E|]. split.
    + intros ((h' & s') & Eh & Hin)%in_map_iff. cbn in Eh. subst h'. by apply (Hf s').
    + destruct Hs as (_ & _ & Es & _). unfold is_side. cbn in *. rewrite Es. by destruct (in_side o).
Qed.

Lemma process_view A fl b o :
  engine_ok A fl b -> admissible A fl b o ->
  exists fs A' fl' o' b', processed A b o fs A' fl' o' b' /\
    (stays A b o fs A' b' \/
     verdict A b o = Execute /\ o' = in_with_remaining (fillable b o - filled fs) o /\
     exists A1 limited h bbo, executed (taken b o) A (set_events b []) fs A1 A' fl' b' limited h bbo).
Proof.
  intros He Had. destruct (process_spec mid tk Hcfg Hspread A fl b o He Had) as (o' & b' & Hrun & Ho). unfold outcome in Ho.
  assert (forall ev, is_fill ev = false -> b' = set_events b [ev] -> processed A b o [] A fl o' b') as Hst.
  { intros ev Hev ->. split; [done| |exists [ev]; split; [done|by intros e [<-|[]]]|by intros m []|exists A; split; [constructor|by left]].
    destruct He as [e1 e2 e3 e4]. split; try done. by apply book_inv_events. }
  destruct (verdict A b o) as [r| |] eqn:Ev.
  - exists [], A, fl, o', b'. split; [by apply (Hst (refusal o r))|]. left. split; [done|]. split; [done|]. left. by exists r.
  - exists [], A, fl, o', b'. split; [by eapply Hst; [|exact Ho]|]. left. split; [done|]. split; [done|]. by right.
  - destruct Ho as (fs & A1 & A' & fl' & limited & h & bbo & Eo & X). exists fs, A', fl', o', b'.
    split; [eapply executed_view; [split; apply He|done|exact X]|]. right. split; [done|]. split; [done|].
    by exists A1, limited, h, bbo.
Qed.

(** Resting orders of the taker's side are all that a run can add. *)
Lemma executed_makers A b o fs A1 A' fl' b' limited h bbo t x :
  executed o A b fs A1 A' fl' b' limited h bbo -> In x (A' t) -> is_side (opposite (in_side o)) x.2 = true -> In x (A1 t).
Proof.
  intros X Hx Hs. destruct (decide (rests o fs limited)) as [Hr|Hr].
  - destruct (ex_rests _ _ _ _ _ _ _ _ _ _ _ _ _ X Hr) as (s & Hs' & _ & E). rewrite E in Hx.
    apply in_upd_snoc in Hx as [Hx|[-> ->]]; [done|]. exfalso. destruct Hs' as (_ & _ & Hside & _).
    unfold is_side in Hs. cbn in Hs. rewrite Hside in Hs. by destruct (in_side o).
  - by rewrite (ex_same _ _ _ _ _ _ _ _ _ _ _ _ _ X Hr) in Hx.
Qed.

Lemma executed_sum A fl b o fs A1 A' fl' b' limited h bbo :
  engine_ok A fl b -> executed (taken b o) A (set_events b []) fs A1 A' fl' b' limited h bbo -> in_price o mod tk = 0 ->
  0 < in_price o <= I64_MAX ->
  book_sum erem A' = book_sum erem A - filled fs + (if decide (rests (taken b o) fs limited) then fillable b o - filled fs else 0).
Proof.
  intros He X Hal Hp. destruct (ex_match _ _ _ _ _ _ _ _ _ _ _ _ _ X) as (fl1 & b1 & M).
  assert (book_sum erem A1 = book_sum erem A - filled fs) as E1.
  { apply consumes_qty; [apply M|]. intros t. apply (open_out mid tk A fl b t), book_open, He. }
  destruct (decide (rests (taken b o) fs limited)) as [Hr|Hr].
  - destruct (ex_rests _ _ _ _ _ _ _ _ _ _ _ _ _ X Hr) as (s & Hs & _ & ->).
    rewrite book_sum_upd by (by apply price_slot). rewrite zsum_app. destruct Hs as (_ & Hrem & _). cbn in Hrem. simpl.
    change (erem (h, s)) with (os_remaining s). rewrite Hrem. simpl. lia.
  - rewrite (ex_same _ _ _ _ _ _ _ _ _ _ _ _ _ X Hr). lia.
Qed.

(** A maker that was hit. *)
Lemma matched_maker A fl b o room fs A1 fl1 b0 b1 m : engine_ok A fl b -> matched mid tk (taken b o) room A b0 fs A1 fl1 b1 -> In m fs ->
  (exists t, In m.1 (A t)) /\ is_side (opposite (in_side o)) m.1.2 = true /\ 0 < m.2 <= erem m.1 /\
  match in_side o with Buy => os_price m.1.2 <= in_price o | Sell => in_price o <= os_price m.1.2 end.
Proof.
  intros He M Hm. destruct (ma_takes _ _ _ _ _ _ _ _ _ _ M m Hm) as [Hc [t Ht]]. split; [by exists t|].
  apply cross_spec in Hc as [Hs Hw]; [|apply (lk_side _ _ _ (c_links _ _ _ _ _ (bk_core _ _ _ _ _ (en_book _ _ _ _ _ He))) t _ Ht)].
  split; [done|]. split; [apply (consumes_pos _ _ _ (ra_consumes _ _ _ _ _ _ (ma_moved _ _ _ _ _ _ _ _ _ _ M)) m Hm)|].
  cbn in Hs, Hw. by destruct (in_side o).
Qed.

(** ** The promises *)

(** C1: a new order never panics or loops: whatever its price, size, side,
    time in force and flags, [process_new_order] returns, and the book it
    leaves satisfies every structural invariant and is not crossed. *)
Theorem process_total A fl b o :
  engine_ok A fl b -> admissible A fl b o ->
  exists o' b' A' fl', process_new_order b o = Ok (o', b') /\ engine_ok A' fl' b'.
Proof.
  intros He Had. destruct (process_view A fl b o He Had) as (fs & A' & fl' & o' & b' & P & _).
  exists o', b', A', fl'. split; apply P.
Qed.

(** C21: price-time priority.  Every maker that was hit is an opposite order of
    the book as it was, hit for at most what it had; it is priced at least as
    well as every opposite order still resting, and nothing of an order that
    had arrived before it at its price on its side is left. *)
Theorem price_time_priority A fl b o :
  engine_ok A fl b -> admissible A fl b o ->
  exists fs A' fl' o' b', processed A b o fs A' fl' o' b' /\
    (forall m, In m fs -> (exists t, In m.1 (A t)) /\ is_side (opposite (in_side o)) m.1.2 = true /\ 0 < m.2 <= erem m.1) /\
    (forall m t x, In m fs -> In x (A' t) -> is_side (opposite (in_side o)) x.2 = true ->
       no_worse (opposite (in_side o)) (os_price m.1.2) (os_price x.2)) /\
    (forall t q1 e q2 f x y, A t = q1 ++ e :: q2 -> In (e, f) fs -> In x q1 -> is_side (opposite (in_side o)) x.2 = true ->
       os_price x.2 = os_price e.2 -> In y (A' t) -> is_side (opposite (in_side o)) y.2 = true -> y.1 <> x.1).
Proof.
  intros He Had. destruct (process_view A fl b o He Had) as (fs & A' & fl' & o' & b' & P & V).
  exists fs, A', fl', o', b'. split; [done|]. destruct V as [(-> & _)|(_ & _ & A1 & limited & h & bbo & X)].
  { split; [by intros ? []|]. split; [by intros ? ? ? []|by intros ? ? ? ? ? ? ? _ []]. }
  destruct (ex_match _ _ _ _ _ _ _ _ _ _ _ _ _ X) as (fl1 & b1 & M). split; [|split].
  - intros m Hm. by destruct (matched_maker A fl b o _ _ _ _ _ _ m He M Hm) as (Ht & Hp & Hs & _).
  - intros m t x Hm Hx Hs. eapply (ma_best _ _ _ _ _ _ _ _ _ _ M); [done|by eapply executed_makers|done].
  - intros t q1 e q2 f x y Et Hf Hx Hs Hp Hy Hys Hh.
    apply (ma_fifo _ _ _ _ _ _ _ _ _ _ M t q1 e q2 f x Et Hf Hx Hs Hp). rewrite <- Hh. apply in_handles.
    by eapply executed_makers.
Qed.

(** every fill is at the price of a resting opposite order within the
    taker's limit, for a positive quantity that order has. *)
Theorem fills_within_limit A fl b o :
  engine_ok A fl b -> admissible A fl b o ->
  exists fs A' fl' o' b', processed A b o fs A' fl' o' b' /\
    forall m, In m fs -> 0 < m.2 <= erem m.1 /\ (exists t, In m.1 (A t)) /\
      is_side (opposite (in_side o)) m.1.2 = true /\
      match in_side o with Buy => os_price m.1.2 <= in_price o | Sell => in_price o <= os_price m.1.2 end.
Proof.
  intros He Had. destruct (process_view A fl b o He Had) as (fs & A' & fl' & o' & b' & P & V).
  exists fs, A', fl', o', b'. split; [done|]. destruct V as [(-> & _)|(_ & _ & A1 & limited & h & bbo & X)]; [by intros ? []|].
  destruct (ex_match _ _ _ _ _ _ _ _ _ _ _ _ _ X) as (fl1 & b1 & M). intros m Hm.
  by destruct (matched_maker A fl b o _ _ _ _ _ _ m He M Hm) as (Ht & Hs & Hp & Hl).
Qed.

Lemma verdict_execute A b o :
  verdict A b o = Execute -> 0 < in_price o /\ in_price o mod tk = 0 /\ 0 < in_qty o /\
    in_reduce_only o && negb (contains (users b) (in_user o) && (0 <? reducible b o)) = false /\
    (in_post_only o = true -> makers A (in_side o) (in_price o) <= 0) /\
    (in_tif o = FOK -> fillable b o <= liquidity A (in_side o) (in_price o)).
Proof.
  unfold Process.verdict. destruct (in_reduce_only o && _) eqn:Er; split_ifs; try done. intros _.
  repeat match goal with H : _ || _ = false |- _ => apply orb_false_iff in H as [? ?] end.
  bool_to_prop. split; [lia|]. split; [lia|]. split; [lia|]. split; [done|]. split.
  - intros Hp. rewrite Hp in *. cbn [andb] in *. lia.
  - intros Hf. rewrite bool_decide_eq_true_2 in * by done. cbn [andb] in *. lia.
Qed.

(** C22: quantity is conserved.  An executed order is split into what was
    filled and what is left; the resting quantity of the book falls by the
    fills and grows by what rests, which is all that is left or nothing. *)
Theorem quantity_conserved A fl b o :
  engine_ok A fl b -> admissible A fl b o ->
  exists fs A' fl' o' b' rested, processed A b o fs A' fl' o' b' /\
    book_sum erem A' = book_sum erem A - filled fs + rested /\
    match verdict A b o with
    | Execute => 0 <= filled fs <= fillable b o /\ in_remaining o' = fillable b o - filled fs /\
        (rested = 0 \/ rested = in_remaining o' /\ in_tif o = GTC)
    | _ => filled fs = 0 /\ rested = 0
    end.
Proof.
  intros He Had. destruct (process_view A fl b o He Had) as (fs & A' & fl' & o' & b' & P & V).
  destruct V as [(-> & -> & V)|(V & -> & A1 & limited & h & bbo & X)].
  { exists [], A, fl', o', b', 0. split; [done|]. split; [unfold filled; simpl; lia|].
    by destruct V as [(r & -> & _)|(-> & _)]. }
  destruct (verdict_execute A b o V) as (Hp & Hal & _). pose proof (ad_price _ _ _ _ _ _ Had) as Hpw.
  destruct (ex_match _ _ _ _ _ _ _ _ _ _ _ _ _ X) as (fl1 & b1 & M). pose proof (ma_rem _ _ _ _ _ _ _ _ _ _ M) as Hr. cbn in Hr.
  eexists fs, A', fl', _, b', _. split; [done|]. split; [eapply executed_sum; [done|exact X|done|width_lia]|].
  rewrite V. split; [done|]. split; [done|]. destruct (decide (rests (taken b o) fs limited)) as [(_ & _ & Ht)|]; [right|by left]. done.
Qed.

(** C23: the event buffer of a run is the fills in execution order, each
    followed by the maker's completion when it is used up, then exactly one
    event that closes the taker's order, then at most one book-top event; it
    fits the buffer.  The makers are orders of the book as it was, so that a
    completion follows exactly the fills that took all such an order had. *)
Theorem event_order A fl b o :
  engine_ok A fl b -> admissible A fl b o ->
  exists fs A' fl' o' b' closing bbo, processed A b o fs A' fl' o' b' /\ (forall m, In m fs -> exists t, In m.1 (A t)) /\
    event_buf b' = fill_events (taken b o) fs ++ closing :: bbo /\ zlen (event_buf b') <= MAX_EVENTS /\
    (bbo = [] \/ exists bp bq ap aq, bbo = [BBO bp bq ap aq]) /\
    match verdict A b o with
    | Refuse r => closing = refusal o r /\ fs = []
    | PostOnlyDone => closing = done_event o PostOnly 0 (fillable b o) /\ fs = []
    | Execute => exists limited h, closing = terminal (taken b o) fs limited h /\ (limited = true -> zlen fs = MAX_MAKERS_PER_ORDER)
    end.
Proof.
  intros He Had. destruct (process_view A fl b o He Had) as (fs & A' & fl' & o' & b' & P & V).
  destruct V as [(-> & -> & V)|(V & -> & A1 & limited & h & bbo & X)].
  { exists [], A, fl', o', b'. destruct V as [(r & V & ->)|(V & ->)]; eexists _, []; (split; [done|]); (split; [by intros m []|]); (split; [reflexivity|]);
      (split; [vm_compute; discriminate|]); (split; [by left|]); by rewrite V. }
  exists fs, A', fl', (in_with_remaining (fillable b o - filled fs) o), b', (terminal (taken b o) fs limited h), bbo.
  destruct (ex_match _ _ _ _ _ _ _ _ _ _ _ _ _ X) as (fl1 & b1 & M). pose proof (ex_events _ _ _ _ _ _ _ _ _ _ _ _ _ X) as Hev.
  assert (bbo = [] \/ exists bp bq ap aq, bbo = [BBO bp bq ap aq]) as Hb.
  { destruct (ex_bbo _ _ _ _ _ _ _ _ _ _ _ _ _ X) as [(_ & ->)|(_ & ? & ? & ? & ? & -> & _)]; [by left|right; by repeat eexists]. }
  split; [done|]. split; [apply P|]. split; [done|]. split; [|split; [done|rewrite V; exists limited, h; split; [done|apply X]]].
  rewrite Hev, zlen_app, zlen_cons. pose proof (events_len (taken b o) fs). pose proof (ma_room _ _ _ _ _ _ _ _ _ _ M) as Hm.
  rewrite max_makers in Hm. unfold MAX_EVENTS. destruct Hb as [->|(?&?&?&?&->)]; unfold zlen at 2; simpl; lia.
Qed.

(** fill-or-kill is all or nothing: either the whole fillable quantity
    trades and nothing rests, or nothing trades and the book is untouched. *)
Theorem fok_all_or_nothing A fl b o :
  engine_ok A fl b -> admissible A fl b o -> in_tif o = FOK ->
  exists fs A' fl' o' b', processed A b o fs A' fl' o' b' /\ consumes A fs A' /\
    match verdict A b o with
    | Execute => filled fs = fillable b o /\ in_remaining o' = 0
    | _ => fs = [] /\ exists ev, b' = set_events b [ev]
    end.
Proof.
  intros He Had Hf. destruct (process_view A fl b o He Had) as (fs & A' & fl' & o' & b' & P & V).
  exists fs, A', fl', o', b'. split; [done|]. destruct V as [(-> & -> & V)|(V & -> & A1 & limited & h & bbo & X)].
  { split; [constructor|]. destruct V as [(r & -> & ->)|(-> & ->)]; eauto. }
  destruct (ex_match _ _ _ _ _ _ _ _ _ _ _ _ _ X) as (fl1 & b1 & M).
  assert (A' = A1) as ->. { apply (ex_same _ _ _ _ _ _ _ _ _ _ _ _ _ X). intros (_ & _ & Ht). cbn in Ht. congruence. }
  split; [apply M|]. rewrite V. destruct (verdict_execute A b o V) as (_ & _ & _ & _ & _ & Hl).
  destruct (ad_fok _ _ _ _ _ _ Had Hf) as [Hm _].
  pose proof (matched_takes mid tk Hcfg (taken b o) A fl (set_events b []) fs A1 fl1 b1 (book_inv_events _ _ _ _ _ [] (en_book _ _ _ _ _ He)) M Hm) as Ht.
  cbn in Ht. specialize (Hl Hf). cbn. lia.
Qed.

(** a post-only order never takes liquidity. *)
Theorem post_only_never_takes A fl b o :
  engine_ok A fl b -> admissible A fl b o -> in_post_only o = true ->
  exists A' fl' o' b', processed A b o [] A' fl' o' b'.
Proof.
  intros He Had Hpo. destruct (process_view A fl b o He Had) as (fs & A' & fl' & o' & b' & P & V).
  exists A', fl', o', b'. destruct V as [(-> & _)|(V & _ & A1 & limited & h & bbo & X)]; [done|].
  destruct (verdict_execute A b o V) as (_ & _ & _ & _ & Hm & _). specialize (Hm Hpo).
  destruct (ex_match _ _ _ _ _ _ _ _ _ _ _ _ _ X) as (fl1 & b1 & M). destruct fs as [|m fs]; [done|]. exfalso.
  destruct (ma_takes _ _ _ _ _ _ _ _ _ _ M m (or_introl eq_refl)) as [Hc [t Ht]].
  assert (0 < makers A (in_side o) (in_price o)); [|lia]. apply (makers_pos mid tk Hcfg A fl b); [apply He|]. eauto.
Qed.

(** what is left of an order rests only if it is good-till-cancelled and
    the maker budget did not stop it; then it joins the tail of its price's
    queue under a fresh handle, is announced with it, and crosses nothing.
    In every other case no order is added. *)
Theorem residual_rests A fl b o :
  engine_ok A fl b -> admissible A fl b o ->
  exists fs A1 A' fl' o' b' limited, processed A b o fs A' fl' o' b' /\ consumes A fs A1 /\
    (limited = true -> zlen fs = MAX_MAKERS_PER_ORDER) /\
    if bool_decide (verdict A b o = Execute /\ in_tif o = GTC /\ limited = false /\ filled fs < fillable b o) then
      exists h s, residual_slot o (fillable b o - filled fs) s /\
        A' = upd A1 (idx mid tk (in_price o)) (A1 (idx mid tk (in_price o)) ++ [(h, s)]) /\
        ~ In h (handles (A1 (idx mid tk (in_price o)))) /\
        In (OrderInserted h (in_user o) (side_u8 (in_side o)) (in_price o) (fillable b o - filled fs) (in_oid_hi o) (in_oid_lo o)) (event_buf b') /\
        forall t x, In x (A1 t) -> is_side (opposite (in_side o)) x.2 = true -> ~ no_worse (opposite (in_side o)) (os_price x.2) (in_price o)
    else A' = A1.
Proof.
  intros He Had. destruct (process_view A fl b o He Had) as (fs & A' & fl' & o' & b' & P & V).
  destruct V as [(-> & -> & V)|(V & -> & A1 & limited & h & bbo & X)].
  { exists [], A, A, fl', o', b', false. split; [done|]. split; [constructor|]. split; [done|].
    rewrite bool_decide_eq_false_2; [done|]. intros [E _]. destruct V as [(r & V & _)|(V & _)]; congruence. }
  destruct (ex_match _ _ _ _ _ _ _ _ _ _ _ _ _ X) as (fl1 & b1 & M).
  eexists fs, A1, A', fl', _, b', limited. split; [done|]. split; [apply M|]. split; [apply X|]. case_bool_decide as Hb.
  2: { apply (ex_same _ _ _ _ _ _ _ _ _ _ _ _ _ X). intros (H1 & H2 & H3). cbn in *. destruct Hb. repeat split; try done; lia. }
  destruct Hb as (_ & Htif & -> & Hlt).
  assert (rests (taken b o) fs false) as Hr by (split; [cbn; lia|done]).
  destruct (ex_rests _ _ _ _ _ _ _ _ _ _ _ _ _ X Hr) as (s & Hs & Hf & E). exists h, s. split; [done|]. split; [done|]. split; [|split].
  - intros ((h' & s') & Eh & Hin)%in_map_iff. cbn in Eh. subst h'. by apply (Hf s').
  - rewrite (ex_events _ _ _ _ _ _ _ _ _ _ _ _ _ X). apply in_app_iff. right. left. unfold terminal. cbn.
    replace (fillable b o - filled fs >? 0) with true by lia. by rewrite Htif.
  - intros t x Hx Hxs Hw. pose proof (ex_uncrossed _ _ _ _ _ _ _ _ _ _ _ _ _ X) as Hu. rewrite E in Hu.
    assert (In x (upd A1 (idx mid tk (in_price o)) (A1 (idx mid tk (in_price o)) ++ [(h, s)]) t)) as Hx' by (apply in_upd_snoc; by left).
    assert (In (h, s) (upd A1 (idx mid tk (in_price o)) (A1 (idx mid tk (in_price o)) ++ [(h, s)]) (idx mid tk (in_price o)))) as Hs'
      by (apply in_upd_snoc; by right).
    destruct Hs as (Ep & _ & Es & _). cbn in Ep, Es. rewrite <- Ep in Hw. destruct (in_side o); cbn in Es, Hxs, Hw.
    + pose proof (Hu _ _ _ _ Hs' Hx' ltac:(unfold is_side; simpl; by rewrite Es) Hxs) as Hlt'. simpl in Hlt'. lia.
    + pose proof (Hu _ _ _ _ Hx' Hs' Hxs ltac:(unfold is_side; simpl; by rewrite Es)) as Hlt'. simpl in Hlt'. lia.
Qed.

(** an executed order misses no liquidity: while the crossing makers fit
    the per-order cap, it trades the lesser of its fillable quantity and all
    the quantity resting within its limit. *)
Theorem takes_all_liquidity A fl b o :
  engine_ok A fl b -> admissible A fl b o -> verdict A b o = Execute -> makers A (in_side o) (in_price o) <= MAX_MAKERS_PER_ORDER ->
  exists fs A' fl' o' b', processed A b o fs A' fl' o' b' /\
    filled fs = Z.min (fillable b o) (liquidity A (in_side o) (in_price o)).
Proof.
  intros He Had V Hm. destruct (process_view A fl b o He Had) as (fs & A' & fl' & o' & b' & P & W).
  exists fs, A', fl', o', b'. split; [done|]. destruct W as [(_ & _ & [(r & E & _)|(E & _)])|(_ & -> & A1 & limited & h & bbo & X)]; [congruence|congruence|].
  destruct (ex_match _ _ _ _ _ _ _ _ _ _ _ _ _ X) as (fl1 & b1 & M).
  exact (matched_takes mid tk Hcfg (taken b o) A fl (set_events b []) fs A1 fl1 b1 (book_inv_events _ _ _ _ _ [] (en_book _ _ _ _ _ He)) M Hm).
Qed.

(** Positions after a run. *)
Lemma executed_nets A fl b o fs A1 A' fl' b' limited h bbo :
  admissible A fl b o -> verdict A b o = Execute -> executed (taken b o) A (set_events b []) fs A1 A' fl' b' limited h bbo ->
  (forall v, net_of (users b') v = net_of (users b) v + net_delta o v fs) /\ total_net (users b') = total_net (users b).
Proof.
  intros Had V X. destruct (verdict_execute A b o V) as (_ & _ & Hq & Hr & _). pose proof (fillable_bounds mid tk A fl b o Had Hq Hr) as Hb.
  destruct (ex_match _ _ _ _ _ _ _ _ _ _ _ _ _ X) as (fl1 & b1 & M). pose proof (ma_rem _ _ _ _ _ _ _ _ _ _ M) as Hf. cbn in Hf.
  apply (ex_net _ _ _ _ _ _ _ _ _ _ _ _ _ X). intros v. cbn. pose proof (ad_net _ _ _ _ _ _ Had v). lia.
Qed.

(** positions move by exactly the fills: each user's net quantity
    changes by the signed quantities traded as taker and as maker, and the
    sum over all users does not change. *)
Theorem positions_conserved A fl b o :
  engine_ok A fl b -> admissible A fl b o ->
  exists fs A' fl' o' b', processed A b o fs A' fl' o' b' /\
    (forall v, net_of (users b') v = net_of (users b) v + net_delta o v fs) /\ total_net (users b') = total_net (users b).
Proof.
  intros He Had. destruct (process_view A fl b o He Had) as (fs & A' & fl' & o' & b' & P & V).
  exists fs, A', fl', o', b'. split; [done|]. destruct V as [(-> & _ & V)|(V & _ & A1 & limited & h & bbo & X)].
  - assert (users b' = users b) as -> by (by destruct V as [(r & _ & ->)|(_ & ->)]). split; [|done].
    intros v. unfold net_delta. simpl. lia.
  - by eapply executed_nets.
Qed.

Lemma net_delta_taker o fs :
  (forall m, In m fs -> 0 <= m.2) ->
  0 <= sign_of (in_side o) * net_delta o (in_user o) fs <= filled fs.
Proof.
  induction fs as [|m fs IH]; intros H; [unfold net_delta, filled; simpl; lia|]. unfold net_delta, filled. simpl. rewrite Z.eqb_refl.
  pose proof (H m (or_introl eq_refl)). specialize (IH (fun x Hx => H x (or_intror Hx))). unfold net_delta, filled in IH.
  rewrite Z.eqb_refl in IH. destruct (in_user o =? os_user m.1.2), (in_side o); simpl in *; lia.
Qed.

(** a reduce-only order can only bring its user's position towards
    zero: the position keeps its sign or becomes flat and never grows. *)
Theorem reduce_only_reduces A fl b o :
  engine_ok A fl b -> admissible A fl b o -> in_reduce_only o = true ->
  exists fs A' fl' o' b', processed A b o fs A' fl' o' b' /\
    let before := net_of (users b) (in_user o) in
    let after := net_of (users b') (in_user o) in
    0 <= after <= before \/ before <= after <= 0.
Proof.
  intros He Had Hro. destruct (process_view A fl b o He Had) as (fs & A' & fl' & o' & b' & P & V).
  exists fs, A', fl', o', b'. split; [done|]. cbn zeta. destruct V as [(-> & _ & V)|(V & _ & A1 & limited & h & bbo & X)].
  - assert (users b' = users b) as -> by (by destruct V as [(r & _ & ->)|(_ & ->)]). lia.
  - destruct (executed_nets _ _ _ _ _ _ _ _ _ _ _ _ Had V X) as [Hn _]. rewrite Hn.
    destruct (verdict_execute A b o V) as (_ & _ & _ & Hr & _). rewrite Hro in Hr. cbn in Hr.
    destruct (ex_match _ _ _ _ _ _ _ _ _ _ _ _ _ X) as (fl1 & b1 & M). pose proof (ma_rem _ _ _ _ _ _ _ _ _ _ M) as Hf.
    pose proof (consumes_pos _ _ _ (ra_consumes _ _ _ _ _ _ (ma_moved _ _ _ _ _ _ _ _ _ _ M))) as Hpos.
    pose proof (net_delta_taker o fs ltac:(intros m Hm; specialize (Hpos m Hm); lia)) as Hd.
    cbn in Hf. unfold fillable, reducible in *. rewrite Hro in Hf. destruct (in_side o); simpl in *; lia.
Qed.

(** a run announces the book's top exactly when the best bid or ask
    moved, and what it announces is the best price of each side with all the
    quantity resting at it. *)
Theorem bbo_exact A fl b o :
  engine_ok A fl b -> admissible A fl b o -> verdict A b o = Execute ->
  exists fs A' fl' o' b' closing bbo, processed A b o fs A' fl' o' b' /\
    event_buf b' = fill_events (taken b o) fs ++ closing :: bbo /\
    if same_best b b' then bbo = []
    else exists bp bq ap aq, bbo = [BBO bp bq ap aq] /\ top_of_book mid tk Buy A' bp bq /\ top_of_book mid tk Sell A' ap aq.
Proof.
  intros He Had V. destruct (process_view A fl b o He Had) as (fs & A' & fl' & o' & b' & P & W).
  destruct W as [(_ & _ & [(r & E & _)|(E & _)])|(_ & -> & A1 & limited & h & bbo & X)]; [congruence|congruence|].
  eexists fs, A', fl', _, b', _, bbo. split; [done|]. split; [apply X|].
  destruct (ex_bbo _ _ _ _ _ _ _ _ _ _ _ _ _ X) as [(Hs & ->)|(Hs & H)]; unfold same_best in *; cbn in Hs; rewrite Hs; done.
Qed.

End Guarantees.
