(* ===== verification/Ranking.v ===== *)
(** * Ranking: lists in price-time priority

    A side of a market as one list, best price first and in arrival order at
    each price.  A ranked list is determined by its queues per price, which is
    what makes the slot a price is stored in irrelevant. *)

From Stdlib Require Import Sorted.
From S2P Require Import Prelude Types BookInv.

Lemma flat_map_ext_in {A B} (f g : A -> list B) l : (forall x, In x l -> f x = g x) -> flat_map f l = flat_map g l.
Proof.
  induction l as [|x l IH]; intros H; [done|]. cbn [flat_map]. rewrite (H x) by (by left).
  f_equal. apply IH. intros y Hy. apply H. by right.
Qed.

(** Of slots of which all but one give nothing, that one. *)
Lemma flat_map_only {B} (f : Z -> list B) ts t0 :
  NoDup ts -> (forall t, In t ts -> t <> t0 -> f t = []) -> (~ In t0 ts -> f t0 = []) -> flat_map f ts = f t0.
Proof.
  induction ts as [|t ts IH]; intros Hn Ho Hz; [symmetry; apply Hz; by intros []|]. apply NoDup_cons in Hn as [Hni Hn]. rewrite list_elem_of_In in Hni.
  cbn [flat_map]. destruct (Z.eq_dec t t0) as [->|Hne].
  - rewrite (flat_map_ext_in f (fun _ => [])); [clear; induction ts as [|t ts IH]; cbn [flat_map app]; [by rewrite app_nil_r|exact IH]|].
    intros t Ht. apply Ho; [by right|]. by intros ->.
  - rewrite (Ho t) by (done || by left). apply IH; [done|intros; apply Ho; [by right|done]|].
    intros Hn0. apply Hz. by intros [?|?].
Qed.

Section Ranking.
Context {X : Type} (px : X -> Z) (sd : Side).

(** The elements at one price, in order. *)
Definition queue_of (p : Z) (q : list X) : list X := List.filter (fun x => px x =? p) q.

#[local] Arguments queue_of : simpl never.

(** Insertion behind everything that is no worse. *)
Fixpoint rank (x : X) (q : list X) : list X :=
  match q with
  | [] => [x]
  | y :: q' => if better sd (px x) (px y) then x :: y :: q' else y :: rank x q'
  end.

Definition ranking (xs : list X) : list X := fold_left (fun q x => rank x q) xs [].

Definition ranked (q : list X) : Prop := StronglySorted (fun x y => no_worse sd (px x) (px y)) q.

Lemma in_queue_of p q x : In x (queue_of p q) <-> In x q /\ px x = p.
Proof. unfold queue_of. rewrite filter_In, Z.eqb_eq. done. Qed.

Lemma queue_of_none p q : (forall x, In x q -> px x <> p) -> queue_of p q = [].
Proof.
  intros H. destruct (queue_of p q) as [|x l] eqn:E; [done|]. exfalso.
  destruct (proj1 (in_queue_of p q x)) as [Hx Hp]; [rewrite E; by left|]. by apply (H x).
Qed.

Lemma queue_of_app p q1 q2 : queue_of p (q1 ++ q2) = queue_of p q1 ++ queue_of p q2.
Proof. apply List.filter_app. Qed.

Lemma queue_of_cons p x q : queue_of p (x :: q) = (if px x =? p then [x] else []) ++ queue_of p q.
Proof. unfold queue_of. simpl. by case_if. Qed.

(** ** Insertion *)

Lemma rank_perm x q : rank x q ≡ₚ x :: q.
Proof. induction q as [|y q IH]; [done|]. simpl. case_if; [done|]. rewrite IH. apply Permutation_swap. Qed.

Lemma rank_in x q y : In y (rank x q) <-> y = x \/ In y q.
Proof. rewrite (rank_perm x q). simpl. intuition congruence. Qed.

Lemma rank_ranked x q : ranked q -> ranked (rank x q).
Proof.
  unfold ranked. induction 1 as [|y q Hq IH Hy]; [constructor; constructor|]. simpl.
  destruct (better sd (px x) (px y)) eqn:Eb.
  - constructor; [by constructor|]. assert (no_worse sd (px x) (px y)) as Hxy by (destruct sd; simpl in *; lia).
    constructor; [done|]. eapply Forall_impl; [exact Hy|]. intros z Hz. by eapply no_worse_trans.
  - apply not_better in Eb. constructor; [done|]. apply List.Forall_forall. intros z [->|Hz]%rank_in; [done|].
    by apply (proj1 (List.Forall_forall _ _) Hy).
Qed.

(** A newcomer joins the tail of its price's queue. *)
Lemma rank_queue p x q : ranked q -> queue_of p (rank x q) = queue_of p q ++ (if px x =? p then [x] else []).
Proof.
  induction 1 as [|y q Hq IH Hy]; [simpl; by rewrite queue_of_cons, app_nil_r|]. simpl.
  destruct (better sd (px x) (px y)) eqn:Eb.
  - rewrite (queue_of_cons p x). destruct (px x =? p) eqn:Ep; [|by rewrite app_nil_r]. bool_to_prop.
    rewrite (queue_of_none p (y :: q)); [done|]. intros z [<-|Hz] Hzp; [destruct sd; simpl in *; lia|].
    pose proof (proj1 (List.Forall_forall _ _) Hy z Hz) as Hw. simpl in Hw. destruct sd; simpl in *; lia.
  - rewrite !(queue_of_cons p y), IH. by rewrite app_assoc.
Qed.

Lemma ranking_spec_from xs q :
  ranked q -> let r := fold_left (fun q x => rank x q) xs q in
  ranked r /\ r ≡ₚ q ++ xs /\ forall p, queue_of p r = queue_of p q ++ queue_of p xs.
Proof.
  revert q. induction xs as [|x xs IH]; intros q Hq; simpl.
  { split; [done|]. split; [by rewrite app_nil_r|]. intros p. by rewrite app_nil_r. }
  destruct (IH (rank x q) (rank_ranked x q Hq)) as (H1 & H2 & H3). split; [done|]. split.
  - etransitivity; [exact H2|]. rewrite (rank_perm x q). simpl. apply Permutation_middle.
  - intros p. by rewrite H3, (rank_queue p x q Hq), <- app_assoc, <- queue_of_cons.
Qed.

Lemma ranking_ranked xs : ranked (ranking xs).
Proof. apply (ranking_spec_from xs []). constructor. Qed.

Lemma ranking_perm xs : ranking xs ≡ₚ xs.
Proof. apply (ranking_spec_from xs []). constructor. Qed.

Lemma ranking_queue p xs : queue_of p (ranking xs) = queue_of p xs.
Proof. apply (ranking_spec_from xs []). constructor. Qed.

Lemma ranking_in xs x : In x (ranking xs) <-> In x xs.
Proof. by rewrite (ranking_perm xs). Qed.

(** ** A ranked list is its queues *)

Lemma ranked_unique q1 q2 : ranked q1 -> ranked q2 -> (forall p, queue_of p q1 = queue_of p q2) -> q1 = q2.
Proof.
  assert (forall q q' x, (forall p, queue_of p q = queue_of p q') -> In x q -> In x q') as Hin.
  { intros q q' x E Hx. apply (in_queue_of (px x)). rewrite <- E. by apply in_queue_of. }
  intros H1. revert q2. induction H1 as [|x q1 H1 IH Hx]; intros q2 H2 E.
  { destruct q2 as [|y q2]; [done|]. by destruct (Hin _ _ y (fun p => eq_sym (E p)) (or_introl eq_refl)). }
  destruct H2 as [|y q2 H2 Hy]; [by destruct (Hin _ _ x E (or_introl eq_refl))|].
  assert (px x = px y) as Hxy.
  { apply (no_worse_antisym sd).
    - destruct (Hin _ _ y (fun p => eq_sym (E p)) (or_introl eq_refl)) as [->|Hi]; [by destruct sd; simpl|].
      by apply (proj1 (List.Forall_forall _ _) Hx).
    - destruct (Hin _ _ x E (or_introl eq_refl)) as [->|Hi]; [by destruct sd; simpl|].
      by apply (proj1 (List.Forall_forall _ _) Hy). }
  pose proof (E (px x)) as Eh. rewrite !queue_of_cons, <- Hxy, Z.eqb_refl in Eh. injection Eh as <- _.
  f_equal. apply IH; [done|]. intros p. specialize (E p). rewrite !queue_of_cons in E. by apply app_inv_head in E.
Qed.

Lemma ranking_unique q xs : ranked q -> (forall p, queue_of p q = queue_of p xs) -> q = ranking xs.
Proof. intros Hq E. apply ranked_unique; [done|apply ranking_ranked|]. intros p. by rewrite ranking_queue. Qed.

(** Dropping elements keeps the rank; so does replacing one at its price. *)
Lemma flat_map_ranked (f : X -> list X) q :
  ranked q -> (forall x y, In y (f x) -> px y = px x) -> (forall x, (length (f x) <= 1)%nat) -> ranked (flat_map f q).
Proof.
  intros Hq Hp Hl. induction Hq as [|x q Hq IH Hx]; [constructor|]. simpl.
  specialize (Hl x). destruct (f x) as [|y [|z l]] eqn:Ef; [done| |simpl in Hl; lia]. simpl.
  constructor; [done|]. apply List.Forall_forall. intros z (w & Hw & Hz)%in_flat_map.
  rewrite (Hp w z Hz), (Hp x y) by (rewrite Ef; by left). by apply (proj1 (List.Forall_forall _ _) Hx).
Qed.

Lemma flat_map_queue (f : X -> list X) p q :
  (forall x y, In y (f x) -> px y = px x) -> queue_of p (flat_map f q) = flat_map f (queue_of p q).
Proof.
  intros Hp. induction q as [|x q IH]; [done|]. simpl. rewrite queue_of_app, queue_of_cons, IH, flat_map_app. f_equal.
  destruct (px x =? p) eqn:E; bool_to_prop; simpl.
  - rewrite app_nil_r. unfold queue_of. apply forallb_filter_id. apply forallb_forall. intros y Hy. rewrite (Hp x y Hy). lia.
  - apply queue_of_none. intros y Hy. by rewrite (Hp x y Hy).
Qed.

Lemma flat_map_ranking (f : X -> list X) xs :
  (forall x y, In y (f x) -> px y = px x) -> (forall x, (length (f x) <= 1)%nat) ->
  ranking (flat_map f xs) = flat_map f (ranking xs).
Proof.
  intros Hp Hl. symmetry. apply ranking_unique; [apply flat_map_ranked; [apply ranking_ranked|done|done]|].
  intros p. by rewrite !flat_map_queue, ranking_queue.
Qed.

Lemma filter_ranking (f : X -> bool) xs : List.filter f (ranking xs) = ranking (List.filter f xs).
Proof.
  assert (forall q, List.filter f q = flat_map (fun x => if f x then [x] else []) q) as E.
  { induction q as [|x q IH]; [done|]. simpl. rewrite IH. by case_if. }
  rewrite !E. symmetry. apply flat_map_ranking; intros x; [intros y; case_if; [by intros [->|[]]|done]|case_if; simpl; lia].
Qed.

End Ranking.

(** A change of representation that keeps the price keeps the ranking. *)
Lemma map_rank {X Y} (px : X -> Z) (py : Y -> Z) sd (f : X -> Y) x q :
  (forall x, py (f x) = px x) -> map f (rank px sd x q) = rank py sd (f x) (map f q).
Proof.
  intros Hf. induction q as [|y q IH]; [done|]. simpl. rewrite !Hf. case_if; [done|]. simpl. by rewrite IH.
Qed.

Lemma map_ranking {X Y} (px : X -> Z) (py : Y -> Z) sd (f : X -> Y) xs :
  (forall x, py (f x) = px x) -> map f (ranking px sd xs) = ranking py sd (map f xs).
Proof.
  intros Hf. unfold ranking. change (@nil Y) with (map f []). generalize (@nil X).
  induction xs as [|x xs IH]; intros q; [done|]. simpl. by rewrite IH, (map_rank px py).
Qed.

Lemma map_queue_of {X Y} (px : X -> Z) (py : Y -> Z) (f : X -> Y) p xs :
  (forall x, py (f x) = px x) -> map f (queue_of px p xs) = queue_of py p (map f xs).
Proof.
  intros Hf. induction xs as [|x xs IH]; [done|]. cbn [map]. rewrite !queue_of_cons, map_app, IH, Hf. f_equal. by case_if.
Qed.
