(* ===== verification/Market.v ===== *)
(** * Market: the limit-order market a matching engine implements

    The abstract specification of [rsx-book]: two lists of resting orders in
    price-time priority and the users' positions.  No slab, slot, bitmap,
    price map or handle appears in it.  [submit] is what a new order does to
    a market, [withdraw] what a cancel does; [MarketRef] proves that the book
    and its engine do exactly that. *)

From Stdlib Require Import Sorted.
From S2P Require Import Prelude Types Users Order BookInv Matching Process Ranking.

(** A resting order.  Where it is stored and when it arrived in absolute
    terms is no part of it. *)
Record Resting : Type := mkResting {
  rs_price : Z;
  rs_qty : Z;
  rs_user : Z;
  rs_reduce : bool;
  rs_tif : Z;
  rs_original : Z;
  rs_oid_hi : Z;
  rs_oid_lo : Z;
}.

Definition rs_with_qty (q : Z) (r : Resting) : Resting :=
  mkResting (rs_price r) q (rs_user r) (rs_reduce r) (rs_tif r) (rs_original r) (rs_oid_hi r) (rs_oid_lo r).

Record Market : Type := mkMarket {
  mk_bids : list Resting;
  mk_asks : list Resting;
  mk_net : Z -> Z;
}.

(** Markets with the same orders and the same position for every user. *)
#[global] Instance Market_equiv : Equiv Market :=
  fun m m' => mk_bids m = mk_bids m' /\ mk_asks m = mk_asks m' /\ forall v, mk_net m v = mk_net m' v.

#[global] Instance Market_equivalence : Equivalence (≡@{Market}).
Proof.
  split.
  - done.
  - intros m m' (H1 & H2 & H3). repeat split; congruence.
  - intros m m' m'' (H1 & H2 & H3) (G1 & G2 & G3). repeat split; congruence.
Qed.

Definition mk_side (sd : Side) (m : Market) : list Resting := match sd with Buy => mk_bids m | Sell => mk_asks m end.
Definition with_side (sd : Side) (q : list Resting) (m : Market) : Market :=
  match sd with Buy => mkMarket q (mk_asks m) (mk_net m) | Sell => mkMarket (mk_bids m) q (mk_net m) end.
Definition with_nets (f : Z -> Z) (m : Market) : Market := mkMarket (mk_bids m) (mk_asks m) f.

(** A resting price the taker's limit reaches. *)
Definition reaches (taker_side : Side) (limit price : Z) : bool :=
  match taker_side with Buy => price <=? limit | Sell => price >=? limit end.

(** ** Trading through a ranked list

    The taker takes from the front until it is filled, the makers it may hit
    are used up or the price passes its limit. *)
Section Trade.
Context {X : Type} (px qty : X -> Z) (rest : X -> Z -> list X) (sd : Side) (limit : Z).

Fixpoint trade_through (room rem : Z) (q : list X) : list (X * Z) * list X :=
  match q with
  | [] => ([], [])
  | x :: q' =>
      if (0 <? rem) && (0 <? room) && reaches sd limit (px x) then
        let f := Z.min rem (qty x) in
        let '(fs, k) := trade_through (room - 1) (rem - f) q' in ((x, f) :: fs, rest x f ++ k)
      else ([], q)
  end.

Lemma trade_through_cons room rem x q :
  trade_through room rem (x :: q) =
    if (0 <? rem) && (0 <? room) && reaches sd limit (px x) then
      ((x, Z.min rem (qty x)) :: (trade_through (room - 1) (rem - Z.min rem (qty x)) q).1,
       rest x (Z.min rem (qty x)) ++ (trade_through (room - 1) (rem - Z.min rem (qty x)) q).2)
    else ([], x :: q).
Proof. cbn [trade_through]. case_if; [|done]. by destruct (trade_through _ _ q). Qed.

End Trade.

(** Trading does not depend on how orders are represented. *)
Lemma map_trade_through {X Y} (px qty : X -> Z) rest (py qty' : Y -> Z) rest' (g : X -> Y) sd limit room rem q :
  (forall x, py (g x) = px x) -> (forall x, qty' (g x) = qty x) -> (forall x f, rest' (g x) f = map g (rest x f)) ->
  trade_through py qty' rest' sd limit room rem (map g q) =
    let '(fs, k) := trade_through px qty rest sd limit room rem q in (map (fun m => (g m.1, m.2)) fs, map g k).
Proof.
  intros Hp Hq Hr. revert room rem. induction q as [|x q IH]; intros room rem; [done|]. cbn [map].
  rewrite !trade_through_cons, Hp, Hq, Hr, IH. case_if; [|done].
  destruct (trade_through px qty rest sd limit (room - 1) (rem - Z.min rem (qty x)) q) as [fs k]. cbn. by rewrite map_app.
Qed.

(** ** A new order *)

Definition rs_rest (r : Resting) (f : Z) : list Resting := if f =? rs_qty r then [] else [rs_with_qty (rs_qty r - f) r].

(** The position an order could reduce, and what of the order may trade. *)
Definition exposure (m : Market) (o : IncomingOrder) : Z :=
  match in_side o with Buy => - mk_net m (in_user o) | Sell => mk_net m (in_user o) end.
Definition portion (m : Market) (o : IncomingOrder) : Z :=
  if in_reduce_only o then Z.min (in_remaining o) (exposure m o) else in_remaining o.

(** The quantity resting within a limit. *)
Definition within (sd : Side) (limit : Z) (q : list Resting) : Z :=
  zsum (fun r => if reaches sd limit (rs_price r) then rs_qty r else 0) q.

(** Whether the front of a list is within the limit. *)
Definition front_reaches (sd : Side) (limit : Z) (q : list Resting) : bool :=
  match q with [] => false | r :: _ => reaches sd limit (rs_price r) end.

Definition ruling (tk lot : Z) (m : Market) (o : IncomingOrder) : Verdict :=
  let makers := mk_side (opposite (in_side o)) m in
  if (in_price o <=? 0) || negb (in_price o mod tk =? 0) then Refuse InvalidTick
  else if (in_qty o <=? 0) || negb (in_qty o mod lot =? 0) then Refuse InvalidLot
  else if in_reduce_only o && negb (0 <? exposure m o) then Refuse ReduceOnly
  else if in_post_only o && front_reaches (in_side o) (in_price o) makers then PostOnlyDone
  else if bool_decide (in_tif o = FOK) && (within (in_side o) (in_price o) makers <? portion m o) then Refuse FillOrKill
  else Execute.

Record Outcome : Type := mkOutcome {
  oc_ruling : Verdict;
  oc_trades : list (Resting * Z);
  oc_left : Z;
  oc_capped : bool;
}.

Definition traded (fs : list (Resting * Z)) : Z := zsum snd fs.

(** The positions after the trades of taker [o]. *)
Definition nets_after (m : Market) (o : IncomingOrder) (fs : list (Resting * Z)) (v : Z) : Z :=
  mk_net m v + zsum (fun t => (if v =? in_user o then sign_of (in_side o) * t.2 else 0)
                            - (if v =? rs_user t.1 then sign_of (in_side o) * t.2 else 0)) fs.

Definition residual (o : IncomingOrder) (left : Z) : Resting :=
  mkResting (in_price o) left (in_user o) (in_reduce_only o) (tif_u8 (in_tif o)) left (in_oid_hi o) (in_oid_lo o).

Definition submit (tk lot : Z) (m : Market) (o : IncomingOrder) : Market * Outcome :=
  match ruling tk lot m o with
  | Execute =>
      let maker := opposite (in_side o) in
      let qty := portion m o in
      let '(fs, k) := trade_through rs_price rs_qty rs_rest (in_side o) (in_price o) MAX_MAKERS_PER_ORDER qty (mk_side maker m) in
      let left := qty - traded fs in
      let capped := (0 <? left) && front_reaches (in_side o) (in_price o) k in
      let m1 := with_nets (nets_after m o fs) (with_side maker k m) in
      let m2 := if (0 <? left) && negb capped && bool_decide (in_tif o = GTC)
                then with_side (in_side o) (rank rs_price (in_side o) (residual o left) (mk_side (in_side o) m1)) m1
                else m1 in
      (m2, mkOutcome Execute fs left capped)
  | v => (m, mkOutcome v [] 0 false)
  end.

(** ** A cancel *)

Definition OrderKey : Type := (Z * Z * Z)%type.
Definition rs_key (r : Resting) : OrderKey := (rs_user r, rs_oid_hi r, rs_oid_lo r).
Definition in_key (o : IncomingOrder) : OrderKey := (in_user o, in_oid_hi o, in_oid_lo o).

Definition without (k : OrderKey) (q : list Resting) : list Resting := List.filter (fun r => negb (bool_decide (rs_key r = k))) q.
Definition withdraw (k : OrderKey) (m : Market) : Market := mkMarket (without k (mk_bids m)) (without k (mk_asks m)) (mk_net m).

(** ** Equivalent markets behave alike *)

#[global] Instance ruling_proper tk lot : Proper ((≡) ==> (=) ==> (=)) (ruling tk lot).
Proof. intros m m' (H1 & H2 & H3) o _ <-. unfold ruling, mk_side, portion, exposure. by rewrite H1, H2, H3. Qed.

#[global] Instance submit_proper tk lot : Proper ((≡) ==> (=) ==> prod_relation (≡) (=)) (submit tk lot).
Proof.
  intros m m' Hm o _ <-. pose proof (ruling_proper tk lot m m' Hm o o eq_refl) as Hv. unfold submit. rewrite <- Hv.
  destruct (ruling tk lot m o); [by split|by split|].
  destruct Hm as (H1 & H2 & H3). unfold portion, exposure, nets_after, mk_side. rewrite H1, H2, H3.
  destruct (trade_through _ _ _ _ _ _ _ _) as [fs k]. split; [|done]. cbn.
  case_if; destruct (in_side o); (split; [cbn; congruence|split; [cbn; congruence|]]); intros v; cbn; by rewrite H3.
Qed.

#[global] Instance withdraw_proper k : Proper ((≡) ==> (≡)) (withdraw k).
Proof. intros m m' (H1 & H2 & H3). split; cbn; [congruence|]. split; [congruence|done]. Qed.
