(* ===== verification/Priority.v ===== *)
(** * Priority: what a match takes, as a trade through one list

    [Engine] says of a match which makers it hit and in which order they may
    be hit; here the same match is one pass of [trade_through] over the
    opposite side in price-time priority, whatever the order in which the
    slots were visited. *)

From Stdlib Require Import Sorted.
From S2P Require Import Prelude Types Slab Order Book Links BookInv Matching MatchInv FillQueue Engine Process Ranking Market.

Definition epx (e : Entry) : Z := os_price e.2.

(** ** Each maker is hit once *)

(** What the fills leave of an entry. *)
Definition after (fs : list MFill) (e : Entry) : list Entry :=
  match List.find (fun m => m.1.1 =? e.1) fs with Some m => leftover e m.2 | None => [e] end.

Definition hits (fs : list MFill) : list Z := map (fun m => m.1.1) fs.

Record uniq (A : ABook) : Prop := {
  un_slot : forall t, NoDup (handles (A t));
  un_book : forall t t' x y, In x (A t) -> In y (A t') -> x.1 = y.1 -> t = t';
}.

Lemma uniq_eq A t t' x y : uniq A -> In x (A t) -> In y (A t') -> x.1 = y.1 -> x = y.
Proof. intros Hu Hx Hy E. pose proof (un_book A Hu t t' x y Hx Hy E) as <-. eapply handle_inj; [apply Hu|done..]. Qed.

Lemma after_out fs x : ~ In x.1 (hits fs) -> after fs x = [x].
Proof.
  intros Hn. unfold after. destruct (List.find _ fs) as [m|] eqn:E; [|done]. exfalso. apply find_some in E as [Hm Hx].
  apply Hn. apply in_map_iff. exists m. split; [lia|done].
Qed.

Lemma hits_inj fs f g : NoDup (hits fs) -> In f fs -> In g fs -> f.1.1 = g.1.1 -> f = g.
Proof.
  induction fs as [|a fs IH]; [done|]. cbn [hits map]. intros [Hni Hn]%NoDup_cons. rewrite list_elem_of_In in Hni.
  assert (forall x, In x fs -> x.1.1 <> a.1.1) as Hne by (intros x Hx E; apply Hni, in_map_iff; by exists x).
  intros [->|Hf] [->|Hg] E; [done|by destruct (Hne g Hg)|by destruct (Hne f Hf)|by apply IH].
Qed.

Lemma after_in fs x m : NoDup (hits fs) -> In m fs -> m.1.1 = x.1 -> after fs x = leftover x m.2.
Proof.
  intros Hn Hm Hx. unfold after. destruct (List.find _ fs) as [m'|] eqn:E.
  - apply find_some in E as [Hm' Hx']. by rewrite (hits_inj fs m m' Hn Hm Hm') by lia.
  - pose proof (find_none _ _ E m Hm) as Hc. cbn in Hc. lia.
Qed.

Lemma after_cases fs x : NoDup (hits fs) ->
  (exists m, In m fs /\ m.1.1 = x.1 /\ after fs x = leftover x m.2) \/ ~ In x.1 (hits fs) /\ after fs x = [x].
Proof.
  intros Hn. destruct (in_dec Z.eq_dec x.1 (hits fs)) as [Hi|Hi]; [left|right; split; [done|by apply after_out]].
  apply in_map_iff in Hi as (m & Em & Hm). exists m. split; [done|]. split; [done|]. by apply after_in.
Qed.

Lemma after_perm fs fs' x : fs ≡ₚ fs' -> NoDup (hits fs) -> after fs x = after fs' x.
Proof.
  intros Hp Hn. assert (hits fs ≡ₚ hits fs') as Hh by (by apply Permutation_map). assert (NoDup (hits fs')) as Hn' by (by rewrite <- Hh).
  destruct (after_cases fs x Hn) as [(m & Hm & Em & ->)|[Ho ->]].
  - symmetry. apply after_in; [done| |done]. by rewrite <- Hp.
  - symmetry. apply after_out. by rewrite <- Hh.
Qed.

Lemma consumes_hits A fs A' m : consumes A fs A' -> In m fs -> exists t y, In y (A t) /\ same_order m.1 y.
Proof.
  induction 1 as [|A t q1 e q2 f fs A1 A' Et Hf E1 Eo _ IH]; [done|]. intros [<-|Hm].
  { exists t, e. split; [rewrite Et; apply in_app_iff; right; by left|apply same_order_refl]. }
  destruct (IH Hm) as (t' & y & Hy & Hs). destruct (Z.eq_dec t' t) as [->|Hne]; [|rewrite Eo in Hy by done; eauto].
  rewrite E1, !in_app_iff in Hy. destruct Hy as [Hy|[Hy|Hy]].
  - exists t, y. rewrite Et. split; [apply in_app_iff; by left|done].
  - destruct (leftover_same e f y ltac:(lia) Hy) as [He _]. exists t, e.
    rewrite Et. split; [apply in_app_iff; right; by left|by eapply same_order_trans].
  - exists t, y. rewrite Et. split; [apply in_app_iff; right; by right|done].
Qed.

Lemma after_cons_ne e f fs x : e.1 <> x.1 -> after ((e, f) :: fs) x = after fs x.
Proof. intros Hne. unfold after. cbn [List.find fst]. by replace (e.1 =? x.1) with false by lia. Qed.

Lemma after_cons_eq e f fs : after ((e, f) :: fs) e = leftover e f.
Proof. unfold after. cbn [List.find fst snd]. by rewrite Z.eqb_refl. Qed.

Lemma flat_map_after_ne e f fs q : ~ In e.1 (handles q) -> flat_map (after ((e, f) :: fs)) q = flat_map (after fs) q.
Proof.
  intros Hn. apply flat_map_ext_in. intros x Hx. apply after_cons_ne. intros E. apply Hn. rewrite E. by apply in_handles.
Qed.

Lemma handles_leftover e f x : In x (handles (leftover e f)) -> x = e.1.
Proof. unfold leftover. case_if; [done|]. by intros [<-|[]]. Qed.

(** One hit keeps handles unique, and no later one is against its maker. *)
Lemma uniq_hit A A1 t q1 e q2 f :
  uniq A -> A t = q1 ++ e :: q2 -> A1 t = q1 ++ leftover e f ++ q2 -> (forall t', t' <> t -> A1 t' = A t') -> uniq A1.
Proof.
  intros [Hs Hb] Et E1 Eo. assert (forall t' x, In x (A1 t') -> exists y, In y (A t') /\ y.1 = x.1) as Hback.
  { intros t' x Hx. destruct (Z.eq_dec t' t) as [->|Hne]; [|rewrite Eo in Hx by done; eauto]. rewrite E1, !in_app_iff in Hx. rewrite Et.
    destruct Hx as [Hx|[Hx|Hx]]; [exists x|exists e|exists x]; (split; [rewrite in_app_iff; simpl; auto|try done]).
    symmetry. apply (handles_leftover e f). by apply in_handles. }
  split.
  - intros t'. destruct (Z.eq_dec t' t) as [->|Hne]; [|by rewrite Eo]. rewrite E1. specialize (Hs t). rewrite Et in Hs.
    unfold leftover. case_if; [|unfold handles in *; by rewrite !map_app in *]. unfold handles in *. rewrite map_app in *.
    eapply sublist_NoDup; [exact Hs|]. simpl. apply sublist_app; [done|by constructor].
  - intros t1 t2 x y Hx Hy E. destruct (Hback t1 x Hx) as (x' & Hx' & Ex). destruct (Hback t2 y Hy) as (y' & Hy' & Ey).
    apply (Hb t1 t2 x' y'); [done|done|congruence].
Qed.

Lemma hit_once A A1 t q1 e q2 f fs A' :
  uniq A -> A t = q1 ++ e :: q2 -> 0 < f <= erem e -> A1 t = q1 ++ leftover e f ++ q2 -> (forall t', t' <> t -> A1 t' = A t') ->
  consumes A1 fs A' -> (forall m, In m fs -> exists t, In m.1 (A t)) -> forall m, In m fs -> m.1.1 <> e.1.
Proof.
  intros Hu Et Hf E1 Eo Hc Hin m Hm Ek. destruct (Hin m Hm) as (t' & Ht').
  assert (In e (A t)) as He by (rewrite Et; apply in_app_iff; right; by left).
  assert (m.1 = e) as Em by (by apply (uniq_eq A t' t)).
  destruct (consumes_hits _ _ _ _ Hc Hm) as (t1 & y & Hy & Hh & _ & _ & Hr). rewrite Em in Hh, Hr.
  pose proof (uniq_hit A A1 t q1 e q2 f Hu Et E1 Eo) as Hu1. destruct (Z.eq_dec t1 t) as [->|Hne].
  - pose proof (un_slot A Hu t) as Hnd. rewrite Et in Hnd. unfold handles in Hnd. rewrite map_app in Hnd. simpl in Hnd.
    apply NoDup_app in Hnd as (_ & Hd & Hnd). apply NoDup_cons in Hnd as [Hn2 _].
    rewrite E1, !in_app_iff in Hy. destruct Hy as [Hy|[Hy|Hy]].
    + apply (Hd e.1); [rewrite list_elem_of_In; change (In e.1 (handles q1)); rewrite Hh; by apply in_handles|rewrite list_elem_of_In; by left].
    + unfold leftover in Hy. destruct (f =? erem e); [done|]. destruct Hy as [<-|[]]. unfold erem in Hr at 2. simpl in Hr. lia.
    + apply Hn2. rewrite list_elem_of_In. change (In e.1 (handles q2)). rewrite Hh. by apply in_handles.
  - rewrite Eo in Hy by done. apply Hne. by apply (un_book A Hu t1 t y e).
Qed.

(** A consumption is what [after] says, slot by slot. *)
Lemma consumes_after A fs A' :
  consumes A fs A' -> uniq A -> (forall m, In m fs -> exists t, In m.1 (A t)) ->
  NoDup (hits fs) /\ forall t, A' t = flat_map (after fs) (A t).
Proof.
  induction 1 as [A|A t q1 e q2 f fs A1 A' Et Hf E1 Eo Hc IH]; intros Hu Hin.
  { split; [constructor|]. intros t. symmetry. induction (A t) as [|x q IHq]; [done|]. simpl. by rewrite IHq. }
  assert (forall m, In m fs -> exists t, In m.1 (A t)) as Hin' by (intros m Hm; apply Hin; by right).
  pose proof (hit_once A A1 t q1 e q2 f fs A' Hu Et Hf E1 Eo Hc Hin') as Honce.
  assert (~ In e.1 (hits fs)) as Hne by (intros (m & Em & Hm)%in_map_iff; by apply (Honce m Hm)).
  destruct IH as [Hn HA]; [by apply (uniq_hit A A1 t q1 e q2 f)| |].
  { intros m Hm. destruct (Hin' m Hm) as (t' & Ht'). exists t'. destruct (Z.eq_dec t' t) as [->|Hnt]; [|by rewrite Eo].
    rewrite Et, in_app_iff in Ht'. rewrite E1, !in_app_iff. destruct Ht' as [?|[E|?]]; [by left| |by right; right].
    destruct (Honce m Hm). by rewrite <- E. }
  split; [cbn [hits map]; apply NoDup_cons; split; [by rewrite list_elem_of_In|done]|].
  intros t'. rewrite HA. destruct (Z.eq_dec t' t) as [->|Hnt].
  - pose proof (un_slot A Hu t) as Hnd. rewrite Et in Hnd. unfold handles in Hnd. rewrite map_app in Hnd. simpl in Hnd.
    apply NoDup_app in Hnd as (_ & Hd & Hnd). apply NoDup_cons in Hnd as [Hn2 _].
    rewrite E1, Et, !flat_map_app. cbn [flat_map]. rewrite (flat_map_after_ne e f fs q1), (flat_map_after_ne e f fs q2).
    + do 2 f_equal. rewrite after_cons_eq. unfold leftover. destruct (f =? erem e); [done|]. cbn [flat_map]. by rewrite after_out, app_nil_r.
    + by rewrite <- list_elem_of_In.
    + intros Hx. apply (Hd e.1); [by rewrite list_elem_of_In|rewrite list_elem_of_In; by left].
  - rewrite Eo by done. symmetry. apply flat_map_after_ne. intros (x & Ex & Hx)%in_map_iff. apply Hnt.
    apply (un_book A Hu t' t x e); [done|rewrite Et; apply in_app_iff; right; by left|done].
Qed.

(** ** Hits that form a prefix are a trade *)

Record prefix_hits (sd : Side) (limit room rem : Z) (q : list Entry) (fs : list MFill) : Prop := {
  ph_once : NoDup (hits fs);
  ph_takes : forall m, In m fs -> In m.1 q /\ reaches sd limit (epx m.1) = true /\ 0 < m.2 <= erem m.1;
  ph_front : forall q1 e q2 f x, q = q1 ++ e :: q2 -> In (e, f) fs -> In x q1 -> In (x, erem x) fs;
  ph_rem : filled fs <= rem;
  ph_room : zlen fs <= room;
  ph_full : 0 < rem - filled fs -> forall m, In m fs -> m.2 = erem m.1;
  ph_stuck : 0 < rem - filled fs -> zlen fs < room -> forall x, In x q -> ~ In x.1 (hits fs) -> reaches sd limit (epx x) = false;
}.

Lemma prefix_hits_perm sd limit room rem q fs fs' : fs ≡ₚ fs' -> prefix_hits sd limit room rem q fs -> prefix_hits sd limit room rem q fs'.
Proof.
  intros Hp [h1 h2 h3 h4 h5 h6 h7]. assert (hits fs ≡ₚ hits fs') as Hh by (by apply Permutation_map).
  assert (forall m, In m fs' <-> In m fs) as Hi by (intros m; by rewrite Hp).
  assert (filled fs' = filled fs) as Hf by (apply zsum_perm; by symmetry).
  assert (zlen fs' = zlen fs) as Hz by (unfold zlen; by rewrite Hp).
  split; rewrite ?Hf, ?Hz; try done.
  - by rewrite <- Hh.
  - intros m. rewrite Hi. apply h2.
  - intros q1 e q2 f x. rewrite !Hi. apply h3.
  - intros Hl m. rewrite Hi. by apply h6.
  - intros H1 H2 x. rewrite <- Hh. by apply h7.
Qed.

Lemma fill_pos_filled fs : (forall m : MFill, In m fs -> 0 < m.2) -> 0 <= filled fs.
Proof. intros H. apply zsum_nonneg. intros m Hm. specialize (H m Hm). lia. Qed.

(** The front element is hit first, for all of it unless it ends the trade. *)
Lemma prefix_hits_head sd limit room rem e f q fs :
  NoDup (handles (e :: q)) -> prefix_hits sd limit room rem (e :: q) ((e, f) :: fs) ->
  0 < rem /\ 0 < room /\ f = Z.min rem (erem e) /\ prefix_hits sd limit (room - 1) (rem - f) q fs.
Proof.
  intros Hn [h1 h2 h3 h4 h5 h6 h7]. cbn [hits map] in h1. apply NoDup_cons in h1 as [Hni Hnd]. rewrite list_elem_of_In in Hni.
  apply NoDup_cons in Hn as [Hnq _]. rewrite list_elem_of_In in Hnq. cbn [fst] in Hni.
  destruct (h2 _ (or_introl eq_refl)) as (_ & Hr & Hf). cbn [fst snd] in Hr, Hf.
  unfold filled in *. rewrite zsum_cons in *. cbn [snd] in *. fold (filled fs) in *. rewrite zlen_cons in *.
  pose proof (fill_pos_filled fs (fun m Hm => proj1 (proj2 (proj2 (h2 m (or_intror Hm)))))) as Hnn. pose proof (zlen_nonneg fs).
  assert (forall m, In m fs -> In m.1 q) as Hq.
  { intros m Hm. destruct (h2 m (or_intror Hm)) as ([E|Hi] & _); [|done]. destruct Hni. apply in_map_iff. exists m. by rewrite <- E. }
  split; [lia|]. split; [lia|]. split.
  - destruct fs as [|m fs].
    + destruct (Z.eq_dec (rem - f) 0) as [?|Hne]; [lia|]. cbn in h4.
      pose proof (h6 ltac:(cbn; lia) (e, f) (or_introl eq_refl)) as E. cbn in E. lia.
    + pose proof (Hq m (or_introl eq_refl)) as Hm. apply in_split in Hm as (q1 & q2 & Eq).
      assert (In (e, erem e) ((e, f) :: m :: fs)) as He.
      { apply (h3 (e :: q1) m.1 q2 m.2); [by rewrite Eq|right; left; by destruct m|by left]. }
      destruct He as [[= Ef]|He]; [lia|]. destruct Hni. apply in_map_iff. by exists (e, erem e).
  - split; try done; try lia.
    + intros m Hm. split; [by apply Hq|]. apply (h2 m). by right.
    + intros q1 a q2 g x Eq Ha Hx. destruct (h3 (e :: q1) a q2 g x) as [[= E _]|?]; [by rewrite Eq|by right|by right| |done].
      destruct Hnq. rewrite E, Eq. apply in_handles, in_app_iff. by left.
    + intros Hl m Hm. apply h6; [lia|by right].
    + intros Hl Hz x Hx Hnx. apply h7; [lia|lia|by right|]. intros [E|?]; [|done]. destruct Hnq. cbn in E. rewrite E. by apply in_handles.
Qed.

Lemma trade_exact sd limit q : forall room rem fs,
  NoDup (handles q) -> prefix_hits sd limit room rem q fs ->
  exists fs', trade_through epx erem leftover sd limit room rem q = (fs', flat_map (after fs) q) /\ fs' ≡ₚ fs.
Proof.
  induction q as [|e q IH]; intros room rem fs Hn Hp.
  { exists []. split; [done|]. destruct fs as [|m fs]; [done|]. by destruct (ph_takes _ _ _ _ _ _ Hp m (or_introl eq_refl)). }
  rewrite trade_through_cons. destruct (after_cases fs e (ph_once _ _ _ _ _ _ Hp)) as [(m & Hm & Em & Ea)|[Hno Ea]].
  - assert (m.1 = e) as Emm.
    { destruct (ph_takes _ _ _ _ _ _ Hp m Hm) as [Hi _]. apply (handle_inj (e :: q)); [done|done|by left|done]. }
    destruct m as [e' f]. cbn in Emm, Em, Ea. subst e'. apply in_split in Hm as (l1 & l2 & ->).
    assert (l1 ++ (e, f) :: l2 ≡ₚ (e, f) :: (l1 ++ l2)) as Hperm by (symmetry; apply Permutation_middle).
    destruct (ph_takes _ _ _ _ _ _ Hp (e, f)) as (_ & Hr & _); [apply in_app_iff; right; by left|]. cbn in Hr.
    pose proof (prefix_hits_perm _ _ _ _ _ _ _ Hperm Hp) as Hp1.
    destruct (prefix_hits_head _ _ _ _ _ _ _ _ Hn Hp1) as (H1 & H2 & -> & Hp2).
    rewrite Hr. replace ((0 <? rem) && (0 <? room)) with true by lia. cbn [andb].
    pose proof Hn as Hn'. apply NoDup_cons in Hn' as [Hnq Hn']. rewrite list_elem_of_In in Hnq.
    destruct (IH _ _ _ Hn' Hp2) as (fs' & E & Hperm'). rewrite E. cbn [fst snd]. eexists. split.
    + f_equal. cbn [flat_map]. rewrite Ea. f_equal. apply flat_map_ext_in. intros x Hx.
      rewrite (after_perm _ _ x Hperm (ph_once _ _ _ _ _ _ Hp)). symmetry. apply after_cons_ne. intros Ex. apply Hnq. rewrite Ex. by apply in_handles.
    + rewrite Hperm', Hperm. done.
  - assert (fs = []) as ->.
    { destruct fs as [|m fs]; [done|]. exfalso. destruct (ph_takes _ _ _ _ _ _ Hp m (or_introl eq_refl)) as [[E|Hi] _].
      - apply Hno. left. by rewrite E.
      - apply in_split in Hi as (q1 & q2 & Eq). apply Hno. apply in_map_iff. exists (e, erem e). split; [done|].
        apply (ph_front _ _ _ _ _ _ Hp (e :: q1) m.1 q2 m.2); [by rewrite Eq|left; by destruct m|by left]. }
    exists []. split; [|done]. assert (flat_map (after []) (e :: q) = e :: q) as ->.
    { clear. induction (e :: q) as [|x l IHl]; [done|]. cbn [flat_map]. by rewrite IHl. }
    case_if; [|done]. exfalso. apply andb_true_iff in Heqb as [Hc Hr].
    rewrite (ph_stuck _ _ _ _ _ _ Hp) in Hr; [done|change (filled []) with 0; lia|change (zlen (@nil MFill)) with 0; lia|by left|done].
Qed.
