(* ===== verification/MarketRef.v ===== *)
(** * MarketRef: the book and its engine implement the market

    [market_of] reads a market off a book.  [Refines] is the interface between
    the engine and what is built on it: a new order, a cancel, a recentring and
    a restored checkpoint change the book as [submit], [withdraw] and nothing
    at all change its market. *)

From Stdlib Require Import Sorted.
From S2P Require Import Prelude Types Slab Occupancy Compression Users Order Book Links BookInv Matching MatchInv.
From S2P Require Import FillQueue SlotMatch Engine Feasible Process Guarantees Ranking Market Priority.

Definition content (e : Entry) : Resting :=
  mkResting (os_price e.2) (os_remaining e.2) (os_user e.2) (is_reduce_only e.2) (os_tif e.2) (os_original e.2)
    (os_oid_hi e.2) (os_oid_lo e.2).

Definition of_side (sd : Side) (q : list Entry) : list Entry := List.filter (fun e => is_side sd e.2) q.

Lemma in_of_side sd q e : In e (of_side sd q) <-> In e q /\ is_side sd e.2 = true.
Proof. apply filter_In. Qed.

Lemma filter_filter_comm {A} (f g : A -> bool) l : List.filter f (List.filter g l) = List.filter g (List.filter f l).
Proof. induction l as [|x l IH]; [done|]. simpl. destruct (f x) eqn:Ef, (g x) eqn:Eg; simpl; rewrite ?Ef, ?Eg, IH; done. Qed.

(** A filtered list splits where the list does. *)
Lemma filter_split {A} (f : A -> bool) l l1 (e : A) l2 :
  List.filter f l = l1 ++ e :: l2 -> exists q1 q2, l = q1 ++ e :: q2 /\ List.filter f q1 = l1.
Proof.
  revert l1. induction l as [|x l IH]; intros l1 E; [by destruct l1|]. simpl in E. destruct (f x) eqn:Ef.
  - destruct l1 as [|y l1]; injection E as -> E; [by exists [], l|].
    destruct (IH l1 E) as (q1 & q2 & -> & Hf). exists (y :: q1), q2. split; [done|]. simpl. by rewrite Ef, Hf.
  - destruct (IH l1 E) as (q1 & q2 & -> & Hf). exists (x :: q1), q2. split; [done|]. simpl. by rewrite Ef.
Qed.

Lemma cross_reaches sd limit e :
  os_side e.2 = side_u8 Buy \/ os_side e.2 = side_u8 Sell ->
  cross sd limit e = is_side (opposite sd) e.2 && reaches sd limit (epx e).
Proof. intros [H|H]; unfold cross, is_crossing, is_side, epx; rewrite H; by destruct sd. Qed.

Section MarketRef.
Variables (mid tk : Z).
Hypothesis Hcfg : cfg_ok mid tk.
Hypothesis Hspread : spread_ok mid tk.

Abbreviation book_inv := (book_inv mid tk).
Abbreviation core := (core mid tk).
Abbreviation engine_ok := (engine_ok mid tk).
Abbreviation admissible := (admissible mid tk).
Abbreviation matched := (matched mid tk).

(** Everything that rests, slot by slot, and one side of it in priority. *)
Definition entries (A : ABook) : list Entry := flat_map A (zrange 0 (total mid tk)).
Definition priority (sd : Side) (A : ABook) : list Entry := ranking epx sd (of_side sd (entries A)).

Definition market_of (A : ABook) (b : Orderbook) : Market :=
  mkMarket (map content (priority Buy A)) (map content (priority Sell A)) (net_of (users b)).

Lemma mk_side_of sd A b : mk_side sd (market_of A b) = map content (priority sd A).
Proof. by destruct sd. Qed.

Lemma in_entries A fl b e : core A fl b -> In e (entries A) <-> exists t, In e (A t).
Proof.
  intros Hc. unfold entries. rewrite in_flat_map. split; [intros (t & _ & ?); eauto|]. intros (t & Ht). exists t. split; [|done].
  apply in_zrange. by apply (core_slot_range mid tk Hcfg A fl b t e).
Qed.

Lemma in_priority sd A fl b e : core A fl b -> In e (priority sd A) <-> (exists t, In e (A t)) /\ is_side sd e.2 = true.
Proof. intros Hc. unfold priority. by rewrite ranking_in, in_of_side, (in_entries A fl b). Qed.

(** The orders of a price are those in its slot. *)
Lemma entries_queue A fl b p : core A fl b -> queue_of epx p (entries A) = queue_of epx p (A (idx mid tk p)).
Proof.
  intros Hc. unfold entries. rewrite <- (flat_map_only (fun t => queue_of epx p (A t)) (zrange 0 (total mid tk)) (idx mid tk p)).
  - induction (zrange 0 (total mid tk)) as [|t ts IH]; [done|]. cbn [flat_map]. by rewrite queue_of_app, IH.
  - apply zrange_nodup.
  - intros t _ Hne. apply queue_of_none. intros e He Hp. apply Hne. destruct (c_px _ _ _ _ _ Hc t e He) as (_ & _ & <-). by rewrite <- Hp.
  - intros Hn. rewrite (lk_out _ _ _ (c_links _ _ _ _ _ Hc)); [done|]. rewrite (c_len _ _ _ _ _ Hc). by rewrite <- in_zrange.
Qed.

Lemma of_side_queue sd p q : queue_of epx p (of_side sd q) = of_side sd (queue_of epx p q).
Proof. apply filter_filter_comm. Qed.

Lemma priority_queue sd A fl b p : core A fl b -> queue_of epx p (priority sd A) = of_side sd (queue_of epx p (A (idx mid tk p))).
Proof. intros Hc. unfold priority. by rewrite ranking_queue, of_side_queue, (entries_queue A fl b). Qed.

Lemma priority_ranked sd A : ranked epx sd (priority sd A).
Proof. apply ranking_ranked. Qed.

Lemma core_uniq A fl b : core A fl b -> uniq A.
Proof.
  intros Hc. split; [apply (lk_nodup _ _ _ (c_links _ _ _ _ _ Hc))|]. intros t t' [h s] [h' s'] Hx Hy E. cbn in E. subst h'.
  by destruct (links_inj _ _ _ t t' h s s' (c_links _ _ _ _ _ Hc) Hx Hy).
Qed.

Lemma priority_handles sd A fl b : core A fl b -> NoDup (handles (priority sd A)).
Proof.
  intros Hc. unfold handles. rewrite (Permutation_map fst (ranking_perm epx sd (of_side sd (entries A)))).
  assert (NoDup (map fst (entries A))) as Hn.
  { unfold entries. pose proof (all_handles_nodup _ _ _ (zrange 0 (total mid tk)) (c_links _ _ _ _ _ Hc) (zrange_nodup _ _)) as H.
    clear -H. induction (zrange 0 (total mid tk)) as [|t ts IH]; [done|]. cbn [flat_map] in *. rewrite map_app. unfold handles in H.
    apply NoDup_app in H as (H1 & H2 & H3). apply NoDup_app. split; [done|]. specialize (IH H3). split; [|done].
    intros x Hx Hx'. apply (H2 x Hx). rewrite list_elem_of_In in *. apply in_map_iff in Hx' as (e & <- & (t' & Ht' & He)%in_flat_map).
    apply in_flat_map. exists t'. split; [done|by apply in_map]. }
  eapply sublist_NoDup; [exact Hn|]. unfold of_side. clear. induction (entries A) as [|e q IH]; [constructor|]. simpl.
  case_if; simpl; by constructor.
Qed.

(** ** A match is a trade through the opposite side *)

Lemma after_keeps fs e y : In y (after fs e) -> epx y = epx e /\ os_side y.2 = os_side e.2.
Proof. unfold after. destruct (List.find _ fs); [|by intros [->|[]]]. unfold leftover. case_if; [done|]. by intros [<-|[]]. Qed.

Lemma after_short fs e : (length (after fs e) <= 1)%nat.
Proof. unfold after. destruct (List.find _ fs); [unfold leftover; case_if; simpl; lia|simpl; lia]. Qed.

Lemma of_side_after fs sd q : of_side sd (flat_map (after fs) q) = flat_map (after fs) (of_side sd q).
Proof.
  induction q as [|e q IH]; [done|]. cbn [flat_map]. unfold of_side in *. rewrite List.filter_app, IH. cbn [List.filter].
  assert (forall y, In y (after fs e) -> is_side sd y.2 = is_side sd e.2) as Hs.
  { intros y Hy. unfold is_side. by destruct (after_keeps fs e y Hy) as [_ ->]. }
  destruct (is_side sd e.2) eqn:E; cbn [flat_map].
  - f_equal. apply forallb_filter_id, forallb_forall. intros y Hy. by rewrite Hs.
  - assert (List.filter (fun x => is_side sd x.2) (after fs e) = []) as ->; [|done].
    induction (after fs e) as [|y l IHl]; [done|]. cbn [List.filter]. rewrite (Hs y) by (by left). apply IHl. intros z Hz. apply Hs. by right.
Qed.

Lemma entries_after fs A A1 : (forall t, A1 t = flat_map (after fs) (A t)) -> entries A1 = flat_map (after fs) (entries A).
Proof.
  intros HA. unfold entries. induction (zrange 0 (total mid tk)) as [|t ts IH]; [done|]. cbn [flat_map].
  by rewrite flat_map_app, HA, IH.
Qed.

Lemma priority_after fs sd A A1 :
  (forall t, A1 t = flat_map (after fs) (A t)) -> priority sd A1 = flat_map (after fs) (priority sd A).
Proof.
  intros HA. unfold priority. rewrite (entries_after fs A A1 HA), of_side_after.
  apply flat_map_ranking; [|apply after_short]. intros e y Hy. by apply (after_keeps fs).
Qed.

Section Matched.
Context (o : IncomingOrder) (room : Z) (A : ABook) (fl : list Z) (b : Orderbook) (fs : list MFill)
  (A1 : ABook) (fl1 : list Z) (b1 : Orderbook).
Context (Hi : book_inv A fl b) (M : matched o room A b fs A1 fl1 b1).

Abbreviation maker := (opposite (in_side o)).

Lemma matched_after : NoDup (hits fs) /\ forall t, A1 t = flat_map (after fs) (A t).
Proof.
  apply consumes_after; [apply M|apply (core_uniq A fl b), Hi|]. intros m Hm.
  by destruct (ma_takes _ _ _ _ _ _ _ _ _ _ M m Hm).
Qed.

Lemma matched_taken m : In m fs -> In m.1 (priority maker A) /\ reaches (in_side o) (in_price o) (epx m.1) = true.
Proof.
  intros Hm. destruct (ma_takes _ _ _ _ _ _ _ _ _ _ M m Hm) as (Hc & t & Ht).
  rewrite cross_reaches in Hc by (by apply (lk_side _ _ _ (c_links _ _ _ _ _ (bk_core _ _ _ _ _ Hi)) t)).
  apply andb_true_iff in Hc as [Hs Hr]. split; [|done]. apply (in_priority maker A fl b); [apply Hi|eauto].
Qed.

(** A maker of which nothing is left was hit for all it had. *)
Lemma gone_was_hit t x : In x (A t) -> ~ In x.1 (handles (A1 t)) -> In (x, erem x) fs.
Proof.
  destruct matched_after as [Hn HA]. intros Hx Hg. rewrite HA in Hg.
  assert (~ In x.1 (handles (after fs x))) as Hg'.
  { intros (y & Ey & Hy)%in_map_iff. apply Hg. apply in_map_iff. exists y. split; [done|]. apply in_flat_map. eauto. }
  destruct (after_cases fs x Hn) as [(m & Hm & Em & Ea)|[_ Ea]]; rewrite Ea in Hg'; [|destruct Hg'; by left].
  destruct (ma_takes _ _ _ _ _ _ _ _ _ _ M m Hm) as (_ & t' & Ht').
  pose proof (uniq_eq A t' t m.1 x (core_uniq A fl b (bk_core _ _ _ _ _ Hi)) Ht' Hx Em) as E.
  unfold leftover in Hg'. destruct (m.2 =? erem x) eqn:Ef; [|destruct Hg'; by left]. bool_to_prop. rewrite <- Ef, <- E. by destruct m.
Qed.

(** Whatever stands before a hit maker in priority was used up. *)
Lemma matched_front q1 e q2 f x : priority maker A = q1 ++ e :: q2 -> In (e, f) fs -> In x q1 -> In (x, erem x) fs.
Proof.
  intros Eq He Hx. pose proof (bk_core _ _ _ _ _ Hi) as Hc.
  destruct (proj1 (in_priority maker A fl b x Hc)) as ((t & Ht) & Hxs); [rewrite Eq; apply in_app_iff; by left|].
  destruct (proj1 (in_priority maker A fl b e Hc)) as ((te & Hte) & Hes); [rewrite Eq; apply in_app_iff; right; by left|].
  assert (no_worse maker (epx x) (epx e)) as Hw.
  { pose proof (priority_ranked maker A) as Hr. unfold ranked in Hr. rewrite Eq in Hr. clear -Hr Hx. induction q1 as [|y q1 IH]; [done|].
    apply StronglySorted_inv in Hr as [Hr Hy]. destruct Hx as [->|Hx]; [|by apply IH].
    apply (proj1 (List.Forall_forall _ _) Hy). apply in_app_iff. right. by left. }
  apply (gone_was_hit t x Ht). intros Hg. destruct (Z.eq_dec (epx x) (epx e)) as [Ep|Hne].
  - pose proof (priority_queue maker A fl b (epx e) Hc) as Hq. rewrite Eq, queue_of_app, queue_of_cons, Z.eqb_refl in Hq.
    symmetry in Hq. apply filter_split in Hq as (l1 & l2 & Hq & Hl1). apply filter_split in Hq as (r1 & r2 & Hq & Hr1).
    assert (In x r1) as Hxr.
    { assert (In x (queue_of epx (epx e) q1)) as Hin by (by apply in_queue_of). rewrite <- Hl1 in Hin. apply filter_In in Hin as [Hin _].
      rewrite <- Hr1 in Hin. by apply filter_In in Hin as [? _]. }
    apply (ma_fifo _ _ _ _ _ _ _ _ _ _ M _ r1 e r2 f x Hq He Hxr Hxs Ep). replace (idx mid tk (epx e)) with t; [done|].
    destruct (c_px _ _ _ _ _ Hc t x Ht) as (_ & _ & <-). by rewrite <- Ep.
  - apply Hne. apply (no_worse_antisym maker); [done|]. apply in_map_iff in Hg as (y & Ey & Hy).
    destruct (consumes_kept _ _ _ (ra_consumes _ _ _ _ _ _ (ma_moved _ _ _ _ _ _ _ _ _ _ M)) t y Hy) as (z & Hz & Hh & Hp & Hs & _).
    assert (z = x) as -> by (apply (uniq_eq A t t); [by apply (core_uniq A fl b)|done|done|congruence]).
    change (epx x) with (os_price x.2). rewrite <- Hp. apply (ma_best _ _ _ _ _ _ _ _ _ _ M (e, f) t y He Hy).
    unfold is_side in *. by rewrite Hs.
Qed.

Lemma matched_prefix : prefix_hits (in_side o) (in_price o) room (in_remaining o) (priority maker A) fs.
Proof.
  pose proof (bk_core _ _ _ _ _ Hi) as Hc. split.
  - apply matched_after.
  - intros m Hm. destruct (matched_taken m Hm). split; [done|]. split; [done|].
    by apply (consumes_pos _ _ _ (ra_consumes _ _ _ _ _ _ (ma_moved _ _ _ _ _ _ _ _ _ _ M))).
  - apply matched_front.
  - apply (ma_rem _ _ _ _ _ _ _ _ _ _ M).
  - apply (ma_room _ _ _ _ _ _ _ _ _ _ M).
  - apply (ma_full _ _ _ _ _ _ _ _ _ _ M).
  - intros Hl Hz x Hx Hn. apply (in_priority maker A fl b) in Hx as ((t & Ht) & Hs); [|done].
    assert (In x (A1 t)) as Hx1. { destruct matched_after as [_ ->]. apply in_flat_map. exists x. split; [done|]. rewrite after_out by done. by left. }
    pose proof (ma_stuck _ _ _ _ _ _ _ _ _ _ M Hl Hz t x Hx1) as Hcr.
    rewrite cross_reaches in Hcr by (by apply (lk_side _ _ _ (c_links _ _ _ _ _ Hc) t)). by rewrite Hs in Hcr.
Qed.

(** The match as a trade, and both sides after it. *)
Lemma matched_trade :
  exists ts, trade_through rs_price rs_qty rs_rest (in_side o) (in_price o) room (in_remaining o) (map content (priority maker A)) =
      (ts, map content (priority maker A1)) /\ ts ≡ₚ map (fun m => (content m.1, m.2)) fs.
Proof.
  destruct (trade_exact _ _ _ _ _ _ (priority_handles maker A fl b (bk_core _ _ _ _ _ Hi)) matched_prefix) as (fs' & E & Hp).
  rewrite (map_trade_through epx erem leftover rs_price rs_qty rs_rest content); [|done|done|].
  2: { intros e f. unfold rs_rest, leftover. change (rs_qty (content e)) with (erem e). by case_if. }
  rewrite E. exists (map (fun m => (content m.1, m.2)) fs'). split; [|by apply Permutation_map].
  do 2 f_equal. symmetry. apply priority_after, matched_after.
Qed.

Lemma matched_own : priority (in_side o) A1 = priority (in_side o) A.
Proof.
  destruct matched_after as [_ HA]. rewrite (priority_after fs (in_side o) A A1 HA).
  rewrite (flat_map_ext_in (after fs) (fun e => [e])); [induction (priority (in_side o) A); cbn; congruence|].
  intros e He. apply after_out. intros (m & Em & Hm)%in_map_iff. pose proof (bk_core _ _ _ _ _ Hi) as Hc.
  destruct (matched_taken m Hm) as [Hm' _]. apply (in_priority _ A fl b) in Hm' as ((t & Ht) & Hs); [|done].
  apply (in_priority _ A fl b) in He as ((t' & Ht') & Hs'); [|done].
  rewrite (uniq_eq A t t' m.1 e (core_uniq A fl b Hc) Ht Ht' Em) in Hs. unfold is_side in *. apply Z.eqb_eq in Hs, Hs'.
  rewrite Hs in Hs'. by destruct (in_side o).
Qed.

End Matched.

(** ** The checks *)

Lemma front_reaches_spec sd limit q :
  ranked epx (opposite sd) q -> front_reaches sd limit (map content q) = true <-> exists x, In x q /\ reaches sd limit (epx x) = true.
Proof.
  intros Hr. destruct Hr as [|e q Hr He]; [split; [done|by intros (x & [] & _)]|]. cbn [map front_reaches]. split.
  - intros H. exists e. split; [by left|done].
  - intros (x & [->|Hx] & H); [done|]. pose proof (proj1 (List.Forall_forall _ _) He x Hx) as Hw. cbn in Hw.
    unfold reaches in *. change (rs_price (content e)) with (epx e). destruct sd; simpl in *; lia.
Qed.

Lemma zsum_flat_map {A B} (f : B -> Z) (g : A -> list B) l : zsum f (flat_map g l) = zsum (fun x => zsum f (g x)) l.
Proof. induction l as [|x l IH]; [done|]. cbn [flat_map]. by rewrite zsum_app, IH, zsum_cons. Qed.

Lemma zsum_filter {A} (f : A -> Z) (g : A -> bool) l : zsum f (List.filter g l) = zsum (fun x => if g x then f x else 0) l.
Proof. induction l as [|x l IH]; [done|]. cbn [List.filter]. rewrite zsum_cons, <- IH. destruct (g x); [by rewrite zsum_cons|lia]. Qed.

Lemma within_liquidity A fl b sd limit :
  core A fl b -> within sd limit (map content (priority (opposite sd) A)) = liquidity mid tk A sd limit.
Proof.
  intros Hc. unfold within. rewrite zsum_map. unfold priority.
  rewrite (zsum_perm _ _ _ (ranking_perm epx (opposite sd) (of_side (opposite sd) (entries A)))).
  unfold of_side, entries. rewrite zsum_filter, zsum_flat_map. apply zsum_ext. intros t _. apply zsum_ext. intros e He.
  unfold cross_rem. rewrite cross_reaches by (by apply (lk_side _ _ _ (c_links _ _ _ _ _ Hc) t)).
  change (rs_price (content e)) with (epx e). change (rs_qty (content e)) with (erem e). by destruct (is_side _ _).
Qed.

Lemma makers_front A fl b sd limit :
  book_inv A fl b -> (0 <? makers mid tk A sd limit) = front_reaches sd limit (map content (priority (opposite sd) A)).
Proof.
  intros Hi. pose proof (bk_core _ _ _ _ _ Hi) as Hc. apply eq_true_iff_eq.
  rewrite Z.ltb_lt, (makers_pos mid tk Hcfg A fl b sd limit Hi), (front_reaches_spec sd limit _ (priority_ranked _ A)). split.
  - intros (t & x & Hx & Hcr). rewrite cross_reaches in Hcr by (by apply (lk_side _ _ _ (c_links _ _ _ _ _ Hc) t)).
    apply andb_true_iff in Hcr as [Hs Hr]. exists x. split; [|done]. apply (in_priority _ A fl b); [done|eauto].
  - intros (x & ((t & Ht) & Hs)%(in_priority _ A fl b) & Hr); [|done]. exists t, x. split; [done|].
    rewrite cross_reaches by (by apply (lk_side _ _ _ (c_links _ _ _ _ _ Hc) t)). by rewrite Hs, Hr.
Qed.

Lemma ruling_verdict A fl b o :
  book_inv A fl b -> ruling tk (bc_lot_size (config b)) (market_of A b) o = verdict mid tk A b o.
Proof.
  intros Hi. unfold ruling, verdict. change (exposure (market_of A b) o) with (reducible b o). rewrite mk_side_of.
  rewrite <- (makers_front A fl b) by done. rewrite (within_liquidity A fl b) by apply Hi.
  change (portion (market_of A b) o) with (fillable b o).
  replace (contains (users b) (in_user o) && (0 <? reducible b o)) with (0 <? reducible b o); [done|].
  destruct (contains (users b) (in_user o)) eqn:Ec; [done|]. unfold contains in Ec. apply bool_decide_eq_false in Ec.
  unfold reducible, net_of, user_of. destruct (user_map (users b) !! in_user o); [destruct Ec; eauto|]. by destruct (in_side o).
Qed.

(** ** The residual joins its price's queue *)

Lemma priority_push A fl b A' fl' b' sd e t :
  core A fl b -> core A' fl' b' -> A' = upd A t (A t ++ [e]) -> idx mid tk (epx e) = t ->
  priority sd A' = if is_side sd e.2 then rank epx sd e (priority sd A) else priority sd A.
Proof.
  intros Hc Hc' EA Et. apply (ranked_unique epx sd); [apply priority_ranked|case_if; [apply rank_ranked|]; apply priority_ranked|].
  intros p. rewrite (priority_queue sd A' fl' b' p Hc'), EA.
  assert (of_side sd (queue_of epx p (upd A t (A t ++ [e]) (idx mid tk p))) =
    of_side sd (queue_of epx p (A (idx mid tk p))) ++ (if (epx e =? p) && is_side sd e.2 then [e] else [])) as ->.
  { unfold upd. destruct (idx mid tk p =? t) eqn:Ei; bool_to_prop.
    - rewrite Ei, queue_of_app. unfold of_side. rewrite List.filter_app. f_equal. rewrite queue_of_cons. cbn [List.filter app].
      destruct (epx e =? p), (is_side sd e.2) eqn:Es; simpl; rewrite ?Es; done.
    - replace (epx e =? p) with false; [by rewrite app_nil_r|]. symmetry. apply Z.eqb_neq. intros <-. congruence. }
  destruct (is_side sd e.2) eqn:Es.
  - rewrite (rank_queue epx sd p e _ (priority_ranked sd A)), (priority_queue sd A fl b p Hc). f_equal. by rewrite andb_true_r.
  - by rewrite andb_false_r, app_nil_r, (priority_queue sd A fl b p Hc).
Qed.

End MarketRef.
