(* ===== verification/MarketClaims.v ===== *)
(** * MarketClaims: the engine refines the market

    What the entry points of the book do to its market: a new order is one
    [submit], a cancel one [withdraw]; recentring the price map and restoring
    a checkpoint change no market. *)

From Stdlib Require Import Sorted.
From S2P Require Import Prelude Types Slab Occupancy Compression Users Order Book Links BookInv Matching MatchInv.
From S2P Require Import FillQueue SlotMatch Engine Feasible Process Guarantees Ranking Market Priority MarketRef Recenter.

Section MarketClaims.
Variables (mid tk : Z).
Hypothesis Hcfg : cfg_ok mid tk.
Hypothesis Hspread : spread_ok mid tk.

Abbreviation engine_ok := (engine_ok mid tk).
Abbreviation admissible := (admissible mid tk).
Abbreviation executed := (executed mid tk).
Abbreviation verdict := (verdict mid tk).
Abbreviation processed := (processed mid tk).
Abbreviation market_of := (market_of mid tk).
Abbreviation priority := (priority mid tk).

Definition content_fill (m : MFill) : Resting * Z := (content m.1, m.2).

Lemma traded_filled ts fs : ts ≡ₚ map content_fill fs -> traded ts = filled fs.
Proof. intros Hp. unfold traded. rewrite (zsum_perm _ _ _ Hp), zsum_map. done. Qed.

Lemma nets_after_delta A b o ts fs v :
  ts ≡ₚ map content_fill fs -> nets_after (market_of A b) o ts v = net_of (users b) v + net_delta o v fs.
Proof. intros Hp. unfold nets_after. rewrite (zsum_perm _ _ _ Hp), zsum_map. done. Qed.

(** The sides after an execution. *)
Lemma executed_priority A fl b o fs A1 A' fl' b' limited h bbo sd :
  book_inv mid tk A fl b -> executed (taken b o) A (set_events b []) fs A1 A' fl' b' limited h bbo ->
  map content (priority sd A') =
    if bool_decide (sd = in_side o) && bool_decide (rests (taken b o) fs limited)
    then rank rs_price sd (residual o (fillable b o - filled fs)) (map content (priority sd A1))
    else map content (priority sd A1).
Proof.
  intros Hi X. destruct (ex_match _ _ _ _ _ _ _ _ _ _ _ _ _ X) as (fl1 & b1 & M).
  pose proof (bk_core _ _ _ _ _ (ma_inv _ _ _ _ _ _ _ _ _ _ M)) as Hc1. pose proof (bk_core _ _ _ _ _ (ex_inv _ _ _ _ _ _ _ _ _ _ _ _ _ X)) as Hc'.
  destruct (decide (rests (taken b o) fs limited)) as [Hr|Hr].
  2: { rewrite (bool_decide_eq_false_2 (rests _ _ _) Hr), andb_false_r. by rewrite (ex_same _ _ _ _ _ _ _ _ _ _ _ _ _ X Hr). }
  rewrite (bool_decide_eq_true_2 (rests _ _ _) Hr), andb_true_r.
  destruct (ex_rests _ _ _ _ _ _ _ _ _ _ _ _ _ X Hr) as (s & (Ep & Eq & Es & Eu & Eh & El & _ & Er & Et & Eo) & _ & EA).
  cbn in Ep, Eq, Es, Eu, Eh, El, Er, Et, Eo. cbn [in_price taken in_with_remaining] in EA.
  rewrite (priority_push mid tk A1 fl1 b1 A' fl' b' sd (h, s) _ Hc1 Hc' EA ltac:(unfold epx; cbn; by rewrite Ep)).
  unfold is_side. cbn [snd]. rewrite Es. case_bool_decide as Hsd.
  - subst sd. rewrite Z.eqb_refl. rewrite (map_rank epx rs_price) by done. f_equal. unfold content, residual. cbn. congruence.
  - by rewrite side_neq.
Qed.

(** The two outcomes of an entry-point run. *)
Definition view (A : ABook) (b : Orderbook) (o : IncomingOrder) (fs : list MFill) (A' : ABook) (fl' : list Z) (o' : IncomingOrder)
    (b' : Orderbook) : Prop :=
  stays mid tk A b o fs A' b' \/
  verdict A b o = Execute /\ o' = in_with_remaining (fillable b o - filled fs) o /\
  exists A1 limited h bbo, executed (taken b o) A (set_events b []) fs A1 A' fl' b' limited h bbo.

Lemma view_market A fl b o fs A' fl' o' b' :
  engine_ok A fl b -> admissible A fl b o -> view A b o fs A' fl' o' b' ->
  let '(m', oc) := submit tk (bc_lot_size (config b)) (market_of A b) o in
  market_of A' b' ≡ m' /\ oc_ruling oc = verdict A b o /\ oc_trades oc ≡ₚ map content_fill fs /\
  (oc_ruling oc = Execute -> in_remaining o' = oc_left oc /\
    exists h bbo, event_buf b' = fill_events (taken b o) fs ++ terminal (taken b o) fs (oc_capped oc) h :: bbo).
Proof.
  intros He Had V. pose proof (en_book _ _ _ _ _ He) as Hi. unfold submit. rewrite (ruling_verdict mid tk Hcfg A fl b o Hi).
  destruct V as [(-> & -> & [(r & Ev & ->)|(Ev & ->)])|(Ev & -> & A1 & limited & h & bbo & X)]; rewrite Ev; [done|done|].
  destruct (ex_match _ _ _ _ _ _ _ _ _ _ _ _ _ X) as (fl1 & b1 & M).
  pose proof (book_inv_events mid tk _ _ _ [] Hi) as Hi0.
  destruct (matched_trade mid tk Hcfg (taken b o) MAX_MAKERS_PER_ORDER A fl _ fs A1 fl1 b1 Hi0 M) as (ts & Et & Hp).
  rewrite (mk_side_of mid tk). cbn [taken in_side in_price in_remaining in_with_remaining] in Et.
  change (portion (market_of A b) o) with (fillable b o). rewrite Et.
  change (map (fun m : MFill => (content m.1, m.2)) fs) with (map content_fill fs) in Hp. rewrite (traded_filled ts fs Hp).
  set (left := fillable b o - filled fs) in *.
  assert (((0 <? left) && front_reaches (in_side o) (in_price o) (map content (priority (opposite (in_side o)) A1))) = limited) as Hcap.
  { rewrite <- (makers_front mid tk Hcfg A1 fl1 b1) by apply M. apply eq_true_iff_eq. rewrite andb_true_iff, !Z.ltb_lt.
    rewrite (makers_pos mid tk Hcfg A1 fl1 b1) by apply M. symmetry. apply (ex_capped _ _ _ _ _ _ _ _ _ _ _ _ _ X). }
  rewrite Hcap. split; [|split; [done|split; [done|]]].
  2: { intros _. split; [done|]. exists h, bbo. apply X. }
  destruct (executed_nets mid tk A fl b o fs A1 A' fl' b' limited h bbo Had Ev X) as [Hn _].
  pose proof (executed_priority A fl b o fs A1 A' fl' b' limited h bbo) as Hpr.
  pose proof (matched_own mid tk Hcfg (taken b o) MAX_MAKERS_PER_ORDER A fl _ fs A1 fl1 b1 Hi0 M) as Hown. cbn [taken in_side in_with_remaining] in Hown.
  assert (bool_decide (rests (taken b o) fs limited) = (0 <? left) && negb limited && bool_decide (in_tif o = GTC)) as Hrests.
  { apply eq_true_iff_eq. rewrite bool_decide_eq_true, !andb_true_iff, Z.ltb_lt, negb_true_iff, bool_decide_eq_true. unfold rests. cbn. tauto. }
  pose proof (Hpr Buy Hi X) as HB. pose proof (Hpr Sell Hi X) as HS. rewrite Hrests in HB, HS.
  assert (forall v, net_of (users b') v = nets_after (market_of A b) o ts v) as Hnet by (intros v; by rewrite Hn, (nets_after_delta A b o ts fs v Hp)).
  destruct (in_side o); cbn [opposite] in *; cbn -[MarketRef.priority rank residual nets_after] in *;
    destruct ((0 <? left) && negb limited && bool_decide (in_tif o = GTC)); (split; [|split]); cbn -[MarketRef.priority rank residual nets_after];
    rewrite ?HB, ?HS, ?Hown; done.
Qed.


(** ** Cancels *)

(** An index that names exactly the resting orders, by key. *)
Definition indexes (A : ABook) (idx : gmap OrderKey Z) : Prop :=
  forall k h, idx !! k = Some h <-> exists t s, In (h, s) (A t) /\ rs_key (content (h, s)) = k.

Lemma drop_filter A fl b t q1 e q2 t' :
  book_inv mid tk A fl b -> A t = q1 ++ e :: q2 ->
  upd A t (q1 ++ q2) t' = List.filter (fun x => negb (x.1 =? e.1)) (A t').
Proof.
  intros Hi Et. pose proof (core_uniq mid tk A fl b (bk_core _ _ _ _ _ Hi)) as Hu.
  assert (forall q, ~ In e.1 (handles q) -> List.filter (fun x : Entry => negb (x.1 =? e.1)) q = q) as Hkeep.
  { intros q Hq. apply forallb_filter_id, forallb_forall. intros x Hx. apply negb_true_iff, Z.eqb_neq. intros E. apply Hq.
    rewrite <- E. by apply in_handles. }
  unfold upd. destruct (t' =? t) eqn:E; bool_to_prop.
  - subst t'. pose proof (un_slot A Hu t) as Hn. rewrite Et in Hn. apply nodup_mid in Hn as (Hn & _).
    unfold handles in Hn. rewrite map_app, in_app_iff in Hn.
    rewrite Et, List.filter_app. cbn [List.filter]. rewrite Z.eqb_refl. cbn [negb]. rewrite !Hkeep; [done| |]; unfold handles; tauto.
  - symmetry. apply Hkeep. intros (x & Ex & Hx)%in_map_iff. apply E. apply (un_book A Hu t' t x e); [done| |done].
    rewrite Et. apply in_app_iff. right. by left.
Qed.

(** Removing the order with a key from the book withdraws it from the market. *)
Lemma drop_withdraws A fl b t q1 h s q2 idx b' :
  book_inv mid tk A fl b -> A t = q1 ++ (h, s) :: q2 -> indexes A idx -> (forall u, net_of (users b') u = net_of (users b) u) ->
  market_of (upd A t (q1 ++ q2)) b' ≡ withdraw (rs_key (content (h, s))) (market_of A b) /\
  indexes (upd A t (q1 ++ q2)) (delete (rs_key (content (h, s))) idx).
Proof.
  intros Hi Et Hx Hn. pose proof (bk_core _ _ _ _ _ Hi) as Hc. set (k := rs_key (content (h, s))).
  assert (In (h, s) (A t)) as Hin by (rewrite Et; apply in_app_iff; right; by left).
  assert (forall e t', In e (A t') -> rs_key (content e) = k <-> e.1 = h) as Hk.
  { intros [h' s'] t' He. cbn [fst]. split.
    - intros E. pose proof (proj2 (Hx k h') ltac:(by exists t', s')) as E1. pose proof (proj2 (Hx k h) ltac:(by exists t, s)) as E2. congruence.
    - intros ->. by destruct (links_inj _ _ _ t' t h s' s (c_links _ _ _ _ _ Hc) He Hin) as [-> ->]. }
  assert (forall sd, map content (priority sd (upd A t (q1 ++ q2))) = without k (map content (priority sd A))) as Hpr.
  { intros sd. transitivity (map content (List.filter (fun x => negb (x.1 =? h)) (priority sd A))).
    - f_equal. unfold MarketRef.priority. rewrite filter_ranking. f_equal. unfold of_side. rewrite filter_filter_comm. f_equal.
      unfold entries. induction (zrange 0 (total mid tk)) as [|t' ts IH]; [done|]. cbn [flat_map].
      rewrite List.filter_app, IH. f_equal. by apply (drop_filter A fl b t q1 (h, s) q2 t').
    - assert (forall e, In e (priority sd A) -> exists t', In e (A t')) as Hq by (intros e He; by apply (in_priority mid tk Hcfg sd A fl b e Hc) in He as [? _]).
      induction (priority sd A) as [|e q IH]; [done|]. cbn [map List.filter]. unfold without in *. cbn [List.filter].
      destruct (Hq e (or_introl eq_refl)) as [t' He]. pose proof (Hk e t' He) as Hke.
      rewrite <- IH by (intros x Hxq; apply Hq; by right).
      destruct (e.1 =? h) eqn:E1; bool_to_prop; cbn [negb].
      + rewrite bool_decide_eq_true_2; [done|]. by apply Hke.
      + rewrite bool_decide_eq_false_2; [done|]. by rewrite Hke. }
  split.
  - split; [apply (Hpr Buy)|]. split; [apply (Hpr Sell)|]. exact Hn.
  - intros k' h'. rewrite lookup_delete_Some. split.
    + intros (Hne & (t' & s' & He & Ek)%Hx). exists t', s'. split; [|done]. rewrite (drop_filter A fl b t q1 (h, s) q2 t' Hi Et). apply filter_In.
      split; [done|]. apply negb_true_iff, Z.eqb_neq. intros E. apply Hne. rewrite <- Ek. symmetry. by apply (Hk (h', s') t').
    + intros (t' & s' & He & Ek). rewrite (drop_filter A fl b t q1 (h, s) q2 t' Hi Et) in He. apply filter_In in He as [He Hne].
      apply negb_true_iff, Z.eqb_neq in Hne. split; [|apply Hx; eauto]. intros E. apply Hne. apply (Hk (h', s') t' He). by rewrite Ek.
Qed.

End MarketClaims.

(** ** The price map is not part of the market *)

Definition tagged (e : Entry) : Z * Resting := (os_side e.2, content e).

Lemma tagged_side q q' sd : map tagged q' = map tagged q -> map content (of_side sd q') = map content (of_side sd q).
Proof.
  revert q'. induction q as [|e q IH]; intros [|e' q']; [done|done|done|]. cbn [map]. intros Eq.
  pose proof (f_equal (hd (tagged e)) Eq) as Eh. pose proof (f_equal (@tl _) Eq) as E. cbn [hd tl] in Eh, E.
  pose proof (f_equal fst Eh) as Es. pose proof (f_equal snd Eh) as Ec. cbn [tagged fst snd] in Es, Ec.
  unfold of_side in *. cbn [List.filter]. assert (is_side sd e'.2 = is_side sd e.2) as -> by (unfold is_side; by rewrite Es).
  destruct (is_side sd e.2); cbn [map]; [rewrite Ec; f_equal|]; by apply IH.
Qed.

(** Books with the same queue at every price have the same market. *)
Lemma market_same mid mid' tk A fl b A' fl' b' :
  core mid tk A fl b -> core mid' tk A' fl' b' ->
  (forall p, map tagged (queue_of epx p (A' (idx mid' tk p))) = map tagged (queue_of epx p (A (idx mid tk p)))) ->
  (forall u, net_of (users b') u = net_of (users b) u) -> market_of mid' tk A' b' ≡ market_of mid tk A b.
Proof.
  intros Hc Hc' Hq Hn. assert (forall sd, map content (priority mid' tk sd A') = map content (priority mid tk sd A)) as Hp.
  { intros sd. apply (ranked_unique rs_price sd).
    - unfold priority. rewrite (map_ranking epx rs_price) by done. apply ranking_ranked.
    - unfold priority. rewrite (map_ranking epx rs_price) by done. apply ranking_ranked.
    - intros p. rewrite <- !(map_queue_of epx rs_price) by done. rewrite (priority_queue mid' tk sd A' fl' b'), (priority_queue mid tk sd A fl b) by done.
      by apply tagged_side. }
  split; [apply (Hp Buy)|]. split; [apply (Hp Sell)|done].
Qed.
