(* ===== verification/Dedup.v ===== *)
(** * Dedup: one execution per order id [rsx-matching/src/dedup.rs]

    The tracker of accepted order ids: a set of keys and the queue in which
    they came, with the reading of a coarse clock that the loop refreshes.
    An [Instant] is the nanoseconds since the host's start, so subtracting
    from it may be impossible; a [Duration] is nanoseconds. *)

From Stdlib Require Import Sorted.
From S2P Require Import Prelude Market.

Definition DEDUP_WINDOW : Z := 3600 * 1000000000.
Definition DEDUP_CLEANUP_INTERVAL : Z := 10 * 1000000000.

Record DedupTracker : Type := mkDedup {
  dd_seen : gset OrderKey;
  dd_queue : list (OrderKey * Z);
  dd_last_cleanup : Z;
  dd_now : Z;
}.

Definition DedupTracker_new (now : Z) : DedupTracker := mkDedup ∅ [] now now.

Definition refresh_clock (now : Z) (d : DedupTracker) : DedupTracker :=
  mkDedup (dd_seen d) (dd_queue d) (dd_last_cleanup d) now.

(** [true] for a duplicate. *)
Definition check_and_insert (key : OrderKey) (d : DedupTracker) : bool * DedupTracker :=
  if bool_decide (key ∈ dd_seen d) then (true, d)
  else (false, mkDedup ({[key]} ∪ dd_seen d) (dd_queue d ++ [(key, dd_now d)]) (dd_last_cleanup d) (dd_now d)).

(** [Instant::checked_sub] *)
Definition checked_sub (i d : Z) : option Z := if d <=? i then Some (i - d) else None.
(** [Instant::duration_since], which saturates. *)
Definition duration_since (a b : Z) : Z := Z.max 0 (a - b).

(** [clock] is [Instant::now()]. *)
Definition seed (clock : Z) (key : OrderKey) (inserted_ago : Z) (d : DedupTracker) : DedupTracker :=
  if inserted_ago >=? DEDUP_WINDOW then d
  else if bool_decide (key ∈ dd_seen d) then d
  else
    let inserted_at := default clock (checked_sub clock inserted_ago) in
    mkDedup ({[key]} ∪ dd_seen d) (dd_queue d ++ [(key, inserted_at)]) (dd_last_cleanup d) (dd_now d).

(** The loop over the front of the queue. *)
Fixpoint evict_loop (cutoff : Z) (queue : list (OrderKey * Z)) (seen : gset OrderKey) : list (OrderKey * Z) * gset OrderKey :=
  match queue with
  | [] => ([], seen)
  | (key, ts) :: queue' => if ts >=? cutoff then (queue, seen) else evict_loop cutoff queue' (seen ∖ {[key]})
  end.

Definition evict (cutoff : Z) (d : DedupTracker) : DedupTracker :=
  let '(queue, seen) := evict_loop cutoff (dd_queue d) (dd_seen d) in
  mkDedup seen queue (dd_last_cleanup d) (dd_now d).

Definition maybe_cleanup (d : DedupTracker) : DedupTracker :=
  if duration_since (dd_now d) (dd_last_cleanup d) <? DEDUP_CLEANUP_INTERVAL then d
  else
    let d := match checked_sub (dd_now d) DEDUP_WINDOW with Some cutoff => evict cutoff d | None => d end in
    mkDedup (dd_seen d) (dd_queue d) (dd_now d) (dd_now d).

Definition dedup_len (d : DedupTracker) : Z := Z.of_nat (size (dd_seen d)).
Definition dedup_is_empty (d : DedupTracker) : bool := bool_decide (dd_seen d = ∅).

(** ** The invariant *)

Record dedup_inv (d : DedupTracker) : Prop := {
  di_seen : forall k, k ∈ dd_seen d <-> In k (map fst (dd_queue d));
  di_once : NoDup (map fst (dd_queue d));
}.

Lemma new_dedup_inv now : dedup_inv (DedupTracker_new now).
Proof. split; [intros k; cbn; set_solver|constructor]. Qed.

Lemma push_inv key ts last now d : dedup_inv d -> key ∉ dd_seen d ->
  dedup_inv (mkDedup ({[key]} ∪ dd_seen d) (dd_queue d ++ [(key, ts)]) last now).
Proof.
  intros [Hs Hn] Hk. split; cbn; rewrite map_app; cbn.
  - intros k. rewrite in_app_iff, <- Hs, elem_of_union, elem_of_singleton. cbn. intuition congruence.
  - apply NoDup_app. split; [done|]. split; [|apply NoDup_singleton]. intros k Hin ->%list_elem_of_singleton. apply Hk, Hs. by apply list_elem_of_In.
Qed.

(** Eviction drops a prefix of entries older than the cutoff. *)
Lemma evict_loop_spec cutoff q seen :
  NoDup (map fst q) -> (forall k, k ∈ seen <-> In k (map fst q)) ->
  exists old q', evict_loop cutoff q seen = (q', seen ∖ list_to_set (map fst old)) /\ q = old ++ q' /\
    (forall e, In e old -> e.2 < cutoff) /\ (forall e, head q' = Some e -> cutoff <= e.2) /\
    (forall k, k ∈ seen ∖ list_to_set (map fst old) <-> In k (map fst q')).
Proof.
  revert seen. induction q as [|[key ts] q IH]; intros seen Hn Hs.
  { exists [], []. cbn. rewrite difference_empty_L. by split_and!. }
  cbn [evict_loop]. destruct (ts >=? cutoff) eqn:E.
  { exists [], ((key, ts) :: q). cbn [map list_to_set]. rewrite difference_empty_L. split_and!; try done. intros e [= <-]. cbn. lia. }
  cbn [map fst] in Hn. apply NoDup_cons in Hn as [Hni Hn]. rewrite list_elem_of_In in Hni.
  destruct (IH (seen ∖ {[key]}) Hn) as (old & q' & E' & -> & Ho & Hh & Hk).
  { intros k. rewrite elem_of_difference, elem_of_singleton, Hs. cbn [map fst]. split; [intros [[<-|?] ?]; done|].
    intros Hi. split; [by right|]. by intros ->. }
  exists ((key, ts) :: old), q'. cbn [map list_to_set fst].
  assert (seen ∖ ({[key]} ∪ list_to_set (map fst old)) = seen ∖ {[key]} ∖ list_to_set (map fst old)) as -> by set_solver.
  split_and!; try done. intros e [<-|He]; [cbn; lia|by apply Ho].
Qed.

Lemma evict_spec cutoff d : dedup_inv d ->
  dedup_inv (evict cutoff d) /\ exists old, dd_queue d = old ++ dd_queue (evict cutoff d) /\
    (forall e, In e old -> e.2 < cutoff) /\ (forall e, head (dd_queue (evict cutoff d)) = Some e -> cutoff <= e.2).
Proof.
  intros [Hs Hn]. destruct (evict_loop_spec cutoff (dd_queue d) (dd_seen d) Hn Hs) as (old & q' & E & Eq & Ho & Hh & Hk).
  unfold evict. rewrite E. cbn. split; [|by exists old]. split; [done|]. cbn. rewrite Eq, map_app in Hn. by apply NoDup_app in Hn as (_ & _ & ?).
Qed.

Lemma maybe_cleanup_spec d : dedup_inv d ->
  dedup_inv (maybe_cleanup d) /\ dd_now (maybe_cleanup d) = dd_now d /\
  exists old, dd_queue d = old ++ dd_queue (maybe_cleanup d) /\ forall e, In e old -> e.2 < dd_now d - DEDUP_WINDOW.
Proof.
  intros Hi. unfold maybe_cleanup. case_if; [split; [done|]; split; [done|]; by exists []|].
  unfold checked_sub. case_if; cbn; [|split; [by destruct Hi|]; split; [done|]; by exists []].
  destruct (evict_spec (dd_now d - DEDUP_WINDOW) d Hi) as ([Hs Hn] & old & Eq & Ho & _).
  split; [by split|]. split; [unfold evict; by destruct (evict_loop _ _ _)|]. by exists old.
Qed.

(** ** Runs of the tracker *)

Inductive DedupOp : Type :=
| Refresh (now : Z)
| Check (key : OrderKey)
| Seed (clock : Z) (key : OrderKey) (ago : Z)
| Cleanup.

Definition dedup_step (op : DedupOp) (d : DedupTracker) : DedupTracker :=
  match op with
  | Refresh now => refresh_clock now d
  | Check key => (check_and_insert key d).2
  | Seed clock key ago => seed clock key ago d
  | Cleanup => maybe_cleanup d
  end.

Definition dedup_run (ops : list DedupOp) (d : DedupTracker) : DedupTracker := fold_left (fun d op => dedup_step op d) ops d.

Lemma dedup_step_inv op d : dedup_inv d -> dedup_inv (dedup_step op d).
Proof.
  intros Hi. destruct op; cbn.
  - by destruct Hi.
  - unfold check_and_insert. case_bool_decide; [done|]. by apply push_inv.
  - unfold seed. case_if; [done|]. case_bool_decide; [done|]. by apply push_inv.
  - by apply maybe_cleanup_spec.
Qed.

Lemma dedup_run_inv ops d : dedup_inv d -> dedup_inv (dedup_run ops d).
Proof. revert d. induction ops as [|op ops IH]; intros d Hi; [done|]. cbn. by apply IH, dedup_step_inv. Qed.

(** The latest reading of the clock, at most [limit] throughout. *)
Definition clocks_below (limit : Z) (ops : list DedupOp) : Prop :=
  forall now, In (Refresh now) ops -> now <= limit.

(** An entry stays while the clock is within the window. *)
Lemma entry_stays ops d key ts :
  dedup_inv d -> In (key, ts) (dd_queue d) -> dd_now d <= ts + DEDUP_WINDOW -> clocks_below (ts + DEDUP_WINDOW) ops ->
  In (key, ts) (dd_queue (dedup_run ops d)).
Proof.
  revert d. induction ops as [|op ops IH]; intros d Hi Hin Hnow Hb; [done|]. cbn. apply IH.
  - by apply dedup_step_inv.
  - destruct op; cbn; [done|unfold check_and_insert|unfold seed|].
    + case_bool_decide; [done|]. cbn. apply in_app_iff. by left.
    + case_if; [done|]. case_bool_decide; [done|]. cbn. apply in_app_iff. by left.
    + destruct (maybe_cleanup_spec d Hi) as (_ & _ & old & Eq & Ho). rewrite Eq in Hin. apply in_app_iff in Hin as [Hin|]; [|done].
      specialize (Ho _ Hin). cbn in Ho. lia.
  - destruct op; cbn; [apply Hb; by left|unfold check_and_insert; by case_bool_decide|unfold seed; by repeat case_if|].
    by destruct (maybe_cleanup_spec d Hi) as (_ & -> & _).
  - intros now Hn. apply Hb. by right.
Qed.

(** C18: an order id executes at most once an hour.  Whatever the tracker has
    seen, once a check accepts a key, every later check of it answers
    "duplicate" as long as the clock the loop refreshes has advanced by no
    more than the window, whatever other keys were checked, seeded or cleaned
    up in between; and a check answers "duplicate" only for a key that was
    accepted or seeded before. *)
Theorem dedup_once d key ops :
  dedup_inv d ->
  ((check_and_insert key d).1 = true <-> exists ts, In (key, ts) (dd_queue d)) /\
  (clocks_below (dd_now d + DEDUP_WINDOW) ops -> (check_and_insert key d).1 = false ->
   (check_and_insert key (dedup_run ops (check_and_insert key d).2)).1 = true).
Proof.
  assert (forall d, dedup_inv d -> (check_and_insert key d).1 = true <-> exists ts, In (key, ts) (dd_queue d)) as Hc.
  { intros d' [Hs _]. unfold check_and_insert. specialize (Hs key). rewrite in_map_iff in Hs. case_bool_decide as Hk; cbn.
    - split; [|done]. intros _. apply Hs in Hk as ([k ts] & <- & Hin). by exists ts.
    - split; [done|]. intros [ts Hin]. destruct Hk. apply Hs. by exists (key, ts). }
  intros Hi. split; [by apply Hc|]. intros Hb Hf.
  apply Hc; [by apply dedup_run_inv, (dedup_step_inv (Check key))|]. exists (dd_now d).
  unfold check_and_insert in *. case_bool_decide; [done|]. cbn [snd] in *. apply entry_stays; try done.
  - by apply push_inv.
  - cbn. apply in_app_iff. right. by left.
  - cbn. unfold DEDUP_WINDOW. lia.
Qed.

(** ** Memory *)

(** While keys arrive with a clock that does not run backwards. *)
Definition in_time_order (d : DedupTracker) : Prop :=
  StronglySorted (fun a b : OrderKey * Z => a.2 <= b.2) (dd_queue d).

(** After a cleanup that is due nothing older than the window is tracked. *)
Lemma cleanup_bounds d : dedup_inv d -> in_time_order d ->
  DEDUP_CLEANUP_INTERVAL <= dd_now d - dd_last_cleanup d -> DEDUP_WINDOW <= dd_now d ->
  forall e, In e (dd_queue (maybe_cleanup d)) -> dd_now d - e.2 <= DEDUP_WINDOW.
Proof.
  intros Hi Ho Hdue Hup. unfold maybe_cleanup, duration_since, checked_sub.
  replace (Z.max 0 (dd_now d - dd_last_cleanup d) <? DEDUP_CLEANUP_INTERVAL) with false by (unfold DEDUP_CLEANUP_INTERVAL in *; lia).
  replace (DEDUP_WINDOW <=? dd_now d) with true by lia. cbn [dd_queue].
  destruct (evict_spec (dd_now d - DEDUP_WINDOW) d Hi) as (_ & old & Eq & _ & Hh). intros e He.
  unfold in_time_order in Ho. rewrite Eq in Ho. set (q := dd_queue (evict (dd_now d - DEDUP_WINDOW) d)) in *.
  assert (StronglySorted (fun a b : OrderKey * Z => a.2 <= b.2) q) as Hq.
  { clear -Ho. induction old as [|x old IH]; [done|]. apply IH. by apply StronglySorted_inv in Ho as [? _]. }
  destruct q as [|x q]; [done|]. specialize (Hh x eq_refl). apply StronglySorted_inv in Hq as [_ Hx].
  destruct He as [->|He]; [lia|]. pose proof (proj1 (List.Forall_forall _ _) Hx e He) as Hle. cbn in Hle. lia.
Qed.
