(* ===== verification/Tile.v ===== *)
(** * Tile: the matching engine process around its book [rsx-matching/src]

    [wire.rs], [wal.rs], [order.rs] and [cancel.rs]: a request is checked for
    a repeated id, logged, matched, and its events are framed once, appended
    to the log and sent to the risk and market-data peers.  The metrics and
    latency samples are left out. *)

From S2P Require Import Prelude Hash Types Slab Users Order Book Matching Migration Frames Messages Wal Cast Market Dedup.

(** ** Requests [wire.rs] *)

Definition decode_side (side : Z) : Side := if side =? 0 then Buy else Sell.
Definition decode_tif (tif : Z) : TimeInForce := if tif =? 1 then IOC else if tif =? 2 then FOK else GTC.

Definition to_incoming (msg : OrderMessage) : IncomingOrder :=
  mkIncoming (om_price msg) (om_qty msg) (om_qty msg) (decode_side (om_side msg)) (decode_tif (om_tif msg)) (om_user_id msg)
    (negb (om_reduce_only msg =? 0)) (negb (om_post_only msg =? 0)) (om_timestamp_ns msg) (om_order_id_hi msg) (om_order_id_lo msg).

(** ** Records of events [wal.rs] *)

(** The record types the tile writes. *)
Inductive TileRecord : Type :=
| TrFill (r : FillRecord)
| TrInserted (r : OrderInsertedRecord)
| TrCancelled (r : OrderCancelledRecord)
| TrDone (r : OrderDoneRecord)
| TrFailed (r : OrderFailedRecord)
| TrBbo (r : BboRecord)
| TrAccepted (r : OrderAcceptedRecord)
| TrConfig (r : ConfigAppliedRecord).

Definition done_status_and_reason (reason : OrderDoneReason) : Z * Z :=
  match reason with
  | Filled => (0, 0)
  | UserCancel => (2, CANCEL_REASON_USER_CANCEL)
  | Expired => (2, CANCEL_REASON_EXPIRY)
  | PostOnly => (2, CANCEL_REASON_POST_ONLY_REJECT)
  | MatchLimit => (2, CANCEL_REASON_SYSTEM)
  end.

Definition failure_reason_code (reason : OrderFailureReason) : Z :=
  failure_u8 (match reason with
              | InvalidTick => InvalidTickSize
              | InvalidLot => InvalidLotSize
              | ReduceOnly => ReduceOnlyViolation
              | FillOrKill => FillOrKillF
              | Duplicate => DuplicateOrderId
              end).

(** [bool as u8] *)
Definition b2z (b : bool) : Z := if b then 1 else 0.

Definition slot_flags (b : Orderbook) (handle : Z) : Res (Z * Z) :=
  if handle =? NONE then Ok (0, 0)
  else slot ← get (orders b) handle; Ok (b2z (is_reduce_only slot), os_tif slot).

(** The hop timestamps of a match cycle. *)
Record Hops : Type := mkHops { hp_gw_in : Z; hp_risk_in : Z; hp_me_in : Z; hp_match_done : Z }.
Definition no_hops : Hops := mkHops 0 0 0 0.

Definition event_record (b : Orderbook) (symbol_id ts_ns : Z) (hops : Hops) (event : Event) : Res TileRecord :=
  match event with
  | Fill _ maker_tif maker_reduce_only maker_user_id taker_user_id price qty side maker_hi maker_lo taker_hi taker_lo gw_in_ns =>
      Ok (TrFill (mkWireFill 0 ts_ns symbol_id taker_user_id maker_user_id 0 taker_hi taker_lo maker_hi maker_lo price qty side
        (b2z maker_reduce_only) maker_tif 0 0 gw_in_ns (hp_risk_in hops) (hp_me_in hops) (hp_match_done hops) 0))
  | OrderInserted handle user_id side price qty hi lo =>
      '(reduce_only, tif) ← slot_flags b handle;
      Ok (TrInserted (mkOrderInsertedRecord 0 ts_ns symbol_id user_id hi lo price qty side reduce_only tif 0))
  | OrderCancelled handle user_id remaining_qty hi lo =>
      '(reduce_only, tif) ← slot_flags b handle;
      Ok (TrCancelled (mkOrderCancelledRecord 0 ts_ns symbol_id user_id hi lo remaining_qty CANCEL_REASON_USER_CANCEL reduce_only tif 0))
  | OrderDone handle tif reduce_only user_id reason filled_qty remaining_qty hi lo =>
      let hops := if handle =? NONE then hops else no_hops in
      let '(final_status, cancel_reason) := done_status_and_reason reason in
      Ok (TrDone (mkOrderDoneRecord 0 ts_ns symbol_id user_id hi lo filled_qty remaining_qty final_status (b2z reduce_only) tif 0
        cancel_reason (hp_gw_in hops) (hp_risk_in hops) (hp_me_in hops) (hp_match_done hops) 0))
  | OrderFailed user_id reason hi lo => Ok (TrFailed (mkOrderFailedRecord 0 ts_ns user_id hi lo (failure_reason_code reason)))
  | BBO bid_px bid_qty ask_px ask_qty => Ok (TrBbo (mkBboRecord 0 ts_ns symbol_id bid_px bid_qty 0 ask_px ask_qty 0))
  end.

(** ** Sinks

    [EventSink]: where the records of a match cycle go.  An [io::Result]
    keeps the sink's state in both cases. *)

Abbreviation SinkRes S := (Res ((unit + IoError) * S)).

Class EventSink (S : Type) : Type := {
  sink_emit : forall {T} `{CastRecord T}, T -> S -> SinkRes S;
}.

Definition emit_record {S} `{EventSink S} (record : TileRecord) (s : S) : SinkRes S :=
  match record with
  | TrFill r => sink_emit r s
  | TrInserted r => sink_emit r s
  | TrCancelled r => sink_emit r s
  | TrDone r => sink_emit r s
  | TrFailed r => sink_emit r s
  | TrBbo r => sink_emit r s
  | TrAccepted r => sink_emit r s
  | TrConfig r => sink_emit r s
  end.

(** The walk over the event buffer; an error of the sink ends it. *)
Fixpoint emit_loop {S} `{EventSink S} (b : Orderbook) (symbol_id ts_ns : Z) (hops : Hops) (events : list Event) (s : S) : SinkRes S :=
  match events with
  | [] => Ok (inl tt, s)
  | event :: events =>
      record ← event_record b symbol_id ts_ns hops event;
      '(r, s) ← emit_record record s;
      match r with
      | inl _ => emit_loop b symbol_id ts_ns hops events s
      | inr e => Ok (inr e, s)
      end
  end.

Definition emit_events {S} `{EventSink S} (s : S) (b : Orderbook) (symbol_id ts_ns : Z) (hops : Hops) : SinkRes S :=
  emit_loop b symbol_id ts_ns hops (event_buf b) s.

(** ** Peers

    A cast stream to one peer.  [cp_net] are the outcomes of the next sends,
    success when it runs out; [cp_out] are the datagrams that went out. *)
Record CastPeer : Type := mkPeer {
  cp_sender : CastSender;
  cp_failing : bool;
  cp_heartbeat_failing : bool;
  cp_net : list bool;
  cp_out : list (list Z);
}.

Definition CastPeer_new (sender : CastSender) (net : list bool) : CastPeer := mkPeer sender false false net [].

(** [tick]: a heartbeat when one is due. *)
Definition peer_tick `{Crc32c} (now : Z) (p : CastPeer) : CastPeer :=
  let due := now - sd_last_heartbeat (cp_sender p) >=? sd_heartbeat_interval (cp_sender p) in
  let '(ok, out, sender) := CastSender_tick (default true (head (cp_net p))) now (cp_sender p) in
  mkPeer sender (cp_failing p) (if ok then (if cp_heartbeat_failing p then false else cp_heartbeat_failing p)
                                else (if negb (cp_heartbeat_failing p) then true else cp_heartbeat_failing p))
    (if due then tl (cp_net p) else cp_net p) (cp_out p ++ out).

(** [send]: a failure is noted once per outage and never returned. *)
Definition peer_send (now : Z) (framed : Framed) (p : CastPeer) : Res CastPeer :=
  '(ok, out, sender) ← send_framed (default true (head (cp_net p))) now framed (cp_sender p);
  Ok (mkPeer sender (if (ok : bool) then (if cp_failing p then false else cp_failing p)
                     else (if negb (cp_failing p) then true else cp_failing p))
    (cp_heartbeat_failing p) (tl (cp_net p)) (cp_out p ++ out)).

(** ** The log and the peers *)

(** [fo_now] is the clock's reading while a record goes out. *)
Record Fanout : Type := mkFanout { fo_world : World; fo_cmp : CastPeer; fo_mkt : CastPeer; fo_now : Z }.

Definition fo_with_world (s : World) (f : Fanout) : Fanout := mkFanout s (fo_cmp f) (fo_mkt f) (fo_now f).
Definition fo_with_peers (c m : CastPeer) (f : Fanout) : Fanout := mkFanout (fo_world f) c m (fo_now f).
Definition fo_at (now : Z) (f : Fanout) : Fanout := mkFanout (fo_world f) (fo_cmp f) (fo_mkt f) now.
Definition with_writer (w : WalWriter) (s : World) : World := mkWorld w (wd_disk s) (wd_faults s).

Section Fanout.
Context `{Crc32c} `{HashIter}.

(** The loop that repeats an operation until it succeeds.  Every failure the
    disk can cause uses up a fault of the script, so its length bounds the
    rounds of an operation that can still succeed. *)
Fixpoint retry_until_ok (fuel : nat) (operation : World -> (unit + IoError) * World) (s : World) : Res World :=
  match fuel with
  | O => Diverged
  | S fuel =>
      match operation s with
      | (inl _, s) => Ok s
      | (inr _, s) => retry_until_ok fuel operation s
      end
  end.

Definition flush_stalling (now : Z) (s : World) : Res World := retry_until_ok (S (length (wd_faults s))) (flush now) s.

(** A flush empties the buffer, so the second round appends. *)
Fixpoint append_loop (fuel : nat) (now : Z) (framed : Framed) (s : World) : SinkRes World :=
  match fuel with
  | O => Diverged
  | S fuel =>
      match append_framed framed (wd_writer s) with
      | (inr WouldBlock, w) => s ← flush_stalling now (with_writer w s); append_loop fuel now framed s
      | (r, w) => Ok (r, with_writer w s)
      end
  end.
Definition append_stalling (now : Z) (framed : Framed) (s : World) : SinkRes World := append_loop 2 now framed s.

Definition fan_out {T} `{CastRecord T} (record : T) (f : Fanout) : SinkRes Fanout :=
  '(framed, w) ← prepare record (wd_writer (fo_world f));
  '(r, s) ← append_stalling (fo_now f) framed (with_writer w (fo_world f));
  match r with
  | inr e => Ok (inr e, fo_with_world s f)
  | inl _ =>
      cmp ← peer_send (fo_now f) framed (fo_cmp f);
      mkt ← peer_send (fo_now f) framed (fo_mkt f);
      Ok (inl tt, fo_with_peers cmp mkt (fo_with_world s f))
  end.

#[export] Instance FanoutSink : EventSink Fanout := { sink_emit := fun T _ record f => fan_out record f }.

(** The log alone. *)
Record WalSink : Type := mkWalSink { ws_world : World }.
#[export] Instance WalSink_sink : EventSink WalSink := {
  sink_emit := fun T _ record s =>
    '(framed, w) ← prepare record (wd_writer (ws_world s));
    let '(r, w) := append_framed framed w in Ok (r, mkWalSink (with_writer w (ws_world s)))
}.

Definition write_events_to_wal (s : World) (b : Orderbook) (symbol_id ts_ns : Z) : SinkRes World :=
  '(r, k) ← emit_events (mkWalSink s) b symbol_id ts_ns no_hops; Ok (r, ws_world k).

Definition publish_events (f : Fanout) (b : Orderbook) (symbol_id ts_ns : Z) (hops : Hops) : SinkRes Fanout :=
  emit_events f b symbol_id ts_ns hops.

(** [flush_if_due], with the loop's last flush. *)
Definition flush_if_due (now last_flush : Z) (s : World) : Res (bool * Z * World) :=
  if should_flush (wd_writer s) || ((now - last_flush) / 1000000 >=? 10) then
    s ← flush_stalling now s; Ok (true, now, s)
  else Ok (false, last_flush, s).

(** ** The order index *)

Definition index_event (index : gmap OrderKey Z) (event : Event) : gmap OrderKey Z :=
  match event with
  | OrderInserted handle user_id _ _ _ hi lo => <[(user_id, hi, lo) := handle]> index
  | OrderDone _ _ _ user_id _ _ _ hi lo => delete (user_id, hi, lo) index
  | _ => index
  end.
Definition update_order_index (events : list Event) (index : gmap OrderKey Z) : gmap OrderKey Z := fold_left index_event events index.

Definition index_slot (b : Orderbook) (index : gmap OrderKey Z) (handle : Z) : Res (gmap OrderKey Z) :=
  slot ← get (orders b) handle;
  Ok (if negb (is_active slot) then index else <[(os_user slot, os_oid_hi slot, os_oid_lo slot) := handle]> index).
Definition rebuild_order_index_from_book (b : Orderbook) : Res (gmap OrderKey Z) :=
  rfold (index_slot b) ∅ (zrange 0 (len (orders b))).

(** ** Orders [order.rs] and cancels [cancel.rs] *)

Record Tile : Type := mkTile { tl_book : Orderbook; tl_fanout : Fanout; tl_index : gmap OrderKey Z; tl_dedup : DedupTracker }.

(** [expect] on an [io::Result]. *)
Definition io_expect {S} (m : SinkRes S) : Res S :=
  '(r, s) ← m; match r with inl _ => Ok s | inr _ => Panic end.

Definition maybe_recenter (b : Orderbook) : Res Orderbook :=
  if (best_bid_tick b =? NONE) || (best_ask_tick b =? NONE) then Ok b
  else
    let mid := Z.quot (wrap_i64 (best_bid_px b + best_ask_px b)) 2 in
    if should_recenter b mid then recenter_now b mid else Ok b.

(** The readings of the clock in one handler, in their order. *)
Record Stamps : Type := mkStamps { st_me_in : Z; st_record : Z; st_match_done : Z; st_publish : Z }.

Definition accepted_record (symbol_id ts_ns : Z) (msg : OrderMessage) : OrderAcceptedRecord :=
  mkOrderAcceptedRecord 0 ts_ns (om_user_id msg) symbol_id (om_order_id_hi msg) (om_order_id_lo msg) (om_price msg) (om_qty msg)
    (om_side msg) (om_tif msg) (om_reduce_only msg) (om_post_only msg) 0.

Definition duplicate_record (ts_ns : Z) (msg : OrderMessage) : OrderFailedRecord :=
  mkOrderFailedRecord 0 ts_ns (om_user_id msg) (om_order_id_hi msg) (om_order_id_lo msg) (failure_reason_code Duplicate).

Definition msg_key (msg : OrderMessage) : OrderKey := (om_user_id msg, om_order_id_hi msg, om_order_id_lo msg).

Definition process_order (symbol_id : Z) (st : Stamps) (msg : OrderMessage) (t : Tile) : Res Tile :=
  let '(is_dup, dedup) := check_and_insert (msg_key msg) (tl_dedup t) in
  if is_dup then
    f ← io_expect (fan_out (duplicate_record (st_record st) msg) (tl_fanout t));
    Ok (mkTile (tl_book t) f (tl_index t) dedup)
  else
    f ← io_expect (fan_out (accepted_record symbol_id (st_record st) msg) (tl_fanout t));
    '(_, b) ← process_new_order (tl_book t) (to_incoming msg);
    f ← io_expect (publish_events f b symbol_id (st_publish st)
          (mkHops (om_timestamp_ns msg) (om_risk_in_ns msg) (st_me_in st) (st_match_done st)));
    let index := update_order_index (event_buf b) (tl_index t) in
    b ← maybe_recenter b;
    Ok (mkTile b f index dedup).

Definition cancel_key (request : CancelRequest) : OrderKey := (cr_user_id request, cr_order_id_hi request, cr_order_id_lo request).

(** The cancel on the book and its events.  In a debug build index drift
    fails an assertion; a release build warns and returns, which is modelled. *)
Definition cancel_on_book (b : Orderbook) (found : Z) (key : OrderKey) : Res (bool * Orderbook) :=
  let '(user_id, hi, lo) := key in
  slot ← get (orders b) found;
  let b0 := set_events b [] in
  '(cancelled, b1) ← cancel_order_checked b0 found user_id hi lo;
  if negb cancelled then Ok (false, b1)
  else
    b2 ← emit b1 (OrderCancelled found user_id (os_remaining slot) hi lo);
    b3 ← emit b2 (OrderDone found (os_tif slot) (is_reduce_only slot) user_id UserCancel 0 (os_remaining slot) hi lo);
    b4 ← (if same_best b b3 then Ok b3 else emit_bbo b3);
    Ok (true, b4).

Definition process_cancel (symbol_id ts_ns : Z) (request : CancelRequest) (t : Tile) : Res Tile :=
  match tl_index t !! cancel_key request with
  | None => Ok t
  | Some found =>
      '(cancelled, b) ← cancel_on_book (tl_book t) found (cancel_key request);
      if negb cancelled then Ok (mkTile b (tl_fanout t) (tl_index t) (tl_dedup t))
      else
        f ← io_expect (publish_events (tl_fanout t) b symbol_id ts_ns no_hops);
        Ok (mkTile b f (update_order_index (event_buf b) (tl_index t)) (tl_dedup t))
  end.

End Fanout.
