(* ===== verification/Stall.v ===== *)
(** * Stall: the producer stall of the log

    [append_stalling] waits for a flush to succeed.  A failing flush has met a
    failing system call, unless it stands between the rename and the reopening
    of a rotation with no active file: from there no flush ever succeeds
    again, whatever the disk does ([reopen_failure_stalls]).  Otherwise the
    stall ends as soon as the disk recovers ([stall_ends]). *)

From S2P Require Import Prelude Hash Frames Wal WalRead WalInv WalClaims Market Dedup Tile.

(** The handle was swapped away and the active file renamed away. *)
Definition stuck (s : World) : Prop := ww_file (wd_writer s) = DevNull /\ dk_active (wd_disk s) = None.

Section Stall.
Context `{Crc32c} `{HashIter} `{Win : Window}.

(** ** A failure uses up a fault *)

Definition faults_left (s : World) : nat := length (wd_faults s).

Definition prog {A} (P : World -> Prop) (m : IO A) (Q : World -> Prop) : Prop := forall s, P s ->
  match m s with
  | (inl _, s') => Q s' /\ (faults_left s' <= faults_left s)%nat
  | (inr _, s') => (faults_left s' < faults_left s)%nat \/ stuck s'
  end.

Definition anywhere : World -> Prop := fun _ => True.

Lemma prog_bind {A B} (m : IO A) (k : A -> IO B) P Q R :
  prog P m Q -> (forall a, prog Q (k a) R) -> prog P (io_bind m k) R.
Proof.
  intros Hm Hk s Hs. specialize (Hm s Hs). unfold io_bind. destruct (m s) as [[a|e] s1]; [|done].
  destruct Hm as [Hq Hl]. specialize (Hk a s1 Hq). destruct (k a s1) as [[b|e] s2]; [destruct Hk; split; [done|lia]|].
  destruct Hk; [left; lia|by right].
Qed.

Lemma prog_ret {A} (a : A) P : prog P (io_ret a) P.
Proof. intros s Hs. split; [done|lia]. Qed.

Lemma prog_get P : prog P writer_get P.
Proof. intros s Hs. split; [done|lia]. Qed.

Lemma prog_set f P : prog P (writer_set f) anywhere.
Proof. intros s Hs. split; [done|]. unfold faults_left. cbn. lia. Qed.

Lemma prog_syscall {A} (done : World -> (A + IoError) * World) torn (P Q : World -> Prop) :
  (forall w d fs fs', P (mkWorld w d fs) -> P (mkWorld w d fs')) ->
  (forall k s, faults_left (torn k s) = faults_left s) ->
  (forall s, P s -> match done s with
    | (inl _, s') => Q s' /\ faults_left s' = faults_left s
    | (inr _, s') => stuck s' end) ->
  prog P (syscall done torn) Q.
Proof.
  intros HP Ht Hd s Hs. unfold syscall. destruct s as [w d [|[|k] fs]]; cbn [wd_faults wd_writer wd_disk].
  - specialize (Hd _ Hs). destruct (done _) as [[a|e] s']; [destruct Hd; split; [done|lia]|by right].
  - specialize (Hd _ (HP w d _ fs Hs)). destruct (done _) as [[a|e] s']; [|by right]. destruct Hd as [? El]. split; [done|].
    rewrite El. unfold faults_left. cbn. lia.
  - left. rewrite Ht. unfold faults_left. cbn. lia.
Qed.

(** A call that cannot fail by itself. *)
Lemma prog_plain {A} (done : World -> (A + IoError) * World) torn :
  (forall k s, faults_left (torn k s) = faults_left s) ->
  (forall s, exists a s', done s = (inl a, s') /\ faults_left s' = faults_left s) -> prog anywhere (syscall done torn) anywhere.
Proof. intros Ht Hd. apply prog_syscall; [done|done|]. intros s _. by destruct (Hd s) as (a & s' & -> & ?). Qed.

Ltac plain := unfold metadata_len, set_len, write_all, sync_all, open_active;
  apply prog_plain; [done|intros s; eexists _, _; split; reflexivity].

Lemma prog_prune_entry now e : prog anywhere (prune_entry now e) anywhere.
Proof.
  intros s _. unfold prune_entry, syscall. destruct e as [nm fl]. destruct s as [w d [|[|k] fs]]; cbn;
    repeat case_if; try (split; [done|unfold faults_left; cbn; lia]).
  destruct fs as [|[|k] fs]; (split; [done|unfold faults_left; cbn; lia]).
Qed.

Lemma prog_prune now : prog anywhere (prune_old_segments now) anywhere.
Proof.
  assert (forall es, prog anywhere (prune_entries now es) anywhere) as Hes.
  { induction es as [|e es IH]; cbn; [apply prog_ret|]. eapply prog_bind; [apply prog_prune_entry|by intros _]. }
  intros s _. unfold prune_old_segments, syscall. destruct s as [w d [|[|k] fs]]; cbn [wd_faults wd_writer wd_disk].
  - apply (Hes _ (mkWorld w d [])). done.
  - pose proof (Hes (iter_map (dk_segments d)) (mkWorld w d fs) I) as Hp. destruct (prune_entries _ _ _) as [[a|e] s'].
    + destruct Hp. split; [done|]. unfold faults_left in *. cbn in *. lia.
    + destruct Hp; [left|by right]. unfold faults_left in *. cbn in *. lia.
  - split; [done|]. unfold faults_left. cbn. lia.
Qed.

Lemma prog_rotate now : prog anywhere (rotate now) anywhere.
Proof.
  unfold rotate. eapply prog_bind; [apply prog_get|intros w]. eapply prog_bind; [plain|intros _].
  apply (prog_bind _ _ _ (fun s => ww_file (wd_writer s) = DevNull)).
  { unfold replace_with_null. eapply prog_bind; [plain|intros _]. intros s _. split; [done|]. unfold faults_left. cbn. lia. }
  intros _. eapply prog_bind.
  { apply (prog_syscall _ _ _ anywhere); [done|done|]. intros s Hs. destruct (dk_active (wd_disk s)) eqn:E; [by split|by split]. }
  intros _. eapply prog_bind; [eapply prog_bind; [plain|intros _; apply prog_set]|intros _].
  eapply prog_bind; [apply prog_set|intros _]. apply prog_prune.
Qed.

Lemma prog_flush now : prog anywhere (flush now) anywhere.
Proof.
  unfold flush. eapply prog_bind; [apply prog_get|intros w]. case_if; [apply prog_ret|].
  eapply prog_bind; [plain|intros len]. eapply prog_bind; [case_if; [plain|apply prog_ret]|intros _].
  eapply prog_bind; [case_if; [apply prog_rotate|apply prog_ret]|intros _].
  eapply prog_bind; [plain|intros _]. eapply prog_bind; [plain|intros _]. eapply prog_bind; [apply prog_set|intros _].
  eapply prog_bind; [apply prog_get|intros w']. case_if; [apply prog_rotate|apply prog_ret].
Qed.

(** ** The stall *)

(** Flushes that fail one after the other. *)
Inductive failing (now : Z) : World -> World -> Prop :=
| fl_refl s : failing now s s
| fl_step s e s1 s2 : flush now s = (inr e, s1) -> failing now s1 s2 -> failing now s s2.

Lemma retry_ends now fuel s : (faults_left s < fuel)%nat ->
  (exists s', retry_until_ok fuel (flush now) s = Ok s') \/ exists s', failing now s s' /\ stuck s'.
Proof.
  revert s. induction fuel as [|fuel IH]; intros s Hl; [lia|]. cbn [retry_until_ok].
  pose proof (prog_flush now s I) as Hp. destruct (flush now s) as [[a|e] s1] eqn:E; [left; eauto|].
  destruct Hp as [Hlt|Hst]; [|right; exists s1; split; [by eapply fl_step; [|constructor]|done]].
  destruct (IH s1 ltac:(lia)) as [?|(s' & Hf & Hs')]; [by left|right]. exists s'. split; [by eapply fl_step|done].
Qed.

(** A stuck writer whose buffer asks for a rotation stays so. *)
Definition hopeless (s : World) : Prop := stuck s /\ due (wd_writer s) /\ 0 < zlen (ww_buf (wd_writer s)).

Definition keeps {A} (m : IO A) : Prop := forall s, hopeless s -> hopeless (m s).2.
Definition doomed (m : IO unit) : Prop := forall s, hopeless s -> exists e s', m s = (inr e, s') /\ hopeless s'.

Lemma doomed_after {A} (m : IO A) k : keeps m -> (forall a, doomed (k a)) -> doomed (io_bind m k).
Proof.
  intros Hm Hk s Hs. specialize (Hm s Hs). unfold io_bind. destruct (m s) as [[a|e] s1]; [by apply Hk|eauto].
Qed.

Lemma doomed_bind {A} (m : IO unit) (k : unit -> IO A) s : doomed m -> hopeless s ->
  exists e s', io_bind m k s = (inr e, s') /\ hopeless s'.
Proof. intros Hm Hs. unfold io_bind. destruct (Hm s Hs) as (e & s' & -> & ?). eauto. Qed.

Lemma hopeless_faults w d fs fs' : hopeless (mkWorld w d fs) -> hopeless (mkWorld w d fs').
Proof. done. Qed.

Lemma keeps_syscall {A} (done : World -> (A + IoError) * World) torn :
  (forall s, hopeless s -> hopeless (done s).2) -> (forall k s, hopeless s -> hopeless (torn k s)) -> keeps (syscall done torn).
Proof.
  intros Hd Ht [w d fs] Hs. unfold syscall. destruct fs as [|[|k] fs]; cbn [wd_faults wd_writer wd_disk]; [by apply Hd| |].
  - apply Hd. by eapply hopeless_faults.
  - apply Ht. by eapply hopeless_faults.
Qed.

Lemma keeps_metadata : keeps metadata_len.
Proof. by apply keeps_syscall. Qed.

Lemma keeps_sync : keeps sync_all.
Proof. by apply keeps_syscall. Qed.

Lemma keeps_set_len now size : keeps (set_len now size).
Proof.
  apply keeps_syscall; [|done]. intros [w d fs] ([Hf Ha] & Hd & Hb). cbn in *. split; [|done]. split; cbn; [done|]. by rewrite Hf.
Qed.

Lemma keeps_null : keeps replace_with_null.
Proof.
  intros s Hs. unfold replace_with_null, io_bind.
  assert (keeps (syscall (fun s : World => (inl tt : unit + IoError, s)) (fun _ s => s))) as Hk by (by apply keeps_syscall).
  specialize (Hk s Hs). destruct (syscall _ _ s) as [[[]|e] s1]; [|done]. destruct Hk as ([Hf Ha] & Hd & Hb). by split_and!.
Qed.

Lemma doomed_rename nm : doomed (rename_active nm).
Proof.
  intros [w d fs] Hs. pose proof Hs as ([_ Ha] & _). unfold rename_active, syscall. cbn in Ha. cbn [wd_faults wd_writer wd_disk].
  destruct fs as [|[|k] fs]; cbn [wd_disk]; rewrite ?Ha; eauto using hopeless_faults.
Qed.

Lemma doomed_rotate now : doomed (rotate now).
Proof.
  apply doomed_after; [by intros s|intros w]. apply doomed_after; [apply keeps_sync|intros _].
  apply doomed_after; [apply keeps_null|intros _]. intros s Hs. apply doomed_bind; [apply doomed_rename|done].
Qed.

Lemma hopeless_flush now : doomed (flush now).
Proof.
  intros s Hs. pose proof Hs as (_ & [Hs0 Hd] & Hb). unfold flush, io_bind at 1, writer_get at 1.
  revert s Hs Hs0 Hd Hb. intros s0 Hs. generalize (wd_writer s0). intros w Hs0 Hd Hb. replace (zlen (ww_buf w) =? 0) with false by lia.
  revert s0 Hs. apply doomed_after; [apply keeps_metadata|intros len].
  apply doomed_after; [case_if; [apply keeps_set_len|by intros s]|intros _].
  replace ((ww_file_size w >? 0) && (wrap_u64 (ww_file_size w + zlen (ww_buf w)) >=? ww_max_file_size w)) with true by lia.
  intros s Hs. apply doomed_bind; [apply doomed_rotate|done].
Qed.

Lemma hopeless_retry now fuel s : hopeless s -> retry_until_ok fuel (flush now) s = Diverged.
Proof.
  revert s. induction fuel as [|fuel IH]; intros s Hs; [done|]. cbn [retry_until_ok]. destruct (hopeless_flush now s Hs) as (e & s' & -> & Hs'). by apply IH.
Qed.

Lemma logged_hopeless first D pend w d faults :
  logged first D pend w d -> dk_active d = None -> ww_buf w <> [] -> hopeless (mkWorld w d faults).
Proof.
  intros (gs & act & frag & -> & Hb & Hh) Ha Hp. rewrite Ha in Hh. inversion Hh as [| |Hf _ _ _ Hd]; [congruence..|].
  split; [by split|]. split; [done|]. cbn. destruct (ww_buf w); [done|]. unfold zlen. cbn. lia.
Qed.

Lemma session_failing first log D now s s' : recent now -> failing now s s' ->
  wal_session first log D (wd_writer s) (wd_disk s) -> wal_session first log D (wd_writer s') (wd_disk s').
Proof.
  intros Hn. induction 1 as [s|s e s1 s2 Hf Hs IH]; [done|]. intros Hw. apply IH. destruct s as [w d fs], s1 as [w1 d1 fs1].
  eapply ws_flush_failed; [exact Hw|done|exact Hf].
Qed.

Lemma retry_session first log D now fuel s s' : recent now -> wal_session first log D (wd_writer s) (wd_disk s) ->
  retry_until_ok fuel (flush now) s = Ok s' -> wal_session first log log (wd_writer s') (wd_disk s').
Proof.
  intros Hn. revert s. induction fuel as [|fuel IH]; intros [w d fs] Hw; [done|]. cbn [retry_until_ok wd_writer wd_disk] in *.
  destruct (flush now _) as [[[]|e] [w1 d1 fs1]] eqn:E.
  - intros [= <-]. cbn. eapply ws_flush_ok; [exact Hw|done|exact E].
  - apply IH. eapply ws_flush_failed; [exact Hw|done|exact E].
Qed.

(** ** The producer's promise *)

Lemma stall_ends_aux first log D w d now faults : wal_session first log D w d -> recent now ->
  (exists w' d' faults', flush_stalling now (mkWorld w d faults) = Ok (mkWorld w' d' faults') /\ wal_session first log log w' d') \/
  (exists w' d' faults', failing now (mkWorld w d faults) (mkWorld w' d' faults') /\ wal_session first log D w' d' /\
    ww_file w' = DevNull /\ dk_active d' = None).
Proof.
  intros Hw Hn. destruct (retry_ends now (S (length faults)) (mkWorld w d faults) ltac:(unfold faults_left; cbn; lia)) as [[[w' d' fs'] E]|([w' d' fs'] & Hf & Hs & Ha)].
  - left. exists w', d', fs'. split; [done|]. by apply (retry_session first log D now _ (mkWorld w d faults) _ Hn Hw E).
  - right. exists w', d', fs'. split_and!; [done| |done|done]. by apply (session_failing first log D now (mkWorld w d faults) (mkWorld w' d' fs') Hn Hf Hw).
Qed.

(** C19: A stalled producer comes back.  Along any life of a log and for any
    script of failing system calls, the loop that repeats a flush until it
    succeeds ends, with every appended record durable, as soon as the
    script is used up; the one exception is a writer that a failure has left
    between a rotation's rename and its reopening of the active file. *)
Theorem stall_ends first log D w d now faults : wal_session first log D w d -> recent now ->
  (exists w' d' faults', flush_stalling now (mkWorld w d faults) = Ok (mkWorld w' d' faults') /\ wal_session first log log w' d') \/
  (exists w' d' faults', failing now (mkWorld w d faults) (mkWorld w' d' faults') /\ wal_session first log D w' d' /\
    ww_file w' = DevNull /\ dk_active d' = None).
Proof. apply stall_ends_aux. Qed.

(** C20: A failed reopening is never repaired.  Along any life of a log, when
    the active file is missing and records wait in the buffer, every flush
    fails, also on a disk that has recovered: the rotation is attempted again
    and its rename finds no file.  The producer's retry loop never returns. *)
Theorem reopen_failure_stalls first log D w d now faults fuel :
  wal_session first log D w d -> dk_active d = None -> ww_buf w <> [] ->
  (exists e s', flush now (mkWorld w d faults) = (inr e, s')) /\ retry_until_ok fuel (flush now) (mkWorld w d faults) = Diverged.
Proof.
  intros Hw Ha Hb. destruct (session_logged _ _ _ _ _ Hw) as (D' & pend & -> & _ & Hl).
  pose proof (logged_hopeless _ _ _ _ _ faults Hl Ha Hb) as Hh. split; [|by apply hopeless_retry].
  destruct (hopeless_flush now _ Hh) as (e & s' & -> & _). eauto.
Qed.

End Stall.
