(* ===== verification/TileLog.v ===== *)
(** * TileLog: the log and the peers of the tile

    [fan_out] frames a record once, appends it to the log and sends the same
    frame to both peers ([fan_out_same_frame]).  The events of a match cycle
    go out one record each, in the order of the event buffer
    ([emits_records]). *)

From S2P Require Import Prelude Hash Types Slab Users Order Book Matching Migration Frames Messages Wal WalRead WalInv WalClaims Cast CastSend.
From S2P Require Import Market Dedup Tile Stall.

Section Log.
Context `{Crc32c} `{HashIter} `{Win : Window}.

(** ** A healthy disk

    No call is going to fail and the active file is in its place. *)
Definition sound (s : World) : Prop := wd_faults s = [] /\ dk_active (wd_disk s) <> None.

Definition runs {A} (P : World -> Prop) (m : IO A) (Q : World -> Prop) : Prop :=
  forall s, P s -> exists a s', m s = (inl a, s') /\ Q s'.

Lemma runs_bind {A B} (m : IO A) (k : A -> IO B) P Q R :
  runs P m Q -> (forall a, runs Q (k a) R) -> runs P (io_bind m k) R.
Proof. intros Hm Hk s Hs. unfold io_bind. destruct (Hm s Hs) as (a & s1 & -> & Hq). by apply Hk. Qed.

Lemma runs_ret {A} (a : A) P : runs P (io_ret a) P.
Proof. intros s Hs. by eexists _, _. Qed.

Lemma runs_get P : runs P writer_get P.
Proof. intros s Hs. by eexists _, _. Qed.

Lemma runs_set f : runs sound (writer_set f) sound.
Proof. intros s Hs. eexists _, _. by split. Qed.

Lemma file_put_active f data now d : dk_active d <> None -> dk_active (file_put f data now d) <> None.
Proof. by destruct f. Qed.

Ltac runs_call := intros [w d fs] [Hf Ha]; cbn in Hf, Ha; subst fs; eexists _, _; split; [reflexivity|]; split; [done|];
  cbn; try done; try (by apply file_put_active).

Lemma runs_metadata : runs sound metadata_len sound.
Proof. runs_call. Qed.

Lemma runs_set_len now size : runs sound (set_len now size) sound.
Proof. runs_call. Qed.

Lemma runs_write now bs : runs sound (write_all now bs) sound.
Proof. runs_call. Qed.

Lemma runs_sync : runs sound sync_all sound.
Proof. runs_call. Qed.

Lemma runs_null : runs sound replace_with_null sound.
Proof. runs_call. Qed.

Lemma runs_rename nm : runs sound (rename_active nm) (fun s => wd_faults s = []).
Proof.
  intros [w d fs] [Hf Ha]. cbn in Hf, Ha. subst fs. unfold rename_active, syscall. cbn. destruct (dk_active d) eqn:E; [|done].
  by eexists _, _.
Qed.

Lemma runs_open now : runs (fun s => wd_faults s = []) (open_active now) sound.
Proof. intros [w d fs] Hf. cbn in Hf. subst fs. eexists _, _. split; [reflexivity|]. by split. Qed.

Lemma runs_prune now : runs sound (prune_old_segments now) sound.
Proof.
  intros [w d fs] [Hf Ha]. cbn in Hf, Ha. subst fs. unfold prune_old_segments, syscall. cbn [wd_faults wd_writer wd_disk].
  generalize (iter_map (dk_segments d)). intros es. revert d Ha.
  induction es as [|[nm fl] es IH]; intros d Ha; [by eexists _, _|]. cbn [prune_entries]. unfold io_bind, prune_entry, syscall. cbn [wd_faults].
  case_if; cbn [fst snd]; by apply IH.
Qed.

Lemma runs_rotate now : runs sound (rotate now) sound.
Proof.
  unfold rotate. eapply runs_bind; [apply runs_get|intros w]. eapply runs_bind; [apply runs_sync|intros _].
  eapply runs_bind; [apply runs_null|intros _]. eapply runs_bind; [apply runs_rename|intros _].
  eapply runs_bind; [apply runs_open|intros _]. eapply runs_bind; [apply runs_set|intros _]. apply runs_prune.
Qed.

Lemma runs_flush now : runs sound (flush now) sound.
Proof.
  unfold flush. eapply runs_bind; [apply runs_get|intros w]. case_if; [apply runs_ret|].
  eapply runs_bind; [apply runs_metadata|intros len].
  eapply runs_bind; [case_if; [apply runs_set_len|apply runs_ret]|intros _].
  eapply runs_bind; [case_if; [apply runs_rotate|apply runs_ret]|intros _].
  eapply runs_bind; [apply runs_write|intros _]. eapply runs_bind; [apply runs_sync|intros _].
  eapply runs_bind; [apply runs_set|intros _]. eapply runs_bind; [apply runs_get|intros w']. case_if; [apply runs_rotate|apply runs_ret].
Qed.

(** ** A flush leaves the record counters alone *)

Definition counters (w : WalWriter) : Z * Z := (ww_next_seq w, ww_last_seq w).
Definition counts {A} (m : IO A) : Prop := forall s, counters (wd_writer (m s).2) = counters (wd_writer s).

Lemma counts_bind {A B} (m : IO A) (k : A -> IO B) : counts m -> (forall a, counts (k a)) -> counts (io_bind m k).
Proof.
  intros Hm Hk s. specialize (Hm s). unfold io_bind. destruct (m s) as [[a|e] s1]; [|done]. by rewrite Hk.
Qed.

Lemma counts_ret {A} (a : A) : counts (io_ret a).
Proof. by intros s. Qed.

Lemma counts_get : counts writer_get.
Proof. by intros s. Qed.

Lemma counts_syscall {A} (done : World -> (A + IoError) * World) torn :
  (forall s, wd_writer (done s).2 = wd_writer s) -> (forall k s, wd_writer (torn k s) = wd_writer s) -> counts (syscall done torn).
Proof. intros Hd Ht [w d fs]. unfold syscall. destruct fs as [|[|k] fs]; cbn [wd_faults wd_writer wd_disk snd]; [by rewrite Hd|by rewrite Hd|by rewrite Ht]. Qed.

Lemma counts_prune now : counts (prune_old_segments now).
Proof.
  assert (forall es, counts (prune_entries now es)) as Hes.
  { induction es as [|[nm fl] es IH]; [by intros s|]. cbn [prune_entries]. apply counts_bind; [|by intros _].
    intros [w d fs]. unfold prune_entry, syscall. destruct fs as [|[|k] fs]; cbn; repeat case_if; try done.
    by destruct fs as [|[|k] fs]. }
  intros [w d fs]. unfold prune_old_segments, syscall. destruct fs as [|[|k] fs]; cbn [wd_faults wd_writer wd_disk]; [|by rewrite Hes|done].
  by rewrite Hes.
Qed.

Lemma counts_rotate now : counts (rotate now).
Proof.
  apply counts_bind; [apply counts_get|intros w]. apply counts_bind; [by apply counts_syscall|intros _].
  apply counts_bind; [apply counts_bind; [by apply counts_syscall|by intros ? s]|intros _].
  apply counts_bind; [apply counts_syscall; [intros s; by destruct (dk_active _)|done]|intros _].
  apply counts_bind; [apply counts_bind; [by apply counts_syscall|by intros ? s]|intros _].
  apply counts_bind; [by intros s|intros _]. apply counts_prune.
Qed.

Lemma counts_flush now : counts (flush now).
Proof.
  apply counts_bind; [apply counts_get|intros w]. case_if; [apply counts_ret|].
  apply counts_bind; [by apply counts_syscall|intros len].
  apply counts_bind; [case_if; [by apply counts_syscall|apply counts_ret]|intros _].
  apply counts_bind; [case_if; [apply counts_rotate|apply counts_ret]|intros _].
  apply counts_bind; [by apply counts_syscall|intros _]. apply counts_bind; [by apply counts_syscall|intros _].
  apply counts_bind; [by intros s|intros _]. apply counts_bind; [apply counts_get|intros w']. case_if; [apply counts_rotate|apply counts_ret].
Qed.

Lemma retry_counts now fuel s s' : retry_until_ok fuel (flush now) s = Ok s' -> counters (wd_writer s') = counters (wd_writer s).
Proof.
  revert s. induction fuel as [|fuel IH]; intros s; [done|]. cbn [retry_until_ok]. pose proof (counts_flush now s) as Hc.
  destruct (flush now s) as [[a|e] s1]; [by intros [= <-]|]. intros E. by rewrite (IH s1 E).
Qed.

Lemma retry_sound now fuel s : sound s -> exists s', retry_until_ok (S fuel) (flush now) s = Ok s' /\ sound s'.
Proof. intros Hs. destruct (runs_flush now s Hs) as (a & s' & E & Hs'). exists s'. cbn [retry_until_ok]. by rewrite E. Qed.

Lemma retry_never_panics now fuel s : retry_until_ok fuel (flush now) s <> Panic.
Proof. revert s. induction fuel as [|fuel IH]; intros s; [done|]. cbn [retry_until_ok]. by destruct (flush now s) as [[a|e] s1]. Qed.

(** ** Senders of a growing log *)

Lemma sending_mono log l s : sending log s -> sending (log ++ l) s.
Proof.
  induction 1 as [now interval window|sent now r s b out s' Hs IH Hi Hsend|sent now s b out s' Hs IH Ht|d now sends nak s out s' Hs IH Hn].
  - constructor.
  - eapply snd_frame; [exact IH| |exact Hsend]. apply in_app_iff. by left.
  - by eapply snd_tick.
  - by eapply snd_nak.
Qed.

Lemma send_framed_out sent now framed s b out s' :
  send_framed sent now framed s = Ok (b, out, s') -> b = sent /\ out = if sent then [fr_wire framed] else [].
Proof.
  unfold send_framed. intros E. apply bind_ok in E as (s1 & _ & E). by destruct sent; injection E as <- <- _.
Qed.

(** What goes out of a row of frames: each is tried once. *)
Fixpoint through (net : list bool) (frames : list (list Z)) : list (list Z) :=
  match frames with
  | [] => []
  | x :: frames => (if default true (head net) then [x] else []) ++ through (tl net) frames
  end.

Lemma through_app net xs ys : through net (xs ++ ys) = through net xs ++ through (drop (length xs) net) ys.
Proof.
  revert net. induction xs as [|x xs IH]; intros net; [by rewrite drop_0|]. cbn [app through length]. rewrite IH, <- app_assoc. do 2 f_equal.
  destruct net; cbn [tl]; by rewrite ?drop_nil.
Qed.

Lemma tl_drop {A} (l : list A) : tl l = drop 1 l.
Proof. by destruct l. Qed.

(** A peer to which [rs] has been sent. *)
Record told (log rs : list LogRec) (p p' : CastPeer) : Prop := {
  to_sending : sending log (cp_sender p');
  to_out : cp_out p' = cp_out p ++ through (cp_net p) (map wire rs);
  to_net : cp_net p' = drop (length rs) (cp_net p);
}.

Lemma told_nil log p : sending log (cp_sender p) -> told log [] p p.
Proof. intros Hs. split; [done|by rewrite app_nil_r|by rewrite drop_0]. Qed.

Lemma told_app log l rs rs' p p' p'' : told log rs p p' -> told (log ++ l) rs' p' p'' -> told (log ++ l) (rs ++ rs') p p''.
Proof.
  intros [_ Ho Hn] [Hs' Ho' Hn']. split; [done| |].
  - by rewrite Ho', Ho, Hn, map_app, through_app, length_map, app_assoc.
  - by rewrite Hn', Hn, drop_drop, length_app.
Qed.

(** A send always returns, and the frame goes out when the network takes it. *)
Lemma peer_send_spec now log r p : sending log (cp_sender p) -> In r log ->
  exists p', peer_send now (framed_of r) p = Ok p' /\ told log [r] p p'.
Proof.
  intros Hs Hi. unfold peer_send. destruct (send_framed_ok log (default true (head (cp_net p))) now r (cp_sender p) (sending_ok _ _ Hs) Hi) as (b & out & s' & E & _).
  rewrite E. cbn [mbind Res_bind]. eexists. split; [reflexivity|]. apply send_framed_out in E as Eo. destruct Eo as [_ ->].
  split; cbn; [by eapply snd_frame|by rewrite app_nil_r|by rewrite <- tl_drop].
Qed.

(** ** One record *)

(** A tile whose log holds [log], the part [D] of it known to be durable. *)
Record online (first : Z) (log D : list LogRec) (f : Fanout) : Prop := {
  on_session : wal_session first log D (wd_writer (fo_world f)) (wd_disk (fo_world f));
  on_next : ww_next_seq (wd_writer (fo_world f)) = first + zlen log;
  on_last : log <> [] -> ww_last_seq (wd_writer (fo_world f)) = first + zlen log - 1;
  on_cmp : sending log (cp_sender (fo_cmp f));
  on_mkt : sending log (cp_sender (fo_mkt f));
  on_now : recent (fo_now f);
}.

(** The numbers and the bytes of the log stay within their types. *)
Definition room_in_log (first : Z) (log rs : list LogRec) : Prop :=
  first + zlen (log ++ rs) <= U64_MAX /\ zlen (wires (log ++ rs)) <= I64_MAX.

(** A writer that no flush brings back. *)
Definition lost (first : Z) (log D : list LogRec) : Prop :=
  exists w d, wal_session first log D w d /\ ww_file w = DevNull /\ dk_active d = None.

Lemma session_base first log D w d : wal_session first log D w d -> 0 <= first /\ first + zlen log <= U64_MAX.
Proof. intros Hw. destruct (session_logged _ _ _ _ _ Hw) as (D' & pend & -> & _ & Hl). by apply logged_log in Hl as (_ & _ & ? & ? & _). Qed.

Lemma append_stalling_spec {T} `{CastRecord T} (record : T) first log D now framed w d faults :
  let r := log_rec record (first + zlen log) in
  wal_session first log D w d -> recent now -> Framed_pack record (first + zlen log) = Ok framed -> room_in_log first log [r] ->
  (exists s' D', append_stalling now framed (mkWorld w d faults) = Ok (inl tt, s') /\ D `prefix_of` D' /\
    wal_session first (log ++ [r]) D' (wd_writer s') (wd_disk s') /\ counters (wd_writer s') = (ww_next_seq w, first + zlen log) /\
    (sound (mkWorld w d faults) -> sound s')) \/
  (append_stalling now framed (mkWorld w d faults) = Diverged /\ lost first log D /\ ~ sound (mkWorld w d faults)).
Proof.
  intros r Hw Hn Hp [Hm Hz]. subst r. rewrite zlen_snoc in Hm.
  assert (fr_seq framed = first + zlen log) as Hfs by (unfold Framed_pack in Hp; apply bind_ok in Hp as (u & _ & Hp); by injection Hp as <-).
  assert (first + zlen log < U64_MAX) as Hm' by lia.
  unfold append_stalling. cbn [append_loop wd_writer]. destruct (zlen (ww_buf w) >? buf_limit w) eqn:Ef.
  2: { left. unfold append_framed at 1. rewrite Ef. eexists _, D. split; [reflexivity|]. split; [done|]. split; [|split; [by rewrite <- Hfs|done]]. cbn.
    eapply ws_append; [exact Hw|exact Hp| |done|done]. unfold append_framed. by rewrite Ef. }
  replace (append_framed framed w) with (inr WouldBlock : unit + IoError, w) by (unfold append_framed; by rewrite Ef).
  change (with_writer w (mkWorld w d faults)) with (mkWorld w d faults). destruct (flush_stalling now _) as [[w1 d1 fs1]| |] eqn:E; cbn [mbind Res_bind].
  - pose proof (retry_session first log D now _ (mkWorld w d faults) _ Hn Hw E) as Hw1. cbn in Hw1.
    pose proof (retry_counts _ _ _ _ E) as Hc. cbn in Hc.
    assert (ww_buf w1 = []) as Hb.
    { destruct (session_logged _ _ _ _ _ Hw1) as (D' & pend & El & [t ->] & gs & act & frag & _ & Hba & _).
      rewrite (ba_buf _ _ _ _ _ _ Hba). rewrite <- app_assoc in El. rewrite <- (app_nil_r log) in El at 1. apply app_inv_head in El.
      symmetry in El. apply app_nil in El as [_ ->]. done. }
    left. unfold append_framed at 1. cbn [wd_writer]. rewrite Hb. change (zlen []) with 0. replace (0 >? buf_limit w1) with false by (unfold buf_limit; lia).
    eexists _, log. split; [reflexivity|]. split; [destruct (session_logged _ _ _ _ _ Hw) as (D' & pend & -> & [t ->] & _); exists (t ++ pend); by rewrite app_assoc|].
    split; [|split; [unfold counters in *; cbn; injection Hc as ->; by rewrite Hfs|]].
    + cbn. eapply ws_append; [exact Hw1|exact Hp| |done|done]. unfold append_framed. rewrite Hb. change (zlen []) with 0.
      by replace (0 >? buf_limit w1) with false by (unfold buf_limit; lia).
    + intros Hs. destruct (retry_sound now (length faults) _ Hs) as (s' & E' & Hs'). unfold flush_stalling in E. cbn [wd_faults] in E.
      rewrite E in E'. injection E' as <-. exact Hs'.
  - by destruct (retry_never_panics _ _ _ E).
  - right. split; [done|]. split.
    + destruct (stall_ends_aux first log D w d now faults Hw Hn) as [(w' & d' & fs' & E' & _)|(w' & d' & fs' & _ & Hl)]; [congruence|].
      by exists w', d'.
    + intros Hs. destruct (retry_sound now (length faults) _ Hs) as (s' & E' & Hs'). unfold flush_stalling in E. cbn [wd_faults] in E. congruence.
Qed.

Lemma pack_ok {T} `{CastRecord T} (record : T) s : (HEADER_SIZE + size_of T <= FRAMED_WIRE_BYTES)%nat -> in_u64 s ->
  Framed_pack record s = Ok (framed_of (log_rec record s)).
Proof.
  intros Hs Hu. destruct (Framed_pack record s) as [fr| |] eqn:E.
  - apply pack_rec in E as (-> & _ & El); [|done]. unfold framed_of. by rewrite El.
  - unfold Framed_pack in E. apply Nat.leb_le in Hs. by rewrite Hs in E.
  - unfold Framed_pack in E. apply Nat.leb_le in Hs. by rewrite Hs in E.
Qed.

(** The tile once [rs] has gone out. *)
Record emitted (first : Z) (log D rs : list LogRec) (f f' : Fanout) (D' : list LogRec) : Prop := {
  em_online : online first (log ++ rs) D' f';
  em_durable : D `prefix_of` D';
  em_cmp : told (log ++ rs) rs (fo_cmp f) (fo_cmp f');
  em_mkt : told (log ++ rs) rs (fo_mkt f) (fo_mkt f');
  em_clock : fo_now f' = fo_now f;
}.

Lemma emitted_nil first log D f : online first log D f -> emitted first log D [] f f D.
Proof. intros Ho. pose proof Ho as []. split; rewrite ?app_nil_r; try done; by apply told_nil. Qed.

Lemma emitted_app first log D rs rs' f f1 f2 D1 D2 :
  emitted first log D rs f f1 D1 -> emitted first (log ++ rs) D1 rs' f1 f2 D2 -> emitted first log D (rs ++ rs') f f2 D2.
Proof.
  intros [o1 d1 c1 m1 k1] [o2 d2 c2 m2 k2]. rewrite <- app_assoc in *. split; [done|by trans D1| | |congruence].
  - rewrite !app_assoc in *. by eapply told_app.
  - rewrite !app_assoc in *. by eapply told_app.
Qed.

(** What an emission of the records [rs] comes to: they go out, or the log is
    lost on the way. *)
Definition goes_out (first : Z) (log D rs : list LogRec) (f : Fanout) (m : SinkRes Fanout) : Prop :=
  (exists f' D', m = Ok (inl tt, f') /\ emitted first log D rs f f' D' /\ (sound (fo_world f) -> sound (fo_world f'))) \/
  (m = Diverged /\ (exists log' D', log' `prefix_of` log ++ rs /\ lost first log' D') /\ ~ sound (fo_world f)).

Lemma goes_out_bind first log D rs rs' f m (k : Fanout -> SinkRes Fanout) :
  goes_out first log D rs f m -> (forall f' D', emitted first log D rs f f' D' -> goes_out first (log ++ rs) D' rs' f' (k f')) ->
  goes_out first log D (rs ++ rs') f ('(r, f) ← m; match r with inl _ => k f | inr e => Ok (inr e, f) end).
Proof.
  intros [(f1 & D1 & -> & He & Hs)|(-> & (log' & D' & Hl & Hlost) & Hn)] Hk; cbn [mbind Res_bind].
  - destruct (Hk f1 D1 He) as [(f2 & D2 & -> & He2 & Hs2)|(-> & (log' & D' & Hl & Hlost) & Hn)]; [left|right].
    + exists f2, D2. split; [done|]. split; [by eapply emitted_app|tauto].
    + split; [done|]. split; [|tauto]. exists log', D'. by rewrite <- app_assoc in Hl.
  - right. split; [done|]. split; [|done]. exists log', D'. split; [|done]. rewrite app_assoc. by apply prefix_app_r.
Qed.

Lemma fan_out_spec {T} `{CastRecord T} (record : T) first log D f :
  let r := log_rec record (first + zlen log) in
  online first log D f -> (HEADER_SIZE + size_of T <= FRAMED_WIRE_BYTES)%nat -> room_in_log first log [r] ->
  goes_out first log D [r] f (fan_out record f).
Proof.
  intros r [Hw Hq Hlast Hc Hm Hn] Hs Hr. destruct (session_base _ _ _ _ _ Hw) as [Hf0 Hf1]. pose proof (zlen_nonneg log).
  assert (in_u64 (first + zlen log)) as Hu by width_lia. pose proof (pack_ok record _ Hs Hu) as Hp.
  unfold fan_out, prepare. rewrite Hq, Hp. cbn [mbind Res_bind]. destruct f as [[w d fs] cmp mkt now].
  cbn [fo_world fo_cmp fo_mkt fo_now wd_writer wd_disk] in *.
  set (w1 := mkWriter _ _ _ _ _ _ _ _ _ _).
  assert (wal_session first log D w1 d) as Hw1.
  { eapply ws_prepare; [exact Hw|]. unfold prepare. by rewrite Hq, Hp. }
  change (with_writer w1 (mkWorld w d fs)) with (mkWorld w1 d fs). change (sound (mkWorld w d fs)) with (sound (mkWorld w1 d fs)).
  destruct (append_stalling_spec record first log D now _ w1 d fs Hw1 Hn Hp Hr) as [(s' & D' & E & HD & Hw' & Hnx & Hso)|(E & Hl)];
    rewrite E; cbn [mbind Res_bind]; [left; fold r|].
  2: { right. split; [done|]. split; [|apply Hl]. exists log, D. split; [by eexists|apply Hl]. }
  destruct (peer_send_spec now (log ++ [r]) r cmp) as (cmp' & -> & Hcmp); [by apply sending_mono|apply in_app_iff; right; by left|].
  cbn [mbind Res_bind]. destruct (peer_send_spec now (log ++ [r]) r mkt) as (mkt' & -> & Hmkt); [by apply sending_mono|apply in_app_iff; right; by left|].
  cbn [mbind Res_bind]. eexists _, D'. split; [reflexivity|]. split; [|done]. split; [|done|done|done|done].
  injection Hnx as Hnx Hls. split; [done| |intros _|apply Hcmp|apply Hmkt|done]; cbn; [rewrite Hnx; cbn|rewrite Hls, zlen_snoc; lia]. destruct Hr as [Hr _]. rewrite zlen_snoc in *. unfold wrap_u64. rewrite Z.mod_small; [lia|]. width_lia.
Qed.

(** C17: One record, one frame, everywhere.  A record that the tile emits is
    framed once under the log's next number and appended to the log, and the
    very frame of the log is what is sent to each of the two peers, also when
    the network refuses the other peer's copy and when the log's buffer is
    full and has to be flushed first; the call returns unless the log is
    lost. *)
Theorem fan_out_same_frame {T} `{CastRecord T} (record : T) first log D f :
  let r := log_rec record (first + zlen log) in
  online first log D f -> (HEADER_SIZE + size_of T <= FRAMED_WIRE_BYTES)%nat -> room_in_log first log [r] ->
  (exists f' D', fan_out record f = Ok (inl tt, f') /\ D `prefix_of` D' /\ online first (log ++ [r]) D' f' /\
    cp_out (fo_cmp f') = cp_out (fo_cmp f) ++ (if default true (head (cp_net (fo_cmp f))) then [wire r] else []) /\
    cp_out (fo_mkt f') = cp_out (fo_mkt f) ++ (if default true (head (cp_net (fo_mkt f))) then [wire r] else [])) \/
  (fan_out record f = Diverged /\ (exists log' D', log' `prefix_of` log ++ [r] /\ lost first log' D') /\ ~ sound (fo_world f)).
Proof.
  intros r Ho Hs Hr. destruct (fan_out_spec record first log D f Ho Hs Hr) as [(f' & D' & E & [o d c m _] & _)|]; [left|by right].
  exists f', D'. do 3 (split; [done|]). rewrite (to_out _ _ _ _ c), (to_out _ _ _ _ m). cbn [map through]. by rewrite !app_nil_r.
Qed.

(** ** The events of a match cycle *)

Definition record_log (r : TileRecord) (s : Z) : LogRec :=
  match r with
  | TrFill r => log_rec r s
  | TrInserted r => log_rec r s
  | TrCancelled r => log_rec r s
  | TrDone r => log_rec r s
  | TrFailed r => log_rec r s
  | TrBbo r => log_rec r s
  | TrAccepted r => log_rec r s
  | TrConfig r => log_rec r s
  end.

(** Records under consecutive numbers from [s]. *)
Fixpoint logs (s : Z) (rs : list TileRecord) : list LogRec :=
  match rs with
  | [] => []
  | r :: rs => record_log r s :: logs (s + 1) rs
  end.

Lemma logs_length s rs : zlen (logs s rs) = zlen rs.
Proof. revert s. induction rs as [|r rs IH]; intros s; [done|]. cbn [logs]. by rewrite !zlen_cons, IH. Qed.

Lemma logs_app s rs rs' : logs s (rs ++ rs') = logs s rs ++ logs (s + zlen rs) rs'.
Proof.
  revert s. induction rs as [|r rs IH]; intros s; cbn [logs app]; [by rewrite Z.add_0_r|]. rewrite IH. do 3 f_equal. rewrite zlen_cons. lia.
Qed.


Lemma room_prefix first log rs rs' : room_in_log first log (rs ++ rs') -> room_in_log first log rs /\ room_in_log first (log ++ rs) rs'.
Proof.
  unfold room_in_log. rewrite !app_assoc, (wires_app (log ++ rs)), !zlen_app. pose proof (zlen_nonneg rs'). pose proof (zlen_nonneg (wires rs')). lia.
Qed.

Lemma emit_record_spec r first log D f :
  online first log D f -> room_in_log first log [record_log r (first + zlen log)] ->
  goes_out first log D [record_log r (first + zlen log)] f (emit_record r f).
Proof. intros Ho Hr. destruct r; apply fan_out_spec; try done; by apply Nat.leb_le. Qed.

(** The records of a row of events. *)
Fixpoint event_records (b : Orderbook) (symbol_id ts_ns : Z) (hops : Hops) (events : list Event) : Res (list TileRecord) :=
  match events with
  | [] => Ok []
  | ev :: events => r ← event_record b symbol_id ts_ns hops ev; rs ← event_records b symbol_id ts_ns hops events; Ok (r :: rs)
  end.

Lemma event_records_length b symbol_id ts_ns hops events rs : event_records b symbol_id ts_ns hops events = Ok rs -> zlen rs = zlen events.
Proof.
  revert rs. induction events as [|ev events IH]; intros rs E; [by injection E as <-|]. cbn [event_records] in E. res_inv.
  rewrite !zlen_cons. f_equal. by apply IH.
Qed.

Lemma event_records_app b symbol_id ts_ns hops events events' rs rs' :
  event_records b symbol_id ts_ns hops events = Ok rs -> event_records b symbol_id ts_ns hops events' = Ok rs' ->
  event_records b symbol_id ts_ns hops (events ++ events') = Ok (rs ++ rs').
Proof.
  revert rs. induction events as [|ev events IH]; intros rs E E'; [by injection E as <-|]. cbn [event_records app] in *. res_inv.
  rewrite E0. cbn [mbind Res_bind]. by rewrite (IH x0).
Qed.

Lemma emit_loop_spec b symbol_id ts_ns hops events rs first log D f :
  event_records b symbol_id ts_ns hops events = Ok rs ->
  online first log D f -> room_in_log first log (logs (first + zlen log) rs) ->
  goes_out first log D (logs (first + zlen log) rs) f (emit_loop b symbol_id ts_ns hops events f).
Proof.
  revert rs log D f. induction events as [|ev events IH]; intros rs log D f Hall Ho Hr; cbn [event_records emit_loop] in *.
  { injection Hall as <-. left. exists f, D. split; [done|]. split; [by apply emitted_nil|done]. }
  apply bind_ok in Hall as (r & Hev & Hall). apply bind_ok in Hall as (rs' & Hall & E). injection E as <-. rename rs' into rs.
  rewrite Hev. cbn [mbind Res_bind]. cbn [logs] in *. apply (room_prefix first log [_]) in Hr as [Hr1 Hr2].
  apply (goes_out_bind first log D [_] _ f _ (emit_loop b symbol_id ts_ns hops events)); [by apply emit_record_spec|].
  intros f' D' He. replace (first + zlen log + 1) with (first + zlen (log ++ [record_log r (first + zlen log)])) in * by (rewrite zlen_snoc; lia).
  apply IH; [done|apply He|done].
Qed.

End Log.
