(* ===== verification/Session.v ===== *)
(** * Session: runs of the engine from a new book

    [admits] is an executable sufficient condition for an order to be one the
    engine is sized for, so that the guarantees apply to books computed by
    running the code; [session] composes the operations the matching tile
    performs on a book ([Orderbook::new], [process_new_order],
    [cancel_order_checked], [modify_order_qty_down], [maintain_users]) in any
    order. *)

From S2P Require Import Prelude Types Slab Occupancy Compression Users Order Book Links BookInv Matching MatchInv.
From S2P Require Import FillQueue SlotMatch Engine Feasible Process Guarantees.

(** ** Admission as a computation *)

Definition admits (b : Orderbook) (o : IncomingOrder) : bool :=
  let total := fold_right (fun l acc => lv_total_qty l + acc) 0 (active_levels b) in
  (in_remaining o =? in_qty o) && (I64_MIN <=? in_price o) && (in_price o <=? I64_MAX) &&
  (I64_MIN <=? in_qty o) && (total + in_qty o <=? I64_MAX) && (total <=? I64_MAX) && (in_qty o <=? I64_MAX) &&
  ((bump_next (orders b) <? zlen (slots (orders b))) || negb (free_head (orders b) =? NONE)) &&
  (negb (bool_decide (in_tif o = FOK)) || (bump_next (orders b) <=? MAX_MAKERS_PER_ORDER)) &&
  (user_bump (users b) <? U32_MAX) &&
  forallb (fun u => Z.abs (us_net_qty u) + Z.max 0 (in_qty o) <=? I64_MAX) (user_states (users b)).

Section Admission.
Variables (mid tk : Z).
Hypothesis Hcfg : cfg_ok mid tk.

Lemma zsum_levels (f : PriceLevel -> Z) (g : Z -> Z) ls :
  (forall t, 0 <= t < zlen ls -> exists l, vget ls t = Some l /\ f l = g t) ->
  zsum g (zrange 0 (zlen ls)) = zsum f ls.
Proof.
  intros H. induction ls as [|l ls IH] using rev_ind; [done|]. rewrite zlen_snoc, zsum_app. pose proof (zlen_nonneg ls).
  rewrite (zrange_split 0 (zlen ls) (zlen ls + 1)) by lia. rewrite zsum_app, (zrange_empty (zlen ls + 1)) by lia. simpl. f_equal.
  - apply IH. intros t Ht. destruct (H t) as (x & Hx & <-); [rewrite zlen_snoc; lia|]. exists x. by rewrite vget_app_l in Hx.
  - destruct (H (zlen ls)) as (x & Hx & E); [rewrite zlen_snoc; lia|]. rewrite vget_snoc in Hx. injection Hx as <-. lia.
Qed.

Lemma level_total A fl b :
  core mid tk A fl b -> book_sum mid tk erem A = fold_right (fun l acc => lv_total_qty l + acc) 0 (active_levels b).
Proof.
  intros Hc. unfold book_sum. rewrite <- (c_len _ _ _ _ _ Hc). apply (zsum_levels lv_total_qty). intros t Ht.
  exists (level_of (A t)). split; [|done]. by apply (lk_level _ _ _ (c_links _ _ _ _ _ Hc)).
Qed.

Lemma book_sum_le f g A : (forall t e, In e (A t) -> f e <= g e) -> book_sum mid tk f A <= book_sum mid tk g A.
Proof. intros H. apply zsum_le. intros t _. apply zsum_le. intros e He. by apply (H t). Qed.

Lemma book_bounds A fl b sd limit : engine_ok mid tk A fl b ->
  makers mid tk A sd limit <= bump_next (orders b) /\
  liquidity mid tk A sd limit <= fold_right (fun l acc => lv_total_qty l + acc) 0 (active_levels b).
Proof.
  intros He. pose proof (en_book _ _ _ _ _ He) as Hi. rewrite <- (level_total A fl b (bk_core _ _ _ _ _ Hi)).
  pose proof (size_live mid tk Hcfg A fl b Hi) as Hs. pose proof (zlen_nonneg fl).
  pose proof (book_sum_le (cross_one sd limit) (fun _ => 1) A ltac:(intros t e _; unfold cross_one; case_if; lia)) as Hm.
  pose proof (book_sum_le (cross_rem sd limit) erem A
    ltac:(intros t e Hin; unfold cross_rem; destruct (bk_order _ _ _ _ _ Hi _ _ Hin); case_if; lia)) as Hl.
  unfold makers, liquidity. unfold size in Hs. lia.
Qed.

Lemma admits_ok A fl b o : engine_ok mid tk A fl b -> admits b o = true -> admissible mid tk A fl b o.
Proof.
  intros He Ha. pose proof (en_book _ _ _ _ _ He) as Hi. pose proof (bk_core _ _ _ _ _ Hi) as Hc. unfold admits in Ha.
  rewrite <- (level_total A fl b Hc) in Ha.
  rewrite !andb_true_iff, !orb_true_iff, !negb_true_iff, !Z.leb_le, !Z.ltb_lt, !Z.eqb_eq, Z.eqb_neq, bool_decide_eq_false in Ha.
  destruct Ha as ((((((((((H1 & H2) & H3) & H4) & H5) & H6) & H7) & H8) & H9) & H10) & H11). split.
  - done.
  - width_lia.
  - width_lia.
  - unfold has_room. destruct H8 as [H8|H8]; [by right|left]. pose proof (si_chain _ _ (c_slab _ _ _ _ _ Hc)) as Hch.
    by destruct fl; [inversion Hch|].
  - right. by right.
  - pose proof (slot_sum_le mid tk A fl b (idx mid tk (in_price o)) Hc). lia.
  - intros v. unfold net_of, user_of. destruct (user_map (users b) !! v) as [i|]; [|cbn; width_lia].
    destruct (vget (user_states (users b)) i) as [u|] eqn:Eu; [|cbn; width_lia].
    rewrite forallb_forall in H11. apply Z.leb_le, H11. by eapply vget_in.
  - intros Hf. destruct H9 as [H9|H9]; [done|]. destruct (book_bounds A fl b (in_side o) (in_price o) He) as [Hm Hl]. rewrite <- (level_total A fl b Hc) in Hl. lia.
Qed.

Lemma admits_total A fl b o : engine_ok mid tk A fl b -> admits b o = true -> book_sum mid tk erem A + Z.max 0 (in_qty o) <= I64_MAX.
Proof.
  intros He Ha. unfold admits in Ha. rewrite <- (level_total A fl b (bk_core _ _ _ _ _ (en_book _ _ _ _ _ He))) in Ha.
  rewrite !andb_true_iff, !Z.leb_le in Ha. lia.
Qed.

End Admission.

(** ** Sessions *)

Inductive session (cfg : BookConfig) (cap mid : Z) : Orderbook -> Prop :=
  | se_new b : Orderbook_new cfg cap mid = Ok b -> session cfg cap mid b
  | se_order b o o' b' : session cfg cap mid b -> admits b o = true ->
      process_new_order b o = Ok (o', b') -> session cfg cap mid b'
  | se_cancel b h user oh ol r b' : session cfg cap mid b -> 0 <= h ->
      cancel_order_checked b h user oh ol = Ok (r, b') -> session cfg cap mid b'
  | se_reduce b h qty user oh ol r b' : session cfg cap mid b -> 0 <= h -> 0 <= qty ->
      modify_order_qty_down b h qty user oh ol = Ok (r, b') -> session cfg cap mid b'
  | se_maintain b now replay r b' : session cfg cap mid b -> 0 <= maintenance_cursor (users b) ->
      maintain_users b now replay = Ok (r, b') -> session cfg cap mid b'.

Section Sessions.
Variables (mid tk : Z).
Hypothesis Hcfg : cfg_ok mid tk.
Hypothesis Hspread : spread_ok mid tk.

Abbreviation engine_ok := (engine_ok mid tk).

Lemma uncrossed_sub A A' :
  (forall t x, In x (A' t) -> exists y, In y (A t) /\ os_price y.2 = os_price x.2 /\ os_side y.2 = os_side x.2) ->
  uncrossed A -> uncrossed A'.
Proof.
  intros Hs Hu t t' x y Hx Hy Hxs Hys. destruct (Hs t x Hx) as (x' & Hx' & Ex & Sx). destruct (Hs t' y Hy) as (y' & Hy' & Ey & Sy).
  rewrite <- Ex, <- Ey. unfold is_side in *. apply (Hu t t' x' y'); try done; unfold is_side; congruence.
Qed.

Lemma engine_keeps A fl b A' fl' b' :
  engine_ok A fl b -> book_inv mid tk A' fl' b' -> keeps b b' ->
  (forall t x, In x (A' t) -> exists y, In y (A t) /\ os_price y.2 = os_price x.2 /\ os_side y.2 = os_side x.2) ->
  engine_ok A' fl' b'.
Proof.
  intros He Hi (_ & _ & _ & _ & K & _) Hs. split; [done|by apply (uncrossed_sub A); [|apply He]|rewrite K; apply He|rewrite K; apply He].
Qed.

Lemma drop_sub A t q1 e q2 t' x : A t = q1 ++ e :: q2 -> In x (upd A t (q1 ++ q2) t') ->
  exists y, In y (A t') /\ os_price y.2 = os_price x.2 /\ os_side y.2 = os_side x.2.
Proof. intros Et Hx. exists x. split; [by eapply in_upd_drop|done]. Qed.

(** A cancel either removes the one order with that handle and identity or
    changes nothing, and always returns. *)
Lemma cancel_engine A fl b h user oh ol :
  engine_ok A fl b -> 0 <= h ->
  exists r b' A' fl', cancel_order_checked b h user oh ol = Ok (r, b') /\ engine_ok A' fl' b'.
Proof.
  intros He Hh. pose proof (en_book _ _ _ _ _ He) as Hi.
  destruct (matches_cases mid tk A fl b h user oh ol Hi Hh) as [[E Hn]|(E & t & q1 & s & q2 & Et & Hm)].
  - exists false, b, A, fl. by rewrite (cancel_checked_miss mid tk A fl b h user oh ol Hi Hh Hn).
  - destruct (cancel_checked_hit mid tk Hcfg Hspread A fl b t q1 h s q2 user oh ol Hi Et Hm) as (b' & E' & Hi' & K & _).
    exists true, b', (upd A t (q1 ++ q2)), (h :: fl). split; [done|]. eapply engine_keeps; [exact He|done|done|]. intros t' x. by eapply drop_sub.
Qed.

Lemma reduce_engine A fl b h qty user oh ol :
  engine_ok A fl b -> 0 <= h -> 0 <= qty ->
  exists r b' A' fl', modify_order_qty_down b h qty user oh ol = Ok (r, b') /\ engine_ok A' fl' b'.
Proof.
  intros He Hh Hq. pose proof (en_book _ _ _ _ _ He) as Hi.
  destruct (matches_cases mid tk A fl b h user oh ol Hi Hh) as [[E Hn]|(E & t & q1 & s & q2 & Et & Hm)].
  { exists false, b, A, fl. unfold modify_order_qty_down. by rewrite E. }
  assert (In (h, s) (A t)) as Hin by (rewrite Et; apply in_app_iff; simpl; auto).
  destruct (decide (0 < qty < os_remaining s)) as [Hr|Hr].
  { destruct (modify_down_spec mid tk Hcfg A fl b t q1 h s q2 qty user oh ol Hi Et Hm Hr) as (b' & E' & Hi' & K & _).
    eexists true, b', _, fl. split; [done|]. eapply engine_keeps; [exact He|exact Hi'|done|].
    intros t' x Hx. eapply (in_upd_swap A t q1 (h, s)) in Hx as [Hx|[-> ->]]; [by exists x|by exists (h, s)|done]. }
  unfold modify_order_qty_down. rewrite E. cbn [mbind Res_bind negb].
  destruct (core_get mid tk _ _ _ _ _ (bk_core _ _ _ _ _ Hi) Hin) as (n & p & Hg). cbn [fst snd] in Hg. rewrite Hg. cbn [mbind Res_bind].
  destruct (qty =? 0) eqn:E0.
  - destruct (cancel_order_spec mid tk Hcfg Hspread A fl b t q1 (h, s) q2 Hi Et) as (b' & E' & Hi' & K & _). cbn [fst] in *.
    eexists true, b', _, _. split; [done|]. eapply engine_keeps; [exact He|exact Hi'|done|]. intros t' x. by eapply drop_sub.
  - change (os_remaining (relink n p s)) with (os_remaining s). replace (qty >=? os_remaining s) with true by lia.
    by exists false, b, A, fl.
Qed.

Lemma maintain_engine A fl b now replay :
  engine_ok A fl b -> 0 <= maintenance_cursor (users b) ->
  exists r b', maintain_users b now replay = Ok (r, b') /\ engine_ok A fl b' /\ forall v, net_of (users b') v = net_of (users b) v.
Proof.
  intros He Hc. pose proof (en_book _ _ _ _ _ He) as Hi.
  destruct (maintain_one_spec (users b) now replay (bk_reg _ _ _ _ _ Hi) Hc) as (r & u & E & Hr & Hv & _).
  exists r, (set_users b u). unfold maintain_users. rewrite E. split; [done|]. split; [|intros v; apply Hv].
  destruct He as [_ e2 e3 e4], Hi as [i1 i2 i3 i4 i5 i6 i7]. split; try done. split; try done.
  - by apply (core_ext mid tk _ _ b).
  - intros v. cbn. destruct (Hv v) as [_ ->]. apply i7.
Qed.

(** Every book a session reaches is well formed. *)
Lemma session_engine cfg cap b :
  bc_tick_size cfg = tk -> 0 < bc_lot_size cfg <= I64_MAX -> 0 <= cap <= NONE -> session cfg cap mid b -> exists A fl, engine_ok A fl b.
Proof.
  intros Htk Hlot Hcap. induction 1 as [b E|b o o' b' _ (A & fl & He) Ha E|b h user oh ol r b' _ (A & fl & He) Hh E
    |b h qty user oh ol r b' _ (A & fl & He) Hh Hq E|b now replay r b' _ (A & fl & He) Hc E].
  - destruct (new_spec_book mid tk Hcfg Hspread cfg cap Htk Hcap) as (b0 & E0 & Hi & _ & _ & _ & Ec & _). rewrite E in E0. injection E0 as <-.
    exists empty_book, []. split; [done|by intros ? ? ? ? []|by rewrite Ec|by rewrite Ec].
  - destruct (process_view mid tk Hcfg Hspread A fl b o He (admits_ok mid tk Hcfg A fl b o He Ha)) as (fs & A' & fl' & o1 & b1 & P & _).
    pose proof (pr_run _ _ _ _ _ _ _ _ _ _ P) as E1. rewrite E in E1. injection E1 as <- <-. exists A', fl'. apply P.
  - destruct (cancel_engine A fl b h user oh ol He Hh) as (r1 & b1 & A' & fl' & E1 & He'). rewrite E in E1. injection E1 as <- <-. eauto.
  - destruct (reduce_engine A fl b h qty user oh ol He Hh Hq) as (r1 & b1 & A' & fl' & E1 & He'). rewrite E in E1. injection E1 as <- <-. eauto.
  - destruct (maintain_engine A fl b now replay He Hc) as (r1 & b1 & E1 & He' & _). rewrite E in E1. injection E1 as <- <-. eauto.
Qed.

End Sessions.

(** ** Running orders *)

(** Orders one after the other, each checked for admission. *)
Fixpoint run_orders (b : Orderbook) (os : list IncomingOrder) : Res Orderbook :=
  match os with
  | [] => Ok b
  | o :: os => if admits b o then '(_, b) ← process_new_order b o; run_orders b os else Panic
  end.

Lemma run_session cfg cap mid b os b' : session cfg cap mid b -> run_orders b os = Ok b' -> session cfg cap mid b'.
Proof.
  revert b. induction os as [|o os IH]; intros b Hs; simpl; [by intros [= <-]|]. destruct (admits b o) eqn:Ea; [|done].
  destruct (process_new_order b o) as [[o1 b1]| |] eqn:E; cbn [mbind Res_bind]; [|done|done]. intros Hr. apply (IH b1); [|done].
  by eapply se_order.
Qed.

Definition run_from (cfg : BookConfig) (cap mid : Z) (os : list IncomingOrder) : Res Orderbook :=
  b ← Orderbook_new cfg cap mid; run_orders b os.

Lemma run_from_session cfg cap mid os b : run_from cfg cap mid os = Ok b -> session cfg cap mid b.
Proof.
  unfold run_from. intros H. apply bind_ok in H as (b0 & E0 & E1). eapply run_session; [by apply se_new|exact E1].
Qed.

(** C24: a session never goes wrong in a book that starts around a mid of at
    least 5000 ticks ([spread_wide]), so that every zone of its price map has a
    slot for each side: in every book reachable from [Orderbook::new] by any
    sequence of admitted orders, cancels, quantity reductions and user
    maintenance, each further such operation returns instead of panicking or
    looping, the book is not crossed and its published top is the true one.
    Around a smaller mid the published top can be wrong
    ([Examples.btc_start_trades_through]). *)
Theorem session_safe mid cfg cap b :
  cfg_ok mid (bc_tick_size cfg) -> spread_ok mid (bc_tick_size cfg) -> 0 < bc_lot_size cfg <= I64_MAX -> 0 <= cap <= NONE ->
  session cfg cap mid b ->
  (forall o, admits b o = true -> exists r, process_new_order b o = Ok r) /\
  (forall h user oh ol, 0 <= h -> exists r, cancel_order_checked b h user oh ol = Ok r) /\
  (forall h qty user oh ol, 0 <= h -> 0 <= qty -> exists r, modify_order_qty_down b h qty user oh ol = Ok r) /\
  (forall now replay, 0 <= maintenance_cursor (users b) -> exists r, maintain_users b now replay = Ok r) /\
  exists A fl bq aq, engine_ok mid (bc_tick_size cfg) A fl b /\
    current_bbo b = Ok (mkBbo (best_bid_px b) bq (best_ask_px b) aq) /\
    top_of_book mid (bc_tick_size cfg) Buy A (best_bid_px b) bq /\ top_of_book mid (bc_tick_size cfg) Sell A (best_ask_px b) aq.
Proof.
  intros Hcfg Hspread Hlot Hcap Hs. destruct (session_engine mid _ Hcfg Hspread cfg cap b eq_refl Hlot Hcap Hs) as (A & fl & He).
  split; [|split; [|split; [|split]]].
  - intros o Ha. destruct (process_view _ _ Hcfg Hspread A fl b o He (admits_ok _ _ Hcfg A fl b o He Ha)) as (? & ? & ? & ? & ? & P & _).
    eexists. apply P.
  - intros h user oh ol Hh. destruct (cancel_engine _ _ Hcfg Hspread A fl b h user oh ol He Hh) as (? & ? & _ & _ & E & _). eauto.
  - intros h qty user oh ol Hh Hq. destruct (reduce_engine _ _ Hcfg Hspread A fl b h qty user oh ol He Hh Hq) as (? & ? & _ & _ & E & _). eauto.
  - intros now replay Hc. destruct (maintain_engine _ _ A fl b now replay He Hc) as (? & ? & E & _). eauto.
  - destruct (current_bbo_spec _ _ Hcfg A fl b (en_book _ _ _ _ _ He) (en_uncrossed _ _ _ _ _ He)) as (bq & aq & E & T1 & T2).
    exists A, fl, bq, aq. done.
Qed.
