(* ===== verification/TileInv.v ===== *)
(** * TileInv: the book, the order index and the market of a tile

    [serves]: the book is a well-formed engine around some mid, the index
    names exactly its resting orders, and its market is the given one.  Orders,
    cancels and recentring keep it. *)

From Stdlib Require Import Sorted.
From S2P Require Import Prelude Hash Types Slab Occupancy Compression Users Order Book Links BookInv Matching MatchInv.
From S2P Require Import FillQueue SlotMatch Engine Feasible Process Migration Recenter Guarantees Ranking Market Priority MarketRef MarketClaims.
From S2P Require Import Frames Messages Wal Cast Dedup Tile Stall TileLog Session.

Record hosted (cfg : BookConfig) (mid : Z) (A : ABook) (fl : list Z) (b : Orderbook) (index : gmap OrderKey Z) (m : Market) : Prop := {
  ho_cfg : cfg_ok mid (bc_tick_size cfg);
  ho_spread : spread_ok mid (bc_tick_size cfg);
  ho_engine : engine_ok mid (bc_tick_size cfg) A fl b;
  ho_config : config b = cfg;
  ho_state : state b = Normal;
  ho_index : indexes A index;
  ho_market : market_of mid (bc_tick_size cfg) A b ≡ m;
}.

Definition serves (cfg : BookConfig) (b : Orderbook) (index : gmap OrderKey Z) (m : Market) : Prop :=
  exists mid A fl, hosted cfg mid A fl b index m.

#[global] Instance serves_proper cfg b index : Proper ((≡) ==> iff) (serves cfg b index).
Proof.
  intros m m' Hm. split; intros (mid & A & fl & []); exists mid, A, fl; split; try done; by rewrite ho_market0.
Qed.

(** A new book serves the empty market. *)
Definition empty_market : Market := mkMarket [] [] (fun _ => 0).

Lemma new_serves cfg capacity mid b :
  cfg_ok mid (bc_tick_size cfg) -> spread_ok mid (bc_tick_size cfg) -> 0 < bc_lot_size cfg <= I64_MAX -> 0 <= capacity <= NONE ->
  Orderbook_new cfg capacity mid = Ok b -> serves cfg b ∅ empty_market.
Proof.
  intros Hc Hsp Hlot Hcap E.
  assert (state b = Normal) as Hst.
  { unfold Orderbook_new in E. apply bind_ok in E as (? & _ & E). apply bind_ok in E as (? & _ & E). apply bind_ok in E as (? & _ & E). by injection E as <-. }
  destruct (new_spec_book mid _ Hc Hsp cfg capacity eq_refl Hcap) as (b' & E' & Hi & _ & _ & Hu & Ec & _).
  rewrite E in E'. injection E' as <-.
  assert (forall sd, priority mid (bc_tick_size cfg) sd empty_book = []) as Hp.
  { intros sd. destruct (priority _ _ _ _) as [|e q] eqn:Eq; [done|]. exfalso.
    assert (In e (priority mid (bc_tick_size cfg) sd empty_book)) as He by (rewrite Eq; by left).
    by apply (in_priority _ _ Hc sd empty_book [] b e (bk_core _ _ _ _ _ Hi)) in He as [[t []] _]. }
  exists mid, empty_book, []. split; [exact Hc|exact Hsp| |exact Ec|exact Hst| |].
  - split; [exact Hi|by intros ? ? ? ? []|by rewrite Ec|by rewrite Ec].
  - intros k h. rewrite lookup_empty. split; [done|]. by intros (t & s & [] & _).
  - split; [cbn; by rewrite Hp|]. split; [cbn; by rewrite Hp|]. intros v. cbn. by rewrite Hu.
Qed.

(** ** The front of a side is its cached best *)

Lemma best_front mid tk sd A fl b : cfg_ok mid tk -> book_inv mid tk A fl b ->
  match mk_side sd (market_of mid tk A b) with
  | [] => best_tick sd b = NONE
  | r :: _ => best_tick sd b <> NONE /\ best_px sd b = rs_price r /\ 0 < rs_price r <= I64_MAX
  end.
Proof.
  intros Hcfg Hi. pose proof (bk_core _ _ _ _ _ Hi) as Hc. pose proof (in_priority mid tk Hcfg sd A fl b) as Hin.
  pose proof (priority_ranked mid tk sd A) as Hr. rewrite mk_side_of.
  destruct (bk_best _ _ _ _ _ Hi sd) as [(-> & _ & Hno)|(Hne & (e & He & Hs & <-) & Hbest)].
  - destruct (priority mid tk sd A) as [|x q]; [done|]. destruct (proj1 (Hin x Hc) (or_introl eq_refl)) as [(t & Ht) Hs].
    by rewrite (Hno t x Ht) in Hs.
  - destruct (priority mid tk sd A) as [|x q].
    { by destruct (proj2 (Hin e Hc)); [split; [eauto|done]|..]. }
    cbn [map]. destruct (proj1 (Hin x Hc) (or_introl eq_refl)) as [(t & Ht) Hsx]. split; [done|].
    change (rs_price (content x)) with (os_price x.2). destruct (c_px _ _ _ _ _ Hc t x Ht) as (Hp & _ & _). split; [|done].
    apply (no_worse_antisym sd); [by apply (Hbest t)|].
    assert (In e (x :: q)) as [->|Heq] by (apply (Hin e Hc); split; [eauto|done]); [by destruct sd; simpl; lia|].
    apply StronglySorted_inv in Hr as [_ Hx]. by apply (proj1 (List.Forall_forall _ _) Hx).
Qed.

(** ** Recentring *)

(** The mid of a two-sided market is one the price map can be built around. *)
Definition recentrable (tk : Z) (m : Market) : Prop :=
  match mk_bids m, mk_asks m with
  | b :: _, a :: _ => let mid := Z.quot (rs_price b + rs_price a) 2 in cfg_ok mid tk /\ spread_ok mid tk
  | _, _ => True
  end.

#[global] Instance recentrable_proper tk : Proper ((≡) ==> iff) (recentrable tk).
Proof. intros m m' (H1 & H2 & _). unfold recentrable. by rewrite H1, H2. Qed.

Lemma cfg_mid_pos mid tk : cfg_ok mid tk -> 0 <= mid <= I64_MAX.
Proof. intros [Hm _ _]. pose proof (Z.div_le_upper_bound I64_MAX 50 I64_MAX ltac:(lia) ltac:(width_lia)). lia. Qed.

Lemma recentre_market old mid tk A fl b A' b' index :
  cfg_ok old tk -> cfg_ok mid tk -> engine_ok old tk A fl b -> engine_ok mid tk A' fl b' -> users b' = users b ->
  (forall t x, In x (A' t) <-> exists t0 e, In e (A t0) /\ idx mid tk (os_price e.2) = t /\ x = retick t e) ->
  (forall p, at_price p (A' (idx mid tk p)) = map (retick (idx mid tk p)) (at_price p (A (idx old tk p)))) ->
  indexes A index -> market_of mid tk A' b' ≡ market_of old tk A b /\ indexes A' index.
Proof.
  intros Hold Hcfg He He' Hu Hin Hat Hx. split.
  - apply (market_same old mid tk A fl b A' fl b'); try done; [apply He|apply He'| |by rewrite Hu].
    intros p. change (queue_of epx p ?q) with (at_price p q). rewrite Hat, map_map. by apply map_ext.
  - intros k h. rewrite (Hx k h). split.
    + intros (t & s & Hs & Ek). exists (idx mid tk (os_price s)), (os_with_tick (idx mid tk (os_price s)) s). split; [|done].
      apply Hin. by exists t, (h, s).
    + intros (t & s & Hs & Ek). apply Hin in Hs as (t0 & [h0 s0] & Hs0 & _ & Ee). injection Ee as -> ->. by exists t0, s0.
Qed.

Lemma maybe_recenter_serves cfg mid A fl b index m :
  hosted cfg mid A fl b index m -> recentrable (bc_tick_size cfg) m -> book_sum mid (bc_tick_size cfg) erem A <= I64_MAX ->
  exists b', maybe_recenter b = Ok b' /\ serves cfg b' index m.
Proof.
  intros Ho Hr Hs. destruct (Ho) as [Hc Hsp He Hg Hst Hi Hm]. set (tk := bc_tick_size cfg) in *. pose proof (en_book _ _ _ _ _ He) as Hbk.
  assert (serves cfg b index m) as Hstay by (by exists mid, A, fl).
  pose proof (best_front mid tk Buy A fl b Hc Hbk) as HB. pose proof (best_front mid tk Sell A fl b Hc Hbk) as HS.
  rewrite <- Hm in Hr. unfold recentrable, maybe_recenter in *. cbn [mk_side best_tick best_px] in *.
  destruct (mk_bids (market_of mid tk A b)) as [|r q]; [rewrite HB; eauto|].
  destruct HB as (HB & -> & Hrp). replace (best_bid_tick b =? NONE) with false by lia.
  destruct (mk_asks (market_of mid tk A b)) as [|r' q']; [rewrite HS; eauto|].
  destruct HS as (HS & -> & Hrp'). replace (best_ask_tick b =? NONE) with false by lia. cbn [orb].
  destruct Hr as [Hc' Hsp']. set (mid' := Z.quot (rs_price r + rs_price r') 2) in *.
  replace (wrap_i64 (rs_price r + rs_price r')) with (rs_price r + rs_price r').
  2: { pose proof (cfg_mid_pos _ _ Hc') as [_ Hle]. pose proof (co_mid _ _ Hc'). unfold mid' in *. rewrite Z.quot_div_nonneg in * by lia.
    symmetry. apply wrap_i64_id. dlia. }
  fold mid'. case_if; [|eauto].
  destruct (recenter_preserves_aux mid mid' tk Hc Hc' Hsp' A fl b He (cfg_mid_pos _ _ Hc') Hs)
    as (b' & A' & E & He' & Hu & Hcf & Hst' & Hin & Hat & _).
  rewrite E. exists b'. split; [done|]. destruct (recentre_market mid mid' tk A fl b A' b' index Hc Hc' He He' Hu Hin Hat Hi) as [Hm' Hi'].
  exists mid', A', fl. split; try done; [by rewrite Hcf|by etransitivity; [exact Hm'|exact Hm]].
Qed.

(** ** The index through a match *)

Definition entry_key (e : Entry) : OrderKey := rs_key (content e).

(** No order rests under a key. *)
Definition unused (k : OrderKey) (m : Market) : Prop := forall r, In r (mk_bids m ++ mk_asks m) -> rs_key r <> k.

#[global] Instance unused_proper k : Proper ((≡) ==> iff) (unused k).
Proof. intros m m' (H1 & H2 & _). unfold unused. by rewrite H1, H2. Qed.

Lemma unused_entry mid tk A fl b k t e : cfg_ok mid tk -> core mid tk A fl b -> unused k (market_of mid tk A b) -> In e (A t) -> entry_key e <> k.
Proof.
  intros Hcfg Hc Hu He. apply Hu. cbn. rewrite <- map_app. apply in_map, in_app_iff.
  rewrite !(in_priority mid tk Hcfg _ A fl b) by done. unfold is_side.
  destruct (lk_side _ _ _ (c_links _ _ _ _ _ Hc) t e He) as [->| ->]; [left|right]; eauto.
Qed.

Lemma entry_used mid tk A fl b k r : cfg_ok mid tk -> core mid tk A fl b -> In r (mk_bids (market_of mid tk A b) ++ mk_asks (market_of mid tk A b)) ->
  rs_key r = k -> exists t e, In e (A t) /\ entry_key e = k.
Proof.
  intros Hcfg Hc Hr <-. cbn in Hr. rewrite <- map_app in Hr. apply in_map_iff in Hr as (e & <- & He).
  apply in_app_iff in He as [He|He]; apply (in_priority mid tk Hcfg _ A fl b) in He as [(t & Ht) _]; eauto.
Qed.

Lemma index_fills o fs index k h :
  update_order_index (fill_events o fs) index !! k = Some h <->
  index !! k = Some h /\ forall f, In f fs -> f.2 = erem f.1 -> entry_key f.1 <> k.
Proof.
  unfold update_order_index. revert index. induction fs as [|f fs IH]; intros index; [cbn; naive_solver|].
  unfold fill_events in *. cbn [flat_map]. rewrite fold_left_app, IH. unfold mf_events. cbn [fold_left index_event].
  change (os_remaining f.1.2) with (erem f.1). change (os_user f.1.2, os_oid_hi f.1.2, os_oid_lo f.1.2) with (entry_key f.1).
  destruct (f.2 =? erem f.1) eqn:E; bool_to_prop; cbn [fold_left index_event].
  - change (os_user f.1.2, os_oid_hi f.1.2, os_oid_lo f.1.2) with (entry_key f.1). rewrite lookup_delete_Some. naive_solver.
  - naive_solver.
Qed.

Lemma entry_key_inj A index t t' x y :
  uniq A -> indexes A index -> In x (A t) -> In y (A t') -> entry_key x = entry_key y -> x = y.
Proof.
  intros Hu Hx Hin Hin' E. apply (uniq_eq A t t'); [done..|]. destruct x as [h s], y as [h' s']. cbn.
  assert (index !! entry_key (h, s) = Some h) as E1 by (apply Hx; by exists t, s).
  assert (index !! entry_key (h', s') = Some h') as E2 by (apply Hx; by exists t', s'). congruence.
Qed.

Lemma after_same fs e y : In y (after fs e) -> y.1 = e.1 /\ entry_key y = entry_key e.
Proof. unfold after. destruct (List.find _ fs); [|by intros [->|[]]]. unfold leftover. case_if; [done|]. by intros [<-|[]]. Qed.

(** An order is gone exactly when a fill took all of it. *)
Lemma after_gone A fs index t e :
  uniq A -> NoDup (hits fs) -> (forall f, In f fs -> exists t, In f.1 (A t)) -> indexes A index -> In e (A t) ->
  (exists y, In y (after fs e)) <-> forall f, In f fs -> f.2 = erem f.1 -> entry_key f.1 <> entry_key e.
Proof.
  intros Hu Hn Ht Hx He.
  assert (forall f, In f fs -> entry_key f.1 = entry_key e -> f.1 = e) as Hk.
  { intros f Hf E. destruct (Ht f Hf) as [t' Ht']. by apply (entry_key_inj A index t' t). }
  destruct (after_cases fs e Hn) as [(f & Hf & Ef & ->)|[Ho ->]].
  - destruct (Ht f Hf) as [t' Ht']. pose proof (uniq_eq A t' t f.1 e Hu Ht' He Ef) as Ee. unfold leftover. subst e.
    destruct (f.2 =? erem f.1) eqn:E; bool_to_prop.
    + split; [by intros (y & [])|]. intros Hno. by destruct (Hno f Hf).
    + split; [|intros _; eexists; by left]. intros _ g Hg Hge Hgk. apply E.
      pose proof (Hk g Hg Hgk) as Eg. by rewrite <- (hits_inj fs g f Hn Hg Hf ltac:(by rewrite Eg)).
  - split; [|intros _; exists e; by left]. intros _ g Hg _ Hgk. apply Ho. rewrite <- (Hk g Hg Hgk). by apply (in_map (fun m : MFill => m.1.1)).
Qed.

Lemma index_after A A1 o fs index :
  uniq A -> NoDup (hits fs) -> (forall f, In f fs -> exists t, In f.1 (A t)) -> (forall t, A1 t = flat_map (after fs) (A t)) ->
  indexes A index -> indexes A1 (update_order_index (fill_events o fs) index).
Proof.
  intros Hu Hn Ht HA Hx k h. rewrite index_fills, (Hx k h). split.
  - intros [(t & s & Hs & <-) Hno]. destruct (proj2 (after_gone A fs index t (h, s) Hu Hn Ht Hx Hs) Hno) as [[h' s'] Hy].
    pose proof (after_same _ _ _ Hy) as [Eh Ek]. cbn in Eh. subst h'. exists t, s'. split; [|done]. rewrite HA. apply in_flat_map. eauto.
  - intros (t & s' & Hs' & <-). rewrite HA in Hs'. apply in_flat_map in Hs' as ([h0 s] & Hs & Ha).
    pose proof (after_same _ _ _ Ha) as [Eh Ek]. cbn in Eh. subst h0. change (rs_key (content (h, s'))) with (entry_key (h, s')). rewrite Ek.
    split; [by exists t, s|]. apply (after_gone A fs index t (h, s) Hu Hn Ht Hx Hs). eauto.
Qed.

Lemma index_push A t e index :
  indexes A index -> (forall t x, In x (A t) -> entry_key x <> entry_key e) -> indexes (upd A t (A t ++ [e])) (<[entry_key e := e.1]> index).
Proof.
  intros Hx Hf k h. rewrite lookup_insert_Some, (Hx k h). destruct e as [he s]. cbn [fst]. split.
  - intros [[<- <-]|[Hne (t' & s' & Hs & Ek)]].
    + exists t, s. split; [|done]. unfold upd. rewrite Z.eqb_refl. apply in_app_iff. right. by left.
    + exists t', s'. split; [|done]. unfold upd. case_if; bool_to_prop; [subst t'; apply in_app_iff; by left|done].
  - intros (t' & s' & Hs & Ek). assert (In (h, s') (A t') \/ (h, s') = (he, s)) as [Hin|[= -> ->]].
    { unfold upd in Hs. destruct (t' =? t) eqn:E; bool_to_prop; [|by left]. subst t'. apply in_app_iff in Hs as [Hs|[Hs|[]]]; auto. }
    + right. split; [|by exists t', s']. intros E. apply (Hf t' (h, s') Hin). unfold entry_key at 1. by rewrite Ek, <- E.
    + left. by split.
Qed.

Lemma index_done A index k : indexes A index -> (forall t x, In x (A t) -> entry_key x <> k) -> indexes A (delete k index).
Proof.
  intros Hx Hf k' h. rewrite lookup_delete_Some, (Hx k' h). split; [tauto|]. intros (t & s & Hs & Ek). split; [|eauto].
  intros ->. by apply (Hf t (h, s)).
Qed.

(** ** Events that can be recorded *)

Definition recordable (b : Orderbook) (ev : Event) : Prop :=
  match ev with
  | OrderInserted h _ _ _ _ _ _ => h = NONE \/ exists s, get (orders b) h = Ok s
  | OrderCancelled _ _ _ _ _ => False
  | _ => True
  end.

(** Only acceptances and cancellations stand for a request. *)
Definition inert (r : TileRecord) : Prop := match r with TrAccepted _ | TrCancelled _ => False | _ => True end.

(** Records that say nothing of a resting order. *)
Definition silent (r : TileRecord) : Prop :=
  match r with TrFill _ | TrInserted _ | TrCancelled _ | TrAccepted _ => False | _ => True end.

Lemma silent_inert rs : Forall silent rs -> Forall inert rs.
Proof. intros Hs. eapply Forall_impl; [exact Hs|]. by intros []. Qed.

Definition is_bbo (ev : Event) : Prop := match ev with BBO _ _ _ _ => True | _ => False end.

Lemma bbo_records b symbol_id ts_ns hops evs : Forall is_bbo evs ->
  exists rs, event_records b symbol_id ts_ns hops evs = Ok rs /\ Forall silent rs.
Proof.
  induction 1 as [|ev evs He _ (rs & IH & Hs)]; [by exists []|]. destruct ev; try done. cbn [event_records event_record].
  cbn [mbind Res_bind]. rewrite IH. eexists. split; [done|by constructor].
Qed.

Lemma recordable_record b symbol_id ts_ns hops evs : Forall (recordable b) evs ->
  exists rs, event_records b symbol_id ts_ns hops evs = Ok rs /\ Forall inert rs.
Proof.
  induction 1 as [|ev evs He Hall (rs & IH & Hin)]; [by exists []|].
  assert (forall h, h = NONE \/ (exists s, get (orders b) h = Ok s) -> exists p, slot_flags b h = Ok p) as Hf.
  { intros h [->|[s E]]; unfold slot_flags; [by eexists|]. case_if; [by eexists|]. rewrite E. by eexists. }
  assert (exists r, event_record b symbol_id ts_ns hops ev = Ok r /\ inert r) as (r & Er & Hr).
  2: { exists (r :: rs). cbn [event_records]. rewrite Er. cbn [mbind Res_bind]. rewrite IH. split; [done|by constructor]. }
  destruct ev; cbn [event_record recordable] in *; try done; try by eexists.
  - destruct (Hf handle He) as [[ro tif] ->]. by eexists.
  - destruct (done_status_and_reason reason). by eexists.
Qed.

(** ** Orders *)

Section Orders.
Variables (mid tk : Z).
Hypothesis Hcfg : cfg_ok mid tk.
Hypothesis Hspread : spread_ok mid tk.

Abbreviation executed := (executed mid tk).

Lemma bbo_index A' b b' bbo index : bbo_events mid tk A' b b' bbo -> update_order_index bbo index = index.
Proof. by intros [[_ ->]|(_ & bp & bq & ap & aq & -> & _)]. Qed.

(** The closing event brings the index up to the book. *)
Lemma terminal_index o A b fs A1 A' fl' b' limited h bbo index :
  executed o A b fs A1 A' fl' b' limited h bbo -> indexes A1 index -> (forall t x, In x (A1 t) -> entry_key x <> in_key o) ->
  indexes A' (update_order_index (terminal o fs limited h :: bbo) index).
Proof.
  intros X Hx Hf. unfold update_order_index. cbn [fold_left]. change (fold_left index_event bbo ?i) with (update_order_index bbo i).
  rewrite (bbo_index A' b b') by apply X. destruct (decide (rests o fs limited)) as [Hr|Hr].
  - destruct (ex_rests _ _ _ _ _ _ _ _ _ _ _ _ _ X Hr) as (s & Hs & _ & ->). destruct Hr as (Hl & -> & Ht).
    unfold terminal. replace (in_remaining o - filled fs >? 0) with true by lia. rewrite Ht. cbn [index_event].
    destruct Hs as (_ & _ & _ & Eu & Eh & El & _). rewrite <- Eu, <- Eh, <- El. change (os_user s, os_oid_hi s, os_oid_lo s) with (entry_key (h, s)).
    apply (index_push A1 _ (h, s)); [done|]. intros t x Hin. replace (entry_key (h, s)) with (in_key o); [by eapply Hf|].
    unfold in_key, entry_key, rs_key, content. cbn. congruence.
  - rewrite (ex_same _ _ _ _ _ _ _ _ _ _ _ _ _ X Hr). unfold terminal. destruct (_ >? 0) eqn:E; [|by apply index_done].
    destruct limited; [by apply index_done|]. destruct (in_tif o) eqn:Et; [|by apply index_done|done].
    destruct Hr. split; [lia|done].
Qed.

Lemma executed_index A fl b o fs A1 A' fl' b' limited h bbo index :
  book_inv mid tk A fl b -> executed (taken b o) A (set_events b []) fs A1 A' fl' b' limited h bbo ->
  indexes A index -> (forall t x, In x (A t) -> entry_key x <> in_key o) -> indexes A' (update_order_index (event_buf b') index).
Proof.
  intros Hi X Hx Hf. destruct (ex_match _ _ _ _ _ _ _ _ _ _ _ _ _ X) as (fl1 & b1 & M).
  pose proof (book_inv_events mid tk _ _ _ [] Hi) as Hi0. pose proof (core_uniq mid tk A fl b (bk_core _ _ _ _ _ Hi)) as Hu.
  destruct (matched_after mid tk (taken b o) MAX_MAKERS_PER_ORDER A fl _ fs A1 fl1 b1 Hi0 M) as [Hn HA].
  rewrite (ex_events _ _ _ _ _ _ _ _ _ _ _ _ _ X). unfold update_order_index. rewrite fold_left_app. eapply terminal_index; [exact X| |].
  - apply (index_after A); [done|done| |done|done]. intros f Hm. by destruct (ma_takes _ _ _ _ _ _ _ _ _ _ M f Hm).
  - intros t x Hin. rewrite HA in Hin. apply in_flat_map in Hin as (e & He & Ha). apply after_same in Ha as [_ ->]. by apply (Hf t).
Qed.

Lemma fill_events_length o fs : zlen (fill_events o fs) <= 2 * zlen fs.
Proof.
  induction fs as [|m fs IH]; [done|]. unfold fill_events in *. cbn [flat_map]. rewrite zlen_app, zlen_cons.
  assert (zlen (mf_events o m) <= 2); [|lia]. unfold mf_events. by case_if.
Qed.

Lemma terminal_recordable o A b fs A1 A' fl' b' limited h bbo :
  executed o A b fs A1 A' fl' b' limited h bbo -> Forall (recordable b') (fill_events o fs ++ terminal o fs limited h :: bbo).
Proof.
  intros X. apply Forall_app. split; [|constructor].
  - apply Forall_forall. intros ev Hev. apply list_elem_of_In, in_flat_map in Hev as (m & _ & Hm). unfold mf_events in Hm.
    destruct Hm as [<-|Hm]; [done|]. case_if_in Hm; [|done]. by destruct Hm as [<-|[]].
  - destruct (decide (rests o fs limited)) as [Hr|Hr].
    + destruct (ex_rests _ _ _ _ _ _ _ _ _ _ _ _ _ X Hr) as (s & Hs & _ & EA). destruct Hr as (Hl & -> & Ht).
      unfold terminal. replace (in_remaining o - filled fs >? 0) with true by lia. rewrite Ht. right.
      assert (In (h, s) (A' (idx mid tk (in_price o)))) as Hin by (rewrite EA; unfold upd; rewrite Z.eqb_refl; apply in_app_iff; right; by left).
      destruct (core_get mid tk A' fl' b' _ _ (bk_core _ _ _ _ _ (ex_inv _ _ _ _ _ _ _ _ _ _ _ _ _ X)) Hin) as (n & p & Hg). eauto.
    + unfold terminal. destruct (_ >? 0) eqn:E; [|done]. destruct limited; [done|]. destruct (in_tif o) eqn:Et; [|done|done].
      destruct Hr. split; [lia|done].
  - by destruct (ex_bbo _ _ _ _ _ _ _ _ _ _ _ _ _ X) as [[_ ->]|(_ & bp & bq & ap & aq & -> & _)]; repeat constructor.
Qed.

End Orders.

(** What a new order does to a tile's book. *)
Lemma order_hosted cfg mid A fl b index m o :
  hosted cfg mid A fl b index m -> admissible mid (bc_tick_size cfg) A fl b o -> unused (in_key o) m ->
  exists o' b' A' fl', process_new_order b o = Ok (o', b') /\
    hosted cfg mid A' fl' b' (update_order_index (event_buf b') index) (submit (bc_tick_size cfg) (bc_lot_size cfg) m o).1 /\
    book_sum mid (bc_tick_size cfg) erem A' <= book_sum mid (bc_tick_size cfg) erem A + Z.max 0 (in_qty o) /\
    Forall (recordable b') (event_buf b') /\ zlen (event_buf b') <= 2 * MAX_MAKERS_PER_ORDER + 2.
Proof.
  intros [Hc Hsp He Hg Hst Hx Hm] Had Hu. set (tk := bc_tick_size cfg) in *. pose proof (en_book _ _ _ _ _ He) as Hi.
  destruct (process_view mid tk Hc Hsp A fl b o He Had) as (fs & A' & fl' & o' & b' & P & V).
  exists o', b', A', fl'. split; [apply P|].
  pose proof (view_market mid tk Hc A fl b o fs A' fl' o' b' He Had V) as Hmk.
  assert (market_of mid tk A' b' ≡ (submit tk (bc_lot_size cfg) m o).1) as Hm'.
  { rewrite <- Hm, <- Hg. destruct (submit _ _ _ _). apply Hmk. }
  assert (forall t x, In x (A t) -> entry_key x <> in_key o) as Hf.
  { intros t x Hin. apply (unused_entry mid tk A fl b _ t x Hc (bk_core _ _ _ _ _ Hi)); [|done]. by rewrite Hm. }
  destruct V as [(-> & -> & Hb)|(Ev & -> & A1 & limited & h & bbo & X)].
  - assert (exists ev, b' = set_events b [ev] /\ indexes A (index_event index ev) /\ recordable b' ev) as (ev & -> & Hx' & Hrec).
    { destruct Hb as [(r & _ & ->)|[_ ->]]; eexists; (split; [reflexivity|]); (split; [|done]); [done|]. by apply index_done. }
    split; [by split; try apply P|]. split; [lia|]. split; [by constructor|done].
  - split; [split; try done; try apply P|split; [|split]].
    + destruct (ex_keeps _ _ _ _ _ _ _ _ _ _ _ _ _ X) as (_ & _ & _ & _ & K & _). cbn in K. congruence.
    + destruct (ex_keeps _ _ _ _ _ _ _ _ _ _ _ _ _ X) as (_ & _ & _ & K & _). cbn in K. congruence.
    + by apply (executed_index mid tk A fl b o fs A1 A' fl' b' limited h bbo).
    + destruct (verdict_execute mid tk A b o Ev) as (Hp & Hal & Hq & Hro & _).
      pose proof (fillable_bounds mid tk A fl b o Had Hq Hro) as Hfb.
      rewrite (executed_sum mid tk Hc A fl b o fs A1 A' fl' b' limited h bbo He X Hal) by (pose proof (ad_price _ _ _ _ _ _ Had); width_lia).
      destruct (ex_match _ _ _ _ _ _ _ _ _ _ _ _ _ X) as (fl1 & b1 & M). pose proof (ma_rem _ _ _ _ _ _ _ _ _ _ M) as Hrem. cbn in Hrem.
      destruct (decide _); lia.
    + rewrite (ex_events _ _ _ _ _ _ _ _ _ _ _ _ _ X). by eapply terminal_recordable.
    + rewrite (ex_events _ _ _ _ _ _ _ _ _ _ _ _ _ X), zlen_app, zlen_cons. pose proof (fill_events_length (taken b o) fs).
      destruct (ex_match _ _ _ _ _ _ _ _ _ _ _ _ _ X) as (fl1 & b1 & M). pose proof (ma_room _ _ _ _ _ _ _ _ _ _ M).
      assert (zlen bbo <= 1); [|lia].
      by destruct (ex_bbo _ _ _ _ _ _ _ _ _ _ _ _ _ X) as [[_ ->]|(_ & bp & bq & ap & aq & -> & _)].
Qed.

(** ** What a freed slot still says

    The cancellation record is built after the slot is freed; its flags and
    its time in force are still there. *)

Definition marks (s : OrderSlot) : Z * bool := (os_tif s, is_reduce_only s).
Definition marks_at (os : Slab OrderSlot) (h : Z) : option (Z * bool) := marks <$> vget (slots os) h.

Lemma vmodify_marks l i f l' h : (forall s, marks (f s) = marks s) -> vmodify l i f = Ok l' -> marks <$> vget l' h = marks <$> vget l h.
Proof.
  intros Hf E. unfold vmodify in E. apply bind_ok in E as (x & Ex & E). injection E as <-. rewrite vget_vput. case_if; [|done].
  unfold vindex in Ex. destruct (vget l i) as [y|] eqn:Ey; [|done]. injection Ex as <-.
  assert (i = h) as -> by (bool_to_prop; lia). rewrite Ey. cbn. by rewrite Hf.
Qed.

Lemma update_marks os i f os' h : (forall s, marks (f s) = marks s) -> update os i f = Ok os' -> marks_at os' h = marks_at os h.
Proof. intros Hf E. unfold update in E. apply bind_ok in E as (l & E & E'). injection E' as <-. by eapply vmodify_marks. Qed.

Lemma free_marks os i os' h : free os i = Ok os' -> marks_at os' h = marks_at os h.
Proof.
  intros E. unfold free in E. apply bind_ok in E as (? & _ & E). apply bind_ok in E as (l & E & E'). injection E' as <-.
  apply (vmodify_marks _ _ _ _ h) in E; [exact E|by intros].
Qed.

Lemma set_active_marks a s : marks (set_active a s) = marks s.
Proof.
  unfold marks, is_reduce_only, set_active, ORDER_ACTIVE, ORDER_REDUCE_ONLY. destruct a; cbn [os_tif os_flags os_with_flags]; do 3 f_equal.
  - by rewrite Z.land_lor_distr_l, Z.lor_0_r.
  - by rewrite <- Z.land_assoc.
Qed.

Lemma unlink_marks b h b' g : unlink_order b h = Ok b' -> marks_at (orders b') g = marks_at (orders b) g.
Proof.
  intros E. unfold unlink_order in E. apply bind_ok in E as (slot & _ & E). apply bind_ok in E as (lv & _ & E).
  apply bind_ok in E as ([os level] & El & E). destruct (remove_side _ _) as [level2 emp]. apply bind_ok in E as (lvs & _ & E).
  assert (marks_at os g = marks_at (orders b) g) as <-.
  { unfold unlink_list in El. apply bind_ok in El as ([os1 l1] & E1 & E2).
    assert (marks_at os1 g = marks_at (orders b) g) as <-.
    { case_if_in E1; [|by injection E1 as <- _]. apply bind_ok in E1 as (os2 & Eu & E1). injection E1 as <- _. apply (update_marks _ _ _ _ g) in Eu; [exact Eu|done]. }
    case_if_in E2; [|by injection E2 as <- _]. apply bind_ok in E2 as (os2 & Eu & E2). injection E2 as <- _. apply (update_marks _ _ _ _ g) in Eu; [exact Eu|done]. }
  case_if_in E; [|by injection E as <-]. unfold clear_side_occ in E. by case_if_in E; apply bind_ok in E as (o & _ & E); injection E as <-.
Qed.

Lemma cancel_marks b h b' g : cancel_order b h = Ok (true, b') -> marks_at (orders b') g = marks_at (orders b) g.
Proof.
  intros E. unfold cancel_order in E. apply bind_ok in E as (slot & _ & E). case_if_in E; [done|].
  apply bind_ok in E as (b1 & E1 & E). apply bind_ok in E as (b2 & E2 & E). apply bind_ok in E as (os1 & E3 & E).
  apply bind_ok in E as (os2 & E4 & E). apply bind_ok in E as (u & _ & E). injection E as <-. cbn.
  rewrite (free_marks _ _ _ _ E4), (update_marks _ _ _ _ _ (set_active_marks _) E3), <- (unlink_marks _ _ _ _ E1).
  assert (forall sd b b', refresh sd b = Ok b' -> orders b' = orders b) as Hr.
  { intros sd x y Er. destruct sd; cbn in Er; unfold refresh_best_bid, refresh_best_ask in Er; apply bind_ok in Er as (tk & _ & Er);
      apply bind_ok in Er as ([px q] & _ & Er); by injection Er as <-. }
  case_if_in E2; case_if_in E2; first [by injection E2 as <-|by rewrite (Hr Buy _ _ E2)|by rewrite (Hr Sell _ _ E2)].
Qed.

(** ** Cancels *)

Lemma unindexed A fl b mid tk index k m :
  cfg_ok mid tk -> core mid tk A fl b -> indexes A index -> market_of mid tk A b ≡ m -> index !! k = None <-> unused k m.
Proof.
  intros Hcfg Hc Hx <-. split.
  - intros Hn r Hr Ek. destruct (entry_used mid tk A fl b k r Hcfg Hc Hr Ek) as (t & [h s] & He & Eke).
    assert (index !! k = Some h) by (apply Hx; by exists t, s). congruence.
  - intros Hu. destruct (index !! k) as [h|] eqn:E; [|done]. apply Hx in E as (t & s & He & Ek).
    by destruct (unused_entry mid tk A fl b k t (h, s) Hcfg Hc Hu He).
Qed.

Lemma cancel_hosted cfg mid A fl b index m k h :
  hosted cfg mid A fl b index m -> index !! k = Some h ->
  exists t s b' A' fl' bbo, In (h, s) (A t) /\ entry_key (h, s) = k /\ cancel_on_book b h k = Ok (true, b') /\
    event_buf b' = [OrderCancelled h k.1.1 (os_remaining s) k.1.2 k.2;
                    OrderDone h (os_tif s) (is_reduce_only s) k.1.1 UserCancel 0 (os_remaining s) k.1.2 k.2] ++ bbo /\
    hosted cfg mid A' fl' b' (update_order_index (event_buf b') index) (withdraw k m) /\ Forall is_bbo bbo /\ zlen bbo <= 1 /\
    slot_flags b' h = Ok (b2z (is_reduce_only s), os_tif s).
Proof.
  intros [Hc Hsp He Hg Hst Hx Hm] Hk. set (tk := bc_tick_size cfg) in *. pose proof (en_book _ _ _ _ _ He) as Hi.
  pose proof (book_inv_events mid tk _ _ _ [] Hi) as Hi0. destruct (proj1 (Hx k h) Hk) as (t & s & Hin & Ek).
  destruct (in_split _ _ Hin) as (q1 & q2 & Et). destruct k as [[u hi] lo]. injection Ek as Eu Eh El.
  destruct (cancel_checked_hit mid tk Hc Hsp A fl (set_events b []) t q1 h s q2 u hi lo Hi0 Et ltac:(by split_and!)) as (b1 & E1 & Hi1 & K & Hlv & _ & Hnet & _).
  destruct (core_get mid tk A fl b t (h, s) (bk_core _ _ _ _ _ Hi) Hin) as (n & p & Hget). cbn [fst snd] in Hget.
  destruct K as (K1 & K2 & K3 & K4 & K5 & K6 & K7 & K8). cbn in K6.
  assert (forall evs, config (set_events b1 evs) = config b) as Kc by (intros; exact K5).
  set (ev1 := OrderCancelled h u (os_remaining s) hi lo). set (ev2 := OrderDone h (os_tif s) (is_reduce_only s) u UserCancel 0 (os_remaining s) hi lo).
  set (A' := upd A t (q1 ++ q2)) in *. set (b3 := set_events b1 [ev1; ev2]).
  assert (exists b4 bbo, (if same_best b b3 then Ok b3 else emit_bbo b3) = Ok b4 /\ b4 = set_events b1 ([ev1; ev2] ++ bbo) /\
    update_order_index bbo (delete (u, hi, lo) index) = delete (u, hi, lo) index /\ Forall is_bbo bbo /\ zlen bbo <= 1) as (b4 & bbo & E4 & -> & Hbx & Hbr & Hbl).
  { case_if; [exists b3, []; by rewrite app_nil_r|]. pose proof (book_inv_events mid tk _ _ _ [ev1; ev2] Hi1) as Hi3.
    assert (uncrossed A') as Hun by (eapply uncrossed_sub; [|apply He]; intros t' x; by eapply drop_sub).
    destruct (current_bbo_spec mid tk Hc A' _ b3 Hi3 Hun) as (bq & aq & E3 & _). unfold emit_bbo. rewrite E3. cbn [mbind Res_bind].
    rewrite emit_ok by done. eexists _, [_]. split; [reflexivity|]. split; [done|]. split; [done|]. split; [by repeat constructor|done]. }
  exists t, s, (set_events b1 ([ev1; ev2] ++ bbo)), A', (h :: fl), bbo. split; [done|]. split; [unfold entry_key, rs_key, content; cbn; congruence|].
  split; [|split; [done|split; [|split; [|split; [done|]]]]].
  - unfold cancel_on_book. rewrite Hget. cbn [mbind Res_bind]. rewrite E1. cbn [mbind Res_bind negb].
    rewrite emit_ok by (by rewrite K6). rewrite K6. cbn [mbind Res_bind app]. rewrite emit_ok by done. cbn [mbind Res_bind set_events event_buf app].
    change (set_events (set_events b1 [_]) [_; _]) with b3. by rewrite E4.
  - destruct (drop_withdraws mid tk Hc A fl b t q1 h s q2 index (set_events b1 ([ev1; ev2] ++ bbo)) Hi Et Hx Hnet) as [Hw Hx'].
    replace (rs_key (content (h, s))) with (u, hi, lo) in * by (unfold rs_key, content; cbn; congruence).
    assert (event_buf (set_events b1 ([ev1; ev2] ++ bbo)) = ev1 :: ev2 :: bbo) as -> by done.
    unfold update_order_index in *. cbn [fold_left index_event ev1 ev2]. rewrite Hbx. split; try done.
    + split; [by apply book_inv_events| |rewrite Kc; by apply He|rewrite Kc; by apply He].
      eapply uncrossed_sub; [|apply He]; intros t' x; by eapply drop_sub.
    + rewrite <- Hg. apply Kc.
    + rewrite <- Hst. exact K4.
    + etransitivity; [exact Hw|]. by rewrite Hm.
  - exact Hbr.
  - change (slot_flags (set_events b1 ([ev1; ev2] ++ bbo)) h) with (slot_flags b1 h).
    pose proof (core_handle mid tk A fl b t h (bk_core _ _ _ _ _ Hi) ltac:(apply (in_handles (h, s)); exact Hin)) as Hh.
    unfold slot_flags. replace (h =? NONE) with false by lia.
    unfold cancel_order_checked in E1. apply bind_ok in E1 as (mt & _ & E1). case_if_in E1; [done|]. apply cancel_marks with (g := h) in E1.
    unfold marks_at in E1. cbn [orders set_events] in E1. unfold get in Hget |- *. unfold vindex in *.
    destruct (vget (slots (orders b)) h) as [s0|]; [|done]. injection Hget as ->. destruct (vget (slots (orders b1)) h) as [s1|]; [|done].
    injection E1 as Et1 Er1. cbn [expect mbind Res_bind]. by rewrite Et1, Er1.
Qed.
