(* ===== verification/TileClaims.v ===== *)
(** * TileClaims: a request through the tile

    [process_order] and [process_cancel] as a whole: what is logged, what the
    peers are sent and what becomes of the market. *)

From S2P Require Import Prelude Hash Types Slab Occupancy Compression Users Order Book Links BookInv Matching MatchInv.
From S2P Require Import Engine Process Recenter Market MarketRef MarketClaims Session.
From S2P Require Import Frames Messages Wal WalRead WalInv WalClaims Cast CastSend Dedup Tile Stall TileLog TileInv.

(** ** The records of a request *)

(** What an order and a cancel add to the log. *)
Definition order_records (symbol_id : Z) (st : Stamps) (msg : OrderMessage) (t : Tile) : list TileRecord :=
  if (check_and_insert (msg_key msg) (tl_dedup t)).1 then [TrFailed (duplicate_record (st_record st) msg)]
  else match ('(_, b) ← process_new_order (tl_book t) (to_incoming msg);
              event_records b symbol_id (st_publish st) (mkHops (om_timestamp_ns msg) (om_risk_in_ns msg) (st_me_in st) (st_match_done st)) (event_buf b)) with
       | Ok rs => TrAccepted (accepted_record symbol_id (st_record st) msg) :: rs
       | _ => []
       end.

Definition cancel_records (symbol_id ts_ns : Z) (request : CancelRequest) (t : Tile) : list TileRecord :=
  match tl_index t !! cancel_key request with
  | None => []
  | Some found =>
      match ('(_, b) ← cancel_on_book (tl_book t) found (cancel_key request); event_records b symbol_id ts_ns no_hops (event_buf b)) with
      | Ok rs => rs
      | _ => []
      end
  end.

Section Claims.
Context `{Crc32c} `{HashIter} `{Win : Window}.

(** Room in the log for everything one request can bring about. *)
Definition BURST : Z := 2 * MAX_MAKERS_PER_ORDER + 3.
Definition roomy (first : Z) (log : list LogRec) : Prop :=
  first + zlen log + BURST <= U64_MAX /\ zlen (wires log) + BURST * Z.of_nat FRAMED_WIRE_BYTES <= I64_MAX.

Lemma record_wire_length {T} `{CastRecord T} (r : T) s : (HEADER_SIZE + size_of T <= FRAMED_WIRE_BYTES)%nat ->
  zlen (wire (log_rec r s)) <= Z.of_nat FRAMED_WIRE_BYTES.
Proof.
  intros Hs. unfold wire, log_rec, encode_record. cbn [fst snd]. unfold zlen. rewrite length_app, header_length, as_bytes_length. lia.
Qed.

Lemma logs_wires s rs : zlen (wires (logs s rs)) <= zlen rs * Z.of_nat FRAMED_WIRE_BYTES.
Proof.
  revert s. induction rs as [|r rs IH]; intros s; [done|]. cbn [logs]. change (wires (?x :: ?l)) with (wire x ++ wires l).
  rewrite zlen_app, zlen_cons. specialize (IH (s + 1)). assert (zlen (wire (record_log r s)) <= Z.of_nat FRAMED_WIRE_BYTES); [|lia].
  destruct r; apply record_wire_length; by apply Nat.leb_le.
Qed.

Lemma roomy_for first log rs : roomy first log -> zlen rs <= BURST -> room_in_log first log (logs (first + zlen log) rs).
Proof.
  intros [H1 H2] Hn. unfold room_in_log. rewrite wires_app, !zlen_app, logs_length. pose proof (logs_wires (first + zlen log) rs). nia.
Qed.

(** What handling one request comes to: the records that go out, the market
    and the dedup window after it; or the log is lost. *)
Definition handled (cfg : BookConfig) (first : Z) (log D rs : list LogRec) (f : Fanout) (m' : Market) (dedup' : DedupTracker)
    (res : Res Tile) : Prop :=
  (exists t' D', res = Ok t' /\ emitted first log D rs f (tl_fanout t') D' /\ serves cfg (tl_book t') (tl_index t') m' /\
    tl_dedup t' = dedup' /\ (sound (fo_world f) -> sound (fo_world (tl_fanout t')))) \/
  (res = Diverged /\ (exists log' D', log' `prefix_of` log ++ rs /\ lost first log' D') /\ ~ sound (fo_world f)).

Lemma handled_bind cfg first log D rs rs' f m' dedup' (e : SinkRes Fanout) (k : Fanout -> Res Tile) :
  goes_out first log D rs f e ->
  (forall f1 D1, emitted first log D rs f f1 D1 -> handled cfg first (log ++ rs) D1 rs' f1 m' dedup' (k f1)) ->
  handled cfg first log D (rs ++ rs') f m' dedup' (f ← io_expect e; k f).
Proof.
  intros [(f1 & D1 & -> & He & Hs)|(-> & (log' & D' & Hl & Hlost) & Hn)] Hk; unfold io_expect; cbn [mbind Res_bind].
  - destruct (Hk f1 D1 He) as [(t' & D2 & -> & He2 & Hsv & Hd & Hs2)|(-> & (log' & D' & Hl & Hlost) & Hn)]; [left|right].
    + exists t', D2. split; [done|]. split; [by eapply emitted_app|]. tauto.
    + split; [done|]. split; [|tauto]. exists log', D'. by rewrite <- app_assoc in Hl.
  - right. split; [done|]. split; [|done]. exists log', D'. split; [|done]. rewrite app_assoc. by apply prefix_app_r.
Qed.

(** The last emission of a handler. *)
Lemma handled_last cfg first log D rs f m' dedup' (e : SinkRes Fanout) (k : Fanout -> Res Tile) :
  goes_out first log D rs f e ->
  (forall f1, exists t', k f1 = Ok t' /\ tl_fanout t' = f1 /\ serves cfg (tl_book t') (tl_index t') m' /\ tl_dedup t' = dedup') ->
  handled cfg first log D rs f m' dedup' (f ← io_expect e; k f).
Proof.
  intros He Hk. rewrite <- (app_nil_r rs). apply handled_bind; [done|]. intros f1 D1 Hem. left.
  destruct (Hk f1) as (t' & -> & Ef & Hs & Hd). exists t', D1. rewrite Ef. split; [done|]. split; [by apply emitted_nil, Hem|done].
Qed.

(** ** Orders *)

Section Order.
Context (cfg : BookConfig) (symbol_id : Z) (st : Stamps) (msg : OrderMessage) (t : Tile) (first : Z) (log D : list LogRec) (m : Market).

Abbreviation o := (to_incoming msg).
Abbreviation m' := (submit (bc_tick_size cfg) (bc_lot_size cfg) m o).1.
Abbreviation hops := (mkHops (om_timestamp_ns msg) (om_risk_in_ns msg) (st_me_in st) (st_match_done st)).
Abbreviation next := (first + zlen log).

Lemma duplicate_handled dedup' :
  online first log D (tl_fanout t) -> roomy first log -> serves cfg (tl_book t) (tl_index t) m ->
  check_and_insert (msg_key msg) (tl_dedup t) = (true, dedup') ->
  handled cfg first log D (logs next [TrFailed (duplicate_record (st_record st) msg)]) (tl_fanout t) m dedup' (process_order symbol_id st msg t).
Proof.
  intros Ho Hr Hs Ed. unfold process_order. rewrite Ed. apply handled_last.
  - apply (emit_record_spec (TrFailed _)); [done|]. by apply (roomy_for first log [TrFailed _]).
  - intros f'. eexists. by split.
Qed.

Lemma order_handled dedup' :
  online first log D (tl_fanout t) -> roomy first log -> serves cfg (tl_book t) (tl_index t) m ->
  check_and_insert (msg_key msg) (tl_dedup t) = (false, dedup') ->
  admits (tl_book t) o = true -> unused (msg_key msg) m -> recentrable (bc_tick_size cfg) m' ->
  exists o' b' rs, process_new_order (tl_book t) o = Ok (o', b') /\
    event_records b' symbol_id (st_publish st) hops (event_buf b') = Ok rs /\ Forall inert rs /\
    handled cfg first log D (logs next (TrAccepted (accepted_record symbol_id (st_record st) msg) :: rs)) (tl_fanout t) m' dedup'
      (process_order symbol_id st msg t).
Proof.
  intros Ho Hr (mid & A & fl & Hh) Ed Ha Hu Hrc. pose proof (ho_engine _ _ _ _ _ _ _ Hh) as He.
  pose proof (admits_ok mid (bc_tick_size cfg) (ho_cfg _ _ _ _ _ _ _ Hh) A fl (tl_book t) o He Ha) as Had.
  destruct (order_hosted cfg mid A fl (tl_book t) (tl_index t) m o Hh Had Hu) as (o' & b' & A' & fl' & Erun & Hh' & Hsum & Hrec & Hlen).
  destruct (recordable_record b' symbol_id (st_publish st) hops _ Hrec) as (rs & Hrs & Hin).
  destruct (maybe_recenter_serves cfg mid A' fl' b' _ _ Hh' Hrc) as (b2 & Erc & Hsv).
  { pose proof (admits_total mid (bc_tick_size cfg) A fl (tl_book t) o He Ha). lia. }
  exists o', b', rs. do 3 (split; [done|]). unfold process_order. rewrite Ed.
  assert (zlen rs = zlen (event_buf b')) as Hz by (by apply (event_records_length b' symbol_id (st_publish st) hops)).
  pose proof (roomy_for first log (TrAccepted (accepted_record symbol_id (st_record st) msg) :: rs) Hr ltac:(rewrite zlen_cons; unfold BURST; lia)) as Hroom.
  cbn [logs] in *. apply (room_prefix first log [_]) in Hroom as [Hr1 Hr2].
  apply (handled_bind cfg first log D [_]); [by apply (emit_record_spec (TrAccepted _))|]. intros f1 D1 Hem.
  rewrite Erun. cbn [mbind Res_bind]. set (log1 := log ++ [_]) in *.
  replace (next + 1) with (first + zlen log1) in * by (unfold log1; rewrite zlen_snoc; lia).
  apply handled_last; [apply emit_loop_spec; [done|apply Hem|done]|]. intros f2. rewrite Erc. eexists. by split.
Qed.


End Order.

(** ** Cancels *)

(** The records of a cancelled order. *)
Definition cancelled_records (r : Resting) (symbol_id ts_ns : Z) : list TileRecord :=
  [TrCancelled (mkOrderCancelledRecord 0 ts_ns symbol_id (rs_user r) (rs_oid_hi r) (rs_oid_lo r) (rs_qty r) CANCEL_REASON_USER_CANCEL
     (b2z (rs_reduce r)) (rs_tif r) 0);
   TrDone (mkOrderDoneRecord 0 ts_ns symbol_id (rs_user r) (rs_oid_hi r) (rs_oid_lo r) 0 (rs_qty r) 2 (b2z (rs_reduce r)) (rs_tif r) 0
     CANCEL_REASON_USER_CANCEL 0 0 0 0 0)].

Section Cancel.
Context (cfg : BookConfig) (symbol_id ts_ns : Z) (request : CancelRequest) (t : Tile) (first : Z) (log D : list LogRec) (m : Market).

Abbreviation k := (cancel_key request).

Lemma cancel_miss : serves cfg (tl_book t) (tl_index t) m -> unused k m ->
  process_cancel symbol_id ts_ns request t = Ok t /\ cancel_records symbol_id ts_ns request t = [].
Proof.
  intros (mid & A & fl & Hh) Hu. pose proof Hh as [Hc _ He _ _ Hx Hm]. pose proof (bk_core _ _ _ _ _ (en_book _ _ _ _ _ He)) as Hcore.
  apply (unindexed A fl (tl_book t) mid (bc_tick_size cfg) (tl_index t) k m Hc Hcore Hx Hm) in Hu.
  unfold process_cancel, cancel_records. by rewrite Hu.
Qed.

Lemma cancel_handled : online first log D (tl_fanout t) -> roomy first log -> serves cfg (tl_book t) (tl_index t) m -> ~ unused k m ->
  exists r bbo, In r (mk_bids m ++ mk_asks m) /\ rs_key r = k /\ zlen bbo <= 1 /\ Forall silent bbo /\
    cancel_records symbol_id ts_ns request t = cancelled_records r symbol_id ts_ns ++ bbo /\
    handled cfg first log D (logs (first + zlen log) (cancel_records symbol_id ts_ns request t)) (tl_fanout t) (withdraw k m) (tl_dedup t)
      (process_cancel symbol_id ts_ns request t).
Proof.
  intros Ho Hr (mid & A & fl & Hh) Hne. pose proof Hh as [Hc _ He _ _ Hx Hm]. pose proof (bk_core _ _ _ _ _ (en_book _ _ _ _ _ He)) as Hcore.
  pose proof (unindexed A fl (tl_book t) mid (bc_tick_size cfg) (tl_index t) k m Hc Hcore Hx Hm) as Hun.
  destruct (tl_index t !! k) as [h|] eqn:Ek; [|by destruct Hne; apply Hun].
  destruct (cancel_hosted cfg mid A fl (tl_book t) (tl_index t) m k h Hh Ek)
    as (tk' & s & b' & A' & fl' & bbo & Hin & Eks & Ecn & Eev & Hh' & Hrec & Hlb & Hfl).
  destruct (bbo_records b' symbol_id ts_ns no_hops _ Hrec) as (rs & Hrs & Hinert).
  assert (event_records b' symbol_id ts_ns no_hops (event_buf b') = Ok (cancelled_records (content (h, s)) symbol_id ts_ns ++ rs)) as Hall.
  { rewrite Eev. apply event_records_app; [|done]. rewrite <- Eks. cbn [event_records event_record]. rewrite Hfl. cbn [mbind Res_bind].
    by destruct (h =? NONE). }
  assert (cancel_records symbol_id ts_ns request t = cancelled_records (content (h, s)) symbol_id ts_ns ++ rs) as Erec.
  { unfold cancel_records. rewrite Ek, Ecn. cbn [mbind Res_bind]. by rewrite Hall. }
  assert (zlen rs <= 1) as Hl by (by rewrite (event_records_length b' symbol_id ts_ns no_hops bbo rs Hrs)).
  exists (content (h, s)), rs. split; [|split; [done|split; [done|split; [done|split; [done|]]]]].
  { destruct Hm as (HB & HS & _). rewrite <- HB, <- HS. cbn. rewrite <- map_app. apply in_map, in_app_iff.
    rewrite !(in_priority mid (bc_tick_size cfg) Hc _ A fl (tl_book t)) by done. unfold is_side.
    destruct (lk_side _ _ _ (c_links _ _ _ _ _ Hcore) _ _ Hin) as [->| ->]; [left|right]; eauto. }
  rewrite Erec. unfold process_cancel. rewrite Ek, Ecn. cbn [mbind Res_bind negb]. apply handled_last.
  - apply emit_loop_spec; [done|done|apply roomy_for; [done|]].
    rewrite zlen_app. change (zlen (cancelled_records _ _ _)) with 2. change BURST with 65535. lia.
  - intros f'. eexists. split; [reflexivity|]. split; [done|]. split; [|done]. by exists mid, A', fl'.
Qed.

(** C4: A cancel through the tile.  A key under which nothing rests changes
    and publishes nothing.  A key under which an order rests withdraws
    exactly that order from the market and from the index, and the log and
    the peers get its cancellation and the record that closes it, with the
    quantity, the flags and the time in force it rested with, and at most one
    change of the top of the book. *)
Theorem process_cancel_refines :
  online first log D (tl_fanout t) -> roomy first log -> serves cfg (tl_book t) (tl_index t) m ->
  (unused k m -> process_cancel symbol_id ts_ns request t = Ok t) /\
  (~ unused k m -> exists r bbo, In r (mk_bids m ++ mk_asks m) /\ rs_key r = k /\ zlen bbo <= 1 /\
    handled cfg first log D (logs (first + zlen log) (cancelled_records r symbol_id ts_ns ++ bbo)) (tl_fanout t) (withdraw k m) (tl_dedup t)
      (process_cancel symbol_id ts_ns request t)).
Proof.
  intros Ho Hr Hs. split; [intros Hu; by apply cancel_miss|]. intros Hne.
  destruct (cancel_handled Ho Hr Hs Hne) as (r & bbo & H1 & H2 & H3 & _ & E & H4). exists r, bbo. by rewrite <- E.
Qed.

End Cancel.

End Claims.
