(* ===== verification/Replay.v ===== *)
(** * Replay: the book rebuilt from disk [rsx-matching/src]

    [recovery.rs], the replay half of [wal.rs] and the checkpoint record of
    [checkpoint.rs]: a boot loads the checkpoint if there is one, re-executes
    the log's orders and cancels behind it and rebuilds the dedup window from
    the whole log.  Reading the checkpoint file as Avro is third-party code:
    the values its reader yields are an argument. *)

From S2P Require Import Prelude Hash Types Slab Users Order Book Matching Migration Snapshot Frames Messages Wal Cast Market Dedup Tile.

(** ** Checkpoints [checkpoint.rs] *)

Definition CHECKPOINT_SCHEMA_VERSION : Z := 1.

Record MatchingCheckpointV1 : Type := mkCheckpoint { ck_schema_version : Z; ck_wal_seq : SnapshotU64; ck_book : BookSnapshotV1 }.

Definition Checkpoint_new (wal_seq : Z) (book : BookSnapshotV1) : MatchingCheckpointV1 :=
  mkCheckpoint CHECKPOINT_SCHEMA_VERSION (SnapshotU64_new wal_seq) book.

Definition Checkpoint_capture `{HashIter} (b : Orderbook) (wal_seq : Z) : Res (Checked MatchingCheckpointV1) :=
  checked_bind (capture b) (fun snap => Ok (Valid (Checkpoint_new wal_seq snap))).

(** Why a checkpoint does not load. *)
Inductive LoadError : Type :=
| FileUnreadable
| BadRecord
| EmptyCheckpoint
| UnsupportedVersion
| MultipleRecords
| NotRestored (e : SnapError).

(** [values]: what the Avro reader yields, one by one. *)
Definition read_avro_checkpoint (values : list (MatchingCheckpointV1 + unit)) : MatchingCheckpointV1 + LoadError :=
  match values with
  | [] => inr EmptyCheckpoint
  | inr _ :: _ => inr BadRecord
  | inl checkpoint :: rest =>
      if negb (ck_schema_version checkpoint =? CHECKPOINT_SCHEMA_VERSION) then inr UnsupportedVersion
      else match rest with
           | inr _ :: _ => inr BadRecord
           | inl _ :: _ => inr MultipleRecords
           | [] => inl checkpoint
           end
  end.

(** The file: absent, unreadable, or the values in it. *)
Inductive CheckpointFile : Type :=
| NoFile
| Unreadable
| File (values : list (MatchingCheckpointV1 + unit)).

Definition load_checkpoint (file : CheckpointFile) (capacity : Z) : Res (option (Orderbook * Z) + LoadError) :=
  match file with
  | NoFile => Ok (inl None)
  | Unreadable => Ok (inr FileUnreadable)
  | File values =>
      match read_avro_checkpoint values with
      | inr e => Ok (inr e)
      | inl checkpoint =>
          r ← restore (ck_book checkpoint) capacity;
          match r with
          | Invalid e => Ok (inr (NotRestored e))
          | Valid b => Ok (inl (Some (b, SnapshotU64_get (ck_wal_seq checkpoint))))
          end
      end
  end.

(** ** Replay [wal.rs] *)

Inductive RecoveryError : Type :=
| CheckpointLoad (source : LoadError)
| ReplayRead (start_seq : Z) (source : IoError)
| DedupRead (source : IoError)
| UndecodableRecord (record_type : Z) (seq : option Z) (payload_len expected_len : Z).

Definition decode_record {T} `{CastRecord T} (r : RawWalRecord) : T + RecoveryError :=
  match decode_payload (raw_payload r) with
  | Some record => inl record
  | None => inr (UndecodableRecord (wh_record_type (raw_header r)) (extract_seq (raw_payload r)) (zlen (raw_payload r)) (Z.of_nat (size_of T)))
  end.

Definition is_replay_side_effect (record_type : Z) : bool :=
  existsb (Z.eqb record_type) [RECORD_FILL; RECORD_BBO; RECORD_ORDER_INSERTED; RECORD_ORDER_DONE; RECORD_ORDER_FAILED; RECORD_CONFIG_APPLIED].

Record Replay : Type := mkReplay { ry_book : Orderbook; ry_index : gmap OrderKey Z; ry_last_seq : Z }.

Definition accepted_order (rec : OrderAcceptedRecord) : IncomingOrder :=
  mkIncoming (wa_price rec) (wa_qty rec) (wa_qty rec) (decode_side (wa_side rec)) (decode_tif (wa_tif rec)) (wa_user_id rec)
    (negb (wa_reduce_only rec =? 0)) (negb (wa_post_only rec =? 0)) (wa_ts_ns rec) (wa_order_id_hi rec) (wa_order_id_lo rec).

Definition cancelled_key (rec : OrderCancelledRecord) : OrderKey := (wc_user_id rec, wc_order_id_hi rec, wc_order_id_lo rec).

(** The effects of the two records that replay applies. *)
Definition replay_accepted (rec : OrderAcceptedRecord) (b : Orderbook) (index : gmap OrderKey Z) : Res (Orderbook * gmap OrderKey Z) :=
  '(_, b) ← process_new_order b (accepted_order rec);
  Ok (b, update_order_index (event_buf b) index).

Definition replay_cancelled (rec : OrderCancelledRecord) (b : Orderbook) (index : gmap OrderKey Z) : Res (Orderbook * gmap OrderKey Z) :=
  match index !! cancelled_key rec with
  | Some handle => '(_, b) ← cancel_order b handle; Ok (b, delete (cancelled_key rec) index)
  | None => Ok (b, index)
  end.

(** Records that replay does not apply, the unknown ones among them, change
    nothing; the warning about an unknown type is left out. *)
Definition replay_record (r : RawWalRecord) (s : Replay) : Res (Replay + RecoveryError) :=
  let last := match extract_seq (raw_payload r) with Some seq => Z.max (ry_last_seq s) seq | None => ry_last_seq s end in
  if wh_record_type (raw_header r) =? RECORD_ORDER_ACCEPTED then
    match decode_record (T := OrderAcceptedRecord) r with
    | inr e => Ok (inr e)
    | inl rec => '(b, index) ← replay_accepted rec (ry_book s) (ry_index s); Ok (inl (mkReplay b index last))
    end
  else if wh_record_type (raw_header r) =? RECORD_ORDER_CANCELLED then
    match decode_record (T := OrderCancelledRecord) r with
    | inr e => Ok (inr e)
    | inl rec => '(b, index) ← replay_cancelled rec (ry_book s) (ry_index s); Ok (inl (mkReplay b index last))
    end
  else if is_replay_side_effect (wh_record_type (raw_header r)) then Ok (inl (mkReplay (ry_book s) (ry_index s) last))
  else Ok (inl (mkReplay (ry_book s) (ry_index s) last)).

Fixpoint replay_records (rs : list RawWalRecord) (s : Replay) : Res (Replay + RecoveryError) :=
  match rs with
  | [] => Ok (inl s)
  | r :: rs =>
      x ← replay_record r s;
      match x with
      | inl s => replay_records rs s
      | inr e => Ok (inr e)
      end
  end.

Section Recover.
Context `{Crc32c} `{HashIter}.

(** A read failure comes after the records before it. *)
Definition replay_wal_after_snapshot (b : Orderbook) (index : gmap OrderKey Z) (start_seq : Z) (d : Disk) : Res (Replay + RecoveryError) :=
  '(records, failed) ← read_from start_seq d;
  x ← replay_records records (mkReplay b index (sat_u64 (start_seq - 1)));
  match x, failed with
  | inl s, Some e => Ok (inr (ReplayRead start_seq e))
  | x, _ => Ok x
  end.

Fixpoint seed_records (clock now_unix_ns : Z) (rs : list RawWalRecord) (dedup : DedupTracker) : DedupTracker + RecoveryError :=
  match rs with
  | [] => inl dedup
  | r :: rs =>
      if negb (wh_record_type (raw_header r) =? RECORD_ORDER_ACCEPTED) then seed_records clock now_unix_ns rs dedup
      else
        match decode_record (T := OrderAcceptedRecord) r with
        | inr e => inr e
        | inl rec =>
            let age_ns := sat_u64 (now_unix_ns - wa_ts_ns rec) in
            seed_records clock now_unix_ns rs (seed clock (wa_user_id rec, wa_order_id_hi rec, wa_order_id_lo rec) age_ns dedup)
        end
  end.

Definition rebuild_dedup_window (clock now_unix_ns : Z) (d : Disk) (dedup : DedupTracker) : Res (DedupTracker + RecoveryError) :=
  '(records, failed) ← read_from 0 d;
  match seed_records clock now_unix_ns records dedup, failed with
  | inl _, Some e => Ok (inr (DedupRead e))
  | x, _ => Ok x
  end.

(** ** Recovery [recovery.rs] *)

Definition BOOK_ORDER_CAPACITY : Z := 1000000.
Definition BOOK_INITIAL_MID_PRICE : Z := 50000.

Record BootConfig : Type := mkBoot { boot_config : BookConfig; boot_book_capacity : Z }.

Record Recovered : Type := mkRecovered {
  rc_book : Orderbook;
  rc_order_index : gmap OrderKey Z;
  rc_dedup : DedupTracker;
  rc_next_seq : Z;
  rc_checkpoint_wal_seq : Z;
}.

(** The book to replay onto, its index and where the log goes on. *)
Definition recover_base (boot : BootConfig) (file : CheckpointFile) : Res (Orderbook * gmap OrderKey Z * Z * Z + RecoveryError) :=
  loaded ← load_checkpoint file (boot_book_capacity boot);
  match loaded with
  | inr e => Ok (inr (CheckpointLoad e))
  | inl (Some (b, wal_seq)) =>
      index ← rebuild_order_index_from_book b;
      Ok (inl (b, index, wal_seq, wrap_u64 (wal_seq + 1)))
  | inl None =>
      b ← Orderbook_new (boot_config boot) (boot_book_capacity boot) BOOK_INITIAL_MID_PRICE;
      Ok (inl (b, ∅, 0, 1))
  end.

Definition recover (boot : BootConfig) (file : CheckpointFile) (clock now_unix_ns : Z) (d : Disk) : Res (Recovered + RecoveryError) :=
  base ← recover_base boot file;
  match base with
  | inr e => Ok (inr e)
  | inl (b, index, checkpoint_wal_seq, start_seq) =>
      x ← replay_wal_after_snapshot b index start_seq d;
      match x with
      | inr e => Ok (inr e)
      | inl s =>
          y ← rebuild_dedup_window clock now_unix_ns d (DedupTracker_new clock);
          match y with
          | inr e => Ok (inr e)
          | inl dedup => Ok (inl (mkRecovered (ry_book s) (ry_index s) dedup (wrap_u64 (ry_last_seq s + 1)) checkpoint_wal_seq))
          end
      end
  end.

End Recover.
