(* ===== verification/ReplayClaims.v ===== *)
(** * ReplayClaims: a tile comes back as it was

    The effect of a record on the market is that of the request it stands
    for ([effect]).  A running tile's market is the effect of its log
    ([tile_session_log]), replaying a log gives the effect of its records
    ([replay_market]), so a crash anywhere loses requests from the end of the
    log only. *)

From S2P Require Import Prelude Hash Types Slab Occupancy Compression Users Order Book Links BookInv Matching MatchInv.
From S2P Require Import FillQueue SlotMatch Engine Feasible Process Recenter Migration Snapshot SnapInv SnapRestore Guarantees Market MarketRef MarketClaims Session.
From S2P Require Import Frames Messages Wal WalRead WalInv WalClaims Cast CastSend Dedup Tile Stall TileLog TileInv TileClaims Replay.

(** ** The effect of a record on the market *)

Definition effect (cfg : BookConfig) (m : Market) (r : TileRecord) : Market :=
  match r with
  | TrAccepted rec => (submit (bc_tick_size cfg) (bc_lot_size cfg) m (accepted_order rec)).1
  | TrCancelled rec => withdraw (cancelled_key rec) m
  | _ => m
  end.

Definition effects (cfg : BookConfig) (rs : list TileRecord) (m : Market) : Market := fold_left (effect cfg) rs m.

#[global] Instance effect_proper cfg : Proper ((≡) ==> (=) ==> (≡)) (effect cfg).
Proof.
  intros m m' Hm r _ <-. destruct r; cbn; try done; [by rewrite Hm|].
  by destruct (submit_proper (bc_tick_size cfg) (bc_lot_size cfg) m m' Hm (accepted_order r) _ eq_refl).
Qed.

Lemma effects_proper cfg rs m m' : m ≡ m' -> effects cfg rs m ≡ effects cfg rs m'.
Proof. revert m m'. induction rs as [|r rs IH]; intros m m' Hm; [done|]. cbn. apply IH. by rewrite Hm. Qed.

Lemma effects_app cfg rs rs' m : effects cfg (rs ++ rs') m = effects cfg rs' (effects cfg rs m).
Proof. apply fold_left_app. Qed.

Lemma effects_inert cfg rs m : Forall inert rs -> effects cfg rs m = m.
Proof. revert m. induction 1 as [|r rs Hr _ IH]; [done|]. cbn. by destruct r. Qed.

(** ** Replaying records *)

(** An executable check that every order met on the way is one the book is
    sized for and has an id of its own. *)
Fixpoint replay_fits (rs : list TileRecord) (b : Orderbook) (index : gmap OrderKey Z) : bool :=
  match rs with
  | [] => true
  | TrAccepted rec :: rs =>
      admits b (accepted_order rec) && bool_decide (index !! in_key (accepted_order rec) = None) &&
      match replay_accepted rec b index with Ok (b, index) => replay_fits rs b index | _ => false end
  | TrCancelled rec :: rs => match replay_cancelled rec b index with Ok (b, index) => replay_fits rs b index | _ => false end
  | _ :: rs => replay_fits rs b index
  end.

Lemma replay_fits_prefix rs rs' b index : replay_fits (rs ++ rs') b index = true -> replay_fits rs b index = true.
Proof.
  revert b index. induction rs as [|r rs IH]; intros b index; [done|]. destruct r; cbn [app replay_fits]; try apply IH.
  - destruct (replay_cancelled _ _ _) as [[b' index']| |]; [apply IH|done..].
  - rewrite !andb_true_iff. intros (Ha & Hr). split; [done|]. destruct (replay_accepted _ _ _) as [[b' index']| |]; [by apply IH|done..].
Qed.

Lemma replay_accepted_serves cfg rec b index m :
  serves cfg b index m -> admits b (accepted_order rec) = true -> index !! in_key (accepted_order rec) = None ->
  exists b' index', replay_accepted rec b index = Ok (b', index') /\ serves cfg b' index' (effect cfg m (TrAccepted rec)).
Proof.
  intros (mid & A & fl & Hh) Ha Hn. pose proof Hh as [Hc _ He _ _ Hx Hm].
  destruct (order_hosted cfg mid A fl b index m (accepted_order rec) Hh) as (o' & b' & A' & fl' & E & Hh' & _).
  - by apply admits_ok.
  - by apply (unindexed A fl b mid (bc_tick_size cfg) index _ m Hc (bk_core _ _ _ _ _ (en_book _ _ _ _ _ He)) Hx Hm).
  - unfold replay_accepted. rewrite E. eexists _, _. split; [reflexivity|]. by exists mid, A', fl'.
Qed.

Lemma without_unused k q : (forall r, In r q -> rs_key r <> k) -> without k q = q.
Proof.
  intros Hk. apply forallb_filter_id, forallb_forall. intros r Hr. apply negb_true_iff, bool_decide_eq_false. by apply Hk.
Qed.

Lemma withdraw_unused k m : unused k m -> withdraw k m ≡ m.
Proof.
  intros Hu. split; [|split; [|done]]; cbn; apply without_unused; intros r Hr; apply Hu, in_app_iff; auto.
Qed.

Lemma replay_cancelled_serves cfg rec b index m :
  serves cfg b index m ->
  exists b' index', replay_cancelled rec b index = Ok (b', index') /\ serves cfg b' index' (effect cfg m (TrCancelled rec)).
Proof.
  intros (mid & A & fl & Hh). pose proof Hh as [Hc Hsp He Hg Hst Hx Hm]. pose proof (en_book _ _ _ _ _ He) as Hi. set (k := cancelled_key rec).
  unfold replay_cancelled. fold k. cbn [effect]. fold k. destruct (index !! k) as [h|] eqn:Ek.
  2: { exists b, index. split; [done|]. rewrite withdraw_unused; [by exists mid, A, fl|].
       by apply (unindexed A fl b mid (bc_tick_size cfg) index _ m Hc (bk_core _ _ _ _ _ Hi) Hx Hm). }
  destruct (proj1 (Hx k h) Ek) as (t & s & Hin & Eks). destruct (in_split _ _ Hin) as (q1 & q2 & Et).
  destruct (cancel_order_spec mid _ Hc Hsp A fl b t q1 (h, s) q2 Hi Et) as (b' & E & Hi' & K & _ & _ & Hnet & _). cbn [fst] in E.
  rewrite E. cbn [mbind Res_bind]. exists b', (delete k index). split; [done|]. exists mid, (upd A t (q1 ++ q2)), (h :: fl).
  destruct (drop_withdraws mid _ Hc A fl b t q1 h s q2 index b' Hi Et Hx Hnet) as [Hw Hx']. rewrite Eks in *.
  split; try done.
  - eapply engine_keeps; [exact He|exact Hi'|exact K|]. intros t' x. by eapply drop_sub.
  - destruct K as (_ & _ & _ & _ & K & _). congruence.
  - destruct K as (_ & _ & _ & K & _). congruence.
  - etransitivity; [exact Hw|]. by rewrite Hm.
Qed.

Section Records.
Context `{Crc32c} `{HashIter} `{Win : Window}.

Definition applied_fits (r : TileRecord) : Prop :=
  match r with TrAccepted rec => record_fits rec | TrCancelled rec => record_fits rec | _ => True end.

Lemma raw_seq {T} `{CastRecord T} (rec : T) s : in_u64 s -> extract_seq (raw_payload (raw (log_rec rec s))) = Some s.
Proof. intros Hs. cbn. rewrite as_bytes_seq; rewrite ?set_seq_seq; done. Qed.

Lemma decode_raw {T} `{CastRecord T} (rec : T) s : in_u64 s -> record_fits rec -> decode_record (raw (log_rec rec s)) = inl (set_seq s rec).
Proof. intros Hs Hf. unfold decode_record. cbn [raw log_rec raw_payload fst snd]. by rewrite decode_as_bytes by (by apply set_seq_fits). Qed.

Lemma accepted_seq s (rec : OrderAcceptedRecord) : accepted_order (set_seq s rec) = accepted_order rec.
Proof. by destruct rec. Qed.

Lemma cancelled_seq s (rec : OrderCancelledRecord) : cancelled_key (set_seq s rec) = cancelled_key rec.
Proof. by destruct rec. Qed.

(** One record of the log. *)
Lemma replay_record_spec cfg r s b index last m :
  serves cfg b index m -> replay_fits [r] b index = true -> applied_fits r -> in_u64 s ->
  exists b' index', replay_record (raw (record_log r s)) (mkReplay b index last) = Ok (inl (mkReplay b' index' (Z.max last s))) /\
    serves cfg b' index' (effect cfg m r) /\ forall rs, replay_fits (r :: rs) b index = true -> replay_fits rs b' index' = true.
Proof.
  intros Hs Hf Hr Hu.
  assert (inert r -> replay_record (raw (record_log r s)) (mkReplay b index last) = Ok (inl (mkReplay b index (Z.max last s)))) as Hin.
  { intros Hi. unfold replay_record. destruct r; try done; cbn [record_log]; rewrite raw_seq by done; reflexivity. }
  destruct r; try (exists b, index; split; [by apply Hin|split; [exact Hs|by intros rs]]).
  - destruct (replay_cancelled_serves cfg r b index m Hs) as (b' & index' & E & Hs'). exists b', index'.
    split; [|split; [done|intros rs; cbn [replay_fits]; by rewrite E]].
    unfold replay_record. cbn [record_log ry_last_seq ry_book ry_index]. rewrite raw_seq by done.
    change (wh_record_type (raw_header (raw (log_rec r s)))) with RECORD_ORDER_CANCELLED. cbn [Z.eqb RECORD_ORDER_CANCELLED RECORD_ORDER_ACCEPTED].
    rewrite decode_raw by done. unfold replay_cancelled. rewrite cancelled_seq. unfold replay_cancelled in E. by rewrite E.
  - cbn [replay_fits] in Hf. rewrite !andb_true_iff, bool_decide_eq_true in Hf. destruct Hf as [[Ha Hn] _].
    destruct (replay_accepted_serves cfg r b index m Hs Ha Hn) as (b' & index' & E & Hs'). exists b', index'.
    split; [|split; [done|intros rs; cbn [replay_fits]; rewrite E, !andb_true_iff; by intros [_ ?]]].
    unfold replay_record. cbn [record_log ry_last_seq ry_book ry_index]. rewrite raw_seq by done.
    change (wh_record_type (raw_header (raw (log_rec r s)))) with RECORD_ORDER_ACCEPTED. cbn [Z.eqb Pos.eqb RECORD_ORDER_ACCEPTED].
    rewrite decode_raw by done. unfold replay_accepted. rewrite accepted_seq. unfold replay_accepted in E. by rewrite E.
Qed.

Lemma replay_records_spec cfg rs s b index last m :
  serves cfg b index m -> replay_fits rs b index = true -> Forall applied_fits rs -> 0 <= s -> s + zlen rs <= U64_MAX -> last < s ->
  exists b' index', replay_records (map raw (logs s rs)) (mkReplay b index last) =
      Ok (inl (mkReplay b' index' (if bool_decide (rs = []) then last else s + zlen rs - 1))) /\
    serves cfg b' index' (effects cfg rs m).
Proof.
  intros Hs Hf Ha Hs0. revert s b index last m Hs Hf Hs0. induction Ha as [|r rs Hr Ha IH]; intros s b index last m Hs Hf Hs0 Hmax Hl.
  { by exists b, index. }
  rewrite zlen_cons in *. pose proof (zlen_nonneg rs).
  destruct (replay_record_spec cfg r s b index last m Hs) as (b1 & index1 & E1 & Hs1 & Hf1); [by apply (replay_fits_prefix [r] rs)|done|width_lia|].
  destruct (IH (s + 1) b1 index1 (Z.max last s) (effect cfg m r) Hs1 (Hf1 rs Hf)) as (b' & index' & E' & Hs'); [lia..|].
  exists b', index'. split; [|done]. cbn [logs map replay_records]. rewrite E1. cbn [mbind Res_bind]. rewrite E'. do 3 f_equal.
  rewrite (bool_decide_eq_false_2 (r :: rs = [])) by done. case_bool_decide as Hrs; [subst rs; change (zlen []) with 0 in *; lia|lia].
Qed.

(** ** Logs of records *)

Lemma logs_drop s rs n : logs (s + Z.of_nat n) (drop n rs) = drop n (logs s rs).
Proof.
  revert s n. induction rs as [|r rs IH]; intros s [|n]; [done|done|by rewrite Z.add_0_r|]. cbn [drop logs]. rewrite <- IH. f_equal. lia.
Qed.

Lemma logs_take s rs n : logs s (take n rs) = take n (logs s rs).
Proof. revert s n. induction rs as [|r rs IH]; intros s [|n]; [done..|]. cbn. by rewrite IH. Qed.

Lemma logs_prefix s rs P : P `prefix_of` logs s rs -> P = logs s (take (length P) rs) /\ (length P <= length rs)%nat.
Proof.
  intros Hp. pose proof (prefix_length _ _ Hp) as Hl. pose proof (logs_length s rs) as E. unfold zlen in E. split; [|lia].
  rewrite logs_take. destruct Hp as [t ->]. by rewrite take_app_length.
Qed.

Lemma wanted_drop first P n : consecutive first P -> wanted (first + Z.of_nat n) P = drop n P.
Proof.
  intros Hc. rewrite <- (take_drop n P) at 1. rewrite <- (take_drop n P) in Hc. apply consecutive_app in Hc as [Hc1 Hc2]. rewrite wanted_app.
  destruct (decide (n <= length P)%nat) as [Hn|Hn].
  - unfold zlen in Hc2. rewrite length_take_le in Hc2 by done. rewrite (run_below first), (run_above (first + Z.of_nat n)); [done|done|lia|done|].
    unfold zlen. rewrite length_take_le by done. lia.
  - rewrite (drop_ge P) by lia. rewrite (run_below first); [done|done|]. unfold zlen. rewrite length_take. lia.
Qed.

(** ** Recovery *)

(** The disk after a crash, as the reopened log's readers see it. *)
Lemma crash_reads first rs D w d now max n : wal_session first (logs first rs) D w d -> recent now -> ww_file_size w <= n ->
  exists w' d' k, WalWriter_new now max (crashed n d) = Ok (inl w', d') /\ (k <= length rs)%nat /\ D `prefix_of` logs first (take k rs) /\
    consecutive first (logs first (take k rs)) /\
    forall t, t = 0 \/ first <= t -> read_from t d' = Ok (map raw (wanted t (logs first (take k rs))), None).
Proof.
  intros Hw Hn Hs. destruct (session_logged _ _ _ _ _ Hw) as (D' & pend & E & HD & Hl).
  destruct (crash_reopen _ _ _ _ _ now max n Hl Hn Hs) as (w' & d' & P & Enew & H1 & H2 & Hl'). rewrite <- E in H2.
  destruct (logs_prefix _ _ _ H2) as [EP Hk]. destruct (logged_reads _ _ _ _ _ Hl') as (P' & H3 & H4 & Hr & _). rewrite app_nil_r in H4.
  assert (P' = P) as -> by (apply (anti_symm prefix); done). pose proof (logged_log _ _ _ _ _ Hl') as (_ & Hc & _). rewrite app_nil_r in Hc.
  exists w', d', (length P). rewrite <- EP. split_and!; try done. by trans D'.
Qed.

Lemma seed_keeps clock key key' ago dd : key ∈ dd_seen dd -> key ∈ dd_seen (seed clock key' ago dd).
Proof. intros Hk. unfold seed. case_if; [done|]. case_bool_decide; [done|]. cbn. set_solver. Qed.

(** The window is rebuilt from every acceptance in the log. *)
Lemma seed_records_spec clock now rs s dd : Forall applied_fits rs -> 0 <= s -> s + zlen rs <= U64_MAX ->
  exists dd', seed_records clock now (map raw (logs s rs)) dd = inl dd' /\ (forall k, k ∈ dd_seen dd -> k ∈ dd_seen dd') /\
    forall rec, In (TrAccepted rec) rs -> sat_u64 (now - wa_ts_ns rec) < DEDUP_WINDOW -> in_key (accepted_order rec) ∈ dd_seen dd'.
Proof.
  intros Hf. revert s dd. induction Hf as [|r rs Hr Hf IH]; intros s dd Hs Hm; [exists dd; by split_and!|]. rewrite zlen_cons in Hm. pose proof (zlen_nonneg rs).
  assert (forall dd1, (forall k, k ∈ dd_seen dd -> k ∈ dd_seen dd1) ->
    (forall rec, r = TrAccepted rec -> sat_u64 (now - wa_ts_ns rec) < DEDUP_WINDOW -> in_key (accepted_order rec) ∈ dd_seen dd1) ->
    exists dd', seed_records clock now (map raw (logs (s + 1) rs)) dd1 = inl dd' /\ (forall k, k ∈ dd_seen dd -> k ∈ dd_seen dd') /\
      forall rec, In (TrAccepted rec) (r :: rs) -> sat_u64 (now - wa_ts_ns rec) < DEDUP_WINDOW -> in_key (accepted_order rec) ∈ dd_seen dd') as Hgo.
  { intros dd1 Hkeep Hnew. destruct (IH (s + 1) dd1) as (dd' & E & Hk & Hall); [lia..|]. exists dd'. split; [done|]. split; [by eauto|].
    intros rec [->|Hin] Ha; [apply Hk; by apply Hnew|by apply Hall]. }
  cbn [logs map seed_records]. destruct r; try (apply Hgo; [done|by intros]).
  change (wh_record_type (raw_header (raw (record_log (TrAccepted r) s)))) with RECORD_ORDER_ACCEPTED. cbn [negb Z.eqb Pos.eqb RECORD_ORDER_ACCEPTED record_log].
  rewrite decode_raw by (done || width_lia).
  replace (wa_ts_ns (set_seq s r)) with (wa_ts_ns r) by (by destruct r).
  replace (wa_user_id (set_seq s r), wa_order_id_hi (set_seq s r), wa_order_id_lo (set_seq s r)) with (in_key (accepted_order r)) by (by destruct r).
  apply Hgo.
  - intros k. apply seed_keeps.
  - intros rec [= <-] Ha. unfold seed. replace (_ >=? DEDUP_WINDOW) with false by lia. case_bool_decide; [done|]. cbn. set_solver.
Qed.

Lemma take_drop_take {A} n k (l : list A) : (n <= k)%nat -> take k l = take n l ++ drop n (take k l).
Proof. intros Hnk. rewrite <- (take_drop n (take k l)) at 1. by rewrite take_take, Nat.min_l. Qed.

Section Crash.
Context (cfg : BookConfig) (m0 : Market) (first : Z) (rs : list TileRecord) (boot : BootConfig) (file : CheckpointFile).
Context (b : Orderbook) (index : gmap OrderKey Z) (q : Z) (n : nat).

(** A base that covers the first [n] records. *)
Record based : Prop := {
  ba_base : recover_base boot file = Ok (inl (b, index, q, first + Z.of_nat n));
  ba_served : serves cfg b index (effects cfg (take n rs) m0);
  ba_fits : replay_fits (drop n rs) b index = true;
  ba_records : Forall applied_fits rs;
  ba_first : 1 <= first;
  ba_behind : (n <= length rs)%nat;
}.

(** Recovery from a disk whose log holds the first [k] records. *)
Lemma recover_reads d k clock now_unix_ns :
  based -> (k <= length rs)%nat -> first + zlen rs <= U64_MAX -> consecutive first (logs first (take k rs)) ->
  (forall t, t = 0 \/ first <= t -> read_from t d = Ok (map raw (wanted t (logs first (take k rs))), None)) ->
  exists R, recover boot file clock now_unix_ns d = Ok (inl R) /\
    serves cfg (rc_book R) (rc_order_index R) (effects cfg (take (Nat.max n k) rs) m0) /\ rc_next_seq R = first + Z.of_nat (Nat.max n k) /\
    forall rec, In (TrAccepted rec) (take k rs) -> sat_u64 (now_unix_ns - wa_ts_ns rec) < DEDUP_WINDOW ->
      in_key (accepted_order rec) ∈ dd_seen (rc_dedup R).
Proof.
  intros [Hb Hs Hf Ha H1 Hn] Hk Hm Hc Hr. unfold zlen in Hm.
  set (more := drop n (take k rs)). assert (Z.of_nat (length more) = Z.of_nat (Nat.max n k) - Z.of_nat n) as Hlm.
  { unfold more. rewrite length_drop, length_take. lia. }
  destruct (replay_records_spec cfg more (first + Z.of_nat n) b index (sat_u64 (first + Z.of_nat n - 1)) (effects cfg (take n rs) m0) Hs)
    as (b' & index' & E & Hs').
  { unfold more. apply (replay_fits_prefix _ (drop (Nat.max n k) rs)). rewrite <- Hf. f_equal.
    destruct (decide (n <= k)%nat); [rewrite Nat.max_r by lia|rewrite Nat.max_l by lia].
    - rewrite <- (take_drop k rs) at 3. rewrite drop_app_le; [done|]. rewrite length_take. lia.
    - rewrite drop_ge; [done|]. rewrite length_take. lia. }
  { unfold more. by apply Forall_drop, Forall_take. }
  { lia. }
  { unfold zlen. lia. }
  { rewrite sat_u64_id by width_lia. lia. }
  destruct (seed_records_spec clock now_unix_ns (take k rs) first (DedupTracker_new clock)) as (dd' & Ed & _ & Hd); [by apply Forall_take|lia| |].
  { unfold zlen. rewrite length_take. lia. }
  unfold recover. rewrite Hb. cbn [mbind Res_bind]. unfold replay_wal_after_snapshot. rewrite Hr by (right; lia). cbn [mbind Res_bind].
  rewrite (wanted_drop first _ n Hc), <- logs_drop. fold more. rewrite E. cbn [mbind Res_bind].
  unfold rebuild_dedup_window. rewrite Hr by (by left). cbn [mbind Res_bind].
  rewrite (run_above first _ 0 Hc) by lia. rewrite Ed. cbn [mbind Res_bind ry_book ry_index ry_last_seq].
  eexists. split; [reflexivity|]. cbn [rc_book rc_order_index rc_next_seq rc_dedup]. split; [|split; [|done]].
  - rewrite <- effects_app in Hs'. replace (take (Nat.max n k) rs) with (take n rs ++ more); [done|]. unfold more.
    destruct (decide (n <= k)%nat); [rewrite Nat.max_r by lia; symmetry; by apply take_drop_take|].
    rewrite Nat.max_l, drop_ge, app_nil_r by (rewrite ?length_take; lia). done.
  - assert ((if bool_decide (more = []) then sat_u64 (first + Z.of_nat n - 1) else first + Z.of_nat n + zlen more - 1) + 1 = first + Z.of_nat (Nat.max n k)) as ->.
    { unfold zlen. rewrite Hlm, sat_u64_id by width_lia. case_bool_decide as Em; [rewrite Em in Hlm; cbn in Hlm; lia|lia]. }
    unfold wrap_u64. rewrite Z.mod_small; [done|]. width_lia.
Qed.

Lemma crash_recovery_aux D w d now max size clock now_unix_ns :
  wal_session first (logs first rs) D w d -> recent now -> ww_file_size w <= size -> based ->
  exists w' d' k R, WalWriter_new now max (crashed size d) = Ok (inl w', d') /\ (k <= length rs)%nat /\ D `prefix_of` logs first (take k rs) /\
    recover boot file clock now_unix_ns d' = Ok (inl R) /\
    serves cfg (rc_book R) (rc_order_index R) (effects cfg (take (Nat.max n k) rs) m0) /\ rc_next_seq R = first + Z.of_nat (Nat.max n k) /\
    forall rec, In (TrAccepted rec) (take k rs) -> sat_u64 (now_unix_ns - wa_ts_ns rec) < DEDUP_WINDOW ->
      in_key (accepted_order rec) ∈ dd_seen (rc_dedup R).
Proof.
  intros Hw Hn Hs Hb. destruct (session_base _ _ _ _ _ Hw) as [_ Hm]. rewrite logs_length in Hm.
  destruct (crash_reads _ _ _ _ _ now max size Hw Hn Hs) as (w' & d' & k & E & Hk & HD & Hc & Hr).
  destruct (recover_reads d' k clock now_unix_ns Hb Hk Hm Hc Hr) as (R & ER & HR). by exists w', d', k, R.
Qed.

(** C6: A crash loses requests from the end of the log only.  Whatever part
    of its unsynced tail the crash leaves, reopening the log and recovering
    from an empty book or from a checkpoint of a live tile succeeds, and the
    recovered book serves the market after the first [k] records, all
    acknowledged ones among them; the next record gets the number after those
    [k]; every order still on the log keeps its id in the dedup window for its
    hour.  A checkpoint may cover more than the log: then the book is the
    checkpoint's, and the window knows the orders of the log only. *)
Theorem crash_recovery D w d now max size clock now_unix_ns :
  wal_session first (logs first rs) D w d -> recent now -> ww_file_size w <= size -> based ->
  exists w' d' k R, WalWriter_new now max (crashed size d) = Ok (inl w', d') /\ (k <= length rs)%nat /\ D `prefix_of` logs first (take k rs) /\
    recover boot file clock now_unix_ns d' = Ok (inl R) /\
    serves cfg (rc_book R) (rc_order_index R) (effects cfg (take (Nat.max n k) rs) m0) /\ rc_next_seq R = first + Z.of_nat (Nat.max n k) /\
    forall rec, In (TrAccepted rec) (take k rs) -> sat_u64 (now_unix_ns - wa_ts_ns rec) < DEDUP_WINDOW ->
      in_key (accepted_order rec) ∈ dd_seen (rc_dedup R).
Proof. apply crash_recovery_aux. Qed.

End Crash.

End Records.
