(* ===== verification/TileRun.v ===== *)
(** * TileRun: the life of a tile

    [tile_session] strings together what the loop does to a tile: orders,
    cancels, flushes, user maintenance, heartbeats and the window's clock.  Its
    log is always the record of its market ([tile_session_log]), and what was
    flushed survives a crash while the log is whole
    ([flushed_market_survives]).  Every reading of the clock lies within one
    stretch of four hours ([Window]), so that no segment is pruned. *)

From S2P Require Import Prelude Hash Types Slab Occupancy Compression Users Order Book Links BookInv Matching MatchInv.
From S2P Require Import FillQueue SlotMatch Engine Feasible Process Recenter Migration Snapshot Guarantees Ranking Market Priority MarketRef MarketClaims Session.
From S2P Require Import Frames Messages Wal WalRead WalInv WalClaims Cast CastSend Dedup Tile Stall TileLog TileInv TileClaims Replay ReplayClaims.

(** ** Where resting orders come from *)

Lemma trade_through_in sd limit room rem q r :
  In r (trade_through rs_price rs_qty rs_rest sd limit room rem q).2 -> exists r0, In r0 q /\ rs_key r = rs_key r0 /\ rs_tif r = rs_tif r0.
Proof.
  revert room rem. induction q as [|x q IH]; intros room rem; [done|]. rewrite trade_through_cons. case_if; cbn [snd].
  - rewrite in_app_iff. intros [Hr|Hr].
    + exists x. unfold rs_rest in Hr. case_if_in Hr; [done|]. destruct Hr as [<-|[]]. by split; [left|].
    + destruct (IH _ _ Hr) as (r0 & H0 & ?). exists r0. by split; [right|].
  - intros [<-|Hr]; [exists x; by split; [left|]|]. exists r. by split; [right|].
Qed.

Lemma submit_in tk lot m o r :
  In r (mk_bids (submit tk lot m o).1 ++ mk_asks (submit tk lot m o).1) ->
  (exists r0, In r0 (mk_bids m ++ mk_asks m) /\ rs_key r = rs_key r0 /\ rs_tif r = rs_tif r0) \/ rs_key r = in_key o /\ rs_tif r = tif_u8 (in_tif o).
Proof.
  assert (forall r, In r (mk_bids m ++ mk_asks m) -> (exists r0, In r0 (mk_bids m ++ mk_asks m) /\ rs_key r = rs_key r0 /\ rs_tif r = rs_tif r0) \/
    rs_key r = in_key o /\ rs_tif r = tif_u8 (in_tif o)) as Hold by (intros x Hx; left; by exists x).
  unfold submit. destruct (ruling tk lot m o); try apply Hold.
  pose proof (trade_through_in (in_side o) (in_price o) MAX_MAKERS_PER_ORDER (portion m o) (mk_side (opposite (in_side o)) m)) as Ht.
  destruct (trade_through _ _ _ _ _ _ _ _) as [fs k]. cbn [snd fst] in *.
  assert (forall r, In r k -> (exists r0, In r0 (mk_bids m ++ mk_asks m) /\ rs_key r = rs_key r0 /\ rs_tif r = rs_tif r0)) as Hk.
  { intros x Hx. destruct (Ht x Hx) as (r0 & H0 & ?). exists r0. split; [|done]. apply in_app_iff. destruct (in_side o); cbn in H0; auto. }
  assert (forall sd r, In r (mk_side sd (with_nets (nets_after m o fs) (with_side (opposite (in_side o)) k m))) ->
    (exists r0, In r0 (mk_bids m ++ mk_asks m) /\ rs_key r = rs_key r0 /\ rs_tif r = rs_tif r0)) as Hm1.
  { intros sd x Hx. destruct (in_side o), sd; cbn in Hx; first [by apply Hk|exists x; split; [apply in_app_iff; auto|done]]. }
  case_if.
  - assert (In r (rank rs_price (in_side o) (residual o (portion m o - traded fs))
      (mk_side (in_side o) (with_nets (nets_after m o fs) (with_side (opposite (in_side o)) k m)))) \/
      In r (mk_side (opposite (in_side o)) (with_nets (nets_after m o fs) (with_side (opposite (in_side o)) k m))) ->
      (exists r0, In r0 (mk_bids m ++ mk_asks m) /\ rs_key r = rs_key r0 /\ rs_tif r = rs_tif r0) \/
        rs_key r = in_key o /\ rs_tif r = tif_u8 (in_tif o)) as Hgo.
    { rewrite rank_in. intros [[->|Hr]|Hr]; [by right|left; by eapply Hm1|left; by eapply Hm1]. }
    rewrite in_app_iff. intros Hr. apply Hgo. destruct (in_side o); cbn in *; tauto.
  - rewrite in_app_iff. intros [Hr|Hr]; left; [by apply (Hm1 Buy)|by apply (Hm1 Sell)].
Qed.

(** Keys and times in force that fit their wire fields. *)
Definition fitting (m : Market) : Prop :=
  forall r, In r (mk_bids m ++ mk_asks m) ->
    in_u32 (rs_user r) /\ in_u64 (rs_oid_hi r) /\ in_u64 (rs_oid_lo r) /\ 0 <= rs_tif r <= U8_MAX.

#[global] Instance fitting_proper : Proper ((≡) ==> iff) fitting.
Proof. intros m m' (H1 & H2 & _). unfold fitting. by rewrite H1, H2. Qed.

Lemma fitting_submit tk lot m o : fitting m -> in_u32 (in_user o) -> in_u64 (in_oid_hi o) -> in_u64 (in_oid_lo o) -> fitting (submit tk lot m o).1.
Proof.
  intros Hf Hu Hh Hl r [(r0 & Hr & Ek & Et)|[Ek Et]]%submit_in.
  - injection Ek as -> -> ->. rewrite Et. by apply Hf.
  - injection Ek as -> -> ->. rewrite Et. split_and!; try done; by destruct (in_tif o).
Qed.

Lemma fitting_withdraw k m : fitting m -> fitting (withdraw k m).
Proof.
  intros Hf r Hr. apply Hf. cbn in Hr. unfold without in Hr. rewrite in_app_iff, !filter_In in *. tauto.
Qed.

Lemma unused_dec k m : unused k m \/ ~ unused k m.
Proof.
  destruct (Forall_dec (fun r => rs_key r <> k) (mk_bids m ++ mk_asks m)) as [Hf|Hf]; [left|right].
  - intros r Hr. rewrite Forall_forall in Hf. by apply Hf, list_elem_of_In.
  - intros Hu. apply Hf, Forall_forall. intros r Hr. by apply Hu, list_elem_of_In.
Qed.

(** ** The loop *)

Section Run.
Context `{Crc32c} `{HashIter} `{Win : Window}.

Definition with_book (b : Orderbook) (t : Tile) : Tile := mkTile b (tl_fanout t) (tl_index t) (tl_dedup t).
Definition with_fanout (f : Fanout) (t : Tile) : Tile := mkTile (tl_book t) f (tl_index t) (tl_dedup t).
Definition with_dedup (d : DedupTracker) (t : Tile) : Tile := mkTile (tl_book t) (tl_fanout t) (tl_index t) d.

(** Room in the log for one more request, by the writer's counter. *)
Definition tile_room (first : Z) (t : Tile) : Prop :=
  let next := ww_next_seq (wd_writer (fo_world (tl_fanout t))) in
  next + BURST <= U64_MAX /\ (next - first + BURST) * Z.of_nat FRAMED_WIRE_BYTES <= I64_MAX.

(** What the loop does to a tile, with the records and the market so far. *)
Inductive tile_session (cfg : BookConfig) (symbol_id first : Z) (m0 : Market) : list TileRecord -> Market -> Tile -> Prop :=
| ts_boot t :
    online first [] [] (tl_fanout t) -> serves cfg (tl_book t) (tl_index t) m0 -> fitting m0 -> tile_session cfg symbol_id first m0 [] m0 t
| ts_order rs m t st msg t' :
    let dup := (check_and_insert (msg_key msg) (tl_dedup t)).1 in
    let m' := (submit (bc_tick_size cfg) (bc_lot_size cfg) m (to_incoming msg)).1 in
    tile_session cfg symbol_id first m0 rs m t -> tile_room first t -> record_fits msg -> in_u64 (st_record st) ->
    (dup = false -> admits (tl_book t) (to_incoming msg) = true /\ unused (msg_key msg) m /\ recentrable (bc_tick_size cfg) m') ->
    process_order symbol_id st msg t = Ok t' ->
    tile_session cfg symbol_id first m0 (rs ++ order_records symbol_id st msg t) (if dup then m else m') t'
| ts_cancel rs m t ts_ns request t' :
    tile_session cfg symbol_id first m0 rs m t -> tile_room first t -> record_fits request -> in_u64 ts_ns ->
    process_cancel symbol_id ts_ns request t = Ok t' ->
    tile_session cfg symbol_id first m0 (rs ++ cancel_records symbol_id ts_ns request t) (withdraw (cancel_key request) m) t'
| ts_flush rs m t now last due last' s' :
    tile_session cfg symbol_id first m0 rs m t -> recent now -> flush_if_due now last (fo_world (tl_fanout t)) = Ok (due, last', s') ->
    tile_session cfg symbol_id first m0 rs m (with_fanout (fo_with_world s' (tl_fanout t)) t)
| ts_tick rs m t now :
    tile_session cfg symbol_id first m0 rs m t -> recent now ->
    tile_session cfg symbol_id first m0 rs m
      (with_fanout (fo_at now (fo_with_peers (peer_tick now (fo_cmp (tl_fanout t))) (peer_tick now (fo_mkt (tl_fanout t))) (tl_fanout t))) t)
| ts_users rs m t now freed b' :
    tile_session cfg symbol_id first m0 rs m t -> 0 <= maintenance_cursor (users (tl_book t)) -> maintain_users (tl_book t) now false = Ok (freed, b') ->
    tile_session cfg symbol_id first m0 rs m (with_book b' t)
| ts_window rs m t op :
    tile_session cfg symbol_id first m0 rs m t -> tile_session cfg symbol_id first m0 rs m (with_dedup (dedup_step op (tl_dedup t)) t).

(** The state of a running tile. *)
Record running (cfg : BookConfig) (first : Z) (m0 : Market) (rs : list TileRecord) (m : Market) (t : Tile) : Prop := {
  rn_online : exists D, online first (logs first rs) D (tl_fanout t);
  rn_serves : serves cfg (tl_book t) (tl_index t) m;
  rn_effects : m ≡ effects cfg rs m0;
  rn_applied : Forall applied_fits rs;
  rn_fitting : fitting m;
}.

Lemma running_roomy cfg first m0 rs m t D : running cfg first m0 rs m t -> online first (logs first rs) D (tl_fanout t) -> tile_room first t ->
  roomy first (logs first rs).
Proof.
  intros _ Ho [H1 H2]. rewrite (on_next _ _ _ _ Ho) in *. rewrite logs_length in *. split; [by rewrite logs_length|].
  pose proof (logs_wires first rs). lia.
Qed.

Lemma handled_running cfg first m0 rs rs' m m' t t' D dedup' :
  running cfg first m0 rs m t -> m' ≡ effects cfg rs' m -> Forall applied_fits rs' -> fitting m' ->
  handled cfg first (logs first rs) D (logs (first + zlen (logs first rs)) rs') (tl_fanout t) m' dedup' (Ok t') ->
  running cfg first m0 (rs ++ rs') m' t'.
Proof.
  intros [_ _ He Ha _] Hm Ha' Hf [(t1 & D' & [= <-] & Hem & Hs & _)|[? _]]; [|done].
  split; [|done| |by apply Forall_app|done].
  - exists D'. pose proof (em_online _ _ _ _ _ _ _ Hem) as Ho. by rewrite logs_app, <- (logs_length first rs).
  - rewrite effects_app, Hm. by apply effects_proper.
Qed.

(** ** Its records fit their wire fields *)

Ltac wire_fits := cbn in *; width_unfold;
  change (2 ^ (8 * Z.of_nat 1)) with 256 in *; change (2 ^ (8 * Z.of_nat 4)) with 4294967296 in *;
  change (2 ^ (8 * Z.of_nat 8)) with 18446744073709551616 in *; change (2 ^ (8 * Z.of_nat 8 - 1)) with 9223372036854775808 in *;
  repeat match goal with |- _ /\ _ => split end; try done; try lia.

Lemma accepted_fits symbol_id ts_ns (msg : OrderMessage) :
  record_fits msg -> in_u32 symbol_id -> in_u64 ts_ns -> applied_fits (TrAccepted (accepted_record symbol_id ts_ns msg)).
Proof. intros Hf Hs Ht. destruct msg. cbn in Hf. decompose [and] Hf. unfold accepted_record. wire_fits. Qed.

Lemma cancelled_fits symbol_id ts_ns r m :
  fitting m -> In r (mk_bids m ++ mk_asks m) -> in_i64 (rs_qty r) -> in_u32 symbol_id -> in_u64 ts_ns ->
  Forall applied_fits (cancelled_records r symbol_id ts_ns).
Proof.
  intros Hf Hr Hq Hs Ht. destruct (Hf r Hr) as (Hu & Hh & Hl & Htif). constructor; [|by constructor].
  destruct r as [px qty user red tif orig hi lo]. destruct red; wire_fits.
Qed.

Lemma inert_fits rs : Forall inert rs -> Forall applied_fits rs.
Proof. intros Hi. eapply Forall_impl; [exact Hi|]. by intros []. Qed.

Lemma served_qty cfg b index m r : serves cfg b index m -> In r (mk_bids m ++ mk_asks m) -> in_i64 (rs_qty r).
Proof.
  intros (mid & A & fl & Hh) Hr. pose proof Hh as [Hc _ He _ _ _ (HB & HS & _)]. pose proof (bk_core _ _ _ _ _ (en_book _ _ _ _ _ He)) as Hcore.
  rewrite <- HB, <- HS in Hr. cbn in Hr. rewrite <- map_app in Hr. apply in_map_iff in Hr as (e & <- & He').
  assert (exists t, In e (A t)) as [t Ht] by (apply in_app_iff in He' as [He'|He']; by apply (in_priority mid _ Hc _ A fl b) in He' as [? _]).
  pose proof (lk_qty _ _ _ (c_links _ _ _ _ _ Hcore) t e Ht). pose proof (lk_sum _ _ _ (c_links _ _ _ _ _ Hcore) t) as Hsum.
  apply in_split in Ht as (q1 & q2 & Et). rewrite Et, zsum_app, zsum_cons in Hsum.
  assert (0 <= zsum erem q1 /\ 0 <= zsum erem q2).
  { split; apply zsum_nonneg; intros x Hx; apply (lk_qty _ _ _ (c_links _ _ _ _ _ Hcore) t); rewrite Et; apply in_app_iff; simpl; auto. }
  change (rs_qty (content e)) with (erem e). width_lia.
Qed.

(** ** Each step keeps the tile running *)

Lemma order_running cfg symbol_id first m0 rs m t st msg t' :
  let dup := (check_and_insert (msg_key msg) (tl_dedup t)).1 in
  let m' := (submit (bc_tick_size cfg) (bc_lot_size cfg) m (to_incoming msg)).1 in
  running cfg first m0 rs m t -> in_u32 symbol_id -> tile_room first t -> record_fits msg -> in_u64 (st_record st) ->
  (dup = false -> admits (tl_book t) (to_incoming msg) = true /\ unused (msg_key msg) m /\ recentrable (bc_tick_size cfg) m') ->
  process_order symbol_id st msg t = Ok t' ->
  running cfg first m0 (rs ++ order_records symbol_id st msg t) (if dup then m else m') t'.
Proof.
  intros dup m' Hr Hsym Hroom Hf Hst Hadm E. pose proof Hr as [[D Ho] Hs _ _ Hfit]. pose proof (running_roomy _ _ _ _ _ _ _ Hr Ho Hroom) as Hry.
  unfold dup in *. unfold order_records. destruct (check_and_insert (msg_key msg) (tl_dedup t)) as [[] dedup'] eqn:Ed; cbn [fst] in *.
  - eapply handled_running; [exact Hr|done|by constructor|done|]. rewrite <- E. by apply duplicate_handled.
  - destruct (Hadm eq_refl) as (Ha & Hu & Hrc).
    destruct (order_handled cfg symbol_id st msg t first (logs first rs) D m dedup' Ho Hry Hs Ed Ha Hu Hrc) as (o' & b' & rs' & Ep & Er & Hin & Hh).
    rewrite Ep. cbn [mbind Res_bind]. rewrite Er. rewrite E in Hh. eapply handled_running; [exact Hr| | | |exact Hh].
    + change (effects cfg (?x :: rs') m) with (effects cfg rs' (effect cfg m x)). by rewrite effects_inert.
    + constructor; [by apply accepted_fits|by apply inert_fits].
    + destruct msg. cbn in Hf. decompose [and] Hf. apply fitting_submit; [done|wire_fits..].
Qed.

Lemma cancel_running cfg symbol_id first m0 rs m t ts_ns request t' :
  running cfg first m0 rs m t -> in_u32 symbol_id -> tile_room first t -> in_u64 ts_ns ->
  process_cancel symbol_id ts_ns request t = Ok t' ->
  running cfg first m0 (rs ++ cancel_records symbol_id ts_ns request t) (withdraw (cancel_key request) m) t'.
Proof.
  intros Hr Hsym Hroom Hts E. pose proof Hr as [[D Ho] Hs He Ha Hfit]. pose proof (running_roomy _ _ _ _ _ _ _ Hr Ho Hroom) as Hry.
  destruct (unused_dec (cancel_key request) m) as [Hu|Hu].
  - destruct (cancel_miss cfg symbol_id ts_ns request t m Hs Hu) as [Em Er]. rewrite Er, app_nil_r. rewrite Em in E. injection E as <-.
    split; [by exists D|by rewrite withdraw_unused|by rewrite withdraw_unused|done|by apply fitting_withdraw].
  - destruct (cancel_handled cfg symbol_id ts_ns request t first (logs first rs) D m Ho Hry Hs Hu) as (r & bbo & Hin & Ek & _ & Hi%silent_inert & Er & Hh).
    rewrite E in Hh. eapply handled_running; [exact Hr| | | |exact Hh].
    + rewrite Er. change (effects cfg (cancelled_records r symbol_id ts_ns ++ bbo) m) with (effects cfg bbo (withdraw (rs_key r) m)).
      by rewrite effects_inert, Ek.
    + rewrite Er. apply Forall_app. split; [|by apply inert_fits]. apply (cancelled_fits symbol_id ts_ns r m); try done. by eapply served_qty.
    + by apply fitting_withdraw.
Qed.

Lemma online_world first log D f s' D' : online first log D f ->
  wal_session first log D' (wd_writer s') (wd_disk s') -> counters (wd_writer s') = counters (wd_writer (fo_world f)) ->
  online first log D' (fo_with_world s' f).
Proof. intros [Hw Hn Hl Hc Hm Ht] Hw' Hn'. injection Hn' as Hn' Hl'. split; try done; cbn; [congruence|by rewrite Hl']. Qed.

Lemma flush_stalling_online first log D f now s' : online first log D f -> recent now -> flush_stalling now (fo_world f) = Ok s' ->
  online first log log (fo_with_world s' f).
Proof.
  intros Ho Hn E. eapply online_world; [exact Ho| |by eapply retry_counts].
  by eapply (retry_session first log D now _ (fo_world f) s' Hn (on_session _ _ _ _ Ho)).
Qed.

Lemma flush_if_due_online first log D f now last due last' s' : online first log D f -> recent now ->
  flush_if_due now last (fo_world f) = Ok (due, last', s') ->
  exists D', online first log D' (fo_with_world s' f) /\ (due = true -> D' = log).
Proof.
  intros Ho Hn E. unfold flush_if_due in E. case_if_in E.
  - apply bind_ok in E as (s1 & E & E1). injection E1 as <- _ <-. exists log. split; [by eapply flush_stalling_online|done].
  - injection E as <- _ <-. exists D. split; [|done]. destruct f. exact Ho.
Qed.

Lemma peer_tick_sending log now p : sending log (cp_sender p) -> sending log (cp_sender (peer_tick now p)).
Proof.
  intros Hs. unfold peer_tick. destruct (CastSender_tick _ _ _) as [[ok out] sender] eqn:E. cbn. by eapply snd_tick.
Qed.

Lemma maintained_serves cfg b index m now freed b' :
  serves cfg b index m -> 0 <= maintenance_cursor (users b) -> maintain_users b now false = Ok (freed, b') -> serves cfg b' index m.
Proof.
  intros (mid & A & fl & [Hc Hsp He Hg Hst Hx Hm]) Hcur E. unfold maintain_users in E. apply bind_ok in E as ([o u] & E & E'). injection E' as <- <-.
  destruct (maintain_engine mid _ A fl b now false He Hcur) as (r & b' & E' & He' & Hn). unfold maintain_users in E'. rewrite E in E'.
  cbn [mbind Res_bind] in E'. injection E' as _ <-. exists mid, A, fl. split; try done.
  rewrite <- Hm. split; [done|]. split; [done|exact Hn].
Qed.

Lemma session_running cfg symbol_id first m0 rs m t : in_u32 symbol_id ->
  tile_session cfg symbol_id first m0 rs m t -> running cfg first m0 rs m t.
Proof.
  intros Hsym. induction 1 as [t Ho Hs Hf|rs m t st msg t' dup m' _ IH Hroom Hf Hst Hadm E|rs m t ts_ns request t' _ IH Hroom Hf Hts E
    |rs m t now last due last' s' _ IH Hn E|rs m t now _ IH Hn|rs m t now freed b' _ IH Hc E|rs m t op _ IH].
  - split; [by exists []|done|done|done|done].
  - by apply order_running.
  - by apply cancel_running.
  - destruct IH as [[D Ho] Hs He Ha Hfit]. destruct (flush_if_due_online _ _ _ _ _ _ _ _ _ Ho Hn E) as (D' & Ho' & _).
    split; [by exists D'|done..].
  - destruct IH as [[D [Hw Hq Hl Hc Hm Ht]] Hs He Ha Hfit]. split; try done. exists D. split; try done; by apply peer_tick_sending.
  - destruct IH as [[D Ho] Hs He Ha Hfit]. split; try done; [by exists D|]. by eapply maintained_serves.
  - destruct IH as [[D Ho] Hs He Ha Hfit]. split; try done. by exists D.
Qed.

(** ** What the log of a tile is worth *)


(** C7: A flushed market survives while the log is whole.  For a tile that
    began with an empty log and whose clock, from then to the recovery, stays
    within the log's retention of four hours ([recent]; after that, rotated
    segments are deleted and a checkpoint is needed,
    [checkpointed_market_survives]): once a flush has returned, a crash before
    the next request loses nothing.  Recovery from the log alone rebuilds a
    book that serves the very same market, goes on with the next number and
    refuses every order of the last hour as a duplicate, provided that the book
    recovery starts from is sized for the orders of the log ([replay_fits]:
    each order it meets is one the book admits, under an id not resting). *)
Theorem flushed_market_survives cfg symbol_id m0 rs m t boot b now s' n later max clock now_unix_ns :
  in_u32 symbol_id -> tile_session cfg symbol_id 1 m0 rs m t -> recent now -> flush_stalling now (fo_world (tl_fanout t)) = Ok s' ->
  recover_base boot NoFile = Ok (inl (b, ∅, 0, 1)) -> serves cfg b ∅ m0 -> replay_fits rs b ∅ = true ->
  recent later -> ww_file_size (wd_writer s') <= n ->
  exists w' d' R, WalWriter_new later max (crashed n (wd_disk s')) = Ok (inl w', d') /\
    recover boot NoFile clock now_unix_ns d' = Ok (inl R) /\ serves cfg (rc_book R) (rc_order_index R) m /\ rc_next_seq R = 1 + zlen rs /\
    forall rec, In (TrAccepted rec) rs -> sat_u64 (now_unix_ns - wa_ts_ns rec) < DEDUP_WINDOW ->
      (check_and_insert (in_key (accepted_order rec)) (rc_dedup R)).1 = true.
Proof.
  intros Hsym Hses Hn E Hb Hs0 Hfits Hl Hsz. destruct (session_running cfg symbol_id 1 m0 rs m t Hsym Hses) as [[D Ho] Hs He Ha _].
  pose proof (flush_stalling_online _ _ _ _ _ _ Ho Hn E) as [Hw _ _ _ _ _]. cbn in Hw.
  destruct (crash_recovery_aux cfg m0 1 rs boot NoFile b ∅ 0 0 (logs 1 rs) (wd_writer s') (wd_disk s') later max n clock now_unix_ns Hw Hl Hsz)
    as (w' & d' & k & R & Enew & Hk & HD & ER & HsR & HqR & Hd).
  { split; try done; lia. }
  apply prefix_length in HD. pose proof (logs_length 1 rs) as L1. pose proof (logs_length 1 (take k rs)) as L2. unfold zlen in L1, L2. rewrite length_take in L2.
  rewrite Nat.max_0_l in *. assert (k = length rs) as -> by lia. rewrite firstn_all in *.
  exists w', d', R. split; [done|]. split; [done|]. split; [|split; [exact HqR|]].
  - by rewrite He.
  - intros rec Hrec Hage. unfold check_and_insert. rewrite bool_decide_eq_true_2; [done|]. by apply Hd.
Qed.

End Run.
