(* ===== verification/Shadow.v ===== *)
(** * Shadow: the market data's copy of a book [rsx-marketdata/src]

    [shadow.rs] whole, the types of [types.rs], and the book side of
    [apply.rs]: the records of the matching engine fold into a second order
    book, from which the public feed is derived. *)

From stdpp Require Import sorting.
From S2P Require Import Prelude Hash Types Slab Compression Users Order Book Matching Migration Frames Messages.

(** ** Feed messages [types.rs] *)

Record BboUpdate : Type := mkBboUpdate {
  bu_symbol_id : Z;
  bu_bid_px : Z;
  bu_bid_qty : Z;
  bu_bid_count : Z;
  bu_ask_px : Z;
  bu_ask_qty : Z;
  bu_ask_count : Z;
  bu_timestamp_ns : Z;
  bu_seq : Z;
}.

Record L2Level : Type := mkL2Level { ll_price : Z; ll_qty : Z; ll_count : Z }.
Record L2Snapshot : Type := mkL2Snapshot { ls_symbol_id : Z; ls_bids : list L2Level; ls_asks : list L2Level; ls_timestamp_ns : Z; ls_seq : Z }.
Record L2Delta : Type := mkL2Delta { ld_symbol_id : Z; ld_side : Z; ld_price : Z; ld_qty : Z; ld_count : Z; ld_timestamp_ns : Z; ld_seq : Z }.
Record TradeEvent : Type := mkTrade { te_symbol_id : Z; te_price : Z; te_qty : Z; te_taker_side : Z; te_timestamp_ns : Z; te_seq : Z }.

#[export] Instance BboUpdate_eq_dec : EqDecision BboUpdate.
Proof. solve_decision. Defined.

(** ** The shadow book [shadow.rs] *)

Record ShadowBook : Type := mkShadow {
  sb_book : Orderbook;
  sb_symbol_id : Z;
  sb_seq : Z;
  sb_timestamp_ns : Z;
  sb_order_map : gmap Z Z;
}.

Definition order_key (order_id_hi order_id_lo : Z) : Z := Z.lor (Z.shiftl order_id_hi 64) order_id_lo.

Definition ShadowBook_new (config : BookConfig) (capacity mid_price : Z) : Res ShadowBook :=
  b ← Orderbook_new config capacity mid_price; Ok (mkShadow b (bc_symbol_id config) 0 0 ∅).

Definition sb_with_book (b : Orderbook) (s : ShadowBook) : ShadowBook :=
  mkShadow b (sb_symbol_id s) (sb_seq s) (sb_timestamp_ns s) (sb_order_map s).
Definition sb_with_map (m : gmap Z Z) (s : ShadowBook) : ShadowBook :=
  mkShadow (sb_book s) (sb_symbol_id s) (sb_seq s) (sb_timestamp_ns s) m.

(** [self.seq += 1; self.timestamp_ns = timestamp_ns] *)
Definition advance (timestamp_ns : Z) (s : ShadowBook) : ShadowBook :=
  mkShadow (sb_book s) (sb_symbol_id s) (wrap_u64 (sb_seq s + 1)) timestamp_ns (sb_order_map s).

Definition side_of (side : Z) : Side := if side =? 0 then Buy else Sell.

Definition shadow_fill (maker_handle qty timestamp_ns : Z) (s : ShadowBook) : Res ShadowBook :=
  let s := advance timestamp_ns s in
  slot ← get (orders (sb_book s)) maker_handle;
  let new_qty := wrap_i64 (os_remaining slot - qty) in
  if new_qty <=? 0 then
    '(_, b) ← cancel_order_checked (sb_book s) maker_handle (os_user slot) (os_oid_hi slot) (os_oid_lo slot); Ok (sb_with_book b s)
  else
    '(_, b) ← modify_order_qty_down (sb_book s) maker_handle new_qty (os_user slot) (os_oid_hi slot) (os_oid_lo slot);
    Ok (sb_with_book b s).

Definition shadow_insert (price qty side user_id timestamp_ns : Z) (s : ShadowBook) : Res (Z * ShadowBook) :=
  let s := advance timestamp_ns s in
  '(handle, b) ← insert_resting (sb_book s) price qty (side_of side) 0 user_id false timestamp_ns 0 0;
  Ok (handle, sb_with_book b s).

Definition shadow_cancel (handle timestamp_ns : Z) (s : ShadowBook) : Res ShadowBook :=
  let s := advance timestamp_ns s in
  '(_, b) ← cancel_order (sb_book s) handle; Ok (sb_with_book b s).

Definition apply_insert_by_id (price qty side user_id timestamp_ns order_id_hi order_id_lo : Z) (s : ShadowBook) : Res (Z * ShadowBook) :=
  let s := advance timestamp_ns s in
  '(handle, b) ← insert_resting (sb_book s) price qty (side_of side) 0 user_id false timestamp_ns order_id_hi order_id_lo;
  Ok (handle, sb_with_map (<[order_key order_id_hi order_id_lo := handle]> (sb_order_map s)) (sb_with_book b s)).

Definition apply_cancel_by_order_id (order_id_hi order_id_lo timestamp_ns : Z) (s : ShadowBook) : Res (option (Z * Z) * ShadowBook) :=
  let key := order_key order_id_hi order_id_lo in
  match sb_order_map s !! key with
  | None => Ok (None, s)
  | Some handle =>
      let s := sb_with_map (delete key (sb_order_map s)) s in
      slot ← get (orders (sb_book s)) handle;
      let s := advance timestamp_ns s in
      '(_, b) ← cancel_order_checked (sb_book s) handle (os_user slot) order_id_hi order_id_lo;
      Ok (Some (os_side slot, os_price slot), sb_with_book b s)
  end.

Definition apply_fill_by_order_id (order_id_hi order_id_lo qty timestamp_ns : Z) (s : ShadowBook) : Res (option (Z * Z) * ShadowBook) :=
  let key := order_key order_id_hi order_id_lo in
  match sb_order_map s !! key with
  | None => Ok (None, s)
  | Some handle =>
      slot ← get (orders (sb_book s)) handle;
      let s := advance timestamp_ns s in
      let new_qty := wrap_i64 (os_remaining slot - qty) in
      if new_qty <=? 0 then
        '(_, b) ← cancel_order_checked (sb_book s) handle (os_user slot) order_id_hi order_id_lo;
        Ok (Some (os_side slot, os_price slot), sb_with_map (delete key (sb_order_map s)) (sb_with_book b s))
      else
        '(_, b) ← modify_order_qty_down (sb_book s) handle new_qty (os_user slot) order_id_hi order_id_lo;
        Ok (Some (os_side slot, os_price slot), sb_with_book b s)
  end.

Definition shadow_maybe_recenter (s : ShadowBook) : Res ShadowBook :=
  let b := sb_book s in
  if (best_bid_tick b =? NONE) || (best_ask_tick b =? NONE) then Ok s
  else
    let mid := Z.quot (wrap_i64 (best_bid_px b + best_ask_px b)) 2 in
    if should_recenter b mid then b ← recenter_now b mid; Ok (sb_with_book b s) else Ok s.

(** ** The feed derived from the book *)

Definition level_step (side price : Z) (level : L2Level) (order : OrderSlot) : L2Level :=
  if (os_side order =? side) && (os_price order =? price)
  then mkL2Level (ll_price level) (wrap_i64 (ll_qty level + os_remaining order)) (wrap_u32 (ll_count level + 1)) else level.

Definition level_at (s : ShadowBook) (tick side price : Z) : Res L2Level :=
  let level := mkL2Level price 0 0 in
  if tick =? NONE then Ok level
  else lvl ← vindex (active_levels (sb_book s)) tick; walk_level (orders (sb_book s)) (level_step side price) (lv_head lvl) level.

Definition derive_bbo (s : ShadowBook) : Res (option BboUpdate) :=
  let b := sb_book s in
  if (best_bid_tick b =? NONE) && (best_ask_tick b =? NONE) then Ok None
  else
    bbo ← current_bbo b;
    bid ← level_at s (best_bid_tick b) (side_u8 Buy) (bbo_bid_px bbo);
    ask ← level_at s (best_ask_tick b) (side_u8 Sell) (bbo_ask_px bbo);
    Ok (Some (mkBboUpdate (sb_symbol_id s) (bbo_bid_px bbo) (bbo_bid_qty bbo) (ll_count bid) (bbo_ask_px bbo) (bbo_ask_qty bbo) (ll_count ask)
      (sb_timestamp_ns s) (sb_seq s))).

(** The entry of a price, made on first use. *)
Definition side_step (side : Side) (levels : gmap Z L2Level) (order : OrderSlot) : gmap Z L2Level :=
  if os_side order =? side_u8 side then
    let entry := default (mkL2Level (os_price order) 0 0) (levels !! os_price order) in
    <[os_price order := mkL2Level (ll_price entry) (wrap_i64 (ll_qty entry + os_remaining order)) (wrap_u32 (ll_count entry + 1))]> levels
  else levels.

Definition side_level (s : ShadowBook) (side : Side) (levels : gmap Z L2Level) (level : PriceLevel) : Res (gmap Z L2Level) :=
  let side_count := match side with Buy => lv_bid_count level | Sell => lv_ask_count level end in
  if side_count =? 0 then Ok levels else walk_level (orders (sb_book s)) (side_step side) (lv_head level) levels.

Definition side_levels `{HashIter} (s : ShadowBook) (side : Side) : Res (list L2Level) :=
  levels ← rfold (side_level s side) ∅ (active_levels (sb_book s)); Ok (map snd (iter_map levels)).

(** [sort_by_key] is a stable sort. *)
Definition cheaper (x y : L2Level) : Prop := ll_price x <= ll_price y.
Definition dearer (x y : L2Level) : Prop := ll_price y <= ll_price x.
#[export] Instance cheaper_dec : RelDecision cheaper := fun x y => Z_le_dec (ll_price x) (ll_price y).
#[export] Instance dearer_dec : RelDecision dearer := fun x y => Z_le_dec (ll_price y) (ll_price x).

Definition collect_levels_bid `{HashIter} (s : ShadowBook) (depth : nat) : Res (list L2Level) :=
  levels ← side_levels s Buy; Ok (take depth (merge_sort dearer levels)).
Definition collect_levels_ask `{HashIter} (s : ShadowBook) (depth : nat) : Res (list L2Level) :=
  levels ← side_levels s Sell; Ok (take depth (merge_sort cheaper levels)).

Definition derive_l2_snapshot `{HashIter} (s : ShadowBook) (depth : nat) : Res L2Snapshot :=
  bids ← collect_levels_bid s depth; asks ← collect_levels_ask s depth;
  Ok (mkL2Snapshot (sb_symbol_id s) bids asks (sb_timestamp_ns s) (sb_seq s)).

Definition derive_l2_delta (s : ShadowBook) (side price : Z) : Res L2Delta :=
  tick ← price_to_index (compression (sb_book s)) price;
  level ← level_at s tick side price;
  Ok (mkL2Delta (sb_symbol_id s) side price (ll_qty level) (ll_count level) (sb_timestamp_ns s) (sb_seq s)).

Definition make_trade (s : ShadowBook) (price qty taker_side timestamp_ns : Z) : TradeEvent :=
  mkTrade (sb_symbol_id s) price qty taker_side timestamp_ns (sb_seq s).

(** ** One record on the book [apply.rs]

    What [apply_insert], [apply_cancel] and [apply_fill] do to the book of
    the record's symbol, with the side and price that changed. *)

Definition insert_on_book (rec : OrderInsertedRecord) (s : ShadowBook) : Res (option (Z * Z) * ShadowBook) :=
  '(_, s) ← apply_insert_by_id (wn_price rec) (wn_qty rec) (wn_side rec) (wn_user_id rec) (wn_ts_ns rec) (wn_order_id_hi rec) (wn_order_id_lo rec) s;
  s ← shadow_maybe_recenter s;
  Ok (Some (wn_side rec, wn_price rec), s).

Definition cancel_on_shadow (rec : OrderCancelledRecord) (s : ShadowBook) : Res (option (Z * Z) * ShadowBook) :=
  apply_cancel_by_order_id (wc_order_id_hi rec) (wc_order_id_lo rec) (wc_ts_ns rec) s.

Definition fill_on_shadow (rec : FillRecord) (s : ShadowBook) : Res (option (Z * Z) * ShadowBook) :=
  apply_fill_by_order_id (wf_maker_order_id_hi rec) (wf_maker_order_id_lo rec) (wf_qty rec) (wf_ts_ns rec) s.
