(* ===== verification/Tape.v ===== *)
(** * Tape: what the records of an engine say of its market

    The market as the public records tell it: an insertion posts an order, a
    cancellation pulls one, a fill strikes its maker.  [tape_order] and
    [tape_cancel] prove that the records of every order and cancel fold to the
    engine's own market, up to what no record shows: reduce-only flags, times
    in force and positions. *)

From Stdlib Require Import Sorted.
From S2P Require Import Prelude Hash Types Slab Occupancy Compression Users Order Book Links BookInv Matching MatchInv.
From S2P Require Import FillQueue SlotMatch Engine Feasible Process Guarantees Ranking Market Priority MarketRef MarketClaims Session.
From S2P Require Import Frames Messages Wal WalInv Cast Dedup Tile TileLog TileInv TileClaims Replay ReplayClaims TileRun Shadow.

(** ** The tape *)

Definition OrderId : Type := (Z * Z)%type.
Definition rs_oid (r : Resting) : OrderId := (rs_oid_hi r, rs_oid_lo r).
Definition resting (m : Market) : list Resting := mk_bids m ++ mk_asks m.

(** What a fill of order [k] leaves of a resting order. *)
Definition struck (k : OrderId) (f : Z) (r : Resting) : list Resting :=
  if decide (rs_oid r = k) then (if rs_qty r - f <=? 0 then [] else [rs_with_qty (rs_qty r - f) r]) else [r].

Definition on_sides (g : list Resting -> list Resting) (m : Market) : Market := mkMarket (g (mk_bids m)) (g (mk_asks m)) (mk_net m).

Definition strike (k : OrderId) (f : Z) : Market -> Market := on_sides (flat_map (struck k f)).
Definition pull (k : OrderId) : Market -> Market := on_sides (List.filter (fun r => negb (bool_decide (rs_oid r = k)))).
Definition post (sd : Side) (r : Resting) (m : Market) : Market := with_side sd (rank rs_price sd r (mk_side sd m)) m.

Definition posted (r : OrderInsertedRecord) : Resting :=
  mkResting (wn_price r) (wn_qty r) (wn_user_id r) false 0 (wn_qty r) (wn_order_id_hi r) (wn_order_id_lo r).

Definition taped (m : Market) (rec : TileRecord) : Market :=
  match rec with
  | TrInserted r => post (side_of (wn_side r)) (posted r) m
  | TrCancelled r => pull (wc_order_id_hi r, wc_order_id_lo r) m
  | TrFill r => strike (wf_maker_order_id_hi r, wf_maker_order_id_lo r) (wf_qty r) m
  | _ => m
  end.

Definition tape (rs : list TileRecord) (m : Market) : Market := fold_left taped rs m.

(** What the tape shows of an order and of a market. *)
Definition shade (r : Resting) : Resting :=
  mkResting (rs_price r) (rs_qty r) (rs_user r) false 0 (rs_original r) (rs_oid_hi r) (rs_oid_lo r).
Definition shaded (m : Market) : Market := mkMarket (map shade (mk_bids m)) (map shade (mk_asks m)) (fun _ => 0).

(** No two resting orders share an id. *)
Definition apart (m : Market) : Prop := NoDup (map rs_oid (resting m)).

Definition accepted_oids (rs : list TileRecord) : list OrderId :=
  flat_map (fun rec => match rec with TrAccepted r => [(wa_order_id_hi r, wa_order_id_lo r)] | _ => [] end) rs.

(** ** Equivalence *)

#[global] Instance post_proper sd r : Proper ((≡) ==> (≡)) (post sd r).
Proof. intros m m' (H1 & H2 & H3). destruct sd; (split; [cbn; congruence|split; [cbn; congruence|done]]). Qed.

#[global] Instance taped_proper : Proper ((≡) ==> (=) ==> (≡)) taped.
Proof.
  intros m m' Hm rec _ <-. destruct rec; cbn [taped]; try done; [|by rewrite Hm|];
    destruct Hm as (H1 & H2 & H3); (split; [cbn; congruence|split; [cbn; congruence|done]]).
Qed.

#[global] Instance tape_proper rs : Proper ((≡) ==> (≡)) (tape rs).
Proof. induction rs as [|rec rs IH]; intros m m' Hm; [done|]. cbn. apply IH. by rewrite Hm. Qed.

#[global] Instance shaded_proper : Proper ((≡) ==> (≡)) shaded.
Proof. intros m m' (H1 & H2 & H3). unfold shaded. rewrite H1, H2. done. Qed.

#[global] Instance apart_proper : Proper ((≡) ==> iff) apart.
Proof. intros m m' (H1 & H2 & _). unfold apart, resting. by rewrite H1, H2. Qed.

Lemma tape_app rs rs' m : tape (rs ++ rs') m = tape rs' (tape rs m).
Proof. apply fold_left_app. Qed.

Lemma tape_silent rs m : Forall silent rs -> tape rs m = m.
Proof. intros Hs. revert m. induction Hs as [|rec rs Hr _ IH]; intros m; [done|]. cbn. rewrite IH. by destruct rec. Qed.

Lemma accepted_oids_app rs rs' : accepted_oids (rs ++ rs') = accepted_oids rs ++ accepted_oids rs'.
Proof. apply flat_map_app. Qed.

Lemma accepted_inert rs : Forall inert rs -> accepted_oids rs = [].
Proof. induction 1 as [|rec rs Hr _ IH]; [done|]. change (rec :: rs) with ([rec] ++ rs). rewrite accepted_oids_app, IH. by destruct rec. Qed.

Lemma shaded_oids m : map rs_oid (resting (shaded m)) = map rs_oid (resting m).
Proof. unfold resting. cbn. by rewrite <- map_app, map_map. Qed.

Lemma post_perm sd r m : resting (post sd r m) ≡ₚ r :: resting m.
Proof.
  unfold resting, post. destruct sd; cbn; rewrite rank_perm; [done|]. symmetry. apply Permutation_middle.
Qed.

(** ** A list of strikes *)

Lemma flat_map_compose {X Y Z : Type} (f : X -> list Y) (g : Y -> list Z) q : flat_map g (flat_map f q) = flat_map (fun x => flat_map g (f x)) q.
Proof. induction q as [|x q IH]; [done|]. cbn [flat_map]. by rewrite flat_map_app, IH. Qed.

Lemma fold_flat_map {X Y : Type} (g : Y -> X -> list X) (ys : list Y) (q : list X) :
  fold_left (fun q y => flat_map (g y) q) ys q = flat_map (fun x => fold_left (fun q y => flat_map (g y) q) ys [x]) q.
Proof.
  revert q. induction ys as [|y ys IH]; intros q; cbn [fold_left].
  - induction q as [|x q IHq]; [done|]. cbn [flat_map app]. by rewrite <- IHq.
  - rewrite IH, flat_map_compose. apply flat_map_ext. intros x. cbn [flat_map]. rewrite app_nil_r. symmetry. apply IH.
Qed.

Definition image (e : Entry) : Resting := shade (content e).
Definition entry_oid (e : Entry) : OrderId := rs_oid (content e).
Definition strikes (fs : list MFill) (q : list Resting) : list Resting := fold_left (fun q f => flat_map (struck (entry_oid f.1) f.2) q) fs q.

Lemma strikes_miss fs r : (forall f, In f fs -> entry_oid f.1 <> rs_oid r) -> strikes fs [r] = [r].
Proof.
  unfold strikes. induction fs as [|f fs IH]; intros Hn; [done|]. cbn [fold_left flat_map].
  assert (struck (entry_oid f.1) f.2 r = [r]) as ->; [|apply IH; intros g Hg; apply Hn; by right].
  unfold struck. rewrite decide_False; [done|]. intros E. apply (Hn f); [by left|done].
Qed.

(** The strikes leave of an order what the fills leave of its entry. *)
Lemma strikes_entry fs e :
  NoDup (hits fs) -> (forall f, In f fs -> 0 < f.2 <= erem f.1) -> (forall f, In f fs -> entry_oid f.1 = entry_oid e <-> f.1 = e) ->
  (forall f, In f fs -> f.1.1 = e.1 -> f.1 = e) -> strikes fs [image e] = map image (after fs e).
Proof.
  intros Hn Hp Ho Hh. destruct (after_cases fs e Hn) as [(f & Hf & Ef & ->)|[Hout ->]].
  - pose proof (Hh f Hf Ef) as Ee. apply in_split in Hf as (l1 & l2 & ->).
    assert (forall g, In g (l1 ++ l2) -> entry_oid g.1 <> entry_oid e) as Hmiss.
    { intros g Hg E. assert (In g (l1 ++ f :: l2)) as Hg' by (apply in_app_iff; apply in_app_iff in Hg; simpl; tauto).
      apply (Ho g Hg') in E. unfold hits in Hn. rewrite map_app in Hn. apply NoDup_app in Hn as (_ & H12 & Hn). cbn [map] in Hn.
      apply NoDup_cons in Hn as [Hn _]. rewrite list_elem_of_In in Hn. apply in_app_iff in Hg as [Hg|Hg].
      - apply (H12 g.1.1); rewrite list_elem_of_In; [by apply (in_map (fun m : MFill => m.1.1))|]. left. congruence.
      - apply Hn. replace f.1.1 with g.1.1 by congruence. by apply (in_map (fun m : MFill => m.1.1)). }
    unfold strikes. rewrite fold_left_app. cbn [fold_left]. change (fold_left _ l1 ?q) with (strikes l1 q).
    rewrite strikes_miss by (intros g Hg; apply (Hmiss g), in_app_iff; by left). cbn [flat_map]. rewrite app_nil_r.
    specialize (Hp f ltac:(apply in_app_iff; right; by left)). rewrite Ee in Hp. unfold struck, leftover.
    rewrite decide_True by (unfold entry_oid; by rewrite Ee). change (rs_qty (image e)) with (erem e).
    destruct (f.2 =? erem e) eqn:E; bool_to_prop.
    + replace (erem e - f.2 <=? 0) with true by lia. clear. induction l2 as [|g l2 IH]; [done|exact IH].
    + replace (erem e - f.2 <=? 0) with false by lia. change (fold_left _ l2 ?q) with (strikes l2 q). cbn [map].
      apply strikes_miss. intros g Hg. apply (Hmiss g), in_app_iff. by right.
  - apply strikes_miss. intros g Hg E. apply Hout. apply (Ho g Hg) in E. rewrite <- E. by apply (in_map (fun m : MFill => m.1.1)).
Qed.

Lemma strikes_queue fs q :
  NoDup (hits fs) -> (forall f, In f fs -> 0 < f.2 <= erem f.1) ->
  (forall f e, In f fs -> In e q -> (entry_oid f.1 = entry_oid e <-> f.1 = e) /\ (f.1.1 = e.1 -> f.1 = e)) ->
  strikes fs (map image q) = map image (flat_map (after fs) q).
Proof.
  intros Hn Hp Hq. unfold strikes. rewrite fold_flat_map. induction q as [|e q IH]; [done|]. cbn [map flat_map]. rewrite map_app, <- IH.
  - f_equal. apply strikes_entry; [done|done|..]; intros f Hf; by apply (Hq f e Hf (or_introl eq_refl)).
  - intros f x Hf Hx. apply Hq; [done|by right].
Qed.

(** ** The tape of a match *)

(** The tape, read off the events. *)
Definition event_taped (m : Market) (ev : Event) : Market :=
  match ev with
  | Fill _ _ _ _ _ _ qty _ maker_hi maker_lo _ _ _ => strike (maker_hi, maker_lo) qty m
  | OrderInserted _ user_id side price qty hi lo => post (side_of side) (mkResting price qty user_id false 0 qty hi lo) m
  | OrderCancelled _ _ _ hi lo => pull (hi, lo) m
  | _ => m
  end.

Lemma event_record_taped b symbol_id ts_ns hops ev r m : event_record b symbol_id ts_ns hops ev = Ok r -> taped m r = event_taped m ev.
Proof.
  destruct ev; cbn [event_record]; intros E; try (by injection E as <-).
  - apply bind_ok in E as ([ro tif] & _ & E). by injection E as <-.
  - apply bind_ok in E as ([ro tif] & _ & E). by injection E as <-.
  - destruct (done_status_and_reason reason). by injection E as <-.
Qed.

Lemma event_records_taped b symbol_id ts_ns hops evs rs m :
  event_records b symbol_id ts_ns hops evs = Ok rs -> tape rs m = fold_left event_taped evs m.
Proof.
  revert rs m. induction evs as [|ev evs IH]; intros rs m E; [by injection E as <-|].
  cbn [event_records] in E. apply bind_ok in E as (r & Er & E). apply bind_ok in E as (rs' & E' & E). injection E as <-.
  cbn. rewrite (event_record_taped _ _ _ _ _ _ m Er). by apply IH.
Qed.

Lemma fills_taped o fs m : fold_left event_taped (fill_events o fs) m = on_sides (strikes fs) m.
Proof.
  revert m. induction fs as [|f fs IH]; intros m; [by destruct m|]. unfold fill_events in *. cbn [flat_map]. rewrite fold_left_app, IH.
  unfold mf_events. destruct (f.2 =? _); done.
Qed.

Lemma bbo_taped bbo m : Forall is_bbo bbo -> fold_left event_taped bbo m = m.
Proof. intros Hb. revert m. induction Hb as [|ev bbo He _ IH]; intros m; [done|]. cbn. rewrite IH. by destruct ev. Qed.

Lemma map_inj_in {X Y} (f : X -> Y) l x y : NoDup (map f l) -> In x l -> In y l -> f x = f y -> x = y.
Proof.
  induction l as [|z l IH]; [done|]. cbn [map]. intros [Hz Hn]%NoDup_cons Hx Hy E. rewrite list_elem_of_In in Hz.
  destruct Hx as [->|Hx], Hy as [->|Hy]; [done|destruct Hz; rewrite E; by apply in_map|destruct Hz; rewrite <- E; by apply in_map|by apply IH].
Qed.

Lemma side_of_u8 sd : side_of (side_u8 sd) = sd.
Proof. by destruct sd. Qed.

Section Tape.
Variables (mid tk : Z).
Hypothesis Hcfg : cfg_ok mid tk.
Hypothesis Hspread : spread_ok mid tk.

Lemma entry_oid_inj A fl b t t' x y : core mid tk A fl b -> apart (market_of mid tk A b) ->
  In x (A t) -> In y (A t') -> entry_oid x = entry_oid y -> x = y.
Proof.
  intros Hc Ha Hx Hy. unfold apart, resting in Ha. cbn [market_of mk_bids mk_asks] in Ha. rewrite <- map_app, map_map in Ha.
  apply (map_inj_in _ _ _ _ Ha); apply in_app_iff; rewrite !(in_priority mid tk Hcfg _ A fl b) by done; unfold is_side.
  - destruct (lk_side _ _ _ (c_links _ _ _ _ _ Hc) t x Hx) as [->| ->]; [left|right]; eauto.
  - destruct (lk_side _ _ _ (c_links _ _ _ _ _ Hc) t' y Hy) as [->| ->]; [left|right]; eauto.
Qed.

Lemma terminal_taped o fs limited h m :
  event_taped m (terminal o fs limited h) =
    if bool_decide (rests o fs limited)
    then post (in_side o) (shade (residual o (in_remaining o - filled fs))) m else m.
Proof.
  unfold terminal, rests. case_bool_decide as Hr.
  - destruct Hr as (Hl & -> & Ht). replace (in_remaining o - filled fs >? 0) with true by lia. rewrite Ht. cbn. by rewrite side_of_u8.
  - destruct (_ >? 0) eqn:E; [|done]. destruct limited; [done|]. destruct (in_tif o) eqn:Et; [|done|done]. destruct Hr. split; [lia|done].
Qed.

(** The events of an execution tell the market it leaves. *)
Lemma executed_taped A fl b o fs A1 A' fl' b' limited h bbo :
  book_inv mid tk A fl b -> apart (market_of mid tk A b) -> executed mid tk (taken b o) A (set_events b []) fs A1 A' fl' b' limited h bbo ->
  fold_left event_taped (event_buf b') (shaded (market_of mid tk A b)) ≡ shaded (market_of mid tk A' b').
Proof.
  intros Hi Ha X. destruct (ex_match _ _ _ _ _ _ _ _ _ _ _ _ _ X) as (fl1 & b1 & M).
  pose proof (book_inv_events mid tk _ _ _ [] Hi) as Hi0. pose proof (bk_core _ _ _ _ _ Hi) as Hc.
  destruct (matched_after mid tk (taken b o) MAX_MAKERS_PER_ORDER A fl _ fs A1 fl1 b1 Hi0 M) as [Hn HA].
  assert (forall sd, strikes fs (map image (priority mid tk sd A)) = map image (priority mid tk sd A1)) as Hs.
  { intros sd. rewrite (priority_after mid tk fs sd A A1 HA). apply strikes_queue; [done| |].
    - by apply (consumes_pos _ _ _ (ra_consumes _ _ _ _ _ _ (ma_moved _ _ _ _ _ _ _ _ _ _ M))).
    - intros f e Hf He. destruct (ma_takes _ _ _ _ _ _ _ _ _ _ M f Hf) as (_ & t & Ht).
      apply (in_priority mid tk Hcfg sd A fl b) in He as [(t' & Ht') _]; [|done]. split; [split|].
      + by apply (entry_oid_inj A fl b t t').
      + by intros ->.
      + intros E. by apply (uniq_eq A t t' _ _ (core_uniq mid tk A fl b Hc)). }
  assert (Forall is_bbo bbo) as Hb.
  { by destruct (ex_bbo _ _ _ _ _ _ _ _ _ _ _ _ _ X) as [[_ ->]|(_ & bp & bq & ap & aq & -> & _)]; repeat constructor. }
  rewrite (ex_events _ _ _ _ _ _ _ _ _ _ _ _ _ X), fold_left_app, fills_taped. cbn [fold_left]. rewrite bbo_taped, terminal_taped by done.
  pose proof (fun sd => executed_priority mid tk A fl b o fs A1 A' fl' b' limited h bbo sd Hi X) as Hpr.
  assert (on_sides (strikes fs) (shaded (market_of mid tk A b)) = shaded (mkMarket (map content (priority mid tk Buy A1)) (map content (priority mid tk Sell A1)) (fun _ => 0))) as ->.
  { unfold on_sides, shaded. cbn. f_equal; rewrite !map_map; apply Hs. }
  change (in_remaining (taken b o)) with (fillable b o). change (in_side (taken b o)) with (in_side o). change (residual (taken b o)) with (residual o).
  set (r := residual o (fillable b o - filled fs)) in *.
  assert (forall sd q, rank rs_price sd (shade r) (map shade q) = map shade (rank rs_price sd r q)) as Hrk.
  { intros sd q. symmetry. by apply (map_rank rs_price rs_price). }
  pose proof (Hpr Buy) as HB. pose proof (Hpr Sell) as HS. clear Hpr.
  destruct (bool_decide (rests (taken b o) fs limited)); [|by split; [cbn; by rewrite HB, andb_false_r|split; [cbn; by rewrite HS, andb_false_r|]]].
  rewrite andb_true_r in HB, HS. unfold post, shaded. destruct (in_side o); cbn in HB, HS |- *; rewrite Hrk, HB, HS; by split.
Qed.

End Tape.

(** ** Orders and cancels *)

Lemma process_taped cfg mid A fl b index m o o' b' symbol_id ts_ns hops rs :
  hosted cfg mid A fl b index m -> admissible mid (bc_tick_size cfg) A fl b o -> apart m -> process_new_order b o = Ok (o', b') ->
  event_records b' symbol_id ts_ns hops (event_buf b') = Ok rs ->
  tape rs (shaded m) ≡ shaded (submit (bc_tick_size cfg) (bc_lot_size cfg) m o).1.
Proof.
  intros [Hc Hsp He Hg Hst Hx Hm] Had Hap E Er. set (tk := bc_tick_size cfg) in *.
  destruct (process_view mid tk Hc Hsp A fl b o He Had) as (fs & A' & fl' & o2 & b2 & P & V).
  assert (b2 = b') as -> by (pose proof (pr_run _ _ _ _ _ _ _ _ _ _ P) as E2; congruence).
  pose proof (view_market mid tk Hc A fl b o fs A' fl' o2 b' He Had V) as Hmk.
  assert (market_of mid tk A' b' ≡ (submit tk (bc_lot_size cfg) m o).1) as <-.
  { rewrite <- Hm, <- Hg. destruct (submit _ _ _ _). apply Hmk. }
  rewrite <- Hm in Hap |- *. rewrite (event_records_taped _ _ _ _ _ _ _ Er).
  destruct V as [(-> & -> & [(r & _ & ->)|[_ ->]])|(_ & -> & A1 & limited & h & bbo & X)]; [done|done|].
  by apply (executed_taped mid tk Hc A fl b o fs A1 A' fl' b' limited h bbo); [apply He| |].
Qed.

Lemma trade_oids sd limit room rem q :
  map rs_oid (trade_through rs_price rs_qty rs_rest sd limit room rem q).2 `sublist_of` map rs_oid q.
Proof.
  revert room rem. induction q as [|r q IH]; intros room rem; [done|]. rewrite trade_through_cons. case_if; [|done]. cbn [snd].
  rewrite map_app. unfold rs_rest. case_if; cbn [map app]; by constructor.
Qed.

Lemma submit_apart tk lot m o : apart m -> ~ In (in_oid_hi o, in_oid_lo o) (map rs_oid (resting m)) -> apart (submit tk lot m o).1.
Proof.
  intros Ha Hf. unfold submit. destruct (ruling tk lot m o); [done|done|].
  pose proof (trade_oids (in_side o) (in_price o) MAX_MAKERS_PER_ORDER (portion m o) (mk_side (opposite (in_side o)) m)) as Hsub.
  destruct (trade_through _ _ _ _ _ _ _ _) as [fs k]. cbn [snd fst] in *. set (left := portion m o - traded fs).
  assert (map rs_oid (resting (with_side (opposite (in_side o)) k m)) `sublist_of` map rs_oid (resting m)) as Hs1.
  { unfold resting. destruct (in_side o); cbn in *; rewrite !map_app; by apply sublist_app. }
  assert (apart (with_side (opposite (in_side o)) k m)) as Ha1 by (by eapply sublist_NoDup; [exact Ha|]).
  assert (~ In (in_oid_hi o, in_oid_lo o) (map rs_oid (resting (with_side (opposite (in_side o)) k m)))) as Hf1.
  { intros Hi. apply Hf. rewrite <- !list_elem_of_In in *. by eapply elem_of_sublist. }
  case_if; [|by destruct (in_side o)]. set (m1 := with_side (opposite (in_side o)) k m) in *.
  change (apart (post (in_side o) (residual o left) (with_nets (nets_after m o fs) m1))). unfold apart. rewrite post_perm. cbn [map].
  apply NoDup_cons. rewrite list_elem_of_In. assert (resting (with_nets (nets_after m o fs) m1) = resting m1) as -> by done. by split.
Qed.

Lemma submit_oids tk lot m o k : In k (map rs_oid (resting (submit tk lot m o).1)) -> k = (in_oid_hi o, in_oid_lo o) \/ In k (map rs_oid (resting m)).
Proof.
  intros (r & <- & Hr)%in_map_iff. destruct (submit_in tk lot m o r Hr) as [(r0 & H0 & E & _)|[E _]].
  - right. apply in_map_iff. exists r0. split; [|done]. unfold rs_key, rs_oid in *. congruence.
  - left. unfold rs_key, in_key, rs_oid in *. congruence.
Qed.

(** ** A session *)

Lemma pull_withdraw r m : apart m -> In r (resting m) -> pull (rs_oid r) (shaded m) = shaded (withdraw (rs_key r) m).
Proof.
  intros Ha Hr. assert (forall q, (forall x, In x q -> In x (resting m)) ->
    List.filter (fun x => negb (bool_decide (rs_oid x = rs_oid r))) (map shade q) = map shade (without (rs_key r) q)) as Hq.
  { induction q as [|x q IH]; intros Hin; [done|]. cbn [map List.filter]. unfold without in *. cbn [List.filter].
    rewrite IH by (intros y Hy; apply Hin; by right). change (rs_oid (shade x)) with (rs_oid x).
    destruct (decide (rs_oid x = rs_oid r)) as [E|E].
    - rewrite (map_inj_in rs_oid (resting m) x r Ha (Hin x (or_introl eq_refl)) Hr E). by rewrite !bool_decide_eq_true_2.
    - rewrite !bool_decide_eq_false_2; [done| |done]. intros Ek. apply E. unfold rs_key, rs_oid in *. congruence. }
  unfold pull, on_sides, withdraw, shaded. cbn. f_equal; apply Hq; intros x Hx; apply in_app_iff; auto.
Qed.

Lemma withdraw_oids k m : map rs_oid (resting (withdraw k m)) `sublist_of` map rs_oid (resting m).
Proof.
  unfold resting. cbn. assert (forall q, map rs_oid (without k q) `sublist_of` map rs_oid q) as Hq.
  { induction q as [|x q IH]; [done|]. unfold without in *. cbn [List.filter]. case_if; cbn [map]; by constructor. }
  rewrite !map_app. by apply sublist_app.
Qed.

Lemma withdraw_apart k m : apart m -> apart (withdraw k m).
Proof. intros Ha. eapply sublist_NoDup; [exact Ha|apply withdraw_oids]. Qed.

Section Session.
Context `{Crc32c} `{HashIter} `{Win : Window}.

Definition ids (m0 : Market) (rs : list TileRecord) : list OrderId := map rs_oid (resting m0) ++ accepted_oids rs.

(** What a new order and a cancel add to the tape. *)
Lemma order_taped cfg symbol_id m t st msg :
  serves cfg (tl_book t) (tl_index t) m -> apart m -> in_u32 symbol_id ->
  (check_and_insert (msg_key msg) (tl_dedup t)).1 = false -> admits (tl_book t) (to_incoming msg) = true -> unused (msg_key msg) m ->
  exists rs', order_records symbol_id st msg t = TrAccepted (accepted_record symbol_id (st_record st) msg) :: rs' /\ Forall inert rs' /\
    tape (order_records symbol_id st msg t) (shaded m) ≡ shaded (submit (bc_tick_size cfg) (bc_lot_size cfg) m (to_incoming msg)).1.
Proof.
  intros (mid & A & fl & Hh) Hap Hsym Ed Ha Hu.
  pose proof (admits_ok mid (bc_tick_size cfg) (ho_cfg _ _ _ _ _ _ _ Hh) A fl (tl_book t) _ (ho_engine _ _ _ _ _ _ _ Hh) Ha) as Had.
  destruct (order_hosted cfg mid A fl (tl_book t) (tl_index t) m _ Hh Had Hu) as (o' & b' & A' & fl' & Erun & _ & _ & Hrec & _).
  destruct (recordable_record b' symbol_id (st_publish st) (mkHops (om_timestamp_ns msg) (om_risk_in_ns msg) (st_me_in st) (st_match_done st)) _ Hrec)
    as (rs' & Hrs & Hin).
  exists rs'. unfold order_records. rewrite Ed, Erun. cbn [mbind Res_bind]. rewrite Hrs. split; [done|]. split; [done|].
  exact (process_taped cfg mid A fl (tl_book t) (tl_index t) m _ o' b' _ _ _ rs' Hh Had Hap Erun Hrs).
Qed.

Lemma cancel_taped cfg symbol_id first log D m t ts_ns request :
  online first log D (tl_fanout t) -> roomy first log -> serves cfg (tl_book t) (tl_index t) m -> apart m ->
  tape (cancel_records symbol_id ts_ns request t) (shaded m) ≡ shaded (withdraw (cancel_key request) m) /\
  accepted_oids (cancel_records symbol_id ts_ns request t) = [].
Proof.
  intros Ho Hr Hs Ha. destruct (unused_dec (cancel_key request) m) as [Hu|Hu].
  - destruct (cancel_miss cfg symbol_id ts_ns request t m Hs Hu) as [_ ->]. split; [|done]. cbn. by rewrite withdraw_unused.
  - destruct (cancel_handled cfg symbol_id ts_ns request t first log D m Ho Hr Hs Hu) as (r & bbo & Hin & Ek & _ & Hsil & -> & _).
    rewrite tape_app, (tape_silent bbo) by done. cbn [tape cancelled_records fold_left taped wc_order_id_hi wc_order_id_lo].
    change (rs_oid_hi r, rs_oid_lo r) with (rs_oid r). rewrite pull_withdraw by done. rewrite Ek. split; [done|].
    rewrite accepted_oids_app, (accepted_inert bbo) by (by apply silent_inert). done.
Qed.

Record on_tape (m0 : Market) (rs : list TileRecord) (m : Market) : Prop := {
  ot_tape : tape rs (shaded m0) ≡ shaded m;
  ot_apart : apart m;
  ot_ids : forall k, In k (map rs_oid (resting m)) -> In k (ids m0 rs);
}.

Lemma ids_app m0 rs rs' : ids m0 (rs ++ rs') = ids m0 rs ++ accepted_oids rs'.
Proof. unfold ids. by rewrite accepted_oids_app, app_assoc. Qed.

Lemma session_on_tape cfg symbol_id first m0 rs m t : in_u32 symbol_id ->
  tile_session cfg symbol_id first m0 rs m t -> NoDup (ids m0 rs) -> on_tape m0 rs m.
Proof.
  intros Hsym Hses. pose proof (session_running cfg symbol_id first m0 rs m t Hsym) as _.
  induction Hses as [t Ho Hs Hf|rs m t st msg t' dup m' Hses IH Hroom Hf Hst Hadm E|rs m t ts_ns request t' Hses IH Hroom Hf Hts E
    |rs m t now last due last' s' _ IH Hn E|rs m t now _ IH Hn|rs m t now freed b' _ IH Hc E|rs m t op _ IH]; intros Hnd; try by apply IH.
  - split; [done|by unfold ids in Hnd; rewrite app_nil_r in Hnd|]. intros k Hk. apply in_app_iff. by left.
  - rewrite ids_app in Hnd. pose proof Hnd as (Hnd1 & Hdis & _)%NoDup_app. destruct (IH Hnd1) as [Ht Ha Hi]. clear IH.
    destruct (session_running cfg symbol_id first m0 rs m t Hsym Hses) as [_ Hs _ _ _]. unfold dup in *.
    destruct (check_and_insert (msg_key msg) (tl_dedup t)).1 eqn:Ed.
    + assert (order_records symbol_id st msg t = [TrFailed (duplicate_record (st_record st) msg)]) as -> by (unfold order_records; by rewrite Ed).
      split; [by rewrite tape_app|done|]. intros k Hk. rewrite ids_app. apply in_app_iff. left. by apply Hi.
    + destruct (Hadm eq_refl) as (Had & Hu & _).
      destruct (order_taped cfg symbol_id m t st msg Hs Ha Hsym Ed Had Hu) as (rs' & Er & Hin & Htp).
      assert (accepted_oids (order_records symbol_id st msg t) = [(om_order_id_hi msg, om_order_id_lo msg)]) as Eid.
      { rewrite Er. change (?x :: rs') with ([x] ++ rs'). by rewrite accepted_oids_app, (accepted_inert rs'). }
      rewrite Eid in *. split.
      * by rewrite tape_app, Ht.
      * apply submit_apart; [done|]. intros Hk. apply (Hdis _ (proj2 (list_elem_of_In _ _) (Hi _ Hk))). by apply list_elem_of_here.
      * intros k [->|Hk]%submit_oids; rewrite ids_app, Eid; apply in_app_iff; [right; by left|left; by apply Hi].
  - rewrite ids_app in Hnd. pose proof Hnd as (Hnd1 & _ & _)%NoDup_app. destruct (IH Hnd1) as [Ht Ha Hi]. clear IH.
    pose proof (session_running cfg symbol_id first m0 rs m t Hsym Hses) as Hr. pose proof Hr as [[D Ho] Hs _ _ _].
    pose proof (running_roomy _ _ _ _ _ _ _ Hr Ho Hroom) as Hry.
    destruct (cancel_taped cfg symbol_id first _ D m t ts_ns request Ho Hry Hs Ha) as [Htp Eid]. split.
    + by rewrite tape_app, Ht.
    + by apply withdraw_apart.
    + intros k Hk. rewrite ids_app, Eid, app_nil_r. apply Hi. rewrite <- list_elem_of_In in *.
      eapply elem_of_sublist; [exact Hk|apply withdraw_oids].
Qed.

End Session.
