(* ===== verification/ShadowInv.v ===== *)
(** * ShadowInv: the shadow book and the market it shows

    [mirrors]: the book is a well-formed engine serving the given market, and
    the order map finds every resting order by its id.  Insertions, fills,
    cancels and recentring keep it. *)

From Stdlib Require Import Sorted.
From S2P Require Import Prelude Hash Types Slab Occupancy Compression Users Order Book Links BookInv Matching MatchInv.
From S2P Require Import FillQueue SlotMatch Engine Feasible Process Migration Recenter Guarantees Ranking Market Priority MarketRef MarketClaims Session.
From S2P Require Import Frames Messages Wal Cast Dedup Tile TileLog TileInv TileClaims Replay ReplayClaims TileRun Shadow Tape.

(** ** Order keys *)

Lemma shifted_disjoint hi lo : in_u64 lo -> Z.land (Z.shiftl hi 64) lo = 0.
Proof.
  intros Hl. rewrite <- (Z.mod_small lo (2 ^ 64)) by width_lia. apply Z.bits_inj'. intros i Hi. rewrite Z.land_spec, Z.bits_0.
  destruct (Z.lt_ge_cases i 64).
  - by rewrite Z.shiftl_spec_low.
  - rewrite Z.mod_pow2_bits_high by lia. apply andb_false_r.
Qed.

Lemma order_key_sum hi lo : in_u64 lo -> order_key hi lo = hi * 2 ^ 64 + lo.
Proof.
  intros Hl. unfold order_key. rewrite <- Z.lxor_lor, <- Z.add_nocarry_lxor by (by apply shifted_disjoint).
  by rewrite Z.shiftl_mul_pow2 by lia.
Qed.

Lemma order_key_inj hi lo hi' lo' : in_u64 lo -> in_u64 lo' -> order_key hi lo = order_key hi' lo' -> (hi, lo) = (hi', lo').
Proof.
  intros Hl Hl'. rewrite !order_key_sum by done. intros E.
  destruct (Z.div_mod_unique (2 ^ 64) hi hi' lo lo') as [-> ->]; [left; width_lia|left; width_lia|lia|done].
Qed.

(** ** The order map *)

Definition oid_of (k : OrderKey) : OrderId := (k.1.2, k.2).
Definition okey (k : OrderKey) : Z := order_key k.1.2 k.2.

(** The map holds the handles of [index], by order id alone. *)
Record keyed (index : gmap OrderKey Z) (om : gmap Z Z) : Prop := {
  ky_map : forall key h, om !! key = Some h <-> exists k, index !! k = Some h /\ okey k = key;
  ky_wide : forall k h, index !! k = Some h -> in_u64 k.1.2 /\ in_u64 k.2;
}.

Lemma keyed_empty : keyed ∅ ∅.
Proof. split; [intros key h; rewrite lookup_empty; split; [done|by intros (k & E & _)]|done]. Qed.

Lemma keyed_get index om k h : keyed index om -> index !! k = Some h -> om !! okey k = Some h.
Proof. intros Hk E. apply (ky_map _ _ Hk). by exists k. Qed.

Lemma keyed_oid index om k hi lo h : keyed index om -> in_u64 lo -> index !! k = Some h -> okey k = order_key hi lo -> oid_of k = (hi, lo).
Proof. intros Hk Hl E Eo. destruct (ky_wide _ _ Hk k h E) as [_ Hl']. exact (order_key_inj _ _ _ _ Hl' Hl Eo). Qed.

Lemma keyed_insert index om k h : keyed index om -> in_u64 k.1.2 -> in_u64 k.2 ->
  (forall k' h', index !! k' = Some h' -> oid_of k' <> oid_of k) -> keyed (<[k:=h]> index) (<[okey k:=h]> om).
Proof.
  intros Hk Hh Hl Hf. assert (forall k' h', index !! k' = Some h' -> okey k' <> okey k) as Hne.
  { intros k' h' E Eo. apply (Hf k' h' E). exact (keyed_oid index om k' _ _ h' Hk Hl E Eo). }
  assert (index !! k = None) as Hnone by (destruct (index !! k) as [h'|] eqn:E; [by destruct (Hne k h' E)|done]).
  split.
  - intros key h'. rewrite lookup_insert_Some, (ky_map _ _ Hk). split.
    + intros [[<- ->]|[Hn (k' & E & <-)]]; [exists k; by rewrite lookup_insert_eq|]. exists k'. split; [|done].
      rewrite lookup_insert_ne; [done|]. by intros ->.
    + intros (k' & E & <-). apply lookup_insert_Some in E as [[<- ->]|[Hn E]]; [by left|right]. split; [|by exists k'].
      intros Eo. by destruct (Hne k' h' E).
  - intros k' h' [[<- _]|[_ E]]%lookup_insert_Some; [done|by apply (ky_wide _ _ Hk k' h')].
Qed.

Lemma keyed_delete index om k h : keyed index om -> index !! k = Some h -> (forall k', index !! k' = Some h -> k' = k) ->
  keyed (delete k index) (delete (okey k) om).
Proof.
  intros Hk E Hu. split.
  - intros key h'. rewrite lookup_delete_Some, (ky_map _ _ Hk). split.
    + intros (Hn & k' & E' & <-). exists k'. split; [|done]. rewrite lookup_delete_ne; [done|]. by intros ->.
    + intros (k' & E' & <-). apply lookup_delete_Some in E' as [Hn E']. split; [|by exists k']. intros Eo.
      apply Hn. assert (h' = h) as ->; [|by rewrite (Hu k' E')].
      pose proof (keyed_get _ _ _ _ Hk E) as E1. pose proof (keyed_get _ _ _ _ Hk E') as E2. congruence.
  - intros k' h' [_ E']%lookup_delete_Some. by apply (ky_wide _ _ Hk k' h').
Qed.

Definition mirrors (cfg : BookConfig) (s : ShadowBook) (m : Market) : Prop :=
  exists index, serves cfg (sb_book s) index m /\ keyed index (sb_order_map s).

#[global] Instance mirrors_proper cfg s : Proper ((≡) ==> iff) (mirrors cfg s).
Proof. intros m m' Hm. unfold mirrors. by setoid_rewrite Hm. Qed.

(** ** A hit *)

Section Hit.
Variables (mid tk : Z).
Hypothesis Hcfg : cfg_ok mid tk.

Lemma indexes_inj A fl b index k k' h : core mid tk A fl b -> indexes A index -> index !! k = Some h -> index !! k' = Some h -> k = k'.
Proof.
  intros Hc Hx (t & s & Hs & <-)%Hx (t' & s' & Hs' & <-)%Hx.
  by destruct (links_inj _ _ _ t t' h s s' (c_links _ _ _ _ _ Hc) Hs Hs') as [-> ->].
Qed.

(** Under an order map, resting ids are distinct. *)
Lemma oid_entry A fl b index om t t' x y : core mid tk A fl b -> indexes A index -> keyed index om ->
  In x (A t) -> In y (A t') -> entry_oid x = entry_oid y <-> x = y.
Proof.
  intros Hc Hx Hk Hin Hin'. split; [|by intros ->]. intros E. apply (uniq_eq A t t'); [by eapply core_uniq|done..|].
  destruct x as [h s], y as [h' s']. cbn [fst].
  assert (index !! entry_key (h, s) = Some h) as E1 by (apply Hx; by exists t, s).
  assert (index !! entry_key (h', s') = Some h') as E2 by (apply Hx; by exists t', s').
  apply (keyed_get _ _ _ _ Hk) in E1, E2. assert (okey (entry_key (h, s)) = okey (entry_key (h', s'))) as Eo; [|congruence].
  unfold okey, entry_key, rs_key, entry_oid, rs_oid in *. cbn in *. by injection E as -> ->.
Qed.

Lemma struck_after e f x : 0 < f -> (entry_oid x = entry_oid e <-> x = e) -> (x.1 = e.1 -> x = e) ->
  map content (after [(e, Z.min f (erem e))] x) = struck (entry_oid e) f (content x).
Proof.
  intros Hf Ho Hh. unfold after. cbn [List.find fst snd]. unfold struck. change (rs_oid (content x)) with (entry_oid x).
  destruct (e.1 =? x.1) eqn:E; bool_to_prop.
  - assert (x = e) as -> by (by apply Hh). rewrite decide_True by done. unfold leftover. change (rs_qty (content e)) with (erem e). cbn [snd].
    destruct (Z.min f (erem e) =? erem e) eqn:Em; bool_to_prop.
    + by replace (erem e - f <=? 0) with true by lia.
    + replace (erem e - f <=? 0) with false by lia. by replace (Z.min f (erem e)) with f by lia.
  - rewrite decide_False; [done|]. intros Eo. apply E. apply Ho in Eo. by rewrite Eo.
Qed.

(** A hit on the book strikes its market. *)
Lemma hit_market A fl b index om A' b' t e f :
  core mid tk A fl b -> indexes A index -> keyed index om -> In e (A t) -> 0 < f ->
  (forall t', A' t' = flat_map (after [(e, Z.min f (erem e))]) (A t')) -> (forall u, net_of (users b') u = net_of (users b) u) ->
  market_of mid tk A' b' ≡ strike (entry_oid e) f (market_of mid tk A b).
Proof.
  intros Hc Hx Hk He Hf HA Hn. assert (forall sd, map content (priority mid tk sd A') = flat_map (struck (entry_oid e) f) (map content (priority mid tk sd A))) as Hs.
  { intros sd. rewrite (priority_after mid tk _ sd A A' HA).
    assert (forall x, In x (priority mid tk sd A) -> exists t', In x (A t')) as Hq by (intros x Hin; by apply (in_priority mid tk Hcfg sd A fl b) in Hin as [? _]).
    induction (priority mid tk sd A) as [|x q IH]; [done|]. cbn [map flat_map]. rewrite map_app. f_equal; [|apply IH; intros y Hy; apply Hq; by right].
    destruct (Hq x (or_introl eq_refl)) as [t' Hx']. apply struck_after; [done|by apply (oid_entry A fl b index om t' t)|].
    intros E. by apply (uniq_eq A t' t _ _ (core_uniq mid tk A fl b Hc)). }
  split; [apply (Hs Buy)|]. split; [apply (Hs Sell)|exact Hn].
Qed.

End Hit.

(** What a change of the book that is a hit comes to. *)
Lemma hit_served cfg mid A fl b index om m t q1 h s q2 f A' fl' b' :
  hosted cfg mid A fl b index m -> keyed index om -> A t = q1 ++ (h, s) :: q2 -> 0 < f -> 0 < os_remaining s ->
  A' = upd A t (q1 ++ leftover (h, s) (Z.min f (os_remaining s)) ++ q2) ->
  book_inv mid (bc_tick_size cfg) A' fl' b' -> keeps b b' -> (forall u, net_of (users b') u = net_of (users b) u) ->
  exists index', hosted cfg mid A' fl' b' index' (strike (entry_oid (h, s)) f m) /\
    keyed index' (if os_remaining s <=? f then delete (okey (entry_key (h, s))) om else om).
Proof.
  intros [Hc Hsp He Hg Hst Hx Hm] Hk Et Hf Hq EA Hi' K Hn. set (tk := bc_tick_size cfg) in *. set (g := Z.min f (os_remaining s)) in *.
  pose proof (en_book _ _ _ _ _ He) as Hi. pose proof (bk_core _ _ _ _ _ Hi) as Hcore. pose proof (core_uniq mid tk A fl b Hcore) as Hu.
  assert (In (h, s) (A t)) as Hin by (rewrite Et; apply in_app_iff; right; by left).
  assert (consumes A [((h, s), g)] A') as Hcs.
  { eapply (co_cons A t q1 (h, s) q2 g [] A'); [done|unfold erem; cbn; lia|by rewrite EA; unfold upd; rewrite Z.eqb_refl| |constructor].
    intros t' Hne. rewrite EA. unfold upd. by replace (t' =? t) with false by lia. }
  destruct (consumes_after A _ A' Hcs Hu) as [_ HA]; [intros m0 [<-|[]]; by exists t|].
  assert (market_of mid tk A' b' ≡ strike (entry_oid (h, s)) f m) as Hmk.
  { rewrite (hit_market mid tk Hc A fl b index om A' b' t (h, s) f Hcore Hx Hk Hin Hf HA Hn).
    destruct Hm as (H1 & H2 & H3). unfold strike, on_sides. rewrite H1, H2. by split. }
  assert (engine_ok mid tk A' fl' b') as He'.
  { eapply engine_keeps; [exact He|exact Hi'|exact K|]. intros t' x Hxin.
    destruct (consumes_kept _ _ _ Hcs t' x Hxin) as (y & Hy & _ & Ep & Es & _). by exists y. }
  destruct K as (K1 & K2 & K3 & K4 & K5 & K6 & K7 & K8).
  assert (index !! entry_key (h, s) = Some h) as Eix by (apply Hx; by exists t, s).
  destruct (os_remaining s <=? f) eqn:El; bool_to_prop.
  - exists (delete (entry_key (h, s)) index). split.
    + split; try done; [congruence|congruence|].
      destruct (drop_withdraws mid tk Hc A fl b t q1 h s q2 index b' Hi Et Hx Hn) as [_ Hx'].
      replace A' with (upd A t (q1 ++ q2)); [exact Hx'|]. rewrite EA. unfold leftover, g.
      by replace (Z.min f (os_remaining s) =? erem (h, s)) with true by (unfold erem; cbn; lia).
    + eapply keyed_delete; [exact Hk|exact Eix|]. intros k' Ek'. by apply (indexes_inj mid tk A fl b index k' _ h Hcore Hx).
  - exists index. split; [|done]. split; try done; [congruence|congruence|].
    assert (forall t' x, In x (A' t') <-> exists y, In y (A t') /\ In x (after [((h, s), g)] y)) as Hin'.
    { intros t' x. rewrite HA. apply in_flat_map. }
    intros k h'. rewrite (Hx k h'). split.
    + intros (t' & s' & Hs' & <-). destruct (Z.eq_dec h' h) as [->|Hne].
      * pose proof (uniq_eq A t' t _ _ Hu Hs' Hin eq_refl) as Ee. injection Ee as ->.
        exists t', (os_with_remaining (os_remaining s - g) s). split; [|done]. apply Hin'. exists (h, s). split; [done|].
        rewrite after_cons_eq. unfold leftover. replace (g =? erem (h, s)) with false by (unfold erem; cbn; lia). by left.
      * exists t', s'. split; [|done]. apply Hin'. exists (h', s'). split; [done|]. rewrite after_cons_ne by (cbn; congruence). by left.
    + intros (t' & s' & (y & Hy & Ha)%Hin' & <-). destruct (after_same _ _ _ Ha) as [Eh Ek]. cbn in Eh. destruct y as [h0 s0]. cbn in Eh. subst h0.
      exists t', s0. split; [done|]. exact (eq_sym Ek).
Qed.

(** What the map finds. *)
Lemma keyed_entry cfg mid A fl b index om m hi lo h :
  hosted cfg mid A fl b index m -> keyed index om -> in_u64 lo -> om !! order_key hi lo = Some h ->
  exists t q1 s q2 n p, A t = q1 ++ (h, s) :: q2 /\ os_oid_hi s = hi /\ os_oid_lo s = lo /\ get (orders b) h = Ok (relink n p s) /\
    0 < os_remaining s <= I64_MAX /\ okey (entry_key (h, s)) = order_key hi lo.
Proof.
  intros [Hc Hsp He Hg Hst Hx Hm] Hk Hl (k & E & Ek)%(ky_map _ _ Hk). pose proof (en_book _ _ _ _ _ He) as Hi.
  pose proof (keyed_oid index om k hi lo h Hk Hl E Ek) as Eo. pose proof (bk_core _ _ _ _ _ Hi) as Hcore.
  apply Hx in E as (t & s & Hin & <-). destruct (in_split _ _ Hin) as (q1 & q2 & Et). injection Eo as Eh El.
  destruct (core_get mid (bc_tick_size cfg) A fl b t (h, s) Hcore Hin) as (n & p & Hget).
  exists t, q1, s, q2, n, p. do 4 (split; [done|]). split; [|done].
  pose proof (bk_order _ _ _ _ _ Hi t (h, s) Hin) as [_ Hq]. pose proof (lk_sum _ _ _ (c_links _ _ _ _ _ Hcore) t) as Hsum.
  pose proof (lk_qty _ _ _ (c_links _ _ _ _ _ Hcore) t) as Hnn. rewrite Et, zsum_app, zsum_cons in Hsum.
  pose proof (zsum_nonneg erem q1 (fun x Hx => Hnn x ltac:(rewrite Et; apply in_app_iff; auto))).
  pose proof (zsum_nonneg erem q2 (fun x Hx => Hnn x ltac:(rewrite Et; apply in_app_iff; simpl; auto))).
  unfold erem in *. cbn in *. lia.
Qed.

Lemma strike_missed cfg mid A fl b index om m hi lo f :
  hosted cfg mid A fl b index m -> keyed index om -> om !! order_key hi lo = None -> strike (hi, lo) f m ≡ m /\ pull (hi, lo) m ≡ m.
Proof.
  intros [Hc Hsp He Hg Hst Hx Hm] Hk Hn. assert (forall r, In r (resting m) -> rs_oid r <> (hi, lo)) as Hne.
  { intros r Hr Eo. destruct Hm as (H1 & H2 & _). unfold resting in Hr. rewrite <- H1, <- H2 in Hr.
    destruct (entry_used mid _ A fl b (rs_key r) r Hc (bk_core _ _ _ _ _ (en_book _ _ _ _ _ He)) Hr eq_refl) as (t & [h s] & Hin & Ek).
    assert (index !! rs_key r = Some h) as E by (apply Hx; by exists t, s).
    apply (keyed_get _ _ _ _ Hk) in E. unfold okey, rs_key in E. cbn in E. injection Eo as Eh El. rewrite Eh, El in E. congruence. }
  assert (forall q, (forall r, In r q -> rs_oid r <> (hi, lo)) -> flat_map (struck (hi, lo) f) q = q /\
    List.filter (fun r => negb (bool_decide (rs_oid r = (hi, lo)))) q = q) as Hq.
  { induction q as [|r q IH]; intros Hq; [done|]. destruct IH as [E1 E2]; [intros x Hxq; apply Hq; by right|].
    cbn [flat_map List.filter]. rewrite E1, E2. unfold struck. rewrite decide_False, bool_decide_eq_false_2 by (apply Hq; by left). done. }
  destruct (Hq (mk_bids m)) as [B1 B2]; [intros r Hr; apply Hne, in_app_iff; by left|].
  destruct (Hq (mk_asks m)) as [S1 S2]; [intros r Hr; apply Hne, in_app_iff; by right|].
  unfold strike, pull, on_sides. rewrite B1, B2, S1, S2. by split.
Qed.

(** ** Fills and cancels *)

Definition stamped (ts_ns : Z) (s s' : ShadowBook) : Prop :=
  sb_symbol_id s' = sb_symbol_id s /\ sb_seq s' = wrap_u64 (sb_seq s + 1) /\ sb_timestamp_ns s' = ts_ns.

(** What is reported of a change: the side and the price of the order with the id. *)
Definition reported (k : OrderId) (m : Market) (r : option (Z * Z)) : Prop :=
  match r with
  | None => forall x, In x (resting m) -> rs_oid x <> k
  | Some (side, price) => exists sd x, In x (mk_side sd m) /\ rs_oid x = k /\ side = side_u8 sd /\ price = rs_price x
  end.

Lemma hosted_reported cfg mid A fl b index m t h s :
  hosted cfg mid A fl b index m -> In (h, s) (A t) -> reported (entry_oid (h, s)) m (Some (os_side s, os_price s)).
Proof.
  intros [Hc Hsp He Hg Hst Hx Hm] Hin. pose proof (bk_core _ _ _ _ _ (en_book _ _ _ _ _ He)) as Hcore.
  assert (forall sd, os_side s = side_u8 sd -> reported (entry_oid (h, s)) m (Some (os_side s, os_price s))) as Hsd.
  { intros sd Es. exists sd, (content (h, s)). split; [|done].
    assert (mk_side sd m = map content (priority mid (bc_tick_size cfg) sd A)) as -> by (destruct Hm as (H1 & H2 & _), sd; cbn in *; by symmetry).
    apply in_map, (in_priority mid _ Hc sd A fl b); [done|]. split; [by exists t|]. unfold is_side. cbn. by rewrite Es, Z.eqb_refl. }
  destruct (lk_side _ _ _ (c_links _ _ _ _ _ Hcore) t (h, s) Hin) as [E|E]; [by apply (Hsd Buy)|by apply (Hsd Sell)].
Qed.

Lemma hosted_missing cfg mid A fl b index om m hi lo :
  hosted cfg mid A fl b index m -> keyed index om -> om !! order_key hi lo = None -> reported (hi, lo) m None.
Proof.
  intros Hh Hk Hn x Hin Eo. destruct (strike_missed cfg mid A fl b index om m hi lo 0 Hh Hk Hn) as [_ (H1 & H2 & _)].
  unfold pull, on_sides in *. cbn in H1, H2. unfold resting in Hin. rewrite <- H1, <- H2 in Hin.
  apply in_app_iff in Hin as [Hin|Hin]; apply filter_In in Hin as [_ Hin]; by rewrite bool_decide_eq_true_2 in Hin.
Qed.

Lemma fill_mirrors cfg s m hi lo qty ts_ns : mirrors cfg s m -> in_u64 lo -> 0 < qty <= I64_MAX ->
  exists r s', apply_fill_by_order_id hi lo qty ts_ns s = Ok (r, s') /\ mirrors cfg s' (strike (hi, lo) qty m) /\ reported (hi, lo) m r /\
    match r with Some _ => stamped ts_ns s s' | None => s' = s end.
Proof.
  intros (index & (mid & A & fl & Hh) & Hk) Hl Hf. unfold apply_fill_by_order_id.
  destruct (sb_order_map s !! order_key hi lo) as [h|] eqn:Em.
  2: { exists None, s. split; [done|]. destruct (strike_missed cfg mid A fl _ index _ m hi lo qty Hh Hk Em) as [-> _].
    split; [exists index; split; [by exists mid, A, fl|done]|]. split; [|done]. by eapply hosted_missing. }
  destruct (keyed_entry cfg mid A fl _ index _ m hi lo h Hh Hk Hl Em) as (t & q1 & sl & q2 & n & p & Et & Eh & El & Hget & Hrem & Eok).
  assert (In (h, sl) (A t)) as Hin by (rewrite Et; apply in_app_iff; right; by left).
  pose proof (hosted_reported cfg mid A fl _ index m t h sl Hh Hin) as Hrep.
  assert (entry_oid (h, sl) = (hi, lo)) as Eo by (unfold entry_oid, rs_oid, content; cbn; congruence). rewrite Eo in Hrep.
  pose proof Hh as [Hc Hsp He _ _ _ _]. pose proof (en_book _ _ _ _ _ He) as Hi.
  rewrite Hget. cbn [mbind Res_bind]. change (os_remaining (relink n p sl)) with (os_remaining sl). change (os_user (relink n p sl)) with (os_user sl).
  change (os_side (relink n p sl)) with (os_side sl). change (os_price (relink n p sl)) with (os_price sl).
  rewrite wrap_i64_id by width_lia. cbn [advance sb_book].
  pose proof (hit_served cfg mid A fl (sb_book s) index (sb_order_map s) m t q1 h sl q2 qty) as Hhit. rewrite Eo, Eok in Hhit.
  destruct (os_remaining sl - qty <=? 0) eqn:E; bool_to_prop.
  - destruct (cancel_checked_hit mid _ Hc Hsp A fl (sb_book s) t q1 h sl q2 (os_user sl) hi lo Hi Et ltac:(by split_and!))
      as (b' & Ec & Hi' & K & _ & _ & Hn & _).
    rewrite Ec. cbn [mbind Res_bind]. eexists _, _. split; [reflexivity|]. split; [|by split].
    destruct (Hhit _ (h :: fl) b' Hh Hk Et ltac:(lia) ltac:(lia) eq_refl) as (index' & Hh' & Hk'); [|done|done|].
    { unfold leftover. by replace (Z.min qty (os_remaining sl) =? erem (h, sl)) with true by (unfold erem; cbn; lia). }
    replace (os_remaining sl <=? qty) with true in Hk' by lia. exists index'. split; [|done]. by eexists _, _, _.
  - destruct (modify_down_spec mid _ Hc A fl (sb_book s) t q1 h sl q2 (os_remaining sl - qty) (os_user sl) hi lo Hi Et ltac:(by split_and!) ltac:(lia))
      as (b' & Ec & Hi' & K & Hu).
    rewrite Ec. cbn [mbind Res_bind]. eexists _, _. split; [reflexivity|]. split; [|by split].
    destruct (Hhit _ fl b' Hh Hk Et ltac:(lia) ltac:(lia) eq_refl) as (index' & Hh' & Hk'); [|done|by rewrite Hu|].
    { unfold leftover. replace (Z.min qty (os_remaining sl) =? erem (h, sl)) with false by (unfold erem; cbn; lia).
      replace (erem (h, sl) - Z.min qty (os_remaining sl)) with (os_remaining sl - qty) by (unfold erem; cbn; lia). exact Hi'. }
    replace (os_remaining sl <=? qty) with false in Hk' by lia. exists index'. split; [|done]. by eexists _, _, _.
Qed.

(** A strike for more than an order can hold pulls it. *)
Lemma strike_all k m : (forall r, In r (resting m) -> rs_qty r <= I64_MAX) -> strike k I64_MAX m = pull k m.
Proof.
  intros Hq. assert (forall q, (forall r, In r q -> rs_qty r <= I64_MAX) ->
    flat_map (struck k I64_MAX) q = List.filter (fun r => negb (bool_decide (rs_oid r = k))) q) as Hall.
  { induction q as [|r q IH]; intros Hr; [done|]. cbn [flat_map List.filter]. rewrite IH by (intros x Hx; apply Hr; by right).
    unfold struck. specialize (Hr r (or_introl eq_refl)). case_bool_decide as E; [|by rewrite decide_False].
    rewrite decide_True by done. by replace (rs_qty r - I64_MAX <=? 0) with true by lia. }
  unfold strike, pull, on_sides. f_equal; apply Hall; intros r Hr; apply Hq, in_app_iff; auto.
Qed.

Lemma cancel_mirrors cfg s m hi lo ts_ns : mirrors cfg s m -> in_u64 lo ->
  exists r s', apply_cancel_by_order_id hi lo ts_ns s = Ok (r, s') /\ mirrors cfg s' (pull (hi, lo) m) /\ reported (hi, lo) m r /\
    match r with Some _ => stamped ts_ns s s' | None => s' = s end.
Proof.
  intros (index & (mid & A & fl & Hh) & Hk) Hl. unfold apply_cancel_by_order_id.
  rewrite <- (strike_all (hi, lo) m). 2: { intros r Hr. apply (served_qty cfg (sb_book s) index m r) in Hr; [width_lia|]. by exists mid, A, fl. }
  destruct (sb_order_map s !! order_key hi lo) as [h|] eqn:Em.
  2: { exists None, s. split; [done|]. destruct (strike_missed cfg mid A fl _ index _ m hi lo I64_MAX Hh Hk Em) as [-> _].
    split; [exists index; split; [by exists mid, A, fl|done]|]. split; [|done]. by eapply hosted_missing. }
  destruct (keyed_entry cfg mid A fl _ index _ m hi lo h Hh Hk Hl Em) as (t & q1 & sl & q2 & n & p & Et & Eh & El & Hget & Hrem & Eok).
  assert (In (h, sl) (A t)) as Hin by (rewrite Et; apply in_app_iff; right; by left).
  pose proof (hosted_reported cfg mid A fl _ index m t h sl Hh Hin) as Hrep.
  assert (entry_oid (h, sl) = (hi, lo)) as Eo by (unfold entry_oid, rs_oid, content; cbn; congruence). rewrite Eo in Hrep.
  pose proof Hh as [Hc Hsp He _ _ _ _]. pose proof (en_book _ _ _ _ _ He) as Hi.
  cbn [sb_with_map sb_book advance]. rewrite Hget. cbn [mbind Res_bind].
  change (os_user (relink n p sl)) with (os_user sl). change (os_side (relink n p sl)) with (os_side sl). change (os_price (relink n p sl)) with (os_price sl).
  destruct (cancel_checked_hit mid _ Hc Hsp A fl (sb_book s) t q1 h sl q2 (os_user sl) hi lo Hi Et ltac:(by split_and!))
    as (b' & Ec & Hi' & K & _ & _ & Hn & _).
  cbn [sb_book]. rewrite Ec. cbn [mbind Res_bind]. eexists _, _. split; [reflexivity|]. split; [|by split].
  destruct (hit_served cfg mid A fl (sb_book s) index (sb_order_map s) m t q1 h sl q2 I64_MAX (upd A t (q1 ++ q2)) (h :: fl) b' Hh Hk Et)
    as (index' & Hh' & Hk'); [width_lia|lia| |done|done|done|].
  { unfold leftover. by replace (Z.min I64_MAX (os_remaining sl) =? erem (h, sl)) with true by (unfold erem; cbn; lia). }
  rewrite Eo, Eok in *. replace (os_remaining sl <=? I64_MAX) with true in Hk' by lia. exists index'. split; [|done]. by eexists _, _, _.
Qed.

(** ** Insertions *)

(** Room for one more order: a free slot, a user slot, and a total that fits. *)
Definition room_to_post (b : Orderbook) (qty : Z) : bool :=
  (fold_right (fun l acc => lv_total_qty l + acc) 0 (active_levels b) + qty <=? I64_MAX) &&
  ((bump_next (orders b) <? zlen (slots (orders b))) || negb (free_head (orders b) =? NONE)) && (user_bump (users b) <? U32_MAX).

Lemma room_to_post_ok mid tk A fl b qty : cfg_ok mid tk -> engine_ok mid tk A fl b -> room_to_post b qty = true ->
  has_room (orders b) fl /\ (forall u, room_for (users b) u) /\ book_sum mid tk erem A + qty <= I64_MAX.
Proof.
  intros Hc He Hr. pose proof (bk_core _ _ _ _ _ (en_book _ _ _ _ _ He)) as Hcore. unfold room_to_post in Hr.
  rewrite <- (level_total mid tk A fl b Hcore), !andb_true_iff, orb_true_iff, negb_true_iff, Z.leb_le, !Z.ltb_lt, Z.eqb_neq in Hr.
  destruct Hr as [[H1 H2] H3]. split; [|split; [|done]].
  - unfold has_room. destruct H2 as [H2|H2]; [by right|left]. pose proof (si_chain _ _ (c_slab _ _ _ _ _ Hcore)) as Hch. by destruct fl; [inversion Hch|].
  - intros u. right. by right.
Qed.

(** No bid reaches an ask. *)
Definition open_market (m : Market) : Prop := forall x y, In x (mk_bids m) -> In y (mk_asks m) -> rs_price x < rs_price y.

#[global] Instance open_market_proper : Proper ((≡) ==> iff) open_market.
Proof. intros m m' (H1 & H2 & _). unfold open_market. by rewrite H1, H2. Qed.

Lemma uncrossed_open mid tk A fl b : cfg_ok mid tk -> core mid tk A fl b -> uncrossed A <-> open_market (market_of mid tk A b).
Proof.
  intros Hcfg Hc. split.
  - intros Hu x y Hx Hy. cbn in Hx, Hy. apply in_map_iff in Hx as (e & <- & He). apply in_map_iff in Hy as (e' & <- & He').
    apply (in_priority mid tk Hcfg _ A fl b) in He as [(t & Ht) Hs], He' as [(t' & Ht') Hs']; [|done..]. by apply (Hu t t').
  - intros Hm t t' x y Hx Hy Hs Hs'. apply (Hm (content x) (content y)); cbn; apply in_map, (in_priority mid tk Hcfg _ A fl b); eauto.
Qed.

Definition posted_as (price qty user_id hi lo : Z) : Resting := mkResting price qty user_id false 0 qty hi lo.

Lemma insert_hosted cfg mid A fl b index m price qty sd user_id ts_ns hi lo :
  hosted cfg mid A fl b index m -> room_to_post b qty = true -> 0 < price <= I64_MAX -> price mod bc_tick_size cfg = 0 -> 0 < qty ->
  unused (user_id, hi, lo) m -> open_market (post sd (posted_as price qty user_id hi lo) m) ->
  exists h b' A' fl', insert_resting b price qty sd 0 user_id false ts_ns hi lo = Ok (h, b') /\
    hosted cfg mid A' fl' b' (<[(user_id, hi, lo) := h]> index) (post sd (posted_as price qty user_id hi lo) m) /\
    book_sum mid (bc_tick_size cfg) erem A' <= I64_MAX.
Proof.
  intros [Hc Hsp He Hg Hst Hx Hm] Hr Hp Hal Hq Hun Hop. set (tk := bc_tick_size cfg) in *.
  destruct (room_to_post_ok mid tk A fl b qty Hc He Hr) as (Hroom & Huser & Hsum). pose proof (en_book _ _ _ _ _ He) as Hi.
  pose proof (bk_core _ _ _ _ _ Hi) as Hcore. pose proof (slot_sum_le mid tk A fl b (idx mid tk price) Hcore) as Hslot.
  destruct (insert_resting_spec mid tk Hc A fl b price qty sd 0 user_id false ts_ns hi lo Hi Hroom (Huser _) Hp Hal Hq ltac:(lia))
    as (h & fl' & b' & E & Hi' & K & _ & _ & Hn & _).
  set (sl := resting_slot _ _ _ _ _ _ _ _ _ _ _ _) in Hi'. set (t := idx mid tk price) in *.
  pose proof (bk_core _ _ _ _ _ Hi') as Hcore'. destruct K as (K1 & K2 & K3 & K4 & K5 & K6 & K7 & K8).
  assert (content (h, sl) = posted_as price qty user_id hi lo) as Ec by done.
  assert (market_of mid tk (upd A t (A t ++ [(h, sl)])) b' ≡ post sd (posted_as price qty user_id hi lo) m) as Hm'.
  { rewrite <- Hm. pose proof (fun sd' => priority_push mid tk A fl b _ fl' b' sd' (h, sl) t Hcore Hcore' eq_refl eq_refl) as Hpr.
    assert (forall sd', is_side sd' (h, sl).2 = bool_decide (sd' = sd)) as Hside.
    { intros sd'. unfold is_side. cbn. by destruct sd', sd. }
    assert (forall sd', map content (priority mid tk sd' (upd A t (A t ++ [(h, sl)]))) =
      if bool_decide (sd' = sd) then rank rs_price sd' (posted_as price qty user_id hi lo) (map content (priority mid tk sd' A)) else map content (priority mid tk sd' A)) as Hall.
    { intros sd'. rewrite Hpr, Hside. case_if; [|done]. rewrite (map_rank epx rs_price) by done. by rewrite Ec. }
    pose proof (Hall Buy) as HB. pose proof (Hall Sell) as HS. unfold post.
    destruct sd; cbn in HB, HS |- *; (split; [exact HB|split; [exact HS|exact Hn]]). }
  exists h, b', (upd A t (A t ++ [(h, sl)])), fl'. split; [done|]. split; [split; try done|].
  - split; [done| |by rewrite K5; apply He|by rewrite K5; apply He]. apply (uncrossed_open mid tk _ fl' b' Hc Hcore'). by rewrite Hm'.
  - by rewrite K5.
  - by rewrite K4.
  - replace (user_id, hi, lo) with (entry_key (h, sl)) in * by done. apply (index_push A t (h, sl)); [done|].
    intros t' x Hin. apply (unused_entry mid tk A fl b _ t' x Hc Hcore); [|done]. by rewrite Hm.
  - rewrite book_sum_upd by (by apply price_slot). rewrite zsum_app. cbn [zsum fold_right]. fold t.
    change (erem (h, sl)) with qty. fold tk. lia.
Qed.

Lemma keyed_missing cfg mid A fl b index om m hi lo k h :
  hosted cfg mid A fl b index m -> keyed index om -> (forall r, In r (resting m) -> rs_oid r <> (hi, lo)) -> index !! k = Some h -> oid_of k <> (hi, lo).
Proof.
  intros [Hc Hsp He Hg Hst Hx Hm] Hk Hf (t & s & Hin & <-)%Hx. pose proof (bk_core _ _ _ _ _ (en_book _ _ _ _ _ He)) as Hcore.
  apply (Hf (content (h, s))). destruct Hm as (H1 & H2 & _). unfold resting. rewrite <- H1, <- H2. cbn. rewrite <- map_app. apply in_map, in_app_iff.
  rewrite !(in_priority mid _ Hc _ A fl b) by done. unfold is_side.
  destruct (lk_side _ _ _ (c_links _ _ _ _ _ Hcore) t _ Hin) as [->| ->]; [left|right]; eauto.
Qed.

Lemma shadow_recenter_book s : shadow_maybe_recenter s = (b ← maybe_recenter (sb_book s); Ok (sb_with_book b s)).
Proof.
  unfold shadow_maybe_recenter, maybe_recenter. destruct s as [b y q ts om]. cbn [sb_book].
  case_if; [done|]. case_if; [|done]. by destruct (recenter_now b _).
Qed.

(** A new order on the shadow book. *)
Lemma insert_mirrors cfg s m price qty side user_id ts_ns hi lo :
  let m' := post (side_of side) (posted_as price qty user_id hi lo) m in
  mirrors cfg s m -> room_to_post (sb_book s) qty = true -> 0 < price <= I64_MAX -> price mod bc_tick_size cfg = 0 -> 0 < qty ->
  in_u64 hi -> in_u64 lo -> apart m' -> open_market m' -> recentrable (bc_tick_size cfg) m' ->
  exists h s1 s', apply_insert_by_id price qty side user_id ts_ns hi lo s = Ok (h, s1) /\ shadow_maybe_recenter s1 = Ok s' /\
    mirrors cfg s' m' /\ stamped ts_ns s s'.
Proof.
  intros m' (index & (mid & A & fl & Hh) & Hk) Hr Hp Hal Hq Hhi Hlo Hap Hop Hrc.
  assert (forall r, In r (resting m) -> rs_oid r <> (hi, lo)) as Hf.
  { intros r Hin E. unfold m', apart in Hap. rewrite post_perm in Hap. cbn [map] in Hap. apply NoDup_cons in Hap as [Hni _]. apply Hni.
    rewrite list_elem_of_In. change (rs_oid (posted_as price qty user_id hi lo)) with (hi, lo). rewrite <- E. by apply in_map. }
  assert (unused (user_id, hi, lo) m) as Hun by (intros r Hin E; apply (Hf r Hin); unfold rs_key, rs_oid in *; congruence).
  destruct (insert_hosted cfg mid A fl (sb_book s) index m price qty (side_of side) user_id ts_ns hi lo Hh Hr Hp Hal Hq Hun Hop)
    as (h & b' & A' & fl' & E & Hh' & Hsum).
  destruct (maybe_recenter_serves cfg mid A' fl' b' _ m' Hh' Hrc Hsum) as (b2 & Erc & Hs).
  unfold apply_insert_by_id. cbn [advance sb_book]. rewrite E. cbn [mbind Res_bind]. eexists h, _, _. split; [reflexivity|].
  rewrite shadow_recenter_book. cbn [sb_with_map sb_with_book sb_book]. rewrite Erc. split; [reflexivity|]. split; [|by split].
  exists (<[(user_id, hi, lo):=h]> index). split; [exact Hs|]. apply (keyed_insert index (sb_order_map s) (user_id, hi, lo) h Hk); [done|done|].
  intros k' h' Ek. exact (keyed_missing cfg mid A fl (sb_book s) index _ m hi lo k' h' Hh Hk Hf Ek).
Qed.
