(* ===== verification/ShadowRun.v ===== *)
(** * ShadowRun: a shadow book fed with an engine's records

    [sane_tape]: what the records of an engine promise one by one.  A shadow
    book with room follows them all, and the records of a running tile are of
    that kind. *)

From Stdlib Require Import Sorted.
From S2P Require Import Prelude Hash Types Slab Occupancy Compression Users Order Book Links BookInv Matching MatchInv.
From S2P Require Import FillQueue SlotMatch Engine Feasible Process Migration Recenter Guarantees Ranking Market Priority MarketRef MarketClaims Session.
From S2P Require Import Frames Messages Wal WalInv Cast Dedup Tile TileLog TileInv TileClaims Replay ReplayClaims TileRun Shadow Tape ShadowInv.

(** ** One record *)

Definition shadow_record (rec : TileRecord) (s : ShadowBook) : Res (option (Z * Z) * ShadowBook) :=
  match rec with
  | TrInserted r => insert_on_book r s
  | TrCancelled r => cancel_on_shadow r s
  | TrFill r => fill_on_shadow r s
  | _ => Ok (None, s)
  end.

Definition sane (tk : Z) (m : Market) (rec : TileRecord) : Prop :=
  match rec with
  | TrInserted r =>
      0 < wn_price r <= I64_MAX /\ wn_price r mod tk = 0 /\ 0 < wn_qty r /\ in_u64 (wn_order_id_hi r) /\ in_u64 (wn_order_id_lo r) /\
      wn_side r = side_u8 (side_of (wn_side r)) /\ apart (taped m rec) /\ open_market (taped m rec) /\ recentrable tk (taped m rec)
  | TrCancelled r => in_u64 (wc_order_id_lo r)
  | TrFill r => in_u64 (wf_maker_order_id_lo r) /\ 0 < wf_qty r <= I64_MAX
  | _ => True
  end.

Definition takes_record (rec : TileRecord) (s : ShadowBook) : bool :=
  match rec with TrInserted r => room_to_post (sb_book s) (wn_qty r) | _ => true end.

(** The id a record is about, and what it says changed. *)
Definition touched (rec : TileRecord) (m : Market) (r : option (Z * Z)) : Prop :=
  match rec with
  | TrInserted rec => r = Some (wn_side rec, wn_price rec)
  | TrCancelled rec => reported (wc_order_id_hi rec, wc_order_id_lo rec) m r
  | TrFill rec => reported (wf_maker_order_id_hi rec, wf_maker_order_id_lo rec) m r
  | _ => r = None
  end.

Lemma record_mirrors cfg s m rec : mirrors cfg s m -> sane (bc_tick_size cfg) m rec -> takes_record rec s = true ->
  exists r s', shadow_record rec s = Ok (r, s') /\ mirrors cfg s' (taped m rec) /\ touched rec m r /\
    match r with Some _ => exists ts_ns, stamped ts_ns s s' | None => s' = s end.
Proof.
  intros Hm Hs Ht. destruct rec as [r|r|r| | | | | ]; cbn [sane shadow_record taped touched takes_record] in *; try by exists None, s.
  - destruct Hs as [Hl Hq].
    destruct (fill_mirrors cfg s m (wf_maker_order_id_hi r) _ _ (wf_ts_ns r) Hm Hl Hq) as (x & s' & E & Hm' & Hr & Hx). exists x, s'.
    split; [exact E|]. split; [done|]. split; [done|]. destruct x; [by eexists|done].
  - destruct Hs as (Hp & Hal & Hq & Hh & Hl & _ & Hap & Hop & Hrc).
    destruct (insert_mirrors cfg s m _ _ (wn_side r) _ (wn_ts_ns r) _ _ Hm Ht Hp Hal Hq Hh Hl Hap Hop Hrc) as (h & s1 & s' & E1 & E2 & Hm' & Hst).
    exists (Some (wn_side r, wn_price r)), s'. unfold insert_on_book. rewrite E1. cbn [mbind Res_bind]. rewrite E2.
    split; [done|]. split; [exact Hm'|]. split; [done|]. by eexists.
  - destruct (cancel_mirrors cfg s m (wc_order_id_hi r) _ (wc_ts_ns r) Hm Hs) as (x & s' & E & Hm' & Hr & Hx). exists x, s'.
    split; [exact E|]. split; [done|]. split; [done|]. destruct x; [by eexists|done].
Qed.

(** ** A stream of records *)

Fixpoint sane_tape (tk : Z) (m : Market) (rs : list TileRecord) : Prop :=
  match rs with
  | [] => True
  | rec :: rs => sane tk m rec /\ sane_tape tk (taped m rec) rs
  end.

Fixpoint shadow_records (rs : list TileRecord) (s : ShadowBook) : Res ShadowBook :=
  match rs with
  | [] => Ok s
  | rec :: rs => '(_, s) ← shadow_record rec s; shadow_records rs s
  end.

(** The book has room for each insertion as it comes. *)
Fixpoint room_along (rs : list TileRecord) (s : ShadowBook) : bool :=
  match rs with
  | [] => true
  | rec :: rs => takes_record rec s && match shadow_record rec s with Ok (_, s) => room_along rs s | _ => false end
  end.

Lemma sane_proper tk m m' rec : m ≡ m' -> sane tk m rec -> sane tk m' rec.
Proof.
  intros Hm Hs. destruct rec; try done. cbn [sane] in *. destruct Hs as (H1 & H2 & H3 & H4 & H5 & H0 & H6 & H7 & H8).
  do 6 (split; [done|]). split; [|split]; by rewrite <- Hm.
Qed.

Lemma sane_tape_proper tk rs m m' : m ≡ m' -> sane_tape tk m rs -> sane_tape tk m' rs.
Proof.
  revert m m'. induction rs as [|rec rs IH]; intros m m' Hm; [done|]. intros [H1 H2]. split; [by eapply sane_proper|].
  eapply IH; [|exact H2]. by rewrite Hm.
Qed.

Lemma sane_tape_app tk rs rs' m : sane_tape tk m (rs ++ rs') <-> sane_tape tk m rs /\ sane_tape tk (tape rs m) rs'.
Proof. revert m. induction rs as [|rec rs IH]; intros m; [cbn; tauto|]. cbn [app sane_tape]. rewrite IH. cbn. tauto. Qed.

Lemma sane_silent tk rs m : Forall silent rs -> sane_tape tk m rs.
Proof. intros Hs. revert m. induction Hs as [|rec rs Hr _ IH]; intros m; [done|]. split; [by destruct rec|apply IH]. Qed.

Lemma records_mirror cfg rs s m : mirrors cfg s m -> sane_tape (bc_tick_size cfg) m rs -> room_along rs s = true ->
  exists s', shadow_records rs s = Ok s' /\ mirrors cfg s' (tape rs m).
Proof.
  revert s m. induction rs as [|rec rs IH]; intros s m Hm Hs Hr; [by exists s|]. destruct Hs as [Hs Hs']. cbn [room_along] in Hr.
  apply andb_true_iff in Hr as [Ht Hr]. destruct (record_mirrors cfg s m rec Hm Hs Ht) as (x & s1 & E & Hm1 & _).
  cbn [shadow_records]. rewrite E in *. cbn [mbind Res_bind]. by apply (IH s1).
Qed.

(** ** The records of an order are sane *)

Definition event_sane (tk : Z) (m : Market) (ev : Event) : Prop :=
  match ev with
  | OrderInserted _ _ side price qty hi lo =>
      0 < price <= I64_MAX /\ price mod tk = 0 /\ 0 < qty /\ in_u64 hi /\ in_u64 lo /\ side = side_u8 (side_of side) /\
      apart (event_taped m ev) /\ open_market (event_taped m ev) /\ recentrable tk (event_taped m ev)
  | OrderCancelled _ _ _ _ lo => in_u64 lo
  | Fill _ _ _ _ _ _ qty _ _ maker_lo _ _ _ => in_u64 maker_lo /\ 0 < qty <= I64_MAX
  | _ => True
  end.

Fixpoint events_sane (tk : Z) (m : Market) (evs : list Event) : Prop :=
  match evs with
  | [] => True
  | ev :: evs => event_sane tk m ev /\ events_sane tk (event_taped m ev) evs
  end.

Lemma events_sane_app tk evs evs' m : events_sane tk m (evs ++ evs') <-> events_sane tk m evs /\ events_sane tk (fold_left event_taped evs m) evs'.
Proof. revert m. induction evs as [|ev evs IH]; intros m; [cbn; tauto|]. cbn [app events_sane]. rewrite IH. cbn. tauto. Qed.

Lemma event_record_sane tk b symbol_id ts_ns hops ev r m : event_record b symbol_id ts_ns hops ev = Ok r -> event_sane tk m ev -> sane tk m r.
Proof.
  destruct ev; cbn [event_record]; intros E; try (by injection E as <-).
  - apply bind_ok in E as ([ro tif] & _ & E). by injection E as <-.
  - apply bind_ok in E as ([ro tif] & _ & E). by injection E as <-.
  - destruct (done_status_and_reason reason). by injection E as <-.
Qed.

Lemma events_sane_records tk b symbol_id ts_ns hops evs rs m :
  event_records b symbol_id ts_ns hops evs = Ok rs -> events_sane tk m evs -> sane_tape tk m rs.
Proof.
  revert rs m. induction evs as [|ev evs IH]; intros rs m E Hs; [by injection E as <-|].
  cbn [event_records] in E. apply bind_ok in E as (r & Er & E). apply bind_ok in E as (rs' & E' & E). injection E as <-.
  destruct Hs as [H1 H2]. split; [by eapply event_record_sane|]. rewrite (event_record_taped _ _ _ _ _ _ m Er). by apply IH.
Qed.

Lemma fills_sane tk o fs m : (forall f, In f fs -> in_u64 (os_oid_lo f.1.2) /\ 0 < f.2 <= I64_MAX) -> events_sane tk m (fill_events o fs).
Proof.
  revert m. induction fs as [|f fs IH]; intros m Hf; [done|]. unfold fill_events in *. cbn [flat_map]. apply events_sane_app. split.
  - unfold mf_events. split; [apply (Hf f); by left|]. case_if; [by split|done].
  - apply IH. intros g Hg. apply Hf. by right.
Qed.

Lemma bbo_sane tk bbo m : Forall is_bbo bbo -> events_sane tk m bbo.
Proof. intros Hb. revert m. induction Hb as [|ev bbo He _ IH]; intros m; [done|]. split; [by destruct ev|apply IH]. Qed.

Lemma shaded_open m : open_market (shaded m) <-> open_market m.
Proof.
  unfold open_market, shaded. cbn. split; intros Hm x y Hx Hy.
  - apply (Hm (shade x) (shade y)); by apply in_map.
  - apply in_map_iff in Hx as (x' & <- & Hx), Hy as (y' & <- & Hy). exact (Hm x' y' Hx Hy).
Qed.

Lemma shaded_apart m : apart (shaded m) <-> apart m.
Proof. unfold apart. by rewrite shaded_oids. Qed.

Lemma shaded_recentrable tk m : recentrable tk (shaded m) <-> recentrable tk m.
Proof. unfold recentrable, shaded. cbn. destruct (mk_bids m), (mk_asks m); done. Qed.

Section Order.
Context (cfg : BookConfig) (mid : Z) (A : ABook) (fl : list Z) (b : Orderbook) (index : gmap OrderKey Z) (m : Market) (o : IncomingOrder).
Abbreviation tk := (bc_tick_size cfg).
Abbreviation m' := (submit tk (bc_lot_size cfg) m o).1.
Context (Hh : hosted cfg mid A fl b index m) (Had : admissible mid tk A fl b o) (Hap : apart m) (Hap' : apart m').
Context (Hfit : fitting m) (Hhi : in_u64 (in_oid_hi o)) (Hlo : in_u64 (in_oid_lo o)) (Hrc : recentrable tk m').

Lemma executed_sane fs A1 A' fl' b' limited h bbo :
  verdict mid tk A b o = Execute -> executed mid tk (taken b o) A (set_events b []) fs A1 A' fl' b' limited h bbo ->
  market_of mid tk A' b' ≡ m' -> events_sane tk (shaded (market_of mid tk A b)) (event_buf b').
Proof.
  intros Ev X Hm'. pose proof Hh as [Hc Hsp He Hg Hst Hx Hm]. pose proof (en_book _ _ _ _ _ He) as Hi. pose proof (bk_core _ _ _ _ _ Hi) as Hcore.
  assert (apart (market_of mid tk A b)) as Hap0 by (by rewrite Hm).
  pose proof (executed_taped mid tk Hc A fl b o fs A1 A' fl' b' limited h bbo Hi Hap0 X) as Htp.
  assert (Forall is_bbo bbo) as Hb.
  { by destruct (ex_bbo _ _ _ _ _ _ _ _ _ _ _ _ _ X) as [[_ ->]|(_ & bp & bq & ap & aq & -> & _)]; repeat constructor. }
  rewrite (ex_events _ _ _ _ _ _ _ _ _ _ _ _ _ X) in *. rewrite fold_left_app in Htp. cbn [fold_left] in Htp. rewrite bbo_taped in Htp by done.
  apply events_sane_app. split; [|split; [|by apply bbo_sane]].
  - apply fills_sane. intros f Hf. destruct (ex_match _ _ _ _ _ _ _ _ _ _ _ _ _ X) as (fl1 & b1 & M).
    destruct (ma_takes _ _ _ _ _ _ _ _ _ _ M f Hf) as (_ & t & Ht).
    pose proof (consumes_pos _ _ _ (ra_consumes _ _ _ _ _ _ (ma_moved _ _ _ _ _ _ _ _ _ _ M)) f Hf) as Hq.
    assert (In (content f.1) (mk_bids m ++ mk_asks m)) as Hin.
    { destruct Hm as (H1 & H2 & _). rewrite <- H1, <- H2. cbn. rewrite <- map_app. apply in_map, in_app_iff.
      rewrite !(in_priority mid tk Hc _ A fl b) by done. unfold is_side.
      destruct (lk_side _ _ _ (c_links _ _ _ _ _ Hcore) t _ Ht) as [->| ->]; [left|right]; eauto. }
    destruct (Hfit _ Hin) as (_ & _ & Hl & _). split; [exact Hl|].
    assert (serves cfg b index m) as Hs by (by exists mid, A, fl).
    pose proof (served_qty cfg b index m _ Hs Hin) as Hq'. change (rs_qty (content f.1)) with (erem f.1) in Hq'. width_lia.
  - destruct (verdict_execute mid tk A b o Ev) as (Hp & Hal & Hq & Hro & _). pose proof (ad_price _ _ _ _ _ _ Had) as Hpr.
    assert (apart (fold_left event_taped (fill_events (taken b o) fs ++ [terminal (taken b o) fs limited h]) (shaded (market_of mid tk A b))) /\
      open_market (fold_left event_taped (fill_events (taken b o) fs ++ [terminal (taken b o) fs limited h]) (shaded (market_of mid tk A b))) /\
      recentrable tk (fold_left event_taped (fill_events (taken b o) fs ++ [terminal (taken b o) fs limited h]) (shaded (market_of mid tk A b)))) as Hres.
    { rewrite fold_left_app. cbn [fold_left]. rewrite Htp. rewrite shaded_apart, shaded_open, shaded_recentrable.
      split; [by rewrite Hm'|]. split; [|by rewrite Hm']. apply (uncrossed_open mid tk A' fl' b' Hc); [|apply X]. apply X. }
    rewrite fold_left_app in Hres. cbn [fold_left] in Hres. set (cur := fold_left _ (fill_events _ _) _) in *.
    unfold terminal in *. destruct (_ >? 0) eqn:E; [|done]. destruct limited; [done|]. destruct (in_tif (taken b o)); [|done|done].
    cbn [event_sane]. change (in_price (taken b o)) with (in_price o) in *. split; [width_lia|]. split; [exact Hal|]. split; [lia|].
    split; [exact Hhi|]. split; [exact Hlo|]. split; [by rewrite side_of_u8|exact Hres].
Qed.

Lemma process_sane o' b' symbol_id ts_ns hops rs :
  process_new_order b o = Ok (o', b') -> event_records b' symbol_id ts_ns hops (event_buf b') = Ok rs -> sane_tape tk (shaded m) rs.
Proof.
  intros E Er. pose proof Hh as [Hc Hsp He Hg Hst Hx Hm].
  destruct (process_view mid tk Hc Hsp A fl b o He Had) as (fs & A' & fl' & o2 & b2 & P & V).
  assert (b2 = b') as -> by (pose proof (pr_run _ _ _ _ _ _ _ _ _ _ P) as E2; congruence).
  pose proof (view_market mid tk Hc A fl b o fs A' fl' o2 b' He Had V) as Hmk.
  assert (market_of mid tk A' b' ≡ m') as Hm'.
  { rewrite Hg in Hmk. rewrite <- Hm. destruct (submit tk (bc_lot_size cfg) (market_of mid tk A b) o). apply Hmk. }
  apply (sane_tape_proper tk rs (shaded (market_of mid tk A b))); [by rewrite Hm|].
  eapply events_sane_records; [exact Er|].
  destruct V as [(-> & -> & [(r & _ & ->)|[_ ->]])|(Ev & -> & A1 & limited & h & bbo & X)]; [done|done|].
  exact (executed_sane fs A1 A' fl' b' limited h bbo Ev X Hm').
Qed.

End Order.

(** ** The records of a session are sane *)

Section Session.
Context `{Crc32c} `{HashIter} `{Win : Window}.

Lemma order_sane cfg symbol_id m t st msg :
  serves cfg (tl_book t) (tl_index t) m -> apart m -> ~ In (om_order_id_hi msg, om_order_id_lo msg) (map rs_oid (resting m)) ->
  fitting m -> record_fits msg -> (check_and_insert (msg_key msg) (tl_dedup t)).1 = false -> admits (tl_book t) (to_incoming msg) = true ->
  recentrable (bc_tick_size cfg) (submit (bc_tick_size cfg) (bc_lot_size cfg) m (to_incoming msg)).1 ->
  sane_tape (bc_tick_size cfg) (shaded m) (order_records symbol_id st msg t).
Proof.
  intros (mid & A & fl & Hh) Hap Hf Hfit Hmsg Ed Ha Hrc.
  pose proof (admits_ok mid (bc_tick_size cfg) (ho_cfg _ _ _ _ _ _ _ Hh) A fl (tl_book t) _ (ho_engine _ _ _ _ _ _ _ Hh) Ha) as Had.
  unfold order_records. rewrite Ed. destruct (process_new_order (tl_book t) (to_incoming msg)) as [[o' b']| |] eqn:Erun; [|done..].
  cbn [mbind Res_bind]. destruct (event_records b' _ _ _ _) as [rs'| |] eqn:Er; [|done..]. split; [done|].
  assert (in_u64 (om_order_id_hi msg) /\ in_u64 (om_order_id_lo msg)) as [Hh1 Hl1].
  { destruct msg. cbn in Hmsg. decompose [and] Hmsg. cbn in *. width_unfold.
    change (2 ^ (8 * Z.of_nat 8)) with 18446744073709551616 in *. lia. }
  refine (process_sane cfg mid A fl (tl_book t) (tl_index t) m (to_incoming msg) Hh Had Hap _ Hfit Hh1 Hl1 Hrc o' b' _ _ _ rs' Erun Er).
  by apply submit_apart.
Qed.

Lemma cancel_sane cfg symbol_id first log D m t ts_ns request :
  online first log D (tl_fanout t) -> roomy first log -> serves cfg (tl_book t) (tl_index t) m -> fitting m ->
  sane_tape (bc_tick_size cfg) (shaded m) (cancel_records symbol_id ts_ns request t).
Proof.
  intros Ho Hr Hs Hfit. destruct (unused_dec (cancel_key request) m) as [Hu|Hu].
  - by destruct (cancel_miss cfg symbol_id ts_ns request t m Hs Hu) as [_ ->].
  - destruct (cancel_handled cfg symbol_id ts_ns request t first log D m Ho Hr Hs Hu) as (r & bbo & Hin & Ek & _ & Hsil & -> & _).
    apply sane_tape_app. split; [|by apply sane_silent]. destruct (Hfit r Hin) as (_ & _ & Hl & _). by split.
Qed.

Lemma session_sane cfg symbol_id first m0 rs m t : in_u32 symbol_id ->
  tile_session cfg symbol_id first m0 rs m t -> NoDup (ids m0 rs) -> sane_tape (bc_tick_size cfg) (shaded m0) rs.
Proof.
  intros Hsym Hses.
  induction Hses as [t Ho Hs Hf|rs m t st msg t' dup m' Hses IH Hroom Hf Hst Hadm E|rs m t ts_ns request t' Hses IH Hroom Hf Hts E
    |rs m t now last due last' s' _ IH Hn E|rs m t now _ IH Hn|rs m t now freed b' _ IH Hc E|rs m t op _ IH]; intros Hnd; try by apply IH.
  - done.
  - rewrite ids_app in Hnd. pose proof Hnd as (Hnd1 & Hdis & _)%NoDup_app.
    destruct (session_running cfg symbol_id first m0 rs m t Hsym Hses) as [_ Hs _ _ Hfit].
    destruct (session_on_tape cfg symbol_id first m0 rs m t Hsym Hses Hnd1) as [Ht Ha Hi]. apply sane_tape_app. split; [by apply IH|].
    apply (sane_tape_proper _ _ (shaded m)); [by symmetry|].
    destruct (check_and_insert (msg_key msg) (tl_dedup t)).1 eqn:Ed.
    + unfold order_records. rewrite Ed. by split.
    + destruct (Hadm eq_refl) as (Had & Hu & Hrc).
      destruct (order_taped cfg symbol_id m t st msg Hs Ha Hsym Ed Had Hu) as (rs' & Er & Hin & _).
      apply order_sane; try done. intros Hk. apply Hi in Hk. rewrite <- list_elem_of_In in Hk. apply (Hdis _ Hk).
      rewrite Er. change (?x :: rs') with ([x] ++ rs'). rewrite accepted_oids_app. apply elem_of_app. left. by apply list_elem_of_here.
  - rewrite ids_app in Hnd. pose proof Hnd as (Hnd1 & _ & _)%NoDup_app.
    destruct (session_on_tape cfg symbol_id first m0 rs m t Hsym Hses Hnd1) as [Ht Ha Hi]. apply sane_tape_app. split; [by apply IH|].
    apply (sane_tape_proper _ _ (shaded m)); [by symmetry|].
    pose proof (session_running cfg symbol_id first m0 rs m t Hsym Hses) as Hr. pose proof Hr as [[D Ho] Hs _ _ Hfit].
    eapply cancel_sane; [exact Ho|by eapply running_roomy|exact Hs|exact Hfit].
Qed.

End Session.
