(* ===== verification/ShadowView.v ===== *)
(** * ShadowView: the feed derived from a shadow book is its market

    The best bid and offer, a level and the depth ladder that [shadow.rs]
    reads off slots, links and a hash table are those of the market the book
    shows, in the order of their prices. *)

From Stdlib Require Import Sorted.
From stdpp Require Import sorting.
From S2P Require Import Prelude Hash Types Slab Occupancy Compression Users Order Book Links BookInv Matching MatchInv.
From S2P Require Import FillQueue SlotMatch Engine Feasible Process Migration Recenter Guarantees Ranking Market Priority MarketRef MarketClaims Session.
From S2P Require Import Frames Messages Wal Cast Dedup Tile TileLog TileInv TileClaims Replay ReplayClaims TileRun Shadow Tape ShadowInv.

(** ** The levels of a market *)

(** Everything resting at a price. *)
Definition rung (p : Z) (q : list Resting) : L2Level := mkL2Level p (zsum rs_qty (queue_of rs_price p q)) (zlen (queue_of rs_price p q)).

Definition ladder (sd : Side) (m : Market) : list L2Level :=
  map (fun p => rung p (mk_side sd m)) (nodup Z.eq_dec (map rs_price (mk_side sd m))).

Definition top_rung (sd : Side) (m : Market) : L2Level :=
  match mk_side sd m with [] => mkL2Level 0 0 0 | r :: _ => rung (rs_price r) (mk_side sd m) end.

Definition rung_bounds (q : list Entry) : Prop := (forall e, In e q -> 0 <= erem e) /\ zsum erem q <= I64_MAX /\ zlen q <= U32_MAX.

Definition at_price_of (sd : Side) (p : Z) (q : list Entry) : list Entry := queue_of epx p (of_side sd q).

Lemma at_price_cons sd p e q :
  at_price_of sd p (e :: q) = if is_side sd e.2 && (os_price e.2 =? p) then e :: at_price_of sd p q else at_price_of sd p q.
Proof.
  unfold at_price_of, of_side. cbn [List.filter]. destruct (is_side sd e.2); [|done]. rewrite queue_of_cons. unfold epx. by destruct (os_price e.2 =? p).
Qed.

Lemma at_price_qty sd p q : zsum erem (at_price_of sd p q) = zsum (qty_at sd p) q.
Proof.
  induction q as [|e q IH]; [done|]. rewrite at_price_cons, zsum_cons, <- IH. unfold qty_at. case_if; [by rewrite zsum_cons|lia].
Qed.

Lemma at_price_nonneg sd p q : (forall e, In e q -> 0 <= erem e) -> 0 <= zsum erem (at_price_of sd p q).
Proof.
  intros Hn. rewrite at_price_qty. apply zsum_nonneg. intros e He. unfold qty_at. case_if; [by apply Hn|done].
Qed.

Lemma rung_bounds_cons e q : rung_bounds (e :: q) -> 0 <= erem e /\ rung_bounds q /\ zsum erem (e :: q) = erem e + zsum erem q.
Proof.
  intros (Hn & Hs & Hl). pose proof (Hn e (or_introl eq_refl)). rewrite zsum_cons, zlen_cons in *. pose proof (zlen_nonneg q).
  split; [done|]. split; [|done]. split; [intros x Hx; apply Hn; by right|lia].
Qed.

(** ** One level *)

Lemma linkless_level side p : linkless (level_step side p).
Proof. by intros acc n q s. Qed.

Lemma level_fold sd p q lq lc : rung_bounds q -> 0 <= lq -> 0 <= lc -> lq + zsum erem q <= I64_MAX -> lc + zlen q <= U32_MAX ->
  qfold (level_step (side_u8 sd) p) q (mkL2Level p lq lc) = mkL2Level p (lq + zsum erem (at_price_of sd p q)) (lc + zlen (at_price_of sd p q)).
Proof.
  revert lq lc. induction q as [|e q IH]; intros lq lc Hb H1 H2 H3 H4; [unfold qfold; cbn [fold_left]; f_equal; symmetry; apply Z.add_0_r|].
  apply rung_bounds_cons in Hb as (He & Hb & Es). rewrite Es in H3. rewrite zlen_cons in H4.
  pose proof (zsum_nonneg erem q (proj1 Hb)). pose proof (zlen_nonneg q).
  unfold qfold in *. cbn [fold_left]. rewrite at_price_cons.
  assert (level_step (side_u8 sd) p (mkL2Level p lq lc) e.2 =
    if is_side sd e.2 && (os_price e.2 =? p) then mkL2Level p (lq + erem e) (lc + 1) else mkL2Level p lq lc) as ->.
  { unfold level_step, is_side. cbn [ll_price ll_qty ll_count]. change (os_remaining e.2) with (erem e).
    rewrite wrap_i64_id, wrap_u32_id by width_lia. done. }
  case_if; rewrite IH by (done || lia); f_equal; rewrite ?zsum_cons, ?zlen_cons; lia.
Qed.

Section View.
Context (cfg : BookConfig) (mid : Z) (A : ABook) (fl : list Z) (s : ShadowBook) (index : gmap OrderKey Z) (m : Market).
Abbreviation tk := (bc_tick_size cfg).
Context (Hh : hosted cfg mid A fl (sb_book s) index m).

Lemma view_core : core mid tk A fl (sb_book s).
Proof. apply (bk_core _ _ _ _ _ (en_book _ _ _ _ _ (ho_engine _ _ _ _ _ _ _ Hh))). Qed.

Lemma view_side sd : mk_side sd m = map content (priority mid tk sd A).
Proof. pose proof (ho_market _ _ _ _ _ _ _ Hh) as (H1 & H2 & _). destruct sd; cbn in *; by symmetry. Qed.

Lemma view_entry r : In r (resting m) -> exists t e, In e (A t) /\ r = content e.
Proof.
  unfold resting. change (mk_bids m) with (mk_side Buy m). change (mk_asks m) with (mk_side Sell m). rewrite !view_side, <- map_app.
  intros (e & <- & He)%in_map_iff. assert (exists t, In e (A t)) as [t Ht]; [|by exists t, e].
  apply in_app_iff in He as [He|He]; by apply (in_priority mid tk (ho_cfg _ _ _ _ _ _ _ Hh) _ A fl (sb_book s) e view_core) in He as [? _].
Qed.

Lemma slot_rung_bounds t : rung_bounds (A t).
Proof.
  pose proof (c_links _ _ _ _ _ view_core) as Hl. split; [apply (lk_qty _ _ _ Hl)|]. split; [apply (lk_sum _ _ _ Hl)|].
  pose proof (core_count mid tk A fl (sb_book s) t view_core). unfold NONE in *. width_lia.
Qed.

Lemma rung_slot sd p : rung p (mk_side sd m) = mkL2Level p (zsum erem (at_price_of sd p (A (idx mid tk p)))) (zlen (at_price_of sd p (A (idx mid tk p)))).
Proof.
  unfold rung. rewrite view_side, <- (map_queue_of epx rs_price) by done.
  rewrite (priority_queue mid tk sd A fl (sb_book s) p view_core). unfold at_price_of. rewrite of_side_queue, zsum_map. unfold zlen. by rewrite length_map.
Qed.

Lemma level_at_slot sd p : 0 < p <= I64_MAX -> level_at s (idx mid tk p) (side_u8 sd) p = Ok (rung p (mk_side sd m)).
Proof.
  intros Hp. pose proof (ho_cfg _ _ _ _ _ _ _ Hh) as Hc. pose proof (price_slot mid tk Hc p Hp) as Ht. pose proof (total_bounds mid tk Hc) as Htot.
  unfold level_at. replace (idx mid tk p =? NONE) with false by lia.
  rewrite (vindex_some _ _ _ (core_level mid tk A fl (sb_book s) _ view_core Ht)). cbn [mbind Res_bind lv_head level_of].
  rewrite (links_walk _ _ _ _ _ _ fl (linkless_level _ _) (c_links _ _ _ _ _ view_core) (c_slab _ _ _ _ _ view_core)).
  pose proof (slot_rung_bounds (idx mid tk p)) as Hb. rewrite level_fold, rung_slot by (done || apply Hb || (destruct Hb as (_ & ? & ?); lia)).
  done.
Qed.

(** ** The best bid and offer *)

Lemma best_level sd : exists qty, top_at sd (sb_book s) (best_tick sd (sb_book s)) = Ok (best_px sd (sb_book s), qty) /\
  top_rung sd m = mkL2Level (best_px sd (sb_book s)) qty (ll_count (top_rung sd m)) /\
  level_at s (best_tick sd (sb_book s)) (side_u8 sd) (best_px sd (sb_book s)) = Ok (top_rung sd m) /\
  (best_tick sd (sb_book s) = NONE <-> mk_side sd m = []).
Proof.
  pose proof Hh as [Hc Hsp He Hg Hst Hx Hm]. pose proof (en_book _ _ _ _ _ He) as Hi.
  destruct (top_at_best mid tk Hc sd A fl (sb_book s) Hi (en_uncrossed _ _ _ _ _ He)) as (qty & Et & Htop). exists qty. split; [exact Et|].
  pose proof (best_front mid tk sd A fl (sb_book s) Hc Hi) as Hf. rewrite (mk_side_of mid tk), <- view_side in Hf. unfold top_rung.
  destruct (mk_side sd m) as [|r q] eqn:Eq.
  - destruct (bk_best _ _ _ _ _ Hi sd) as [(E1 & E2 & Hno)|(Hne & _)]; [|done].
    assert (qty = 0) as ->.
    { destruct Htop as [(_ & _ & ->)|[(t & e & He1 & Hs1 & _) _]]; [done|]. by rewrite (Hno t e He1) in Hs1. }
    split; [by rewrite E2|]. split; [|done]. rewrite E1, E2. done.
  - destruct Hf as (Hne & Ep & Hp). rewrite <- Eq in *.
    destruct (bk_best _ _ _ _ _ Hi sd) as [(E1 & _)|(_ & (e & He1 & Hs1 & Ep1) & Hbest)]; [done|].
    destruct (c_px _ _ _ _ _ view_core _ e He1) as (_ & _ & Eidx). rewrite Ep1 in Eidx.
    split; [|split; [|by rewrite Eq]].
    + rewrite rung_slot, <- Ep. cbn [ll_count]. f_equal. destruct Htop as [(Hno & _)|(_ & _ & ->)]; [by rewrite (Hno _ e He1) in Hs1|].
      rewrite (qty_one_slot mid tk Hc sd A fl (sb_book s) _ (best_tick sd (sb_book s))), at_price_qty; [by rewrite Eidx|exact view_core|].
      rewrite <- Ep1. by apply (c_px _ _ _ _ _ view_core).
    + rewrite <- Eidx, <- Ep. apply level_at_slot. by rewrite Ep.
Qed.

Lemma bbo_view : derive_bbo s = Ok (match mk_bids m, mk_asks m with
  | [], [] => None
  | _, _ => Some (mkBboUpdate (sb_symbol_id s) (ll_price (top_rung Buy m)) (ll_qty (top_rung Buy m)) (ll_count (top_rung Buy m))
      (ll_price (top_rung Sell m)) (ll_qty (top_rung Sell m)) (ll_count (top_rung Sell m)) (sb_timestamp_ns s) (sb_seq s))
  end).
Proof.
  destruct (best_level Buy) as (bq & B1 & B2 & B3 & B4). destruct (best_level Sell) as (aq & S1 & S2 & S3 & S4).
  cbn [top_at best_tick best_px mk_side] in *. unfold derive_bbo, current_bbo. rewrite B1. cbn [mbind Res_bind]. rewrite S1. cbn [mbind Res_bind bbo_bid_px bbo_ask_px bbo_bid_qty bbo_ask_qty].
  rewrite B3. cbn [mbind Res_bind]. rewrite S3. cbn [mbind Res_bind]. rewrite B2, S2. cbn [ll_price ll_qty ll_count].
  destruct (best_bid_tick (sb_book s) =? NONE) eqn:E1, (best_ask_tick (sb_book s) =? NONE) eqn:E2; bool_to_prop; cbn [andb].
  - by rewrite (proj1 B4 E1), (proj1 S4 E2).
  - destruct (mk_asks m); [by destruct E2; apply S4|]. by destruct (mk_bids m).
  - destruct (mk_bids m); [by destruct E1; apply B4|done].
  - destruct (mk_bids m); [by destruct E1; apply B4|done].
Qed.

Lemma delta_view sd p : 0 < p <= I64_MAX -> derive_l2_delta s (side_u8 sd) p =
  Ok (mkL2Delta (sb_symbol_id s) (side_u8 sd) p (ll_qty (rung p (mk_side sd m))) (ll_count (rung p (mk_side sd m))) (sb_timestamp_ns s) (sb_seq s)).
Proof.
  intros Hp. unfold derive_l2_delta. rewrite (c_map _ _ _ _ _ view_core).
  rewrite (price_to_index_eq mid tk (ho_cfg _ _ _ _ _ _ _ Hh)) by lia. cbn [mbind Res_bind]. by rewrite level_at_slot.
Qed.

End View.

(** ** The ladder *)

Definition grouped (sd : Side) (q : list Entry) (p : Z) : option L2Level :=
  match at_price_of sd p q with [] => None | l => Some (mkL2Level p (zsum erem l) (zlen l)) end.

Lemma at_price_app sd p q q' : at_price_of sd p (q ++ q') = at_price_of sd p q ++ at_price_of sd p q'.
Proof. unfold at_price_of, of_side. by rewrite List.filter_app, queue_of_app. Qed.

(** Each price collects the orders at it. *)
Lemma side_fold sd q :
  (forall e, In e q -> 0 <= erem e) -> (forall p, zsum erem (at_price_of sd p q) <= I64_MAX /\ zlen (at_price_of sd p q) <= U32_MAX) ->
  forall p, qfold (side_step sd) q ∅ !! p = grouped sd q p.
Proof.
  induction q as [|e q IH] using rev_ind; intros Hn Hb p; [done|].
  assert (forall x, In x q -> 0 <= erem x) as Hnq by (intros x Hx; apply Hn, in_app_iff; by left).
  pose proof (Hn e ltac:(apply in_app_iff; right; by left)) as He.
  assert (forall p, at_price_of sd p (q ++ [e]) = at_price_of sd p q ++ if is_side sd e.2 && (os_price e.2 =? p) then [e] else []) as Hsnoc.
  { intros p'. by rewrite at_price_app, at_price_cons. }
  assert (forall p, zsum erem (at_price_of sd p q) <= I64_MAX /\ zlen (at_price_of sd p q) <= U32_MAX) as Hbq.
  { intros p'. specialize (Hb p'). rewrite Hsnoc, zsum_app, zlen_app in Hb.
    assert (0 <= zsum erem (if is_side sd e.2 && (os_price e.2 =? p') then [e] else []) /\ 0 <= zlen (if is_side sd e.2 && (os_price e.2 =? p') then [e] else [])); [|lia].
    split; [case_if; cbn; lia|apply zlen_nonneg]. }
  specialize (IH Hnq Hbq). unfold qfold in *. rewrite fold_left_app. cbn [fold_left]. unfold side_step at 1.
  change (os_side e.2 =? side_u8 sd) with (is_side sd e.2). unfold grouped. rewrite Hsnoc.
  destruct (is_side sd e.2) eqn:Es; cbn [andb]; [|rewrite app_nil_r; apply IH].
  pose proof (Hb (os_price e.2)) as [H1 H2]. rewrite Hsnoc, ?Es, Z.eqb_refl in H1, H2. cbn [andb] in H1, H2. rewrite zsum_app in H1. rewrite zlen_app in H2.
  pose proof (IH (os_price e.2)) as Ep. unfold grouped in Ep. rewrite Ep.
  destruct (os_price e.2 =? p) eqn:E; bool_to_prop.
  - subst p. rewrite lookup_insert_eq. destruct (at_price_of sd (os_price e.2) q) as [|x l] eqn:El.
    + cbn [default ll_price ll_qty ll_count app]. f_equal. f_equal; change (os_remaining e.2) with (erem e).
      cbn in H1 |- *. rewrite wrap_i64_id by width_lia. lia.
    + cbn [default ll_price ll_qty ll_count]. change ((x :: l) ++ [e]) with (x :: (l ++ [e])). cbv beta iota. change (x :: (l ++ [e])) with ((x :: l) ++ [e]).
      rewrite zsum_app, zlen_app. change (os_remaining e.2) with (erem e). f_equal. f_equal.
      * change (zsum erem [e]) with (erem e + 0) in *. rewrite Z.add_0_r in *. rewrite wrap_i64_id; [done|].
        pose proof (at_price_nonneg sd (os_price e.2) q Hnq) as Hz. rewrite El in *. cbn [id ll_qty] in *. width_lia.
      * change (zlen [e]) with 1 in *. rewrite wrap_u32_id; [done|]. pose proof (zlen_nonneg (x :: l)). cbn [id ll_count] in *. width_lia.
  - rewrite lookup_insert_ne by done. rewrite app_nil_r. apply IH.
Qed.

Section Ladder.
Context (cfg : BookConfig) (mid : Z) (A : ABook) (fl : list Z) (s : ShadowBook) (index : gmap OrderKey Z) (m : Market).
Abbreviation tk := (bc_tick_size cfg).
Context (Hh : hosted cfg mid A fl (sb_book s) index m).

Lemma linkless_side sd : linkless (side_step sd).
Proof. by intros acc n q x. Qed.

Lemma side_skip sd q M : zsum (on_side sd) q = 0 -> qfold (side_step sd) q M = M.
Proof.
  rewrite zsum_on_side_zero. unfold qfold. revert M. induction q as [|e q IH]; intros M Hq; [done|]. cbn [fold_left].
  assert (side_step sd M e.2 = M) as ->; [|apply IH; intros x Hx; apply Hq; by right].
  unfold side_step. change (os_side e.2 =? side_u8 sd) with (is_side sd e.2). by rewrite (Hq e (or_introl eq_refl)).
Qed.

Lemma side_level_spec sd t M : side_level s sd M (level_of (A t)) = Ok (qfold (side_step sd) (A t) M).
Proof.
  unfold side_level. pose proof (view_core cfg mid A fl s index m Hh) as Hc. cbn [level_of lv_bid_count lv_ask_count lv_head].
  rewrite (links_walk _ _ _ _ _ _ fl (linkless_side sd) (c_links _ _ _ _ _ Hc) (c_slab _ _ _ _ _ Hc)).
  destruct sd; case_if; try done; bool_to_prop; by rewrite side_skip.
Qed.

Lemma side_levels_fold sd ls M : (forall t, 0 <= t < zlen ls -> vget ls t = Some (level_of (A t))) ->
  rfold (side_level s sd) M ls = Ok (qfold (side_step sd) (flat_map A (zrange 0 (zlen ls))) M).
Proof.
  induction ls as [|l ls IH] using rev_ind; intros Hl; [done|]. rewrite zlen_snoc in *. pose proof (zlen_nonneg ls).
  rewrite rfold_app, IH by (intros t Ht; specialize (Hl t ltac:(lia)); by rewrite vget_app_l in Hl by lia).
  cbn [mbind Res_bind rfold]. specialize (Hl (zlen ls) ltac:(lia)). rewrite vget_snoc in Hl. injection Hl as ->.
  rewrite side_level_spec. cbn [mbind Res_bind]. rewrite (zrange_split 0 (zlen ls) (zlen ls + 1)), (zrange_empty (zlen ls + 1)) by lia.
  rewrite flat_map_app. cbn [flat_map]. rewrite app_nil_r. unfold qfold. by rewrite fold_left_app.
Qed.

Lemma at_price_entries sd p : at_price_of sd p (entries mid tk A) = at_price_of sd p (A (idx mid tk p)).
Proof.
  unfold at_price_of. rewrite !of_side_queue. f_equal. exact (entries_queue mid tk A fl (sb_book s) p (view_core cfg mid A fl s index m Hh)).
Qed.

Lemma entries_fold sd p : qfold (side_step sd) (entries mid tk A) ∅ !! p =
  match queue_of rs_price p (mk_side sd m) with [] => None | _ => Some (rung p (mk_side sd m)) end.
Proof.
  pose proof (view_core cfg mid A fl s index m Hh) as Hc.
  rewrite side_fold; [| |].
  - unfold grouped. rewrite (rung_slot cfg mid A fl s index m Hh), at_price_entries.
    rewrite (view_side cfg mid A fl s index m Hh), <- (map_queue_of epx rs_price) by done.
    rewrite (priority_queue mid tk sd A fl (sb_book s) p Hc). unfold at_price_of. rewrite of_side_queue. by destruct (of_side sd _).
  - intros e (t & Ht)%(in_entries mid tk (ho_cfg _ _ _ _ _ _ _ Hh) A fl (sb_book s) e Hc). by apply (lk_qty _ _ _ (c_links _ _ _ _ _ Hc) t).
  - intros p'. rewrite at_price_entries. destruct (slot_rung_bounds cfg mid A fl s index m Hh (idx mid tk p')) as (Hn & Hs & Hl).
    assert (forall q, (forall e, In e q -> 0 <= erem e) -> zsum erem (at_price_of sd p' q) <= zsum erem q /\ zlen (at_price_of sd p' q) <= zlen q) as Hle.
    { clear. induction q as [|e q IH]; intros Hn; [done|]. specialize (IH (fun x Hx => Hn x (or_intror Hx))). pose proof (Hn e (or_introl eq_refl)).
      rewrite at_price_cons, zsum_cons, zlen_cons. case_if; rewrite ?zsum_cons, ?zlen_cons; lia. }
    destruct (Hle _ Hn). lia.
Qed.

Lemma in_prices p q : In p (nodup Z.eq_dec (map rs_price q)) <-> queue_of rs_price p q <> [].
Proof.
  rewrite nodup_In, in_map_iff. split.
  - intros (r & <- & Hr) E. assert (In r (queue_of rs_price (rs_price r) q)) as Hi by (by apply in_queue_of). by rewrite E in Hi.
  - intros Hne. destruct (queue_of rs_price p q) as [|r l] eqn:E; [done|]. exists r.
    assert (In r (queue_of rs_price p q)) as Hi by (rewrite E; by left). apply in_queue_of in Hi. tauto.
Qed.

(** The entries of the table are the rungs. *)
Lemma table_rungs sd (M : gmap Z L2Level) : (forall p, M !! p = match queue_of rs_price p (mk_side sd m) with [] => None | _ => Some (rung p (mk_side sd m)) end) ->
  map snd (map_to_list M) ≡ₚ ladder sd m.
Proof.
  intros HM. assert (forall x, In x (map_to_list M) <-> exists p, x = (p, rung p (mk_side sd m)) /\ queue_of rs_price p (mk_side sd m) <> []) as Hin.
  { intros [p l]. rewrite <- list_elem_of_In, elem_of_map_to_list, HM. destruct (queue_of rs_price p (mk_side sd m)) eqn:E.
    - split; [done|]. by intros (p' & [= -> _] & Hne).
    - split; [intros [= <-]; exists p; by rewrite E|]. by intros (p' & [= -> ->] & _). }
  assert (forall (l1 l2 : list Z) (f : Z -> L2Level), NoDup l1 -> NoDup l2 -> (forall x, In x l1 <-> In x l2) -> map f l1 ≡ₚ map f l2) as Hperm.
  { intros l1 l2 f H1 H2 He. apply Permutation_map, NoDup_Permutation; [done..|]. intros x. by rewrite !list_elem_of_In. }
  assert (map snd (map_to_list M) = map (fun p => rung p (mk_side sd m)) (map fst (map_to_list M))) as ->.
  { rewrite map_map. apply map_ext_in. intros x Hx. apply Hin in Hx as (p & -> & _). done. }
  apply Hperm; [apply NoDup_fst_map_to_list|apply NoDup_ListNoDup, NoDup_nodup|].
  intros p. rewrite in_prices, in_map_iff. split.
  - intros (x & <- & Hx). apply Hin in Hx as (p' & -> & Hne). done.
  - intros Hne. exists (p, rung p (mk_side sd m)). split; [done|]. apply Hin. by exists p.
Qed.

End Ladder.

(** ** Sorting *)

Lemma nodup_sorted {R : Z -> Z -> Prop} l : StronglySorted R l -> StronglySorted R (nodup Z.eq_dec l).
Proof.
  induction 1 as [|x l _ IH Hx]; [constructor|]. cbn [nodup]. destruct (in_dec Z.eq_dec x l); [done|]. constructor; [done|].
  apply List.Forall_forall. intros y Hy%nodup_In. by apply (proj1 (List.Forall_forall _ _) Hx).
Qed.

Lemma map_sorted {X Y} (R : X -> X -> Prop) (R' : Y -> Y -> Prop) (f : X -> Y) l :
  (forall x y, R x y -> R' (f x) (f y)) -> StronglySorted R l -> StronglySorted R' (map f l).
Proof.
  intros Hf. induction 1 as [|x l _ IH Hx]; [constructor|]. constructor; [done|]. apply List.Forall_forall. intros y (z & <- & Hz)%in_map_iff.
  apply Hf. by apply (proj1 (List.Forall_forall _ _) Hx).
Qed.

Lemma market_ranked mid tk sd A b : ranked rs_price sd (mk_side sd (market_of mid tk A b)).
Proof. rewrite mk_side_of. unfold priority. rewrite (map_ranking epx rs_price) by done. apply ranking_ranked. Qed.

Definition nearer (sd : Side) (x y : L2Level) : Prop := no_worse sd (ll_price x) (ll_price y).

Lemma ladder_sorted sd m : ranked rs_price sd (mk_side sd m) -> StronglySorted (nearer sd) (ladder sd m).
Proof.
  intros Hr. apply (map_sorted (no_worse sd)); [done|]. apply nodup_sorted.
  by apply (map_sorted (fun x y => no_worse sd (rs_price x) (rs_price y)) (no_worse sd) rs_price).
Qed.

Lemma ladder_rung sd m x : In x (ladder sd m) -> x = rung (ll_price x) (mk_side sd m).
Proof. unfold ladder. by intros (p & <- & _)%in_map_iff. Qed.

Lemma sorted_ladder sd m (R : L2Level -> L2Level -> Prop) `{!RelDecision R} l :
  (forall x y, R x y <-> nearer sd x y) -> ranked rs_price sd (mk_side sd m) -> l ≡ₚ ladder sd m -> merge_sort R l = ladder sd m.
Proof.
  intros HR Hr Hl. assert (Transitive R) by (intros x y z; rewrite !HR; apply no_worse_trans).
  assert (Total R) by (intros x y; rewrite !HR; unfold nearer; destruct sd; cbn; lia).
  apply (StronglySorted_unique_strong R).
  - intros x y Hx Hy. rewrite !HR. intros H1 H2. pose proof (no_worse_antisym sd _ _ H1 H2) as Ep.
    rewrite merge_sort_Permutation, Hl in Hx. rewrite list_elem_of_In in Hx, Hy. rewrite (ladder_rung sd m x Hx), (ladder_rung sd m y Hy). by rewrite Ep.
  - by apply StronglySorted_merge_sort.
  - eapply sorted_weaken; [by apply ladder_sorted|]. intros x y _ _. by rewrite HR.
  - by rewrite merge_sort_Permutation.
Qed.

Lemma ladder_view `{HashIter} cfg mid A fl s index m : hosted cfg mid A fl (sb_book s) index m ->
  forall depth, collect_levels_bid s depth = Ok (take depth (ladder Buy m)) /\ collect_levels_ask s depth = Ok (take depth (ladder Sell m)).
Proof.
  intros Hh depth. pose proof (view_core cfg mid A fl s index m Hh) as Hc.
  assert (forall sd, ranked rs_price sd (mk_side sd m)) as Hr.
  { intros sd. rewrite (view_side cfg mid A fl s index m Hh), <- (mk_side_of mid (bc_tick_size cfg) sd A (sb_book s)). apply market_ranked. }
  assert (forall sd, exists l, side_levels s sd = Ok l /\ l ≡ₚ ladder sd m) as Hl.
  { intros sd. unfold side_levels. rewrite (side_levels_fold cfg mid A fl s index m Hh sd).
    2: { intros t Ht. apply (core_level mid _ A fl (sb_book s) t Hc). by rewrite (c_len _ _ _ _ _ Hc) in Ht. }
    rewrite (c_len _ _ _ _ _ Hc). cbn [mbind Res_bind]. eexists. split; [reflexivity|].
    rewrite (Permutation_map snd (iter_map_perm _)). apply (table_rungs m sd). intros p. by apply (entries_fold cfg mid A fl s index m Hh). }
  unfold collect_levels_bid, collect_levels_ask. destruct (Hl Buy) as (lb & -> & Hb). destruct (Hl Sell) as (la & -> & Ha). cbn [mbind Res_bind].
  rewrite (sorted_ladder Buy m dearer lb), (sorted_ladder Sell m cheaper la); done.
Qed.
