(* ===== verification/Feed.v ===== *)
(** * Feed: the market-data process and its subscribers [rsx-marketdata/src]

    [subscription.rs], [egress.rs], [state.rs], [apply.rs] and the client
    frames of [handler.rs]: records fold into one shadow book per symbol, and
    every change goes out to the subscribers' bounded queues.  A frame is the
    message it carries: its protobuf body is third-party code.  [now] is the
    clock's reading while an operation runs. *)

From S2P Require Import Prelude Hash Types Slab Compression Users Order Book Matching Migration Frames Messages Wal Cast Shadow.

(** ** Frames [wire.rs] *)

Inductive Frame : Type :=
| FrameBbo (bbo : BboUpdate)
| FrameSnapshot (snapshot : L2Snapshot)
| FrameDelta (delta : L2Delta)
| FrameTrade (trade : TradeEvent)
| FrameHeartbeat (timestamp_ms : Z).

(** ** Subscriptions [subscription.rs] *)

Definition CHANNEL_BBO : Z := 1.
Definition CHANNEL_DEPTH : Z := 2.
Definition CHANNEL_TRADES : Z := 4.

Record ClientSubscription : Type := mkSubscription { cs_symbols : gmap Z Z; cs_depth : Z }.
Record SubscriptionManager : Type := mkSubs { sm_clients : gmap Z ClientSubscription; sm_symbol_clients : gmap Z (gset Z) }.

Definition SubscriptionManager_new : SubscriptionManager := mkSubs ∅ ∅.

Definition subscribe (client_id symbol_id channels depth : Z) (m : SubscriptionManager) : bool * SubscriptionManager :=
  let entry := default (mkSubscription ∅ depth) (sm_clients m !! client_id) in
  let is_new := bool_decide (cs_symbols entry !! symbol_id = None) in
  (is_new, mkSubs (<[client_id := mkSubscription (<[symbol_id := channels]> (cs_symbols entry)) depth]> (sm_clients m))
             (<[symbol_id := default ∅ (sm_symbol_clients m !! symbol_id) ∪ {[client_id]}]> (sm_symbol_clients m))).

Definition leave (client_id : Z) (clients : gset Z) : gset Z := clients ∖ {[client_id]}.

Definition unsubscribe (client_id symbol_id : Z) (m : SubscriptionManager) : SubscriptionManager :=
  mkSubs (alter (fun sub => mkSubscription (delete symbol_id (cs_symbols sub)) (cs_depth sub)) client_id (sm_clients m))
    (alter (leave client_id) symbol_id (sm_symbol_clients m)).

Definition unsubscribe_all `{HashIter} (client_id : Z) (m : SubscriptionManager) : SubscriptionManager :=
  match sm_clients m !! client_id with
  | None => m
  | Some sub => mkSubs (delete client_id (sm_clients m))
      (fold_left (fun sets symbol_id => alter (leave client_id) symbol_id sets) (map fst (iter_map (cs_symbols sub))) (sm_symbol_clients m))
  end.

Definition clients_for_symbol `{HashIter} (symbol_id : Z) (m : SubscriptionManager) : list Z :=
  match sm_symbol_clients m !! symbol_id with Some s => iter_set s | None => [] end.

Definition has_channel (channel client_id symbol_id : Z) (m : SubscriptionManager) : bool :=
  match sm_clients m !! client_id with
  | None => false
  | Some s => match cs_symbols s !! symbol_id with Some ch => negb (Z.land ch channel =? 0) | None => false end
  end.
Definition has_bbo := has_channel CHANNEL_BBO.
Definition has_depth := has_channel CHANNEL_DEPTH.
Definition has_trades := has_channel CHANNEL_TRADES.

Definition client_depth (client_id : Z) (m : SubscriptionManager) : Z :=
  match sm_clients m !! client_id with Some s => cs_depth s | None => 10 end.

(** ** Wakes [egress.rs]

    A parked task is known by a number. *)

Record EgressWaker : Type := mkEgress { ew_pending : bool; ew_waker : option Z }.

Definition EgressWaker_default : EgressWaker := mkEgress false None.

(** The task that is woken, if any. *)
Definition signal (e : EgressWaker) : option Z * EgressWaker := (ew_waker e, mkEgress true None).

(** [poll] of the future of [wait]: whether it is ready. *)
Definition poll_wait (task : Z) (e : EgressWaker) : bool * EgressWaker :=
  if ew_pending e then (true, mkEgress false (ew_waker e)) else (false, mkEgress (ew_pending e) (Some task)).

(** ** State [state.rs] *)

Record ConnectionState : Type := mkConnection { cn_outbound : list Frame; cn_egress : EgressWaker; cn_last_heartbeat_ns : Z }.

Record MarketDataState : Type := mkState {
  ms_next_conn_id : Z;
  ms_connections : gmap Z ConnectionState;
  ms_subs : SubscriptionManager;
  ms_books : list (option ShadowBook);
  ms_last_bbo : list (option BboUpdate);
  ms_gap_count : Z;
  ms_base_config : BookConfig;
  ms_book_capacity : Z;
  ms_mid_price_default : Z;
  ms_last_book_access : list Z;
}.

Definition MarketDataState_new (max_symbols : nat) (base_config : BookConfig) (book_capacity mid_price_default : Z) : MarketDataState :=
  mkState 0 ∅ SubscriptionManager_new (List.repeat None max_symbols) (List.repeat None max_symbols) 0 base_config book_capacity mid_price_default
    (List.repeat 0 max_symbols).

Definition ms_with_connections (c : gmap Z ConnectionState) (st : MarketDataState) : MarketDataState :=
  mkState (ms_next_conn_id st) c (ms_subs st) (ms_books st) (ms_last_bbo st) (ms_gap_count st) (ms_base_config st) (ms_book_capacity st)
    (ms_mid_price_default st) (ms_last_book_access st).
Definition ms_with_subs (s : SubscriptionManager) (st : MarketDataState) : MarketDataState :=
  mkState (ms_next_conn_id st) (ms_connections st) s (ms_books st) (ms_last_bbo st) (ms_gap_count st) (ms_base_config st) (ms_book_capacity st)
    (ms_mid_price_default st) (ms_last_book_access st).
Definition ms_with_books (b : list (option ShadowBook)) (st : MarketDataState) : MarketDataState :=
  mkState (ms_next_conn_id st) (ms_connections st) (ms_subs st) b (ms_last_bbo st) (ms_gap_count st) (ms_base_config st) (ms_book_capacity st)
    (ms_mid_price_default st) (ms_last_book_access st).
Definition ms_with_last_bbo (l : list (option BboUpdate)) (st : MarketDataState) : MarketDataState :=
  mkState (ms_next_conn_id st) (ms_connections st) (ms_subs st) (ms_books st) l (ms_gap_count st) (ms_base_config st) (ms_book_capacity st)
    (ms_mid_price_default st) (ms_last_book_access st).
Definition ms_with_access (l : list Z) (st : MarketDataState) : MarketDataState :=
  mkState (ms_next_conn_id st) (ms_connections st) (ms_subs st) (ms_books st) (ms_last_bbo st) (ms_gap_count st) (ms_base_config st)
    (ms_book_capacity st) (ms_mid_price_default st) l.

Definition add_connection (now : Z) (st : MarketDataState) : Z * MarketDataState :=
  let id := ms_next_conn_id st in
  (id, mkState (wrap_u64 (id + 1)) (<[id := mkConnection [] EgressWaker_default now]> (ms_connections st)) (ms_subs st) (ms_books st)
         (ms_last_bbo st) (ms_gap_count st) (ms_base_config st) (ms_book_capacity st) (ms_mid_price_default st) (ms_last_book_access st)).

Definition remove_connection `{HashIter} (conn_id : Z) (st : MarketDataState) : MarketDataState :=
  ms_with_subs (unsubscribe_all conn_id (ms_subs st)) (ms_with_connections (delete conn_id (ms_connections st)) st).

Definition queued (msg : Frame) (conn : ConnectionState) : ConnectionState :=
  mkConnection (cn_outbound conn ++ [msg]) (signal (cn_egress conn)).2 (cn_last_heartbeat_ns conn).

Definition push_to_client (conn_id : Z) (msg : Frame) (max_outbound : Z) (st : MarketDataState) : bool * MarketDataState :=
  match ms_connections st !! conn_id with
  | Some conn =>
      if zlen (cn_outbound conn) >=? max_outbound then (false, st)
      else (true, ms_with_connections (<[conn_id := queued msg conn]> (ms_connections st)) st)
  | None => (false, st)
  end.

Definition drain_outbound (conn_id : Z) (st : MarketDataState) : list Frame * MarketDataState :=
  match ms_connections st !! conn_id with
  | Some conn =>
      (cn_outbound conn, ms_with_connections (<[conn_id := mkConnection [] (cn_egress conn) (cn_last_heartbeat_ns conn)]> (ms_connections st)) st)
  | None => ([], st)
  end.

(** [None] when the symbol is out of range; an empty snapshot when it has no book. *)
Definition snapshot_msg `{HashIter} (symbol_id depth : Z) (st : MarketDataState) : Res (option Frame) :=
  match vget (ms_books st) symbol_id with
  | None => Ok None
  | Some (Some book) => snapshot ← derive_l2_snapshot book (Z.to_nat depth); Ok (Some (FrameSnapshot snapshot))
  | Some None => Ok (Some (FrameSnapshot (mkL2Snapshot symbol_id [] [] 0 0)))
  end.

Definition for_symbol (symbol_id : Z) (c : BookConfig) : BookConfig := mkConfig symbol_id (bc_tick_size c) (bc_lot_size c).

(** [if idx < self.last_book_access.len() { self.last_book_access[idx] = time_ns() }] *)
Definition touch (now idx : Z) (st : MarketDataState) : MarketDataState :=
  if idx <? zlen (ms_last_book_access st) then ms_with_access (vput (ms_last_book_access st) idx now) st else st.

Definition ensure_book (now symbol_id mid_price_hint : Z) (st : MarketDataState) : Res MarketDataState :=
  if symbol_id >=? zlen (ms_books st) then Ok st
  else
    st ← match vget (ms_books st) symbol_id with
         | Some None =>
             let mid := if mid_price_hint >? 0 then mid_price_hint else ms_mid_price_default st in
             book ← ShadowBook_new (for_symbol symbol_id (ms_base_config st)) (ms_book_capacity st) mid;
             Ok (ms_with_books (vput (ms_books st) symbol_id (Some book)) st)
         | _ => Ok st
         end;
    Ok (touch now symbol_id st).

(** The book to change, and the state with its last access noted. *)
Definition book_mut (now symbol_id : Z) (st : MarketDataState) : option ShadowBook * MarketDataState :=
  let st := touch now symbol_id st in
  (match vget (ms_books st) symbol_id with Some book => book | None => None end, st).

Definition put_book (symbol_id : Z) (book : ShadowBook) (st : MarketDataState) : MarketDataState :=
  ms_with_books (vput (ms_books st) symbol_id (Some book)) st.

(** [for idx in 0..self.books.len()] *)
Definition evict_stale_book `{HashIter} (now ttl_ns : Z) (st : MarketDataState) (idx : Z) : MarketDataState :=
  match vget (ms_books st) idx with
  | Some (Some _) =>
      let last := arr (ms_last_book_access st) idx in
      if last =? 0 then st
      else if sat_u64 (now - last) <? ttl_ns then st
      else if bool_decide (clients_for_symbol idx (ms_subs st) = []) then
        ms_with_access (vput (ms_last_book_access st) idx 0) (ms_with_books (vput (ms_books st) idx None) st)
      else st
  | _ => st
  end.
Definition evict_stale_books `{HashIter} (now ttl_ns : Z) (st : MarketDataState) : MarketDataState :=
  fold_left (evict_stale_book now ttl_ns) (zrange 0 (zlen (ms_books st))) st.

Definition note_gap (st : MarketDataState) : MarketDataState :=
  mkState (ms_next_conn_id st) (ms_connections st) (ms_subs st) (ms_books st) (ms_last_bbo st) (wrap_u64 (ms_gap_count st + 1))
    (ms_base_config st) (ms_book_capacity st) (ms_mid_price_default st) (ms_last_book_access st).

Section Feed.
Context `{HashIter}.

Definition resend_snapshot (symbol_id depth max_outbound : Z) (st : MarketDataState) : Res MarketDataState :=
  msg ← snapshot_msg symbol_id depth st;
  match msg with
  | None => Ok st
  | Some snapshot =>
      Ok (fold_left (fun st client_id =>
            if has_depth client_id symbol_id (ms_subs st) then (push_to_client client_id snapshot max_outbound st).2 else st)
          (clients_for_symbol symbol_id (ms_subs st)) st)
  end.

Definition resend_all_snapshots (depth max_outbound : Z) (st : MarketDataState) : Res MarketDataState :=
  rfold (fun st sid => match vget (ms_books st) sid with Some (Some _) => resend_snapshot sid depth max_outbound st | _ => Ok st end)
    st (zrange 0 (zlen (ms_books st))).

Definition clear_outbound (conn : ConnectionState) : ConnectionState := mkConnection [] (cn_egress conn) (cn_last_heartbeat_ns conn).

Definition send_snapshot_to_client (client_id symbol_id depth max_outbound : Z) (st : MarketDataState) : Res MarketDataState :=
  let st := ms_with_connections (alter clear_outbound client_id (ms_connections st)) st in
  msg ← snapshot_msg symbol_id depth st;
  Ok (match msg with Some snapshot => (push_to_client client_id snapshot max_outbound st).2 | None => st end).

Definition broadcast_heartbeat (ts_ms : Z) (st : MarketDataState) : MarketDataState :=
  ms_with_connections (queued (FrameHeartbeat ts_ms) <$> ms_connections st) st.

Definition update_heartbeat (now conn_id : Z) (st : MarketDataState) : MarketDataState :=
  ms_with_connections (alter (fun conn => mkConnection (cn_outbound conn) (cn_egress conn) now) conn_id (ms_connections st)) st.

Definition check_timeouts (now timeout_ns : Z) (st : MarketDataState) : list Z * MarketDataState :=
  let timed_out := map fst (List.filter (fun c => sat_u64 (now - cn_last_heartbeat_ns c.2) >=? timeout_ns) (iter_map (ms_connections st))) in
  (timed_out, fold_left (fun st conn_id => remove_connection conn_id st) timed_out st).

(** ** Records [apply.rs] *)

(** A frame a client's queue has no room for. *)
Definition push_or_resync (client_id symbol_id : Z) (msg : Frame) (max_outbound : Z) (st : MarketDataState) : Res MarketDataState :=
  let '(accepted, st) := push_to_client client_id msg max_outbound st in
  if accepted then Ok st else send_snapshot_to_client client_id symbol_id (client_depth client_id (ms_subs st)) max_outbound st.

Definition send_updates (symbol_id max_outbound : Z) (delta_msg : Frame) (bbo_msg : option Frame) (st : MarketDataState) (client_id : Z) : Res MarketDataState :=
  st ← (if has_depth client_id symbol_id (ms_subs st) then push_or_resync client_id symbol_id delta_msg max_outbound st else Ok st);
  Ok (match bbo_msg with
      | Some msg => if has_bbo client_id symbol_id (ms_subs st) then (push_to_client client_id msg max_outbound st).2 else st
      | None => st
      end).

(** Whether the top of the book is news, and the state that knows it. *)
Definition note_bbo (symbol_id : Z) (bbo : BboUpdate) (st : MarketDataState) : bool * MarketDataState :=
  match vget (ms_last_bbo st) symbol_id with
  | Some last =>
      if bool_decide (last = Some bbo) then (false, st)
      else (true, ms_with_last_bbo (vput (ms_last_bbo st) symbol_id (Some bbo)) st)
  | None => (true, st)
  end.

Definition broadcast_updates (now symbol_id side price max_outbound : Z) (st : MarketDataState) : Res MarketDataState :=
  let '(book, st) := book_mut now symbol_id st in
  match book with
  | None => Ok st
  | Some book =>
      delta ← derive_l2_delta book side price;
      bbo ← derive_bbo book;
      let '(bbo_msg, st) :=
        match bbo with
        | Some bbo => let '(changed, st) := note_bbo symbol_id bbo st in (if changed : bool then Some (FrameBbo bbo) else None, st)
        | None => (None, st)
        end in
      rfold (send_updates symbol_id max_outbound (FrameDelta delta) bbo_msg) st (clients_for_symbol symbol_id (ms_subs st))
  end.

Definition apply_insert (now max_outbound : Z) (rec : OrderInsertedRecord) (st : MarketDataState) : Res MarketDataState :=
  st ← ensure_book now (wn_symbol_id rec) (wn_price rec) st;
  let '(book, st) := book_mut now (wn_symbol_id rec) st in
  match book with
  | None => Ok st
  | Some book =>
      '(_, book) ← insert_on_book rec book;
      broadcast_updates now (wn_symbol_id rec) (wn_side rec) (wn_price rec) max_outbound (put_book (wn_symbol_id rec) book st)
  end.

Definition apply_cancel (now max_outbound : Z) (rec : OrderCancelledRecord) (st : MarketDataState) : Res MarketDataState :=
  let '(book, st) := book_mut now (wc_symbol_id rec) st in
  match book with
  | None => Ok st
  | Some book =>
      '(update, book) ← cancel_on_shadow rec book;
      let st := put_book (wc_symbol_id rec) book st in
      match update with
      | Some (side, price) => broadcast_updates now (wc_symbol_id rec) side price max_outbound st
      | None => Ok st
      end
  end.

Definition send_trade (symbol_id max_outbound : Z) (msg : Frame) (st : MarketDataState) (client_id : Z) : Res MarketDataState :=
  if has_trades client_id symbol_id (ms_subs st) then push_or_resync client_id symbol_id msg max_outbound st else Ok st.

Definition apply_fill (now max_outbound : Z) (rec : FillRecord) (st : MarketDataState) : Res MarketDataState :=
  let '(book, st) := book_mut now (wf_symbol_id rec) st in
  match book with
  | None => Ok st
  | Some book =>
      '(update, book) ← fill_on_shadow rec book;
      let st := put_book (wf_symbol_id rec) book st in
      match update with
      | Some (side, price) =>
          let trade := make_trade book (wf_price rec) (wf_qty rec) (wf_taker_side rec) (wf_ts_ns rec) in
          st ← broadcast_updates now (wf_symbol_id rec) side price max_outbound st;
          rfold (send_trade (wf_symbol_id rec) max_outbound (FrameTrade trade)) st (clients_for_symbol (wf_symbol_id rec) (ms_subs st))
      | None => Ok st
      end
  end.

Definition apply_record (now max_outbound record_type : Z) (payload : list Z) (st : MarketDataState) : Res MarketDataState :=
  if record_type =? RECORD_ORDER_INSERTED then
    match decode_payload (T := OrderInsertedRecord) payload with Some rec => apply_insert now max_outbound rec st | None => Ok st end
  else if record_type =? RECORD_ORDER_CANCELLED then
    match decode_payload (T := OrderCancelledRecord) payload with Some rec => apply_cancel now max_outbound rec st | None => Ok st end
  else if record_type =? RECORD_FILL then
    match decode_payload (T := FillRecord) payload with Some rec => apply_fill now max_outbound rec st | None => Ok st end
  else Ok st.

(** ** The live stream [main.rs] *)

(** The gap check of the receive loop before it applies a record. *)
Definition on_record_seq (snapshot_depth max_outbound expected : Z) (payload : list Z) (st : MarketDataState) : Res (Z * MarketDataState) :=
  match extract_seq payload with
  | None => Ok (expected, st)
  | Some seq =>
      st ← (if negb (expected =? 0) && (seq >? expected) then resend_all_snapshots snapshot_depth max_outbound (note_gap st) else Ok st);
      Ok (if seq >=? expected then wrap_u64 (seq + 1) else expected, st)
  end.

Definition on_live_record (now snapshot_depth max_outbound expected record_type : Z) (payload : list Z) (st : MarketDataState) : Res (Z * MarketDataState) :=
  '(expected, st) ← on_record_seq snapshot_depth max_outbound expected payload st;
  st ← apply_record now max_outbound record_type payload st;
  Ok (expected, st).

(** ** Client frames [handler.rs] *)

Inductive MdFrame : Type :=
| Subscribe (symbol_id channels : Z)
| Unsubscribe (symbol_id channels : Z)
| Heartbeat (timestamp_ms : Z).

Definition on_client_frame (now snapshot_depth max_outbound conn_id : Z) (frame : MdFrame) (st : MarketDataState) : Res MarketDataState :=
  match frame with
  | Subscribe symbol_id channels =>
      let st := ms_with_subs (subscribe conn_id symbol_id channels snapshot_depth (ms_subs st)).2 st in
      if negb (Z.land channels 2 =? 0) then send_snapshot_to_client conn_id symbol_id snapshot_depth max_outbound st else Ok st
  | Unsubscribe symbol_id _ =>
      Ok (if symbol_id =? 0 then ms_with_subs (unsubscribe_all conn_id (ms_subs st)) st
          else ms_with_subs (unsubscribe conn_id symbol_id (ms_subs st)) st)
  | Heartbeat timestamp_ms =>
      Ok (push_to_client conn_id (FrameHeartbeat timestamp_ms) max_outbound (update_heartbeat now conn_id st)).2
  end.

End Feed.
