(* ===== verification/FeedView.v ===== *)
(** * FeedView: what a depth subscriber makes of its frames

    A subscriber keeps a table of levels: a snapshot replaces it, a delta
    sets one level and a quantity of zero removes it.  Each delta that the
    process derives takes the table of the market before a record to the
    table of the market after it. *)

From Stdlib Require Import Sorted.
From S2P Require Import Prelude Hash Types Slab Occupancy Compression Users Order Book Links BookInv Matching MatchInv.
From S2P Require Import FillQueue SlotMatch Engine Feasible Process Ranking Market Priority MarketRef MarketClaims.
From S2P Require Import Frames Messages Wal Cast Dedup Tile TileInv Shadow Tape ShadowInv ShadowRun ShadowView Feed.

(** By side and price: the quantity and the number of orders. *)
Abbreviation Levels := (gmap (Z * Z) (Z * Z)).

Definition level_entry (sd : Side) (x : L2Level) : (Z * Z) * (Z * Z) := ((side_u8 sd, ll_price x), (ll_qty x, ll_count x)).
Definition levels_of (bids asks : list L2Level) : Levels := list_to_map (map (level_entry Buy) bids ++ map (level_entry Sell) asks).

Definition seen (symbol_id : Z) (v : Levels) (f : Frame) : Levels :=
  match f with
  | FrameSnapshot x => if ls_symbol_id x =? symbol_id then levels_of (ls_bids x) (ls_asks x) else v
  | FrameDelta d =>
      if ld_symbol_id d =? symbol_id then
        if ld_qty d =? 0 then delete (ld_side d, ld_price d) v else <[(ld_side d, ld_price d) := (ld_qty d, ld_count d)]> v
      else v
  | _ => v
  end.

Definition shown (symbol_id : Z) (v : Levels) (fs : list Frame) : Levels := fold_left (seen symbol_id) fs v.

Definition market_levels (m : Market) : Levels := levels_of (ladder Buy m) (ladder Sell m).

Lemma shown_app symbol_id v fs fs' : shown symbol_id v (fs ++ fs') = shown symbol_id (shown symbol_id v fs) fs'.
Proof. apply fold_left_app. Qed.

#[global] Instance market_levels_proper : Proper ((≡) ==> (=)) market_levels.
Proof. intros m m' (H1 & H2 & _). unfold market_levels, ladder. cbn. by rewrite H1, H2. Qed.

(** ** The table of a market *)

Definition rung_of (sd : Side) (p : Z) (m : Market) : option (Z * Z) :=
  match queue_of rs_price p (mk_side sd m) with [] => None | q => Some (zsum rs_qty q, zlen q) end.

Lemma ladder_in sd m x : In x (ladder sd m) <-> exists p, x = rung p (mk_side sd m) /\ queue_of rs_price p (mk_side sd m) <> [].
Proof.
  unfold ladder. rewrite in_map_iff. split.
  - intros (p & <- & Hp). exists p. split; [done|]. by apply in_prices.
  - intros (p & -> & Hp). exists p. split; [done|]. by apply in_prices.
Qed.

Lemma entries_nodup sd m : NoDup (map fst (map (level_entry sd) (ladder sd m))).
Proof.
  unfold ladder. rewrite !map_map. cbn [level_entry fst rung ll_price]. apply (NoDup_fmap_2 (fun p => (side_u8 sd, p))).
  apply NoDup_ListNoDup, NoDup_nodup.
Qed.

Lemma levels_nodup m : NoDup (map fst (map (level_entry Buy) (ladder Buy m) ++ map (level_entry Sell) (ladder Sell m))).
Proof.
  rewrite map_app. apply NoDup_app. split; [apply entries_nodup|]. split; [|apply entries_nodup].
  intros k H1 H2. rewrite list_elem_of_In, map_map in H1, H2. apply in_map_iff in H1 as (x & <- & _), H2 as (y & E & _). done.
Qed.

Lemma market_levels_side m sd p : market_levels m !! (side_u8 sd, p) = rung_of sd p m.
Proof.
  assert (forall l, market_levels m !! (side_u8 sd, p) = Some l <-> rung_of sd p m = Some l) as Heq.
  { intros l. unfold market_levels, levels_of. rewrite <- elem_of_list_to_map by (exact (levels_nodup m)).
    rewrite list_elem_of_In, in_app_iff, !in_map_iff. unfold rung_of. split.
    - assert (forall sd', (exists x, level_entry sd' x = (side_u8 sd, p, l) /\ In x (ladder sd' m)) ->
        match queue_of rs_price p (mk_side sd m) with [] => None | q => Some (zsum rs_qty q, zlen q) end = Some l) as Hgo.
      { intros sd' (x & [= Es Ep El] & Hx). apply side_u8_inj in Es as ->. apply ladder_in in Hx as (p' & -> & Hne). cbn in Ep, El. subst p' l.
        by destruct (queue_of rs_price p (mk_side sd m)). }
      intros [Hx|Hx]; by eapply Hgo.
    - intros El. assert (exists x, level_entry sd x = (side_u8 sd, p, l) /\ In x (ladder sd m)) as Hx.
      { exists (rung p (mk_side sd m)). split.
        - unfold level_entry, rung. cbn. destruct (queue_of rs_price p (mk_side sd m)); [done|]. by injection El as <-.
        - apply ladder_in. exists p. split; [done|]. by destruct (queue_of rs_price p (mk_side sd m)). }
      destruct sd; [by left|by right]. }
  apply option_eq. exact Heq.
Qed.

Lemma market_levels_none m side p : (forall sd, side <> side_u8 sd) -> market_levels m !! (side, p) = None.
Proof.
  intros Hn. destruct (market_levels m !! (side, p)) as [l|] eqn:E; [|done]. exfalso.
  unfold market_levels, levels_of in E. rewrite <- elem_of_list_to_map in E by (exact (levels_nodup m)).
  rewrite list_elem_of_In, in_app_iff, !in_map_iff in E. destruct E as [(x & [= E _ _] & _)|(x & [= E _ _] & _)]; [by apply (Hn Buy)|by apply (Hn Sell)].
Qed.

(** ** One change *)

(** The markets differ at one level at most. *)
Definition differs_at (sd : Side) (p : Z) (m m' : Market) : Prop :=
  forall sd' p', (sd', p') <> (sd, p) -> queue_of rs_price p' (mk_side sd' m') = queue_of rs_price p' (mk_side sd' m).

Definition positive (m : Market) : Prop := forall r, In r (resting m) -> 0 < rs_qty r.

#[global] Instance positive_proper : Proper ((≡) ==> iff) positive.
Proof. intros m m' (H1 & H2 & _). unfold positive, resting. by rewrite H1, H2. Qed.

Lemma side_resting sd m r : In r (mk_side sd m) -> In r (resting m).
Proof. intros Hr. apply in_app_iff. destruct sd; [by left|by right]. Qed.

Lemma rung_empty sd p m : positive m -> ll_qty (rung p (mk_side sd m)) = 0 <-> queue_of rs_price p (mk_side sd m) = [].
Proof.
  intros Hp. cbn. destruct (queue_of rs_price p (mk_side sd m)) as [|r q] eqn:E; [done|]. split; [|done]. intros Hz. exfalso.
  assert (forall x, In x (r :: q) -> 0 < rs_qty x) as Hq.
  { intros x Hx. apply Hp, (side_resting sd). rewrite <- E in Hx. by apply in_queue_of in Hx as [? _]. }
  rewrite zsum_cons in Hz. pose proof (Hq r (or_introl eq_refl)).
  pose proof (zsum_nonneg rs_qty q (fun x Hx => Z.lt_le_incl _ _ (Hq x (or_intror Hx)))). lia.
Qed.

Lemma delta_seen symbol_id sd p m m' ts seq : positive m' -> differs_at sd p m m' ->
  seen symbol_id (market_levels m)
    (FrameDelta (mkL2Delta symbol_id (side_u8 sd) p (ll_qty (rung p (mk_side sd m'))) (ll_count (rung p (mk_side sd m'))) ts seq)) = market_levels m'.
Proof.
  intros Hp Hd. cbn [seen ld_symbol_id ld_qty ld_side ld_price ld_count]. rewrite Z.eqb_refl. apply map_eq. intros [side p'].
  assert (forall sd', (sd', p') <> (sd, p) -> market_levels m !! (side_u8 sd', p') = market_levels m' !! (side_u8 sd', p')) as Hsame.
  { intros sd' Hne. rewrite !market_levels_side. unfold rung_of. by rewrite (Hd sd' p' Hne). }
  assert (market_levels m' !! (side_u8 sd, p) = if ll_qty (rung p (mk_side sd m')) =? 0 then None
    else Some (ll_qty (rung p (mk_side sd m')), ll_count (rung p (mk_side sd m')))) as Hat.
  { rewrite market_levels_side. unfold rung_of. destruct (ll_qty _ =? 0) eqn:E; bool_to_prop.
    - apply (rung_empty sd p m' Hp) in E. by rewrite E.
    - cbn in *. by destruct (queue_of rs_price p (mk_side sd m')). }
  assert ((exists sd', side = side_u8 sd') \/ forall sd', side <> side_u8 sd') as [(sd' & ->)|Hn].
  { destruct (Z.eq_dec side 0) as [->|H0]; [left; by exists Buy|]. destruct (Z.eq_dec side 1) as [->|H1]; [left; by exists Sell|]. right. by intros []. }
  - destruct (decide ((sd', p') = (sd, p))) as [[= -> ->]|Hne].
    + rewrite Hat. case_if; [by rewrite lookup_delete_eq|by rewrite lookup_insert_eq].
    + assert ((side_u8 sd, p) <> (side_u8 sd', p')) as Hne' by (intros [= Es ->]; apply Hne; by rewrite (side_u8_inj _ _ Es)).
      rewrite <- (Hsame sd' Hne). case_if; [by rewrite lookup_delete_ne|by rewrite lookup_insert_ne].
  - rewrite (market_levels_none m' side p' Hn). assert ((side_u8 sd, p) <> (side, p')) as Hne by (intros [= Es _]; by apply (Hn sd)).
    case_if; [rewrite lookup_delete_ne by done|rewrite lookup_insert_ne by done]; by apply market_levels_none.
Qed.

(** *** Tables that show no more than the market, and all of some levels *)

Definition faithful (R : Side -> Z -> Prop) (m : Market) (v : Levels) : Prop :=
  v ⊆ market_levels m /\ forall sd p, R sd p -> v !! (side_u8 sd, p) = market_levels m !! (side_u8 sd, p).

#[global] Instance faithful_proper R : Proper ((≡) ==> (=) ==> iff) (faithful R).
Proof. intros m m' Hm v ? <-. unfold faithful. assert (market_levels m = market_levels m') as -> by (by rewrite Hm). done. Qed.

Lemma faithful_whole R m v : faithful R m v -> (forall sd p, R sd p) -> v = market_levels m.
Proof.
  intros [Hsub Hr] Hall. apply map_eq. intros [side p].
  assert ((exists sd, side = side_u8 sd) \/ forall sd, side <> side_u8 sd) as [(sd & ->)|Hn].
  { destruct (Z.eq_dec side 0) as [->|H0]; [left; by exists Buy|]. destruct (Z.eq_dec side 1) as [->|H1]; [left; by exists Sell|]. right. by intros []. }
  - by apply Hr.
  - rewrite (market_levels_none m side p Hn). destruct (v !! (side, p)) as [l|] eqn:E; [|done]. pose proof (lookup_weaken _ _ _ _ E Hsub) as E'.
    by rewrite (market_levels_none m side p Hn) in E'.
Qed.

(** A level a snapshot of this depth reaches, if it is there at all. *)
Definition in_reach (depth : Z) (sd : Side) (p : Z) (m : Market) : Prop :=
  forall x, In x (ladder sd m) -> ll_price x = p -> In x (take (Z.to_nat depth) (ladder sd m)).

Definition covered (depth : Z) (R : Side -> Z -> Prop) (m : Market) : Prop := forall sd p, R sd p -> in_reach depth sd p m.

Lemma delta_pointwise (symbol_id side p qty count ts seq : Z) (v : Levels) :
  let d := FrameDelta (mkL2Delta symbol_id side p qty count ts seq) in
  seen symbol_id v d !! (side, p) = (if qty =? 0 then None else Some (qty, count)) /\
  forall k, k <> (side, p) -> seen symbol_id v d !! k = v !! k.
Proof.
  cbn [seen ld_symbol_id ld_qty ld_side ld_price ld_count]. rewrite Z.eqb_refl. case_if; split.
  - by rewrite lookup_delete_eq.
  - intros k Hk. by rewrite lookup_delete_ne by congruence.
  - by rewrite lookup_insert_eq.
  - intros k Hk. by rewrite lookup_insert_ne by congruence.
Qed.

Lemma delta_faithful R symbol_id sd p m m' ts seq v : positive m' -> differs_at sd p m m' -> faithful R m v ->
  faithful R m' (seen symbol_id v
    (FrameDelta (mkL2Delta symbol_id (side_u8 sd) p (ll_qty (rung p (mk_side sd m'))) (ll_count (rung p (mk_side sd m'))) ts seq))).
Proof.
  intros Hp Hd [Hsub Hr]. pose proof (delta_seen symbol_id sd p m m' ts seq Hp Hd) as Em.
  set (qty := ll_qty (rung p (mk_side sd m'))) in *. set (count := ll_count (rung p (mk_side sd m'))) in *.
  destruct (delta_pointwise symbol_id (side_u8 sd) p qty count ts seq v) as [V1 V2].
  destruct (delta_pointwise symbol_id (side_u8 sd) p qty count ts seq (market_levels m)) as [M1 M2]. rewrite Em in M1, M2. split.
  - apply map_subseteq_spec. intros k l. destruct (decide (k = (side_u8 sd, p))) as [->|Hk]; [by rewrite V1, M1|].
    rewrite V2, M2 by done. intros Hl. by eapply lookup_weaken.
  - intros sd' p' Hrp. destruct (decide ((side_u8 sd', p') = (side_u8 sd, p))) as [->|Hk]; [by rewrite V1, M1|].
    rewrite V2, M2 by done. by apply Hr.
Qed.

Lemma snapshot_faithful R symbol_id depth m ts seq v : covered depth R m ->
  faithful R m (seen symbol_id v (FrameSnapshot (mkL2Snapshot symbol_id (take (Z.to_nat depth) (ladder Buy m)) (take (Z.to_nat depth) (ladder Sell m)) ts seq))).
Proof.
  intros Hcov. cbn [seen ls_symbol_id ls_bids ls_asks]. rewrite Z.eqb_refl. set (n := Z.to_nat depth).
  assert (map (level_entry Buy) (take n (ladder Buy m)) ++ map (level_entry Sell) (take n (ladder Sell m)) `sublist_of`
    map (level_entry Buy) (ladder Buy m) ++ map (level_entry Sell) (ladder Sell m)) as Hsub.
  { apply sublist_app; rewrite <- firstn_map; apply sublist_take. }
  assert (NoDup (map fst (map (level_entry Buy) (take n (ladder Buy m)) ++ map (level_entry Sell) (take n (ladder Sell m))))) as Hn.
  { eapply sublist_NoDup; [exact (levels_nodup m)|]. by apply (fmap_sublist fst). }
  assert (levels_of (take n (ladder Buy m)) (take n (ladder Sell m)) ⊆ market_levels m) as Hle.
  { apply map_subseteq_spec. intros k l. unfold market_levels, levels_of. rewrite <- elem_of_list_to_map by (exact Hn).
    rewrite <- elem_of_list_to_map by (exact (levels_nodup m)). intros Hi. by eapply elem_of_sublist. }
  split; [exact Hle|]. intros sd p Hr. apply option_eq. intros l. split; [intros Hl; by eapply lookup_weaken|].
  intros Hl. unfold market_levels, levels_of in *. rewrite <- elem_of_list_to_map in Hl by (exact (levels_nodup m)). rewrite <- elem_of_list_to_map by (exact Hn).
  rewrite list_elem_of_In, in_app_iff, !in_map_iff in *. specialize (Hcov sd p Hr). fold n in Hcov.
  assert (forall sd', (exists x, level_entry sd' x = (side_u8 sd, p, l) /\ In x (ladder sd' m)) -> sd' = sd /\ exists x, level_entry sd x = (side_u8 sd, p, l) /\ In x (take n (ladder sd m))) as Hgo.
  { intros sd' (x & Ex & Hx). injection Ex as Es Ep El. apply side_u8_inj in Es as ->. split; [done|]. exists x. split; [|by apply Hcov].
    unfold level_entry. by rewrite Ep, El. }
  destruct Hl as [Hl|Hl]; apply Hgo in Hl as [<- Hl]; [by left|by right].
Qed.

(** A depth that reaches everything. *)
Definition within_depth (depth : Z) (m : Market) : Prop := forall sd, zlen (ladder sd m) <= depth.

Lemma within_reach depth m sd p : within_depth depth m -> in_reach depth sd p m.
Proof. intros Hd x Hx _. specialize (Hd sd). unfold zlen in Hd. by rewrite take_ge by lia. Qed.

(** ** One record *)

Definition ranked_market (m : Market) : Prop := forall sd, ranked rs_price sd (mk_side sd m).

Lemma struck_queue k f p q : queue_of rs_price p (flat_map (struck k f) q) = flat_map (struck k f) (queue_of rs_price p q).
Proof.
  apply flat_map_queue. intros x y. unfold struck. case_decide; [|by intros [<-|[]]]. case_if; [done|]. by intros [<-|[]].
Qed.

Lemma struck_none k f q : (forall r, In r q -> rs_oid r <> k) -> flat_map (struck k f) q = q.
Proof.
  induction q as [|r q IH]; intros Hq; [done|]. cbn [flat_map]. rewrite IH by (intros x Hx; apply Hq; by right).
  unfold struck. by rewrite decide_False by (apply Hq; by left).
Qed.

Lemma pulled_none k q : (forall r, In r q -> rs_oid r <> k) -> List.filter (fun r => negb (bool_decide (rs_oid r = k))) q = q.
Proof.
  intros Hq. apply forallb_filter_id, forallb_forall. intros r Hr. by rewrite bool_decide_eq_false_2 by (by apply Hq).
Qed.

Lemma mk_on_sides g m sd : mk_side sd (on_sides g m) = g (mk_side sd m).
Proof. by destruct sd. Qed.

(** The order with an id is in one queue only. *)
Lemma reported_queue k m sd x sd' p' : apart m -> In x (mk_side sd m) -> rs_oid x = k -> (sd', p') <> (sd, rs_price x) ->
  forall r, In r (queue_of rs_price p' (mk_side sd' m)) -> rs_oid r <> k.
Proof.
  intros Ha Hx Ek Hne r (Hr & Hp)%in_queue_of Er. assert (r = x) as ->.
  { apply (map_inj_in rs_oid (resting m)); [exact Ha|by apply (side_resting sd')|by apply (side_resting sd)|congruence]. }
  apply Hne. f_equal; [|done]. destruct (decide (sd' = sd)) as [->|Hs]; [done|]. exfalso.
  unfold apart, resting in Ha. rewrite map_app in Ha. apply NoDup_app in Ha as (_ & Ha & _).
  apply (Ha (rs_oid x)); rewrite list_elem_of_In; apply in_map; destruct sd, sd'; done.
Qed.

Lemma strike_differs k f m sd x : apart m -> In x (mk_side sd m) -> rs_oid x = k -> differs_at sd (rs_price x) m (strike k f m).
Proof.
  intros Ha Hx Ek sd' p' Hne. unfold strike. rewrite mk_on_sides, struck_queue. apply struck_none. by eapply reported_queue.
Qed.

Lemma pull_differs k m sd x : apart m -> In x (mk_side sd m) -> rs_oid x = k -> differs_at sd (rs_price x) m (pull k m).
Proof.
  intros Ha Hx Ek sd' p' Hne. unfold pull. rewrite mk_on_sides. unfold queue_of. rewrite filter_filter_comm.
  apply pulled_none. exact (reported_queue k m sd x sd' p' Ha Hx Ek Hne).
Qed.

Lemma post_differs sd r m : ranked_market m -> differs_at sd (rs_price r) m (post sd r m).
Proof.
  intros Hr sd' p' Hne. unfold post. destruct (decide (sd' = sd)) as [->|Hs]; [|by destruct sd, sd'].
  assert (mk_side sd (with_side sd (rank rs_price sd r (mk_side sd m)) m) = rank rs_price sd r (mk_side sd m)) as -> by (by destruct sd).
  rewrite (rank_queue rs_price sd p' r _ (Hr sd)). destruct (rs_price r =? p') eqn:E; [|by rewrite app_nil_r].
  bool_to_prop. destruct Hne. by rewrite E.
Qed.

(** What a record reports is all that it changes. *)
Lemma touched_differs tk rec m side p : sane tk m rec -> apart m -> ranked_market m -> touched rec m (Some (side, p)) ->
  exists sd, side = side_u8 sd /\ differs_at sd p m (taped m rec).
Proof.
  intros Hs Ha Hr Ht. destruct rec; cbn [touched sane taped] in *; try done.
  - destruct Ht as (sd & x & Hx & Ek & -> & ->). exists sd. split; [done|]. by apply strike_differs.
  - injection Ht as -> ->. destruct Hs as (_ & _ & _ & _ & _ & Es & _). exists (side_of (wn_side r)). split; [done|].
    by apply (post_differs _ (posted r)).
  - destruct Ht as (sd & x & Hx & Ek & -> & ->). exists sd. split; [done|]. by apply pull_differs.
Qed.

Lemma untouched_taped rec m : touched rec m None -> match rec with TrInserted _ => False | _ => True end -> mk_bids (taped m rec) = mk_bids m /\ mk_asks (taped m rec) = mk_asks m.
Proof.
  intros Ht Hn. assert (forall k, (forall x, In x (resting m) -> rs_oid x <> k) -> forall sd r, In r (mk_side sd m) -> rs_oid r <> k) as Hsd.
  { intros k Hk sd r Hr. apply Hk. by apply (side_resting sd). }
  destruct rec; cbn [touched taped] in *; try done; cbn [strike pull on_sides mk_bids mk_asks].
  - split; apply struck_none; [exact (Hsd _ Ht Buy)|exact (Hsd _ Ht Sell)].
  - split; apply pulled_none; [exact (Hsd _ Ht Buy)|exact (Hsd _ Ht Sell)].
Qed.

(** What a shadow book shows is ranked, apart and positive. *)
Lemma mirrors_shape cfg s m : mirrors cfg s m -> ranked_market m /\ apart m /\ positive m /\ forall r, In r (resting m) -> 0 < rs_price r <= I64_MAX.
Proof.
  intros (index & (mid & A & fl & Hh) & Hk). pose proof (view_core cfg mid A fl s index m Hh) as Hc.
  pose proof (ho_cfg _ _ _ _ _ _ _ Hh) as Hcfg. split; [|split; [|split]].
  - intros sd. rewrite (view_side cfg mid A fl s index m Hh), <- (mk_side_of mid (bc_tick_size cfg) sd A (sb_book s)). apply market_ranked.
  - unfold apart, resting. change (mk_bids m) with (mk_side Buy m). change (mk_asks m) with (mk_side Sell m).
    rewrite !(view_side cfg mid A fl s index m Hh), <- map_app, map_map.
    assert (NoDup (handles (priority mid (bc_tick_size cfg) Buy A ++ priority mid (bc_tick_size cfg) Sell A))) as Hn.
    { unfold handles. rewrite map_app. apply NoDup_app. split; [by apply (priority_handles mid _ Buy A fl (sb_book s))|].
      split; [|by apply (priority_handles mid _ Sell A fl (sb_book s))]. intros h H1 H2. rewrite list_elem_of_In in H1, H2.
      apply in_map_iff in H1 as (x & <- & Hx), H2 as (y & E & Hy).
      apply (in_priority mid _ Hcfg _ A fl (sb_book s)) in Hx as [(t & Hx) S1], Hy as [(t' & Hy) S2]; [|done..].
      pose proof (uniq_eq A t' t y x (core_uniq mid _ A fl (sb_book s) Hc) Hy Hx E) as ->. unfold is_side in *. bool_to_prop. rewrite S1 in S2. done. }
    assert (forall x, In x (priority mid (bc_tick_size cfg) Buy A ++ priority mid (bc_tick_size cfg) Sell A) -> exists t, In x (A t)) as Hin.
    { intros x Hx. apply in_app_iff in Hx as [Hx|Hx]; by apply (in_priority mid _ Hcfg _ A fl (sb_book s)) in Hx as [? _]. }
    induction (priority _ _ Buy A ++ priority _ _ Sell A) as [|x q IH]; [constructor|]. cbn [map handles] in *. apply NoDup_cons in Hn as [Hni Hn].
    apply NoDup_cons. split; [|apply IH; [exact Hn|intros y Hy; apply Hin; by right]]. rewrite list_elem_of_In in *.
    intros (y & E & Hy)%in_map_iff. destruct (Hin x (or_introl eq_refl)) as [t Hx]. destruct (Hin y (or_intror Hy)) as [t' Hy'].
    apply (oid_entry mid (bc_tick_size cfg) A fl (sb_book s) index (sb_order_map s) t' t y x Hc) in E as ->; [|apply Hh|done|done|done].
    apply Hni, list_elem_of_In, in_map, Hy.
  - intros r Hr. apply (view_entry cfg mid A fl s index m Hh) in Hr as (t & e & He & ->).
    apply (bk_order _ _ _ _ _ (en_book _ _ _ _ _ (ho_engine _ _ _ _ _ _ _ Hh)) t e He).
  - intros r Hr. apply (view_entry cfg mid A fl s index m Hh) in Hr as (t & e & He & ->). apply (c_px _ _ _ _ _ Hc t e He).
Qed.
