(* ===== verification/FeedInv.v ===== *)
(** * FeedInv: a depth subscriber through the life of the process

    [attends]: the frames a client has been handed and those still in its
    queue add up to levels of the market its symbol's book shows, and to all of
    them that a snapshot's depth has always reached.
    Records, overflowing queues, gaps, heartbeats, evictions and the other
    clients all keep it. *)

From Stdlib Require Import Sorted.
From S2P Require Import Prelude Hash Types Slab Occupancy Compression Users Order Book Links BookInv Matching MatchInv.
From S2P Require Import FillQueue SlotMatch Engine Feasible Process Ranking Market Priority MarketRef MarketClaims.
From S2P Require Import Frames Messages Wal Cast Dedup Tile TileInv Shadow Tape ShadowInv ShadowRun ShadowView Feed FeedView.

Section FeedInv.
Context `{HashIter}.

(** ** What leaves subscriptions and books alone *)

Record calm (st st' : MarketDataState) : Prop := {
  cm_subs : ms_subs st' = ms_subs st;
  cm_books : ms_books st' = ms_books st;
  cm_config : ms_base_config st' = ms_base_config st;
  cm_next : ms_next_conn_id st' = ms_next_conn_id st;
  cm_capacity : ms_book_capacity st' = ms_book_capacity st;
  cm_conns : forall c, is_Some (ms_connections st' !! c) <-> is_Some (ms_connections st !! c);
}.

Lemma calm_refl st : calm st st.
Proof. by split. Qed.

Lemma calm_trans st1 st2 st3 : calm st1 st2 -> calm st2 st3 -> calm st1 st3.
Proof. intros [] []. split; try congruence. intros c. by rewrite cm_conns1. Qed.

(** [calm], and another client's connection is as it was. *)
Definition aside (c : Z) (st st' : MarketDataState) : Prop := calm st st' /\ ms_connections st' !! c = ms_connections st !! c.

Lemma aside_refl c st : aside c st st.
Proof. split; [apply calm_refl|done]. Qed.

Lemma aside_trans c st1 st2 st3 : aside c st1 st2 -> aside c st2 st3 -> aside c st1 st3.
Proof. intros [H1 E1] [H2 E2]. split; [by eapply calm_trans|congruence]. Qed.

Lemma push_calm c msg max st : calm st (push_to_client c msg max st).2.
Proof.
  unfold push_to_client. destruct (ms_connections st !! c) as [conn|] eqn:E; [|apply calm_refl]. case_if; [apply calm_refl|]. split; try done.
  intros c'. cbn. destruct (decide (c' = c)) as [->|Hne]; [by rewrite lookup_insert_eq, E|by rewrite lookup_insert_ne].
Qed.

Lemma push_aside c c' msg max st : c' <> c -> aside c st (push_to_client c' msg max st).2.
Proof.
  intros Hne. split; [apply push_calm|]. unfold push_to_client. destruct (ms_connections st !! c'); [|done]. case_if; [done|]. cbn.
  by rewrite lookup_insert_ne.
Qed.

Lemma snapshot_msg_books symbol_id depth st st' : ms_books st' = ms_books st -> snapshot_msg symbol_id depth st' = snapshot_msg symbol_id depth st.
Proof. intros E. unfold snapshot_msg. by rewrite E. Qed.

(** Snapshots of a symbol can be made, whatever the depth. *)
Definition can_show (symbol_id : Z) (st : MarketDataState) : Prop := forall depth, is_ok (snapshot_msg symbol_id depth st) = true.

Lemma resync_aside c c' symbol_id depth max st : can_show symbol_id st -> c' <> c ->
  exists st', send_snapshot_to_client c' symbol_id depth max st = Ok st' /\ aside c st st'.
Proof.
  intros Hs Hne. unfold send_snapshot_to_client. set (st1 := ms_with_connections _ st).
  assert (aside c st st1) as Hst1.
  { split; [split; try done|cbn; by rewrite lookup_alter_ne]. intros d. cbn. rewrite lookup_alter. case_decide; [|done]. subst d. by rewrite fmap_is_Some. }
  rewrite (snapshot_msg_books symbol_id depth st st1) by done. specialize (Hs depth).
  destruct (snapshot_msg symbol_id depth st) as [[msg|]| |]; [| |done..]; cbn [mbind Res_bind]; eexists; (split; [reflexivity|]); [|done].
  eapply aside_trans; [exact Hst1|by apply push_aside].
Qed.

Lemma can_show_calm symbol_id st st' : calm st st' -> can_show symbol_id st -> can_show symbol_id st'.
Proof. intros Hc Hs depth. rewrite (snapshot_msg_books symbol_id depth st st'); [apply Hs|apply Hc]. Qed.

Lemma push_or_resync_aside c c' symbol_id msg max st : can_show symbol_id st -> c' <> c ->
  exists st', push_or_resync c' symbol_id msg max st = Ok st' /\ aside c st st'.
Proof.
  intros Hs Hne. unfold push_or_resync. pose proof (push_aside c c' msg max st Hne) as Ha. pose proof (push_calm c' msg max st) as Hc.
  destruct (push_to_client c' msg max st) as [[] st1]; cbn [snd] in *; [by exists st1|].
  destruct (resync_aside c c' symbol_id (client_depth c' (ms_subs st1)) max st1) as (st2 & E & Ha2); [by eapply can_show_calm|done|].
  exists st2. split; [done|]. by eapply aside_trans.
Qed.

Lemma updates_aside c c' symbol_id max d b st : can_show symbol_id st -> c' <> c ->
  exists st', send_updates symbol_id max d b st c' = Ok st' /\ aside c st st'.
Proof.
  intros Hs Hne. unfold send_updates.
  assert (exists st1, (if has_depth c' symbol_id (ms_subs st) then push_or_resync c' symbol_id d max st else Ok st) = Ok st1 /\ aside c st st1) as (st1 & -> & Ha).
  { case_if; [by apply push_or_resync_aside|]. exists st. split; [done|apply aside_refl]. }
  cbn [mbind Res_bind]. eexists. split; [reflexivity|]. destruct b; [|done]. case_if; [|done]. eapply aside_trans; [exact Ha|by apply push_aside].
Qed.

Lemma trade_aside c c' symbol_id max msg st : can_show symbol_id st -> c' <> c ->
  exists st', send_trade symbol_id max msg st c' = Ok st' /\ aside c st st'.
Proof.
  intros Hs Hne. unfold send_trade. case_if; [by apply push_or_resync_aside|]. exists st. split; [done|apply aside_refl].
Qed.

(** A pass over clients of which one is ours. *)
Lemma pass_aside c (f : MarketDataState -> Z -> Res MarketDataState) symbol_id l st :
  (forall st c', can_show symbol_id st -> c' <> c -> exists st', f st c' = Ok st' /\ aside c st st') -> ~ In c l -> can_show symbol_id st ->
  exists st', rfold f st l = Ok st' /\ aside c st st'.
Proof.
  intros Hf. revert st. induction l as [|c' l IH]; intros st Hn Hs; [exists st; split; [done|apply aside_refl]|].
  destruct (Hf st c' Hs) as (st1 & E & Ha); [intros ->; apply Hn; by left|]. cbn [rfold]. rewrite E. cbn [mbind Res_bind].
  destruct (IH st1) as (st2 & E2 & Ha2); [intros Hi; apply Hn; by right|by eapply can_show_calm; [apply Ha|]|].
  exists st2. split; [done|]. by eapply aside_trans.
Qed.

Lemma pass_one c (f : MarketDataState -> Z -> Res MarketDataState) symbol_id l st (P Q : MarketDataState -> Prop) :
  (forall st c', can_show symbol_id st -> c' <> c -> exists st', f st c' = Ok st' /\ aside c st st') ->
  (forall st st', P st -> aside c st st' -> P st') -> (forall st st', Q st -> aside c st st' -> Q st') ->
  (forall st, P st -> can_show symbol_id st -> exists st', f st c = Ok st' /\ calm st st' /\ Q st') ->
  NoDup l -> In c l -> can_show symbol_id st -> P st -> exists st', rfold f st l = Ok st' /\ calm st st' /\ Q st'.
Proof.
  intros Hf HP HQ Hc Hn Hin Hs Hp. apply in_split in Hin as (l1 & l2 & ->). apply NoDup_app in Hn as (_ & H12 & Hn).
  apply NoDup_cons in Hn as [Hn2 _]. rewrite list_elem_of_In in Hn2.
  assert (~ In c l1) as Hn1. { rewrite <- list_elem_of_In. intros Hi. apply (H12 c Hi). by apply list_elem_of_here. }
  destruct (pass_aside c f symbol_id l1 st Hf Hn1 Hs) as (st1 & E1 & Ha1). pose proof (can_show_calm _ _ _ (proj1 Ha1) Hs) as Hs1.
  destruct (Hc st1 (HP _ _ Hp Ha1) Hs1) as (st2 & E2 & Hc2 & HQ2). pose proof (can_show_calm _ _ _ Hc2 Hs1) as Hs2.
  destruct (pass_aside c f symbol_id l2 st2 Hf Hn2 Hs2) as (st3 & E3 & Ha3).
  exists st3. rewrite rfold_app, E1. cbn [mbind Res_bind rfold]. rewrite E2. cbn [mbind Res_bind]. split; [exact E3|].
  split; [|by eapply HQ]. eapply calm_trans; [apply Ha1|]. eapply calm_trans; [exact Hc2|apply Ha3].
Qed.

(** ** Our client *)

Context (cfg : BookConfig) (symbol_id c depth max : Z) (R : Side -> Z -> Prop) (v0 : Levels) (D : list Frame).
Hypothesis Hmax : 0 < max.

(** The symbol's book shows a market; without a book there is none. *)
Definition shows (st : MarketDataState) (m : Market) : Prop :=
  match vget (ms_books st) symbol_id with
  | Some (Some s) => mirrors cfg s m /\ sb_symbol_id s = symbol_id
  | Some None => m ≡ empty_market
  | None => False
  end.

Definition caught (m : Market) (st : MarketDataState) : Prop :=
  exists conn, ms_connections st !! c = Some conn /\ faithful R m (shown symbol_id v0 (D ++ cn_outbound conn)).

(** The client has this symbol's depth, and no other symbol. *)
Record subscribed (subs : SubscriptionManager) : Prop := {
  su_depth : has_depth c symbol_id subs = true;
  su_levels : client_depth c subs = depth;
  su_listed : In c (clients_for_symbol symbol_id subs);
  su_only : forall sid, sid <> symbol_id -> ~ In c (clients_for_symbol sid subs);
}.

Lemma clients_nodup sid subs : NoDup (clients_for_symbol sid subs).
Proof. unfold clients_for_symbol. destruct (sm_symbol_clients subs !! sid); [rewrite iter_set_perm; apply NoDup_elements|constructor]. Qed.

Lemma shows_proper st m m' : m ≡ m' -> shows st m -> shows st m'.
Proof.
  intros Hm. unfold shows. destruct (vget (ms_books st) symbol_id) as [[s|]|]; [|by rewrite Hm|done]. by rewrite Hm.
Qed.

Lemma shows_books st st' m : ms_books st' = ms_books st -> shows st m -> shows st' m.
Proof. unfold shows. by intros ->. Qed.

Lemma shows_snapshot st m d : shows st m -> exists ts seq, snapshot_msg symbol_id d st =
  Ok (Some (FrameSnapshot (mkL2Snapshot symbol_id (take (Z.to_nat d) (ladder Buy m)) (take (Z.to_nat d) (ladder Sell m)) ts seq))).
Proof.
  intros Hs. unfold shows in Hs. unfold snapshot_msg. destruct (vget (ms_books st) symbol_id) as [[s|]|]; [| |done].
  - destruct Hs as [(index & (mid & A & fl & Hh) & _) Es]. destruct (ladder_view cfg mid A fl s index m Hh (Z.to_nat d)) as [E1 E2].
    unfold derive_l2_snapshot. rewrite E1. cbn [mbind Res_bind]. rewrite E2. cbn [mbind Res_bind]. rewrite Es. by eexists _, _.
  - exists 0, 0. destruct Hs as (H1 & H2 & _). unfold ladder. cbn in *. rewrite H1, H2. cbn. by rewrite !take_nil.
Qed.

Lemma shows_can st m : shows st m -> can_show symbol_id st.
Proof. intros Hs d. by destruct (shows_snapshot st m d Hs) as (ts & seq & ->). Qed.

Lemma caught_aside m st st' : caught m st -> aside c st st' -> caught m st'.
Proof. intros (conn & E & Hc) [_ Ea]. exists conn. by rewrite Ea. Qed.

Lemma caught_push m m' msg st : caught m st -> (forall v, faithful R m v -> faithful R m' (seen symbol_id v msg)) ->
  (push_to_client c msg max st).1 = true -> caught m' (push_to_client c msg max st).2.
Proof.
  intros (conn & E & Hc) Hs. unfold push_to_client. rewrite E. case_if; [done|]. intros _. exists (queued msg conn). split; [cbn; by rewrite lookup_insert_eq|].
  cbn [queued cn_outbound]. rewrite app_assoc, shown_app. by apply Hs.
Qed.

Lemma resync_self m st conn : ms_connections st !! c = Some conn -> shows st m -> covered depth R m ->
  exists st', send_snapshot_to_client c symbol_id depth max st = Ok st' /\ calm st st' /\ caught m st'.
Proof.
  intros E Hs Hd. unfold send_snapshot_to_client. set (st1 := ms_with_connections _ st).
  assert (calm st st1) as Hc1.
  { split; try done. intros c'. cbn. rewrite lookup_alter. case_decide; [|done]. subst c'. by rewrite fmap_is_Some. }
  rewrite (snapshot_msg_books symbol_id depth st st1) by done. destruct (shows_snapshot st m depth Hs) as (ts & seq & Esn). rewrite Esn. cbn [mbind Res_bind].
  eexists. split; [reflexivity|]. split; [eapply calm_trans; [exact Hc1|apply push_calm]|].
  unfold push_to_client. cbn [st1 ms_with_connections ms_connections]. rewrite lookup_alter_eq, E. cbn [fmap option_fmap option_map clear_outbound cn_outbound].
  replace (zlen [] >=? max) with false by (change (zlen (@nil Frame)) with 0; lia). eexists. split; [cbn; by rewrite lookup_insert_eq|].
  cbn [queued clear_outbound cn_outbound app]. rewrite shown_app. by apply snapshot_faithful.
Qed.

Lemma push_or_resync_self m m' msg st : caught m st -> shows st m' -> covered depth R m' -> client_depth c (ms_subs st) = depth ->
  (forall v, faithful R m v -> faithful R m' (seen symbol_id v msg)) ->
  exists st', push_or_resync c symbol_id msg max st = Ok st' /\ calm st st' /\ caught m' st'.
Proof.
  intros Hc Hs Hd Hdep Hseen. unfold push_or_resync. pose proof (push_calm c msg max st) as Hcm. pose proof (caught_push m m' msg st Hc Hseen) as Hp.
  destruct (push_to_client c msg max st) as [ok st1] eqn:Ep. cbn [fst snd] in *. destruct ok; [exists st1; split; [done|]; split; [done|by apply Hp]|].
  assert (st1 = st) as -> by (unfold push_to_client in Ep; destruct (ms_connections st !! c); [case_if_in Ep|]; congruence).
  destruct Hc as (conn & E & _). rewrite Hdep. by eapply resync_self.
Qed.

Lemma caught_deaf m msg st : caught m st -> (forall v, seen symbol_id v msg = v) -> caught m (push_to_client c msg max st).2.
Proof.
  intros (conn & E & Hc) Hs. unfold push_to_client. rewrite E. case_if; [by exists conn|]. exists (queued msg conn). split; [cbn; by rewrite lookup_insert_eq|].
  cbn [queued cn_outbound]. rewrite app_assoc, shown_app. cbn. by rewrite Hs.
Qed.

Lemma updates_self m m' d b st : caught m st -> shows st m' -> covered depth R m' -> client_depth c (ms_subs st) = depth ->
  has_depth c symbol_id (ms_subs st) = true -> (forall v, faithful R m v -> faithful R m' (seen symbol_id v d)) ->
  (forall f, b = Some f -> forall v, seen symbol_id v f = v) ->
  exists st', send_updates symbol_id max d b st c = Ok st' /\ calm st st' /\ caught m' st'.
Proof.
  intros Hc Hs Hd Hdep Hhas Hseen Hb. unfold send_updates. rewrite Hhas.
  destruct (push_or_resync_self m m' d st Hc Hs Hd Hdep Hseen) as (st1 & -> & Hcm & Hc1). cbn [mbind Res_bind]. eexists. split; [reflexivity|].
  destruct b as [f|]; [|by split]. case_if; [|by split]. split; [eapply calm_trans; [exact Hcm|apply push_calm]|]. apply caught_deaf; [done|by apply Hb].
Qed.

Lemma trade_self m msg st : caught m st -> shows st m -> covered depth R m -> client_depth c (ms_subs st) = depth ->
  (forall v, seen symbol_id v msg = v) -> exists st', send_trade symbol_id max msg st c = Ok st' /\ calm st st' /\ caught m st'.
Proof.
  intros Hc Hs Hd Hdep Hseen. unfold send_trade. case_if; [apply (push_or_resync_self m m); try done; intros v; by rewrite Hseen|]. exists st. split; [done|]. split; [apply calm_refl|done].
Qed.

(** ** A broadcast *)

Lemma touch_calm now idx st : calm st (touch now idx st).
Proof. unfold touch. case_if; by split. Qed.

Lemma touch_conns now idx st : ms_connections (touch now idx st) = ms_connections st.
Proof. unfold touch. by case_if. Qed.

Lemma note_bbo_calm sid bbo st : calm st (note_bbo sid bbo st).2 /\ ms_connections (note_bbo sid bbo st).2 = ms_connections st.
Proof. unfold note_bbo. destruct (vget _ _); [|by split]. by case_if. Qed.

Lemma caught_conns m st st' : ms_connections st' = ms_connections st -> caught m st -> caught m st'.
Proof. intros E (conn & Ec & Hc). exists conn. by rewrite E. Qed.

Lemma broadcast_attends now side p m m' st s :
  vget (ms_books st) symbol_id = Some (Some s) -> shows st m' -> subscribed (ms_subs st) -> caught m st -> covered depth R m' ->
  0 < p <= I64_MAX -> positive m' -> (exists sd, side = side_u8 sd /\ differs_at sd p m m') ->
  exists st', broadcast_updates now symbol_id side p max st = Ok st' /\ calm st st' /\ caught m' st'.
Proof.
  intros Eb Hs Hsub Hc Hd Hp Hpos (sd & -> & Hdif). unfold broadcast_updates, book_mut. set (st1 := touch now symbol_id st).
  pose proof (touch_calm now symbol_id st) as Hc1. fold st1 in Hc1. rewrite (cm_books _ _ Hc1), Eb.
  pose proof Hs as Hmir. unfold shows in Hmir. rewrite Eb in Hmir. destruct Hmir as [(index & (mid & A & fl & Hh) & Hk) Esym].
  rewrite (delta_view cfg mid A fl s index m' Hh sd p Hp). cbn [mbind Res_bind]. rewrite (bbo_view cfg mid A fl s index m' Hh). cbn [mbind Res_bind].
  rewrite Esym.
  match goal with |- context [match ?e with pair _ _ => rfold _ _ _ end] => destruct e as [bm st2] eqn:Eb2 end.
  assert (calm st1 st2 /\ ms_connections st2 = ms_connections st1 /\ forall f, bm = Some f -> forall v, seen symbol_id v f = v) as (Hc2 & Ec2 & Hb).
  { match type of Eb2 with match ?o with _ => _ end = _ => destruct o as [bbo|] end; [|injection Eb2 as <- <-; split; [apply calm_refl|done]].
    destruct (note_bbo_calm symbol_id bbo st1) as [H1 H2]. destruct (note_bbo symbol_id bbo st1) as [ch st3]. cbn [snd] in *.
    injection Eb2 as <- <-. split; [done|]. split; [done|]. intros f Ef v. destruct ch; [by injection Ef as <-|done]. }
  assert (ms_subs st2 = ms_subs st) as Esub by (rewrite (cm_subs _ _ Hc2); apply Hc1).
  assert (ms_books st2 = ms_books st) as Ebk by (rewrite (cm_books _ _ Hc2); apply Hc1).
  assert (calm st st2) as Hc12 by (by eapply calm_trans).
  assert (caught m st2) as Hct.
  { apply (caught_conns m st); [|done]. rewrite Ec2. apply touch_conns. }
  set (P := fun x : MarketDataState => calm st x /\ caught m x). set (Q := fun x => calm st x /\ caught m' x).
  destruct (pass_one c (send_updates symbol_id max (FrameDelta (mkL2Delta symbol_id (side_u8 sd) p (ll_qty (rung p (mk_side sd m')))
    (ll_count (rung p (mk_side sd m'))) (sb_timestamp_ns s) (sb_seq s))) bm) symbol_id (clients_for_symbol symbol_id (ms_subs st2)) st2 P Q)
    as (st' & E & Hcm & HQ).
  - intros x c' Hx Hne. by apply updates_aside.
  - intros x x' [Hx1 Hx2] Ha. split; [eapply calm_trans; [exact Hx1|apply Ha]|by eapply caught_aside].
  - intros x x' [Hx1 Hx2] Ha. split; [eapply calm_trans; [exact Hx1|apply Ha]|by eapply caught_aside].
  - intros x [Hx1 Hx2] _. destruct Hsub as [S1 S2 S3 S4]. rewrite <- (cm_subs _ _ Hx1) in S1, S2.
    destruct (updates_self m m' (FrameDelta (mkL2Delta symbol_id (side_u8 sd) p (ll_qty (rung p (mk_side sd m')))
      (ll_count (rung p (mk_side sd m'))) (sb_timestamp_ns s) (sb_seq s))) bm x Hx2) as (x' & E & Hcx & Hqx); try done.
    + eapply shows_books; [apply Hx1|done].
    + intros v. by apply delta_faithful.
    + exists x'. split; [done|]. split; [done|]. split; [by eapply calm_trans|done].
  - apply clients_nodup.
  - rewrite Esub. apply Hsub.
  - eapply can_show_calm; [exact Hc12|by eapply shows_can].
  - by split.
  - exists st'. split; [exact E|]. split; [by eapply calm_trans|apply HQ].
Qed.

(** ** A record *)

Record attends (m : Market) (st : MarketDataState) : Prop := {
  at_shows : shows st m;
  at_subs : subscribed (ms_subs st);
  at_caught : caught m st;
  at_config : for_symbol symbol_id (ms_base_config st) = cfg;
}.

Definition feed_record (now : Z) (rec : TileRecord) (st : MarketDataState) : Res MarketDataState :=
  match rec with
  | TrInserted r => apply_insert now max r st
  | TrCancelled r => apply_cancel now max r st
  | TrFill r => apply_fill now max r st
  | _ => Ok st
  end.

Definition about (rec : TileRecord) (sid : Z) : Prop :=
  match rec with
  | TrInserted r => wn_symbol_id r = sid
  | TrCancelled r => wc_symbol_id r = sid
  | TrFill r => wf_symbol_id r = sid
  | _ => True
  end.

Lemma put_book_get s1 st now s : vget (ms_books st) symbol_id = Some (Some s) ->
  vget (ms_books (put_book symbol_id s1 (touch now symbol_id st))) symbol_id = Some (Some s1).
Proof.
  intros E. cbn [put_book ms_with_books ms_books]. rewrite (cm_books _ _ (touch_calm now symbol_id st)). apply vget_vput_eq. by eapply vget_some_range.
Qed.

Lemma same_levels m m' : mk_bids m' = mk_bids m -> mk_asks m' = mk_asks m -> market_levels m' = market_levels m.
Proof. intros H1 H2. unfold market_levels, ladder. cbn. by rewrite H1, H2. Qed.

Lemma touched_price tk rec m side p : sane tk m rec -> (forall r, In r (resting m) -> 0 < rs_price r <= I64_MAX) ->
  touched rec m (Some (side, p)) -> 0 < p <= I64_MAX.
Proof.
  intros Hs Hp Ht. destruct rec; cbn [touched sane] in *; try done.
  - destruct Ht as (sd & x & Hx & _ & _ & ->). apply Hp. by apply (side_resting sd).
  - injection Ht as _ ->. apply Hs.
  - destruct Ht as (sd & x & Hx & _ & _ & ->). apply Hp. by apply (side_resting sd).
Qed.

(** The book's part of a record, and what goes out. *)
Lemma book_attends now rec m st s :
  vget (ms_books st) symbol_id = Some (Some s) -> attends m st -> sane (bc_tick_size cfg) m rec -> takes_record rec s = true ->
  covered depth R (taped m rec) ->
  exists r s1, shadow_record rec s = Ok (r, s1) /\
    match r with
    | None => attends (taped m rec) (put_book symbol_id s1 (touch now symbol_id st))
    | Some (side, p) => exists st', broadcast_updates now symbol_id side p max (put_book symbol_id s1 (touch now symbol_id st)) = Ok st' /\
        attends (taped m rec) st'
    end.
Proof.
  intros Eb [Hsh Hsub Hc Hcf] Hs Ht Hd. pose proof Hsh as Hmir. unfold shows in Hmir. rewrite Eb in Hmir. destruct Hmir as [Hmir Esym].
  destruct (record_mirrors cfg s m rec Hmir Hs Ht) as (r & s1 & E & Hmir1 & Htouch & Hst). exists r, s1. split; [exact E|].
  destruct (mirrors_shape cfg s m Hmir) as (Hrk & Hap & _ & Hpx). destruct (mirrors_shape cfg s1 _ Hmir1) as (_ & _ & Hpos & _).
  set (st2 := put_book symbol_id s1 (touch now symbol_id st)). pose proof (put_book_get s1 st now s Eb) as Eb2. fold st2 in Eb2.
  assert (sb_symbol_id s1 = symbol_id) as Esym1 by (destruct r; [destruct Hst as (ts & -> & _)|rewrite Hst]; done).
  assert (shows st2 (taped m rec)) as Hsh2 by (unfold shows; by rewrite Eb2).
  assert (ms_subs st2 = ms_subs st) as Esub by (apply (cm_subs _ _ (touch_calm now symbol_id st))).
  assert (ms_base_config st2 = ms_base_config st) as Ecf by (apply (cm_config _ _ (touch_calm now symbol_id st))).
  assert (caught m st2) as Hc2 by (apply (caught_conns m st); [apply touch_conns|done]).
  destruct r as [[side p]|].
  - destruct (broadcast_attends now side p m (taped m rec) st2 s1 Eb2 Hsh2) as (st' & Ebc & Hcm & Hc'); [by rewrite Esub|done|done| |done| |].
    + by eapply touched_price.
    + by eapply touched_differs.
    + exists st'. split; [exact Ebc|]. split; [eapply shows_books; [apply Hcm|done]|by rewrite (cm_subs _ _ Hcm), Esub|done|by rewrite (cm_config _ _ Hcm), Ecf].
  - split; [done|by rewrite Esub| |by rewrite Ecf]. destruct Hc2 as (conn & Ec & Hv). exists conn. split; [exact Ec|].
    assert (market_levels (taped m rec) = market_levels m) as El by (destruct rec; try (apply same_levels; apply untouched_taped; done)).
    unfold faithful. by rewrite El.
Qed.

Lemma trades_attend m st msg : attends m st -> covered depth R m -> (forall v, seen symbol_id v msg = v) ->
  exists st', rfold (send_trade symbol_id max msg) st (clients_for_symbol symbol_id (ms_subs st)) = Ok st' /\ attends m st'.
Proof.
  intros [Hsh Hsub Hc Hcf] Hd Hseen. set (P := fun x : MarketDataState => calm st x /\ caught m x).
  destruct (pass_one c (send_trade symbol_id max msg) symbol_id (clients_for_symbol symbol_id (ms_subs st)) st P P) as (st' & E & Hcm & _ & Hc').
  - intros x c' Hx Hne. by apply trade_aside.
  - intros x x' [Hx1 Hx2] Ha. split; [eapply calm_trans; [exact Hx1|apply Ha]|by eapply caught_aside].
  - intros x x' [Hx1 Hx2] Ha. split; [eapply calm_trans; [exact Hx1|apply Ha]|by eapply caught_aside].
  - intros x [Hx1 Hx2] _. destruct (trade_self m msg x Hx2) as (x' & E & Hcx & Hqx); try done.
    + eapply shows_books; [apply Hx1|done].
    + rewrite (cm_subs _ _ Hx1). apply Hsub.
    + exists x'. split; [done|]. split; [done|]. split; [by eapply calm_trans|done].
  - apply clients_nodup.
  - apply Hsub.
  - by eapply shows_can.
  - split; [apply calm_refl|done].
  - exists st'. split; [exact E|]. split; [eapply shows_books; [apply Hcm|done]|by rewrite (cm_subs _ _ Hcm)|done|by rewrite (cm_config _ _ Hcm)].
Qed.

(** What a record needs of the process: room in the book, or a price a new
    book can be built around. *)
Definition feedable (st : MarketDataState) (rec : TileRecord) : Prop :=
  match vget (ms_books st) symbol_id with
  | Some (Some s) => takes_record rec s = true
  | _ => match rec with
         | TrInserted r =>
             cfg_ok (wn_price r) (bc_tick_size cfg) /\ spread_ok (wn_price r) (bc_tick_size cfg) /\ 0 < bc_lot_size cfg <= I64_MAX /\
             0 <= ms_book_capacity st <= NONE /\
             exists s, ShadowBook_new cfg (ms_book_capacity st) (wn_price r) = Ok s /\ takes_record rec s = true
         | _ => True
         end
  end.

Lemma new_mirrors capacity mid s : cfg_ok mid (bc_tick_size cfg) -> spread_ok mid (bc_tick_size cfg) -> 0 < bc_lot_size cfg <= I64_MAX ->
  0 <= capacity <= NONE -> ShadowBook_new cfg capacity mid = Ok s -> mirrors cfg s empty_market /\ sb_symbol_id s = bc_symbol_id cfg.
Proof.
  intros Hc Hsp Hl Hcap E. unfold ShadowBook_new in E. apply bind_ok in E as (b & Eb & E). injection E as <-.
  split; [|done]. exists ∅. split; [by eapply new_serves|apply keyed_empty].
Qed.

Lemma touch_twice now idx st : 0 <= idx -> touch now idx (touch now idx st) = touch now idx st.
Proof.
  intros Hi. unfold touch at 2 3. case_if; [|unfold touch; by rewrite Heqb]. unfold touch. cbn [ms_with_access ms_last_book_access].
  rewrite zlen_vput, Heqb. unfold ms_with_access. cbn. f_equal. unfold vput. replace (0 <=? idx) with true by lia. apply list_insert_insert_eq.
Qed.

Lemma insert_reports rec s r s1 : insert_on_book rec s = Ok (r, s1) -> r = Some (wn_side rec, wn_price rec).
Proof.
  unfold insert_on_book. intros E. apply bind_ok in E as ([h s2] & _ & E). apply bind_ok in E as (s3 & _ & E). by injection E as <- _.
Qed.

Lemma record_with_book now rec m st s : vget (ms_books st) symbol_id = Some (Some s) -> attends m st -> about rec symbol_id ->
  sane (bc_tick_size cfg) m rec -> takes_record rec s = true -> covered depth R (taped m rec) ->
  exists st', feed_record now rec st = Ok st' /\ attends (taped m rec) st'.
Proof.
  intros Eb Ha Hab Hs Hf Hd. destruct (book_attends now rec m st s Eb Ha Hs Hf Hd) as (r & s1 & E & Hr).
  pose proof (vget_some_range _ _ _ Eb) as Hrg.
  destruct rec as [rec|rec|rec| | | | | ]; cbn [feed_record shadow_record about] in *; try (exists st; split; [done|exact Ha]).
  - unfold apply_fill, book_mut. rewrite Hab, (cm_books _ _ (touch_calm now symbol_id st)), Eb, E. cbn [mbind Res_bind].
    destruct r as [[side p]|]; [|eexists; split; [reflexivity|exact Hr]]. destruct Hr as (st1 & -> & Ha1). cbn [mbind Res_bind].
    by apply trades_attend.
  - unfold apply_insert, ensure_book, book_mut. rewrite Hab. replace (symbol_id >=? zlen (ms_books st)) with false by lia.
    rewrite Eb. cbn [mbind Res_bind]. rewrite touch_twice by lia. rewrite (cm_books _ _ (touch_calm now symbol_id st)), Eb, E. cbn [mbind Res_bind].
    by rewrite (insert_reports _ _ _ _ E) in Hr.
  - unfold apply_cancel, book_mut. rewrite Hab, (cm_books _ _ (touch_calm now symbol_id st)), Eb, E. cbn [mbind Res_bind].
    destruct r as [[side p]|]; [exact Hr|eexists; split; [reflexivity|exact Hr]].
Qed.

(** The first insertion makes the book. *)
Lemma insert_opens now rec st s : vget (ms_books st) symbol_id = Some None -> wn_symbol_id rec = symbol_id -> 0 < wn_price rec ->
  for_symbol symbol_id (ms_base_config st) = cfg -> ShadowBook_new cfg (ms_book_capacity st) (wn_price rec) = Ok s ->
  apply_insert now max rec st = apply_insert now max rec (put_book symbol_id s st).
Proof.
  intros Eb Es Hp Hcf En. unfold apply_insert. f_equal. unfold ensure_book. rewrite Es. pose proof (vget_some_range _ _ _ Eb) as Hrg.
  cbn [put_book ms_with_books ms_books]. rewrite zlen_vput, vget_vput_eq by done. replace (symbol_id >=? zlen (ms_books st)) with false by lia.
  rewrite Eb, Hcf. replace (wn_price rec >? 0) with true by lia. rewrite En. done.
Qed.

(** A record of the symbol: it is applied, and the client sees the market it makes. *)
Lemma record_attends now rec m st : attends m st -> about rec symbol_id -> sane (bc_tick_size cfg) m rec -> feedable st rec ->
  covered depth R (taped m rec) -> exists st', feed_record now rec st = Ok st' /\ attends (taped m rec) st'.
Proof.
  intros Ha Hab Hs Hf Hd. pose proof Ha as [Hsh Hsub Hc Hcf]. unfold shows in Hsh. unfold feedable in Hf.
  destruct (vget (ms_books st) symbol_id) as [[s|]|] eqn:Eb; [by eapply record_with_book| |done].
  pose proof Hsh as (HB & HS & HN). cbn in HB, HS, HN.
  assert (forall st', touch now symbol_id st = st' -> taped m rec ≡ empty_market -> attends (taped m rec) st') as Hstay.
  { intros st' <- Hm. split; [|by rewrite (cm_subs _ _ (touch_calm now symbol_id st))| |by rewrite (cm_config _ _ (touch_calm now symbol_id st))].
    - unfold shows. by rewrite (cm_books _ _ (touch_calm now symbol_id st)), Eb.
    - assert (market_levels (taped m rec) = market_levels m) as El by (by rewrite Hm, Hsh).
      destruct (caught_conns m st _ (touch_conns now symbol_id st) Hc) as (conn & E & Hv). exists conn. unfold faithful. by rewrite El. }
  destruct rec as [rec|rec|rec| | | | | ]; cbn [feed_record about taped] in *; try (exists st; split; [done|exact Ha]).
  - unfold apply_fill, book_mut. rewrite Hab, (cm_books _ _ (touch_calm now symbol_id st)), Eb. eexists. split; [reflexivity|].
    apply Hstay; [done|]. unfold strike, on_sides. rewrite HB, HS. by split.
  - destruct Hf as (Hc1 & Hsp & Hlot & Hcap & s & En & Ht). destruct (new_mirrors _ _ s Hc1 Hsp Hlot Hcap En) as [Hm Esym].
    pose proof Hs as (Hp & _). rewrite (insert_opens now rec st s Eb Hab ltac:(lia) Hcf En).
    pose proof (vget_some_range _ _ _ Eb) as Hrg.
    assert (vget (ms_books (put_book symbol_id s st)) symbol_id = Some (Some s)) as Eb1 by (cbn; by apply vget_vput_eq).
    apply (record_with_book now (TrInserted rec) m (put_book symbol_id s st) s Eb1); try done. split; try done.
    unfold shows. rewrite Eb1. rewrite Hsh. split; [done|]. rewrite Esym, <- Hcf. done.
  - unfold apply_cancel, book_mut. rewrite Hab, (cm_books _ _ (touch_calm now symbol_id st)), Eb. eexists. split; [reflexivity|].
    apply Hstay; [done|]. unfold pull, on_sides. rewrite HB, HS. by split.
Qed.

End FeedInv.

Lemma listed_default `{HashIter} c sid subs : In c (clients_for_symbol sid subs) <-> c ∈ default (∅ : gset Z) (sm_symbol_clients subs !! sid).
Proof.
  unfold clients_for_symbol. destruct (sm_symbol_clients subs !! sid) as [x|]; cbn; [|set_solver].
  by rewrite iter_set_perm, <- list_elem_of_In, elem_of_elements.
Qed.

Section Session.
Context `{HashIter} (cfg : BookConfig) (symbol_id c depth max : Z) (R : Side -> Z -> Prop).
Hypothesis Hmax : 0 < max.
Hypothesis Hsym : 0 <= symbol_id.

Abbreviation subscribed := (subscribed symbol_id c depth).
Abbreviation shows := (shows cfg symbol_id).
Abbreviation caught := (caught symbol_id c R).
Abbreviation attends := (attends cfg symbol_id c depth R).

(** ** Steps that do not concern the client *)

Record spares (st st' : MarketDataState) : Prop := {
  sp_conn : ms_connections st' !! c = ms_connections st !! c;
  sp_book : vget (ms_books st') symbol_id = vget (ms_books st) symbol_id;
  sp_config : ms_base_config st' = ms_base_config st;
  sp_subs : subscribed (ms_subs st) -> subscribed (ms_subs st');
}.

Lemma spares_refl st : spares st st.
Proof. by split. Qed.

Lemma spares_trans st1 st2 st3 : spares st1 st2 -> spares st2 st3 -> spares st1 st3.
Proof. intros [] []. split; try congruence. tauto. Qed.

Lemma aside_spares st st' : aside c st st' -> spares st st'.
Proof. intros [[E1 E2 E3 _ _] E]. split; [done|by rewrite E2|done|by rewrite E1]. Qed.

Lemma spares_attends v0 D m st st' : spares st st' -> attends v0 D m st -> attends v0 D m st'.
Proof.
  intros [E1 E2 E3 E4] [Hs Hsub (conn & Ec & Hc) Hcf]. split; [|by apply E4| |by rewrite E3].
  - unfold FeedInv.shows. by rewrite E2.
  - exists conn. by rewrite E1.
Qed.

Lemma push_spares c' msg max' st : c' <> c -> spares st (push_to_client c' msg max' st).2.
Proof. intros Hne. by apply aside_spares, push_aside. Qed.

Lemma resync_spares c' sid d max' st st' : c' <> c -> send_snapshot_to_client c' sid d max' st = Ok st' -> spares st st'.
Proof.
  intros Hne E. unfold send_snapshot_to_client in E. apply bind_ok in E as (msg & _ & E). injection E as <-.
  assert (spares st (ms_with_connections (alter clear_outbound c' (ms_connections st)) st)) as Hs.
  { split; try done. cbn. by rewrite lookup_alter_ne. }
  destruct msg; [|exact Hs]. eapply spares_trans; [exact Hs|by apply push_spares].
Qed.

Lemma push_or_resync_spares c' sid msg max' st st' : c' <> c -> push_or_resync c' sid msg max' st = Ok st' -> spares st st'.
Proof.
  intros Hne E. unfold push_or_resync in E. pose proof (push_spares c' msg max' st Hne) as Hs.
  destruct (push_to_client c' msg max' st) as [[] st1]; cbn [snd] in Hs; [by injection E as <-|].
  eapply spares_trans; [exact Hs|by eapply resync_spares].
Qed.

Lemma pass_spares (f : MarketDataState -> Z -> Res MarketDataState) l st st' :
  (forall st c' st', c' <> c -> f st c' = Ok st' -> spares st st') -> ~ In c l -> rfold f st l = Ok st' -> spares st st'.
Proof.
  intros Hf. revert st. induction l as [|c' l IH]; intros st Hn E; [injection E as <-; apply spares_refl|].
  cbn [rfold] in E. apply bind_ok in E as (st1 & E1 & E). eapply spares_trans; [eapply Hf; [|exact E1]; intros ->; apply Hn; by left|].
  apply IH; [intros Hi; apply Hn; by right|done].
Qed.

Lemma updates_spares sid max' d b st c' st' : c' <> c -> send_updates sid max' d b st c' = Ok st' -> spares st st'.
Proof.
  intros Hne E. unfold send_updates in E. apply bind_ok in E as (st1 & E1 & E). injection E as <-.
  assert (spares st st1) as Hs by (case_if_in E1; [by eapply push_or_resync_spares|by injection E1 as <-]).
  destruct b; [|done]. case_if; [|done]. eapply spares_trans; [exact Hs|by apply push_spares].
Qed.

Lemma trade_spares sid max' msg st c' st' : c' <> c -> send_trade sid max' msg st c' = Ok st' -> spares st st'.
Proof. intros Hne E. unfold send_trade in E. case_if_in E; [by eapply push_or_resync_spares|by injection E as <-]. Qed.

(** ** Records of other symbols *)

Lemma touch_spares now sid st : spares st (touch now sid st).
Proof. unfold touch. case_if; by split. Qed.

Lemma vget_vput_other {X : Type} (l : list X) i j x : i <> j -> vget (vput l i x) j = vget l j.
Proof. intros Hne. by apply vget_vput_ne. Qed.

Lemma put_spares sid s st : sid <> symbol_id -> spares st (put_book sid s st).
Proof. intros Hne. split; try done. cbn. by apply vget_vput_ne. Qed.

Lemma broadcast_spares now sid side p st st' : sid <> symbol_id -> subscribed (ms_subs st) ->
  broadcast_updates now sid side p max st = Ok st' -> spares st st'.
Proof.
  intros Hne Hsub E. unfold broadcast_updates, book_mut in E. pose proof (touch_spares now sid st) as Ht. set (st1 := touch now sid st) in *.
  destruct (vget (ms_books st1) sid) as [[s|]|]; [|by injection E as <-|by injection E as <-].
  apply bind_ok in E as (d & _ & E). apply bind_ok in E as (b & _ & E).
  match type of E with (let '(_, _) := ?e in _) = _ => destruct e as [bm st2] eqn:Eb end.
  assert (spares st st2) as Hs2.
  { eapply spares_trans; [exact Ht|]. destruct b as [b|]; [|injection Eb as _ <-; apply spares_refl].
    unfold note_bbo in Eb. destruct (vget (ms_last_bbo st1) sid); [|injection Eb as _ <-; apply spares_refl].
    case_if_in Eb; injection Eb as _ <-; by split. }
  eapply spares_trans; [exact Hs2|]. eapply pass_spares; [|apply (sp_subs _ _ Hs2 Hsub), Hne|exact E].
  intros x c' x' Hc. by apply updates_spares.
Qed.

Lemma other_record_spares now rec st st' sid : about rec sid -> sid <> symbol_id -> subscribed (ms_subs st) ->
  feed_record max now rec st = Ok st' -> spares st st'.
Proof.
  intros Hab Hne Hsub E. destruct rec as [rec|rec|rec| | | | | ]; cbn [feed_record about] in *; try (injection E as <-; apply spares_refl).
  - unfold apply_fill, book_mut in E. rewrite Hab in E. pose proof (touch_spares now sid st) as Ht. set (st1 := touch now sid st) in *.
    destruct (vget (ms_books st1) sid) as [[s|]|]; [|by injection E as <-|by injection E as <-].
    apply bind_ok in E as ([r s1] & _ & E). pose proof (spares_trans _ _ _ Ht (put_spares sid s1 st1 Hne)) as Hp.
    destruct r as [[side p]|]; [|by injection E as <-]. apply bind_ok in E as (st2 & E1 & E).
    pose proof (broadcast_spares now sid side p _ st2 Hne (sp_subs _ _ Hp Hsub) E1) as Hb. pose proof (spares_trans _ _ _ Hp Hb) as Hpb.
    eapply spares_trans; [exact Hpb|]. eapply pass_spares; [|apply (sp_subs _ _ Hpb Hsub), Hne|exact E].
    intros x c' x' Hc. by apply trade_spares.
  - unfold apply_insert in E. rewrite Hab in E. apply bind_ok in E as (st0 & E0 & E).
    assert (spares st st0) as H0.
    { unfold ensure_book in E0. case_if_in E0; [injection E0 as <-; apply spares_refl|]. apply bind_ok in E0 as (x & Ex & E0). injection E0 as <-.
      eapply spares_trans; [|apply touch_spares]. destruct (vget (ms_books st) sid) as [[s|]|]; [injection Ex as <-; apply spares_refl| |injection Ex as <-; apply spares_refl].
      apply bind_ok in Ex as (s & _ & Ex). injection Ex as <-. by apply put_spares. }
    unfold book_mut in E. pose proof (spares_trans _ _ _ H0 (touch_spares now sid st0)) as Ht. set (st1 := touch now sid st0) in *.
    destruct (vget (ms_books st1) sid) as [[s|]|]; [|by injection E as <-|by injection E as <-].
    apply bind_ok in E as ([r s1] & _ & E). pose proof (spares_trans _ _ _ Ht (put_spares sid s1 st1 Hne)) as Hp.
    eapply spares_trans; [exact Hp|]. eapply broadcast_spares; [exact Hne|by apply (sp_subs _ _ Hp)|exact E].
  - unfold apply_cancel, book_mut in E. rewrite Hab in E. pose proof (touch_spares now sid st) as Ht. set (st1 := touch now sid st) in *.
    destruct (vget (ms_books st1) sid) as [[s|]|]; [|by injection E as <-|by injection E as <-].
    apply bind_ok in E as ([r s1] & _ & E). pose proof (spares_trans _ _ _ Ht (put_spares sid s1 st1 Hne)) as Hp.
    destruct r as [[side p]|]; [|by injection E as <-]. eapply spares_trans; [exact Hp|].
    eapply broadcast_spares; [exact Hne|by apply (sp_subs _ _ Hp)|exact E].
Qed.

(** ** Gaps *)

Lemma push_attends v0 D m msg st : attends v0 D m st -> (forall v, faithful R m (seen symbol_id v msg) \/ seen symbol_id v msg = v) ->
  attends v0 D m (push_to_client c msg max st).2.
Proof.
  intros [Hs Hsub (conn & Ec & Hc) Hcf] Hseen. pose proof (push_calm c msg max st) as Hcm.
  split; [by eapply shows_books; [apply Hcm|]|by rewrite (cm_subs _ _ Hcm)| |by rewrite (cm_config _ _ Hcm)].
  unfold push_to_client. rewrite Ec. case_if; [by exists conn|]. exists (queued msg conn). split; [cbn; by rewrite lookup_insert_eq|].
  cbn [queued cn_outbound]. rewrite app_assoc, shown_app. cbn. by destruct (Hseen (shown symbol_id v0 (D ++ cn_outbound conn))) as [?| ->].
Qed.

Lemma push_any_attends v0 D m msg st c' : attends v0 D m st -> (forall v, faithful R m (seen symbol_id v msg) \/ seen symbol_id v msg = v) ->
  attends v0 D m (push_to_client c' msg max st).2.
Proof.
  intros Ha Hseen. destruct (decide (c' = c)) as [->|Hne]; [by apply push_attends|]. by eapply spares_attends; [apply push_spares|].
Qed.

Lemma resend_attends v0 D m d sid st st' : attends v0 D m st -> covered d R m -> resend_snapshot sid d max st = Ok st' -> attends v0 D m st'.
Proof.
  intros Ha Hd E. unfold resend_snapshot in E. apply bind_ok in E as (msg & Em & E). destruct msg as [f|]; [|by injection E as <-]. injection E as <-.
  destruct (decide (sid = symbol_id)) as [->|Hne].
  - destruct (shows_snapshot cfg symbol_id st m d) as (ts & seq & Esn); [apply Ha|]. rewrite Esn in Em. injection Em as <-.
    revert Ha. generalize (clients_for_symbol symbol_id (ms_subs st)). intros l. revert st Esn.
    induction l as [|c' l IH]; intros st Esn Ha; [done|]. cbn [fold_left]. case_if; [|by apply IH].
    pose proof (push_calm c' (FrameSnapshot (mkL2Snapshot symbol_id (take (Z.to_nat d) (ladder Buy m)) (take (Z.to_nat d) (ladder Sell m)) ts seq)) max st) as Hcm.
    apply IH; [rewrite (snapshot_msg_books symbol_id d st) by apply Hcm; exact Esn|].
    apply push_any_attends; [done|]. intros v. left. by apply snapshot_faithful.
  - pose proof (su_only _ _ _ _ (at_subs _ _ _ _ _ _ _ _ _ Ha) sid Hne) as Hn. revert Hn. clear Em.
    generalize (clients_for_symbol sid (ms_subs st)). intros l. revert st Ha.
    induction l as [|c' l IH]; intros st Ha Hn; [done|]. cbn [fold_left]. apply IH; [|intros Hi; apply Hn; by right].
    case_if; [|done]. eapply spares_attends; [|done]. apply push_spares. intros ->. apply Hn. by left.
Qed.

Lemma gap_attends v0 D m d st st' : attends v0 D m st -> covered d R m -> resend_all_snapshots d max st = Ok st' -> attends v0 D m st'.
Proof.
  intros Ha Hd. unfold resend_all_snapshots. generalize (zrange 0 (zlen (ms_books st))). intros l. revert st Ha.
  induction l as [|sid l IH]; intros st Ha E; [by injection E as <-|]. cbn [rfold] in E. apply bind_ok in E as (st1 & E1 & E).
  apply (IH st1); [|done]. destruct (vget (ms_books st) sid) as [[s|]|]; [by eapply resend_attends|by injection E1 as <-|by injection E1 as <-].
Qed.

(** ** Other clients *)

Lemma leave_listed (sets : gmap Z (gset Z)) c' sid : c' <> c -> c ∈ default (∅ : gset Z) (alter (leave c') sid sets !! sid) <-> c ∈ default (∅ : gset Z) (sets !! sid).
Proof. intros Hne. rewrite lookup_alter_eq. destruct (sets !! sid); cbn; [|done]. unfold leave. set_solver. Qed.

(** Subscriptions that treat our client alike. *)
Lemma subscribed_alike subs subs' : sm_clients subs' !! c = sm_clients subs !! c ->
  (forall sid, c ∈ default (∅ : gset Z) (sm_symbol_clients subs' !! sid) <-> c ∈ default (∅ : gset Z) (sm_symbol_clients subs !! sid)) ->
  subscribed subs -> subscribed subs'.
Proof.
  intros Ec El [S1 S2 S3 S4]. split.
  - revert S1. unfold has_depth, has_channel. by rewrite Ec.
  - revert S2. unfold client_depth. by rewrite Ec.
  - apply listed_default, El, listed_default, S3.
  - intros sid Hne Hi. apply (S4 sid Hne). apply listed_default, El, listed_default, Hi.
Qed.

Lemma subscribe_others c' sid ch d subs : c' <> c -> subscribed subs -> subscribed (subscribe c' sid ch d subs).2.
Proof.
  intros Hne. apply subscribed_alike; cbn; [by rewrite lookup_insert_ne|]. intros sid'. destruct (decide (sid' = sid)) as [->|Hs].
  - rewrite lookup_insert_eq. cbn. set_solver.
  - by rewrite lookup_insert_ne by congruence.
Qed.

Lemma leave_others c' sid (sets : gmap Z (gset Z)) : c' <> c ->
  forall sid', c ∈ default (∅ : gset Z) (alter (leave c') sid sets !! sid') <-> c ∈ default (∅ : gset Z) (sets !! sid').
Proof.
  intros Hne sid'. destruct (decide (sid' = sid)) as [->|Hs]; [by apply leave_listed|by rewrite lookup_alter_ne by congruence].
Qed.

Lemma unsubscribe_others c' sid subs : c' <> c -> subscribed subs -> subscribed (unsubscribe c' sid subs).
Proof.
  intros Hne. apply subscribed_alike; cbn; [by rewrite lookup_alter_ne|by apply leave_others].
Qed.

Lemma unsubscribe_all_others c' subs : c' <> c -> subscribed subs -> subscribed (unsubscribe_all c' subs).
Proof.
  intros Hne. unfold unsubscribe_all. destruct (sm_clients subs !! c') as [sub|]; [|done].
  apply subscribed_alike; cbn; [by rewrite lookup_delete_ne|].
  generalize (map fst (iter_map (cs_symbols sub))) (sm_symbol_clients subs). intros l. induction l as [|sid l IH]; intros sets sid'; [done|].
  cbn [fold_left]. rewrite IH. by apply leave_others.
Qed.

Lemma frame_spares now d c' f st st' : c' <> c -> on_client_frame now d max c' f st = Ok st' -> spares st st'.
Proof.
  intros Hne E. assert (forall subs, (subscribed (ms_subs st) -> subscribed subs) -> spares st (ms_with_subs subs st)) as Hw by (intros subs Hs; by split).
  destruct f as [sid ch|sid ch|ts]; cbn [on_client_frame] in E.
  - pose proof (Hw _ (subscribe_others c' sid ch d (ms_subs st) Hne)) as Hs. case_if_in E; [|by injection E as <-].
    eapply spares_trans; [exact Hs|by eapply resync_spares].
  - injection E as <-. case_if; apply Hw; [by apply unsubscribe_all_others|by apply unsubscribe_others].
  - injection E as <-. eapply spares_trans; [|by apply push_spares]. split; try done. cbn. by rewrite lookup_alter_ne.
Qed.

Lemma remove_spares c' st : c' <> c -> spares st (remove_connection c' st).
Proof.
  intros Hne. split; try done; cbn; [by rewrite lookup_delete_ne|by apply unsubscribe_all_others].
Qed.

Lemma add_spares now st : ms_next_conn_id st <> c -> spares st (add_connection now st).2.
Proof. intros Hne. split; try done. cbn. by rewrite lookup_insert_ne. Qed.

Lemma timeouts_spare now timeout_ns st : ~ In c (check_timeouts now timeout_ns st).1 -> spares st (check_timeouts now timeout_ns st).2.
Proof.
  unfold check_timeouts. cbn [fst snd]. set (l := map fst _). clearbody l. revert st. induction l as [|c' l IH]; intros st Hn; [apply spares_refl|].
  cbn [fold_left]. eapply spares_trans; [apply (remove_spares c'); intros ->; apply Hn; by left|]. apply IH. intros Hi. apply Hn. by right.
Qed.

(** A book somebody listens to is not evicted. *)
Lemma evict_spares now ttl_ns st : subscribed (ms_subs st) -> spares st (evict_stale_books now ttl_ns st).
Proof.
  unfold evict_stale_books. generalize (zrange 0 (zlen (ms_books st))). intros l. revert st.
  induction l as [|sid l IH]; intros st Hsub; [apply spares_refl|]. cbn [fold_left].
  assert (spares st (evict_stale_book now ttl_ns st sid)) as Hs.
  { unfold evict_stale_book. destruct (vget (ms_books st) sid) as [[s|]|]; [|apply spares_refl..].
    repeat (case_if; [apply spares_refl|]). case_if; [|apply spares_refl]. bool_to_prop. split; try done. cbn. apply vget_vput_ne.
    intros ->. pose proof (su_listed _ _ _ _ Hsub) as Hl. apply bool_decide_eq_true in Heqb1. by rewrite Heqb1 in Hl. }
  eapply spares_trans; [exact Hs|]. apply IH. by apply (sp_subs _ _ Hs).
Qed.

End Session.
