(* ===== verification/FeedClaims.v ===== *)
(** * FeedClaims: what a depth subscriber is promised

    [attended]: a run of the market-data process after a client's
    subscription, with the records of its symbol and the frames the client
    was handed.  Its table shows levels of the market of the records at every
    moment, all of them while a snapshot's depth reaches them, and fed with a
    matching tile's records it is the tile's market. *)

From Stdlib Require Import Sorted.
From S2P Require Import Prelude Hash Types Slab Occupancy Compression Users Order Book Links BookInv Matching MatchInv.
From S2P Require Import FillQueue SlotMatch Engine Feasible Process Ranking Market Priority MarketRef MarketClaims Session.
From S2P Require Import Frames Messages Wal WalInv WalClaims Cast Dedup Tile TileLog TileInv TileRun Shadow Tape ShadowInv ShadowRun ShadowView Feed FeedView FeedInv.

(** ** Records off the wire *)

Definition feed_fits (rec : TileRecord) : Prop :=
  match rec with
  | TrFill r => record_fits r
  | TrInserted r => record_fits r
  | TrCancelled r => record_fits r
  | _ => True
  end.

Section Wire.
Context `{HashIter}.

Lemma live_applies now max rec seq st : feed_fits rec -> in_u64 seq ->
  apply_record now max (record_log rec seq).1 (record_log rec seq).2 st = feed_record max now rec st.
Proof.
  intros Hf Hs. destruct rec as [r|r|r|r|r|r|r|r]; try done; cbn [record_log log_rec fst snd feed_record]; unfold apply_record;
    cbn [Z.eqb record_type]; rewrite decode_as_bytes by (by apply set_seq_fits); by destruct r.
Qed.

(** The gap check resends or leaves the state alone. *)
Lemma seq_checked d max expected payload st expected' st' : on_record_seq d max expected payload st = Ok (expected', st') ->
  st' = st \/ resend_all_snapshots d max (note_gap st) = Ok st'.
Proof.
  unfold on_record_seq. destruct (extract_seq payload) as [seq|]; [|intros [= _ <-]; by left].
  intros E. apply bind_ok in E as (st1 & E1 & E). injection E as _ <-. case_if_in E1; [by right|left]. by injection E1 as <-.
Qed.

Lemma resend_calm sid d max st st' : resend_snapshot sid d max st = Ok st' -> calm st st'.
Proof.
  intros E. unfold resend_snapshot in E. apply bind_ok in E as (msg & _ & E). destruct msg as [f|]; [|injection E as <-; apply calm_refl].
  injection E as <-. generalize (clients_for_symbol sid (ms_subs st)). intros l. revert st.
  induction l as [|c l IH]; intros st; [apply calm_refl|]. cbn [fold_left]. eapply calm_trans; [|apply IH]. case_if; [apply push_calm|apply calm_refl].
Qed.

Lemma resend_all_calm d max st st' : resend_all_snapshots d max st = Ok st' -> calm st st'.
Proof.
  unfold resend_all_snapshots. generalize (zrange 0 (zlen (ms_books st))). intros l. revert st.
  induction l as [|sid l IH]; intros st E; [injection E as <-; apply calm_refl|]. cbn [rfold] in E. apply bind_ok in E as (st1 & E1 & E).
  eapply calm_trans; [|by apply IH]. destruct (vget (ms_books st) sid) as [[s|]|]; [by eapply resend_calm|injection E1 as <-; apply calm_refl|injection E1 as <-; apply calm_refl].
Qed.

Lemma seq_checked_calm d max expected payload st expected' st' : on_record_seq d max expected payload st = Ok (expected', st') -> calm st st'.
Proof.
  intros [->|E]%seq_checked; [apply calm_refl|]. eapply calm_trans; [|by eapply resend_all_calm]. by split.
Qed.

End Wire.

Section Attended.
Context `{HashIter} (cfg : BookConfig) (symbol_id c depth max : Z) (v0 : Levels) (m0 : Market).

(** What the process does after client [c] asks for a symbol's depth, with
    the symbol's records since and the frames the client has been handed. *)
Inductive attended : list TileRecord -> list Frame -> MarketDataState -> Prop :=
| at_subscribe now ch st st' conn :
    ms_connections st !! c = Some conn -> shows cfg symbol_id st m0 -> for_symbol symbol_id (ms_base_config st) = cfg ->
    (forall sid, sid <> symbol_id -> ~ In c (clients_for_symbol sid (ms_subs st))) -> Z.land ch CHANNEL_DEPTH <> 0 ->
    on_client_frame now depth max c (Subscribe symbol_id ch) st = Ok st' -> attended [] [] st'
| at_resubscribe rs D st now ch st' :
    attended rs D st -> Z.land ch CHANNEL_DEPTH <> 0 -> on_client_frame now depth max c (Subscribe symbol_id ch) st = Ok st' -> attended rs D st'
| at_record rs D st now rec seq expected expected' st' :
    attended rs D st -> about rec symbol_id -> feed_fits rec -> in_u64 seq -> feedable cfg symbol_id st rec ->
    on_live_record now depth max expected (record_log rec seq).1 (record_log rec seq).2 st = Ok (expected', st') -> attended (rs ++ [rec]) D st'
| at_other rs D st now rec seq expected expected' st' sid :
    attended rs D st -> about rec sid -> sid <> symbol_id -> feed_fits rec -> in_u64 seq ->
    on_live_record now depth max expected (record_log rec seq).1 (record_log rec seq).2 st = Ok (expected', st') -> attended rs D st'
| at_drain rs D st : attended rs D st -> attended rs (D ++ (drain_outbound c st).1) (drain_outbound c st).2
| at_drain_other rs D st c' : attended rs D st -> c' <> c -> attended rs D (drain_outbound c' st).2
| at_frame rs D st now c' f st' :
    attended rs D st -> c' <> c -> on_client_frame now depth max c' f st = Ok st' -> attended rs D st'
| at_heartbeat rs D st now ts st' :
    attended rs D st -> on_client_frame now depth max c (Heartbeat ts) st = Ok st' -> attended rs D st'
| at_connect rs D st now : attended rs D st -> ms_next_conn_id st <> c -> attended rs D (add_connection now st).2
| at_disconnect rs D st c' : attended rs D st -> c' <> c -> attended rs D (remove_connection c' st)
| at_beats rs D st ts : attended rs D st -> attended rs D (broadcast_heartbeat ts st)
| at_timeouts rs D st now timeout_ns :
    attended rs D st -> ~ In c (check_timeouts now timeout_ns st).1 -> attended rs D (check_timeouts now timeout_ns st).2
| at_evict rs D st now ttl_ns : attended rs D st -> attended rs D (evict_stale_books now ttl_ns st).

Hypothesis Hmax : 0 < max.
Hypothesis Hsym : 0 <= symbol_id.
Context (R : Side -> Z -> Prop).

Abbreviation attends := (attends cfg symbol_id c depth R v0).

Lemma subscribe_attends D m now ch st st' conn :
  ms_connections st !! c = Some conn -> shows cfg symbol_id st m -> for_symbol symbol_id (ms_base_config st) = cfg ->
  (forall sid, sid <> symbol_id -> ~ In c (clients_for_symbol sid (ms_subs st))) -> Z.land ch CHANNEL_DEPTH <> 0 -> covered depth R m ->
  on_client_frame now depth max c (Subscribe symbol_id ch) st = Ok st' -> attends D m st'.
Proof.
  intros Ec Hs Hcf Hn Hch Hd. cbn [on_client_frame]. set (st1 := ms_with_subs _ st). change CHANNEL_DEPTH with 2 in Hch.
  replace (Z.land ch 2 =? 0) with false by (symmetry; by apply Z.eqb_neq). cbn [negb]. intros E.
  destruct (resync_self cfg symbol_id c depth max R v0 D Hmax m st1 conn Ec Hs Hd) as (st2 & E2 & Hcm & Hct).
  rewrite E2 in E. injection E as <-. split; [by eapply shows_books; [apply Hcm|]| |done|by rewrite (cm_config _ _ Hcm)].
  rewrite (cm_subs _ _ Hcm). cbn [st1 ms_with_subs ms_subs]. split.
  - unfold has_depth, has_channel. cbn. rewrite lookup_insert_eq. cbn. rewrite lookup_insert_eq. apply negb_true_iff, Z.eqb_neq, Hch.
  - unfold client_depth. cbn. by rewrite lookup_insert_eq.
  - apply listed_default. cbn. rewrite lookup_insert_eq. cbn. set_solver.
  - intros sid Hne. specialize (Hn sid Hne). rewrite listed_default in *. cbn. by rewrite lookup_insert_ne by congruence.
Qed.

Lemma gap_note_attends D m st : attends D m st -> attends D m (note_gap st).
Proof. apply spares_attends. by split. Qed.

Lemma drained_attends D m st : attends D m st -> attends (D ++ (drain_outbound c st).1) m (drain_outbound c st).2.
Proof.
  intros [Hs Hsub (conn & Ec & Hc) Hcf]. unfold drain_outbound. rewrite Ec. cbn [fst snd]. split; try done.
  eexists. split; [cbn; by rewrite lookup_insert_eq|]. cbn [cn_outbound]. by rewrite app_nil_r.
Qed.

Lemma queued_deaf D m st ts : attends D m st -> attends D m (broadcast_heartbeat ts st).
Proof.
  intros [Hs Hsub (conn & Ec & Hc) Hcf]. split; try done. exists (queued (FrameHeartbeat ts) conn). split; [cbn; by rewrite lookup_fmap, Ec|].
  cbn [queued cn_outbound]. rewrite app_assoc, shown_app. exact Hc.
Qed.

Lemma own_heartbeat D m st now ts st' : attends D m st -> on_client_frame now depth max c (Heartbeat ts) st = Ok st' -> attends D m st'.
Proof.
  intros Ha [= <-]. apply push_attends; [|by right]. destruct Ha as [Hs Hsub (conn & Ec & Hc) Hcf]. split; try done.
  exists (mkConnection (cn_outbound conn) (cn_egress conn) now). split; [cbn; by rewrite lookup_alter_eq, Ec|done].
Qed.

Lemma checked_attends D m st payload expected expected' st' : attends D m st -> covered depth R m ->
  on_record_seq depth max expected payload st = Ok (expected', st') -> attends D m st'.
Proof.
  intros Ha Hd [->|E]%seq_checked; [done|]. eapply gap_attends; [by apply gap_note_attends|exact Hd|exact E].
Qed.

Lemma feedable_calm st st' rec : calm st st' -> feedable cfg symbol_id st rec -> feedable cfg symbol_id st' rec.
Proof. intros Hc. unfold feedable. by rewrite (cm_books _ _ Hc), (cm_capacity _ _ Hc). Qed.

Lemma live_attends D m st now rec seq expected expected' st' :
  attends D m st -> covered depth R m -> about rec symbol_id -> sane (bc_tick_size cfg) m rec -> feed_fits rec -> in_u64 seq ->
  feedable cfg symbol_id st rec -> covered depth R (taped m rec) ->
  on_live_record now depth max expected (record_log rec seq).1 (record_log rec seq).2 st = Ok (expected', st') -> attends D (taped m rec) st'.
Proof.
  intros Ha Hd Hab Hs Hf Hq Hfe Hd' E. unfold on_live_record in E. apply bind_ok in E as ([e st1] & E1 & E). apply bind_ok in E as (st2 & E2 & E).
  injection E as _ <-. rewrite live_applies in E2 by done. pose proof (seq_checked_calm _ _ _ _ _ _ _ E1) as Hcm.
  destruct (record_attends cfg symbol_id c depth max R v0 D Hmax now rec m st1) as (st3 & E3 & Ha3); [by eapply checked_attends|done|done|by eapply feedable_calm|done|].
  congruence.
Qed.

Lemma other_attends D m st now rec seq expected expected' st' sid :
  attends D m st -> covered depth R m -> about rec sid -> sid <> symbol_id -> feed_fits rec -> in_u64 seq ->
  on_live_record now depth max expected (record_log rec seq).1 (record_log rec seq).2 st = Ok (expected', st') -> attends D m st'.
Proof.
  intros Ha Hd Hab Hne Hf Hq E. unfold on_live_record in E. apply bind_ok in E as ([e st1] & E1 & E). apply bind_ok in E as (st2 & E2 & E).
  injection E as _ <-. rewrite live_applies in E2 by done. assert (attends D m st1) as Ha1 by (by eapply checked_attends).
  eapply spares_attends; [|exact Ha1]. eapply other_record_spares; [exact Hab|exact Hne|apply Ha1|exact E2].
Qed.

Lemma resubscribed D m st now ch st' : attends D m st -> covered depth R m -> Z.land ch CHANNEL_DEPTH <> 0 ->
  on_client_frame now depth max c (Subscribe symbol_id ch) st = Ok st' -> attends D m st'.
Proof. intros [Hs Hsub (conn & Ec & _) Hcf] Hd Hch. eapply subscribe_attends; [exact Ec|exact Hs|exact Hcf|apply Hsub|exact Hch|exact Hd]. Qed.

Definition always_covered (rs : list TileRecord) : Prop := forall rs', rs' `prefix_of` rs -> covered depth R (tape rs' m0).

Lemma always_now rs : always_covered rs -> covered depth R (tape rs m0).
Proof. intros Hc. by apply Hc. Qed.

Lemma always_before rs rec : always_covered (rs ++ [rec]) -> always_covered rs.
Proof. intros Hc rs' Hp. apply Hc. by apply prefix_app_r. Qed.

Lemma attended_attends rs D st : attended rs D st -> sane_tape (bc_tick_size cfg) m0 rs -> always_covered rs -> attends D (tape rs m0) st.
Proof.
  intros Hat. induction Hat as [now ch st st' conn Ec Hs Hcf Hn Hch E|rs D st now ch st' _ IH Hch E|rs D st now rec seq expected expected' st' _ IH Hab Hf Hq Hfe E
    |rs D st now rec seq expected expected' st' sid _ IH Hab Hne Hf Hq E|rs D st _ IH|rs D st c' _ IH Hne|rs D st now c' f st' _ IH Hne E
    |rs D st now ts st' _ IH E|rs D st now _ IH Hne|rs D st c' _ IH Hne|rs D st ts _ IH|rs D st now timeout_ns _ IH Hn|rs D st now ttl_ns _ IH]; intros Hsane Hcov;
    try (pose proof (IH Hsane Hcov) as Ha; pose proof (always_now _ Hcov) as Hda).
  - eapply subscribe_attends; try done. exact (Hcov [] (prefix_nil _)).
  - by eapply resubscribed.
  - pose proof (always_now _ Hcov) as Hd. rewrite tape_app in Hd |- *. apply sane_tape_app in Hsane as [H1 [H2 _]]. apply always_before in Hcov.
    eapply live_attends; [exact (IH H1 Hcov)|by apply always_now|..]; done.
  - by eapply other_attends.
  - by apply drained_attends.
  - eapply spares_attends; [|exact Ha]. unfold drain_outbound. destruct (ms_connections st !! c'); [|apply spares_refl]. split; try done.
    cbn. by rewrite lookup_insert_ne.
  - eapply spares_attends; [|exact Ha]. by eapply frame_spares.
  - by eapply own_heartbeat.
  - eapply spares_attends; [|exact Ha]. by eapply add_spares.
  - eapply spares_attends; [|exact Ha]. by eapply remove_spares.
  - by apply queued_deaf.
  - eapply spares_attends; [|exact Ha]. by eapply timeouts_spare.
  - eapply spares_attends; [|exact Ha]. eapply evict_spares, Ha; done.
Qed.

End Attended.

(** ** The levels no flag changes *)

Lemma shaded_side sd m : mk_side sd (shaded m) = map shade (mk_side sd m).
Proof. by destruct sd. Qed.

Lemma shaded_rung p sd m : rung p (mk_side sd (shaded m)) = rung p (mk_side sd m).
Proof.
  rewrite shaded_side. unfold rung, queue_of. induction (mk_side sd m) as [|r q IH]; [done|]. cbn [map List.filter shade rs_price].
  destruct (rs_price r =? p); [|exact IH]. injection IH as H1 H2. by rewrite !zsum_cons, !zlen_cons, H1, H2.
Qed.

Lemma shaded_ladder sd m : ladder sd (shaded m) = ladder sd m.
Proof.
  unfold ladder. rewrite (map_ext _ _ (fun p => shaded_rung p sd m)). do 2 f_equal. rewrite shaded_side, map_map. by apply map_ext.
Qed.

Lemma shaded_levels m : market_levels (shaded m) = market_levels m.
Proof. unfold market_levels. by rewrite !shaded_ladder. Qed.

Lemma shaded_top sd m : top_rung sd (shaded m) = top_rung sd m.
Proof.
  pose proof (fun p => shaded_rung p sd m) as E. unfold top_rung. rewrite shaded_side in *. destruct (mk_side sd m) as [|r q]; [done|]. apply (E (rs_price r)).
Qed.

(** What a book derives is fixed by the market it shows. *)
Lemma derived_alike `{HashIter} cfg cfg' mid mid' A A' fl fl' s b index index' m :
  hosted cfg mid A fl (sb_book s) index (shaded m) -> hosted cfg' mid' A' fl' b index' m ->
  derive_bbo s = derive_bbo (sb_with_book b s) /\ forall depth, derive_l2_snapshot s depth = derive_l2_snapshot (sb_with_book b s) depth.
Proof.
  intros Hh Hh'. split.
  - rewrite (bbo_view cfg mid A fl s index _ Hh), (bbo_view cfg' mid' A' fl' (sb_with_book b s) index' m Hh'). rewrite !shaded_top.
    unfold shaded. cbn [mk_bids mk_asks sb_with_book sb_symbol_id sb_timestamp_ns sb_seq]. by destruct (mk_bids m), (mk_asks m).
  - intros depth. unfold derive_l2_snapshot. destruct (ladder_view cfg mid A fl s index _ Hh depth) as [-> ->].
    destruct (ladder_view cfg' mid' A' fl' (sb_with_book b s) index' m Hh' depth) as [-> ->]. by rewrite !shaded_ladder.
Qed.

Section Tile.
Context `{Crc32c} `{HashIter} `{Win : Window}.

End Tile.

(** ** The subscriber *)

Section Subscriber.
Context `{Crc32c} `{HashIter} `{Win : Window} (cfg : BookConfig) (symbol_id c depth max : Z) (v0 : Levels) (m0 : Market).

Abbreviation attended := (attended cfg symbol_id c depth max m0).

(** A level that a snapshot would have reached at every moment so far. *)
Definition always_in_reach (rs : list TileRecord) (sd : Side) (p : Z) : Prop := forall rs', rs' `prefix_of` rs -> in_reach depth sd p (tape rs' m0).

Lemma attended_sees rs D st : 0 < max -> 0 <= symbol_id -> sane_tape (bc_tick_size cfg) m0 rs -> attended rs D st ->
  exists conn, ms_connections st !! c = Some conn /\ faithful (always_in_reach rs) (tape rs m0) (shown symbol_id v0 (D ++ cn_outbound conn)).
Proof.
  intros Hmax Hsym Hs Ha. apply (attended_attends cfg symbol_id c depth max v0 m0 Hmax Hsym (always_in_reach rs) rs D st Ha Hs).
  intros rs' Hp sd p Hr. by apply Hr.
Qed.

(** C11: What a depth subscriber's table shows is true.  From the
    subscription on, through records of its symbol and of others, gaps,
    overflowing queues, heartbeats, evictions, timeouts and whatever other
    clients do, as long as the client stays subscribed to this symbol alone:
    every level of its table - what it was handed followed by what waits in
    its queue, whatever it held before - is a level of the market of the
    symbol's records with exactly its quantity and number of orders, and every
    level that was within the first [depth] of its side at every moment is in
    the table, so that while no side has more than [depth] levels the table is
    the market.  The next record that makes sense is applied, if the symbol's
    book has room for it or can be made ([feedable]). *)
Theorem subscriber_sees_market rs D st : 0 < max -> 0 <= symbol_id -> sane_tape (bc_tick_size cfg) m0 rs -> attended rs D st ->
  (exists conn, ms_connections st !! c = Some conn /\
    shown symbol_id v0 (D ++ cn_outbound conn) ⊆ market_levels (tape rs m0) /\
    (forall sd p, always_in_reach rs sd p ->
       shown symbol_id v0 (D ++ cn_outbound conn) !! (side_u8 sd, p) = market_levels (tape rs m0) !! (side_u8 sd, p)) /\
    ((forall rs', rs' `prefix_of` rs -> within_depth depth (tape rs' m0)) ->
       shown symbol_id v0 (D ++ cn_outbound conn) = market_levels (tape rs m0))) /\
  forall now rec seq, about rec symbol_id -> sane (bc_tick_size cfg) (tape rs m0) rec -> feed_fits rec -> in_u64 seq ->
    feedable cfg symbol_id st rec ->
    exists st', apply_record now max (record_log rec seq).1 (record_log rec seq).2 st = Ok st'.
Proof.
  intros Hmax Hsym Hs Ha. split.
  - destruct (attended_sees rs D st Hmax Hsym Hs Ha) as (conn & Ec & Hf). exists conn. split; [exact Ec|].
    split; [apply Hf|]. split; [apply Hf|]. intros Hd. apply (faithful_whole _ _ _ Hf). intros sd p rs' Hp. by apply within_reach, Hd.
  - intros now rec seq Hab Hsn Hf Hq Hfe. set (N := fun (_ : Side) (_ : Z) => False).
    pose proof (attended_attends cfg symbol_id c depth max v0 m0 Hmax Hsym N rs D st Ha Hs ltac:(by intros rs' _ sd p)) as Hat.
    destruct (record_attends cfg symbol_id c depth max N v0 D Hmax now rec _ st Hat Hab Hsn Hfe ltac:(by intros sd p)) as (st' & E & _).
    exists st'. by rewrite live_applies.
Qed.

(** C9: A depth subscriber sees the matching tile's market.  When the symbol's
    records are those of a tile, each once and in order, a client that stays
    subscribed to this symbol alone sees, whatever the process and the other
    clients do in between, only levels of the tile's market with exactly their
    quantity and number of orders, among them every level that was within the
    first [depth] of its side at every moment; while no side has more than
    [depth] levels, its table is the tile's market.  Each record is taken by a
    process whose book has room for it or can be made ([feedable]). *)
Theorem subscriber_sees_tile cfg' first tm0 rs m t D st :
  in_u32 symbol_id -> 0 < max -> tile_session cfg' symbol_id first tm0 rs m t -> NoDup (ids tm0 rs) ->
  bc_tick_size cfg = bc_tick_size cfg' -> m0 = shaded tm0 -> attended rs D st ->
  exists conn, ms_connections st !! c = Some conn /\
    shown symbol_id v0 (D ++ cn_outbound conn) ⊆ market_levels m /\
    (forall sd p, always_in_reach rs sd p -> shown symbol_id v0 (D ++ cn_outbound conn) !! (side_u8 sd, p) = market_levels m !! (side_u8 sd, p)) /\
    ((forall rs', rs' `prefix_of` rs -> within_depth depth (tape rs' m0)) -> shown symbol_id v0 (D ++ cn_outbound conn) = market_levels m).
Proof.
  intros Hsym Hmax Hses Hnd Htk Em Ha. pose proof (session_sane cfg' symbol_id first tm0 rs m t Hsym Hses Hnd) as Hs. rewrite <- Htk, <- Em in Hs.
  destruct (session_on_tape cfg' symbol_id first tm0 rs m t Hsym Hses Hnd) as [Ht _ _].
  assert (market_levels (tape rs m0) = market_levels m) as El by (by rewrite Em, Ht, shaded_levels).
  destruct (attended_sees rs D st Hmax (proj1 Hsym) Hs Ha) as (conn & Ec & Hf). exists conn. split; [exact Ec|].
  pose proof Hf as [H1 H2]. rewrite El in H1, H2. split; [exact H1|]. split; [exact H2|]. intros Hd. rewrite <- El.
  apply (faithful_whole _ _ _ Hf). intros sd p rs' Hp. by apply within_reach, Hd.
Qed.

End Subscriber.
