(* ===== verification/Examples.v ===== *)
(** * Examples: a session run by the code, and the theorems applied to it

    A book around mid 10000 with tick and lot 1 is built by running
    [Orderbook::new] and [process_new_order]; each guarantee is then applied
    to an order sent to it.  The event lists are computed.  The same book goes
    through a checkpoint. *)

From S2P Require Import Prelude Types Slab Occupancy Compression Users Order Book Links BookInv Matching MatchInv.
From S2P Require Import FillQueue SlotMatch Engine Feasible Process Migration Recenter Guarantees Session.
From S2P Require Import Hash.
From S2P Require Import Snapshot SnapInv SnapRestore.

Definition demo_cfg : BookConfig := mkConfig 1 1 1.

Definition demo_order (price qty : Z) (side : Side) (tif : TimeInForce) (user oid : Z) (ro po : bool) : IncomingOrder :=
  mkIncoming price qty qty side tif user ro po 7 0 oid.

(** Two asks of users 2 and 3, a purchase by user 1, and a bid of user 5. *)
Definition demo_orders : list IncomingOrder :=
  [demo_order 10010 5 Sell GTC 2 1 false false; demo_order 10012 4 Sell GTC 3 2 false false;
   demo_order 10010 2 Buy IOC 1 3 false false; demo_order 10000 6 Buy GTC 5 4 false false].

Abbreviation demo_book := (run_from demo_cfg 16 10000 demo_orders).

Lemma demo_ok : cfg_ok 10000 1.
Proof. split; vm_compute; (split; discriminate) || reflexivity. Qed.

Lemma demo_spread : spread_ok 10000 1.
Proof. repeat split; vm_compute; discriminate. Qed.

Lemma demo_runs : is_ok demo_book = true.
Proof. vm_compute. reflexivity. Qed.

Lemma demo_reached : exists b, demo_book = Ok b /\ session demo_cfg 16 10000 b.
Proof.
  destruct (is_ok_value demo_book demo_runs) as [b E]. exists b. split; [exact E|].
  exact (run_from_session _ _ _ _ _ E).
Qed.

(** The orders sent to it below. *)
Definition sweep : IncomingOrder := demo_order 10012 5 Buy GTC 4 9 false false.
Definition kill : IncomingOrder := demo_order 10012 7 Buy FOK 4 9 false false.
Definition passive : IncomingOrder := demo_order 10011 1 Buy GTC 4 9 false true.
Definition reducing : IncomingOrder := demo_order 9990 4 Sell IOC 1 9 true false.
Definition demo_takers : list IncomingOrder := [sweep; kill; passive; reducing].

Lemma demo_admits : ok_and (fun b => (bc_lot_size (config b) =? 1) && (bump_next (orders b) <=? 16) && forallb (admits b) demo_takers) demo_book = true.
Proof. vm_compute. reflexivity. Qed.

(** The demo book as an instance of the guarantees' hypotheses. *)
Lemma demo_engine (o : IncomingOrder) : In o demo_takers ->
  exists A fl b, demo_book = Ok b /\ bc_lot_size (config b) = 1 /\ bump_next (orders b) <= 16 /\
    engine_ok 10000 1 A fl b /\ admissible 10000 1 A fl b o.
Proof.
  intros Ho. destruct demo_reached as (b & E & Hs). pose proof (ok_and_value _ _ _ demo_admits E) as Ha. cbn beta in Ha.
  apply andb_true_iff in Ha as [[Hl%Z.eqb_eq Hb%Z.leb_le]%andb_true_iff Ha].
  destruct (session_engine 10000 1 demo_ok demo_spread demo_cfg 16 b eq_refl) as (A & fl & He);
    [vm_compute; split; [reflexivity|discriminate]|vm_compute; split; discriminate|exact Hs|].
  exists A, fl, b. split; [exact E|]. split; [exact Hl|]. split; [exact Hb|]. split; [exact He|].
  rewrite forallb_forall in Ha. exact (admits_ok _ _ demo_ok A fl b o He (Ha o Ho)).
Qed.

Lemma sweep_executes A b : bc_lot_size (config b) = 1 -> verdict 10000 1 A b sweep = Execute.
Proof. intros H. unfold verdict. rewrite H. reflexivity. Qed.

Definition demo_events (o : IncomingOrder) : Res (list Event) :=
  b ← demo_book; '(_, b) ← process_new_order b o; Ok (event_buf b).

(** A purchase through two price levels: best price first, the second maker
    partly filled, the taker done, the new top announced. *)
Example demo_sweep : demo_events sweep =
  Ok [Fill 0 0 false 2 4 10010 3 0 0 1 0 9 7; OrderDone 0 0 false 2 Filled 5 0 0 1;
      Fill 1 0 false 3 4 10012 2 0 0 2 0 9 7; OrderDone NONE 0 false 4 Filled 5 0 0 9;
      BBO 10000 6 10012 2].
Proof. vm_compute. reflexivity. Qed.

(** A reduce-only sale is clamped to the position it reduces. *)
Example demo_reduce : demo_events reducing =
  Ok [Fill 2 0 false 5 1 10000 2 1 0 4 0 9 7; OrderDone NONE 1 true 1 Filled 2 0 0 9].
Proof. vm_compute. reflexivity. Qed.

(** A post-only order that would take is finished without a trade. *)
Example demo_passive : demo_events passive = Ok [OrderDone NONE 0 false 4 PostOnly 0 1 0 9].
Proof. vm_compute. reflexivity. Qed.

(** ** The guarantees at the demo book *)

(** A guarantee applied to a demo order. *)
Ltac at_demo o thm :=
  let A := fresh "A" in let fl := fresh "fl" in let b := fresh "b" in
  let E := fresh "E" in let Hl := fresh "Hl" in let Hb := fresh "Hb" in let He := fresh "He" in let Ha := fresh "Ha" in
  destruct (demo_engine o ltac:(simpl; auto)) as (A & fl & b & E & Hl & Hb & He & Ha);
  exists A, fl, b; split; [exact E|]; split; [exact He|]; split; [exact Ha|]; thm A fl b He Ha Hl Hb.

Abbreviation demo_state A fl b o P :=
  (demo_book = Ok b /\ engine_ok 10000 1 A fl b /\ admissible 10000 1 A fl b o /\ P) (only parsing).

Lemma process_total_witness : exists A fl b, demo_state A fl b sweep
  (exists o' b' A' fl', process_new_order b sweep = Ok (o', b') /\ engine_ok 10000 1 A' fl' b').
Proof. at_demo sweep ltac:(fun A fl b He Ha Hl Hb => exact (process_total 10000 1 demo_ok demo_spread A fl b sweep He Ha)). Defined.

Lemma price_time_priority_witness : exists A fl b, demo_state A fl b sweep
  (exists fs A' fl' o' b', processed 10000 1 A b sweep fs A' fl' o' b' /\
    (forall m, In m fs -> (exists t, In m.1 (A t)) /\ is_side Sell m.1.2 = true /\ 0 < m.2 <= erem m.1) /\
    (forall m t x, In m fs -> In x (A' t) -> is_side Sell x.2 = true -> os_price m.1.2 <= os_price x.2) /\
    (forall t q1 e q2 f x y, A t = q1 ++ e :: q2 -> In (e, f) fs -> In x q1 -> is_side Sell x.2 = true ->
       os_price x.2 = os_price e.2 -> In y (A' t) -> is_side Sell y.2 = true -> y.1 <> x.1)).
Proof. at_demo sweep ltac:(fun A fl b He Ha Hl Hb => exact (price_time_priority 10000 1 demo_ok demo_spread A fl b sweep He Ha)). Defined.

Lemma fills_within_limit_witness : exists A fl b, demo_state A fl b sweep
  (exists fs A' fl' o' b', processed 10000 1 A b sweep fs A' fl' o' b' /\
    forall m, In m fs -> 0 < m.2 <= erem m.1 /\ (exists t, In m.1 (A t)) /\
      is_side Sell m.1.2 = true /\ os_price m.1.2 <= 10012).
Proof. at_demo sweep ltac:(fun A fl b He Ha Hl Hb => exact (fills_within_limit 10000 1 demo_ok demo_spread A fl b sweep He Ha)). Defined.

Lemma quantity_conserved_witness : exists A fl b, demo_state A fl b sweep
  (exists fs A' fl' o' b' rested, processed 10000 1 A b sweep fs A' fl' o' b' /\
    book_sum 10000 1 erem A' = book_sum 10000 1 erem A - filled fs + rested /\
    match verdict 10000 1 A b sweep with
    | Execute => 0 <= filled fs <= fillable b sweep /\ in_remaining o' = fillable b sweep - filled fs /\
        (rested = 0 \/ rested = in_remaining o' /\ in_tif sweep = GTC)
    | _ => filled fs = 0 /\ rested = 0
    end).
Proof. at_demo sweep ltac:(fun A fl b He Ha Hl Hb => exact (quantity_conserved 10000 1 demo_ok demo_spread A fl b sweep He Ha)). Defined.

Lemma event_order_witness : exists A fl b, demo_state A fl b sweep
  (exists fs A' fl' o' b' closing bbo, processed 10000 1 A b sweep fs A' fl' o' b' /\ (forall m, In m fs -> exists t, In m.1 (A t)) /\
    event_buf b' = fill_events (taken b sweep) fs ++ closing :: bbo /\ zlen (event_buf b') <= MAX_EVENTS /\
    (bbo = [] \/ exists bp bq ap aq, bbo = [BBO bp bq ap aq]) /\
    match verdict 10000 1 A b sweep with
    | Refuse r => closing = refusal sweep r /\ fs = []
    | PostOnlyDone => closing = done_event sweep PostOnly 0 (fillable b sweep) /\ fs = []
    | Execute => exists limited h, closing = terminal (taken b sweep) fs limited h /\ (limited = true -> zlen fs = MAX_MAKERS_PER_ORDER)
    end).
Proof. at_demo sweep ltac:(fun A fl b He Ha Hl Hb => exact (event_order 10000 1 demo_ok demo_spread A fl b sweep He Ha)). Defined.

Lemma fok_all_or_nothing_witness : exists A fl b, demo_state A fl b kill
  (exists fs A' fl' o' b', processed 10000 1 A b kill fs A' fl' o' b' /\ consumes A fs A' /\
    match verdict 10000 1 A b kill with
    | Execute => filled fs = fillable b kill /\ in_remaining o' = 0
    | _ => fs = [] /\ exists ev, b' = set_events b [ev]
    end).
Proof. at_demo kill ltac:(fun A fl b He Ha Hl Hb => exact (fok_all_or_nothing 10000 1 demo_ok demo_spread A fl b kill He Ha eq_refl)). Defined.

Lemma post_only_never_takes_witness : exists A fl b, demo_state A fl b passive
  (exists A' fl' o' b', processed 10000 1 A b passive [] A' fl' o' b').
Proof. at_demo passive ltac:(fun A fl b He Ha Hl Hb => exact (post_only_never_takes 10000 1 demo_ok demo_spread A fl b passive He Ha eq_refl)). Defined.

Lemma residual_rests_witness : exists A fl b, demo_state A fl b sweep
  (exists fs A1 A' fl' o' b' limited, processed 10000 1 A b sweep fs A' fl' o' b' /\ consumes A fs A1 /\
    (limited = true -> zlen fs = MAX_MAKERS_PER_ORDER) /\
    if bool_decide (verdict 10000 1 A b sweep = Execute /\ in_tif sweep = GTC /\ limited = false /\ filled fs < fillable b sweep) then
      exists h s, residual_slot sweep (fillable b sweep - filled fs) s /\
        A' = upd A1 (idx 10000 1 10012) (A1 (idx 10000 1 10012) ++ [(h, s)]) /\
        ~ In h (handles (A1 (idx 10000 1 10012))) /\
        In (OrderInserted h 4 (side_u8 Buy) 10012 (fillable b sweep - filled fs) 0 9) (event_buf b') /\
        forall t x, In x (A1 t) -> is_side Sell x.2 = true -> ~ no_worse Sell (os_price x.2) 10012
    else A' = A1).
Proof. at_demo sweep ltac:(fun A fl b He Ha Hl Hb => exact (residual_rests 10000 1 demo_ok demo_spread A fl b sweep He Ha)). Defined.

Lemma takes_all_liquidity_witness : exists A fl b, demo_state A fl b sweep
  (exists fs A' fl' o' b', processed 10000 1 A b sweep fs A' fl' o' b' /\
    filled fs = Z.min (fillable b sweep) (liquidity 10000 1 A Buy 10012)).
Proof.
  at_demo sweep ltac:(fun A fl b He Ha Hl Hb =>
    apply (takes_all_liquidity 10000 1 demo_ok demo_spread A fl b sweep He Ha (sweep_executes A b Hl));
    destruct (book_bounds 10000 1 demo_ok A fl b (in_side sweep) (in_price sweep) He); rewrite max_makers; lia).
Defined.

Lemma positions_conserved_witness : exists A fl b, demo_state A fl b sweep
  (exists fs A' fl' o' b', processed 10000 1 A b sweep fs A' fl' o' b' /\
    (forall v, net_of (users b') v = net_of (users b) v + net_delta sweep v fs) /\ total_net (users b') = total_net (users b)).
Proof. at_demo sweep ltac:(fun A fl b He Ha Hl Hb => exact (positions_conserved 10000 1 demo_ok demo_spread A fl b sweep He Ha)). Defined.

Lemma reduce_only_reduces_witness : exists A fl b, demo_state A fl b reducing
  (exists fs A' fl' o' b', processed 10000 1 A b reducing fs A' fl' o' b' /\
    let before := net_of (users b) 1 in
    let after := net_of (users b') 1 in
    0 <= after <= before \/ before <= after <= 0).
Proof. at_demo reducing ltac:(fun A fl b He Ha Hl Hb => exact (reduce_only_reduces 10000 1 demo_ok demo_spread A fl b reducing He Ha eq_refl)). Defined.

Lemma bbo_exact_witness : exists A fl b, demo_state A fl b sweep
  (exists fs A' fl' o' b' closing bbo, processed 10000 1 A b sweep fs A' fl' o' b' /\
    event_buf b' = fill_events (taken b sweep) fs ++ closing :: bbo /\
    if same_best b b' then bbo = []
    else exists bp bq ap aq, bbo = [BBO bp bq ap aq] /\ top_of_book 10000 1 Buy A' bp bq /\ top_of_book 10000 1 Sell A' ap aq).
Proof. at_demo sweep ltac:(fun A fl b He Ha Hl Hb => exact (bbo_exact 10000 1 demo_ok demo_spread A fl b sweep He Ha (sweep_executes A b Hl))). Defined.

Lemma session_safe_witness : exists b, demo_book = Ok b /\
  (forall o, admits b o = true -> exists r, process_new_order b o = Ok r) /\
  (forall h user oh ol, 0 <= h -> exists r, cancel_order_checked b h user oh ol = Ok r) /\
  (forall h qty user oh ol, 0 <= h -> 0 <= qty -> exists r, modify_order_qty_down b h qty user oh ol = Ok r) /\
  (forall now replay, 0 <= maintenance_cursor (users b) -> exists r, maintain_users b now replay = Ok r) /\
  exists A fl bq aq, engine_ok 10000 1 A fl b /\
    current_bbo b = Ok (mkBbo (best_bid_px b) bq (best_ask_px b) aq) /\
    top_of_book 10000 1 Buy A (best_bid_px b) bq /\ top_of_book 10000 1 Sell A (best_ask_px b) aq.
Proof.
  destruct demo_reached as (b & E & Hs). exists b. split; [exact E|].
  apply (session_safe 10000 demo_cfg 16 b demo_ok demo_spread); [vm_compute; split; [reflexivity|discriminate]|vm_compute; split; discriminate|exact Hs].
Defined.

(** ** Recentring the demo book *)

Lemma book_sum_bound mid tk M f A fl b :
  core mid tk A fl b -> 0 <= M -> (forall t e, In e (A t) -> f e <= M) -> book_sum mid tk f A <= M * zlen (slots (orders b)).
Proof.
  intros Hc HM Hf. pose proof (book_sum_count mid tk (fun _ => 1) A fl b Hc ltac:(done)) as Hcount.
  enough (book_sum mid tk f A <= M * book_sum mid tk (fun _ => 1) A) by nia. clear Hcount. unfold book_sum.
  induction (zrange 0 (total mid tk)) as [|t ts IH]; [cbn; lia|]. rewrite !zsum_cons.
  enough (zsum f (A t) <= M * zsum (fun _ => 1) (A t)) by lia. specialize (Hf t). induction (A t) as [|e q IHq]; [cbn; lia|].
  rewrite !zsum_cons. specialize (IHq (fun x Hx => Hf x (or_intror Hx))). pose proof (Hf e (or_introl eq_refl)). lia.
Qed.

Lemma recentre_ok : cfg_ok 10600 1.
Proof. split; vm_compute; (split; discriminate) || reflexivity. Qed.

Lemma recentre_spread : spread_ok 10600 1.
Proof. repeat split; vm_compute; discriminate. Qed.

Lemma demo_small : ok_and (fun b => (zlen (slots (orders b)) <=? 16) && forallb (fun s => os_remaining s <=? 1000) (slots (orders b))) demo_book = true.
Proof. vm_compute. reflexivity. Qed.

Lemma demo_sum A fl b : demo_book = Ok b -> engine_ok 10000 1 A fl b -> book_sum 10000 1 erem A <= I64_MAX.
Proof.
  intros E He. pose proof (ok_and_value _ _ _ demo_small E) as Ha. cbn beta in Ha. apply andb_true_iff in Ha as [Hl%Z.leb_le Ha].
  pose proof (bk_core _ _ _ _ _ (en_book _ _ _ _ _ He)) as Hc.
  pose proof (book_sum_bound 10000 1 1000 erem A fl b Hc ltac:(lia)) as Hb. width_unfold. enough (book_sum 10000 1 erem A <= 1000 * zlen (slots (orders b))) by lia.
  apply Hb. intros t e Hin. destruct (links_get _ _ _ _ _ (c_links _ _ _ _ _ Hc) Hin) as (n & p & Hv). rewrite forallb_forall in Ha.
  apply vget_in, Ha, Z.leb_le in Hv. done.
Qed.

Lemma recenter_preserves_witness : exists A fl b, demo_book = Ok b /\ engine_ok 10000 1 A fl b /\
  exists b' A', recenter_now b 10600 = Ok b' /\ engine_ok 10600 1 A' fl b' /\ users b' = users b /\ config b' = config b /\
    state b' = Normal /\
    (forall t x, In x (A' t) <-> exists t0 e, In e (A t0) /\ idx 10600 1 (os_price e.2) = t /\ x = retick t e) /\
    (forall p, at_price p (A' (idx 10600 1 p)) = map (retick (idx 10600 1 p)) (at_price p (A (idx 10000 1 p)))) /\
    book_sum 10600 1 erem A' = book_sum 10000 1 erem A.
Proof.
  destruct (demo_engine sweep ltac:(simpl; auto)) as (A & fl & b & E & _ & _ & He & _). exists A, fl, b. split; [exact E|]. split; [exact He|].
  apply (recenter_preserves 10000 10600 1 demo_ok recentre_ok recentre_spread A fl b He); [vm_compute; split; discriminate | exact (demo_sum A fl b E He)].
Defined.

(** Around mid 1000 with tick 1 the outer zones have a single slot, which the
    price order lists on the ask side only: the bid at 650 shares it, and once
    995 is gone the scan meets it before 990. *)
Example small_mid_best_bid :
  let run := run_from demo_cfg 16 1000
    [demo_order 650 1 Buy GTC 2 1 false false; demo_order 990 1 Buy GTC 2 2 false false; demo_order 995 1 Buy GTC 2 3 false false] in
  (b ← run; bid_top_at b (best_bid_tick b)) = Ok (995, 1) /\
  (b ← run; '(_, b) ← cancel_order b 2; bid_top_at b (best_bid_tick b)) = Ok (650, 1).
Proof. vm_compute. split; reflexivity. Qed.

(** The same around 50000 with tick 50, which is how [recovery.rs] starts the
    book of [deploy/env/me-btc.env]: a sale at 32500 is filled at 32500 while a
    bid at 49500 rests. *)
Example btc_start_trades_through :
  let run := run_from (mkConfig 1 50 100) 16 50000
    [demo_order 32500 100 Buy GTC 2 1 false false; demo_order 49500 100 Buy GTC 2 2 false false; demo_order 49750 100 Buy GTC 2 3 false false] in
  (b ← run; '(_, b) ← cancel_order b 2; '(_, b) ← process_new_order b (demo_order 32500 100 Sell GTC 3 4 false false); Ok (event_buf b)) =
  Ok [Fill 0 0 false 2 3 32500 100 1 0 1 0 4 7; OrderDone 0 0 false 2 Filled 100 0 0 1; OrderDone NONE 0 false 3 Filled 100 0 0 4; BBO 49500 100 0 0].
Proof. vm_compute. reflexivity. Qed.

(** ** A checkpoint of the book *)

Lemma demo_normal : ok_and (fun b => match state b with Normal => true | Migrating => false end) demo_book = true.
Proof. vm_compute. reflexivity. Qed.

Lemma snapshot_roundtrip_witness : exists A fl b, demo_book = Ok b /\ engine_ok 10000 1 A fl b /\
  exists snap b' A', capture b = Ok (Valid snap) /\ restore snap 4 = Ok (Valid b') /\ engine_ok 10000 1 A' fl b' /\
    (forall t, map order_of (A' t) = map order_of (A t)) /\ (forall u, net_of (users b') u = net_of (users b) u) /\ config b' = config b /\
    (4 <= capacity (orders b) -> capture b' = Ok (Valid snap)).
Proof.
  destruct (demo_engine sweep ltac:(simpl; auto)) as (A & fl & b & E & _ & _ & He & _). exists A, fl, b. split; [exact E|]. split; [exact He|].
  apply (snapshot_roundtrip 10000 1 demo_ok demo_spread A fl b 4 He); [|vm_compute; split; discriminate].
  pose proof (ok_and_value _ _ _ demo_normal E) as Hs. cbn beta in Hs. destruct (state b); [reflexivity | discriminate Hs].
Defined.

Definition demo_snapshot : BookSnapshotV1 :=
  match (b ← demo_book; capture b) with
  | Ok (Valid snap) => snap
  | _ => mkSnap [] (mkConfigSnap 0 0 0) 0 0 0 [] [] (mkRegSnap 0 0 [] [])
  end.

Definition is_valid {A} (r : Res (Checked A)) : bool := match r with Ok (Valid _) => true | _ => false end.

Lemma is_valid_value {A} (r : Res (Checked A)) : is_valid r = true -> exists a, r = Ok (Valid a).
Proof. destruct r as [[a|]| |]; [eauto | discriminate ..]. Qed.

Lemma demo_restores : is_valid (restore demo_snapshot 4) = true.
Proof. vm_compute. reflexivity. Qed.

(** Two copies of an order are refused, and so is a hole in the tables. *)
Example demo_refused :
  restore (mkSnap (kb_sequence demo_snapshot) (kb_config demo_snapshot) 10000 16 3 (kb_orders demo_snapshot ++ kb_orders demo_snapshot) [] (kb_users demo_snapshot)) 16 = Ok (Invalid InvalidOrderHandle) /\
  restore (mkSnap (kb_sequence demo_snapshot) (kb_config demo_snapshot) 10000 16 4 (kb_orders demo_snapshot) [] (kb_users demo_snapshot)) 16 = Ok (Invalid UntrackedSlots).
Proof. split; vm_compute; reflexivity. Qed.

(** The checkpoint with its one resting order listed twice. *)
Definition doubled_snapshot : BookSnapshotV1 :=
  mkSnap (kb_sequence demo_snapshot) (kb_config demo_snapshot) 10000 16 3 (kb_orders demo_snapshot ++ kb_orders demo_snapshot) [] (kb_users demo_snapshot).

Lemma restore_refuses_witness :
  restore doubled_snapshot 16 = Ok (Invalid InvalidOrderHandle) /\ ~ consistent doubled_snapshot /\
  consistent demo_snapshot /\ forall e, restore demo_snapshot 4 <> Ok (Invalid e).
Proof.
  assert (Ht : snap_types doubled_snapshot /\ snap_types demo_snapshot).
  { split; (split; [apply List.Forall_forall; vm_compute; repeat constructor; discriminate | apply List.Forall_forall; vm_compute; repeat constructor; discriminate
      | vm_compute; discriminate | apply List.Forall_forall; vm_compute; repeat constructor; discriminate
      | apply List.Forall_forall; vm_compute; repeat constructor; discriminate | vm_compute; discriminate]). }
  assert (Hr : snap_refusal doubled_snapshot = Some InvalidOrderHandle /\ snap_refusal demo_snapshot = None) by (split; vm_compute; reflexivity).
  assert (Hm : kb_compression_mid_price doubled_snapshot = 10000 /\ kc_tick_size (kb_config doubled_snapshot) = 1 /\ kb_compression_mid_price demo_snapshot = 10000 /\ kc_tick_size (kb_config demo_snapshot) = 1) by (split_and!; vm_compute; reflexivity).
  destruct Ht as [Ht1 Ht2], Hr as [Hr1 Hr2], Hm as (M1 & M2 & M3 & M4).
  pose proof (restore_refuses doubled_snapshot 16 Ht1 ltac:(lia) (fun _ _ => ltac:(rewrite M1, M2; exact demo_ok)) ltac:(vm_compute; discriminate)) as H1.
  pose proof (restore_refuses demo_snapshot 4 Ht2 ltac:(lia) (fun _ _ => ltac:(rewrite M3, M4; exact demo_ok)) ltac:(vm_compute; discriminate)) as H2.
  rewrite Hr1 in H1. rewrite Hr2 in H2. split; [apply H1|]. split; [apply H1|]. exact H2.
Defined.
