(* ===== verification/TileExamples.v ===== *)
(** * TileExamples: a matching tile at work

    A tile is booted on an empty log, takes four orders, a repeated one and a
    cancel, flushes its log, is checkpointed, crashes and recovers; the
    theorems of the market, the window, the tile and its recovery applied to
    it. *)

From S2P Require Import Prelude Hash Types Slab Occupancy Compression Users Order Book Links BookInv Matching MatchInv.
From S2P Require Import Engine Process Recenter Market MarketRef MarketClaims Session Snapshot.
From S2P Require Import Frames Messages Wal WalRead WalInv WalClaims Cast CastSend CastExamples.
From S2P Require Import Dedup Tile Stall TileLog TileInv TileClaims Replay ReplayClaims TileRun TileCkpt.
From S2P Require Import FillQueue SlotMatch Feasible Guarantees Examples.

Module TileDemo.

#[local] Existing Instance CastDemo.castagnoli.

Definition cfg : BookConfig := mkConfig 1 10 1.
Definition boot : BootConfig := mkBoot cfg 16.
Definition flat : Market := mkMarket [] [] (fun _ => 0).

(** ** The book at boot *)

Lemma cfg_fits : cfg_ok BOOK_INITIAL_MID_PRICE 10.
Proof. split; vm_compute; (split; discriminate) || reflexivity. Qed.

Lemma cfg_spread : spread_ok BOOK_INITIAL_MID_PRICE 10.
Proof. repeat split; vm_compute; discriminate. Qed.

(** A value known by computation to be there. *)
Definition the {A} (r : Res A) : is_ok r = true -> A :=
  match r return is_ok r = true -> A with
  | Ok x => fun _ => x
  | _ => fun H => False_rect A (diff_false_true H)
  end.

Lemma the_ok {A} (r : Res A) (H : is_ok r = true) : r = Ok (the r H).
Proof. by destruct r. Qed.

Lemma boots : is_ok (Orderbook_new cfg 16 BOOK_INITIAL_MID_PRICE) = true.
Proof. vm_compute. reflexivity. Qed.

Definition book0 : Orderbook := the _ boots.

Lemma served0 : serves cfg book0 ∅ flat.
Proof.
  apply (new_serves cfg 16 BOOK_INITIAL_MID_PRICE); [exact cfg_fits|exact cfg_spread|split; vm_compute; first [reflexivity|discriminate] ..|exact (the_ok _ boots)].
Qed.

Lemma base0 : recover_base boot NoFile = Ok (inl (book0, ∅, 0, 1)).
Proof.
  unfold recover_base, boot. cbn [load_checkpoint mbind Res_bind boot_config boot_book_capacity]. rewrite (the_ok _ boots). reflexivity.
Qed.

(** ** The tile and its requests *)

Definition message (price qty side tif user oid : Z) : OrderMessage := mkOrderMessage 0 price qty side tif 0 0 user 1000 7 oid 1500.
Definition stamps (k : Z) : Stamps := mkStamps k (k + 1) (k + 2) (k + 3).

(** Two asks, a purchase that takes a part of the better one, a bid. *)
Definition msg1 : OrderMessage := message 50600 4 1 0 3 1.
Definition msg2 : OrderMessage := message 50500 5 1 0 2 2.
Definition msg3 : OrderMessage := message 50500 2 0 1 1 3.
Definition msg4 : OrderMessage := message 49500 6 0 0 5 4.
(** The first ask again, and a cancel of it. *)
Definition msg5 : OrderMessage := msg1.
Definition drop1 : CancelRequest := mkCancelRequest 0 0 3 1 7 1.

Definition peer : CastPeer := CastPeer_new (CastSender_new 0 1000 50) [].
Definition log0 : CastDemo.State := CastDemo.opened 1 (mkDisk ∅ None).
Definition tile0 : Tile := mkTile book0 (mkFanout (mkWorld log0.1 log0.2 []) peer peer 100) ∅ (DedupTracker_new 0).

Definition unused_b (k : OrderKey) (m : Market) : bool := forallb (fun r => negb (bool_decide (rs_key r = k))) (mk_bids m ++ mk_asks m).
Lemma unused_by k m : unused_b k m = true -> unused k m.
Proof. unfold unused_b. rewrite forallb_forall. intros Hb r Hr E. specialize (Hb r Hr). by rewrite bool_decide_eq_true_2 in Hb. Qed.

(** A market with one side, or around the initial mid. *)
Definition centred (m : Market) : bool :=
  match mk_bids m, mk_asks m with b :: _, a :: _ => Z.quot (rs_price b + rs_price a) 2 =? BOOK_INITIAL_MID_PRICE | _, _ => true end.
Lemma recentrable_by m : centred m = true -> recentrable 10 m.
Proof.
  unfold centred, recentrable. destruct (mk_bids m), (mk_asks m); try done. intros ->%Z.eqb_eq. split; [exact cfg_fits|exact cfg_spread].
Qed.

Definition after (msg : OrderMessage) (m : Market) : Market := (submit 10 1 m (to_incoming msg)).1.
Definition seen (msg : OrderMessage) (t : Tile) : bool := (check_and_insert (msg_key msg) (tl_dedup t)).1.
Definition takes (msg : OrderMessage) (m : Market) (t : Tile) : bool :=
  seen msg t || admits (tl_book t) (to_incoming msg) && unused_b (msg_key msg) m && centred (after msg m).

Abbreviation demo := (tile_session cfg 1 1 flat).

Lemma order_step rs m t k msg (ok : is_ok (process_order 1 (stamps k) msg t) = true) :
  demo rs m t -> tile_room 1 t -> record_fits msg -> in_u64 (st_record (stamps k)) -> takes msg m t = true ->
  demo (rs ++ order_records 1 (stamps k) msg t) (if seen msg t then m else after msg m) (the _ ok).
Proof.
  intros Hs Hr Hf Hk Ht. eapply (ts_order cfg 1 1 flat rs m t (stamps k) msg); [exact Hs|exact Hr|exact Hf|exact Hk| |apply the_ok].
  unfold takes, seen in Ht. intros Hd. rewrite Hd in Ht. cbn [orb] in Ht. apply andb_true_iff in Ht as [[Ha Hu]%andb_true_iff Hc].
  split; [exact Ha|]. split; [by apply unused_by|by apply recentrable_by].
Qed.

Ltac by_eval := vm_compute; repeat match goal with |- _ /\ _ => split end; first [reflexivity | discriminate | exact I | lia].

Lemma ok1 : is_ok (process_order 1 (stamps 10) msg1 tile0) = true. Proof. vm_compute. reflexivity. Qed.
Definition tile1 : Tile := the _ ok1.
Lemma ok2 : is_ok (process_order 1 (stamps 20) msg2 tile1) = true. Proof. vm_compute. reflexivity. Qed.
Definition tile2 : Tile := the _ ok2.
Lemma ok3 : is_ok (process_order 1 (stamps 30) msg3 tile2) = true. Proof. vm_compute. reflexivity. Qed.
Definition tile3 : Tile := the _ ok3.
Lemma ok4 : is_ok (process_order 1 (stamps 40) msg4 tile3) = true. Proof. vm_compute. reflexivity. Qed.
Definition tile4 : Tile := the _ ok4.
Lemma ok5 : is_ok (process_order 1 (stamps 50) msg5 tile4) = true. Proof. vm_compute. reflexivity. Qed.
Definition tile5 : Tile := the _ ok5.
Lemma ok6 : is_ok (process_cancel 1 60 drop1 tile5) = true. Proof. vm_compute. reflexivity. Qed.
Definition tile6 : Tile := the _ ok6.

(** ** The market and the records along the way *)

Definition market1 : Market := after msg1 flat.
Definition market2 : Market := after msg2 market1.
Definition market3 : Market := after msg3 market2.
Definition market4 : Market := after msg4 market3.
Definition market6 : Market := withdraw (cancel_key drop1) market4.

Definition recs1 : list TileRecord := [] ++ order_records 1 (stamps 10) msg1 tile0.
Definition recs2 : list TileRecord := recs1 ++ order_records 1 (stamps 20) msg2 tile1.
Definition recs3 : list TileRecord := recs2 ++ order_records 1 (stamps 30) msg3 tile2.
Definition recs4 : list TileRecord := recs3 ++ order_records 1 (stamps 40) msg4 tile3.
Definition tail5 : list TileRecord := order_records 1 (stamps 50) msg5 tile4.
Definition tail6 : list TileRecord := cancel_records 1 60 drop1 tile5.

Lemma reached0 : demo [] flat tile0.
Proof.
  apply ts_boot; [|exact served0|by intros r []]. split; [|by_eval|done|constructor|constructor|done].
  eapply (ws_open 1 100 300); [done|done|]. vm_compute. reflexivity.
Qed.

Ltac order_step rs m t k msg ok h :=
  pose proof (order_step rs m t k msg ok h ltac:(by_eval) ltac:(by_eval) ltac:(by_eval) ltac:(by_eval)) as Hnext;
  let d := eval vm_compute in (seen msg t) in
  assert (seen msg t = d) as Hd by (vm_compute; reflexivity); rewrite Hd in Hnext; exact Hnext.

Lemma reached1 : demo recs1 market1 tile1.
Proof. order_step (@nil TileRecord) flat tile0 10 msg1 ok1 reached0. Qed.
Lemma reached2 : demo recs2 market2 tile2.
Proof. order_step recs1 market1 tile1 20 msg2 ok2 reached1. Qed.
Lemma reached3 : demo recs3 market3 tile3.
Proof. order_step recs2 market2 tile2 30 msg3 ok3 reached2. Qed.
Lemma reached4 : demo recs4 market4 tile4.
Proof. order_step recs3 market3 tile3 40 msg4 ok4 reached3. Qed.
Lemma reached5 : demo (recs4 ++ tail5) market4 tile5.
Proof. order_step recs4 market4 tile4 50 msg5 ok5 reached4. Qed.
Lemma reached6 : demo (recs4 ++ tail5 ++ tail6) market6 tile6.
Proof.
  rewrite app_assoc. eapply (ts_cancel cfg 1 1 flat (recs4 ++ tail5) market4 tile5 60 drop1); [exact reached5|by_eval..|apply the_ok].
Qed.

(** ** A flush, a cancel after it, and a checkpoint before *)

Lemma flush4 : is_ok (flush_if_due 200 0 (fo_world (tl_fanout tile4))) = true. Proof. vm_compute. reflexivity. Qed.
Definition flushed4 : World := (the _ flush4).2.
Definition tileF : Tile := with_fanout (fo_with_world flushed4 (tl_fanout tile4)) tile4.
Lemma okG : is_ok (process_cancel 1 60 drop1 tileF) = true. Proof. vm_compute. reflexivity. Qed.
Definition tileG : Tile := the _ okG.
Definition recsG : list TileRecord := recs4 ++ cancel_records 1 60 drop1 tileF.

Lemma flush_step rs m t now last (ok : is_ok (flush_if_due now last (fo_world (tl_fanout t))) = true) :
  demo rs m t -> recent now -> demo rs m (with_fanout (fo_with_world (the _ ok).2 (tl_fanout t)) t).
Proof.
  intros Hs Hn. pose proof (the_ok _ ok) as E. destruct (the _ ok) as [[due last'] s'].
  exact (ts_flush cfg 1 1 flat rs m t now last due last' s' Hs Hn E).
Qed.

Lemma reachedF : demo recs4 market4 tileF.
Proof. unfold tileF, flushed4. apply (flush_step recs4 market4 tile4 200 0 flush4 reached4). done. Qed.

Lemma reachedG : demo recsG market6 tileG.
Proof. eapply (ts_cancel cfg 1 1 flat recs4 market4 tileF 60 drop1); [exact reachedF|by_eval..|apply the_ok]. Qed.

Lemma symbol_fits : in_u32 1. Proof. done. Qed.

(** Every state of the session is a running tile. *)
Lemma demo_running rs m t : demo rs m t -> running cfg 1 flat rs m t.
Proof. exact (session_running cfg 1 1 flat rs m t symbol_fits). Qed.

Lemma flush6 : is_ok (flush_stalling 300 (fo_world (tl_fanout tile6))) = true. Proof. vm_compute. reflexivity. Qed.
Definition flushed6 : World := the _ flush6.

Definition wal_seq4 : Z := ww_last_seq (wd_writer (fo_world (tl_fanout tile4))).
(** The checkpoint after the four orders; the rest of the log replays onto it. *)
Lemma ckpt4_ok : match Checkpoint_capture (tl_book tile4) wal_seq4 with
  | Ok (Valid ckpt) => match restore (ck_book ckpt) (boot_book_capacity boot) with Ok (Valid b) => replay_fits (tail5 ++ tail6) b (tl_index tile4) | _ => false end
  | _ => false end = true.
Proof. vm_compute. reflexivity. Qed.

Lemma ckpt4 : exists ckpt, Checkpoint_capture (tl_book tile4) wal_seq4 = Ok (Valid ckpt) /\
  forall b, restore (ck_book ckpt) (boot_book_capacity boot) = Ok (Valid b) -> replay_fits (tail5 ++ tail6) b (tl_index tile4) = true.
Proof.
  pose proof ckpt4_ok as E. destruct (Checkpoint_capture _ _) as [[c|]| |]; [|done..]. exists c. split; [done|]. intros b Eb. by rewrite Eb in E.
Qed.

(** What the session logs: the accepted orders with what each one caused,
    the refused repetition, the cancel. *)
Example demo_records : map (fun r => match r with
    | TrAccepted _ => 1 | TrInserted _ => 2 | TrFill _ => 3 | TrDone _ => 4 | TrBbo _ => 5 | TrFailed _ => 6 | TrCancelled _ => 7 | TrConfig _ => 8 end)
  (recs4 ++ tail5 ++ tail6) = [1; 2; 5; 1; 2; 5; 1; 3; 4; 1; 2; 5; 6; 7; 4].
Proof. vm_compute. reflexivity. Qed.

(** ** A log whose reopening failed

    The flush of four records rotates the file; the open after the rename
    fails, and a fifth record is appended. *)
Definition unopened : CastDemo.State :=
  let st := CastDemo.append 10 (CastDemo.append 9 (CastDemo.append 8 (CastDemo.append 7 CastDemo.st0))) in
  CastDemo.append 11 (CastDemo.flush_with [Good; Good; Good; Good; Good; Good; Bad 0] st).

Example unopened_state : (dk_active unopened.2, ww_file unopened.1, length (ww_buf unopened.1)) = (None, DevNull, 80%nat).
Proof. vm_compute. reflexivity. Qed.

Lemma unopened_session : exists log D, wal_session 7 log D unopened.1 unopened.2.
Proof.
  pose proof CastDemo.session0 as S0.
  pose proof (CastDemo.append_session 0 [] _ 7 S0 ltac:(CastDemo.by_eval)) as S1.
  pose proof (CastDemo.append_session 1 [] _ 8 S1 ltac:(CastDemo.by_eval)) as S2.
  pose proof (CastDemo.append_session 2 [] _ 9 S2 ltac:(CastDemo.by_eval)) as S3.
  pose proof (CastDemo.append_session 3 [] _ 10 S3 ltac:(CastDemo.by_eval)) as S4.
  exists (CastDemo.log 5), []. apply (CastDemo.append_session 4 []); [|CastDemo.by_eval].
  eapply (ws_flush_failed 7 100 [Good; Good; Good; Good; Good; Good; Bad 0] IoFailed); [exact S4|done|].
  vm_compute. reflexivity.
Qed.

End TileDemo.

(** ** The theorems at work *)

#[local] Existing Instance CastDemo.castagnoli.


Lemma dedup_once_witness :
  let key := (3, 7, 1) in let d := DedupTracker_new 0 in
  let ops := [Check (4, 7, 2); Refresh DEDUP_WINDOW; Cleanup] in
  ((check_and_insert key d).1 = true <-> exists ts, In (key, ts) (dd_queue d)) /\
  (clocks_below (dd_now d + DEDUP_WINDOW) ops -> (check_and_insert key d).1 = false ->
   (check_and_insert key (dedup_run ops (check_and_insert key d).2)).1 = true).
Proof. exact (dedup_once (DedupTracker_new 0) (3, 7, 1) [Check (4, 7, 2); Refresh DEDUP_WINDOW; Cleanup] (new_dedup_inv 0)). Defined.

Lemma stall_ends_witness :
  (exists w' d' faults', flush_stalling 100 (mkWorld CastDemo.st3.1 CastDemo.st3.2 [Bad 10; Good; Bad 3]) = Ok (mkWorld w' d' faults') /\
    wal_session 7 (CastDemo.log 6) (CastDemo.log 6) w' d') \/
  (exists w' d' faults', failing 100 (mkWorld CastDemo.st3.1 CastDemo.st3.2 [Bad 10; Good; Bad 3]) (mkWorld w' d' faults') /\
    wal_session 7 (CastDemo.log 6) (CastDemo.log 5) w' d' /\ ww_file w' = DevNull /\ dk_active d' = None).
Proof. apply (stall_ends 7 (CastDemo.log 6) (CastDemo.log 5) CastDemo.st3.1 CastDemo.st3.2 100 [Bad 10; Good; Bad 3] CastDemo.session3). done. Defined.

Lemma reopen_failure_stalls_witness :
  (exists e s', flush 200 (mkWorld TileDemo.unopened.1 TileDemo.unopened.2 []) = (inr e, s')) /\
  retry_until_ok 1000 (flush 200) (mkWorld TileDemo.unopened.1 TileDemo.unopened.2 []) = Diverged.
Proof.
  destruct TileDemo.unopened_session as (log & D & Hw).
  apply (reopen_failure_stalls 7 log D TileDemo.unopened.1 TileDemo.unopened.2 200 [] 1000 Hw); vm_compute; [reflexivity|discriminate].
Defined.

(** A record of the risk engine's type through the fan-out of a running tile. *)
Lemma fan_out_same_frame_witness : exists D,
  let log := logs 1 TileDemo.recs4 in let f := tl_fanout TileDemo.tile4 in let r := log_rec (CastDemo.cancel 7) (1 + zlen log) in
  (exists f' D', fan_out (CastDemo.cancel 7) f = Ok (inl tt, f') /\ D `prefix_of` D' /\ online 1 (log ++ [r]) D' f' /\
    cp_out (fo_cmp f') = cp_out (fo_cmp f) ++ (if default true (head (cp_net (fo_cmp f))) then [wire r] else []) /\
    cp_out (fo_mkt f') = cp_out (fo_mkt f) ++ (if default true (head (cp_net (fo_mkt f))) then [wire r] else [])) \/
  (fan_out (CastDemo.cancel 7) f = Diverged /\ (exists log' D', log' `prefix_of` log ++ [r] /\ lost 1 log' D') /\ ~ sound (fo_world f)).
Proof.
  destruct (rn_online _ _ _ _ _ _ (TileDemo.demo_running _ _ _ TileDemo.reached4)) as [D Ho]. exists D.
  apply (fan_out_same_frame (CastDemo.cancel 7) 1 (logs 1 TileDemo.recs4) D (tl_fanout TileDemo.tile4) Ho); [by apply Nat.leb_le|].
  split; vm_compute; discriminate.
Defined.


Lemma process_cancel_refines_witness : exists D r bbo,
  In r (mk_bids TileDemo.market4 ++ mk_asks TileDemo.market4) /\ rs_key r = (3, 7, 1) /\ zlen bbo <= 1 /\
  handled TileDemo.cfg 1 (logs 1 TileDemo.recs4) D (logs (1 + zlen (logs 1 TileDemo.recs4)) (cancelled_records r 1 60 ++ bbo)) (tl_fanout TileDemo.tile4)
    (withdraw (3, 7, 1) TileDemo.market4) (tl_dedup TileDemo.tile4) (process_cancel 1 60 TileDemo.drop1 TileDemo.tile4).
Proof.
  destruct (TileDemo.demo_running _ _ _ TileDemo.reached4) as [[D Ho] Hs _ _ _]. exists D.
  apply (proj2 (process_cancel_refines TileDemo.cfg 1 60 TileDemo.drop1 TileDemo.tile4 1 (logs 1 TileDemo.recs4) D TileDemo.market4 Ho
    ltac:(split; vm_compute; discriminate) Hs)).
  intros Hu. apply (Hu (mkResting 50600 4 3 false 0 4 7 1)); vm_compute; [right; right; left|]; reflexivity.
Defined.

(** The cancel after the flush need not survive. *)
Lemma crash_recovery_witness : exists D w' d' k R, WalWriter_new 400 300 (crashed 5000 (wd_disk (fo_world (tl_fanout TileDemo.tileG)))) = Ok (inl w', d') /\
  (k <= length TileDemo.recsG)%nat /\ D `prefix_of` logs 1 (take k TileDemo.recsG) /\
  recover TileDemo.boot NoFile 500 2000 d' = Ok (inl R) /\
  serves TileDemo.cfg (rc_book R) (rc_order_index R) (effects TileDemo.cfg (take (Nat.max 0 k) TileDemo.recsG) TileDemo.flat) /\
  rc_next_seq R = 1 + Z.of_nat (Nat.max 0 k) /\
  forall rec, In (TrAccepted rec) (take k TileDemo.recsG) -> sat_u64 (2000 - wa_ts_ns rec) < DEDUP_WINDOW ->
    in_key (accepted_order rec) ∈ dd_seen (rc_dedup R).
Proof.
  destruct (TileDemo.demo_running _ _ _ TileDemo.reachedG) as [[D Ho] _ _ Ha _]. exists D.
  apply (crash_recovery TileDemo.cfg TileDemo.flat 1 TileDemo.recsG TileDemo.boot NoFile TileDemo.book0 ∅ 0 0 D _ _ 400 300 5000 500 2000 (on_session _ _ _ _ Ho));
    [done|vm_compute; discriminate|].
  split; [|exact TileDemo.served0| |exact Ha|done|apply le_0_n].
  - exact TileDemo.base0.
  - vm_compute. reflexivity.
Defined.


Lemma flushed_market_survives_witness :
  let rs := TileDemo.recs4 ++ TileDemo.tail5 ++ TileDemo.tail6 in
  exists w' d' R, WalWriter_new 400 300 (crashed 100000 (wd_disk TileDemo.flushed6)) = Ok (inl w', d') /\
    recover TileDemo.boot NoFile 500 2000 d' = Ok (inl R) /\ serves TileDemo.cfg (rc_book R) (rc_order_index R) TileDemo.market6 /\
    rc_next_seq R = 1 + zlen rs /\
    forall rec, In (TrAccepted rec) rs -> sat_u64 (2000 - wa_ts_ns rec) < DEDUP_WINDOW ->
      (check_and_insert (in_key (accepted_order rec)) (rc_dedup R)).1 = true.
Proof.
  apply (flushed_market_survives TileDemo.cfg 1 TileDemo.flat (TileDemo.recs4 ++ TileDemo.tail5 ++ TileDemo.tail6) TileDemo.market6 TileDemo.tile6
    TileDemo.boot TileDemo.book0 300 TileDemo.flushed6 100000 400 300 500 2000 TileDemo.symbol_fits TileDemo.reached6);
    [done|exact (TileDemo.the_ok _ TileDemo.flush6)|exact TileDemo.base0|exact TileDemo.served0|vm_compute; reflexivity|done|vm_compute; discriminate].
Defined.

Lemma checkpoint_restores_witness : exists ckpt b',
  Checkpoint_capture (tl_book TileDemo.tile4) 12 = Ok (Valid ckpt) /\ load_checkpoint (File [inl ckpt]) 32 = Ok (inl (Some (b', 12))) /\
  rebuild_order_index_from_book (tl_book TileDemo.tile4) = Ok (tl_index TileDemo.tile4) /\
  rebuild_order_index_from_book b' = Ok (tl_index TileDemo.tile4) /\ serves TileDemo.cfg b' (tl_index TileDemo.tile4) TileDemo.market4.
Proof.
  destruct (TileDemo.demo_running _ _ _ TileDemo.reached4) as [_ Hs _ _ Hf].
  apply (checkpoint_restores TileDemo.cfg (tl_book TileDemo.tile4) (tl_index TileDemo.tile4) TileDemo.market4 32 12 Hs Hf); [split; vm_compute; discriminate|done].
Defined.

