(* ===== verification/FeedExamples.v ===== *)
(** * FeedExamples: the market-data process behind a tile

    The records of the tile of [TileExamples.v] reach a process with one
    depth subscriber, whose queue overflows on the way; the theorems of the
    shadow book and the subscriber applied to it, and what an eviction and a
    second subscription do. *)

From Stdlib Require Import Sorted.
From S2P Require Import Prelude Hash Types Slab Occupancy Compression Users Order Book Links BookInv Matching MatchInv.
From S2P Require Import FillQueue SlotMatch Engine Feasible Process Ranking Market Priority MarketRef MarketClaims Session.
From S2P Require Import Frames Messages Wal WalInv WalClaims Cast CastExamples Dedup Tile TileLog TileInv TileRun Shadow Tape ShadowInv ShadowRun ShadowView.
From S2P Require Import Feed FeedView FeedInv FeedClaims TileExamples.

Module FeedDemo.

#[local] Existing Instance CastDemo.castagnoli.
Import TileDemo(the, the_ok).

Ltac by_eval := vm_compute; repeat match goal with |- _ /\ _ => split end; first [reflexivity | discriminate | exact I | lia].

(** ** The records of the tile *)

Definition recs : list TileRecord := Eval vm_compute in TileDemo.recs3.
Definition rec (i : nat) : TileRecord := nth i recs (TrConfig (mkConfigAppliedRecord 0 0 0 0 0 0)).

Lemma recs_tile : TileDemo.recs3 = recs.
Proof. vm_compute. reflexivity. Qed.

Lemma ids_apart : NoDup (ids TileDemo.flat recs).
Proof. apply (bool_decide_eq_true_1 _). vm_compute. reflexivity. Qed.

(** ** A shadow book of them *)

Definition base : BookConfig := mkConfig 0 10 1.
Definition cfg : BookConfig := for_symbol 1 base.

Lemma shadow_ok : is_ok (ShadowBook_new cfg 16 50600) = true.
Proof. vm_compute. reflexivity. Qed.
Definition shadow0 : ShadowBook := the _ shadow_ok.

Lemma fits0 : cfg_ok 50600 10 /\ spread_ok 50600 10.
Proof. split; [split|repeat split]; vm_compute; first [discriminate | reflexivity | split; discriminate]. Qed.

Lemma shadow0_mirrors : mirrors cfg shadow0 empty_market.
Proof.
  apply (new_mirrors cfg 16 50600); [apply fits0|apply fits0|split; vm_compute; [reflexivity|discriminate]|split; vm_compute; discriminate|exact (the_ok _ shadow_ok)].
Qed.

(** ** The process *)

Definition start : MarketDataState := (add_connection 5 (MarketDataState_new 2 base 16 50000)).2.
Lemma ran0 : is_ok (on_client_frame 6 3 4 0 (Subscribe 1 7) start) = true.
Proof. vm_compute. reflexivity. Qed.
Definition st0 : MarketDataState := the _ ran0.

(** The [i]-th record, under the number the stream expects. *)
Definition live (now : Z) (i : nat) (st : MarketDataState) : Res (Z * MarketDataState) :=
  let seq := Z.of_nat i + 1 in
  on_live_record now 3 4 (if seq =? 1 then 0 else seq) (record_log (rec i) seq).1 (record_log (rec i) seq).2 st.

Lemma ran1 : is_ok (live 10 0 st0) = true. Proof. vm_compute. reflexivity. Qed.
Definition st1 : MarketDataState := (the _ ran1).2.
Lemma ran2 : is_ok (live 11 1 st1) = true. Proof. vm_compute. reflexivity. Qed.
Definition st2 : MarketDataState := (the _ ran2).2.
Definition st2' : MarketDataState := (drain_outbound 0 st2).2.
Lemma ran3 : is_ok (live 12 2 st2') = true. Proof. vm_compute. reflexivity. Qed.
Definition st3 : MarketDataState := (the _ ran3).2.
Lemma ran4 : is_ok (live 13 3 st3) = true. Proof. vm_compute. reflexivity. Qed.
Definition st4 : MarketDataState := (the _ ran4).2.
Lemma ran5 : is_ok (live 14 4 st4) = true. Proof. vm_compute. reflexivity. Qed.
Definition st5 : MarketDataState := (the _ ran5).2.
Lemma ran6 : is_ok (live 15 5 st5) = true. Proof. vm_compute. reflexivity. Qed.
Definition st6 : MarketDataState := (the _ ran6).2.
Lemma ran7 : is_ok (live 16 6 st6) = true. Proof. vm_compute. reflexivity. Qed.
Definition st7 : MarketDataState := (the _ ran7).2.
Lemma ran8 : is_ok (live 17 7 st7) = true. Proof. vm_compute. reflexivity. Qed.
Definition st8 : MarketDataState := (the _ ran8).2.
Lemma ran9 : is_ok (live 18 8 st8) = true. Proof. vm_compute. reflexivity. Qed.
Definition st9 : MarketDataState := (the _ ran9).2.

Definition handed : list Frame := Eval vm_compute in (drain_outbound 0 st2).1.

(** The last trade found the queue full: a snapshot is all that is left. *)
Example overflowed : fmap cn_outbound (ms_connections st9 !! 0) =
  Some [FrameSnapshot (mkL2Snapshot 1 [] [mkL2Level 50500 3 1; mkL2Level 50600 4 1] 33 3)].
Proof. vm_compute. reflexivity. Qed.

(** ** The run of the process *)

Abbreviation watched := (attended cfg 1 0 3 4 (shaded TileDemo.flat)).

Definition within_b (m : Market) : bool := (zlen (ladder Buy m) <=? 3) && (zlen (ladder Sell m) <=? 3).
Lemma within_by m : within_b m = true -> within_depth 3 m.
Proof. unfold within_b. intros Hb. apply andb_true_iff in Hb as [H1 H2]. bool_to_prop. by intros []. Qed.

Definition takes_b (rec : TileRecord) (st : MarketDataState) : bool :=
  match vget (ms_books st) 1 with Some (Some s) => takes_record rec s | _ => match rec with TrInserted _ => false | _ => true end end.
Lemma feedable_by rec st : takes_b rec st = true -> feedable cfg 1 st rec.
Proof. unfold takes_b, feedable. by destruct (vget _ _) as [[s|]|], rec. Qed.

(** The first insertion makes the book of [shadow0]. *)
Lemma feedable_first r st : vget (ms_books st) 1 = Some None -> ms_book_capacity st = 16 -> wn_price r = 50600 ->
  takes_record (TrInserted r) shadow0 = true -> feedable cfg 1 st (TrInserted r).
Proof.
  intros Eb Ec Ep Ht. unfold feedable. rewrite Eb, Ec, Ep. split; [apply fits0|]. split; [apply fits0|].
  split; [split; vm_compute; [reflexivity|discriminate]|]. split; [split; vm_compute; discriminate|]. exists shadow0. split; [exact (the_ok _ shadow_ok)|done].
Qed.

Lemma live_step rs D st now i (ok : is_ok (live now i st) = true) :
  watched rs D st -> about (rec i) 1 -> feed_fits (rec i) -> in_u64 (Z.of_nat i + 1) -> feedable cfg 1 st (rec i) -> watched (rs ++ [rec i]) D (the _ ok).2.
Proof.
  intros Hw Hab Hf Hq Hfe. pose proof (the_ok _ ok) as E. destruct (the _ ok) as [e st'] eqn:Et.
  eapply at_record; [exact Hw|exact Hab|exact Hf|exact Hq|exact Hfe|exact E].
Qed.

Lemma watched0 : watched [] [] st0.
Proof.
  apply (at_subscribe cfg 1 0 3 4 (shaded TileDemo.flat) 6 7 start st0 (mkConnection [] EgressWaker_default 5)).
  - vm_compute. reflexivity.
  - vm_compute. done.
  - reflexivity.
  - intros sid _. vm_compute. tauto.
  - discriminate.
  - exact (the_ok _ ran0).
Qed.

Ltac live_step rs D st now i ok h :=
  exact (live_step rs D st now i ok h ltac:(by_eval) ltac:(by_eval) ltac:(by_eval) ltac:(apply feedable_by; vm_compute; reflexivity)).

Lemma watched1 : watched [rec 0] [] st1.
Proof. live_step (@nil TileRecord) (@nil Frame) st0 10 0%nat ran1 watched0. Qed.
Lemma watched2 : watched [rec 0; rec 1] [] st2.
Proof.
  refine (live_step [rec 0] [] st1 11 1 ran2 watched1 _ _ _ _); [by_eval|by_eval|by_eval|].
  apply (feedable_first _ st1); by_eval.
Qed.
Lemma watched2' : watched [rec 0; rec 1] handed st2'.
Proof. exact (at_drain _ _ _ _ _ _ _ _ _ watched2). Qed.
Lemma watched3 : watched [rec 0; rec 1; rec 2] handed st3.
Proof. live_step [rec 0; rec 1] handed st2' 12 2%nat ran3 watched2'. Qed.
Lemma watched4 : watched [rec 0; rec 1; rec 2; rec 3] handed st4.
Proof. live_step [rec 0; rec 1; rec 2] handed st3 13 3%nat ran4 watched3. Qed.
Lemma watched5 : watched [rec 0; rec 1; rec 2; rec 3; rec 4] handed st5.
Proof. live_step [rec 0; rec 1; rec 2; rec 3] handed st4 14 4%nat ran5 watched4. Qed.
Lemma watched6 : watched [rec 0; rec 1; rec 2; rec 3; rec 4; rec 5] handed st6.
Proof. live_step [rec 0; rec 1; rec 2; rec 3; rec 4] handed st5 15 5%nat ran6 watched5. Qed.
Lemma watched7 : watched [rec 0; rec 1; rec 2; rec 3; rec 4; rec 5; rec 6] handed st7.
Proof. live_step [rec 0; rec 1; rec 2; rec 3; rec 4; rec 5] handed st6 16 6%nat ran7 watched6. Qed.
Lemma watched8 : watched [rec 0; rec 1; rec 2; rec 3; rec 4; rec 5; rec 6; rec 7] handed st8.
Proof. live_step [rec 0; rec 1; rec 2; rec 3; rec 4; rec 5; rec 6] handed st7 17 7%nat ran8 watched7. Qed.
Lemma watched9 : watched recs handed st9.
Proof. live_step [rec 0; rec 1; rec 2; rec 3; rec 4; rec 5; rec 6; rec 7] handed st8 18 8%nat ran9 watched8. Qed.

Lemma session : tile_session TileDemo.cfg 1 1 TileDemo.flat recs TileDemo.market3 TileDemo.tile3.
Proof. rewrite <- recs_tile. exact TileDemo.reached3. Qed.

Lemma recs_sane : sane_tape 10 (shaded TileDemo.flat) recs.
Proof. exact (session_sane TileDemo.cfg 1 1 _ recs _ _ ltac:(by_eval) session ids_apart). Qed.

(** At every moment both sides fit into a snapshot. *)
Lemma always_within rs' : rs' `prefix_of` recs -> within_depth 3 (tape rs' (shaded TileDemo.flat)).
Proof.
  intros Hp. assert (rs' = take (length rs') recs) as -> by (destruct Hp as [k ->]; by rewrite take_app_length).
  pose proof (prefix_length _ _ Hp) as Hl. revert Hl. generalize (length rs'). clear. intros n Hl. apply within_by.
  assert (forallb (fun n => within_b (tape (take n recs) (shaded TileDemo.flat))) (seq 0 (S (length recs))) = true) as Hall by (vm_compute; reflexivity).
  rewrite forallb_forall in Hall. apply Hall, in_seq. lia.
Qed.

(** ** The theorems there *)


Lemma subscriber_sees_market_witness :
  exists conn, ms_connections st9 !! 0 = Some conn /\ shown 1 ∅ (handed ++ cn_outbound conn) ⊆ market_levels (tape recs (shaded TileDemo.flat)) /\
    shown 1 ∅ (handed ++ cn_outbound conn) = market_levels (tape recs (shaded TileDemo.flat)).
Proof.
  destruct (subscriber_sees_market cfg 1 0 3 4 ∅ (shaded TileDemo.flat) recs handed st9) as [(conn & Ec & H1 & _ & H2) _];
    [reflexivity|discriminate|exact recs_sane|exact watched9|].
  exists conn. split; [exact Ec|]. split; [exact H1|exact (H2 always_within)].
Defined.

Lemma subscriber_sees_tile_witness :
  exists conn, ms_connections st9 !! 0 = Some conn /\ shown 1 ∅ (handed ++ cn_outbound conn) ⊆ market_levels TileDemo.market3 /\
    shown 1 ∅ (handed ++ cn_outbound conn) = market_levels TileDemo.market3.
Proof.
  destruct (subscriber_sees_tile cfg 1 0 3 4 ∅ (shaded TileDemo.flat) TileDemo.cfg 1 TileDemo.flat recs TileDemo.market3 TileDemo.tile3 handed st9)
    as (conn & Ec & H1 & _ & H2); [by_eval|reflexivity|exact session|exact ids_apart|reflexivity|reflexivity|exact watched9|].
  exists conn. split; [exact Ec|]. split; [exact H1|exact (H2 always_within)].
Defined.

(** ** What goes missing *)

(** The client leaves, the idle book is evicted, the client comes back: its
    snapshot is empty, though two asks rest. *)
Example eviction_forgets :
  let st := evict_stale_books 100000000000 60000000000 (remove_connection 0 st9) in
  exists st', on_client_frame 100000000001 3 4 1 (Subscribe 1 2) (add_connection 100000000000 st).2 = Ok st' /\
    fmap cn_outbound (ms_connections st' !! 1) = Some [FrameSnapshot (mkL2Snapshot 1 [] [] 0 0)] /\
    market_levels TileDemo.market3 !! (1, 50500) = Some (3, 1).
Proof. eexists. split; [vm_compute; reflexivity|]. split; vm_compute; reflexivity. Qed.

(** Asking for a second symbol clears the queue, and the first symbol's
    pending delta with it. *)
Example second_subscription_drops :
  exists st', on_client_frame 20 3 4 0 (Subscribe 0 2) st5 = Ok st' /\
    fmap cn_outbound (ms_connections st' !! 0) = Some [FrameSnapshot (mkL2Snapshot 0 [] [] 0 0)] /\
    shown 1 ∅ (handed ++ [FrameSnapshot (mkL2Snapshot 0 [] [] 0 0)]) !! (1, 50500) = None /\
    market_levels (tape (take 5 recs) (shaded TileDemo.flat)) !! (1, 50500) = Some (5, 1).
Proof. eexists. split; [vm_compute; reflexivity|]. repeat split; vm_compute; reflexivity. Qed.

End FeedDemo.
