(* ===== verification/Position.v ===== *)
(** * Position: positions, accounts and index prices of the risk engine

    [rsx-risk/src/position.rs] (the [Position] methods), [account.rs] and the
    pure part of [price.rs].  A position keeps the open quantity and entry
    cost of each side and the realised profit; the theorems say that it is the
    sum of its fills, in quantity and in cash. *)

From S2P Require Import Prelude Types.

(** ** Accounts *)

Record Account : Type := mkAccount { ac_user_id : Z; ac_collateral : Z; ac_version : Z }.

Definition Account_new (user_id collateral : Z) : Account := mkAccount user_id collateral 0.

Definition deduct_fee (fee : Z) (a : Account) : Account :=
  mkAccount (ac_user_id a) (sat_i64 (ac_collateral a - fee)) (wrap_u64 (ac_version a + 1)).
Definition credit (amount : Z) (a : Account) : Account :=
  mkAccount (ac_user_id a) (sat_i64 (ac_collateral a + amount)) (wrap_u64 (ac_version a + 1)).

(** ** Index prices *)

Record IndexPrice : Type := mkIndex { ip_price : Z; ip_valid : bool }.
Definition IndexPrice_default : IndexPrice := mkIndex 0 false.

Record BboUpdate : Type := mkBboUpdate {
  bu_seq : Z; bu_symbol_id : Z; bu_bid_px : Z; bu_bid_qty : Z; bu_ask_px : Z; bu_ask_qty : Z
}.

(** The weighted sum is taken in [i128], where only four operands of
    [i64::MIN] can overflow it. *)
Definition calculate_index (bid_px bid_qty ask_px ask_qty last_index : Z) : Z :=
  let total := bid_qty + ask_qty in
  if total =? 0 then last_index
  else if bid_qty =? 0 then ask_px
  else if ask_qty =? 0 then bid_px
  else sat_i64 (Z.quot (wrap_i128 (bid_px * ask_qty + ask_px * bid_qty)) total).

Definition update_from_bbo (p : IndexPrice) (bbo : BboUpdate) : IndexPrice :=
  mkIndex (calculate_index (bu_bid_px bbo) (bu_bid_qty bbo) (bu_ask_px bbo) (bu_ask_qty bbo) (ip_price p)) true.

(** ** Positions *)

Record Position : Type := mkPosition {
  po_user_id : Z;
  po_symbol_id : Z;
  po_long_qty : Z;
  po_short_qty : Z;
  po_long_entry_cost : Z;
  po_short_entry_cost : Z;
  po_realized_pnl : Z;
  po_last_fill_seq : Z;
  po_version : Z;
}.

Definition Position_new (user_id symbol_id : Z) : Position := mkPosition user_id symbol_id 0 0 0 0 0 0 0.

(** [side] is the fill's side byte: 0 buys, anything else sells. *)
Definition Position_apply_fill (side price qty seq : Z) (p : Position) : Position :=
  let done lq sq lc sc pnl := mkPosition (po_user_id p) (po_symbol_id p) lq sq lc sc pnl seq (wrap_u64 (po_version p + 1)) in
  if side =? 0 then
    if po_short_qty p >? 0 then
      let close_qty := Z.min qty (po_short_qty p) in
      let close_cost := sat_i64 (Z.quot (po_short_entry_cost p * close_qty) (po_short_qty p)) in
      let pnl := wrap_i64 (po_realized_pnl p + sat_i64 (close_cost - price * close_qty)) in
      let sq := wrap_i64 (po_short_qty p - close_qty) in
      let sc := wrap_i64 (po_short_entry_cost p - close_cost) in
      let remaining := wrap_i64 (qty - close_qty) in
      if remaining >? 0 then
        done (wrap_i64 (po_long_qty p + remaining)) sq
          (wrap_i64 (po_long_entry_cost p + sat_i64 (price * remaining))) sc pnl
      else done (po_long_qty p) sq (po_long_entry_cost p) sc pnl
    else
      done (wrap_i64 (po_long_qty p + qty)) (po_short_qty p)
        (wrap_i64 (po_long_entry_cost p + sat_i64 (price * qty))) (po_short_entry_cost p) (po_realized_pnl p)
  else
    if po_long_qty p >? 0 then
      let close_qty := Z.min qty (po_long_qty p) in
      let close_cost := sat_i64 (Z.quot (po_long_entry_cost p * close_qty) (po_long_qty p)) in
      let pnl := wrap_i64 (po_realized_pnl p + sat_i64 (price * close_qty - close_cost)) in
      let lq := wrap_i64 (po_long_qty p - close_qty) in
      let lc := wrap_i64 (po_long_entry_cost p - close_cost) in
      let remaining := wrap_i64 (qty - close_qty) in
      if remaining >? 0 then
        done lq (wrap_i64 (po_short_qty p + remaining)) lc
          (wrap_i64 (po_short_entry_cost p + sat_i64 (price * remaining))) pnl
      else done lq (po_short_qty p) lc (po_short_entry_cost p) pnl
    else
      done (po_long_qty p) (wrap_i64 (po_short_qty p + qty)) (po_long_entry_cost p)
        (wrap_i64 (po_short_entry_cost p + sat_i64 (price * qty))) (po_realized_pnl p).

Definition Position_net_qty (p : Position) : Z := wrap_i64 (po_long_qty p - po_short_qty p).

(** [Err] is [None]. *)
Definition notional (p : Position) (mark_price : Z) : option Z :=
  try_i64 (wrap_i64 (Z.abs (Position_net_qty p)) * mark_price).

Definition avg_entry (p : Position) : Res Z :=
  let nq := Position_net_qty p in
  if nq >? 0 then
    if po_long_qty p =? 0 then Ok 0 else div_i64 (po_long_entry_cost p) (po_long_qty p)
  else if nq <? 0 then
    if po_short_qty p =? 0 then Ok 0 else div_i64 (po_short_entry_cost p) (po_short_qty p)
  else Ok 0.

Definition unrealized_pnl (p : Position) (mark_price : Z) : Res (option Z) :=
  let nq := Position_net_qty p in
  if nq =? 0 then Ok (Some 0)
  else avg ← avg_entry p; Ok (try_i64 (nq * wrap_i64 (mark_price - avg))).

Definition Position_is_empty (p : Position) : bool := (po_long_qty p =? 0) && (po_short_qty p =? 0).

(** ** The contract *)

(** One side is open at a time, and a side with no quantity has no cost. *)
Record pos_ok (p : Position) : Prop := {
  pk_long : 0 <= po_long_qty p;
  pk_short : 0 <= po_short_qty p;
  pk_one : po_long_qty p = 0 \/ po_short_qty p = 0;
  pk_lcost : 0 <= po_long_entry_cost p;
  pk_scost : 0 <= po_short_entry_cost p;
  pk_lflat : po_long_qty p = 0 -> po_long_entry_cost p = 0;
  pk_sflat : po_short_qty p = 0 -> po_short_entry_cost p = 0;
}.

(** Cash in minus cash out, as the position's fields account for it. *)
Definition cash (p : Position) : Z := po_realized_pnl p + po_short_entry_cost p - po_long_entry_cost p.

(** Open quantity and money are within bounds that leave room in [i64]. *)
Definition pos_within (q n : Z) (p : Position) : Prop :=
  po_long_qty p + po_short_qty p <= q /\ po_long_entry_cost p + po_short_entry_cost p <= n /\ Z.abs (cash p) <= n.

(** The signed quantity of a fill for the user whose side byte is given. *)
Definition signed (side qty : Z) : Z := if side =? 0 then qty else - qty.

(** The cost released by closing part of a side: pro rata, never more than
    there is, and everything when the side is closed. *)
Lemma close_cost_bounds cost q close :
  0 <= cost -> 0 < close <= q ->
  0 <= Z.quot (cost * close) q <= cost /\ (close = q -> Z.quot (cost * close) q = cost).
Proof.
  intros Hc Hq. rewrite Z.quot_div_nonneg by nia. split; [split|].
  - apply Z.div_pos; nia.
  - apply Z.div_le_upper_bound; nia.
  - intros ->. by apply Z.div_mul; lia.
Qed.

(** Closing one side of size [q] and cost [c] with a fill of [qty]. *)
Lemma close_side cost q qty price :
  0 <= cost -> 0 < q -> 0 < qty -> 0 < price ->
  let close := Z.min qty q in
  exists cc pc pr, Z.quot (cost * close) q = cc /\ price * close = pc /\ price * (qty - close) = pr /\
    0 <= cc <= cost /\ 0 < pc /\ 0 <= pr /\ price * qty = pc + pr /\ (q - close = 0 -> cost - cc = 0) /\ (close = qty -> pr = 0) /\
    0 < close <= q /\ close <= qty /\ (close < qty -> close = q) /\ (close < qty -> 0 < pr).
Proof.
  intros Hc Hq Hqty Hp close. pose proof (close_cost_bounds cost q close Hc ltac:(lia)) as [Hb Hf].
  exists (Z.quot (cost * close) q), (price * close), (price * (qty - close)). repeat split; try lia; try nia.
Qed.

Lemma fill_step q n side price qty seq p :
  pos_ok p -> pos_within q n p -> 0 < qty -> 0 < price -> q + qty <= I64_MAX -> 3 * (n + price * qty) <= I64_MAX ->
  let p' := Position_apply_fill side price qty seq p in
  pos_ok p' /\ pos_within (q + qty) (n + price * qty) p' /\
  po_long_qty p' - po_short_qty p' = po_long_qty p - po_short_qty p + signed side qty /\
  cash p' = cash p - price * signed side qty.
Proof.
  intros [h1 h2 h3 h4 h5 h6 h7] (w1 & w2 & w3) Hq Hp HQ HN. unfold Position_apply_fill, signed, pos_within, cash in *. unfold I64_MAX in *.
  assert (0 < price * qty) by nia.
  destruct (side =? 0).
  - destruct (po_short_qty p >? 0) eqn:Es; bool_to_prop.
    + destruct (close_side (po_short_entry_cost p) (po_short_qty p) qty price h5 ltac:(lia) Hq Hp)
        as (cc & pc & pr & E1 & E2 & E3 & b1 & b2 & b3 & b4 & b5 & b6 & b7 & b8 & b9 & b10).
      cbn zeta in *. set (close := Z.min qty (po_short_qty p)) in *. rewrite E1, E2.
      rewrite (wrap_i64_id (qty - close)) by width_lia. rewrite E3, !sat_i64_id by width_lia.
      destruct (qty - close >? 0) eqn:Er; bool_to_prop; cbn; rewrite !wrap_i64_id by width_lia; split; try (split; cbn; lia); split; lia.
    + cbn. rewrite !sat_i64_id, !wrap_i64_id by width_lia. split; [split; cbn; lia|]. split; lia.
  - destruct (po_long_qty p >? 0) eqn:Es; bool_to_prop.
    + destruct (close_side (po_long_entry_cost p) (po_long_qty p) qty price h4 ltac:(lia) Hq Hp)
        as (cc & pc & pr & E1 & E2 & E3 & b1 & b2 & b3 & b4 & b5 & b6 & b7 & b8 & b9 & b10).
      cbn zeta in *. set (close := Z.min qty (po_long_qty p)) in *. rewrite E1, E2.
      rewrite (wrap_i64_id (qty - close)) by width_lia. rewrite E3, !sat_i64_id by width_lia.
      destruct (qty - close >? 0) eqn:Er; bool_to_prop; cbn; rewrite !wrap_i64_id by width_lia; split; try (split; cbn; lia); split; lia.
    + cbn. rewrite !sat_i64_id, !wrap_i64_id by width_lia. split; [split; cbn; lia|]. split; lia.
Qed.

(** ** A position is the sum of its fills *)

Record PosFill : Type := mkPosFill { pf_side : Z; pf_price : Z; pf_qty : Z; pf_seq : Z }.

Definition apply_pos_fill (p : Position) (f : PosFill) : Position :=
  Position_apply_fill (pf_side f) (pf_price f) (pf_qty f) (pf_seq f) p.

Definition fill_value (f : PosFill) : Z := pf_price f * pf_qty f.
Definition fill_signed (f : PosFill) : Z := signed (pf_side f) (pf_qty f).
Definition fill_cash (f : PosFill) : Z := - (pf_price f * signed (pf_side f) (pf_qty f)).
Definition fill_pos (f : PosFill) : Prop := 0 < pf_qty f /\ 0 < pf_price f.
#[global] Instance fill_pos_dec f : Decision (fill_pos f).
Proof. unfold fill_pos. apply _. Defined.

Lemma Position_new_ok u s : pos_ok (Position_new u s) /\ pos_within 0 0 (Position_new u s).
Proof. split; [split; cbn; lia | unfold pos_within, cash; cbn; lia]. Qed.

Lemma fills_nonneg fs : Forall fill_pos fs -> 0 <= zsum pf_qty fs /\ 0 <= zsum fill_value fs.
Proof.
  induction 1 as [|f fs [Hq Hp] _ IH]; [unfold zsum; cbn; lia|].
  assert (0 < fill_value f) by (unfold fill_value; nia). cbn. fold (zsum pf_qty fs) (zsum fill_value fs). lia.
Qed.

Lemma fills_step fs : forall q n p,
  pos_ok p -> pos_within q n p -> Forall fill_pos fs -> 0 <= q -> 0 <= n ->
  q + zsum pf_qty fs <= I64_MAX -> 3 * (n + zsum fill_value fs) <= I64_MAX ->
  let p' := fold_left apply_pos_fill fs p in
  pos_ok p' /\ pos_within (q + zsum pf_qty fs) (n + zsum fill_value fs) p' /\
  po_long_qty p' - po_short_qty p' = po_long_qty p - po_short_qty p + zsum fill_signed fs /\
  cash p' = cash p + zsum fill_cash fs.
Proof.
  induction fs as [|f fs IH]; intros q n p Hok Hw Hf Hq Hn HQ HN.
  - cbn. rewrite !Z.add_0_r. by repeat split; try apply Hok; try apply Hw.
  - apply Forall_cons in Hf as [[fq fp] Hf]. destruct (fills_nonneg fs Hf) as [s1 s2].
    cbn [zsum fold_right] in HQ, HN. fold (zsum pf_qty fs) in HQ. fold (zsum fill_value fs) in HN.
    assert (Ev : fill_value f = pf_price f * pf_qty f) by reflexivity. assert (0 < fill_value f) by (unfold fill_value; nia).
    destruct (fill_step q n (pf_side f) (pf_price f) (pf_qty f) (pf_seq f) p Hok Hw fq fp ltac:(lia) ltac:(lia))
      as (a1 & a2 & a3 & a4).
    destruct (IH (q + pf_qty f) (n + fill_value f) (apply_pos_fill p f) a1 a2 Hf ltac:(lia) ltac:(lia) ltac:(lia) ltac:(lia))
      as (b1 & b2 & b3 & b4).
    cbn [fold_left]. cbn zeta. split; [done|]. cbn [zsum fold_right]. fold (zsum pf_qty fs) (zsum fill_value fs) (zsum fill_signed fs) (zsum fill_cash fs).
    fold (apply_pos_fill p f) in a3, a4. unfold fill_signed at 1. unfold fill_cash at 1.
    replace (q + (pf_qty f + zsum pf_qty fs)) with (q + pf_qty f + zsum pf_qty fs) by lia.
    replace (n + (fill_value f + zsum fill_value fs)) with (n + fill_value f + zsum fill_value fs) by lia.
    split; [done|]. split; lia.
Qed.

(** A position is the sum of its fills.  Applying any sequence of fills to
    a fresh position yields one whose net quantity is the sum of the signed
    quantities and whose books balance to the unit: realised profit plus the
    open short cost minus the open long cost is exactly the cash the fills
    moved; only one side is ever open, and a side with no quantity carries no
    cost.  The bounds keep the fields inside [i64]. *)
Theorem position_is_sum_of_fills user symbol fs :
  Forall fill_pos fs -> zsum pf_qty fs <= I64_MAX -> 3 * zsum fill_value fs <= I64_MAX ->
  let p := fold_left apply_pos_fill fs (Position_new user symbol) in
  pos_ok p /\ Position_net_qty p = zsum fill_signed fs /\
  po_realized_pnl p + po_short_entry_cost p - po_long_entry_cost p = zsum fill_cash fs.
Proof.
  intros Hf Hq Hv p. destruct (Position_new_ok user symbol) as [h1 h2]. destruct (fills_nonneg fs Hf).
  destruct (fills_step fs 0 0 _ h1 h2 Hf ltac:(lia) ltac:(lia) ltac:(lia) ltac:(lia)) as (a1 & (a2 & _) & a3 & a4).
  fold p in a1, a2, a3, a4. split; [exact a1|]. unfold cash in a4. cbn in a3, a4. pose proof (pk_long _ a1). pose proof (pk_short _ a1).
  split; [|lia]. unfold Position_net_qty. rewrite wrap_i64_id by width_lia. lia.
Qed.

Lemma position_is_sum_of_fills_witness :
  let fs := [mkPosFill 0 100 5 1; mkPosFill 1 110 3 2; mkPosFill 1 90 4 3] in
  let p := fold_left apply_pos_fill fs (Position_new 7 1) in
  pos_ok p /\ Position_net_qty p = -2 /\
  po_realized_pnl p + po_short_entry_cost p - po_long_entry_cost p = 190.
Proof. apply position_is_sum_of_fills; [repeat constructor | vm_compute; discriminate | vm_compute; discriminate]. Defined.

(** Average entry prices round towards zero. *)
Lemma avg_rounds cost q :
  0 <= cost -> 0 < q ->
  exists a r, div_i64 cost q = Ok a /\ cost = q * a + r /\ 0 <= r < q /\ 0 <= a <= cost.
Proof.
  intros Hc Hq. unfold div_i64. replace ((q =? 0) || _) with false by (unfold I64_MIN; lia). rewrite Z.quot_div_nonneg by lia.
  exists (cost / q), (cost mod q). pose proof (Z.div_mod cost q ltac:(lia)). pose proof (Z.mod_pos_bound cost q Hq).
  assert (0 <= cost / q) by (apply Z.div_pos; lia). repeat split; try lia. nia.
Qed.

(** What a position is worth.  Realised plus unrealised profit is the cash
    its fills moved plus its net quantity valued at the mark price, up to a
    rounding of the average entry price that is smaller than the net
    quantity; the unrealised profit is an error only when it does not fit. *)
Theorem pnl_marks_to_market p q n mark :
  pos_ok p -> pos_within q n p -> 0 <= mark <= n -> q <= n -> n <= I64_MAX -> q * n <= I64_MAX ->
  exists u r, unrealized_pnl p mark = Ok (Some u) /\
    po_realized_pnl p + u = cash p + Position_net_qty p * mark + r /\
    (Z.abs r < Z.abs (Position_net_qty p) \/ r = 0 /\ Position_net_qty p = 0).
Proof.
  intros [h1 h2 h3 h4 h5 h6 h7] (w1 & w2 & w3) Hm Hqn HN HQ. unfold unrealized_pnl, avg_entry, cash in *.
  assert (En : Position_net_qty p = po_long_qty p - po_short_qty p) by (apply wrap_i64_id; width_lia).
  rewrite !En. destruct (_ - _ =? 0) eqn:E0; bool_to_prop; [exists 0, 0; split; [done|]; lia|].
  destruct h3 as [h3|h3]; rewrite h3 in *.
  - replace (0 - po_short_qty p >? 0) with false by lia. replace (0 - po_short_qty p <? 0) with true by lia.
    replace (po_short_qty p =? 0) with false by lia.
    destruct (avg_rounds (po_short_entry_cost p) (po_short_qty p)) as (a & r & -> & Ha & Hr & Hb); [lia|lia|]. cbn [mbind Res_bind].
    rewrite wrap_i64_id by width_lia. rewrite try_i64_some by (width_unfold; nia). eexists _, (- r). split; [done|]. lia.
  - replace (po_long_qty p - 0 >? 0) with true by lia. replace (po_long_qty p =? 0) with false by lia.
    destruct (avg_rounds (po_long_entry_cost p) (po_long_qty p)) as (a & r & -> & Ha & Hr & Hb); [lia|lia|]. cbn [mbind Res_bind].
    rewrite wrap_i64_id by width_lia. rewrite try_i64_some by (width_unfold; nia). eexists _, r. split; [done|]. lia.
Qed.

Lemma pnl_marks_to_market_witness :
  let p := fold_left apply_pos_fill [mkPosFill 0 100 5 1; mkPosFill 1 110 3 2; mkPosFill 0 91 4 3] (Position_new 7 1) in
  exists u r, unrealized_pnl p 105 = Ok (Some u) /\
    po_realized_pnl p + u = cash p + Position_net_qty p * 105 + r /\
    (Z.abs r < Z.abs (Position_net_qty p) \/ r = 0 /\ Position_net_qty p = 0).
Proof.
  apply (pnl_marks_to_market _ 100 10000 105).
  - split; vm_compute; intuition discriminate.
  - repeat split; vm_compute; discriminate.
  - lia.
  - lia.
  - unfold I64_MAX. lia.
  - unfold I64_MAX. lia.
Defined.

(** The index price lies in the spread.  With sizes on the book and an
    uncrossed quote, the size-weighted index is between the best bid and the
    best ask; with no size on either side the last index stands. *)
Theorem index_within_spread bid_px bid_qty ask_px ask_qty last :
  0 <= bid_px <= ask_px -> ask_px <= I64_MAX -> 0 <= bid_qty <= I64_MAX -> 0 <= ask_qty <= I64_MAX ->
  let idx := calculate_index bid_px bid_qty ask_px ask_qty last in
  (0 < bid_qty + ask_qty -> bid_px <= idx <= ask_px) /\ (bid_qty + ask_qty = 0 -> idx = last).
Proof.
  intros Hp Hm Hb Ha. unfold calculate_index. split; intros Ht; [|by replace (bid_qty + ask_qty =? 0) with true by lia].
  replace (bid_qty + ask_qty =? 0) with false by lia.
  repeat (case_if; bool_to_prop; [lia|]). rewrite wrap_i128_id by (width_unfold; nia). rewrite Z.quot_div_nonneg by nia.
  assert (bid_px <= (bid_px * ask_qty + ask_px * bid_qty) / (bid_qty + ask_qty)) by (apply Z.div_le_lower_bound; nia).
  assert ((bid_px * ask_qty + ask_px * bid_qty) / (bid_qty + ask_qty) <= ask_px) by (apply Z.div_le_upper_bound; nia).
  rewrite sat_i64_id by width_lia. lia.
Qed.

Lemma index_within_spread_witness :
  let idx := calculate_index 10000 30 10010 10 0 in
  (0 < 30 + 10 -> 10000 <= idx <= 10010) /\ (30 + 10 = 0 -> idx = 0).
Proof. apply index_within_spread; unfold I64_MAX; lia. Defined.
