(* ===== verification/Margin.v ===== *)
(** * Margin: portfolio margin and the pre-trade check

    [rsx-risk/src/margin.rs] up to its [RiskShard] methods, with the order
    request of [rsx-messages/src/lib.rs] and the reject reasons of
    [rsx-risk/src/types.rs].  An iterator over a user's positions is the list
    of positions it yields, in its order. *)

From S2P Require Import Prelude Types Position.

(** ** Data *)

Record OrderRequest : Type := mkOrderRequest {
  or_seq : Z;
  or_user_id : Z;
  or_symbol_id : Z;
  or_price : Z;
  or_qty : Z;
  or_order_id_hi : Z;
  or_order_id_lo : Z;
  or_timestamp_ns : Z;
  or_side : Z;
  or_tif : Z;
  or_reduce_only : bool;
  or_post_only : bool;
  or_is_liquidation : bool;
}.

Inductive RejectReason : Type :=
| InsufficientMargin
| UserInLiquidation
| NotInShard
| SymbolNotConfigured
| OrderTooSmall.

(** The wire reason of an [ORDER_FAILED]. *)
Definition wire_reason (r : RejectReason) : FailureReason :=
  match r with
  | InsufficientMargin => InsufficientMarginF
  | UserInLiquidation => UserInLiquidationF
  | NotInShard => WrongShard
  | SymbolNotConfigured => SymbolNotFound
  | OrderTooSmall => OrderTooSmallF
  end.

Record SymbolRiskParams : Type := mkRiskParams {
  sp_initial_margin_rate : Z;
  sp_maintenance_margin_rate : Z;
  sp_max_leverage : Z;
  sp_min_notional : Z;
}.

Record MarginState : Type := mkMarginState {
  ms_equity : Z;
  ms_unrealized_pnl : Z;
  ms_initial_margin : Z;
  ms_maintenance_margin : Z;
  ms_available_margin : Z;
  ms_gross_notional : Z;
}.

Record Freeze : Type := mkFreeze { fz_user_id : Z; fz_symbol_id : Z; fz_amount : Z }.

(** [symbol_params] of [PortfolioMargin]. *)
Abbreviation PortfolioMargin := (list (option SymbolRiskParams)).

(** [symbol_params.get(sid)] with the [let Some(Some(params))] pattern. *)
Definition params_of (m : PortfolioMargin) (sid : Z) : option SymbolRiskParams := vget m sid ≫= id.

(** ** Portfolio margin *)

Record MarginAcc : Type := mkAcc { ma_upnl : Z; ma_im : Z; ma_mm : Z; ma_gross : Z }.

(** [i64::try_from(notional as i128 * rate as i128 / 10_000).unwrap_or(i64::MAX)] *)
Definition rate_of (notional rate : Z) : Z := default I64_MAX (try_i64 (Z.quot (notional * rate) 10000)).

Definition margin_step (m : PortfolioMargin) (mark_prices : list Z) (acc : MarginAcc) (pos : Position) : Res MarginAcc :=
  let sid := po_symbol_id pos in
  match params_of m sid with
  | None => Ok acc
  | Some params =>
      if sid >=? zlen mark_prices then Ok acc
      else
        mark ← vindex mark_prices sid;
        u ← unrealized_pnl pos mark;
        let pos_upnl := default I64_MIN u in
        let ntl := default I64_MAX (notional pos mark) in
        Ok (mkAcc (sat_i64 (ma_upnl acc + pos_upnl))
                  (sat_i64 (ma_im acc + rate_of ntl (sp_initial_margin_rate params)))
                  (sat_i64 (ma_mm acc + rate_of ntl (sp_maintenance_margin_rate params)))
                  (sat_i64 (ma_gross acc + ntl)))
  end.

Definition calculate (m : PortfolioMargin) (account : Account) (positions : list Position)
    (mark_prices : list Z) (frozen : Z) : Res MarginState :=
  acc ← rfold (margin_step m mark_prices) (mkAcc 0 0 0 0) positions;
  let equity := sat_i64 (ac_collateral account + ma_upnl acc) in
  let available := sat_i64 (sat_i64 (equity - ma_im acc) - frozen) in
  Ok (mkMarginState equity (ma_upnl acc) (ma_im acc) (ma_mm acc) available (ma_gross acc)).

Definition needs_liquidation (s : MarginState) : bool := ms_equity s <? ms_maintenance_margin s.

(** ** The pre-trade check *)

Definition rests (o : OrderRequest) : bool := negb (or_tif o =? tif_u8 IOC) && negb (or_tif o =? tif_u8 FOK).

Definition closes_whole_position (positions : list Position) (o : OrderRequest) : bool :=
  existsb (fun p => (po_symbol_id p =? or_symbol_id o) && (Z.abs (Position_net_qty p) =? or_qty o)) positions.

Definition calculate_margin_needed (params : SymbolRiskParams) (price qty taker_fee_bps : Z) : Z :=
  let order_notional := default I64_MAX (try_i64 (price * qty)) in
  let order_im := rate_of order_notional (sp_initial_margin_rate params) in
  sat_i64 (order_im + calculate_fee qty price taker_fee_bps).

(** [Err(reason)] is [inl reason]. *)
Definition check_order (m : PortfolioMargin) (account : Account) (positions : list Position) (o : OrderRequest)
    (mark_prices : list Z) (taker_fee_bps frozen : Z) : Res (RejectReason + Z) :=
  if or_is_liquidation o then Ok (inr 0) else
  match params_of m (or_symbol_id o) with
  | None => Ok (inl SymbolNotConfigured)
  | Some params =>
      let notional_128 := or_price o * or_qty o in
      let below_minimum := notional_128 <? sp_min_notional params in
      if or_reduce_only o then
        if below_minimum && rests o && negb (closes_whole_position positions o) then Ok (inl OrderTooSmall)
        else Ok (inr 0)
      else if below_minimum then Ok (inl OrderTooSmall)
      else
        state ← calculate m account positions mark_prices frozen;
        let order_notional := default I64_MAX (try_i64 notional_128) in
        let capped :=
          (sp_max_leverage params >? 0) &&
          (let gross_after := sat_i64 (ms_gross_notional state + order_notional) in
           let allowed := Z.max (sat_i64 (ms_equity state * sp_max_leverage params)) 0 in
           (ms_equity state <=? 0) || (gross_after >? allowed)) in
        if capped then Ok (inl InsufficientMargin)
        else
          let margin_needed := calculate_margin_needed params (or_price o) (or_qty o) taker_fee_bps in
          if ms_available_margin state <? margin_needed then Ok (inl InsufficientMargin)
          else Ok (inr margin_needed)
  end.

(** ** The exposure index *)

Abbreviation ExposureIndex := (list (list Z)).

Definition ExposureIndex_new (max_symbols : Z) : ExposureIndex := replicate (Z.to_nat max_symbols) [].
Definition ex_contains (u : Z) (users : list Z) : bool := existsb (Z.eqb u) users.
Definition ex_add (user_id : Z) (users : list Z) : list Z := if ex_contains user_id users then users else users ++ [user_id].
Definition ex_remove (user_id : Z) (users : list Z) : list Z := List.filter (fun u => negb (u =? user_id)) users.

Definition add_user (symbol_idx user_id : Z) (e : ExposureIndex) : Res ExposureIndex := vmodify e symbol_idx (ex_add user_id).
Definition remove_user (symbol_idx user_id : Z) (e : ExposureIndex) : Res ExposureIndex := vmodify e symbol_idx (ex_remove user_id).
Definition users_for_symbol (e : ExposureIndex) (symbol_idx : Z) : Res (list Z) := vindex e symbol_idx.

(** ** The contract

    The margin of a portfolio in unbounded integers. *)

Definition spec_net (p : Position) : Z := po_long_qty p - po_short_qty p.
Definition spec_avg (p : Position) : Z :=
  if 0 <? spec_net p then po_long_entry_cost p / po_long_qty p
  else if spec_net p <? 0 then po_short_entry_cost p / po_short_qty p else 0.

(** The mark price and parameters a position is margined with, if it is. *)
Definition margined (m : PortfolioMargin) (marks : list Z) (p : Position) : option (Z * SymbolRiskParams) :=
  params ← params_of m (po_symbol_id p); mark ← vget marks (po_symbol_id p); Some (mark, params).

Definition spec_upnl m marks (p : Position) : Z :=
  match margined m marks p with Some (mark, _) => spec_net p * (mark - spec_avg p) | None => 0 end.
Definition spec_ntl m marks (p : Position) : Z :=
  match margined m marks p with Some (mark, _) => Z.abs (spec_net p) * mark | None => 0 end.
Definition spec_im m marks (p : Position) : Z :=
  match margined m marks p with
  | Some (mark, params) => Z.abs (spec_net p) * mark * sp_initial_margin_rate params / 10000 | None => 0 end.
Definition spec_mm m marks (p : Position) : Z :=
  match margined m marks p with
  | Some (mark, params) => Z.abs (spec_net p) * mark * sp_maintenance_margin_rate params / 10000 | None => 0 end.

(** Margin rates are fractions of the notional. *)
Definition rates_ok (m : PortfolioMargin) : Prop :=
  Forall (fun o => match o with
    | Some params => 0 <= sp_initial_margin_rate params <= 10000 /\ 0 <= sp_maintenance_margin_rate params <= 10000
    | None => True end) m.
Definition marks_ok (marks : list Z) : Prop := Forall (fun x => 0 <= x <= I64_MAX) marks.
Definition pos_fits (p : Position) : Prop :=
  pos_ok p /\ 0 <= po_symbol_id p /\ po_long_qty p + po_short_qty p <= I64_MAX /\ po_long_entry_cost p + po_short_entry_cost p <= I64_MAX.

(** The sums that make up a margin state leave room in [i64]. *)
Definition sums_fit m marks (collateral frozen : Z) (positions : list Position) : Prop :=
  Z.abs collateral + Z.abs frozen + zsum (fun p => Z.abs (spec_upnl m marks p)) positions +
  zsum (spec_ntl m marks) positions <= I64_MAX.

Lemma pos_net_exact p : pos_fits p -> Position_net_qty p = spec_net p.
Proof. intros ([] & _ & Hq & _). apply wrap_i64_id. unfold spec_net. width_lia. Qed.

Lemma avg_exact p : pos_fits p -> spec_net p <> 0 -> avg_entry p = Ok (spec_avg p) /\ 0 <= spec_avg p <= I64_MAX.
Proof.
  intros Hf Hn. unfold avg_entry. rewrite (pos_net_exact p Hf). destruct Hf as (Hok & _ & Hq & Hc).
  unfold spec_avg, spec_net in *. destruct Hok as [h1 h2 h3 h4 h5 h6 h7].
  destruct (0 <? _) eqn:E1; bool_to_prop.
  - replace (_ >? 0) with true by lia. replace (po_long_qty p =? 0) with false by lia.
    destruct (avg_rounds (po_long_entry_cost p) (po_long_qty p)) as (a & r & Ed & Ea & Er & Eb); [lia|lia|].
    rewrite Ed. assert (po_long_entry_cost p / po_long_qty p = a) as -> by (symmetry; apply (Z.div_unique _ _ _ r); lia).
    split; [done | lia].
  - replace (_ >? 0) with false by lia. replace (po_long_qty p - po_short_qty p <? 0) with true by lia.
    replace (po_short_qty p =? 0) with false by lia.
    destruct (avg_rounds (po_short_entry_cost p) (po_short_qty p)) as (a & r & Ed & Ea & Er & Eb); [lia|lia|].
    rewrite Ed. assert (po_short_entry_cost p / po_short_qty p = a) as -> by (symmetry; apply (Z.div_unique _ _ _ r); lia).
    split; [done | lia].
Qed.

Lemma upnl_exact p mark :
  pos_fits p -> 0 <= mark <= I64_MAX -> Z.abs (spec_net p * (mark - spec_avg p)) <= I64_MAX ->
  unrealized_pnl p mark = Ok (Some (spec_net p * (mark - spec_avg p))).
Proof.
  intros Hf Hm Hb. unfold unrealized_pnl. rewrite (pos_net_exact p Hf).
  destruct (spec_net p =? 0) eqn:E0; bool_to_prop; [by rewrite E0|].
  destruct (avg_exact p Hf E0) as [-> Ha]. cbn [mbind Res_bind]. rewrite wrap_i64_id by width_lia.
  by rewrite try_i64_some by width_lia.
Qed.

Lemma notional_exact p mark :
  pos_fits p -> 0 <= mark -> Z.abs (spec_net p) * mark <= I64_MAX -> notional p mark = Some (Z.abs (spec_net p) * mark).
Proof.
  intros Hf Hm Hb. unfold notional. rewrite (pos_net_exact p Hf). destruct Hf as ([h1 h2 _ _ _ _ _] & _ & Hq & _).
  rewrite wrap_i64_id by (unfold spec_net; width_lia). apply try_i64_some. width_unfold. split; [|lia]. nia.
Qed.

Lemma rate_exact x rate : 0 <= x <= I64_MAX -> 0 <= rate <= 10000 -> rate_of x rate = x * rate / 10000 /\ 0 <= x * rate / 10000 <= x.
Proof.
  intros Hx Hr. assert (0 <= x * rate / 10000 <= x) by (split; [apply Z.div_pos; nia | apply Z.div_le_upper_bound; nia]).
  unfold rate_of. rewrite Z.quot_div_nonneg by nia. by rewrite try_i64_some by width_lia.
Qed.

Definition acc_plus (a b : MarginAcc) : MarginAcc :=
  mkAcc (ma_upnl a + ma_upnl b) (ma_im a + ma_im b) (ma_mm a + ma_mm b) (ma_gross a + ma_gross b).
Definition spec_acc m marks (ps : list Position) : MarginAcc :=
  mkAcc (zsum (spec_upnl m marks) ps) (zsum (spec_im m marks) ps) (zsum (spec_mm m marks) ps) (zsum (spec_ntl m marks) ps).

Lemma params_rates m sid params :
  rates_ok m -> params_of m sid = Some params ->
  0 <= sp_initial_margin_rate params <= 10000 /\ 0 <= sp_maintenance_margin_rate params <= 10000.
Proof.
  intros Hr Hp. unfold params_of in Hp. destruct (vget m sid) as [o|] eqn:E; [|done]. cbn in Hp. subst.
  apply vget_in in E. unfold rates_ok in Hr. rewrite List.Forall_forall in Hr. by apply (Hr _ E).
Qed.

Lemma mark_bounds marks sid mark : marks_ok marks -> vget marks sid = Some mark -> 0 <= mark <= I64_MAX.
Proof. intros Hm E%vget_in. unfold marks_ok in Hm. rewrite List.Forall_forall in Hm. by apply Hm. Qed.

(** The margins of one position are fractions of its notional. *)
Lemma spec_bounds m marks p :
  rates_ok m -> marks_ok marks ->
  0 <= spec_ntl m marks p /\ 0 <= spec_im m marks p <= spec_ntl m marks p /\ 0 <= spec_mm m marks p <= spec_ntl m marks p.
Proof.
  intros Hr Hm. unfold spec_ntl, spec_im, spec_mm, margined.
  destruct (params_of m (po_symbol_id p)) as [params|] eqn:Ep; cbn; [|lia].
  destruct (vget marks (po_symbol_id p)) as [mark|] eqn:Ev; cbn; [|lia].
  pose proof (params_rates _ _ _ Hr Ep) as [h1 h2]. pose proof (mark_bounds _ _ _ Hm Ev).
  assert (0 <= Z.abs (spec_net p) * mark) by nia.
  repeat split; try lia; try (apply Z.div_pos; nia); apply Z.div_le_upper_bound; nia.
Qed.

Lemma margin_step_exact m marks acc p b :
  rates_ok m -> marks_ok marks -> pos_fits p ->
  Z.abs (ma_upnl acc) <= b -> 0 <= ma_im acc <= b -> 0 <= ma_mm acc <= b -> 0 <= ma_gross acc <= b ->
  b + Z.abs (spec_upnl m marks p) + spec_ntl m marks p <= I64_MAX ->
  margin_step m marks acc p =
    Ok (acc_plus acc (mkAcc (spec_upnl m marks p) (spec_im m marks p) (spec_mm m marks p) (spec_ntl m marks p))).
Proof.
  intros Hr Hm Hf A1 A2 A3 A4 HB. pose proof (spec_bounds m marks p Hr Hm) as (B1 & B2 & B3).
  unfold margin_step, spec_upnl, spec_ntl, spec_im, spec_mm, margined, acc_plus in *.
  destruct (params_of m (po_symbol_id p)) as [params|] eqn:Ep; cbn in *; [|destruct acc; cbn; by rewrite !Z.add_0_r].
  pose proof (params_rates _ _ _ Hr Ep) as [h1 h2].
  destruct (vget marks (po_symbol_id p)) as [mark|] eqn:Ev; cbn in *.
  - pose proof (vget_some_range _ _ _ Ev). replace (_ >=? _) with false by lia. rewrite (vindex_some _ _ _ Ev). cbn [mbind Res_bind].
    pose proof (mark_bounds _ _ _ Hm Ev). rewrite upnl_exact by (done || lia). cbn [mbind Res_bind default].
    rewrite notional_exact by (done || lia). cbn [default]. unfold default, id.
    destruct (rate_exact (Z.abs (spec_net p) * mark) (sp_initial_margin_rate params)) as [-> _]; [lia|done|].
    destruct (rate_exact (Z.abs (spec_net p) * mark) (sp_maintenance_margin_rate params)) as [-> _]; [lia|done|].
    by rewrite !sat_i64_id by width_lia.
  - destruct (_ >=? _) eqn:E; [destruct acc; cbn; by rewrite !Z.add_0_r|]. destruct Hf as (_ & Hs & _).
    destruct (vget_is_some marks (po_symbol_id p)) as [x Hx]; [lia|]. congruence.
Qed.

Lemma margin_fold_exact m marks ps : forall acc b,
  rates_ok m -> marks_ok marks -> Forall pos_fits ps ->
  Z.abs (ma_upnl acc) <= b -> 0 <= ma_im acc <= b -> 0 <= ma_mm acc <= b -> 0 <= ma_gross acc <= b ->
  b + zsum (fun p => Z.abs (spec_upnl m marks p)) ps + zsum (spec_ntl m marks) ps <= I64_MAX ->
  rfold (margin_step m marks) acc ps = Ok (acc_plus acc (spec_acc m marks ps)).
Proof.
  induction ps as [|p ps IH]; intros acc b Hr Hm Hf A1 A2 A3 A4 HB.
  - cbn. unfold acc_plus. cbn. rewrite !Z.add_0_r. by destruct acc.
  - apply Forall_cons in Hf as [Hp Hf]. pose proof (spec_bounds m marks p Hr Hm) as (B1 & B2 & B3).
    assert (0 <= zsum (spec_ntl m marks) ps) by (apply zsum_nonneg; intros; by apply spec_bounds).
    assert (0 <= zsum (fun p => Z.abs (spec_upnl m marks p)) ps) by (apply zsum_nonneg; lia).
    cbn in HB. fold (zsum (spec_ntl m marks) ps) (zsum (fun p => Z.abs (spec_upnl m marks p)) ps) in HB.
    cbn [rfold]. rewrite (margin_step_exact m marks acc p b) by (done || lia). cbn [mbind Res_bind].
    rewrite (IH _ (b + Z.abs (spec_upnl m marks p) + spec_ntl m marks p)) by (done || (unfold acc_plus; cbn; lia)).
    unfold acc_plus, spec_acc. cbn. by rewrite !Z.add_assoc.
Qed.

(** The margin state in unbounded integers. *)
Definition spec_state m marks (collateral frozen : Z) (ps : list Position) : MarginState :=
  let a := spec_acc m marks ps in
  mkMarginState (collateral + ma_upnl a) (ma_upnl a) (ma_im a) (ma_mm a) (collateral + ma_upnl a - ma_im a - frozen) (ma_gross a).

Lemma spec_sums m marks ps :
  rates_ok m -> marks_ok marks ->
  Z.abs (zsum (spec_upnl m marks) ps) <= zsum (fun p => Z.abs (spec_upnl m marks p)) ps /\
  0 <= zsum (spec_im m marks) ps <= zsum (spec_ntl m marks) ps /\ 0 <= zsum (spec_mm m marks) ps <= zsum (spec_ntl m marks) ps.
Proof.
  intros Hr Hm. split; [induction ps as [|p ps IH]; [done | rewrite !zsum_cons; lia]|].
  repeat split; try (apply zsum_nonneg; intros; by apply spec_bounds); apply zsum_le; intros; by apply spec_bounds.
Qed.

Lemma calculate_exact m marks account ps frozen :
  rates_ok m -> marks_ok marks -> Forall pos_fits ps -> sums_fit m marks (ac_collateral account) frozen ps ->
  calculate m account ps marks frozen = Ok (spec_state m marks (ac_collateral account) frozen ps).
Proof.
  intros Hr Hm Hf HB. unfold sums_fit in HB. pose proof (spec_sums m marks ps Hr Hm) as (S1 & S2 & S3). unfold calculate.
  rewrite (margin_fold_exact m marks ps _ 0) by (done || (cbn [ma_upnl ma_im ma_mm ma_gross]; width_lia)).
  cbn [mbind Res_bind]. unfold spec_state, acc_plus, spec_acc. cbn [ma_upnl ma_im ma_mm ma_gross].
  rewrite !Z.add_0_l. rewrite (sat_i64_id (_ + _)) by width_lia. rewrite (sat_i64_id (_ + _ - _)) by width_lia.
  rewrite sat_i64_id by width_lia. done.
Qed.

Lemma sums_fit_perm m marks c f ps ps' : ps ≡ₚ ps' -> sums_fit m marks c f ps -> sums_fit m marks c f ps'.
Proof. intros Hp. unfold sums_fit. by rewrite !(zsum_perm _ _ _ Hp). Qed.

Lemma spec_state_perm m marks c f ps ps' : ps ≡ₚ ps' -> spec_state m marks c f ps = spec_state m marks c f ps'.
Proof. intros Hp. unfold spec_state, spec_acc. by rewrite !(zsum_perm _ _ _ Hp). Qed.

(** Portfolio margin is exact and does not depend on the order in which the
    hash index yields the user's positions: equity is collateral plus the sum
    of unrealised profits, initial and maintenance margin are the sums of the
    floored rates of each notional, available margin is equity less initial
    margin less frozen margin, with none of the saturating additions firing. *)
Theorem margin_state_exact m marks account ps ps' frozen :
  rates_ok m -> marks_ok marks -> Forall pos_fits ps -> sums_fit m marks (ac_collateral account) frozen ps -> ps ≡ₚ ps' ->
  calculate m account ps' marks frozen = Ok (spec_state m marks (ac_collateral account) frozen ps).
Proof.
  intros Hr Hm Hf HB Hp. rewrite (spec_state_perm _ _ _ _ _ _ Hp).
  apply calculate_exact; [done | done | by rewrite <- Hp | by apply (sums_fit_perm _ _ _ _ ps)].
Qed.

(** What the check decides, in unbounded integers. *)
Definition spec_reserve (params : SymbolRiskParams) (price qty fee_bps : Z) : Z :=
  price * qty * sp_initial_margin_rate params / 10000 + qty * price * fee_bps / 10000.

Definition spec_small (params : SymbolRiskParams) (o : OrderRequest) : Prop := or_price o * or_qty o < sp_min_notional params.

(** Within the leverage cap, and with margin for the reservation. *)
Definition spec_affords (params : SymbolRiskParams) (s : MarginState) (price qty fee_bps : Z) : Prop :=
  (0 < sp_max_leverage params -> 0 < ms_equity s /\ ms_gross_notional s + price * qty <= ms_equity s * sp_max_leverage params) /\
  spec_reserve params price qty fee_bps <= ms_available_margin s.

(** The order may stay in the book, and is not the whole position. *)
Definition spec_rests (o : OrderRequest) : Prop := or_tif o <> tif_u8 IOC /\ or_tif o <> tif_u8 FOK.
Definition spec_closes (ps : list Position) (o : OrderRequest) : Prop :=
  exists p, In p ps /\ po_symbol_id p = or_symbol_id o /\ Z.abs (spec_net p) = or_qty o.

(** The ruling on any order: what is reserved, or why it is refused. *)
Definition spec_ruling (m : PortfolioMargin) (ps : list Position) (s : MarginState) (o : OrderRequest) (fee_bps : Z) (r : RejectReason + Z) : Prop :=
  match r with
  | inl SymbolNotConfigured => or_is_liquidation o = false /\ params_of m (or_symbol_id o) = None
  | inl OrderTooSmall => or_is_liquidation o = false /\ exists params, params_of m (or_symbol_id o) = Some params /\ spec_small params o /\
      (or_reduce_only o = true -> spec_rests o /\ ~ spec_closes ps o)
  | inl InsufficientMargin => or_is_liquidation o = false /\ or_reduce_only o = false /\ exists params, params_of m (or_symbol_id o) = Some params /\
      ~ spec_small params o /\ ~ spec_affords params s (or_price o) (or_qty o) fee_bps
  | inl _ => False
  | inr x => (or_is_liquidation o = true /\ x = 0) \/
      (or_is_liquidation o = false /\ exists params, params_of m (or_symbol_id o) = Some params /\
        if or_reduce_only o then x = 0 /\ (spec_small params o -> spec_rests o -> spec_closes ps o)
        else ~ spec_small params o /\ spec_affords params s (or_price o) (or_qty o) fee_bps /\
          x = spec_reserve params (or_price o) (or_qty o) fee_bps /\ 0 <= x)
  end.

Lemma fee_exact price qty fee_bps :
  0 < price -> 0 < qty -> 0 <= fee_bps <= 10000 -> price * qty <= I64_MAX ->
  calculate_fee qty price fee_bps = qty * price * fee_bps / 10000 /\ 0 <= qty * price * fee_bps / 10000 <= price * qty.
Proof.
  intros Hp Hq Hf Hn.
  assert (0 <= qty * price * fee_bps / 10000 <= price * qty) by (split; [apply Z.div_pos; nia | apply Z.div_le_upper_bound; nia]).
  rewrite calculate_fee_spec; [|unfold fee_fits; width_unfold; nia]. by rewrite sat_i64_id by width_lia.
Qed.

Lemma reserve_exact params price qty fee_bps :
  0 <= sp_initial_margin_rate params <= 10000 -> 0 < price -> 0 < qty -> 0 <= fee_bps <= 10000 -> 2 * (price * qty) <= I64_MAX ->
  calculate_margin_needed params price qty fee_bps = spec_reserve params price qty fee_bps /\
  0 <= spec_reserve params price qty fee_bps <= 2 * (price * qty).
Proof.
  intros Hr Hp Hq Hf Hn. assert (0 < price * qty) by nia. unfold calculate_margin_needed, spec_reserve.
  rewrite try_i64_some by width_lia. cbn [default]. unfold default, id.
  destruct (rate_exact (price * qty) (sp_initial_margin_rate params)) as [-> Hb]; [lia|done|].
  destruct (fee_exact price qty fee_bps) as [-> Hc]; [done|done|done|lia|]. rewrite sat_i64_id by width_lia. lia.
Qed.

Lemma spec_ntl_sum_nonneg m marks ps : rates_ok m -> marks_ok marks -> 0 <= zsum (spec_ntl m marks) ps.
Proof. intros. apply zsum_nonneg. intros. by apply spec_bounds. Qed.

(** The leverage cap, with its saturations, is the comparison of integers. *)
Lemma leverage_cap_exact equity gross ntl lev :
  0 <= gross -> 0 < ntl -> gross + ntl <= I64_MAX -> I64_MIN <= equity <= I64_MAX ->
  ((lev >? 0) && ((equity <=? 0) || (sat_i64 (gross + ntl) >? Z.max (sat_i64 (equity * lev)) 0)))%bool = true <->
  ~ (0 < lev -> 0 < equity /\ gross + ntl <= equity * lev).
Proof.
  intros Hg Hn Hb He. rewrite (sat_i64_id (gross + ntl)) by width_lia. unfold sat_i64, clamp.
  destruct (lev >? 0) eqn:El; bool_to_prop; cbn [andb]; [|split; [done | intros H; exfalso; apply H; lia]].
  destruct (equity <=? 0) eqn:Ee; bool_to_prop; cbn [orb]; [split; [intros _ H; lia | done]|].
  assert (0 < equity * lev) by nia. split.
  - intros H1 H2. specialize (H2 ltac:(lia)). width_lia.
  - intros H1. apply not_false_is_true. intros Eg. apply H1. intros _. width_lia.
Qed.

(** The tests on an order that opens exposure, in unbounded integers. *)
Lemma opening_exact m marks account ps frozen o params fee_bps :
  rates_ok m -> marks_ok marks -> sums_fit m marks (ac_collateral account) frozen ps -> params_of m (or_symbol_id o) = Some params ->
  0 < or_price o -> 0 < or_qty o -> 0 <= fee_bps <= 10000 -> zsum (spec_ntl m marks) ps + 2 * (or_price o * or_qty o) <= I64_MAX ->
  let s := spec_state m marks (ac_collateral account) frozen ps in
  let ntl := or_price o * or_qty o in
  (((sp_max_leverage params >? 0) && ((ms_equity s <=? 0) || (sat_i64 (ms_gross_notional s + ntl) >? Z.max (sat_i64 (ms_equity s * sp_max_leverage params)) 0)))%bool = true <->
     ~ (0 < sp_max_leverage params -> 0 < ms_equity s /\ ms_gross_notional s + ntl <= ms_equity s * sp_max_leverage params)) /\
  calculate_margin_needed params (or_price o) (or_qty o) fee_bps = spec_reserve params (or_price o) (or_qty o) fee_bps /\
  0 <= spec_reserve params (or_price o) (or_qty o) fee_bps /\ 0 < ntl <= I64_MAX.
Proof.
  intros Hr Hm HB Hp Hpx Hq Hfee Hn s ntl. assert (0 < ntl) by (unfold ntl; nia). pose proof (spec_ntl_sum_nonneg m marks ps Hr Hm).
  destruct (params_rates _ _ _ Hr Hp) as [Him _].
  destruct (reserve_exact params (or_price o) (or_qty o) fee_bps) as [Er Hres]; [done|done|done|done|lia|].
  pose proof (spec_sums m marks ps Hr Hm) as (S1 & _). unfold sums_fit in HB. fold ntl in Hn.
  split; [apply leverage_cap_exact; [cbn; lia|done|cbn [s spec_state ms_gross_notional ma_gross spec_acc]; lia|cbn [s spec_state ms_equity ma_upnl spec_acc]; width_lia]|].
  split; [exact Er|]. split; [apply Hres|]. lia.
Qed.

(** The specification rules one way. *)
Lemma ruling_unique m ps s o fee_bps r r' : spec_ruling m ps s o fee_bps r -> spec_ruling m ps s o fee_bps r' -> r = r'.
Proof.
  unfold spec_ruling. destruct (or_reduce_only o) eqn:E; intros H1 H2; destruct r as [[]|x], r' as [[]|x']; try done;
    repeat match goal with
    | H : _ /\ _ |- _ => destruct H
    | H : exists _, _ |- _ => destruct H
    | H : _ \/ _ |- _ => destruct H
    | H1 : ?x = Some ?a, H2 : ?x = Some ?b |- _ => rewrite H1 in H2; injection H2 as <-
    end; first [done | congruence | exfalso; tauto].
Qed.

Lemma rests_spec o : rests o = true <-> spec_rests o.
Proof. unfold rests, spec_rests. rewrite andb_true_iff, !negb_true_iff, !Z.eqb_neq. done. Qed.

Lemma closes_spec ps o : Forall pos_fits ps -> closes_whole_position ps o = true <-> spec_closes ps o.
Proof.
  intros Hf. unfold closes_whole_position, spec_closes. rewrite existsb_exists. rewrite List.Forall_forall in Hf.
  split; intros (p & Hp & E); exists p; (split; [done|]); rewrite andb_true_iff, !Z.eqb_eq, (pos_net_exact p (Hf p Hp)) in *; done.
Qed.

(** C26: The pre-trade check decides exactly what it promises, for every order
    with a price and a quantity, while the sums fit.  A liquidation passes and
    reserves nothing; an order on a symbol without parameters is refused for
    that; an order below the minimum notional is refused as too small, except
    a reduce-only order that cannot rest or closes its whole position; any
    other reduce-only order passes and reserves nothing; an order that opens
    exposure is refused for its margin when the portfolio with it would exceed
    the leverage cap or its reservation the available margin, and otherwise
    reserves exactly the floored initial margin plus the taker fee. *)
Theorem check_order_exact m marks account ps frozen o fee_bps :
  rates_ok m -> marks_ok marks -> Forall pos_fits ps -> sums_fit m marks (ac_collateral account) frozen ps ->
  0 < or_price o -> 0 < or_qty o -> 0 <= fee_bps <= 10000 ->
  zsum (spec_ntl m marks) ps + 2 * (or_price o * or_qty o) <= I64_MAX ->
  exists r, check_order m account ps o marks fee_bps frozen = Ok r /\
    forall r', spec_ruling m ps (spec_state m marks (ac_collateral account) frozen ps) o fee_bps r' <-> r' = r.
Proof.
  intros Hr Hm Hf HB Hpx Hq Hfee Hn. set (s := spec_state _ _ _ _ _).
  enough (exists r, check_order m account ps o marks fee_bps frozen = Ok r /\ spec_ruling m ps s o fee_bps r) as (r & E & Hs).
  { exists r. split; [done|]. intros r'. split; [intros Hs'; by apply (ruling_unique m ps s o fee_bps)|by intros ->]. }
  unfold check_order. destruct (or_is_liquidation o) eqn:El; [eexists; split; [done|]; by left|].
  destruct (params_of m (or_symbol_id o)) as [params|] eqn:Ep; [|eexists; split; [done|]; done].
  destruct (or_reduce_only o) eqn:Ero.
  - pose proof (rests_spec o) as H1. pose proof (closes_spec ps o Hf) as H2. unfold spec_ruling, spec_small.
    destruct (_ <? sp_min_notional params) eqn:Emin, (rests o), (closes_whole_position ps o); bool_to_prop; cbn [andb negb]; eexists; (split; [reflexivity|]); cbn;
      rewrite ?El, ?Ep, ?Ero; first [right; split; [done|]; exists params; split; [done|]; split; [done|]; intros; first [lia | by apply H2 | by destruct H1 as [_ H1]; discriminate H1]
        | split; [done|]; exists params; split; [done|]; split; [done|]; intros _; split; [by apply H1|by intros E%H2]].
  - destruct (_ <? sp_min_notional params) eqn:Emin; bool_to_prop.
    { eexists. split; [done|]. cbn. rewrite El, Ero. split; [done|]. exists params. by split. }
    rewrite (calculate_exact m marks account ps frozen Hr Hm Hf HB). cbn [mbind Res_bind].
    destruct (opening_exact m marks account ps frozen o params fee_bps Hr Hm HB Ep Hpx Hq Hfee Hn) as (Hcap & Er & Hres).
    fold s in Hcap |- *. rewrite try_i64_some by width_lia. unfold default, id. rewrite Er.
    destruct ((_ >? 0) && _) eqn:Ec.
    { eexists. split; [done|]. cbn. rewrite El, Ero. split; [done|]. split; [done|]. exists params. split; [done|].
      split; [unfold spec_small; lia|]. intros [Hx _]. by apply Hcap in Hx. }
    assert (0 < sp_max_leverage params -> 0 < ms_equity s /\ ms_gross_notional s + or_price o * or_qty o <= ms_equity s * sp_max_leverage params) as Hlev.
    { destruct (decide (0 < sp_max_leverage params)); [|lia]. intros _.
      destruct (decide (0 < ms_equity s /\ ms_gross_notional s + or_price o * or_qty o <= ms_equity s * sp_max_leverage params)); [done|].
      exfalso. enough (false = true) by done. apply Hcap. tauto. }
    destruct (ms_available_margin s <? _) eqn:Ea; bool_to_prop; (eexists; split; [done|]); cbn; rewrite El, Ero.
    + split; [done|]. split; [done|]. exists params. split; [done|]. split; [unfold spec_small; lia|]. intros [_ Hx]. lia.
    + right. split; [done|]. exists params. split; [done|]. split; [unfold spec_small; lia|]. split; [split; [done|lia]|]. split; [done|lia].
Qed.

(** ** The exposure index as a set *)

Lemma ex_contains_spec u us : ex_contains u us = true <-> In u us.
Proof.
  unfold ex_contains. rewrite existsb_exists. split; [by intros (x & Hx & ->%Z.eqb_eq)|]. intros H. exists u. by rewrite Z.eqb_refl.
Qed.

Lemma ex_add_spec u us : (forall v, In v (ex_add u us) <-> v = u \/ In v us) /\ (NoDup us -> NoDup (ex_add u us)).
Proof.
  unfold ex_add. destruct (ex_contains u us) eqn:E.
  - apply ex_contains_spec in E. split; [|done]. intros v. split; [tauto|]. by intros [->|].
  - assert (~ In u us) by (by rewrite <- ex_contains_spec, E). split.
    + intros v. rewrite in_app_iff. cbn. intuition.
    + intros Hn. apply NoDup_app. split; [done|]. split; [|apply NoDup_singleton].
      intros x Hx%list_elem_of_In Hy%list_elem_of_singleton. by subst.
Qed.

Lemma ex_remove_spec u us : (forall v, In v (ex_remove u us) <-> v <> u /\ In v us) /\ (NoDup us -> NoDup (ex_remove u us)).
Proof.
  unfold ex_remove. split.
  - intros v. rewrite filter_In, negb_true_iff, Z.eqb_neq. tauto.
  - intros Hn. rewrite NoDup_ListNoDup in *. by apply List.NoDup_filter.
Qed.

(** ** A worked portfolio *)

Module Demo.

Definition params : SymbolRiskParams := mkRiskParams 1000 500 10 100.
Definition m : PortfolioMargin := [Some params; None; Some (mkRiskParams 2000 1000 5 100)].
Definition marks : list Z := [105; 7; 2000].
Definition account : Account := mkAccount 7 10000 0.
Definition positions : list Position := [mkPosition 7 0 5 0 500 0 0 1 1; mkPosition 7 2 0 3 0 6100 0 2 1].
Definition order : OrderRequest := mkOrderRequest 0 7 0 100 20 1 2 0 0 0 false false false.

Lemma rates : rates_ok m.
Proof. repeat constructor; vm_compute; discriminate. Qed.
Lemma prices : marks_ok marks.
Proof. repeat constructor; vm_compute; discriminate. Qed.
Lemma fits : Forall pos_fits positions.
Proof.
  unfold positions. repeat apply Forall_cons_2; [..|apply Forall_nil_2]; (split; [split; cbn; lia | cbn; width_lia]).
Qed.
Lemma sums : sums_fit m marks (ac_collateral account) 250 positions.
Proof. vm_compute. discriminate. Qed.

End Demo.

Lemma margin_state_exact_witness :
  calculate Demo.m Demo.account (rev Demo.positions) Demo.marks 250 = Ok (mkMarginState 10124 124 1252 626 8622 6525).
Proof.
  exact (margin_state_exact Demo.m Demo.marks Demo.account Demo.positions (rev Demo.positions) 250
    Demo.rates Demo.prices Demo.fits Demo.sums (Permutation_rev _)).
Defined.

Lemma check_order_exact_witness :
  exists r, check_order Demo.m Demo.account Demo.positions Demo.order Demo.marks 5 250 = Ok r /\
    forall r', spec_ruling Demo.m Demo.positions (spec_state Demo.m Demo.marks 10000 250 Demo.positions) Demo.order 5 r' <-> r' = r.
Proof.
  apply (check_order_exact Demo.m Demo.marks Demo.account Demo.positions 250 Demo.order 5
    Demo.rates Demo.prices Demo.fits Demo.sums); try reflexivity; try (vm_compute; discriminate). lia.
Defined.
