(* ===== verification/Admission.v ===== *)
(** * Admission: the parts of the gateway [rsx-gateway/src]

    [order_id.rs], [convert.rs], [rate_limit.rs], [circuit.rs],
    [client_ids.rs] and [pending.rs], each whole.  An order id and a client
    order id are byte strings; an instant is a number of nanoseconds. *)

From S2P Require Import Prelude Hash Types Frames Messages Dedup.

(** ** Order ids [order_id.rs] *)

Definition from_be (bs : list Z) : Z := of_le (rev bs).
Definition to_be (n : nat) (x : Z) : list Z := rev (le_bytes n x).

Definition HEX_DIGITS : list Z := [48; 49; 50; 51; 52; 53; 54; 55; 56; 57; 97; 98; 99; 100; 101; 102].

Definition split_order_id (id : list Z) : Z * Z :=
  let value := from_be id in (wrap_u64 (Z.shiftr value 64), wrap_u64 value).

Definition join_order_id (hi lo : Z) : list Z := to_be 16 (Z.lor (Z.shiftl hi 64) lo).

Definition order_id_to_hex (id : list Z) : list Z :=
  flat_map (fun byte => [nth (Z.to_nat (Z.shiftr byte 4)) HEX_DIGITS 0; nth (Z.to_nat (Z.land byte 15)) HEX_DIGITS 0]) id.

(** [char::to_digit(16)] *)
Definition to_digit_16 (c : Z) : option Z :=
  if (48 <=? c) && (c <=? 57) then Some (c - 48)
  else if (97 <=? c) && (c <=? 102) then Some (c - 87)
  else if (65 <=? c) && (c <=? 70) then Some (c - 55)
  else None.

(** One byte for every two digits. *)
Fixpoint hex_bytes (digits : list Z) : option (list Z) :=
  match digits with
  | high :: low :: digits =>
      match to_digit_16 high, to_digit_16 low, hex_bytes digits with
      | Some high, Some low, Some id => Some (Z.lor (Z.shiftl high 4) low :: id)
      | _, _, _ => None
      end
  | _ => Some []
  end.

Definition hex_to_order_id (hex : list Z) : option (list Z) := if (length hex =? 32)%nat then hex_bytes hex else None.

Definition order_id_timestamp_ms (id : list Z) : Z := from_be ([0; 0] ++ take 6 id).

(** ** Alignment [convert.rs] *)

Definition validate_tick_alignment (price tick_size : Z) : Res bool :=
  if price >? 0 then r ← rem_i64 price tick_size; Ok (r =? 0) else Ok false.

Definition validate_lot_alignment (qty lot_size : Z) : Res bool :=
  if qty >? 0 then r ← rem_i64 qty lot_size; Ok (r =? 0) else Ok false.

(** ** Rate limits [rate_limit.rs] *)

Definition MICROS_PER_SEC : Z := 1000000.

Record RateLimiter : Type := mkLimiter { rl_tokens : Z; rl_capacity : Z; rl_refill_rate : Z; rl_last_refill : Z }.

Definition RateLimiter_new (now capacity refill_rate : Z) : RateLimiter :=
  let cap_micros := wrap_i64 (capacity * MICROS_PER_SEC) in mkLimiter cap_micros cap_micros refill_rate now.

(** [Duration::as_micros() as i64] *)
Definition as_micros (d : Z) : Z := wrap_i64 (d / 1000).

Definition refill (now : Z) (l : RateLimiter) : RateLimiter :=
  let elapsed_micros := as_micros (duration_since now (rl_last_refill l)) in
  let refill_amount := sat_i64 (elapsed_micros * rl_refill_rate l) in
  mkLimiter (Z.min (sat_i64 (rl_tokens l + refill_amount)) (rl_capacity l)) (rl_capacity l) (rl_refill_rate l) now.

Definition try_consume (now : Z) (l : RateLimiter) : bool * RateLimiter :=
  let l := refill now l in
  if rl_tokens l >=? MICROS_PER_SEC
  then (true, mkLimiter (wrap_i64 (rl_tokens l - MICROS_PER_SEC)) (rl_capacity l) (rl_refill_rate l) (rl_last_refill l))
  else (false, l).

Definition tokens_remaining (l : RateLimiter) : Z := Z.quot (rl_tokens l) MICROS_PER_SEC.

Definition advance_time_by (duration : Z) (l : RateLimiter) : RateLimiter :=
  let refill_amount := sat_i64 (as_micros duration * rl_refill_rate l) in
  mkLimiter (Z.min (sat_i64 (rl_tokens l + refill_amount)) (rl_capacity l)) (rl_capacity l) (rl_refill_rate l) (rl_last_refill l + duration).

Definition per_user (now : Z) : RateLimiter := RateLimiter_new now 10 10.
Definition per_ip (now : Z) : RateLimiter := RateLimiter_new now 100 100.

(** ** The circuit breaker [circuit.rs] *)

Inductive State : Type := Closed | Open | HalfOpen.
#[export] Instance State_eq_dec : EqDecision State.
Proof. solve_decision. Defined.

Record CircuitBreaker : Type := mkBreaker {
  cb_state : State;
  cb_failure_count : Z;
  cb_threshold : Z;
  cb_cooldown : Z;
  cb_last_failure : option Z;
  cb_half_open_used : bool;
}.

Definition CircuitBreaker_new (threshold cooldown : Z) : CircuitBreaker := mkBreaker Closed 0 threshold cooldown None false.

Definition cb_with (state : State) (used : bool) (cb : CircuitBreaker) : CircuitBreaker :=
  mkBreaker state (cb_failure_count cb) (cb_threshold cb) (cb_cooldown cb) (cb_last_failure cb) used.

(** [last.elapsed() >= self.cooldown] *)
Definition cooled (now last : Z) (cb : CircuitBreaker) : bool := duration_since now last >=? cb_cooldown cb.

(** [allow] of a half-open breaker: one probe. *)
Definition allow_probe (cb : CircuitBreaker) : bool * CircuitBreaker :=
  if negb (cb_half_open_used cb) then (true, cb_with HalfOpen true cb) else (false, cb).

Definition allow (now : Z) (cb : CircuitBreaker) : bool * CircuitBreaker :=
  match cb_state cb with
  | Closed => (true, cb)
  | Open =>
      match cb_last_failure cb with
      | Some last => if cooled now last cb then allow_probe (cb_with HalfOpen false cb) else (false, cb)
      | None => (false, cb)
      end
  | HalfOpen => allow_probe cb
  end.

Definition record_success (cb : CircuitBreaker) : CircuitBreaker :=
  match cb_state cb with
  | HalfOpen => mkBreaker Closed 0 (cb_threshold cb) (cb_cooldown cb) (cb_last_failure cb) false
  | Closed => mkBreaker Closed 0 (cb_threshold cb) (cb_cooldown cb) (cb_last_failure cb) (cb_half_open_used cb)
  | Open => cb
  end.

Definition record_failure (now : Z) (cb : CircuitBreaker) : CircuitBreaker :=
  let cb := mkBreaker (cb_state cb) (wrap_u32 (cb_failure_count cb + 1)) (cb_threshold cb) (cb_cooldown cb) (Some now) (cb_half_open_used cb) in
  match cb_state cb with
  | Closed => if cb_failure_count cb >=? cb_threshold cb then cb_with Open (cb_half_open_used cb) cb else cb
  | HalfOpen => cb_with Open false cb
  | Open => cb
  end.

Definition circuit_state (now : Z) (cb : CircuitBreaker) : State :=
  let cooled := match cb_last_failure cb with Some last => cooled now last cb | None => false end in
  if bool_decide (cb_state cb = Open) && cooled then HalfOpen else cb_state cb.

(** ** Client order ids [client_ids.rs] *)

Definition WINDOW_NS : Z := 3600000000000.

Definition Key : Type := (Z * list Z)%type.

Record Binding : Type := mkBinding { bi_order_id : list Z; bi_bound_ns : Z }.
Record ClientOrderIds : Type := mkClientIds { ci_bindings : gmap Key Binding; ci_inserted : list (Z * Key) }.

Definition ClientOrderIds_default : ClientOrderIds := mkClientIds ∅ [].

Definition cid_get (user_id : Z) (cid : list Z) (c : ClientOrderIds) : option (list Z) := bi_order_id <$> ci_bindings c !! (user_id, cid).

Definition cid_insert (user_id : Z) (cid order_id : list Z) (now_ns : Z) (c : ClientOrderIds) : ClientOrderIds :=
  let key := (user_id, cid) in mkClientIds (<[key := mkBinding order_id now_ns]> (ci_bindings c)) (ci_inserted c ++ [(now_ns, key)]).

(** [if bindings.get(&key).is_some_and(p) { bindings.remove(&key); }] *)
Definition remove_if (p : Binding -> bool) (key : Key) (bindings : gmap Key Binding) : gmap Key Binding :=
  match bindings !! key with Some b => if p b then delete key bindings else bindings | None => bindings end.

Definition cid_release (user_id : Z) (cid order_id : list Z) (c : ClientOrderIds) : ClientOrderIds :=
  mkClientIds (remove_if (fun b => bool_decide (bi_order_id b = order_id)) (user_id, cid) (ci_bindings c)) (ci_inserted c).

Fixpoint expire_loop (cutoff : Z) (inserted : list (Z * Key)) (bindings : gmap Key Binding) : ClientOrderIds :=
  match inserted with
  | [] => mkClientIds bindings []
  | (bound_ns, key) :: rest =>
      if bound_ns >=? cutoff then mkClientIds bindings inserted
      else expire_loop cutoff rest (remove_if (fun b => bi_bound_ns b =? bound_ns) key bindings)
  end.

Definition cid_expire (now_ns : Z) (c : ClientOrderIds) : ClientOrderIds :=
  expire_loop (sat_u64 (now_ns - WINDOW_NS)) (ci_inserted c) (ci_bindings c).

(** ** Pending orders [pending.rs] *)

Inductive PendingStage : Type := Submitted | Resting | TimedOut.
#[export] Instance PendingStage_eq_dec : EqDecision PendingStage.
Proof. solve_decision. Defined.

Record PendingOrder : Type := mkPending {
  po_order_id : list Z;
  po_user_id : Z;
  po_symbol_id : Z;
  po_client_order_id : list Z;
  po_timestamp_ns : Z;
  po_stage : PendingStage;
}.

Definition po_with_stage (s : PendingStage) (o : PendingOrder) : PendingOrder :=
  mkPending (po_order_id o) (po_user_id o) (po_symbol_id o) (po_client_order_id o) (po_timestamp_ns o) s.

Record PendingOrders : Type := mkPendings {
  pd_by_user : gmap Z (list PendingOrder);
  pd_count : Z;
  pd_in_flight : Z;
  pd_timed_out : Z;
  pd_capacity : Z;
}.

Definition PendingOrders_new (capacity : Z) : PendingOrders := mkPendings ∅ 0 0 0 capacity.

Definition pd_with_users (m : gmap Z (list PendingOrder)) (p : PendingOrders) : PendingOrders :=
  mkPendings m (pd_count p) (pd_in_flight p) (pd_timed_out p) (pd_capacity p).
Definition pd_with_count (n : Z) (p : PendingOrders) : PendingOrders :=
  mkPendings (pd_by_user p) n (pd_in_flight p) (pd_timed_out p) (pd_capacity p).

Definition pd_is_full (p : PendingOrders) : bool := pd_in_flight p >=? pd_capacity p.

Definition enter (stage : PendingStage) (p : PendingOrders) : PendingOrders :=
  match stage with
  | Submitted => mkPendings (pd_by_user p) (pd_count p) (wrap_u64 (pd_in_flight p + 1)) (pd_timed_out p) (pd_capacity p)
  | TimedOut => mkPendings (pd_by_user p) (pd_count p) (pd_in_flight p) (wrap_u64 (pd_timed_out p + 1)) (pd_capacity p)
  | Resting => p
  end.
Definition pd_leave (stage : PendingStage) (p : PendingOrders) : PendingOrders :=
  match stage with
  | Submitted => mkPendings (pd_by_user p) (pd_count p) (wrap_u64 (pd_in_flight p - 1)) (pd_timed_out p) (pd_capacity p)
  | TimedOut => mkPendings (pd_by_user p) (pd_count p) (pd_in_flight p) (wrap_u64 (pd_timed_out p - 1)) (pd_capacity p)
  | Resting => p
  end.

Definition pd_push (order : PendingOrder) (p : PendingOrders) : bool * PendingOrders :=
  if bool_decide (po_stage order = Submitted) && pd_is_full p then (false, p)
  else
    let p := enter (po_stage order) (pd_with_count (wrap_u64 (pd_count p + 1)) p) in
    (true, pd_with_users (<[po_user_id order := default [] (pd_by_user p !! po_user_id order) ++ [order]]> (pd_by_user p)) p).

(** [iter().rposition(..)] *)
Fixpoint rposition {A : Type} (f : A -> bool) (l : list A) : option nat :=
  match l with
  | [] => None
  | x :: l => match rposition f l with Some i => Some (S i) | None => if f x then Some 0%nat else None end
  end.

Definition is_order (order_id : list Z) (o : PendingOrder) : bool := bool_decide (po_order_id o = order_id).

(** Where an order is: the queue of [user_id] first, then every other. *)
Definition locate `{HashIter} (user_id : Z) (order_id : list Z) (p : PendingOrders) : option (Z * nat) :=
  match pd_by_user p !! user_id ≫= rposition (is_order order_id) with
  | Some i => Some (user_id, i)
  | None =>
      head (omap (fun kq : Z * list PendingOrder => (fun i => (kq.1, i)) <$> rposition (is_order order_id) kq.2) (iter_map (pd_by_user p)))
  end.

Definition pd_order (at_ : Z * nat) (p : PendingOrders) : option PendingOrder := pd_by_user p !! at_.1 ≫= fun queue => queue !! at_.2.

Definition pd_remove `{HashIter} (user_id : Z) (order_id : list Z) (p : PendingOrders) : option PendingOrder * PendingOrders :=
  match locate user_id order_id p with
  | Some (u, i) =>
      match pd_order (u, i) p with
      | Some order =>
          let p := pd_with_users (alter (fun queue => delete i queue) u (pd_by_user p)) p in
          (Some order, pd_leave (po_stage order) (pd_with_count (wrap_u64 (pd_count p - 1)) p))
      | None => (None, p)
      end
  | None => (None, p)
  end.

Definition mark_resting `{HashIter} (user_id : Z) (order_id : list Z) (p : PendingOrders) : bool * PendingOrders :=
  match locate user_id order_id p with
  | Some (u, i) =>
      match pd_order (u, i) p with
      | Some order =>
          (true, pd_leave (po_stage order) (pd_with_users (alter (alter (po_with_stage Resting) i) u (pd_by_user p)) p))
      | None => (false, p)
      end
  | None => (false, p)
  end.

Definition pd_resting (p : PendingOrders) : Z := wrap_u64 (wrap_u64 (pd_count p - pd_in_flight p) - pd_timed_out p).

Definition find_by_order_id (user_id : Z) (order_id : list Z) (p : PendingOrders) : option PendingOrder :=
  pd_by_user p !! user_id ≫= List.find (is_order order_id).

Definition find_by_client_order_id (user_id : Z) (cid : list Z) (p : PendingOrders) : option PendingOrder :=
  pd_by_user p !! user_id ≫= List.find (fun o => bool_decide (po_client_order_id o = cid)).

Definition is_stale (cutoff_ns : Z) (o : PendingOrder) : bool := bool_decide (po_stage o = Submitted) && (po_timestamp_ns o <? cutoff_ns).
Definition time_one (cutoff_ns : Z) (o : PendingOrder) : PendingOrder := if is_stale cutoff_ns o then po_with_stage TimedOut o else o.

Definition time_out `{HashIter} (cutoff_ns : Z) (p : PendingOrders) : list PendingOrder * PendingOrders :=
  let stale := map (po_with_stage TimedOut) (List.filter (is_stale cutoff_ns) (flat_map snd (iter_map (pd_by_user p)))) in
  (stale, mkPendings (map (time_one cutoff_ns) <$> pd_by_user p) (pd_count p) (wrap_u64 (pd_in_flight p - zlen stale))
            (wrap_u64 (pd_timed_out p + zlen stale)) (pd_capacity p)).

Definition keeps (cutoff_ns : Z) (o : PendingOrder) : bool := negb (bool_decide (po_stage o = TimedOut)) || (po_timestamp_ns o >=? cutoff_ns).

Definition drop_timed_out `{HashIter} (cutoff_ns : Z) (p : PendingOrders) : PendingOrders :=
  let dropped := fold_left (fun n (kq : Z * list PendingOrder) => n + (zlen kq.2 - zlen (List.filter (keeps cutoff_ns) kq.2))) (iter_map (pd_by_user p)) 0 in
  mkPendings (filter (fun kq => kq.2 <> []) (List.filter (keeps cutoff_ns) <$> pd_by_user p)) (wrap_u64 (pd_count p - dropped)) (pd_in_flight p)
    (wrap_u64 (pd_timed_out p - dropped)) (pd_capacity p).

(** ** Order ids read back *)

Lemma le_bytes_of_le bs : Forall is_byte bs -> le_bytes (length bs) (of_le bs) = bs.
Proof.
  induction 1 as [|b bs Hb _ IH]; [done|]. cbn [length le_bytes of_le]. unfold is_byte in Hb.
  replace (b + 256 * of_le bs) with (b + of_le bs * 256) by lia.
  rewrite Z.mod_add, Z.div_add, Z.mod_small, Z.div_small by lia. by rewrite Z.add_0_l, IH.
Qed.

Lemma from_be_range id : length id = 16%nat -> Forall is_byte id -> 0 <= from_be id < 2 ^ 128.
Proof.
  intros Hl Hb. pose proof (of_le_range (rev id) ltac:(by apply Forall_rev)) as Hr. unfold zlen in Hr. rewrite length_rev, Hl in Hr. exact Hr.
Qed.

Lemma to_from_be id : length id = 16%nat -> Forall is_byte id -> to_be 16 (from_be id) = id.
Proof.
  intros Hl Hb. unfold to_be, from_be. rewrite <- Hl, <- length_rev, le_bytes_of_le by (by apply Forall_rev). apply rev_involutive.
Qed.

Lemma from_to_be x : 0 <= x < 2 ^ 128 -> from_be (to_be 16 x) = x.
Proof. intros Hx. unfold from_be, to_be. rewrite rev_involutive, of_le_bytes. by apply Z.mod_small. Qed.

Lemma lor_low hi lo n : 0 <= n -> 0 <= lo < 2 ^ n -> Z.lor (Z.shiftl hi n) lo = hi * 2 ^ n + lo.
Proof.
  intros Hn Hl. assert (Z.land (Z.shiftl hi n) lo = 0) as Hd.
  { apply Z.bits_inj'. intros k Hk. rewrite Z.land_spec, Z.bits_0, Z.shiftl_spec by done. destruct (Z.ltb_spec k n).
    - by rewrite Z.testbit_neg_r by lia.
    - rewrite <- (Z.mod_small lo (2 ^ n)), Z.mod_pow2_bits_high by lia. apply andb_false_r. }
  rewrite <- Z.lxor_lor, <- Z.add_nocarry_lxor, Z.shiftl_mul_pow2 by done. done.
Qed.

Lemma join_value hi lo : in_u64 hi -> in_u64 lo -> from_be (join_order_id hi lo) = hi * 2 ^ 64 + lo.
Proof.
  intros Hh Hl. unfold join_order_id. width_unfold. rewrite lor_low by lia. apply from_to_be. lia.
Qed.

Lemma split_value id : 0 <= from_be id < 2 ^ 128 -> split_order_id id = (from_be id / 2 ^ 64, from_be id mod 2 ^ 64).
Proof.
  intros Hr. unfold split_order_id. width_unfold. rewrite Z.shiftr_div_pow2 by lia. f_equal. apply Z.mod_small. split; [apply Z.div_pos; lia|].
  apply Z.div_lt_upper_bound; lia.
Qed.

Lemma join_split hi lo : in_u64 hi -> in_u64 lo -> split_order_id (join_order_id hi lo) = (hi, lo).
Proof.
  intros Hh Hl. pose proof (join_value hi lo Hh Hl) as E. width_unfold. rewrite split_value by (rewrite E; lia). rewrite E.
  f_equal; [rewrite Z.div_add_l, Z.div_small by lia; lia|]. rewrite Z.add_comm, Z.mod_add, Z.mod_small by lia. done.
Qed.

Lemma split_join id : length id = 16%nat -> Forall is_byte id -> join_order_id (split_order_id id).1 (split_order_id id).2 = id.
Proof.
  intros Hl Hb. pose proof (from_be_range id Hl Hb) as Hr. rewrite split_value by done. cbn [fst snd]. unfold join_order_id.
  rewrite lor_low by (pose proof (Z.mod_pos_bound (from_be id) (2 ^ 64)); lia).
  rewrite Z.mul_comm, <- Z.div_mod by lia. by apply to_from_be.
Qed.

Lemma join_bytes hi lo : length (join_order_id hi lo) = 16%nat /\ Forall is_byte (join_order_id hi lo).
Proof. unfold join_order_id, to_be. rewrite length_rev, le_bytes_length. split; [done|]. apply Forall_rev, le_bytes_bytes. Qed.

(** The digits of every byte, checked one by one. *)
Definition digits_ok (b : Z) : bool :=
  match order_id_to_hex [b] with
  | [h; l] => match to_digit_16 h, to_digit_16 l with Some x, Some y => Z.lor (Z.shiftl x 4) y =? b | _, _ => false end
  | _ => false
  end.

Lemma digits_all : forallb digits_ok (zrange 0 256) = true.
Proof. vm_compute. reflexivity. Qed.

Lemma hex_byte b id : is_byte b -> hex_bytes (order_id_to_hex (b :: id)) = cons b <$> hex_bytes (order_id_to_hex id).
Proof.
  intros Hb. pose proof digits_all as Ha. rewrite forallb_forall in Ha. specialize (Ha b). unfold digits_ok in Ha.
  cbn [order_id_to_hex flat_map app hex_bytes] in *. destruct (to_digit_16 _) as [x|]; [|discriminate Ha; by apply in_zrange].
  destruct (to_digit_16 _) as [y|]; [|discriminate Ha; by apply in_zrange].
  assert (Z.lor (Z.shiftl x 4) y = b) as -> by (apply Z.eqb_eq, Ha, in_zrange, Hb).
  by destruct (hex_bytes _).
Qed.

Lemma hex_back id : Forall is_byte id -> hex_bytes (order_id_to_hex id) = Some id.
Proof. induction 1 as [|b id Hb _ IH]; [done|]. by rewrite hex_byte, IH. Qed.

Lemma hex_length id : length (order_id_to_hex id) = (2 * length id)%nat.
Proof. induction id as [|b id IH]; [done|]. cbn [order_id_to_hex flat_map app length] in *. unfold order_id_to_hex in IH. rewrite IH. lia. Qed.

(** ** Rate limits *)

Record limiter_ok (l : RateLimiter) : Prop := {
  lo_tokens : 0 <= rl_tokens l <= rl_capacity l;
  lo_capacity : rl_capacity l <= U32_MAX * MICROS_PER_SEC;
  lo_rate : in_u32 (rl_refill_rate l);
  lo_last : in_u64 (rl_last_refill l);
}.

(** What the bucket holds when the clock shows [t]. *)
Definition credit (t : Z) (l : RateLimiter) : Z := Z.min (rl_capacity l) (rl_tokens l + rl_refill_rate l * ((t - rl_last_refill l) / 1000)).

Lemma new_limiter_ok now capacity rate : in_u32 capacity -> in_u32 rate -> in_u64 now -> limiter_ok (RateLimiter_new now capacity rate).
Proof.
  intros Hc Hr Hn. unfold RateLimiter_new, MICROS_PER_SEC. rewrite wrap_i64_id by width_lia. split; cbn; unfold MICROS_PER_SEC; width_lia.
Qed.

Lemma refill_exact t l : limiter_ok l -> rl_last_refill l <= t <= U64_MAX ->
  refill t l = mkLimiter (credit t l) (rl_capacity l) (rl_refill_rate l) t.
Proof.
  intros [Ht Hc Hr Hl] Hn. unfold refill, credit, duration_since, as_micros, MICROS_PER_SEC in *. f_equal.
  rewrite Z.max_r by lia. set (e := (t - rl_last_refill l) / 1000).
  assert (0 <= e <= 18446744073709552) as He by (width_unfold; unfold e; split; [apply Z.div_pos; lia|apply Z.div_le_upper_bound; lia]).
  rewrite (wrap_i64_id e) by width_lia. width_unfold.
  assert (0 <= e * rl_refill_rate l) by nia. rewrite (Z.mul_comm (rl_refill_rate l)). unfold sat_i64, clamp. width_unfold. lia.
Qed.

Lemma credit_ok t l : limiter_ok l -> rl_last_refill l <= t -> 0 <= credit t l <= rl_capacity l.
Proof.
  intros [Ht Hc Hr Hl] Hn. unfold credit. width_unfold. assert (0 <= (t - rl_last_refill l) / 1000) by (apply Z.div_pos; lia). nia.
Qed.

Lemma consume_exact t l : limiter_ok l -> rl_last_refill l <= t <= U64_MAX ->
  let ok := MICROS_PER_SEC <=? credit t l in
  try_consume t l = (ok, mkLimiter (if ok then credit t l - MICROS_PER_SEC else credit t l) (rl_capacity l) (rl_refill_rate l) t) /\
  limiter_ok (try_consume t l).2.
Proof.
  intros Hok Hn ok. pose proof (credit_ok t l Hok ltac:(lia)) as Hc. unfold try_consume. rewrite (refill_exact t l Hok Hn).
  cbn [rl_tokens rl_capacity rl_refill_rate rl_last_refill]. destruct Hok as [Ht Hcap Hr Hl].
  assert (in_u64 t) as Hu by (width_unfold; lia). subst ok. unfold MICROS_PER_SEC in *. rewrite Z.geb_leb. case_if; split; try done.
  - do 2 f_equal. apply wrap_i64_id. width_lia.
  - split; cbn; try done. rewrite wrap_i64_id by width_lia. lia.
Qed.

(** Requests at given times: how many are let through. *)
Fixpoint consume (ts : list Z) (l : RateLimiter) : Z * RateLimiter :=
  match ts with
  | [] => (0, l)
  | t :: ts => let '(ok, l) := try_consume t l in let '(n, l) := consume ts l in ((if ok : bool then 1 else 0) + n, l)
  end.

Definition timely (from : Z) (ts : list Z) : Prop := Sorted.Sorted Z.le (from :: ts) /\ Forall (fun t => t <= U64_MAX) ts.

Lemma timely_cons from t ts : timely from (t :: ts) -> from <= t <= U64_MAX /\ timely t ts.
Proof.
  intros [Hs Hf]. apply Sorted.Sorted_inv in Hs as [Hs Hh]. apply Sorted.HdRel_inv in Hh. apply Forall_cons in Hf as [Hf1 Hf]. by split.
Qed.

Lemma div_halves a b c : a <= b -> b <= c -> (b - a) / 1000 + (c - b) / 1000 <= (c - a) / 1000.
Proof.
  intros. apply Z.div_le_lower_bound; [lia|]. pose proof (Z.mul_div_le (b - a) 1000). pose proof (Z.mul_div_le (c - b) 1000). lia.
Qed.

Lemma consume_bound ts l : limiter_ok l -> timely (rl_last_refill l) ts ->
  limiter_ok (consume ts l).2 /\ rl_last_refill l <= rl_last_refill (consume ts l).2 /\
  rl_capacity (consume ts l).2 = rl_capacity l /\ rl_refill_rate (consume ts l).2 = rl_refill_rate l /\
  MICROS_PER_SEC * (consume ts l).1 + rl_tokens (consume ts l).2 <=
    rl_tokens l + rl_refill_rate l * ((rl_last_refill (consume ts l).2 - rl_last_refill l) / 1000).
Proof.
  revert l. induction ts as [|t ts IH]; intros l Hok Ht.
  - cbn [consume fst snd]. rewrite Z.sub_diag, Z.div_0_l by lia. split; [done|]. split; [lia|]. split; [done|]. split; [done|]. lia.
  - apply timely_cons in Ht as [Hb Ht]. destruct (consume_exact t l Hok Hb) as [E Hok1]. cbn [consume]. rewrite E in *. cbn [fst snd] in Hok1.
    set (l1 := mkLimiter _ _ _ t) in *. destruct (IH l1 Hok1 Ht) as (Hok2 & Hl & Ec & Er & Hn). destruct (consume ts l1) as [n l2]. cbn [fst snd] in *.
    assert (rl_last_refill l1 = t) as El by done. rewrite El in *. split; [exact Hok2|]. split; [lia|]. split; [by rewrite Ec|]. split; [by rewrite Er|].
    pose proof (div_halves (rl_last_refill l) t (rl_last_refill l2) ltac:(lia) ltac:(lia)) as Hd. pose proof (lo_rate l Hok) as Hr. width_unfold.
    change (rl_refill_rate l1) with (rl_refill_rate l) in *.
    assert (credit t l <= rl_tokens l + rl_refill_rate l * ((t - rl_last_refill l) / 1000)) as Hcr by (unfold credit; lia).
    assert (rl_refill_rate l * ((t - rl_last_refill l) / 1000) + rl_refill_rate l * ((rl_last_refill l2 - t) / 1000) <=
      rl_refill_rate l * ((rl_last_refill l2 - rl_last_refill l) / 1000)) by nia.
    unfold l1, MICROS_PER_SEC in *. cbn [rl_tokens] in Hn. destruct (1000000 <=? credit t l); lia.
Qed.

(** ** The breaker *)

(** Nothing is let through and left without an outcome. *)
Definition settled (cb : CircuitBreaker) : Prop :=
  match cb_state cb with
  | Closed => 0 <= cb_failure_count cb < Z.max 1 (cb_threshold cb)
  | Open => is_Some (cb_last_failure cb)
  | HalfOpen => False
  end.

(** A request and, when it is let through, its outcome. *)
Definition attempt (now : Z) (ok : bool) (cb : CircuitBreaker) : bool * CircuitBreaker :=
  let '(allowed, cb) := allow now cb in
  (allowed, if (allowed : bool) then (if ok then record_success cb else record_failure now cb) else cb).

(** The breaker as its user sees it. *)
Inductive View : Type := Up (failures : Z) | Down (since : Z).

Definition view (cb : CircuitBreaker) : View :=
  match cb_state cb with Closed => Up (cb_failure_count cb) | _ => Down (default 0 (cb_last_failure cb)) end.

Definition view_attempt (threshold cooldown now : Z) (ok : bool) (v : View) : bool * View :=
  match v with
  | Up k => (true, if ok then Up 0 else if threshold <=? k + 1 then Down now else Up (k + 1))
  | Down since => if cooldown <=? Z.max 0 (now - since) then (true, if ok then Up 0 else Down now) else (false, v)
  end.

Lemma attempt_refines now ok cb : settled cb -> cb_threshold cb <= U32_MAX ->
  settled (attempt now ok cb).2 /\ cb_threshold (attempt now ok cb).2 = cb_threshold cb /\ cb_cooldown (attempt now ok cb).2 = cb_cooldown cb /\
  view_attempt (cb_threshold cb) (cb_cooldown cb) now ok (view cb) = ((attempt now ok cb).1, view (attempt now ok cb).2).
Proof.
  destruct cb as [st k th cd last used]. unfold settled, attempt, view, allow, allow_probe, cooled, duration_since, record_success, record_failure, cb_with.
  cbn. intros Hs Hth. destruct st; [| |done].
  - assert (wrap_u32 (k + 1) = k + 1) as Ew by (apply wrap_u32_id; width_lia).
    destruct ok; cbn; [split; [lia|done]|]. rewrite Ew, Z.geb_leb. destruct (th <=? k + 1) eqn:E; cbn; bool_to_prop; (split; [|done]); [by eexists|lia].
  - destruct Hs as [t ->]. cbn. rewrite Z.geb_leb. destruct (cd <=? Z.max 0 (now - t)); cbn; [|by eauto]. destruct ok; cbn; (split; [|done]); [lia|by eexists].
Qed.

(** ** Client order ids *)

Record cids_ok (now : Z) (c : ClientOrderIds) : Prop := {
  co_sorted : Sorted.StronglySorted Z.le (map fst (ci_inserted c));
  co_past : forall t k, In (t, k) (ci_inserted c) -> 0 <= t <= now;
  co_listed : forall k b, ci_bindings c !! k = Some b -> In (bi_bound_ns b, k) (ci_inserted c);
}.

Lemma remove_if_lookup p key m k : remove_if p key m !! k = if decide (k = key) then (b ← m !! key; if p b then None else Some b) else m !! k.
Proof.
  unfold remove_if. destruct (m !! key) as [b|] eqn:E; cbn; [|case_decide; [by subst|done]].
  destruct (p b); case_decide; subst; [by rewrite lookup_delete_eq|by rewrite lookup_delete_ne|done|done].
Qed.

Lemma expire_exact cutoff inserted bindings :
  Sorted.StronglySorted Z.le (map fst inserted) -> (forall k b, bindings !! k = Some b -> In (bi_bound_ns b, k) inserted) ->
  let c := expire_loop cutoff inserted bindings in
  ci_bindings c = filter (fun kb => cutoff <= bi_bound_ns kb.2) bindings /\ Sorted.StronglySorted Z.le (map fst (ci_inserted c)) /\
  (forall x, In x (ci_inserted c) -> In x inserted) /\ (forall k b, ci_bindings c !! k = Some b -> In (bi_bound_ns b, k) (ci_inserted c)).
Proof.
  revert bindings. induction inserted as [|[t k] rest IH]; intros bindings Hs Hl.
  - cbn. split; [|by split; [constructor|split]]. symmetry. apply map_filter_id. intros k b E. destruct (Hl k b E).
  - cbn [expire_loop]. cbn [map fst] in Hs. apply Sorted.StronglySorted_inv in Hs as [Hs Hf]. case_if.
    + cbn. split; [|split; [by constructor|by split]]. symmetry. apply map_filter_id. intros k' b E. cbn.
      destruct (Hl k' b E) as [[= <- _]|Hin]; [lia|]. rewrite Forall_forall in Hf. specialize (Hf (bi_bound_ns b)). rewrite list_elem_of_In in Hf.
      assert (t <= bi_bound_ns b) by (by apply Hf, (in_map fst _ _ Hin)). lia.
    + destruct (IH (remove_if (fun b => bi_bound_ns b =? t) k bindings) Hs) as (E & H1 & H2 & H3).
      * intros k' b E. rewrite remove_if_lookup in E. case_decide; [subst k'|].
        -- destruct (bindings !! k) as [b'|] eqn:Eb; [|done]. cbn in E. case_if_in E; [done|]. injection E as <-.
           destruct (Hl k b' Eb) as [[= Et]|Hin]; [lia|done].
        -- destruct (Hl k' b E) as [[= _ Ek]|Hin]; [congruence|done].
      * split; [|split; [done|split; [|done]]].
        -- rewrite E. apply map_eq. intros k'. apply option_eq. intros b. rewrite !map_lookup_filter_Some, remove_if_lookup. cbn. case_decide; [subst k'|done].
           destruct (bindings !! k) as [b'|]; [|done]. cbn. destruct (bi_bound_ns b' =? t) eqn:Et; [|done]. bool_to_prop. split; [by intros [? ?]|].
           intros [[= ->] Hc]. lia.
        -- intros x Hx. right. by apply H2.
Qed.

(** ** Pending orders *)

Definition orders_of (m : gmap Z (list PendingOrder)) : list PendingOrder := flat_map snd (map_to_list m).
Definition orders (p : PendingOrders) : list PendingOrder := orders_of (pd_by_user p).

Definition weight (s t : PendingStage) : Z := match s, t with Submitted, Submitted | Resting, Resting | TimedOut, TimedOut => 1 | _, _ => 0 end.
Definition staged (s : PendingStage) (l : list PendingOrder) : Z := zsum (fun o => weight (po_stage o) s) l.

(** The counters count, and every order is in its user's queue. *)
Record pending_ok (p : PendingOrders) : Prop := {
  pn_count : pd_count p = zlen (orders p);
  pn_in_flight : pd_in_flight p = staged Submitted (orders p);
  pn_timed_out : pd_timed_out p = staged TimedOut (orders p);
  pn_capacity : 0 <= pd_capacity p /\ pd_in_flight p <= pd_capacity p;
  pn_filed : forall u q o, pd_by_user p !! u = Some q -> In o q -> po_user_id o = u;
  pn_size : zlen (orders p) < U64_MAX;
}.

Lemma flat_map_perm {A B : Type} (f : A -> list B) l l' : l ≡ₚ l' -> flat_map f l ≡ₚ flat_map f l'.
Proof. apply Permutation_flat_map. Qed.

Lemma orders_split m u q : m !! u = Some q -> orders_of m ≡ₚ q ++ orders_of (delete u m).
Proof.
  intros E. unfold orders_of. rewrite <- (map_to_list_delete m u q E). done.
Qed.

Lemma orders_put m u q : orders_of (<[u := q]> m) ≡ₚ q ++ orders_of (delete u m).
Proof. rewrite (orders_split _ u q) by apply lookup_insert_eq. by rewrite delete_insert_eq. Qed.

Lemma orders_alter m u q f : m !! u = Some q -> orders_of (alter f u m) ≡ₚ f q ++ orders_of (delete u m).
Proof.
  intros E. rewrite (orders_split _ u (f q)) by (by rewrite lookup_alter_eq, E). apply Permutation_app_head.
  assert (delete u (alter f u m) = delete u m) as ->; [|done]. apply map_eq. intros k. destruct (decide (k = u)) as [->|Hne].
  - by rewrite !lookup_delete_eq.
  - by rewrite !lookup_delete_ne, lookup_alter_ne.
Qed.

Lemma orders_in m o : In o (orders_of m) <-> exists u q, m !! u = Some q /\ In o q.
Proof.
  unfold orders_of. rewrite in_flat_map. split.
  - intros ([u q] & Hu & Ho). exists u, q. rewrite <- list_elem_of_In, elem_of_map_to_list in Hu. by split.
  - intros (u & q & Hu & Ho). exists (u, q). by rewrite <- list_elem_of_In, elem_of_map_to_list.
Qed.

Lemma staged_perm s l l' : l ≡ₚ l' -> staged s l = staged s l'.
Proof. apply zsum_perm. Qed.

Lemma staged_cons s o l : staged s (o :: l) = weight (po_stage o) s + staged s l.
Proof. apply (zsum_cons (fun o => weight (po_stage o) s)). Qed.

Lemma staged_bound s l : 0 <= staged s l <= zlen l.
Proof.
  induction l as [|o l IH]; [done|]. rewrite staged_cons, zlen_cons. destruct (po_stage o), s; cbn; lia.
Qed.

Lemma rposition_some {A : Type} (f : A -> bool) l i : rposition f l = Some i -> exists x, l !! i = Some x /\ f x = true.
Proof.
  revert i. induction l as [|x l IH]; intros i; [done|]. cbn. destruct (rposition f l) as [j|].
  - intros [= <-]. by apply IH.
  - case_if; [|done]. intros [= <-]. by exists x.
Qed.

Lemma rposition_none {A : Type} (f : A -> bool) l : rposition f l = None -> forall x, In x l -> f x = false.
Proof.
  induction l as [|y l IH]; [done|]. cbn. destruct (rposition f l); [done|]. case_if; [done|]. intros _ x [<-|Hx]; [done|by apply IH].
Qed.

Lemma locate_some `{HashIter} u oid p u' i : locate u oid p = Some (u', i) ->
  exists q o, pd_by_user p !! u' = Some q /\ q !! i = Some o /\ po_order_id o = oid.
Proof.
  unfold locate. assert (forall k q j, rposition (is_order oid) q = Some j -> pd_by_user p !! k = Some q ->
    exists q' o, pd_by_user p !! k = Some q' /\ q' !! j = Some o /\ po_order_id o = oid) as Hgo.
  { intros k q j Ej Ek. apply rposition_some in Ej as (o & Eo & Ho). exists q, o. unfold is_order in Ho. apply bool_decide_eq_true in Ho. done. }
  destruct (pd_by_user p !! u ≫= rposition (is_order oid)) as [j|] eqn:E.
  - intros [= -> ->]. destruct (pd_by_user p !! u') as [q|] eqn:Eq; [|done]. cbn in E. destruct (Hgo _ _ _ E Eq) as (q1 & o & E1 & H1 & H2). exists q1, o. rewrite <- E1, Eq. done.
  - intros Eh. apply head_Some_elem_of, list_elem_of_omap in Eh as ([k q] & Hin & Eh). cbn in Eh.
    destruct (rposition (is_order oid) q) as [j|] eqn:Ej; [|done]. injection Eh as <- <-.
    rewrite iter_map_perm, elem_of_map_to_list in Hin. by eapply Hgo.
Qed.

Lemma locate_none `{HashIter} u oid p : locate u oid p = None -> forall o, In o (orders p) -> po_order_id o <> oid.
Proof.
  unfold locate. destruct (pd_by_user p !! u ≫= rposition (is_order oid)) as [j|]; [done|]. intros Eh o (k & q & Eq & Ho)%orders_in Ei.
  destruct (rposition (is_order oid) q) as [i|] eqn:Er.
  - assert ((k, i) ∈ omap (fun kq : Z * list PendingOrder => (fun i => (kq.1, i)) <$> rposition (is_order oid) kq.2) (iter_map (pd_by_user p))) as Hin.
    { apply list_elem_of_omap. exists (k, q). rewrite iter_map_perm, elem_of_map_to_list. cbn. by rewrite Er. }
    destruct (omap _ _); [by apply not_elem_of_nil in Hin|done].
  - pose proof (rposition_none _ _ Er o Ho) as Hf. unfold is_order in Hf. by rewrite bool_decide_eq_true_2 in Hf.
Qed.

Lemma delete_perm {A : Type} (l : list A) i x : l !! i = Some x -> l ≡ₚ x :: delete i l.
Proof. intros E. by apply delete_Permutation. Qed.

Lemma alter_perm {A : Type} (f : A -> A) (l : list A) i x : l !! i = Some x -> alter f i l ≡ₚ f x :: delete i l.
Proof.
  revert i. induction l as [|y l IH]; intros [|i]; try done; [by intros [= ->]|]. cbn. intros E. rewrite (IH i E). apply Permutation_swap.
Qed.

(** What [remove] and [mark_resting] find. *)
Lemma found `{HashIter} u oid p :
  (exists u' i q o, locate u oid p = Some (u', i) /\ pd_by_user p !! u' = Some q /\ q !! i = Some o /\ pd_order (u', i) p = Some o /\
    po_order_id o = oid /\ orders p ≡ₚ o :: delete i q ++ orders_of (delete u' (pd_by_user p))) \/
  (locate u oid p = None /\ forall o, In o (orders p) -> po_order_id o <> oid).
Proof.
  destruct (locate u oid p) as [[u' i]|] eqn:E; [left|right; split; [done|by eapply locate_none]].
  destruct (locate_some u oid p u' i E) as (q & o & Eq & Eo & Ei). exists u', i, q, o. do 3 (split; [done|]).
  split; [unfold pd_order; cbn; by rewrite Eq|]. split; [done|]. unfold orders. rewrite (orders_split _ _ _ Eq).
  exact (Permutation_app_tail _ (delete_perm q i o Eo)).
Qed.

Lemma push_orders o p : (pd_push o p).1 = true -> orders (pd_push o p).2 ≡ₚ o :: orders p.
Proof.
  unfold pd_push. case_if; [done|]. intros _. cbn [snd]. unfold orders. cbn [pd_with_users pd_by_user].
  assert (forall s p, pd_by_user (enter s p) = pd_by_user p) as -> by (by intros [] ?). cbn [pd_with_count pd_by_user]. rewrite orders_put.
  destruct (pd_by_user p !! po_user_id o) as [q|] eqn:E; cbn [default from_option].
  - rewrite (orders_split _ _ _ E). rewrite <- app_assoc. symmetry. apply Permutation_middle.
  - cbn. by rewrite delete_id.
Qed.

Lemma remove_orders `{HashIter} u oid p :
  match (pd_remove u oid p).1 with
  | Some o => po_order_id o = oid /\ orders p ≡ₚ o :: orders (pd_remove u oid p).2
  | None => (pd_remove u oid p).2 = p /\ forall o, In o (orders p) -> po_order_id o <> oid
  end.
Proof.
  unfold pd_remove. destruct (found u oid p) as [(u' & i & q & o & -> & Eq & Eo & -> & Ei & Hp)|[-> Hn]]; cbn [fst snd]; [|done].
  split; [done|]. rewrite Hp. apply perm_skip. unfold orders.
  assert (forall s p, pd_by_user (pd_leave s p) = pd_by_user p) as -> by (by intros [] ?). cbn [pd_with_count pd_with_users pd_by_user].
  by rewrite (orders_alter _ _ q _ Eq).
Qed.

Lemma resting_orders `{HashIter} u oid p :
  if (mark_resting u oid p).1
  then exists o rest, po_order_id o = oid /\ orders p ≡ₚ o :: rest /\ orders (mark_resting u oid p).2 ≡ₚ po_with_stage Resting o :: rest
  else (mark_resting u oid p).2 = p /\ forall o, In o (orders p) -> po_order_id o <> oid.
Proof.
  unfold mark_resting. destruct (found u oid p) as [(u' & i & q & o & -> & Eq & Eo & -> & Ei & Hp)|[-> Hn]]; cbn [fst snd]; [|done].
  exists o, (delete i q ++ orders_of (delete u' (pd_by_user p))). split; [done|]. split; [done|]. unfold orders.
  assert (forall s p, pd_by_user (pd_leave s p) = pd_by_user p) as -> by (by intros [] ?). cbn [pd_with_users pd_by_user].
  rewrite (orders_alter _ _ q _ Eq). by rewrite (alter_perm _ q i o Eo).
Qed.

Lemma map_fmap_orders (f : list PendingOrder -> list PendingOrder) (g : PendingOrder -> list PendingOrder) m :
  (forall q, f q = flat_map g q) -> orders_of (f <$> m) ≡ₚ flat_map g (orders_of m).
Proof.
  intros Hf. unfold orders_of. rewrite map_to_list_fmap. induction (map_to_list m) as [|[u q] l IH]; [done|].
  cbn. by rewrite flat_map_app, IH, Hf.
Qed.

Lemma flat_map_single {A B : Type} (f : A -> B) l : flat_map (fun x => [f x]) l = map f l.
Proof. by induction l as [|x l IH]; cbn; [|rewrite IH]. Qed.

Lemma flat_map_filter {A : Type} (f : A -> bool) l : flat_map (fun x => if f x then [x] else []) l = List.filter f l.
Proof. induction l as [|x l IH]; cbn; [done|]. rewrite IH. by destruct (f x). Qed.

Lemma filter_perm {A : Type} (f : A -> bool) l l' : l ≡ₚ l' -> List.filter f l ≡ₚ List.filter f l'.
Proof. rewrite <- !flat_map_filter. apply flat_map_perm. Qed.

Lemma timeout_orders `{HashIter} cutoff p :
  orders (time_out cutoff p).2 ≡ₚ map (time_one cutoff) (orders p) /\
  (time_out cutoff p).1 ≡ₚ map (po_with_stage TimedOut) (List.filter (is_stale cutoff) (orders p)).
Proof.
  split.
  - unfold orders, time_out. cbn [snd pd_by_user]. rewrite (map_fmap_orders _ (fun o => [time_one cutoff o])); [by rewrite flat_map_single|].
    intros q. by rewrite flat_map_single.
  - unfold time_out. cbn [fst]. apply Permutation_map, filter_perm. exact (flat_map_perm snd _ _ (iter_map_perm (pd_by_user p))).
Qed.

Lemma nonempty_orders m : orders_of (filter (fun kq : Z * list PendingOrder => kq.2 <> []) m) ≡ₚ orders_of m.
Proof.
  induction m as [|u q m Hu IH] using map_ind; [by rewrite map_filter_empty|]. rewrite orders_put, delete_id by done.
  destruct (decide (q = [])) as [->|Hq].
  - rewrite map_filter_insert_False by (by intros Hn). rewrite delete_id by done. cbn. exact IH.
  - rewrite map_filter_insert_True by done. rewrite orders_put, delete_id by (by apply map_lookup_filter_None_2; left). by rewrite IH.
Qed.

Lemma drop_orders `{HashIter} cutoff p : orders (drop_timed_out cutoff p) ≡ₚ List.filter (keeps cutoff) (orders p).
Proof.
  unfold orders, drop_timed_out. cbn [pd_by_user]. rewrite nonempty_orders.
  rewrite (map_fmap_orders _ (fun o => if keeps cutoff o then [o] else [])); [by rewrite flat_map_filter|]. intros q. by rewrite flat_map_filter.
Qed.

Lemma staged_split l : staged Submitted l + staged TimedOut l <= zlen l.
Proof. induction l as [|o l IH]; [done|]. rewrite !staged_cons, zlen_cons. destruct (po_stage o); cbn; lia. Qed.

(** What [enter] and [leave] count. *)
Lemma enter_counts st p : 0 <= pd_in_flight p < U64_MAX -> 0 <= pd_timed_out p < U64_MAX ->
  pd_in_flight (enter st p) = weight st Submitted + pd_in_flight p /\ pd_timed_out (enter st p) = weight st TimedOut + pd_timed_out p /\
  pd_count (enter st p) = pd_count p /\ pd_by_user (enter st p) = pd_by_user p /\ pd_capacity (enter st p) = pd_capacity p.
Proof. intros H1 H2. destruct st; cbn [enter weight pd_in_flight pd_timed_out pd_count pd_by_user pd_capacity]; rewrite ?wrap_u64_id by width_lia; repeat split; lia. Qed.

Lemma leave_counts st p : weight st Submitted <= pd_in_flight p <= U64_MAX -> weight st TimedOut <= pd_timed_out p <= U64_MAX ->
  pd_in_flight (pd_leave st p) = pd_in_flight p - weight st Submitted /\ pd_timed_out (pd_leave st p) = pd_timed_out p - weight st TimedOut /\
  pd_count (pd_leave st p) = pd_count p /\ pd_by_user (pd_leave st p) = pd_by_user p /\ pd_capacity (pd_leave st p) = pd_capacity p.
Proof.
  intros H1 H2. destruct st; cbn [pd_leave weight pd_in_flight pd_timed_out pd_count pd_by_user pd_capacity] in *; rewrite ?wrap_u64_id by width_lia; repeat split; lia.
Qed.

Lemma weight_range s t : 0 <= weight s t <= 1.
Proof. destruct s, t; cbn; lia. Qed.

Lemma pending_new capacity : 0 <= capacity -> pending_ok (PendingOrders_new capacity).
Proof. intros Hc. split; cbn; try done. Qed.

Lemma push_pending o p : pending_ok p -> zlen (orders p) + 1 < U64_MAX -> (pd_push o p).1 = true -> pending_ok (pd_push o p).2.
Proof.
  intros [Hc Hi Ht [H0 Hcap] Hf Hz] Hr Hp. pose proof (push_orders o p Hp) as Ho. pose proof (staged_split (orders p)) as Hss.
  pose proof (staged_bound Submitted (orders p)). pose proof (staged_bound TimedOut (orders p)). pose proof (zlen_nonneg (orders p)).
  assert (zlen (orders (pd_push o p).2) = zlen (orders p) + 1) as Hl by (unfold zlen; rewrite Ho; cbn [length]; lia).
  destruct (enter_counts (po_stage o) (pd_with_count (wrap_u64 (pd_count p + 1)) p)) as (E1 & E2 & E3 & E4 & E5); [cbn; width_lia..|].
  unfold pd_push, pd_is_full in *. destruct (bool_decide _ && _) eqn:Hb; [done|]. set (p1 := enter _ _) in *. cbn [fst snd pd_with_users pd_count
    pd_in_flight pd_timed_out pd_capacity pd_by_user pd_with_count] in *.
  split; cbn [pd_with_users pd_count pd_in_flight pd_timed_out pd_capacity pd_by_user]; rewrite ?Hl, ?(staged_perm _ _ _ Ho), ?staged_cons; try lia.
  - rewrite E3, wrap_u64_id; width_lia.
  - rewrite E5. split; [done|]. apply andb_false_iff in Hb as [Hb|Hb]; [|destruct (po_stage o); cbn [weight] in *; lia].
    apply bool_decide_eq_false in Hb. destruct (po_stage o); cbn [weight] in *; [done|lia..].
  - rewrite E4. intros u q x. destruct (decide (po_user_id o = u)) as [Hu|Hu]; [|rewrite lookup_insert_ne by done; apply Hf]. rewrite <- Hu, lookup_insert_eq.
    intros [= <-] [Hx|[<-|[]]]%in_app_iff; [|done]. destruct (pd_by_user p !! po_user_id o) as [q|] eqn:E; [by eapply Hf|done].
Qed.

Lemma in_delete {A : Type} (l : list A) i x : In x (delete i l) -> In x l.
Proof. revert i. induction l as [|y l IH]; intros [|i]; cbn; [done|done|by right|]. intros [->|Hx]; [by left|right; by apply (IH i)]. Qed.

Lemma remove_pending `{HashIter} u oid p : pending_ok p -> pending_ok (pd_remove u oid p).2.
Proof.
  intros Hok. unfold pd_remove.
  destruct (found u oid p) as [(u' & i & q & o & -> & Eq & Eo & -> & Ei & Hp)|[-> Hn]]; [|exact Hok]. cbn [snd].
  destruct Hok as [Hc Hi Ht [H0 Hcap] Hf Hz]. set (p1 := pd_with_users _ _). set (p2 := pd_leave _ _).
  assert (pd_by_user p2 = alter (delete i) u' (pd_by_user p)) as Eu by (unfold p2, p1; by destruct (po_stage o)).
  assert (orders p ≡ₚ o :: orders p2) as Ho.
  { rewrite Hp. apply perm_skip. unfold orders. by rewrite Eu, (orders_alter _ _ q _ Eq). }
  pose proof (staged_bound Submitted (orders p2)). pose proof (staged_bound TimedOut (orders p2)). pose proof (zlen_nonneg (orders p2)).
  assert (zlen (orders p) = zlen (orders p2) + 1) as Hl by (unfold zlen; rewrite Ho; cbn [length]; lia).
  rewrite (staged_perm _ _ _ Ho), staged_cons in Hi. rewrite (staged_perm _ _ _ Ho), staged_cons in Ht.
  pose proof (weight_range (po_stage o) Submitted). pose proof (weight_range (po_stage o) TimedOut).
  destruct (leave_counts (po_stage o) (pd_with_count (wrap_u64 (pd_count p1 - 1)) p1)) as (E1 & E2 & E3 & E4 & E5); [cbn; width_lia..|].
  fold p2 in E1, E2, E3, E4, E5. cbn [pd_with_count pd_count pd_in_flight pd_timed_out pd_capacity] in *.
  change (pd_count p1) with (pd_count p) in *. change (pd_in_flight p1) with (pd_in_flight p) in *. change (pd_timed_out p1) with (pd_timed_out p) in *.
  change (pd_capacity p1) with (pd_capacity p) in *. rewrite wrap_u64_id in E3 by width_lia. split; try lia.
  - rewrite Eu. intros w r x. rewrite lookup_alter.
    case_decide as Hw; [|apply Hf]. subst w. rewrite Eq. intros [= <-] Hx. eapply Hf; [exact Eq|by eapply in_delete].
Qed.

Lemma resting_pending `{HashIter} u oid p : pending_ok p -> pending_ok (mark_resting u oid p).2.
Proof.
  intros Hok. unfold mark_resting.
  destruct (found u oid p) as [(u' & i & q & o & -> & Eq & Eo & -> & Ei & Hp)|[-> Hn]]; [|exact Hok]. cbn [snd].
  destruct Hok as [Hc Hi Ht [H0 Hcap] Hf Hz]. set (p1 := pd_with_users _ _). set (p2 := pd_leave _ _).
  assert (pd_by_user p2 = alter (alter (po_with_stage Resting) i) u' (pd_by_user p)) as Eu by (unfold p2, p1; by destruct (po_stage o)).
  assert (orders p2 ≡ₚ po_with_stage Resting o :: delete i q ++ orders_of (delete u' (pd_by_user p))) as Ho2.
  { unfold orders. rewrite Eu, (orders_alter _ _ q _ Eq). by rewrite (alter_perm _ q i o Eo). }
  set (rest := delete i q ++ _) in *. pose proof (staged_bound Submitted rest). pose proof (staged_bound TimedOut rest). pose proof (zlen_nonneg rest).
  assert (zlen (orders p) = zlen rest + 1 /\ zlen (orders p2) = zlen rest + 1) as [Hl Hl2] by (unfold zlen; rewrite Hp, Ho2; cbn [length]; lia).
  rewrite (staged_perm _ _ _ Hp), staged_cons in Hi. rewrite (staged_perm _ _ _ Hp), staged_cons in Ht.
  assert (staged Submitted (orders p2) = staged Submitted rest /\ staged TimedOut (orders p2) = staged TimedOut rest) as [Hs1 Hs2].
  { by rewrite !(staged_perm _ _ _ Ho2), !staged_cons. }
  pose proof (weight_range (po_stage o) Submitted). pose proof (weight_range (po_stage o) TimedOut).
  destruct (leave_counts (po_stage o) p1) as (E1 & E2 & E3 & E4 & E5); [cbn; width_lia..|]. fold p2 in E1, E2, E3, E4, E5.
  change (pd_count p1) with (pd_count p) in *. change (pd_in_flight p1) with (pd_in_flight p) in *. change (pd_timed_out p1) with (pd_timed_out p) in *.
  change (pd_capacity p1) with (pd_capacity p) in *. split; try lia.
  - rewrite Eu. intros w r x. rewrite lookup_alter. case_decide as Hw; [|apply Hf]. subst w. rewrite Eq. intros [= <-] Hx.
    assert (exists y, In y q /\ po_user_id x = po_user_id y) as (y & Hy & ->); [|by eapply Hf].
    apply list_elem_of_In, list_elem_of_lookup in Hx as [j Ej]. rewrite list_lookup_alter in Ej. case_decide as Hj.
    + subst j. rewrite Eo in Ej. injection Ej as <-. exists o. split; [|done]. apply list_elem_of_In, list_elem_of_lookup. by exists i.
    + exists x. split; [|done]. apply list_elem_of_In, list_elem_of_lookup. by exists j.
Qed.

Lemma timed_staged cutoff l :
  staged Submitted (map (time_one cutoff) l) = staged Submitted l - zlen (List.filter (is_stale cutoff) l) /\
  staged TimedOut (map (time_one cutoff) l) = staged TimedOut l + zlen (List.filter (is_stale cutoff) l).
Proof.
  induction l as [|o l [IH1 IH2]]; [done|]. cbn [map List.filter]. rewrite !staged_cons. unfold time_one at 1 3. unfold is_stale in *.
  destruct (bool_decide (po_stage o = Submitted)) eqn:E; [apply bool_decide_eq_true in E|apply bool_decide_eq_false in E]; cbn [andb];
    [destruct (po_timestamp_ns o <? cutoff)|]; rewrite ?zlen_cons; cbn [po_with_stage po_stage]; rewrite ?E; cbn; split; lia.
Qed.

Lemma timeout_pending `{HashIter} cutoff p : pending_ok p -> pending_ok (time_out cutoff p).2.
Proof.
  intros [Hc Hi Ht [H0 Hcap] Hf Hz]. destruct (timeout_orders cutoff p) as [Ho Hs].
  destruct (timed_staged cutoff (orders p)) as [T1 T2]. pose proof (staged_split (orders p)) as Hss.
  assert (zlen (time_out cutoff p).1 = zlen (List.filter (is_stale cutoff) (orders p))) as El.
  { unfold zlen. by rewrite Hs, length_map. }
  pose proof (staged_bound Submitted (map (time_one cutoff) (orders p))) as B1. pose proof (staged_bound TimedOut (map (time_one cutoff) (orders p))) as B2.
  rewrite zlen_map in B1, B2. assert (zlen (orders (time_out cutoff p).2) = zlen (orders p)) as Hl by (unfold zlen; by rewrite Ho, length_map).
  pose proof (zlen_nonneg (List.filter (is_stale cutoff) (orders p))) as Hn.
  assert (pd_count (time_out cutoff p).2 = pd_count p) as E0 by done. assert (pd_capacity (time_out cutoff p).2 = pd_capacity p) as E1 by done.
  assert (pd_in_flight (time_out cutoff p).2 = wrap_u64 (pd_in_flight p - zlen (time_out cutoff p).1)) as E2 by done.
  assert (pd_timed_out (time_out cutoff p).2 = wrap_u64 (pd_timed_out p + zlen (time_out cutoff p).1)) as E3 by done.
  rewrite El, wrap_u64_id in E2, E3 by width_lia. split; rewrite ?Hl, ?(staged_perm _ _ _ Ho); try lia.
  - unfold time_out. cbn [snd pd_by_user]. intros u q x. rewrite lookup_fmap. destruct (pd_by_user p !! u) as [q'|] eqn:E; [|done]. cbn.
    intros [= <-] (y & <- & Hy)%in_map_iff. unfold time_one. case_if; cbn; by eapply Hf.
Qed.

Lemma keeps_staged cutoff l :
  staged Submitted (List.filter (keeps cutoff) l) = staged Submitted l /\
  staged TimedOut (List.filter (keeps cutoff) l) = staged TimedOut l - (zlen l - zlen (List.filter (keeps cutoff) l)).
Proof.
  induction l as [|o l [IH1 IH2]]; [done|]. cbn [List.filter]. rewrite zlen_cons. unfold keeps in *.
  destruct (bool_decide (po_stage o = TimedOut)) eqn:E; [apply bool_decide_eq_true in E|apply bool_decide_eq_false in E]; cbn [negb orb];
    [destruct (po_timestamp_ns o >=? cutoff)|]; rewrite ?staged_cons, ?zlen_cons, ?E; cbn; destruct (po_stage o); cbn; split; try lia; done.
Qed.

Lemma fold_sum {A : Type} (f : A -> Z) l n : fold_left (fun n x => n + f x) l n = n + zsum f l.
Proof. revert n. induction l as [|x l IH]; intros n; cbn [fold_left]; [cbn; lia|]. rewrite IH, zsum_cons. lia. Qed.

Lemma zlen_flat_map {A B : Type} (f : A -> list B) l : zlen (flat_map f l) = zsum (fun x => zlen (f x)) l.
Proof. induction l as [|x l IH]; [done|]. cbn [flat_map]. by rewrite zlen_app, zsum_cons, IH. Qed.

Lemma drop_pending `{HashIter} cutoff p : pending_ok p -> pending_ok (drop_timed_out cutoff p).
Proof.
  intros [Hc Hi Ht [H0 Hcap] Hf Hz]. pose proof (drop_orders cutoff p) as Ho. destruct (keeps_staged cutoff (orders p)) as [T1 T2].
  set (kept := List.filter (keeps cutoff) (orders p)) in *.
  set (dropped := fold_left (fun n (kq : Z * list PendingOrder) => n + (zlen kq.2 - zlen (List.filter (keeps cutoff) kq.2))) (iter_map (pd_by_user p)) 0).
  assert (dropped = zlen (orders p) - zlen kept) as Ed.
  { unfold dropped. rewrite (fold_sum (fun kq => zlen kq.2 - zlen (List.filter (keeps cutoff) kq.2))), (zsum_perm _ _ _ (iter_map_perm (pd_by_user p))).
    unfold kept, orders, orders_of. induction (map_to_list (pd_by_user p)) as [|[u q] l IH]; [done|]. rewrite zsum_cons. cbn [flat_map snd].
    rewrite List.filter_app, !zlen_app. cbn in *. lia. }
  pose proof (staged_split (orders p)) as Hss. pose proof (staged_bound TimedOut kept) as B1. pose proof (staged_bound Submitted kept) as B2.
  assert (zlen kept <= zlen (orders p)) as Hle by (unfold kept, zlen; pose proof (List.filter_length_le (keeps cutoff) (orders p)); lia).
  assert (zlen (orders (drop_timed_out cutoff p)) = zlen kept) as Hl by (unfold zlen; by rewrite Ho).
  assert (pd_count (drop_timed_out cutoff p) = wrap_u64 (pd_count p - dropped)) as E0 by done.
  assert (pd_in_flight (drop_timed_out cutoff p) = pd_in_flight p /\ pd_capacity (drop_timed_out cutoff p) = pd_capacity p) as [E1 E2] by done.
  assert (pd_timed_out (drop_timed_out cutoff p) = wrap_u64 (pd_timed_out p - dropped)) as E3 by done.
  rewrite Ed, wrap_u64_id in E0, E3 by width_lia. split; rewrite ?Hl, ?(staged_perm _ _ _ Ho); try lia.
  unfold drop_timed_out. cbn [pd_by_user]. intros u q x E Hx. apply map_lookup_filter_Some in E as [E _]. rewrite lookup_fmap in E.
    destruct (pd_by_user p !! u) as [q'|] eqn:Eq; [|done]. injection E as <-. apply filter_In in Hx as [Hx _]. by eapply Hf.
Qed.
