(* ===== verification/Gateway.v ===== *)
(** * Gateway: requests in, updates out [rsx-gateway/src]

    [state.rs], [egress.rs], the frames of [handler.rs], [route.rs] and the
    events and the sweep of the main loop.  A JSON text frame is the message it
    carries.  The egress wake of a connection is shared by its handler and by
    whoever queues for it: wakes live in a store of their own, by connection.
    A request reads each of its two clocks once: [now] is the [Instant],
    [now_ns] the wall clock.  [sent] says whether a datagram could be sent. *)

From Stdlib Require Import String.
From S2P Require Import Prelude Hash Types Frames Messages Wal Cast Dedup Margin Admission.

(** ** Order requests on the wire *)

Definition b2u8 (b : bool) : Z := if b then 1 else 0.
Definition u82b (x : Z) : option bool := if x =? 0 then Some false else if x =? 1 then Some true else None.

Definition OrderRequest_layout : RecordLayout OrderRequest.
Proof.
  refine (mkLayout RECORD_ORDER_REQUEST
    [FU 4; FU 4; FI 8; FI 8; FU 8; FU 8; FU 8; FU 1; FU 1; FU 1; FU 1; FU 1; FPad 3]
    or_seq
    (fun r => [or_user_id r; or_symbol_id r; or_price r; or_qty r; or_order_id_hi r; or_order_id_lo r; or_timestamp_ns r; or_side r; or_tif r;
      b2u8 (or_reduce_only r); b2u8 (or_post_only r); b2u8 (or_is_liquidation r)])
    (fun vs => match vs with
      | [seq; user_id; symbol_id; price; qty; hi; lo; timestamp_ns; side; tif; reduce_only; post_only; is_liquidation] =>
          match u82b reduce_only, u82b post_only, u82b is_liquidation with
          | Some ro, Some po, Some li => Some (mkOrderRequest seq user_id symbol_id price qty hi lo timestamp_ns side tif ro po li)
          | _, _, _ => None
          end
      | _ => None end) _ _).
  - done.
  - by intros [? ? ? ? ? ? ? ? ? ? [] [] []].
Defined.

Lemma u82b_inv x b : u82b x = Some b -> b2u8 b = x.
Proof. unfold u82b. repeat case_if; intros [= <-]; cbn; lia. Qed.

#[export] Instance OrderRequest_record : CastRecord OrderRequest.
Proof.
  apply (layout_record OrderRequest_layout).
  - intros vs r E. cbn in E. repeat (destruct vs as [|? vs]; try discriminate E).
    repeat match type of E with context [u82b ?x] => destruct (u82b x) eqn:?; [|discriminate E] end. injection E as <-.
    cbn. by repeat match goal with E : u82b _ = Some _ |- _ => apply u82b_inv in E as <- end.
  - intros r s. cbn. destruct (or_reduce_only r), (or_post_only r), (or_is_liquidation r); cbn; eauto.
Defined.

(** ** Frames [rsx-messages/src/frames.rs] *)

Inductive CancelKey : Type :=
| ClientOrderId (cid : list Z)
| OrderId (hex : list Z).

Record CidOrder : Type := mkCidOrder { co_order_id : list Z; co_client_order_id : list Z }.

Inductive WsFrame : Type :=
| NewOrder (symbol_id side price qty : Z) (client_order_id : list Z) (tif : Z) (reduce_only post_only : bool)
| Cancel (key : CancelKey)
| OrderUpdate (order_id : list Z) (status filled_qty remaining_qty reason gw_in_ns risk_in_ns me_in_ns match_done_ns gw_out_ns : Z)
| Fill (taker_order_id maker_order_id : list Z) (price qty timestamp_ns fee gw_in_ns risk_in_ns me_in_ns match_done_ns gw_out_ns : Z)
| Error (code : Z) (message : string) (cid_order : option CidOrder)
| Heartbeat (timestamp_ms : Z)
| Liquidation (symbol_id status round side qty price slip_bps : Z).

(** ** Wakes [egress.rs] *)

Record EgressWaker : Type := mkWaker { ge_pending : bool; ge_closed : bool; ge_waker : option Z }.

Definition EgressWaker_default : EgressWaker := mkWaker false false None.
Definition signal (e : EgressWaker) : EgressWaker := mkWaker true (ge_closed e) None.
Definition close (e : EgressWaker) : EgressWaker := signal (mkWaker (ge_pending e) true (ge_waker e)).

(** Whether the future is ready; a task that waits is known by a number. *)
Definition poll_wait (task : Z) (e : EgressWaker) : bool * EgressWaker :=
  if ge_pending e then (true, mkWaker false (ge_closed e) (ge_waker e)) else (false, mkWaker (ge_pending e) (ge_closed e) (Some task)).
Definition poll_closed (task : Z) (e : EgressWaker) : bool * EgressWaker :=
  if ge_closed e then (true, e) else (false, mkWaker (ge_pending e) (ge_closed e) (Some task)).

(** ** State [state.rs] *)

Definition IP_LIMITER_MAX : Z := 10000.
Definition DEFAULT_MAX_OUTBOUND : Z := 1024.
Definition DEFAULT_RATE_LIMIT_PER_INSTANCE : Z := 1000.
Definition CLOSE_GRACE_NS : Z := 1000000000.

Inductive Phase : Type := Serving | Draining | Closing.
#[export] Instance Phase_eq_dec : EqDecision Phase.
Proof. solve_decision. Defined.

(** [symbols.rs]: a row's status is text that only clients read. *)
Record SymbolEntry : Type := mkSymbolEntry { se_config : SymbolConfig; se_config_version : Z; se_status : string; se_min_notional : Z }.

Definition trading (config : SymbolConfig) : SymbolEntry := mkSymbolEntry config 0 "trading"%string 1.
Definition build_table (configs : list SymbolConfig) : gmap Z SymbolEntry :=
  fold_left (fun table config => <[sc_symbol_id config := trading config]> table) configs ∅.

Record ConnectionState : Type := mkConn { gc_user_id : Z; gc_outbound : list WsFrame; gc_last_activity_ns : Z }.

Record GatewayState : Type := mkGateway {
  gs_connections : gmap Z ConnectionState;
  gs_egress : gmap Z EgressWaker;
  gs_pending : PendingOrders;
  gs_client_ids : ClientOrderIds;
  gs_next_conn_id : Z;
  gs_user_limiters : gmap Z RateLimiter;
  gs_ip_limiters : gmap Z RateLimiter;
  gs_ip_limiter_order : list Z;
  gs_instance_limiter : RateLimiter;
  gs_circuit : CircuitBreaker;
  gs_symbols : gmap Z SymbolEntry;
  gs_rate_limit_per_user : Z;
  gs_rate_limit_per_ip : Z;
  gs_max_outbound : Z;
  gs_phase : Phase;
  gs_phase_ends_ns : Z;
}.

Definition GatewayState_new (now max_pending circuit_threshold circuit_cooldown_ms : Z) (symbols : gmap Z SymbolEntry) : GatewayState :=
  mkGateway ∅ ∅ (PendingOrders_new max_pending) ClientOrderIds_default 0 ∅ ∅ []
    (RateLimiter_new now DEFAULT_RATE_LIMIT_PER_INSTANCE DEFAULT_RATE_LIMIT_PER_INSTANCE)
    (CircuitBreaker_new circuit_threshold (circuit_cooldown_ms * 1000000)) symbols 10 100 DEFAULT_MAX_OUTBOUND Serving 0.

Definition gs_conns (c : gmap Z ConnectionState) (e : gmap Z EgressWaker) (s : GatewayState) : GatewayState :=
  mkGateway c e (gs_pending s) (gs_client_ids s) (gs_next_conn_id s) (gs_user_limiters s) (gs_ip_limiters s) (gs_ip_limiter_order s)
    (gs_instance_limiter s) (gs_circuit s) (gs_symbols s) (gs_rate_limit_per_user s) (gs_rate_limit_per_ip s) (gs_max_outbound s) (gs_phase s) (gs_phase_ends_ns s).
Definition gs_orders (p : PendingOrders) (c : ClientOrderIds) (s : GatewayState) : GatewayState :=
  mkGateway (gs_connections s) (gs_egress s) p c (gs_next_conn_id s) (gs_user_limiters s) (gs_ip_limiters s) (gs_ip_limiter_order s)
    (gs_instance_limiter s) (gs_circuit s) (gs_symbols s) (gs_rate_limit_per_user s) (gs_rate_limit_per_ip s) (gs_max_outbound s) (gs_phase s) (gs_phase_ends_ns s).
Definition gs_limits (u i : gmap Z RateLimiter) (order : list Z) (inst : RateLimiter) (s : GatewayState) : GatewayState :=
  mkGateway (gs_connections s) (gs_egress s) (gs_pending s) (gs_client_ids s) (gs_next_conn_id s) u i order inst (gs_circuit s) (gs_symbols s)
    (gs_rate_limit_per_user s) (gs_rate_limit_per_ip s) (gs_max_outbound s) (gs_phase s) (gs_phase_ends_ns s).
Definition gs_with_circuit (c : CircuitBreaker) (s : GatewayState) : GatewayState :=
  mkGateway (gs_connections s) (gs_egress s) (gs_pending s) (gs_client_ids s) (gs_next_conn_id s) (gs_user_limiters s) (gs_ip_limiters s)
    (gs_ip_limiter_order s) (gs_instance_limiter s) c (gs_symbols s) (gs_rate_limit_per_user s) (gs_rate_limit_per_ip s) (gs_max_outbound s) (gs_phase s) (gs_phase_ends_ns s).
Definition gs_with_symbols (t : gmap Z SymbolEntry) (s : GatewayState) : GatewayState :=
  mkGateway (gs_connections s) (gs_egress s) (gs_pending s) (gs_client_ids s) (gs_next_conn_id s) (gs_user_limiters s) (gs_ip_limiters s)
    (gs_ip_limiter_order s) (gs_instance_limiter s) (gs_circuit s) t (gs_rate_limit_per_user s) (gs_rate_limit_per_ip s) (gs_max_outbound s) (gs_phase s) (gs_phase_ends_ns s).
Definition gs_with_phase (ph : Phase) (ends : Z) (s : GatewayState) : GatewayState :=
  mkGateway (gs_connections s) (gs_egress s) (gs_pending s) (gs_client_ids s) (gs_next_conn_id s) (gs_user_limiters s) (gs_ip_limiters s)
    (gs_ip_limiter_order s) (gs_instance_limiter s) (gs_circuit s) (gs_symbols s) (gs_rate_limit_per_user s) (gs_rate_limit_per_ip s) (gs_max_outbound s) ph ends.

(** Whether the gateway may exit. *)
Definition advance_shutdown (now_ns drain_ns : Z) (s : GatewayState) : bool * GatewayState :=
  match gs_phase s with
  | Serving => (false, gs_with_phase Draining (wrap_u64 (now_ns + drain_ns)) s)
  | Draining =>
      (false, if (pd_in_flight (gs_pending s) =? 0) || (now_ns >=? gs_phase_ends_ns s)
              then gs_conns (gs_connections s)
                     (map_imap (fun id e => Some (if bool_decide (is_Some (gs_connections s !! id)) then signal e else e)) (gs_egress s))
                     (gs_with_phase Closing (wrap_u64 (now_ns + CLOSE_GRACE_NS)) s)
              else s)
  | Closing => (bool_decide (gs_connections s = ∅) || (now_ns >=? gs_phase_ends_ns s), s)
  end.

Definition set_instance_rate_limit (now per_sec : Z) (s : GatewayState) : GatewayState :=
  gs_limits (gs_user_limiters s) (gs_ip_limiters s) (gs_ip_limiter_order s) (RateLimiter_new now per_sec per_sec) s.

Definition is_config_newer (symbol_id config_version : Z) (s : GatewayState) : bool :=
  match gs_symbols s !! symbol_id with Some entry => se_config_version entry <? config_version | None => true end.

Section Gateway.
Context `{Crc32c} `{HashIter}.

(** [None]: too many connections. *)
Definition add_connection (user_id : Z) (s : GatewayState) : option Z * GatewayState :=
  let count := zlen (List.filter (fun c : Z * ConnectionState => gc_user_id c.2 =? user_id) (iter_map (gs_connections s))) in
  if count >=? 5 then (None, s)
  else
    let id := gs_next_conn_id s in
    (Some id,
     mkGateway (<[id := mkConn user_id [] 0]> (gs_connections s)) (<[id := EgressWaker_default]> (gs_egress s)) (gs_pending s) (gs_client_ids s)
       (wrap_u64 (id + 1)) (gs_user_limiters s) (gs_ip_limiters s) (gs_ip_limiter_order s) (gs_instance_limiter s) (gs_circuit s) (gs_symbols s)
       (gs_rate_limit_per_user s) (gs_rate_limit_per_ip s) (gs_max_outbound s) (gs_phase s) (gs_phase_ends_ns s)).

Definition remove_connection (conn_id : Z) (s : GatewayState) : GatewayState :=
  match gs_connections s !! conn_id with
  | Some _ => gs_conns (delete conn_id (gs_connections s)) (alter close conn_id (gs_egress s)) s
  | None => s
  end.

Definition queue_outbound (msg : WsFrame) (max_outbound : Z) (conn : ConnectionState) : option ConnectionState :=
  if zlen (gc_outbound conn) >=? max_outbound then None
  else Some (mkConn (gc_user_id conn) (gc_outbound conn ++ [msg]) (gc_last_activity_ns conn)).

(** One connection of the pass: what becomes of the state, and whether it
    overflowed. *)
Definition queue_one (msg : WsFrame) (wanted : Z -> ConnectionState -> bool) (acc : GatewayState * list Z) (c : Z * ConnectionState) : GatewayState * list Z :=
  let '(s, overflowed) := acc in
  if wanted c.1 c.2 then
    match queue_outbound msg (gs_max_outbound s) c.2 with
    | Some conn => (gs_conns (<[c.1 := conn]> (gs_connections s)) (alter signal c.1 (gs_egress s)) s, overflowed)
    | None => (s, overflowed ++ [c.1])
    end
  else acc.

Definition queue_where (msg : WsFrame) (wanted : Z -> ConnectionState -> bool) (s : GatewayState) : GatewayState :=
  let '(s, overflowed) := fold_left (queue_one msg wanted) (iter_map (gs_connections s)) (s, []) in
  fold_left (fun s conn_id => remove_connection conn_id s) overflowed s.

Definition push_to_user (user_id : Z) (msg : WsFrame) : GatewayState -> GatewayState := queue_where msg (fun _ conn => gc_user_id conn =? user_id).
Definition broadcast_heartbeat (ts_ms : Z) : GatewayState -> GatewayState := queue_where (Heartbeat ts_ms) (fun _ _ => true).
Definition queue_heartbeat (conn_id ts_ms : Z) : GatewayState -> GatewayState := queue_where (Heartbeat ts_ms) (fun id _ => id =? conn_id).

Definition reap_idle_connections (cutoff_ns : Z) (s : GatewayState) : Z * GatewayState :=
  let idle := map fst (List.filter (fun c : Z * ConnectionState => (0 <? gc_last_activity_ns c.2) && (gc_last_activity_ns c.2 <? cutoff_ns)) (iter_map (gs_connections s))) in
  (zlen idle, fold_left (fun s conn_id => remove_connection conn_id s) idle s).

Definition touch_connection (conn_id now_ns : Z) (s : GatewayState) : GatewayState :=
  gs_conns (alter (fun conn => mkConn (gc_user_id conn) (gc_outbound conn) now_ns) conn_id (gs_connections s)) (gs_egress s) s.

Definition drain_outbound (conn_id : Z) (s : GatewayState) : list WsFrame * GatewayState :=
  match gs_connections s !! conn_id with
  | Some conn => (gc_outbound conn, gs_conns (<[conn_id := mkConn (gc_user_id conn) [] (gc_last_activity_ns conn)]> (gs_connections s)) (gs_egress s) s)
  | None => ([], s)
  end.

(** The state in which the limiter of [ip] exists, and the limiter. *)
Definition ip_limiter_for (now ip : Z) (s : GatewayState) : RateLimiter * GatewayState :=
  let s :=
    match gs_ip_limiters s !! ip with
    | Some _ => s
    | None =>
        let '(limiters, order) :=
          if Z.of_nat (size (gs_ip_limiters s)) >=? IP_LIMITER_MAX then
            match gs_ip_limiter_order s with
            | oldest :: order => (delete oldest (gs_ip_limiters s), order)
            | [] => (gs_ip_limiters s, [])
            end
          else (gs_ip_limiters s, gs_ip_limiter_order s) in
        gs_limits (gs_user_limiters s) limiters (order ++ [ip]) (gs_instance_limiter s) s
    end in
  let cap := gs_rate_limit_per_ip s in
  let l := default (RateLimiter_new now cap cap) (gs_ip_limiters s !! ip) in
  (l, gs_limits (gs_user_limiters s) (<[ip := l]> (gs_ip_limiters s)) (gs_ip_limiter_order s) (gs_instance_limiter s) s).

(** ** Requests [handler.rs] *)

Definition Rejection : Type := (FailureReason * Z * string)%type.

Definition RATE_LIMITED : Rejection := (RateLimit, 1006, "rate limited"%string).
Definition OVERLOADED : Rejection := (Overloaded, 5, "overloaded"%string).
Definition NETWORK_ERROR : Rejection := (NetworkError, 8, "network error"%string).

Inductive Admission : Type :=
| New
| Duplicate (order_id : list Z).

Definition admit_request (now ip user_id : Z) (s : GatewayState) : option Rejection * GatewayState :=
  let '(l, s) := ip_limiter_for now ip s in
  let '(ok, l) := try_consume now l in
  let s := gs_limits (gs_user_limiters s) (<[ip := l]> (gs_ip_limiters s)) (gs_ip_limiter_order s) (gs_instance_limiter s) s in
  if negb ok then (Some RATE_LIMITED, s)
  else
    let cap := gs_rate_limit_per_user s in
    let '(ok, l) := try_consume now (default (RateLimiter_new now cap cap) (gs_user_limiters s !! user_id)) in
    let s := gs_limits (<[user_id := l]> (gs_user_limiters s)) (gs_ip_limiters s) (gs_ip_limiter_order s) (gs_instance_limiter s) s in
    if negb ok then (Some RATE_LIMITED, s)
    else
      let '(ok, l) := try_consume now (gs_instance_limiter s) in
      let s := gs_limits (gs_user_limiters s) (gs_ip_limiters s) (gs_ip_limiter_order s) l s in
      (if ok then None else Some OVERLOADED, s).

Definition admit_order (now user_id symbol_id price qty : Z) (cid : list Z) (s : GatewayState) : Res ((Rejection + Admission) * GatewayState) :=
  match cid_get user_id cid (gs_client_ids s) with
  | Some order_id => Ok (inr (Duplicate order_id), s)
  | None =>
      if negb (bool_decide (gs_phase s = Serving)) then Ok (inl OVERLOADED, s)
      else
        match gs_symbols s !! symbol_id with
        | None => Ok (inl (SymbolNotFound, 1007, "unknown symbol"%string), s)
        | Some entry =>
            tick ← validate_tick_alignment price (sc_tick_size (se_config entry));
            if negb tick then Ok (inl (InvalidTickSize, 1008, "price not tick aligned"%string), s)
            else
              lot ← validate_lot_alignment qty (sc_lot_size (se_config entry));
              if negb lot then Ok (inl (InvalidLotSize, 1009, "qty not lot aligned"%string), s)
              else if pd_is_full (gs_pending s) then Ok (inl OVERLOADED, s)
              else
                let '(allowed, cb) := allow now (gs_circuit s) in
                Ok (if (allowed : bool) then inr New else inl OVERLOADED, gs_with_circuit cb s)
        end
  end.

Definition cid_bytes (cid : list Z) : list Z := let src := take 20 cid in src ++ List.repeat 0 (20 - length src).

(** The datagrams that went out. *)
Definition forward (sent : bool) (now record_type : Z) (bytes : list Z) (sender : CastSender) : bool * list (list Z) * CastSender :=
  let '(ok, out, sender) := send_raw sent now record_type bytes sender in
  if (ok : bool) then (true, out, advance_seq sender) else (false, out, sender).

Definition rejected (r : Rejection) : WsFrame := Error r.1.2 r.2 None.

(** The bytes before the first zero. *)
Fixpoint until_zero (bs : list Z) : list Z :=
  match bs with
  | [] => []
  | b :: bs => if b =? 0 then [] else b :: until_zero bs
  end.

Definition answer_duplicate (order_id cid : list Z) : WsFrame :=
  Error 1011 "duplicate cid"%string (Some (mkCidOrder (order_id_to_hex order_id) (until_zero cid))).

(** What a frame of a client does: what is written back, what goes out to
    risk, the sender and the state. *)
Definition Outcome : Type := (list WsFrame * list (list Z) * CastSender * GatewayState)%type.

(** [oid] is the order id the gateway mints. *)
Definition on_new_order (sent : bool) (now now_ns ip user_id : Z) (oid : list Z) (symbol_id side price qty : Z) (client_order_id : list Z) (tif : Z)
    (reduce_only post_only : bool) (sender : CastSender) (s : GatewayState) : Res Outcome :=
  let cid := cid_bytes client_order_id in
  let '(refused, s) := admit_request now ip user_id s in
  '(admitted, s) ← match refused with Some r => Ok (inl r, s) | None => admit_order now user_id symbol_id price qty cid s end;
  match admitted with
  | inl rejection => Ok ([rejected rejection], [], sender, s)
  | inr (Duplicate order_id) => Ok ([answer_duplicate order_id cid], [], sender, s)
  | inr New =>
      let '(hi, lo) := split_order_id oid in
      let order := mkOrderRequest (sd_next_seq sender) user_id symbol_id price qty hi lo now_ns side tif reduce_only post_only false in
      let '(ok, out, sender) := forward sent now_ns RECORD_ORDER_REQUEST (as_bytes order) sender in
      if negb ok then Ok ([rejected NETWORK_ERROR], out, sender, gs_with_circuit (record_failure now (gs_circuit s)) s)
      else
        let pending := (pd_push (mkPending oid user_id symbol_id cid now_ns Submitted) (gs_pending s)).2 in
        Ok ([], out, sender, gs_with_circuit (record_success (gs_circuit s)) (gs_orders pending (cid_insert user_id cid oid now_ns (gs_client_ids s)) s))
  end.

Definition on_cancel (sent : bool) (now now_ns ip user_id : Z) (key : CancelKey) (sender : CastSender) (s : GatewayState) : Outcome :=
  let '(refused, s) := admit_request now ip user_id s in
  match refused with
  | Some rejection => ([rejected rejection], [], sender, s)
  | None =>
      let found :=
        match key with
        | OrderId hex =>
            match hex_to_order_id hex with
            | Some order_id => inr (find_by_order_id user_id order_id (gs_pending s))
            | None => inl (Error 1005 "invalid order id"%string None)
            end
        | ClientOrderId cid => inr (find_by_client_order_id user_id (cid_bytes cid) (gs_pending s))
        end in
      match found with
      | inl error => ([error], [], sender, s)
      | inr None => ([Error 1005 "order not found"%string None], [], sender, s)
      | inr (Some order) =>
          let '(hi, lo) := split_order_id (po_order_id order) in
          let cancel := mkCancelRequest (sd_next_seq sender) now_ns user_id (po_symbol_id order) hi lo in
          let '(ok, out, sender) := forward sent now_ns RECORD_CANCEL_REQUEST (as_bytes cancel) sender in
          (if (ok : bool) then [] else [Error 8 "network error"%string None], out, sender, s)
      end
  end.

Definition on_client_frame (sent : bool) (now now_ns ip user_id conn_id : Z) (oid : list Z) (frame : WsFrame) (sender : CastSender) (s : GatewayState) : Res Outcome :=
  let s := touch_connection conn_id now_ns s in
  match frame with
  | NewOrder symbol_id side price qty client_order_id tif reduce_only post_only =>
      on_new_order sent now now_ns ip user_id oid symbol_id side price qty client_order_id tif reduce_only post_only sender s
  | Cancel key => Ok (on_cancel sent now now_ns ip user_id key sender s)
  | Heartbeat _ => Ok ([Heartbeat (now_ns / 1000000)], [], sender, s)
  | _ => Ok ([Error 1004 "unsupported"%string None], [], sender, s)
  end.

(** ** Responses [route.rs] *)

Definition oid_hex (hi lo : Z) : list Z := order_id_to_hex (join_order_id hi lo).

Definition update (order_id : list Z) (status filled_qty remaining_qty reason : Z) : WsFrame :=
  OrderUpdate order_id status filled_qty remaining_qty reason 0 0 0 0 0.

Definition complete_pending (user_id hi lo : Z) (s : GatewayState) : option PendingOrder * GatewayState :=
  let '(removed, pending) := pd_remove user_id (join_order_id hi lo) (gs_pending s) in (removed, gs_orders pending (gs_client_ids s) s).

Definition fill_frame (rec : FillRecord) (fee gw_out_ns : Z) : WsFrame :=
  Fill (oid_hex (wf_taker_order_id_hi rec) (wf_taker_order_id_lo rec)) (oid_hex (wf_maker_order_id_hi rec) (wf_maker_order_id_lo rec))
    (wf_price rec) (wf_qty rec) (wf_ts_ns rec) fee (wf_gw_in_ns rec) (wf_risk_in_ns rec) (wf_me_in_ns rec) (wf_match_done_ns rec) gw_out_ns.

Definition route_fill (now_ns : Z) (rec : FillRecord) (s : GatewayState) : GatewayState :=
  let taker_fee := calculate_fee (wf_qty rec) (wf_price rec) (wf_taker_fee_bps rec) in
  let maker_fee := calculate_fee (wf_qty rec) (wf_price rec) (wf_maker_fee_bps rec) in
  if wf_maker_user_id rec =? wf_taker_user_id rec then
    push_to_user (wf_taker_user_id rec) (fill_frame rec (sat_i64 (taker_fee + maker_fee)) now_ns) s
  else
    push_to_user (wf_maker_user_id rec) (fill_frame rec maker_fee now_ns) (push_to_user (wf_taker_user_id rec) (fill_frame rec taker_fee now_ns) s).

Definition route_order_inserted (rec : OrderInsertedRecord) (s : GatewayState) : GatewayState :=
  let pending := (mark_resting (wn_user_id rec) (join_order_id (wn_order_id_hi rec) (wn_order_id_lo rec)) (gs_pending s)).2 in
  push_to_user (wn_user_id rec) (update (oid_hex (wn_order_id_hi rec) (wn_order_id_lo rec)) 1 0 (wn_qty rec) 0) (gs_orders pending (gs_client_ids s) s).

Definition route_order_done (now_ns : Z) (rec : OrderDoneRecord) (s : GatewayState) : GatewayState :=
  let status := wd_final_status rec in
  if status >? 2 then s
  else
    let '(removed, s) := complete_pending (wd_user_id rec) (wd_order_id_hi rec) (wd_order_id_lo rec) s in
    let user_id := match removed with Some pending => po_user_id pending | None => wd_user_id rec end in
    push_to_user user_id (OrderUpdate (oid_hex (wd_order_id_hi rec) (wd_order_id_lo rec)) status (wd_filled_qty rec) (wd_remaining_qty rec)
      (wd_cancel_reason rec) (wd_gw_in_ns rec) (wd_risk_in_ns rec) (wd_me_in_ns rec) (wd_match_done_ns rec) now_ns) s.

Definition route_liquidation (rec : LiquidationRecord) (s : GatewayState) : GatewayState :=
  push_to_user (wl_user_id rec)
    (Liquidation (wl_symbol_id rec) (wl_status rec) (wl_round rec) (wl_side rec) (wl_qty rec) (wl_price rec) (wl_slip_bps rec)) s.

Definition route_order_failed (rec : OrderFailedRecord) (s : GatewayState) : GatewayState :=
  let '(removed, s) := complete_pending (wx_user_id rec) (wx_order_id_hi rec) (wx_order_id_lo rec) s in
  let '(user_id, s) :=
    match removed with
    | Some pending =>
        (po_user_id pending,
         gs_orders (gs_pending s) (cid_release (po_user_id pending) (po_client_order_id pending) (po_order_id pending) (gs_client_ids s)) s)
    | None => (wx_user_id rec, s)
    end in
  push_to_user user_id (update (oid_hex (wx_order_id_hi rec) (wx_order_id_lo rec)) 3 0 0 (wx_reason rec)) s.

Definition expire_stale_orders (cutoff_ns : Z) (s : GatewayState) : GatewayState :=
  let '(stale, pending) := time_out cutoff_ns (gs_pending s) in
  fold_left (fun s order => push_to_user (po_user_id order) (update (order_id_to_hex (po_order_id order)) 3 0 0 (failure_u8 Timeout)) s) stale
    (gs_orders pending (gs_client_ids s) s).

(** ** The main loop [main.rs], [cast_recv.rs] *)

Inductive CastEvent : Type :=
| EvFill (rec : FillRecord)
| EvOrderDone (rec : OrderDoneRecord)
| EvOrderInserted (rec : OrderInsertedRecord)
| EvOrderFailed (rec : OrderFailedRecord)
| EvLiquidation (rec : LiquidationRecord)
| EvConfigApplied (symbol_id config_version : Z).

Definition decode_cast_event (record_type : Z) (payload : list Z) : option CastEvent :=
  if record_type =? RECORD_FILL then EvFill <$> decode_payload (T := FillRecord) payload
  else if record_type =? RECORD_ORDER_DONE then EvOrderDone <$> decode_payload (T := OrderDoneRecord) payload
  else if record_type =? RECORD_ORDER_INSERTED then EvOrderInserted <$> decode_payload (T := OrderInsertedRecord) payload
  else if record_type =? RECORD_ORDER_FAILED then EvOrderFailed <$> decode_payload (T := OrderFailedRecord) payload
  else if record_type =? RECORD_LIQUIDATION then EvLiquidation <$> decode_payload (T := LiquidationRecord) payload
  else if record_type =? RECORD_CONFIG_APPLIED then
    (fun rec => EvConfigApplied (wg_symbol_id rec) (wg_config_version rec)) <$> decode_payload (T := ConfigAppliedRecord) payload
  else None.

(** The state, and whether the symbol table is to be read again. *)
Definition on_cast_event (now_ns : Z) (event : CastEvent) (s : GatewayState) : bool * GatewayState :=
  match event with
  | EvFill rec => (false, route_fill now_ns rec s)
  | EvOrderDone rec => (false, route_order_done now_ns rec s)
  | EvOrderInserted rec => (false, route_order_inserted rec s)
  | EvOrderFailed rec => (false, route_order_failed rec s)
  | EvLiquidation rec => (false, route_liquidation rec s)
  | EvConfigApplied symbol_id config_version => (is_config_newer symbol_id config_version s, s)
  end.

(** The sweep of pending orders. *)
Definition sweep (now order_timeout_ns : Z) (s : GatewayState) : GatewayState :=
  let s := expire_stale_orders (sat_u64 (now - order_timeout_ns)) s in
  gs_orders (drop_timed_out (sat_u64 (now - WINDOW_NS)) (gs_pending s)) (cid_expire now (gs_client_ids s)) s.

(** ** A connection [handler.rs] *)

(** [None]: the user has too many; otherwise the connection and its greeting. *)
Definition open_connection (now_ns user_id : Z) (s : GatewayState) : option Z * GatewayState :=
  match add_connection user_id s with
  | (Some conn_id, s) => (Some conn_id, queue_heartbeat conn_id (now_ns / 1000000) (touch_connection conn_id now_ns s))
  | (None, s) => (None, s)
  end.

(** A parked session is polled: when its wake is pending it goes on to write
    what is queued. *)
Definition serve_egress (conn_id : Z) (s : GatewayState) : list WsFrame * GatewayState :=
  match gs_egress s !! conn_id with
  | Some e =>
      let '(ready, e) := poll_wait conn_id e in
      let s := gs_conns (gs_connections s) (<[conn_id := e]> (gs_egress s)) s in
      if (ready : bool) then drain_outbound conn_id s else ([], s)
  | None => ([], s)
  end.

End Gateway.
