(* ===== verification/GatewayInv.v ===== *)
(** * GatewayInv: a gateway in order, and what each of its steps keeps

    [gw_ok]: counters that count, ids bound in order, a breaker at rest, wakes
    that stand for what is queued.  [posted] and [moved] say what a step puts
    into the queues of the connections. *)

From Stdlib Require Import String Sorted.
From S2P Require Import Prelude Hash Types Frames Messages Wal Cast Dedup Margin Admission Gateway.

(** ** Connections apart, the state is as it was *)

Definition alike (s s' : GatewayState) : Prop := gs_conns ∅ ∅ s' = gs_conns ∅ ∅ s.

#[global] Instance alike_equiv : Equivalence alike.
Proof. split; unfold alike; [done|by intros ? ? ->|intros ? ? ? H1 H2; congruence]. Qed.

Lemma alike_conns c e s : alike s (gs_conns c e s).
Proof. done. Qed.

Lemma alike_fields s s' : alike s s' ->
  gs_pending s' = gs_pending s /\ gs_client_ids s' = gs_client_ids s /\ gs_circuit s' = gs_circuit s /\ gs_symbols s' = gs_symbols s /\
  gs_max_outbound s' = gs_max_outbound s /\ gs_phase s' = gs_phase s /\ gs_next_conn_id s' = gs_next_conn_id s.
Proof.
  intros Ha. repeat split.
  - exact (f_equal gs_pending Ha).
  - exact (f_equal gs_client_ids Ha).
  - exact (f_equal gs_circuit Ha).
  - exact (f_equal gs_symbols Ha).
  - exact (f_equal gs_max_outbound Ha).
  - exact (f_equal gs_phase Ha).
  - exact (f_equal gs_next_conn_id Ha).
Qed.

Section Queues.
Context `{HashIter}.

(** ** A pass over the connections *)

(** What a wanted message makes of a connection: [None] is closed. *)
Definition offered (max : Z) (msgs : list WsFrame) (conn : ConnectionState) : option ConnectionState :=
  match msgs with
  | [] => Some conn
  | _ => if zlen (gc_outbound conn) + zlen msgs <=? max then Some (mkConn (gc_user_id conn) (gc_outbound conn ++ msgs) (gc_last_activity_ns conn)) else None
  end.

Lemma removed_conns l s : alike s (fold_left (fun s c => remove_connection c s) l s) /\
  (forall c, gs_connections (fold_left (fun s c => remove_connection c s) l s) !! c = if decide (c ∈ l) then None else gs_connections s !! c).
Proof.
  revert s. induction l as [|c0 l IH]; intros s.
  - cbn. split; [done|]. intros c. by rewrite decide_False by apply not_elem_of_nil.
  - cbn [fold_left]. destruct (IH (remove_connection c0 s)) as (Ha & Hc). split.
    + etransitivity; [|exact Ha]. unfold remove_connection. by destruct (gs_connections s !! c0).
    + intros c. rewrite Hc. unfold remove_connection. destruct (decide (c ∈ l)) as [Hin|Hin]; [by rewrite decide_True by (by right)|].
      destruct (decide (c = c0)) as [->|Hne].
      * rewrite decide_True by (by left). destruct (gs_connections s !! c0) eqn:E; [cbn; apply lookup_delete_eq|done].
      * rewrite decide_False by (rewrite elem_of_cons; tauto). destruct (gs_connections s !! c0); [|done]. cbn. by rewrite lookup_delete_ne.
Qed.

Definition wants (msg : WsFrame) (wanted : Z -> ConnectionState -> bool) (c : Z) (conn : ConnectionState) : list WsFrame :=
  if wanted c conn then [msg] else [].

Lemma queue_pass msg wanted l s ov :
  NoDup (map fst l) -> (forall c conn, In (c, conn) l -> gs_connections s !! c = Some conn) ->
  let '(s', ov') := fold_left (queue_one msg wanted) l (s, ov) in
  alike s s' /\ (forall c, ~ In c (map fst l) -> gs_connections s' !! c = gs_connections s !! c) /\
  (forall c conn, In (c, conn) l -> match offered (gs_max_outbound s) (wants msg wanted c conn) conn with
     | Some conn' => gs_connections s' !! c = Some conn' /\ (In c ov' <-> In c ov)
     | None => In c ov' end) /\
  (forall c, In c ov' -> In c ov \/ In c (map fst l)) /\ (forall c, In c ov -> In c ov').
Proof.
  revert s ov. induction l as [|[c0 conn0] l IH]; intros s ov Hn Hl; [cbn; repeat split; try done; tauto|].
  cbn [map fst] in Hn. apply NoDup_cons in Hn as [Hni Hn]. rewrite list_elem_of_In in Hni. cbn [fold_left].
  assert (exists s1 ov1, queue_one msg wanted (s, ov) (c0, conn0) = (s1, ov1) /\ alike s s1 /\
    (forall c, c <> c0 -> gs_connections s1 !! c = gs_connections s !! c) /\
    match offered (gs_max_outbound s) (wants msg wanted c0 conn0) conn0 with
    | Some conn' => gs_connections s1 !! c0 = Some conn' /\ ov1 = ov | None => ov1 = ov ++ [c0] end) as (s1 & ov1 & -> & Ha & Hne & H0).
  { unfold queue_one, wants, offered, queue_outbound. cbn [fst snd]. destruct (wanted c0 conn0).
    - rewrite Z.geb_leb. change (zlen [msg]) with 1. destruct (gs_max_outbound s <=? zlen (gc_outbound conn0)) eqn:E; bool_to_prop.
      + replace (zlen (gc_outbound conn0) + 1 <=? gs_max_outbound s) with false by lia. by eexists _, _.
      + replace (zlen (gc_outbound conn0) + 1 <=? gs_max_outbound s) with true by lia. eexists _, _. split; [reflexivity|]. split; [done|].
        split; [intros c Hc; cbn; by rewrite lookup_insert_ne|]. cbn. by rewrite lookup_insert_eq.
    - eexists _, _. split; [reflexivity|]. do 2 (split; [done|]). split; [|done]. apply Hl. by left. }
  pose proof (alike_fields _ _ Ha) as (_ & _ & _ & _ & Em & _).
  specialize (IH s1 ov1 Hn). destruct (fold_left (queue_one msg wanted) l (s1, ov1)) as [s' ov']. destruct IH as (Ha' & Hc' & Hin' & Hov' & Hsub).
  { intros c conn Hc. rewrite Hne; [apply Hl; by right|]. intros ->. apply Hni, (in_map fst _ _ Hc). }
  split; [by etransitivity|]. split; [|split; [|split]].
  - intros c Hc. cbn in Hc. rewrite Hc', Hne; [done|intros ->; tauto|tauto].
  - intros c conn [[= <- <-]|Hc].
    + destruct (offered _ (wants msg wanted c0 conn0) conn0) as [conn'|]; [|subst ov1; apply Hsub, in_app_iff; right; by left].
      destruct H0 as [E1 ->]. split; [by rewrite Hc'|]. split; [|apply Hsub]. intros Hi. by destruct (Hov' c0 Hi).
    + specialize (Hin' c conn Hc). rewrite Em in Hin'. destruct (offered _ (wants msg wanted c conn) conn) as [conn'|]; [|done].
      destruct Hin' as [E1 Hiff]. split; [done|]. rewrite Hiff. destruct (offered _ (wants msg wanted c0 conn0) conn0); [by destruct H0 as [_ ->]|subst ov1].
      rewrite in_app_iff. split; [|tauto]. intros [Hi|[->|[]]]; [done|]. exfalso. apply Hni, (in_map fst _ _ Hc).
  - intros c Hi. destruct (Hov' c Hi) as [Ho|Ho]; [|right; by right]. destruct (offered _ (wants msg wanted c0 conn0) conn0); [destruct H0 as [_ ->]; by left|subst ov1].
    apply in_app_iff in Ho as [Ho|[->|[]]]; [by left|right; by left].
  - intros c Hi. apply Hsub. destruct (offered _ (wants msg wanted c0 conn0) conn0); [by destruct H0 as [_ ->]|subst ov1]. apply in_app_iff. by left.
Qed.

Lemma keys_nodup {A : Type} (m : gmap Z A) : NoDup (map fst (iter_map m)).
Proof. rewrite (Permutation_map fst (iter_map_perm m)). apply NoDup_fst_map_to_list. Qed.

Lemma iter_in {A : Type} (m : gmap Z A) c x : In (c, x) (iter_map m) <-> m !! c = Some x.
Proof. by rewrite <- list_elem_of_In, iter_map_perm, elem_of_map_to_list. Qed.

(** Queuing, connection by connection. *)
Lemma queue_spec msg wanted s :
  alike s (queue_where msg wanted s) /\
  (forall c, gs_connections (queue_where msg wanted s) !! c =
     conn ← gs_connections s !! c; offered (gs_max_outbound s) (wants msg wanted c conn) conn).
Proof.
  unfold queue_where. pose proof (queue_pass msg wanted (iter_map (gs_connections s)) s [] (keys_nodup _) (fun c conn => proj1 (iter_in _ c conn))) as Hp.
  destruct (fold_left (queue_one msg wanted) (iter_map (gs_connections s)) (s, [])) as [s1 ov]. destruct Hp as (Ha & Hc & Hin & Hov & _).
  destruct (removed_conns ov s1) as (Ha2 & Hc2). split; [by etransitivity|].
  intros c. rewrite Hc2. destruct (gs_connections s !! c) as [conn|] eqn:E; cbn.
  - specialize (Hin c conn (proj2 (iter_in _ _ _) E)). destruct (offered _ (wants msg wanted c conn) conn).
    + destruct Hin as [E1 Hiff]. rewrite decide_False; [done|]. rewrite list_elem_of_In, Hiff. by intros [].
    + by rewrite decide_True by (by apply list_elem_of_In).
  - assert (~ In c (map fst (iter_map (gs_connections s)))) as Hn.
    { intros ([c' x] & Ec & Hx)%in_map_iff. cbn in Ec. subst c'. apply iter_in in Hx. congruence. }
    destruct (decide (c ∈ ov)); [done|]. by rewrite Hc.
Qed.

(** ** Wakes *)

(** A connection is open and its handler will be woken for what is queued;
    the wake of a connection that is gone says so. *)
Definition wakes_ok (s : GatewayState) : Prop :=
  forall c, match gs_connections s !! c with
    | Some conn => exists e, gs_egress s !! c = Some e /\ ge_closed e = false /\ (gc_outbound conn <> [] -> ge_pending e = true)
    | None => forall e, gs_egress s !! c = Some e -> ge_closed e = true
    end.

Lemma remove_wakes c s : wakes_ok s -> wakes_ok (remove_connection c s).
Proof.
  intros Hw. unfold remove_connection. destruct (gs_connections s !! c) as [conn|] eqn:E; [|done]. intros c'. cbn. destruct (decide (c' = c)) as [->|Hne].
  - rewrite lookup_delete_eq, lookup_alter_eq. destruct (gs_egress s !! c); [by intros ? [= <-]|done].
  - rewrite lookup_delete_ne, lookup_alter_ne by done. apply Hw.
Qed.

Lemma removed_wakes l s : wakes_ok s -> wakes_ok (fold_left (fun s c => remove_connection c s) l s).
Proof. revert s. induction l as [|c l IH]; intros s Hw; [done|]. by apply IH, remove_wakes. Qed.

(** A connection whose queue grew is to be signalled. *)
Lemma signal_wakes c conn s : wakes_ok s -> is_Some (gs_connections s !! c) ->
  wakes_ok (gs_conns (<[c := conn]> (gs_connections s)) (alter signal c (gs_egress s)) s).
Proof.
  intros Hw [conn0 E0] c'. cbn. destruct (decide (c' = c)) as [->|Hne].
  - rewrite lookup_insert_eq, lookup_alter_eq. specialize (Hw c). rewrite E0 in Hw. destruct Hw as (e & -> & Hc & _). by eexists.
  - rewrite lookup_insert_ne, lookup_alter_ne by done. apply Hw.
Qed.

Lemma pass_wakes msg wanted l s ov : wakes_ok s -> (forall c conn, In (c, conn) l -> is_Some (gs_connections s !! c)) ->
  wakes_ok (fold_left (queue_one msg wanted) l (s, ov)).1.
Proof.
  revert s ov. induction l as [|[c conn] l IH]; intros s ov Hw Hl; [done|]. cbn [fold_left queue_one fst snd].
  assert (forall c' conn', In (c', conn') l -> is_Some (gs_connections s !! c')) as Hl' by (intros c' conn' Hi; eapply Hl; by right).
  destruct (wanted c conn); [|by apply IH]. destruct (queue_outbound _ _ _) as [conn'|]; [|by apply IH]. apply IH.
  - apply signal_wakes; [done|]. eapply Hl. by left.
  - intros c' conn1 Hi. cbn. rewrite lookup_insert_is_Some'. right. by eapply Hl'.
Qed.

Lemma queue_wakes msg wanted s : wakes_ok s -> wakes_ok (queue_where msg wanted s).
Proof.
  intros Hw. unfold queue_where. pose proof (pass_wakes msg wanted (iter_map (gs_connections s)) s [] Hw) as Hp.
  destruct (fold_left (queue_one msg wanted) _ _) as [s1 ov]. apply removed_wakes, Hp. intros c conn Hi. apply iter_in in Hi. by eexists.
Qed.

End Queues.

(** ** Messages and where they go *)

Inductive Target : Type :=
| ToUser (user_id : Z)
| ToConn (conn_id : Z)
| ToAll.

Definition hits (t : Target) (c : Z) (conn : ConnectionState) : bool :=
  match t with ToUser u => gc_user_id conn =? u | ToConn id => c =? id | ToAll => true end.

Definition Post : Type := (Target * WsFrame)%type.

Definition posts_for (ps : list Post) (c : Z) (conn : ConnectionState) : list WsFrame := map snd (List.filter (fun p => hits p.1 c conn) ps).

(** From [s] to [s'] these messages were queued, and nothing else happened. *)
Record posted (ps : list Post) (s s' : GatewayState) : Prop := {
  po_alike : alike s s';
  po_conns : forall c, gs_connections s' !! c = (conn ← gs_connections s !! c; offered (gs_max_outbound s) (posts_for ps c conn) conn);
}.

Lemma offered_nil max conn : offered max [] conn = Some conn.
Proof. done. Qed.

Lemma offered_app max m1 m2 conn : (conn' ← offered max m1 conn; offered max m2 conn') = offered max (m1 ++ m2) conn.
Proof.
  destruct m1 as [|x m1]; [done|]. unfold offered at 2 3. cbn [app]. pose proof (zlen_nonneg m2). rewrite !zlen_cons, zlen_app.
  destruct (zlen (gc_outbound conn) + (zlen m1 + 1) <=? max) eqn:E1; bool_to_prop; cbn [mbind option_bind].
  - destruct m2 as [|y m2]; cbn [offered].
    + rewrite app_nil_r. change (zlen (@nil WsFrame)) with 0. by replace (_ <=? max) with true by lia.
    + cbn [gc_outbound gc_user_id gc_last_activity_ns]. rewrite zlen_app, !zlen_cons.
      replace (zlen (gc_outbound conn) + (zlen m1 + 1) + (zlen m2 + 1) <=? max) with (zlen (gc_outbound conn) + (zlen m1 + (zlen m2 + 1) + 1) <=? max) by (f_equal; lia).
      case_if; [|done]. by rewrite <- app_assoc.
  - by replace (zlen (gc_outbound conn) + (zlen m1 + zlen m2 + 1) <=? max) with false by lia.
Qed.

Lemma offered_user max m conn conn' : offered max m conn = Some conn' -> gc_user_id conn' = gc_user_id conn.
Proof. unfold offered. destruct m; [by intros [= <-]|]. case_if; [by intros [= <-]|done]. Qed.

Lemma posted_nil s : posted [] s s.
Proof. split; [done|]. intros c. by destruct (gs_connections s !! c). Qed.

Lemma posts_app ps1 ps2 c conn : posts_for (ps1 ++ ps2) c conn = posts_for ps1 c conn ++ posts_for ps2 c conn.
Proof. unfold posts_for. by rewrite List.filter_app, map_app. Qed.

Lemma posted_app ps1 ps2 s s1 s2 : posted ps1 s s1 -> posted ps2 s1 s2 -> posted (ps1 ++ ps2) s s2.
Proof.
  intros [A1 C1] [A2 C2]. split; [by etransitivity|].
  pose proof (alike_fields _ _ A1) as (_ & _ & _ & _ & Em & _). intros c. rewrite C2, C1, Em.
  destruct (gs_connections s !! c) as [conn|]; [|done]. cbn. rewrite posts_app, <- offered_app. destruct (offered (gs_max_outbound s) (posts_for ps1 c conn) conn) as [conn'|] eqn:E; [|done]. cbn. f_equal.
  unfold posts_for. f_equal. apply List.filter_ext. intros [t f]. unfold hits. by rewrite (offered_user _ _ _ _ E).
Qed.

Lemma posted_bound ps s s' c conn : posted ps s s' -> gs_connections s' !! c = Some conn ->
  (forall c conn, gs_connections s !! c = Some conn -> zlen (gc_outbound conn) <= gs_max_outbound s) -> zlen (gc_outbound conn) <= gs_max_outbound s'.
Proof.
  intros [A C] E Hb. pose proof (alike_fields _ _ A) as (_ & _ & _ & _ & -> & _). rewrite C in E.
  destruct (gs_connections s !! c) as [conn0|] eqn:E0; [|done]. cbn in E. specialize (Hb c conn0 E0). unfold offered in E.
  destruct (posts_for ps c conn0); [by injection E as <-|]. case_if_in E; [|done]. injection E as <-. cbn [gc_outbound]. rewrite zlen_app. bool_to_prop. lia.
Qed.

Section Posts.
Context `{Crc32c} `{HashIter}.

Lemma push_posted u msg s : posted [(ToUser u, msg)] s (push_to_user u msg s).
Proof.
  destruct (queue_spec msg (fun _ conn => gc_user_id conn =? u) s) as (A & C). split; [exact A|].
  intros c. unfold push_to_user. rewrite C. destruct (gs_connections s !! c) as [conn|]; [|done]. cbn. f_equal. unfold wants, posts_for. cbn. by case_if.
Qed.

Lemma beat_posted ts s : posted [(ToAll, Heartbeat ts)] s (broadcast_heartbeat ts s).
Proof.
  destruct (queue_spec (Heartbeat ts) (fun _ _ => true) s) as (A & C). split; [exact A|].
  intros c. unfold broadcast_heartbeat. rewrite C. by destruct (gs_connections s !! c).
Qed.

Lemma greet_posted c0 ts s : posted [(ToConn c0, Heartbeat ts)] s (queue_heartbeat c0 ts s).
Proof.
  destruct (queue_spec (Heartbeat ts) (fun id _ => id =? c0) s) as (A & C). split; [exact A|].
  intros c. unfold queue_heartbeat. rewrite C. destruct (gs_connections s !! c) as [conn|]; [|done]. cbn. f_equal. unfold wants, posts_for. cbn. by case_if.
Qed.

(** What an event makes of the orders, and whom it tells what. *)
Definition event_orders (event : CastEvent) (s : GatewayState) : GatewayState :=
  match event with
  | EvOrderInserted r => gs_orders (mark_resting (wn_user_id r) (join_order_id (wn_order_id_hi r) (wn_order_id_lo r)) (gs_pending s)).2 (gs_client_ids s) s
  | EvOrderDone r =>
      if wd_final_status r >? 2 then s
      else gs_orders (pd_remove (wd_user_id r) (join_order_id (wd_order_id_hi r) (wd_order_id_lo r)) (gs_pending s)).2 (gs_client_ids s) s
  | EvOrderFailed r =>
      let '(removed, pending) := pd_remove (wx_user_id r) (join_order_id (wx_order_id_hi r) (wx_order_id_lo r)) (gs_pending s) in
      gs_orders pending (match removed with
        | Some o => cid_release (po_user_id o) (po_client_order_id o) (po_order_id o) (gs_client_ids s) | None => gs_client_ids s end) s
  | _ => s
  end.

Definition owner (user_id hi lo : Z) (s : GatewayState) : Z :=
  match (pd_remove user_id (join_order_id hi lo) (gs_pending s)).1 with Some o => po_user_id o | None => user_id end.

Definition event_posts (now_ns : Z) (event : CastEvent) (s : GatewayState) : list Post :=
  match event with
  | EvFill r =>
      let taker_fee := calculate_fee (wf_qty r) (wf_price r) (wf_taker_fee_bps r) in
      let maker_fee := calculate_fee (wf_qty r) (wf_price r) (wf_maker_fee_bps r) in
      if wf_maker_user_id r =? wf_taker_user_id r then [(ToUser (wf_taker_user_id r), fill_frame r (sat_i64 (taker_fee + maker_fee)) now_ns)]
      else [(ToUser (wf_taker_user_id r), fill_frame r taker_fee now_ns); (ToUser (wf_maker_user_id r), fill_frame r maker_fee now_ns)]
  | EvOrderInserted r => [(ToUser (wn_user_id r), update (oid_hex (wn_order_id_hi r) (wn_order_id_lo r)) 1 0 (wn_qty r) 0)]
  | EvOrderDone r =>
      if wd_final_status r >? 2 then []
      else [(ToUser (owner (wd_user_id r) (wd_order_id_hi r) (wd_order_id_lo r) s),
             OrderUpdate (oid_hex (wd_order_id_hi r) (wd_order_id_lo r)) (wd_final_status r) (wd_filled_qty r) (wd_remaining_qty r)
               (wd_cancel_reason r) (wd_gw_in_ns r) (wd_risk_in_ns r) (wd_me_in_ns r) (wd_match_done_ns r) now_ns)]
  | EvOrderFailed r =>
      [(ToUser (owner (wx_user_id r) (wx_order_id_hi r) (wx_order_id_lo r) s), update (oid_hex (wx_order_id_hi r) (wx_order_id_lo r)) 3 0 0 (wx_reason r))]
  | EvLiquidation r =>
      [(ToUser (wl_user_id r), Liquidation (wl_symbol_id r) (wl_status r) (wl_round r) (wl_side r) (wl_qty r) (wl_price r) (wl_slip_bps r))]
  | EvConfigApplied _ _ => []
  end.

Lemma event_posted now_ns event s : posted (event_posts now_ns event s) (event_orders event s) (on_cast_event now_ns event s).2.
Proof.
  destruct event as [r|r|r|r|r|sid v]; cbn [on_cast_event snd event_posts event_orders].
  - unfold route_fill. case_if; [apply push_posted|]. exact (posted_app [_] [_] _ _ _ (push_posted _ _ _) (push_posted _ _ _)).
  - unfold route_order_done. case_if; [apply posted_nil|]. unfold complete_pending, owner.
    destruct (pd_remove _ _ _) as [[o|] p]; cbn [fst snd]; apply push_posted.
  - apply push_posted.
  - unfold route_order_failed, complete_pending, owner. destruct (pd_remove _ _ _) as [[o|] p]; cbn [fst snd]; apply push_posted.
  - apply push_posted.
  - apply posted_nil.
Qed.

Definition sweep_posts (cutoff_ns : Z) (s : GatewayState) : list Post :=
  map (fun o => (ToUser (po_user_id o), update (order_id_to_hex (po_order_id o)) 3 0 0 (failure_u8 Timeout))) (time_out cutoff_ns (gs_pending s)).1.

Lemma expire_posted cutoff_ns s :
  posted (sweep_posts cutoff_ns s) (gs_orders (time_out cutoff_ns (gs_pending s)).2 (gs_client_ids s) s) (expire_stale_orders cutoff_ns s).
Proof.
  unfold sweep_posts, expire_stale_orders. destruct (time_out cutoff_ns (gs_pending s)) as [stale p]. cbn [fst snd].
  generalize (gs_orders p (gs_client_ids s) s). intros s0. revert s0. induction stale as [|o stale IH]; intros s0; [apply posted_nil|].
  cbn [fold_left map]. exact (posted_app [_] _ _ _ _ (push_posted _ _ _) (IH _)).
Qed.

End Posts.

(** ** A gateway in order *)

Definition limiters (s : GatewayState) (l : RateLimiter) : Prop :=
  (exists u, gs_user_limiters s !! u = Some l) \/ (exists ip, gs_ip_limiters s !! ip = Some l) \/ gs_instance_limiter s = l.

Record limits_ok (now : Z) (s : GatewayState) : Prop := {
  li_each : forall l, limiters s l -> limiter_ok l /\ rl_last_refill l <= now;
  li_user : in_u32 (gs_rate_limit_per_user s);
  li_ip : in_u32 (gs_rate_limit_per_ip s);
}.

Definition tradable (table : gmap Z SymbolEntry) : Prop :=
  forall sid e, table !! sid = Some e -> 0 < sc_tick_size (se_config e) /\ 0 < sc_lot_size (se_config e).

(** Well-formedness, when the clocks show [now] and [now_ns]. *)
Record gw_ok (now now_ns : Z) (s : GatewayState) : Prop := {
  go_pending : pending_ok (gs_pending s);
  go_cids : cids_ok now_ns (gs_client_ids s);
  go_circuit : settled (gs_circuit s) /\ cb_threshold (gs_circuit s) <= U32_MAX;
  go_symbols : tradable (gs_symbols s);
  go_wakes : wakes_ok s;
  go_bounded : forall c conn, gs_connections s !! c = Some conn -> zlen (gc_outbound conn) <= gs_max_outbound s;
  go_next : forall c, is_Some (gs_connections s !! c) -> 0 <= c < gs_next_conn_id s;
  go_count : 0 <= gs_next_conn_id s <= U64_MAX;
  go_limits : limits_ok now s;
  go_max : 0 <= gs_max_outbound s;
}.

(** What a request leaves alone. *)
Record calm (s s' : GatewayState) : Prop := {
  ca_conns : gs_connections s' = gs_connections s;
  ca_egress : gs_egress s' = gs_egress s;
  ca_symbols : gs_symbols s' = gs_symbols s;
  ca_phase : gs_phase s' = gs_phase s;
  ca_max : gs_max_outbound s' = gs_max_outbound s;
  ca_next : gs_next_conn_id s' = gs_next_conn_id s;
}.

Section Requests.
Context `{Crc32c} `{HashIter}.

Lemma ip_limiter_ok now ip s l s' : limits_ok now s -> in_u64 now -> ip_limiter_for now ip s = (l, s') ->
  limits_ok now s' /\ limiter_ok l /\ rl_last_refill l <= now /\ calm s s' /\
  gs_pending s' = gs_pending s /\ gs_client_ids s' = gs_client_ids s /\ gs_circuit s' = gs_circuit s /\
  gs_user_limiters s' = gs_user_limiters s /\ gs_instance_limiter s' = gs_instance_limiter s.
Proof.
  intros Hl Hn. unfold ip_limiter_for. set (s1 := match gs_ip_limiters s !! ip with Some _ => s | None => _ end).
  assert (exists m order, s1 = gs_limits (gs_user_limiters s) m order (gs_instance_limiter s) s /\ m ⊆ gs_ip_limiters s) as (m & order & -> & Hm).
  { unfold s1. destruct (gs_ip_limiters s !! ip) as [l0|] eqn:E; [by exists (gs_ip_limiters s), (gs_ip_limiter_order s); destruct s|].
    case_if; [|by eexists _, _]. destruct (gs_ip_limiter_order s) as [|oldest order]; [by eexists _, _|]. eexists _, _. split; [reflexivity|].
    apply delete_subseteq. }
  intros [= <- <-]. cbn. set (l := default _ _).
  assert (limiter_ok l /\ rl_last_refill l <= now) as [H1 H2].
  { unfold l. destruct (m !! ip) as [l0|] eqn:E; cbn; [apply (li_each _ _ Hl); right; left; exists ip; by eapply lookup_weaken|].
    split; [by apply new_limiter_ok; [apply Hl|apply Hl|]|cbn; lia]. }
  split; [|split; [done|split; [done|split; [by split|done]]]]. split; [|apply Hl|apply Hl]. intros l' [[u E]|[[ip' E]|E]]; cbn in E.
  - apply (li_each _ _ Hl). left. by exists u.
  - apply lookup_insert_Some in E as [[_ <-]|[_ E]]; [done|]. apply (li_each _ _ Hl). right. left. exists ip'. by eapply lookup_weaken.
  - apply (li_each _ _ Hl). by right; right.
Qed.

Lemma consumed_ok now l : limiter_ok l -> rl_last_refill l <= now -> in_u64 now ->
  limiter_ok (try_consume now l).2 /\ rl_last_refill (try_consume now l).2 <= now.
Proof.
  intros Ho Hl Hn. destruct (consume_exact now l Ho) as [E Ho']; [width_lia|]. split; [done|]. rewrite E. cbn. lia.
Qed.

(** Changing limiters of a gateway whose limiters are in order. *)
Lemma limits_put now s u i order inst : limits_ok now s ->
  (forall k l, u !! k = Some l -> limiter_ok l /\ rl_last_refill l <= now) -> (forall k l, i !! k = Some l -> limiter_ok l /\ rl_last_refill l <= now) ->
  (limiter_ok inst /\ rl_last_refill inst <= now) -> limits_ok now (gs_limits u i order inst s).
Proof.
  intros Hl Hu Hi Hs. split; [|apply Hl|apply Hl]. intros l [[k E]|[[k E]|E]]; cbn in E; [by eapply Hu|by eapply Hi|by subst].
Qed.

Lemma insert_each {A : Type} (P : A -> Prop) (m : gmap Z A) k x : (forall j y, m !! j = Some y -> P y) -> P x -> forall j y, <[k := x]> m !! j = Some y -> P y.
Proof. intros Hm Hx j y E. apply lookup_insert_Some in E as [[_ <-]|[_ E]]; [done|by eapply Hm]. Qed.

Lemma limits_each now s : limits_ok now s -> (forall k l, gs_user_limiters s !! k = Some l -> limiter_ok l /\ rl_last_refill l <= now) /\
  (forall k l, gs_ip_limiters s !! k = Some l -> limiter_ok l /\ rl_last_refill l <= now) /\
  (limiter_ok (gs_instance_limiter s) /\ rl_last_refill (gs_instance_limiter s) <= now).
Proof.
  intros [He _ _]. split; [|split]; [intros k l E|intros k l E|]; apply He; [left; by exists k|right; left; by exists k|by right; right].
Qed.

Lemma request_admitted now ip u s : limits_ok now s -> in_u64 now ->
  let '(refused, s') := admit_request now ip u s in
  limits_ok now s' /\ calm s s' /\ gs_pending s' = gs_pending s /\ gs_client_ids s' = gs_client_ids s /\ gs_circuit s' = gs_circuit s /\
  (refused = None \/ refused = Some RATE_LIMITED \/ refused = Some OVERLOADED).
Proof.
  intros Hl Hn. unfold admit_request. destruct (ip_limiter_for now ip s) as [l1 s1] eqn:E1.
  destruct (ip_limiter_ok now ip s l1 s1 Hl Hn E1) as (Hl1 & Ho1 & Hb1 & Hc1 & Ep & Ec & Eb & _ & _).
  destruct (consumed_ok now l1 Ho1 Hb1 Hn) as [Ho1' Hb1']. destruct (try_consume now l1) as [ok1 l1']. cbn [snd] in *.
  destruct (limits_each now s1 Hl1) as (Hu & Hi & Hs). set (s2 := gs_limits _ _ _ _ s1).
  assert (limits_ok now s2) as Hl2 by (apply limits_put; [done|done|by apply insert_each|done]).
  assert (calm s s2) as Hc2 by (by destruct Hc1; split).
  destruct ok1; cbn [negb]; [|split; [done|split; [done|split; [done|split; [done|split; [done|auto]]]]]].
  set (l2 := default _ _). assert (limiter_ok l2 /\ rl_last_refill l2 <= now) as [Ho2 Hb2].
  { unfold l2. destruct (gs_user_limiters s2 !! u) as [l0|] eqn:E; cbn; [by eapply Hu|]. split; [by apply new_limiter_ok; [apply Hl1|apply Hl1|]|lia]. }
  destruct (consumed_ok now l2 Ho2 Hb2 Hn) as [Ho2' Hb2']. destruct (try_consume now l2) as [ok2 l2']. cbn [snd] in *.
  destruct (limits_each now s2 Hl2) as (Hu2 & Hi2 & Hs2). set (s3 := gs_limits _ _ _ _ s2).
  assert (limits_ok now s3) as Hl3 by (apply limits_put; [done|by apply insert_each|done|done]).
  assert (calm s s3) as Hc3 by (by destruct Hc1; split).
  destruct ok2; cbn [negb]; [|split; [done|split; [done|split; [done|split; [done|split; [done|auto]]]]]].
  destruct (consumed_ok now (gs_instance_limiter s3)) as [Ho3 Hb3]; [apply Hs2|apply Hs2|done|].
  destruct (try_consume now (gs_instance_limiter s3)) as [ok3 l3]. cbn [snd] in *.
  destruct (limits_each now s3 Hl3) as (Hu3 & Hi3 & _). split; [by apply limits_put|]. split; [by destruct Hc1; split|].
  do 3 (split; [done|]). destruct ok3; auto.
Qed.

Lemma aligned_ok price tick : 0 < tick -> exists b, validate_tick_alignment price tick = Ok b /\ validate_lot_alignment price tick = Ok b.
Proof.
  intros Ht. unfold validate_tick_alignment, validate_lot_alignment, rem_i64. replace (tick =? 0) with false by lia. replace (tick =? -1) with false by lia.
  rewrite andb_false_r. case_if; by eexists.
Qed.

(** The checks of a new order. *)
Lemma order_admitted now u sid price qty cid s : tradable (gs_symbols s) ->
  exists a s', admit_order now u sid price qty cid s = Ok (a, s') /\
    match cid_get u cid (gs_client_ids s) with
    | Some oid => a = inr (Duplicate oid) /\ s' = s
    | None =>
        match a with
        | inl r => s' = s \/ ((allow now (gs_circuit s)).1 = false /\ s' = gs_with_circuit (allow now (gs_circuit s)).2 s)
        | inr New => pd_is_full (gs_pending s) = false /\ (allow now (gs_circuit s)).1 = true /\ s' = gs_with_circuit (allow now (gs_circuit s)).2 s
        | inr (Duplicate _) => False
        end
    end.
Proof.
  intros Ht. unfold admit_order. destruct (cid_get u cid (gs_client_ids s)) as [oid|]; [by eexists _, _|].
  destruct (negb (bool_decide (gs_phase s = Serving))); [eexists _, _; split; [reflexivity|by left]|].
  destruct (gs_symbols s !! sid) as [e|] eqn:E; [|eexists _, _; split; [reflexivity|by left]]. destruct (Ht sid e E) as [H1 H2].
  destruct (aligned_ok price _ H1) as (b1 & -> & _). cbn [mbind Res_bind]. destruct b1; cbn [negb]; [|eexists _, _; split; [reflexivity|by left]].
  destruct (aligned_ok qty _ H2) as (b2 & _ & ->). cbn [mbind Res_bind]. destruct b2; cbn [negb]; [|eexists _, _; split; [reflexivity|by left]].
  destruct (pd_is_full (gs_pending s)) eqn:Ef; [eexists _, _; split; [reflexivity|by left]|].
  destruct (allow now (gs_circuit s)) as [ok cb] eqn:Ea. eexists _, _. split; [reflexivity|]. destruct ok; [done|by right].
Qed.

(** ** A new order, whole *)

Lemma sorted_last l x : Sorted.StronglySorted Z.le l -> (forall y, In y l -> y <= x) -> Sorted.StronglySorted Z.le (l ++ [x]).
Proof.
  induction 1 as [|y l Hs IH Hf]; intros Hx; cbn; [by repeat constructor|]. constructor.
  - apply IH. intros z Hz. apply Hx. by right.
  - apply Forall_app. split; [done|]. apply Forall_singleton, Hx. by left.
Qed.

Lemma insert_cids now u cid oid c : 0 <= now -> cids_ok now c -> cids_ok now (cid_insert u cid oid now c).
Proof.
  intros Hn [Hs Hp Hl]. split; cbn.
  - rewrite map_app. apply sorted_last; [done|]. intros t Ht. apply in_map_iff in Ht as ([t' k] & <- & Hk). by apply (Hp t' k).
  - intros t k [Hk|[[= <- <-]|[]]]%in_app_iff; [by apply (Hp t k)|lia].
  - intros k b E. rewrite in_app_iff. apply lookup_insert_Some in E as [[<- <-]|[_ E]]; [right; by left|left; by apply Hl].
Qed.

Lemma remove_if_sub p key m k b : remove_if p key m !! k = Some b -> m !! k = Some b.
Proof. rewrite remove_if_lookup. case_decide; [|done]. subst. destruct (m !! key) as [b'|]; [|done]. cbn. by destruct (p b'). Qed.

Lemma release_cids now u cid oid c : cids_ok now c -> cids_ok now (cid_release u cid oid c).
Proof. intros [Hs Hp Hl]. split; cbn; [done|done|]. intros k b E. apply Hl. by apply remove_if_sub in E. Qed.

Lemma expire_cids now c : cids_ok now c -> cids_ok now (cid_expire now c) /\
  forall k, ci_bindings (cid_expire now c) !! k = (b ← ci_bindings c !! k; if decide (sat_u64 (now - WINDOW_NS) <= bi_bound_ns b) then Some b else None).
Proof.
  intros [Hs Hp Hl]. destruct (expire_exact (sat_u64 (now - WINDOW_NS)) _ _ Hs Hl) as (E & H1 & H2 & H3). fold (cid_expire now c) in *.
  split; [split; [done| |done]; intros t k Hk; apply (Hp t k); by apply H2|]. intros k. apply option_eq. intros b. rewrite E, map_lookup_filter_Some. cbn.
  destruct (ci_bindings c !! k) as [b'|]; cbn; [|by split; [intros [? _]|]]. case_decide; (split; [intros [[= ->] ?]|intros [= ->]]); done.
Qed.

Lemma insert_filed : forall p o, (pd_is_full p = false \/ po_stage o <> Submitted) -> (pd_push o p).1 = true.
Proof. intros p o Hp. unfold pd_push. destruct (decide (po_stage o = Submitted)) as [E|E]; [rewrite bool_decide_true by done|by rewrite bool_decide_false by done]. by destruct Hp as [->|]. Qed.

Lemma limits_same now s s' : limits_ok now s -> gs_limits (gs_user_limiters s) (gs_ip_limiters s) (gs_ip_limiter_order s) (gs_instance_limiter s) s' = s' ->
  gs_rate_limit_per_user s' = gs_rate_limit_per_user s -> gs_rate_limit_per_ip s' = gs_rate_limit_per_ip s -> limits_ok now s'.
Proof. intros [He Hu Hi] E Eu Ei. rewrite <- E. split; cbn; [exact He|by rewrite Eu|by rewrite Ei]. Qed.

(** What a request may change of a gateway in order. *)
Lemma gw_requested now now_ns s s' : gw_ok now now_ns s -> calm s s' -> limits_ok now s' -> pending_ok (gs_pending s') ->
  cids_ok now_ns (gs_client_ids s') -> settled (gs_circuit s') /\ cb_threshold (gs_circuit s') <= U32_MAX -> gw_ok now now_ns s'.
Proof.
  intros [Gp Gc Gb Gs Gw Gd Gn Gk Gl Gm] [Cc Ce Cs Cp Cm Cn] H1 H2 H3 H4. split; try done.
  - by rewrite Cs.
  - unfold wakes_ok. by rewrite Cc, Ce.
  - by rewrite Cc, Cm.
  - by rewrite Cc, Cn.
  - by rewrite Cn.
  - by rewrite Cm.
Qed.

Definition refusal (f : WsFrame) : Prop := exists r, f = rejected r.

(** What became of a new order. *)
Inductive Taken (now_ns u sym : Z) (oid cid : list Z) (sd : CastSender) (s : GatewayState) : Outcome -> Prop :=
| TakenRefused f sd' s' : refusal f -> (is_Some (cid_get u cid (gs_client_ids s)) -> f = rejected RATE_LIMITED \/ f = rejected OVERLOADED) -> gs_pending s' = gs_pending s -> gs_client_ids s' = gs_client_ids s -> sd' = sd -> Taken now_ns u sym oid cid sd s ([f], [], sd', s')
| TakenKnown oid' sd' s' : cid_get u cid (gs_client_ids s) = Some oid' -> gs_pending s' = gs_pending s -> gs_client_ids s' = gs_client_ids s -> sd' = sd ->
    Taken now_ns u sym oid cid sd s ([answer_duplicate oid' cid], [], sd', s')
| TakenSent order sd' s' : cid_get u cid (gs_client_ids s) = None -> gs_client_ids s' = cid_insert u cid oid now_ns (gs_client_ids s) ->
    or_user_id order = u -> or_symbol_id order = sym -> (or_order_id_hi order, or_order_id_lo order) = split_order_id oid -> or_seq order = sd_next_seq sd ->
    pd_push (mkPending oid u sym cid now_ns Submitted) (gs_pending s) = (true, gs_pending s') ->
    Taken now_ns u sym oid cid sd s ([], [encode_record RECORD_ORDER_REQUEST (as_bytes order)], sd', s').

Lemma attempt_ok now now_ns ok s : gw_ok now now_ns s -> let cb := (attempt now ok (gs_circuit s)).2 in settled cb /\ cb_threshold cb <= U32_MAX.
Proof. intros Hg cb. destruct (go_circuit _ _ _ Hg) as [Hs Ht]. destruct (attempt_refines now ok _ Hs Ht) as (H1 & H2 & _). by rewrite <- H2 in Ht. Qed.

Lemma new_order_taken sent now now_ns ip u oid sym side price qty client_order_id tif ro po sd s :
  gw_ok now now_ns s -> in_u64 now -> 0 <= now_ns -> zlen (orders (gs_pending s)) + 1 < U64_MAX ->
  exists o, on_new_order sent now now_ns ip u oid sym side price qty client_order_id tif ro po sd s = Ok o /\
    Taken now_ns u sym oid (cid_bytes client_order_id) sd s o /\ gw_ok now now_ns o.2 /\ calm s o.2.
Proof.
  intros Hg Hn Hw Hz. unfold on_new_order. pose proof (request_admitted now ip u s (go_limits _ _ _ Hg) Hn) as Hr.
  destruct (admit_request now ip u s) as [refused s1]. destruct Hr as (Hl1 & Hc1 & Ep & Ec & Eb & Hr).
  assert (gw_ok now now_ns s1) as Hg1.
  { apply (gw_requested _ _ s); try done; rewrite ?Ep, ?Ec, ?Eb; apply Hg. }
  destruct refused as [r|]; cbn [mbind Res_bind].
  { eexists. split; [reflexivity|]. split; [|by split]. apply TakenRefused; [by eexists| |done..]. intros _. destruct Hr as [?|[[= ->]|[= ->]]]; [done|by left|by right]. }
  destruct (order_admitted now u sym price qty (cid_bytes client_order_id) s1 (go_symbols _ _ _ Hg1)) as (a & s2 & -> & Ha). cbn [mbind Res_bind].
  destruct (cid_get u (cid_bytes client_order_id) (gs_client_ids s1)) as [oid'|] eqn:Eg.
  { destruct Ha as [-> ->]. eexists. split; [reflexivity|]. split; [|by split]. apply TakenKnown; congruence. }
  assert (forall f s', refusal f -> gs_pending s' = gs_pending s -> gs_client_ids s' = gs_client_ids s ->
    Taken now_ns u sym oid (cid_bytes client_order_id) sd s ([f], [], sd, s')) as Hno.
  { intros f s' Hf Hp' Hc'. apply TakenRefused; try done. rewrite <- Ec, Eg. by intros [? ?]. }
  pose proof (attempt_ok now now_ns true s1 Hg1) as Ht. pose proof (attempt_ok now now_ns false s1 Hg1) as Hf. unfold attempt in Ht, Hf.
  destruct (allow now (gs_circuit s1)) as [ok cb] eqn:Ea. cbn [fst snd] in *. destruct a as [r|[|oid']]; [| |done].
  { eexists. split; [reflexivity|]. destruct Ha as [->|[-> ->]].
    - split; [|by split]. by apply Hno; [eexists|..].
    - split; [by apply Hno; [eexists|..]|]. cbn [snd]. split; [|by destruct Hc1; split].
      apply (gw_requested _ _ s1); try done; try apply Hg1. by apply (limits_same _ s1). }
  destruct Ha as (Hfull & -> & ->). destruct (split_order_id oid) as [hi lo] eqn:Eo. unfold forward, send_raw. destruct sent; cbn [negb].
  - eexists. split; [reflexivity|]. set (o := mkPending _ _ _ _ _ _). change (gs_pending (gs_with_circuit cb s1)) with (gs_pending s1).
    assert ((pd_push o (gs_pending s1)).1 = true) as Hp by (apply insert_filed; by left). cbn [snd]. rewrite Ep in *. split; [|split].
    + apply (TakenSent now_ns u sym oid _ sd s (mkOrderRequest (sd_next_seq sd) u sym price qty hi lo now_ns side tif ro po false)); try done.
      * by rewrite <- Ec.
      * cbn. by rewrite Ec.
      * fold o. cbn. by destruct (pd_push o (gs_pending s)) as [b p]; cbn in *; subst.
    + apply (gw_requested _ _ s1); cbn; try done; [by apply (limits_same _ s1)|apply push_pending; [apply Hg|done|done]|apply insert_cids; [done|apply Hg1]].
    + by destruct Hc1; split.
  - eexists. split; [reflexivity|]. split; [by apply Hno; [eexists|..]|]. cbn [snd]. split; [|by destruct Hc1; split].
    apply (gw_requested _ _ s1); try done; try apply Hg1. by apply (limits_same _ s1).
Qed.

End Requests.

(** ** A session of the gateway *)

(** What the reactor does next, at an instant [now] and a wall clock [now_ns]:
    a client's frame is handled, a ping or a text that is no frame is read, a parked session is polled or one that has
    handled a frame writes what is queued, a connection opens or closes, an
    event of risk is routed, or the housekeeping of the main loop runs. *)
Inductive GwOp : Type :=
| GwFrame (sent : bool) (ip user_id conn_id : Z) (oid : list Z) (frame : WsFrame)
| GwTouch (conn_id : Z)
| GwServe (conn_id : Z)
| GwDrain (conn_id : Z)
| GwConnect (user_id : Z)
| GwDisconnect (conn_id : Z)
| GwEvent (event : CastEvent)
| GwSweep (order_timeout_ns : Z)
| GwBeat
| GwReap (heartbeat_timeout_ns : Z)
| GwTable (table : gmap Z SymbolEntry)
| GwShutdown (drain_ns : Z).

Section Sessions.
Context `{Crc32c} `{HashIter}.

Definition gw_do (now now_ns : Z) (op : GwOp) (sd : CastSender) (s : GatewayState) : Res Outcome :=
  match op with
  | GwFrame sent ip user_id conn_id oid frame => on_client_frame sent now now_ns ip user_id conn_id oid frame sd s
  | GwTouch conn_id => Ok ([], [], sd, touch_connection conn_id now_ns s)
  | GwServe conn_id => let '(frames, s) := serve_egress conn_id s in Ok (frames, [], sd, s)
  | GwDrain conn_id => let '(frames, s) := drain_outbound conn_id s in Ok (frames, [], sd, s)
  | GwConnect user_id => Ok ([], [], sd, (open_connection now_ns user_id s).2)
  | GwDisconnect conn_id => Ok ([], [], sd, remove_connection conn_id s)
  | GwEvent event => Ok ([], [], sd, (on_cast_event now_ns event s).2)
  | GwSweep order_timeout_ns => Ok ([], [], sd, sweep now_ns order_timeout_ns s)
  | GwBeat => Ok ([], [], sd, broadcast_heartbeat (now_ns / 1000000) s)
  | GwReap heartbeat_timeout_ns => Ok ([], [], sd, (reap_idle_connections (sat_u64 (now_ns - heartbeat_timeout_ns)) s).2)
  | GwTable table => Ok ([], [], sd, gs_with_symbols table s)
  | GwShutdown drain_ns => Ok ([], [], sd, (advance_shutdown now_ns drain_ns s).2)
  end.

(** Whom a step tells what. *)
Definition op_posts (now_ns : Z) (op : GwOp) (s : GatewayState) : list Post :=
  match op with
  | GwConnect user_id => match (add_connection user_id s).1 with Some conn_id => [(ToConn conn_id, Heartbeat (now_ns / 1000000))] | None => [] end
  | GwEvent event => event_posts now_ns event s
  | GwSweep order_timeout_ns => sweep_posts (sat_u64 (now_ns - order_timeout_ns)) s
  | GwBeat => [(ToAll, Heartbeat (now_ns / 1000000))]
  | _ => []
  end.

(** What of the frames a step writes comes from the queue of [c]. *)
Definition handed (c : Z) (op : GwOp) (frames : list WsFrame) : list WsFrame :=
  match op with GwServe c' | GwDrain c' => if c' =? c then frames else [] | _ => [] end.

Definition op_fit (op : GwOp) : Prop := match op with GwTable table => tradable table | _ => True end.

(** *** Each kind of step keeps a gateway in order *)

Lemma gw_later now now_ns now' now_ns' s : gw_ok now now_ns s -> now <= now' -> now_ns <= now_ns' -> gw_ok now' now_ns' s.
Proof.
  intros [Gp [C1 C2 C3] Gb Gs Gw Gd Gn Gk [L1 L2 L3] Gm] H1 H2. split; try done.
  - split; [done| |done]. intros t k Hk. specialize (C2 t k Hk). lia.
  - split; [|done|done]. intros l Hl. destruct (L1 l Hl). split; [done|lia].
Qed.

Lemma gw_orders now now_ns s p c : gw_ok now now_ns s -> pending_ok p -> cids_ok now_ns c -> gw_ok now now_ns (gs_orders p c s).
Proof. intros Hg Hp Hc. apply (gw_requested _ _ s); try done; try apply Hg. by apply (limits_same _ s); [apply Hg|..]. Qed.

Lemma gw_conns now now_ns s s' : gw_ok now now_ns s -> alike s s' -> wakes_ok s' ->
  (forall c conn', gs_connections s' !! c = Some conn' -> exists conn, gs_connections s !! c = Some conn /\
     (zlen (gc_outbound conn) <= gs_max_outbound s -> zlen (gc_outbound conn') <= gs_max_outbound s)) -> gw_ok now now_ns s'.
Proof.
  intros [Gp Gc Gb Gs Gw Gd Gn Gk Gl Gm] Ha Hw Hc. pose proof (alike_fields _ _ Ha) as (E1 & E2 & E3 & E4 & E5 & E6 & E7).
  split; rewrite ?E1, ?E2, ?E3, ?E4, ?E5, ?E7; try done.
  - intros c conn' E. destruct (Hc c conn' E) as (conn & E' & Hi). by eapply Hi, Gd.
  - intros c [conn' E]. destruct (Hc c conn' E) as (conn & E' & _). apply Gn. by eexists.
  - apply (limits_same _ s); [done| |exact (f_equal gs_rate_limit_per_user Ha)|exact (f_equal gs_rate_limit_per_ip Ha)].
    rewrite <- (f_equal gs_user_limiters Ha : gs_user_limiters s' = gs_user_limiters s), <- (f_equal gs_ip_limiters Ha : gs_ip_limiters s' = gs_ip_limiters s).
    rewrite <- (f_equal gs_ip_limiter_order Ha : gs_ip_limiter_order s' = gs_ip_limiter_order s).
    rewrite <- (f_equal gs_instance_limiter Ha : gs_instance_limiter s' = gs_instance_limiter s). by destruct s'.
Qed.

Lemma gw_posted now now_ns ps s s' : gw_ok now now_ns s -> posted ps s s' -> wakes_ok s' -> gw_ok now now_ns s'.
Proof.
  intros Hg Hp Hw. apply (gw_conns _ _ s); [done|apply Hp|done|]. intros c conn' E. rewrite (po_conns _ _ _ Hp) in E.
  destruct (gs_connections s !! c) as [conn|]; [|done]. cbn in E. exists conn. split; [done|]. intros Hb. unfold offered in E.
  destruct (posts_for ps c conn); [by injection E as <-|]. case_if_in E; [|done]. injection E as <-. cbn [gc_outbound]. rewrite zlen_app. by bool_to_prop.
Qed.

Lemma gw_removed now now_ns l s : gw_ok now now_ns s -> gw_ok now now_ns (fold_left (fun s c => remove_connection c s) l s).
Proof.
  intros Hg. destruct (removed_conns l s) as [Ha Hc]. apply (gw_conns _ _ s); [done|done|apply removed_wakes, Hg|].
  intros c conn' E. rewrite Hc in E. case_decide; [done|]. by exists conn'.
Qed.

Lemma touch_wakes c t s : wakes_ok s -> wakes_ok (touch_connection c t s).
Proof.
  intros Hw c'. cbn. specialize (Hw c'). rewrite lookup_alter. case_decide; [subst|done]. by destruct (gs_connections s !! c').
Qed.

Lemma gw_touched now now_ns c t s : gw_ok now now_ns s -> gw_ok now now_ns (touch_connection c t s).
Proof.
  intros Hg. apply (gw_conns _ _ s); [done|done|apply touch_wakes, Hg|]. intros c' conn' E. cbn in E. rewrite lookup_alter in E. case_decide.
  - subst. destruct (gs_connections s !! c') as [conn|]; [|done]. injection E as <-. by exists conn.
  - by exists conn'.
Qed.

Lemma drain_wakes c s : wakes_ok s -> wakes_ok (drain_outbound c s).2.
Proof.
  intros Hw. unfold drain_outbound. destruct (gs_connections s !! c) as [conn|] eqn:E; [|done]. intros c'. cbn. specialize (Hw c').
  destruct (decide (c' = c)) as [->|Hne]; [|by rewrite lookup_insert_ne]. rewrite lookup_insert_eq. rewrite E in Hw. destruct Hw as (e & -> & Hcl & _). by exists e.
Qed.

Lemma gw_drained now now_ns c s : gw_ok now now_ns s -> gw_ok now now_ns (drain_outbound c s).2.
Proof.
  intros Hg. unfold drain_outbound. pose proof (drain_wakes c s (go_wakes _ _ _ Hg)) as Hw. unfold drain_outbound in Hw.
  destruct (gs_connections s !! c) as [conn|] eqn:E; [|done]. cbn [snd] in *. apply (gw_conns _ _ s); [done|done|done|]. intros c' conn' E'. cbn in E'.
  apply lookup_insert_Some in E' as [[<- <-]|[_ E']]; [|by exists conn']. exists conn. split; [done|]. intros _. exact (go_max _ _ _ Hg).
Qed.

(** A session polled: its wake is as [poll_wait] leaves it, and when it was
    pending the queue is handed over. *)
Lemma serve_cases c s : wakes_ok s ->
  match gs_connections s !! c with
  | Some conn => exists e, gs_egress s !! c = Some e /\
      if ge_pending e then serve_egress c s = (gc_outbound conn, (drain_outbound c (gs_conns (gs_connections s) (<[c := mkWaker false false (ge_waker e)]> (gs_egress s)) s)).2)
      else gc_outbound conn = [] /\ serve_egress c s = ([], gs_conns (gs_connections s) (<[c := mkWaker false false (Some c)]> (gs_egress s)) s)
  | None => (serve_egress c s).1 = [] /\ gs_connections (serve_egress c s).2 = gs_connections s
  end.
Proof.
  intros Hw. specialize (Hw c). unfold serve_egress, poll_wait, drain_outbound. destruct (gs_connections s !! c) as [conn|] eqn:E.
  - destruct Hw as (e & -> & Hc & Ho). exists e. split; [done|]. destruct (ge_pending e) eqn:Ep; cbn; rewrite Hc; [by rewrite E|].
    split; [|done]. destruct (gc_outbound conn); [done|]. by discriminate Ho.
  - destruct (gs_egress s !! c) as [e|]; [|done]. destruct (ge_pending e); cbn; [by rewrite E|done].
Qed.

Lemma gw_served now now_ns c s : gw_ok now now_ns s -> gw_ok now now_ns (serve_egress c s).2.
Proof.
  intros Hg. pose proof (go_wakes _ _ _ Hg) as Hw. assert (wakes_ok (serve_egress c s).2) as Hw'.
  { pose proof (serve_cases c s Hw) as Hc. pose proof (Hw c) as Hwc. unfold serve_egress, poll_wait, drain_outbound in *.
    destruct (gs_connections s !! c) as [conn|] eqn:E.
    - destruct Hc as (e & Ee & Hc). rewrite Ee in *. destruct Hwc as (e' & [= <-] & Hcl & Ho). destruct (ge_pending e) eqn:Ep; cbn in *.
      + rewrite E. cbn. intros c'. cbn. specialize (Hw c'). destruct (decide (c' = c)) as [->|]; [|by rewrite !lookup_insert_ne].
        rewrite !lookup_insert_eq. by eexists.
      + intros c'. cbn. specialize (Hw c'). destruct (decide (c' = c)) as [->|]; [|by rewrite lookup_insert_ne].
        rewrite E, lookup_insert_eq. eexists. split; [done|]. split; [done|]. by destruct Hc as [-> _].
    - destruct (gs_egress s !! c) as [e|] eqn:Ee; [|done]. specialize (Hwc e eq_refl). destruct (ge_pending e); cbn in *; rewrite ?E;
        intros c'; cbn; specialize (Hw c'); (destruct (decide (c' = c)) as [->|]; [|by rewrite lookup_insert_ne]); rewrite E, lookup_insert_eq; by intros ? [= <-]. }
  pose proof (serve_cases c s Hw) as Hc. destruct (gs_connections s !! c) as [conn|] eqn:E.
  - destruct Hc as (e & Ee & Hc). destruct (ge_pending e) eqn:Ep; [rewrite Hc in *|destruct Hc as [Ho Hc]; rewrite Hc in *]; cbn [snd] in *.
    + apply (gw_conns _ _ s); [done|by unfold drain_outbound; cbn; rewrite E|done|]. intros c' conn' E'. unfold drain_outbound in E'. cbn in E'. rewrite E in E'. cbn in E'.
      apply lookup_insert_Some in E' as [[<- <-]|[_ E']]; [|by exists conn']. exists conn. split; [done|]. intros _. exact (go_max _ _ _ Hg).
    + apply (gw_conns _ _ s); [done|done|done|]. intros c' conn' E'. by exists conn'.
  - destruct Hc as [_ Hc]. apply (gw_conns _ _ s); [done| |done|rewrite Hc; intros c' conn' E'; by exists conn'].
    unfold serve_egress, poll_wait, drain_outbound. destruct (gs_egress s !! c) as [e|]; [|done]. destruct (ge_pending e); cbn; [by rewrite E|done].
Qed.

Lemma gw_pushed now now_ns u msg s : gw_ok now now_ns s -> gw_ok now now_ns (push_to_user u msg s).
Proof. intros Hg. by eapply gw_posted; [|apply push_posted|apply queue_wakes, Hg]. Qed.

Lemma gw_pending now now_ns s p : gw_ok now now_ns s -> pending_ok p -> gw_ok now now_ns (gs_orders p (gs_client_ids s) s).
Proof. intros Hg Hp. apply gw_orders; [done|done|apply Hg]. Qed.

Lemma gw_completed now now_ns u hi lo s : gw_ok now now_ns s -> gw_ok now now_ns (complete_pending u hi lo s).2.
Proof.
  intros Hg. unfold complete_pending. pose proof (remove_pending u (join_order_id hi lo) _ (go_pending _ _ _ Hg)) as Hp.
  destruct (pd_remove _ _ _) as [o p]. by apply gw_pending.
Qed.

Lemma gw_routed now now_ns t event s : gw_ok now now_ns s -> gw_ok now now_ns (on_cast_event t event s).2.
Proof.
  intros Hg. destruct event as [r|r|r|r|r|sid v]; cbn [on_cast_event snd].
  - unfold route_fill. case_if; repeat apply gw_pushed; done.
  - unfold route_order_done. case_if; [done|]. pose proof (gw_completed now now_ns (wd_user_id r) (wd_order_id_hi r) (wd_order_id_lo r) s Hg) as Hc.
    destruct (complete_pending _ _ _ _) as [o s1]. by apply gw_pushed.
  - apply gw_pushed, gw_pending; [done|apply resting_pending, Hg].
  - unfold route_order_failed. pose proof (gw_completed now now_ns (wx_user_id r) (wx_order_id_hi r) (wx_order_id_lo r) s Hg) as Hc.
    destruct (complete_pending _ _ _ _) as [[o|] s1]; cbn [snd] in Hc; apply gw_pushed; [|done]. apply gw_orders; [done|apply Hc|apply release_cids, Hc].
  - by apply gw_pushed.
  - done.
Qed.

Lemma gw_expired now now_ns cutoff s : gw_ok now now_ns s -> gw_ok now now_ns (expire_stale_orders cutoff s).
Proof.
  intros Hg. unfold expire_stale_orders. pose proof (timeout_pending cutoff _ (go_pending _ _ _ Hg)) as Hp. destruct (time_out cutoff (gs_pending s)) as [stale p].
  assert (gw_ok now now_ns (gs_orders p (gs_client_ids s) s)) as Hg1 by (by apply gw_pending). revert Hg1. generalize (gs_orders p (gs_client_ids s) s).
  induction stale as [|o stale IH]; intros s1 Hg1; [done|]. by apply IH, gw_pushed.
Qed.

Lemma gw_swept now now_ns timeout s : gw_ok now now_ns s -> gw_ok now now_ns (sweep now_ns timeout s).
Proof.
  intros Hg. unfold sweep. assert (gw_ok now now_ns (expire_stale_orders (sat_u64 (now_ns - timeout)) s)) as Hg1 by (by apply gw_expired).
  apply gw_orders; [done|apply drop_pending, Hg1|apply expire_cids, Hg1].
Qed.

Lemma gw_opened now now_ns u s : gw_ok now now_ns s -> gs_next_conn_id s < U64_MAX ->
  gw_ok now now_ns (open_connection now_ns u s).2 /\ gs_next_conn_id s <= gs_next_conn_id (open_connection now_ns u s).2 <= gs_next_conn_id s + 1 /\
  gs_pending (open_connection now_ns u s).2 = gs_pending s /\ gs_client_ids (open_connection now_ns u s).2 = gs_client_ids s /\
  (forall c, c <> gs_next_conn_id s -> gs_connections (open_connection now_ns u s).2 !! c = gs_connections s !! c).
Proof.
  intros Hg Hn. unfold open_connection, add_connection. case_if; [split; [done|split; [cbn; lia|done]]|]. set (id := gs_next_conn_id s).
  pose proof (go_count _ _ _ Hg) as Hc. rewrite wrap_u64_id by width_lia. set (s1 := mkGateway _ _ _ _ _ _ _ _ _ _ _ _ _ _ _ _).
  assert (gs_connections s !! id = None) as Ef.
  { destruct (gs_connections s !! id) as [conn|] eqn:E; [|done]. destruct (go_next _ _ _ Hg id ltac:(by eexists)). unfold id in *. lia. }
  assert (gw_ok now now_ns s1) as Hg1.
  { destruct Hg as [Gp Gc Gb Gs Gw Gd Gn Gk Gl Gm]. split; cbn; try done; try lia.
    - intros c. cbn. specialize (Gw c). destruct (decide (c = id)) as [->|Hne]; [|by rewrite !lookup_insert_ne]. rewrite !lookup_insert_eq. by eexists.
    - intros c conn E0. apply lookup_insert_Some in E0 as [[_ <-]|[_ E0]]; [done|by eapply Gd].
    - intros c [conn E0]. apply lookup_insert_Some in E0 as [[<- _]|[_ E0]]; [unfold id; lia|]. destruct (Gn c ltac:(by eexists)). unfold id. lia.
    - by apply (limits_same _ s). }
  assert (gw_ok now now_ns (touch_connection id now_ns s1)) as Hg2 by (by apply gw_touched).
  pose proof (greet_posted id (now_ns / 1000000) (touch_connection id now_ns s1)) as Hp. cbn [snd]. pose proof (alike_fields _ _ (po_alike _ _ _ Hp)) as (E1 & E2 & _ & _ & _ & _ & E7).
  split; [eapply gw_posted; [exact Hg2|exact Hp|apply queue_wakes, Hg2]|]. split; [rewrite E7; cbn; unfold id; lia|]. split; [by rewrite E1|]. split; [by rewrite E2|].
  intros c Hne. rewrite (po_conns _ _ _ Hp). cbn. rewrite lookup_alter_ne, lookup_insert_ne by done. destruct (gs_connections s !! c) as [conn|]; [|done]. cbn.
  unfold posts_for. cbn. by replace (c =? id) with false by (unfold id; lia).
Qed.

Lemma gw_shut now now_ns t drain s : gw_ok now now_ns s -> gw_ok now now_ns (advance_shutdown t drain s).2 /\ gs_connections (advance_shutdown t drain s).2 = gs_connections s /\
  gs_pending (advance_shutdown t drain s).2 = gs_pending s /\ gs_client_ids (advance_shutdown t drain s).2 = gs_client_ids s /\
  gs_next_conn_id (advance_shutdown t drain s).2 = gs_next_conn_id s.
Proof.
  intros Hg. unfold advance_shutdown. destruct (gs_phase s); cbn [snd]; [|case_if|]; (split; [|done]); try done.
  - destruct Hg as [Gp Gc Gb Gs Gw Gd Gn Gk Gl Gm]. by split; try done; apply (limits_same _ s).
  - destruct Hg as [Gp Gc Gb Gs Gw Gd Gn Gk Gl Gm]. split; try done; [|by apply (limits_same _ s)]. intros c. specialize (Gw c). cbn.
    rewrite map_lookup_imap. destruct (gs_connections s !! c) as [conn|] eqn:E.
    + destruct Gw as (e & -> & Hc & _). cbn. by eexists.
    + destruct (gs_egress s !! c) as [e|]; [|done]. cbn. by intros e' [= <-]; apply Gw.
Qed.

Lemma cancel_calm sent now now_ns ip u key sd s : gw_ok now now_ns s -> in_u64 now ->
  gw_ok now now_ns (on_cancel sent now now_ns ip u key sd s).2 /\ calm s (on_cancel sent now now_ns ip u key sd s).2 /\
  gs_pending (on_cancel sent now now_ns ip u key sd s).2 = gs_pending s /\ gs_client_ids (on_cancel sent now now_ns ip u key sd s).2 = gs_client_ids s.
Proof.
  intros Hg Hn. unfold on_cancel. pose proof (request_admitted now ip u s (go_limits _ _ _ Hg) Hn) as Hr.
  destruct (admit_request now ip u s) as [refused s1]. destruct Hr as (Hl1 & Hc1 & Ep & Ec & Eb & _).
  assert (gw_ok now now_ns s1) as Hg1 by (apply (gw_requested _ _ s); try done; rewrite ?Ep, ?Ec, ?Eb; apply Hg).
  destruct refused; [done|]. match goal with |- context [match ?f with inl _ => _ | inr _ => _ end] => destruct f as [e|[o|]] end; [done| |done].
  destruct (split_order_id _) as [hi lo]. by destruct (forward _ _ _ _ _) as [[ok out] sd'].
Qed.

(** *** Every step returns and keeps a gateway in order *)

Definition held (s : GatewayState) : Z := zlen (orders (gs_pending s)).

Lemma event_held event s : held (event_orders event s) <= held s.
Proof.
  unfold held. assert (forall u oid, zlen (orders (pd_remove u oid (gs_pending s)).2) <= zlen (orders (gs_pending s))) as Hr.
  { intros u oid. pose proof (remove_orders u oid (gs_pending s)) as Hr. destruct (pd_remove u oid (gs_pending s)) as [[o|] p]; cbn [fst snd] in *.
    - destruct Hr as [_ Hr]. unfold zlen. rewrite Hr. cbn [length]. lia.
    - destruct Hr as [-> _]. lia. }
  destruct event as [r|r|r|r|r|sid v]; cbn [event_orders]; try lia.
  - case_if; [lia|]. apply Hr.
  - pose proof (resting_orders (wn_user_id r) (join_order_id (wn_order_id_hi r) (wn_order_id_lo r)) (gs_pending s)) as Hm. cbn.
    destruct (mark_resting _ _ _) as [[] p]; cbn [fst snd] in *; [|destruct Hm as [-> _]; lia]. destruct Hm as (o & rest & _ & H1 & H2).
    unfold zlen. rewrite H1, H2. cbn [length]. lia.
  - specialize (Hr (wx_user_id r) (join_order_id (wx_order_id_hi r) (wx_order_id_lo r))). by destruct (pd_remove _ _ _) as [o p].
Qed.

Lemma sweep_held t timeout s : held (sweep t timeout s) <= held s.
Proof.
  unfold held, sweep. cbn [gs_orders gs_pending]. pose proof (expire_posted (sat_u64 (t - timeout)) s) as Hp.
  destruct (alike_fields _ _ (po_alike _ _ _ Hp)) as (E & _). rewrite E. cbn [gs_orders gs_pending].
  unfold zlen. rewrite (drop_orders _ _). pose proof (List.filter_length_le (keeps (sat_u64 (t - WINDOW_NS))) (orders (time_out (sat_u64 (t - timeout)) (gs_pending s)).2)) as Hl.
  destruct (timeout_orders (sat_u64 (t - timeout)) (gs_pending s)) as [Ho _]. apply Permutation_length in Ho. rewrite length_map in Ho. lia.
Qed.

(** *** What becomes of a connection's queue *)

Definition posts_to (ps : list Post) (c u : Z) : list WsFrame := posts_for ps c (mkConn u [] 0).

Definition queue_of (s : GatewayState) (c : Z) : option (Z * list WsFrame) := (fun conn => (gc_user_id conn, gc_outbound conn)) <$> gs_connections s !! c.

(** The queue grew by what its user was told and shrank by what was handed
    over; of a connection that was closed some of it was never handed over. *)
Definition moved (before after : option (Z * list WsFrame)) (told : Z -> list WsFrame) (handed : list WsFrame) : Prop :=
  match before with
  | None => after = None /\ handed = []
  | Some (u, q) =>
      match after with
      | Some (u', q') => u' = u /\ handed ++ q' = q ++ told u
      | None => exists rest, q ++ told u = handed ++ rest
      end
  end.

Lemma moved_on a b c t1 t2 h1 h2 : moved a b t1 h1 -> moved b c t2 h2 -> moved a c (fun u => t1 u ++ t2 u) (h1 ++ h2).
Proof.
  unfold moved. destruct a as [[u q]|]; [|intros [-> ->] [-> ->]; done]. destruct b as [[u1 q1]|].
  - intros [-> E1]. destruct c as [[u2 q2]|].
    + intros [-> E2]. split; [done|]. by rewrite <- app_assoc, E2, !app_assoc, E1.
    + intros [rest E2]. exists rest. by rewrite app_assoc, <- E1, <- !app_assoc, E2.
  - intros [rest E1] [-> ->]. exists (rest ++ t2 u). by rewrite app_assoc, E1, app_nil_r, <- app_assoc.
Qed.

Lemma moved_same a told : (forall u, told u = []) -> moved a a told [].
Proof. intros Ht. destruct a as [[u q]|]; [|done]. cbn. by rewrite Ht, app_nil_r. Qed.

Lemma moved_gone a told : moved a None told [].
Proof. destruct a as [[u q]|]; [|done]. by exists (q ++ told u). Qed.

Lemma posted_moved ps s s' c : posted ps s s' -> moved (queue_of s c) (queue_of s' c) (posts_to ps c) [].
Proof.
  intros Hp. unfold queue_of. rewrite (po_conns _ _ _ Hp). destruct (gs_connections s !! c) as [conn|]; [|done]. cbn.
  assert (posts_for ps c conn = posts_to ps c (gc_user_id conn)) as <- by done. unfold offered. destruct (posts_for ps c conn) as [|x l] eqn:E.
  - cbn. by rewrite app_nil_r.
  - case_if; [done|]. cbn. by eexists.
Qed.

Lemma removed_moved l s c told : (forall u, told u = []) -> moved (queue_of s c) (queue_of (fold_left (fun s c => remove_connection c s) l s) c) told [].
Proof.
  intros Ht. destruct (removed_conns l s) as [_ Hc]. unfold queue_of. rewrite Hc. case_decide; [apply moved_gone|by apply moved_same].
Qed.

Lemma drained_moved c c' s told : (forall u, told u = []) ->
  moved (queue_of s c) (queue_of (drain_outbound c' s).2 c) told (if c' =? c then (drain_outbound c' s).1 else []).
Proof.
  intros Ht. unfold drain_outbound, queue_of. destruct (gs_connections s !! c') as [conn|] eqn:E; cbn [fst snd].
  - case_if; bool_to_prop; [subst; cbn; rewrite E, lookup_insert_eq; cbn; by rewrite Ht|]. cbn. rewrite lookup_insert_ne by done. by apply moved_same.
  - case_if; by apply moved_same.
Qed.

Lemma served_moved c c' s told : wakes_ok s -> (forall u, told u = []) ->
  moved (queue_of s c) (queue_of (serve_egress c' s).2 c) told (if c' =? c then (serve_egress c' s).1 else []).
Proof.
  intros Hw Ht. pose proof (serve_cases c' s Hw) as Hc. destruct (gs_connections s !! c') as [conn|] eqn:E.
  - destruct Hc as (e & _ & Hc). destruct (ge_pending e).
    + rewrite Hc. cbn [fst snd]. set (s1 := gs_conns _ _ s). pose proof (drained_moved c c' s1 told Ht) as Hd. unfold drain_outbound at 2 in Hd. cbn in Hd. by rewrite E in Hd.
    + destruct Hc as [_ ->]. cbn [fst snd]. assert (moved (queue_of s c) (queue_of s c) told []) as Hm by (by apply moved_same). by case_if.
  - destruct Hc as [-> Hc]. assert (queue_of (serve_egress c' s).2 c = queue_of s c) as -> by (unfold queue_of; by rewrite Hc).
    case_if; by apply moved_same.
Qed.

(** *** Steps and sessions *)

Lemma quiet_moved s s' c : gs_connections s' = gs_connections s -> moved (queue_of s c) (queue_of s' c) (fun _ => []) [].
Proof. intros E. unfold queue_of. rewrite E. by apply moved_same. Qed.

Lemma touch_moved c' t s s' c : gs_connections s' = gs_connections (touch_connection c' t s) -> moved (queue_of s c) (queue_of s' c) (fun _ => []) [].
Proof.
  intros E. assert (queue_of s' c = queue_of s c) as ->; [|by apply moved_same]. unfold queue_of. rewrite E. cbn. rewrite lookup_alter. case_decide; [subst|done].
  by destruct (gs_connections s !! c).
Qed.

(** What a step promises, started in [s] and ended in [s']. *)
Record stepped (now now_ns : Z) (op : GwOp) (frames : list WsFrame) (s s' : GatewayState) : Prop := {
  st_ok : gw_ok now now_ns s';
  st_next : gs_next_conn_id s <= gs_next_conn_id s' <= gs_next_conn_id s + 1;
  st_held : held s' <= held s + 1;
  st_moved : forall c, c < gs_next_conn_id s -> moved (queue_of s c) (queue_of s' c) (posts_to (op_posts now_ns op s) c) (handed c op frames);
}.

Lemma frame_step sent now now_ns ip u conn oid frame sd s : gw_ok now now_ns s -> in_u64 now -> 0 <= now_ns -> held s + 1 < U64_MAX ->
  exists frames out sd' s', on_client_frame sent now now_ns ip u conn oid frame sd s = Ok (frames, out, sd', s') /\
    stepped now now_ns (GwFrame sent ip u conn oid frame) frames s s'.
Proof.
  intros Hg Hn Hw Hh. unfold on_client_frame. set (s1 := touch_connection conn now_ns s).
  assert (gw_ok now now_ns s1) as Hg1 by (by apply gw_touched).
  assert (forall s', gw_ok now now_ns s' -> calm s1 s' -> held s' <= held s + 1 -> forall frames, stepped now now_ns (GwFrame sent ip u conn oid frame) frames s s') as Hdone.
  { intros s' Hg' Hc Hh' frames. split; [done|rewrite (ca_next _ _ Hc); cbn; lia|done|]. intros c _. eapply touch_moved, Hc. }
  destruct frame as [sym side price qty cid tif ro po|key|oi st fq rq rs g1 r1 m1 m2 g2|ti mi pr qt ts fee g1 r1 m1 m2 g2|co ms ci|ts|sy st ro si qt pr sl].
  - destruct (new_order_taken sent now now_ns ip u oid sym side price qty cid tif ro po sd s1 Hg1 Hn Hw Hh) as (o & -> & Ht & Hg2 & Hc2).
    destruct o as [[[frames out] sd'] s']. cbn [snd] in *. eexists _, _, _, _. split; [reflexivity|]. apply Hdone; [done|done|]. unfold held.
    inversion Ht as [f sd1 s2 _ _ Ep _ _|oid' sd1 s2 _ Ep _ _|order sd1 s2 _ _ _ _ _ _ Ep]; subst; try (rewrite Ep; cbn; lia).
    pose proof (push_orders (mkPending oid u sym (cid_bytes cid) now_ns Submitted) (gs_pending s1)) as Ho. rewrite Ep in Ho. specialize (Ho eq_refl). cbn [snd] in Ho.
    unfold zlen. rewrite Ho. cbn [length]. change (gs_pending s1) with (gs_pending s). lia.
  - destruct (cancel_calm sent now now_ns ip u key sd s1 Hg1 Hn) as (Hg2 & Hc2 & Ep & _). destruct (on_cancel _ _ _ _ _ _ _ _) as [[[frames out] sd'] s'].
    cbn [snd] in *. eexists _, _, _, _. split; [reflexivity|]. apply Hdone; [done|done|]. unfold held. rewrite Ep. cbn. lia.
  - eexists _, _, _, _. split; [reflexivity|]. apply Hdone; [done|by split|unfold held; cbn; lia].
  - eexists _, _, _, _. split; [reflexivity|]. apply Hdone; [done|by split|unfold held; cbn; lia].
  - eexists _, _, _, _. split; [reflexivity|]. apply Hdone; [done|by split|unfold held; cbn; lia].
  - eexists _, _, _, _. split; [reflexivity|]. apply Hdone; [done|by split|unfold held; cbn; lia].
  - eexists _, _, _, _. split; [reflexivity|]. apply Hdone; [done|by split|unfold held; cbn; lia].
Qed.

Lemma connect_step now now_ns u s : gw_ok now now_ns s -> gs_next_conn_id s < U64_MAX -> stepped now now_ns (GwConnect u) [] s (open_connection now_ns u s).2.
Proof.
  intros Hg Hn. destruct (gw_opened now now_ns u s Hg Hn) as (Hg' & Hb & Ep & _ & Hc). split; [done|done|unfold held; rewrite Ep; lia|].
  intros c Hlt. unfold queue_of. rewrite Hc by lia. cbn [handed]. apply moved_same. intros u'. unfold op_posts, add_connection. case_if; [done|]. cbn.
  unfold posts_to, posts_for. cbn. by replace (c =? gs_next_conn_id s) with false by lia.
Qed.

Lemma gw_step now now_ns op sd s : gw_ok now now_ns s -> in_u64 now -> 0 <= now_ns -> op_fit op -> gs_next_conn_id s < U64_MAX -> held s + 1 < U64_MAX ->
  exists frames out sd' s', gw_do now now_ns op sd s = Ok (frames, out, sd', s') /\ stepped now now_ns op frames s s'.
Proof.
  intros Hg Hn Hw Hf Hc Hh. pose proof (go_wakes _ _ _ Hg) as Hwk.
  destruct op as [sent ip u conn oid frame|c0|c0|c0|u|c0|event|timeout| |timeout|table|drain]; cbn [gw_do]; [by apply frame_step| | | | | | | | | | |].
  - eexists _, _, _, _. split; [reflexivity|]. split; [by apply gw_touched|cbn; lia|unfold held; cbn; lia|intros c _; by eapply touch_moved].
  - pose proof (gw_served now now_ns c0 s Hg) as Hg'. pose proof (fun c => served_moved c c0 s (fun _ => []) Hwk (fun _ => eq_refl)) as Hm.
    assert (alike s (serve_egress c0 s).2) as Ha.
    { unfold serve_egress, poll_wait, drain_outbound. destruct (gs_egress s !! c0) as [e|]; [|done]. destruct (ge_pending e); [|done]. cbn. by destruct (gs_connections s !! c0). }
    destruct (serve_egress c0 s) as [frames s']. cbn [fst snd] in *. destruct (alike_fields _ _ Ha) as (Ep & _ & _ & _ & _ & _ & En).
    eexists _, _, _, _. split; [reflexivity|]. split; [done|rewrite En; lia|unfold held; rewrite Ep; lia|by intros c _].
  - pose proof (gw_drained now now_ns c0 s Hg) as Hg'. pose proof (fun c => drained_moved c c0 s (fun _ => []) (fun _ => eq_refl)) as Hm.
    assert (alike s (drain_outbound c0 s).2) as Ha by (unfold drain_outbound; by destruct (gs_connections s !! c0)).
    destruct (drain_outbound c0 s) as [frames s']. cbn [fst snd] in *. destruct (alike_fields _ _ Ha) as (Ep & _ & _ & _ & _ & _ & En).
    eexists _, _, _, _. split; [reflexivity|]. split; [done|rewrite En; lia|unfold held; rewrite Ep; lia|by intros c _].
  - eexists _, _, _, _. split; [reflexivity|]. by apply connect_step.
  - eexists _, _, _, _. split; [reflexivity|]. destruct (removed_conns [c0] s) as [Ha _]. destruct (alike_fields _ _ Ha) as (Ep & _ & _ & _ & _ & _ & En). cbn [fold_left] in *.
    split; [exact (gw_removed now now_ns [c0] s Hg)|rewrite En; lia|unfold held; rewrite Ep; lia|intros c _; exact (removed_moved [c0] s c _ (fun _ => eq_refl))].
  - eexists _, _, _, _. split; [reflexivity|]. pose proof (event_posted now_ns event s) as Hp. destruct (alike_fields _ _ (po_alike _ _ _ Hp)) as (Ep & _ & _ & _ & _ & _ & En).
    assert (gs_next_conn_id (event_orders event s) = gs_next_conn_id s /\ gs_connections (event_orders event s) = gs_connections s) as [En' Ec].
    { destruct event; cbn [event_orders]; try done; [by case_if|by destruct (pd_remove _ _ _)]. }
    split; [by apply gw_routed|lia|unfold held at 1; rewrite Ep; pose proof (event_held event s); unfold held in *; lia|].
    intros c _. assert (queue_of s c = queue_of (event_orders event s) c) as -> by (unfold queue_of; by rewrite Ec). by apply posted_moved.
  - eexists _, _, _, _. split; [reflexivity|]. pose proof (expire_posted (sat_u64 (now_ns - timeout)) s) as Hp. destruct (alike_fields _ _ (po_alike _ _ _ Hp)) as (_ & _ & _ & _ & _ & _ & En).
    split; [by apply gw_swept|unfold sweep; cbn [gs_orders gs_next_conn_id]; rewrite En; cbn; lia|pose proof (sweep_held now_ns timeout s); lia|].
    intros c _. exact (posted_moved _ _ _ c Hp).
  - eexists _, _, _, _. split; [reflexivity|]. pose proof (beat_posted (now_ns / 1000000) s) as Hp. destruct (alike_fields _ _ (po_alike _ _ _ Hp)) as (Ep & _ & _ & _ & _ & _ & En).
    split; [by eapply gw_posted; [|exact Hp|apply queue_wakes]|rewrite En; lia|unfold held; rewrite Ep; lia|]. intros c _. exact (posted_moved _ _ _ c Hp).
  - eexists _, _, _, _. split; [reflexivity|]. unfold reap_idle_connections. cbn [snd]. set (idle := map fst _). destruct (removed_conns idle s) as [Ha _].
    destruct (alike_fields _ _ Ha) as (Ep & _ & _ & _ & _ & _ & En).
    split; [exact (gw_removed now now_ns idle s Hg)|rewrite En; lia|unfold held; rewrite Ep; lia|intros c _; exact (removed_moved idle s c _ (fun _ => eq_refl))].
  - eexists _, _, _, _. split; [reflexivity|]. split; [|cbn; lia|unfold held; cbn; lia|intros c _; by apply quiet_moved].
    destruct Hg as [Gp Gc Gb Gs Gw Gd Gn Gk Gl Gm]. by split; try done; apply (limits_same _ s).
  - eexists _, _, _, _. split; [reflexivity|]. destruct (gw_shut now now_ns now_ns drain s Hg) as (Hg' & Ec & Ep & _ & En).
    split; [done|rewrite En; lia|unfold held; rewrite Ep; lia|intros c _; by apply quiet_moved].
Qed.

(** A client order id that is bound stays bound to its order, while the order
    is not refused by risk and its window lasts. *)
Definition bound (u : Z) (cid oid : list Z) (t : Z) (s : GatewayState) : Prop := ci_bindings (gs_client_ids s) !! ((u, cid) : Key) = Some (mkBinding oid t).

Definition spares (oid : list Z) (t now_ns : Z) (op : GwOp) : Prop :=
  match op with
  | GwEvent (EvOrderFailed r) => join_order_id (wx_order_id_hi r) (wx_order_id_lo r) <> oid
  | GwSweep _ => now_ns <= t + WINDOW_NS
  | _ => True
  end.

Lemma bound_same u cid oid t s s' : bound u cid oid t s -> gs_client_ids s' = gs_client_ids s -> bound u cid oid t s'.
Proof. unfold bound. by intros Hb ->. Qed.

Lemma bound_frame u cid oid t now now_ns sent ip u' conn oid' frame sd s frames out sd' s' :
  bound u cid oid t s -> gw_ok now now_ns s -> in_u64 now -> 0 <= now_ns -> held s + 1 < U64_MAX ->
  on_client_frame sent now now_ns ip u' conn oid' frame sd s = Ok (frames, out, sd', s') -> bound u cid oid t s'.
Proof.
  intros Hb Hg Hn Hw Hh. unfold on_client_frame. set (s1 := touch_connection conn now_ns s). assert (gw_ok now now_ns s1) as Hg1 by (by apply gw_touched).
  assert (bound u cid oid t s1) as Hb1 by done.
  destruct frame as [sym side price qty cid' tif ro po|key| | | | | ]; try by intros [= <- <- <- <-].
  - destruct (new_order_taken sent now now_ns ip u' oid' sym side price qty cid' tif ro po sd s1 Hg1 Hn Hw Hh) as (o & -> & Ht & _). intros [= ->].
    inversion Ht as [f sd1 s2 _ _ _ Ec _|oid1 sd1 s2 _ _ Ec _|order sd1 s2 En Ec _ _ _ _ _]; subst; try by eapply bound_same.
    unfold bound. rewrite Ec. cbn. rewrite lookup_insert_ne; [done|]. intros [= -> E]. unfold cid_get in En. rewrite E in En. unfold bound in Hb1. by rewrite (Hb1 : ci_bindings (gs_client_ids s1) !! (u, cid) = _) in En.
  - destruct (cancel_calm sent now now_ns ip u' key sd s1 Hg1 Hn) as (_ & _ & _ & Ec). intros [= E]. rewrite E in Ec. by eapply bound_same.
Qed.

Lemma bound_event u cid oid t now_ns event s : bound u cid oid t s -> spares oid t now_ns (GwEvent event) -> bound u cid oid t (on_cast_event now_ns event s).2.
Proof.
  intros Hb Hs. destruct (alike_fields _ _ (po_alike _ _ _ (event_posted now_ns event s))) as (_ & Ec & _).
  enough (bound u cid oid t (event_orders event s)) as Hb' by (by eapply bound_same).
  destruct event as [r|r|r|r|r|sid v]; cbn [event_orders]; try done; [by case_if|].
  pose proof (remove_orders (wx_user_id r) (join_order_id (wx_order_id_hi r) (wx_order_id_lo r)) (gs_pending s)) as Hr.
  destruct (pd_remove _ _ _) as [[o|] p]; cbn [fst snd] in Hr; [|done]. destruct Hr as [Ho _]. unfold bound. cbn. rewrite remove_if_lookup.
  case_decide as Hk; [|done]. injection Hk as -> ->. rewrite Hb. cbn. rewrite bool_decide_false; [done|]. intros E. apply Hs. by rewrite <- Ho, <- E.
Qed.

Lemma bound_sweep u cid oid t now now_ns timeout s : bound u cid oid t s -> gw_ok now now_ns s -> 0 <= t -> now_ns <= t + WINDOW_NS -> bound u cid oid t (sweep now_ns timeout s).
Proof.
  intros Hb Hg Ht Hw. unfold sweep, bound. cbn [gs_orders gs_client_ids].
  destruct (alike_fields _ _ (po_alike _ _ _ (expire_posted (sat_u64 (now_ns - timeout)) s))) as (_ & -> & _). cbn [gs_orders gs_client_ids].
  destruct (expire_cids now_ns _ (go_cids _ _ _ Hg)) as [_ He]. rewrite He. unfold bound in Hb. rewrite Hb. cbn. rewrite decide_True; [done|].
  cbn. unfold sat_u64, clamp. width_unfold. lia.
Qed.

(** A step that is neither a frame, an event nor a sweep leaves orders and ids
    alone. *)
Lemma step_quiet now now_ns op sd s frames out sd' s' : gw_ok now now_ns s -> gs_next_conn_id s < U64_MAX -> gw_do now now_ns op sd s = Ok (frames, out, sd', s') ->
  match op with GwFrame _ _ _ _ _ _ | GwEvent _ | GwSweep _ => True | _ => gs_pending s' = gs_pending s /\ gs_client_ids s' = gs_client_ids s end.
Proof.
  intros Hg Hx. assert (forall s s', alike s s' -> gs_pending s' = gs_pending s /\ gs_client_ids s' = gs_client_ids s) as Ha by (intros ? ? Ha; by destruct (alike_fields _ _ Ha) as (? & ? & _)).
  destruct op as [sent ip u' conn oid' frame|c0|c0|c0|u'|c0|event|timeout| |timeout|table|drain]; cbn [gw_do]; try done.
  - by intros [= <- <- <- <-].
  - unfold serve_egress, poll_wait, drain_outbound. destruct (gs_egress s !! c0) as [e|]; [destruct (ge_pending e); cbn; [destruct (gs_connections s !! c0)|]|];
      by intros [= <- <- <- <-].
  - unfold drain_outbound. destruct (gs_connections s !! c0); by intros [= <- <- <- <-].
  - intros [= <- <- <- <-]. destruct (gw_opened now now_ns u' s Hg Hx) as (_ & _ & E1 & E2 & _). done.
  - intros [= <- <- <- <-]. exact (Ha _ _ (proj1 (removed_conns [c0] s))).
  - intros [= <- <- <- <-]. exact (Ha _ _ (po_alike _ _ _ (beat_posted _ s))).
  - intros [= <- <- <- <-]. exact (Ha _ _ (proj1 (removed_conns (map fst _) s))).
  - by intros [= <- <- <- <-].
  - intros [= <- <- <- <-]. destruct (gw_shut now now_ns now_ns drain s Hg) as (_ & _ & E1 & E2 & _). done.
Qed.

Lemma bound_step u cid oid t now now_ns op sd s frames out sd' s' : bound u cid oid t s -> gw_ok now now_ns s -> in_u64 now -> 0 <= now_ns ->
  gs_next_conn_id s < U64_MAX -> held s + 1 < U64_MAX ->
  spares oid t now_ns op -> gw_do now now_ns op sd s = Ok (frames, out, sd', s') -> bound u cid oid t s'.
Proof.
  intros Hb Hg Hn Hw Hx Hh Hs. assert (0 <= t) as Ht by apply (co_past _ _ (go_cids _ _ _ Hg) t _ (co_listed _ _ (go_cids _ _ _ Hg) _ _ Hb)).
  intros Ho. pose proof (step_quiet _ _ _ _ _ _ _ _ _ Hg Hx Ho) as Hq. destruct op; cbn [gw_do] in Ho; try (by eapply bound_same; [exact Hb|apply Hq]).
  - by eapply bound_frame.
  - injection Ho as <- <- <- <-. by apply bound_event.
  - injection Ho as <- <- <- <-. by eapply bound_sweep.
Qed.

(** An order is tracked, until risk is done with it or its window is over. *)
Definition tracks (u : Z) (oid : list Z) (sym t : Z) (s : GatewayState) : Prop :=
  (exists o, In o (orders (gs_pending s)) /\ po_order_id o = oid) /\
  forall o, In o (orders (gs_pending s)) -> po_order_id o = oid -> po_user_id o = u /\ po_symbol_id o = sym /\ po_timestamp_ns o = t.

Definition leaves (oid : list Z) (t now_ns : Z) (op : GwOp) : Prop :=
  match op with
  | GwFrame _ _ _ _ oid' (NewOrder _ _ _ _ _ _ _ _) => oid' <> oid
  | GwEvent (EvOrderDone r) => join_order_id (wd_order_id_hi r) (wd_order_id_lo r) <> oid
  | GwEvent (EvOrderFailed r) => join_order_id (wx_order_id_hi r) (wx_order_id_lo r) <> oid
  | GwSweep _ => now_ns <= t + WINDOW_NS
  | _ => True
  end.

Lemma tracks_same u oid sym t s s' : tracks u oid sym t s -> gs_pending s' = gs_pending s -> tracks u oid sym t s'.
Proof. unfold tracks. by intros Hb ->. Qed.

Lemma tracks_perm u oid sym t s s' (f : PendingOrder -> PendingOrder) (keep : PendingOrder -> bool) :
  (forall o, po_order_id (f o) = po_order_id o /\ po_user_id (f o) = po_user_id o /\ po_symbol_id (f o) = po_symbol_id o /\ po_timestamp_ns (f o) = po_timestamp_ns o) ->
  (forall o, po_order_id o = oid -> po_timestamp_ns o = t -> keep (f o) = true) ->
  orders (gs_pending s') ≡ₚ List.filter keep (map f (orders (gs_pending s))) -> tracks u oid sym t s -> tracks u oid sym t s'.
Proof.
  intros Hf Hk Hp [(o & Ho & Ei) Ha]. assert (forall x, In x (orders (gs_pending s')) <-> exists y, f y = x /\ In y (orders (gs_pending s)) /\ keep x = true) as Hin.
  { intros x. rewrite <- list_elem_of_In, Hp, list_elem_of_In, filter_In, in_map_iff. naive_solver. }
  split.
  - exists (f o). destruct (Hf o) as (E & _). split; [|by rewrite E]. apply Hin. exists o. split; [done|]. split; [done|]. apply Hk; [done|]. by apply Ha.
  - intros x (y & <- & Hy & _)%Hin. destruct (Hf y) as (-> & -> & -> & ->). by apply Ha.
Qed.

Lemma tracks_remove u oid sym t s s' u' oid' : oid' <> oid -> gs_pending s' = (pd_remove u' oid' (gs_pending s)).2 -> tracks u oid sym t s -> tracks u oid sym t s'.
Proof.
  intros Hne Ep Ht. pose proof (remove_orders u' oid' (gs_pending s)) as Hr. destruct (pd_remove u' oid' (gs_pending s)) as [[o|] p]; cbn [fst snd] in *; subst p.
  - destruct Hr as [Eo Hr]. destruct Ht as [(x & Hx & Ex) Ha].
    assert (forall y, In y (orders (gs_pending s)) <-> y = o \/ In y (orders (gs_pending s'))) as Hin by (intros y; rewrite <- list_elem_of_In, Hr, elem_of_cons, list_elem_of_In; done).
    split; [|intros y Hy Ey; apply Ha; [apply Hin; by right|done]]. exists x. apply Hin in Hx as [->|Hx]; [congruence|done].
  - eapply tracks_same; [exact Ht|]. by destruct Hr.
Qed.

Lemma tracks_event u oid sym t now_ns event s : tracks u oid sym t s -> leaves oid t now_ns (GwEvent event) -> tracks u oid sym t (on_cast_event now_ns event s).2.
Proof.
  intros Ht Hl. destruct (alike_fields _ _ (po_alike _ _ _ (event_posted now_ns event s))) as (Ep & _).
  enough (tracks u oid sym t (event_orders event s)) as Hb' by (by eapply tracks_same).
  destruct event as [r|r|r|r|r|sid v]; cbn [event_orders]; try done.
  - case_if; [done|]. by eapply tracks_remove; [exact Hl|reflexivity|].
  - pose proof (resting_orders (wn_user_id r) (join_order_id (wn_order_id_hi r) (wn_order_id_lo r)) (gs_pending s)) as Hm.
    destruct (mark_resting _ _ _) as [[] p] eqn:Er; cbn [fst snd] in Hm; [|by destruct Hm as [-> _]; destruct s]. destruct Hm as (o & rest & Eo & H1 & H2).
    destruct Ht as [(x & Hx & Ex) Ha]. unfold tracks. cbn [gs_orders gs_pending snd].
    assert (forall y, In y (orders (gs_pending s)) <-> y = o \/ In y rest) as Hi1 by (intros y; rewrite <- list_elem_of_In, H1, elem_of_cons, list_elem_of_In; done).
    assert (forall y, In y (orders p) <-> y = po_with_stage Resting o \/ In y rest) as Hi2 by (intros y; rewrite <- list_elem_of_In, H2, elem_of_cons, list_elem_of_In; done).
    split.
    + apply Hi1 in Hx as [->|Hx]; [exists (po_with_stage Resting o)|exists x]; (split; [apply Hi2|done]); [by left|by right].
    + intros y [->|Hy]%Hi2 Ey; [apply (Ha o); [apply Hi1; by left|done]|apply Ha; [apply Hi1; by right|done]].
  - destruct (pd_remove _ _ _) as [o p] eqn:Er. eapply tracks_remove; [exact Hl| |exact Ht]. cbn [gs_orders gs_pending]. by rewrite Er.
Qed.

Lemma tracks_sweep u oid sym t now_ns timeout s : 0 <= t -> now_ns <= t + WINDOW_NS -> tracks u oid sym t s -> tracks u oid sym t (sweep now_ns timeout s).
Proof.
  intros Ht Hw. apply (tracks_perm u oid sym t s _ (time_one (sat_u64 (now_ns - timeout))) (keeps (sat_u64 (now_ns - WINDOW_NS)))).
  - intros o. unfold time_one. by case_if.
  - intros o _ Eo. unfold keeps. assert (po_timestamp_ns (time_one (sat_u64 (now_ns - timeout)) o) = t) as -> by (rewrite <- Eo; unfold time_one; by case_if).
    apply orb_true_iff. right. unfold sat_u64, clamp. width_unfold. lia.
  - unfold sweep. cbn [gs_orders gs_pending]. destruct (alike_fields _ _ (po_alike _ _ _ (expire_posted (sat_u64 (now_ns - timeout)) s))) as (-> & _). cbn [gs_orders gs_pending].
    rewrite drop_orders. apply filter_perm. apply timeout_orders.
Qed.

Lemma tracks_frame u oid sym t now now_ns sent ip u' conn oid' frame sd s frames out sd' s' :
  tracks u oid sym t s -> gw_ok now now_ns s -> in_u64 now -> 0 <= now_ns -> held s + 1 < U64_MAX -> leaves oid t now_ns (GwFrame sent ip u' conn oid' frame) ->
  on_client_frame sent now now_ns ip u' conn oid' frame sd s = Ok (frames, out, sd', s') -> tracks u oid sym t s'.
Proof.
  intros Hb Hg Hn Hw Hh Hl. unfold on_client_frame. set (s1 := touch_connection conn now_ns s). assert (gw_ok now now_ns s1) as Hg1 by (by apply gw_touched).
  assert (tracks u oid sym t s1) as Hb1 by done.
  destruct frame as [sym' side price qty cid' tif ro po|key| | | | | ]; try by intros [= <- <- <- <-].
  - destruct (new_order_taken sent now now_ns ip u' oid' sym' side price qty cid' tif ro po sd s1 Hg1 Hn Hw Hh) as (o & -> & Ht & _). intros [= ->].
    inversion Ht as [f sd1 s2 _ _ Ep _ _|oid1 sd1 s2 _ Ep _ _|order sd1 s2 En Ec _ _ _ _ Ep]; subst; try by eapply tracks_same.
    pose proof (push_orders (mkPending oid' u' sym' (cid_bytes cid') now_ns Submitted) (gs_pending s1)) as Ho. rewrite Ep in Ho. specialize (Ho eq_refl). cbn [snd] in Ho.
    destruct Hb1 as [(x & Hx & Ex) Ha]. rewrite <- list_elem_of_In in Hx. unfold tracks.
    split; [exists x; split; [rewrite <- list_elem_of_In, Ho; by right|done]|]. intros y Hy. rewrite <- list_elem_of_In, Ho, elem_of_cons, list_elem_of_In in Hy.
    destruct Hy as [->|Hy]; [by intros Ey|by apply Ha].
  - destruct (cancel_calm sent now now_ns ip u' key sd s1 Hg1 Hn) as (_ & _ & Ep & _). intros [= E]. rewrite E in Ep. by eapply tracks_same.
Qed.

Lemma tracks_step u oid sym t now now_ns op sd s frames out sd' s' : 0 <= t -> tracks u oid sym t s -> gw_ok now now_ns s -> in_u64 now -> 0 <= now_ns ->
  gs_next_conn_id s < U64_MAX -> held s + 1 < U64_MAX -> leaves oid t now_ns op -> gw_do now now_ns op sd s = Ok (frames, out, sd', s') -> tracks u oid sym t s'.
Proof.
  intros Ht Hb Hg Hn Hw Hx Hh Hs.
  intros Ho. pose proof (step_quiet _ _ _ _ _ _ _ _ _ Hg Hx Ho) as Hq. destruct op; cbn [gw_do] in Ho; try (by eapply tracks_same; [exact Hb|apply Hq]).
  - by eapply tracks_frame.
  - injection Ho as <- <- <- <-. by apply tracks_event.
  - injection Ho as <- <- <- <-. by apply tracks_sweep.
Qed.

(** A tracked order is found. *)
Lemma tracks_found u oid sym t s : tracks u oid sym t s -> pending_ok (gs_pending s) ->
  exists o, find_by_order_id u oid (gs_pending s) = Some o /\ po_order_id o = oid /\ po_symbol_id o = sym.
Proof.
  intros [(o & Ho & Ei) Ha] Hok. destruct (Ha o Ho Ei) as (Eu & _). pose proof Ho as Hin. unfold orders in Hin. apply orders_in in Hin as (u' & q & Eq & Hq).
  pose proof (pn_filed _ Hok _ _ _ Eq Hq) as Hu. assert (u' = u) as -> by congruence. unfold find_by_order_id. rewrite Eq. cbn.
  destruct (List.find (is_order oid) q) as [x|] eqn:Ef.
  - apply find_some in Ef as [Hx Ex]. unfold is_order in Ex. apply bool_decide_eq_true in Ex. exists x. split; [done|]. split; [done|].
    apply Ha; [|done]. unfold orders. apply orders_in. by exists u, q.
  - apply (find_none _ _ Ef) in Hq. unfold is_order in Hq. by rewrite bool_decide_true in Hq.
Qed.

End Sessions.
