(* ===== verification/GatewayClaims.v ===== *)
(** * GatewayClaims: what the gateway promises its clients

    Sessions of the gateway: every request, event and sweep returns and keeps
    it in order; a request that is repeated is answered with the order it made;
    every update for a user reaches each of his connections, in order, or the
    connection is closed. *)

From Stdlib Require Import String Sorted.
From S2P Require Import Prelude Hash Types Frames Messages Wal Cast CastExamples Dedup Margin Admission Gateway GatewayInv.

Section Claims.
Context `{Crc32c} `{HashIter}.

(** ** Runs *)

Record GwStep : Type := mkGwStep { gt_now_ns : Z; gt_op : GwOp; gt_pre : GatewayState; gt_frames : list WsFrame; gt_datagrams : list (list Z) }.

Fixpoint gw_run (ops : list (Z * Z * GwOp)) (sd : CastSender) (s : GatewayState) : Res (list GwStep * CastSender * GatewayState) :=
  match ops with
  | [] => Ok ([], sd, s)
  | (now, now_ns, op) :: ops =>
      '(frames, out, sd', s') ← gw_do now now_ns op sd s;
      '(trace, sd', s') ← gw_run ops sd' s';
      Ok (mkGwStep now_ns op s frames out :: trace, sd', s')
  end.

(** Both clocks go forward; where they end. *)
Fixpoint gw_clocks (now now_ns : Z) (ops : list (Z * Z * GwOp)) : Prop :=
  match ops with
  | [] => True
  | (t, w, _) :: ops => now <= t <= U64_MAX /\ now_ns <= w /\ gw_clocks t w ops
  end.

Fixpoint gw_end (now now_ns : Z) (ops : list (Z * Z * GwOp)) : Z * Z :=
  match ops with [] => (now, now_ns) | (t, w, _) :: ops => gw_end t w ops end.

(** A session that may start in [s]: the counters outlast it. *)
Record gw_session (now now_ns : Z) (ops : list (Z * Z * GwOp)) (s : GatewayState) : Prop := {
  gss_ok : gw_ok now now_ns s;
  gss_start : 0 <= now /\ 0 <= now_ns;
  gss_clocks : gw_clocks now now_ns ops;
  gss_fit : Forall (fun top => op_fit top.2) ops;
  gss_next : gs_next_conn_id s + zlen ops <= U64_MAX;
  gss_held : held s + zlen ops + 1 < U64_MAX;
}.

(** What connection [c] of user [u] was told along a run, and what was handed
    to it. *)
Definition told (c u : Z) (trace : list GwStep) : list WsFrame := flat_map (fun st => posts_to (op_posts (gt_now_ns st) (gt_op st) (gt_pre st)) c u) trace.
Definition handed_all (c : Z) (trace : list GwStep) : list WsFrame := flat_map (fun st => handed c (gt_op st) (gt_frames st)) trace.

(** What steps that satisfy [C] keep. *)
Definition kept_by (I : GatewayState -> Prop) (C : Z -> GwOp -> Prop) : Prop :=
  forall now now_ns op sd s frames out sd' s', I s -> gw_ok now now_ns s -> in_u64 now -> 0 <= now_ns -> gs_next_conn_id s < U64_MAX -> held s + 1 < U64_MAX ->
    C now_ns op -> gw_do now now_ns op sd s = Ok (frames, out, sd', s') -> I s'.

Lemma run_steps ops now now_ns sd s : gw_session now now_ns ops s ->
  exists trace sd' s', gw_run ops sd s = Ok (trace, sd', s') /\
    gw_ok (gw_end now now_ns ops).1 (gw_end now now_ns ops).2 s' /\ now_ns <= (gw_end now now_ns ops).2 /\ held s' <= held s + zlen ops /\
    (forall c, c < gs_next_conn_id s -> moved (queue_of s c) (queue_of s' c) (fun u => told c u trace) (handed_all c trace)) /\
    (forall I C, kept_by I C -> I s -> Forall (fun top => C top.1.2 top.2) ops -> I s').
Proof.
  revert now now_ns sd s. induction ops as [|[[t w] op] ops IH]; intros now now_ns sd s [Hg [Hz0 Hz1] Hcl Hf Hx Hh].
  - eexists _, _, _. split; [reflexivity|]. split; [done|]. split; [cbn; lia|]. split; [unfold zlen; cbn; lia|]. split; [|done].
    intros c _. by apply moved_same.
  - cbn [gw_clocks] in Hcl. destruct Hcl as (Ht & Hw & Hcl). apply Forall_cons in Hf as [Hf1 Hf]. cbn [snd] in Hf1. rewrite zlen_cons in *. pose proof (zlen_nonneg ops).
    pose proof (gw_later _ _ t w _ Hg ltac:(lia) ltac:(lia)) as Hg1. assert (in_u64 t) as Hu by width_lia.
    destruct (gw_step t w op sd s Hg1 Hu ltac:(lia) Hf1 ltac:(lia) ltac:(lia)) as (frames & out & sd1 & s1 & E & [Hg2 Hn2 Hh2 Hm2]).
    assert (gw_session t w ops s1) as Hs1 by (split; [done|lia|done|done|lia|lia]).
    destruct (IH t w sd1 s1 Hs1) as (trace & sd2 & s2 & Er & Hg3 & Hw3 & Hh3 & Hm3 & Hb3).
    eexists _, sd2, s2. cbn [gw_run gw_end]. rewrite E. cbn [mbind Res_bind]. rewrite Er. cbn [mbind Res_bind]. split; [reflexivity|].
    split; [done|]. split; [lia|]. split; [lia|]. split.
    + intros c Hc. unfold told, handed_all. cbn [flat_map gt_op gt_pre gt_frames gt_now_ns]. eapply moved_on; [exact (Hm2 c Hc)|apply (Hm3 c); lia].
    + intros I C Hk Hb Hs. apply Forall_cons in Hs as [Hs1' Hs]. apply (Hb3 I C Hk); [|done]. eapply Hk; [exact Hb|exact Hg1|done|lia|lia|lia|exact Hs1'|exact E].
Qed.

(** ** The claims *)

(** C14: In every session of frames, connections, updates of risk, sweeps,
    heartbeats, new symbol tables and shutdown, started in a gateway in order,
    each step returns and the gateway is in order at the end: the counters of
    pending orders count, bound ids expire in order, limiters hold at most
    their capacity, no breaker is left half open, every queue is within its
    bound and every connection's wake stands for what is queued. *)
Theorem gateway_session_safe now now_ns ops sd s : gw_session now now_ns ops s ->
  exists trace sd' s', gw_run ops sd s = Ok (trace, sd', s') /\ gw_ok (gw_end now now_ns ops).1 (gw_end now now_ns ops).2 s'.
Proof. intros Hs. destruct (run_steps ops now now_ns sd s Hs) as (trace & sd' & s' & Hr & Hg & _). by exists trace, sd', s'. Qed.

(** C13: Nothing that concerns a user is lost or reordered: what was handed to
    a connection and what its queue holds is its old queue and every update for
    its user since, in order, and a poll hands over all of it; a connection
    that was closed got a prefix and its handler is told. *)
Theorem updates_complete now now_ns ops sd s c conn : gw_session now now_ns ops s -> gs_connections s !! c = Some conn ->
  exists trace sd' s', gw_run ops sd s = Ok (trace, sd', s') /\
    match gs_connections s' !! c with
    | Some conn' =>
        gc_user_id conn' = gc_user_id conn /\
        handed_all c trace ++ gc_outbound conn' = gc_outbound conn ++ told c (gc_user_id conn) trace /\ (serve_egress c s').1 = gc_outbound conn'
    | None =>
        (exists rest, gc_outbound conn ++ told c (gc_user_id conn) trace = handed_all c trace ++ rest) /\
        (forall e, gs_egress s' !! c = Some e -> (poll_closed c e).1 = true)
    end.
Proof.
  intros Hs Ec. destruct (run_steps ops now now_ns sd s Hs) as (trace & sd' & s' & Hr & Hg & _ & _ & Hm & _).
  exists trace, sd', s'. split; [done|]. destruct (go_next _ _ _ (gss_ok _ _ _ _ Hs) c ltac:(by eexists)) as [_ Hlt]. specialize (Hm c Hlt).
  unfold queue_of in Hm. rewrite Ec in Hm. cbn in Hm. pose proof (go_wakes _ _ _ Hg) as Hw. pose proof (serve_cases c s' Hw) as Hsv. specialize (Hw c).
  destruct (gs_connections s' !! c) as [conn'|]; cbn in Hm.
  - destruct Hm as [Hu Hq]. split; [done|]. split; [done|]. destruct Hsv as (e & _ & Hsv). destruct (ge_pending e); [by rewrite Hsv|]. by destruct Hsv as [-> ->].
  - split; [done|]. intros e Ee. unfold poll_closed. by rewrite (Hw e Ee).
Qed.

(** C12: Retrying an order is safe.  Once it was sent to risk, any new order of
    the user with the same client order id, however much later within the
    window and whatever happened in between short of risk refusing the order,
    sends nothing and tracks nothing: it is answered with the order id of the
    first, or turned away by the limits. *)
Theorem retry_idempotent now now_ns sent ip u conn oid sym side price qty cid tif ro po sd s out sd1 s1 ops now2 now_ns2 :
  gw_ok now now_ns s -> in_u64 now -> 0 <= now_ns -> held s + 1 < U64_MAX ->
  on_client_frame sent now now_ns ip u conn oid (NewOrder sym side price qty cid tif ro po) sd s = Ok ([], out, sd1, s1) ->
  gw_session now now_ns ops s1 -> Forall (fun top => spares oid now_ns top.1.2 top.2) ops ->
  (gw_end now now_ns ops).1 <= now2 <= U64_MAX -> 0 <= now2 -> (gw_end now now_ns ops).2 <= now_ns2 ->
  exists trace sd2 s2, gw_run ops sd1 s1 = Ok (trace, sd2, s2) /\
    forall sent' ip' conn' oid' sym' side' price' qty' tif' ro' po', exists f s3,
      on_client_frame sent' now2 now_ns2 ip' u conn' oid' (NewOrder sym' side' price' qty' cid tif' ro' po') sd2 s2 = Ok ([f], [], sd2, s3) /\
      gs_pending s3 = gs_pending s2 /\ (f = answer_duplicate oid (cid_bytes cid) \/ f = rejected RATE_LIMITED \/ f = rejected OVERLOADED).
Proof.
  intros Hg Hn Hw Hh E Hs Hsp Ht Ht0 Hw2. unfold on_client_frame in E. set (s0 := touch_connection conn now_ns s) in *.
  assert (gw_ok now now_ns s0) as Hg0 by (by apply gw_touched).
  destruct (new_order_taken sent now now_ns ip u oid sym side price qty cid tif ro po sd s0 Hg0 Hn Hw Hh) as (o & E' & Hk & _). rewrite E' in E. injection E as ->.
  assert (bound u (cid_bytes cid) oid now_ns s1) as Hb.
  { inversion Hk; subst. unfold bound. match goal with Hc : gs_client_ids s1 = _ |- _ => rewrite Hc end. apply lookup_insert_eq. }
  destruct (run_steps ops now now_ns sd1 s1 Hs) as (trace & sd2 & s2 & Hr & Hg2 & Hw3 & Hh2 & _ & Hb2). specialize (Hb2 _ _ (bound_step u (cid_bytes cid) oid now_ns) Hb Hsp).
  pose proof (gss_held _ _ _ _ Hs) as Hh1. exists trace, sd2, s2. split; [done|]. intros sent' ip' conn' oid' sym' side' price' qty' tif' ro' po'.
  pose proof (gw_later _ _ now2 now_ns2 _ Hg2 ltac:(lia) Hw2) as Hg3. cbn [on_client_frame]. set (s2' := touch_connection conn' now_ns2 s2).
  assert (gw_ok now2 now_ns2 s2') as Hg3' by (by apply gw_touched). assert (in_u64 now2) as Hu by width_lia.
  destruct (new_order_taken sent' now2 now_ns2 ip' u oid' sym' side' price' qty' cid tif' ro' po' sd2 s2' Hg3' Hu ltac:(lia)) as (o & -> & Hk2 & _).
  { change (held s2' + 1 < U64_MAX). change (held s2') with (held s2). lia. }
  assert (cid_get u (cid_bytes cid) (gs_client_ids s2') = Some oid) as Eg.
  { unfold cid_get. by rewrite (Hb2 : ci_bindings (gs_client_ids s2') !! (u, cid_bytes cid) = _). }
  inversion Hk2 as [f sd' s' _ Hl Ep _ Es|oid1 sd' s' E1 Ep _ Es|order sd' s' E1]; subst; [| |congruence].
  - exists f, s'. split; [done|]. split; [done|]. right. apply Hl. by rewrite Eg.
  - eexists _, s'. split; [done|]. split; [done|]. left. by rewrite Eg in E1; injection E1 as ->.
Qed.

(** C15: An order can be cancelled while it lives.  Once it was sent to risk,
    and until risk reports it done or refused or its window is over, a cancel
    by the id the client was told sends exactly one record, which names this
    order, its user and its symbol, or is turned away by the limits. *)
Theorem order_cancellable now now_ns sent ip u conn oid sym side price qty cid tif ro po sd s out sd1 s1 ops now2 now_ns2 :
  gw_ok now now_ns s -> in_u64 now -> 0 <= now_ns -> held s + 1 < U64_MAX -> length oid = 16%nat -> Forall is_byte oid ->
  (forall o, In o (orders (gs_pending s)) -> po_order_id o <> oid) ->
  on_client_frame sent now now_ns ip u conn oid (NewOrder sym side price qty cid tif ro po) sd s = Ok ([], out, sd1, s1) ->
  gw_session now now_ns ops s1 -> Forall (fun top => leaves oid now_ns top.1.2 top.2) ops ->
  (gw_end now now_ns ops).1 <= now2 <= U64_MAX -> 0 <= now2 -> (gw_end now now_ns ops).2 <= now_ns2 ->
  exists trace sd2 s2, gw_run ops sd1 s1 = Ok (trace, sd2, s2) /\
    forall ip' conn' oid', exists frames out' sd3 s3,
      on_client_frame true now2 now_ns2 ip' u conn' oid' (Cancel (OrderId (order_id_to_hex oid))) sd2 s2 = Ok (frames, out', sd3, s3) /\
      (((frames = [rejected RATE_LIMITED] \/ frames = [rejected OVERLOADED]) /\ out' = []) \/
       (frames = [] /\ exists c, out' = [encode_record RECORD_CANCEL_REQUEST (as_bytes c)] /\
          cr_user_id c = u /\ cr_symbol_id c = sym /\ join_order_id (cr_order_id_hi c) (cr_order_id_lo c) = oid)).
Proof.
  intros Hg Hn Hw Hh Hl Hby Hfresh E Hs Hsp Ht Ht0 Hw2. unfold on_client_frame in E. set (s0 := touch_connection conn now_ns s) in *.
  assert (gw_ok now now_ns s0) as Hg0 by (by apply gw_touched).
  destruct (new_order_taken sent now now_ns ip u oid sym side price qty cid tif ro po sd s0 Hg0 Hn Hw Hh) as (o & E' & Hk & _). rewrite E' in E. injection E as ->.
  assert (tracks u oid sym now_ns s1) as Hb.
  { inversion Hk as [| |order sd' s' _ _ _ _ _ _ Ep]; subst. pose proof (push_orders (mkPending oid u sym (cid_bytes cid) now_ns Submitted) (gs_pending s0)) as Ho.
    rewrite Ep in Ho. specialize (Ho eq_refl). cbn [snd] in Ho. split; [eexists; rewrite <- list_elem_of_In, Ho; split; [by left|done]|].
    intros y Hy Ey. rewrite <- list_elem_of_In, Ho, elem_of_cons, list_elem_of_In in Hy. destruct Hy as [->|Hy]; [done|by destruct (Hfresh y Hy)]. }
  destruct (run_steps ops now now_ns sd1 s1 Hs) as (trace & sd2 & s2 & Hr & Hg2 & Hw3 & Hh2 & _ & Hb2).
  specialize (Hb2 _ (leaves oid now_ns) (fun n w op d a f x d' a' H1 H2 H3 H4 H5 H6 H7 H8 => tracks_step u oid sym now_ns n w op d a f x d' a' Hw H1 H2 H3 H4 H5 H6 H7 H8) Hb Hsp).
  exists trace, sd2, s2. split; [done|]. intros ip' conn' oid'. pose proof (gw_later _ _ now2 now_ns2 _ Hg2 ltac:(lia) Hw2) as Hg3. cbn [on_client_frame]. unfold on_cancel.
  pose proof (gw_touched _ _ conn' now_ns2 _ Hg3) as Hg3'. assert (in_u64 now2) as Hu by width_lia.
  pose proof (request_admitted now2 ip' u _ (go_limits _ _ _ Hg3') Hu) as Ha. destruct (admit_request now2 ip' u _) as [refused s3]. destruct Ha as (_ & _ & Ep & _ & _ & Hr3).
  destruct refused as [r|].
  - eexists _, _, _, _. split; [reflexivity|]. left. split; [|done]. destruct Hr3 as [?|[[= ->]|[= ->]]]; [done|by left|by right].
  - unfold hex_to_order_id. rewrite hex_length, Hl. cbn [Nat.mul Nat.add Nat.eqb]. rewrite (hex_back _ Hby), Ep. change (gs_pending (touch_connection conn' now_ns2 s2)) with (gs_pending s2).
    destruct (tracks_found _ _ _ _ _ Hb2 (go_pending _ _ _ Hg3)) as (x & -> & Ei & Es). rewrite Ei, Es. pose proof (split_join oid Hl Hby) as Hj.
    destruct (split_order_id oid) as [hi lo]. cbn [fst snd] in Hj. unfold forward, send_raw. eexists _, _, _, _. split; [reflexivity|]. right. split; [done|]. by eexists.
Qed.

End Claims.

(** C16: A limiter is exact and never lets a burst through: from its start on,
    whatever the instants of the requests, at most its capacity and what was
    refilled since are admitted, and the next request is admitted exactly when
    a whole token is there. *)
Theorem rate_limit_exact now capacity rate ts : in_u32 capacity -> in_u32 rate -> in_u64 now -> timely now ts ->
  let '(admitted, l) := consume ts (RateLimiter_new now capacity rate) in
  MICROS_PER_SEC * admitted <= MICROS_PER_SEC * capacity + rate * ((rl_last_refill l - now) / 1000) /\
  forall t, rl_last_refill l <= t <= U64_MAX ->
    (try_consume t l).1 = (MICROS_PER_SEC <=? Z.min (MICROS_PER_SEC * capacity) (rl_tokens l + rate * ((t - rl_last_refill l) / 1000))).
Proof.
  intros Hc Hr Hn Ht. pose proof (new_limiter_ok now capacity rate Hc Hr Hn) as Ho. pose proof (consume_bound ts _ Ho Ht) as Hb.
  destruct (consume ts (RateLimiter_new now capacity rate)) as [n l]. cbn [fst snd] in Hb. destruct Hb as (Hl & _ & Ec & Er & Hle).
  unfold RateLimiter_new, MICROS_PER_SEC in *. rewrite wrap_i64_id in * by width_lia. cbn [rl_tokens rl_capacity rl_refill_rate rl_last_refill] in *.
  split; [pose proof (lo_tokens l Hl); lia|]. intros t Hb. destruct (consume_exact t l Hl Hb) as [-> _]. cbn [fst]. unfold credit, MICROS_PER_SEC. rewrite Ec, Er.
  by rewrite (Z.mul_comm 1000000 capacity).
Qed.

(** A gateway as it starts is in order. *)
Lemma new_gw_ok now now_ns max_pending threshold cooldown symbols : in_u64 now -> 0 <= max_pending -> 0 <= threshold <= U32_MAX -> tradable symbols ->
  gw_ok now now_ns (GatewayState_new now max_pending threshold cooldown symbols).
Proof.
  intros Hn Hm Ht Hs. split; cbn; try done.
  - split; [constructor|done|done].
  - unfold settled. cbn. lia.
  - intros c. cbn. by rewrite lookup_empty.
  - by intros c [? E].
  - split; [|done|done]. intros l [[u E]|[[ip E]|<-]]; [done|done|]. cbn. split; [by apply new_limiter_ok|lia].
Qed.

(** ** At work *)

Module GatewayDemo.

#[local] Existing Instance CastDemo.castagnoli.

Ltac by_eval := vm_compute; repeat match goal with |- _ /\ _ => split end; first [reflexivity | discriminate | lia].

Definition symbols : gmap Z SymbolEntry := build_table [Build_SymbolConfig 1 2 3 5 10].
Definition born : GatewayState := GatewayState_new 1000 2 3 100 symbols.

Lemma symbols_ok : tradable symbols.
Proof. intros sid e E. unfold symbols, build_table in E. cbn in E. apply lookup_insert_Some in E as [[_ <-]|[_ E]]; [by_eval|done]. Qed.

Lemma born_ok : gw_ok 1000 5000 born.
Proof. apply new_gw_ok; [by_eval|lia|by_eval|apply symbols_ok]. Qed.

(** Users 9 and 7 connect. *)
Definition st0 : GatewayState := (open_connection 6000 7 (open_connection 6000 9 born).2).2.

Lemma st0_ok : gw_ok 2000 6000 st0.
Proof.
  assert (gw_ok 2000 6000 born) as Hb by (eapply gw_later; [apply born_ok|lia|lia]).
  apply gw_opened; [apply gw_opened; [exact Hb|by_eval]|by_eval].
Qed.

Definition sender : CastSender := mkSender 41 0 0 [] [] [] 0.
Definition oid : list Z := [1; 2; 3; 4; 5; 6; 7; 8; 9; 10; 11; 12; 13; 14; 15; 16].
Definition order : WsFrame := NewOrder 1 0 50000 20 [65; 66] 0 false false.
Definition hi : Z := (split_order_id oid).1.
Definition lo : Z := (split_order_id oid).2.

(** User 7's order rests and is done; user 9 is told nothing but the time. *)
Definition ops : list (Z * Z * GwOp) := [
  (3000, 7000, GwFrame true 99 7 1 oid order);
  (4000, 8000, GwEvent (EvOrderInserted (mkOrderInsertedRecord 1 7500 1 7 hi lo 50000 20 0 0 0 0)));
  (4000, 8100, GwServe 1);
  (4000, 9000, GwEvent (EvOrderDone (mkOrderDoneRecord 2 8500 1 7 hi lo 20 0 0 0 0 0 0 0 0 0 0 0)));
  (5000, 9500, GwBeat);
  (5000, 9600, GwSweep 1000);
  (5000, 9700, GwDrain 0)].

Lemma run_ok : gw_session 2000 6000 ops st0.
Proof.
  split; [exact st0_ok|lia|by_eval| |by_eval|by_eval]. unfold ops. repeat (apply Forall_cons; split; [exact I|]). by apply Forall_nil.
Qed.

Lemma gateway_session_safe_witness : gw_session 2000 6000 ops st0 /\
  exists trace sd' s', gw_run ops sender st0 = Ok (trace, sd', s') /\ gw_ok (gw_end 2000 6000 ops).1 (gw_end 2000 6000 ops).2 s'.
Proof. split; [exact run_ok|exact (gateway_session_safe 2000 6000 ops sender st0 run_ok)]. Defined.

(** User 7 is connection 1. *)
Definition greeted : ConnectionState := mkConn 7 [Heartbeat 0] 6000.

Lemma updates_complete_witness : gs_connections st0 !! 1 = Some greeted /\
  exists trace sd' s', gw_run ops sender st0 = Ok (trace, sd', s') /\
    match gs_connections s' !! 1 with
    | Some conn' =>
        gc_user_id conn' = 7 /\ handed_all 1 trace ++ gc_outbound conn' = [Heartbeat 0] ++ told 1 7 trace /\ (serve_egress 1 s').1 = gc_outbound conn'
    | None =>
        (exists rest, [Heartbeat 0] ++ told 1 7 trace = handed_all 1 trace ++ rest) /\ (forall e, gs_egress s' !! 1 = Some e -> (poll_closed 1 e).1 = true)
    end.
Proof. split; [by_eval|]. apply (updates_complete 2000 6000 ops sender st0 1 greeted run_ok). by_eval. Defined.

Definition the {A : Type} (d : A) (r : Res A) : A := match r with Ok x => x | _ => d end.

(** The frames user 7 reads. *)
Example user_7_reads :
  let '(trace, _, s) := the ([], sender, st0) (gw_run ops sender st0) in
  handed_all 1 trace = [Heartbeat 0; OrderUpdate (order_id_to_hex oid) 1 0 20 0 0 0 0 0 0] /\
  gc_outbound <$> gs_connections s !! 1 = Some [OrderUpdate (order_id_to_hex oid) 0 20 0 0 0 0 0 0 9000; Heartbeat 0].
Proof. vm_compute. split; reflexivity. Qed.

(** The order again: at once, and after it was done. *)
Definition first : Res Outcome := on_client_frame true 3000 7000 99 7 1 oid order sender st0.
Definition sent : list (list Z) := (the ([], [], sender, st0) first).1.1.2.
Definition sender1 : CastSender := (the ([], [], sender, st0) first).1.2.
Definition st1 : GatewayState := (the ([], [], sender, st0) first).2.

Lemma first_ok : first = Ok ([], sent, sender1, st1).
Proof. unfold sent, sender1, st1. assert (forall (r : Res Outcome) d, match r with Ok (fs, _, _, _) => fs = [] | _ => False end ->
  r = Ok ([], (the d r).1.1.2, (the d r).1.2, (the d r).2)) as Hr by (by intros [[[[fs out] sd] s]| |] d; cbn; [intros ->| |]). apply Hr. vm_compute. reflexivity. Qed.

Lemma st1_ok : gw_ok 3000 7000 st1.
Proof.
  assert (gw_ok 3000 7000 st0) as Hg by (eapply gw_later; [apply st0_ok|lia|lia]).
  destruct (frame_step true 3000 7000 99 7 1 oid order sender st0 Hg) as (fs & out & sd & s & E & Hs); [by_eval|lia|by_eval|].
  assert (st1 = s) as -> by (unfold st1, first; by rewrite E). apply Hs.
Qed.

Definition later : list (Z * Z * GwOp) := tail ops.

Lemma later_ok : gw_session 3000 7000 later st1.
Proof.
  split; [exact st1_ok|lia|by_eval| |by_eval|by_eval]. unfold later, ops. cbn [tail]. repeat (apply Forall_cons; split; [exact I|]). by apply Forall_nil.
Qed.

Lemma later_spares : Forall (fun top => spares oid 7000 top.1.2 top.2) later.
Proof. unfold later, ops. cbn [tail]. repeat (apply Forall_cons; split; [cbn; first [exact I | unfold WINDOW_NS; lia]|]). by apply Forall_nil. Qed.

Lemma retry_idempotent_witness : on_client_frame true 3000 7000 99 7 1 oid order sender st0 = Ok ([], sent, sender1, st1) /\
  exists trace sd2 s2, gw_run later sender1 st1 = Ok (trace, sd2, s2) /\
    forall sent' ip' conn' oid' sym' side' price' qty' tif' ro' po', exists f s3,
      on_client_frame sent' 6000 9800 ip' 7 conn' oid' (NewOrder sym' side' price' qty' [65; 66] tif' ro' po') sd2 s2 = Ok ([f], [], sd2, s3) /\
      gs_pending s3 = gs_pending s2 /\ (f = answer_duplicate oid (cid_bytes [65; 66]) \/ f = rejected RATE_LIMITED \/ f = rejected OVERLOADED).
Proof.
  split; [exact first_ok|]. apply (retry_idempotent 3000 7000 true 99 7 1 oid 1 0 50000 20 [65; 66] 0 false false sender st0 sent sender1 st1 later 6000 9800).
  - eapply gw_later; [apply st0_ok|lia|lia].
  - by_eval.
  - lia.
  - by_eval.
  - exact first_ok.
  - exact later_ok.
  - exact later_spares.
  - by_eval.
  - lia.
  - by_eval.
Defined.

(** While it rests. *)
Definition meanwhile : list (Z * Z * GwOp) := [
  (4000, 8000, GwEvent (EvOrderInserted (mkOrderInsertedRecord 1 7500 1 7 hi lo 50000 20 0 0 0 0)));
  (5000, 9500, GwBeat);
  (5000, 9600, GwSweep 1000);
  (5000, 9700, GwDrain 0)].

Lemma meanwhile_ok : gw_session 3000 7000 meanwhile st1.
Proof.
  split; [exact st1_ok|lia|by_eval| |by_eval|by_eval]. unfold meanwhile. repeat (apply Forall_cons; split; [exact I|]). by apply Forall_nil.
Qed.

Lemma meanwhile_leaves : Forall (fun top => leaves oid 7000 top.1.2 top.2) meanwhile.
Proof. unfold meanwhile. repeat (apply Forall_cons; split; [cbn; first [exact I | unfold WINDOW_NS; lia]|]). by apply Forall_nil. Qed.

Lemma oid_bytes : Forall is_byte oid.
Proof. unfold oid. repeat (apply Forall_cons; split; [by_eval|]). by apply Forall_nil. Qed.

Lemma order_cancellable_witness : on_client_frame true 3000 7000 99 7 1 oid order sender st0 = Ok ([], sent, sender1, st1) /\
  exists trace sd2 s2, gw_run meanwhile sender1 st1 = Ok (trace, sd2, s2) /\
    forall ip' conn' oid', exists frames out' sd3 s3,
      on_client_frame true 6000 9800 ip' 7 conn' oid' (Cancel (OrderId (order_id_to_hex oid))) sd2 s2 = Ok (frames, out', sd3, s3) /\
      (((frames = [rejected RATE_LIMITED] \/ frames = [rejected OVERLOADED]) /\ out' = []) \/
       (frames = [] /\ exists c, out' = [encode_record RECORD_CANCEL_REQUEST (as_bytes c)] /\
          cr_user_id c = 7 /\ cr_symbol_id c = 1 /\ join_order_id (cr_order_id_hi c) (cr_order_id_lo c) = oid)).
Proof.
  split; [exact first_ok|]. apply (order_cancellable 3000 7000 true 99 7 1 oid 1 0 50000 20 [65; 66] 0 false false sender st0 sent sender1 st1 meanwhile 6000 9800).
  - eapply gw_later; [apply st0_ok|lia|lia].
  - by_eval.
  - lia.
  - by_eval.
  - reflexivity.
  - exact oid_bytes.
  - intros o Ho. assert (orders (gs_pending st0) = []) as E by (vm_compute; reflexivity). by rewrite E in Ho.
  - exact first_ok.
  - exact meanwhile_ok.
  - exact meanwhile_leaves.
  - by_eval.
  - lia.
  - by_eval.
Defined.

(** A limiter of two a second: two at once, and one more half a second on. *)
Definition instants : list Z := [10; 10; 10; 500000010; 500000011].

Lemma instants_ok : timely 10 instants.
Proof. split; [|unfold instants; repeat (apply Forall_cons; split; [by_eval|]); by apply Forall_nil]. unfold instants. repeat (apply Sorted.Sorted_cons; [|first [apply Sorted.HdRel_nil | apply Sorted.HdRel_cons; by_eval]]). apply Sorted.Sorted_nil. Qed.

Lemma rate_limit_exact_witness : timely 10 instants /\
  let '(admitted, l) := consume instants (RateLimiter_new 10 2 2) in
  (MICROS_PER_SEC * admitted <= MICROS_PER_SEC * 2 + 2 * ((rl_last_refill l - 10) / 1000) /\
  forall t, rl_last_refill l <= t <= U64_MAX ->
    (try_consume t l).1 = (MICROS_PER_SEC <=? Z.min (MICROS_PER_SEC * 2) (rl_tokens l + 2 * ((t - rl_last_refill l) / 1000)))).
Proof. split; [exact instants_ok|]. apply (rate_limit_exact 10 2 2 instants); [by_eval|by_eval|by_eval|exact instants_ok]. Defined.

Example three_of_five : (consume instants (RateLimiter_new 10 2 2)).1 = 3.
Proof. reflexivity. Qed.

End GatewayDemo.
