(* ===== verification/Funding.v ===== *)
(** * Funding: rates, payments and the settlement of one symbol

    The pure part of [rsx-risk/src/funding.rs].  [settle_symbol] reconciles
    the individually floored payments of a shard's users with the floor of the
    shard's aggregate; the theorems say that it does so exactly, and what that
    leaves of the zero-sum property when the users of a symbol are spread over
    several shards. *)

From S2P Require Import Prelude.

(** ** Rates and payments *)

(** [Ord::clamp] aborts when its bounds are inverted. *)
Definition clamp_i64 (lo hi x : Z) : Res Z := if lo <=? hi then Ok (clamp lo hi x) else Panic.

Definition calculate_rate (mark index min_bps max_bps : Z) : Res Z :=
  if index =? 0 then Ok 0
  else
    let premium_raw := Z.quot ((mark - index) * 10000) index in
    let premium := sat_i64 premium_raw in
    clamp_i64 min_bps max_bps premium.

(** [div_euclid] by a positive divisor is the floor of the quotient. *)
Definition floor_div_10k (x : Z) : Z := sat_i64 (x / 10000).

Definition calculate_payment (net_qty mark rate : Z) : Z :=
  let scaled := wrap_i128 (net_qty * mark * rate) in
  floor_div_10k scaled.

Definition calculate_payment_i128 (net_qty mark rate : Z) : Z :=
  sat_i64 (wrap_i128 (wrap_i128 (net_qty * mark) * rate) / 10000).

(** ** Settlement of one symbol *)

Definition saturating_abs (x : Z) : Z := sat_i64 (Z.abs x).

Fixpoint largest_loop (i : Z) (best : option (Z * Z)) (net_qtys : list Z) : option (Z * Z) :=
  match net_qtys with
  | [] => best
  | q :: tl =>
      let mag := saturating_abs q in
      let best' := match best with
        | Some (_, b) => if mag <=? b then best else Some (i, mag)
        | None => Some (i, mag)
        end in
      largest_loop (i + 1) best' tl
  end.
Definition largest_idx (net_qtys : list Z) : option Z := fst <$> largest_loop 0 None net_qtys.

Definition settle_symbol (net_qtys : list Z) (mark rate : Z) : Res (list Z) :=
  let payments := List.map (fun q => calculate_payment q mark rate) net_qtys in
  let sum_rounded := zsum id payments in
  let net_total := zsum id net_qtys in
  let agg_payment := calculate_payment_i128 net_total mark rate in
  let residual := sat_i64 (sum_rounded - agg_payment) in
  if negb (residual =? 0) then
    match largest_idx net_qtys with
    | Some i => vmodify payments i (fun p => sat_i64 (p - residual))
    | None => Ok payments
    end
  else Ok payments.

(** ** Intervals *)

Definition interval_id (unix_secs interval_secs : Z) : Z :=
  if interval_secs =? 0 then 0 else unix_secs / interval_secs.
Definition is_settlement_due (last_id current_secs interval_secs : Z) : bool :=
  interval_id current_secs interval_secs >? last_id.

(** ** The contract *)

(** Room for the payments of a shard's users of one symbol. *)
Definition funding_fits (qs : list Z) (mark rate : Z) : Prop :=
  zsum Z.abs qs * Z.abs (mark * rate) + 10000 * (2 * zlen qs + 2) <= 10000 * I64_MAX /\ zsum Z.abs qs * Z.abs mark < 2 ^ 127.

(** What a user of net quantity [q] owes, floored. *)
Definition owed (mark rate q : Z) : Z := q * mark * rate / 10000.

Lemma floor_abs x : Z.abs (x / 10000) <= Z.abs x / 10000 + 1.
Proof. dlia. Qed.

Lemma zsum_abs q qs : In q qs -> Z.abs q <= zsum Z.abs qs.
Proof.
  induction qs as [|x qs IH]; [done|]. rewrite zsum_cons. assert (0 <= zsum Z.abs qs) by (apply zsum_nonneg; lia).
  intros [->|Hin]; [lia|]. specialize (IH Hin). lia.
Qed.

Lemma owed_bound qs mark rate q :
  funding_fits qs mark rate -> Z.abs q <= zsum Z.abs qs ->
  Z.abs (owed mark rate q) <= I64_MAX - 2 * zlen qs - 1 /\ - 2 ^ 127 <= q * mark * rate < 2 ^ 127.
Proof.
  intros [Hf _] Hq. assert (Hp : Z.abs (q * mark * rate) <= zsum Z.abs qs * Z.abs (mark * rate)).
  { rewrite <- Z.mul_assoc, (Z.abs_mul q). apply Z.mul_le_mono_nonneg_r; lia. }
  unfold owed. pose proof (floor_abs (q * mark * rate)). pose proof (zlen_nonneg qs). split; [|width_lia].
  assert (Z.abs (q * mark * rate) / 10000 <= I64_MAX - (2 * zlen qs + 2)) by (apply Z.div_le_upper_bound; width_lia). lia.
Qed.

Lemma payment_exact qs mark rate q :
  funding_fits qs mark rate -> Z.abs q <= zsum Z.abs qs -> calculate_payment q mark rate = owed mark rate q.
Proof.
  intros Hf Hq. destruct (owed_bound qs mark rate q Hf Hq) as [H1 H2]. unfold calculate_payment, floor_div_10k.
  rewrite wrap_i128_id by done. pose proof (zlen_nonneg qs). fold (owed mark rate q). by rewrite sat_i64_id by width_lia.
Qed.

Lemma aggregate_exact qs mark rate :
  funding_fits qs mark rate -> calculate_payment_i128 (zsum id qs) mark rate = owed mark rate (zsum id qs).
Proof.
  intros Hf. assert (Hq : Z.abs (zsum id qs) <= zsum Z.abs qs).
  { clear. induction qs as [|x qs IH]; [done|]. rewrite !zsum_cons. unfold id at 1. lia. }
  destruct (owed_bound qs mark rate _ Hf Hq) as [H1 H2]. destruct Hf as [_ Hf]. unfold calculate_payment_i128.
  assert (Z.abs (zsum id qs * mark) < 2 ^ 127) by (rewrite Z.abs_mul; nia).
  rewrite (wrap_i128_id (_ * mark)) by lia. rewrite wrap_i128_id by done. pose proof (zlen_nonneg qs).
  fold (owed mark rate (zsum id qs)). by rewrite sat_i64_id by width_lia.
Qed.

Lemma owed_0 mark rate : owed mark rate 0 = 0.
Proof. reflexivity. Qed.

(** Flooring one by one loses less than one unit per user against flooring
    the aggregate. *)
Lemma floor_residual mark rate qs :
  zsum (owed mark rate) qs <= owed mark rate (zsum id qs) <= zsum (owed mark rate) qs + Z.max 0 (zlen qs - 1).
Proof.
  induction qs as [|q qs IH]; [change (zsum id []) with 0; change (zsum (owed mark rate) []) with 0; rewrite owed_0; lia|]. rewrite !zsum_cons.
  change (id q) with q.
  assert (Hs : owed mark rate q + owed mark rate (zsum id qs) <= owed mark rate (q + zsum id qs) <=
    owed mark rate q + owed mark rate (zsum id qs) + 1).
  { unfold owed. replace ((q + zsum id qs) * mark * rate) with (q * mark * rate + zsum id qs * mark * rate) by ring. dlia. }
  destruct qs as [|q' qs']; [|assert (zlen (q :: q' :: qs') = zlen (q' :: qs') + 1) by (unfold zlen; cbn [length]; lia);
    assert (1 <= zlen (q' :: qs')) by (unfold zlen; cbn [length]; lia); lia].
  change (zsum id []) with 0 in *. change (zsum (owed mark rate) []) with 0 in *. rewrite owed_0 in *. rewrite !Z.add_0_r. lia.
Qed.

Lemma largest_loop_spec qs : forall i best,
  (match best with Some (j, _) => 0 <= j < i | None => True end) -> 0 <= i -> (qs <> [] \/ best <> None) ->
  exists j m, largest_loop i best qs = Some (j, m) /\ 0 <= j < i + zlen qs.
Proof.
  induction qs as [|q qs IH]; intros i best Hb Hi Hn.
  - destruct best as [[j b]|]; [|by destruct Hn]. exists j, b. unfold zlen. cbn. split; [done | lia].
  - cbn [largest_loop]. assert (zlen (q :: qs) = zlen qs + 1) by (unfold zlen; cbn [length]; lia).
    edestruct (IH (i + 1)) as (j & m & E & Hj); [| |right|rewrite E; exists j, m; split; [done | lia]].
    + destruct best as [[j b]|]; [|lia]. case_if; lia.
    + lia.
    + destruct best as [[j b]|]; [|done]. by case_if.
Qed.

(** A settlement in unbounded integers: the payments sum to the floor of the
    aggregate, and only the user at [j] pays more than his own floor. *)
Definition settles (qs : list Z) (mark rate : Z) (ps : list Z) : Prop :=
  zlen ps = zlen qs /\ zsum id ps = owed mark rate (zsum id qs) /\
  exists j, forall i q, vget qs i = Some q -> exists p, vget ps i = Some p /\
    owed mark rate q <= p <= owed mark rate q + Z.max 0 (zlen qs - 1) /\ (i <> j -> p = owed mark rate q).

Lemma settle_exact qs mark rate : funding_fits qs mark rate -> exists ps, settle_symbol qs mark rate = Ok ps /\ settles qs mark rate ps.
Proof.
  intros Hf. unfold settle_symbol. rewrite (aggregate_exact qs mark rate Hf).
  assert (Emap : List.map (fun q => calculate_payment q mark rate) qs = List.map (owed mark rate) qs).
  { apply map_ext_in. intros q Hq. apply (payment_exact qs); [done | by apply zsum_abs]. }
  rewrite Emap. pose proof (floor_residual mark rate qs) as Hres. rewrite (zsum_map id (owed mark rate)). cbn [id].
  change (zsum (fun x => owed mark rate x) qs) with (zsum (owed mark rate) qs). pose proof (zlen_nonneg qs).
  assert (10000 * (2 * zlen qs + 2) <= 10000 * I64_MAX).
  { destruct Hf as [Hf _]. assert (0 <= zsum Z.abs qs) by (apply zsum_nonneg; lia). nia. }
  rewrite sat_i64_id by width_lia. set (res := zsum (owed mark rate) qs - owed mark rate (zsum id qs)) in *.
  destruct (res =? 0) eqn:E0; bool_to_prop; cbn [negb].
  - eexists. split; [done|]. split; [apply zlen_map|]. split; [rewrite zsum_map; change (zsum (fun x => id (owed mark rate x)) qs) with (zsum (owed mark rate) qs); lia|].
    exists 0. intros i q Hq. rewrite vget_map, Hq. cbn. eexists. split; [done|]. split; [lia | done].
  - destruct (largest_loop_spec qs 0 None I ltac:(lia)) as (j & mg & El & Hj); [left; intros ->; by apply E0|].
    unfold largest_idx. rewrite El. cbn [fmap option_fmap option_map fst]. destruct (vget_is_some qs j) as [qj Hqj]; [lia|].
    assert (Hpj : vget (List.map (owed mark rate) qs) j = Some (owed mark rate qj)) by (by rewrite vget_map, Hqj).
    rewrite (vmodify_ok _ _ _ _ Hpj). destruct (owed_bound qs mark rate qj Hf (zsum_abs _ _ (vget_in _ _ _ Hqj))) as [Hb _].
    rewrite sat_i64_id by width_lia. eexists. split; [done|]. split; [by rewrite zlen_vput, zlen_map|]. split.
    + rewrite (zsum_vput _ _ _ _ _ Hpj), zsum_map. change (zsum (fun x => id (owed mark rate x)) qs) with (zsum (owed mark rate) qs).
      change (id ?x) with x. lia.
    + exists j. intros i q Hq. rewrite vget_vput, zlen_map. destruct (j =? i) eqn:Ej; bool_to_prop; cbn [andb].
      * subst i. replace ((0 <=? j) && (j <? zlen qs)) with true by lia. rewrite Hqj in Hq. injection Hq as <-.
        eexists. split; [done|]. split; [lia | done].
      * rewrite vget_map, Hq. cbn. eexists. split; [done|]. split; [lia | done].
Qed.

(** A shard settles a symbol to the unit.  The payments of its users sum to
    the floor of the aggregate payment, every user but one pays exactly his
    own floored amount, and the one who carries the rounding residual is off
    by less than the number of users; the settlement neither aborts nor
    saturates. *)
Theorem settlement_exact qs mark rate :
  funding_fits qs mark rate ->
  exists ps, settle_symbol qs mark rate = Ok ps /\ zlen ps = zlen qs /\
    zsum id ps = zsum id qs * mark * rate / 10000 /\
    exists j, forall i q, vget qs i = Some q -> exists p, vget ps i = Some p /\
      q * mark * rate / 10000 <= p <= q * mark * rate / 10000 + Z.max 0 (zlen qs - 1) /\
      (i <> j -> p = q * mark * rate / 10000).
Proof. apply settle_exact. Qed.

Lemma settlement_exact_witness :
  exists ps, settle_symbol [3; -1; 7; -2] 10007 3 = Ok ps /\ zlen ps = zlen [3; -1; 7; -2] /\
    zsum id ps = zsum id [3; -1; 7; -2] * 10007 * 3 / 10000 /\
    exists j, forall i q, vget [3; -1; 7; -2] i = Some q -> exists p, vget ps i = Some p /\
      q * 10007 * 3 / 10000 <= p <= q * 10007 * 3 / 10000 + Z.max 0 (zlen [3; -1; 7; -2] - 1) /\
      (i <> j -> p = q * 10007 * 3 / 10000).
Proof. apply settlement_exact. split; vm_compute; [discriminate | reflexivity]. Defined.

(** Settling each shard's users of a symbol. *)
Definition settle_shards (shards : list (list Z)) (mark rate : Z) : Res Z :=
  rfold (fun total qs => ps ← settle_symbol qs mark rate; Ok (total + zsum id ps)) 0 shards.

Lemma settle_shards_exact mark rate shards : forall t,
  Forall (fun qs => funding_fits qs mark rate) shards ->
  rfold (fun total qs => ps ← settle_symbol qs mark rate; Ok (total + zsum id ps)) t shards =
  Ok (t + zsum (owed mark rate) (List.map (zsum id) shards)).
Proof.
  induction shards as [|qs shards IH]; intros t Hf; [cbn; by rewrite Z.add_0_r|].
  apply Forall_cons in Hf as [Hq Hf]. cbn [rfold List.map]. destruct (settle_exact qs mark rate Hq) as (ps & -> & _ & Hs & _).
  cbn [mbind Res_bind]. rewrite (IH _ Hf), zsum_cons, Hs. f_equal. lia.
Qed.

(** Funding across shards.  Over any partition of a symbol's users whose net
    quantities cancel, the shards together collect at most zero and at least
    minus one unit for each shard but one: with a single shard funding is
    exactly zero-sum, with several the rounding of each shard's aggregate is
    not reconciled and the exchange can pay out up to a unit per further
    shard. *)
Theorem funding_across_shards shards mark rate :
  Forall (fun qs => funding_fits qs mark rate) shards -> zsum (zsum id) shards = 0 ->
  exists total, settle_shards shards mark rate = Ok total /\ - Z.max 0 (zlen shards - 1) <= total <= 0.
Proof.
  intros Hf Hz. unfold settle_shards. rewrite (settle_shards_exact mark rate shards 0 Hf). eexists. split; [done|].
  pose proof (floor_residual mark rate (List.map (zsum id) shards)) as Hr. rewrite zlen_map, (zsum_map id) in Hr.
  change (zsum (fun x => id (zsum id x)) shards) with (zsum (zsum id) shards) in Hr. rewrite Hz, owed_0 in Hr. lia.
Qed.

Lemma funding_across_shards_witness :
  exists total, settle_shards [[5; -2]; [-4]; [1]] 10007 3 = Ok total /\ - Z.max 0 (zlen [[5; -2]; [-4]; [1]] - 1) <= total <= 0.
Proof. apply funding_across_shards; [repeat constructor; vm_compute; discriminate | reflexivity]. Defined.

(** The bound is met: two shards with one lot long and one lot short. *)
Lemma funding_leaks : settle_shards [[1]; [-1]] 1 1 = Ok (-1).
Proof. reflexivity. Qed.

(** The funding rate is the premium of the mark over the index in basis
    points, truncated, and always inside the symbol's configured band; it is
    zero when the index has no price. *)
Theorem rate_within_band mark index min_bps max_bps :
  0 <= mark <= I64_MAX -> 0 < index <= I64_MAX -> min_bps <= max_bps -> in_i64 min_bps -> in_i64 max_bps ->
  exists r, calculate_rate mark index min_bps max_bps = Ok r /\ min_bps <= r <= max_bps /\
    (min_bps <= Z.quot ((mark - index) * 10000) index <= max_bps -> r = Z.quot ((mark - index) * 10000) index) /\
    calculate_rate mark 0 min_bps max_bps = Ok 0.
Proof.
  intros Hm Hi Hb B1 B2. unfold calculate_rate, clamp_i64. replace (index =? 0) with false by lia.
  replace (min_bps <=? max_bps) with true by lia. eexists. split; [done|]. split; [by apply clamp_range|]. split; [|done].
  intros Hp. rewrite sat_i64_id by width_lia. by apply clamp_id.
Qed.

Lemma rate_within_band_witness :
  exists r, calculate_rate 10050 10000 (-75) 75 = Ok r /\ -75 <= r <= 75 /\
    (-75 <= Z.quot ((10050 - 10000) * 10000) 10000 <= 75 -> r = Z.quot ((10050 - 10000) * 10000) 10000) /\
    calculate_rate 10050 0 (-75) 75 = Ok 0.
Proof. apply rate_within_band; width_lia. Defined.
