(* ===== verification/Liquidation.v ===== *)
(** * Liquidation: the embedded liquidation engine

    [rsx-risk/src/liquidation.rs] up to its [RiskShard] methods, and
    [round_to_tick].  A liquidation is a small state machine: enqueued once
    per user and symbol, it places one order per round with quadratically
    growing slippage and ends when the position is flat, when the user
    recovers, or in a socialised loss followed by a cooldown. *)

From S2P Require Import Prelude.

(** ** Data *)

Definition LIQUIDATION_PLACED : Z := 0.
Definition LIQUIDATION_SOCIALIZED : Z := 3.

Inductive LiquidationStatus : Type := LPending | LActive | LDone.
#[global] Instance LiquidationStatus_eq_dec : EqDecision LiquidationStatus.
Proof. solve_decision. Defined.

Record LiquidationState : Type := mkLiqState {
  ls_user_id : Z;
  ls_symbol_id : Z;
  ls_round : Z;
  ls_status : LiquidationStatus;
  ls_enqueued_at_ns : Z;
  ls_last_order_ns : Z;
}.

Record LiquidationOrder : Type := mkLiqOrder {
  lo_symbol_id : Z;
  lo_user_id : Z;
  lo_round : Z;
  lo_side : Z;
  lo_price : Z;
  lo_qty : Z;
  lo_slip_bps : Z;
}.

Record SocializedLoss : Type := mkLoss {
  sl_user_id : Z;
  sl_symbol_id : Z;
  sl_round : Z;
  sl_side : Z;
  sl_price : Z;
  sl_qty : Z;
  sl_timestamp_ns : Z;
}.

Record LiquidationEngine : Type := mkLiqEngine {
  le_active : list LiquidationState;
  le_cooldown : list (Z * Z * Z);
  le_cooldown_ns : Z;
  le_base_delay_ns : Z;
  le_base_slip_bps : Z;
  le_max_rounds : Z;
  le_max_slip_bps : Z;
}.

Definition LiquidationEngine_new (base_delay_ns base_slip_bps max_rounds max_slip_bps cooldown_ns : Z) : LiquidationEngine :=
  mkLiqEngine [] [] cooldown_ns base_delay_ns base_slip_bps max_rounds max_slip_bps.

Definition set_active_list (a : list LiquidationState) (c : list (Z * Z * Z)) (e : LiquidationEngine) : LiquidationEngine :=
  mkLiqEngine a c (le_cooldown_ns e) (le_base_delay_ns e) (le_base_slip_bps e) (le_max_rounds e) (le_max_slip_bps e).

Definition is_key (user_id symbol_id : Z) (s : LiquidationState) : bool :=
  (ls_user_id s =? user_id) && (ls_symbol_id s =? symbol_id).
Definition is_status (st : LiquidationStatus) (s : LiquidationState) : bool := bool_decide (ls_status s = st).

(** ** Operations *)

Definition enqueue (user_id symbol_id now_ns : Z) (e : LiquidationEngine) : bool * LiquidationEngine :=
  let cool := List.filter (fun '(_, _, retry_at) => now_ns <? retry_at) (le_cooldown e) in
  let e1 := set_active_list (le_active e) cool e in
  let cooling := existsb (fun '(u, s, _) => (u =? user_id) && (s =? symbol_id)) cool in
  if cooling then (false, e1)
  else
    let already := existsb (fun s => is_key user_id symbol_id s && negb (is_status LDone s)) (le_active e) in
    if already then (false, e1)
    else (true, set_active_list (le_active e ++ [mkLiqState user_id symbol_id 1 LActive now_ns 0]) cool e).

(** [(round as i64).checked_mul(round).and_then(..base_slip..).map(min).unwrap_or(max)] *)
Definition slip_of (e : LiquidationEngine) (round : Z) : Z :=
  match (v ← checked_mul_i64 round round; checked_mul_i64 v (le_base_slip_bps e)) with
  | Some v => Z.min v (le_max_slip_bps e)
  | None => le_max_slip_bps e
  end.

(** Side and price of a round's order. *)
Definition round_price (mark net_qty slip : Z) : Z * Z :=
  if net_qty >? 0 then
    (1, match checked_mul_i64 mark (wrap_i64 (10000 - slip)) with Some v => Z.quot v 10000 | None => 0 end)
  else
    (0, match checked_mul_i64 mark (wrap_i64 (10000 + slip)) with Some v => Z.quot v 10000 | None => I64_MAX end).

(** One iteration of the loop of [maybe_process]: the new state and what it
    pushes. *)
Definition liq_step (e : LiquidationEngine) (now_ns : Z) (get_position_fn : Z -> Z -> Z) (get_mark_fn : Z -> Z)
    (s : LiquidationState) : LiquidationState * list LiquidationOrder * list SocializedLoss :=
  let done := mkLiqState (ls_user_id s) (ls_symbol_id s) (ls_round s) LDone (ls_enqueued_at_ns s) (ls_last_order_ns s) in
  if negb (is_status LActive s) then (s, [], [])
  else
    let delay := sat_u64 (ls_round s * le_base_delay_ns e) in
    if (ls_round s >? 1) && (now_ns <? sat_u64 (ls_last_order_ns s + delay)) then (s, [], [])
    else
      let net_qty := get_position_fn (ls_user_id s) (ls_symbol_id s) in
      if net_qty =? 0 then (done, [], [])
      else
        let mark := get_mark_fn (ls_symbol_id s) in
        if mark =? 0 then (s, [], [])
        else
          let qty := wrap_i64 (Z.abs net_qty) in
          if ls_round s >? le_max_rounds e then
            (done, [], [mkLoss (ls_user_id s) (ls_symbol_id s) (ls_round s) (if net_qty >? 0 then 1 else 0) mark qty now_ns])
          else
            let slip := slip_of e (ls_round s) in
            let '(side, price) := round_price mark net_qty slip in
            (mkLiqState (ls_user_id s) (ls_symbol_id s) (wrap_u32 (ls_round s + 1)) (ls_status s) (ls_enqueued_at_ns s) now_ns,
             [mkLiqOrder (ls_symbol_id s) (ls_user_id s) (ls_round s) side price qty slip], []).

Definition maybe_process (now_ns : Z) (get_position_fn : Z -> Z -> Z) (get_mark_fn : Z -> Z) (e : LiquidationEngine) :
    LiquidationEngine * list LiquidationOrder * list SocializedLoss :=
  if match le_active e with [] => true | _ => false end then (e, [], [])
  else
    let stepped := List.map (liq_step e now_ns get_position_fn get_mark_fn) (le_active e) in
    let orders := List.concat (List.map (fun '(_, os, _) => os) stepped) in
    let socialized := List.concat (List.map (fun '(_, _, ss) => ss) stepped) in
    let retry_at := sat_u64 (now_ns + le_cooldown_ns e) in
    let cooled := List.map (fun l => (sl_user_id l, sl_symbol_id l, retry_at)) socialized in
    (set_active_list (List.map (fun '(s, _, _) => s) stepped) (le_cooldown e ++ cooled) e, orders, socialized).

Definition cancel_if_recovered (user_id symbol_id : Z) (e : LiquidationEngine) : LiquidationEngine :=
  set_active_list (List.filter (fun s => negb (is_key user_id symbol_id s)) (le_active e)) (le_cooldown e) e.

Definition remove_done (e : LiquidationEngine) : LiquidationEngine :=
  set_active_list (List.filter (fun s => negb (is_status LDone s)) (le_active e)) (le_cooldown e) e.

Definition is_in_liquidation (user_id symbol_id : Z) (e : LiquidationEngine) : bool :=
  existsb (fun s => is_key user_id symbol_id s && is_status LActive s) (le_active e).

(** [round_to_tick] *)
Definition round_to_tick (price tick side : Z) : Z :=
  if tick <=? 0 then price
  else
    let floor := wrap_i64 (price - Z.rem price tick) in
    if side =? 1 then Z.max floor tick
    else if floor =? price then price
    else default floor (checked_add_i64 floor tick).

(** ** The invariant *)

Definition live (s : LiquidationState) : bool := negb (is_status LDone s).
Definition key_of (s : LiquidationState) : Z * Z := (ls_user_id s, ls_symbol_id s).
Definition live_keys (l : list LiquidationState) : list (Z * Z) := List.map key_of (List.filter live l).

Record state_ok (max_rounds : Z) (s : LiquidationState) : Prop := {
  so_round : 1 <= ls_round s <= max_rounds + 1;
  so_status : ls_status s = LActive \/ ls_status s = LDone;
}.

(** At most one live liquidation per user and symbol. *)
Record liq_ok (e : LiquidationEngine) : Prop := {
  lk_unique : NoDup (live_keys (le_active e));
  lk_states : Forall (state_ok (le_max_rounds e)) (le_active e);
  lk_rounds : 0 <= le_max_rounds e < U32_MAX;
}.

(** The moves of the engine. *)
Inductive liq_trans : LiquidationEngine -> LiquidationEngine -> Prop :=
| lt_enqueue u s now e : liq_trans e (snd (enqueue u s now e))
| lt_process now pf mf e : liq_trans e (fst (fst (maybe_process now pf mf e)))
| lt_recover u s e : liq_trans e (cancel_if_recovered u s e)
| lt_remove e : liq_trans e (remove_done e).

Lemma is_key_spec u s st : is_key u s st = true <-> key_of st = (u, s).
Proof.
  unfold is_key, key_of. rewrite andb_true_iff, !Z.eqb_eq. split; [by intros [-> ->] | by intros [= -> ->]].
Qed.

Lemma live_keys_app l1 l2 : live_keys (l1 ++ l2) = live_keys l1 ++ live_keys l2.
Proof. unfold live_keys. by rewrite List.filter_app, List.map_app. Qed.

Lemma in_live_keys k l : In k (live_keys l) <-> exists s, In s l /\ live s = true /\ key_of s = k.
Proof. unfold live_keys. rewrite in_map_iff. setoid_rewrite filter_In. firstorder. Qed.

Lemma live_keys_filter f l : NoDup (live_keys l) -> NoDup (live_keys (List.filter f l)).
Proof.
  induction l as [|s l IH]; [done|]. unfold live_keys in *. cbn. intros H.
  destruct (live s) eqn:El; destruct (f s); cbn in *; rewrite ?El; cbn; auto.
  - apply NoDup_cons in H as [H1 H2]. apply NoDup_cons. split; [|auto]. intros Hin. apply H1.
    apply list_elem_of_In, in_map_iff in Hin as (x & Hx & Hi). apply filter_In in Hi as [Hi Hl]. apply filter_In in Hi as [Hi _].
    apply list_elem_of_In, in_map_iff. exists x. split; [done|]. by apply filter_In.
  - apply NoDup_cons in H as [_ H]. auto.
Qed.

Lemma enqueue_ok u s now e : liq_ok e -> liq_ok (snd (enqueue u s now e)).
Proof.
  intros [H1 H2 H3]. unfold enqueue. case_if; [by split|]. case_if; [by split|]. split; cbn [set_active_list le_active le_max_rounds snd]; [|apply Forall_app; split; [done|]|done].
  - rewrite live_keys_app. apply NoDup_app. split; [done|]. split; [|apply NoDup_singleton].
    intros k Hk%list_elem_of_In Hin%list_elem_of_singleton. cbn in Hin. subst k. apply in_live_keys in Hk as (st & Hs & Hl & Hk).
    match goal with E : existsb (fun s0 => is_key _ _ _ && _) _ = false |- _ => rewrite existsb_false in E; specialize (E _ Hs) end.
    change (key_of st = (u, s)) in Hk. apply is_key_spec in Hk. unfold live in Hl. by rewrite Hk, Hl in Heqb0.
  - constructor; [|done]. split; cbn; [lia | by left].
Qed.

(** What one iteration does to a live state. *)
Lemma liq_step_state e now pf mf s :
  state_ok (le_max_rounds e) s -> 0 <= le_max_rounds e < U32_MAX ->
  let s' := fst (fst (liq_step e now pf mf s)) in
  state_ok (le_max_rounds e) s' /\ key_of s' = key_of s /\ (live s' = true -> live s = true).
Proof.
  intros [Hr Hs] Hm. unfold liq_step. case_if; [done|]. bool_to_prop. unfold is_status in Heqb. apply bool_decide_eq_true in Heqb.
  case_if; [done|]. case_if; [split; [split; cbn; auto | done]|]. case_if; [done|]. case_if; [split; [split; cbn; auto | done]|].
  destruct (round_price _ _ _) as [side price]. cbn. split; [|split; [done|]].
  - split; cbn; [|done]. rewrite wrap_u32_id by width_lia. lia.
  - intros _. unfold live, is_status. by rewrite Heqb.
Qed.

Lemma live_keys_map f l :
  (forall s, In s l -> key_of (f s) = key_of s /\ (live (f s) = true -> live s = true)) ->
  NoDup (live_keys l) -> NoDup (live_keys (List.map f l)).
Proof.
  intros Hf. induction l as [|s l IH]; [done|]. specialize (IH (fun x Hx => Hf x (or_intror Hx))).
  destruct (Hf s (or_introl eq_refl)) as [Hk Hl]. change (s :: l) with ([s] ++ l). rewrite List.map_app, !live_keys_app. intros H.
  apply NoDup_app in H as (_ & Hd & Hn). apply NoDup_app. split; [unfold live_keys; cbn; case_if; [apply NoDup_singleton | apply NoDup_nil; done]|].
  split; [|auto]. intros k Hk1%list_elem_of_In Hk2%list_elem_of_In.
  apply in_live_keys in Hk1 as (a & Ha & Hla & Hka). cbn in Ha. destruct Ha as [<-|[]].
  apply in_live_keys in Hk2 as (b & Hb & Hlb & Hkb). apply in_map_iff in Hb as (b0 & <- & Hb0).
  destruct (Hf b0 (or_intror Hb0)) as [Hkb0 Hlb0]. apply (Hd k); apply list_elem_of_In, in_live_keys.
  - exists s. rewrite <- Hk. split; [by left|]. auto.
  - exists b0. rewrite <- Hkb0. auto.
Qed.

Lemma process_active now pf mf e :
  le_active (fst (fst (maybe_process now pf mf e))) = List.map (fun s => fst (fst (liq_step e now pf mf s))) (le_active e).
Proof.
  unfold maybe_process. destruct (le_active e) as [|s l] eqn:E; [by cbn|]. cbn [fst set_active_list le_active].
  rewrite List.map_map. apply map_ext. intros x. by destruct (liq_step _ _ _ _ x) as [[? ?] ?].
Qed.

Lemma process_config now pf mf e : le_max_rounds (fst (fst (maybe_process now pf mf e))) = le_max_rounds e.
Proof. unfold maybe_process. by case_if. Qed.

Lemma process_ok now pf mf e : liq_ok e -> liq_ok (fst (fst (maybe_process now pf mf e))).
Proof.
  intros [H1 H2 H3]. rewrite List.Forall_forall in H2. split; rewrite ?process_config, ?process_active; [| |done].
  - apply live_keys_map; [|done]. intros s Hs. by apply liq_step_state; [apply H2|].
  - apply List.Forall_forall. intros x (s & <- & Hs)%in_map_iff. by apply liq_step_state; [apply H2|].
Qed.

Lemma liq_trans_ok e e' : liq_ok e -> liq_trans e e' -> liq_ok e'.
Proof.
  intros H T. destruct T; [by apply enqueue_ok | by apply process_ok | |]; destruct H as [H1 H2 H3];
    (split; [by apply live_keys_filter | by apply Forall_listfilter | done]).
Qed.

(** C27: The liquidation engine never runs two liquidations of the same position.
    In every state reachable from a new engine by enqueues, sweeps at any
    times, positions and mark prices, recoveries and clean-ups, each user and
    symbol has at most one live liquidation, and no liquidation goes past the
    round that ends it. *)
Theorem liquidations_unique delay slip max_rounds max_slip cooldown e :
  0 <= max_rounds < U32_MAX -> rtc liq_trans (LiquidationEngine_new delay slip max_rounds max_slip cooldown) e ->
  NoDup (live_keys (le_active e)) /\ Forall (fun s => 1 <= ls_round s <= le_max_rounds e + 1) (le_active e).
Proof.
  intros Hm Hr. assert (H0 : liq_ok (LiquidationEngine_new delay slip max_rounds max_slip cooldown)).
  { split; cbn; [apply NoDup_nil; done | done | done]. }
  assert (H : liq_ok e) by (induction Hr; eauto using liq_trans_ok). destruct H as [H1 H2 _]. split; [done|].
  eapply List.Forall_impl, H2. by intros s [].
Qed.

Lemma liquidations_unique_witness :
  let e0 := LiquidationEngine_new 1000 10 3 500 60000 in
  let e := fst (fst (maybe_process 5 (fun _ _ => 4) (fun _ => 100) (snd (enqueue 7 1 5 (snd (enqueue 7 1 5 e0)))))) in
  NoDup (live_keys (le_active e)) /\ Forall (fun s => 1 <= ls_round s <= le_max_rounds e + 1) (le_active e).
Proof.
  apply (liquidations_unique 1000 10 3 500 60000); [width_lia|].
  eapply rtc_l; [apply (lt_enqueue 7 1 5)|]. eapply rtc_l; [apply (lt_enqueue 7 1 5)|].
  eapply rtc_l; [apply (lt_process 5 (fun _ _ => 4) (fun _ => 100)) | apply rtc_refl].
Defined.

(** ** Orders of a sweep *)

(** Configuration within which prices and slippages are exact. *)
Record slip_ok (e : LiquidationEngine) : Prop := {
  sk_base : 0 <= le_base_slip_bps e <= I64_MAX;
  sk_max : 0 <= le_max_slip_bps e <= 10000;
}.

Lemma slip_of_range e round : slip_ok e -> 0 <= round -> 0 <= slip_of e round <= le_max_slip_bps e.
Proof.
  intros [Hb Hm] Hr. unfold slip_of, checked_mul_i64, try_i64. repeat (case_if; cbn); lia || nia.
Qed.

(** Quadratic in the round until the cap. *)
Lemma slip_of_exact e round :
  slip_ok e -> 0 <= round -> slip_of e round = Z.min (round * round * le_base_slip_bps e) (le_max_slip_bps e) \/
  le_base_slip_bps e = 0 /\ slip_of e round = le_max_slip_bps e.
Proof.
  intros [Hb Hm] Hr. unfold slip_of, checked_mul_i64, try_i64. destruct (in_i64b (round * round)) eqn:E1; cbn.
  - destruct (in_i64b (_ * le_base_slip_bps e)) eqn:E2; [by left|]. left. enough (I64_MAX < round * round * le_base_slip_bps e) by width_lia.
    unfold in_i64b in E2. assert (0 <= round * round * le_base_slip_bps e) by nia. width_unfold. lia.
  - destruct (decide (le_base_slip_bps e = 0)); [by right|]. left. unfold in_i64b in E1. assert (I64_MAX < round * round) by (width_unfold; nia).
    enough (round * round <= round * round * le_base_slip_bps e) by width_lia. nia.
Qed.

Lemma round_price_spec mark net slip :
  0 < mark -> 0 <= slip <= 10000 -> mark * 20000 <= I64_MAX ->
  round_price mark net slip = if net >? 0 then (1, mark * (10000 - slip) / 10000) else (0, mark * (10000 + slip) / 10000).
Proof.
  intros Hm Hs Hb. unfold round_price, checked_mul_i64. rewrite !wrap_i64_id by width_lia.
  rewrite !try_i64_some by (width_unfold; nia). by rewrite !Z.quot_div_nonneg by nia.
Qed.

Lemma process_orders now pf mf e :
  snd (fst (maybe_process now pf mf e)) = List.concat (List.map (fun s => snd (fst (liq_step e now pf mf s))) (le_active e)) /\
  snd (maybe_process now pf mf e) = List.concat (List.map (fun s => snd (liq_step e now pf mf s)) (le_active e)).
Proof.
  unfold maybe_process. destruct (le_active e) as [|s l] eqn:E; [done|]. cbn [fst snd].
  split; f_equal; rewrite List.map_map; apply map_ext; intros x; by destruct (liq_step _ _ _ _ x) as [[? ?] ?].
Qed.

(** A liquidation order closes exactly the position it liquidates.  Every
    order of a sweep belongs to a live liquidation, is for the whole net
    quantity on the closing side, in a round not past the last, waits for the
    delay of its round, and is priced off the mark price by a slippage that is
    quadratic in the round up to the configured cap, never on the wrong side
    of the mark. *)
Theorem liquidation_order_closes e now pf mf o :
  liq_ok e -> slip_ok e -> (forall s, 0 <= mf s * 20000 <= I64_MAX) -> (forall u s, Z.abs (pf u s) <= I64_MAX) ->
  In o (snd (fst (maybe_process now pf mf e))) ->
  let net := pf (lo_user_id o) (lo_symbol_id o) in
  let mark := mf (lo_symbol_id o) in
  (exists s, In s (le_active e) /\ ls_status s = LActive /\ key_of s = (lo_user_id o, lo_symbol_id o) /\ ls_round s = lo_round o /\
    (1 < lo_round o -> sat_u64 (ls_last_order_ns s + sat_u64 (lo_round o * le_base_delay_ns e)) <= now)) /\
  net <> 0 /\ lo_qty o = Z.abs net /\ 1 <= lo_round o <= le_max_rounds e /\
  (0 < le_base_slip_bps e -> lo_slip_bps o = Z.min (lo_round o * lo_round o * le_base_slip_bps e) (le_max_slip_bps e)) /\
  (0 < net -> lo_side o = 1 /\ lo_price o = mark * (10000 - lo_slip_bps o) / 10000 /\ lo_price o <= mark) /\
  (net < 0 -> lo_side o = 0 /\ lo_price o = mark * (10000 + lo_slip_bps o) / 10000 /\ mark <= lo_price o).
Proof.
  intros [_ Hst Hmr] Hs Hm Hp Hin. rewrite (proj1 (process_orders now pf mf e)) in Hin.
  apply in_concat in Hin as (os & Hos & Hin). apply in_map_iff in Hos as (s & <- & Hsin).
  rewrite List.Forall_forall in Hst. specialize (Hst s Hsin) as [Hr _]. unfold liq_step in Hin.
  destruct (negb (is_status LActive s)) eqn:Ea; [done|]. bool_to_prop.
  destruct ((_ >? 1) && _) eqn:Ed; [done|]. destruct (pf _ _ =? 0) eqn:E0; [done|]. destruct (mf _ =? 0) eqn:Em; [done|].
  destruct (_ >? le_max_rounds e) eqn:Er; [done|]. bool_to_prop.
  pose proof (slip_of_range e (ls_round s) Hs ltac:(lia)) as Hsl. pose proof (slip_of_exact e (ls_round s) Hs ltac:(lia)) as Hse.
  destruct Hs as [_ Hsm]. unfold is_status in Ea. apply bool_decide_eq_true in Ea. specialize (Hm (ls_symbol_id s)).
  rewrite round_price_spec in Hin by lia. specialize (Hp (ls_user_id s) (ls_symbol_id s)).
  destruct (pf _ _ >? 0) eqn:Esgn; destruct Hin as [<-|[]]; cbn in *; rewrite wrap_i64_id by width_lia;
    (split; [exists s; repeat split; auto; lia|]); repeat split; try lia.
  - apply Z.div_le_upper_bound; nia.
  - apply Z.div_le_lower_bound; nia.
Qed.

Lemma liquidation_order_closes_witness :
  let e := snd (enqueue 7 1 5 (LiquidationEngine_new 1000 10 3 500 60000)) in
  let o := mkLiqOrder 1 7 1 0 100 4 10 in
  (exists s, In s (le_active e) /\ ls_status s = LActive /\ key_of s = (lo_user_id o, lo_symbol_id o) /\ ls_round s = lo_round o /\
    (1 < lo_round o -> sat_u64 (ls_last_order_ns s + sat_u64 (lo_round o * le_base_delay_ns e)) <= 9)) /\
  -4 <> 0 /\ lo_qty o = 4 /\ 1 <= lo_round o <= le_max_rounds e /\
  (0 < le_base_slip_bps e -> lo_slip_bps o = Z.min (lo_round o * lo_round o * le_base_slip_bps e) (le_max_slip_bps e)) /\
  (0 < -4 -> lo_side o = 1 /\ lo_price o = 100 * (10000 - lo_slip_bps o) / 10000 /\ lo_price o <= 100) /\
  (-4 < 0 -> lo_side o = 0 /\ lo_price o = 100 * (10000 + lo_slip_bps o) / 10000 /\ 100 <= lo_price o).
Proof.
  apply (liquidation_order_closes (snd (enqueue 7 1 5 (LiquidationEngine_new 1000 10 3 500 60000))) 9 (fun _ _ => -4) (fun _ => 100)).
  - apply enqueue_ok. split; cbn; [apply NoDup_nil; done | constructor | width_lia].
  - split; cbn; width_lia.
  - intros _. width_lia.
  - intros _ _. width_lia.
  - vm_compute. by left.
Defined.

(** ** Escalation *)

(** Sweeps: when, and the positions and marks they see. *)
Definition Sweep : Type := (Z * (Z -> Z -> Z) * (Z -> Z))%type.

Fixpoint sweeps (sched : list Sweep) (e : LiquidationEngine) : LiquidationEngine * list LiquidationOrder * list SocializedLoss :=
  match sched with
  | [] => (e, [], [])
  | (t, pf, mf) :: tl =>
      let '(e1, os, ss) := maybe_process t pf mf e in
      let '(e2, os', ss') := sweeps tl e1 in (e2, os ++ os', ss ++ ss')
  end.

Definition order_key_of (o : LiquidationOrder) : Z * Z := (lo_user_id o, lo_symbol_id o).
Definition loss_key_of (l : SocializedLoss) : Z * Z := (sl_user_id l, sl_symbol_id l).
Definition only {A} (kf : A -> Z * Z) (k : Z * Z) (l : list A) : list A := List.filter (fun x => bool_decide (kf x = k)) l.

Lemma only_app {A} (kf : A -> Z * Z) k l1 l2 : only kf k (l1 ++ l2) = only kf k l1 ++ only kf k l2.
Proof. apply List.filter_app. Qed.

(** What a sweep pushes for a key comes from the live liquidation of that key. *)
Lemma only_live {A} (kf : A -> Z * Z) (g : LiquidationState -> list A) k l :
  (forall s x, In x (g s) -> kf x = key_of s /\ live s = true) -> NoDup (live_keys l) ->
  (forall st, In st l -> live st = true -> key_of st = k -> only kf k (List.concat (List.map g l)) = g st) /\
  (~ In k (live_keys l) -> only kf k (List.concat (List.map g l)) = []).
Proof.
  intros Hg. assert (Hown : forall s, key_of s = k -> only kf k (g s) = g s).
  { intros s Hk. apply forallb_filter_id, forallb_forall. intros x Hx. apply bool_decide_eq_true. by rewrite <- Hk; apply Hg. }
  assert (Hother : forall s, (live s = true -> key_of s <> k) -> only kf k (g s) = []).
  { intros s Hk. unfold only. rewrite <- (filter_false (g s)). apply filter_ext_in. intros x Hx. apply bool_decide_eq_false.
    destruct (Hg s x Hx) as [-> Hl]. auto. }
  induction l as [|a l IH]; [done|]. intros Hn. cbn [List.map List.concat]. rewrite only_app.
  change (a :: l) with ([a] ++ l) in Hn |- *. rewrite live_keys_app in Hn |- *. apply NoDup_app in Hn as (_ & Hd & Hn).
  destruct (IH Hn) as [IH1 IH2]. assert (Ha : live a = true -> In (key_of a) (live_keys [a])) by (intros H; apply in_live_keys; exists a; by cbn; auto).
  split.
  - intros st Hst Hl Hk. apply in_app_iff in Hst as [[<-|[]]|Hst].
    + rewrite (Hown _ Hk), IH2; [apply app_nil_r|]. rewrite <- Hk, <- list_elem_of_In. apply Hd, list_elem_of_In. auto.
    + rewrite (IH1 st Hst Hl Hk), Hother; [done|]. intros Hla Hka. apply (Hd k); apply list_elem_of_In; [rewrite <- Hka; auto|].
      apply in_live_keys. eauto.
  - rewrite in_app_iff. intros Hk. rewrite IH2, Hother; [done| |tauto]. intros Hla <-. tauto.
Qed.

Lemma step_outputs e now pf mf s :
  (forall o, In o (snd (fst (liq_step e now pf mf s))) -> order_key_of o = key_of s /\ live s = true) /\
  (forall l, In l (snd (liq_step e now pf mf s)) -> loss_key_of l = key_of s /\ live s = true).
Proof.
  unfold liq_step. destruct (is_status LActive s) eqn:Ea; [|split; intros ? []]. cbn [negb].
  assert (Hl : live s = true) by (unfold live, is_status in *; apply bool_decide_eq_true in Ea; by rewrite Ea).
  destruct (round_price _ _ _) as [side price]. repeat case_if; split; cbn; intros ? H; try done; by destruct H as [<-|[]].
Qed.

Lemma process_only k now pf mf e st :
  liq_ok e -> In st (le_active e) -> live st = true -> key_of st = k ->
  only order_key_of k (snd (fst (maybe_process now pf mf e))) = snd (fst (liq_step e now pf mf st)) /\
  only loss_key_of k (snd (maybe_process now pf mf e)) = snd (liq_step e now pf mf st).
Proof.
  intros [Hn _ _] Hin Hl Hk. destruct (process_orders now pf mf e) as [-> ->]. split.
  - by apply (only_live order_key_of (fun s => snd (fst (liq_step e now pf mf s))) k (le_active e));
      [intros s x; apply (step_outputs e now pf mf s) | ..].
  - by apply (only_live loss_key_of (fun s => snd (liq_step e now pf mf s)) k (le_active e));
      [intros s x; apply (step_outputs e now pf mf s) | ..].
Qed.

(** The moves of one liquidation whose position is open: it waits, places
    the order of its round or ends in a loss; once its delay has passed and
    there is a price it does not wait. *)
Lemma step_fires e now pf mf s :
  ls_status s = LActive -> 1 <= ls_round s -> 0 <= le_base_delay_ns e -> 0 <= ls_last_order_ns s -> pf (ls_user_id s) (ls_symbol_id s) <> 0 ->
  (liq_step e now pf mf s = (s, [], []) /\ (mf (ls_symbol_id s) = 0 \/ 1 < ls_round s /\ now < ls_last_order_ns s + ls_round s * le_base_delay_ns e)) \/
  (mf (ls_symbol_id s) <> 0 /\ ls_round s <= le_max_rounds e /\ (le_max_rounds e < U32_MAX -> exists s' o, liq_step e now pf mf s = (s', [o], []) /\
    ls_status s' = LActive /\ key_of s' = key_of s /\ ls_round s' = ls_round s + 1 /\ ls_last_order_ns s' = now /\ lo_round o = ls_round s)) \/
  (mf (ls_symbol_id s) <> 0 /\ le_max_rounds e < ls_round s /\ exists s' l, liq_step e now pf mf s = (s', [], [l]) /\ live s' = false /\ key_of s' = key_of s).
Proof.
  intros Ha Hr Hd Hl0 Hp. unfold liq_step, is_status. rewrite Ha, bool_decide_eq_true_2 by done. cbn [negb]. assert (0 <= ls_round s * le_base_delay_ns e) by nia.
  destruct ((ls_round s >? 1) && (now <? sat_u64 (ls_last_order_ns s + sat_u64 (ls_round s * le_base_delay_ns e)))) eqn:Eg.
  { left. split; [done|]. right. apply andb_true_iff in Eg as [E1 E2]. bool_to_prop. split; [lia|]. unfold sat_u64, clamp in E2. width_lia. }
  replace (pf (ls_user_id s) (ls_symbol_id s) =? 0) with false by lia. destruct (mf (ls_symbol_id s) =? 0) eqn:Em; bool_to_prop; [left; split; [done|by left]|right].
  destruct (ls_round s >? le_max_rounds e) eqn:Er; bool_to_prop.
  - right. split; [done|]. split; [lia|]. eexists _, _. split; [done|]. done.
  - left. split; [done|]. split; [lia|]. intros Hb. destruct (round_price _ _ _) as [side price].
    eexists _, _. split; [done|]. cbn. rewrite wrap_u32_id by width_lia. done.
Qed.

Lemma process_frame now pf mf e :
  let e' := fst (fst (maybe_process now pf mf e)) in
  le_max_rounds e' = le_max_rounds e /\ le_base_delay_ns e' = le_base_delay_ns e /\ le_cooldown_ns e' = le_cooldown_ns e /\
  le_cooldown e' = le_cooldown e ++ List.map (fun l => (sl_user_id l, sl_symbol_id l, sat_u64 (now + le_cooldown_ns e))) (snd (maybe_process now pf mf e)).
Proof. unfold maybe_process. case_if; cbn; [by rewrite app_nil_r | done]. Qed.

Lemma only_in {A} (kf : A -> Z * Z) k l x : In x (only kf k l) -> In x l /\ kf x = k.
Proof. unfold only. rewrite filter_In, bool_decide_eq_true. done. Qed.

Section Escalation.
Context (u sym : Z).

(** The liquidation after [enqueue] or after a round. *)
Record at_round (e : LiquidationEngine) (r last : Z) : Prop := {
  at_ok : liq_ok e;
  at_state : exists st, In st (le_active e) /\ ls_status st = LActive /\ key_of st = (u, sym) /\ ls_round st = r /\ ls_last_order_ns st = last;
}.

(** The liquidation is over and the position cools down. *)
Record finished (until : Z) (e : LiquidationEngine) : Prop := {
  fi_ok : liq_ok e;
  fi_dead : ~ In (u, sym) (live_keys (le_active e));
  fi_cooldown : In (u, sym, until) (le_cooldown e);
}.

Lemma process_dead now pf mf e : liq_ok e -> ~ In (u, sym) (live_keys (le_active e)) ->
  ~ In (u, sym) (live_keys (le_active (fst (fst (maybe_process now pf mf e))))) /\
  only order_key_of (u, sym) (snd (fst (maybe_process now pf mf e))) = [] /\ only loss_key_of (u, sym) (snd (maybe_process now pf mf e)) = [].
Proof.
  intros [Hn Hs Hm] Hk. destruct (process_orders now pf mf e) as [-> ->]. split; [|split].
  - rewrite process_active. intros (x & Hx & Hl & Ek)%in_live_keys. apply in_map_iff in Hx as (y & <- & Hy). rewrite List.Forall_forall in Hs.
    destruct (liq_step_state e now pf mf y (Hs y Hy) Hm) as (_ & Hky & Hlv). apply Hk, in_live_keys. exists y. split; [done|]. split; [by apply Hlv|congruence].
  - by apply (only_live order_key_of (fun s => snd (fst (liq_step e now pf mf s))) (u, sym) (le_active e)); [intros s x; apply (step_outputs e now pf mf s)|..].
  - by apply (only_live loss_key_of (fun s => snd (liq_step e now pf mf s)) (u, sym) (le_active e)); [intros s x; apply (step_outputs e now pf mf s)|..].
Qed.

Lemma finished_sweep until now pf mf e : finished until e ->
  let '(e', os, ls) := maybe_process now pf mf e in finished until e' /\ only order_key_of (u, sym) os = [] /\ only loss_key_of (u, sym) ls = [].
Proof.
  intros [Hok Hd Hc]. destruct (process_dead now pf mf e Hok Hd) as (H1 & H2 & H3). pose proof (process_ok now pf mf e Hok) as Hok'.
  pose proof (process_frame now pf mf e) as (_ & _ & _ & Ec). destruct (maybe_process now pf mf e) as [[e' os] ls]. cbn [fst snd] in *.
  split; [|done]. split; [done|done|]. rewrite Ec, in_app_iff. by left.
Qed.

Lemma finished_sweeps until sched : forall e, finished until e ->
  let '(e', os, ls) := sweeps sched e in finished until e' /\ only order_key_of (u, sym) os = [] /\ only loss_key_of (u, sym) ls = [].
Proof.
  induction sched as [|[[t pf] mf] sched IH]; intros e Hf; [done|]. cbn [sweeps]. pose proof (finished_sweep until t pf mf e Hf) as Hs.
  destruct (maybe_process t pf mf e) as [[e1 os] ls]. destruct Hs as (Hf1 & Ho & Hl). specialize (IH e1 Hf1).
  destruct (sweeps sched e1) as [[e2 os2] ls2]. destruct IH as (Hf2 & Ho2 & Hl2). by rewrite !only_app, Ho, Hl, Ho2, Hl2.
Qed.

(** A liquidation whose state ends here is not live any more. *)
Lemma step_dead now pf mf e st s' ls : liq_ok e -> In st (le_active e) -> live st = true -> key_of st = (u, sym) ->
  liq_step e now pf mf st = (s', [], ls) -> live s' = false -> ~ In (u, sym) (live_keys (le_active (fst (fst (maybe_process now pf mf e))))).
Proof.
  intros Hok Hin Hlive Hk E Hdead (x & Hx & Hlx & Ekx)%in_live_keys. rewrite process_active in Hx. apply in_map_iff in Hx as (y & <- & Hy).
  pose proof (lk_states _ Hok) as Hst. rewrite List.Forall_forall in Hst. destruct (liq_step_state e now pf mf y (Hst y Hy) (lk_rounds _ Hok)) as (_ & Hky & Hlv).
  destruct (only_live (fun z : LiquidationState => key_of z) (fun z => if live z then [z] else []) (u, sym) (le_active e)) as [Hone _]; [|apply Hok|].
  { intros z w. destruct (live z) eqn:Ez; intros []; by subst. }
  pose proof (Hone st Hin Hlive Hk) as E1. pose proof (Hone y Hy (Hlv Hlx) ltac:(congruence)) as E2.
  rewrite E1, Hlive, (Hlv Hlx) in E2. injection E2 as <-. rewrite E in Hlx. cbn in Hlx. congruence.
Qed.

(** One sweep over an open position. *)
Lemma sweep_round e r last t pf mf :
  at_round e r last -> 1 <= r <= le_max_rounds e + 1 -> 0 <= le_base_delay_ns e -> 0 <= last -> pf u sym <> 0 ->
  let '(e', os, ls) := maybe_process t pf mf e in
  (at_round e' r last /\ only order_key_of (u, sym) os = [] /\ only loss_key_of (u, sym) ls = [] /\
     (mf sym = 0 \/ 1 < r /\ t < last + r * le_base_delay_ns e)) \/
  (mf sym <> 0 /\ r <= le_max_rounds e /\ at_round e' (r + 1) t /\
     List.map lo_round (only order_key_of (u, sym) os) = [r] /\ only loss_key_of (u, sym) ls = []) \/
  (mf sym <> 0 /\ r = le_max_rounds e + 1 /\ finished (sat_u64 (t + le_cooldown_ns e)) e' /\
     only order_key_of (u, sym) os = [] /\ zlen (only loss_key_of (u, sym) ls) = 1).
Proof.
  intros [Hok (st & Hin & Ha & Hk & Hr & Hl)] Hb Hd Hl0 Hp. pose proof Hk as [= Hu Hs]. pose proof (lk_rounds _ Hok).
  assert (Hlive : live st = true) by (unfold live, is_status; by rewrite Ha).
  destruct (process_only _ t pf mf e st Hok Hin Hlive Hk) as [Ho Hss].
  pose proof (process_active t pf mf e) as Hact. pose proof (process_ok t pf mf e Hok) as Hok'. pose proof (process_frame t pf mf e) as (_ & _ & _ & Hc).
  pose proof (fun s' ls E D => step_dead t pf mf e st s' ls Hok Hin Hlive Hk E D) as Hdead.
  destruct (maybe_process t pf mf e) as [[e' os] ls]. cbn [fst snd] in *.
  assert (forall s', fst (fst (liq_step e t pf mf st)) = s' -> In s' (le_active e')) as Hin' by (intros s' <-; rewrite Hact; by apply (in_map (fun s => fst (fst (liq_step e t pf mf s))))).
  destruct (step_fires e t pf mf st) as [[E Hw]|[(Hm & Hrm & (s' & o & E & Ha' & Hk' & Hr' & Hl' & Hor))|(Hm & Hrm & s' & l & E & Hd' & Hk')]];
    rewrite ?Hu, ?Hs, ?Hr, ?Hl in *; try done; try lia; rewrite E in *; cbn [fst snd] in *.
  - left. split; [|done]. split; [done|]. exists st. split; [by apply Hin'|done].
  - right. left. split; [done|]. split; [done|]. split; [|by rewrite Ho; cbn; rewrite Hor]. split; [done|]. exists s'. split; [by apply Hin'|]. by rewrite Hk', Hk.
  - right. right. split; [done|]. split; [lia|]. split; [|by rewrite Ho, Hss]. split; [done|by eapply Hdead|].
    rewrite Hc, in_app_iff. right. apply in_map_iff. exists l. assert (Hl1 : In l (only loss_key_of (u, sym) ls)) by (rewrite Hss; by left).
    apply only_in in Hl1 as [Hl1 [= Ha1 Ha2]]. by rewrite Ha1, Ha2.
Qed.

(** The position stays open along the sweeps, and from [cur] to [fin] a sweep
    with a price follows the one before within [gap]; sweeps without a price
    may come at any time. *)
Fixpoint swept (gap cur : Z) (sched : list Sweep) (fin : Z) : Prop :=
  match sched with
  | [] => fin <= cur
  | (t, pf, mf) :: tl => pf u sym <> 0 /\ (if mf sym =? 0 then swept gap cur tl fin else cur <= t <= cur + gap /\ swept gap t tl fin)
  end.

(** What a completed escalation leaves. *)
Definition escalated (r : Z) (sched : list Sweep) (e e' : LiquidationEngine) (os : list LiquidationOrder) (ls : list SocializedLoss) : Prop :=
  List.map lo_round (only order_key_of (u, sym) os) = zrange r (le_max_rounds e + 1) /\ zlen (only loss_key_of (u, sym) ls) = 1 /\
  exists t pf mf, In (t, pf, mf) sched /\ finished (sat_u64 (t + le_cooldown_ns e)) e'.

Lemma escalated_later r s sched e1 e e' os ls os1 ls1 : le_max_rounds e1 = le_max_rounds e -> le_cooldown_ns e1 = le_cooldown_ns e ->
  only order_key_of (u, sym) os1 = [] -> only loss_key_of (u, sym) ls1 = [] ->
  escalated r sched e1 e' os ls -> escalated r (s :: sched) e e' (os1 ++ os) (ls1 ++ ls).
Proof.
  intros E1 E2 Ho Hl (H1 & H2 & t & pf & mf & Hin & Hf). unfold escalated. rewrite !only_app, Ho, Hl, <- E1, <- E2. split; [done|]. split; [done|].
  exists t, pf, mf. split; [by right|done].
Qed.

Lemma escalate_from gap fin sched : forall e r last cur,
  at_round e r last -> 1 <= r <= le_max_rounds e + 1 -> 0 <= le_base_delay_ns e -> 0 < gap -> 0 <= last <= cur ->
  (cur = last \/ r = 1 \/ cur < last + (le_max_rounds e + 1) * le_base_delay_ns e) -> swept gap cur sched fin ->
  (if r =? 1 then cur + gap else last) + (le_max_rounds e + (if r =? 1 then 0 else 2 - r)) * ((le_max_rounds e + 1) * le_base_delay_ns e + gap) <= fin ->
  let '(e', os, ls) := sweeps sched e in escalated r sched e e' os ls.
Proof.
  induction sched as [|[[t pf] mf] sched IH]; intros e r last cur Hat Hr Hd Hg Hlc Hcur Hsw Hfin; cbn [swept sweeps] in *;
    assert (Hdd : r * le_base_delay_ns e <= (le_max_rounds e + 1) * le_base_delay_ns e) by nia; set (D := (le_max_rounds e + 1) * le_base_delay_ns e) in *;
    assert (0 <= D) by (unfold D; nia).
  - exfalso. destruct (r =? 1) eqn:E; bool_to_prop; nia.
  - destruct Hsw as [Hp Hsw]. pose proof (sweep_round e r last t pf mf Hat Hr Hd ltac:(lia) Hp) as Hs. pose proof (process_frame t pf mf e) as (F1 & F2 & F3 & _).
    destruct (maybe_process t pf mf e) as [[e1 os] ls]. cbn [fst] in *. destruct Hs as [(Hat1 & Ho & Hl & Hwait)|[(Hm & Hrm & Hat1 & Ho & Hl)|(Hm & -> & Hf & Ho & Hl)]].
    + (* it waits *)
      assert (exists cur', swept gap cur' sched fin /\ last <= cur' /\ (cur' = last \/ r = 1 \/ cur' < last + D) /\ (r = 1 -> cur' = cur)) as (cur' & Hsw' & Hlc' & Hcur' & Hone).
      { destruct (mf sym =? 0) eqn:Em; bool_to_prop; [exists cur; by split_and!; try lia|]. destruct Hwait as [?|[Hr1 Ht]]; [lia|]. destruct Hsw as [Hb Hsw].
        exists t. split_and!; [done|lia|right; right; lia|lia]. }
      specialize (IH e1 r last cur' Hat1). rewrite F1, F2 in IH. fold D in IH. specialize (IH Hr Hd Hg ltac:(lia) Hcur' Hsw').
      destruct (sweeps sched e1) as [[e2 os2] ls2]. eapply (escalated_later r _ sched e1 e); [done|done|done|done|]. apply IH. destruct (r =? 1) eqn:E; bool_to_prop; [rewrite Hone by done|]; lia.
    + (* the order of this round *)
      replace (mf sym =? 0) with false in Hsw by lia. destruct Hsw as [Hb Hsw]. specialize (IH e1 (r + 1) t t Hat1). rewrite F1, F2 in IH. fold D in IH.
      specialize (IH ltac:(lia) Hd Hg ltac:(lia) ltac:(by left) Hsw). replace (r + 1 =? 1) with false in IH by lia.
      destruct (sweeps sched e1) as [[e2 os2] ls2]. destruct IH as (I1 & I2 & t' & pf' & mf' & Hin & Hf).
      { destruct (r =? 1) eqn:E; bool_to_prop; [subst r; nia|]. assert (t <= last + D + gap) by (destruct Hcur as [->|[?|?]]; lia). nia. }
      split; [|split; [by rewrite only_app, Hl|exists t', pf', mf'; split; [by right|by rewrite F3 in Hf]]].
      rewrite only_app, List.map_app, Ho, I1, F1. unfold zrange. replace (le_max_rounds e + 1 - r) with (Z.succ (le_max_rounds e + 1 - (r + 1))) by lia.
      rewrite (seqZ_cons r) by lia. cbn. do 2 f_equal; lia.
    + (* the loss *)
      pose proof (finished_sweeps _ sched e1 Hf) as Hfs. destruct (sweeps sched e1) as [[e2 os2] ls2]. destruct Hfs as (Hf2 & Ho2 & Hl2).
      unfold escalated. rewrite !only_app, Ho, Ho2, Hl2. cbn [app]. rewrite !app_nil_r. split; [by rewrite zrange_empty by lia|]. split; [done|]. exists t, pf, mf. split; [by left|done].
Qed.

End Escalation.

(** C28: Escalation completes.  Once a liquidation is enqueued, and while the
    position stays open, sweeps at any times and with any marks, of which one
    with a price follows the one before within [gap], place one order for each
    round from the first to the last, in order, and end the liquidation in
    exactly one socialised loss, by the time every round has had the longest
    delay and one gap; sweeps that come early change nothing.  The position is
    then in its cooldown: an enqueue before it ends is refused. *)
Theorem escalation_completes u sym t0 e sched cur gap fin :
  liq_ok e -> 0 <= le_base_delay_ns e -> fst (enqueue u sym t0 e) = true -> 0 <= cur -> 0 < gap ->
  swept u sym gap cur sched fin -> cur + gap + le_max_rounds e * ((le_max_rounds e + 1) * le_base_delay_ns e + gap) <= fin ->
  let '(e', os, ls) := sweeps sched (snd (enqueue u sym t0 e)) in
  List.map lo_round (only order_key_of (u, sym) os) = zrange 1 (le_max_rounds e + 1) /\
  zlen (only loss_key_of (u, sym) ls) = 1 /\ is_in_liquidation u sym e' = false /\
  exists t pf mf, In (t, pf, mf) sched /\ forall now, now < sat_u64 (t + le_cooldown_ns e) -> fst (enqueue u sym now e') = false.
Proof.
  intros Hok Hd Hen Hcur Hg Hsw Hfin. pose proof (enqueue_ok u sym t0 e Hok) as Hok1. pose proof (lk_rounds _ Hok).
  assert (Hc : le_max_rounds (snd (enqueue u sym t0 e)) = le_max_rounds e /\ le_base_delay_ns (snd (enqueue u sym t0 e)) = le_base_delay_ns e /\
    le_cooldown_ns (snd (enqueue u sym t0 e)) = le_cooldown_ns e) by (unfold enqueue; by repeat case_if).
  destruct Hc as (C1 & C2 & C3).
  assert (Hat : at_round u sym (snd (enqueue u sym t0 e)) 1 0).
  { split; [done|]. exists (mkLiqState u sym 1 LActive t0 0). split; [|done]. unfold enqueue in *. case_if; [done|]. case_if; [done|].
    cbn. apply in_app_iff. right. by left. }
  pose proof (escalate_from u sym gap fin sched _ 1 0 cur Hat) as Hesc. rewrite C1, C2 in Hesc. cbn [Z.eqb Pos.eqb] in Hesc. rewrite Z.add_0_r in Hesc.
  specialize (Hesc ltac:(lia) Hd Hg ltac:(lia) ltac:(by right; left) Hsw Hfin).
  destruct (sweeps sched _) as [[e' os] ls]. destruct Hesc as (E1 & E2 & t & pf & mf & Hin & [Hf1 Hf2 Hf3]). rewrite C1 in E1. rewrite C3 in Hf3.
  split; [done|]. split; [done|]. split.
  - apply existsb_false. intros x Hx. destruct (is_key _ _ _ && is_status _ _) eqn:Ex; [|done]. exfalso. apply andb_true_iff in Ex as [Ex1 Ex2]. apply is_key_spec in Ex1.
    apply Hf2, in_live_keys. exists x. split; [done|]. split; [|done]. unfold is_status in Ex2. apply bool_decide_eq_true in Ex2. unfold live, is_status. by rewrite Ex2.
  - exists t, pf, mf. split; [done|]. intros now Hnow. unfold enqueue.
    match goal with |- context [if existsb ?f ?l then _ else _] => replace (existsb f l) with true; [done|] end.
    symmetry. apply existsb_exists. exists (u, sym, sat_u64 (t + le_cooldown_ns e)). split; [|by rewrite !Z.eqb_refl].
    apply filter_In. split; [done|]. lia.
Qed.

(** A sweep a second, with an early one, one without a price, and a position
    and a mark that move. *)
Definition demo_sweeps : list Sweep :=
  let at_ := fun t net mark => (t, fun _ _ => net, fun _ => mark) in
  [at_ 5 4 100; at_ 6 4 100; at_ 900 4 0; at_ 1000 3 101; at_ 2000 3 99; at_ 3000 3 99; at_ 4000 3 99; at_ 5000 3 99; at_ 6000 2 99; at_ 7000 2 99; at_ 8000 2 99; at_ 9100 2 99; at_ 9400 2 99].

Lemma escalation_completes_witness :
  let e := LiquidationEngine_new 1000 10 2 500 60000 in
  swept 7 1 1100 5 demo_sweeps 9400 /\
  let '(e', os, ls) := sweeps demo_sweeps (snd (enqueue 7 1 5 e)) in
  List.map lo_round (only order_key_of (7, 1) os) = zrange 1 (le_max_rounds e + 1) /\
  zlen (only loss_key_of (7, 1) ls) = 1 /\ is_in_liquidation 7 1 e' = false /\
  exists t pf mf, In (t, pf, mf) demo_sweeps /\ forall now, now < sat_u64 (t + le_cooldown_ns e) -> fst (enqueue 7 1 now e') = false.
Proof.
  assert (swept 7 1 1100 5 demo_sweeps 9400) as Hsw by (cbn; repeat split; lia). split; [exact Hsw|].
  apply (escalation_completes 7 1 5 (LiquidationEngine_new 1000 10 2 500 60000) demo_sweeps 5 1100 9400); [|cbn; lia|reflexivity|lia|lia|exact Hsw|cbn; lia].
  split; cbn; [apply NoDup_nil; done | constructor | width_lia].
Defined.

(** Rounding to the tick never makes a liquidation order less aggressive: a
    buy is rounded up and a sell down, by less than a tick, to a multiple of
    the tick; only a sell below one tick is raised, to one tick. *)
Theorem round_to_tick_aggressive price tick side :
  0 < tick -> 0 <= price -> price + tick <= I64_MAX ->
  let p := round_to_tick price tick side in
  (tick | p) /\ 0 <= p /\
  (side = 1 -> tick <= p /\ (tick <= price -> p <= price < p + tick)) /\ (side <> 1 -> price <= p < price + tick).
Proof.
  intros Ht Hp Hb. unfold round_to_tick. replace (tick <=? 0) with false by lia. rewrite Z.rem_mod_nonneg by lia.
  pose proof (Z.div_mod price tick ltac:(lia)) as Hd. pose proof (Z.mod_pos_bound price tick Ht) as Hm.
  assert (Hq : 0 <= price / tick) by (apply Z.div_pos; lia). rewrite wrap_i64_id by width_lia.
  replace (price - price mod tick) with (price / tick * tick) by lia.
  destruct (side =? 1) eqn:Es; bool_to_prop.
  - assert (Hdv : (tick | Z.max (price / tick * tick) tick)).
    { destruct (Z.max_spec (price / tick * tick) tick) as [[_ ->]|[_ ->]]; [apply Z.divide_refl | by exists (price / tick)]. }
    split; [exact Hdv|]. split; [lia|]. split; [|lia]. split; [lia|]. intros. assert (1 <= price / tick) by nia. nia.
  - case_if; bool_to_prop; cbn zeta.
    + split; [by exists (price / tick) | lia].
    + unfold checked_add_i64. rewrite try_i64_some by width_lia. cbn. unfold default, id. split; [exists (price / tick + 1); lia | lia].
Qed.

Lemma round_to_tick_aggressive_witness :
  let p := round_to_tick 1007 10 1 in
  (10 | p) /\ 0 <= p /\ (1 = 1 -> 10 <= p /\ (10 <= 1007 -> p <= 1007 < p + 10)) /\ (1 <> 1 -> 1007 <= p < 1007 + 10).
Proof. apply round_to_tick_aggressive; width_lia. Defined.
