(* ===== verification/ShardState.v ===== *)
(** * ShardState: the state of a risk shard

    The data of [rsx-risk/src/shard.rs] ([RiskShard]), [rings.rs],
    [insurance.rs], [types.rs] and [persist.rs]: hash maps and sets are stdpp's
    [gmap] and [gset], the secondary indexes included, and the order in which a
    hash table yields its entries is the interface [HashIter] of [Hash].  The rings are
    bounded queues; the persist ring records what was delivered. *)

From stdpp Require Import sorting.
From S2P Require Import Prelude Hash Messages Types Position Margin Funding Liquidation.

(** ** Events and records *)

Record FillEvent : Type := mkFillEvent {
  fe_seq : Z;
  fe_symbol_id : Z;
  fe_taker_user_id : Z;
  fe_maker_user_id : Z;
  fe_price : Z;
  fe_qty : Z;
  fe_taker_side : Z;
  fe_timestamp_ns : Z;
}.

Inductive OrderResponse : Type :=
| Accepted (user_id margin_reserved order_id_hi order_id_lo : Z)
| Rejected (user_id : Z) (reason : RejectReason) (order_id_hi order_id_lo : Z)
| LiquidationNotice (user_id symbol_id status round side qty price slip_bps : Z).

Inductive MeCommand : Type :=
| MeOrder (order : OrderRequest) (ingress_ns : Z)
| MeCancel (cancel : CancelRequest).

Record InsuranceFund : Type := mkFund { if_symbol_id : Z; if_balance : Z; if_version : Z }.

Definition InsuranceFund_new (symbol_id initial_balance : Z) : InsuranceFund := mkFund symbol_id initial_balance 0.
Definition fund_deduct (amount : Z) (f : InsuranceFund) : InsuranceFund :=
  mkFund (if_symbol_id f) (sat_i64 (if_balance f - amount)) (wrap_u64 (if_version f + 1)).
Definition fund_add (amount : Z) (f : InsuranceFund) : InsuranceFund :=
  mkFund (if_symbol_id f) (sat_i64 (if_balance f + amount)) (wrap_u64 (if_version f + 1)).

Record FrozenOrderRecord : Type := mkFrozenRecord {
  fr_user_id : Z; fr_order_id_hi : Z; fr_order_id_lo : Z; fr_symbol_id : Z; fr_amount : Z
}.

Record FillRecord : Type := mkFillRecord {
  fl_symbol_id : Z;
  fl_taker_user_id : Z;
  fl_maker_user_id : Z;
  fl_price : Z;
  fl_qty : Z;
  fl_taker_fee : Z;
  fl_maker_fee : Z;
  fl_taker_side : Z;
  fl_seq : Z;
  fl_timestamp_ns : Z;
}.

Record FundingRecord : Type := mkFundingRecord {
  fn_user_id : Z; fn_symbol_id : Z; fn_interval_id : Z; fn_amount : Z; fn_rate : Z; fn_settlement_ts : Z
}.

Record FundingSettlement : Type := mkFundingSettlement {
  fs_symbol_id : Z; fs_interval_id : Z; fs_payments : list FundingRecord; fs_accounts : list Account
}.

Record LiquidationRecord : Type := mkLiqRecord {
  lr_user_id : Z;
  lr_symbol_id : Z;
  lr_round : Z;
  lr_side : Z;
  lr_price : Z;
  lr_qty : Z;
  lr_slippage_bps : Z;
  lr_status : Z;
  lr_timestamp_ns : Z;
}.

Inductive PersistEvent : Type :=
| PePosition (p : Position)
| PeAccount (a : Account)
| PeFill (f : FillRecord)
| PeTip (symbol_id seq : Z)
| PeFundingSettlement (s : FundingSettlement)
| PeInsuranceFund (f : InsuranceFund)
| PeLiquidation (r : LiquidationRecord)
| PeFrozenInsert (r : FrozenOrderRecord)
| PeFrozenRemove (user_id order_id_hi order_id_lo : Z)
| PeConfigReload (symbol_id config_version : Z).

Record SymbolRiskConfig : Type := mkRiskConfig {
  rc_symbol_id : Z;
  rc_config_version : Z;
  rc_params : SymbolRiskParams;
  rc_taker_fee_bps : Z;
  rc_maker_fee_bps : Z;
  rc_tick_size : Z;
  rc_funding_interval_secs : Z;
  rc_funding_min_bps : Z;
  rc_funding_max_bps : Z;
}.

(** ** Rings *)

(** A bounded ring seen from its producer: [push] fails when it is full. *)
Record Ring (A : Type) : Type := mkRing { rg_items : list A; rg_capacity : Z }.
Arguments mkRing {A}.
Arguments rg_items {A}.
Arguments rg_capacity {A}.

Definition is_full {A} (r : Ring A) : bool := rg_capacity r <=? zlen (rg_items r).
Definition ring_push {A} (x : A) (r : Ring A) : option (Ring A) :=
  if is_full r then None else Some (mkRing (rg_items r ++ [x]) (rg_capacity r)).

Record ShardRings : Type := mkRings { response_producer : Ring OrderResponse; me_producer : Ring MeCommand }.

(** The persist ring: what its worker was handed, and, once the worker is
    gone, how many slots are left in the ring. *)
Record PersistRing : Type := mkPersistRing { pr_log : list PersistEvent; pr_gone : option nat }.

(** The loop of [push_persist]: while the worker is alive a full ring is
    waited for, so the event is delivered; with the worker gone it is dropped
    once the ring is full. *)
Definition persist_push (e : PersistEvent) (p : PersistRing) : PersistRing :=
  match pr_gone p with
  | None => mkPersistRing (pr_log p ++ [e]) None
  | Some O => p
  | Some (S k) => mkPersistRing (pr_log p ++ [e]) (Some k)
  end.

(** ** The shard *)

Record RiskShard : Type := mkShard {
  rs_shard_id : Z;
  rs_shard_count : Z;
  rs_max_symbols : Z;
  rs_accounts : gmap Z Account;
  rs_positions : gmap (Z * Z) Position;
  rs_positions_by_user : gmap Z (gset Z);
  rs_margin : PortfolioMargin;
  rs_index_prices : list IndexPrice;
  rs_mark_prices : list Z;
  rs_exposure : ExposureIndex;
  rs_tips : list Z;
  rs_funding_interval_secs : list Z;
  rs_funding_min_bps : list Z;
  rs_funding_max_bps : list Z;
  rs_funding_settled : list (option Z);
  rs_funding_checked_secs : Z;
  rs_funding_stalled : bool;
  rs_taker_fee_bps : list Z;
  rs_maker_fee_bps : list Z;
  rs_tick_size : list Z;
  rs_stashed_bbo : list (option BboUpdate);
  rs_insurance_funds : gmap Z InsuranceFund;
  rs_frozen_orders : gmap Z Freeze;
  rs_pending_cancels : list CancelRequest;
  rs_frozen_by_user : gmap Z (gmap Z Z);
  rs_config_versions : list Z;
  rs_fills_processed : Z;
  rs_orders_processed : Z;
  rs_backpressured : bool;
  rs_persist_producer : option PersistRing;
  rs_config_updates : option (list SymbolRiskConfig);
  rs_liquidation : LiquidationEngine;
  rs_fallback_mark_prices : list Z;
  rs_mark_dirty : bool;
}.

(** ** Field updates *)

Definition set_accounts (v : gmap Z Account) (s : RiskShard) : RiskShard :=
  mkShard
    (rs_shard_id s) (rs_shard_count s) (rs_max_symbols s) v (rs_positions s) (rs_positions_by_user s) (rs_margin s)
    (rs_index_prices s) (rs_mark_prices s) (rs_exposure s) (rs_tips s) (rs_funding_interval_secs s)
    (rs_funding_min_bps s) (rs_funding_max_bps s) (rs_funding_settled s) (rs_funding_checked_secs s)
    (rs_funding_stalled s) (rs_taker_fee_bps s) (rs_maker_fee_bps s) (rs_tick_size s) (rs_stashed_bbo s)
    (rs_insurance_funds s) (rs_frozen_orders s) (rs_pending_cancels s) (rs_frozen_by_user s) (rs_config_versions s)
    (rs_fills_processed s) (rs_orders_processed s) (rs_backpressured s) (rs_persist_producer s) (rs_config_updates s)
    (rs_liquidation s) (rs_fallback_mark_prices s) (rs_mark_dirty s).
Definition set_positions (v : gmap (Z * Z) Position) (s : RiskShard) : RiskShard :=
  mkShard
    (rs_shard_id s) (rs_shard_count s) (rs_max_symbols s) (rs_accounts s) v (rs_positions_by_user s) (rs_margin s)
    (rs_index_prices s) (rs_mark_prices s) (rs_exposure s) (rs_tips s) (rs_funding_interval_secs s)
    (rs_funding_min_bps s) (rs_funding_max_bps s) (rs_funding_settled s) (rs_funding_checked_secs s)
    (rs_funding_stalled s) (rs_taker_fee_bps s) (rs_maker_fee_bps s) (rs_tick_size s) (rs_stashed_bbo s)
    (rs_insurance_funds s) (rs_frozen_orders s) (rs_pending_cancels s) (rs_frozen_by_user s) (rs_config_versions s)
    (rs_fills_processed s) (rs_orders_processed s) (rs_backpressured s) (rs_persist_producer s) (rs_config_updates s)
    (rs_liquidation s) (rs_fallback_mark_prices s) (rs_mark_dirty s).
Definition set_positions_by_user (v : gmap Z (gset Z)) (s : RiskShard) : RiskShard :=
  mkShard
    (rs_shard_id s) (rs_shard_count s) (rs_max_symbols s) (rs_accounts s) (rs_positions s) v (rs_margin s)
    (rs_index_prices s) (rs_mark_prices s) (rs_exposure s) (rs_tips s) (rs_funding_interval_secs s)
    (rs_funding_min_bps s) (rs_funding_max_bps s) (rs_funding_settled s) (rs_funding_checked_secs s)
    (rs_funding_stalled s) (rs_taker_fee_bps s) (rs_maker_fee_bps s) (rs_tick_size s) (rs_stashed_bbo s)
    (rs_insurance_funds s) (rs_frozen_orders s) (rs_pending_cancels s) (rs_frozen_by_user s) (rs_config_versions s)
    (rs_fills_processed s) (rs_orders_processed s) (rs_backpressured s) (rs_persist_producer s) (rs_config_updates s)
    (rs_liquidation s) (rs_fallback_mark_prices s) (rs_mark_dirty s).
Definition set_margin (v : PortfolioMargin) (s : RiskShard) : RiskShard :=
  mkShard
    (rs_shard_id s) (rs_shard_count s) (rs_max_symbols s) (rs_accounts s) (rs_positions s) (rs_positions_by_user s) v
    (rs_index_prices s) (rs_mark_prices s) (rs_exposure s) (rs_tips s) (rs_funding_interval_secs s)
    (rs_funding_min_bps s) (rs_funding_max_bps s) (rs_funding_settled s) (rs_funding_checked_secs s)
    (rs_funding_stalled s) (rs_taker_fee_bps s) (rs_maker_fee_bps s) (rs_tick_size s) (rs_stashed_bbo s)
    (rs_insurance_funds s) (rs_frozen_orders s) (rs_pending_cancels s) (rs_frozen_by_user s) (rs_config_versions s)
    (rs_fills_processed s) (rs_orders_processed s) (rs_backpressured s) (rs_persist_producer s) (rs_config_updates s)
    (rs_liquidation s) (rs_fallback_mark_prices s) (rs_mark_dirty s).
Definition set_index_prices (v : list IndexPrice) (s : RiskShard) : RiskShard :=
  mkShard
    (rs_shard_id s) (rs_shard_count s) (rs_max_symbols s) (rs_accounts s) (rs_positions s) (rs_positions_by_user s)
    (rs_margin s) v (rs_mark_prices s) (rs_exposure s) (rs_tips s) (rs_funding_interval_secs s) (rs_funding_min_bps s)
    (rs_funding_max_bps s) (rs_funding_settled s) (rs_funding_checked_secs s) (rs_funding_stalled s) (rs_taker_fee_bps
    s) (rs_maker_fee_bps s) (rs_tick_size s) (rs_stashed_bbo s) (rs_insurance_funds s) (rs_frozen_orders s)
    (rs_pending_cancels s) (rs_frozen_by_user s) (rs_config_versions s) (rs_fills_processed s) (rs_orders_processed s)
    (rs_backpressured s) (rs_persist_producer s) (rs_config_updates s) (rs_liquidation s) (rs_fallback_mark_prices s)
    (rs_mark_dirty s).
Definition set_mark_prices (v : list Z) (s : RiskShard) : RiskShard :=
  mkShard
    (rs_shard_id s) (rs_shard_count s) (rs_max_symbols s) (rs_accounts s) (rs_positions s) (rs_positions_by_user s)
    (rs_margin s) (rs_index_prices s) v (rs_exposure s) (rs_tips s) (rs_funding_interval_secs s) (rs_funding_min_bps
    s) (rs_funding_max_bps s) (rs_funding_settled s) (rs_funding_checked_secs s) (rs_funding_stalled s)
    (rs_taker_fee_bps s) (rs_maker_fee_bps s) (rs_tick_size s) (rs_stashed_bbo s) (rs_insurance_funds s)
    (rs_frozen_orders s) (rs_pending_cancels s) (rs_frozen_by_user s) (rs_config_versions s) (rs_fills_processed s)
    (rs_orders_processed s) (rs_backpressured s) (rs_persist_producer s) (rs_config_updates s) (rs_liquidation s)
    (rs_fallback_mark_prices s) (rs_mark_dirty s).
Definition set_exposure (v : ExposureIndex) (s : RiskShard) : RiskShard :=
  mkShard
    (rs_shard_id s) (rs_shard_count s) (rs_max_symbols s) (rs_accounts s) (rs_positions s) (rs_positions_by_user s)
    (rs_margin s) (rs_index_prices s) (rs_mark_prices s) v (rs_tips s) (rs_funding_interval_secs s)
    (rs_funding_min_bps s) (rs_funding_max_bps s) (rs_funding_settled s) (rs_funding_checked_secs s)
    (rs_funding_stalled s) (rs_taker_fee_bps s) (rs_maker_fee_bps s) (rs_tick_size s) (rs_stashed_bbo s)
    (rs_insurance_funds s) (rs_frozen_orders s) (rs_pending_cancels s) (rs_frozen_by_user s) (rs_config_versions s)
    (rs_fills_processed s) (rs_orders_processed s) (rs_backpressured s) (rs_persist_producer s) (rs_config_updates s)
    (rs_liquidation s) (rs_fallback_mark_prices s) (rs_mark_dirty s).
Definition set_tips (v : list Z) (s : RiskShard) : RiskShard :=
  mkShard
    (rs_shard_id s) (rs_shard_count s) (rs_max_symbols s) (rs_accounts s) (rs_positions s) (rs_positions_by_user s)
    (rs_margin s) (rs_index_prices s) (rs_mark_prices s) (rs_exposure s) v (rs_funding_interval_secs s)
    (rs_funding_min_bps s) (rs_funding_max_bps s) (rs_funding_settled s) (rs_funding_checked_secs s)
    (rs_funding_stalled s) (rs_taker_fee_bps s) (rs_maker_fee_bps s) (rs_tick_size s) (rs_stashed_bbo s)
    (rs_insurance_funds s) (rs_frozen_orders s) (rs_pending_cancels s) (rs_frozen_by_user s) (rs_config_versions s)
    (rs_fills_processed s) (rs_orders_processed s) (rs_backpressured s) (rs_persist_producer s) (rs_config_updates s)
    (rs_liquidation s) (rs_fallback_mark_prices s) (rs_mark_dirty s).
Definition set_funding_interval_secs (v : list Z) (s : RiskShard) : RiskShard :=
  mkShard
    (rs_shard_id s) (rs_shard_count s) (rs_max_symbols s) (rs_accounts s) (rs_positions s) (rs_positions_by_user s)
    (rs_margin s) (rs_index_prices s) (rs_mark_prices s) (rs_exposure s) (rs_tips s) v (rs_funding_min_bps s)
    (rs_funding_max_bps s) (rs_funding_settled s) (rs_funding_checked_secs s) (rs_funding_stalled s) (rs_taker_fee_bps
    s) (rs_maker_fee_bps s) (rs_tick_size s) (rs_stashed_bbo s) (rs_insurance_funds s) (rs_frozen_orders s)
    (rs_pending_cancels s) (rs_frozen_by_user s) (rs_config_versions s) (rs_fills_processed s) (rs_orders_processed s)
    (rs_backpressured s) (rs_persist_producer s) (rs_config_updates s) (rs_liquidation s) (rs_fallback_mark_prices s)
    (rs_mark_dirty s).
Definition set_funding_min_bps (v : list Z) (s : RiskShard) : RiskShard :=
  mkShard
    (rs_shard_id s) (rs_shard_count s) (rs_max_symbols s) (rs_accounts s) (rs_positions s) (rs_positions_by_user s)
    (rs_margin s) (rs_index_prices s) (rs_mark_prices s) (rs_exposure s) (rs_tips s) (rs_funding_interval_secs s) v
    (rs_funding_max_bps s) (rs_funding_settled s) (rs_funding_checked_secs s) (rs_funding_stalled s) (rs_taker_fee_bps
    s) (rs_maker_fee_bps s) (rs_tick_size s) (rs_stashed_bbo s) (rs_insurance_funds s) (rs_frozen_orders s)
    (rs_pending_cancels s) (rs_frozen_by_user s) (rs_config_versions s) (rs_fills_processed s) (rs_orders_processed s)
    (rs_backpressured s) (rs_persist_producer s) (rs_config_updates s) (rs_liquidation s) (rs_fallback_mark_prices s)
    (rs_mark_dirty s).
Definition set_funding_max_bps (v : list Z) (s : RiskShard) : RiskShard :=
  mkShard
    (rs_shard_id s) (rs_shard_count s) (rs_max_symbols s) (rs_accounts s) (rs_positions s) (rs_positions_by_user s)
    (rs_margin s) (rs_index_prices s) (rs_mark_prices s) (rs_exposure s) (rs_tips s) (rs_funding_interval_secs s)
    (rs_funding_min_bps s) v (rs_funding_settled s) (rs_funding_checked_secs s) (rs_funding_stalled s)
    (rs_taker_fee_bps s) (rs_maker_fee_bps s) (rs_tick_size s) (rs_stashed_bbo s) (rs_insurance_funds s)
    (rs_frozen_orders s) (rs_pending_cancels s) (rs_frozen_by_user s) (rs_config_versions s) (rs_fills_processed s)
    (rs_orders_processed s) (rs_backpressured s) (rs_persist_producer s) (rs_config_updates s) (rs_liquidation s)
    (rs_fallback_mark_prices s) (rs_mark_dirty s).
Definition set_funding_settled (v : list (option Z)) (s : RiskShard) : RiskShard :=
  mkShard
    (rs_shard_id s) (rs_shard_count s) (rs_max_symbols s) (rs_accounts s) (rs_positions s) (rs_positions_by_user s)
    (rs_margin s) (rs_index_prices s) (rs_mark_prices s) (rs_exposure s) (rs_tips s) (rs_funding_interval_secs s)
    (rs_funding_min_bps s) (rs_funding_max_bps s) v (rs_funding_checked_secs s) (rs_funding_stalled s)
    (rs_taker_fee_bps s) (rs_maker_fee_bps s) (rs_tick_size s) (rs_stashed_bbo s) (rs_insurance_funds s)
    (rs_frozen_orders s) (rs_pending_cancels s) (rs_frozen_by_user s) (rs_config_versions s) (rs_fills_processed s)
    (rs_orders_processed s) (rs_backpressured s) (rs_persist_producer s) (rs_config_updates s) (rs_liquidation s)
    (rs_fallback_mark_prices s) (rs_mark_dirty s).
Definition set_funding_checked_secs (v : Z) (s : RiskShard) : RiskShard :=
  mkShard
    (rs_shard_id s) (rs_shard_count s) (rs_max_symbols s) (rs_accounts s) (rs_positions s) (rs_positions_by_user s)
    (rs_margin s) (rs_index_prices s) (rs_mark_prices s) (rs_exposure s) (rs_tips s) (rs_funding_interval_secs s)
    (rs_funding_min_bps s) (rs_funding_max_bps s) (rs_funding_settled s) v (rs_funding_stalled s) (rs_taker_fee_bps s)
    (rs_maker_fee_bps s) (rs_tick_size s) (rs_stashed_bbo s) (rs_insurance_funds s) (rs_frozen_orders s)
    (rs_pending_cancels s) (rs_frozen_by_user s) (rs_config_versions s) (rs_fills_processed s) (rs_orders_processed s)
    (rs_backpressured s) (rs_persist_producer s) (rs_config_updates s) (rs_liquidation s) (rs_fallback_mark_prices s)
    (rs_mark_dirty s).
Definition set_funding_stalled (v : bool) (s : RiskShard) : RiskShard :=
  mkShard
    (rs_shard_id s) (rs_shard_count s) (rs_max_symbols s) (rs_accounts s) (rs_positions s) (rs_positions_by_user s)
    (rs_margin s) (rs_index_prices s) (rs_mark_prices s) (rs_exposure s) (rs_tips s) (rs_funding_interval_secs s)
    (rs_funding_min_bps s) (rs_funding_max_bps s) (rs_funding_settled s) (rs_funding_checked_secs s) v
    (rs_taker_fee_bps s) (rs_maker_fee_bps s) (rs_tick_size s) (rs_stashed_bbo s) (rs_insurance_funds s)
    (rs_frozen_orders s) (rs_pending_cancels s) (rs_frozen_by_user s) (rs_config_versions s) (rs_fills_processed s)
    (rs_orders_processed s) (rs_backpressured s) (rs_persist_producer s) (rs_config_updates s) (rs_liquidation s)
    (rs_fallback_mark_prices s) (rs_mark_dirty s).
Definition set_taker_fee_bps (v : list Z) (s : RiskShard) : RiskShard :=
  mkShard
    (rs_shard_id s) (rs_shard_count s) (rs_max_symbols s) (rs_accounts s) (rs_positions s) (rs_positions_by_user s)
    (rs_margin s) (rs_index_prices s) (rs_mark_prices s) (rs_exposure s) (rs_tips s) (rs_funding_interval_secs s)
    (rs_funding_min_bps s) (rs_funding_max_bps s) (rs_funding_settled s) (rs_funding_checked_secs s)
    (rs_funding_stalled s) v (rs_maker_fee_bps s) (rs_tick_size s) (rs_stashed_bbo s) (rs_insurance_funds s)
    (rs_frozen_orders s) (rs_pending_cancels s) (rs_frozen_by_user s) (rs_config_versions s) (rs_fills_processed s)
    (rs_orders_processed s) (rs_backpressured s) (rs_persist_producer s) (rs_config_updates s) (rs_liquidation s)
    (rs_fallback_mark_prices s) (rs_mark_dirty s).
Definition set_maker_fee_bps (v : list Z) (s : RiskShard) : RiskShard :=
  mkShard
    (rs_shard_id s) (rs_shard_count s) (rs_max_symbols s) (rs_accounts s) (rs_positions s) (rs_positions_by_user s)
    (rs_margin s) (rs_index_prices s) (rs_mark_prices s) (rs_exposure s) (rs_tips s) (rs_funding_interval_secs s)
    (rs_funding_min_bps s) (rs_funding_max_bps s) (rs_funding_settled s) (rs_funding_checked_secs s)
    (rs_funding_stalled s) (rs_taker_fee_bps s) v (rs_tick_size s) (rs_stashed_bbo s) (rs_insurance_funds s)
    (rs_frozen_orders s) (rs_pending_cancels s) (rs_frozen_by_user s) (rs_config_versions s) (rs_fills_processed s)
    (rs_orders_processed s) (rs_backpressured s) (rs_persist_producer s) (rs_config_updates s) (rs_liquidation s)
    (rs_fallback_mark_prices s) (rs_mark_dirty s).
Definition set_tick_size (v : list Z) (s : RiskShard) : RiskShard :=
  mkShard
    (rs_shard_id s) (rs_shard_count s) (rs_max_symbols s) (rs_accounts s) (rs_positions s) (rs_positions_by_user s)
    (rs_margin s) (rs_index_prices s) (rs_mark_prices s) (rs_exposure s) (rs_tips s) (rs_funding_interval_secs s)
    (rs_funding_min_bps s) (rs_funding_max_bps s) (rs_funding_settled s) (rs_funding_checked_secs s)
    (rs_funding_stalled s) (rs_taker_fee_bps s) (rs_maker_fee_bps s) v (rs_stashed_bbo s) (rs_insurance_funds s)
    (rs_frozen_orders s) (rs_pending_cancels s) (rs_frozen_by_user s) (rs_config_versions s) (rs_fills_processed s)
    (rs_orders_processed s) (rs_backpressured s) (rs_persist_producer s) (rs_config_updates s) (rs_liquidation s)
    (rs_fallback_mark_prices s) (rs_mark_dirty s).
Definition set_stashed_bbo (v : list (option BboUpdate)) (s : RiskShard) : RiskShard :=
  mkShard
    (rs_shard_id s) (rs_shard_count s) (rs_max_symbols s) (rs_accounts s) (rs_positions s) (rs_positions_by_user s)
    (rs_margin s) (rs_index_prices s) (rs_mark_prices s) (rs_exposure s) (rs_tips s) (rs_funding_interval_secs s)
    (rs_funding_min_bps s) (rs_funding_max_bps s) (rs_funding_settled s) (rs_funding_checked_secs s)
    (rs_funding_stalled s) (rs_taker_fee_bps s) (rs_maker_fee_bps s) (rs_tick_size s) v (rs_insurance_funds s)
    (rs_frozen_orders s) (rs_pending_cancels s) (rs_frozen_by_user s) (rs_config_versions s) (rs_fills_processed s)
    (rs_orders_processed s) (rs_backpressured s) (rs_persist_producer s) (rs_config_updates s) (rs_liquidation s)
    (rs_fallback_mark_prices s) (rs_mark_dirty s).
Definition set_insurance_funds (v : gmap Z InsuranceFund) (s : RiskShard) : RiskShard :=
  mkShard
    (rs_shard_id s) (rs_shard_count s) (rs_max_symbols s) (rs_accounts s) (rs_positions s) (rs_positions_by_user s)
    (rs_margin s) (rs_index_prices s) (rs_mark_prices s) (rs_exposure s) (rs_tips s) (rs_funding_interval_secs s)
    (rs_funding_min_bps s) (rs_funding_max_bps s) (rs_funding_settled s) (rs_funding_checked_secs s)
    (rs_funding_stalled s) (rs_taker_fee_bps s) (rs_maker_fee_bps s) (rs_tick_size s) (rs_stashed_bbo s) v
    (rs_frozen_orders s) (rs_pending_cancels s) (rs_frozen_by_user s) (rs_config_versions s) (rs_fills_processed s)
    (rs_orders_processed s) (rs_backpressured s) (rs_persist_producer s) (rs_config_updates s) (rs_liquidation s)
    (rs_fallback_mark_prices s) (rs_mark_dirty s).
Definition set_frozen_orders (v : gmap Z Freeze) (s : RiskShard) : RiskShard :=
  mkShard
    (rs_shard_id s) (rs_shard_count s) (rs_max_symbols s) (rs_accounts s) (rs_positions s) (rs_positions_by_user s)
    (rs_margin s) (rs_index_prices s) (rs_mark_prices s) (rs_exposure s) (rs_tips s) (rs_funding_interval_secs s)
    (rs_funding_min_bps s) (rs_funding_max_bps s) (rs_funding_settled s) (rs_funding_checked_secs s)
    (rs_funding_stalled s) (rs_taker_fee_bps s) (rs_maker_fee_bps s) (rs_tick_size s) (rs_stashed_bbo s)
    (rs_insurance_funds s) v (rs_pending_cancels s) (rs_frozen_by_user s) (rs_config_versions s) (rs_fills_processed
    s) (rs_orders_processed s) (rs_backpressured s) (rs_persist_producer s) (rs_config_updates s) (rs_liquidation s)
    (rs_fallback_mark_prices s) (rs_mark_dirty s).
Definition set_pending_cancels (v : list CancelRequest) (s : RiskShard) : RiskShard :=
  mkShard
    (rs_shard_id s) (rs_shard_count s) (rs_max_symbols s) (rs_accounts s) (rs_positions s) (rs_positions_by_user s)
    (rs_margin s) (rs_index_prices s) (rs_mark_prices s) (rs_exposure s) (rs_tips s) (rs_funding_interval_secs s)
    (rs_funding_min_bps s) (rs_funding_max_bps s) (rs_funding_settled s) (rs_funding_checked_secs s)
    (rs_funding_stalled s) (rs_taker_fee_bps s) (rs_maker_fee_bps s) (rs_tick_size s) (rs_stashed_bbo s)
    (rs_insurance_funds s) (rs_frozen_orders s) v (rs_frozen_by_user s) (rs_config_versions s) (rs_fills_processed s)
    (rs_orders_processed s) (rs_backpressured s) (rs_persist_producer s) (rs_config_updates s) (rs_liquidation s)
    (rs_fallback_mark_prices s) (rs_mark_dirty s).
Definition set_frozen_by_user (v : gmap Z (gmap Z Z)) (s : RiskShard) : RiskShard :=
  mkShard
    (rs_shard_id s) (rs_shard_count s) (rs_max_symbols s) (rs_accounts s) (rs_positions s) (rs_positions_by_user s)
    (rs_margin s) (rs_index_prices s) (rs_mark_prices s) (rs_exposure s) (rs_tips s) (rs_funding_interval_secs s)
    (rs_funding_min_bps s) (rs_funding_max_bps s) (rs_funding_settled s) (rs_funding_checked_secs s)
    (rs_funding_stalled s) (rs_taker_fee_bps s) (rs_maker_fee_bps s) (rs_tick_size s) (rs_stashed_bbo s)
    (rs_insurance_funds s) (rs_frozen_orders s) (rs_pending_cancels s) v (rs_config_versions s) (rs_fills_processed s)
    (rs_orders_processed s) (rs_backpressured s) (rs_persist_producer s) (rs_config_updates s) (rs_liquidation s)
    (rs_fallback_mark_prices s) (rs_mark_dirty s).
Definition set_config_versions (v : list Z) (s : RiskShard) : RiskShard :=
  mkShard
    (rs_shard_id s) (rs_shard_count s) (rs_max_symbols s) (rs_accounts s) (rs_positions s) (rs_positions_by_user s)
    (rs_margin s) (rs_index_prices s) (rs_mark_prices s) (rs_exposure s) (rs_tips s) (rs_funding_interval_secs s)
    (rs_funding_min_bps s) (rs_funding_max_bps s) (rs_funding_settled s) (rs_funding_checked_secs s)
    (rs_funding_stalled s) (rs_taker_fee_bps s) (rs_maker_fee_bps s) (rs_tick_size s) (rs_stashed_bbo s)
    (rs_insurance_funds s) (rs_frozen_orders s) (rs_pending_cancels s) (rs_frozen_by_user s) v (rs_fills_processed s)
    (rs_orders_processed s) (rs_backpressured s) (rs_persist_producer s) (rs_config_updates s) (rs_liquidation s)
    (rs_fallback_mark_prices s) (rs_mark_dirty s).
Definition set_fills_processed (v : Z) (s : RiskShard) : RiskShard :=
  mkShard
    (rs_shard_id s) (rs_shard_count s) (rs_max_symbols s) (rs_accounts s) (rs_positions s) (rs_positions_by_user s)
    (rs_margin s) (rs_index_prices s) (rs_mark_prices s) (rs_exposure s) (rs_tips s) (rs_funding_interval_secs s)
    (rs_funding_min_bps s) (rs_funding_max_bps s) (rs_funding_settled s) (rs_funding_checked_secs s)
    (rs_funding_stalled s) (rs_taker_fee_bps s) (rs_maker_fee_bps s) (rs_tick_size s) (rs_stashed_bbo s)
    (rs_insurance_funds s) (rs_frozen_orders s) (rs_pending_cancels s) (rs_frozen_by_user s) (rs_config_versions s) v
    (rs_orders_processed s) (rs_backpressured s) (rs_persist_producer s) (rs_config_updates s) (rs_liquidation s)
    (rs_fallback_mark_prices s) (rs_mark_dirty s).
Definition set_orders_processed (v : Z) (s : RiskShard) : RiskShard :=
  mkShard
    (rs_shard_id s) (rs_shard_count s) (rs_max_symbols s) (rs_accounts s) (rs_positions s) (rs_positions_by_user s)
    (rs_margin s) (rs_index_prices s) (rs_mark_prices s) (rs_exposure s) (rs_tips s) (rs_funding_interval_secs s)
    (rs_funding_min_bps s) (rs_funding_max_bps s) (rs_funding_settled s) (rs_funding_checked_secs s)
    (rs_funding_stalled s) (rs_taker_fee_bps s) (rs_maker_fee_bps s) (rs_tick_size s) (rs_stashed_bbo s)
    (rs_insurance_funds s) (rs_frozen_orders s) (rs_pending_cancels s) (rs_frozen_by_user s) (rs_config_versions s)
    (rs_fills_processed s) v (rs_backpressured s) (rs_persist_producer s) (rs_config_updates s) (rs_liquidation s)
    (rs_fallback_mark_prices s) (rs_mark_dirty s).
Definition set_backpressured (v : bool) (s : RiskShard) : RiskShard :=
  mkShard
    (rs_shard_id s) (rs_shard_count s) (rs_max_symbols s) (rs_accounts s) (rs_positions s) (rs_positions_by_user s)
    (rs_margin s) (rs_index_prices s) (rs_mark_prices s) (rs_exposure s) (rs_tips s) (rs_funding_interval_secs s)
    (rs_funding_min_bps s) (rs_funding_max_bps s) (rs_funding_settled s) (rs_funding_checked_secs s)
    (rs_funding_stalled s) (rs_taker_fee_bps s) (rs_maker_fee_bps s) (rs_tick_size s) (rs_stashed_bbo s)
    (rs_insurance_funds s) (rs_frozen_orders s) (rs_pending_cancels s) (rs_frozen_by_user s) (rs_config_versions s)
    (rs_fills_processed s) (rs_orders_processed s) v (rs_persist_producer s) (rs_config_updates s) (rs_liquidation s)
    (rs_fallback_mark_prices s) (rs_mark_dirty s).
Definition set_persist_producer (v : option PersistRing) (s : RiskShard) : RiskShard :=
  mkShard
    (rs_shard_id s) (rs_shard_count s) (rs_max_symbols s) (rs_accounts s) (rs_positions s) (rs_positions_by_user s)
    (rs_margin s) (rs_index_prices s) (rs_mark_prices s) (rs_exposure s) (rs_tips s) (rs_funding_interval_secs s)
    (rs_funding_min_bps s) (rs_funding_max_bps s) (rs_funding_settled s) (rs_funding_checked_secs s)
    (rs_funding_stalled s) (rs_taker_fee_bps s) (rs_maker_fee_bps s) (rs_tick_size s) (rs_stashed_bbo s)
    (rs_insurance_funds s) (rs_frozen_orders s) (rs_pending_cancels s) (rs_frozen_by_user s) (rs_config_versions s)
    (rs_fills_processed s) (rs_orders_processed s) (rs_backpressured s) v (rs_config_updates s) (rs_liquidation s)
    (rs_fallback_mark_prices s) (rs_mark_dirty s).
Definition set_config_updates (v : option (list SymbolRiskConfig)) (s : RiskShard) : RiskShard :=
  mkShard
    (rs_shard_id s) (rs_shard_count s) (rs_max_symbols s) (rs_accounts s) (rs_positions s) (rs_positions_by_user s)
    (rs_margin s) (rs_index_prices s) (rs_mark_prices s) (rs_exposure s) (rs_tips s) (rs_funding_interval_secs s)
    (rs_funding_min_bps s) (rs_funding_max_bps s) (rs_funding_settled s) (rs_funding_checked_secs s)
    (rs_funding_stalled s) (rs_taker_fee_bps s) (rs_maker_fee_bps s) (rs_tick_size s) (rs_stashed_bbo s)
    (rs_insurance_funds s) (rs_frozen_orders s) (rs_pending_cancels s) (rs_frozen_by_user s) (rs_config_versions s)
    (rs_fills_processed s) (rs_orders_processed s) (rs_backpressured s) (rs_persist_producer s) v (rs_liquidation s)
    (rs_fallback_mark_prices s) (rs_mark_dirty s).
Definition set_liquidation (v : LiquidationEngine) (s : RiskShard) : RiskShard :=
  mkShard
    (rs_shard_id s) (rs_shard_count s) (rs_max_symbols s) (rs_accounts s) (rs_positions s) (rs_positions_by_user s)
    (rs_margin s) (rs_index_prices s) (rs_mark_prices s) (rs_exposure s) (rs_tips s) (rs_funding_interval_secs s)
    (rs_funding_min_bps s) (rs_funding_max_bps s) (rs_funding_settled s) (rs_funding_checked_secs s)
    (rs_funding_stalled s) (rs_taker_fee_bps s) (rs_maker_fee_bps s) (rs_tick_size s) (rs_stashed_bbo s)
    (rs_insurance_funds s) (rs_frozen_orders s) (rs_pending_cancels s) (rs_frozen_by_user s) (rs_config_versions s)
    (rs_fills_processed s) (rs_orders_processed s) (rs_backpressured s) (rs_persist_producer s) (rs_config_updates s)
    v (rs_fallback_mark_prices s) (rs_mark_dirty s).
Definition set_fallback_mark_prices (v : list Z) (s : RiskShard) : RiskShard :=
  mkShard
    (rs_shard_id s) (rs_shard_count s) (rs_max_symbols s) (rs_accounts s) (rs_positions s) (rs_positions_by_user s)
    (rs_margin s) (rs_index_prices s) (rs_mark_prices s) (rs_exposure s) (rs_tips s) (rs_funding_interval_secs s)
    (rs_funding_min_bps s) (rs_funding_max_bps s) (rs_funding_settled s) (rs_funding_checked_secs s)
    (rs_funding_stalled s) (rs_taker_fee_bps s) (rs_maker_fee_bps s) (rs_tick_size s) (rs_stashed_bbo s)
    (rs_insurance_funds s) (rs_frozen_orders s) (rs_pending_cancels s) (rs_frozen_by_user s) (rs_config_versions s)
    (rs_fills_processed s) (rs_orders_processed s) (rs_backpressured s) (rs_persist_producer s) (rs_config_updates s)
    (rs_liquidation s) v (rs_mark_dirty s).
Definition set_mark_dirty (v : bool) (s : RiskShard) : RiskShard :=
  mkShard
    (rs_shard_id s) (rs_shard_count s) (rs_max_symbols s) (rs_accounts s) (rs_positions s) (rs_positions_by_user s)
    (rs_margin s) (rs_index_prices s) (rs_mark_prices s) (rs_exposure s) (rs_tips s) (rs_funding_interval_secs s)
    (rs_funding_min_bps s) (rs_funding_max_bps s) (rs_funding_settled s) (rs_funding_checked_secs s)
    (rs_funding_stalled s) (rs_taker_fee_bps s) (rs_maker_fee_bps s) (rs_tick_size s) (rs_stashed_bbo s)
    (rs_insurance_funds s) (rs_frozen_orders s) (rs_pending_cancels s) (rs_frozen_by_user s) (rs_config_versions s)
    (rs_fills_processed s) (rs_orders_processed s) (rs_backpressured s) (rs_persist_producer s) (rs_config_updates s)
    (rs_liquidation s) (rs_fallback_mark_prices s) v.

(** [ShardConfig], the part [RiskShard::new] reads. *)
Record ShardConfig : Type := mkShardConfig {
  sc_shard_id : Z;
  sc_shard_count : Z;
  sc_max_symbols : Z;
  sc_symbol_params : PortfolioMargin;
  sc_taker_fee_bps : list Z;
  sc_maker_fee_bps : list Z;
  sc_base_delay_ns : Z;
  sc_base_slip_bps : Z;
  sc_max_rounds : Z;
  sc_max_slip_bps : Z;
  sc_socialized_cooldown_ns : Z;
}.

Definition RiskShard_new (c : ShardConfig) : RiskShard :=
  let zeros := replicate (Z.to_nat (sc_max_symbols c)) 0 in
  let nones {A} : list (option A) := replicate (Z.to_nat (sc_max_symbols c)) None in
  {| rs_shard_id := sc_shard_id c;
     rs_shard_count := sc_shard_count c;
     rs_max_symbols := sc_max_symbols c;
     rs_accounts := ∅;
     rs_positions := ∅;
     rs_positions_by_user := ∅;
     rs_margin := sc_symbol_params c;
     rs_index_prices := replicate (Z.to_nat (sc_max_symbols c)) IndexPrice_default;
     rs_mark_prices := zeros;
     rs_exposure := ExposureIndex_new (sc_max_symbols c);
     rs_tips := zeros;
     rs_funding_interval_secs := zeros;
     rs_funding_min_bps := zeros;
     rs_funding_max_bps := zeros;
     rs_funding_settled := nones;
     rs_funding_checked_secs := U64_MAX;
     rs_funding_stalled := false;
     rs_taker_fee_bps := sc_taker_fee_bps c;
     rs_maker_fee_bps := sc_maker_fee_bps c;
     rs_tick_size := zeros;
     rs_stashed_bbo := nones;
     rs_insurance_funds := ∅;
     rs_frozen_orders := ∅;
     rs_pending_cancels := [];
     rs_frozen_by_user := ∅;
     rs_config_versions := zeros;
     rs_fills_processed := 0;
     rs_orders_processed := 0;
     rs_backpressured := false;
     rs_persist_producer := None;
     rs_config_updates := None;
     rs_liquidation := LiquidationEngine_new (sc_base_delay_ns c) (sc_base_slip_bps c) (sc_max_rounds c)
       (sc_max_slip_bps c) (sc_socialized_cooldown_ns c);
     rs_fallback_mark_prices := zeros;
     rs_mark_dirty := true |}.

(** [u128] key of an order: the high half above the low half. *)
Definition order_key (order_id_hi order_id_lo : Z) : Z := Z.lor (Z.shiftl order_id_hi 64) order_id_lo.
