(* ===== verification/Shard.v ===== *)
(** * Shard: the operations of a risk shard

    The [RiskShard] methods of [rsx-risk/src/]: [account.rs], [position.rs],
    [margin.rs], [price.rs], [liquidation.rs], [insurance.rs], [funding.rs],
    [config.rs], [persist.rs] and [shard.rs].  Each method is a function from
    the shard to the shard and its result; an indexing or [expect] that could
    fail returns [Panic]. *)

From stdpp Require Import sorting.
From S2P Require Import Prelude Hash Messages Types Position Margin Funding Liquidation ShardState.

Section Shard.
Context `{HashIter}.

(** ** Shard membership and persistence *)

Definition user_in_shard (s : RiskShard) (user_id : Z) : Res bool :=
  if rs_shard_count s =? 0 then Panic else Ok (user_id mod rs_shard_count s =? rs_shard_id s).

Definition push_persist (e : PersistEvent) (s : RiskShard) : RiskShard :=
  match rs_persist_producer s with
  | None => s
  | Some p => set_persist_producer (Some (persist_push e p)) s
  end.

Definition set_persist_ring (p : PersistRing) (s : RiskShard) : RiskShard := set_persist_producer (Some p) s.

(** ** Accounts and positions *)

Definition ensure_account (user_id : Z) (s : RiskShard) : RiskShard :=
  match rs_accounts s !! user_id with
  | Some _ => s
  | None => set_accounts (<[user_id := Account_new user_id 0]> (rs_accounts s)) s
  end.

(** [entry(user_id).or_default().insert(symbol_id)] *)
Definition index_add (user_id symbol_id : Z) (m : gmap Z (gset Z)) : gmap Z (gset Z) :=
  <[user_id := {[symbol_id]} ∪ default ∅ (m !! user_id)]> m.

Definition ensure_position (user_id symbol_id : Z) (s : RiskShard) : RiskShard :=
  match rs_positions s !! (user_id, symbol_id) with
  | Some _ => s
  | None =>
      set_positions_by_user (index_add user_id symbol_id (rs_positions_by_user s))
        (set_positions (<[(user_id, symbol_id) := Position_new user_id symbol_id]> (rs_positions s)) s)
  end.

Definition iter_positions_for_user (s : RiskShard) (user_id : Z) : list Position :=
  match rs_positions_by_user s !! user_id with
  | None => []
  | Some symbols => omap (fun symbol_id => rs_positions s !! (user_id, symbol_id)) (iter_set symbols)
  end.

Definition update_exposure (user_id symbol_id : Z) (s : RiskShard) : Res RiskShard :=
  pos ← expect (rs_positions s !! (user_id, symbol_id));
  e ← (if Position_is_empty pos then remove_user symbol_id user_id (rs_exposure s)
       else add_user symbol_id user_id (rs_exposure s));
  Ok (set_exposure e s).

(** ** Frozen margin *)

(** [entry(user_id).or_default().insert(key, amount)] *)
Definition frozen_index_add (user_id key amount : Z) (m : gmap Z (gmap Z Z)) : gmap Z (gmap Z Z) :=
  <[user_id := <[key := amount]> (default ∅ (m !! user_id))]> m.

Definition freeze (user_id symbol_id order_id_hi order_id_lo amount : Z) (s : RiskShard) : RiskShard :=
  let key := order_key order_id_hi order_id_lo in
  set_frozen_by_user (frozen_index_add user_id key amount (rs_frozen_by_user s))
    (set_frozen_orders (<[key := mkFreeze user_id symbol_id amount]> (rs_frozen_orders s)) s).

Definition frozen_for_user (s : RiskShard) (user_id : Z) : Z :=
  match rs_frozen_by_user s !! user_id with
  | Some per_user => fold_left (fun total '(_, amount) => sat_i64 (total + amount)) (iter_map per_user) 0
  | None => 0
  end.

Definition confirm_freeze (user_id order_id_hi order_id_lo symbol_id : Z) (s : RiskShard) : Res RiskShard :=
  mine ← user_in_shard s user_id;
  if negb mine then Ok s
  else
    let key := order_key order_id_hi order_id_lo in
    match rs_frozen_orders s !! key with
    | Some f =>
        if fz_user_id f =? user_id
        then Ok (push_persist (PeFrozenInsert (mkFrozenRecord user_id order_id_hi order_id_lo symbol_id (fz_amount f))) s)
        else Ok s
    | None => Ok s
    end.

(** Removal from the per-user index, with the user's map dropped when empty. *)
Definition frozen_index_remove (owner key : Z) (m : gmap Z (gmap Z Z)) : gmap Z (gmap Z Z) :=
  match m !! owner with
  | None => m
  | Some per_user =>
      let per_user' := delete key per_user in
      if decide (per_user' = ∅) then delete owner m else <[owner := per_user']> m
  end.

Definition release_frozen_for_order (user_id order_id_hi order_id_lo : Z) (s : RiskShard) : Res RiskShard :=
  mine ← user_in_shard s user_id;
  if negb mine then Ok s
  else
    let key := order_key order_id_hi order_id_lo in
    match rs_frozen_orders s !! key with
    | None => Ok s
    | Some f =>
        let owner := fz_user_id f in
        if negb (owner =? user_id) then Ok s
        else
          let s1 := set_frozen_orders (delete key (rs_frozen_orders s)) s in
          let s2 := set_frozen_by_user (frozen_index_remove owner key (rs_frozen_by_user s1)) s1 in
          Ok (push_persist (PeFrozenRemove user_id order_id_hi order_id_lo) s2)
    end.

Definition replay_freeze_order (user_id order_id_hi order_id_lo price qty symbol_id : Z) (s : RiskShard) : Res RiskShard :=
  let s1 := ensure_account user_id s in
  match params_of (rs_margin s1) symbol_id with
  | None => Ok s1
  | Some params =>
      fee ← vindex (rs_taker_fee_bps s1) symbol_id;
      let margin_needed := calculate_margin_needed params price qty fee in
      Ok (freeze user_id symbol_id order_id_hi order_id_lo margin_needed s1)
  end.

(** ** Prices *)

Definition rebuild_fallback (s : RiskShard) : Res RiskShard :=
  _ ← assert_ok (zlen (rs_fallback_mark_prices s) =? zlen (rs_mark_prices s));
  let filled := imap (fun i v =>
    if v =? 0 then
      match rs_index_prices s !! i with
      | Some idx => if ip_valid idx && (ip_price idx >? 0) then ip_price idx else v
      | None => v
      end
    else v) (rs_mark_prices s) in
  Ok (set_mark_dirty false (set_fallback_mark_prices filled s)).

(** [if self.mark_dirty { self.rebuild_fallback(); }] *)
Definition refresh_fallback (s : RiskShard) : Res RiskShard := if rs_mark_dirty s then rebuild_fallback s else Ok s.

Definition process_bbo (bbo : BboUpdate) (s : RiskShard) : Res RiskShard :=
  let sid := bu_symbol_id bbo in
  if sid >=? zlen (rs_index_prices s) then Ok s
  else
    ips ← vmodify (rs_index_prices s) sid (fun p => update_from_bbo p bbo);
    Ok (set_mark_dirty true (set_index_prices ips s)).

Definition update_mark (symbol_id price : Z) (s : RiskShard) : Res RiskShard :=
  if symbol_id >=? zlen (rs_mark_prices s) then Ok s
  else
    marks ← vset (rs_mark_prices s) symbol_id price;
    Ok (set_mark_dirty true (set_mark_prices marks s)).

Definition stash_bbo (bbo : BboUpdate) (s : RiskShard) : Res RiskShard :=
  let sid := bu_symbol_id bbo in
  if sid >=? zlen (rs_stashed_bbo s) then Ok s
  else st ← vset (rs_stashed_bbo s) sid (Some bbo); Ok (set_stashed_bbo st s).

(** ** Liquidation *)

Definition queue_cancels (user_id now_ns : Z) (s : RiskShard) : RiskShard :=
  match rs_frozen_by_user s !! user_id with
  | None => s
  | Some per_user =>
      let cancels := omap (fun '(key, amount) =>
        match rs_frozen_orders s !! key with
        | None => None
        | Some f =>
            if amount =? 0 then None
            else Some (mkCancelRequest 0 now_ns user_id (fz_symbol_id f) (wrap_u64 (Z.shiftr key 64)) (wrap_u64 key))
        end) (iter_map per_user) in
      set_pending_cancels (rs_pending_cancels s ++ cancels) s
  end.

(** The loop over the user's symbols: [entered] and the engine. *)
Definition sweep_step (s : RiskShard) (user_id now_ns : Z) (needs_liq : bool) (acc : bool * LiquidationEngine) (sid : Z) :
    bool * LiquidationEngine :=
  let '(entered, l) := acc in
  let active := match rs_positions s !! (user_id, sid) with Some p => negb (Position_is_empty p) | None => false end in
  if negb active then (entered, l)
  else if needs_liq then let '(started, l') := enqueue user_id sid now_ns l in (entered || started, l')
  else (entered, cancel_if_recovered user_id sid l).

Definition sweep_symbols (s : RiskShard) (user_id now_ns : Z) (needs_liq : bool) (symbols : list Z) : bool * LiquidationEngine :=
  fold_left (sweep_step s user_id now_ns needs_liq) symbols (false, rs_liquidation s).

Definition check_liquidation_for (user_id now_ns : Z) (s : RiskShard) : Res RiskShard :=
  mine ← user_in_shard s user_id;
  if negb mine then Ok s
  else
    s1 ← refresh_fallback s;
    match rs_accounts s1 !! user_id with
    | None => Ok s1
    | Some account =>
        let frozen := frozen_for_user s1 user_id in
        state ← calculate (rs_margin s1) account (iter_positions_for_user s1 user_id) (rs_fallback_mark_prices s1) frozen;
        match rs_positions_by_user s1 !! user_id with
        | None => Ok s1
        | Some syms =>
            let '(entered, l) := sweep_symbols s1 user_id now_ns (needs_liquidation state) (iter_set syms) in
            let s2 := set_liquidation l s1 in
            Ok (if entered then queue_cancels user_id now_ns s2 else s2)
        end
    end.

(** [while !me_producer.is_full()]: pop a cancel, skip it when its order was
    released. *)
Fixpoint drain_cancels (frozen : gmap Z Freeze) (pending : list CancelRequest) (ring : Ring MeCommand) :
    Res (list CancelRequest * Ring MeCommand) :=
  match pending with
  | [] => Ok ([], ring)
  | c :: tl =>
      if is_full ring then Ok (pending, ring)
      else
        match frozen !! order_key (cr_order_id_hi c) (cr_order_id_lo c) with
        | None => drain_cancels frozen tl ring
        | Some _ => ring' ← expect (ring_push (MeCancel c) ring); drain_cancels frozen tl ring'
        end
  end.

Definition drain_pending_cancels (s : RiskShard) (rings : ShardRings) : Res (RiskShard * ShardRings) :=
  '(pending, ring) ← drain_cancels (rs_frozen_orders s) (rs_pending_cancels s) (me_producer rings);
  Ok (set_pending_cancels pending s, mkRings (response_producer rings) ring).

(** [Uuid::now_v7] is the argument [uuid]. *)
Definition liq_to_order (s : RiskShard) (liq : LiquidationOrder) (now_ns : Z) (uuid : Z * Z) : OrderRequest :=
  let tick := default 0 (vget (rs_tick_size s) (lo_symbol_id liq)) in
  mkOrderRequest 0 (lo_user_id liq) (lo_symbol_id liq) (round_to_tick (lo_price liq) tick (lo_side liq)) (lo_qty liq)
    (fst uuid) (snd uuid) now_ns (lo_side liq) 1 true false true.

(** ** Fills *)

(** One side of a fill: the taker's and the maker's blocks of
    [process_fill]. *)
Definition apply_side (user_id side fee : Z) (fill : FillEvent) (s : RiskShard) : Res RiskShard :=
  mine ← user_in_shard s user_id;
  if negb mine then Ok s
  else
    let s1 := ensure_position user_id (fe_symbol_id fill) (ensure_account user_id s) in
    pos ← expect (rs_positions s1 !! (user_id, fe_symbol_id fill));
    let pos' := Position_apply_fill side (fe_price fill) (fe_qty fill) (fe_seq fill) pos in
    let s2 := set_positions (<[(user_id, fe_symbol_id fill) := pos']> (rs_positions s1)) s1 in
    acct ← expect (rs_accounts s2 !! user_id);
    let s3 := set_accounts (<[user_id := deduct_fee fee acct]> (rs_accounts s2)) s2 in
    update_exposure user_id (fe_symbol_id fill) s3.

(** The position and account rows of one user after a fill. *)
Definition persist_side (user_id symbol_id : Z) (s : RiskShard) : RiskShard :=
  let s1 := match rs_positions s !! (user_id, symbol_id) with Some p => push_persist (PePosition p) s | None => s end in
  match rs_accounts s1 !! user_id with Some a => push_persist (PeAccount a) s1 | None => s1 end.

Definition process_fill (fill : FillEvent) (s : RiskShard) : Res RiskShard :=
  let sid := fe_symbol_id fill in
  if sid >=? zlen (rs_tips s) then Ok s
  else
    tip ← vindex (rs_tips s) sid;
    if fe_seq fill <=? tip then Ok s
    else
      tbps ← vindex (rs_taker_fee_bps s) sid;
      let taker_fee_val := calculate_fee (fe_qty fill) (fe_price fill) tbps in
      mbps ← vindex (rs_maker_fee_bps s) sid;
      let maker_fee_val := calculate_fee (fe_qty fill) (fe_price fill) mbps in
      s1 ← apply_side (fe_taker_user_id fill) (fe_taker_side fill) taker_fee_val fill s;
      let maker_side := if fe_taker_side fill =? 0 then 1 else 0 in
      s2 ← apply_side (fe_maker_user_id fill) maker_side maker_fee_val fill s1;
      tips ← vset (rs_tips s2) sid (fe_seq fill);
      let s3 := set_fills_processed (wrap_u64 (rs_fills_processed s2 + 1)) (set_tips tips s2) in
      s4 ← check_liquidation_for (fe_taker_user_id fill) (fe_timestamp_ns fill) s3;
      s5 ← check_liquidation_for (fe_maker_user_id fill) (fe_timestamp_ns fill) s4;
      taker_mine ← user_in_shard s5 (fe_taker_user_id fill);
      let s6 := if taker_mine : bool then
        persist_side (fe_taker_user_id fill) sid
          (push_persist (PeFill (mkFillRecord sid (fe_taker_user_id fill) (fe_maker_user_id fill) (fe_price fill) (fe_qty fill)
             taker_fee_val maker_fee_val (fe_taker_side fill) (fe_seq fill) (fe_timestamp_ns fill))) s5)
        else s5 in
      maker_mine ← user_in_shard s6 (fe_maker_user_id fill);
      let s7 := if maker_mine : bool then persist_side (fe_maker_user_id fill) sid s6 else s6 in
      Ok (push_persist (PeTip sid (fe_seq fill)) s7).

(** ** Orders *)

Definition process_order (order : OrderRequest) (s : RiskShard) : Res (OrderResponse * RiskShard) :=
  let reject reason s := Ok (Rejected (or_user_id order) reason (or_order_id_hi order) (or_order_id_lo order), s) in
  mine ← user_in_shard s (or_user_id order);
  if negb mine then reject NotInShard s
  else if (or_price order <=? 0) || (or_qty order <=? 0) then reject InsufficientMargin s
  else
    s1 ← refresh_fallback (ensure_account (or_user_id order) s);
    account ← expect (rs_accounts s1 !! or_user_id order);
    let frozen := frozen_for_user s1 (or_user_id order) in
    let positions := iter_positions_for_user s1 (or_user_id order) in
    state ← calculate (rs_margin s1) account positions (rs_fallback_mark_prices s1) frozen;
    if needs_liquidation state && negb (or_is_liquidation order) then reject UserInLiquidation s1
    else
      let sid := or_symbol_id order in
      if sid >=? zlen (rs_taker_fee_bps s1) then reject InsufficientMargin s1
      else
        fee ← vindex (rs_taker_fee_bps s1) sid;
        verdict ← check_order (rs_margin s1) account positions order (rs_fallback_mark_prices s1) fee frozen;
        match verdict with
        | inr margin_needed =>
            let s2 := freeze (or_user_id order) sid (or_order_id_hi order) (or_order_id_lo order) margin_needed s1 in
            let s3 := set_orders_processed (wrap_u64 (rs_orders_processed s2 + 1)) s2 in
            Ok (Accepted (or_user_id order) margin_needed (or_order_id_hi order) (or_order_id_lo order), s3)
        | inl reason => reject reason s1
        end.

(** ** Socialised losses *)

Definition process_socialized_loss (loss : SocializedLoss) (now_ns : Z) (s : RiskShard) : Res (option OrderResponse * RiskShard) :=
  match rs_accounts s !! sl_user_id loss with
  | None => Ok (None, s)
  | Some account =>
      state ← calculate (rs_margin s) account (iter_positions_for_user s (sl_user_id loss)) (rs_fallback_mark_prices s)
                (frozen_for_user s (sl_user_id loss));
      let equity := ms_equity state in
      if equity >=? 0 then Ok (None, s)
      else
        let deficit := sat_i64 (- equity) in
        let fund := fund_deduct deficit
          (default (InsuranceFund_new (sl_symbol_id loss) 0) (rs_insurance_funds s !! sl_symbol_id loss)) in
        let s1 := set_insurance_funds (<[sl_symbol_id loss := fund]> (rs_insurance_funds s)) s in
        let account' := credit deficit account in
        let s2 := set_accounts (<[sl_user_id loss := account']> (rs_accounts s1)) s1 in
        let s3 := push_persist (PeAccount account') s2 in
        let s4 := push_persist (PeLiquidation (mkLiqRecord (sl_user_id loss) (sl_symbol_id loss) (sl_round loss) (sl_side loss)
          (sl_price loss) (sl_qty loss) 0 LIQUIDATION_SOCIALIZED now_ns)) s3 in
        let s5 := push_persist (PeInsuranceFund fund) s4 in
        Ok (Some (LiquidationNotice (sl_user_id loss) (sl_symbol_id loss) LIQUIDATION_SOCIALIZED (sl_round loss)
              (sl_side loss) (sl_qty loss) (sl_price loss) 0), s5)
  end.

(** ** Funding settlement *)

Definition by_user (a b : Z * Z) : Prop := fst a <= fst b.
#[local] Instance by_user_dec : RelDecision by_user := fun a b => decide (fst a <= fst b).

(** The users exposed to a symbol with their net quantities, sorted by user. *)
Definition exposed_users (s : RiskShard) (sid : Z) (users : list Z) : list (Z * Z) :=
  merge_sort by_user
    (omap (fun user_id => (fun p => (user_id, Position_net_qty p)) <$> rs_positions s !! (user_id, sid)) users).

(** Charging one user of the settlement. *)
Definition charge_funding (sid id rate now_secs : Z) (acc : RiskShard * list FundingRecord * list Account) (u : (Z * Z) * Z) :
    RiskShard * list FundingRecord * list Account :=
  let '(s, payments, accounts) := acc in
  let '((user_id, _), amount) := u in
  let s1 := ensure_account user_id s in
  let '(s2, accounts') := match rs_accounts s1 !! user_id with
    | Some a => let a' := deduct_fee amount a in (set_accounts (<[user_id := a']> (rs_accounts s1)) s1, accounts ++ [a'])
    | None => (s1, accounts)
    end in
  (s2, payments ++ [mkFundingRecord user_id sid id amount rate now_secs], accounts').

Definition try_settle_interval (sid id now_secs : Z) (s : RiskShard) : Res (bool * RiskShard) :=
  users ← users_for_symbol (rs_exposure s) sid;
  let exposed := exposed_users s sid users in
  mark ← vindex (rs_mark_prices s) sid;
  ip ← vindex (rs_index_prices s) sid;
  let index := ip_price ip in
  let is_priced := negb (mark =? 0) && negb (index =? 0) in
  let has_exposure := existsb (fun '(_, net_qty) => negb (net_qty =? 0)) exposed in
  if has_exposure && negb is_priced then Ok (false, s)
  else
    rate ← (if is_priced then
              mn ← vindex (rs_funding_min_bps s) sid;
              mx ← vindex (rs_funding_max_bps s) sid;
              calculate_rate mark index mn mx
            else Ok 0);
    amounts ← settle_symbol (List.map snd exposed) mark rate;
    let '(s1, payments, accounts) := fold_left (charge_funding sid id rate now_secs) (combine exposed amounts) (s, [], []) in
    let s2 := push_persist (PeFundingSettlement (mkFundingSettlement sid id payments accounts)) s1 in
    settled ← vset (rs_funding_settled s2) sid (Some id);
    Ok (true, set_funding_settled settled s2).

(** [for id in first_id..=current_id]: the flag is [waiting]. *)
Fixpoint settle_ids (sid now_secs : Z) (ids : list Z) (s : RiskShard) : Res (bool * RiskShard) :=
  match ids with
  | [] => Ok (false, s)
  | id :: tl =>
      '(ok, s1) ← try_settle_interval sid id now_secs s;
      if ok : bool then settle_ids sid now_secs tl s1 else Ok (true, s1)
  end.

Definition settle_symbol_due (now_secs : Z) (acc : bool * RiskShard) (sid : Z) : Res (bool * RiskShard) :=
  let '(waiting, s) := acc in
  match params_of (rs_margin s) sid with
  | None => Ok (waiting, s)
  | Some _ =>
      interval_secs ← vindex (rs_funding_interval_secs s) sid;
      let current_id := interval_id now_secs interval_secs in
      settled ← vindex (rs_funding_settled s) sid;
      if match settled with Some last_id => negb (is_settlement_due last_id now_secs interval_secs) | None => false end
      then Ok (waiting, s)
      else
        let first_id := match settled with Some last_id => wrap_u64 (last_id + 1) | None => current_id end in
        '(blocked, s1) ← settle_ids sid now_secs (zrange first_id (current_id + 1)) s;
        Ok (waiting || blocked, s1)
  end.

Definition maybe_settle_funding (now_secs : Z) (s : RiskShard) : Res RiskShard :=
  if now_secs =? rs_funding_checked_secs s then Ok s
  else
    let s1 := set_funding_checked_secs now_secs s in
    '(waiting, s2) ← rfold (settle_symbol_due now_secs) (false, s1) (zrange 0 (rs_max_symbols s1));
    Ok (set_funding_stalled waiting s2).

(** ** Configuration *)

Definition checked_funding_interval (current requested : Z) : bool :=
  negb (negb (current =? 0) && negb (requested =? current)).

Definition apply_symbol_config (c : SymbolRiskConfig) (s : RiskShard) : Res RiskShard :=
  let sid := rc_symbol_id c in
  if sid >=? zlen (rs_config_versions s) then Ok s
  else
    applied_interval ← vindex (rs_funding_interval_secs s) sid;
    if negb (checked_funding_interval applied_interval (rc_funding_interval_secs c)) then Ok s
    else
      margin ← vset (rs_margin s) sid (Some (rc_params c));
      taker ← vset (rs_taker_fee_bps s) sid (rc_taker_fee_bps c);
      maker ← vset (rs_maker_fee_bps s) sid (rc_maker_fee_bps c);
      tick ← vset (rs_tick_size s) sid (rc_tick_size c);
      fint ← vset (rs_funding_interval_secs s) sid (rc_funding_interval_secs c);
      fmin ← vset (rs_funding_min_bps s) sid (rc_funding_min_bps c);
      fmax ← vset (rs_funding_max_bps s) sid (rc_funding_max_bps c);
      vers ← vset (rs_config_versions s) sid (rc_config_version c);
      Ok (set_config_versions vers (set_funding_max_bps fmax (set_funding_min_bps fmin (set_funding_interval_secs fint
         (set_tick_size tick (set_maker_fee_bps maker (set_taker_fee_bps taker (set_margin margin s)))))))).

Definition process_config_applied (symbol_id config_version : Z) (s : RiskShard) : Res RiskShard :=
  if symbol_id >=? zlen (rs_config_versions s) then Ok s
  else
    v ← vindex (rs_config_versions s) symbol_id;
    if config_version <=? v then Ok s else Ok (push_persist (PeConfigReload symbol_id config_version) s).

Definition drain_config_updates (s : RiskShard) : Res RiskShard :=
  match rs_config_updates s with
  | None => Ok s
  | Some updates =>
      s1 ← rfold (fun s c => apply_symbol_config c s) (set_config_updates None s) updates;
      Ok (set_config_updates (Some []) s1)
  end.

(** [fill.taker_fee_bps] and [fill.maker_fee_bps] as [process_fill] charges
    them; [None] leaves the record as it is. *)
Definition wrap_i32 (x : Z) : Z := (x + 2 ^ 31) mod 2 ^ 32 - 2 ^ 31.
Definition stamp_fill_fees (s : RiskShard) (symbol_id : Z) : Res (option (Z * Z)) :=
  if symbol_id >=? zlen (rs_taker_fee_bps s) then Ok None
  else
    t ← vindex (rs_taker_fee_bps s) symbol_id;
    m ← vindex (rs_maker_fee_bps s) symbol_id;
    Ok (Some (wrap_i32 t, wrap_i32 m)).

(** ** Cold start *)

Record ColdStartState : Type := mkColdStart {
  cs_accounts : gmap Z Account;
  cs_positions : gmap (Z * Z) Position;
  cs_tips : list Z;
  cs_insurance_funds : gmap Z InsuranceFund;
  cs_frozen_orders : gmap Z Freeze;
  cs_funding_settled : list (option Z);
}.

(** [dst[..len].copy_from_slice(&src[..len])] with [len] the shorter length. *)
Definition copy_prefix {A} (dst src : list A) : list A :=
  let len := Nat.min (length dst) (length src) in take len src ++ drop len dst.

Definition rebuild_exposure (max_symbols : Z) (positions : list ((Z * Z) * Position)) : Res ExposureIndex :=
  rfold (fun e '((user_id, symbol_id), p) =>
    if negb (Position_is_empty p) && (symbol_id <? max_symbols) then add_user symbol_id user_id e else Ok e)
    (ExposureIndex_new max_symbols) positions.

Definition set_state (st : ColdStartState) (s : RiskShard) : Res RiskShard :=
  let by_user := fold_left (fun m '((user_id, symbol_id), _) => index_add user_id symbol_id m) (iter_map (cs_positions st)) ∅ in
  let frozen := fold_left (fun m '(order_id, f) => frozen_index_add (fz_user_id f) order_id (fz_amount f) m)
    (iter_map (cs_frozen_orders st)) ∅ in
  exposure ← rebuild_exposure (rs_max_symbols s) (iter_map (cs_positions st));
  Ok (set_tips (copy_prefix (rs_tips s) (cs_tips st))
     (set_funding_settled (copy_prefix (rs_funding_settled s) (cs_funding_settled st))
     (set_exposure exposure (set_frozen_by_user frozen (set_positions_by_user by_user
     (set_frozen_orders (cs_frozen_orders st) (set_insurance_funds (cs_insurance_funds st)
     (set_positions (cs_positions st) (set_accounts (cs_accounts st) s))))))))).

(** ** The periodic tick *)

(** The users of a symbol, checked one after the other at their index. *)
Definition check_exposed (sid now_ns n : Z) (s : RiskShard) : Res RiskShard :=
  rfold (fun s i =>
    users ← users_for_symbol (rs_exposure s) sid;
    user_id ← vindex users i;
    check_liquidation_for user_id now_ns s) s (zrange 0 n).

Definition drain_bbo_at (now_ns : Z) (s : RiskShard) (sid : Z) : Res RiskShard :=
  o ← vindex (rs_stashed_bbo s) sid;
  match o with
  | None => Ok s
  | Some bbo =>
      s1 ← process_bbo bbo (set_stashed_bbo (vput (rs_stashed_bbo s) sid None) s);
      users ← users_for_symbol (rs_exposure s1) sid;
      check_exposed sid now_ns (zlen users) s1
  end.

Definition drain_stashed_bbos (now_ns : Z) (s : RiskShard) : Res RiskShard :=
  rfold (drain_bbo_at now_ns) s (zrange 0 (rs_max_symbols s)).

(** The position and mark the sweep sees. *)
Definition sweep_position (s : RiskShard) (user_id symbol_id : Z) : Z :=
  match rs_positions s !! (user_id, symbol_id) with Some p => Position_net_qty p | None => 0 end.
Definition sweep_mark (s : RiskShard) (symbol_id : Z) : Z := default 0 (vget (rs_fallback_mark_prices s) symbol_id).

Definition egress_full (rings : ShardRings) : bool := is_full (me_producer rings) || is_full (response_producer rings).

(** The loop over the liquidation orders; the flag says whether it ran to the
    end.  The [i]-th order of the tick gets the id [uuid i]. *)
Fixpoint send_liquidations (uuid : nat -> Z * Z) (i : nat) (now_ns : Z) (liqs : list LiquidationOrder)
    (s : RiskShard) (rings : ShardRings) : Res (bool * RiskShard * ShardRings) :=
  match liqs with
  | [] => Ok (true, s, rings)
  | liq :: tl =>
      if egress_full rings then Ok (false, set_backpressured true s, rings)
      else
        let order := liq_to_order s liq now_ns (uuid i) in
        '(resp, s1) ← process_order order s;
        match resp with
        | Accepted _ _ _ _ =>
            me ← expect (ring_push (MeOrder order now_ns) (me_producer rings));
            rp ← expect (ring_push (LiquidationNotice (lo_user_id liq) (lo_symbol_id liq) LIQUIDATION_PLACED (lo_round liq)
                   (lo_side liq) (lo_qty liq) (or_price order) (lo_slip_bps liq)) (response_producer rings));
            send_liquidations uuid (S i) now_ns tl s1 (mkRings rp me)
        | _ => send_liquidations uuid (S i) now_ns tl s1 rings
        end
  end.

(** The loop over the socialised losses; a notice is dropped when the ring is
    full. *)
Fixpoint send_losses (now_ns : Z) (losses : list SocializedLoss) (s : RiskShard) (rings : ShardRings) : Res (RiskShard * ShardRings) :=
  match losses with
  | [] => Ok (s, rings)
  | loss :: tl =>
      '(notice, s1) ← process_socialized_loss loss now_ns s;
      match notice with
      | None => send_losses now_ns tl s1 rings
      | Some n =>
          let rp := default (response_producer rings) (ring_push n (response_producer rings)) in
          send_losses now_ns tl s1 (mkRings rp (me_producer rings))
      end
  end.

Definition tick (uuid : nat -> Z * Z) (now_secs : Z) (s : RiskShard) (rings : ShardRings) : Res (RiskShard * ShardRings) :=
  s0 ← drain_config_updates s;
  if egress_full rings then Ok (set_backpressured true s0, rings)
  else
    let s1 := set_backpressured false s0 in
    '(s2, rings2) ← drain_pending_cancels s1 rings;
    let now_ns := wrap_u64 (now_secs * 1000000000) in
    s3 ← refresh_fallback s2;
    let '(liq, liq_orders, socialized_losses) :=
      maybe_process now_ns (sweep_position s3) (sweep_mark s3) (rs_liquidation s3) in
    let s4 := set_liquidation liq s3 in
    '(finished, s5, rings5) ← send_liquidations uuid 0 now_ns liq_orders s4 rings2;
    if negb finished then Ok (s5, rings5)
    else
      '(s6, rings6) ← send_losses now_ns socialized_losses s5 rings5;
      let s7 := set_liquidation (remove_done (rs_liquidation s6)) s6 in
      s8 ← drain_stashed_bbos now_ns s7;
      s9 ← maybe_settle_funding now_secs s8;
      Ok (s9, rings6).

(** ** Replay of matching-engine records

    [apply_record] of [replay.rs] on a decoded record. *)

Inductive MeRecord : Type :=
| MrFill (f : FillEvent)
| MrOrderDone (user_id order_id_hi order_id_lo : Z)
| MrOrderFailed (user_id order_id_hi order_id_lo : Z)
| MrOrderAccepted (user_id order_id_hi order_id_lo price qty symbol_id reduce_only : Z)
| MrBbo (b : BboUpdate)
| MrConfigApplied (symbol_id config_version : Z)
| MrOther.

Definition apply_record (r : MeRecord) (s : RiskShard) : Res (bool * RiskShard) :=
  match r with
  | MrFill f => s1 ← process_fill f s; Ok (true, s1)
  | MrOrderDone u hi lo => s1 ← release_frozen_for_order u hi lo s; Ok (false, s1)
  | MrOrderFailed u hi lo => s1 ← release_frozen_for_order u hi lo s; Ok (false, s1)
  | MrOrderAccepted u hi lo price qty symbol_id reduce_only =>
      mine ← user_in_shard s u;
      if mine && (reduce_only =? 0)
      then s1 ← replay_freeze_order u hi lo price qty symbol_id s; Ok (false, s1)
      else Ok (false, s)
  | MrBbo b => s1 ← process_bbo b s; Ok (false, s1)
  | MrConfigApplied sym v => s1 ← process_config_applied sym v s; Ok (false, s1)
  | MrOther => Ok (false, s)
  end.

End Shard.
