(* ===== verification/ShardInv.v ===== *)
(** * ShardInv: the invariant of a risk shard

    The secondary indexes of the shard are functions of its primary maps, its
    per-symbol columns have one entry per symbol, its positions are well
    formed and within a budget, and its liquidation engine is well formed.
    Every operation returns and keeps this. *)

From stdpp Require Import sorting.
From S2P Require Import Prelude Hash Messages Types Position Margin Funding Liquidation ShardState Shard.

(** ** The invariant *)

Record shape_ok (s : RiskShard) : Prop := {
  sh_count : 0 < rs_shard_count s;
  sh_max : 0 <= rs_max_symbols s <= U32_MAX;
  sh_margin : zlen (rs_margin s) = rs_max_symbols s;
  sh_index : zlen (rs_index_prices s) = rs_max_symbols s;
  sh_marks : zlen (rs_mark_prices s) = rs_max_symbols s;
  sh_fallback : zlen (rs_fallback_mark_prices s) = rs_max_symbols s;
  sh_exposure : zlen (rs_exposure s) = rs_max_symbols s;
  sh_tips : zlen (rs_tips s) = rs_max_symbols s;
  sh_finterval : zlen (rs_funding_interval_secs s) = rs_max_symbols s;
  sh_fmin : zlen (rs_funding_min_bps s) = rs_max_symbols s;
  sh_fmax : zlen (rs_funding_max_bps s) = rs_max_symbols s;
  sh_fsettled : zlen (rs_funding_settled s) = rs_max_symbols s;
  sh_taker : zlen (rs_taker_fee_bps s) = rs_max_symbols s;
  sh_maker : zlen (rs_maker_fee_bps s) = rs_max_symbols s;
  sh_tick : zlen (rs_tick_size s) = rs_max_symbols s;
  sh_stash : zlen (rs_stashed_bbo s) = rs_max_symbols s;
  sh_versions : zlen (rs_config_versions s) = rs_max_symbols s;
  sh_stashed : Forall (fun o => match o with Some b => 0 <= bu_symbol_id b | None => True end) (rs_stashed_bbo s);
}.

(** The funding bands are ordered, so the clamp of the rate returns. *)
Definition bands_ok (s : RiskShard) : Prop :=
  forall sid mn mx, vget (rs_funding_min_bps s) sid = Some mn -> vget (rs_funding_max_bps s) sid = Some mx -> mn <= mx.

(** [positions_by_user] is the domain of [positions], and the exposure index
    its non-empty part. *)
Record index_ok (max : Z) (positions : gmap (Z * Z) Position) (by_user : gmap Z (gset Z)) (exposure : ExposureIndex) : Prop := {
  ix_users : forall u sid, is_Some (positions !! (u, sid)) <-> sid ∈ default ∅ (by_user !! u);
  ix_symbols : forall u sid p, positions !! (u, sid) = Some p -> po_symbol_id p = sid /\ po_user_id p = u /\ 0 <= sid < max;
  ix_exposed : forall sid users, vget exposure sid = Some users -> NoDup users /\
    forall u, In u users <-> exists p, positions !! (u, sid) = Some p /\ Position_is_empty p = false;
}.

(** [frozen_by_user] is [frozen_orders] grouped by owner. *)
Definition frozen_ok (frozen : gmap Z Freeze) (by_user : gmap Z (gmap Z Z)) : Prop :=
  forall u k a, (exists sym, frozen !! k = Some (mkFreeze u sym a)) <-> default ∅ (by_user !! u) !! k = Some a.

(** Every position is well formed and within the budget. *)
Definition book_ok (q n : Z) (positions : gmap (Z * Z) Position) : Prop :=
  map_Forall (fun _ p => pos_ok p /\ pos_within q n p) positions.

(** The liquidation engine is well formed and its symbols are indices. *)
Definition liq_good (l : LiquidationEngine) : Prop := liq_ok l /\ Forall (fun st => 0 <= ls_symbol_id st) (le_active l).

Record shard_ok (q n : Z) (s : RiskShard) : Prop := {
  sk_shape : shape_ok s;
  sk_bands : bands_ok s;
  sk_index : index_ok (rs_max_symbols s) (rs_positions s) (rs_positions_by_user s) (rs_exposure s);
  sk_frozen : frozen_ok (rs_frozen_orders s) (rs_frozen_by_user s);
  sk_book : book_ok q n (rs_positions s);
  sk_liq : liq_good (rs_liquidation s);
}.

(** ** Indexes *)

Lemma index_add_lookup u sid m v :
  default ∅ (index_add u sid m !! v) = if decide (v = u) then {[sid]} ∪ default ∅ (m !! u) else default ∅ (m !! v).
Proof. unfold index_add. case_decide as E; [subst; by rewrite lookup_insert_eq | by rewrite lookup_insert_ne]. Qed.

Lemma frozen_index_add_lookup u k a m v :
  default ∅ (frozen_index_add u k a m !! v) = if decide (v = u) then <[k:=a]> (default ∅ (m !! u)) else default ∅ (m !! v).
Proof. unfold frozen_index_add. case_decide as E; [subst; by rewrite lookup_insert_eq | by rewrite lookup_insert_ne]. Qed.

Lemma frozen_index_remove_lookup u k m v :
  default ∅ (frozen_index_remove u k m !! v) = if decide (v = u) then delete k (default ∅ (m !! u)) else default ∅ (m !! v).
Proof.
  unfold frozen_index_remove. destruct (m !! u) as [pu|] eqn:E; cbn.
  - case_decide as E1; [case_decide as E2|]; [subst; rewrite lookup_delete_eq; cbn; by rewrite E1 | by rewrite lookup_delete_ne |].
    case_decide; [subst; by rewrite lookup_insert_eq | by rewrite lookup_insert_ne].
  - case_decide; [subst; rewrite E; cbn; by rewrite delete_empty | done].
Qed.

(** An order id is new, or the order is the user's own. *)
Definition own_key (u k : Z) (frozen : gmap Z Freeze) : Prop := forall f, frozen !! k = Some f -> fz_user_id f = u.

Lemma frozen_insert_ok frozen by_user u sym k a :
  frozen_ok frozen by_user -> own_key u k frozen ->
  frozen_ok (<[k := mkFreeze u sym a]> frozen) (frozen_index_add u k a by_user).
Proof.
  intros Hf Hown v k' a'. rewrite frozen_index_add_lookup. destruct (decide (k' = k)) as [->|Hk].
  - rewrite lookup_insert_eq. case_decide as Hv.
    + subst v. rewrite lookup_insert_eq. split; [by intros (? & [= -> ->]) | intros [= ->]; by exists sym].
    + split; [intros (? & [= ? ? ?]); congruence|]. intros Hl. apply Hf in Hl as (sy & Hl). specialize (Hown _ Hl). cbn in Hown. congruence.
  - rewrite lookup_insert_ne by done. rewrite (Hf v k' a'). case_decide as Hv; [subst; by rewrite lookup_insert_ne | done].
Qed.

Lemma frozen_remove_ok frozen by_user u k f :
  frozen_ok frozen by_user -> frozen !! k = Some f -> fz_user_id f = u ->
  frozen_ok (delete k frozen) (frozen_index_remove u k by_user).
Proof.
  intros Hf Hk Hu v k' a'. rewrite frozen_index_remove_lookup. destruct (decide (k' = k)) as [->|Hne].
  - rewrite lookup_delete_eq. split; [by intros (? & ?)|]. case_decide as Hv; [by rewrite lookup_delete_eq|].
    intros Hl. apply Hf in Hl as (sy & Hl). rewrite Hk in Hl. injection Hl as ->. cbn in Hu. congruence.
  - rewrite lookup_delete_ne by done. rewrite (Hf v k' a'). case_decide as Hv; [subst; by rewrite lookup_delete_ne | done].
Qed.

Lemma index_new_ok max positions by_user exposure u sid :
  index_ok max positions by_user exposure -> positions !! (u, sid) = None -> 0 <= sid < max ->
  index_ok max (<[(u, sid) := Position_new u sid]> positions) (index_add u sid by_user) exposure.
Proof.
  intros [H1 H2 H3] Hn Hs. split.
  - intros v sy. rewrite index_add_lookup. destruct (decide ((v, sy) = (u, sid))) as [[= -> ->]|Hne].
    + rewrite lookup_insert_eq, decide_True by done. split; [set_solver | eauto].
    + rewrite lookup_insert_ne by done. rewrite H1. case_decide; [subst|done]. rewrite elem_of_union, elem_of_singleton. naive_solver.
  - intros v sy p. rewrite lookup_insert. case_decide as E; [injection E as <- <-; by intros [= <-] | apply H2].
  - intros sy users Hv. destruct (H3 _ _ Hv) as [Hd Hu]. split; [done|]. intros v. rewrite Hu, lookup_insert.
    case_decide as E; [injection E as -> ->; rewrite Hn | done]. split; [by intros (? & ? & _) | by intros (? & [= <-] & ?)].
Qed.

Lemma index_update_ok max positions by_user exposure u sid p p' e :
  index_ok max positions by_user exposure -> positions !! (u, sid) = Some p ->
  po_symbol_id p' = po_symbol_id p -> po_user_id p' = po_user_id p ->
  (if Position_is_empty p' then remove_user sid u exposure else add_user sid u exposure) = Ok e ->
  index_ok max (<[(u, sid) := p']> positions) by_user e.
Proof.
  intros [H1 H2 H3] Hp Es Eu He. split.
  - intros v sy. rewrite <- H1. rewrite lookup_insert. case_decide as E; [injection E as <- <-; rewrite Hp; split; eauto | done].
  - intros v sy x. rewrite lookup_insert. case_decide as E; [injection E as <- <-; intros [= <-]; rewrite Es, Eu; by apply H2 | apply H2].
  - intros sy users Hv. destruct (H2 _ _ _ Hp) as (_ & _ & Hr).
    assert (Hsame : sy <> sid -> vget e sy = vget exposure sy).
    { intros Hne. destruct (Position_is_empty p'); unfold remove_user, add_user, vmodify in He; res_inv; by rewrite vget_vput_ne. }
    destruct (decide (sy = sid)) as [->|Hne].
    + destruct (Position_is_empty p') eqn:Ee; unfold remove_user, add_user, vmodify in He; res_inv;
        apply vindex_ok in E; pose proof (vget_some_range _ _ _ E); rewrite vget_vput_eq in Hv by done; injection Hv as <-;
        destruct (H3 _ _ E) as [Hd Hu].
      * destruct (ex_remove_spec u x) as [Hin Hnd]. split; [by apply Hnd|]. intros v. rewrite Hin, Hu, lookup_insert.
        case_decide as Ev; [injection Ev as <-; split; [tauto | intros (? & [= <-] & ?); congruence]|].
        split; [tauto|]. intros Hx. split; [congruence | done].
      * destruct (ex_add_spec u x) as [Hin Hnd]. split; [by apply Hnd|]. intros v. rewrite Hin, Hu, lookup_insert.
        case_decide as Ev; [injection Ev as <-; split; [eauto | by left]|]. split; [|tauto]. intros [->|Hx]; [congruence | done].
    + rewrite Hsame in Hv by done. destruct (H3 _ _ Hv) as [Hd Hu]. split; [done|]. intros v. rewrite Hu, lookup_insert_ne; [done | congruence].
Qed.

(** Closes the invariant of a shard whose update it does not mention. *)
Ltac shard_keep := split; [split; assumption | assumption ..].

(** ** Reading the shard *)

Lemma avg_entry_total p : pos_ok p -> exists a, avg_entry p = Ok a.
Proof.
  intros [h1 h2 _ _ _ _ _]. unfold avg_entry, div_i64. repeat (case_if; bool_to_prop); eauto; exfalso; width_unfold; lia.
Qed.

Lemma unrealized_total p mark : pos_ok p -> exists u, unrealized_pnl p mark = Ok u.
Proof. intros Hp. unfold unrealized_pnl. case_if; [eauto|]. destruct (avg_entry_total p Hp) as [a ->]. cbn. eauto. Qed.

(** The margin calculation always returns. *)
Lemma calculate_total m a ps marks frozen : Forall pos_ok ps -> exists st, calculate m a ps marks frozen = Ok st.
Proof.
  intros Hp. unfold calculate.
  destruct (rfold_invariant (fun _ => True) (margin_step m marks) ps (mkAcc 0 0 0 0) I) as (acc & -> & _); [|cbn; eauto].
  intros b p _ Hin. rewrite List.Forall_forall in Hp. unfold margin_step. destruct (params_of m (po_symbol_id p)) as [params|] eqn:E; [|eauto].
  case_if; [eauto|]. assert (Hs : 0 <= po_symbol_id p).
  { unfold params_of in E. destruct (vget m (po_symbol_id p)) eqn:Ev; [|done]. apply vget_some_range in Ev. lia. }
  destruct (vget_is_some marks (po_symbol_id p)) as [mark Hm]; [lia|]. rewrite (vindex_some _ _ _ Hm). cbn [mbind Res_bind].
  destruct (unrealized_total p mark (Hp p Hin)) as [u ->]. cbn. eauto.
Qed.

Section Ops.
Context `{HashIter}.

Lemma positions_for_user_in s u p : In p (iter_positions_for_user s u) -> exists sid, rs_positions s !! (u, sid) = Some p.
Proof.
  unfold iter_positions_for_user. destruct (rs_positions_by_user s !! u) as [syms|]; [|done].
  intros Hin%list_elem_of_In. apply list_elem_of_omap in Hin as (sid & _ & Hp). eauto.
Qed.

Lemma positions_for_user_ok q n s u : shard_ok q n s -> Forall pos_ok (iter_positions_for_user s u).
Proof.
  intros Hs. apply List.Forall_forall. intros p (sid & Hp)%positions_for_user_in. by apply (sk_book _ _ _ Hs _ _ Hp).
Qed.

Lemma user_in_shard_total s u : shape_ok s -> exists b, user_in_shard s u = Ok b.
Proof. intros Hs. unfold user_in_shard. pose proof (sh_count _ Hs). case_if; [lia | eauto]. Qed.

(** ** Operations that keep the invariant because they write what it does not
    mention *)

Lemma push_persist_ok q n e s : shard_ok q n s -> shard_ok q n (push_persist e s).
Proof. intros [[] ? ? ? ? ?]. unfold push_persist. destruct (rs_persist_producer s); shard_keep. Qed.

Lemma ensure_account_ok q n u s : shard_ok q n s -> shard_ok q n (ensure_account u s).
Proof. intros [[] ? ? ? ? ?]. unfold ensure_account. destruct (rs_accounts s !! u); shard_keep. Qed.

Lemma ensure_account_some u s : is_Some (rs_accounts (ensure_account u s) !! u).
Proof. unfold ensure_account. destruct (rs_accounts s !! u) eqn:E; cbn; [by rewrite E | by rewrite lookup_insert_eq]. Qed.

Lemma set_accounts_ok q n a s : shard_ok q n s -> shard_ok q n (set_accounts a s).
Proof. intros [[] ? ? ? ? ?]. shard_keep. Qed.

Lemma set_pending_ok q n a s : shard_ok q n s -> shard_ok q n (set_pending_cancels a s).
Proof. intros [[] ? ? ? ? ?]. shard_keep. Qed.

Lemma set_liquidation_ok q n l s : shard_ok q n s -> liq_good l -> shard_ok q n (set_liquidation l s).
Proof. intros [[] ? ? ? ? ?] Hl. shard_keep. Qed.

Lemma queue_cancels_ok q n u now s : shard_ok q n s -> shard_ok q n (queue_cancels u now s).
Proof. intros Hs. unfold queue_cancels. destruct (rs_frozen_by_user s !! u); [by apply set_pending_ok | done]. Qed.

Lemma rebuild_fallback_ok q n s : shard_ok q n s -> exists s', rebuild_fallback s = Ok s' /\ shard_ok q n s'.
Proof.
  intros [[] ? ? ? ? ?]. unfold rebuild_fallback. rewrite sh_fallback0, sh_marks0, Z.eqb_refl. cbn [assert_ok mbind Res_bind].
  eexists. split; [done|]. split; [split; try assumption | assumption ..]. cbn. unfold zlen in *. by rewrite length_imap.
Qed.

Lemma refresh_fallback_ok q n s : shard_ok q n s -> exists s', refresh_fallback s = Ok s' /\ shard_ok q n s'.
Proof. intros Hs. unfold refresh_fallback. case_if; [by apply rebuild_fallback_ok | eauto]. Qed.

(** What refreshing the fallback prices leaves alone. *)
Lemma refresh_fallback_frame s s' :
  refresh_fallback s = Ok s' ->
  rs_accounts s' = rs_accounts s /\ rs_positions s' = rs_positions s /\ rs_positions_by_user s' = rs_positions_by_user s /\
  rs_frozen_orders s' = rs_frozen_orders s /\ rs_frozen_by_user s' = rs_frozen_by_user s /\ rs_tips s' = rs_tips s /\
  rs_margin s' = rs_margin s /\ rs_taker_fee_bps s' = rs_taker_fee_bps s /\ rs_exposure s' = rs_exposure s /\
  rs_insurance_funds s' = rs_insurance_funds s /\ rs_shard_count s' = rs_shard_count s /\ rs_shard_id s' = rs_shard_id s /\
  rs_max_symbols s' = rs_max_symbols s.
Proof. unfold refresh_fallback, rebuild_fallback. case_if; intros; res_inv; done. Qed.

Lemma enqueue_good u sid now l : 0 <= sid -> liq_good l -> liq_good (snd (enqueue u sid now l)).
Proof.
  intros Hs [Hl Hf]. split; [by apply enqueue_ok|]. unfold enqueue. repeat case_if; [done|done|].
  cbn [snd set_active_list le_active]. apply Forall_app. split; [done|]. by constructor.
Qed.

Lemma cancel_good u sid l : liq_good l -> liq_good (cancel_if_recovered u sid l).
Proof. intros [Hl Hf]. split; [eapply liq_trans_ok; [exact Hl | apply lt_recover] | by apply Forall_listfilter]. Qed.

Lemma remove_done_good l : liq_good l -> liq_good (remove_done l).
Proof. intros [Hl Hf]. split; [eapply liq_trans_ok; [exact Hl | apply lt_remove] | by apply Forall_listfilter]. Qed.

Lemma process_good now pf mf l : liq_good l -> liq_good (fst (fst (maybe_process now pf mf l))).
Proof.
  intros [Hl Hf]. split; [by apply process_ok|]. rewrite process_active, List.Forall_forall in *. intros x (st & <- & Hst)%in_map_iff.
  pose proof (lk_states _ Hl) as Hss. rewrite List.Forall_forall in Hss.
  destruct (liq_step_state l now pf mf st (Hss st Hst) (lk_rounds _ Hl)) as (_ & Hk & _). injection Hk as _ ->. by apply Hf.
Qed.

Lemma sweep_symbols_good q n s u now needs syms : shard_ok q n s -> liq_good (snd (sweep_symbols s u now needs syms)).
Proof.
  intros Hs. pose proof (sk_liq _ _ _ Hs) as Hl. unfold sweep_symbols. change (rs_liquidation s) with (snd (false, rs_liquidation s)) in Hl. revert Hl.
  generalize (false, rs_liquidation s). induction syms as [|sid syms IH]; intros [b l] Hl; [done|]. cbn [fold_left]. apply IH.
  unfold sweep_step. destruct (rs_positions s !! (u, sid)) as [p|] eqn:Ep; [|done]. case_if; [done|].
  destruct needs; [|by apply cancel_good]. destruct (ix_symbols _ _ _ _ (sk_index _ _ _ Hs) _ _ _ Ep) as (_ & _ & Hr).
  pose proof (enqueue_good u sid now l ltac:(lia) Hl) as He. by destruct (enqueue u sid now l).
Qed.

Lemma check_liquidation_ok q n u now s :
  shard_ok q n s -> exists s', check_liquidation_for u now s = Ok s' /\ shard_ok q n s'.
Proof.
  intros Hs. unfold check_liquidation_for. destruct (user_in_shard_total s u (sk_shape _ _ _ Hs)) as [b ->]. cbn [mbind Res_bind].
  destruct b; cbn [negb]; [|eauto]. destruct (refresh_fallback_ok q n s Hs) as (s1 & -> & Hs1). cbn [mbind Res_bind].
  destruct (rs_accounts s1 !! u) as [a|]; [|eauto].
  destruct (calculate_total (rs_margin s1) a (iter_positions_for_user s1 u) (rs_fallback_mark_prices s1) (frozen_for_user s1 u)) as [st ->];
    [by eapply positions_for_user_ok|]. cbn [mbind Res_bind].
  destruct (rs_positions_by_user s1 !! u) as [syms|]; [|eauto].
  pose proof (sweep_symbols_good q n s1 u now (needs_liquidation st) (iter_set syms) Hs1) as Hl.
  destruct (sweep_symbols _ _ _ _ _) as [entered l]. eexists. split; [done|].
  destruct entered; [apply queue_cancels_ok|]; by apply set_liquidation_ok.
Qed.

(** What a liquidation check leaves alone. *)
Lemma check_liquidation_frame u now s s' :
  check_liquidation_for u now s = Ok s' ->
  rs_accounts s' = rs_accounts s /\ rs_positions s' = rs_positions s /\ rs_frozen_orders s' = rs_frozen_orders s /\
  rs_frozen_by_user s' = rs_frozen_by_user s /\ rs_tips s' = rs_tips s /\ rs_insurance_funds s' = rs_insurance_funds s /\
  rs_exposure s' = rs_exposure s /\ rs_shard_count s' = rs_shard_count s /\ rs_shard_id s' = rs_shard_id s /\
  rs_max_symbols s' = rs_max_symbols s.
Proof.
  unfold check_liquidation_for. intros. res_inv. destruct (negb x); res_inv; [done|]. apply refresh_fallback_frame in E0.
  destruct (rs_accounts x0 !! u); res_inv; [|naive_solver]. destruct (rs_positions_by_user x0 !! u); res_inv; [|naive_solver].
  destruct (sweep_symbols _ _ _ _ _) as [b l]. res_inv. destruct b; [|naive_solver]. unfold queue_cancels.
  destruct (rs_frozen_by_user _ !! u); naive_solver.
Qed.

(** ** Fills *)

Lemma book_mono q n q' n' ps : q <= q' -> n <= n' -> book_ok q n ps -> book_ok q' n' ps.
Proof. intros ? ? Hb k p Hp. destruct (Hb k p Hp) as [? (? & ? & ?)]. split; [done|]. unfold pos_within. lia. Qed.

Lemma shard_mono q n q' n' s : q <= q' -> n <= n' -> shard_ok q n s -> shard_ok q' n' s.
Proof. intros ? ? []. split; try done. by eapply book_mono. Qed.

Lemma apply_fill_ids side px qty seq p :
  po_user_id (Position_apply_fill side px qty seq p) = po_user_id p /\ po_symbol_id (Position_apply_fill side px qty seq p) = po_symbol_id p.
Proof. unfold Position_apply_fill. by repeat case_if. Qed.

Lemma add_remove_total (empty : bool) sid u e :
  0 <= sid < zlen e -> exists e', (if empty then remove_user sid u e else add_user sid u e) = Ok e' /\ zlen e' = zlen e.
Proof.
  intros Hr. destruct (vget_is_some e sid Hr) as [us Hus].
  destruct empty; [unfold remove_user | unfold add_user]; rewrite (vmodify_ok _ _ _ _ Hus); eexists; (split; [done | by rewrite zlen_vput]).
Qed.

(** The user's position and account before an operation, as [ensure_*] makes
    them. *)
Definition position_of (s : RiskShard) (u sid : Z) : Position := default (Position_new u sid) (rs_positions s !! (u, sid)).
Definition account_of (s : RiskShard) (u : Z) : Account := default (Account_new u 0) (rs_accounts s !! u).

(** One side of a fill, in terms of the maps. *)
Record side_applied (u side fee : Z) (f : FillEvent) (s s' : RiskShard) : Prop := {
  sa_positions : rs_positions s' = <[(u, fe_symbol_id f) :=
    Position_apply_fill side (fe_price f) (fe_qty f) (fe_seq f) (position_of s u (fe_symbol_id f))]> (rs_positions s);
  sa_accounts : rs_accounts s' = <[u := deduct_fee fee (account_of s u)]> (rs_accounts s);
  sa_frozen : rs_frozen_orders s' = rs_frozen_orders s;
  sa_funds : rs_insurance_funds s' = rs_insurance_funds s;
  sa_tips : rs_tips s' = rs_tips s;
  sa_shard : rs_shard_count s' = rs_shard_count s /\ rs_shard_id s' = rs_shard_id s /\ rs_max_symbols s' = rs_max_symbols s;
}.

(** After [ensure_account] and [ensure_position]. *)
Lemma ensure_side_ok q n u sid s :
  shard_ok q n s -> 0 <= q -> 0 <= n -> 0 <= sid < rs_max_symbols s ->
  let s1 := ensure_position u sid (ensure_account u s) in
  shard_ok q n s1 /\ rs_positions s1 = <[(u, sid) := position_of s u sid]> (rs_positions s) /\
  pos_ok (position_of s u sid) /\ pos_within q n (position_of s u sid) /\
  rs_accounts s1 = <[u := account_of s u]> (rs_accounts s).
Proof.
  intros Hs Hq Hn Hsid. pose proof (ensure_account_ok q n u s Hs) as Hs0.
  assert (Ha : rs_accounts (ensure_account u s) = <[u := account_of s u]> (rs_accounts s)).
  { unfold ensure_account, account_of. destruct (rs_accounts s !! u) eqn:E; cbn; [by rewrite insert_id | done]. }
  assert (Hp0 : rs_positions (ensure_account u s) = rs_positions s /\ rs_max_symbols (ensure_account u s) = rs_max_symbols s)
    by (unfold ensure_account; by destruct (rs_accounts s !! u)). destruct Hp0 as [Hp0 Hm0].
  unfold ensure_position, position_of. rewrite Hp0. destruct (rs_positions s !! (u, sid)) as [p|] eqn:E; cbn.
  - rewrite insert_id by done. destruct (sk_book _ _ _ Hs _ _ E). done.
  - destruct (Position_new_ok u sid) as [h1 h2]. assert (pos_within q n (Position_new u sid)) by (unfold pos_within in *; lia).
    split; [|done]. destruct Hs0 as [Hsh ? Hix Hfr Hb ?]. rewrite Hp0 in Hix, Hb.
    split; [destruct Hsh; split; assumption | assumption | |assumption| |assumption].
    + apply index_new_ok; [done | done | cbn; by rewrite Hm0].
    + by apply map_Forall_insert_2.
Qed.

Lemma ensure_side_frame u sid s :
  let s1 := ensure_position u sid (ensure_account u s) in
  rs_frozen_orders s1 = rs_frozen_orders s /\ rs_insurance_funds s1 = rs_insurance_funds s /\ rs_tips s1 = rs_tips s /\
  rs_shard_count s1 = rs_shard_count s /\ rs_shard_id s1 = rs_shard_id s /\ rs_max_symbols s1 = rs_max_symbols s.
Proof. unfold ensure_position, ensure_account. by repeat case_match. Qed.

Lemma apply_side_ok q n u side fee f s :
  shard_ok q n s -> 0 <= q -> 0 <= n -> 0 <= fe_symbol_id f < rs_max_symbols s -> 0 < fe_qty f -> 0 < fe_price f ->
  q + fe_qty f <= I64_MAX -> 3 * (n + fe_price f * fe_qty f) <= I64_MAX ->
  exists s', apply_side u side fee f s = Ok s' /\ shard_ok (q + fe_qty f) (n + fe_price f * fe_qty f) s' /\
    (user_in_shard s u = Ok true -> side_applied u side fee f s s') /\ (user_in_shard s u = Ok false -> s' = s).
Proof.
  intros Hs Hq Hn Hsid Hqty Hpx HQ HN. assert (0 < fe_price f * fe_qty f) by nia. unfold apply_side.
  destruct (user_in_shard_total s u (sk_shape _ _ _ Hs)) as [b Eb]. rewrite Eb. cbn [mbind Res_bind].
  destruct b; cbn [negb]; [|exists s; split; [done|]; split; [apply (shard_mono q n); try done; lia|]; by split].
  destruct (ensure_side_ok q n u (fe_symbol_id f) s Hs Hq Hn Hsid) as (Hs1 & Hp1 & Hok & Hw & Ha1).
  destruct (ensure_side_frame u (fe_symbol_id f) s) as (R1 & R2 & R3 & R4 & R5 & R6).
  set (s1 := ensure_position u (fe_symbol_id f) (ensure_account u s)) in *. set (p := position_of s u (fe_symbol_id f)) in *.
  rewrite Hp1, lookup_insert_eq. cbn [expect mbind Res_bind]. set (p' := Position_apply_fill _ _ _ _ p).
  cbn [set_positions rs_accounts]. rewrite Ha1, lookup_insert_eq, !insert_insert_eq. cbn [expect mbind Res_bind].
  set (s3 := set_accounts _ _). assert (Hp3 : rs_positions s3 = <[(u, fe_symbol_id f):=p']> (rs_positions s)) by done.
  unfold update_exposure. rewrite Hp3, lookup_insert_eq. cbn [expect mbind Res_bind]. change (rs_exposure s3) with (rs_exposure s1).
  destruct (add_remove_total (Position_is_empty p') (fe_symbol_id f) u (rs_exposure s1)) as (e & Ee & Hel);
    [by rewrite (sh_exposure _ (sk_shape _ _ _ Hs1)), R6|]. rewrite Ee. cbn [mbind Res_bind]. eexists. split; [done|].
  destruct (fill_step q n side (fe_price f) (fe_qty f) (fe_seq f) p Hok Hw Hqty Hpx HQ HN) as (A1 & A2 & _).
  destruct (apply_fill_ids side (fe_price f) (fe_qty f) (fe_seq f) p) as [I1 I2]. split; [|split; [intros _; split; [exact Hp3 | cbn; by rewrite insert_insert_eq | exact R1 | exact R2 | exact R3 | by split_and!] | done]].
  destruct Hs1 as [Hsh ? Hix Hfz Hb ?]. split; [destruct Hsh; split; try assumption; cbn; congruence | assumption | |assumption| |assumption].
  - change (index_ok (rs_max_symbols s1) (rs_positions s3) (rs_positions_by_user s1) e).
    rewrite Hp3, <- (insert_insert_eq (rs_positions s) (u, fe_symbol_id f) p' p), <- Hp1.
    apply (index_update_ok _ _ _ _ _ _ p _ _ Hix); [by rewrite Hp1, lookup_insert_eq | done | done | done].
  - change (book_ok (q + fe_qty f) (n + fe_price f * fe_qty f) (rs_positions s3)). rewrite Hp3.
    apply map_Forall_insert_2; [done|]. apply (book_mono q n); [lia|lia|]. apply (sk_book _ _ _ Hs).
Qed.

End Ops.
