(* ===== verification/ShardFill.v ===== *)
(** * ShardFill: what fills and orders do to a risk shard

    [process_fill] against a specification on the two maps it is about: the
    positions and the accounts of the users of the shard.  [process_order],
    [freeze], [release_frozen_for_order], [confirm_freeze] and
    [replay_freeze_order]: the margin reserved for a user is the sum over his
    open orders, an accepted order leaves him solvent, and releasing it gives
    the reservation back. *)

From S2P Require Import Prelude Hash Messages Types Position Margin Funding Liquidation ShardState Shard ShardInv.

(** ** The specification *)

Definition mine (s : RiskShard) (u : Z) : bool := u mod rs_shard_count s =? rs_shard_id s.

Abbreviation Maps := (gmap (Z * Z) Position * gmap Z Account)%type.

(** A side of the fill moves the user's position and charges him the fee, when
    he belongs to the shard. *)
Definition side_maps (in_shard : bool) (u side fee : Z) (f : FillEvent) (m : Maps) : Maps :=
  let '(ps, acs) := m in
  if in_shard then
    (<[(u, fe_symbol_id f) := Position_apply_fill side (fe_price f) (fe_qty f) (fe_seq f)
         (default (Position_new u (fe_symbol_id f)) (ps !! (u, fe_symbol_id f)))]> ps,
     <[u := deduct_fee fee (default (Account_new u 0) (acs !! u))]> acs)
  else m.

Definition other_side (side : Z) : Z := if side =? 0 then 1 else 0.

Definition fill_maps (s : RiskShard) (f : FillEvent) (tbps mbps : Z) (m : Maps) : Maps :=
  side_maps (mine s (fe_maker_user_id f)) (fe_maker_user_id f) (other_side (fe_taker_side f)) (calculate_fee (fe_qty f) (fe_price f) mbps) f
    (side_maps (mine s (fe_taker_user_id f)) (fe_taker_user_id f) (fe_taker_side f) (calculate_fee (fe_qty f) (fe_price f) tbps) f m).

(** A fill the matching engine can emit. *)
Definition fill_ok (f : FillEvent) : Prop := 0 <= fe_symbol_id f /\ 0 < fe_qty f /\ 0 < fe_price f.

(** Room for both sides of the fill on one position. *)
Definition fill_room (q n : Z) (f : FillEvent) : Prop :=
  0 <= q /\ 0 <= n /\ q + 2 * fe_qty f <= I64_MAX /\ 3 * (n + 2 * (fe_price f * fe_qty f)) <= I64_MAX.

(** What a new fill changes. *)
Record fill_applied (f : FillEvent) (s s' : RiskShard) : Prop := {
  fa_maps : exists tbps mbps, vget (rs_taker_fee_bps s) (fe_symbol_id f) = Some tbps /\ vget (rs_maker_fee_bps s) (fe_symbol_id f) = Some mbps /\
    (rs_positions s', rs_accounts s') = fill_maps s f tbps mbps (rs_positions s, rs_accounts s);
  fa_tips : rs_tips s' = vput (rs_tips s) (fe_symbol_id f) (fe_seq f);
  fa_frozen : rs_frozen_orders s' = rs_frozen_orders s;
  fa_funds : rs_insurance_funds s' = rs_insurance_funds s;
  fa_shard : rs_shard_count s' = rs_shard_count s /\ rs_shard_id s' = rs_shard_id s;
}.

Section Fill.
Context `{HashIter}.

Lemma mine_spec s u : shape_ok s -> user_in_shard s u = Ok (mine s u).
Proof. intros Hs. pose proof (sh_count _ Hs). unfold user_in_shard, mine. case_if; [lia | done]. Qed.

Lemma apply_side_maps q n u side fee f s s' :
  shard_ok q n s -> apply_side u side fee f s = Ok s' ->
  (user_in_shard s u = Ok true -> side_applied u side fee f s s') -> (user_in_shard s u = Ok false -> s' = s) ->
  (rs_positions s', rs_accounts s') = side_maps (mine s u) u side fee f (rs_positions s, rs_accounts s) /\
  rs_tips s' = rs_tips s /\ rs_frozen_orders s' = rs_frozen_orders s /\ rs_insurance_funds s' = rs_insurance_funds s /\
  rs_shard_count s' = rs_shard_count s /\ rs_shard_id s' = rs_shard_id s /\ rs_max_symbols s' = rs_max_symbols s.
Proof.
  intros Hs _ H1 H2. rewrite (mine_spec s u (sk_shape _ _ _ Hs)) in H1, H2. unfold side_maps. destruct (mine s u).
  - destruct (H1 eq_refl) as [E1 E2 E3 E4 E5 (E6 & E7 & E8)]. rewrite E1, E2. done.
  - by rewrite (H2 eq_refl).
Qed.

(** What the shard holds in trust: events on the persist ring do not touch it. *)
Definition ledger (s : RiskShard) :=
  (rs_positions s, rs_accounts s, rs_tips s, rs_frozen_orders s, rs_insurance_funds s, rs_shard_count s, rs_shard_id s).

Lemma push_persist_ledger e s : ledger (push_persist e s) = ledger s.
Proof. unfold push_persist. by destruct (rs_persist_producer s). Qed.

Lemma persist_side_ok q n u sid s : shard_ok q n s -> shard_ok q n (persist_side u sid s).
Proof. intros Hs. unfold persist_side. repeat case_match; auto using push_persist_ok. Qed.

Lemma persist_side_ledger u sid s : ledger (persist_side u sid s) = ledger s.
Proof. unfold persist_side. by repeat case_match; rewrite ?push_persist_ledger. Qed.

(** The rows written after a fill. *)
Definition persist_fill (f : FillEvent) (tf mf : Z) (s : RiskShard) : Res RiskShard :=
  taker_mine ← user_in_shard s (fe_taker_user_id f);
  let s6 := if taker_mine : bool then
    persist_side (fe_taker_user_id f) (fe_symbol_id f)
      (push_persist (PeFill (mkFillRecord (fe_symbol_id f) (fe_taker_user_id f) (fe_maker_user_id f) (fe_price f) (fe_qty f)
         tf mf (fe_taker_side f) (fe_seq f) (fe_timestamp_ns f))) s)
    else s in
  maker_mine ← user_in_shard s6 (fe_maker_user_id f);
  let s7 := if maker_mine : bool then persist_side (fe_maker_user_id f) (fe_symbol_id f) s6 else s6 in
  Ok (push_persist (PeTip (fe_symbol_id f) (fe_seq f)) s7).

Lemma persist_fill_ok q n f tf mf s :
  shard_ok q n s -> exists s', persist_fill f tf mf s = Ok s' /\ shard_ok q n s' /\ ledger s' = ledger s.
Proof.
  intros Hs. unfold persist_fill. rewrite (mine_spec s _ (sk_shape _ _ _ Hs)). cbn [mbind Res_bind].
  match goal with |- context [if mine s ?u then ?a else s] => set (s6 := if mine s u then a else s) end.
  assert (H6 : shard_ok q n s6 /\ ledger s6 = ledger s).
  { unfold s6. case_if; [|done]. split; [by apply persist_side_ok, push_persist_ok|]. by rewrite persist_side_ledger, push_persist_ledger. }
  destruct H6 as (H6 & <-). rewrite (mine_spec s6 _ (sk_shape _ _ _ H6)). cbn [mbind Res_bind]. eexists. split; [done|].
  rewrite push_persist_ledger. destruct (mine s6 _); [|by split; [apply push_persist_ok|]].
  split; [by apply push_persist_ok, persist_side_ok|]. apply persist_side_ledger.
Qed.

Lemma check_liquidation_ledger u now s s' : check_liquidation_for u now s = Ok s' -> ledger s' = ledger s.
Proof. intros E. apply check_liquidation_frame in E as (E1 & E2 & E3 & E4 & E5 & E6 & E7 & E8 & E9 & _). unfold ledger. congruence. Qed.

Lemma set_tips_ok q n tips c s :
  shard_ok q n s -> zlen tips = rs_max_symbols s -> shard_ok q n (set_fills_processed c (set_tips tips s)).
Proof. intros [[] ? ? ? ? ?] Ht. shard_keep. Qed.

(** A fill at or below the tip, or on a symbol outside the shard's range, is
    skipped; a new one is applied to both sides, the tip moves to it, and the
    shard stays well formed. *)
Lemma process_fill_ok q n f s :
  shard_ok q n s -> fill_ok f -> fill_room q n f ->
  exists s', process_fill f s = Ok s' /\ shard_ok (q + 2 * fe_qty f) (n + 2 * (fe_price f * fe_qty f)) s' /\
    (default U64_MAX (vget (rs_tips s) (fe_symbol_id f)) < fe_seq f -> fe_symbol_id f < rs_max_symbols s -> fill_applied f s s') /\
    (rs_max_symbols s <= fe_symbol_id f \/ fe_seq f <= default U64_MAX (vget (rs_tips s) (fe_symbol_id f)) -> s' = s).
Proof.
  intros Hs (Hsym & Hqty & Hpx) (Hq & Hn & HQ & HN). assert (0 < fe_price f * fe_qty f) by nia. pose proof (sk_shape _ _ _ Hs) as Hsh.
  assert (Hm : shard_ok (q + 2 * fe_qty f) (n + 2 * (fe_price f * fe_qty f)) s) by (apply (shard_mono q n); [lia | lia | done]).
  unfold process_fill. rewrite (sh_tips _ Hsh). destruct (_ >=? _) eqn:Er; bool_to_prop; [exists s; split_and!; try done; lia|].
  destruct (vget_is_some (rs_tips s) (fe_symbol_id f)) as [tip Ht]; [rewrite (sh_tips _ Hsh); lia|].
  rewrite Ht, (vindex_some _ _ _ Ht). cbn [mbind Res_bind default]. unfold default, id.
  destruct (_ <=? tip) eqn:Ed; bool_to_prop; [exists s; split_and!; try done; lia|].
  destruct (vget_is_some (rs_taker_fee_bps s) (fe_symbol_id f)) as [tb Htb]; [rewrite (sh_taker _ Hsh); lia|].
  destruct (vget_is_some (rs_maker_fee_bps s) (fe_symbol_id f)) as [mb Hmb]; [rewrite (sh_maker _ Hsh); lia|].
  rewrite (vindex_some _ _ _ Htb), (vindex_some _ _ _ Hmb). cbn [mbind Res_bind].
  destruct (apply_side_ok q n (fe_taker_user_id f) (fe_taker_side f) (calculate_fee (fe_qty f) (fe_price f) tb) f s) as (s1 & E1 & Hs1 & A1 & B1);
    try done; try lia.
  destruct (apply_side_maps q n _ _ _ _ _ _ Hs E1 A1 B1) as (M1 & T1 & F1 & I1 & C1 & D1 & X1). rewrite E1. cbn [mbind Res_bind].
  fold (other_side (fe_taker_side f)).
  destruct (apply_side_ok _ _ (fe_maker_user_id f) (other_side (fe_taker_side f)) (calculate_fee (fe_qty f) (fe_price f) mb) f s1 Hs1)
    as (s2 & E2 & Hs2 & A2 & B2); try done; try lia.
  destruct (apply_side_maps _ _ _ _ _ _ _ _ Hs1 E2 A2 B2) as (M2 & T2 & F2 & I2 & C2 & D2 & X2). rewrite E2. cbn [mbind Res_bind].
  rewrite vset_ok by (rewrite T2, T1, (sh_tips _ Hsh); lia). cbn [mbind Res_bind].
  assert (Hs3 : shard_ok (q + 2 * fe_qty f) (n + 2 * (fe_price f * fe_qty f))
    (set_fills_processed (wrap_u64 (rs_fills_processed s2 + 1)) (set_tips (vput (rs_tips s2) (fe_symbol_id f) (fe_seq f)) s2))).
  { apply set_tips_ok; [|by rewrite zlen_vput, T2, T1, X2, X1; apply (sh_tips _ Hsh)].
    replace (q + 2 * fe_qty f) with (q + fe_qty f + fe_qty f) by lia.
    by replace (n + 2 * (fe_price f * fe_qty f)) with (n + fe_price f * fe_qty f + fe_price f * fe_qty f) by lia. }
  destruct (check_liquidation_ok _ _ (fe_taker_user_id f) (fe_timestamp_ns f) _ Hs3) as (s4 & E4 & Hs4). rewrite E4. cbn [mbind Res_bind].
  destruct (check_liquidation_ok _ _ (fe_maker_user_id f) (fe_timestamp_ns f) _ Hs4) as (s5 & E5 & Hs5). rewrite E5. cbn [mbind Res_bind].
  destruct (persist_fill_ok _ _ f (calculate_fee (fe_qty f) (fe_price f) tb) (calculate_fee (fe_qty f) (fe_price f) mb) s5 Hs5) as (s8 & E8 & Hs8 & L8).
  exists s8. split; [exact E8|]. split; [done|]. split; [|lia]. intros _ _.
  rewrite (check_liquidation_ledger _ _ _ _ E5), (check_liquidation_ledger _ _ _ _ E4) in L8.
  injection L8 as L1 L2 L3 L4 L5 L6 L7. cbn in L1, L2, L3, L4, L5, L6, L7. split; try congruence; [|split; congruence].
  exists tb, mb. split; [done|]. split; [done|]. rewrite L1, L2, M2. unfold fill_maps. rewrite <- M1.
  by replace (mine s1 (fe_maker_user_id f)) with (mine s (fe_maker_user_id f)) by (unfold mine; congruence).
Qed.

End Fill.

(** ** Frozen margin as a sum *)

(** The reservations of one user, by order. *)
Definition frozen_of (frozen : gmap Z Freeze) (u : Z) : gmap Z Z := fz_amount <$> filter (fun kf => fz_user_id kf.2 = u) frozen.
Definition spec_frozen (frozen : gmap Z Freeze) (u : Z) : Z := zsum snd (map_to_list (frozen_of frozen u)).

(** Reservations are never negative, and the user's fit. *)
Definition frozen_fits (frozen : gmap Z Freeze) (u : Z) : Prop :=
  map_Forall (fun _ f => 0 <= fz_amount f) frozen /\ spec_frozen frozen u <= I64_MAX.

Lemma frozen_of_lookup frozen u k a : frozen_of frozen u !! k = Some a <-> exists sym, frozen !! k = Some (mkFreeze u sym a).
Proof.
  unfold frozen_of. rewrite lookup_fmap, fmap_Some. split.
  - intros (f & Hf & ->). apply map_lookup_filter_Some in Hf as [Hf Hu]. cbn in Hu. exists (fz_symbol_id f). by destruct f; cbn in *; subst.
  - intros (sym & Hs). eexists. split; [apply map_lookup_filter_Some; split; [exact Hs | done] | done].
Qed.

Lemma frozen_index_eq frozen by_user u : frozen_ok frozen by_user -> default ∅ (by_user !! u) = frozen_of frozen u.
Proof.
  intros Hf. apply map_eq. intros k. apply option_eq. intros a. by rewrite frozen_of_lookup, (Hf u k a).
Qed.

Lemma sat_sum_exact (l : list (Z * Z)) : forall t,
  Forall (fun x => 0 <= snd x) l -> 0 <= t -> t + zsum snd l <= I64_MAX ->
  fold_left (fun total '(_, amount) => sat_i64 (total + amount)) l t = t + zsum snd l.
Proof.
  induction l as [|[k a] l IH]; intros t Hl Ht Hb; [cbn; lia|]. apply Forall_cons in Hl as [Ha Hl]. cbn [snd] in Ha.
  rewrite zsum_cons in *. cbn [snd] in *. assert (0 <= zsum snd l) by (apply zsum_nonneg; rewrite List.Forall_forall in Hl; done).
  cbn [fold_left]. rewrite sat_i64_id by width_lia. rewrite IH; [lia | done | lia | lia].
Qed.

Lemma zsum_map_insert (m : gmap Z Z) k a : m !! k = None -> zsum snd (map_to_list (<[k:=a]> m)) = a + zsum snd (map_to_list m).
Proof. intros Hk. rewrite (zsum_perm _ _ _ (map_to_list_insert m k a Hk)). by rewrite zsum_cons. Qed.

Lemma frozen_of_insert frozen u k sym a :
  frozen !! k = None -> frozen_of (<[k := mkFreeze u sym a]> frozen) u = <[k:=a]> (frozen_of frozen u).
Proof. intros Hk. unfold frozen_of. rewrite map_filter_insert_True by done. by rewrite fmap_insert. Qed.

Lemma frozen_of_none frozen u k : frozen !! k = None -> frozen_of frozen u !! k = None.
Proof. intros Hk. apply eq_None_not_Some. intros [a Ha]. apply frozen_of_lookup in Ha as [sym Ha]. congruence. Qed.

Lemma spec_frozen_insert frozen u k sym a :
  frozen !! k = None -> spec_frozen (<[k := mkFreeze u sym a]> frozen) u = a + spec_frozen frozen u.
Proof. intros Hk. unfold spec_frozen. rewrite frozen_of_insert by done. apply zsum_map_insert. by apply frozen_of_none. Qed.

Section Orders.
Context `{HashIter}.

Lemma frozen_for_user_exact q n s u :
  shard_ok q n s -> frozen_fits (rs_frozen_orders s) u -> frozen_for_user s u = spec_frozen (rs_frozen_orders s) u.
Proof.
  intros Hs [Hpos Hfit]. unfold frozen_for_user. pose proof (frozen_index_eq _ _ u (sk_frozen _ _ _ Hs)) as Ei. unfold spec_frozen in *.
  rewrite <- Ei in *. destruct (rs_frozen_by_user s !! u) as [m|]; cbn in *; [|done].
  assert (Hp : Forall (fun x => 0 <= snd x) (iter_map m)).
  { rewrite iter_map_perm. apply List.Forall_forall. intros [k a] Hin%list_elem_of_In. apply elem_of_map_to_list in Hin.
    rewrite Ei in Hin. apply frozen_of_lookup in Hin as [sym Hin]. exact (Hpos _ _ Hin). }
  rewrite sat_sum_exact; [by rewrite (zsum_perm _ _ _ (iter_map_perm m)) | done | lia | by rewrite (zsum_perm _ _ _ (iter_map_perm m)); lia].
Qed.

(** ** Freezing and releasing *)

Lemma freeze_ok q n u sym hi lo a s :
  shard_ok q n s -> own_key u (order_key hi lo) (rs_frozen_orders s) -> shard_ok q n (freeze u sym hi lo a s).
Proof.
  intros [[] ? ? ? ? ?] Hk. unfold freeze. split; [split; assumption | assumption | assumption | | assumption | assumption].
  by apply frozen_insert_ok.
Qed.

Lemma release_ok q n u hi lo s : shard_ok q n s -> exists s', release_frozen_for_order u hi lo s = Ok s' /\ shard_ok q n s'.
Proof.
  intros Hs. unfold release_frozen_for_order. destruct (user_in_shard_total s u (sk_shape _ _ _ Hs)) as [b ->]. cbn [mbind Res_bind].
  destruct b; cbn [negb]; [|eauto]. destruct (rs_frozen_orders s !! order_key hi lo) as [f|] eqn:Ef; [|eauto].
  case_if; [eauto|]. bool_to_prop. eexists. split; [done|]. apply push_persist_ok. destruct Hs as [[] ? ? ? ? ?].
  split; [split; assumption | assumption | assumption | | assumption | assumption]. eapply frozen_remove_ok; eauto.
Qed.

Lemma confirm_ok q n u hi lo sym s : shard_ok q n s -> exists s', confirm_freeze u hi lo sym s = Ok s' /\ shard_ok q n s'.
Proof.
  intros Hs. unfold confirm_freeze. destruct (user_in_shard_total s u (sk_shape _ _ _ Hs)) as [b ->]. cbn [mbind Res_bind].
  destruct b; cbn [negb]; [|eauto]. repeat case_match; eauto using push_persist_ok.
Qed.

Lemma params_in_range m sid params : params_of m sid = Some params -> 0 <= sid < zlen m.
Proof. unfold params_of. destruct (vget m sid) eqn:E; [|done]. intros _. by apply vget_some_range in E. Qed.

Lemma replay_freeze_ok q n u hi lo px qty sym s :
  shard_ok q n s -> own_key u (order_key hi lo) (rs_frozen_orders s) ->
  exists s', replay_freeze_order u hi lo px qty sym s = Ok s' /\ shard_ok q n s'.
Proof.
  intros Hs Hk. unfold replay_freeze_order. pose proof (ensure_account_ok q n u s Hs) as Hs1.
  assert (Ef : rs_frozen_orders (ensure_account u s) = rs_frozen_orders s) by (unfold ensure_account; by case_match).
  set (s1 := ensure_account u s) in *. destruct (params_of (rs_margin s1) sym) as [params|] eqn:Ep; [|eauto].
  apply params_in_range in Ep. rewrite (sh_margin _ (sk_shape _ _ _ Hs1)), <- (sh_taker _ (sk_shape _ _ _ Hs1)) in Ep.
  destruct (vget_is_some _ _ Ep) as [fee Hfee]. rewrite (vindex_some _ _ _ Hfee). cbn [mbind Res_bind]. eexists. split; [done|].
  apply freeze_ok; [done | by rewrite Ef].
Qed.

(** ** The pre-trade gate *)

Lemma check_order_total m a ps o marks fee frozen : Forall pos_ok ps -> exists v, check_order m a ps o marks fee frozen = Ok v.
Proof.
  intros Hp. unfold check_order. case_if; [eauto|]. destruct (params_of m (or_symbol_id o)); [|eauto]. case_if; [case_if; eauto|].
  case_if; [eauto|]. destruct (calculate_total m a ps marks frozen Hp) as [st ->]. cbn [mbind Res_bind]. repeat case_if; eauto.
Qed.

(** How the gate ends, for an order on an existing symbol. *)
Inductive gated (o : OrderRequest) (s s1 : RiskShard) : OrderResponse -> RiskShard -> Prop :=
| gate_early r : gated o s s1 (Rejected (or_user_id o) r (or_order_id_hi o) (or_order_id_lo o)) s
| gate_reject r : gated o s s1 (Rejected (or_user_id o) r (or_order_id_hi o) (or_order_id_lo o)) s1
| gate_accept acct fee amount :
    0 < or_price o -> 0 < or_qty o -> rs_accounts s1 !! or_user_id o = Some acct ->
    vget (rs_taker_fee_bps s1) (or_symbol_id o) = Some fee ->
    check_order (rs_margin s1) acct (iter_positions_for_user s1 (or_user_id o)) o (rs_fallback_mark_prices s1) fee
      (frozen_for_user s1 (or_user_id o)) = Ok (inr amount) ->
    (exists st, calculate (rs_margin s1) acct (iter_positions_for_user s1 (or_user_id o)) (rs_fallback_mark_prices s1)
       (frozen_for_user s1 (or_user_id o)) = Ok st /\ (or_is_liquidation o = false -> ms_maintenance_margin st <= ms_equity st)) ->
    gated o s s1 (Accepted (or_user_id o) amount (or_order_id_hi o) (or_order_id_lo o))
      (set_orders_processed (wrap_u64 (rs_orders_processed s1 + 1))
        (freeze (or_user_id o) (or_symbol_id o) (or_order_id_hi o) (or_order_id_lo o) amount s1)).

Lemma process_order_gated q n o s :
  shard_ok q n s -> 0 <= or_symbol_id o -> exists s1 resp s', refresh_fallback (ensure_account (or_user_id o) s) = Ok s1 /\ shard_ok q n s1 /\
    process_order o s = Ok (resp, s') /\ gated o s s1 resp s'.
Proof.
  intros Hs Hsym. destruct (refresh_fallback_ok q n _ (ensure_account_ok q n (or_user_id o) s Hs)) as (s1 & E1 & Hs1).
  exists s1. unfold process_order. destruct (user_in_shard_total s (or_user_id o) (sk_shape _ _ _ Hs)) as [b ->]. cbn [mbind Res_bind].
  destruct b; cbn [negb]; [|eexists _, _; split_and!; try done; apply gate_early].
  destruct (_ || _) eqn:Epq; [eexists _, _; split_and!; try done; apply gate_early|]. bool_to_prop. rewrite E1. cbn [mbind Res_bind].
  destruct (ensure_account_some (or_user_id o) s) as [acct Ha]. pose proof (refresh_fallback_frame _ _ E1) as (Fa & _). rewrite <- Fa in Ha.
  rewrite Ha. cbn [expect mbind Res_bind]. pose proof (positions_for_user_ok q n s1 (or_user_id o) Hs1) as Hp.
  destruct (calculate_total (rs_margin s1) acct _ (rs_fallback_mark_prices s1) (frozen_for_user s1 (or_user_id o)) Hp) as [st Est].
  rewrite Est. cbn [mbind Res_bind]. destruct (needs_liquidation st && _) eqn:El; [eexists _, _; split_and!; try done; apply gate_reject|].
  destruct (_ >=? _) eqn:Esid; [eexists _, _; split_and!; try done; apply gate_reject|].
  destruct (vget_is_some (rs_taker_fee_bps s1) (or_symbol_id o)) as [fee Hfee]; [lia|]. rewrite (vindex_some _ _ _ Hfee). cbn [mbind Res_bind].
  destruct (check_order_total (rs_margin s1) acct _ o (rs_fallback_mark_prices s1) fee (frozen_for_user s1 (or_user_id o)) Hp) as [v Ev].
  rewrite Ev. cbn [mbind Res_bind]. destruct v as [r|amount]; eexists _, _; split_and!; try done; [apply gate_reject|].
  refine (gate_accept o s s1 acct fee amount _ _ Ha Hfee Ev _); [lia|lia|]. exists st. split; [done|]. intros Hl. unfold needs_liquidation in El. rewrite Hl in El.
  cbn [negb] in El. rewrite andb_true_r in El. lia.
Qed.

Lemma process_order_ok q n o s :
  shard_ok q n s -> 0 <= or_symbol_id o -> own_key (or_user_id o) (order_key (or_order_id_hi o) (or_order_id_lo o)) (rs_frozen_orders s) ->
  exists resp s', process_order o s = Ok (resp, s') /\ shard_ok q n s'.
Proof.
  intros Hs Hsym Hk. destruct (process_order_gated q n o s Hs Hsym) as (s1 & resp & s' & E1 & Hs1 & Ep & Hg). exists resp, s'. split; [done|].
  destruct Hg; [done | done |]. apply refresh_fallback_frame in E1 as (_ & _ & _ & Ff & _).
  assert (Hf : shard_ok q n (freeze (or_user_id o) (or_symbol_id o) (or_order_id_hi o) (or_order_id_lo o) amount s1)).
  { apply freeze_ok; [done|]. rewrite Ff. unfold ensure_account. by case_match. }
  destruct Hf as [[] ? ? ? ? ?]. shard_keep.
Qed.

(** The reserved margin depends on the open orders only. *)
Lemma frozen_for_user_of q n s u :
  shard_ok q n s ->
  frozen_for_user s u = fold_left (fun total '(_, amount) => sat_i64 (total + amount)) (iter_map (frozen_of (rs_frozen_orders s) u)) 0.
Proof.
  intros Hs. unfold frozen_for_user. rewrite <- (frozen_index_eq _ _ u (sk_frozen _ _ _ Hs)). destruct (rs_frozen_by_user s !! u) as [m|]; [done|].
  cbn. assert (iter_map (∅ : gmap Z Z) = []) as ->; [|done]. apply Permutation_nil. by rewrite iter_map_perm, map_to_list_empty.
Qed.

(** What an accepted order that opens exposure was checked against. *)
Lemma check_order_accepted m a ps o marks fee frozen amount :
  check_order m a ps o marks fee frozen = Ok (inr amount) -> or_is_liquidation o = false -> or_reduce_only o = false ->
  exists params st, params_of m (or_symbol_id o) = Some params /\ calculate m a ps marks frozen = Ok st /\
    amount = calculate_margin_needed params (or_price o) (or_qty o) fee /\ amount <= ms_available_margin st.
Proof.
  unfold check_order. intros E Hl Hr. rewrite Hl, Hr in E. destruct (params_of m (or_symbol_id o)) as [params|]; [|done].
  head_if E; [discriminate E|]. res_inv. exists params, x. head_if E; [discriminate E|]. head_if E; [discriminate E|]. injection E as <-.
  bool_to_prop. split_and!; [done | done | done | lia].
Qed.

Lemma positions_fit q n s u : shard_ok q n s -> q <= I64_MAX -> n <= I64_MAX -> Forall pos_fits (iter_positions_for_user s u).
Proof.
  intros Hs Hq Hn. apply List.Forall_forall. intros p (sid & Hp)%positions_for_user_in. destruct (sk_book _ _ _ Hs _ _ Hp) as [Hok (w1 & w2 & _)].
  destruct (ix_symbols _ _ _ _ (sk_index _ _ _ Hs) _ _ _ Hp) as (Hs1 & _ & Hr). split; [done|]. split; lia.
Qed.

End Orders.
