(* ===== verification/ShardTick.v ===== *)
(** * ShardTick: prices, losses, funding, configuration and the tick

    The remaining operations of a risk shard return and keep its invariant;
    with [ShardFill] this makes every sequence of operations safe.  [RiskShard::new]
    builds a well-formed shard, and [set_state] rebuilds the secondary indexes
    of a loaded state, whatever the order in which its maps are walked. *)

From stdpp Require Import sorting.
From S2P Require Import Prelude Hash Messages Types Position Margin Funding Liquidation ShardState Shard ShardInv.
From S2P Require Import ShardFill.

(** ** Settlement always returns *)

Lemma settle_total qs mark rate : exists ps, settle_symbol qs mark rate = Ok ps.
Proof.
  unfold settle_symbol. case_if; [|eauto]. unfold largest_idx. destruct qs as [|q qs]; [eauto|].
  destruct (largest_loop_spec (q :: qs) 0 None I ltac:(lia)) as (j & m & -> & Hj); [by left|]. cbn [fmap option_fmap option_map fst].
  destruct (vget_is_some (List.map (fun x => calculate_payment x mark rate) (q :: qs)) j) as [x Hx]; [rewrite zlen_map; lia|].
  rewrite (vmodify_ok _ _ _ _ Hx). eauto.
Qed.

Section Tick.
Context `{HashIter}.

(** ** Prices *)

Lemma set_prices_ok q n ips marks d s :
  shard_ok q n s -> zlen ips = rs_max_symbols s -> zlen marks = rs_max_symbols s ->
  shard_ok q n (set_mark_dirty d (set_index_prices ips (set_mark_prices marks s))).
Proof. intros [[] ? ? ? ? ?] Hi Hm. shard_keep. Qed.

Lemma process_bbo_ok q n b s : shard_ok q n s -> 0 <= bu_symbol_id b -> exists s', process_bbo b s = Ok s' /\ shard_ok q n s'.
Proof.
  intros Hs Hb. unfold process_bbo. case_if; [eauto|]. destruct (vget_is_some (rs_index_prices s) (bu_symbol_id b)) as [x Hx]; [lia|].
  rewrite (vmodify_ok _ _ _ _ Hx). cbn [mbind Res_bind]. eexists. split; [done|]. destruct Hs as [[] ? ? ? ? ?].
  split; [split; try assumption | assumption ..]. cbn. by rewrite zlen_vput.
Qed.

Lemma update_mark_ok q n sid px s : shard_ok q n s -> 0 <= sid -> exists s', update_mark sid px s = Ok s' /\ shard_ok q n s'.
Proof.
  intros Hs Hb. unfold update_mark. case_if; [eauto|]. rewrite vset_ok by lia. cbn [mbind Res_bind]. eexists. split; [done|].
  destruct Hs as [[] ? ? ? ? ?]. split; [split; try assumption | assumption ..]. cbn. by rewrite zlen_vput.
Qed.

Lemma set_stash_ok q n i o s :
  shard_ok q n s -> match o with Some b => 0 <= bu_symbol_id b | None => True end -> shard_ok q n (set_stashed_bbo (vput (rs_stashed_bbo s) i o) s).
Proof.
  intros [[] ? ? ? ? ?] Hv. split; [split; try assumption; cbn; rewrite ?zlen_vput; try done | assumption ..].
  unfold vput. case_if; [|done]. by apply Forall_insert.
Qed.

Lemma stash_bbo_ok q n b s : shard_ok q n s -> 0 <= bu_symbol_id b -> exists s', stash_bbo b s = Ok s' /\ shard_ok q n s'.
Proof.
  intros Hs Hb. unfold stash_bbo. case_if; [eauto|]. rewrite vset_ok by lia. cbn [mbind Res_bind]. eexists. split; [done|].
  by apply set_stash_ok.
Qed.

(** ** Losses *)

Lemma set_funds_ok q n v s : shard_ok q n s -> shard_ok q n (set_insurance_funds v s).
Proof. intros [[] ? ? ? ? ?]. shard_keep. Qed.

Lemma loss_ok q n l now s : shard_ok q n s -> exists o s', process_socialized_loss l now s = Ok (o, s') /\ shard_ok q n s' /\ rs_frozen_orders s' = rs_frozen_orders s.
Proof.
  intros Hs. unfold process_socialized_loss. destruct (rs_accounts s !! sl_user_id l) as [a|]; [|eauto].
  destruct (calculate_total (rs_margin s) a (iter_positions_for_user s (sl_user_id l)) (rs_fallback_mark_prices s) (frozen_for_user s (sl_user_id l)))
    as [st ->]; [by eapply positions_for_user_ok|]. cbn [mbind Res_bind]. case_if; [eauto|]. eexists _, _. split; [done|].
  split; [by repeat first [apply push_persist_ok | apply set_accounts_ok | apply set_funds_ok]|].
  unfold push_persist. by repeat case_match.
Qed.

(** ** Funding *)

Lemma charge_ok q n sid id rate now l : forall s ps acs,
  shard_ok q n s -> let s' := fst (fst (fold_left (charge_funding sid id rate now) l (s, ps, acs))) in
  shard_ok q n s' /\ rs_frozen_orders s' = rs_frozen_orders s /\ rs_max_symbols s' = rs_max_symbols s.
Proof.
  induction l as [|[[u x] a] l IH]; intros s ps acs Hs; [done|]. cbn [fold_left charge_funding].
  pose proof (ensure_account_ok q n u s Hs) as Hs1.
  assert (Ef : rs_frozen_orders (ensure_account u s) = rs_frozen_orders s /\ rs_max_symbols (ensure_account u s) = rs_max_symbols s)
    by (unfold ensure_account; by case_match). destruct Ef as [Ef Em].
  destruct (rs_accounts (ensure_account u s) !! u) as [acc|]; rewrite <- Ef, <- Em.
  - apply (IH (set_accounts _ (ensure_account u s))). by apply set_accounts_ok.
  - by apply IH.
Qed.

Lemma push_persist_static e s :
  rs_max_symbols (push_persist e s) = rs_max_symbols s /\ rs_frozen_orders (push_persist e s) = rs_frozen_orders s.
Proof. unfold push_persist. by case_match. Qed.

Lemma set_settled_ok q n v s : shard_ok q n s -> zlen v = rs_max_symbols s -> shard_ok q n (set_funding_settled v s).
Proof. intros [[] ? ? ? ? ?] Hv. shard_keep. Qed.

Lemma try_settle_ok q n sid id now s :
  shard_ok q n s -> 0 <= sid < rs_max_symbols s -> exists b s', try_settle_interval sid id now s = Ok (b, s') /\ shard_ok q n s' /\
    rs_frozen_orders s' = rs_frozen_orders s /\ rs_max_symbols s' = rs_max_symbols s.
Proof.
  intros Hs Hsid. pose proof (sk_shape _ _ _ Hs) as Hsh. unfold try_settle_interval, users_for_symbol.
  destruct (vget_is_some (rs_exposure s) sid) as [us Hus]; [by rewrite (sh_exposure _ Hsh)|].
  destruct (vget_is_some (rs_mark_prices s) sid) as [mk Hmk]; [by rewrite (sh_marks _ Hsh)|].
  destruct (vget_is_some (rs_index_prices s) sid) as [ip Hip]; [by rewrite (sh_index _ Hsh)|].
  destruct (vget_is_some (rs_funding_min_bps s) sid) as [mn Hmn]; [by rewrite (sh_fmin _ Hsh)|].
  destruct (vget_is_some (rs_funding_max_bps s) sid) as [mx Hmx]; [by rewrite (sh_fmax _ Hsh)|].
  rewrite (vindex_some _ _ _ Hus), (vindex_some _ _ _ Hmk), (vindex_some _ _ _ Hip), (vindex_some _ _ _ Hmn), (vindex_some _ _ _ Hmx).
  cbn [mbind Res_bind]. destruct (existsb _ _ && _); [by eexists _, _|]. pose proof (sk_bands _ _ _ Hs _ _ _ Hmn Hmx) as Hb.
  match goal with |- context [mbind _ (if ?c then calculate_rate mk ?x mn mx else Ok 0)] =>
    destruct (if c then calculate_rate mk x mn mx else Ok 0) as [rate| |] eqn:Er end;
    [|exfalso; unfold calculate_rate, clamp_i64 in Er; replace (mn <=? mx) with true in Er by lia; repeat case_match; done ..].
  cbn [mbind Res_bind]. destruct (settle_total (List.map snd (exposed_users s sid us)) mk rate) as [ps ->]. cbn [mbind Res_bind].
  pose proof (charge_ok q n sid id rate now (combine (exposed_users s sid us) ps) s [] [] Hs) as (Hc & Hcf & Hcm).
  destruct (fold_left _ _ _) as [[s1 pays] accs]. cbn [fst] in Hc, Hcf, Hcm. set (ev := PeFundingSettlement _).
  destruct (push_persist_static ev s1) as [Hpm Hpf]. pose proof (push_persist_ok q n ev s1 Hc) as Hs2.
  pose proof (sh_fsettled _ (sk_shape _ _ _ Hs2)) as Hl. rewrite vset_ok by lia. cbn [mbind Res_bind]. eexists _, _. split; [done|].
  split; [apply set_settled_ok; [done | by rewrite zlen_vput]|]. cbn. split; congruence.
Qed.

Lemma settle_ids_ok q n sid now ids : forall s,
  shard_ok q n s -> 0 <= sid < rs_max_symbols s -> exists b s', settle_ids sid now ids s = Ok (b, s') /\ shard_ok q n s' /\
    rs_frozen_orders s' = rs_frozen_orders s /\ rs_max_symbols s' = rs_max_symbols s.
Proof.
  induction ids as [|id ids IH]; intros s Hs Hsid; [by eexists _, _|]. cbn [settle_ids].
  destruct (try_settle_ok q n sid id now s Hs Hsid) as (b & s1 & -> & Hs1 & Hf & Hm). cbn [mbind Res_bind].
  destruct b; [|by eexists _, _]. destruct (IH s1 Hs1) as (b & s2 & E & Hs2 & Hf2 & Hm2); [by rewrite Hm|].
  rewrite E. exists b, s2. split_and!; try done; congruence.
Qed.

Lemma settle_due_ok q n now sid w s :
  shard_ok q n s -> 0 <= sid < rs_max_symbols s -> exists b s', settle_symbol_due now (w, s) sid = Ok (b, s') /\ shard_ok q n s' /\
    rs_frozen_orders s' = rs_frozen_orders s /\ rs_max_symbols s' = rs_max_symbols s.
Proof.
  intros Hs Hsid. pose proof (sk_shape _ _ _ Hs) as Hsh. unfold settle_symbol_due.
  destruct (params_of (rs_margin s) sid); [|by eexists _, _].
  destruct (vget_is_some (rs_funding_interval_secs s) sid) as [iv Hiv]; [by rewrite (sh_finterval _ Hsh)|].
  destruct (vget_is_some (rs_funding_settled s) sid) as [st Hst]; [by rewrite (sh_fsettled _ Hsh)|].
  rewrite (vindex_some _ _ _ Hiv), (vindex_some _ _ _ Hst). cbn [mbind Res_bind]. case_if; [by eexists _, _|].
  match goal with |- context [settle_ids sid now ?ids s] => destruct (settle_ids_ok q n sid now ids s Hs Hsid) as (b & s1 & -> & H1) end.
  cbn [mbind Res_bind]. by eexists _, _.
Qed.

Lemma maybe_settle_ok q n now s :
  shard_ok q n s -> exists s', maybe_settle_funding now s = Ok s' /\ shard_ok q n s' /\ rs_frozen_orders s' = rs_frozen_orders s.
Proof.
  intros Hs. unfold maybe_settle_funding. case_if; [by eexists|]. set (s1 := set_funding_checked_secs now s).
  assert (Hs1 : shard_ok q n s1) by (destruct Hs as [[] ? ? ? ? ?]; shard_keep).
  destruct (rfold_invariant (fun acc => shard_ok q n (snd acc) /\ rs_frozen_orders (snd acc) = rs_frozen_orders s /\ rs_max_symbols (snd acc) = rs_max_symbols s)
    (settle_symbol_due now) (zrange 0 (rs_max_symbols s1)) (false, s1)) as ([w s2] & -> & Hs2 & Hf & _).
  - by split_and!.
  - intros [w s2] sid (H2 & Hf & Hm) Hin%in_zrange. cbn [snd] in *.
    destruct (settle_due_ok q n now sid w s2 H2) as (b & s3 & E & H3 & Hf3 & Hm3); [rewrite Hm; exact Hin|].
    exists (b, s3). split; [done|]. cbn [snd]. split_and!; congruence.
  - cbn [mbind Res_bind snd] in *. eexists. split; [done|]. split; [destruct Hs2 as [[] ? ? ? ? ?]; shard_keep | done].
Qed.

(** ** Configuration *)

(** What the loader checks before it hands a configuration over. *)
Definition config_ok (c : SymbolRiskConfig) : Prop := 0 <= rc_symbol_id c /\ rc_funding_min_bps c <= rc_funding_max_bps c.

Lemma apply_config_ok q n c s :
  shard_ok q n s -> config_ok c -> exists s', apply_symbol_config c s = Ok s' /\ shard_ok q n s' /\ rs_frozen_orders s' = rs_frozen_orders s.
Proof.
  intros Hs [Hc Hb]. pose proof (sk_shape _ _ _ Hs) as Hsh. unfold apply_symbol_config. rewrite (sh_versions _ Hsh).
  destruct (_ >=? _) eqn:Er; [by eexists|]. assert (Hr : 0 <= rc_symbol_id c < rs_max_symbols s) by lia.
  destruct (vget_is_some (rs_funding_interval_secs s) (rc_symbol_id c)) as [iv Hiv]; [by rewrite (sh_finterval _ Hsh)|].
  rewrite (vindex_some _ _ _ Hiv). cbn [mbind Res_bind]. case_if; [by eexists|]. pose proof Hsh as [].
  repeat (rewrite vset_ok by congruence; cbn [mbind Res_bind]). eexists. split; [done|]. split; [|done].
  destruct Hs as [_ Hbands ? ? ? ?]. split; [split; cbn; rewrite ?zlen_vput; assumption | | assumption ..].
  intros sid mn mx. cbn. rewrite !vget_vput. destruct (rc_symbol_id c =? sid) eqn:E; [|apply Hbands].
  replace (0 <=? rc_symbol_id c) with true by lia. rewrite sh_fmin, sh_fmax. replace (_ <? rs_max_symbols s) with true by lia.
  cbn. by intros [= <-] [= <-].
Qed.

Lemma config_applied_ok q n sid v s : shard_ok q n s -> 0 <= sid -> exists s', process_config_applied sid v s = Ok s' /\ shard_ok q n s'.
Proof.
  intros Hs Hsid. unfold process_config_applied. case_if; [eauto|]. destruct (vget_is_some (rs_config_versions s) sid) as [x Hx]; [lia|].
  rewrite (vindex_some _ _ _ Hx). cbn [mbind Res_bind]. case_if; eauto using push_persist_ok.
Qed.

Lemma drain_config_ok q n s :
  shard_ok q n s -> Forall config_ok (default [] (rs_config_updates s)) ->
  exists s', drain_config_updates s = Ok s' /\ shard_ok q n s' /\ rs_frozen_orders s' = rs_frozen_orders s.
Proof.
  intros Hs Hc. unfold drain_config_updates. destruct (rs_config_updates s) as [us|]; [|by eexists]. cbn in Hc. rewrite List.Forall_forall in Hc.
  set (s0 := set_config_updates None s). assert (Hs0 : shard_ok q n s0) by (destruct Hs as [[] ? ? ? ? ?]; shard_keep).
  destruct (rfold_invariant (fun x => shard_ok q n x /\ rs_frozen_orders x = rs_frozen_orders s) (fun s c => apply_symbol_config c s) us s0)
    as (s1 & -> & Hs1 & Hf); [done| |].
  - intros x c [Hx Hxf] Hin. destruct (apply_config_ok q n c x Hx (Hc c Hin)) as (x' & E & Hx' & Hf'). exists x'. split_and!; [done|done|congruence].
  - cbn [mbind Res_bind]. eexists. split; [done|]. split; [destruct Hs1 as [[] ? ? ? ? ?]; shard_keep | done].
Qed.

(** ** The tick *)

Lemma drain_cancels_total frozen pend : forall ring, exists p r, drain_cancels frozen pend ring = Ok (p, r).
Proof.
  induction pend as [|c pend IH]; intros ring; cbn [drain_cancels]; [eauto|]. destruct (is_full ring) eqn:Ef; [eauto|].
  destruct (frozen !! _); [|apply IH]. unfold ring_push. rewrite Ef. cbn [expect mbind Res_bind]. apply IH.
Qed.

Lemma check_exposed_ok q n sid now k s :
  shard_ok q n s -> (exists us, vget (rs_exposure s) sid = Some us /\ k <= zlen us) ->
  exists s', check_exposed sid now k s = Ok s' /\ shard_ok q n s' /\ rs_frozen_orders s' = rs_frozen_orders s.
Proof.
  intros Hs (us & Hus & Hk). unfold check_exposed.
  destruct (rfold_invariant (fun x => shard_ok q n x /\ rs_exposure x = rs_exposure s /\ rs_frozen_orders x = rs_frozen_orders s)
    (fun s i => users ← users_for_symbol (rs_exposure s) sid; user_id ← vindex users i; check_liquidation_for user_id now s) (zrange 0 k) s)
    as (s' & -> & Hs' & _ & Hf); [done| |by eexists].
  intros x i (Hx & He & Hf) Hin%in_zrange. unfold users_for_symbol. rewrite He, (vindex_some _ _ _ Hus). cbn [mbind Res_bind].
  destruct (vget_is_some us i) as [u Hu]; [lia|]. rewrite (vindex_some _ _ _ Hu). cbn [mbind Res_bind].
  destruct (check_liquidation_ok q n u now x Hx) as (x' & E & Hx'). exists x'. split; [done|].
  apply check_liquidation_frame in E as (_ & _ & E3 & _ & _ & _ & E7 & _). split_and!; [done | congruence | congruence].
Qed.

Lemma process_bbo_frame b s s' : process_bbo b s = Ok s' ->
  rs_exposure s' = rs_exposure s /\ rs_frozen_orders s' = rs_frozen_orders s /\ rs_max_symbols s' = rs_max_symbols s.
Proof. unfold process_bbo. case_if; intros; res_inv; done. Qed.

Lemma check_exposed_max sid now k s s' : check_exposed sid now k s = Ok s' -> rs_max_symbols s' = rs_max_symbols s.
Proof.
  unfold check_exposed. revert s. generalize (zrange 0 k). intros l. induction l as [|i l IH]; intros s; cbn [rfold]; [by intros [= ->]|].
  intros E. res_inv. apply IH in E. rewrite E. match goal with H : check_liquidation_for _ _ _ = Ok _ |- _ => apply check_liquidation_frame in H; tauto end.
Qed.

Lemma drain_stashed_ok q n now s :
  shard_ok q n s -> exists s', drain_stashed_bbos now s = Ok s' /\ shard_ok q n s' /\ rs_frozen_orders s' = rs_frozen_orders s.
Proof.
  intros Hs. unfold drain_stashed_bbos.
  destruct (rfold_invariant (fun x => shard_ok q n x /\ rs_frozen_orders x = rs_frozen_orders s /\ rs_max_symbols x = rs_max_symbols s)
    (drain_bbo_at now) (zrange 0 (rs_max_symbols s)) s) as (s' & -> & Hs' & Hf & _); [by split_and!| |by eexists].
  intros x sid (Hx & Hf & Hm) Hin%in_zrange. unfold drain_bbo_at. destruct (vget_is_some (rs_stashed_bbo x) sid) as [o Ho]; [rewrite (sh_stash _ (sk_shape _ _ _ Hx)); lia|].
  rewrite (vindex_some _ _ _ Ho). cbn [mbind Res_bind]. destruct o as [b|]; [|by eexists].
  assert (Hb : 0 <= bu_symbol_id b).
  { pose proof (sh_stashed _ (sk_shape _ _ _ Hx)) as Hst. rewrite List.Forall_forall in Hst. exact (Hst _ (vget_in _ _ _ Ho)). }
  destruct (process_bbo_ok q n b _ (set_stash_ok q n sid None x Hx I) Hb) as (x1 & E1 & Hx1). rewrite E1. cbn [mbind Res_bind].
  apply process_bbo_frame in E1 as (_ & Hf1 & Hm1). cbn in Hf1, Hm1. unfold users_for_symbol.
  destruct (vget_is_some (rs_exposure x1) sid) as [us Hus]; [rewrite (sh_exposure _ (sk_shape _ _ _ Hx1)); lia|].
  rewrite (vindex_some _ _ _ Hus). cbn [mbind Res_bind]. destruct (check_exposed_ok q n sid now (zlen us) x1 Hx1) as (x2 & E2 & Hx2 & Hf2); [by exists us|].
  exists x2. split; [done|]. apply check_exposed_max in E2. split_and!; [done | congruence | congruence].
Qed.

(** The ids minted from [i] on are new and distinct. *)
Definition ids_fresh (uuid : nat -> Z * Z) (i : nat) (s : RiskShard) : Prop :=
  (forall j, (i <= j)%nat -> rs_frozen_orders s !! order_key (fst (uuid j)) (snd (uuid j)) = None) /\
  (forall j k, order_key (fst (uuid j)) (snd (uuid j)) = order_key (fst (uuid k)) (snd (uuid k)) -> j = k).

Lemma gated_frozen o s s1 resp s' :
  refresh_fallback (ensure_account (or_user_id o) s) = Ok s1 -> gated o s s1 resp s' ->
  rs_frozen_orders s' = rs_frozen_orders s \/
  exists f, rs_frozen_orders s' = <[order_key (or_order_id_hi o) (or_order_id_lo o) := f]> (rs_frozen_orders s).
Proof.
  intros E Hg. apply refresh_fallback_frame in E as (_ & _ & _ & Ff & _).
  assert (Ea : rs_frozen_orders (ensure_account (or_user_id o) s) = rs_frozen_orders s) by (unfold ensure_account; by case_match).
  destruct Hg; [by left | left; congruence | right; eexists; cbn; by rewrite Ff, Ea].
Qed.

Lemma send_liquidations_ok q n uuid now liqs : forall i s rings,
  shard_ok q n s -> ids_fresh uuid i s -> Forall (fun l => 0 <= lo_symbol_id l) liqs ->
  exists b s' r', send_liquidations uuid i now liqs s rings = Ok (b, s', r') /\ shard_ok q n s'.
Proof.
  induction liqs as [|liq liqs IH]; intros i s rings Hs [Hf Hinj] Hl; cbn [send_liquidations]; [by eexists _, _, _|].
  apply Forall_cons in Hl as [Hsym Hl]. destruct (egress_full rings) eqn:Ee.
  { eexists _, _, _. split; [done|]. destruct Hs as [[] ? ? ? ? ?]. shard_keep. }
  set (o := liq_to_order s liq now (uuid i)). assert (Ho : 0 <= or_symbol_id o) by done.
  destruct (process_order_gated q n o s Hs Ho) as (s1 & resp & s' & E1 & Hs1 & Ep & Hg).
  assert (Hk : own_key (or_user_id o) (order_key (or_order_id_hi o) (or_order_id_lo o)) (rs_frozen_orders s)).
  { intros f Hfz. cbn in Hfz. rewrite (Hf i) in Hfz by lia. done. }
  destruct (process_order_ok q n o s Hs Ho Hk) as (resp' & s'' & Ep' & Hs'). rewrite Ep' in Ep. injection Ep as -> ->. rewrite Ep'. cbn [mbind Res_bind].
  assert (Hfr : ids_fresh uuid (S i) s').
  { split; [|done]. intros j Hj. destruct (gated_frozen o s s1 resp s' E1 Hg) as [->|[f ->]]; [apply Hf; lia|].
    rewrite lookup_insert_ne; [apply Hf; lia|]. cbn. intros Ek. apply Hinj in Ek. lia. }
  unfold egress_full in Ee. apply orb_false_iff in Ee as [Em Er].
  destruct resp; [|by apply IH|by apply IH]. unfold ring_push at 1 2. rewrite Em, Er. cbn [expect mbind Res_bind]. by apply IH.
Qed.

Lemma send_losses_ok q n now losses : forall s rings, shard_ok q n s -> exists s' r', send_losses now losses s rings = Ok (s', r') /\ shard_ok q n s'.
Proof.
  induction losses as [|l losses IH]; intros s rings Hs; cbn [send_losses]; [by eexists _, _|].
  destruct (loss_ok q n l now s Hs) as (o & s1 & -> & Hs1 & _). cbn [mbind Res_bind]. destruct o; by apply IH.
Qed.

Lemma process_symbols now pf mf l o : liq_good l -> In o (snd (fst (maybe_process now pf mf l))) -> 0 <= lo_symbol_id o.
Proof.
  intros [_ Hf] Hin. rewrite (proj1 (process_orders now pf mf l)) in Hin. apply in_concat in Hin as (os & Hos & Hin).
  apply in_map_iff in Hos as (st & <- & Hst). rewrite List.Forall_forall in Hf.
  destruct (proj1 (step_outputs l now pf mf st) o Hin) as [[= _ ->] _]. by apply Hf.
Qed.

Lemma tick_ok q n uuid now s rings :
  shard_ok q n s -> Forall config_ok (default [] (rs_config_updates s)) -> ids_fresh uuid 0 s ->
  exists s' r', tick uuid now s rings = Ok (s', r') /\ shard_ok q n s'.
Proof.
  intros Hs Hc Hid. unfold tick. destruct (drain_config_ok q n s Hs Hc) as (s0 & -> & Hs0 & Hf0). cbn [mbind Res_bind].
  destruct (egress_full rings); [eexists _, _; split; [done|]; destruct Hs0 as [[] ? ? ? ? ?]; shard_keep|].
  set (s1 := set_backpressured false s0). assert (Hs1 : shard_ok q n s1) by (destruct Hs0 as [[] ? ? ? ? ?]; shard_keep).
  unfold drain_pending_cancels. destruct (drain_cancels_total (rs_frozen_orders s1) (rs_pending_cancels s1) (me_producer rings)) as (p & r & ->).
  cbn [mbind Res_bind]. destruct (refresh_fallback_ok q n _ (set_pending_ok q n p s1 Hs1)) as (s3 & E3 & Hs3). rewrite E3. cbn [mbind Res_bind].
  apply refresh_fallback_frame in E3 as (_ & _ & _ & Hf3 & _). set (now_ns := wrap_u64 _).
  pose proof (process_good now_ns (sweep_position s3) (sweep_mark s3) _ (sk_liq _ _ _ Hs3)) as Hl.
  pose proof (fun o => process_symbols now_ns (sweep_position s3) (sweep_mark s3) _ o (sk_liq _ _ _ Hs3)) as Ho.
  destruct (maybe_process _ _ _ _) as [[liq orders] losses]. cbn [fst snd] in Hl, Ho.
  pose proof (set_liquidation_ok q n liq s3 Hs3 Hl) as Hs4.
  destruct (send_liquidations_ok q n uuid now_ns orders 0 (set_liquidation liq s3) (mkRings (response_producer rings) r) Hs4) as (b & s5 & r5 & -> & Hs5).
  { destruct Hid as [Hid Hinj]. split; [|done]. intros j Hj. cbn. rewrite Hf3. cbn. rewrite Hf0. by apply Hid. }
  { by apply List.Forall_forall. }
  cbn [mbind Res_bind]. destruct b; cbn [negb]; [|by eexists _, _].
  destruct (send_losses_ok q n now_ns losses s5 r5 Hs5) as (s6 & r6 & -> & Hs6). cbn [mbind Res_bind].
  pose proof (set_liquidation_ok q n _ s6 Hs6 (remove_done_good _ (sk_liq _ _ _ Hs6))) as Hs7.
  destruct (drain_stashed_ok q n now_ns _ Hs7) as (s8 & -> & Hs8 & _). cbn [mbind Res_bind].
  destruct (maybe_settle_ok q n now s8 Hs8) as (s9 & -> & Hs9 & _). cbn [mbind Res_bind]. by eexists _, _.
Qed.

End Tick.

(** ** Rebuilding the indexes *)

Lemma index_insert_ok max F by_user e u sid p e' :
  index_ok max F by_user e -> F !! (u, sid) = None -> po_symbol_id p = sid -> po_user_id p = u -> 0 <= sid < max ->
  (if negb (Position_is_empty p) && (sid <? max) then add_user sid u e else Ok e) = Ok e' ->
  index_ok max (<[(u, sid) := p]> F) (index_add u sid by_user) e'.
Proof.
  intros Hix Hn Es Eu Hr He. replace (sid <? max) with true in He by lia. rewrite andb_true_r in He.
  pose proof (index_new_ok max F by_user e u sid Hix Hn Hr) as Hnew.
  rewrite <- (insert_insert_eq F (u, sid) p (Position_new u sid)). destruct (Position_is_empty p) eqn:Ee; cbn [negb] in He.
  - injection He as <-. destruct Hnew as [H1 H2 H3]. split.
    + intros v sy. rewrite <- H1, lookup_insert. case_decide as E; [injection E as <- <-; rewrite lookup_insert_eq; split; eauto | done].
    + intros v sy x. rewrite lookup_insert. case_decide as E; [injection E as <- <-; by intros [= <-] | apply H2].
    + intros sy users Hv. destruct (H3 _ _ Hv) as [Hd Hu]. split; [done|]. intros v. rewrite Hu, (lookup_insert _ (u, sid) (v, sy) p).
      case_decide as E; [injection E as <- <-; rewrite lookup_insert_eq | done].
      split; [by intros (? & [= <-] & ?) | intros (? & [= <-] & ?); congruence].
  - eapply index_update_ok; [exact Hnew | by rewrite lookup_insert_eq | done | done | by rewrite Ee].
Qed.

Lemma fold_index_ok max (l : list ((Z * Z) * Position)) : forall F by_user e,
  index_ok max F by_user e -> zlen e = max -> NoDup l.*1 -> (forall k, In k l.*1 -> F !! k = None) ->
  (forall u sid p, In ((u, sid), p) l -> po_symbol_id p = sid /\ po_user_id p = u /\ 0 <= sid < max) ->
  exists e', rfold (fun e '((user_id, symbol_id), p) =>
      if negb (Position_is_empty p) && (symbol_id <? max) then add_user symbol_id user_id e else Ok e) e l = Ok e' /\ zlen e' = max /\
    index_ok max (list_to_map l ∪ F) (fold_left (fun m '((user_id, symbol_id), _) => index_add user_id symbol_id m) l by_user) e'.
Proof.
  induction l as [|[[u sid] p] l IH]; intros F by_user e Hix He Hnd Hfr Hk.
  - exists e. cbn. split; [done|]. split; [done|]. by rewrite map_empty_union.
  - cbn in Hnd. apply NoDup_cons in Hnd as [Hni Hnd]. destruct (Hk u sid p (or_introl eq_refl)) as (Es & Eu & Hr). cbn [rfold fold_left].
    destruct (add_remove_total false sid u e) as (e1 & Ea & Hl1); [lia|].
    set (e2 := if negb (Position_is_empty p) && (sid <? max) then add_user sid u e else Ok e).
    assert (E2 : exists x, e2 = Ok x /\ zlen x = max) by (unfold e2; case_if; [exists e1; split; [done | congruence] | by exists e]).
    destruct E2 as (x & E2 & Hx). rewrite E2. cbn [mbind Res_bind]. unfold e2 in E2.
    assert (Hn : F !! (u, sid) = None) by (apply Hfr; by left).
    destruct (IH (<[(u, sid) := p]> F) (index_add u sid by_user) x) as (e' & E' & Hl' & Hix'); [by eapply index_insert_ok | done | done | | |].
    + intros k Hin. rewrite lookup_insert_ne; [apply Hfr; by right|]. intros <-. by apply Hni, list_elem_of_In.
    + intros v sy y Hin. apply Hk. by right.
    + exists e'. split; [done|]. split; [done|]. cbn [list_to_map foldr]. rewrite <- insert_union_l, insert_union_r; [done|].
      by apply not_elem_of_list_to_map_1.
Qed.

Lemma fold_frozen_ok (l : list (Z * Freeze)) : forall F m,
  frozen_ok F m -> NoDup l.*1 -> (forall k, In k l.*1 -> F !! k = None) ->
  frozen_ok (list_to_map l ∪ F) (fold_left (fun m '(order_id, f) => frozen_index_add (fz_user_id f) order_id (fz_amount f) m) l m).
Proof.
  induction l as [|[k f] l IH]; intros F m Hf Hnd Hfr; [cbn; by rewrite map_empty_union|].
  cbn in Hnd. apply NoDup_cons in Hnd as [Hni Hnd]. cbn [fold_left list_to_map foldr].
  rewrite <- insert_union_l, insert_union_r by (by apply not_elem_of_list_to_map_1). apply IH; [|done|].
  - destruct f as [u sym a]. cbn. apply frozen_insert_ok; [done|]. intros g Hg. rewrite Hfr in Hg; [done | by left].
  - intros k' Hin. rewrite lookup_insert_ne; [apply Hfr; by right|]. cbn. intros <-. by apply Hni, list_elem_of_In.
Qed.

(** ** Cold start *)

(** What the loader reads: rows keyed by their own user and symbol, within the
    shard's range and the budget. *)
Definition cold_ok (q n max : Z) (st : ColdStartState) : Prop :=
  map_Forall (fun k p => po_user_id p = k.1 /\ po_symbol_id p = k.2 /\ 0 <= k.2 < max /\ pos_ok p /\ pos_within q n p) (cs_positions st).

Lemma copy_prefix_len {A} (dst src : list A) : zlen (copy_prefix dst src) = zlen dst.
Proof. unfold zlen, copy_prefix. rewrite length_app, length_take, length_drop. lia. Qed.

Lemma index_empty_ok max : index_ok max ∅ ∅ (ExposureIndex_new max).
Proof.
  split.
  - intros u sid. rewrite !lookup_empty. cbn. rewrite elem_of_empty. split; [by intros [? ?] | done].
  - intros u sid p. by rewrite lookup_empty.
  - intros sid users Hv. unfold ExposureIndex_new in Hv. pose proof (vget_in _ _ _ Hv) as Hin. apply list_elem_of_In, elem_of_replicate in Hin as [-> _].
    split; [apply NoDup_nil; done|]. intros u. rewrite lookup_empty. split; [done | by intros (? & ? & _)].
Qed.

Section Start.
Context `{HashIter}.

Lemma iter_keys {K A} `{Countable K} (m : gmap K A) :
  NoDup (iter_map m).*1 /\ list_to_map (iter_map m) = m /\ forall k x, In (k, x) (iter_map m) <-> m !! k = Some x.
Proof.
  pose proof (iter_map_perm m) as Hp. assert (Hnd : NoDup (iter_map m).*1) by (rewrite Hp; apply NoDup_fst_map_to_list).
  split; [done|]. split; [|intros k x; by rewrite <- list_elem_of_In, Hp, elem_of_map_to_list].
  rewrite (list_to_map_proper (iter_map m) (map_to_list m)) by done. apply list_to_map_to_list.
Qed.

Lemma set_state_ok q n st s :
  shard_ok q n s -> cold_ok q n (rs_max_symbols s) st -> exists s', set_state st s = Ok s' /\ shard_ok q n s' /\
    rs_accounts s' = cs_accounts st /\ rs_positions s' = cs_positions st /\ rs_frozen_orders s' = cs_frozen_orders st /\
    rs_tips s' = copy_prefix (rs_tips s) (cs_tips st).
Proof.
  intros Hs Hc. unfold set_state. pose proof (sk_shape _ _ _ Hs) as Hsh. pose proof (sh_max _ Hsh) as Hmax.
  destruct (iter_keys (cs_positions st)) as (K1 & K2 & K3). destruct (iter_keys (cs_frozen_orders st)) as (L1 & L2 & _).
  destruct (fold_index_ok (rs_max_symbols s) (iter_map (cs_positions st)) ∅ ∅ (ExposureIndex_new (rs_max_symbols s))) as (e & Ee & Hle & Hix).
  - apply index_empty_ok.
  - unfold ExposureIndex_new. apply zlen_replicate. lia.
  - done.
  - intros. apply lookup_empty.
  - intros u sid p Hin. apply K3 in Hin. destruct (Hc _ _ Hin) as (A1 & A2 & A3 & _). done.
  - unfold rebuild_exposure. rewrite Ee. cbn [mbind Res_bind]. rewrite K2, map_union_empty in Hix. eexists. split; [done|]. split; [|done].
    destruct Hs as [[] Hb ? ? ? ?].
    split; [split; try assumption; cbn; rewrite ?copy_prefix_len; assumption | exact Hb | exact Hix | | | assumption].
    + cbn. rewrite <- L2 at 1. rewrite <- (map_union_empty (list_to_map (iter_map (cs_frozen_orders st)))). apply fold_frozen_ok; [|done|intros; apply lookup_empty].
      intros u k a. rewrite !lookup_empty. cbn. rewrite lookup_empty. split; [by intros (? & ?) | done].
    + intros k p Hp. cbn in Hp. destruct (Hc _ _ Hp) as (_ & _ & _ & h1 & h2). done.
Qed.

(** ** A new shard *)

Definition shard_config_ok (c : ShardConfig) : Prop :=
  0 < sc_shard_count c /\ 0 <= sc_max_symbols c <= U32_MAX /\ zlen (sc_symbol_params c) = sc_max_symbols c /\
  zlen (sc_taker_fee_bps c) = sc_max_symbols c /\ zlen (sc_maker_fee_bps c) = sc_max_symbols c /\ 0 <= sc_max_rounds c < U32_MAX.

Lemma new_shard_ok c : shard_config_ok c -> shard_ok 0 0 (RiskShard_new c).
Proof.
  intros (H1 & H2 & H3 & H4 & H5 & H6). split.
  - split; cbn; try done; try (apply zlen_replicate; lia). apply Forall_replicate. done.
  - intros sid mn mx. cbn. intros Hm Hx. apply vget_in, list_elem_of_In, elem_of_replicate in Hm as [-> _].
    apply vget_in, list_elem_of_In, elem_of_replicate in Hx as [-> _]. done.
  - apply index_empty_ok.
  - intros u k a. cbn. rewrite !lookup_empty. cbn. rewrite lookup_empty. split; [by intros (? & ?) | done].
  - apply map_Forall_empty.
  - split; [split; cbn; [apply NoDup_nil; done | constructor | done] | constructor].
Qed.

End Start.
