(* ===== verification/ShardClaims.v ===== *)
(** * ShardClaims: what a risk shard guarantees

    Safety of every sequence of operations, exactly-once application of the
    fill stream, conservation of positions and of money, the pre-trade gate and
    the cold start. *)

From stdpp Require Import sorting.
From S2P Require Import Prelude Hash Messages Types Position Margin Funding Liquidation ShardState Shard ShardInv.
From S2P Require Import ShardFill ShardTick.

(** ** Sequences of operations *)

Inductive ShardOp : Type :=
| OpFill (f : FillEvent)
| OpOrder (o : OrderRequest)
| OpRelease (user hi lo : Z)
| OpConfirm (user hi lo symbol : Z)
| OpReplayFreeze (user hi lo price qty symbol : Z)
| OpBbo (b : BboUpdate)
| OpMark (symbol price : Z)
| OpStash (b : BboUpdate)
| OpConfigApplied (symbol version : Z)
| OpTick (uuid : nat -> Z * Z) (now : Z).

Section Session.
Context `{HashIter}.

Definition run_op (op : ShardOp) (st : RiskShard * ShardRings) : Res (RiskShard * ShardRings) :=
  let '(s, r) := st in
  match op with
  | OpFill f => s' ← process_fill f s; Ok (s', r)
  | OpOrder o => '(_, s') ← process_order o s; Ok (s', r)
  | OpRelease u hi lo => s' ← release_frozen_for_order u hi lo s; Ok (s', r)
  | OpConfirm u hi lo sym => s' ← confirm_freeze u hi lo sym s; Ok (s', r)
  | OpReplayFreeze u hi lo px qty sym => s' ← replay_freeze_order u hi lo px qty sym s; Ok (s', r)
  | OpBbo b => s' ← process_bbo b s; Ok (s', r)
  | OpMark sym px => s' ← update_mark sym px s; Ok (s', r)
  | OpStash b => s' ← stash_bbo b s; Ok (s', r)
  | OpConfigApplied sym v => s' ← process_config_applied sym v s; Ok (s', r)
  | OpTick uuid now => tick uuid now s r
  end.

(** What the senders of the operations guarantee: fills are positive and their
    total leaves room in [i64], order ids are not reused across users, ids
    minted by a tick are new, and loaded configurations were checked. *)
Definition admissible (q n : Z) (op : ShardOp) (s : RiskShard) : Prop :=
  match op with
  | OpFill f => fill_ok f /\ fill_room q n f
  | OpOrder o => 0 <= or_symbol_id o /\ own_key (or_user_id o) (order_key (or_order_id_hi o) (or_order_id_lo o)) (rs_frozen_orders s)
  | OpReplayFreeze u hi lo _ _ _ => own_key u (order_key hi lo) (rs_frozen_orders s)
  | OpBbo b | OpStash b => 0 <= bu_symbol_id b
  | OpMark sym _ | OpConfigApplied sym _ => 0 <= sym
  | OpTick uuid _ => ids_fresh uuid 0 s /\ Forall config_ok (default [] (rs_config_updates s))
  | OpRelease _ _ _ | OpConfirm _ _ _ _ => True
  end.

Definition budget (op : ShardOp) (q n : Z) : Z * Z :=
  match op with OpFill f => (q + 2 * fe_qty f, n + 2 * (fe_price f * fe_qty f)) | _ => (q, n) end.

Fixpoint admissible_run (q n : Z) (ops : list ShardOp) (st : RiskShard * ShardRings) : Prop :=
  match ops with
  | [] => True
  | op :: tl => admissible q n op (fst st) /\
      forall st', run_op op st = Ok st' -> admissible_run (fst (budget op q n)) (snd (budget op q n)) tl st'
  end.

Lemma run_op_ok q n op s r :
  shard_ok q n s -> admissible q n op s ->
  exists s' r', run_op op (s, r) = Ok (s', r') /\ shard_ok (fst (budget op q n)) (snd (budget op q n)) s'.
Proof.
  intros Hs Ha. destruct op; cbn [run_op budget fst snd admissible] in *.
  - destruct Ha as [Hf Hr]. destruct (process_fill_ok q n f s Hs Hf Hr) as (s' & -> & Hs' & _). by eexists _, _.
  - destruct Ha as [H1 H2]. destruct (process_order_ok q n o s Hs H1 H2) as (resp & s' & -> & Hs'). by eexists _, _.
  - destruct (release_ok q n user hi lo s Hs) as (s' & -> & Hs'). by eexists _, _.
  - destruct (confirm_ok q n user hi lo symbol s Hs) as (s' & -> & Hs'). by eexists _, _.
  - destruct (replay_freeze_ok q n user hi lo price qty symbol s Hs Ha) as (s' & -> & Hs'). by eexists _, _.
  - destruct (process_bbo_ok q n b s Hs Ha) as (s' & -> & Hs'). by eexists _, _.
  - destruct (update_mark_ok q n symbol price s Hs Ha) as (s' & -> & Hs'). by eexists _, _.
  - destruct (stash_bbo_ok q n b s Hs Ha) as (s' & -> & Hs'). by eexists _, _.
  - destruct (config_applied_ok q n symbol version s Hs Ha) as (s' & -> & Hs'). by eexists _, _.
  - destruct Ha as [H1 H2]. destruct (tick_ok q n uuid now s r Hs H2 H1) as (s' & r' & -> & Hs'). by eexists _, _.
Qed.

(** C29: A risk shard never aborts and never loses track of itself.  From any
    well-formed shard, every admissible sequence of fills, orders, releases,
    confirmations, replays, price updates, configuration notices and ticks
    runs to the end without an out-of-range access, a failed expectation or a
    division by zero, and ends in a shard whose per-user and exposure indexes
    agree with its positions and open orders, whose positions are well formed,
    and whose liquidation engine has at most one live liquidation per
    position. *)
Theorem shard_session_safe ops : forall q n s r,
  shard_ok q n s -> admissible_run q n ops (s, r) ->
  exists s' r', rfold (fun st op => run_op op st) (s, r) ops = Ok (s', r') /\
    index_ok (rs_max_symbols s') (rs_positions s') (rs_positions_by_user s') (rs_exposure s') /\
    frozen_ok (rs_frozen_orders s') (rs_frozen_by_user s') /\ map_Forall (fun _ p => pos_ok p) (rs_positions s') /\
    NoDup (live_keys (le_active (rs_liquidation s'))).
Proof.
  induction ops as [|op ops IH]; intros q n s r Hs Ha.
  - exists s, r. cbn. destruct Hs as [? ? ? ? Hb [Hl _]]. split_and!; [done | done | done | | apply Hl].
    intros k p Hp. by apply (Hb k p Hp).
  - destruct Ha as [Ha Hrest]. cbn [rfold]. destruct (run_op_ok q n op s r Hs Ha) as (s1 & r1 & E & Hs1). rewrite E. cbn [mbind Res_bind].
    exact (IH _ _ s1 r1 Hs1 (Hrest _ E)).
Qed.

End Session.

(** ** Fills *)

Section Fills.
Context `{HashIter}.

(** C30: A fill is applied exactly as specified.  A fill at or below the
    symbol's tip changes nothing; a new one moves the taker's and the maker's
    positions by the fill, each if the shard owns the user, charges each his
    fee, advances the tip to the fill and leaves open orders and insurance
    funds alone.  Applying it never fails. *)
Theorem fill_exact q n f s tip tbps mbps :
  shard_ok q n s -> fill_ok f -> fill_room q n f ->
  vget (rs_tips s) (fe_symbol_id f) = Some tip -> vget (rs_taker_fee_bps s) (fe_symbol_id f) = Some tbps ->
  vget (rs_maker_fee_bps s) (fe_symbol_id f) = Some mbps ->
  exists s', process_fill f s = Ok s' /\
    if fe_seq f <=? tip then s' = s
    else (rs_positions s', rs_accounts s') = fill_maps s f tbps mbps (rs_positions s, rs_accounts s) /\
         rs_tips s' = vput (rs_tips s) (fe_symbol_id f) (fe_seq f) /\
         rs_frozen_orders s' = rs_frozen_orders s /\ rs_insurance_funds s' = rs_insurance_funds s.
Proof.
  intros Hs Hf Hr Ht Htb Hmb. destruct (process_fill_ok q n f s Hs Hf Hr) as (s' & E & _ & A & B). exists s'. split; [done|].
  pose proof (vget_some_range _ _ _ Ht) as Hrg. rewrite (sh_tips _ (sk_shape _ _ _ Hs)) in Hrg. rewrite Ht in A, B. cbn in A, B.
  destruct (fe_seq f <=? tip) eqn:Ed; bool_to_prop; [apply B; by right|].
  destruct (A Ed ltac:(lia)) as [(tb & mb & E1 & E2 & E3) ? ? ? _]. rewrite Htb in E1. rewrite Hmb in E2. injection E1 as ->. injection E2 as ->. done.
Qed.

(** A stream of fills, with room for all of them. *)
Fixpoint fills_room (q n : Z) (fs : list FillEvent) : Prop :=
  match fs with
  | [] => True
  | f :: tl => fill_ok f /\ fill_room q n f /\ fills_room (q + 2 * fe_qty f) (n + 2 * (fe_price f * fe_qty f)) tl
  end.

Definition tip_of (s : RiskShard) (sid : Z) : Z := default U64_MAX (vget (rs_tips s) sid).

Lemma process_fill_tips q n f s s' :
  shard_ok q n s -> fill_ok f -> fill_room q n f -> process_fill f s = Ok s' ->
  (forall sid, tip_of s sid <= tip_of s' sid) /\ zlen (rs_tips s') = zlen (rs_tips s) /\ (fe_symbol_id f < zlen (rs_tips s) -> fe_seq f <= tip_of s' (fe_symbol_id f)).
Proof.
  intros Hs Hf Hr E. destruct (process_fill_ok q n f s Hs Hf Hr) as (s'' & E' & _ & A & B). rewrite E in E'. injection E' as <-.
  destruct Hf as (Hsym & _). rewrite (sh_tips _ (sk_shape _ _ _ Hs)). fold (tip_of s (fe_symbol_id f)) in A, B.
  destruct (Z_le_gt_dec (rs_max_symbols s) (fe_symbol_id f)); [rewrite B by (left; lia); pose proof (sh_tips _ (sk_shape _ _ _ Hs)); split_and!; [done|done|lia]|].
  destruct (Z_le_gt_dec (fe_seq f) (tip_of s (fe_symbol_id f))); [rewrite B by (right; lia); pose proof (sh_tips _ (sk_shape _ _ _ Hs)); split_and!; [done|done|lia]|].
  destruct (A ltac:(lia) ltac:(lia)) as [_ Et _ _ _]. unfold tip_of in *. rewrite Et, zlen_vput, (sh_tips _ (sk_shape _ _ _ Hs)).
  assert (Hv : vget (vput (rs_tips s) (fe_symbol_id f) (fe_seq f)) (fe_symbol_id f) = Some (fe_seq f))
    by (apply vget_vput_eq; rewrite (sh_tips _ (sk_shape _ _ _ Hs)); lia).
  split_and!; [|done|rewrite Hv; cbn; lia]. intros sid. destruct (decide (sid = fe_symbol_id f)) as [->|Hne]; [rewrite Hv; cbn; lia|].
  by rewrite vget_vput_ne.
Qed.

Lemma run_fills_tips fs : forall q n s s',
  shard_ok q n s -> fills_room q n fs -> rfold (fun s f => process_fill f s) s fs = Ok s' ->
  (exists q' n', shard_ok q' n' s') /\ (forall sid, tip_of s sid <= tip_of s' sid) /\ zlen (rs_tips s') = zlen (rs_tips s) /\
  (forall f, In f fs -> fe_symbol_id f < zlen (rs_tips s) -> fe_seq f <= tip_of s' (fe_symbol_id f)).
Proof.
  induction fs as [|f fs IH]; intros q n s s' Hs Hr E.
  - injection E as ->. split_and!; [by exists q, n | done | done | done].
  - destruct Hr as (Hf & Hr & Hrest). cbn [rfold] in E. res_inv. destruct (process_fill_ok q n f s Hs Hf Hr) as (s1 & E1 & Hs1 & _).
    rewrite E0 in E1. injection E1 as <-. destruct (process_fill_tips q n f s x Hs Hf Hr E0) as (M & L & T).
    destruct (IH _ _ x s' Hs1 Hrest E) as (I1 & I2 & I3 & I4). split_and!; [done | intros; specialize (M sid); specialize (I2 sid); lia | congruence |].
    intros g [<-|Hg] Hsym; [specialize (T Hsym); specialize (I2 (fe_symbol_id f)); lia | apply I4; [done | by rewrite L]].
Qed.

Lemma run_fills_total fs : forall q n s, shard_ok q n s -> fills_room q n fs -> exists s', rfold (fun s f => process_fill f s) s fs = Ok s'.
Proof.
  induction fs as [|f fs IH]; intros q n s Hs Hr; [by eexists|]. destruct Hr as (Hf & Hr & Hrest). cbn [rfold].
  destruct (process_fill_ok q n f s Hs Hf Hr) as (s1 & -> & Hs1 & _). cbn [mbind Res_bind]. by eapply IH.
Qed.

(** A fill already covered by the tips is skipped. *)
Lemma process_fill_skip f s :
  (fe_symbol_id f < zlen (rs_tips s) -> fe_seq f <= tip_of s (fe_symbol_id f)) -> 0 <= fe_symbol_id f -> process_fill f s = Ok s.
Proof.
  intros Hc Hs. unfold process_fill. destruct (_ >=? _) eqn:Er; [done|]. destruct (vget_is_some (rs_tips s) (fe_symbol_id f)) as [t Ht]; [lia|].
  rewrite (vindex_some _ _ _ Ht). cbn [mbind Res_bind]. specialize (Hc ltac:(lia)). unfold tip_of in Hc. rewrite Ht in Hc. cbn in Hc.
  by replace (fe_seq f <=? t) with true by lia.
Qed.

(** C31: The fill stream is applied exactly once.  After any stream of fills has
    been processed, processing the same stream again, as a replay after a
    reconnect or a crash does, or any part of it in any order, leaves the
    shard as it is, and tips never move back. *)
Theorem fills_exactly_once q n fs gs s :
  shard_ok q n s -> fills_room q n fs -> (forall g, In g gs -> In g fs) ->
  exists s', rfold (fun s f => process_fill f s) s fs = Ok s' /\ rfold (fun s f => process_fill f s) s' gs = Ok s' /\
    forall sid, tip_of s sid <= tip_of s' sid.
Proof.
  intros Hs Hr Hin. destruct (run_fills_total fs q n s Hs Hr) as [s' E]. exists s'. split; [done|].
  destruct (run_fills_tips fs q n s s' Hs Hr E) as (_ & M & L & T). split; [|done].
  assert (Hpos : forall f, In f fs -> 0 <= fe_symbol_id f).
  { clear -Hr. revert q n Hr. induction fs as [|f fs IH]; intros q n Hr; [done|]. destruct Hr as ((Hf & _) & _ & Hr). intros g [<-|Hg]; [done | eauto]. }
  induction gs as [|g gs IH]; [done|]. cbn [rfold]. rewrite process_fill_skip; [|intros; apply T; [apply Hin; by left | congruence] | apply Hpos, Hin; by left].
  cbn [mbind Res_bind]. apply IH. intros x Hx. apply Hin. by right.
Qed.

End Fills.

(** ** Conservation *)

(** Open interest of a symbol, net, and the money of the shard's users. *)
Definition symbol_net (sid : Z) (ps : gmap (Z * Z) Position) : Z := msum (fun k p => if k.2 =? sid then spec_net p else 0) ps.
Definition total_collateral (acs : gmap Z Account) : Z := msum (fun _ a => ac_collateral a) acs.

(** Balances stay clear of the ends of [i64]. *)
Definition balances_fit (c : Z) (acs : gmap Z Account) : Prop := map_Forall (fun _ a => Z.abs (ac_collateral a) <= c) acs.

Lemma deduct_exact fee a c : Z.abs (ac_collateral a) <= c -> c + Z.abs fee <= I64_MAX -> ac_collateral (deduct_fee fee a) = ac_collateral a - fee.
Proof. intros Ha Hb. cbn. apply sat_i64_id. width_lia. Qed.

Lemma side_maps_net b u side fee f ps acs q n :
  book_ok q n ps -> 0 <= q -> 0 <= n -> 0 < fe_qty f -> 0 < fe_price f -> q + fe_qty f <= I64_MAX -> 3 * (n + fe_price f * fe_qty f) <= I64_MAX ->
  let ps' := fst (side_maps b u side fee f (ps, acs)) in
  book_ok (q + fe_qty f) (n + fe_price f * fe_qty f) ps' /\
  forall sid, symbol_net sid ps' = symbol_net sid ps + (if b && (fe_symbol_id f =? sid) then signed side (fe_qty f) else 0).
Proof.
  intros Hb Hq Hn Hqty Hpx HQ HN. assert (0 < fe_price f * fe_qty f) by nia. unfold side_maps. destruct b; cbn [fst andb].
  - set (p := default _ _). assert (Hp : pos_ok p /\ pos_within q n p).
    { unfold p. destruct (ps !! _) as [x|] eqn:E; cbn; [exact (Hb _ _ E)|]. destruct (Position_new_ok u (fe_symbol_id f)) as [? Hw]. split; [done|].
      unfold pos_within in *. lia. }
    destruct Hp as [Hok Hw]. destruct (fill_step q n side (fe_price f) (fe_qty f) (fe_seq f) p Hok Hw Hqty Hpx HQ HN) as (A1 & A2 & A3 & _).
    split; [apply map_Forall_insert_2; [done|]; apply (book_mono q n); [lia | lia | done]|].
    intros sid. unfold symbol_net. rewrite msum_insert. cbn [snd]. unfold spec_net in *.
    assert (Ho : from_option (fun p => if fe_symbol_id f =? sid then po_long_qty p - po_short_qty p else 0) 0 (ps !! (u, fe_symbol_id f)) =
      (if fe_symbol_id f =? sid then po_long_qty p - po_short_qty p else 0)) by (unfold p; destruct (ps !! _); cbn; [done | by case_if]).
    rewrite Ho. case_if; lia.
  - split; [apply (book_mono q n); [lia | lia | done] | intros; lia].
Qed.

Lemma side_maps_money b u side fee f ps acs c :
  balances_fit c acs -> 0 <= c -> c + Z.abs fee <= I64_MAX ->
  let acs' := snd (side_maps b u side fee f (ps, acs)) in
  balances_fit (c + Z.abs fee) acs' /\ total_collateral acs' = total_collateral acs - (if b then fee else 0).
Proof.
  intros Hb Hc HF. unfold side_maps. destruct b; cbn [snd].
  - set (a := default _ _). assert (Ha : Z.abs (ac_collateral a) <= c) by (unfold a; destruct (acs !! u) eqn:E; cbn; [exact (Hb _ _ E) | lia]).
    split; [apply map_Forall_insert_2; [rewrite (deduct_exact fee a c Ha HF); lia | intros k x Hx; specialize (Hb k x Hx); cbn in *; lia]|].
    unfold total_collateral. rewrite msum_insert, (deduct_exact fee a c Ha HF).
    assert (Ho : from_option (fun a => ac_collateral a) 0 (acs !! u) = ac_collateral a) by (unfold a; by destruct (acs !! u)). rewrite Ho. lia.
  - split; [intros k x Hx; specialize (Hb k x Hx); cbn in *; lia | lia].
Qed.

Lemma signed_other side q : signed (other_side side) q = - signed side q.
Proof. unfold signed, other_side. by destruct (side =? 0); cbn; lia. Qed.

Section Conservation.
Context `{HashIter}.

(** Fills conserve positions and money.  A new fill changes the shard's net
    open interest in its symbol by the taker's signed quantity and by its
    opposite for the maker, counting only the sides the shard owns, so a fill
    between two of its users leaves it unchanged; no other symbol moves, and
    the users' collateral together falls by exactly the fees they are
    charged. *)
Theorem fill_conserves q n f s s' tip tbps mbps c :
  shard_ok q n s -> fill_ok f -> fill_room q n f ->
  vget (rs_tips s) (fe_symbol_id f) = Some tip -> tip < fe_seq f ->
  vget (rs_taker_fee_bps s) (fe_symbol_id f) = Some tbps -> vget (rs_maker_fee_bps s) (fe_symbol_id f) = Some mbps ->
  let tf := calculate_fee (fe_qty f) (fe_price f) tbps in
  let mf := calculate_fee (fe_qty f) (fe_price f) mbps in
  balances_fit c (rs_accounts s) -> 0 <= c -> c + Z.abs tf + Z.abs mf <= I64_MAX ->
  process_fill f s = Ok s' ->
  let d := signed (fe_taker_side f) (fe_qty f) in
  let t := mine s (fe_taker_user_id f) in
  let m := mine s (fe_maker_user_id f) in
  symbol_net (fe_symbol_id f) (rs_positions s') = symbol_net (fe_symbol_id f) (rs_positions s) + (if t then d else 0) - (if m then d else 0) /\
  (forall sid, sid <> fe_symbol_id f -> symbol_net sid (rs_positions s') = symbol_net sid (rs_positions s)) /\
  total_collateral (rs_accounts s') = total_collateral (rs_accounts s) - (if t then tf else 0) - (if m then mf else 0).
Proof.
  intros Hs Hf Hr Ht Htip Htb Hmb tf mf Hbal Hc HF E d t m. pose proof (vget_some_range _ _ _ Ht) as Hrg. rewrite (sh_tips _ (sk_shape _ _ _ Hs)) in Hrg.
  destruct (process_fill_ok q n f s Hs Hf Hr) as (s'' & E' & _ & A & _). rewrite E in E'. injection E' as <-. rewrite Ht in A. cbn in A.
  destruct (A Htip ltac:(lia)) as [(tb & mb & E1 & E2 & E3) _ _ _ _]. rewrite Htb in E1. rewrite Hmb in E2. injection E1 as <-. injection E2 as <-.
  destruct Hf as (_ & Hqty & Hpx). destruct Hr as (Hq & Hn & HQ & HN). assert (0 < fe_price f * fe_qty f) by nia.
  unfold fill_maps in E3. fold tf mf t m in E3.
  destruct (side_maps_net t (fe_taker_user_id f) (fe_taker_side f) tf f (rs_positions s) (rs_accounts s) q n (sk_book _ _ _ Hs)) as [B1 N1]; try lia.
  destruct (side_maps_money t (fe_taker_user_id f) (fe_taker_side f) tf f (rs_positions s) (rs_accounts s) c Hbal Hc ltac:(lia)) as [B2 M1].
  destruct (side_maps t _ _ tf f _) as [ps1 acs1]. cbn [fst snd] in B1, N1, B2, M1.
  destruct (side_maps_net m (fe_maker_user_id f) (other_side (fe_taker_side f)) mf f ps1 acs1 _ _ B1) as [_ N2]; try lia.
  destruct (side_maps_money m (fe_maker_user_id f) (other_side (fe_taker_side f)) mf f ps1 acs1 _ B2 ltac:(lia) ltac:(lia)) as [_ M2].
  destruct (side_maps m _ _ mf f _) as [ps2 acs2]. cbn [fst snd] in N2, M2. injection E3 as -> ->. rewrite signed_other in N2.
  split_and!; [|intros sid Hsid|]; [rewrite N2, N1, Z.eqb_refl, !andb_true_r; destruct t, m; unfold d; lia | | lia].
  rewrite N2, N1. replace (fe_symbol_id f =? sid) with false by lia. rewrite !andb_false_r. lia.
Qed.

(** The margin reserved for a user is the sum over his open orders.  The
    per-user index that the pre-trade check reads yields exactly the sum of
    the amounts of the open orders whose owner he is, whatever the order of
    iteration. *)
Theorem frozen_is_sum q n s u :
  shard_ok q n s -> map_Forall (fun _ f => 0 <= fz_amount f) (rs_frozen_orders s) -> spec_frozen (rs_frozen_orders s) u <= I64_MAX ->
  frozen_for_user s u = msum (fun _ f => if fz_user_id f =? u then fz_amount f else 0) (rs_frozen_orders s).
Proof.
  intros Hs Hp Hb. rewrite (frozen_for_user_exact q n s u Hs (conj Hp Hb)). unfold spec_frozen, frozen_of. clear.
  induction (rs_frozen_orders s) as [|k f m Hk IH] using map_ind; [done|]. rewrite msum_insert_new by done.
  destruct (fz_user_id f =? u) eqn:E; bool_to_prop.
  - rewrite map_filter_insert_True by done. rewrite fmap_insert, zsum_map_insert; [lia|].
    rewrite lookup_fmap. apply fmap_None, map_lookup_filter_None. by left.
  - rewrite map_filter_insert_False by done. rewrite delete_id by done. lia.
Qed.

End Conservation.

(** ** The pre-trade gate *)

Section Gate.
Context `{HashIter}.

(** C32: The gate keeps every user solvent.  When the shard accepts an order that
    opens exposure, the margin it reserves is not negative, the user's
    reserved margin grows by exactly that, and the margin calculation with the
    new reservation, the one the next order will be checked against, still
    shows non-negative available margin and equity at or above maintenance. *)
Theorem order_keeps_solvent q n o s s' amount fee acct :
  shard_ok q n s -> q <= I64_MAX -> n <= I64_MAX -> 0 <= or_symbol_id o ->
  or_is_liquidation o = false -> or_reduce_only o = false ->
  rs_frozen_orders s !! order_key (or_order_id_hi o) (or_order_id_lo o) = None ->
  process_order o s = Ok (Accepted (or_user_id o) amount (or_order_id_hi o) (or_order_id_lo o), s') ->
  rs_accounts s' !! or_user_id o = Some acct ->
  rates_ok (rs_margin s') -> marks_ok (rs_fallback_mark_prices s') ->
  vget (rs_taker_fee_bps s') (or_symbol_id o) = Some fee -> 0 <= fee <= 10000 -> 2 * (or_price o * or_qty o) <= I64_MAX ->
  map_Forall (fun _ f => 0 <= fz_amount f) (rs_frozen_orders s) -> spec_frozen (rs_frozen_orders s') (or_user_id o) <= I64_MAX ->
  sums_fit (rs_margin s') (rs_fallback_mark_prices s') (ac_collateral acct) (spec_frozen (rs_frozen_orders s') (or_user_id o))
    (iter_positions_for_user s' (or_user_id o)) ->
  0 <= amount /\ frozen_for_user s' (or_user_id o) = frozen_for_user s (or_user_id o) + amount /\
  exists st, calculate (rs_margin s') acct (iter_positions_for_user s' (or_user_id o)) (rs_fallback_mark_prices s')
    (frozen_for_user s' (or_user_id o)) = Ok st /\ 0 <= ms_available_margin st /\ ms_maintenance_margin st <= ms_equity st.
Proof.
  intros Hs Hq Hn Hsym Hl Hro Hnew E Hacct Hrt Hmk Hfee Hfb Hpq Hpos Hfit Hsums.
  destruct (process_order_gated q n o s Hs Hsym) as (s1 & resp & s'' & E1 & Hs1 & E' & Hg). rewrite E in E'. injection E' as <- <-.
  destruct (process_order_ok q n o s Hs Hsym) as (? & ? & E' & Hs'); [intros f Hf; congruence|]. rewrite E in E'. injection E' as <- <-.
  apply refresh_fallback_frame in E1 as (_ & _ & _ & Hf1 & _).
  assert (Hf0 : rs_frozen_orders s1 = rs_frozen_orders s) by (rewrite Hf1; unfold ensure_account; by case_match).
  inversion Hg as [| |acct' fee' amount' Hpx Hqty Ha Hfe Hck (st & Est & Hmm)]; subst amount'.
  subst s'. cbn in Hacct, Hrt, Hmk, Hfee, Hfit, Hsums |- *. rewrite Ha in Hacct. injection Hacct as ->. rewrite Hfe in Hfee. injection Hfee as ->.
  destruct (check_order_accepted _ _ _ _ _ _ _ _ Hck Hl Hro) as (params & st1 & Hpar & Est1 & Ham & Hav). rewrite Est in Est1. injection Est1 as <-.
  destruct (params_rates _ _ _ Hrt Hpar) as [Him _]. destruct (reserve_exact params (or_price o) (or_qty o) fee Him Hpx Hqty Hfb Hpq) as [Er [Hr0 _]].
  rewrite <- Ham in Er. set (s2 := set_orders_processed _ _) in *.
  assert (Hsf : spec_frozen (rs_frozen_orders s2) (or_user_id o) = amount + spec_frozen (rs_frozen_orders s) (or_user_id o))
    by (cbn; rewrite Hf0; by apply spec_frozen_insert).
  assert (Hf' : map_Forall (fun _ f => 0 <= fz_amount f) (rs_frozen_orders s2)) by (cbn; rewrite Hf0; apply map_Forall_insert_2; [cbn; lia | done]).
  assert (Hz : 0 <= spec_frozen (rs_frozen_orders s) (or_user_id o)).
  { apply zsum_nonneg. intros [k x] Hin%list_elem_of_In. apply elem_of_map_to_list, frozen_of_lookup in Hin as [sym Hin]. exact (Hpos _ _ Hin). }
  assert (F1 : frozen_for_user s1 (or_user_id o) = spec_frozen (rs_frozen_orders s) (or_user_id o)).
  { rewrite <- Hf0. apply (frozen_for_user_exact q n); [done|]. rewrite Hf0. split; [done | cbn in Hsf, Hfit; lia]. }
  assert (F2 : frozen_for_user s2 (or_user_id o) = spec_frozen (rs_frozen_orders s2) (or_user_id o)) by (by apply (frozen_for_user_exact q n)).
  assert (F3 : frozen_for_user s (or_user_id o) = spec_frozen (rs_frozen_orders s) (or_user_id o))
    by (apply (frozen_for_user_exact q n); [done|]; split; [done | cbn in Hsf, Hfit; lia]).
  split; [lia|]. split; [rewrite F2, Hsf, F3; lia|].
  pose proof (positions_fit q n s1 (or_user_id o) Hs1 Hq Hn) as Hpf. change (iter_positions_for_user s2 (or_user_id o)) with (iter_positions_for_user s1 (or_user_id o)) in *.
  rewrite (calculate_exact (rs_margin s1) (rs_fallback_mark_prices s1) acct _ _ Hrt Hmk Hpf) in Est by (unfold sums_fit in *; rewrite F1; cbn in Hsf; lia).
  eexists. split; [apply calculate_exact; try done; by rewrite F2|]. injection Est as <-. cbn in Hav, Hmm |- *. rewrite F1 in Hav. rewrite F2, Hsf. split; [lia | auto].
Qed.

(** Releasing undoes freezing.  An accepted order that is done or failed
    gives its reservation back: the open orders are those before it, and every
    user's reserved margin is what it was. *)
Theorem release_restores q n o s s' amount :
  shard_ok q n s -> 0 <= or_symbol_id o ->
  rs_frozen_orders s !! order_key (or_order_id_hi o) (or_order_id_lo o) = None ->
  process_order o s = Ok (Accepted (or_user_id o) amount (or_order_id_hi o) (or_order_id_lo o), s') ->
  exists s'', release_frozen_for_order (or_user_id o) (or_order_id_hi o) (or_order_id_lo o) s' = Ok s'' /\
    rs_frozen_orders s'' = rs_frozen_orders s /\ forall v, frozen_for_user s'' v = frozen_for_user s v.
Proof.
  intros Hs Hsym Hnew E. destruct (process_order_gated q n o s Hs Hsym) as (s1 & resp & s'' & E1 & Hs1 & E' & Hg). rewrite E in E'. injection E' as <- <-.
  destruct (process_order_ok q n o s Hs Hsym) as (? & ? & E' & Hs'); [intros f Hf; congruence|]. rewrite E in E'. injection E' as <- <-.
  assert (Hmine : user_in_shard s (or_user_id o) = Ok true).
  { unfold process_order in E. destruct (user_in_shard s (or_user_id o)) as [[]| |]; [done | discriminate E | discriminate E | discriminate E]. }
  apply refresh_fallback_frame in E1 as (_ & _ & _ & Hf1 & _ & _ & _ & _ & _ & _ & Hc1 & Hi1 & _).
  assert (Hf0 : rs_frozen_orders s1 = rs_frozen_orders s /\ rs_shard_count s1 = rs_shard_count s /\ rs_shard_id s1 = rs_shard_id s)
    by (rewrite Hf1, Hc1, Hi1; unfold ensure_account; by case_match). destruct Hf0 as (Hf0 & Hc0 & Hi0).
  inversion Hg as [| |acct' fee' amount' Hpx Hqty Ha Hfe Hck _]; subst amount'. set (s2 := set_orders_processed _ _) in *.
  assert (Hm2 : user_in_shard s' (or_user_id o) = Ok true) by (subst s'; unfold user_in_shard in *; cbn; by rewrite Hc0, Hi0).
  match goal with H : s2 = s' |- _ => rename H into Es end. rewrite Es.
  destruct (release_ok q n (or_user_id o) (or_order_id_hi o) (or_order_id_lo o) s' Hs') as (s3 & E3 & Hs3). exists s3. split; [done|].
  assert (Hfr : rs_frozen_orders s3 = rs_frozen_orders s).
  { unfold release_frozen_for_order in E3. rewrite Hm2 in E3. cbn [mbind Res_bind negb] in E3. subst s'. unfold s2 in E3.
    cbn [set_orders_processed freeze set_frozen_by_user set_frozen_orders rs_frozen_orders] in E3. rewrite lookup_insert_eq in E3. cbn [fz_user_id] in E3.
    rewrite Z.eqb_refl in E3. cbn [negb] in E3. injection E3 as <-. rewrite (proj2 (push_persist_static _ _)). cbn.
    rewrite delete_insert_id by (by rewrite Hf0). done. }
  split; [done|]. intros v. by rewrite (frozen_for_user_of q n s3 v Hs3), (frozen_for_user_of q n s v Hs), Hfr.
Qed.

End Gate.
