(* ===== verification/ShardMoney.v ===== *)
(** * ShardMoney: insurance draws and funding settlement of a shard

    What [process_socialized_loss] and [try_settle_interval] do to the money
    the shard holds: an insurance draw moves a deficit and creates nothing,
    and a funding settlement charges the shard's users together exactly the
    floored funding of its net open interest, once per interval. *)

From stdpp Require Import sorting.
From S2P Require Import Prelude Hash Messages Types Position Margin Funding Liquidation ShardState Shard ShardInv.
From S2P Require Import ShardFill ShardTick ShardClaims.

(** ** Sums over the keys of a map *)

Lemma msum_zero {K A} `{Countable K} (f : K -> A -> Z) (m : gmap K A) : (forall k x, m !! k = Some x -> f k x = 0) -> msum f m = 0.
Proof.
  intros Hz. unfold msum. rewrite (zsum_ext _ (fun _ => 0)); [by induction (map_to_list m)|].
  intros [k x] Hin%list_elem_of_In. apply elem_of_map_to_list in Hin. by apply Hz.
Qed.

Lemma msum_keys {K A} `{Countable K} (f : K -> A -> Z) (ks : list K) : forall m : gmap K A,
  NoDup ks -> (forall k, In k ks -> is_Some (m !! k)) -> (forall k x, m !! k = Some x -> f k x <> 0 -> In k ks) ->
  msum f m = zsum (fun k => from_option (f k) 0 (m !! k)) ks.
Proof.
  induction ks as [|k ks IH]; intros m Hnd Hin Hz.
  - apply msum_zero. intros k x Hk. destruct (decide (f k x = 0)); [done|]. by destruct (Hz k x Hk).
  - apply NoDup_cons in Hnd as [Hk Hnd]. destruct (Hin k (or_introl eq_refl)) as [x Hx]. rewrite zsum_cons, Hx. cbn.
    rewrite <- (insert_delete_id m k x Hx) at 1. rewrite msum_insert_new by apply lookup_delete_eq.
    assert (Hne : forall k', In k' ks -> k' <> k) by (intros k' Hk' ->; by apply Hk, list_elem_of_In).
    rewrite (IH (delete k m) Hnd).
    + rewrite (zsum_ext _ (fun k => from_option (f k) 0 (m !! k))); [lia|]. intros k' Hk'. rewrite lookup_delete_ne; [done|]. by apply not_eq_sym, Hne.
    + intros k' Hk'. rewrite lookup_delete_ne by (by apply not_eq_sym, Hne). apply Hin. by right.
    + intros k' y Hy Hf. apply lookup_delete_Some in Hy as [Hkk Hy]. destruct (Hz k' y Hy Hf) as [->|]; [done | done].
Qed.

(** ** Insurance draws *)

Definition total_funds (fs : gmap Z InsuranceFund) : Z := msum (fun _ f => if_balance f) fs.

Section Money.
Context `{HashIter}.

Lemma push_persist_money e s :
  rs_accounts (push_persist e s) = rs_accounts s /\ rs_insurance_funds (push_persist e s) = rs_insurance_funds s /\
  rs_positions (push_persist e s) = rs_positions s /\ rs_margin (push_persist e s) = rs_margin s /\
  rs_fallback_mark_prices (push_persist e s) = rs_fallback_mark_prices s /\
  iter_positions_for_user (push_persist e s) = iter_positions_for_user s.
Proof. unfold push_persist. by case_match. Qed.

(** An insurance draw creates no money.  A loss of an account at or above
    zero equity changes nothing; otherwise the account's deficit moves from the
    symbol's insurance fund to its collateral, so that collateral and funds
    together are what they were, no other account or fund changes, and the
    account's equity, recomputed, is exactly zero. *)
Theorem loss_moves_deficit q n l now s a c :
  shard_ok q n s -> q <= I64_MAX -> n <= I64_MAX -> rs_accounts s !! sl_user_id l = Some a ->
  rates_ok (rs_margin s) -> marks_ok (rs_fallback_mark_prices s) ->
  let frozen := frozen_for_user s (sl_user_id l) in
  let ps := iter_positions_for_user s (sl_user_id l) in
  2 * Z.abs (ac_collateral a) + Z.abs frozen + 2 * zsum (fun p => Z.abs (spec_upnl (rs_margin s) (rs_fallback_mark_prices s) p)) ps +
    zsum (spec_ntl (rs_margin s) (rs_fallback_mark_prices s)) ps + c <= I64_MAX ->
  0 <= c -> map_Forall (fun _ f => Z.abs (if_balance f) <= c) (rs_insurance_funds s) ->
  let equity := ac_collateral a + zsum (spec_upnl (rs_margin s) (rs_fallback_mark_prices s)) ps in
  exists o s', process_socialized_loss l now s = Ok (o, s') /\
    (0 <= equity -> s' = s /\ o = None) /\
    (equity < 0 -> o <> None /\
      total_collateral (rs_accounts s') + total_funds (rs_insurance_funds s') = total_collateral (rs_accounts s) + total_funds (rs_insurance_funds s) /\
      (forall u, u <> sl_user_id l -> rs_accounts s' !! u = rs_accounts s !! u) /\
      exists a' st', rs_accounts s' !! sl_user_id l = Some a' /\ ac_collateral a' = ac_collateral a - equity /\
        calculate (rs_margin s') a' (iter_positions_for_user s' (sl_user_id l)) (rs_fallback_mark_prices s') frozen = Ok st' /\ ms_equity st' = 0).
Proof.
  intros Hs Hq Hn Ha Hr Hm frozen ps HF Hc Hfund equity. unfold process_socialized_loss. rewrite Ha. fold frozen ps.
  pose proof (positions_fit q n s (sl_user_id l) Hs Hq Hn) as Hpf. fold ps in Hpf.
  pose proof (spec_sums (rs_margin s) (rs_fallback_mark_prices s) ps Hr Hm) as (S1 & _). pose proof (spec_ntl_sum_nonneg (rs_margin s) _ ps Hr Hm).
  rewrite (calculate_exact _ _ a ps frozen Hr Hm Hpf) by (unfold sums_fit; lia). cbn [mbind Res_bind spec_state ms_equity ma_upnl spec_acc]. fold equity.
  destruct (equity >=? 0) eqn:Ee; [exists None, s; split; [done|]; split; [done | lia]|].
  set (fund0 := default _ _). assert (Hf0 : Z.abs (if_balance fund0) <= c) by (unfold fund0; destruct (rs_insurance_funds s !! _) eqn:E; cbn; [exact (Hfund _ _ E) | lia]).
  rewrite (sat_i64_id (- equity)) by width_lia. eexists _, _. split; [done|]. split; [lia|]. intros Hneg. split; [done|].
  set (a' := credit (- equity) a). assert (Ha' : ac_collateral a' = ac_collateral a - equity) by (cbn; rewrite sat_i64_id by width_lia; lia).
  match goal with |- context [rs_accounts ?x] => set (s' := x) end.
  assert (Es : rs_accounts s' = <[sl_user_id l := a']> (rs_accounts s) /\
    rs_insurance_funds s' = <[sl_symbol_id l := fund_deduct (- equity) fund0]> (rs_insurance_funds s) /\
    rs_margin s' = rs_margin s /\ rs_fallback_mark_prices s' = rs_fallback_mark_prices s /\ iter_positions_for_user s' = iter_positions_for_user s).
  { unfold s', push_persist. by repeat case_match. }
  destruct Es as (-> & -> & -> & -> & ->). split; [|split].
  - unfold total_collateral, total_funds. rewrite !msum_insert, Ha. cbn [from_option]. rewrite Ha'.
    assert (from_option (fun f => if_balance f) 0 (rs_insurance_funds s !! sl_symbol_id l) = if_balance fund0) as -> by (unfold fund0; by destruct (rs_insurance_funds s !! sl_symbol_id l)).
    cbn [fund_deduct if_balance]. rewrite sat_i64_id by width_lia. lia.
  - intros u Hu. by rewrite lookup_insert_ne.
  - exists a'. eexists. split; [by rewrite lookup_insert_eq|]. split; [done|]. split; [apply calculate_exact; try done; unfold sums_fit; rewrite Ha'; unfold equity; fold ps; lia|].
    cbn [spec_state ms_equity ma_upnl spec_acc]. rewrite Ha'. fold ps. unfold equity. lia.
Qed.

(** ** Funding *)

Lemma omap_zsum (g : Z -> option Position) (users : list Z) :
  (forall u, In u users -> is_Some (g u)) ->
  zsum snd (omap (fun u => (fun p => (u, Position_net_qty p)) <$> g u) users) = zsum (fun u => from_option Position_net_qty 0 (g u)) users.
Proof.
  set (h := fun u => (fun p => (u, Position_net_qty p)) <$> g u). induction users as [|u users IH]; intros Hg; [done|].
  change (omap h (u :: users)) with (match h u with Some y => y :: omap h users | None => omap h users end).
  destruct (Hg u (or_introl eq_refl)) as [p Hp]. assert (h u = Some (u, Position_net_qty p)) as -> by (unfold h; by rewrite Hp).
  rewrite !zsum_cons, Hp, IH; [done|]. intros; apply Hg; by right.
Qed.

(** The exposed users carry the whole net open interest of the symbol. *)
Lemma exposed_net q n s sid users :
  shard_ok q n s -> q <= I64_MAX -> n <= I64_MAX -> vget (rs_exposure s) sid = Some users ->
  zsum id (List.map snd (exposed_users s sid users)) = symbol_net sid (rs_positions s).
Proof.
  intros Hs Hq Hn Hv. destruct (ix_exposed _ _ _ _ (sk_index _ _ _ Hs) _ _ Hv) as [Hnd Hin].
  assert (Hfit : forall u p, rs_positions s !! (u, sid) = Some p -> Position_net_qty p = spec_net p).
  { intros u p Hp. apply pos_net_exact. destruct (sk_book _ _ _ Hs _ _ Hp) as [Hok (w1 & w2 & _)].
    destruct (ix_symbols _ _ _ _ (sk_index _ _ _ Hs) _ _ _ Hp) as (Es & _ & Hr). split; [done|]. split; lia. }
  rewrite zsum_map. change (zsum (fun x => id (snd x)) (exposed_users s sid users)) with (zsum snd (exposed_users s sid users)).
  unfold exposed_users. rewrite (zsum_perm _ _ _ (merge_sort_Permutation _ _)).
  rewrite (omap_zsum (fun u => rs_positions s !! (u, sid)) users ltac:(intros u Hu; apply Hin in Hu as (p & Hp & _); eauto)).
  unfold symbol_net. rewrite (msum_keys _ (List.map (fun u => (u, sid)) users)).
  - rewrite zsum_map. apply zsum_ext. intros u Hu. apply Hin in Hu as (p & Hp & _). rewrite Hp. cbn. rewrite Z.eqb_refl. by apply (Hfit u).
  - by apply (NoDup_fmap_2 (fun u => (u, sid))).
  - intros k (u & <- & Hu)%in_map_iff. apply Hin in Hu as (p & Hp & _). eauto.
  - intros [u sy] p Hp Hf. cbn in Hf. case_if_in Hf; [|done]. bool_to_prop. subst sy. apply in_map_iff. exists u. split; [done|]. apply Hin.
    exists p. split; [done|]. unfold Position_is_empty, spec_net in *. lia.
Qed.

Lemma vget_cons {A} (a : A) l i : 0 <= i -> vget (a :: l) (i + 1) = vget l i.
Proof. intros Hi. rewrite !vget_lookup by lia. by replace (Z.to_nat (i + 1)) with (S (Z.to_nat i)) by lia. Qed.

(** Sums of lists bounded entry by entry. *)
Lemma zsum_pointwise {A B} (g : B -> Z) (h : A -> Z) d (qs : list A) : forall ps : list B,
  zlen ps = zlen qs -> (forall i q, vget qs i = Some q -> exists p, vget ps i = Some p /\ g p <= h q + d) ->
  zsum g ps <= zsum h qs + zlen qs * d.
Proof.
  induction qs as [|q qs IH]; intros [|p ps] Hl Hp; unfold zlen in Hl; cbn [length] in Hl; try lia;
    [change (0 <= 0 + 0 * d); lia|].
  rewrite !zsum_cons. destruct (Hp 0 q eq_refl) as (p' & [= <-] & Hb).
  assert (zlen (q :: qs) = zlen qs + 1) by (unfold zlen; cbn [length]; lia). specialize (IH ps ltac:(unfold zlen; lia)).
  assert (zsum g ps <= zsum h qs + zlen qs * d); [|nia]. apply IH. intros i x Hx. pose proof (vget_some_range _ _ _ Hx).
  destruct (Hp (i + 1) x) as (y & Hy & Hb'); [by rewrite vget_cons by lia|]. exists y. rewrite vget_cons in Hy by lia. done.
Qed.

Lemma combine_snd {A B} (l : list A) : forall l' : list B, zlen l' = zlen l -> List.map snd (combine l l') = l'.
Proof.
  induction l as [|a l IH]; intros [|b l'] Hl; unfold zlen in Hl; cbn [length] in Hl; try lia; [done|].
  cbn. f_equal. apply IH. unfold zlen. lia.
Qed.

Lemma charge_money sid iid rate now l : forall s ps acs c,
  balances_fit c (rs_accounts s) -> 0 <= c -> c + zsum Z.abs (List.map snd l) <= I64_MAX ->
  let s' := fst (fst (fold_left (charge_funding sid iid rate now) l (s, ps, acs))) in
  total_collateral (rs_accounts s') = total_collateral (rs_accounts s) - zsum id (List.map snd l) /\ rs_positions s' = rs_positions s.
Proof.
  induction l as [|[[u x] a] l IH]; intros s ps acs c Hb Hc HF; [cbn; unfold zsum; cbn; split; [lia | done]|].
  cbn [fold_left charge_funding List.map snd] in *. rewrite zsum_cons in *. assert (0 <= zsum Z.abs (List.map snd l)) by (apply zsum_nonneg; lia).
  assert (Ea : rs_accounts (ensure_account u s) = <[u := account_of s u]> (rs_accounts s) /\ rs_positions (ensure_account u s) = rs_positions s).
  { unfold ensure_account, account_of. destruct (rs_accounts s !! u) eqn:E; cbn; [by rewrite insert_id | done]. }
  destruct Ea as [Ea Ep]. rewrite Ea, lookup_insert_eq. set (s1 := set_accounts _ _).
  assert (E1 : rs_accounts s1 = <[u := deduct_fee a (account_of s u)]> (rs_accounts s)) by (cbn; by rewrite insert_insert_eq).
  assert (Hacc : Z.abs (ac_collateral (account_of s u)) <= c) by (unfold account_of; destruct (rs_accounts s !! u) eqn:E; cbn; [exact (Hb _ _ E) | lia]).
  pose proof (deduct_exact a (account_of s u) c Hacc ltac:(lia)) as Hd.
  match goal with |- context [fold_left _ l (s1, ?p, ?q)] => destruct (IH s1 p q (c + Z.abs a)) as [I1 I2] end; [|lia|lia|].
  - rewrite E1. apply map_Forall_insert_2; [rewrite Hd; lia | intros k y Hy; specialize (Hb k y Hy); cbn in *; lia].
  - split; [|by rewrite I2]. rewrite I1, E1. unfold total_collateral. rewrite msum_insert, Hd.
    assert (from_option (fun a0 => ac_collateral a0) 0 (rs_accounts s !! u) = ac_collateral (account_of s u)) as -> by (unfold account_of; by destruct (rs_accounts s !! u)).
    change (id a) with a. lia.
Qed.

(** The state of a symbol ready to settle. *)
Record priced (s : RiskShard) (sid mark index rate : Z) : Prop := {
  pc_mark : vget (rs_mark_prices s) sid = Some mark;
  pc_index : exists v, vget (rs_index_prices s) sid = Some (mkIndex index v);
  pc_live : mark <> 0 /\ index <> 0;
  pc_rate : exists mn mx, vget (rs_funding_min_bps s) sid = Some mn /\ vget (rs_funding_max_bps s) sid = Some mx /\
    calculate_rate mark index mn mx = Ok rate;
}.

(** C33: Funding moves exactly the funding of the open interest.  Settling an
    interval of a priced symbol changes no position and lowers the collateral
    of the shard's users together by the floor of net open interest times mark
    times rate, to the unit, although each user is charged separately. *)
Theorem funding_conserves q n sid iid now s mark index rate users c :
  shard_ok q n s -> q <= I64_MAX -> n <= I64_MAX -> 0 <= sid < rs_max_symbols s -> priced s sid mark index rate ->
  vget (rs_exposure s) sid = Some users ->
  let qs := List.map snd (exposed_users s sid users) in
  funding_fits qs mark rate -> balances_fit c (rs_accounts s) -> 0 <= c ->
  c + zsum (fun x => Z.abs (owed mark rate x)) qs + zlen qs * zlen qs <= I64_MAX ->
  exists s', try_settle_interval sid iid now s = Ok (true, s') /\ rs_positions s' = rs_positions s /\
    total_collateral (rs_accounts s') = total_collateral (rs_accounts s) - symbol_net sid (rs_positions s) * mark * rate / 10000.
Proof.
  intros Hs Hq Hn Hsid [Hmk (v & Hip) [Hm0 Hi0] (mn & mx & Hmn & Hmx & Hrate)] Hus qs Hfit Hbal Hc HF.
  unfold try_settle_interval, users_for_symbol. rewrite (vindex_some _ _ _ Hus), (vindex_some _ _ _ Hmk), (vindex_some _ _ _ Hip).
  rewrite (vindex_some _ _ _ Hmn), (vindex_some _ _ _ Hmx). cbn [mbind Res_bind ip_price].
  replace (mark =? 0) with false by lia. replace (index =? 0) with false by lia. cbn [negb andb]. rewrite andb_false_r, Hrate. cbn [mbind Res_bind].
  destruct (settle_exact qs mark rate Hfit) as (ps & Eps & Hlen & Hsum & j & Hj). fold qs. rewrite Eps. cbn [mbind Res_bind].
  assert (Hl : zlen ps = zlen (exposed_users s sid users)) by (rewrite Hlen; unfold qs; by rewrite zlen_map).
  assert (Habs : zsum Z.abs ps <= zsum (fun x => Z.abs (owed mark rate x)) qs + zlen qs * zlen qs).
  { apply zsum_pointwise; [done|]. intros i x Hx. destruct (Hj i x Hx) as (p & Hp & Hb & _). pose proof (zlen_nonneg qs). exists p. split; [done | lia]. }
  destruct (charge_money sid iid rate now (combine (exposed_users s sid users) ps) s [] [] c Hbal Hc) as [M1 M2]; [rewrite combine_snd by done; lia|].
  pose proof (charge_ok q n sid iid rate now (combine (exposed_users s sid users) ps) s [] [] Hs) as (Hok & _ & Hmax).
  destruct (fold_left _ _ _) as [[s1 pays] accs]. cbn [fst] in *. rewrite combine_snd in M1 by done.
  set (ev := PeFundingSettlement _). pose proof (push_persist_ok q n ev s1 Hok) as Hs2. destruct (push_persist_static ev s1) as [Pm _].
  pose proof (sh_fsettled _ (sk_shape _ _ _ Hs2)) as Hfl. rewrite vset_ok by lia. cbn [mbind Res_bind]. eexists. split; [done|]. cbn.
  destruct (push_persist_money ev s1) as (-> & _ & -> & _). split; [done|]. rewrite M1. rewrite Hsum.
  pose proof (exposed_net q n s sid users Hs Hq Hn Hus) as En. fold qs in En. unfold owed. by rewrite En.
Qed.

(** ** One settlement per interval *)

Lemma set_accounts_id s : set_accounts (rs_accounts s) s = s.
Proof. by destruct s. Qed.

Lemma charge_only_accounts sid iid rate now l : forall s ps acs,
  exists X, fst (fst (fold_left (charge_funding sid iid rate now) l (s, ps, acs))) = set_accounts X s.
Proof.
  induction l as [|[[u x] a] l IH]; intros s ps acs; [exists (rs_accounts s); by rewrite set_accounts_id|]. cbn [fold_left charge_funding].
  assert (Ha : exists A, ensure_account u s = set_accounts A s).
  { unfold ensure_account. case_match; [exists (rs_accounts s); by rewrite set_accounts_id | by eexists]. }
  destruct Ha as [A ->]. destruct (rs_accounts (set_accounts A s) !! u); edestruct IH as [X ->]; exists X; reflexivity.
Qed.

(** The intervals of a symbol that were handed to the persist worker. *)
Definition settled_ids (sid : Z) (log : list PersistEvent) : list Z :=
  omap (fun e => match e with PeFundingSettlement fs => if fs_symbol_id fs =? sid then Some (fs_interval_id fs) else None | _ => None end) log.

Lemma settled_ids_app sid l1 l2 : settled_ids sid (l1 ++ l2) = settled_ids sid l1 ++ settled_ids sid l2.
Proof. apply omap_app. Qed.

(** Settling one interval of a priced symbol. *)
Lemma settle_step q n sid iid now s mark index rate log :
  shard_ok q n s -> 0 <= sid < rs_max_symbols s -> priced s sid mark index rate ->
  rs_persist_producer s = Some (mkPersistRing log None) ->
  exists s1 log1, try_settle_interval sid iid now s = Ok (true, s1) /\ shard_ok q n s1 /\ priced s1 sid mark index rate /\
    rs_funding_settled s1 = vput (rs_funding_settled s) sid (Some iid) /\ rs_persist_producer s1 = Some (mkPersistRing log1 None) /\
    settled_ids sid log1 = settled_ids sid log ++ [iid] /\
    (rs_margin s1, rs_funding_interval_secs s1, rs_max_symbols s1) = (rs_margin s, rs_funding_interval_secs s, rs_max_symbols s).
Proof.
  intros Hs Hsid Hpr Hlog. destruct (try_settle_ok q n sid iid now s Hs Hsid) as (b & s1 & E & Hs1 & _ & _). pose proof E as E0.
  destruct Hpr as [Hmk (v & Hip) [Hm0 Hi0] (mn & mx & Hmn & Hmx & Hrate)].
  destruct (vget_is_some (rs_exposure s) sid) as [us Hus]; [by rewrite (sh_exposure _ (sk_shape _ _ _ Hs))|].
  unfold try_settle_interval, users_for_symbol in E. rewrite (vindex_some _ _ _ Hus), (vindex_some _ _ _ Hmk), (vindex_some _ _ _ Hip) in E.
  rewrite (vindex_some _ _ _ Hmn), (vindex_some _ _ _ Hmx) in E. cbn [mbind Res_bind ip_price] in E.
  replace (mark =? 0) with false in E by lia. replace (index =? 0) with false in E by lia. cbn [negb andb] in E. rewrite andb_false_r, Hrate in E.
  cbn [mbind Res_bind] in E. apply bind_ok in E as (ps & Eps & E).
  destruct (charge_only_accounts sid iid rate now (combine (exposed_users s sid us) ps) s [] []) as [X EX].
  destruct (fold_left _ _ _) as [[s2 pays] accs]. cbn [fst] in EX. subst s2. unfold push_persist in E.
  cbn [set_accounts rs_persist_producer] in E. rewrite Hlog in E. unfold persist_push in E. cbn [pr_gone pr_log] in E.
  cbn [set_persist_producer rs_funding_settled] in E. rewrite vset_ok in E by (cbn; rewrite (sh_fsettled _ (sk_shape _ _ _ Hs)); exact Hsid).
  cbn [mbind Res_bind] in E. injection E as <- <-. eexists _, _. split; [exact E0|]. split; [done|].
  split; [split; [exact Hmk | by exists v | done | by exists mn, mx]|]. split; [done|]. split; [done|]. split; [|done].
  rewrite settled_ids_app. f_equal. cbn. by rewrite Z.eqb_refl.
Qed.

Lemma settle_range q n sid now mark index rate k : forall first s log,
  shard_ok q n s -> 0 <= sid < rs_max_symbols s -> priced s sid mark index rate -> rs_persist_producer s = Some (mkPersistRing log None) ->
  let ids := zrange first (first + Z.of_nat k) in
  exists s1 log1, settle_ids sid now ids s = Ok (false, s1) /\ shard_ok q n s1 /\ rs_persist_producer s1 = Some (mkPersistRing log1 None) /\
    settled_ids sid log1 = settled_ids sid log ++ ids /\
    ((0 < k)%nat -> vget (rs_funding_settled s1) sid = Some (Some (first + Z.of_nat k - 1))) /\
    (rs_margin s1, rs_funding_interval_secs s1, rs_max_symbols s1) = (rs_margin s, rs_funding_interval_secs s, rs_max_symbols s).
Proof.
  induction k as [|k IH]; intros first s log Hs Hsid Hpr Hlog ids.
  - unfold ids. rewrite zrange_empty by lia. exists s, log. cbn. rewrite app_nil_r. split_and!; try done. lia.
  - assert (Eids : ids = first :: zrange (first + 1) (first + 1 + Z.of_nat k)).
    { unfold ids, zrange. replace (first + Z.of_nat (S k) - first) with (Z.succ (Z.of_nat k)) by lia. rewrite (seqZ_cons first) by lia. do 2 f_equal; lia. }
    rewrite Eids. cbn [settle_ids]. destruct (settle_step q n sid first now s mark index rate log Hs Hsid Hpr Hlog) as (s1 & log1 & -> & Hs1 & Hpr1 & Hst & Hlog1 & Hid & Hfr).
    cbn [mbind Res_bind]. injection Hfr as F1 F2 F3. destruct (IH (first + 1) s1 log1 Hs1 ltac:(by rewrite F3) Hpr1 Hlog1) as (s2 & log2 & E2 & Hs2 & Hl2 & Hid2 & Hset & Hfr2).
    exists s2, log2. split; [exact E2|]. split; [done|]. split; [done|]. split; [by rewrite Hid2, Hid, <- app_assoc|]. injection Hfr2 as G1 G2 G3.
    split; [|congruence]. intros _. destruct k as [|k]; [|rewrite Hset by lia; do 2 f_equal; lia].
    rewrite zrange_empty in E2 by lia. injection E2 as <-. rewrite Hst, vget_vput_eq; [do 2 f_equal; lia|].
    by rewrite (sh_fsettled _ (sk_shape _ _ _ Hs)).
Qed.

(** C34: Every funding interval is settled once.  When a priced symbol is behind,
    one pass settles each interval from the one after the last settled to the
    current one, in order, handing each to the persist worker exactly once,
    and records the current interval; a second pass at the same time settles
    nothing. *)
Theorem funding_once q n sid now w s mark index rate log params interval last :
  shard_ok q n s -> 0 <= sid < rs_max_symbols s -> priced s sid mark index rate ->
  rs_persist_producer s = Some (mkPersistRing log None) -> params_of (rs_margin s) sid = Some params ->
  vget (rs_funding_interval_secs s) sid = Some interval -> 0 < interval ->
  vget (rs_funding_settled s) sid = Some (Some last) -> 0 <= last < now / interval -> now / interval <= U64_MAX ->
  exists s' log', settle_symbol_due now (w, s) sid = Ok (w, s') /\ rs_persist_producer s' = Some (mkPersistRing log' None) /\
    settled_ids sid log' = settled_ids sid log ++ zrange (last + 1) (now / interval + 1) /\
    vget (rs_funding_settled s') sid = Some (Some (now / interval)) /\ settle_symbol_due now (w, s') sid = Ok (w, s').
Proof.
  intros Hs Hsid Hpr Hlog Hpar Hiv Hi0 Hlast Hlt Hmax.
  assert (Hid : interval_id now interval = now / interval) by (unfold interval_id; by replace (interval =? 0) with false by lia).
  destruct (settle_range q n sid now mark index rate (Z.to_nat (now / interval - last)) (last + 1) s log Hs Hsid Hpr Hlog) as (s1 & log1 & E1 & Hs1 & Hl1 & Hids & Hset & Hfr).
  replace (last + 1 + Z.of_nat (Z.to_nat (now / interval - last))) with (now / interval + 1) in * by lia. injection Hfr as F1 F2 F3. exists s1, log1.
  specialize (Hset ltac:(lia)). replace (now / interval + 1 - 1) with (now / interval) in Hset by lia. split.
  - unfold settle_symbol_due, is_settlement_due. rewrite Hpar, (vindex_some _ _ _ Hiv), (vindex_some _ _ _ Hlast). cbn [mbind Res_bind]. rewrite Hid.
    replace (now / interval >? last) with true by lia. cbn [negb]. rewrite wrap_u64_id by width_lia. rewrite E1. cbn [mbind Res_bind]. by rewrite orb_false_r.
  - split_and!; try done. unfold settle_symbol_due, is_settlement_due. rewrite F1, F2, Hpar, (vindex_some _ _ _ Hiv), (vindex_some _ _ _ Hset).
    cbn [mbind Res_bind]. rewrite Hid. by replace (now / interval >? now / interval) with false by lia.
Qed.

(** A cold start rebuilds the shard.  Loading a state replaces accounts,
    positions and open orders by the loaded ones and rebuilds every secondary
    index from them, whatever the order in which the maps are walked: the
    result is a well-formed shard, in which each user's reserved margin is the
    one his loaded orders reserve, and tips never exceed their columns. *)
Theorem cold_start_rebuilds q n st s :
  shard_ok q n s -> cold_ok q n (rs_max_symbols s) st ->
  exists s', set_state st s = Ok s' /\ shard_ok q n s' /\
    rs_accounts s' = cs_accounts st /\ rs_positions s' = cs_positions st /\ rs_frozen_orders s' = cs_frozen_orders st /\
    rs_tips s' = copy_prefix (rs_tips s) (cs_tips st) /\
    forall u, frozen_fits (cs_frozen_orders st) u -> frozen_for_user s' u = spec_frozen (cs_frozen_orders st) u.
Proof.
  intros Hs Hc. destruct (set_state_ok q n st s Hs Hc) as (s' & E & Hs' & A & P & F & T). exists s'. split_and!; try done.
  intros u Hu. rewrite <- F in *. by apply (frozen_for_user_exact q n).
Qed.

End Money.
