(* ===== verification/RiskExamples.v ===== *)
(** * RiskExamples: a risk shard at work

    A small shard loaded from a cold start, configured and priced, on which
    the guarantees of [ShardClaims] and [ShardMoney] are applied. *)

From stdpp Require Import sorting.
From S2P Require Import Prelude Hash Messages Types Position Margin Funding Liquidation ShardState Shard ShardInv.
From S2P Require Import ShardFill ShardTick ShardClaims ShardMoney.

(** Decides a closed hypothesis by evaluation. *)
Ltac vm_check :=
  match goal with
  | |- _ /\ _ => split; vm_check
  | |- _ = _ => vm_compute; reflexivity
  | |- _ <> _ => vm_compute; discriminate
  | |- _ <= _ => vm_compute; discriminate
  | |- _ < _ => vm_compute; reflexivity
  | |- rates_ok _ => vm_compute; repeat constructor; discriminate
  | |- marks_ok ?m => apply (bool_decide_unpack (Forall (fun x => 0 <= x <= I64_MAX) m)); vm_compute; exact I
  | |- balances_fit ?c ?m => apply (bool_decide_unpack (map_Forall (fun _ a => Z.abs (ac_collateral a) <= c) m)); vm_compute; exact I
  | |- map_Forall ?P ?m => apply (bool_decide_unpack (map_Forall P m)); vm_compute; exact I
  | |- sums_fit _ _ _ _ _ => vm_compute; discriminate
  | |- funding_fits _ _ _ => split; vm_check
  | |- fill_ok _ => split; vm_check
  | |- fill_room _ _ _ => split; vm_check
  end.

(** ** The shard *)

Module RiskDemo.

Definition params : SymbolRiskParams := mkRiskParams 1000 500 10 100.
Definition config : ShardConfig := mkShardConfig 0 1 2 [None; None] [5; 5] [2; 2] 1000 10 3 500 60000.
Definition symbol : SymbolRiskConfig := mkRiskConfig 0 1 params 5 2 10 3600 (-75) 75.

(** User 7 is long ten lots, user 8 short; user 9 is under water. *)
Definition cold : ColdStartState := {|
  cs_accounts := {[ 7 := mkAccount 7 1000000 0; 8 := mkAccount 8 1000000 0; 9 := mkAccount 9 (-500) 0 ]};
  cs_positions := {[ (7, 0) := mkPosition 7 0 10 0 100000 0 0 1 1; (8, 0) := mkPosition 8 0 0 10 0 100000 0 1 1 ]};
  cs_tips := [1; 0];
  cs_insurance_funds := {[ 0 := mkFund 0 5000 0 ]};
  cs_frozen_orders := {[ 77 := mkFreeze 7 0 1250; 78 := mkFreeze 8 0 40 ]};
  cs_funding_settled := [Some 5; None];
|}.

(** The result of an operation that returns. *)
Definition run1 (f : RiskShard -> Res RiskShard) (s : RiskShard) : RiskShard := match f s with Ok s' => s' | _ => s end.

Definition loaded : RiskShard := run1 (set_state cold) (RiskShard_new config).
Definition configured : RiskShard := run1 (apply_symbol_config symbol) loaded.
Definition marked : RiskShard := run1 (update_mark 0 10050) configured.
Definition quoted : RiskShard := run1 (process_bbo (mkBboUpdate 1 0 9990 5 10010 5)) marked.
Definition shard : RiskShard := set_persist_ring (mkPersistRing [] None) quoted.
Definition rings : ShardRings := mkRings (mkRing [] 16) (mkRing [] 16).

Definition fill : FillEvent := mkFillEvent 2 0 7 8 10000 5 0 99.
Definition order : OrderRequest := mkOrderRequest 0 7 0 10000 3 1 2 99 0 0 false false false.
Definition loss : SocializedLoss := mkLoss 9 0 4 1 10050 0 99.

Lemma run1_ok q n f s : (exists s', f s = Ok s' /\ shard_ok q n s') -> shard_ok q n (run1 f s).
Proof. intros (s' & E & Hs). unfold run1. by rewrite E. Qed.

(** Budget of the shard: the quantity and the value of its positions. *)
Lemma cold_fits : cold_ok 10 100000 (rs_max_symbols (RiskShard_new config)) cold.
Proof.
  unfold cold_ok, cold. cbn [cs_positions]. apply map_Forall_insert_2; [|apply map_Forall_singleton];
    (split_and!; [done | done | done | done | split; cbn; lia | unfold pos_within, cash; cbn; lia ..]).
Qed.

Lemma load_good s : shard_ok 10 100000 s -> rs_max_symbols s = 2 -> shard_ok 10 100000 (run1 (set_state cold) s).
Proof.
  intros Hs Hm. destruct (set_state_ok 10 100000 cold s Hs) as (s' & E & Hs' & _); [rewrite Hm; exact cold_fits|].
  apply run1_ok. by exists s'.
Qed.

Lemma configure_good s : shard_ok 10 100000 s -> shard_ok 10 100000 (run1 (apply_symbol_config symbol) s).
Proof. intros Hs. apply run1_ok. destruct (apply_config_ok 10 100000 symbol s Hs) as (s' & E & Hs' & _); [done|]. by exists s'. Qed.

Lemma price_good s b px : shard_ok 10 100000 s -> 0 <= bu_symbol_id b -> shard_ok 10 100000 (run1 (process_bbo b) (run1 (update_mark 0 px) s)).
Proof. intros Hs Hb. apply run1_ok, process_bbo_ok; [|done]. by apply run1_ok, update_mark_ok. Qed.

Lemma ring_good r s : shard_ok 10 100000 s -> shard_ok 10 100000 (set_persist_ring r s).
Proof. intros [[] ? ? ? ? ?]. shard_keep. Qed.

Lemma new_good : shard_ok 10 100000 (RiskShard_new config).
Proof. apply (shard_mono 0 0); [lia | lia|]. apply new_shard_ok. unfold shard_config_ok, U32_MAX. cbn. unfold zlen. cbn. lia. Qed.

Lemma shard_good : shard_ok 10 100000 shard.
Proof. exact (ring_good _ _ (price_good _ (mkBboUpdate 1 0 9990 5 10010 5) 10050 (configure_good _ (load_good _ new_good eq_refl)) (Z.le_refl 0))). Qed.

(** The shard after accepting the order. *)
Definition accepted : RiskShard := match process_order order shard with Ok (_, s') => s' | _ => shard end.

Lemma is_priced : priced shard 0 10050 10000 50.
Proof.
  split; [by vm_compute | exists true; by vm_compute | done |]. exists (-75), 75. by vm_compute.
Qed.

End RiskDemo.

(** ** The guarantees, applied *)

Lemma shard_session_safe_witness :
  let ops := [OpOrder RiskDemo.order; OpFill RiskDemo.fill; OpMark 0 9000] in
  exists s' r', rfold (fun st op => run_op op st) (RiskDemo.shard, RiskDemo.rings) ops = Ok (s', r') /\
    index_ok (rs_max_symbols s') (rs_positions s') (rs_positions_by_user s') (rs_exposure s') /\
    frozen_ok (rs_frozen_orders s') (rs_frozen_by_user s') /\ map_Forall (fun _ p => pos_ok p) (rs_positions s') /\
    NoDup (live_keys (le_active (rs_liquidation s'))).
Proof.
  apply (shard_session_safe [OpOrder RiskDemo.order; OpFill RiskDemo.fill; OpMark 0 9000] 10 100000 _ _ RiskDemo.shard_good).
  split; [split; [done|]; intros f Hf; vm_compute in Hf; discriminate Hf|]. intros st1 _.
  split; [vm_compute; intuition discriminate|]. intros st2 _. split; [done|]. done.
Defined.

Lemma fill_exact_witness :
  exists s', process_fill RiskDemo.fill RiskDemo.shard = Ok s' /\
    if 2 <=? 1 then s' = RiskDemo.shard
    else (rs_positions s', rs_accounts s') = fill_maps RiskDemo.shard RiskDemo.fill 5 2 (rs_positions RiskDemo.shard, rs_accounts RiskDemo.shard) /\
         rs_tips s' = vput (rs_tips RiskDemo.shard) 0 2 /\
         rs_frozen_orders s' = rs_frozen_orders RiskDemo.shard /\ rs_insurance_funds s' = rs_insurance_funds RiskDemo.shard.
Proof.
  apply (fill_exact 10 100000 RiskDemo.fill RiskDemo.shard 1 5 2 RiskDemo.shard_good); vm_check.
Defined.

Lemma fills_exactly_once_witness :
  exists s', rfold (fun s f => process_fill f s) RiskDemo.shard [RiskDemo.fill; mkFillEvent 3 0 8 7 10010 2 0 99] = Ok s' /\
    rfold (fun s f => process_fill f s) s' [mkFillEvent 3 0 8 7 10010 2 0 99] = Ok s' /\ forall sid, tip_of RiskDemo.shard sid <= tip_of s' sid.
Proof.
  apply (fills_exactly_once 10 100000 [RiskDemo.fill; mkFillEvent 3 0 8 7 10010 2 0 99] [mkFillEvent 3 0 8 7 10010 2 0 99] _ RiskDemo.shard_good).
  - vm_compute. intuition discriminate.
  - intros g [<-|[]]. cbn. auto.
Defined.

Lemma fill_conserves_witness :
  let s' := RiskDemo.run1 (process_fill RiskDemo.fill) RiskDemo.shard in
  let t := mine RiskDemo.shard 7 in
  let m := mine RiskDemo.shard 8 in
  symbol_net 0 (rs_positions s') = symbol_net 0 (rs_positions RiskDemo.shard) + (if t then signed 0 5 else 0) - (if m then signed 0 5 else 0) /\
  (forall sid, sid <> 0 -> symbol_net sid (rs_positions s') = symbol_net sid (rs_positions RiskDemo.shard)) /\
  total_collateral (rs_accounts s') = total_collateral (rs_accounts RiskDemo.shard) -
    (if t then calculate_fee 5 10000 5 else 0) - (if m then calculate_fee 5 10000 2 else 0).
Proof.
  apply (fill_conserves 10 100000 RiskDemo.fill RiskDemo.shard (RiskDemo.run1 (process_fill RiskDemo.fill) RiskDemo.shard) 1 5 2 1000000 RiskDemo.shard_good);
    vm_check.
Defined.

Lemma frozen_is_sum_witness :
  frozen_for_user RiskDemo.shard 7 = msum (fun _ f => if fz_user_id f =? 7 then fz_amount f else 0) (rs_frozen_orders RiskDemo.shard).
Proof.
  apply (frozen_is_sum 10 100000 RiskDemo.shard 7 RiskDemo.shard_good); vm_check.
Defined.

Lemma order_keeps_solvent_witness :
  let s' := RiskDemo.accepted in
  0 <= 3015 /\ frozen_for_user s' 7 = frozen_for_user RiskDemo.shard 7 + 3015 /\
  exists st, calculate (rs_margin s') (mkAccount 7 1000000 0) (iter_positions_for_user s' 7) (rs_fallback_mark_prices s')
    (frozen_for_user s' 7) = Ok st /\ 0 <= ms_available_margin st /\ ms_maintenance_margin st <= ms_equity st.
Proof.
  apply (order_keeps_solvent 10 100000 RiskDemo.order RiskDemo.shard RiskDemo.accepted 3015 5 (mkAccount 7 1000000 0) RiskDemo.shard_good);
    vm_check.
Defined.

Lemma release_restores_witness :
  exists s'', release_frozen_for_order 7 1 2 RiskDemo.accepted = Ok s'' /\
    rs_frozen_orders s'' = rs_frozen_orders RiskDemo.shard /\ forall v, frozen_for_user s'' v = frozen_for_user RiskDemo.shard v.
Proof. apply (release_restores 10 100000 RiskDemo.order RiskDemo.shard RiskDemo.accepted 3015 RiskDemo.shard_good); vm_check. Defined.

Lemma loss_moves_deficit_witness :
  exists o s', process_socialized_loss RiskDemo.loss 99 RiskDemo.shard = Ok (o, s') /\
    (0 <= -500 -> s' = RiskDemo.shard /\ o = None) /\
    (-500 < 0 -> o <> None /\
      total_collateral (rs_accounts s') + total_funds (rs_insurance_funds s') =
        total_collateral (rs_accounts RiskDemo.shard) + total_funds (rs_insurance_funds RiskDemo.shard) /\
      (forall u, u <> 9 -> rs_accounts s' !! u = rs_accounts RiskDemo.shard !! u) /\
      exists a' st', rs_accounts s' !! 9 = Some a' /\ ac_collateral a' = -500 - -500 /\
        calculate (rs_margin s') a' (iter_positions_for_user s' 9) (rs_fallback_mark_prices s') (frozen_for_user RiskDemo.shard 9) = Ok st' /\ ms_equity st' = 0).
Proof.
  apply (loss_moves_deficit 10 100000 RiskDemo.loss 99 RiskDemo.shard (mkAccount 9 (-500) 0) 5000 RiskDemo.shard_good);
    vm_check.
Defined.

Lemma funding_conserves_witness :
  exists s', try_settle_interval 0 6 99 RiskDemo.shard = Ok (true, s') /\ rs_positions s' = rs_positions RiskDemo.shard /\
    total_collateral (rs_accounts s') = total_collateral (rs_accounts RiskDemo.shard) - symbol_net 0 (rs_positions RiskDemo.shard) * 10050 * 50 / 10000.
Proof.
  apply (funding_conserves 10 100000 0 6 99 RiskDemo.shard 10050 10000 50 [7; 8] 1000000 RiskDemo.shard_good); try exact RiskDemo.is_priced; vm_check.
Defined.

Lemma funding_once_witness :
  exists s' log', settle_symbol_due 28900 (false, RiskDemo.shard) 0 = Ok (false, s') /\ rs_persist_producer s' = Some (mkPersistRing log' None) /\
    settled_ids 0 log' = settled_ids 0 [] ++ zrange (5 + 1) (28900 / 3600 + 1) /\
    vget (rs_funding_settled s') 0 = Some (Some (28900 / 3600)) /\ settle_symbol_due 28900 (false, s') 0 = Ok (false, s').
Proof.
  apply (funding_once 10 100000 0 28900 false RiskDemo.shard 10050 10000 50 [] RiskDemo.params 3600 5 RiskDemo.shard_good);
    try exact RiskDemo.is_priced; vm_check.
Defined.

Lemma cold_start_rebuilds_witness :
  let s := RiskShard_new RiskDemo.config in
  exists s', set_state RiskDemo.cold s = Ok s' /\ shard_ok 10 100000 s' /\
    rs_accounts s' = cs_accounts RiskDemo.cold /\ rs_positions s' = cs_positions RiskDemo.cold /\ rs_frozen_orders s' = cs_frozen_orders RiskDemo.cold /\
    rs_tips s' = copy_prefix (rs_tips s) (cs_tips RiskDemo.cold) /\
    forall u, frozen_fits (cs_frozen_orders RiskDemo.cold) u -> frozen_for_user s' u = spec_frozen (cs_frozen_orders RiskDemo.cold) u.
Proof. exact (cold_start_rebuilds 10 100000 RiskDemo.cold (RiskShard_new RiskDemo.config) RiskDemo.new_good RiskDemo.cold_fits). Defined.
